(* ===== verification/_CoqProject ===== *)
-Q . S2P
Prelude.v
Bits.v
Bytes.v
Wire.v
Services.v
SmmLayout.v
Lz4.v
Crypto.v
Root.v
Manifest.v
Memory.v
SmmImage.v
SmmInstall.v
SmmEffects.v
SmmSaveState.v
SmmDispatch.v
BootMedia.v
Load.v
Store.v
Mtrr.v
StageLayout.v
Resume.v
Tpm.v
Tis.v
TisFifo.v
EventLog.v
Tcg.v
MeasuredBoot.v
TisBoot.v
Fdt.v
FdtTree.v
FdtPatch.v
FdtMemory.v
FdtMemoryTree.v
Locator.v
Ledger.v
LoadPolicy.v
Stage.v
StageFiles.v
Fit.v
FitLoad.v
FdtWorkspace.v
FdtConfined.v
StageLoads.v
StageFit.v
FdtWorkspaceTree.v
PciPool.v
Pci.v
PciEnum.v
PciAlloc.v
PciSafe.v
PciDistinct.v
PciStores.v
PciProgram.v
PciHost.v
UnstableSort.v
SysMap.v
E820.v
AmdMemory.v
BoardMemory.v
Sp3Memory.v
Reader.v
