(* ===== verification/Prelude.v ===== *)
(** * Verification of the fstart firmware framework

    fstart is a firmware framework in Rust: a board's stages initialise memory,
    authenticate the next stage in flash, place it in RAM and jump to it, and
    finally hand over to a payload.  This development models the code that
    decides what runs, where it is put and how memory is described, and proves
    that code correct.

    ** The program and the files that model it

    A stage finds the signed boot root in flash, authenticates it against the
    policy built into the stage, takes the descriptor of the next stage (or of
    the directory) from it, and loads the described bytes:

      medium -> read -> digest -> measure -> decompress -> digest -> run.

    State that outlives a stage (the memory map, the stage cache of an S3
    resume) is kept as entries of the firmware store in RAM.

    - [Prelude]: the outcomes of Rust code ([res]: [Ok], [Err], [Panic]) and
      state passing over them ([sres]), their notations and tactics, machine
      integers with their checked operations, the pointer width of the build
      target ([Target]).
    - [Bits], [Bytes], [Wire], [Services]: lowest set bits, byte buffers and
      slices, little-endian codecs, fixed-layout records and record tables, bounded
      vectors.
    - [Crypto]: [crates/crypto/src/verify.rs], [crates/crypto/src/digest.rs].
      The hash and signature primitives are third-party crates: they are the
      fields of the class [Crypto], which every client is proved against.
    - [Root]: [crates/ffs/src/root.rs], the signed boot root: its record, parser
      and encoder, and the trust decision [authenticate_root].
    - [Manifest]: [crates/ffs/src/manifest.rs], the file directory: the raw
      record tables ([ManifestView]), [manifest_parse] and the seven loops of
      [manifest_validate], the lookups, the owned tree and the host's
      [encode_manifest].
    - [BootMedia]: [crates/core/src/services/boot_media.rs] and [firmware.rs]:
      the traits [BootMedia] and [FlashMap] as classes with laws
      ([BootMediaLaws], [FlashMapLaws]), their implementations (memory-mapped
      windows, sub-regions, block devices) and the temporary RAM arena.
    - [Lz4]: [crates/ffs/src/lz4.rs], the block decoder with its overshooting
      copies.
    - [Load]: [crates/load/src/lib.rs], the verified loader over any boot
      medium, physical memory and a memory policy.
    - [Store]: [crates/store/src/lib.rs], the firmware store, a transfer list in
      a RAM window.
    - [Resume]: [crates/resume/src], the stage cache of an S3 resume, which uses
      the loader and the store.
    - [Mtrr]: [crates/arch/src/x86/mtrr.rs], the solver that covers a RAM map
      with memory type range registers, and the register encodings.
    - [SmmLayout]: [crates/smm/src/layout.rs], placement of the SMM handler,
      stacks and save states in SMRAM, and the identity page tables.
    - [Memory]: physical memory, a byte per address, and the loops of stores
      into it.
    - [SmmImage], [SmmInstall], [SmmEffects]: [crates/smm/src/header.rs],
      [installer.rs] and [runtime_abi.rs]: the SMM image and its installation
      over the placement of [SmmLayout]; what the stores leave in SMRAM.
    - [SmmSaveState], [SmmDispatch]: [crates/smm/src/save_state.rs],
      [handler.rs] and [stage.rs]: the processors' save areas, and what a CPU
      does on an SMI, with the rendezvous of all CPUs as a step relation.
    - [StageLayout]: [crates/core/src/layout.rs] and the host encoder
      [crates/image-build/src/layout.rs], the stage-local layout descriptor.

    - [Tpm], [EventLog], [Tcg], [MeasuredBoot]: [crates/driver-tpm/src] (the TPM
      1.2 and 2.0 commands), [crates/tcg/src] (the event log, starting measured
      boot, measuring, hand-off), and the replay argument over both.
    - [Tis], [TisFifo], [TisBoot]: [crates/driver-tpm/src/tis.rs], the FIFO
      interface under the commands: the driver over an abstract [Bus], the laws of
      a device behind it ([FifoLaws]) under which it is the transport of [Tpm],
      and a simulated device that keeps them.
    - [Fdt], [FdtTree], [FdtPatch], [FdtMemory], [FdtMemoryTree]:
      [crates/fdt/src/lib.rs], setting the boot arguments and the memory node of a
      device tree blob, and the trees the bytes stand for.
    - [FdtWorkspace], [FdtConfined], [FdtWorkspaceTree]:
      [crates/stage/src/fdt_workspace.rs], which checks and copies a device tree
      into the registered window of [Stage] and patches it there; why nothing
      outside the window changes, and what the window holds afterwards.
    - [Locator]: [crates/core/src/ffs/locator.rs], [trust.rs],
      [crates/core/src/handoff.rs] and the stage's side of them: how a stage
      knows where the image is and which keys it trusts.
    - [Ledger], [LoadPolicy]: [crates/stage/src/loaded.rs] and the memory policy
      of [directory.rs]: what a stage has loaded and where it may load.
    - [Stage], [StageFiles]: [crates/stage/src/root.rs], [directory.rs],
      [ffs_helpers.rs]: the chain of trust from the linked keys to the loaded
      files, over all the components above, and what it establishes up to the plan
      of a load.
    - [Fit], [FitLoad]: [crates/boot/src/fit/parser.rs] and
      [crates/stage/src/fit.rs], reading a flattened image tree over a third-party
      reader of device trees (the class [Dtoolkit]) and loading its kernel and
      ramdisk.
    - [StageLoads], [StageFit]: everything a stage does as a step relation (the
      directory, the policy, the workspace, loads by type, by name and from a
      container, the preparation of the device tree), its invariant, and the loads
      on the states it reaches.
    - [PciPool], [Pci], [PciEnum], [PciDistinct], [PciAlloc], [PciSafe],
      [PciStores], [PciProgram], [PciHost]: [crates/pci/src/ecam_host.rs], the PCI
      host bridge: address pools, enumeration and sizing over a mapped
      configuration space (the class [ConfigSpace]), placement of base address
      registers, bridge windows; what enumeration finds, each function once, what
      allocation places, why neither panics, what both store to the registers, and
      the whole run.
    - [Reader]: [crates/ffs/src/reader.rs], the file system in a whole image: the
      scan for the locator, the policy record, the authenticated directory and the
      checks of single files, over [Locator], [Root] and [Manifest].
    - [BoardMemory]: [crates/core/src/memory.rs], the memory regions a board
      declares, the layout of its flash and the window of the firmware in it.
    - [E820]: [crates/core/src/services/memory_detect.rs], the map handed to the
      operating system and the operations that cut ranges out of it.
    - [UnstableSort], [SysMap]: [crates/driver-amd/src/apob/sysmap.rs], the memory
      map of an AMD system from the holes its security processor reports.
      [sort_unstable] of the standard library is the class [UnstableSort]: any
      sorted permutation, so that a theorem holds for every order of equal keys.
    - [AmdMemory], [Sp3Memory]: [crates/platform-amd/src/noncar/memory.rs] and
      [crates/platform-sp3/src/memory.rs], how a client and a server platform make
      the operating system's map of [SysMap]'s, with [E820] or with a sweep over
      layers of their own.

    Definitions keep the names of the source.  A Rust struct is a [Record], an
    enum an [Inductive]; a method of a mutable object takes the object's state
    and returns the new one; a loop is a [Fixpoint] over the list it iterates
    or over fuel.  A struct whose name occurs in several crates, or a function
    whose name is a constant of a library, is prefixed ([LayoutError],
    [root_parse], [manifest_parse], [cache_store]).

    ** What the theorems show

    - Trust: a byte string authenticates exactly when it is the encoding of a
      well-formed root that the policy allows and exactly one of its keys signs
      ([Root.authenticate_root_iff]); the root's wire format is canonical
      ([Root.root_parse_iff]).
    - The stage: whatever a stage does, its directory is the one an authentic
      root or its trusted predecessor names, and every file and every image of a
      container it has loaded is still in memory, verified and apart from the
      others ([StageLoads.loaded_files_intact]); what loading by type returns, and
      that it leaves what was loaded alone ([StageLoads.load_by_type_outcome]); the ledger and the policy behind it
      ([Ledger.ledger_keeps_apart], [LoadPolicy.grant_permits_iff]); a locator
      reaches the next stage unchanged ([Locator.handoff_carries_locator]); a
      kernel and a ramdisk come unchanged out of an authentic container and touch
      nothing else, a ramdisk the container does not have being left out
      ([StageFit.load_fit_outcome]), and a hash of an image is verified
      by its own algorithm or not at all ([Fit.verify_hashes_iff]).
    - Loading: what a successful load leaves in memory has the digests of its
      descriptor and was measured once, and the entry point is inside it
      ([Load.load_bootstrap_sound]); no outcome writes outside the permitted
      footprint ([Load.load_bootstrap_confined], [Load.permits_iff]); a good
      image loads ([Load.load_bootstrap_complete]).
    - Decompression: the decoder implements the LZ4 block format, given as an
      inductive relation on byte strings, soundly and completely, and never
      panics ([Lz4.decompress_block_sound], [_complete], [_no_panic]).
    - Media: a read through decode windows returns the image's bytes and
      succeeds exactly on the ranges they cover ([BootMedia.image_read_at_iff]);
      arena allocations are aligned and disjoint ([BootMedia.arena_alloc_iff]).
    - Directory: the host's encoding is read back ([Manifest.manifest_roundtrip]);
      a parsed directory is well formed ([Manifest.manifest_parse_sound]) and
      nothing makes the parser panic; a lookup returns the one file it names and
      its bytes lie inside its region.
    - Store: [open] accepts exactly the windows that hold a list
      ([Store.open_iff]); [add], [limit] and [relocate] refine operations on the
      abstract list of entries, with their errors.
    - Resume: a slot is sealed only over a complete body
      ([Resume.cache_store_seals]); whatever is loaded, from flash or from the
      cache, is authenticated ([Resume.load_stage_sound]); what a cold boot
      cached, a resume loads ([Resume.cold_boot_resumes]).
    - Memory types: the planned registers give every address the requested type
      under the processor's precedence rules ([Mtrr.build_realizes]); the
      encodings and the fixed registers agree with the plan.
    - SMRAM: accepted placements are disjoint and inside SMRAM, enough room is
      always accepted, nothing overflows ([SmmLayout.compute_cpu_layout_sound],
      [_complete], [_no_panic]); the page tables are the identity below 4 GiB.
    - SMM: an installation that fails has written nothing and none writes outside
      SMRAM ([SmmEffects.install_pic_image_confined]); one that succeeds leaves
      every region as planned, the rebased handler and each CPU's stub, arguments
      and canary included ([SmmEffects.install_pic_image_leaves]); the handler
      finds the configuration the installer was given
      ([SmmDispatch.handler_finds_config]); one CPU dispatches at a time and all
      leave SMM ([SmmDispatch.rendezvous_exclusive], [rendezvous_drains]); save
      areas change in one field ([SmmSaveState.write_smbase_exact]).
    - TPM interface: over every device that keeps the promises of the TIS the FIFO
      driver executes a command at most once and returns the device's answer
      ([TisFifo.tis_implements_transport]).
    - Stage layout: the parser accepts exactly the encoder's outputs
      ([StageLayout.layout_parse_iff], [StageLayout.layout_roundtrip]).

    - Measured boot: replaying the log gives the PCRs of the TPM
      ([MeasuredBoot.log_replays_to_pcrs]); a failure caps them or refuses the
      payload; the hand-off locks the TPM, a TPM 1.2 by its physical presence
      ([MeasuredBoot.handoff_locks]); the log reads back.  The promises of a TPM
      are the class of [Tpm], which a simulated TPM of either family keeps.
    - Device tree: setting the boot arguments sets them in the tree
      ([FdtPatch.set_bootargs_sets]), but for shorter values
      ([FdtPatch.shorter_bootargs_corrupt]); setting the memory sets the memory
      node of the tree, or adds one ([FdtMemoryTree.set_memory_sets]), modulo the
      width of the cells ([FdtMemoryTree.cells_value]); in a workspace of the size
      its check asks for, a tree with a [/chosen] node and cell counts of one or two
      is prepared ([FdtWorkspaceTree.prepare_platform_sets]), and no bytes make a
      preparation write outside it ([FdtConfined.prepare_confined]).
    - PCI: a successful run gives every movable base address register an aligned
      range of its own from its root's pools, leaves it in the register and has the
      function decode it ([PciHost.resources_placed],
      [PciPool.allocate_aligned_spec]); every discovered function has its path of
      bridges ([PciEnum.device_path_found]); the run returns
      ([PciHost.enumeration_total]); the windows of sibling bridges can overlap
      all the same ([PciHost.sibling_windows_overlap]).

    - The operating system's memory: cutting a range out of the map changes the
      kind of just its addresses and keeps the map canonical
      ([E820.retype_means]), and succeeds while two
      entries are free ([E820.reserve_range_succeeds]); the regions of the holes
      are RAM exactly below the top and outside the holes
      ([SysMap.memory_map_means]); what a platform offers is exactly the DRAM
      that the firmware does not keep ([AmdMemory.amd_e820_means], but for a low top
      of exactly 4 GiB, and [Sp3Memory.os_ram_is_free_dram]); the sweep of the
      servers gives every address what the holes, the reservations and the RAM that
      cover it ask for ([Sp3Memory.sp3_e820_means]).
    - The board's memory: the check of a flash layout accepts exactly the layouts
      of aligned, non-empty, disjoint regions of distinct kinds with a BIOS and a
      descriptor ([BoardMemory.check_iff_valid]); normalising
      leaves a ROM region for the firmware's window
      ([BoardMemory.normalize_derived_flash_means]); without a layout the window
      is the ROM, where no ROM regions overlap
      ([BoardMemory.contiguous_rom_window_iff]).
    - Host inspection: a directory is read exactly from an image whose own policy
      record trusts its root ([Reader.read_manifest_iff]); the scan finds the first
      locator ([Reader.scan_for_anchor_finds]); a file passes exactly when its
      bytes have its digests ([Reader.verify_entry_digests_iff]).

    Two theorems record where the store departs from its own documentation:
    [Store.open_huge_entry] (a panic on 32-bit targets where a foreign list
    should be refused) and [Store.add_breaks_checksum] (a list with a checksum
    does not open after [add]).  Others are about the memory maps:
    [AmdMemory.low_4gib_is_lost] (a low top of exactly 4 GiB leaves no RAM below
    4 GiB) and [BoardMemory.gap_is_a_window] (overlapping ROM regions hide a gap).

    ** Conventions and bounds

    [Panic] covers out-of-range indexing, failed assertions and arithmetic that
    leaves its type, so that a theorem that excludes it holds with overflow
    checks and without them.  Slices have at most [isize::MAX] bytes; theorems
    that need it say so.  Fuel is always computed from the input and shown to be
    enough by the theorem that the routine does not panic, because running out
    of it is [Panic]: the copy loops of [Lz4] and [BootMedia] make progress of a
    byte per round and get one round more than the buffer has bytes; the MTRR
    search halves or consumes its input; the scan of PCI buses gets 256 levels,
    one for each bus number, and the placement of base address registers a round
    for each.  The scans of [Reader] and of [Fdt] and [FdtMemory] get a
    round per byte.  The transfer loops of [Tis] get a round per byte, because a
    burst is never empty; a poll is run for the number of rounds its timeout
    allows.
    The fixed capacities of the source are kept and running into them is an
    outcome: 128 entries of the e820 map, 18 holes and the spans they make, 16
    regions of a board; [AmdMemory.amd_e820_means] shows that 39 firmware regions
    still fit.  [Target] is 32 or 64 bits and theorems hold for both unless one is
    named; the SMM files read it as i686 and x86_64.  What hardware does with a
    store to a configuration register is not assumed: the PCI theorems name the
    last store that meets a register.

    ** What is not modelled

    The primitives behind [Crypto], the block device behind [BlockDeviceMedia],
    the bus and the device behind the TPM's registers and the reader of device
    trees behind [Dtoolkit] are parameters.  Assembly entry code, register-level
    drivers, board tables, ACPI generation, logging and the host tools other than
    the encoders are left out: they are input and output, generated code, or
    drive hardware this development does not describe.

    The load of a bootstrap image by a policy of its own
    ([Stage.stage_load_with_policy]) is modelled, but is no step of [StageLoads]: it
    is the hand-over, which goes past the ledger and ends in the jump to what it has
    loaded; [Load] says what it leaves.

    Of the modelled crates these parts are left out: [microcode_blob] of
    [ffs_helpers.rs], which copies one verified file to the heap, reading the
    holes out of the security processor's blob
    ([crates/driver-amd/src/apob/mod.rs]), writing the registers that [Mtrr]
    plans, the ECAM base of [crates/pci/src/ecam.rs], and the platforms that take
    the tops of memory from chipset registers.  The hand-off to a payload builds
    tables from all platforms' data and jumps. *)

From Stdlib Require Import ZArith Lia.
From stdpp Require Import base numbers list option.

#[local] Open Scope Z_scope.

(** ** Outcomes of Rust code

    A fallible routine returns [Ok], one of its own errors [Err], or [Panic].
    [Panic] stands for an out-of-range index or slice, an explicit [panic!] or
    [assert!], and an arithmetic operator that leaves its type's range (a panic
    with overflow checks, a wrapped value without them).  A theorem that a
    routine never yields [Panic] therefore holds in both build profiles. *)

Inductive res (E A : Type) : Type :=
| Ok (a : A)
| Err (e : E)
| Panic.
Arguments Ok {E A} a.
Arguments Err {E A} e.
Arguments Panic {E A}.

Declare Scope rust_scope.
Delimit Scope rust_scope with rust.
#[global] Open Scope rust_scope.

Definition rbind {E A B} (m : res E A) (k : A -> res E B) : res E B :=
  match m with
  | Ok a => k a
  | Err e => Err e
  | Panic => Panic
  end.

(** [expr?] *)
Notation "'let?' x ':=' e1 'in' e2" := (rbind e1 (fun x => e2))
  (at level 10, x pattern, e1 at level 200, e2 at level 200)
  : rust_scope.

(** [if b { return Err(e) }] *)
Notation "'fail_if' b 'with' e ';' k" := (if b then Err e else k)
  (at level 10, b at level 200, e at level 200, k at level 200)
  : rust_scope.

(** [opt.ok_or(e)] *)
Definition ok_or {E A} (o : option A) (e : E) : res E A :=
  match o with Some a => Ok a | None => Err e end.

(** Indexing and slicing that panics out of range. *)
Definition or_panic {E A} (o : option A) : res E A :=
  match o with Some a => Ok a | None => Panic end.

(** [r.map_err(f)] *)
Definition map_err {E F A} (f : E -> F) (r : res E A) : res F A :=
  match r with Ok a => Ok a | Err e => Err (f e) | Panic => Panic end.

Lemma rbind_Ok {E A B} (m : res E A) (k : A -> res E B) b :
  rbind m k = Ok b <-> exists a, m = Ok a /\ k a = Ok b.
Proof. destruct m; simpl; naive_solver. Qed.

Lemma ok_or_Ok {E A} (o : option A) (e : E) a : ok_or o e = Ok a <-> o = Some a.
Proof. destruct o; simpl; naive_solver. Qed.

Lemma or_panic_Ok {E A} (o : option A) a : @or_panic E A o = Ok a <-> o = Some a.
Proof. destruct o; simpl; naive_solver. Qed.

Lemma map_err_Ok {E F A} (f : E -> F) (r : res E A) a : map_err f r = Ok a <-> r = Ok a.
Proof. destruct r; simpl; naive_solver. Qed.

(** Case analysis on the tests and the fallible steps of a routine that is
    known to have returned a given outcome. *)
Ltac rust_step H :=
  match type of H with
  | rbind ?m _ = Ok _ =>
      let a := fresh "a" in let Ha := fresh "Ha" in
      apply rbind_Ok in H; destruct H as (a & Ha & H)
  | (if ?b then _ else _) = _ => let Hb := fresh "Hb" in destruct b eqn:Hb; try discriminate H
  | ok_or _ _ = Ok _ => apply ok_or_Ok in H
  | or_panic _ = Ok _ => apply or_panic_Ok in H
  | map_err _ _ = Ok _ => apply map_err_Ok in H
  | (match ?x with _ => _ end) = _ => let Hb := fresh "Hm" in destruct x eqn:Hb; try discriminate H
  end.

Lemma rbind_Panic {E A B} (m : res E A) (k : A -> res E B) :
  rbind m k = Panic -> m = Panic \/ exists a, m = Ok a /\ k a = Panic.
Proof. destruct m; simpl; naive_solver. Qed.

Lemma ok_or_not_Panic {E A} (o : option A) (e : E) : ok_or o e <> Panic.
Proof. by destruct o. Qed.

Lemma or_panic_Panic {E A} (o : option A) : @or_panic E A o = Panic -> o = None.
Proof. by destruct o. Qed.

Lemma map_err_Panic {E F A} (f : E -> F) (r : res E A) : map_err f r = Panic -> r = Panic.
Proof. by destruct r. Qed.

(** Follow a routine that is supposed to have panicked to a step that could. *)
Ltac panic_step H :=
  match type of H with
  | rbind _ _ = Panic =>
      let a := fresh "a" in let Ha := fresh "Ha" in
      apply rbind_Panic in H as [H | (a & Ha & H)]
  | ok_or _ _ = Panic => destruct (ok_or_not_Panic _ _ H)
  | or_panic _ = Panic => apply or_panic_Panic in H
  | map_err _ _ = Panic => apply map_err_Panic in H
  | (if ?b then _ else _) = Panic => let Hb := fresh "Hb" in destruct b eqn:Hb; try discriminate H
  | (match ?x with _ => _ end) = Panic => let Hb := fresh "Hm" in destruct x eqn:Hb; try discriminate H
  | Ok _ = Panic => discriminate H
  | Err _ = Panic => discriminate H
  end.

(** *** Loops

    [for x in l { .. }] whose body may return early: without state, and with a
    variable it updates. *)

Fixpoint for_each {E A} (l : list A) (f : A -> res E unit) : res E unit :=
  match l with
  | [] => Ok tt
  | x :: l => let? _ := f x in for_each l f
  end.

Fixpoint fold_each {E A S} (l : list A) (s : S) (f : S -> A -> res E S) : res E S :=
  match l with
  | [] => Ok s
  | x :: l => let? s := f s x in fold_each l s f
  end.

Lemma for_each_Ok {E A} (l : list A) (f : A -> res E unit) u :
  for_each l f = Ok u <-> forall x, x ∈ l -> f x = Ok tt.
Proof.
  destruct u. induction l as [|y l IH]; cbn [for_each].
  - split; [|done]. intros _ x Hx. by apply elem_of_nil in Hx.
  - rewrite rbind_Ok. setoid_rewrite elem_of_cons. split.
    + intros ([] & Hy & H). rewrite IH in H. naive_solver.
    + intros H. exists tt. split; [auto|]. apply IH. auto.
Qed.

Lemma for_each_no_panic {E A} (l : list A) (f : A -> res E unit) :
  (forall x, x ∈ l -> f x <> Panic) -> for_each l f <> Panic.
Proof.
  induction l as [|y l IH]; cbn [for_each]; intros H; [done|]. setoid_rewrite elem_of_cons in H.
  destruct (f y) eqn:E1; simpl; [auto|done|]. exfalso. apply (H y); auto.
Qed.

(** *** Routines that also change state

    The state after the call is there whatever the outcome, so that what an
    error path has already written is not forgotten. *)

Definition sres (S E A : Type) : Type := S -> S * res E A.

Definition slift {S E A} (r : res E A) : sres S E A := fun s => (s, r).

Definition sbind {S E A B} (m : sres S E A) (k : A -> sres S E B) : sres S E B :=
  fun s => match m s with
           | (s', Ok a) => k a s'
           | (s', Err e) => (s', Err e)
           | (s', Panic) => (s', Panic)
           end.

Notation "'let!' x ':=' e1 'in' e2" := (sbind e1 (fun x => e2))
  (at level 10, x pattern, e1 at level 200, e2 at level 200)
  : rust_scope.

Lemma sbind_Ok {S E A B} (m : sres S E A) (k : A -> sres S E B) s s' b :
  sbind m k s = (s', Ok b) <-> exists a s1, m s = (s1, Ok a) /\ k a s1 = (s', Ok b).
Proof. unfold sbind. destruct (m s) as [s1 [a|e|]]; naive_solver. Qed.

Lemma slift_Ok {S E A} (r : res E A) (s s' : S) a : slift r s = (s', Ok a) <-> s' = s /\ r = Ok a.
Proof. unfold slift. naive_solver. Qed.

Fixpoint sfor_each {S E A} (l : list A) (f : A -> sres S E unit) : sres S E unit :=
  match l with
  | [] => slift (Ok tt)
  | x :: l => let! _ := f x in sfor_each l f
  end.

(** A relation between the states before and after that every step respects is
    respected by their composition, whatever the outcome. *)
Lemma sbind_keeps {S E A B} (R : S -> S -> Prop) `{!Transitive R}
    (m : sres S E A) (k : A -> sres S E B) s :
  R s (fst (m s)) -> (forall a, snd (m s) = Ok a -> R (fst (m s)) (fst (k a (fst (m s))))) ->
  R s (fst (sbind m k s)).
Proof. unfold sbind. destruct (m s) as [s1 [a|e|]]; simpl; intros H1 H2; [etrans; eauto | done..]. Qed.

Lemma sbind_no_panic {S E A B} (m : sres S E A) (k : A -> sres S E B) s :
  snd (m s) <> Panic -> (forall a, snd (m s) = Ok a -> snd (k a (fst (m s))) <> Panic) ->
  snd (sbind m k s) <> Panic.
Proof. unfold sbind. destruct (m s) as [s1 [a|e|]]; simpl; auto. Qed.

(** Turn boolean tests of the code into propositions. *)
Ltac bool_hyp :=
  repeat match goal with
  | H : (_ || _)%bool = true |- _ => apply orb_true_iff in H
  | H : (_ || _)%bool = false |- _ => apply orb_false_iff in H; destruct H
  | H : (_ && _)%bool = true |- _ => apply andb_true_iff in H; destruct H
  | H : (_ && _)%bool = false |- _ => apply andb_false_iff in H
  | H : negb _ = true |- _ => apply negb_true_iff in H
  | H : negb _ = false |- _ => apply negb_false_iff in H
  | H : (_ =? _) = true |- _ => apply Z.eqb_eq in H
  | H : (_ =? _) = false |- _ => apply Z.eqb_neq in H
  | H : (_ <? _) = true |- _ => apply Z.ltb_lt in H
  | H : (_ <? _) = false |- _ => apply Z.ltb_ge in H
  | H : (_ <=? _) = true |- _ => apply Z.leb_le in H
  | H : (_ <=? _) = false |- _ => apply Z.leb_gt in H
  | H : bool_decide _ = true |- _ => apply bool_decide_eq_true in H
  | H : bool_decide _ = false |- _ => apply bool_decide_eq_false in H
  end.

(** ** Machine integers

    A [w]-bit unsigned integer is a [Z] in [0, 2^w). *)

Definition u8_max : Z := 255.
Definition u16_max : Z := 65535.
Definition u32_max : Z := 4294967295.
Definition u64_max : Z := 18446744073709551615.

(** The pointer width of the build target: the boards under [boards/] are
    32-bit (armv7, i686) or 64-bit (riscv64, aarch64, x86_64). *)
Class Target := {
  usize_bits : Z;
  usize_bits_ok : usize_bits = 32 \/ usize_bits = 64
}.

#[export] Instance target64 : Target := {| usize_bits := 64; usize_bits_ok := or_intror eq_refl |}.
Definition target32 : Target := {| usize_bits := 32; usize_bits_ok := or_introl eq_refl |}.

Definition usize_max {T : Target} : Z := 2 ^ usize_bits - 1.

Lemma usize_max_bounds {T : Target} : u32_max <= usize_max <= u64_max.
Proof. unfold usize_max, u32_max, u64_max. destruct usize_bits_ok as [-> | ->]; lia. Qed.

(** [a.checked_add(b)] on an integer type whose largest value is [max]. *)
Definition checked_add (max a b : Z) : option Z :=
  if a + b <=? max then Some (a + b) else None.
Definition checked_sub (a b : Z) : option Z :=
  if b <=? a then Some (a - b) else None.
Definition checked_mul (max a b : Z) : option Z :=
  if a * b <=? max then Some (a * b) else None.
Definition saturating_sub (a b : Z) : Z := Z.max 0 (a - b).
Definition saturating_add (max a b : Z) : Z := Z.min max (a + b).
(** [T::try_from(v)] for a non-negative [v]. *)
Definition try_from (max v : Z) : option Z := if v <=? max then Some v else None.
(** [a + b] with the operator's own overflow check. *)
Definition add_or_panic {E} (max a b : Z) : res E Z := or_panic (checked_add max a b).

Definition is_multiple_of (a m : Z) : bool := a mod m =? 0.
Definition next_multiple_of (a m : Z) : Z := (a + m - 1) / m * m.

Lemma checked_add_Some max a b c :
  checked_add max a b = Some c <-> c = a + b /\ a + b <= max.
Proof. unfold checked_add. case_match; bool_hyp; naive_solver lia. Qed.

Lemma checked_sub_Some a b c : checked_sub a b = Some c <-> c = a - b /\ b <= a.
Proof. unfold checked_sub. case_match; bool_hyp; naive_solver lia. Qed.

Lemma checked_mul_Some max a b c :
  checked_mul max a b = Some c <-> c = a * b /\ a * b <= max.
Proof. unfold checked_mul. case_match; bool_hyp; naive_solver lia. Qed.

Lemma try_from_Some max v w : try_from max v = Some w <-> w = v /\ v <= max.
Proof. unfold try_from. case_match; bool_hyp; naive_solver lia. Qed.

Lemma checked_add_ok max a b : a + b <= max -> checked_add max a b = Some (a + b).
Proof. intros. by apply checked_add_Some. Qed.
Lemma checked_sub_ok a b : b <= a -> checked_sub a b = Some (a - b).
Proof. intros. by apply checked_sub_Some. Qed.
Lemma checked_mul_ok max a b : a * b <= max -> checked_mul max a b = Some (a * b).
Proof. intros. by apply checked_mul_Some. Qed.
Lemma try_from_ok max v : v <= max -> try_from max v = Some v.
Proof. intros. by apply try_from_Some. Qed.

Lemma checked_add_None max a b : checked_add max a b = None <-> max < a + b.
Proof. unfold checked_add. case_match; bool_hyp; naive_solver lia. Qed.
Lemma checked_mul_None max a b : checked_mul max a b = None <-> max < a * b.
Proof. unfold checked_mul. case_match; bool_hyp; naive_solver lia. Qed.

(** As [bool_hyp], with a case for each way a disjunction can hold. *)
Ltac bool_cases :=
  bool_hyp;
  repeat match goal with
  | H : _ = true \/ _ = true |- _ => destruct H; bool_hyp
  | H : _ = false \/ _ = false |- _ => destruct H; bool_hyp
  end.

(** Decide a test of the code whose value arithmetic fixes. *)
Ltac test_false b := replace b with false by (symmetry; apply not_true_iff_false; intro; bool_cases; lia).
Ltac test_true b := replace b with true by (symmetry; apply not_false_iff_true; intro; bool_cases; lia).
(** The same for the first test of the goal. *)
Ltac guard_false := match goal with |- context [if ?b then _ else _] => test_false b end.
Ltac guard_true := match goal with |- context [if ?b then _ else _] => test_true b end.

Lemma is_multiple_of_spec a m : is_multiple_of a m = true <-> a mod m = 0.
Proof. apply Z.eqb_eq. Qed.

(** What [next_multiple_of] promises: the least multiple that is not smaller. *)
Lemma next_multiple_of_spec a m :
  0 < m -> a <= next_multiple_of a m < a + m /\ next_multiple_of a m mod m = 0.
Proof.
  intros Hm. unfold next_multiple_of. split.
  - pose proof (Z.div_mod (a + m - 1) m). pose proof (Z.mod_pos_bound (a + m - 1) m). lia.
  - apply Z.mod_mul. lia.
Qed.

Lemma next_multiple_of_id a m : 0 < m -> a mod m = 0 -> next_multiple_of a m = a.
Proof.
  intros Hm Ha. apply Z.mod_divide in Ha as [p ->]; [|lia]. unfold next_multiple_of.
  rewrite <- Z.add_sub_assoc, Z.div_add_l, Z.div_small by lia. lia.
Qed.

Lemma testbit_high x k i : 0 <= x < 2 ^ k -> 0 <= k <= i -> Z.testbit x i = false.
Proof. intros Hx Hk. rewrite <- (Z.mod_small x (2 ^ k)) by lia. apply Z.mod_pow2_bits_high. lia. Qed.

(** Disjoint bit fields: [a | b << k] is a sum. *)
Lemma lor_shiftl_add a b k : 0 <= k -> 0 <= a < 2 ^ k -> Z.lor a (Z.shiftl b k) = a + b * 2 ^ k.
Proof.
  intros Hk Ha. rewrite Z.shiftl_mul_pow2 by lia. rewrite <- Z.add_lor_land.
  replace (Z.land a (b * 2 ^ k)) with 0; [lia|]. symmetry. apply Z.bits_inj'. intros i Hi.
  rewrite Z.land_spec, Z.bits_0. destruct (Z.ltb_spec i k).
  - rewrite Z.mul_pow2_bits_low by lia. apply andb_false_r.
  - by rewrite (testbit_high a k i) by lia.
Qed.

(** [x & !(2^k - 1)] on a [w]-bit integer rounds down to a multiple of [2^k]. *)
Definition not_mask (w m : Z) : Z := 2 ^ w - 1 - m.

Lemma land_not_mask w x k :
  0 <= k <= w -> 0 <= x < 2 ^ w ->
  Z.land x (not_mask w (2 ^ k - 1)) = x / 2 ^ k * 2 ^ k.
Proof.
  intros Hk Hx. unfold not_mask.
  replace (2 ^ w - 1 - (2 ^ k - 1)) with (Z.shiftl (Z.ones (w - k)) k).
  2:{ rewrite Z.shiftl_mul_pow2, Z.ones_equiv by lia.
      replace w with ((w - k) + k) at 2 by lia. rewrite Z.pow_add_r by lia. lia. }
  rewrite <- Z.shiftl_mul_pow2, <- Z.shiftr_div_pow2 by lia.
  apply Z.bits_inj'. intros i Hi.
  rewrite Z.land_spec, !Z.shiftl_spec by lia.
  destruct (Z.ltb_spec i k) as [Hik|Hik].
  { rewrite !(Z.testbit_neg_r _ (i - k)) by lia. apply andb_false_r. }
  rewrite Z.shiftr_spec by lia. replace (i - k + k) with i by lia.
  destruct (Z.ltb_spec i w) as [Hiw|Hiw].
  - rewrite Z.ones_spec_low by lia. apply andb_true_r.
  - by rewrite (testbit_high x w i) by lia.
Qed.
