(* ===== verification/Bits.v ===== *)
(** * Bits: the lowest set bit of a machine word *)

From S2P Require Import Prelude.
From Stdlib Require Import ZArith Lia.
From stdpp Require Import base numbers list option.

#[local] Open Scope Z_scope.

(** [next & next.wrapping_neg()]: the lowest set bit of a [u64]. *)
Definition low_bit (n : Z) : Z := Z.land n ((- n) mod 2 ^ 64).

(** [n.trailing_zeros()] of a non-zero [u64]. *)
Definition trailing_zeros (n : Z) : Z := if n =? 0 then 64 else Z.log2 (low_bit n).

Lemma odd_split n : 0 < n -> exists k q, 0 <= k /\ 0 <= q /\ n = 2 ^ k * (2 * q + 1).
Proof.
  intros Hn. destruct n as [|p|p]; try lia. clear Hn. induction p as [p IH|p IH|].
  - exists 0, (Z.pos p). lia.
  - destruct IH as (k & q & Hk & Hq & Hp). exists (k + 1), q. rewrite Z.pow_add_r by lia. lia.
  - exists 0, 0. lia.
Qed.

Lemma testbit_odd_split k q i :
  0 <= k -> 0 <= i ->
  Z.testbit (2 ^ k * (2 * q + 1)) i =
    if i <? k then false else if i =? k then true else Z.testbit q (i - k - 1).
Proof.
  intros Hk Hi. rewrite Z.mul_comm. destruct (Z.ltb_spec i k).
  - by apply Z.mul_pow2_bits_low.
  - rewrite Z.mul_pow2_bits by lia. destruct (Z.eqb_spec i k) as [->|].
    + rewrite Z.sub_diag. apply Z.testbit_odd_0.
    + rewrite <- (Z.testbit_odd_succ q (i - k - 1)) by lia. f_equal. lia.
Qed.

Lemma land_neg k q : 0 <= k -> 0 <= q -> Z.land (2 ^ k * (2 * q + 1)) (- (2 ^ k * (2 * q + 1))) = 2 ^ k.
Proof.
  intros Hk Hq. apply Z.bits_inj'. intros i Hi.
  replace (- (2 ^ k * (2 * q + 1))) with (Z.lnot (2 ^ k * (2 * q + 1) - 1)) by (unfold Z.lnot; lia).
  rewrite Z.land_spec, Z.lnot_spec by done. rewrite testbit_odd_split by done.
  rewrite Z.pow2_bits_eqb by done.
  replace (2 ^ k * (2 * q + 1) - 1) with ((2 ^ k - 1) + (2 * q) * 2 ^ k) by lia.
  rewrite <- lor_shiftl_add by (pose proof (Z.pow_pos_nonneg 2 k); lia).
  rewrite Z.lor_spec, Z.shiftl_spec by done.
  destruct (Z.ltb_spec i k).
  - rewrite (proj2 (Z.eqb_neq _ _)) by lia. done.
  - replace (Z.testbit (2 ^ k - 1) i) with false
      by (symmetry; apply (testbit_high _ k); [pose proof (Z.pow_pos_nonneg 2 k); lia | lia]).
    destruct (Z.eqb_spec i k) as [->|Hne].
    + rewrite Z.eqb_refl, Z.sub_diag, Z.testbit_even_0. done.
    + rewrite (proj2 (Z.eqb_neq k i)) by lia.
      replace (Z.testbit (2 * q) (i - k)) with (Z.testbit q (i - k - 1));
        [by destruct (Z.testbit q (i - k - 1))|].
      rewrite <- (Z.testbit_even_succ q (i - k - 1)) by lia. f_equal. lia.
Qed.

(** The lowest set bit is the largest power of two that divides the number. *)
Lemma low_bit_spec n :
  0 < n < 2 ^ 64 -> exists k q, 0 <= k < 64 /\ 0 <= q /\ low_bit n = 2 ^ k /\ n = 2 ^ k * (2 * q + 1).
Proof.
  intros Hn. destruct (odd_split n) as (k & q & Hk & Hq & E); [lia|]. exists k, q.
  assert (Hk64 : k < 64).
  { apply (Z.pow_lt_mono_r_iff 2); [lia..|]. pose proof (Z.pow_pos_nonneg 2 k). nia. }
  split_and!; try lia. unfold low_bit.
  rewrite <- Z.land_ones by lia. rewrite (Z.land_comm (- n)), Z.land_assoc, Z.land_ones by lia.
  rewrite Z.mod_small by lia. rewrite E. by apply land_neg.
Qed.

