(* ===== verification/Bytes.v ===== *)
(** * Bytes: byte buffers, slices and integer codecs

    A byte is a [Z] in [0, 256); a buffer is a [list Z].  Offsets and lengths
    are [Z], as the [usize] and [u64] of the source, and become [nat] only to
    index a list.  [sub] is a slice, [get_range] the checked slice of
    [slice::get(a..b)], [upd] the effect of [copy_from_slice] or of a raw
    pointer copy at an offset. *)

From S2P Require Import Prelude.
From Stdlib Require Import ZArith Lia.
From stdpp Require Import base numbers list option.

#[local] Open Scope Z_scope.

(** ** Slices *)

Section slices.
Context {A : Type}.
Implicit Types l k : list A.

Definition zlen (l : list A) : Z := Z.of_nat (length l).

(** [l[off..off + n]], cut off at the end of [l]. *)
Definition sub (l : list A) (off n : Z) : list A :=
  take (Z.to_nat n) (drop (Z.to_nat off) l).

(** [l.get(a..b)] *)
Definition get_range (l : list A) (a b : Z) : option (list A) :=
  if (0 <=? a) && (a <=? b) && (b <=? zlen l) then Some (sub l a (b - a)) else None.

(** [l.get(i)] *)
Definition get (l : list A) (i : Z) : option A :=
  if 0 <=? i then l !! Z.to_nat i else None.

(** [l[off..off + k.len()].copy_from_slice(k)] for an in-range destination. *)
Definition upd (l : list A) (off : Z) (k : list A) : list A :=
  take (Z.to_nat off) l ++ k ++ drop (Z.to_nat off + length k) l.

Lemma zlen_nonneg l : 0 <= zlen l.
Proof. unfold zlen. lia. Qed.

Lemma zlen_nil : zlen (@nil A) = 0.
Proof. reflexivity. Qed.

Lemma zlen_cons x l : zlen (x :: l) = 1 + zlen l.
Proof. unfold zlen. simpl. lia. Qed.

Lemma zlen_app l k : zlen (l ++ k) = zlen l + zlen k.
Proof. unfold zlen. rewrite length_app. lia. Qed.

Lemma zlen_sub l off n :
  0 <= off -> 0 <= n -> off + n <= zlen l -> zlen (sub l off n) = n.
Proof. unfold zlen, sub. rewrite length_take, length_drop. lia. Qed.

Lemma zlen_upd l off k :
  0 <= off -> off + zlen k <= zlen l -> zlen (upd l off k) = zlen l.
Proof. unfold zlen, upd. rewrite !length_app, length_take, length_drop. lia. Qed.

Lemma lookup_sub l off n i :
  sub l off n !! i = if decide (i < Z.to_nat n)%nat then l !! (Z.to_nat off + i)%nat else None.
Proof.
  unfold sub. case_decide.
  - by rewrite lookup_take_lt, lookup_drop by done.
  - apply lookup_take_ge. lia.
Qed.

Lemma lookup_upd l off k i :
  0 <= off -> off + zlen k <= zlen l ->
  upd l off k !! i =
    if decide (Z.to_nat off <= i < Z.to_nat off + length k)%nat
    then k !! (i - Z.to_nat off)%nat else l !! i.
Proof.
  intros H0 Hb. unfold upd, zlen in *.
  assert (Hl : length (take (Z.to_nat off) l) = Z.to_nat off) by (rewrite length_take; lia).
  destruct (decide (i < Z.to_nat off)%nat) as [Hi|Hi].
  { rewrite decide_False by lia. rewrite lookup_app_l by lia. by apply lookup_take_lt. }
  rewrite lookup_app_r by lia. rewrite Hl.
  case_decide as Hk.
  - apply lookup_app_l. lia.
  - rewrite lookup_app_r, lookup_drop by lia. f_equal. lia.
Qed.

Lemma sub_all l : sub l 0 (zlen l) = l.
Proof. unfold sub, zlen. rewrite drop_0. apply take_ge. lia. Qed.

Lemma sub_nil l off : sub l off 0 = [].
Proof. reflexivity. Qed.

Lemma sub_sub l a n b m :
  0 <= a -> 0 <= b -> 0 <= m -> b + m <= n -> sub (sub l a n) b m = sub l (a + b) m.
Proof.
  intros. apply list_eq. intros i. rewrite !lookup_sub.
  case_decide; [|done]. rewrite decide_True by lia. f_equal. lia.
Qed.

Lemma sub_prefix l n b m : 0 <= b -> 0 <= m -> b + m <= n -> sub (sub l 0 n) b m = sub l b m.
Proof. intros. rewrite sub_sub by lia. done. Qed.

Lemma sub_app_l l k off n : 0 <= off -> 0 <= n -> off + n <= zlen l -> sub (l ++ k) off n = sub l off n.
Proof.
  unfold zlen. intros. apply list_eq. intros i. rewrite !lookup_sub.
  case_decide; [|done]. apply lookup_app_l. lia.
Qed.

Lemma sub_app_r l k off n : zlen l <= off -> sub (l ++ k) off n = sub k (off - zlen l) n.
Proof.
  unfold zlen. intros. apply list_eq. intros i. rewrite !lookup_sub.
  case_decide; [|done]. rewrite lookup_app_r by lia. f_equal. lia.
Qed.

Lemma sub_app_exact l k n : zlen l = n -> sub (l ++ k) 0 n = l.
Proof. intros <-. rewrite sub_app_l by (pose proof (zlen_nonneg l); lia). apply sub_all. Qed.

Lemma sub_split l off n m :
  0 <= off -> 0 <= n -> 0 <= m -> sub l off (n + m) = sub l off n ++ sub l (off + n) m.
Proof.
  intros. unfold sub. rewrite !Z2Nat.inj_add by lia.
  by rewrite <- drop_drop, take_take_drop.
Qed.

Lemma sub_upd_same l off k :
  0 <= off -> off + zlen k <= zlen l -> sub (upd l off k) off (zlen k) = k.
Proof.
  intros. apply list_eq. intros i. rewrite lookup_sub.
  case_decide as Hi.
  - rewrite lookup_upd by done. unfold zlen in *. rewrite decide_True by lia. f_equal. lia.
  - symmetry. apply lookup_ge_None. unfold zlen in *. lia.
Qed.

Lemma sub_upd_at l off k n :
  zlen k = n -> 0 <= off -> off + n <= zlen l -> sub (upd l off k) off n = k.
Proof. intros <-. apply sub_upd_same. Qed.

Lemma sub_upd_other l off k a n :
  0 <= off -> off + zlen k <= zlen l -> 0 <= a -> 0 <= n ->
  a + n <= off \/ off + zlen k <= a -> sub (upd l off k) a n = sub l a n.
Proof.
  intros. apply list_eq. intros i. rewrite !lookup_sub.
  case_decide; [|done]. rewrite lookup_upd by done. rewrite decide_False; [done|].
  unfold zlen in *. lia.
Qed.

Lemma get_range_Some l a b k :
  get_range l a b = Some k <->
    0 <= a <= b /\ b <= zlen l /\ k = sub l a (b - a).
Proof.
  unfold get_range. destruct (0 <=? a) eqn:?, (a <=? b) eqn:?, (b <=? zlen l) eqn:?;
    simpl; bool_hyp; naive_solver lia.
Qed.

Lemma get_Some_lt l i x : get l i = Some x -> 0 <= i < zlen l.
Proof.
  unfold get, zlen. case_match; [|done]. bool_hyp. intros ?%lookup_lt_Some. lia.
Qed.

Lemma get_is_Some l i : 0 <= i < zlen l -> exists x, get l i = Some x.
Proof.
  unfold get, zlen. intros. destruct (Z.leb_spec 0 i); [|lia].
  apply lookup_lt_is_Some. lia.
Qed.

Lemma sub_take_drop_eq l a : 0 <= a <= zlen l -> sub l 0 a ++ sub l a (zlen l - a) = l.
Proof.
  intros. pose proof (sub_split l 0 a (zlen l - a)) as Hs. rewrite Z.add_0_l in Hs.
  rewrite <- Hs by lia. replace (a + (zlen l - a)) with (zlen l) by lia. apply sub_all.
Qed.
End slices.

(** ** Bytes *)

Definition byte_ok (b : Z) : Prop := 0 <= b < 256.
Definition bytes_ok (l : list Z) : Prop := Forall byte_ok l.

#[export] Instance byte_ok_dec b : Decision (byte_ok b).
Proof. unfold byte_ok. apply _. Defined.
#[export] Instance bytes_ok_dec l : Decision (bytes_ok l).
Proof. unfold bytes_ok. apply _. Defined.

(** [[0; n]] *)
Definition zeros (n : Z) : list Z := replicate (Z.to_nat n) 0.

Lemma zlen_zeros n : 0 <= n -> zlen (zeros n) = n.
Proof. unfold zlen, zeros. rewrite length_replicate. lia. Qed.

Lemma zeros_add n m : 0 <= n -> 0 <= m -> zeros (n + m) = zeros n ++ zeros m.
Proof. intros. unfold zeros. rewrite <- replicate_add. f_equal. lia. Qed.

(** Overwriting a middle part of its own length. *)
Lemma upd_middle (a b c k : list Z) : zlen b = zlen k -> upd (a ++ b ++ c) (zlen a) k = a ++ k ++ c.
Proof.
  intros Hl. unfold upd, zlen in *. rewrite Nat2Z.id, take_app_length. do 2 f_equal.
  replace (length a + length k)%nat with (length (a ++ b)) by (rewrite length_app; lia).
  by rewrite app_assoc, drop_app_length.
Qed.

Lemma bytes_ok_zeros n : bytes_ok (zeros n).
Proof. apply Forall_replicate. unfold byte_ok. lia. Qed.

Lemma bytes_ok_app l k : bytes_ok (l ++ k) <-> bytes_ok l /\ bytes_ok k.
Proof. apply Forall_app. Qed.

Lemma bytes_ok_sub l off n : bytes_ok l -> bytes_ok (sub l off n).
Proof. intros. by apply Forall_take, Forall_drop. Qed.

Lemma bytes_ok_upd l off k : bytes_ok l -> bytes_ok k -> bytes_ok (upd l off k).
Proof.
  intros. unfold upd. rewrite !bytes_ok_app. split_and!; [by apply Forall_take | done |].
  by apply Forall_drop.
Qed.

Lemma nth_byte_ok l i : bytes_ok l -> byte_ok (nth i l 0).
Proof.
  intros Hl. destruct (nth_lookup_or_length l i 0) as [H|H].
  - by eapply Forall_lookup_1 in Hl.
  - rewrite nth_overflow by done. unfold byte_ok. lia.
Qed.

Lemma bytes_ok_get l i b : bytes_ok l -> get l i = Some b -> byte_ok b.
Proof.
  intros Hl. unfold get. case_match; [|done]. intros Hb. by eapply Forall_lookup_1 in Hl.
Qed.

(** ** Integer codecs: [to_le_bytes], [from_le_bytes] and their big-endian
    counterparts *)

Fixpoint le_enc (n : nat) (v : Z) : list Z :=
  match n with
  | O => []
  | S n => v mod 256 :: le_enc n (v / 256)
  end.

Fixpoint le_dec (l : list Z) : Z :=
  match l with
  | [] => 0
  | b :: l => b + 256 * le_dec l
  end.

Definition be_enc (n : nat) (v : Z) : list Z := reverse (le_enc n v).
Definition be_dec (l : list Z) : Z := le_dec (reverse l).

Lemma length_le_enc n v : length (le_enc n v) = n.
Proof. revert v. induction n; intros; simpl; auto. Qed.

Lemma zlen_le_enc n v : zlen (le_enc n v) = Z.of_nat n.
Proof. unfold zlen. by rewrite length_le_enc. Qed.

Lemma bytes_ok_le_enc n v : bytes_ok (le_enc n v).
Proof.
  revert v. induction n; intros v; simpl; constructor; [|apply IHn].
  unfold byte_ok. apply Z.mod_pos_bound. lia.
Qed.

Lemma le_dec_bound l : bytes_ok l -> 0 <= le_dec l < 256 ^ zlen l.
Proof.
  induction 1 as [|b l Hb Hl IH]; [done|]. rewrite zlen_cons, Z.pow_add_r by apply zlen_nonneg || lia.
  unfold byte_ok in Hb. simpl le_dec. lia.
Qed.

Lemma le_dec_enc n v : 0 <= v < 256 ^ Z.of_nat n -> le_dec (le_enc n v) = v.
Proof.
  revert v. induction n as [|n IH]; intros v Hv.
  { simpl in *. lia. }
  rewrite Nat2Z.inj_succ, Z.pow_succ_r in Hv by lia. simpl. rewrite IH.
  - pose proof (Z.div_mod v 256). lia.
  - split; [apply Z.div_pos; lia|]. apply Z.div_lt_upper_bound; lia.
Qed.

(** Only the low [n] bytes are encoded: [as] truncation is implied. *)
Lemma le_enc_mod n v : le_enc n (v mod 256 ^ Z.of_nat n) = le_enc n v.
Proof.
  revert v. induction n as [|n IH]; intros v; [done|]. cbn [le_enc].
  rewrite Nat2Z.inj_succ, Z.pow_succ_r by lia. set (m := 256 ^ Z.of_nat n) in *.
  assert (0 < m) by (apply Z.pow_pos_nonneg; lia).
  rewrite Z.rem_mul_r by lia. rewrite (Z.mul_comm 256), Z.mod_add, Z.div_add, Z.mod_mod by lia.
  rewrite (Z.div_small (v mod 256)) by (apply Z.mod_pos_bound; lia). by rewrite Z.add_0_l, IH.
Qed.

Lemma le_enc_dec l : bytes_ok l -> le_enc (length l) (le_dec l) = l.
Proof.
  induction 1 as [|b l Hb Hl IH]; [done|]. unfold byte_ok in Hb. simpl.
  rewrite (Z.mul_comm 256), Z.mod_add, Z.div_add, Z.mod_small, Z.div_small by lia.
  by rewrite Z.add_0_l, IH.
Qed.

(** Decoding is injective on byte strings of one length. *)
Lemma le_dec_inj l k : bytes_ok l -> bytes_ok k -> length l = length k -> le_dec l = le_dec k -> l = k.
Proof. intros Hl Hk Hn Hd. by rewrite <- (le_enc_dec l), <- (le_enc_dec k), Hn, Hd. Qed.

Lemma zlen_be_enc n v : zlen (be_enc n v) = Z.of_nat n.
Proof. unfold be_enc, zlen. by rewrite length_reverse, length_le_enc. Qed.

Lemma bytes_ok_be_enc n v : bytes_ok (be_enc n v).
Proof. apply Forall_reverse, bytes_ok_le_enc. Qed.

Lemma be_dec_enc n v : 0 <= v < 256 ^ Z.of_nat n -> be_dec (be_enc n v) = v.
Proof. intros. unfold be_dec, be_enc. rewrite reverse_involutive. by apply le_dec_enc. Qed.

Lemma be_enc_dec l : bytes_ok l -> be_enc (length l) (be_dec l) = l.
Proof.
  intros. unfold be_dec, be_enc. rewrite <- length_reverse, le_enc_dec.
  - apply reverse_involutive.
  - by apply Forall_reverse.
Qed.

(** Fixed-width fields of a wire structure. *)
Definition le_at (l : list Z) (off n : Z) : Z := le_dec (sub l off n).
Definition u16_at (l : list Z) (off : Z) : Z := le_at l off 2.
Definition u32_at (l : list Z) (off : Z) : Z := le_at l off 4.
Definition u64_at (l : list Z) (off : Z) : Z := le_at l off 8.

Lemma le_at_bound l off n :
  bytes_ok l -> 0 <= off -> 0 <= n -> off + n <= zlen l -> 0 <= le_at l off n < 256 ^ n.
Proof.
  intros. unfold le_at. pose proof (le_dec_bound (sub l off n) (bytes_ok_sub _ _ _ H)) as Hb.
  by rewrite zlen_sub in Hb.
Qed.

Lemma sub_le_at l off n :
  bytes_ok l -> 0 <= off -> 0 <= n -> off + n <= zlen l ->
  le_enc (Z.to_nat n) (le_at l off n) = sub l off n.
Proof.
  intros Hl H0 Hn Hb. unfold le_at.
  replace (Z.to_nat n) with (length (sub l off n)).
  - apply le_enc_dec. by apply bytes_ok_sub.
  - pose proof (zlen_sub l off n H0 Hn Hb). unfold zlen in *. lia.
Qed.

Create HintDb bytes.
#[export] Hint Resolve zlen_nonneg bytes_ok_zeros bytes_ok_le_enc bytes_ok_be_enc bytes_ok_sub bytes_ok_upd : bytes.
#[export] Hint Rewrite @zlen_nil @zlen_cons @zlen_app zlen_le_enc : bytes.

(** Equality test of byte strings, as [==] on slices and arrays. *)
Definition bytes_eqb (l k : list Z) : bool := bool_decide (l = k).

Lemma bytes_eqb_true l k : bytes_eqb l k = true <-> l = k.
Proof. apply bool_decide_eq_true. Qed.
Lemma bytes_eqb_false l k : bytes_eqb l k = false <-> l <> k.
Proof. apply bool_decide_eq_false. Qed.
