(* ===== verification/Wire.v ===== *)
(** * Wire: fixed-layout records

    The firmware's binary structures are encoded by copying each field into a
    zeroed array at its offset and decoded by reading the fields back.  Here an
    array is related to the list of its pieces, in order: [upd_fill] turns an
    encoder into a concatenation, [sub_concat] reads a piece back, and
    [matches_concat] rebuilds an array from its pieces. *)

From S2P Require Import Prelude.
From S2P Require Import Bytes.
From Stdlib Require Import ZArith Lia.
From stdpp Require Import base numbers list option.

#[local] Open Scope Z_scope.

Definition sum_len (ps : list (list Z)) : Z := foldr (fun p n => zlen p + n) 0 ps.

Lemma zlen_concat ps : zlen (concat ps) = sum_len ps.
Proof. induction ps as [|p ps IH]; [done|]. simpl. rewrite zlen_app, IH. done. Qed.

Lemma sum_len_nonneg ps : 0 <= sum_len ps.
Proof. rewrite <- zlen_concat. apply zlen_nonneg. Qed.

(** The [i]-th piece is found at the sum of the lengths before it. *)
Lemma sub_concat (i : nat) ps p off n :
  ps !! i = Some p -> off = sum_len (take i ps) -> n = zlen p -> sub (concat ps) off n = p.
Proof.
  intros Hp -> ->. revert i Hp. induction ps as [|q ps IH]; intros [|i] Hp; simplify_eq/=.
  - rewrite sub_app_l by (pose proof (zlen_nonneg p); lia). apply sub_all.
  - pose proof (sum_len_nonneg (take i ps)).
    rewrite sub_app_r by lia. etrans; [|apply (IH i Hp)]. f_equal. lia.
Qed.

(** Storing into the zeroed rest of an array. *)
Lemma upd_fill (g m' : Z) p m off k :
  0 <= g -> 0 <= m' -> off = zlen p + g -> m = g + zlen k + m' ->
  upd (p ++ zeros m) off k = (p ++ zeros g ++ k) ++ zeros m'.
Proof.
  intros Hg Hm -> ->. pose proof (zlen_nonneg k). pose proof (zlen_nonneg p).
  replace (zeros (g + zlen k + m')) with (zeros g ++ zeros (zlen k) ++ zeros m').
  2:{ unfold zeros. rewrite <- !replicate_add. f_equal. lia. }
  assert (Hp : Z.to_nat (zlen p + g) = length (p ++ zeros g)).
  { rewrite length_app. unfold zeros, zlen in *. rewrite length_replicate. lia. }
  assert (Hk : length k = length (zeros (zlen k))).
  { unfold zeros, zlen. rewrite length_replicate. lia. }
  unfold upd. rewrite Hp, Hk, <- length_app, !app_assoc, drop_app_length.
  by rewrite <- (app_assoc _ (zeros (zlen k))), take_app_length.
Qed.

(** [ps] are the pieces of [l] from [off] on. *)
Fixpoint matches (l : list Z) (off : Z) (ps : list (list Z)) : Prop :=
  match ps with
  | [] => off = zlen l
  | p :: ps => sub l off (zlen p) = p /\ matches l (off + zlen p) ps
  end.

Lemma matches_end l off ps : matches l off ps -> off + sum_len ps = zlen l.
Proof.
  revert off. induction ps as [|p ps IH]; simpl; intros off; [lia|].
  intros [_ H]. apply IH in H. lia.
Qed.

Lemma matches_concat_from l off ps :
  0 <= off -> matches l off ps -> sub l off (zlen l - off) = concat ps.
Proof.
  revert off. induction ps as [|p ps IH]; simpl; intros off Ho Hm.
  { rewrite Hm, Z.sub_diag. done. }
  destruct Hm as [Hp Hm]. pose proof (zlen_nonneg p). pose proof (sum_len_nonneg ps).
  pose proof (matches_end _ _ _ Hm).
  replace (zlen l - off) with (zlen p + (zlen l - (off + zlen p))) by lia.
  rewrite sub_split by lia. rewrite Hp. f_equal. apply IH; [lia|done].
Qed.

Lemma matches_concat l ps : matches l 0 ps -> concat ps = l.
Proof.
  intros Hm. rewrite <- (matches_concat_from l 0 ps) by done.
  rewrite Z.sub_0_r. apply sub_all.
Qed.

Lemma zlen_1 {A} (x : A) : zlen [x] = 1.
Proof. reflexivity. Qed.

(** A one-byte field. *)
Definition u8_at (l : list Z) (off : Z) : Z := nth (Z.to_nat off) l 0.

Lemma sub_u8_at l off : 0 <= off < zlen l -> sub l off 1 = [u8_at l off].
Proof.
  intros H. unfold u8_at. apply list_eq. intros i. rewrite lookup_sub.
  destruct i as [|i].
  - rewrite decide_True by lia. rewrite Nat.add_0_r. simpl.
    unfold zlen in H. destruct (lookup_lt_is_Some_2 l (Z.to_nat off)) as [x Hx]; [lia|].
    rewrite Hx. f_equal. symmetry. by apply nth_lookup_Some.
  - rewrite decide_False by lia. done.
Qed.

Lemma u8_at_sub l off x : sub l off 1 = [x] -> u8_at l off = x.
Proof.
  intros H. unfold u8_at. apply nth_lookup_Some.
  pose proof (lookup_sub l off 1 0) as Hl. rewrite H in Hl.
  rewrite decide_True, Nat.add_0_r in Hl by lia. done.
Qed.

Lemma le_at_enc l off n v :
  0 <= n -> sub l off n = le_enc (Z.to_nat n) v -> 0 <= v < 256 ^ n -> le_at l off n = v.
Proof. intros Hn H Hv. unfold le_at. rewrite H. apply le_dec_enc. by rewrite Z2Nat.id. Qed.

(** ** Tables of fixed-size records *)

(** The first [n] records of [size] bytes. *)
Definition split_records (size : Z) (n : nat) (l : list Z) : list (list Z) :=
  map (fun i => sub l (Z.of_nat i * size) size) (seq 0 n).

Lemma sum_len_const w ps : Forall (fun p => zlen p = w) ps -> sum_len ps = zlen ps * w.
Proof. induction 1 as [|p ps Hp _ IH]; [done|]. simpl. rewrite IH, zlen_cons. lia. Qed.

Lemma length_split_records size n l : length (split_records size n l) = n.
Proof. unfold split_records. by rewrite length_map, length_seq. Qed.

Lemma lookup_split_records size n l i :
  (i < n)%nat -> split_records size n l !! i = Some (sub l (Z.of_nat i * size) size).
Proof. intros Hi. unfold split_records. rewrite list_lookup_fmap, lookup_seq_lt by lia. done. Qed.

(** A table is read back from the concatenation of its records. *)
Lemma split_records_concat size ps :
  Forall (fun p => zlen p = size) ps -> split_records size (length ps) (concat ps) = ps.
Proof.
  intros Hps. apply list_eq. intros i. destruct (decide (i < length ps)%nat) as [Hi|Hi].
  - rewrite lookup_split_records by done. destruct (lookup_lt_is_Some_2 ps i Hi) as [p Hp].
    rewrite Hp. f_equal. apply (sub_concat i); [done| |].
    + rewrite (sum_len_const size) by (by apply Forall_take).
      replace (zlen (take i ps)) with (Z.of_nat i) by (unfold zlen; rewrite length_take; lia). lia.
    + symmetry. apply (Forall_lookup_1 _ _ _ _ Hps Hp).
  - rewrite !lookup_ge_None_2; [done | lia |]. rewrite length_split_records. lia.
Qed.

Lemma split_records_len size n l :
  0 <= size -> Z.of_nat n * size <= zlen l -> bytes_ok l ->
  Forall (fun r => zlen r = size /\ bytes_ok r) (split_records size n l).
Proof.
  intros Hs Hl Hb. apply Forall_lookup_2. intros i r Hr.
  pose proof (lookup_lt_Some _ _ _ Hr) as Hi. rewrite length_split_records in Hi.
  rewrite lookup_split_records in Hr by done. injection Hr as <-. split.
  - apply zlen_sub; nia.
  - by apply bytes_ok_sub.
Qed.

Lemma matches_split_records size l : forall k i : nat,
  0 <= size -> zlen l = Z.of_nat (i + k) * size ->
  matches l (Z.of_nat i * size) (map (fun i => sub l (Z.of_nat i * size) size) (seq i k)).
Proof.
  induction k as [|k IH]; intros i Hs Hl; simpl; [rewrite Hl; f_equal; lia|].
  assert (Hz : zlen (sub l (Z.of_nat i * size) size) = size) by (apply zlen_sub; nia).
  rewrite Hz. split; [done|].
  replace (Z.of_nat i * size + size) with (Z.of_nat (S i) * size) by lia. apply IH; [done|].
  rewrite Hl. f_equal. lia.
Qed.

Lemma concat_split_records size n l :
  0 <= size -> zlen l = Z.of_nat n * size -> concat (split_records size n l) = l.
Proof. intros Hs Hl. apply matches_concat. apply (matches_split_records size l n 0); [done|]. by rewrite Nat.add_0_l. Qed.

(** ** Fields of a record

    The values a field of its type can hold, and the fields of a record read
    back from the concatenation of its pieces. *)

Definition u64_ok (v : Z) : Prop := 0 <= v <= u64_max.
Definition u32_ok (v : Z) : Prop := 0 <= v <= u32_max.
(** [[u8; n]] *)
Definition array_ok (n : Z) (l : list Z) : Prop := zlen l = n /\ bytes_ok l.

(** What is parsed fits its Rust type. *)
Lemma u64_at_ok b off : bytes_ok b -> 0 <= off -> off + 8 <= zlen b -> u64_ok (u64_at b off).
Proof. intros Hb ? ?. pose proof (le_at_bound b off 8 Hb). unfold u64_ok, u64_at, u64_max. lia. Qed.

Lemma u32_at_ok b off : bytes_ok b -> 0 <= off -> off + 4 <= zlen b -> u32_ok (u32_at b off).
Proof. intros Hb ? ?. pose proof (le_at_bound b off 4 Hb). unfold u32_ok, u32_at, u32_max. lia. Qed.

Lemma sub_array_ok b off n :
  bytes_ok b -> 0 <= off -> 0 <= n -> off + n <= zlen b -> array_ok n (sub b off n).
Proof. intros. split; [by apply zlen_sub | by apply bytes_ok_sub]. Qed.

(** Reading an integer off the wire and encoding it gives the same bytes. *)
Lemma le_enc_u64_at b off :
  bytes_ok b -> 0 <= off -> off + 8 <= zlen b -> le_enc 8 (u64_at b off) = sub b off 8.
Proof. intros. by apply (sub_le_at b off 8). Qed.
Lemma le_enc_u32_at b off :
  bytes_ok b -> 0 <= off -> off + 4 <= zlen b -> le_enc 4 (u32_at b off) = sub b off 4.
Proof. intros. by apply (sub_le_at b off 4). Qed.
Lemma le_enc_u16_at b off :
  bytes_ok b -> 0 <= off -> off + 2 <= zlen b -> le_enc 2 (u16_at b off) = sub b off 2.
Proof. intros. by apply (sub_le_at b off 2). Qed.

Create HintDb wire.

Lemma u32_field i ps off x :
  ps !! i = Some (le_enc 4 x) -> off = sum_len (take i ps) -> u32_ok x -> u32_at (concat ps) off = x.
Proof.
  intros Hi Ho [H0 H1]. unfold u32_at, u32_max in *. apply le_at_enc; [lia| |lia]. by apply (sub_concat i).
Qed.

Lemma u64_field i ps off x :
  ps !! i = Some (le_enc 8 x) -> off = sum_len (take i ps) -> u64_ok x -> u64_at (concat ps) off = x.
Proof.
  intros Hi Ho [H0 H1]. unfold u64_at, u64_max in *. apply le_at_enc; [lia| |lia]. by apply (sub_concat i).
Qed.

Lemma u8_field i ps off x :
  ps !! i = Some [x] -> off = sum_len (take i ps) -> u8_at (concat ps) off = x.
Proof. intros Hi Ho. apply u8_at_sub. by apply (sub_concat i). Qed.

Lemma bytes_field i ps off n d :
  ps !! i = Some d -> off = sum_len (take i ps) -> zlen d = n -> sub (concat ps) off n = d.
Proof. intros Hi Ho Hn. by apply (sub_concat i). Qed.

(** Reads field number [i], whatever its width. *)
Ltac field_offset :=
  autounfold with wire in *; cbn [take sum_len foldr]; rewrite ?zlen_le_enc, ?zlen_1; lia.
Ltac wire_field i :=
  first [eapply (u32_field i); [reflexivity | field_offset | assumption]
        | eapply (u64_field i); [reflexivity | field_offset | assumption]
        | eapply (u8_field i); [reflexivity | field_offset]
        | eapply (bytes_field i); [reflexivity | field_offset | assumption]].
Ltac any_field := solve [wire_field 0%nat | wire_field 1%nat | wire_field 2%nat | wire_field 3%nat | wire_field 4%nat | wire_field 5%nat
  | wire_field 6%nat | wire_field 7%nat | wire_field 8%nat | wire_field 9%nat | wire_field 10%nat | wire_field 11%nat | wire_field 12%nat].
