(* ===== verification/Services.v ===== *)
(** * Services: the error type of the service traits
    ([crates/core/src/services/mod.rs]) and fixed-capacity vectors *)

From S2P Require Import Prelude.
From S2P Require Import Bytes.
From Stdlib Require Import ZArith Lia.
From stdpp Require Import base numbers list option.

#[local] Open Scope Z_scope.

Inductive ServiceError :=
| Timeout | InvalidParam | HardwareError | NoDevice | NotSupported | NotInitialized | IoError.

#[export] Instance ServiceError_eq_dec : EqDecision ServiceError.
Proof. solve_decision. Defined.

(** [heapless::Vec<_, N>::push]: [Err] when the vector is full. *)
Definition push {A E} (capacity : Z) (e : E) (l : list A) (x : A) : res E (list A) :=
  if zlen l <? capacity then Ok (l ++ [x]) else Err e.

Lemma push_Ok {A E} capacity (e : E) (l : list A) x l' :
  push capacity e l x = Ok l' <-> zlen l < capacity /\ l' = l ++ [x].
Proof. unfold push. case_match eqn:H; bool_hyp; naive_solver lia. Qed.
