(* ===== verification/SmmLayout.v ===== *)
(** * SmmLayout: SMRAM placement ([crates/smm/src/layout.rs])

    The permanent SMRAM holds, from the bottom: one stack per CPU, the 64 KiB
    SMBASE windows (entry stub at [SMBASE + 0x8000], save state at the top of
    the window, windows of one segment staggered downwards), then the common
    handler and the page tables at the top.  The theorems show that every
    accepted placement keeps all of these apart and inside SMRAM, that a large
    enough SMRAM is always accepted, that no address computation overflows, and
    that the page tables map the low 4 GiB to themselves. *)

From S2P Require Import Prelude.
From S2P Require Import Bytes.
From Stdlib Require Import ZArith Lia.
From stdpp Require Import base numbers list option.

#[local] Open Scope Z_scope.

Definition SMM_ENTRY_OFFSET : Z := 0x8000.
Definition SMM_CODE_SEGMENT_SIZE : Z := 0x10000.
Definition SMM_HANDLER_ALIGNMENT : Z := 4096.

Inductive LayoutError :=
| NoEntries | TooManyEntries | BadSize | StubDoesNotFit | SmramTooSmall | Overflow.

Record SmramLayout := {
  smram_base : Z;
  smram_size : Z;
  entry_count : Z;
  save_state_size : Z;
  stack_size : Z;
  entry_stub_size : Z;
  handler_mem_size : Z;
  page_table_size : Z
}.

Record CpuSmmLayout := {
  smbase : Z;
  entry_addr : Z;
  save_state_base : Z;
  save_state_top : Z;
  stack_bottom : Z;
  stack_top : Z
}.

(** The ranges of the field types: two [u64], a [u16] and five [u32]. *)
Definition layout_typed (l : SmramLayout) : Prop :=
  0 <= smram_base l <= u64_max /\ 0 <= smram_size l <= u64_max /\
  0 <= entry_count l <= u16_max /\
  0 <= save_state_size l <= u32_max /\ 0 <= stack_size l <= u32_max /\
  0 <= entry_stub_size l <= u32_max /\ 0 <= handler_mem_size l <= u32_max /\
  0 <= page_table_size l <= u32_max.

Definition align_up (value align : Z) : res LayoutError Z :=
  ok_or ((fun v => Z.land v (not_mask 64 (align - 1))) <$> checked_add u64_max value (align - 1))
        Overflow.

Definition compute_common_base (l : SmramLayout) : res LayoutError Z :=
  fail_if smram_size l =? 0 with BadSize;
  let? smram_top := ok_or (checked_add u64_max (smram_base l) (smram_size l)) Overflow in
  let? handler := align_up (handler_mem_size l) SMM_HANDLER_ALIGNMENT in
  let? tables := align_up (page_table_size l) 4096 in
  let? top_reserved := ok_or (checked_add u64_max handler tables) Overflow in
  let? below := ok_or (checked_sub smram_top top_reserved) SmramTooSmall in
  let base := Z.land below (not_mask 64 (SMM_HANDLER_ALIGNMENT - 1)) in
  fail_if base <? smram_base l with SmramTooSmall;
  Ok base.

Definition compute_page_table_base (l : SmramLayout) : res LayoutError Z :=
  let? base := compute_common_base l in
  let? handler := align_up (handler_mem_size l) SMM_HANDLER_ALIGNMENT in
  ok_or (checked_add u64_max base handler) Overflow.

(** One iteration of the placement loop: the layout of CPU [i]. *)
Definition cpu_slot (l : SmramLayout)
    (common_base stacks_end needed_ss_size per_segment first_segment_base i : Z)
    : res LayoutError CpuSmmLayout :=
  let segment := i / per_segment in
  let in_segment := i mod per_segment in
  let? segment_off := ok_or (checked_mul u64_max segment SMM_CODE_SEGMENT_SIZE) Overflow in
  let? smbase :=
    ok_or (v ← checked_sub first_segment_base segment_off;
           off ← checked_mul u64_max in_segment needed_ss_size;
           checked_sub v off) SmramTooSmall in
  let? entry_addr := ok_or (checked_add u64_max smbase SMM_ENTRY_OFFSET) Overflow in
  let? save_state_top := ok_or (checked_add u64_max smbase SMM_CODE_SEGMENT_SIZE) Overflow in
  let? save_state_base := ok_or (checked_sub save_state_top (save_state_size l)) Overflow in
  let? stack_off := or_panic (checked_mul u64_max i (stack_size l)) in
  let? stack_bottom := ok_or (checked_add u64_max (smram_base l) stack_off) Overflow in
  let? stack_top := ok_or (checked_add u64_max stack_bottom (stack_size l)) Overflow in
  fail_if (smbase <? stacks_end) || (common_base <? save_state_top) with SmramTooSmall;
  let? stub_end := add_or_panic u64_max entry_addr (entry_stub_size l) in
  fail_if save_state_base <? stub_end with StubDoesNotFit;
  Ok {| smbase := smbase; entry_addr := entry_addr; save_state_base := save_state_base;
        save_state_top := save_state_top; stack_bottom := stack_bottom; stack_top := stack_top |}.

(** [for (i, slot) in out.iter_mut().take(count).enumerate()]: [n] slots left,
    starting with slot [i]; the slots written before an error stay written. *)
Fixpoint cpu_loop (slot : Z -> res LayoutError CpuSmmLayout) (n i : nat)
    (out : list CpuSmmLayout) : list CpuSmmLayout * res LayoutError unit :=
  match n with
  | O => (out, Ok tt)
  | S n =>
      match slot (Z.of_nat i) with
      | Ok c => cpu_loop slot n (S i) (<[i := c]> out)
      | Err e => (out, Err e)
      | Panic => (out, Panic)
      end
  end.

Definition cpu_params (l : SmramLayout) (out_len : Z)
    : res LayoutError (Z * Z * Z * Z * Z) :=
  let count := entry_count l in
  fail_if count =? 0 with NoEntries;
  fail_if out_len <? count with TooManyEntries;
  fail_if (smram_size l =? 0) || (save_state_size l =? 0) || (stack_size l =? 0)
          || (entry_stub_size l =? 0) with BadSize;
  fail_if SMM_ENTRY_OFFSET <=? entry_stub_size l with StubDoesNotFit;
  let? common_base := compute_common_base l in
  let? total_stack := ok_or (checked_mul u64_max (stack_size l) (entry_count l)) Overflow in
  let? stacks_end := ok_or (checked_add u64_max (smram_base l) total_stack) Overflow in
  fail_if common_base <? stacks_end with SmramTooSmall;
  let needed_ss_size := Z.max (save_state_size l) (entry_stub_size l) in
  let per_segment :=
    (SMM_CODE_SEGMENT_SIZE - SMM_ENTRY_OFFSET - entry_stub_size l) / needed_ss_size in
  fail_if per_segment =? 0 with StubDoesNotFit;
  let? first_segment_base :=
    ok_or (checked_sub common_base SMM_CODE_SEGMENT_SIZE) SmramTooSmall in
  Ok (common_base, stacks_end, needed_ss_size, per_segment, first_segment_base).

(** The caller's buffer after the call, and the result: the populated prefix. *)
Definition compute_cpu_layout (l : SmramLayout) (out : list CpuSmmLayout)
    : list CpuSmmLayout * res LayoutError (list CpuSmmLayout) :=
  match cpu_params l (zlen out) with
  | Ok (common_base, stacks_end, needed_ss_size, per_segment, first_segment_base) =>
      let (out', r) :=
        cpu_loop (cpu_slot l common_base stacks_end needed_ss_size per_segment first_segment_base)
                 (Z.to_nat (entry_count l)) 0 out in
      (out', let? _ := r in Ok (sub out' 0 (entry_count l)))
  | Err e => (out, Err e)
  | Panic => (out, Panic)
  end.

(** ** Ranges *)

(** Half-open address ranges. *)
Definition range : Type := Z * Z.
Definition disjoint (a b : range) : Prop := a.2 <= b.1 \/ b.2 <= a.1.
Definition within (a b : range) : Prop := b.1 <= a.1 /\ a.2 <= b.2.

Definition stack_range (c : CpuSmmLayout) : range := (stack_bottom c, stack_top c).
Definition stub_range (l : SmramLayout) (c : CpuSmmLayout) : range :=
  (entry_addr c, entry_addr c + entry_stub_size l).
Definition save_range (c : CpuSmmLayout) : range := (save_state_base c, save_state_top c).
Definition cpu_ranges (l : SmramLayout) (c : CpuSmmLayout) : list range :=
  [stack_range c; stub_range l c; save_range c].
Definition common_range (l : SmramLayout) (base : Z) : range := (base, base + handler_mem_size l).
Definition tables_range (l : SmramLayout) (base : Z) : range := (base, base + page_table_size l).
Definition smram_range (l : SmramLayout) : range := (smram_base l, smram_base l + smram_size l).

(** ** Lemmas *)

Lemma align_up_Ok value k r :
  0 <= k <= 64 -> 0 <= value ->
  align_up value (2 ^ k) = Ok r -> value <= r < value + 2 ^ k /\ r mod 2 ^ k = 0 /\ r <= u64_max.
Proof.
  intros Hk Hv. unfold align_up. intros H. rust_step H.
  apply fmap_Some in H as (v & Hc & ->). apply checked_add_Some in Hc as [-> Hb].
  assert (Hp : 0 < 2 ^ k) by (apply Z.pow_pos_nonneg; lia).
  rewrite land_not_mask by (unfold u64_max in *; lia).
  pose proof (Z.div_mod (value + (2 ^ k - 1)) (2 ^ k)).
  pose proof (Z.mod_pos_bound (value + (2 ^ k - 1)) (2 ^ k) Hp).
  rewrite Z.mod_mul by lia. lia.
Qed.

Lemma align_up_complete value k :
  0 <= k <= 64 -> 0 <= value -> value + 2 ^ k <= u64_max + 1 -> exists r, align_up value (2 ^ k) = Ok r.
Proof.
  intros. unfold align_up, checked_add. destruct (Z.leb_spec (value + (2 ^ k - 1)) u64_max); [|lia].
  simpl. eauto.
Qed.

Lemma compute_common_base_Ok l base :
  layout_typed l -> compute_common_base l = Ok base ->
  exists handler tables,
    align_up (handler_mem_size l) 4096 = Ok handler /\ handler_mem_size l <= handler /\
    handler mod 4096 = 0 /\ page_table_size l <= tables /\
    smram_base l <= base /\ base mod 4096 = 0 /\
    base + handler + tables <= smram_base l + smram_size l <= u64_max.
Proof.
  intros (Hb & Hs & _ & _ & _ & _ & Hh & Ht) H. unfold compute_common_base, SMM_HANDLER_ALIGNMENT in H.
  repeat rust_step H. injection H as <-.
  change 4096 with (2 ^ 12) in *.
  pose proof (align_up_Ok (handler_mem_size l) 12 a0 ltac:(lia) ltac:(lia) Ha0) as (? & ? & ?).
  pose proof (align_up_Ok (page_table_size l) 12 a1 ltac:(lia) ltac:(lia) Ha1) as (? & ? & ?).
  apply ok_or_Ok, checked_add_Some in Ha as [-> ?].
  apply ok_or_Ok, checked_add_Some in Ha2 as [-> ?].
  apply ok_or_Ok, checked_sub_Some in Ha3 as [-> ?].
  rewrite land_not_mask in * by (unfold u64_max in *; lia). bool_hyp.
  exists a0, a1. set (below := _ - _) in *.
  pose proof (Z.div_mod below (2 ^ 12)). pose proof (Z.mod_pos_bound below (2 ^ 12)).
  rewrite Z.mod_mul by lia. unfold below in *. split_and!; auto; lia.
Qed.

(** What the guards before the loop establish. *)
Record params_ok (l : SmramLayout) (common stacks_end needed per first : Z) : Prop := {
  pk_common : compute_common_base l = Ok common;
  pk_stacks : stacks_end = smram_base l + stack_size l * entry_count l;
  pk_fit : stacks_end <= common;
  pk_needed : needed = Z.max (save_state_size l) (entry_stub_size l);
  pk_per : per = (0x8000 - entry_stub_size l) / needed;
  pk_per_pos : 0 < per;
  pk_per_needed : per * needed <= 0x8000 - entry_stub_size l;
  pk_first : first = common - 0x10000 /\ 0x10000 <= common;
  pk_count : 0 < entry_count l;
  pk_sizes : 0 < save_state_size l /\ 0 < stack_size l /\ 0 < entry_stub_size l < 0x8000
}.

Lemma cpu_params_Ok l out_len common stacks_end needed per first :
  layout_typed l -> cpu_params l out_len = Ok (common, stacks_end, needed, per, first) ->
  params_ok l common stacks_end needed per first /\ entry_count l <= out_len.
Proof.
  intros Hl H. unfold layout_typed in Hl.
  unfold cpu_params, SMM_ENTRY_OFFSET, SMM_CODE_SEGMENT_SIZE in H.
  repeat rust_step H. injection H as -> -> <- <- ->. bool_hyp.
  apply ok_or_Ok, checked_mul_Some in Ha0 as [-> ?].
  apply ok_or_Ok, checked_add_Some in Ha1 as [-> ?].
  apply ok_or_Ok, checked_sub_Some in Ha2 as [-> ?].
  change (0x10000 - 0x8000 - entry_stub_size l) with (0x8000 - entry_stub_size l) in *.
  set (needed := Z.max _ _) in *.
  assert (0 < needed) by lia.
  pose proof (Z.div_pos (0x8000 - entry_stub_size l) needed).
  pose proof (Z.mul_div_le (0x8000 - entry_stub_size l) needed).
  split; [constructor; auto; lia | lia].
Qed.

(** The addresses of an accepted slot. *)
Record slot_ok (l : SmramLayout) (common stacks_end needed per first i : Z) (c : CpuSmmLayout)
    : Prop := {
  sk_smbase : smbase c = first - i / per * 0x10000 - i mod per * needed;
  sk_entry : entry_addr c = smbase c + 0x8000;
  sk_top : save_state_top c = smbase c + 0x10000;
  sk_save : save_state_base c = save_state_top c - save_state_size l;
  sk_stack : stack_bottom c = smram_base l + i * stack_size l;
  sk_stack_top : stack_top c = stack_bottom c + stack_size l;
  sk_window : stacks_end <= smbase c /\ save_state_top c <= common;
  sk_stub : entry_addr c + entry_stub_size l <= save_state_base c
}.

Lemma cpu_slot_Ok l common stacks_end needed per first i c :
  cpu_slot l common stacks_end needed per first i = Ok c ->
  slot_ok l common stacks_end needed per first i c.
Proof.
  intros H. unfold cpu_slot, SMM_ENTRY_OFFSET, SMM_CODE_SEGMENT_SIZE in H.
  repeat rust_step H. injection H as <-. bool_hyp.
  apply ok_or_Ok, checked_mul_Some in Ha as [-> ?].
  apply ok_or_Ok in Ha0. apply bind_Some in Ha0 as (v & Hv & Ha0).
  apply bind_Some in Ha0 as (w & Hw & Ha0).
  apply checked_sub_Some in Hv as [-> ?]. apply checked_mul_Some in Hw as [-> ?].
  apply checked_sub_Some in Ha0 as [-> ?].
  apply ok_or_Ok, checked_add_Some in Ha1 as [-> ?].
  apply ok_or_Ok, checked_add_Some in Ha2 as [-> ?].
  apply ok_or_Ok, checked_sub_Some in Ha3 as [-> ?].
  apply or_panic_Ok, checked_mul_Some in Ha4 as [-> ?].
  apply ok_or_Ok, checked_add_Some in Ha5 as [-> ?].
  apply ok_or_Ok, checked_add_Some in Ha6 as [-> ?].
  apply or_panic_Ok, checked_add_Some in Ha7 as [-> ?].
  constructor; simpl; auto; lia.
Qed.

(** The loop stores slot [j] at index [j] and leaves the others alone. *)
Lemma cpu_loop_Ok slot n i out out' :
  cpu_loop slot n i out = (out', Ok tt) -> (i + n <= length out)%nat ->
  length out' = length out /\
  (forall j, (j < i)%nat -> out' !! j = out !! j) /\
  (forall j, (i <= j < i + n)%nat -> exists c, out' !! j = Some c /\ slot (Z.of_nat j) = Ok c).
Proof.
  revert i out. induction n as [|n IH]; intros i out H Hlen; simpl in H.
  { injection H as <-. split_and!; auto. intros j Hj. lia. }
  destruct (slot (Z.of_nat i)) as [c| |] eqn:Hc; try discriminate H.
  apply IH in H as (Hl & Hlow & Hnew); [|rewrite length_insert; lia].
  rewrite length_insert in Hl. split_and!; auto.
  - intros j Hj. rewrite Hlow by lia. apply list_lookup_insert_ne. lia.
  - intros j Hj. destruct (decide (j = i)) as [->|Hne]; [|apply Hnew; lia].
    exists c. split; [|done]. rewrite Hlow by lia. apply list_lookup_insert_eq. lia.
Qed.

Lemma compute_cpu_layout_Ok l out out' cpus :
  layout_typed l -> compute_cpu_layout l out = (out', Ok cpus) ->
  exists common stacks_end needed per first,
    params_ok l common stacks_end needed per first /\
    zlen cpus = entry_count l /\
    forall i c, cpus !! i = Some c ->
      Z.of_nat i < entry_count l /\
      slot_ok l common stacks_end needed per first (Z.of_nat i) c.
Proof.
  intros Hl H. unfold compute_cpu_layout in H.
  destruct (cpu_params l (zlen out)) as [[[[[common stacks_end] needed] per] first]| |] eqn:Hp;
    try discriminate H.
  apply cpu_params_Ok in Hp as [Hp Hlen]; [|done].
  destruct (cpu_loop _ _ _ _) as [out1 [[]| |]] eqn:Hloop; try discriminate H.
  injection H as <- <-. pose proof (pk_count _ _ _ _ _ _ Hp).
  apply cpu_loop_Ok in Hloop as (Hl' & _ & Hnew); [|unfold zlen in *; lia].
  exists common, stacks_end, needed, per, first. split_and!; auto.
  - apply zlen_sub; unfold zlen in *; lia.
  - intros i c Hi. rewrite lookup_sub in Hi. case_decide; [|done]. split; [lia|].
    destruct (Hnew i) as (c' & Hc' & Hs); [lia|]. simpl in Hi. rewrite Hc' in Hi.
    injection Hi as <-. by apply cpu_slot_Ok.
Qed.

(** Two CPUs of one segment are at least [needed] apart, two CPUs of different
    segments are in different windows. *)
Lemma stagger per needed i j :
  0 < per -> 0 <= needed -> 0 <= i -> i < j ->
  let x := i mod per * needed in let y := j mod per * needed in
  (0 <= x <= per * needed - needed /\ 0 <= y <= per * needed - needed) /\
  ((i / per = j / per /\ x + needed <= y) \/ i / per + 1 <= j / per).
Proof.
  intros Hp Hn Hi Hij. simpl.
  pose proof (Z.mod_pos_bound i per Hp). pose proof (Z.mod_pos_bound j per Hp).
  pose proof (Z.div_mod i per). pose proof (Z.div_mod j per).
  pose proof (Z.div_le_mono i j per Hp). split; [nia|].
  destruct (Z.eq_dec (i / per) (j / per)); [left; split; [done|nia] | right; lia].
Qed.

Definition windows_apart (l : SmramLayout) (c d : CpuSmmLayout) : Prop :=
  forall r s, r ∈ [stub_range l c; save_range c] -> s ∈ [stub_range l d; save_range d] ->
  disjoint r s.

Lemma slots_apart l common stacks_end needed per first i j c d :
  params_ok l common stacks_end needed per first ->
  slot_ok l common stacks_end needed per first i c ->
  slot_ok l common stacks_end needed per first j d ->
  0 <= i -> i < j -> windows_apart l c d.
Proof.
  intros [_ _ _ Hneed _ Hpp Hpn _ _ Hsz] [Hc1 Hc2 Hc3 Hc4 _ _ _ _] [Hd1 Hd2 Hd3 Hd4 _ _ _ _] Hi Hij.
  pose proof (stagger per needed i j Hpp ltac:(lia) Hi Hij) as Hst. simpl in Hst.
  unfold windows_apart, disjoint, stub_range, save_range.
  intros r s Hr Hs.
  repeat (apply elem_of_cons in Hr as [->|Hr]; [|]; try (by apply elem_of_nil in Hr));
  repeat (apply elem_of_cons in Hs as [->|Hs]; [|]; try (by apply elem_of_nil in Hs)); simpl; lia.
Qed.

Lemma stacks_apart l common stacks_end needed per first i j c d :
  params_ok l common stacks_end needed per first ->
  slot_ok l common stacks_end needed per first i c ->
  slot_ok l common stacks_end needed per first j d ->
  0 <= i -> i < j -> disjoint (stack_range c) (stack_range d).
Proof.
  intros Hp Hc Hd Hi Hij. unfold disjoint, stack_range. simpl. left.
  rewrite (sk_stack_top _ _ _ _ _ _ _ _ Hc), (sk_stack _ _ _ _ _ _ _ _ Hc),
    (sk_stack _ _ _ _ _ _ _ _ Hd).
  pose proof (pk_sizes _ _ _ _ _ _ Hp). nia.
Qed.

(** A CPU's stack lies below the SMBASE windows, its window above all stacks and
    below the common handler. *)
Lemma slot_bounds l common stacks_end needed per first i c :
  params_ok l common stacks_end needed per first ->
  slot_ok l common stacks_end needed per first i c -> 0 <= i < entry_count l ->
  smram_base l <= stack_bottom c /\ stack_top c <= stacks_end /\
  stacks_end <= entry_addr c /\ stacks_end <= save_state_base c /\ save_state_top c <= common.
Proof.
  intros [_ Hs _ _ _ _ _ _ _ Hsz] [_ He Ht Hb Hk Hkt Hw Hst] Hi. subst. nia.
Qed.

Lemma disjoint_sym a b : disjoint a b -> disjoint b a.
Proof. unfold disjoint. tauto. Qed.

(** [x] is one of three. *)
Ltac split_elem H :=
  repeat (apply elem_of_cons in H as [->|H]); [..|by apply elem_of_nil in H].

Lemma cpus_apart l common stacks_end needed per first i j c d :
  params_ok l common stacks_end needed per first ->
  slot_ok l common stacks_end needed per first i c ->
  slot_ok l common stacks_end needed per first j d ->
  0 <= i < entry_count l -> 0 <= j < entry_count l -> i < j ->
  forall r s, r ∈ cpu_ranges l c -> s ∈ cpu_ranges l d -> disjoint r s.
Proof.
  intros Hp Hc Hd Hi Hj Hij r s Hr Hs.
  pose proof (slot_bounds _ _ _ _ _ _ _ _ Hp Hc Hi). pose proof (slot_bounds _ _ _ _ _ _ _ _ Hp Hd Hj).
  pose proof (stacks_apart _ _ _ _ _ _ _ _ _ _ Hp Hc Hd ltac:(lia) Hij).
  pose proof (slots_apart _ _ _ _ _ _ _ _ _ _ Hp Hc Hd ltac:(lia) Hij) as Hw.
  unfold windows_apart in Hw. unfold cpu_ranges in *.
  split_elem Hr; split_elem Hs; try (apply Hw; rewrite ?elem_of_cons; by auto); auto;
    unfold disjoint, stack_range, stub_range, save_range in *; simpl in *; lia.
Qed.

(** ** Properties *)

(** Every accepted SMRAM placement keeps the regions apart: each CPU's
    stack, entry stub and save state lie inside SMRAM, outside the common
    handler and the page tables and apart from each other, and the regions of
    two different CPUs never overlap, however many SMBASE segments are used. *)
Theorem compute_cpu_layout_sound l out out' cpus :
  layout_typed l -> compute_cpu_layout l out = (out', Ok cpus) ->
  exists common tables,
    compute_common_base l = Ok common /\ compute_page_table_base l = Ok tables /\
    zlen cpus = entry_count l /\
    within (common_range l common) (smram_range l) /\
    within (tables_range l tables) (smram_range l) /\
    disjoint (common_range l common) (tables_range l tables) /\
    (forall i c, cpus !! i = Some c ->
       entry_addr c = smbase c + SMM_ENTRY_OFFSET /\
       save_state_top c = smbase c + SMM_CODE_SEGMENT_SIZE /\
       disjoint (stack_range c) (stub_range l c) /\ disjoint (stack_range c) (save_range c) /\
       disjoint (stub_range l c) (save_range c) /\
       (forall r, r ∈ cpu_ranges l c ->
          within r (smram_range l) /\ disjoint r (common_range l common) /\
          disjoint r (tables_range l tables))) /\
    (forall i j c d r s, i <> j -> cpus !! i = Some c -> cpus !! j = Some d ->
       r ∈ cpu_ranges l c -> s ∈ cpu_ranges l d -> disjoint r s).
Proof.
  intros Hl H.
  destruct (compute_cpu_layout_Ok _ _ _ _ Hl H) as (common & se & needed & per & first & Hp & Hn & Hall).
  destruct (compute_common_base_Ok _ _ Hl (pk_common _ _ _ _ _ _ Hp)) as (h & t & Hh & Hcb).
  assert (Htb : compute_page_table_base l = Ok (common + h)).
  { unfold compute_page_table_base, SMM_HANDLER_ALIGNMENT. rewrite (pk_common _ _ _ _ _ _ Hp). simpl.
    rewrite Hh. simpl. apply ok_or_Ok, checked_add_Some. unfold layout_typed in Hl. lia. }
  unfold layout_typed in Hl.
  exists common, (common + h). split; [apply (pk_common _ _ _ _ _ _ Hp)|].
  do 2 (split; [done|]). split_and!.
  1-3: unfold within, disjoint, common_range, tables_range, smram_range; simpl; lia.
  - intros i c Hi. destruct (Hall i c Hi) as [Hlt Hs].
    pose proof (slot_bounds _ _ _ _ _ _ _ _ Hp Hs ltac:(lia)).
    pose proof (pk_sizes _ _ _ _ _ _ Hp). destruct Hs.
    unfold SMM_ENTRY_OFFSET, SMM_CODE_SEGMENT_SIZE.
    split_and!; auto; [unfold disjoint, stack_range, stub_range, save_range; simpl; lia..|].
    intros r Hr. unfold cpu_ranges in Hr.
    split_elem Hr; unfold within, disjoint, stack_range, stub_range, save_range, common_range,
      tables_range, smram_range; simpl; lia.
  - intros i j c d r s Hij Hi Hj Hr Hs.
    destruct (Hall i c Hi) as [? Hci]. destruct (Hall j d Hj) as [? Hdj].
    destruct (decide (i < j)%nat).
    + eapply (cpus_apart _ _ _ _ _ _ _ _ c d Hp Hci Hdj); eauto; lia.
    + apply disjoint_sym. eapply (cpus_apart _ _ _ _ _ _ _ _ d c Hp Hdj Hci); eauto; lia.
Qed.

Lemma compute_common_base_no_panic l : compute_common_base l <> Panic.
Proof.
  intros H. unfold compute_common_base, align_up in H. repeat panic_step H.
Qed.

Lemma cpu_slot_no_panic l common stacks_end needed per first i :
  layout_typed l -> params_ok l common stacks_end needed per first -> 0 <= i < entry_count l ->
  cpu_slot l common stacks_end needed per first i <> Panic.
Proof.
  intros Hl Hp Hi H. unfold layout_typed, u16_max, u32_max, u64_max in Hl.
  pose proof (pk_sizes _ _ _ _ _ _ Hp).
  unfold cpu_slot, add_or_panic, SMM_ENTRY_OFFSET, SMM_CODE_SEGMENT_SIZE in H.
  repeat panic_step H.
  - apply checked_mul_None in H. unfold u64_max in H. nia.
  - apply checked_add_None in H.
    apply ok_or_Ok, checked_add_Some in Ha1 as [-> ?].
    apply ok_or_Ok, checked_add_Some in Ha2 as [-> ?]. unfold u64_max in *. lia.
Qed.

Lemma cpu_loop_no_panic slot n i out :
  (forall j, (i <= j < i + n)%nat -> slot (Z.of_nat j) <> Panic) ->
  (cpu_loop slot n i out).2 <> Panic.
Proof.
  revert i out. induction n as [|n IH]; intros i out Hs; simpl; [done|].
  destruct (slot (Z.of_nat i)) eqn:Hc; [|done|by destruct (Hs i); [lia|]].
  apply IH. intros j Hj. apply Hs. lia.
Qed.

(** No address computation of the SMRAM layout overflows: for every input
    of the declared field widths the routine returns a layout or an error. *)
Theorem compute_cpu_layout_no_panic l out :
  layout_typed l -> (compute_cpu_layout l out).2 <> Panic.
Proof.
  intros Hl. unfold compute_cpu_layout.
  destruct (cpu_params l (zlen out)) as [[[[[common se] needed] per] first]| |] eqn:Hp; [|done|].
  - apply cpu_params_Ok in Hp as [Hp _]; [|done].
    pose proof (cpu_loop_no_panic (cpu_slot l common se needed per first)
                  (Z.to_nat (entry_count l)) 0 out) as Hn.
    destruct (cpu_loop _ _ _ _) as [out' [| |]]; [done|done|]. exfalso. apply Hn; [|done].
    intros j Hj. apply cpu_slot_no_panic; auto. lia.
  - exfalso. unfold cpu_params in Hp.
    repeat panic_step Hp. by apply compute_common_base_no_panic in Hp.
Qed.

(** The room a placement needs: all stacks, the SMBASE windows (the last one may
    be staggered by up to half a window), the handler and the page tables, each
    rounded up to pages. *)
Definition segments (l : SmramLayout) : Z :=
  (entry_count l - 1)
  / ((0x8000 - entry_stub_size l) / Z.max (save_state_size l) (entry_stub_size l)) + 1.

Definition room_needed (l : SmramLayout) : Z :=
  stack_size l * entry_count l + segments l * 0x10000 + 0x8000
  + next_multiple_of (handler_mem_size l) 4096 + next_multiple_of (page_table_size l) 4096 + 4096.

Lemma align_up_eval value :
  0 <= value <= u32_max -> align_up value 4096 = Ok (next_multiple_of value 4096).
Proof.
  intros Hv. unfold align_up, u32_max in *. rewrite checked_add_ok by (unfold u64_max; lia).
  simpl. f_equal. change 4095 with (2 ^ 12 - 1). change 4096 with (2 ^ 12).
  rewrite land_not_mask by lia. unfold next_multiple_of. do 2 f_equal. lia.
Qed.

Lemma compute_common_base_complete l :
  layout_typed l -> 0 < smram_size l -> smram_base l + smram_size l <= u64_max ->
  next_multiple_of (handler_mem_size l) 4096 + next_multiple_of (page_table_size l) 4096 + 4096
    <= smram_size l ->
  exists base, compute_common_base l = Ok base /\
    smram_base l + smram_size l - next_multiple_of (handler_mem_size l) 4096
      - next_multiple_of (page_table_size l) 4096 - 4096 < base.
Proof.
  intros Hl Hpos Htop Hroom. unfold layout_typed in Hl.
  pose proof (next_multiple_of_spec (handler_mem_size l) 4096 ltac:(lia)).
  pose proof (next_multiple_of_spec (page_table_size l) 4096 ltac:(lia)).
  unfold compute_common_base, SMM_HANDLER_ALIGNMENT.
  test_false (smram_size l =? 0).
  rewrite checked_add_ok by lia. simpl. rewrite !align_up_eval by lia. simpl.
  rewrite checked_add_ok by lia. simpl. rewrite checked_sub_ok by lia. simpl.
  change (4096 - 1) with (2 ^ 12 - 1). set (below := _ - (_ + _)).
  rewrite land_not_mask by (unfold below, u64_max in *; lia).
  pose proof (Z.div_mod below (2 ^ 12)). pose proof (Z.mod_pos_bound below (2 ^ 12)).
  unfold below in *.
  match goal with |- context [?b <? smram_base l] => test_false (b <? smram_base l) end.
  eexists. split; [reflexivity|]. lia.
Qed.

Lemma cpu_slot_complete l common stacks_end needed per first i :
  layout_typed l -> params_ok l common stacks_end needed per first -> 0 <= i < entry_count l ->
  common <= u64_max ->
  stacks_end + segments l * 0x10000 + 0x8000 <= common ->
  exists c, cpu_slot l common stacks_end needed per first i = Ok c.
Proof.
  intros Hl Hp Hi Hc Hroom. unfold layout_typed in Hl. unfold segments in Hroom.
  destruct Hp as [_ Hs _ Hneed Hper Hpp Hpn [Hfirst Hfb] _ Hsz]. rewrite <- Hneed, <- Hper in Hroom.
  pose proof (Z.div_le_mono i (entry_count l - 1) per Hpp ltac:(lia)).
  pose proof (Z.div_pos i per ltac:(lia) Hpp). pose proof (Z.mod_pos_bound i per Hpp).
  assert (0 <= i mod per * needed <= per * needed - needed) by nia.
  assert (0 <= i * stack_size l /\ i * stack_size l + stack_size l <= stack_size l * entry_count l) by nia.
  unfold u64_max, u32_max, u16_max in *.
  unfold cpu_slot, add_or_panic, SMM_ENTRY_OFFSET, SMM_CODE_SEGMENT_SIZE.
  rewrite !checked_mul_ok by (unfold u64_max; lia). simpl.
  rewrite (checked_sub_ok first) by lia. simpl. rewrite checked_sub_ok by lia. simpl.
  rewrite !(checked_add_ok _ (first - _ - _)) by (unfold u64_max; lia). simpl.
  rewrite checked_sub_ok by lia. simpl.
  rewrite (checked_add_ok _ (smram_base l)) by (unfold u64_max; lia). simpl.
  rewrite checked_add_ok by (unfold u64_max; lia). simpl.
  guard_false.
  rewrite checked_add_ok by (unfold u64_max; lia). simpl.
  guard_false. eauto.
Qed.

Lemma cpu_params_complete l out_len :
  layout_typed l -> smram_base l + smram_size l <= u64_max ->
  0 < entry_count l <= out_len ->
  0 < save_state_size l -> 0 < stack_size l -> 0 < entry_stub_size l < 0x8000 ->
  Z.max (save_state_size l) (entry_stub_size l) <= 0x8000 - entry_stub_size l ->
  room_needed l <= smram_size l ->
  exists common stacks_end needed per first,
    cpu_params l out_len = Ok (common, stacks_end, needed, per, first) /\
    common <= u64_max /\ stacks_end + segments l * 0x10000 + 0x8000 <= common.
Proof.
  intros Hl Htop Hn Hss Hst Hstub Hfit Hroom. unfold room_needed in Hroom.
  assert (Hper : 1 <= (0x8000 - entry_stub_size l) / Z.max (save_state_size l) (entry_stub_size l))
    by (apply Z.div_le_lower_bound; lia).
  assert (Hseg : 1 <= segments l) by (unfold segments; pose proof (Z.div_pos (entry_count l - 1)
    ((0x8000 - entry_stub_size l) / Z.max (save_state_size l) (entry_stub_size l))); lia).
  assert (0 <= stack_size l * entry_count l) by nia.
  unfold layout_typed in Hl.
  pose proof (next_multiple_of_spec (handler_mem_size l) 4096 ltac:(lia)).
  pose proof (next_multiple_of_spec (page_table_size l) 4096 ltac:(lia)).
  destruct (compute_common_base_complete l) as (base & Hbase & Hlow); [done|lia..|].
  destruct (compute_common_base_Ok l base) as (h & t & _ & Hh & _ & Ht & Hge & _ & Hle); [done..|].
  unfold cpu_params, SMM_ENTRY_OFFSET, SMM_CODE_SEGMENT_SIZE.
  do 4 guard_false.
  rewrite Hbase. simpl. rewrite checked_mul_ok by lia. simpl. rewrite checked_add_ok by lia. simpl.
  change (0x10000 - 0x8000 - entry_stub_size l) with (0x8000 - entry_stub_size l).
  do 2 guard_false.
  rewrite checked_sub_ok by lia. simpl.
  do 5 eexists. split; [reflexivity|]. lia.
Qed.

Lemma cpu_loop_complete slot n i out :
  (forall j, (i <= j < i + n)%nat -> exists c, slot (Z.of_nat j) = Ok c) ->
  exists out', cpu_loop slot n i out = (out', Ok tt).
Proof.
  revert i out. induction n as [|n IH]; intros i out Hs; simpl; [eauto|].
  destruct (Hs i) as [c ->]; [lia|]. apply IH. intros j Hj. apply Hs. lia.
Qed.

(** An SMRAM with room for the stacks, windows, handler and page tables is
    always laid out: the routine only refuses layouts that lack the room, whose
    stub and save state cannot share a window, or whose inputs are degenerate. *)
Theorem compute_cpu_layout_complete l out :
  layout_typed l -> smram_base l + smram_size l <= u64_max ->
  0 < entry_count l <= zlen out ->
  0 < save_state_size l -> 0 < stack_size l -> 0 < entry_stub_size l < 0x8000 ->
  Z.max (save_state_size l) (entry_stub_size l) <= 0x8000 - entry_stub_size l ->
  room_needed l <= smram_size l ->
  exists out' cpus, compute_cpu_layout l out = (out', Ok cpus).
Proof.
  intros Hl Htop Hn Hss Hst Hstub Hfit Hroom.
  destruct (cpu_params_complete l (zlen out)) as (common & se & needed & per & first & Hp & Hc & Hr);
    [done..|].
  unfold compute_cpu_layout. rewrite Hp. apply cpu_params_Ok in Hp as [Hp _]; [|done].
  destruct (cpu_loop_complete (cpu_slot l common se needed per first)
              (Z.to_nat (entry_count l)) 0 out) as [out' ->].
  - intros j Hj. apply cpu_slot_complete; auto. lia.
  - simpl. eauto.
Qed.

(** ** Identity page tables *)

Definition SMM_IDENTITY_TABLE_SIZE : Z := 6 * 4096.
Definition SMM_RELOCATION_TABLE_OFFSET : Z := 0x9000.
Definition PTE_PRESENT : Z := 1.
Definition PTE_WRITABLE : Z := 2.
Definition PTE_PAGE_SIZE : Z := 0x80.
Definition ENTRIES : nat := 512.

(** The table area is seen as [u64] words: the PML4 is word 0, the PDPT starts
    at word 512, the four page directories at word 1024. *)
Definition pdpt_writes (pds : Z) (tables : list Z) : list Z :=
  foldl (fun t i => <[(512 + i)%nat :=
           Z.lor (Z.lor (pds + Z.of_nat i * 4096) PTE_PRESENT) PTE_WRITABLE]> t)
        tables (seq 0 4).

Definition pd_writes (tables : list Z) : list Z :=
  foldl (fun t k => <[(1024 + k)%nat :=
           Z.lor (Z.lor (Z.lor (Z.shiftl (Z.of_nat k) 21) PTE_PRESENT) PTE_WRITABLE) PTE_PAGE_SIZE]> t)
        tables (seq 0 (4 * ENTRIES)).

Definition build_identity_tables (base : Z) : list Z :=
  let pdpt := base + 4096 in
  let pds := base + 2 * 4096 in
  let zeroed := replicate (Z.to_nat (SMM_IDENTITY_TABLE_SIZE / 8)) 0 in
  let with_pml4 := <[0%nat := Z.lor (Z.lor pdpt PTE_PRESENT) PTE_WRITABLE]> zeroed in
  pd_writes (pdpt_writes pds with_pml4).

Definition build_relocation_identity_tables (default_smbase : Z) : list Z :=
  build_identity_tables (default_smbase + SMM_RELOCATION_TABLE_OFFSET).

(** The processor's four-level walk, for tables that lie at [base]: an entry
    names the next table by its address bits 12 to 51, bit 0 is present, bit 7
    of a page-directory entry selects a 2 MiB page. *)
Definition pte_addr (e : Z) : Z := Z.land e (Z.shiftl (Z.ones 40) 12).
Definition table_word (base : Z) (tables : list Z) (addr : Z) : option Z :=
  if (base <=? addr) && (addr mod 8 =? 0) then get tables ((addr - base) / 8) else None.

Definition present (e : Z) : bool := Z.testbit e 0.

Definition page_walk (base : Z) (tables : list Z) (va : Z) : option Z :=
  pml4e ← table_word base tables (base + 8 * (Z.shiftr va 39 mod 512));
  if negb (present pml4e) then None else
  pdpte ← table_word base tables (pte_addr pml4e + 8 * (Z.shiftr va 30 mod 512));
  if negb (present pdpte) then None else
  pde ← table_word base tables (pte_addr pdpte + 8 * (Z.shiftr va 21 mod 512));
  if negb (present pde && Z.testbit pde 7) then None else
  Some (pte_addr pde + va mod 2 ^ 21).

Lemma foldl_insert_lookup (f : nat -> Z) (o n j : nat) (t : list Z) :
  (o + n <= length t)%nat ->
  foldl (fun t k => <[(o + k)%nat := f k]> t) t (seq 0 n) !! j =
    if decide (o <= j < o + n)%nat then Some (f (j - o)%nat) else t !! j.
Proof.
  intros Hlen. revert t Hlen. induction n as [|n IH]; intros t Hlen.
  { rewrite decide_False by lia. done. }
  rewrite seq_S, foldl_app. simpl.
  destruct (decide (j = o + n)%nat) as [->|Hne].
  - rewrite decide_True by lia. replace (o + n - o)%nat with n by lia.
    apply list_lookup_insert_eq.
    assert (Hl : forall k t, length (foldl (fun t k => <[(o + k)%nat := f k]> t) t k) = length t).
    { induction k as [|x k IHk]; intros t'; simpl; [done|]. by rewrite IHk, length_insert. }
    rewrite Hl. lia.
  - rewrite list_lookup_insert_ne by lia. rewrite IH by lia.
    repeat case_decide; auto; lia.
Qed.

Lemma length_foldl_insert (f : nat -> nat) (g : nat -> Z) (ks : list nat) (t : list Z) :
  length (foldl (fun t k => <[f k := g k]> t) t ks) = length t.
Proof. revert t. induction ks as [|k ks IH]; intros t; simpl; [done|]. by rewrite IH, length_insert. Qed.

(** Every word of the table area. *)
Lemma build_identity_tables_lookup base j :
  build_identity_tables base !! j =
    if decide (1024 <= j < 3072)%nat then
      Some (Z.lor (Z.lor (Z.lor (Z.shiftl (Z.of_nat (j - 1024)) 21) 1) 2) 0x80)
    else if decide (512 <= j < 516)%nat then
      Some (Z.lor (Z.lor (base + 8192 + Z.of_nat (j - 512) * 4096) 1) 2)
    else if decide (j = 0)%nat then Some (Z.lor (Z.lor (base + 4096) 1) 2)
    else if decide (j < 3072)%nat then Some 0 else None.
Proof.
  unfold build_identity_tables, pd_writes, pdpt_writes, ENTRIES, PTE_PRESENT, PTE_WRITABLE, PTE_PAGE_SIZE.
  change (Z.to_nat (SMM_IDENTITY_TABLE_SIZE / 8)) with 3072%nat.
  rewrite foldl_insert_lookup
    by (rewrite length_foldl_insert, length_insert, length_replicate; lia).
  change (1024 + 4 * 512)%nat with 3072%nat. case_decide; [done|].
  rewrite foldl_insert_lookup by (rewrite length_insert, length_replicate; lia).
  change (512 + 4)%nat with 516%nat. case_decide; [done|].
  case_decide as Hj; [subst; by rewrite list_lookup_insert_eq by (rewrite length_replicate; lia)|].
  rewrite list_lookup_insert_ne by lia. case_decide.
  - by apply lookup_replicate_2.
  - apply lookup_replicate_None. lia.
Qed.

(** An aligned address below [2^52] with low flag bits: the walk sees both. *)
Lemma pte_addr_flags a f :
  0 <= a < 2 ^ 52 -> a mod 4096 = 0 -> 0 <= f < 4096 -> pte_addr (Z.lor a f) = a.
Proof.
  intros Ha Hm Hf. unfold pte_addr. apply Z.bits_inj'. intros i Hi.
  rewrite Z.land_spec, Z.lor_spec, Z.shiftl_spec, Z.testbit_ones by lia.
  apply Z.mod_divide in Hm as [q ->]; [|lia]. change 4096 with (2 ^ 12) in *.
  destruct (Z.ltb_spec i 12).
  { rewrite Z.mul_pow2_bits_low by lia.
    destruct (Z.leb_spec 0 (i - 12)); [lia|]. simpl. apply andb_false_r. }
  rewrite (testbit_high f 12 i), orb_false_r by lia.
  destruct (Z.leb_spec 0 (i - 12)); [|lia].
  destruct (Z.ltb_spec (i - 12) 40); simpl; [apply andb_true_r|]. rewrite andb_false_r.
  symmetry. apply (testbit_high _ 52); lia.
Qed.

Lemma table_word_at base t n :
  0 <= n -> base mod 4096 = 0 -> table_word base t (base + 8 * n) = t !! Z.to_nat n.
Proof.
  intros Hn Hb. unfold table_word, get.
  apply Z.mod_divide in Hb as [q ->]; [|lia].
  replace ((q * 4096 + 8 * n) mod 8) with 0.
  2:{ replace (q * 4096 + 8 * n) with ((q * 512 + n) * 8) by lia. by rewrite Z.mod_mul by lia. }
  replace (q * 4096 + 8 * n - q * 4096) with (n * 8) by lia. rewrite Z.div_mul by lia.
  guard_true. guard_true. done.
Qed.

Lemma lor_flag_present a f : Z.odd f = true -> present (Z.lor a f) = true.
Proof. intros Hf. unfold present. rewrite Z.lor_spec, (Z.bit0_odd f), Hf. apply orb_true_r. Qed.

Lemma lor_flag_ps a f : Z.testbit f 7 = true -> Z.testbit (Z.lor a f) 7 = true.
Proof. intros Hf. rewrite Z.lor_spec, Hf. apply orb_true_r. Qed.

(** The three levels of the walk below [2^39], as indices into the area. *)
Lemma page_walk_low base va :
  base mod 4096 = 0 -> 0 <= base -> base + SMM_IDENTITY_TABLE_SIZE <= 2 ^ 52 -> 0 <= va < 2 ^ 39 ->
  page_walk base (build_identity_tables base) va =
    if va <? 2 ^ 32 then Some va else None.
Proof.
  intros Hb H0 Htop Hva. unfold SMM_IDENTITY_TABLE_SIZE in Htop. unfold page_walk.
  rewrite !Z.shiftr_div_pow2 by lia.
  rewrite (Z.div_small va (2 ^ 39)) by lia. rewrite Z.mod_0_l, table_word_at by lia.
  rewrite build_identity_tables_lookup. rewrite decide_False, decide_False, decide_True by lia.
  cbn [mbind option_bind].
  rewrite <- Z.lor_assoc, lor_flag_present by done. cbn [negb].
  assert (Hb4 : (base + 4096) mod 4096 = 0) by (rewrite <- Z.add_mod_idemp_r, Z.mod_same, Z.add_0_r; lia).
  change (Z.lor 1 2) with 3. rewrite pte_addr_flags by lia.
  assert (Hp : 0 <= va / 2 ^ 30 < 512).
  { split; [apply Z.div_pos; lia|]. apply Z.div_lt_upper_bound; lia. }
  rewrite (Z.mod_small (va / 2 ^ 30)) by lia.
  replace (base + 4096 + 8 * (va / 2 ^ 30)) with (base + 8 * (512 + va / 2 ^ 30)) by lia.
  rewrite table_word_at, build_identity_tables_lookup by lia.
  assert (Hdiv : (va <? 2 ^ 32) = (va / 2 ^ 30 <? 4)).
  { destruct (Z.ltb_spec va (2 ^ 32)), (Z.ltb_spec (va / 2 ^ 30) 4); try done; exfalso.
    - apply Z.le_ngt in H1. apply H1. apply Z.div_lt_upper_bound; lia.
    - assert (4 <= va / 2 ^ 30) by (apply Z.div_le_lower_bound; lia). lia. }
  rewrite Hdiv. destruct (Z.ltb_spec (va / 2 ^ 30) 4) as [Hp4|Hp4].
  2:{ rewrite decide_False, decide_False, decide_False, decide_True by lia. done. }
  rewrite decide_False, decide_True by lia. cbn [mbind option_bind].
  replace (Z.of_nat (Z.to_nat (512 + va / 2 ^ 30) - 512)) with (va / 2 ^ 30) by lia.
  rewrite <- Z.lor_assoc, lor_flag_present by done. cbn [negb]. change (Z.lor 1 2) with 3.
  rewrite pte_addr_flags.
  2: lia.
  2:{ apply Z.mod_divide in Hb as [q ->]; [|lia].
      replace (q * 4096 + 8192 + va / 2 ^ 30 * 4096) with ((q + 2 + va / 2 ^ 30) * 4096) by lia.
      by apply Z.mod_mul. }
  2: lia.
  assert (Hk : va / 2 ^ 21 = 512 * (va / 2 ^ 30) + (va / 2 ^ 21) mod 512).
  { pose proof (Z.div_mod (va / 2 ^ 21) 512). rewrite Z.div_div in H by lia.
    change (2 ^ 21 * 512) with (2 ^ 30) in H. lia. }
  pose proof (Z.mod_pos_bound (va / 2 ^ 21) 512).
  replace (base + 8192 + va / 2 ^ 30 * 4096 + 8 * ((va / 2 ^ 21) mod 512))
    with (base + 8 * (1024 + va / 2 ^ 21)) by lia.
  rewrite table_word_at, build_identity_tables_lookup by lia. rewrite decide_True by lia.
  cbn [mbind option_bind].
  replace (Z.of_nat (Z.to_nat (1024 + va / 2 ^ 21) - 1024)) with (va / 2 ^ 21) by lia.
  rewrite <- !Z.lor_assoc, lor_flag_present, lor_flag_ps by done. cbn [negb andb]. f_equal.
  change (Z.lor 1 (Z.lor 2 128)) with 131.
  rewrite Z.shiftl_mul_pow2, pte_addr_flags.
  - pose proof (Z.div_mod va (2 ^ 21)). lia.
  - lia.
  - replace (va / 2 ^ 21 * 2 ^ 21) with (va / 2 ^ 21 * 512 * 4096) by lia. by apply Z.mod_mul.
  - lia.
  - lia.
Qed.

Lemma page_walk_high base va :
  base mod 4096 = 0 -> 0 <= base -> 2 ^ 39 <= va < 2 ^ 48 ->
  page_walk base (build_identity_tables base) va = None.
Proof.
  intros Hb H0 Hva. unfold page_walk. rewrite !Z.shiftr_div_pow2 by lia.
  assert (1 <= va / 2 ^ 39 < 512).
  { split; [apply Z.div_le_lower_bound; lia | apply Z.div_lt_upper_bound; lia]. }
  rewrite (Z.mod_small (va / 2 ^ 39)) by lia. rewrite table_word_at by lia. rewrite build_identity_tables_lookup.
  rewrite decide_False, decide_False, decide_False, decide_True by lia. done.
Qed.

(** The processor's page walk over the tables built at a page-aligned base
    maps every address of the low 4 GiB to itself and no other canonical
    low-half address at all: stale SMRAM contents create no translation. *)
Theorem identity_tables_walk base va :
  base mod 4096 = 0 -> 0 <= base -> base + SMM_IDENTITY_TABLE_SIZE <= 2 ^ 52 -> 0 <= va < 2 ^ 48 ->
  page_walk base (build_identity_tables base) va = if va <? 2 ^ 32 then Some va else None.
Proof.
  intros Hb H0 Htop Hva. destruct (Z.ltb_spec va (2 ^ 39)).
  - apply page_walk_low; auto; lia.
  - rewrite page_walk_high by (auto; lia). by guard_false.
Qed.

(** ** Witnesses: the QEMU Q35 layout of the source's own tests *)

Definition ZERO_CPU : CpuSmmLayout :=
  {| smbase := 0; entry_addr := 0; save_state_base := 0; save_state_top := 0;
     stack_bottom := 0; stack_top := 0 |}.

Definition q35_layout : SmramLayout :=
  {| smram_base := 0x7f000000; smram_size := 0x800000; entry_count := 4; save_state_size := 0x400;
     stack_size := 0x400; entry_stub_size := 0x600; handler_mem_size := 0x4000;
     page_table_size := SMM_IDENTITY_TABLE_SIZE |}.

Definition q35_cpus : list CpuSmmLayout :=
  Eval vm_compute in (compute_cpu_layout q35_layout (replicate 4 ZERO_CPU)).1.

Lemma q35_typed : layout_typed q35_layout.
Proof. unfold layout_typed, u64_max, u32_max, u16_max. simpl. unfold SMM_IDENTITY_TABLE_SIZE. lia. Qed.

Lemma compute_cpu_layout_sound_witness :
  compute_cpu_layout q35_layout (replicate 4 ZERO_CPU) = (q35_cpus, Ok q35_cpus) /\
  forall c d, q35_cpus !! 0%nat = Some c -> q35_cpus !! 3%nat = Some d ->
  disjoint (stub_range q35_layout c) (save_range d).
Proof.
  assert (E : compute_cpu_layout q35_layout (replicate 4 ZERO_CPU) = (q35_cpus, Ok q35_cpus))
    by (vm_compute; reflexivity).
  split; [exact E|]. intros c d Hc Hd.
  destruct (compute_cpu_layout_sound q35_layout _ _ _ q35_typed E)
    as (common & tables & _ & _ & _ & _ & _ & _ & _ & Hap).
  apply (Hap 0%nat 3%nat c d); auto; unfold cpu_ranges; rewrite ?elem_of_cons; auto.
Defined.

Lemma compute_cpu_layout_no_panic_witness :
  (compute_cpu_layout q35_layout (replicate 4 ZERO_CPU)).2 <> Panic.
Proof. apply compute_cpu_layout_no_panic. exact q35_typed. Defined.

Lemma compute_cpu_layout_complete_witness :
  exists out' cpus, compute_cpu_layout q35_layout (replicate 4 ZERO_CPU) = (out', Ok cpus).
Proof.
  apply compute_cpu_layout_complete; [exact q35_typed|..];
    unfold q35_layout, room_needed, segments, u64_max, zlen; vm_compute; repeat split; discriminate || auto.
Defined.

Lemma identity_tables_walk_witness :
  page_walk 0x39000 (build_relocation_identity_tables 0x30000) 0xfee00300 = Some 0xfee00300.
Proof.
  unfold build_relocation_identity_tables.
  apply (identity_tables_walk 0x39000 0xfee00300); vm_compute; repeat split; discriminate || auto.
Defined.
