(* ===== verification/Lz4.v ===== *)
(** * Lz4: the LZ4 block decompressor ([crates/ffs/src/lz4.rs])

    [decompress_block] decodes with 8-byte copies that overshoot and with three
    copy routines for matches.  The file models every loop of it, states the
    LZ4 block format as an inductive relation on byte strings ([lz4_block]),
    and shows that the decoder never panics or loops, that what it accepts is a
    block and what it writes is that block's contents, and that it accepts
    every block that obeys the format's end-of-block rules.

    Slice indices are bounded by the slice lengths, which Rust keeps below
    [isize::MAX]; only the length accumulators can leave [usize], so those
    additions carry their overflow check ([Panic]). *)

From S2P Require Import Prelude.
From S2P Require Import Bytes.
From Stdlib Require Import ZArith Lia.
From stdpp Require Import base numbers list option.

#[local] Open Scope Z_scope.

Definition MIN_MATCH : Z := 4.
Definition LAST_LITERALS : Z := 5.
Definition WILD_COPY_LEN : Z := 8.
Definition MFLIMIT : Z := WILD_COPY_LEN + MIN_MATCH.
Definition ML_BITS : Z := 4.
Definition ML_MASK : Z := 15.
Definition RUN_MASK : Z := 15.

Inductive Lz4Error := Overrun | BadOffset.

(** [buf[i] = b] *)
Definition store_byte (buf : list Z) (i b : Z) : res Lz4Error (list Z) :=
  if (0 <=? i) && (i <? zlen buf) then Ok (upd buf i [b]) else Panic.

(** [buf[i]] *)
Definition load_byte (buf : list Z) (i : Z) : res Lz4Error Z := or_panic (get buf i).

(** ** Copies *)

(** [dst[di..di + len].copy_from_slice(&src[si..si + len])] *)
Definition copy_within (src : list Z) (si : Z) (dst : list Z) (di len : Z) : res Lz4Error (list Z) :=
  let? bytes := or_panic (get_range src si (si + len)) in
  let? _ := or_panic (get_range dst di (di + len)) in
  Ok (upd dst di bytes).

(** The 8-byte chunks of [wild_copy]. *)
Fixpoint wild_copy_chunks (fuel : nat) (src : list Z) (s : Z) (dst : list Z) (d dst_end : Z)
    : res Lz4Error (Z * Z * list Z) :=
  if (d + 8 <=? zlen dst) && (s + 8 <=? zlen src) && (d <? dst_end) then
    match fuel with
    | O => Panic
    | S fuel => wild_copy_chunks fuel src (s + 8) (upd dst d (sub src s 8)) (d + 8) dst_end
    end
  else Ok (s, d, dst).

(** The byte loop of [wild_copy]. *)
Fixpoint wild_copy_tail (fuel : nat) (src : list Z) (s : Z) (dst : list Z) (d dst_end : Z)
    : res Lz4Error (list Z) :=
  if (d <? dst_end) && (d <? zlen dst) && (s <? zlen src) then
    match fuel with
    | O => Panic
    | S fuel =>
        let? b := load_byte src s in
        let? dst := store_byte dst d b in
        wild_copy_tail fuel src (s + 1) dst (d + 1) dst_end
    end
  else Ok dst.

Definition wild_copy (src : list Z) (si : Z) (dst : list Z) (di dst_end : Z) : res Lz4Error (list Z) :=
  let? (s, d, dst) := wild_copy_chunks (length dst) src si dst di dst_end in
  wild_copy_tail (length dst) src s dst d dst_end.

(** The chunk loop of [wild_copy_within]: each chunk is read before it is
    written, at least 8 bytes further on. *)
Fixpoint within_chunks (fuel : nat) (buf : list Z) (s d dst_end : Z) : res Lz4Error (Z * Z * list Z) :=
  if (d + 8 <=? dst_end) && (s + 8 <=? zlen buf) then
    match fuel with
    | O => Panic
    | S fuel => within_chunks fuel (upd buf d (sub buf s 8)) (s + 8) (d + 8) dst_end
    end
  else Ok (s, d, buf).

(** [while d < end { buf[d] = buf[s]; d += 1; s += 1; }], [n] = [end - d]. *)
Fixpoint copy_bytes (n : nat) (buf : list Z) (s d : Z) : res Lz4Error (list Z) :=
  match n with
  | O => Ok buf
  | S n =>
      let? b := load_byte buf s in
      let? buf := store_byte buf d b in
      copy_bytes n buf (s + 1) (d + 1)
  end.

Definition wild_copy_within (buf : list Z) (src dst dst_end : Z) : res Lz4Error (list Z) :=
  let? (s, d, buf) := within_chunks (length buf) buf src dst dst_end in
  copy_bytes (Z.to_nat (dst_end - d)) buf s d.

(** The loop of [copy_match_short], whose source wraps within the pattern. *)
Fixpoint short_loop (n : nat) (buf : list Z) (s d match_pos offset : Z) : res Lz4Error (list Z) :=
  match n with
  | O => Ok buf
  | S n =>
      let? b := load_byte buf s in
      let? buf := store_byte buf d b in
      let s := if match_pos + offset <=? s + 1 then match_pos else s + 1 in
      short_loop n buf s (d + 1) match_pos offset
  end.

Definition copy_match_short (buf : list Z) (op match_pos offset len : Z) : res Lz4Error (list Z) :=
  short_loop (Z.to_nat len) buf match_pos op match_pos offset.

Definition copy_match_careful (buf : list Z) (op match_pos len : Z) : res Lz4Error (list Z) :=
  copy_bytes (Z.to_nat len) buf match_pos op.

(** ** The decoder *)

Section decoder.
Context {T : Target}.

(** The length extension loops: [stop ip] is the overrun test of the literal
    or of the match length. *)
Fixpoint length_loop (fuel : nat) (stop : Z -> bool) (src : list Z) (ip len : Z)
    : res Lz4Error (Z * Z) :=
  match fuel with
  | O => Panic
  | S fuel =>
      fail_if stop ip with Overrun;
      let? s := load_byte src ip in
      let? len := add_or_panic usize_max len s in
      if s =? 255 then length_loop fuel stop src (ip + 1) len else Ok (ip + 1, len)
  end.

Definition literal_stop (iend ip : Z) : bool := saturating_sub iend RUN_MASK <=? ip.
Definition match_stop (iend ip : Z) : bool := saturating_sub iend LAST_LITERALS <? ip.

Definition literal_length (src : list Z) (token ip : Z) : res Lz4Error (Z * Z) :=
  let lit_len := Z.shiftr token ML_BITS in
  if lit_len =? RUN_MASK then length_loop (S (length src)) (literal_stop (zlen src)) src ip lit_len
  else Ok (ip, lit_len).

Definition match_length (src : list Z) (token ip : Z) : res Lz4Error (Z * Z) :=
  let match_len := Z.land token ML_MASK in
  let? (ip, match_len) :=
    if match_len =? ML_MASK
    then length_loop (S (length src)) (match_stop (zlen src)) src ip match_len
    else Ok (ip, match_len) in
  let? match_len := add_or_panic usize_max match_len MIN_MATCH in
  Ok (ip, match_len).

Definition copy_match (dst : list Z) (op offset match_len : Z) : res Lz4Error (list Z) :=
  let oend := zlen dst in
  let match_pos := op - offset in
  let copy_end := op + match_len in
  if offset <? 8 then copy_match_short dst op match_pos offset match_len
  else if saturating_sub oend (WILD_COPY_LEN + LAST_LITERALS - 1) <? copy_end
  then copy_match_careful dst op match_pos match_len
  else wild_copy_within dst match_pos op copy_end.

(** What one iteration of the main loop leaves behind. *)
Inductive progress :=
| Done (op : Z) (dst : list Z)
| More (ip op : Z) (dst : list Z).

Definition lz4_sequence (src : list Z) (ip op : Z) (dst : list Z) : res Lz4Error progress :=
  let iend := zlen src in
  let oend := zlen dst in
  fail_if iend <=? ip with Overrun;
  let? token := load_byte src ip in
  let? (ip, lit_len) := literal_length src token (ip + 1) in
  let? cpy := add_or_panic usize_max op lit_len in
  let? lit_end := add_or_panic usize_max ip lit_len in
  if (saturating_sub oend MFLIMIT <? cpy)
     || (saturating_sub iend (2 + 1 + LAST_LITERALS) <? lit_end) then
    fail_if oend <? cpy with Overrun;
    fail_if negb (lit_end =? iend) with Overrun;
    let? dst := copy_within src ip dst op lit_len in
    Ok (Done (op + lit_len) dst)
  else
    let? dst := wild_copy src ip dst op cpy in
    let ip := ip + lit_len in
    let op := cpy in
    fail_if iend <=? ip + 1 with Overrun;
    let? lo := load_byte src ip in
    let? hi := load_byte src (ip + 1) in
    let offset := Z.lor lo (Z.shiftl hi 8) in
    let ip := ip + 2 in
    fail_if (offset =? 0) || (op <? offset) with BadOffset;
    let? (ip, match_len) := match_length src token ip in
    let? copy_end := add_or_panic usize_max op match_len in
    fail_if oend <? copy_end with Overrun;
    let? dst := copy_match dst op offset match_len in
    Ok (More ip copy_end dst).

(** Every iteration consumes its token, so one more iteration than there are
    input bytes is enough. *)
Fixpoint lz4_loop (fuel : nat) (src : list Z) (ip op : Z) (dst : list Z)
    : res Lz4Error (Z * list Z) :=
  match fuel with
  | O => Panic
  | S fuel =>
      let? p := lz4_sequence src ip op dst in
      match p with
      | Done op dst => Ok (op, dst)
      | More ip op dst => lz4_loop fuel src ip op dst
      end
  end.

(** The bytes written and the destination after the call. *)
Definition decompress_block (src dst : list Z) : res Lz4Error (Z * list Z) :=
  lz4_loop (S (length src)) src 0 0 dst.
End decoder.

(** "abc" then three more copies by an overlapping match, then 12 literals. *)
Example lz4_small :
  decompress_block [0x35; 97; 98; 99; 3; 0; 0xc0; 1; 2; 3; 4; 5; 6; 7; 8; 9; 10; 11; 12] (zeros 24)
  = Ok (24, [97; 98; 99; 97; 98; 99; 97; 98; 99; 97; 98; 99; 1; 2; 3; 4; 5; 6; 7; 8; 9; 10; 11; 12]).
Proof. vm_compute. reflexivity. Qed.

(** ** The block format *)

(** Byte [k] of a match: the last [offset] bytes of the output, cyclically. *)
Definition match_byte (out : list Z) (offset : Z) (k : nat) : Z :=
  nth (Z.to_nat (zlen out - offset + Z.of_nat k mod offset)) out 0.

Definition match_bytes (out : list Z) (offset : Z) (n : nat) : list Z :=
  map (match_byte out offset) (seq 0 n).

(** A length: a 4-bit field and, when the field is 15, extension bytes. *)
Inductive len_code : Z -> list Z -> Z -> Prop :=
| len_short n : 0 <= n < 15 -> len_code n [] n
| len_ext k b : 0 <= b < 255 -> len_code 15 (replicate k 255 ++ [b]) (15 + 255 * Z.of_nat k + b).

(** [lz4_block out src out']: with [out] already decoded, [src] decodes to
    [out'].  A sequence is a token, literals, and a match; the last sequence
    stops after its literals. *)
Inductive lz4_block : list Z -> list Z -> list Z -> Prop :=
| lz4_last out hi lo ext lits :
    len_code hi ext (zlen lits) -> 0 <= lo < 16 ->
    lz4_block out ((16 * hi + lo) :: ext ++ lits) (out ++ lits)
| lz4_seq out hi lo ext lits o0 o1 mext ml rest out' :
    len_code hi ext (zlen lits) -> len_code lo mext ml ->
    let offset := o0 + 256 * o1 in
    0 < offset <= zlen (out ++ lits) ->
    lz4_block (out ++ lits ++ match_bytes (out ++ lits) offset (Z.to_nat (ml + MIN_MATCH))) rest out' ->
    lz4_block out ((16 * hi + lo) :: ext ++ lits ++ [o0; o1] ++ mext ++ rest) out'.

(** Decoding bytes gives bytes. *)
Lemma lz4_block_bytes out src out' :
  lz4_block out src out' -> bytes_ok out -> bytes_ok src -> bytes_ok out'.
Proof.
  induction 1 as [out hi lo ext lits _ _ | out hi lo ext lits o0 o1 mext ml rest out' _ _ offset _ _ IH];
    intros Ho Hs; inversion Hs as [|? ? _ Hs']; subst; clear Hs;
    unfold bytes_ok in *; rewrite ?list.Forall_app, ?list.Forall_cons, ?list.Forall_app in *; [tauto|].
  apply IH; [|tauto]. split_and!; [tauto..|]. apply list.Forall_fmap, Forall_true.
  intros k. apply nth_byte_ok, bytes_ok_app. unfold bytes_ok. tauto.
Qed.

(** ** Copies against the format *)

Lemma sub_upd_extend buf d (l bs : list Z) :
  0 <= d -> d + zlen bs <= zlen buf -> sub buf 0 d = l ->
  sub (upd buf d bs) 0 (d + zlen bs) = l ++ bs.
Proof.
  intros Hd Hb <-. pose proof (zlen_nonneg bs). rewrite sub_split by lia.
  rewrite sub_upd_other by lia. simpl. by rewrite sub_upd_same by lia.
Qed.

Lemma length_match_bytes out offset n : length (match_bytes out offset n) = n.
Proof. unfold match_bytes. by rewrite length_map, length_seq. Qed.

Lemma match_bytes_add out offset n m :
  match_bytes out offset (n + m) = match_bytes out offset n ++ map (match_byte out offset) (seq n m).
Proof. unfold match_bytes. by rewrite seq_app, map_app. Qed.

Lemma lookup_nth_Some (l : list Z) i : (i < length l)%nat -> l !! i = Some (nth i l 0).
Proof. revert i. induction l; intros [|i] Hi; simpl in *; try lia; auto. apply IHl. lia. Qed.

(** The bytes [offset] behind a partly written match are its next bytes. *)
Lemma match_source out offset k m :
  0 < offset <= zlen out -> (Z.of_nat m <= offset) ->
  sub (out ++ match_bytes out offset k) (zlen out + Z.of_nat k - offset) (Z.of_nat m)
  = map (match_byte out offset) (seq k m).
Proof.
  intros Ho Hm. unfold zlen in *. apply list_eq. intros i. rewrite lookup_sub.
  rewrite list_lookup_fmap. case_decide as Hi.
  2:{ rewrite (proj2 (lookup_ge_None _ _)) by (rewrite length_seq; lia). done. }
  rewrite lookup_seq_lt by lia. simpl.
  destruct (decide (k + i < Z.to_nat offset)%nat) as [Hlt|Hge].
  - rewrite lookup_app_l by lia. rewrite lookup_nth_Some by lia. unfold match_byte, zlen. f_equal. f_equal.
    rewrite Z.mod_small by lia. lia.
  - rewrite lookup_app_r by lia. unfold match_bytes. rewrite list_lookup_fmap, lookup_seq_lt by lia.
    simpl. f_equal. unfold match_byte. do 3 f_equal.
    replace (Z.of_nat (k + i)) with
      (Z.of_nat (Z.to_nat (Z.of_nat (length out) + Z.of_nat k - offset) + i - length out) + 1 * offset)
      by lia.
    by rewrite Z.mod_add by lia.
Qed.

(** One copy of up to [offset] bytes from [offset] behind extends the match. *)
Lemma match_step buf out offset k m :
  0 < offset <= zlen out -> Z.of_nat m <= offset ->
  let d := zlen out + Z.of_nat k in
  d + Z.of_nat m <= zlen buf -> sub buf 0 d = out ++ match_bytes out offset k ->
  sub (upd buf d (sub buf (d - offset) (Z.of_nat m))) 0 (d + Z.of_nat m)
  = out ++ match_bytes out offset (k + m).
Proof.
  intros Ho Hm d Hd Hbuf. pose proof (zlen_nonneg out).
  assert (Hs : sub buf (d - offset) (Z.of_nat m) = map (match_byte out offset) (seq k m)).
  { rewrite <- match_source, <- Hbuf by done. rewrite sub_prefix by (unfold d; lia). done. }
  rewrite match_bytes_add, app_assoc, <- Hs, <- Hbuf.
  rewrite <- (sub_upd_extend buf d _ (sub buf (d - offset) (Z.of_nat m))); auto.
  all: rewrite ?zlen_sub by (unfold d in *; lia); unfold d in *; auto; lia.
Qed.

Lemma store_byte_ok buf i b : 0 <= i < zlen buf -> store_byte buf i b = Ok (upd buf i [b]).
Proof. intros. unfold store_byte. by guard_true. Qed.

Lemma load_byte_sub buf i : 0 <= i < zlen buf -> exists b, load_byte buf i = Ok b /\ sub buf i 1 = [b].
Proof.
  intros Hi. destruct (get_is_Some buf i Hi) as [b Hb]. exists b. unfold load_byte. rewrite Hb.
  split; [done|]. unfold get in Hb. destruct (0 <=? i); [|done]. unfold sub.
  apply drop_S in Hb. rewrite Hb. done.
Qed.

(** [buf] holds the output and the first [k] bytes of the match. *)
Definition holds_match (len : Z) (out : list Z) (offset : Z) (k : nat) (buf : list Z) : Prop :=
  zlen buf = len /\ sub buf 0 (zlen out + Z.of_nat k) = out ++ match_bytes out offset k.

Lemma holds_match_step len out offset k m buf :
  0 < offset <= zlen out -> Z.of_nat m <= offset ->
  zlen out + Z.of_nat k + Z.of_nat m <= len -> holds_match len out offset k buf ->
  holds_match len out offset (k + m)
    (upd buf (zlen out + Z.of_nat k) (sub buf (zlen out + Z.of_nat k - offset) (Z.of_nat m))).
Proof.
  intros Ho Hm Hl [Hz Hs]. pose proof (zlen_nonneg out). split.
  - rewrite zlen_upd; [done|lia|]. rewrite zlen_sub by lia. lia.
  - rewrite Nat2Z.inj_add, Z.add_assoc. apply match_step; auto; lia.
Qed.

Lemma copy_bytes_match len out offset n k buf :
  0 < offset <= zlen out -> zlen out + Z.of_nat (k + n) <= len -> holds_match len out offset k buf ->
  exists buf', copy_bytes n buf (zlen out + Z.of_nat k - offset) (zlen out + Z.of_nat k) = Ok buf' /\
    holds_match len out offset (k + n) buf'.
Proof.
  intros Ho. revert k buf. induction n as [|n IH]; intros k buf Hl Hb; simpl.
  { rewrite Nat.add_0_r. eauto. }
  pose proof (zlen_nonneg out). destruct Hb as [Hz Hs].
  destruct (load_byte_sub buf (zlen out + Z.of_nat k - offset)) as (b & -> & Hb); [lia|]. simpl.
  rewrite store_byte_ok by lia. simpl. rewrite <- Hb.
  destruct (IH (k + 1)%nat (upd buf (zlen out + Z.of_nat k) (sub buf (zlen out + Z.of_nat k - offset) 1)))
    as (buf' & Hc & Hm); [lia| |].
  - apply (holds_match_step len out offset k 1); auto; [lia..|by split].
  - exists buf'. split; [|by replace (k + S n)%nat with (k + 1 + n)%nat by lia].
    rewrite <- Hc. f_equal; lia.
Qed.

Lemma short_loop_match len out offset n k buf :
  0 < offset <= zlen out -> zlen out + Z.of_nat (k + n) <= len -> holds_match len out offset k buf ->
  exists buf',
    short_loop n buf (zlen out - offset + Z.of_nat k mod offset) (zlen out + Z.of_nat k)
      (zlen out - offset) offset = Ok buf' /\
    holds_match len out offset (k + n) buf'.
Proof.
  intros Ho. revert k buf. induction n as [|n IH]; intros k buf Hl [Hz Hs]; simpl.
  { rewrite Nat.add_0_r. eexists. split; [done|by split]. }
  pose proof (zlen_nonneg out). pose proof (Z.mod_pos_bound (Z.of_nat k) offset ltac:(lia)).
  set (s := zlen out - offset + Z.of_nat k mod offset).
  destruct (load_byte_sub buf s) as (b & -> & Hb); [unfold s; lia|]. simpl.
  rewrite store_byte_ok by lia. simpl.
  assert (Hbv : b = match_byte out offset k).
  { assert (Hout : sub out s 1 = [b]).
    { rewrite <- Hb, <- (sub_prefix buf (zlen out + Z.of_nat k) s 1) by (unfold s; lia).
      rewrite Hs. symmetry. apply sub_app_l; unfold s; lia. }
    unfold match_byte. fold s.
    assert (Hl0 : sub out s 1 !! 0%nat = Some b) by (by rewrite Hout).
    rewrite lookup_sub in Hl0. simpl in Hl0. rewrite Nat.add_0_r, lookup_nth_Some in Hl0
      by (unfold s, zlen in *; lia). by injection Hl0 as <-. }
  assert (Hnext : (if zlen out - offset + offset <=? s + 1 then zlen out - offset else s + 1)
                  = zlen out - offset + Z.of_nat (k + 1) mod offset).
  { replace (Z.of_nat (k + 1)) with (Z.of_nat k + 1) by lia. unfold s.
    pose proof (Z.add_mod_idemp_l (Z.of_nat k) 1 offset ltac:(lia)) as Hidem.
    destruct (Z.leb_spec (zlen out - offset + offset) (zlen out - offset + Z.of_nat k mod offset + 1)).
    - replace (Z.of_nat k mod offset + 1) with offset in Hidem by lia.
      rewrite Z.mod_same in Hidem by lia. lia.
    - rewrite Z.mod_small in Hidem by lia. lia. }
  rewrite Hnext.
  destruct (IH (k + 1)%nat (upd buf (zlen out + Z.of_nat k) [b])) as (buf' & Hc & Hm); [lia| |].
  - split.
    + rewrite zlen_upd; [done|lia|]. unfold zlen in *. simpl. lia.
    + rewrite match_bytes_add, app_assoc. simpl. rewrite <- Hbv, <- Hs.
      replace (zlen out + Z.of_nat (k + 1)) with (zlen out + Z.of_nat k + zlen [b])
        by (unfold zlen; simpl; lia).
      apply sub_upd_extend; auto; unfold zlen in *; simpl; lia.
  - exists buf'. split; [|by replace (k + S n)%nat with (k + 1 + n)%nat by lia].
    rewrite <- Hc. f_equal; lia.
Qed.

Lemma within_chunks_match len out offset fuel k buf dst_end :
  8 <= offset <= zlen out -> dst_end <= len -> holds_match len out offset k buf ->
  dst_end - (zlen out + Z.of_nat k) <= 8 * Z.of_nat fuel ->
  exists k' buf',
    within_chunks fuel buf (zlen out + Z.of_nat k - offset) (zlen out + Z.of_nat k) dst_end =
      Ok (zlen out + Z.of_nat k' - offset, zlen out + Z.of_nat k', buf') /\
    holds_match len out offset k' buf' /\ (k <= k')%nat /\
    (zlen out + Z.of_nat k <= dst_end -> zlen out + Z.of_nat k' <= dst_end).
Proof.
  intros Ho Hend. revert k buf. induction fuel as [|fuel IH]; intros k buf [Hz Hs] Hf.
  - exists k, buf. simpl. destruct (Z.leb_spec (zlen out + Z.of_nat k + 8) dst_end); [lia|].
    split_and!; auto. by split.
  - simpl. destruct (Z.leb_spec (zlen out + Z.of_nat k + 8) dst_end).
    2:{ exists k, buf. split_and!; auto. by split. }
    pose proof (zlen_nonneg out).
    test_true (zlen out + Z.of_nat k - offset + 8 <=? zlen buf). simpl.
    destruct (IH (k + 8)%nat (upd buf (zlen out + Z.of_nat k) (sub buf (zlen out + Z.of_nat k - offset) 8)))
      as (k' & buf' & Hc & Hm & Hk & Hle); [|lia|].
    + apply (holds_match_step len out offset k 8); [lia..|by split].
    + exists k', buf'. rewrite <- Hc. split_and!; auto; [f_equal; lia|lia|]. intros _. apply Hle. lia.
Qed.

Lemma copy_match_ok out dst offset mlen :
  0 < offset <= zlen out -> 0 <= mlen -> zlen out + mlen <= zlen dst -> sub dst 0 (zlen out) = out ->
  exists dst', copy_match dst (zlen out) offset mlen = Ok dst' /\ zlen dst' = zlen dst /\
    sub dst' 0 (zlen out + mlen) = out ++ match_bytes out offset (Z.to_nat mlen).
Proof.
  intros Ho Hm Hfit Hout.
  assert (H0 : holds_match (zlen dst) out offset 0 dst).
  { split; [done|]. simpl. by rewrite Z.add_0_r, app_nil_r. }
  assert (Hend : forall buf, holds_match (zlen dst) out offset (Z.to_nat mlen) buf ->
    zlen buf = zlen dst /\ sub buf 0 (zlen out + mlen) = out ++ match_bytes out offset (Z.to_nat mlen)).
  { intros buf [Hz Hs]. by rewrite Z2Nat.id in Hs by done. }
  assert (Hcareful : exists dst', copy_match_careful dst (zlen out) (zlen out - offset) mlen = Ok dst' /\
    holds_match (zlen dst) out offset (Z.to_nat mlen) dst').
  { destruct (copy_bytes_match (zlen dst) out offset (Z.to_nat mlen) 0 dst) as (dst' & Hc & Hd); [lia..|done|].
    exists dst'. split; [|done]. unfold copy_match_careful. rewrite <- Hc. f_equal; lia. }
  unfold copy_match. destruct (Z.ltb_spec offset 8).
  { destruct (short_loop_match (zlen dst) out offset (Z.to_nat mlen) 0 dst) as (dst' & Hc & Hd); [lia..|done|].
    exists dst'. split; [|by apply Hend]. unfold copy_match_short. rewrite <- Hc.
    rewrite Z.mod_0_l by lia. f_equal; lia. }
  case_match.
  { destruct Hcareful as (dst' & Hc & Hd). exists dst'. split; [done|by apply Hend]. }
  unfold wild_copy_within.
  destruct (within_chunks_match (zlen dst) out offset (length dst) 0 dst (zlen out + mlen))
    as (k & buf & Hc & Hd & Hk & Hle); [lia|lia|done|unfold zlen in *; lia|].
  rewrite !Z.add_0_r in Hc. rewrite Hc. simpl.
  destruct (copy_bytes_match (zlen dst) out offset (Z.to_nat mlen - k) k buf) as (dst' & Hc' & Hd');
    [lia..|done|].
  exists dst'. replace (Z.to_nat (zlen out + mlen - (zlen out + Z.of_nat k))) with (Z.to_nat mlen - k)%nat by lia.
  split; [done|]. apply Hend. by replace (Z.to_nat mlen) with (k + (Z.to_nat mlen - k))%nat by lia.
Qed.

(** [dst] holds the output and [k] literals from [ip] on. *)
Definition holds_lits (len : Z) (src : list Z) (ip : Z) (out : list Z) (k : Z) (dst : list Z) : Prop :=
  zlen dst = len /\ 0 <= k /\ ip + k <= zlen src /\ zlen out + k <= len /\
  sub dst 0 (zlen out + k) = out ++ sub src ip k.

Lemma holds_lits_step len src ip out k m dst :
  0 <= ip -> 0 <= m -> ip + k + m <= zlen src -> zlen out + k + m <= len ->
  holds_lits len src ip out k dst ->
  holds_lits len src ip out (k + m) (upd dst (zlen out + k) (sub src (ip + k) m)).
Proof.
  intros Hi Hm Hs Hd (Hz & Hk & Hsk & Hdk & Hsub). pose proof (zlen_nonneg out).
  assert (Hlen : zlen (sub src (ip + k) m) = m) by (apply zlen_sub; lia).
  split_and!; [rewrite zlen_upd; lia|lia..|].
  rewrite (sub_split src ip k m), app_assoc by lia. rewrite <- Hsub, Z.add_assoc.
  rewrite <- Hlen at 2. apply sub_upd_extend; auto; lia.
Qed.

Lemma wild_copy_chunks_ok len src ip out n fuel k dst :
  0 <= ip -> ip + n <= zlen src -> zlen out + n <= len ->
  holds_lits len src ip out k dst -> n - k <= 8 * Z.of_nat fuel ->
  exists k' dst',
    wild_copy_chunks fuel src (ip + k) dst (zlen out + k) (zlen out + n) =
      Ok (ip + k', zlen out + k', dst') /\ holds_lits len src ip out k' dst' /\ k <= k'.
Proof.
  intros Hi Hs Hd. revert k dst. induction fuel as [|fuel IH]; intros k dst Hh Hf.
  - exists k, dst. simpl. test_false (zlen out + k <? zlen out + n). rewrite andb_false_r. split_and!; auto; lia.
  - simpl. destruct ((zlen out + k + 8 <=? zlen dst) && (ip + k + 8 <=? zlen src)
                     && (zlen out + k <? zlen out + n)) eqn:Hc.
    2:{ exists k, dst. split_and!; auto; lia. }
    bool_hyp. destruct (IH (k + 8) (upd dst (zlen out + k) (sub src (ip + k) 8)))
      as (k' & dst' & He & Hh' & Hk); [|lia|].
    + apply holds_lits_step; auto; [lia..|]. destruct Hh as [<- _]. lia.
    + exists k', dst'. rewrite <- He. split_and!; auto; [f_equal; lia|lia].
Qed.

Lemma wild_copy_tail_ok len src ip out n fuel k dst :
  0 <= ip -> ip + n <= zlen src -> zlen out + n <= len ->
  holds_lits len src ip out k dst -> n - k <= Z.of_nat fuel ->
  exists k' dst',
    wild_copy_tail fuel src (ip + k) dst (zlen out + k) (zlen out + n) = Ok dst' /\
    holds_lits len src ip out k' dst' /\ n <= k'.
Proof.
  intros Hi Hs Hd. revert k dst. induction fuel as [|fuel IH]; intros k dst Hh Hf.
  - exists k, dst. simpl. test_false (zlen out + k <? zlen out + n). split_and!; auto; lia.
  - simpl. destruct (Z.ltb_spec (zlen out + k) (zlen out + n)).
    2:{ exists k, dst. split_and!; auto; lia. }
    pose proof Hh as (Hz & Hk & _). pose proof (zlen_nonneg out).
    test_true (zlen out + k <? zlen dst). test_true (ip + k <? zlen src). simpl.
    destruct (load_byte_sub src (ip + k)) as (b & -> & Hb); [lia|]. simpl.
    rewrite store_byte_ok by lia. simpl. rewrite <- Hb.
    destruct (IH (k + 1) (upd dst (zlen out + k) (sub src (ip + k) 1)))
      as (k' & dst' & He & Hh' & Hk'); [|lia|].
    + apply holds_lits_step; auto; lia.
    + exists k', dst'. rewrite <- He. split_and!; auto. f_equal; lia.
Qed.

Lemma wild_copy_ok src ip out n dst :
  0 <= ip -> 0 <= n -> ip + n <= zlen src -> zlen out + n <= zlen dst -> sub dst 0 (zlen out) = out ->
  exists dst', wild_copy src ip dst (zlen out) (zlen out + n) = Ok dst' /\ zlen dst' = zlen dst /\
    sub dst' 0 (zlen out + n) = out ++ sub src ip n.
Proof.
  intros Hi Hn Hs Hd Hout. unfold wild_copy. pose proof (zlen_nonneg out).
  assert (H0 : holds_lits (zlen dst) src ip out 0 dst).
  { split_and!; auto; [lia..|]. rewrite Z.add_0_r, sub_nil, app_nil_r. done. }
  destruct (wild_copy_chunks_ok (zlen dst) src ip out n (length dst) 0 dst)
    as (k & dst1 & Hc & Hh & Hk); auto; [unfold zlen in *; lia|].
  rewrite !Z.add_0_r in Hc. rewrite Hc. simpl.
  destruct (wild_copy_tail_ok (zlen dst) src ip out n (length dst1) k dst1)
    as (k' & dst2 & Hc' & (Hz & Hk0 & Hks & Hkd & Hsub) & Hk'); auto.
  { destruct Hh as [Hz _]. unfold zlen in *. lia. }
  exists dst2. split_and!; auto.
  rewrite <- (sub_prefix dst2 (zlen out + k')) by lia. rewrite Hsub.
  rewrite sub_split by lia. f_equal.
  - by apply sub_app_exact.
  - rewrite sub_app_r by lia. replace (0 + zlen out - zlen out) with 0 by lia.
    rewrite sub_sub by lia. f_equal. lia.
Qed.

(** ** Lengths *)

(** The input from [ip] on. *)
Definition from (src : list Z) (ip : Z) : list Z := drop (Z.to_nat ip) src.

Lemma from_load src ip b : load_byte src ip = Ok b -> from src ip = b :: from src (ip + 1).
Proof.
  unfold load_byte. intros Hb. apply or_panic_Ok in Hb. unfold get in Hb. unfold from.
  destruct (Z.leb_spec 0 ip); [|done]. apply drop_S in Hb. rewrite Hb. do 2 f_equal. lia.
Qed.

Lemma from_sub src ip n :
  0 <= ip -> 0 <= n -> from src ip = sub src ip n ++ from src (ip + n).
Proof.
  intros. unfold from, sub. rewrite Z2Nat.inj_add by lia. rewrite <- drop_drop. by rewrite take_drop.
Qed.

Lemma load_byte_lt src ip b : load_byte src ip = Ok b -> 0 <= ip < zlen src.
Proof. intros Hb. apply or_panic_Ok in Hb. by eapply get_Some_lt. Qed.

Lemma load_byte_ok src ip b : bytes_ok src -> load_byte src ip = Ok b -> byte_ok b.
Proof. intros Hs Hb. apply or_panic_Ok in Hb. by eapply bytes_ok_get. Qed.

Lemma load_byte_no_panic src ip : 0 <= ip < zlen src -> load_byte src ip <> Panic.
Proof. intros Hi. unfold load_byte. by destruct (get_is_Some _ _ Hi) as [b ->]. Qed.

Section lengths.
Context {T : Target}.

Lemma length_loop_Ok fuel stop src ip len ip' len' :
  bytes_ok src -> length_loop fuel stop src ip len = Ok (ip', len') ->
  exists k b, 0 <= b < 255 /\ from src ip = (replicate k 255 ++ [b]) ++ from src ip' /\
    ip' = ip + Z.of_nat k + 1 /\ ip' <= zlen src /\ len' = len + 255 * Z.of_nat k + b.
Proof.
  intros Hok. revert ip len. induction fuel as [|fuel IH]; intros ip len H; [discriminate|].
  simpl in H. rust_step H. rust_step H. rust_step H. apply or_panic_Ok, checked_add_Some in Ha0 as [-> _].
  pose proof (load_byte_lt _ _ _ Ha). pose proof (load_byte_ok _ _ _ Hok Ha) as Hb0. unfold byte_ok in Hb0.
  pose proof (from_load _ _ _ Ha) as Hfrom. rust_step H; bool_hyp.
  - apply IH in H as (k & b & Hb' & Hf & -> & Hle & ->). exists (S k), b. subst a.
    rewrite Hfrom, Hf. split_and!; auto; lia.
  - injection H as <- <-. exists 0%nat, a. simpl. rewrite Hfrom. split_and!; auto; lia.
Qed.

Lemma length_loop_no_panic fuel stop src ip len :
  bytes_ok src -> (forall i, 0 < i -> stop i = false -> i < zlen src) -> 0 < ip ->
  len + 255 * (zlen src - ip) <= usize_max -> zlen src - ip < Z.of_nat fuel -> 0 < Z.of_nat fuel ->
  length_loop fuel stop src ip len <> Panic.
Proof.
  intros Hok Hstop. revert ip len. induction fuel as [|fuel IH]; intros ip len Hip Hlen Hf H0; [lia|].
  simpl. destruct (stop ip) eqn:Hs; [done|]. apply Hstop in Hs; [|done].
  destruct (load_byte src ip) as [b| |] eqn:Hb; [|done|].
  2:{ apply load_byte_no_panic in Hb; [done|lia]. }
  pose proof (load_byte_ok _ _ _ Hok Hb) as Hbo. unfold byte_ok in Hbo. simpl.
  unfold add_or_panic. rewrite checked_add_ok by lia. simpl. case_match; [|done].
  apply IH; lia.
Qed.

Lemma token_split token : byte_ok token ->
  0 <= Z.shiftr token ML_BITS < 16 /\ 0 <= Z.land token ML_MASK < 16 /\
  token = 16 * Z.shiftr token ML_BITS + Z.land token ML_MASK.
Proof.
  unfold byte_ok, ML_BITS, ML_MASK. intros Ht.
  rewrite Z.shiftr_div_pow2 by lia. change 15 with (Z.ones 4). rewrite Z.land_ones by lia.
  change (2 ^ 4) with 16. pose proof (Z.div_mod token 16). pose proof (Z.mod_pos_bound token 16).
  pose proof (Z.div_pos token 16). pose proof (Z.div_lt_upper_bound token 16 16). lia.
Qed.

(** What either length field means, once it was read. *)
Lemma length_field_Ok stop src field ip ip' n :
  bytes_ok src -> 0 <= field < 16 -> 0 <= ip <= zlen src ->
  (if field =? 15 then length_loop (S (length src)) stop src ip field else Ok (ip, field)) = Ok (ip', n) ->
  exists ext, len_code field ext n /\ from src ip = ext ++ from src ip' /\
    ip' = ip + zlen ext /\ ip' <= zlen src /\ 0 <= n <= 15 + 255 * (ip' - ip).
Proof.
  intros Hok Hf Hip Hres. destruct (Z.eqb_spec field 15) as [->|Hne].
  - apply length_loop_Ok in Hres as (k & b & Hb & Hfrom & -> & Hle & ->); [|done].
    exists (replicate k 255 ++ [b]). split_and!; auto; try lia.
    + by constructor.
    + unfold zlen. rewrite length_app, length_replicate. simpl. lia.
  - injection Hres as <- <-. exists []. split; [constructor; lia|]. split_and!; auto; rewrite ?zlen_nil; lia.
Qed.

Lemma length_field_no_panic stop src field ip :
  bytes_ok src -> (forall i, 0 < i -> stop i = false -> i < zlen src) -> 0 < ip -> 0 <= field < 16 ->
  15 + 255 * zlen src <= usize_max ->
  (if field =? 15 then length_loop (S (length src)) stop src ip field else Ok (ip, field)) <> Panic.
Proof.
  intros Hok Hstop Hip Hf Hm. case_match; [|done].
  apply length_loop_no_panic; auto; unfold zlen in *; lia.
Qed.

Lemma literal_stop_lt iend i : 0 < i -> literal_stop iend i = false -> i < iend.
Proof. unfold literal_stop, saturating_sub, RUN_MASK. intros. bool_hyp. lia. Qed.

Lemma match_stop_lt iend i : 0 < i -> match_stop iend i = false -> i < iend.
Proof. unfold match_stop, saturating_sub, LAST_LITERALS. intros. bool_hyp. lia. Qed.
End lengths.

(** ** One sequence *)

Lemma copy_within_ok src ip out n dst :
  0 <= ip -> 0 <= n -> ip + n <= zlen src -> zlen out + n <= zlen dst -> sub dst 0 (zlen out) = out ->
  copy_within src ip dst (zlen out) n = Ok (upd dst (zlen out) (sub src ip n)) /\
  sub (upd dst (zlen out) (sub src ip n)) 0 (zlen out + n) = out ++ sub src ip n.
Proof.
  intros Hi Hn Hs Hd Hout. pose proof (zlen_nonneg out).
  assert (Hlen : zlen (sub src ip n) = n) by (apply zlen_sub; lia).
  split.
  - unfold copy_within, get_range. do 2 (guard_true; simpl). do 3 f_equal. lia.
  - rewrite <- Hlen at 2. apply sub_upd_extend; auto; lia.
Qed.

Lemma offset_bytes lo hi : byte_ok lo -> byte_ok hi -> Z.lor lo (Z.shiftl hi 8) = lo + 256 * hi.
Proof.
  unfold byte_ok. intros. rewrite lor_shiftl_add by lia. lia.
Qed.

Section sequence.
Context {T : Target}.

(** The loop invariant: [out] is decoded, [ip] is inside the input. *)
Record at_sequence (src dst out : list Z) (ip op : Z) : Prop := {
  as_ip : 0 <= ip <= zlen src;
  as_op : op = zlen out;
  as_out : sub dst 0 op = out;
  as_fit : op <= zlen dst
}.

Definition sequence_ok (src dst out : list Z) (ip : Z) (p : progress) : Prop :=
  match p with
  | Done n dst' =>
      zlen dst' = zlen dst /\ 0 <= n <= zlen dst /\ lz4_block out (from src ip) (sub dst' 0 n)
  | More ip' op' dst' =>
      exists out', at_sequence src dst' out' ip' op' /\ zlen dst' = zlen dst /\ ip < ip' /\
        forall fin, lz4_block out' (from src ip') fin -> lz4_block out (from src ip) fin
  end.

Lemma lz4_sequence_Ok src dst out ip op p :
  bytes_ok src -> at_sequence src dst out ip op ->
  lz4_sequence src ip op dst = Ok p -> sequence_ok src dst out ip p.
Proof.
  intros Hok [Hip -> Hout Hfit] H. unfold lz4_sequence in H.
  rust_step H. rust_step H. rename a into token.
  pose proof (load_byte_ok _ _ _ Hok Ha) as Htok. pose proof (load_byte_lt _ _ _ Ha).
  pose proof (from_load _ _ _ Ha) as Hfrom. destruct (token_split token Htok) as (Hhi & Hlo & Htoken).
  rust_step H. destruct a as [ip1 lit]. unfold literal_length, RUN_MASK in Ha0.
  apply length_field_Ok in Ha0 as (ext & Hcode & Hext & Hip1 & Hle1 & Hlit); [|done|done|lia].
  rust_step H. apply or_panic_Ok, checked_add_Some in Ha0 as [-> _].
  rust_step H. apply or_panic_Ok, checked_add_Some in Ha0 as [-> _].
  pose proof (zlen_nonneg ext). pose proof (zlen_nonneg out). rust_step H.
  - rust_step H. rust_step H. rust_step H. injection H as <-. bool_hyp.
    destruct (copy_within_ok src ip1 out lit dst) as [He Hsub]; [lia..|done|].
    rewrite He in Ha0. injection Ha0 as <-.
    assert (zlen (sub src ip1 lit) = lit) by (apply zlen_sub; lia).
    split_and!; [apply zlen_upd; lia|lia..|]. rewrite Hsub, Hfrom, Hext.
    rewrite (from_sub src ip1 lit), Htoken by lia.
    replace (from src (ip1 + lit)) with (@nil Z) by (symmetry; apply drop_ge; unfold zlen in *; lia).
    rewrite app_nil_r. constructor; [congruence|lia].
  - bool_hyp. clear Hb. unfold saturating_sub, MFLIMIT, WILD_COPY_LEN, MIN_MATCH, LAST_LITERALS in *.
    rust_step H. destruct (wild_copy_ok src ip1 out lit dst) as (dst1 & He & Hz1 & Hsub1); [lia..|done|].
    rewrite He in Ha0. injection Ha0 as <-.
    rust_step H. rust_step H. rust_step H. rename a into lo, a0 into hi. bool_hyp.
    pose proof (from_load _ _ _ Ha0) as Hflo. pose proof (from_load _ _ _ Ha1) as Hfhi.
    rewrite offset_bytes in H by (eapply load_byte_ok; eauto). rust_step H. bool_hyp.
    assert (Hzl : zlen (sub src ip1 lit) = lit) by (apply zlen_sub; lia).
    rust_step H. destruct a as [ip2 mlen]. unfold match_length in Ha2. rust_step Ha2.
    destruct a as [ip3 ml]. apply length_field_Ok in Ha3 as (mext & Hmcode & Hmext & Hip3 & Hle3 & Hml);
      [|done|done|lia].
    rust_step Ha2. injection Ha2 as <- <-. apply or_panic_Ok, checked_add_Some in Ha3 as [-> _].
    rust_step H. apply or_panic_Ok, checked_add_Some in Ha2 as [-> _]. rust_step H. rust_step H.
    injection H as <-. bool_hyp. pose proof (zlen_nonneg mext). unfold MIN_MATCH in *.
    pose proof (load_byte_ok _ _ _ Hok Ha0) as Hblo. pose proof (load_byte_ok _ _ _ Hok Ha1) as Hbhi.
    unfold byte_ok in Hblo, Hbhi.
    assert (Hzo : zlen (out ++ sub src ip1 lit) = zlen out + lit) by (rewrite zlen_app; lia).
    rewrite <- Hzo in Ha2. rewrite <- Hzo in Hsub1.
    destruct (copy_match_ok (out ++ sub src ip1 lit) dst1 (lo + 256 * hi) (ml + 4))
      as (dst2 & He2 & Hz2 & Hsub2); [lia..|done|].
    rewrite He2 in Ha2. injection Ha2 as <-.
    exists (out ++ sub src ip1 lit ++ match_bytes (out ++ sub src ip1 lit) (lo + 256 * hi) (Z.to_nat (ml + 4))).
    split_and!; [constructor|lia|lia|].
    + lia.
    + rewrite app_assoc, zlen_app, Hzo. unfold zlen at 3. rewrite length_match_bytes. lia.
    + rewrite Hzo in Hsub2. by rewrite Hsub2, app_assoc.
    + lia.
    + intros fin Hfin. rewrite Hfrom, Hext, (from_sub src ip1 lit), Hflo, Hfhi by lia.
      replace (ip1 + lit + 1 + 1) with (ip1 + lit + 2) by lia. rewrite Hmext, Htoken.
      apply (lz4_seq out _ _ ext (sub src ip1 lit) lo hi mext ml (from src ip3) fin); auto; [congruence|lia].
Qed.
End sequence.

(** ** The whole block *)

Section block.
Context {T : Target}.

Lemma lz4_loop_Ok fuel src dst out ip op n dst' :
  bytes_ok src -> at_sequence src dst out ip op ->
  lz4_loop fuel src ip op dst = Ok (n, dst') ->
  zlen dst' = zlen dst /\ 0 <= n <= zlen dst /\ lz4_block out (from src ip) (sub dst' 0 n).
Proof.
  intros Hok. revert dst out ip op. induction fuel as [|fuel IH]; intros dst out ip op Hat H; [done|].
  simpl in H. rust_step H. pose proof (lz4_sequence_Ok _ _ _ _ _ _ Hok Hat Ha) as Hp.
  destruct a as [n1 dst1|ip1 op1 dst1]; simpl in Hp.
  - by injection H as <- <-.
  - destruct Hp as (out1 & Hat1 & Hz & _ & Hblk).
    destruct (IH _ _ _ _ Hat1 H) as (Hz' & Hn & Hb). rewrite Hz in *. auto.
Qed.

Lemma at_start src dst : at_sequence src dst [] 0 0.
Proof. pose proof (zlen_nonneg src). pose proof (zlen_nonneg dst). split; auto; lia. Qed.

(** Input sizes for which no length can leave [usize]: all inputs a 64-bit
    target can hold, and up to 16 MiB of compressed bytes on a 32-bit one. *)
Definition sizes_ok (src dst : list Z) : Prop := 256 * zlen src + zlen dst + 64 <= usize_max.

Lemma lz4_sequence_no_panic src dst out ip op :
  bytes_ok src -> sizes_ok src dst -> at_sequence src dst out ip op ->
  lz4_sequence src ip op dst <> Panic.
Proof.
  intros Hok Hsz [Hip -> Hout Hfit] H. unfold sizes_ok in Hsz.
  pose proof (zlen_nonneg src). pose proof (zlen_nonneg out).
  unfold lz4_sequence in H. panic_step H. panic_step H.
  { apply load_byte_no_panic in H; [done|]. bool_hyp. lia. }
  pose proof (load_byte_ok _ _ _ Hok Ha) as Htok. pose proof (load_byte_lt _ _ _ Ha).
  destruct (token_split _ Htok) as (Hhi & Hlo & _).
  panic_step H.
  { unfold literal_length, RUN_MASK in H. apply length_field_no_panic in H; auto; [|lia..].
    intros i. apply literal_stop_lt. }
  destruct a0 as [ip1 lit]. unfold literal_length, RUN_MASK in Ha0.
  apply length_field_Ok in Ha0 as (ext & _ & _ & Hip1 & Hle1 & Hlit); [|done|done|lia].
  pose proof (zlen_nonneg ext).
  unfold add_or_panic in H. rewrite !checked_add_ok in H by lia. simpl in H. panic_step H.
  - panic_step H. panic_step H. bool_hyp.
    destruct (copy_within_ok src ip1 out lit dst) as [He _]; [lia..|done|]. rewrite He in H. done.
  - bool_hyp. unfold saturating_sub, MFLIMIT, WILD_COPY_LEN, MIN_MATCH, LAST_LITERALS in *.
    destruct (wild_copy_ok src ip1 out lit dst) as (dst1 & He & Hz1 & Hsub1); [lia..|done|].
    rewrite He in H. simpl in H. panic_step H. bool_hyp. panic_step H.
    { apply load_byte_no_panic in H; [done|lia]. }
    panic_step H. { apply load_byte_no_panic in H; [done|lia]. }
    rename a0 into lo, a1 into hi.
    rewrite offset_bytes in H by (eapply load_byte_ok; eauto). panic_step H. bool_hyp.
    panic_step H.
    { unfold match_length, ML_MASK in H. panic_step H.
      - apply length_field_no_panic in H; auto; [|lia..]. intros i. apply match_stop_lt.
      - destruct a0 as [ip3 ml]. apply length_field_Ok in Ha2 as (? & _ & _ & ? & ? & ?); [|done|done|lia].
        unfold add_or_panic in H. rewrite checked_add_ok in H by (unfold MIN_MATCH; lia). done. }
    destruct a0 as [ip2 mlen]. unfold match_length, ML_MASK in Ha2. rust_step Ha2.
    destruct a0 as [ip3 ml]. apply length_field_Ok in Ha3 as (mext & _ & _ & Hip3 & Hle3 & Hml);
      [|done|done|lia].
    rust_step Ha2. apply or_panic_Ok, checked_add_Some in Ha3 as [-> _]. injection Ha2 as <- <-.
    unfold MIN_MATCH in *. pose proof (zlen_nonneg mext).
    rewrite checked_add_ok in H by lia. simpl in H. panic_step H. bool_hyp.
    assert (Hzo : zlen (out ++ sub src ip1 lit) = zlen out + lit) by (rewrite zlen_app, zlen_sub; lia).
    rewrite <- Hzo in *.
    pose proof (load_byte_ok _ _ _ Hok Ha0) as Hblo. pose proof (load_byte_ok _ _ _ Hok Ha1) as Hbhi.
    unfold byte_ok in Hblo, Hbhi.
    destruct (copy_match_ok (out ++ sub src ip1 lit) dst1 (lo + 256 * hi) (ml + 4))
      as (dst2 & He2 & _ & _); [lia..|done|].
    rewrite He2 in H. done.
Qed.

Lemma lz4_loop_no_panic fuel src dst out ip op :
  bytes_ok src -> sizes_ok src dst -> at_sequence src dst out ip op ->
  zlen src - ip < Z.of_nat fuel -> lz4_loop fuel src ip op dst <> Panic.
Proof.
  intros Hok. revert dst out ip op. induction fuel as [|fuel IH]; intros dst out ip op Hsz Hat Hf.
  { destruct Hat. lia. }
  simpl. destruct (lz4_sequence src ip op dst) as [p| |] eqn:Hseq; [|done|].
  2:{ by apply (lz4_sequence_no_panic _ _ _ _ _ Hok Hsz Hat) in Hseq. }
  pose proof (lz4_sequence_Ok _ _ _ _ _ _ Hok Hat Hseq) as Hp. simpl.
  destruct p as [n1 dst1|ip1 op1 dst1]; [done|].
  destruct Hp as (out1 & Hat1 & Hz & Hlt & _). eapply IH; eauto; [|lia].
  unfold sizes_ok in *. by rewrite Hz.
Qed.
End block.

(** C18: What the decoder accepts is an LZ4 block and what it leaves in the first
    [n] bytes of the destination is that block's contents, although its copies
    run 8 bytes at a time and past the literals' end. *)
Theorem decompress_block_sound {T : Target} src dst n dst' :
  bytes_ok src -> decompress_block src dst = Ok (n, dst') ->
  zlen dst' = zlen dst /\ 0 <= n <= zlen dst /\ lz4_block [] src (sub dst' 0 n).
Proof.
  intros Hok H. replace src with (from src 0) at 2 by apply drop_0.
  exact (lz4_loop_Ok _ _ _ _ _ _ _ _ Hok (at_start src dst) H).
Qed.

(** The decoder is total and memory-safe: on every input, well-formed or
    not, it ends with a result or an error, with no out-of-range index, no
    length overflow and no endless loop. *)
Theorem decompress_block_no_panic {T : Target} src dst :
  bytes_ok src -> sizes_ok src dst -> decompress_block src dst <> Panic.
Proof.
  intros Hok Hsz. eapply lz4_loop_no_panic; eauto using at_start. unfold zlen. lia.
Qed.

(** ** Bytes stay bytes

    Whatever the input, the output buffer holds bytes, also behind what was
    decoded. *)

Lemma store_byte_bytes buf i b buf' : bytes_ok buf -> byte_ok b -> store_byte buf i b = Ok buf' -> bytes_ok buf'.
Proof.
  unfold store_byte. intros Hb Hx H. rust_step H. injection H as <-. apply bytes_ok_upd; [done|]. by constructor.
Qed.

Lemma copy_within_bytes src si dst di len dst' :
  bytes_ok src -> bytes_ok dst -> copy_within src si dst di len = Ok dst' -> bytes_ok dst'.
Proof.
  unfold copy_within. intros Hs Hd H. rust_step H. rust_step H. injection H as <-.
  apply or_panic_Ok, get_range_Some in Ha as (_ & _ & ->). by apply bytes_ok_upd, bytes_ok_sub.
Qed.

Lemma wild_copy_chunks_bytes fuel : forall src s dst d dst_end s' d' dst',
  bytes_ok src -> bytes_ok dst -> wild_copy_chunks fuel src s dst d dst_end = Ok (s', d', dst') -> bytes_ok dst'.
Proof.
  induction fuel as [|fuel IH]; intros src s dst d dst_end s' d' dst' Hs Hd H; cbn [wild_copy_chunks] in H.
  - destruct (_ && _); [done|]. by injection H as _ _ <-.
  - destruct (_ && _); [|by injection H as _ _ <-]. apply IH in H; [done|done|]. by apply bytes_ok_upd, bytes_ok_sub.
Qed.

Lemma wild_copy_tail_bytes fuel : forall src s dst d dst_end dst',
  bytes_ok src -> bytes_ok dst -> wild_copy_tail fuel src s dst d dst_end = Ok dst' -> bytes_ok dst'.
Proof.
  induction fuel as [|fuel IH]; intros src s dst d dst_end dst' Hs Hd H; cbn [wild_copy_tail] in H.
  - destruct (_ && _); [done|]. by injection H as <-.
  - destruct (_ && _); [|by injection H as <-]. apply rbind_Ok in H as (b & Hb & H). apply rbind_Ok in H as (x & Hx & H).
    apply (load_byte_ok _ _ _ Hs) in Hb. apply (store_byte_bytes _ _ _ _ Hd Hb) in Hx. by apply IH in H.
Qed.

Lemma copy_bytes_bytes n : forall buf s d buf', bytes_ok buf -> copy_bytes n buf s d = Ok buf' -> bytes_ok buf'.
Proof.
  induction n as [|n IH]; intros buf s d buf' Hb H; cbn [copy_bytes] in H; [by injection H as <-|].
  apply rbind_Ok in H as (b & Hl & H). apply rbind_Ok in H as (x & Hx & H).
  apply (load_byte_ok _ _ _ Hb) in Hl. apply (store_byte_bytes _ _ _ _ Hb Hl) in Hx. by apply IH in H.
Qed.

Lemma short_loop_bytes n : forall buf s d mp o buf', bytes_ok buf -> short_loop n buf s d mp o = Ok buf' -> bytes_ok buf'.
Proof.
  induction n as [|n IH]; intros buf s d mp o buf' Hb H; cbn [short_loop] in H; [by injection H as <-|].
  apply rbind_Ok in H as (b & Hl & H). apply rbind_Ok in H as (x & Hx & H).
  apply (load_byte_ok _ _ _ Hb) in Hl. apply (store_byte_bytes _ _ _ _ Hb Hl) in Hx. by apply IH in H.
Qed.

Lemma within_chunks_bytes fuel : forall buf s d e s' d' buf',
  bytes_ok buf -> within_chunks fuel buf s d e = Ok (s', d', buf') -> bytes_ok buf'.
Proof.
  induction fuel as [|fuel IH]; intros buf s d e s' d' buf' Hb H; cbn [within_chunks] in H.
  - destruct (_ && _); [done|]. by injection H as _ _ <-.
  - destruct (_ && _); [|by injection H as _ _ <-]. apply IH in H; [done|]. by apply bytes_ok_upd, bytes_ok_sub.
Qed.

Lemma copy_match_bytes dst op offset n dst' : bytes_ok dst -> copy_match dst op offset n = Ok dst' -> bytes_ok dst'.
Proof.
  intros Hd H. unfold copy_match in H. destruct (offset <? 8); [by apply short_loop_bytes in H|].
  destruct (_ <? _); [by apply copy_bytes_bytes in H|]. unfold wild_copy_within in H.
  apply rbind_Ok in H as ([[s d] buf] & Hc & H). apply within_chunks_bytes in Hc; [|done]. by apply copy_bytes_bytes in H.
Qed.

Lemma lz4_loop_bytes {T : Target} src n dst' fuel : bytes_ok src -> forall dst ip op,
  bytes_ok dst -> lz4_loop fuel src ip op dst = Ok (n, dst') -> bytes_ok dst'.
Proof.
  intros Hs. induction fuel as [|fuel IH]; intros dst ip op Hd H; [done|]. cbn [lz4_loop] in H.
  apply rbind_Ok in H as (p & Hp & H). unfold lz4_sequence in Hp. rust_step Hp.
  apply rbind_Ok in Hp as (token & _ & Hp). apply rbind_Ok in Hp as ([ip1 lit] & _ & Hp).
  apply rbind_Ok in Hp as (cpy & _ & Hp). apply rbind_Ok in Hp as (lend & _ & Hp). rust_step Hp.
  - rust_step Hp. rust_step Hp. apply rbind_Ok in Hp as (dst1 & Hc & Hp). injection Hp as <-. injection H as _ <-.
    by apply copy_within_bytes in Hc.
  - apply rbind_Ok in Hp as (dst1 & Hc & Hp). unfold wild_copy in Hc. apply rbind_Ok in Hc as ([[s d] dst2] & Hc1 & Hc).
    apply wild_copy_chunks_bytes in Hc1; [|done..]. apply wild_copy_tail_bytes in Hc; [|done..].
    rust_step Hp. apply rbind_Ok in Hp as (lo & _ & Hp). apply rbind_Ok in Hp as (hi & _ & Hp). rust_step Hp.
    apply rbind_Ok in Hp as ([ip2 ml] & _ & Hp). apply rbind_Ok in Hp as (ce & _ & Hp). rust_step Hp.
    apply rbind_Ok in Hp as (dst3 & Hm & Hp). injection Hp as <-. apply copy_match_bytes in Hm; [|done].
    by apply IH in H.
Qed.

Lemma decompress_block_bytes {T : Target} src dst n dst' :
  bytes_ok src -> bytes_ok dst -> decompress_block src dst = Ok (n, dst') -> bytes_ok dst'.
Proof. intros Hs Hd. by apply lz4_loop_bytes. Qed.

(** ** Blocks that obey the end-of-block rules *)

(** [lz4_block] for a block of [n] decoded bytes with the rules the format adds
    for its end: the last match starts at least 12 bytes before the end, and the
    last 5 bytes are literals (a block without matches may be any literals). *)
Inductive lz4_conformant (n : Z) : list Z -> list Z -> list Z -> Prop :=
| conf_last out hi lo ext lits :
    len_code hi ext (zlen lits) -> 0 <= lo < 16 ->
    (out = [] \/ LAST_LITERALS <= zlen lits) -> zlen (out ++ lits) = n ->
    lz4_conformant n out ((16 * hi + lo) :: ext ++ lits) (out ++ lits)
| conf_seq out hi lo ext lits o0 o1 mext ml rest out' :
    len_code hi ext (zlen lits) -> len_code lo mext ml ->
    let offset := o0 + 256 * o1 in
    0 < offset <= zlen (out ++ lits) -> zlen (out ++ lits) + MFLIMIT <= n ->
    lz4_conformant n
      (out ++ lits ++ match_bytes (out ++ lits) offset (Z.to_nat (ml + MIN_MATCH))) rest out' ->
    lz4_conformant n out ((16 * hi + lo) :: ext ++ lits ++ [o0; o1] ++ mext ++ rest) out'.

Lemma len_code_bounds f ext n :
  len_code f ext n -> 0 <= f < 16 /\ 0 <= n /\ (0 < zlen ext -> 15 <= n).
Proof. destruct 1; (split_and!; [lia..|]); unfold zlen; simpl; lia. Qed.

Lemma conformant_length n out src out' :
  lz4_conformant n out src out' -> zlen out' = n /\ zlen out <= n /\ (out <> [] -> 6 <= zlen src).
Proof.
  induction 1 as [out hi lo ext lits Hc Hlo Hl Hn | out hi lo ext lits o0 o1 mext ml rest out' Hc Hm offset Ho Hn H IH].
  - rewrite zlen_app in *. pose proof (zlen_nonneg lits). split_and!; [lia..|].
    intros Hne. rewrite zlen_cons, zlen_app. pose proof (zlen_nonneg ext).
    destruct Hl as [->|Hl]; [done|]. unfold LAST_LITERALS in Hl. lia.
  - destruct IH as (Hz & Hle & Hs). unfold MFLIMIT, WILD_COPY_LEN, MIN_MATCH in *.
    rewrite !zlen_app in *. pose proof (zlen_nonneg lits). pose proof (zlen_nonneg ext).
    pose proof (zlen_nonneg mext). split_and!; [lia..|]. intros _.
    rewrite zlen_cons, !zlen_app. change (zlen [o0; o1]) with 2.
    assert (6 <= zlen rest); [|lia]. apply Hs. intros Hnil.
    apply (f_equal length) in Hnil. rewrite !length_app, length_match_bytes in Hnil. simpl in Hnil.
    apply len_code_bounds in Hm. lia.
Qed.

Lemma from_cons src ip b r :
  0 <= ip -> from src ip = b :: r -> load_byte src ip = Ok b /\ from src (ip + 1) = r.
Proof.
  intros Hip Hf.
  assert (Hb : load_byte src ip = Ok b).
  { unfold load_byte, get. guard_true. unfold from in Hf.
    rewrite <- (Nat.add_0_r (Z.to_nat ip)), <- lookup_drop, Hf. done. }
  split; [done|]. apply from_load in Hb. rewrite Hb in Hf. by injection Hf.
Qed.

Lemma from_app src ip l r :
  0 <= ip -> from src ip = l ++ r -> sub src ip (zlen l) = l /\ from src (ip + zlen l) = r.
Proof.
  intros Hip Hf. unfold sub, from, zlen in *. rewrite Nat2Z.id, Hf, take_app_length.
  split; [done|]. rewrite Z2Nat.inj_add, Nat2Z.id, <- drop_drop, Hf, drop_app_length by lia. done.
Qed.

Lemma zlen_from src ip : 0 <= ip <= zlen src -> zlen (from src ip) = zlen src - ip.
Proof. unfold from, zlen. intros. rewrite length_drop. lia. Qed.

Section complete.
Context {T : Target}.

Lemma length_loop_complete fuel stop src ip len k b r :
  0 <= ip -> 0 <= b < 255 -> from src ip = (replicate k 255 ++ [b]) ++ r ->
  (forall i, ip <= i <= ip + Z.of_nat k -> stop i = false) ->
  len + 255 * Z.of_nat k + b <= usize_max -> (k < fuel)%nat ->
  length_loop fuel stop src ip len = Ok (ip + Z.of_nat k + 1, len + 255 * Z.of_nat k + b).
Proof.
  intros Hip Hb. revert fuel ip len Hip.
  induction k as [|k IH]; intros [|fuel] ip len Hip Hf Hstop Hlen Hfuel; try lia; simpl in *.
  - destruct (from_cons _ _ _ _ Hip Hf) as [Hl _]. rewrite Hstop, Hl by lia. simpl.
    unfold add_or_panic. rewrite checked_add_ok by lia. simpl. guard_false. do 2 f_equal; lia.
  - destruct (from_cons _ _ _ _ Hip Hf) as [Hl Hf1]. rewrite Hstop, Hl by lia. simpl.
    unfold add_or_panic. rewrite checked_add_ok by lia. simpl.
    rewrite IH; auto; [do 2 f_equal; lia|lia| |lia..]. intros i Hi. apply Hstop. lia.
Qed.

Lemma length_field_complete stop src f ext n ip r :
  0 < ip <= zlen src -> len_code f ext n -> from src ip = ext ++ r ->
  (forall i, ip <= i < ip + zlen ext -> stop i = false) -> n <= usize_max ->
  (if f =? 15 then length_loop (S (length src)) stop src ip f else Ok (ip, f)) = Ok (ip + zlen ext, n) /\
  from src (ip + zlen ext) = r /\ ip + zlen ext <= zlen src.
Proof.
  intros Hip Hc Hf Hstop Hn. destruct (from_app src ip ext r ltac:(lia) Hf) as [_ Hr].
  pose proof (zlen_from src ip ltac:(lia)) as Hz. rewrite Hf, zlen_app in Hz.
  pose proof (zlen_nonneg r). split_and!; [|done|lia].
  destruct Hc as [f Hf15|k b Hb].
  - guard_false. rewrite zlen_nil. do 2 f_equal. lia.
  - assert (Hx : zlen (replicate k 255 ++ [b]) = Z.of_nat k + 1)
      by (unfold zlen; rewrite length_app, length_replicate; simpl; lia).
    rewrite Hx in *. rewrite Z.eqb_refl, (length_loop_complete _ _ _ _ _ k b r); auto; [do 2 f_equal; lia|lia| |].
    + intros i Hi. apply Hstop. lia.
    + unfold zlen in *. lia.
Qed.

Lemma token_join hi lo :
  0 <= hi < 16 -> 0 <= lo < 16 ->
  Z.shiftr (16 * hi + lo) ML_BITS = hi /\ Z.land (16 * hi + lo) ML_MASK = lo.
Proof.
  intros. destruct (token_split (16 * hi + lo)) as (? & ? & ?); [unfold byte_ok; lia|]. lia.
Qed.

(** The token and the literal length at the head of a sequence. *)
Lemma sequence_head src ip hi lo ext lits r :
  0 <= ip <= zlen src -> 256 * zlen src + 64 <= usize_max ->
  from src ip = (16 * hi + lo) :: ext ++ lits ++ r -> len_code hi ext (zlen lits) -> 0 <= lo < 16 ->
  let ip1 := ip + 1 + zlen ext in
  load_byte src ip = Ok (16 * hi + lo) /\
  literal_length src (16 * hi + lo) (ip + 1) = Ok (ip1, zlen lits) /\
  sub src ip1 (zlen lits) = lits /\ from src (ip1 + zlen lits) = r /\
  ip1 + zlen lits + zlen r = zlen src.
Proof.
  intros Hip Hsz Hf Hc Hlo ip1. destruct (len_code_bounds _ _ _ Hc) as (Hhi & Hn & H15).
  pose proof (zlen_from src ip Hip) as Hz. rewrite Hf, zlen_cons, !zlen_app in Hz.
  pose proof (zlen_nonneg ext). pose proof (zlen_nonneg r).
  destruct (from_cons src ip _ _ ltac:(lia) Hf) as [Hl Hf1].
  destruct (length_field_complete (literal_stop (zlen src)) src hi ext (zlen lits) (ip + 1) (lits ++ r))
    as (Hlen & Hf2 & _); auto; [lia| |lia|].
  { intros i Hi. unfold literal_stop, saturating_sub, RUN_MASK. apply Z.leb_gt. lia. }
  destruct (from_app src ip1 lits r) as [Hs Hr]; [lia|done|].
  unfold literal_length, RUN_MASK. destruct (token_join hi lo) as [-> _]; [lia..|].
  split_and!; auto. unfold ip1. lia.
Qed.

Lemma lz4_sequence_last src dst out ip hi lo ext lits :
  at_sequence src dst out ip (zlen out) -> sizes_ok src dst ->
  from src ip = (16 * hi + lo) :: ext ++ lits -> len_code hi ext (zlen lits) -> 0 <= lo < 16 ->
  zlen (out ++ lits) = zlen dst ->
  lz4_sequence src ip (zlen out) dst = Ok (Done (zlen dst) (out ++ lits)).
Proof.
  intros [Hip _ Hout Hfit] Hsz Hf Hc Hlo Hfill. rewrite zlen_app in Hfill. unfold sizes_ok in Hsz.
  pose proof (zlen_nonneg out). pose proof (zlen_nonneg dst).
  rewrite <- (app_nil_r lits) in Hf.
  destruct (sequence_head src ip hi lo ext lits []) as (Hl & Hll & Hs & _ & Hz); auto; [lia|].
  rewrite zlen_nil in Hz. pose proof (zlen_nonneg ext). pose proof (zlen_nonneg lits).
  unfold lz4_sequence. guard_false. rewrite Hl. simpl. rewrite Hll. simpl.
  unfold add_or_panic. rewrite !checked_add_ok by lia. simpl.
  replace ((saturating_sub (zlen dst) MFLIMIT <? zlen out + zlen lits)
           || (saturating_sub (zlen src) (2 + 1 + LAST_LITERALS) <? ip + 1 + zlen ext + zlen lits)) with true.
  2:{ symmetry. apply orb_true_iff. right. unfold saturating_sub, LAST_LITERALS. apply Z.ltb_lt. lia. }
  guard_false. test_true (ip + 1 + zlen ext + zlen lits =? zlen src). simpl.
  destruct (copy_within_ok src (ip + 1 + zlen ext) out (zlen lits) dst) as [-> Hsub]; [lia..|done|].
  simpl. rewrite Hs in *. rewrite Hfill in *. do 2 f_equal.
  rewrite <- Hsub. rewrite <- (sub_all (upd dst (zlen out) lits)) at 1. f_equal.
  rewrite zlen_upd; lia.
Qed.

Lemma lz4_sequence_more src dst out ip hi lo ext lits o0 o1 mext ml rest :
  bytes_ok src -> at_sequence src dst out ip (zlen out) -> sizes_ok src dst ->
  from src ip = (16 * hi + lo) :: ext ++ lits ++ [o0; o1] ++ mext ++ rest ->
  len_code hi ext (zlen lits) -> len_code lo mext ml ->
  let offset := o0 + 256 * o1 in
  0 < offset <= zlen (out ++ lits) -> zlen (out ++ lits) + MFLIMIT <= zlen dst -> 6 <= zlen rest ->
  let out' := out ++ lits ++ match_bytes (out ++ lits) offset (Z.to_nat (ml + MIN_MATCH)) in
  zlen out' <= zlen dst ->
  exists ip' dst', lz4_sequence src ip (zlen out) dst = Ok (More ip' (zlen out') dst') /\
    at_sequence src dst' out' ip' (zlen out') /\ zlen dst' = zlen dst /\ from src ip' = rest /\ ip < ip'.
Proof.
  intros Hok [Hip _ Hout Hfit] Hsz Hf Hc Hm offset Ho Hlim Hrest out' Hfit'. unfold sizes_ok in Hsz.
  pose proof (zlen_nonneg out). pose proof (zlen_nonneg dst).
  destruct (len_code_bounds _ _ _ Hm) as (Hlo & Hml & _).
  destruct (sequence_head src ip hi lo ext lits ([o0; o1] ++ mext ++ rest))
    as (Hl & Hll & Hs & Hf2 & Hz); auto; [lia|].
  pose proof (zlen_nonneg ext). pose proof (zlen_nonneg lits). pose proof (zlen_nonneg mext).
  rewrite !zlen_app in Hz. change (zlen [o0; o1]) with 2 in Hz.
  set (ip1 := ip + 1 + zlen ext) in *. unfold MFLIMIT, WILD_COPY_LEN, MIN_MATCH in *.
  assert (Hzo : zlen (out ++ lits) = zlen out + zlen lits) by apply zlen_app.
  assert (Hzo' : zlen out' = zlen (out ++ lits) + (ml + 4)).
  { unfold out'. rewrite app_assoc, zlen_app. unfold zlen at 2. rewrite length_match_bytes. lia. }
  destruct (from_cons src (ip1 + zlen lits) o0 (o1 :: mext ++ rest)) as [Hl0 Hf3]; [lia|done|].
  destruct (from_cons src (ip1 + zlen lits + 1) o1 (mext ++ rest)) as [Hl1 Hf4]; [lia|done|].
  replace (ip1 + zlen lits + 1 + 1) with (ip1 + zlen lits + 2) in Hf4 by lia.
  unfold lz4_sequence. guard_false. rewrite Hl. simpl. rewrite Hll. simpl.
  unfold add_or_panic. rewrite !checked_add_ok by lia. simpl.
  unfold saturating_sub, MFLIMIT, WILD_COPY_LEN, MIN_MATCH, LAST_LITERALS. guard_false.
  destruct (wild_copy_ok src ip1 out (zlen lits) dst) as (dst1 & -> & Hz1 & Hsub1); [lia..|done|]. simpl.
  guard_false. rewrite Hl0. simpl. rewrite Hl1. simpl.
  rewrite offset_bytes by (eapply load_byte_ok; eauto). fold offset. guard_false.
  destruct (length_field_complete (match_stop (zlen src)) src lo mext ml (ip1 + zlen lits + 2) rest)
    as (Hlen & Hf5 & Hle5); auto; [lia| | |].
  { intros i Hi. unfold match_stop, saturating_sub, LAST_LITERALS. apply Z.ltb_ge. lia. }
  { lia. }
  unfold match_length, ML_MASK, MIN_MATCH. destruct (token_join hi lo) as [_ Hland];
    [destruct (len_code_bounds _ _ _ Hc); lia|lia|]. unfold ML_MASK in Hland. rewrite Hland, Hlen. simpl.
  unfold add_or_panic. rewrite checked_add_ok by lia. simpl. rewrite checked_add_ok by lia. simpl.
  guard_false. rewrite <- Hzo. rewrite Hs, <- Hzo in Hsub1.
  destruct (copy_match_ok (out ++ lits) dst1 offset (ml + 4)) as (dst2 & -> & Hz2 & Hsub2); [lia..|done|].
  simpl. exists (ip1 + zlen lits + 2 + zlen mext), dst2. rewrite Hzo'. split_and!; auto; [|lia..].
  constructor; [lia|done| |lia]. rewrite Hsub2. unfold out'. by rewrite app_assoc.
Qed.
End complete.

Lemma lz4_loop_complete {T : Target} n out rest out' :
  lz4_conformant n out rest out' ->
  forall fuel src dst ip,
    bytes_ok src -> sizes_ok src dst -> at_sequence src dst out ip (zlen out) -> zlen dst = n ->
    from src ip = rest -> zlen src - ip < Z.of_nat fuel ->
    lz4_loop fuel src ip (zlen out) dst = Ok (n, out').
Proof.
  induction 1 as [out hi lo ext lits Hc Hlo Hl Hn
                 | out hi lo ext lits o0 o1 mext ml rest out' Hc Hm offset Ho Hlim Hconf IH];
    intros fuel src dst ip Hok Hsz Hat Hz Hf Hfuel.
  - destruct fuel as [|fuel]; [destruct Hat; lia|]. simpl.
    rewrite (lz4_sequence_last src dst out ip hi lo ext lits); auto; [|congruence]. simpl. by rewrite Hz.
  - destruct fuel as [|fuel]; [destruct Hat; lia|].
    destruct (conformant_length _ _ _ _ Hconf) as (_ & Hle & Hne).
    destruct (lz4_sequence_more src dst out ip hi lo ext lits o0 o1 mext ml rest)
      as (ip' & dst' & Hs & Hat' & Hz' & Hf' & Hlt); auto; try (rewrite Hz; done).
    { apply Hne. intros Hnil. apply (f_equal length) in Hnil.
      rewrite !length_app, length_match_bytes in Hnil. simpl in Hnil.
      apply len_code_bounds in Hm. unfold MIN_MATCH in Hnil. lia. }
    simpl. rewrite Hs. simpl. apply IH; auto; [|congruence|lia]. unfold sizes_ok in *. by rewrite Hz'.
Qed.

(** C19: Every LZ4 block that obeys the end-of-block rules is accepted when the
    destination has the decoded size, and the destination becomes exactly the
    decoded bytes: the decoder's early-exit tests reject no valid block. *)
Theorem decompress_block_complete {T : Target} src dst out :
  bytes_ok src -> sizes_ok src dst -> lz4_conformant (zlen dst) [] src out ->
  decompress_block src dst = Ok (zlen dst, out).
Proof.
  intros Hok Hsz Hconf. unfold decompress_block.
  apply (lz4_loop_complete (zlen dst) [] src out Hconf); auto using at_start, drop_0.
  unfold zlen. lia.
Qed.

(** ** Witnesses *)

Definition sample_block : list Z :=
  [0x35; 97; 98; 99; 3; 0; 0xc0; 1; 2; 3; 4; 5; 6; 7; 8; 9; 10; 11; 12].
Definition sample_out : list Z :=
  [97; 98; 99; 97; 98; 99; 97; 98; 99; 97; 98; 99; 1; 2; 3; 4; 5; 6; 7; 8; 9; 10; 11; 12].

Lemma sample_block_ok : bytes_ok sample_block.
Proof. unfold sample_block, bytes_ok, byte_ok. repeat constructor; lia. Qed.

Lemma sample_sizes : sizes_ok sample_block (zeros 24).
Proof. unfold sizes_ok. vm_compute. discriminate. Qed.

Lemma sample_conformant : lz4_conformant (zlen (zeros 24)) [] sample_block sample_out.
Proof.
  change sample_block with
    ((16 * 3 + 5) :: [] ++ [97; 98; 99] ++ [3; 0] ++ [] ++
     (16 * 12 + 0) :: [] ++ [1; 2; 3; 4; 5; 6; 7; 8; 9; 10; 11; 12]).
  apply (conf_seq _ [] 3 5 [] [97; 98; 99] 3 0 [] 5);
    [apply (len_short 3); lia | apply (len_short 5); lia | vm_compute; split; [reflexivity|discriminate] | vm_compute; discriminate |].
  change sample_out with
    (([] ++ [97; 98; 99] ++ match_bytes ([] ++ [97; 98; 99]) (3 + 256 * 0) (Z.to_nat (5 + MIN_MATCH)))
     ++ [1; 2; 3; 4; 5; 6; 7; 8; 9; 10; 11; 12]).
  apply conf_last; [apply (len_short 12); lia|lia|right; vm_compute; discriminate|reflexivity].
Qed.

Lemma decompress_block_sound_witness :
  decompress_block sample_block (zeros 24) = Ok (24, sample_out) /\ lz4_block [] sample_block sample_out.
Proof.
  assert (E : decompress_block sample_block (zeros 24) = Ok (24, sample_out)) by (vm_compute; reflexivity).
  split; [exact E|].
  exact (proj2 (proj2 (decompress_block_sound sample_block (zeros 24) 24 sample_out sample_block_ok E))).
Defined.

Lemma decompress_block_no_panic_witness : decompress_block sample_block (zeros 24) <> Panic.
Proof. apply decompress_block_no_panic; [exact sample_block_ok | exact sample_sizes]. Defined.

Lemma decompress_block_complete_witness :
  decompress_block sample_block (zeros 24) = Ok (24, sample_out).
Proof.
  exact (decompress_block_complete sample_block (zeros 24) sample_out sample_block_ok sample_sizes
           sample_conformant).
Defined.
