(* ===== verification/Crypto.v ===== *)
(** * Crypto: digests and signatures ([crates/crypto], [crates/core/src/ffs.rs])

    The hash functions and signature schemes are third-party crates (sha2, sha3,
    ed25519-dalek, p256): they and the build's feature flags are the fields of
    the class [Crypto].  What is modelled here is the firmware's own code around
    them: algorithm selection, key material assembly and error mapping. *)

From S2P Require Import Prelude.
From S2P Require Import Bytes.
From Stdlib Require Import ZArith Lia.
From stdpp Require Import base numbers list option.

#[local] Open Scope Z_scope.

(** Features and primitives of one build.  [ed25519_key] and [p256_key] say
    whether the key material decodes, [p256_scalars] whether [r] and [s] do. *)
Class Crypto := {
  feature_sha2 : bool;
  feature_sha3 : bool;
  feature_ed25519 : bool;
  feature_ecdsa_p256 : bool;
  sha256 : list Z -> list Z;
  sha3_256 : list Z -> list Z;
  ed25519_key : list Z -> bool;
  ed25519_verify_strict : list Z -> list Z -> list Z -> bool;
  p256_key : list Z -> bool;
  p256_scalars : list Z -> list Z -> bool;
  p256_verify : list Z -> list Z -> list Z -> list Z -> bool
}.

Inductive SignatureKind := Ed25519 | EcdsaP256.
#[export] Instance SignatureKind_eq_dec : EqDecision SignatureKind.
Proof. solve_decision. Defined.

Record VerificationKey := {
  vk_key_id : Z;
  vk_algorithm : Z;
  vk_key_lo : list Z;
  vk_key_hi : list Z
}.

Definition ALG_ED25519 : Z := 0.
Definition ALG_ECDSA_P256 : Z := 1.

Definition signature_kind (k : VerificationKey) : option SignatureKind :=
  if vk_algorithm k =? ALG_ED25519 then Some Ed25519
  else if vk_algorithm k =? ALG_ECDSA_P256 then Some EcdsaP256
  else None.

Record Signature := {
  sig_key_id : Z;
  sig_kind : SignatureKind;
  sig_lo : list Z;
  sig_hi : list Z
}.

Definition signature_bytes (s : Signature) : list Z := sig_lo s ++ sig_hi s.

Inductive VerifyError :=
| InvalidSignature | AlgorithmMismatch | VerifyUnsupported | InvalidKey | VerifyKeyNotFound.

Inductive DigestError := NoAlgorithmAvailable | Sha256Mismatch | Sha3Mismatch.

Record DigestSet := { ds_sha256 : option (list Z); ds_sha3_256 : option (list Z) }.

Section crypto.
Context {C : Crypto}.

Definition verify_ed25519 (message : list Z) (s : Signature) (k : VerificationKey)
    : res VerifyError unit :=
  if feature_ed25519 then
    fail_if negb (ed25519_key (vk_key_lo k)) with InvalidKey;
    fail_if negb (ed25519_verify_strict (vk_key_lo k) message (signature_bytes s))
      with InvalidSignature;
    Ok tt
  else Err VerifyUnsupported.

Definition verify_ecdsa_p256 (message : list Z) (s : Signature) (k : VerificationKey)
    : res VerifyError unit :=
  if feature_ecdsa_p256 then
    let pubkey := [0x04] ++ vk_key_lo k ++ vk_key_hi k in
    fail_if negb (p256_key pubkey) with InvalidKey;
    fail_if negb (p256_scalars (sig_lo s) (sig_hi s)) with InvalidSignature;
    fail_if negb (p256_verify pubkey message (sig_lo s) (sig_hi s)) with InvalidSignature;
    Ok tt
  else Err VerifyUnsupported.

Definition verify_signature (message : list Z) (s : Signature) (k : VerificationKey)
    : res VerifyError unit :=
  let? key_kind := ok_or (signature_kind k) VerifyUnsupported in
  fail_if bool_decide (key_kind <> sig_kind s) with AlgorithmMismatch;
  match sig_kind s with
  | Ed25519 => verify_ed25519 message s k
  | EcdsaP256 => verify_ecdsa_p256 message s k
  end.

Definition verify_with_key_lookup (message : list Z) (s : Signature) (keys : list VerificationKey)
    : res VerifyError unit :=
  let? key :=
    ok_or (snd <$> list_find (fun k => vk_key_id k = sig_key_id s) keys) VerifyKeyNotFound in
  verify_signature message s key.

Definition hash_digest_set (data : list Z) : res DigestError DigestSet :=
  let set := {| ds_sha256 := if feature_sha2 then Some (sha256 data) else None;
                ds_sha3_256 := if feature_sha3 then Some (sha3_256 data) else None |} in
  fail_if bool_decide (ds_sha256 set = None) && bool_decide (ds_sha3_256 set = None)
    with NoAlgorithmAvailable;
  Ok set.

(** One [cfg(feature)] block of [verify_digest_set]: the number of digests it
    verified. *)
Definition check_digest (feature : bool) (hash : list Z -> list Z) (mismatch : DigestError)
    (data : list Z) (expected : option (list Z)) : res DigestError Z :=
  match expected with
  | Some d =>
      if feature then (fail_if negb (bytes_eqb (hash data) d) with mismatch; Ok 1) else Ok 0
  | None => Ok 0
  end.

Definition verify_digest_set (data : list Z) (expected : DigestSet) : res DigestError unit :=
  fail_if negb feature_sha2 && negb (bool_decide (ds_sha256 expected = None))
    with NoAlgorithmAvailable;
  fail_if negb feature_sha3 && negb (bool_decide (ds_sha3_256 expected = None))
    with NoAlgorithmAvailable;
  let? n2 := check_digest feature_sha2 sha256 Sha256Mismatch data (ds_sha256 expected) in
  let? n3 := check_digest feature_sha3 sha3_256 Sha3Mismatch data (ds_sha3_256 expected) in
  fail_if (bool_decide (ds_sha256 expected = None) && bool_decide (ds_sha3_256 expected = None))
          || (n2 + n3 =? 0) with NoAlgorithmAvailable;
  Ok tt.

(** ** Lemmas *)

Lemma verify_signature_ed25519 message s k :
  sig_kind s = Ed25519 ->
  verify_signature message s k = Ok tt <->
    vk_algorithm k = ALG_ED25519 /\ feature_ed25519 = true /\ ed25519_key (vk_key_lo k) = true /\
    ed25519_verify_strict (vk_key_lo k) message (signature_bytes s) = true.
Proof.
  intros Hk. unfold verify_signature, signature_kind, verify_ed25519. rewrite Hk.
  destruct (Z.eqb_spec (vk_algorithm k) ALG_ED25519) as [->|Hne]; simpl.
  - destruct feature_ed25519, (ed25519_key _), (ed25519_verify_strict _ _ _); simpl; naive_solver.
  - destruct (vk_algorithm k =? ALG_ECDSA_P256); simpl; naive_solver.
Qed.

(** Every advertised digest is checked, and at least one must be. *)
Lemma verify_digest_set_Ok data expected :
  verify_digest_set data expected = Ok tt <->
    (ds_sha256 expected <> None \/ ds_sha3_256 expected <> None) /\
    (forall d, ds_sha256 expected = Some d -> feature_sha2 = true /\ sha256 data = d) /\
    (forall d, ds_sha3_256 expected = Some d -> feature_sha3 = true /\ sha3_256 data = d).
Proof.
  unfold verify_digest_set, check_digest, bytes_eqb. destruct expected as [[d2|] [d3|]]; simpl;
    destruct feature_sha2, feature_sha3; simpl; repeat case_bool_decide; simpl; naive_solver.
Qed.
End crypto.

(** ** Hashes of PCR banks ([crates/crypto/src/pcr.rs]) *)

Definition ALG_SHA1 : Z := 0x0004.
Definition ALG_SHA256 : Z := 0x000B.
Definition ALG_SHA384 : Z := 0x000C.
Definition ALG_SHA512 : Z := 0x000D.
Definition MAX_DIGEST_SIZE : Z := 64.

Definition digest_size (alg : Z) : option Z :=
  if alg =? ALG_SHA1 then Some 20
  else if alg =? ALG_SHA256 then Some 32
  else if alg =? ALG_SHA384 then Some 48
  else if alg =? ALG_SHA512 then Some 64
  else None.

(** The hash functions of the sha1 and sha2 crates, by algorithm ID. *)
Class PcrHash := { pcr_digest : Z -> list Z -> list Z }.

(** A digest has the size of its algorithm. *)
Class PcrHashLaws (H : PcrHash) : Prop := {
  pcr_digest_size alg n data : digest_size alg = Some n -> zlen (pcr_digest alg data) = n
}.

(** The digest [hash] leaves at the front of its output buffer. *)
Definition hash {H : PcrHash} (alg : Z) (data : list Z) : option (list Z) :=
  match digest_size alg with Some _ => Some (pcr_digest alg data) | None => None end.

Lemma digest_size_bound alg n : digest_size alg = Some n -> 0 < n <= MAX_DIGEST_SIZE.
Proof. unfold digest_size, MAX_DIGEST_SIZE. intros H. repeat case_match; simplify_eq; lia. Qed.
