(* ===== verification/Root.v ===== *)
(** * Root: the signed boot root ([crates/ffs/src/root.rs])

    The boot root is a 512-byte record: a header, two bootstrap descriptors, a
    directory reference and an Ed25519 signature over the first 448 bytes.
    [authenticate_root] is the firmware's trust decision.  The theorems show
    that the wire format is canonical (parsing and encoding are inverse, so a
    signed root has one byte string) and say exactly which byte strings are
    accepted. *)

From S2P Require Import Prelude.
From S2P Require Import Bytes.
From S2P Require Import Wire.
From S2P Require Import Crypto.
From Stdlib Require Import ZArith Lia.
From stdpp Require Import base numbers list option.

#[local] Open Scope Z_scope.

Definition ROOT_SIZE : Z := 512.
Definition SIGNED_SIZE : Z := 448.
(** "FSTARTBR" *)
Definition ROOT_MAGIC : list Z := [0x46; 0x53; 0x54; 0x41; 0x52; 0x54; 0x42; 0x52].
Definition DIRECTORY_REVISION : Z := 2.

Inductive RootError :=
| InvalidFormat | UnsupportedVersion | OutOfBounds | PolicyRejected
| SignatureInvalid | UnsupportedAlgorithm | DigestMismatch.

Inductive BootstrapRole := Postcar | Mainstage.
Definition role_u16 (r : BootstrapRole) : Z := match r with Postcar => 1 | Mainstage => 2 end.

Inductive Compression := CompressionNone | CompressionLz4.
#[export] Instance Compression_eq_dec : EqDecision Compression.
Proof. solve_decision. Defined.

Definition range (offset size limit : Z) : res RootError unit :=
  match checked_add u64_max offset size with
  | Some end_ => if end_ <=? limit then Ok tt else Err OutOfBounds
  | None => Err OutOfBounds
  end.

(** ** Bootstrap descriptors *)

Record BootstrapDescriptor := {
  bd_role : BootstrapRole;
  bd_compression : Compression;
  bd_offset : Z;
  bd_stored_size : Z;
  bd_loaded_size : Z;
  bd_load_addr : Z;
  bd_entry_offset : Z;
  bd_scratch_size : Z;
  bd_stored_digest : list Z;
  bd_loaded_digest : list Z
}.

Definition bootstrap_validate (d : BootstrapDescriptor) (image_size : Z) : res RootError unit :=
  fail_if (bd_stored_size d =? 0) || (bd_loaded_size d =? 0)
          || (bd_loaded_size d <=? bd_entry_offset d) with InvalidFormat;
  let? _ := range (bd_offset d) (bd_stored_size d) image_size in
  let? _ := ok_or (checked_add u64_max (bd_load_addr d) (bd_loaded_size d)) OutOfBounds in
  let? too_small :=
    (if bool_decide (bd_compression d = CompressionLz4) then
       let? need := ok_or (checked_add u64_max (bd_stored_size d) (bd_loaded_size d)) OutOfBounds in
       Ok (bd_scratch_size d <? need)
     else Ok false) in
  fail_if too_small with InvalidFormat;
  fail_if bool_decide (bd_compression d = CompressionNone)
          && (negb (bd_scratch_size d =? 0)
              || negb (bd_stored_size d =? bd_loaded_size d)
              || negb (bytes_eqb (bd_stored_digest d) (bd_loaded_digest d))) with InvalidFormat;
  Ok tt.

Definition bootstrap_encode (d : BootstrapDescriptor) : list Z :=
  let b := zeros 160 in
  let b := upd b 0 (le_enc 2 (role_u16 (bd_role d))) in
  let b := upd b 2 [match bd_compression d with CompressionNone => 0 | CompressionLz4 => 1 end] in
  let b := foldl (fun b '(i, n) => upd b (8 + Z.of_nat i * 8) (le_enc 8 n)) b
             (imap pair [bd_offset d; bd_stored_size d; bd_loaded_size d; bd_load_addr d;
                         bd_entry_offset d; bd_scratch_size d]) in
  let b := upd b 56 (bd_stored_digest d) in
  upd b 88 (bd_loaded_digest d).

(** The slices below are in range because the length is tested first. *)
Definition bootstrap_parse (b : list Z) : res RootError BootstrapDescriptor :=
  fail_if negb (zlen b =? 160) || negb (bytes_eqb (sub b 3 5) (zeros 5))
          || negb (bytes_eqb (sub b 120 40) (zeros 40)) with InvalidFormat;
  let? role := (if u16_at b 0 =? 1 then Ok Postcar
                else if u16_at b 0 =? 2 then Ok Mainstage
                else Err InvalidFormat) in
  let? compression := (if u8_at b 2 =? 0 then Ok CompressionNone
                       else if u8_at b 2 =? 1 then Ok CompressionLz4
                       else Err UnsupportedAlgorithm) in
  let d := {| bd_role := role;
              bd_compression := compression;
              bd_offset := u64_at b 8;
              bd_stored_size := u64_at b 16;
              bd_loaded_size := u64_at b 24;
              bd_load_addr := u64_at b 32;
              bd_entry_offset := u64_at b 40;
              bd_scratch_size := u64_at b 48;
              bd_stored_digest := sub b 56 32;
              bd_loaded_digest := sub b 88 32 |} in
  let? _ := bootstrap_validate d u64_max in
  Ok d.

(** ** The directory reference *)

Record DirectoryRef := { dr_offset : Z; dr_size : Z; dr_digest : list Z }.

Definition directory_validate (r : DirectoryRef) (image_size max_size : Z) : res RootError unit :=
  fail_if (dr_size r =? 0) || (max_size <? dr_size r) with OutOfBounds;
  range (dr_offset r) (dr_size r) image_size.

Definition directory_encode (r : DirectoryRef) : list Z :=
  let b := zeros 64 in
  let b := upd b 0 (le_enc 8 (dr_offset r)) in
  let b := upd b 8 (le_enc 8 (dr_size r)) in
  let b := upd b 16 (dr_digest r) in
  upd b 48 (le_enc 4 DIRECTORY_REVISION).

Definition directory_parse (b : list Z) : res RootError DirectoryRef :=
  fail_if negb (zlen b =? 64) || negb (bytes_eqb (sub b 52 12) (zeros 12)) with InvalidFormat;
  fail_if negb (u32_at b 48 =? DIRECTORY_REVISION) with UnsupportedVersion;
  let r := {| dr_offset := u64_at b 0; dr_size := u64_at b 8; dr_digest := sub b 16 32 |} in
  let? _ := directory_validate r u64_max u64_max in
  Ok r.

(** ** The root *)

Record Root := {
  r_security_version : Z;
  r_image_family : list Z;
  r_key_id : Z;
  r_descriptors : option BootstrapDescriptor * option BootstrapDescriptor;
  r_directory : DirectoryRef;
  r_signature : list Z
}.

Definition descriptor_encode (i : Z) (d : option BootstrapDescriptor) (b : list Z) : list Z :=
  match d with Some d => upd b (64 + i * 160) (bootstrap_encode d) | None => b end.

Definition root_encode (r : Root) : list Z :=
  let b := zeros ROOT_SIZE in
  let b := upd b 0 ROOT_MAGIC in
  let b := upd b 8 (le_enc 2 1) in
  let b := upd b 10 (le_enc 2 64) in
  let b := upd b 12 (le_enc 4 ROOT_SIZE) in
  let b := upd b 16 (le_enc 8 (r_security_version r)) in
  let b := upd b 24 (r_image_family r) in
  let b := upd b 40 (le_enc 4 (r_key_id r)) in
  let b := descriptor_encode 0 (fst (r_descriptors r)) b in
  let b := descriptor_encode 1 (snd (r_descriptors r)) b in
  let b := upd b 384 (directory_encode (r_directory r)) in
  upd b 448 (r_signature r).

(** An all-zero slot is an absent descriptor. *)
Definition descriptor_parse (i : Z) (b : list Z) : res RootError (option BootstrapDescriptor) :=
  let bytes := sub b (64 + i * 160) 160 in
  if bytes_eqb bytes (zeros 160) then Ok None
  else let? d := bootstrap_parse bytes in Ok (Some d).

Definition root_parse (b : list Z) : res RootError Root :=
  fail_if negb (zlen b =? ROOT_SIZE) || negb (bytes_eqb (sub b 0 8) ROOT_MAGIC)
          || negb (bytes_eqb (sub b 10 2) (le_enc 2 64)) || negb (u32_at b 12 =? ROOT_SIZE)
          || negb (bytes_eqb (sub b 44 20) (zeros 20)) with InvalidFormat;
  fail_if negb (bytes_eqb (sub b 8 2) (le_enc 2 1)) with UnsupportedVersion;
  let? d0 := descriptor_parse 0 b in
  let? d1 := descriptor_parse 1 b in
  fail_if match d0, d1 with None, Some _ => true | _, _ => false end with InvalidFormat;
  let? directory := directory_parse (sub b 384 64) in
  Ok {| r_security_version := u64_at b 16;
        r_image_family := sub b 24 16;
        r_key_id := u32_at b 40;
        r_descriptors := (d0, d1);
        r_directory := directory;
        r_signature := sub b 448 64 |}.

(** ** Authentication *)

Record RootPolicy := {
  rp_image_family : list Z;
  rp_minimum_security_version : Z;
  rp_image_size : Z;
  rp_max_directory_size : Z;
  rp_keys : list VerificationKey
}.

Definition validate_present (d : option BootstrapDescriptor) (image_size : Z) : res RootError unit :=
  match d with Some d => bootstrap_validate d image_size | None => Ok tt end.

Section authentication.
Context {C : Crypto}.

Definition verify_digest (bytes expected : list Z) : res RootError unit :=
  map_err (fun e => match e with
                    | NoAlgorithmAvailable => UnsupportedAlgorithm
                    | _ => DigestMismatch
                    end)
    (verify_digest_set bytes {| ds_sha256 := Some expected; ds_sha3_256 := None |}).

Definition directory_verify_bytes (r : DirectoryRef) (bytes : list Z) : res RootError unit :=
  fail_if negb (bool_decide (try_from u64_max (zlen bytes) = Some (dr_size r))) with OutOfBounds;
  verify_digest bytes (dr_digest r).

Definition authenticate_root (policy : RootPolicy) (bytes : list Z) : res RootError Root :=
  let? root := root_parse bytes in
  fail_if negb (bytes_eqb (r_image_family root) (rp_image_family policy))
          || (r_security_version root <? rp_minimum_security_version policy) with PolicyRejected;
  let? _ := directory_validate (r_directory root) (rp_image_size policy)
              (rp_max_directory_size policy) in
  let? _ := validate_present (fst (r_descriptors root)) (rp_image_size policy) in
  let? _ := validate_present (snd (r_descriptors root)) (rp_image_size policy) in
  let? key_id := ok_or (try_from u8_max (r_key_id root)) PolicyRejected in
  match filter (fun k => vk_key_id k = key_id) (rp_keys policy) with
  | [key] =>
      let sig := {| sig_key_id := key_id; sig_kind := Ed25519;
                    sig_lo := sub (r_signature root) 0 32;
                    sig_hi := sub (r_signature root) 32 32 |} in
      let? _ := map_err (fun e => match e with
                                  | VerifyUnsupported | AlgorithmMismatch => UnsupportedAlgorithm
                                  | _ => SignatureInvalid
                                  end)
                  (verify_signature (sub bytes 0 SIGNED_SIZE) sig key) in
      Ok root
  | _ => Err PolicyRejected
  end.
End authentication.

(** ** The wire format as a list of pieces *)

Definition compression_u8 (c : Compression) : Z :=
  match c with CompressionNone => 0 | CompressionLz4 => 1 end.

(** The values the fields of the Rust types can hold, and the descriptor is one
    the format admits. *)
Record bootstrap_wf (d : BootstrapDescriptor) : Prop := {
  bwf_offset : u64_ok (bd_offset d);
  bwf_stored_size : u64_ok (bd_stored_size d);
  bwf_loaded_size : u64_ok (bd_loaded_size d);
  bwf_load_addr : u64_ok (bd_load_addr d);
  bwf_entry_offset : u64_ok (bd_entry_offset d);
  bwf_scratch_size : u64_ok (bd_scratch_size d);
  bwf_stored_digest : array_ok 32 (bd_stored_digest d);
  bwf_loaded_digest : array_ok 32 (bd_loaded_digest d);
  bwf_valid : bootstrap_validate d u64_max = Ok tt
}.

Record directory_wf (r : DirectoryRef) : Prop := {
  dwf_offset : u64_ok (dr_offset r);
  dwf_size : u64_ok (dr_size r);
  dwf_digest : array_ok 32 (dr_digest r);
  dwf_valid : directory_validate r u64_max u64_max = Ok tt
}.

Definition descriptor_wf (d : option BootstrapDescriptor) : Prop :=
  match d with Some d => bootstrap_wf d | None => True end.

Record root_wf (r : Root) : Prop := {
  rwf_security_version : u64_ok (r_security_version r);
  rwf_image_family : array_ok 16 (r_image_family r);
  rwf_key_id : u32_ok (r_key_id r);
  rwf_descriptor0 : descriptor_wf (fst (r_descriptors r));
  rwf_descriptor1 : descriptor_wf (snd (r_descriptors r));
  rwf_order : fst (r_descriptors r) = None -> snd (r_descriptors r) = None;
  rwf_directory : directory_wf (r_directory r);
  rwf_signature : array_ok 64 (r_signature r)
}.

Definition bootstrap_pieces (d : BootstrapDescriptor) : list (list Z) :=
  [le_enc 2 (role_u16 (bd_role d)); [compression_u8 (bd_compression d)]; zeros 5;
   le_enc 8 (bd_offset d); le_enc 8 (bd_stored_size d); le_enc 8 (bd_loaded_size d);
   le_enc 8 (bd_load_addr d); le_enc 8 (bd_entry_offset d); le_enc 8 (bd_scratch_size d);
   bd_stored_digest d; bd_loaded_digest d; zeros 40].

Definition directory_pieces (r : DirectoryRef) : list (list Z) :=
  [le_enc 8 (dr_offset r); le_enc 8 (dr_size r); dr_digest r;
   le_enc 4 DIRECTORY_REVISION; zeros 12].

Definition slot (d : option BootstrapDescriptor) : list Z :=
  match d with Some d => bootstrap_encode d | None => zeros 160 end.

Definition root_pieces (r : Root) : list (list Z) :=
  [ROOT_MAGIC; le_enc 2 1; le_enc 2 64; le_enc 4 ROOT_SIZE; le_enc 8 (r_security_version r);
   r_image_family r; le_enc 4 (r_key_id r); zeros 20;
   slot (fst (r_descriptors r)); slot (snd (r_descriptors r));
   directory_encode (r_directory r); r_signature r].

(** Lengths of pieces. *)
Ltac wire_len :=
  rewrite ?zlen_app, ?zlen_le_enc, ?zlen_1; change (@zlen Z []) with 0;
  rewrite ?zlen_zeros by lia; lia.

Lemma zeros_start n : zeros n = [] ++ zeros n.
Proof. reflexivity. Qed.

Lemma bootstrap_encode_pieces d :
  zlen (bd_stored_digest d) = 32 -> zlen (bd_loaded_digest d) = 32 ->
  bootstrap_encode d = concat (bootstrap_pieces d).
Proof.
  intros Hs Hl. unfold bootstrap_encode.
  lazy beta iota zeta delta [imap foldl compose Z.of_nat Z.mul Z.add Pos.of_succ_nat Pos.succ
                             Pos.mul Pos.add].
  rewrite (zeros_start 160).
  rewrite (upd_fill 0 158), (upd_fill 0 157), (upd_fill 5 144), (upd_fill 0 136), (upd_fill 0 128),
    (upd_fill 0 120), (upd_fill 0 112), (upd_fill 0 104), (upd_fill 0 72), (upd_fill 0 40) by wire_len.
  rewrite <- !app_assoc. reflexivity.
Qed.

Lemma directory_encode_pieces r :
  zlen (dr_digest r) = 32 -> directory_encode r = concat (directory_pieces r).
Proof.
  intros Hd. unfold directory_encode. rewrite (zeros_start 64).
  rewrite (upd_fill 0 56), (upd_fill 0 48), (upd_fill 0 16), (upd_fill 0 12) by wire_len.
  rewrite <- !app_assoc. reflexivity.
Qed.

Lemma zlen_bootstrap_encode d : bootstrap_wf d -> zlen (bootstrap_encode d) = 160.
Proof.
  intros [? ? ? ? ? ? [Hs _] [Hl _] _]. rewrite bootstrap_encode_pieces, zlen_concat by done.
  unfold sum_len, bootstrap_pieces. cbn [foldr]. wire_len.
Qed.

Lemma zlen_directory_encode r : directory_wf r -> zlen (directory_encode r) = 64.
Proof.
  intros [? ? [Hd _] _]. rewrite directory_encode_pieces, zlen_concat by done.
  unfold sum_len, directory_pieces. cbn [foldr]. wire_len.
Qed.

Lemma zlen_slot d : descriptor_wf d -> zlen (slot d) = 160.
Proof. destruct d; simpl; [apply zlen_bootstrap_encode | done]. Qed.

(** An absent descriptor leaves its zeroed slot as it is. *)
Lemma descriptor_encode_fill i d p m :
  descriptor_wf d -> zlen p = 64 + i * 160 -> 160 <= m ->
  descriptor_encode i d (p ++ zeros m) = (p ++ slot d) ++ zeros (m - 160).
Proof.
  intros Hd Hp Hm. destruct d as [d|]; simpl.
  - rewrite (upd_fill 0 (m - 160)) by (rewrite ?zlen_bootstrap_encode by done; lia). done.
  - rewrite <- app_assoc. f_equal. unfold zeros. rewrite <- replicate_add. f_equal. lia.
Qed.

Lemma root_encode_pieces r : root_wf r -> root_encode r = concat (root_pieces r).
Proof.
  intros [? [Hf _] ? Hd0 Hd1 _ Hdir [Hsig _]]. unfold root_encode, ROOT_SIZE.
  pose proof (zlen_slot _ Hd0). pose proof (zlen_slot _ Hd1).
  pose proof (zlen_directory_encode _ Hdir).
  assert (zlen ROOT_MAGIC = 8) by done.
  rewrite (zeros_start 512).
  rewrite (upd_fill 0 504), (upd_fill 0 502), (upd_fill 0 500), (upd_fill 0 496), (upd_fill 0 488),
    (upd_fill 0 472), (upd_fill 0 468) by wire_len.
  match goal with |- context [?p ++ zeros 468] => set (h := p) end.
  replace (h ++ zeros 468) with ((h ++ zeros 20) ++ zeros 448) by (by rewrite <- app_assoc).
  assert (zlen h = 44) by (unfold h; wire_len).
  rewrite descriptor_encode_fill, descriptor_encode_fill by (done || wire_len).
  change (448 - 160 - 160) with 128.
  rewrite (upd_fill 0 64), (upd_fill 0 0) by wire_len.
  unfold h. rewrite <- !app_assoc. reflexivity.
Qed.

(** ** Round trips *)

(** The [i]-th piece of the goal's concatenation. *)
Ltac piece i :=
  apply (sub_concat i); [reflexivity | unfold sum_len; cbn [take foldr]; wire_len | wire_len].

(** A piece read back as an integer. *)
Ltac field i := unfold u64_at, u32_at, u16_at; apply le_at_enc; [lia | piece i | unfold DIRECTORY_REVISION, ROOT_SIZE; cbn; lia].

Lemma role_of_u16 r :
  (if role_u16 r =? 1 then Ok Postcar
   else if role_u16 r =? 2 then Ok Mainstage else Err InvalidFormat) = Ok r.
Proof. by destruct r. Qed.

Lemma compression_of_u8 c :
  (if compression_u8 c =? 0 then Ok CompressionNone
   else if compression_u8 c =? 1 then Ok CompressionLz4 else Err UnsupportedAlgorithm) = Ok c.
Proof. by destruct c. Qed.

Lemma bootstrap_parse_encode d : bootstrap_wf d -> bootstrap_parse (bootstrap_encode d) = Ok d.
Proof.
  intros Hd. pose proof (zlen_bootstrap_encode d Hd) as Hlen.
  destruct Hd as [? ? ? ? ? ? [Hs _] [Hl _] Hv]. unfold u64_ok, u64_max in *.
  rewrite bootstrap_encode_pieces in * by done. unfold bootstrap_parse. rewrite Hlen.
  assert (0 <= role_u16 (bd_role d) <= 2) by (destruct (bd_role d); simpl; lia).
  set (l := concat (bootstrap_pieces d)). unfold bootstrap_pieces in l.
  replace (sub l 3 5) with (zeros 5) by (symmetry; piece 2%nat).
  replace (sub l 120 40) with (zeros 40) by (symmetry; piece 11%nat).
  replace (u16_at l 0) with (role_u16 (bd_role d)) by (symmetry; field 0%nat).
  replace (u8_at l 2) with (compression_u8 (bd_compression d))
    by (symmetry; apply u8_at_sub; piece 1%nat).
  replace (u64_at l 8) with (bd_offset d) by (symmetry; field 3%nat).
  replace (u64_at l 16) with (bd_stored_size d) by (symmetry; field 4%nat).
  replace (u64_at l 24) with (bd_loaded_size d) by (symmetry; field 5%nat).
  replace (u64_at l 32) with (bd_load_addr d) by (symmetry; field 6%nat).
  replace (u64_at l 40) with (bd_entry_offset d) by (symmetry; field 7%nat).
  replace (u64_at l 48) with (bd_scratch_size d) by (symmetry; field 8%nat).
  replace (sub l 56 32) with (bd_stored_digest d) by (symmetry; piece 9%nat).
  replace (sub l 88 32) with (bd_loaded_digest d) by (symmetry; piece 10%nat).
  rewrite role_of_u16, compression_of_u8. cbn [rbind].
  replace (Build_BootstrapDescriptor _ _ _ _ _ _ _ _ _ _) with d by (by destruct d).
  unfold u64_max. rewrite Hv. reflexivity.
Qed.

Lemma directory_parse_encode r : directory_wf r -> directory_parse (directory_encode r) = Ok r.
Proof.
  intros Hr. pose proof (zlen_directory_encode r Hr) as Hlen.
  destruct Hr as [? ? [Hd _] Hv]. unfold u64_ok, u64_max in *.
  rewrite directory_encode_pieces in * by done. unfold directory_parse. rewrite Hlen.
  set (l := concat (directory_pieces r)). unfold directory_pieces in l.
  replace (sub l 52 12) with (zeros 12) by (symmetry; piece 4%nat).
  replace (u32_at l 48) with DIRECTORY_REVISION by (symmetry; field 3%nat).
  replace (u64_at l 0) with (dr_offset r) by (symmetry; field 0%nat).
  replace (u64_at l 8) with (dr_size r) by (symmetry; field 1%nat).
  replace (sub l 16 32) with (dr_digest r) by (symmetry; piece 2%nat).
  replace (Build_DirectoryRef _ _ _) with r by (by destruct r).
  unfold u64_max. rewrite Hv. reflexivity.
Qed.

(** A present descriptor is never mistaken for an absent one. *)
Lemma descriptor_parse_slot i b d :
  descriptor_wf d -> sub b (64 + i * 160) 160 = slot d -> descriptor_parse i b = Ok d.
Proof.
  intros Hd Hb. unfold descriptor_parse. rewrite Hb. destruct d as [d|]; cbn [slot descriptor_wf] in *.
  - pose proof (bootstrap_parse_encode d Hd) as Hp. rewrite Hp.
    destruct (bytes_eqb _ _) eqn:E; [|done].
    apply bytes_eqb_true in E. rewrite E in Hp. vm_compute in Hp. discriminate.
  - by rewrite (proj2 (bytes_eqb_true _ _)).
Qed.

Lemma zlen_root_encode r : root_wf r -> zlen (root_encode r) = 512.
Proof.
  intros Hr. rewrite root_encode_pieces by done. rewrite zlen_concat.
  destruct Hr as [? [Hf _] ? Hd0 Hd1 _ Hdir [Hsig _]].
  pose proof (zlen_slot _ Hd0). pose proof (zlen_slot _ Hd1).
  pose proof (zlen_directory_encode _ Hdir).
  assert (zlen ROOT_MAGIC = 8) by done.
  unfold sum_len, root_pieces. cbn [foldr]. wire_len.
Qed.

Lemma root_parse_encode_wf r : root_wf r -> root_parse (root_encode r) = Ok r.
Proof.
  intros Hr. pose proof (zlen_root_encode r Hr) as Hlen.
  rewrite root_encode_pieces in * by done.
  destruct Hr as [? [Hf _] ? Hd0 Hd1 Hord Hdir [Hsig _]]. unfold u64_ok, u32_ok, u64_max, u32_max in *.
  pose proof (zlen_slot _ Hd0). pose proof (zlen_slot _ Hd1).
  pose proof (zlen_directory_encode _ Hdir).
  assert (zlen ROOT_MAGIC = 8) by done. unfold root_parse. rewrite Hlen.
  set (l := concat (root_pieces r)). unfold root_pieces in l.
  replace (sub l 0 8) with ROOT_MAGIC by (symmetry; piece 0%nat).
  replace (sub l 10 2) with (le_enc 2 64) by (symmetry; piece 2%nat).
  replace (u32_at l 12) with ROOT_SIZE by (symmetry; field 3%nat).
  replace (sub l 44 20) with (zeros 20) by (symmetry; piece 7%nat).
  replace (sub l 8 2) with (le_enc 2 1) by (symmetry; piece 1%nat).
  rewrite (descriptor_parse_slot 0 l (fst (r_descriptors r))) by (done || piece 8%nat).
  rewrite (descriptor_parse_slot 1 l (snd (r_descriptors r))) by (done || piece 9%nat).
  replace (sub l 384 64) with (directory_encode (r_directory r)) by (symmetry; piece 10%nat).
  rewrite directory_parse_encode by done.
  replace (u64_at l 16) with (r_security_version r) by (symmetry; field 4%nat).
  replace (sub l 24 16) with (r_image_family r) by (symmetry; piece 5%nat).
  replace (u32_at l 40) with (r_key_id r) by (symmetry; field 6%nat).
  replace (sub l 448 64) with (r_signature r) by (symmetry; piece 11%nat).
  change (negb (512 =? ROOT_SIZE)) with false. change (negb (ROOT_SIZE =? ROOT_SIZE)) with false.
  rewrite !(proj2 (bytes_eqb_true _ _)) by done. cbn [negb orb rbind].
  destruct r as [sv fam kid [[d0|] [d1|]] dir sig]; simpl in *; try done.
  by specialize (Hord eq_refl).
Qed.

(** Compare each piece of a record with the bytes it was parsed from. *)
Ltac pieces_of :=
  apply matches_concat; cbn [matches];
  rewrite ?zlen_le_enc, ?zlen_1, ?zlen_zeros, ?zlen_sub by lia;
  cbn [Z.add Z.of_nat Pos.of_succ_nat Pos.succ Pos.add Pos.add_carry];
  split_and!; try done.

Lemma bootstrap_parse_inv b d :
  bytes_ok b -> bootstrap_parse b = Ok d -> bootstrap_wf d /\ bootstrap_encode d = b.
Proof.
  intros Hb H. unfold bootstrap_parse in H.
  rust_step H. bool_hyp. repeat match goal with E : bytes_eqb _ _ = true |- _ => apply bytes_eqb_true in E end.
  apply rbind_Ok in H as (role & Hrole & H). apply rbind_Ok in H as (compression & Hcomp & H).
  apply rbind_Ok in H as ([] & Hv & [= <-]).
  assert (Hr : u16_at b 0 = role_u16 role) by (repeat rust_step Hrole; bool_hyp; naive_solver).
  assert (Hc : u8_at b 2 = compression_u8 compression)
    by (repeat rust_step Hcomp; bool_hyp; naive_solver).
  assert (Hwf : bootstrap_wf {| bd_role := role; bd_compression := compression;
              bd_offset := u64_at b 8; bd_stored_size := u64_at b 16; bd_loaded_size := u64_at b 24;
              bd_load_addr := u64_at b 32; bd_entry_offset := u64_at b 40;
              bd_scratch_size := u64_at b 48; bd_stored_digest := sub b 56 32;
              bd_loaded_digest := sub b 88 32 |}).
  { constructor; [.. | exact Hv]; cbn; (apply u64_at_ok || apply sub_array_ok); (done || lia). }
  split; [exact Hwf|]. rewrite bootstrap_encode_pieces by (apply zlen_sub; lia).
  unfold bootstrap_pieces. cbn [bd_role bd_compression bd_offset bd_stored_size bd_loaded_size
    bd_load_addr bd_entry_offset bd_scratch_size bd_stored_digest bd_loaded_digest].
  rewrite <- Hr, <- Hc. pieces_of.
  all: rewrite ?le_enc_u64_at, ?le_enc_u16_at by (done || lia); try done.
  apply sub_u8_at. lia.
Qed.

Lemma directory_parse_inv b r :
  bytes_ok b -> directory_parse b = Ok r -> directory_wf r /\ directory_encode r = b.
Proof.
  intros Hb H. unfold directory_parse in H. do 2 rust_step H. bool_hyp.
  repeat match goal with E : bytes_eqb _ _ = true |- _ => apply bytes_eqb_true in E end.
  apply rbind_Ok in H as ([] & Hv & [= <-]). split.
  { constructor; [.. | exact Hv]; cbn; (apply u64_at_ok || apply sub_array_ok); (done || lia). }
  rewrite directory_encode_pieces by (apply zlen_sub; lia).
  unfold directory_pieces. cbn [dr_offset dr_size dr_digest].
  match goal with E : u32_at b 48 = _ |- _ => rewrite <- E end. pieces_of.
  all: rewrite ?le_enc_u64_at, ?le_enc_u32_at by (done || lia); done.
Qed.

Lemma descriptor_parse_inv i b d :
  bytes_ok b -> descriptor_parse i b = Ok d -> descriptor_wf d /\ slot d = sub b (64 + i * 160) 160.
Proof.
  intros Hb H. unfold descriptor_parse in H. case_match eqn:E.
  - apply bytes_eqb_true in E. simplify_eq. done.
  - apply rbind_Ok in H as (d' & Hd & [= <-]). apply bootstrap_parse_inv; [by apply bytes_ok_sub|done].
Qed.

Lemma root_parse_inv b r :
  bytes_ok b -> root_parse b = Ok r -> root_wf r /\ root_encode r = b.
Proof.
  intros Hb H. unfold root_parse in H. do 2 rust_step H. bool_hyp. unfold ROOT_SIZE in *.
  repeat match goal with E : bytes_eqb _ _ = true |- _ => apply bytes_eqb_true in E end.
  apply rbind_Ok in H as (d0 & Hd0 & H). apply rbind_Ok in H as (d1 & Hd1 & H). rust_step H.
  apply rbind_Ok in H as (dir & Hdir & [= <-]).
  apply descriptor_parse_inv in Hd0 as [Hw0 Hs0]; [|done].
  apply descriptor_parse_inv in Hd1 as [Hw1 Hs1]; [|done].
  apply directory_parse_inv in Hdir as [Hwd Hsd]; [|by apply bytes_ok_sub].
  match goal with |- root_wf ?r /\ _ => assert (Hwf : root_wf r) end.
  { constructor; cbn; try done;
      try ((apply u64_at_ok || apply u32_at_ok || apply sub_array_ok); (done || lia)).
    by intros ->; destruct d1. }
  split; [exact Hwf|]. rewrite root_encode_pieces by exact Hwf. unfold root_pieces.
  cbn [r_security_version r_image_family r_key_id r_descriptors r_directory r_signature fst snd].
  rewrite Hs0, Hs1, Hsd. unfold ROOT_SIZE.
  match goal with E : u32_at b 12 = 512 |- _ => rewrite <- E at 1 end.
  assert (zlen ROOT_MAGIC = 8) as Hm by done. pieces_of; rewrite ?Hm.
  all: rewrite ?le_enc_u64_at, ?le_enc_u32_at by (done || lia); done.
Qed.

(** ** What validation accepts *)

Record bootstrap_valid (d : BootstrapDescriptor) (image_size : Z) : Prop := {
  bv_sizes : bd_stored_size d <> 0 /\ bd_loaded_size d <> 0;
  bv_entry : bd_entry_offset d < bd_loaded_size d;
  bv_stored : bd_offset d + bd_stored_size d <= u64_max /\
              bd_offset d + bd_stored_size d <= image_size;
  bv_loaded : bd_load_addr d + bd_loaded_size d <= u64_max;
  bv_lz4 : bd_compression d = CompressionLz4 ->
           bd_stored_size d + bd_loaded_size d <= u64_max /\
           bd_stored_size d + bd_loaded_size d <= bd_scratch_size d;
  bv_none : bd_compression d = CompressionNone ->
            bd_scratch_size d = 0 /\ bd_stored_size d = bd_loaded_size d /\
            bd_stored_digest d = bd_loaded_digest d
}.

Lemma range_Ok o s n u : range o s n = Ok u <-> o + s <= u64_max /\ o + s <= n.
Proof.
  destruct u. unfold range. destruct (checked_add u64_max o s) as [e|] eqn:E.
  - apply checked_add_Some in E as [-> ?]. case_match; bool_hyp; naive_solver lia.
  - apply checked_add_None in E. split; [done|lia].
Qed.

Lemma bootstrap_validate_Ok d n u :
  bootstrap_validate d n = Ok u <-> bootstrap_valid d n.
Proof.
  destruct u. unfold bootstrap_validate. split.
  - intros H. rust_step H. apply rbind_Ok in H as (? & Hr%range_Ok & H).
    apply rbind_Ok in H as (? & Hl & H). rewrite ok_or_Ok, checked_add_Some in Hl.
    apply rbind_Ok in H as (small & Hs & H). do 2 rust_step H. subst small.
    destruct Hr, Hl. constructor; try (bool_cases; lia).
    + intros E. rewrite bool_decide_true in Hs by done. apply rbind_Ok in Hs as (need & Hn & [= Hs]).
      rewrite ok_or_Ok, checked_add_Some in Hn. bool_cases; lia.
    + intros E. rewrite bool_decide_true in * by done.
      match goal with X : (true && _)%bool = false |- _ => cbn [andb] in X end.
      bool_hyp. by repeat match goal with E : bytes_eqb _ _ = true |- _ => apply bytes_eqb_true in E end.
  - intros [[? ?] ? [? ?] ? Hlz Hno]. guard_false.
    rewrite (proj2 (range_Ok _ _ _ tt)) by done. rewrite checked_add_ok by done. cbn [rbind ok_or].
    destruct (bd_compression d).
    + destruct Hno as (-> & -> & ->); [done|]. rewrite !Z.eqb_refl.
      rewrite (proj2 (bytes_eqb_true _ _)) by done. by rewrite bool_decide_false, bool_decide_true.
    + destruct Hlz; [done|]. rewrite bool_decide_true, bool_decide_false by done.
      rewrite checked_add_ok by done. cbn [rbind ok_or andb].
      by test_false (bd_scratch_size d <? bd_stored_size d + bd_loaded_size d).
Qed.

(** Tightening the image size only adds the range test. *)
Lemma bootstrap_valid_tighten d n :
  bootstrap_valid d u64_max -> bootstrap_valid d n <-> bd_offset d + bd_stored_size d <= n.
Proof. intros [? ? [? ?] ? ? ?]. split; [by intros [_ _ [_ ?] _ _ _] | by constructor]. Qed.

Lemma directory_validate_Ok r n m u :
  directory_validate r n m = Ok u <->
    dr_size r <> 0 /\ dr_size r <= m /\ dr_offset r + dr_size r <= u64_max /\
    dr_offset r + dr_size r <= n.
Proof.
  unfold directory_validate. case_match eqn:E; bool_hyp; rewrite ?range_Ok.
  - split; [done|]. destruct E; bool_hyp; lia.
  - lia.
Qed.

Lemma validate_present_Ok d n u :
  descriptor_wf d ->
  validate_present d n = Ok u <-> (forall x, d = Some x -> bd_offset x + bd_stored_size x <= n).
Proof.
  destruct u. intros Hwf. destruct d as [d|]; simpl; [|by naive_solver].
  rewrite bootstrap_validate_Ok, bootstrap_valid_tighten; [naive_solver|].
  eapply bootstrap_validate_Ok, bwf_valid, Hwf.
Qed.

(** ** Theorems *)

(** the root's wire format is canonical. A 512-byte string parses to [r]
    exactly when [r] is well formed and the string is the encoding of [r]:
    encoding then parsing gives the root back, and no two byte strings parse to
    the same root, so the signed bytes are determined by the signed content. *)
Theorem root_parse_iff (b : list Z) (r : Root) :
  bytes_ok b -> root_parse b = Ok r <-> root_wf r /\ b = root_encode r.
Proof.
  intros Hb. split.
  - intros [Hwf <-]%root_parse_inv; done.
  - intros [Hwf ->]. by apply root_parse_encode_wf.
Qed.

(** The conditions under which a root is trusted. *)
Record root_trusted {C : Crypto} (policy : RootPolicy) (bytes : list Z) (root : Root) : Prop := {
  rt_wf : root_wf root;
  rt_bytes : bytes = root_encode root;
  rt_family : r_image_family root = rp_image_family policy;
  rt_version : rp_minimum_security_version policy <= r_security_version root;
  rt_directory : dr_size (r_directory root) <= rp_max_directory_size policy /\
                 dr_offset (r_directory root) + dr_size (r_directory root) <= rp_image_size policy;
  rt_descriptors : forall d,
    fst (r_descriptors root) = Some d \/ snd (r_descriptors root) = Some d ->
    bd_offset d + bd_stored_size d <= rp_image_size policy;
  (** the key id selects one key of the policy, an Ed25519 key, and the
      signature over the first 448 bytes verifies under it *)
  rt_signature : exists key,
    filter (fun k => vk_key_id k = r_key_id root) (rp_keys policy) = [key] /\
    r_key_id root <= 255 /\ vk_algorithm key = ALG_ED25519 /\ feature_ed25519 = true /\
    ed25519_key (vk_key_lo key) = true /\
    ed25519_verify_strict (vk_key_lo key) (sub bytes 0 SIGNED_SIZE) (r_signature root) = true
}.

Lemma signature_halves (s : list Z) : zlen s = 64 -> sub s 0 32 ++ sub s 32 32 = s.
Proof.
  intros H. etrans; [symmetry; apply (sub_split s 0 32 32); lia|]. rewrite <- (sub_all s) at 2. by rewrite H.
Qed.

Lemma authenticate_root_spec {C : Crypto} (policy : RootPolicy) (bytes : list Z) (root : Root) :
  bytes_ok bytes ->
  authenticate_root policy bytes = Ok root <-> root_trusted policy bytes root.
Proof.
  intros Hb. unfold authenticate_root. split.
  - intros H. apply rbind_Ok in H as (r & [Hwf Henc]%root_parse_inv & H); [|done]. rust_step H.
    apply rbind_Ok in H as (? & Hdir%directory_validate_Ok & H).
    apply rbind_Ok in H as (? & Hd0 & H). rewrite validate_present_Ok in Hd0 by apply Hwf.
    apply rbind_Ok in H as (? & Hd1 & H). rewrite validate_present_Ok in Hd1 by apply Hwf.
    apply rbind_Ok in H as (id & Hid & H). rewrite ok_or_Ok, try_from_Some in Hid.
    destruct Hid as [-> Hid]. destruct (filter _ _) as [|key [|]] eqn:Hkeys; try discriminate H.
    apply rbind_Ok in H as ([] & Hsig & [= <-]). rewrite map_err_Ok in Hsig.
    apply verify_signature_ed25519 in Hsig as (Ha & Hf & Hk & Hs); [|done].
    unfold signature_bytes in Hs. cbn [sig_lo sig_hi] in Hs.
    rewrite signature_halves in Hs by apply Hwf. bool_hyp.
    match goal with E : bytes_eqb _ _ = true |- _ => apply bytes_eqb_true in E end.
    constructor; try done; [lia | intros d [?|?]; eauto |].
    exists key. split_and!; done.
  - intros [Hwf -> Hfam Hver [Hds Hdo] Hdesc (key & Hkeys & Hid & Ha & Hf & Hk & Hs)].
    rewrite root_parse_encode_wf by done. cbn [rbind].
    rewrite (proj2 (bytes_eqb_true _ _)) by done. cbn [negb orb]. guard_false.
    pose proof (proj1 (directory_validate_Ok _ _ _ _) (dwf_valid _ (rwf_directory _ Hwf))).
    rewrite (proj2 (directory_validate_Ok _ _ _ tt)) by lia. cbn [rbind].
    assert (Hp : forall d n, descriptor_wf d ->
      (forall x, d = Some x -> bd_offset x + bd_stored_size x <= n) -> validate_present d n = Ok tt)
      by (intros; by apply validate_present_Ok).
    rewrite !Hp by (try apply Hwf; eauto). cbn [rbind].
    rewrite try_from_ok by done. cbn [rbind ok_or]. rewrite Hkeys.
    match goal with |- context [verify_signature ?m ?s ?k] =>
      rewrite (proj2 (verify_signature_ed25519 m s k eq_refl)); [done|] end.
    unfold signature_bytes. cbn [sig_lo sig_hi]. rewrite signature_halves by apply Hwf. done.
Qed.

(** C5: a byte string authenticates exactly when it is the encoding of a well
    formed root of the policy's image family, at or above its minimum security
    version, whose directory and bootstrap images lie inside the image, and
    which one and only one policy key, an Ed25519 key, signs over its first 448
    bytes. *)
Theorem authenticate_root_iff {C : Crypto} (policy : RootPolicy) (bytes : list Z) (root : Root) :
  bytes_ok bytes ->
  authenticate_root policy bytes = Ok root <-> root_trusted policy bytes root.
Proof. apply authenticate_root_spec. Qed.

(** ** Witnesses *)

(** A one-descriptor root, and a build whose hash and signature check are
    concrete functions: the "signature" of a message is its first 64 bytes. *)
Definition demo_descriptor : BootstrapDescriptor := {|
  bd_role := Mainstage; bd_compression := CompressionLz4; bd_offset := 4096;
  bd_stored_size := 100; bd_loaded_size := 300; bd_load_addr := 0x80000000;
  bd_entry_offset := 16; bd_scratch_size := 400;
  bd_stored_digest := replicate 32 7; bd_loaded_digest := replicate 32 9 |}.

Definition demo_root_unsigned : Root := {|
  r_security_version := 5; r_image_family := replicate 16 3; r_key_id := 2;
  r_descriptors := (Some demo_descriptor, None);
  r_directory := {| dr_offset := 8192; dr_size := 700; dr_digest := replicate 32 1 |};
  r_signature := zeros 64 |}.

Definition demo_root : Root := {|
  r_security_version := 5; r_image_family := replicate 16 3; r_key_id := 2;
  r_descriptors := (Some demo_descriptor, None);
  r_directory := {| dr_offset := 8192; dr_size := 700; dr_digest := replicate 32 1 |};
  r_signature := sub (root_encode demo_root_unsigned) 0 64 |}.

Definition demo_root_bytes : list Z := Eval vm_compute in root_encode demo_root.

#[local] Instance demo_crypto : Crypto := {|
  feature_sha2 := true; feature_sha3 := false; feature_ed25519 := true;
  feature_ecdsa_p256 := false;
  sha256 := fun l => replicate 32 (Bytes.le_dec l mod 256);
  sha3_256 := fun _ => zeros 32;
  ed25519_key := fun k => bytes_eqb k (replicate 32 4);
  ed25519_verify_strict := fun _ m s => bytes_eqb (sub m 0 64) s;
  p256_key := fun _ => false; p256_scalars := fun _ _ => false;
  p256_verify := fun _ _ _ _ => false |}.

Definition demo_policy : RootPolicy := {|
  rp_image_family := replicate 16 3; rp_minimum_security_version := 4;
  rp_image_size := 0x100000; rp_max_directory_size := 4096;
  rp_keys := [{| vk_key_id := 1; vk_algorithm := 0; vk_key_lo := zeros 32; vk_key_hi := zeros 32 |};
              {| vk_key_id := 2; vk_algorithm := 0; vk_key_lo := replicate 32 4;
                 vk_key_hi := zeros 32 |}] |}.

Lemma demo_root_bytes_ok : bytes_ok demo_root_bytes.
Proof. apply (bool_decide_eq_true_1 (bytes_ok demo_root_bytes)). vm_compute. reflexivity. Qed.

Lemma root_parse_iff_witness :
  root_parse demo_root_bytes = Ok demo_root /\
  (root_wf demo_root /\ demo_root_bytes = root_encode demo_root).
Proof.
  assert (E : root_parse demo_root_bytes = Ok demo_root) by (vm_compute; reflexivity).
  exact (conj E (proj1 (root_parse_iff demo_root_bytes demo_root demo_root_bytes_ok) E)).
Defined.

Lemma authenticate_root_iff_witness :
  authenticate_root demo_policy demo_root_bytes = Ok demo_root /\
  root_trusted demo_policy demo_root_bytes demo_root.
Proof.
  assert (E : authenticate_root demo_policy demo_root_bytes = Ok demo_root)
    by (vm_compute; reflexivity).
  exact (conj E (proj1 (authenticate_root_iff demo_policy demo_root_bytes demo_root
                          demo_root_bytes_ok) E)).
Defined.
