(* ===== verification/Manifest.v ===== *)
(** * Manifest: the firmware file directory ([crates/ffs/src/manifest.rs])

    The directory lists the regions of the image, the files in them and the
    segments of the files, with names in a string table.  Firmware works on a
    borrowed view of the raw records ([ManifestView]); the host encodes an owned
    tree ([ImageManifest]) and can read one back.

    The theorems: parsing never panics, a parsed view never sends a lookup out
    of bounds, a lookup finds exactly the one file that has the name, the data
    of a file lies inside its region, and what the host encodes is read back. *)

From S2P Require Import Prelude.
From S2P Require Import Bytes.
From S2P Require Import Wire.
From S2P Require Import Services.
From S2P Require Import Crypto.
From S2P Require Import Root.
From Stdlib Require Import ZArith Lia.
From stdpp Require Import base numbers list option.

#[local] Open Scope Z_scope.

(** ** Data *)

Inductive ReaderError :=
| OutOfBounds | ReaderBadMagic | ReaderVersion | DeserializeError | SignatureInvalid | KeyNotFound
| FileNotFound | DigestMismatch | RegionNotFound | UnsupportedAlgorithm | CannotVerifyInPlace.

Inductive FileType :=
| StageCode | BoardConfig | PayloadFile | Fdt | DataFile | RawFile | FirmwareFile | FitImage
| CpuMicrocode | Initramfs.
#[export] Instance FileType_eq_dec : EqDecision FileType.
Proof. solve_decision. Defined.

Inductive SegmentKind := Code | ReadOnlyData | ReadWriteData | Bss.
#[export] Instance SegmentKind_eq_dec : EqDecision SegmentKind.
Proof. solve_decision. Defined.

Record SegmentFlags := { sf_execute : bool; sf_write : bool; sf_read : bool }.

Record Segment := {
  sg_name : list Z; sg_kind : SegmentKind; sg_offset : Z; sg_stored_size : Z;
  sg_initialized_size : Z; sg_stored_digest : list Z; sg_loaded_digest : list Z;
  sg_loaded_size : Z; sg_in_place_size : Z; sg_load_addr : Z; sg_compression : Compression;
  sg_flags : SegmentFlags
}.

Inductive EntryContent :=
| File (file_type : FileType) (segments : list Segment) (digests : DigestSet)
| RawEntry (fill : Z).

Record RegionEntry := {
  en_name : list Z; en_offset : Z; en_size : Z; en_content : EntryContent
}.

Inductive RegionContent :=
| Container (children : list RegionEntry)
| RawRegion (fill : Z).

Record ImageRegion := {
  im_name : list Z; im_offset : Z; im_size : Z; im_content : RegionContent
}.

Record ImageManifest := { im_regions : list ImageRegion }.

(** ** Records *)

(** "FSMZ" *)
Definition MANIFEST_MAGIC : Z := 0x5a4d5346.
Definition MANIFEST_VERSION : Z := DIRECTORY_REVISION.

Record Header := {
  h_magic : Z; h_version : Z; h_region_count : Z; h_entry_count : Z; h_segment_count : Z;
  h_string_table_offset : Z; h_string_table_size : Z
}.

Record RegionRecord := {
  rr_name : Z; rr_offset : Z; rr_size : Z; rr_first_entry : Z; rr_entry_count : Z; rr_kind : Z;
  rr_fill : Z; rr_reserved : list Z
}.

Record EntryRecord := {
  er_name : Z; er_offset : Z; er_size : Z; er_first_segment : Z; er_segment_count : Z;
  er_file_type : Z; er_kind : Z; er_fill : Z; er_digest_flags : Z; er_sha256 : list Z;
  er_sha3_256 : list Z
}.

Record SegmentRecord := {
  sr_name : Z; sr_offset : Z; sr_stored_size : Z; sr_loaded_size : Z; sr_in_place_size : Z;
  sr_load_addr : Z; sr_kind : Z; sr_compression : Z; sr_flags : Z; sr_reserved : Z;
  sr_initialized_size : Z; sr_stored_digest : list Z; sr_loaded_digest : list Z
}.

Definition HEADER_BYTES : Z := 28.
Definition REGION_BYTES : Z := 24.
Definition ENTRY_BYTES : Z := 88.
Definition SEGMENT_BYTES : Z := 100.

Definition REGION_KIND_CONTAINER : Z := 1.
Definition REGION_KIND_RAW : Z := 2.
Definition ENTRY_KIND_FILE : Z := 1.
Definition ENTRY_KIND_RAW : Z := 2.
Definition DIGEST_SHA256 : Z := 1.
Definition DIGEST_SHA3_256 : Z := 2.

(** The packed little-endian layouts, read and written by zerocopy. *)
Definition read_manifest_header (b : list Z) : Header := {|
  h_magic := u32_at b 0; h_version := u32_at b 4; h_region_count := u32_at b 8;
  h_entry_count := u32_at b 12; h_segment_count := u32_at b 16; h_string_table_offset := u32_at b 20;
  h_string_table_size := u32_at b 24 |}.

Definition read_region_record (b : list Z) : RegionRecord := {|
  rr_name := u32_at b 0; rr_offset := u32_at b 4; rr_size := u32_at b 8; rr_first_entry := u32_at b 12;
  rr_entry_count := u32_at b 16; rr_kind := u8_at b 20; rr_fill := u8_at b 21;
  rr_reserved := sub b 22 2 |}.

Definition read_entry_record (b : list Z) : EntryRecord := {|
  er_name := u32_at b 0; er_offset := u32_at b 4; er_size := u32_at b 8; er_first_segment := u32_at b 12;
  er_segment_count := u32_at b 16; er_file_type := u8_at b 20; er_kind := u8_at b 21;
  er_fill := u8_at b 22; er_digest_flags := u8_at b 23; er_sha256 := sub b 24 32;
  er_sha3_256 := sub b 56 32 |}.

Definition read_segment_record (b : list Z) : SegmentRecord := {|
  sr_name := u32_at b 0; sr_offset := u32_at b 4; sr_stored_size := u32_at b 8;
  sr_loaded_size := u32_at b 12; sr_in_place_size := u32_at b 16; sr_load_addr := u64_at b 20;
  sr_kind := u8_at b 28; sr_compression := u8_at b 29; sr_flags := u8_at b 30; sr_reserved := u8_at b 31;
  sr_initialized_size := u32_at b 32; sr_stored_digest := sub b 36 32; sr_loaded_digest := sub b 68 32 |}.

Definition header_pieces_of (h : Header) : list (list Z) :=
  [le_enc 4 (h_magic h); le_enc 4 (h_version h); le_enc 4 (h_region_count h); le_enc 4 (h_entry_count h);
   le_enc 4 (h_segment_count h); le_enc 4 (h_string_table_offset h); le_enc 4 (h_string_table_size h)].

Definition region_pieces_of (r : RegionRecord) : list (list Z) :=
  [le_enc 4 (rr_name r); le_enc 4 (rr_offset r); le_enc 4 (rr_size r); le_enc 4 (rr_first_entry r);
   le_enc 4 (rr_entry_count r); [rr_kind r]; [rr_fill r]; rr_reserved r].

Definition entry_pieces_of (e : EntryRecord) : list (list Z) :=
  [le_enc 4 (er_name e); le_enc 4 (er_offset e); le_enc 4 (er_size e); le_enc 4 (er_first_segment e);
   le_enc 4 (er_segment_count e); [er_file_type e]; [er_kind e]; [er_fill e]; [er_digest_flags e];
   er_sha256 e; er_sha3_256 e].

Definition segment_pieces_of (s : SegmentRecord) : list (list Z) :=
  [le_enc 4 (sr_name s); le_enc 4 (sr_offset s); le_enc 4 (sr_stored_size s); le_enc 4 (sr_loaded_size s);
   le_enc 4 (sr_in_place_size s); le_enc 8 (sr_load_addr s); [sr_kind s]; [sr_compression s]; [sr_flags s];
   [sr_reserved s]; le_enc 4 (sr_initialized_size s); sr_stored_digest s; sr_loaded_digest s].

(** ** Field codes *)

Definition encode_file_type (t : FileType) : Z :=
  match t with
  | StageCode => 1 | BoardConfig => 2 | PayloadFile => 3 | Fdt => 4 | DataFile => 5 | RawFile => 6
  | FirmwareFile => 7 | FitImage => 8 | CpuMicrocode => 9 | Initramfs => 10
  end.

Definition decode_file_type (v : Z) : res ReaderError FileType :=
  if v =? 1 then Ok StageCode else if v =? 2 then Ok BoardConfig else if v =? 3 then Ok PayloadFile
  else if v =? 4 then Ok Fdt else if v =? 5 then Ok DataFile else if v =? 6 then Ok RawFile
  else if v =? 7 then Ok FirmwareFile else if v =? 8 then Ok FitImage
  else if v =? 9 then Ok CpuMicrocode else if v =? 10 then Ok Initramfs
  else Err DeserializeError.

Definition encode_segment_kind (k : SegmentKind) : Z :=
  match k with Code => 1 | ReadOnlyData => 2 | ReadWriteData => 3 | Bss => 4 end.

Definition decode_segment_kind (v : Z) : res ReaderError SegmentKind :=
  if v =? 1 then Ok Code else if v =? 2 then Ok ReadOnlyData else if v =? 3 then Ok ReadWriteData
  else if v =? 4 then Ok Bss else Err DeserializeError.

Definition encode_compression (c : Compression) : Z :=
  match c with CompressionNone => 0 | CompressionLz4 => 1 end.

Definition decode_compression (v : Z) : res ReaderError Compression :=
  if v =? 0 then Ok CompressionNone else if v =? 1 then Ok CompressionLz4 else Err DeserializeError.

Definition encode_segment_flags (f : SegmentFlags) : Z :=
  Z.lor (Z.lor (Z.b2z (sf_execute f)) (Z.shiftl (Z.b2z (sf_write f)) 1)) (Z.shiftl (Z.b2z (sf_read f)) 2).

Definition decode_segment_flags (v : Z) : SegmentFlags := {|
  sf_execute := negb (Z.land v 1 =? 0);
  sf_write := negb (Z.land v 2 =? 0);
  sf_read := negb (Z.land v 4 =? 0) |}.

(** ** Strings *)

Definition continuation (b : Z) : bool := (0x80 <=? b) && (b <=? 0xbf).

(** [core::str::from_utf8]: no overlong forms, no surrogates, nothing above U+10FFFF. *)
Fixpoint valid_utf8 (l : list Z) : bool :=
  match l with
  | [] => true
  | b :: l1 =>
      if b <? 0x80 then valid_utf8 l1
      else match l1 with
      | [] => false
      | c1 :: l2 =>
          if (0xc2 <=? b) && (b <=? 0xdf) then continuation c1 && valid_utf8 l2
          else match l2 with
          | [] => false
          | c2 :: l3 =>
              if (0xe0 <=? b) && (b <=? 0xef) then
                ((if b =? 0xe0 then 0xa0 else 0x80) <=? c1) && (c1 <=? (if b =? 0xed then 0x9f else 0xbf))
                && continuation c2 && valid_utf8 l3
              else match l3 with
              | [] => false
              | c3 :: l4 =>
                  (0xf0 <=? b) && (b <=? 0xf4)
                  && ((if b =? 0xf0 then 0x90 else 0x80) <=? c1)
                  && (c1 <=? (if b =? 0xf4 then 0x8f else 0xbf))
                  && continuation c2 && continuation c3 && valid_utf8 l4
              end
          end
      end
  end.

(** The bytes before the first NUL. *)
Fixpoint until_nul (l : list Z) : option (list Z) :=
  match l with
  | [] => None
  | b :: l => if b =? 0 then Some [] else (fun s => b :: s) <$> until_nul l
  end.

Definition string_at (strings : list Z) (offset : Z) : res ReaderError (list Z) :=
  let? tail := ok_or (get_range strings offset (zlen strings)) OutOfBounds in
  let? s := ok_or (until_nul tail) DeserializeError in
  fail_if negb (valid_utf8 s) with DeserializeError;
  Ok s.

(** [heapless::String::<N>::try_from] *)
Definition hstring (capacity : Z) (s : list Z) : res ReaderError (list Z) :=
  if zlen s <=? capacity then Ok s else Err DeserializeError.

(** ** The view *)

Record ManifestView := {
  mv_regions : list RegionRecord; mv_entries : list EntryRecord; mv_segments : list SegmentRecord;
  mv_strings : list Z
}.

Record FileView := {
  fv_entry : EntryRecord; fv_region_offset : Z; fv_segments : list SegmentRecord; fv_strings : list Z
}.

(** [l.iter().enumerate()] *)
Definition enumerate {A} (l : list A) : list (Z * A) := zip (map Z.of_nat (seq 0 (length l))) l.

Section manifest.
Context {T : Target}.

Definition checked_range (len start count : Z) : res ReaderError unit :=
  let? end_ := ok_or (checked_add usize_max start count) OutOfBounds in
  if end_ <=? len then Ok tt else Err OutOfBounds.

(** [&l[start..start + count]] *)
Definition slice {A} (l : list A) (start count : Z) : res ReaderError (list A) :=
  let? end_ := add_or_panic usize_max start count in
  or_panic (get_range l start end_).

Definition string (v : ManifestView) (offset : Z) : res ReaderError (list Z) :=
  string_at (mv_strings v) offset.

(** Two names must differ. *)
Definition check_distinct (v : ManifestView) (prev name : Z) : res ReaderError unit :=
  let? a := string v prev in
  let? b := string v name in
  fail_if bytes_eqb a b with DeserializeError;
  Ok tt.

(** The loops of [validate], in order. *)
Definition check_region_kind (v : ManifestView) (r : RegionRecord) : res ReaderError unit :=
  let? _ := string v (rr_name r) in
  if rr_kind r =? REGION_KIND_CONTAINER
  then checked_range (zlen (mv_entries v)) (rr_first_entry r) (rr_entry_count r)
  else if rr_kind r =? REGION_KIND_RAW then Ok tt else Err DeserializeError.

Definition check_entry_kind (v : ManifestView) (e : EntryRecord) : res ReaderError unit :=
  let? _ := string v (er_name e) in
  if er_kind e =? ENTRY_KIND_FILE then
    let? _ := decode_file_type (er_file_type e) in
    checked_range (zlen (mv_segments v)) (er_first_segment e) (er_segment_count e)
  else if er_kind e =? ENTRY_KIND_RAW then Ok tt else Err DeserializeError.

Definition check_child (v : ManifestView) (r : RegionRecord) (entries : list EntryRecord)
    (ie : Z * EntryRecord) : res ReaderError unit :=
  let '(i, e) := ie in
  let? _ := for_each (take (Z.to_nat i) entries) (fun prev => check_distinct v (er_name prev) (er_name e)) in
  checked_range (rr_size r) (er_offset e) (er_size e).

Definition check_region (v : ManifestView) (ir : Z * RegionRecord) : res ReaderError unit :=
  let '(i, r) := ir in
  fail_if negb (bytes_eqb (rr_reserved r) [0; 0])
          || bool_decide (checked_add u32_max (rr_offset r) (rr_size r) = None) with OutOfBounds;
  let? _ := for_each (take (Z.to_nat i) (mv_regions v))
              (fun prev => check_distinct v (rr_name prev) (rr_name r)) in
  if rr_kind r =? REGION_KIND_CONTAINER then
    let? entries := slice (mv_entries v) (rr_first_entry r) (rr_entry_count r) in
    for_each (enumerate entries) (check_child v r entries)
  else Ok tt.

Definition check_entry (v : ManifestView) (e : EntryRecord) : res ReaderError unit :=
  if negb (er_kind e =? ENTRY_KIND_FILE) then Ok tt
  else
    fail_if (er_segment_count e =? 0) || negb (er_digest_flags e =? DIGEST_SHA256)
            || negb (bytes_eqb (er_sha3_256 e) (zeros 32)) || negb (er_fill e =? 0) with DeserializeError;
    let? segments := slice (mv_segments v) (er_first_segment e) (er_segment_count e) in
    for_each segments (fun s => checked_range (er_size e) (sr_offset s) (sr_stored_size s)).

(** The number of records of [l] that claim child [i]. *)
Definition count_owners {A} (l : list A) (owns : A -> bool) (first count : A -> Z) (i : Z)
    : res ReaderError Z :=
  fold_each l 0 (fun n x =>
    if owns x && (first x <=? i) then
      let? end_ := add_or_panic usize_max (first x) (count x) in
      Ok (if i <? end_ then n + 1 else n)
    else Ok n).

Definition is_container (r : RegionRecord) : bool := rr_kind r =? REGION_KIND_CONTAINER.
Definition is_file (e : EntryRecord) : bool := er_kind e =? ENTRY_KIND_FILE.

Definition check_one_owner {A} (l : list A) (owns : A -> bool) (first count : A -> Z) (i : Z)
    : res ReaderError unit :=
  let? n := count_owners l owns first count i in
  fail_if negb (n =? 1) with DeserializeError;
  Ok tt.

Definition check_segment (v : ManifestView) (s : SegmentRecord) : res ReaderError unit :=
  let? _ := string v (sr_name s) in
  let? kind := decode_segment_kind (sr_kind s) in
  let? compression := decode_compression (sr_compression s) in
  fail_if negb (sr_reserved s =? 0) || negb (Z.land (sr_flags s) (255 - 7) =? 0)
          || (sr_loaded_size s <? sr_initialized_size s)
          || bool_decide (checked_add u64_max (sr_load_addr s) (sr_loaded_size s) = None)
    with DeserializeError;
  fail_if bool_decide (compression = CompressionNone) && negb (sr_in_place_size s =? 0)
    with DeserializeError;
  let? _ :=
    (if bool_decide (compression = CompressionLz4) then
       let? need := ok_or (checked_add u32_max (sr_initialized_size s) (sr_stored_size s)) OutOfBounds in
       fail_if sr_in_place_size s <? need with DeserializeError; Ok tt
     else Ok tt) in
  if sr_stored_size s =? 0 then
    fail_if negb (bool_decide (kind = Bss)) || negb (sr_initialized_size s =? 0)
            || negb (bool_decide (compression = CompressionNone))
            || negb (bytes_eqb (sr_stored_digest s) (zeros 32))
            || negb (bytes_eqb (sr_loaded_digest s) (zeros 32)) with DeserializeError;
    Ok tt
  else
    fail_if bool_decide (kind = Bss) || (sr_initialized_size s =? 0) with DeserializeError;
    fail_if bool_decide (compression = CompressionNone)
            && (negb (sr_stored_size s =? sr_initialized_size s)
                || negb (bytes_eqb (sr_stored_digest s) (sr_loaded_digest s))) with DeserializeError;
    Ok tt.

Definition indices {A} (l : list A) : list Z := map Z.of_nat (seq 0 (length l)).

Definition manifest_validate (v : ManifestView) : res ReaderError unit :=
  let? _ := for_each (mv_regions v) (check_region_kind v) in
  let? _ := for_each (mv_entries v) (check_entry_kind v) in
  let? _ := for_each (enumerate (mv_regions v)) (check_region v) in
  let? _ := for_each (mv_entries v) (check_entry v) in
  let? _ := for_each (indices (mv_entries v))
              (check_one_owner (mv_regions v) is_container rr_first_entry rr_entry_count) in
  let? _ := for_each (indices (mv_segments v))
              (check_one_owner (mv_entries v) is_file er_first_segment er_segment_count) in
  for_each (mv_segments v) (check_segment v).

(** The record tables are unaligned, so that a slice of the right length is
    always a table. *)
Definition manifest_parse (bytes : list Z) : res ReaderError ManifestView :=
  fail_if zlen bytes <? HEADER_BYTES with DeserializeError;
  let header := read_manifest_header bytes in
  fail_if negb (h_magic header =? MANIFEST_MAGIC) || negb (h_version header =? MANIFEST_VERSION)
    with ReaderVersion;
  let region_count := h_region_count header in
  let entry_count := h_entry_count header in
  let segment_count := h_segment_count header in
  let strings_offset := h_string_table_offset header in
  let strings_size := h_string_table_size header in
  let? region_size := ok_or (checked_mul usize_max REGION_BYTES region_count) OutOfBounds in
  let? entry_offset := ok_or (checked_add usize_max HEADER_BYTES region_size) OutOfBounds in
  let? entry_size := ok_or (checked_mul usize_max ENTRY_BYTES entry_count) OutOfBounds in
  let? segment_offset := ok_or (checked_add usize_max entry_offset entry_size) OutOfBounds in
  let? segment_size := ok_or (checked_mul usize_max SEGMENT_BYTES segment_count) OutOfBounds in
  let? expected := ok_or (checked_add usize_max segment_offset segment_size) OutOfBounds in
  fail_if negb (strings_offset =? expected) with DeserializeError;
  let? strings_end := ok_or (checked_add usize_max strings_offset strings_size) OutOfBounds in
  fail_if negb (strings_end =? zlen bytes) with OutOfBounds;
  let? region_bytes := ok_or (get_range bytes HEADER_BYTES entry_offset) OutOfBounds in
  let? entry_bytes := ok_or (get_range bytes entry_offset segment_offset) OutOfBounds in
  let? segment_bytes := ok_or (get_range bytes segment_offset expected) OutOfBounds in
  let? strings := ok_or (get_range bytes strings_offset strings_end) OutOfBounds in
  let view := {|
    mv_regions := map read_region_record (split_records REGION_BYTES (Z.to_nat region_count) region_bytes);
    mv_entries := map read_entry_record (split_records ENTRY_BYTES (Z.to_nat entry_count) entry_bytes);
    mv_segments := map read_segment_record (split_records SEGMENT_BYTES (Z.to_nat segment_count) segment_bytes);
    mv_strings := strings |} in
  let? _ := manifest_validate view in
  Ok view.

(** ** Lookups *)

Definition file_view (v : ManifestView) (r : RegionRecord) (e : EntryRecord) : res ReaderError FileView :=
  let? _ := checked_range (zlen (mv_segments v)) (er_first_segment e) (er_segment_count e) in
  let? segments := slice (mv_segments v) (er_first_segment e) (er_segment_count e) in
  Ok {| fv_entry := e; fv_region_offset := rr_offset r; fv_segments := segments; fv_strings := mv_strings v |}.

(** The two searches differ in their test of a file entry. *)
Definition find_file (v : ManifestView) (test : EntryRecord -> res ReaderError bool)
    : res ReaderError FileView :=
  let? found := fold_each (mv_regions v) None (fun found r =>
    if negb (rr_kind r =? REGION_KIND_CONTAINER) then Ok found
    else
      let? entries := slice (mv_entries v) (rr_first_entry r) (rr_entry_count r) in
      fold_each entries found (fun found e =>
        let? hit := (if er_kind e =? ENTRY_KIND_FILE then test e else Ok false) in
        if hit then
          match found with
          | Some _ => Err DeserializeError
          | None => let? f := file_view v r e in Ok (Some f)
          end
        else Ok found)) in
  ok_or found FileNotFound.

Definition find_file_by_type (v : ManifestView) (t : FileType) : res ReaderError FileView :=
  find_file v (fun e => Ok (er_file_type e =? encode_file_type t)).

Definition find_file_by_name (v : ManifestView) (name : list Z) : res ReaderError FileView :=
  find_file v (fun e => let? s := string v (er_name e) in Ok (bytes_eqb s name)).

Definition raw_region (v : ManifestView) (name : list Z) : res ReaderError (option (Z * Z * Z)) :=
  fold_each (mv_regions v) None (fun found r =>
    let? s := string v (rr_name r) in
    if bytes_eqb s name then
      fail_if negb (bool_decide (found = None)) || negb (rr_kind r =? REGION_KIND_RAW) with DeserializeError;
      Ok (Some (rr_offset r, rr_size r, rr_fill r))
    else Ok found).

(** ** The owned tree *)

Definition digest_set (e : EntryRecord) : DigestSet := {|
  ds_sha256 := if negb (Z.land (er_digest_flags e) DIGEST_SHA256 =? 0) then Some (er_sha256 e) else None;
  ds_sha3_256 := if negb (Z.land (er_digest_flags e) DIGEST_SHA3_256 =? 0) then Some (er_sha3_256 e) else None |}.

Definition segment_to_owned (strings : list Z) (s : SegmentRecord) : res ReaderError Segment :=
  let? text := string_at strings (sr_name s) in
  let? name := hstring 32 text in
  let? kind := decode_segment_kind (sr_kind s) in
  let? compression := decode_compression (sr_compression s) in
  Ok {| sg_name := name; sg_kind := kind; sg_offset := sr_offset s; sg_stored_size := sr_stored_size s;
        sg_initialized_size := sr_initialized_size s; sg_stored_digest := sr_stored_digest s;
        sg_loaded_digest := sr_loaded_digest s; sg_loaded_size := sr_loaded_size s;
        sg_in_place_size := sr_in_place_size s; sg_load_addr := sr_load_addr s;
        sg_compression := compression; sg_flags := decode_segment_flags (sr_flags s) |}.

(** Collect into a [heapless::Vec] of the given capacity. *)
Definition collect {A B} (capacity : Z) (l : list A) (f : A -> res ReaderError B)
    : res ReaderError (list B) :=
  fold_each l [] (fun acc x => let? y := f x in push capacity DeserializeError acc y).

(** Capacities of the owned tree: regions, children of a container, segments of a file. *)
Definition MAX_IMAGE_REGIONS : Z := 8.
Definition MAX_CHILDREN : Z := 8.
Definition MAX_SEGMENTS : Z := 12.

Definition entry_to_owned (v : ManifestView) (e : EntryRecord) : res ReaderError RegionEntry :=
  let? text := string v (er_name e) in
  let? name := hstring 64 text in
  let? content :=
    (if er_kind e =? ENTRY_KIND_FILE then
       let? records := slice (mv_segments v) (er_first_segment e) (er_segment_count e) in
       let? segments := collect MAX_SEGMENTS records (segment_to_owned (mv_strings v)) in
       let? file_type := decode_file_type (er_file_type e) in
       Ok (File file_type segments (digest_set e))
     else if er_kind e =? ENTRY_KIND_RAW then Ok (RawEntry (er_fill e))
     else Err DeserializeError) in
  Ok {| en_name := name; en_offset := er_offset e; en_size := er_size e; en_content := content |}.

Definition region_to_owned (v : ManifestView) (r : RegionRecord) : res ReaderError ImageRegion :=
  let? text := string v (rr_name r) in
  let? name := hstring 64 text in
  let? content :=
    (if rr_kind r =? REGION_KIND_CONTAINER then
       let? records := slice (mv_entries v) (rr_first_entry r) (rr_entry_count r) in
       let? children := collect MAX_CHILDREN records (entry_to_owned v) in
       Ok (Container children)
     else if rr_kind r =? REGION_KIND_RAW then Ok (RawRegion (rr_fill r))
     else Err DeserializeError) in
  Ok {| im_name := name; im_offset := rr_offset r; im_size := rr_size r; im_content := content |}.

Definition to_owned_manifest (v : ManifestView) : res ReaderError ImageManifest :=
  let? regions := collect MAX_IMAGE_REGIONS (mv_regions v) (region_to_owned v) in
  Ok {| im_regions := regions |}.

(** ** The host encoder *)

Inductive EncodeError :=
| BadName | StringTableTooLarge | TooManyRegions | TooManyEntries | TooManySegments | ManifestTooLarge
| InvalidDirectory (e : ReaderError).

(** The vectors [encode_manifest] fills. *)
Record Encoder := {
  ec_regions : list RegionRecord; ec_entries : list EntryRecord; ec_segments : list SegmentRecord;
  ec_strings : list Z
}.

Definition push_string (s : list Z) : sres Encoder EncodeError Z := fun st =>
  if bytes_eqb s [] || existsb (fun b => b =? 0) s then (st, Err BadName)
  else
    let offset := zlen (ec_strings st) in
    ({| ec_regions := ec_regions st; ec_entries := ec_entries st; ec_segments := ec_segments st;
        ec_strings := ec_strings st ++ s ++ [0] |},
     ok_or (try_from u32_max offset) StringTableTooLarge).

Definition segment_record (name_offset : Z) (s : Segment) : SegmentRecord := {|
  sr_name := name_offset; sr_offset := sg_offset s; sr_stored_size := sg_stored_size s;
  sr_loaded_size := sg_loaded_size s; sr_in_place_size := sg_in_place_size s;
  sr_load_addr := sg_load_addr s; sr_kind := encode_segment_kind (sg_kind s);
  sr_compression := encode_compression (sg_compression s);
  sr_flags := encode_segment_flags (sg_flags s); sr_reserved := 0;
  sr_initialized_size := sg_initialized_size s; sr_stored_digest := sg_stored_digest s;
  sr_loaded_digest := sg_loaded_digest s |}.

Definition encode_segment (s : Segment) : sres Encoder EncodeError unit :=
  let! name_offset := push_string (sg_name s) in
  fun st =>
    ({| ec_regions := ec_regions st; ec_entries := ec_entries st;
        ec_segments := ec_segments st ++ [segment_record name_offset s]; ec_strings := ec_strings st |}, Ok tt).

(** [as u32] *)
Definition as_u32 (v : Z) : Z := v mod 2 ^ 32.

(** The record of an entry whose segments start at [first_segment]. *)
Definition entry_record (name_offset first_segment : Z) (e : RegionEntry) : EntryRecord :=
  match en_content e with
  | File file_type segments digests => {|
      er_name := name_offset; er_offset := en_offset e; er_size := en_size e;
      er_first_segment := first_segment; er_segment_count := as_u32 (zlen segments);
      er_file_type := encode_file_type file_type; er_kind := ENTRY_KIND_FILE; er_fill := 0;
      er_digest_flags :=
        Z.lor (if ds_sha256 digests then DIGEST_SHA256 else 0)
              (if ds_sha3_256 digests then DIGEST_SHA3_256 else 0);
      er_sha256 := default (zeros 32) (ds_sha256 digests);
      er_sha3_256 := default (zeros 32) (ds_sha3_256 digests) |}
  | RawEntry fill => {|
      er_name := name_offset; er_offset := en_offset e; er_size := en_size e;
      er_first_segment := first_segment; er_segment_count := 0; er_file_type := 0;
      er_kind := ENTRY_KIND_RAW; er_fill := fill; er_digest_flags := 0; er_sha256 := zeros 32;
      er_sha3_256 := zeros 32 |}
  end.

Definition entry_segments (e : RegionEntry) : list Segment :=
  match en_content e with File _ segments _ => segments | RawEntry _ => [] end.

Definition encode_entry (e : RegionEntry) : sres Encoder EncodeError unit :=
  let! name_offset := push_string (en_name e) in
  let! first_segment := fun st => (st, Ok (as_u32 (zlen (ec_segments st)))) in
  let! _ := sfor_each (entry_segments e) encode_segment in
  fun st =>
    ({| ec_regions := ec_regions st; ec_entries := ec_entries st ++ [entry_record name_offset first_segment e];
        ec_segments := ec_segments st; ec_strings := ec_strings st |}, Ok tt).

Definition region_children (r : ImageRegion) : list RegionEntry :=
  match im_content r with Container children => children | RawRegion _ => [] end.

Definition region_record (name_offset first_entry : Z) (r : ImageRegion) : RegionRecord :=
  let '(kind, fill, entry_count) :=
    match im_content r with
    | Container children => (REGION_KIND_CONTAINER, 0, as_u32 (zlen children))
    | RawRegion fill => (REGION_KIND_RAW, fill, 0)
    end in
  {| rr_name := name_offset; rr_offset := im_offset r; rr_size := im_size r;
     rr_first_entry := first_entry; rr_entry_count := entry_count; rr_kind := kind; rr_fill := fill;
     rr_reserved := [0; 0] |}.

Definition encode_region (r : ImageRegion) : sres Encoder EncodeError unit :=
  let! name_offset := push_string (im_name r) in
  let! first_entry := fun st => (st, Ok (as_u32 (zlen (ec_entries st)))) in
  let! _ := sfor_each (region_children r) encode_entry in
  fun st =>
    ({| ec_regions := ec_regions st ++ [region_record name_offset first_entry r]; ec_entries := ec_entries st;
        ec_segments := ec_segments st; ec_strings := ec_strings st |}, Ok tt).

Definition record_table {A} (pieces : A -> list (list Z)) (l : list A) : list Z :=
  concat (map (fun r => concat (pieces r)) l).

Definition encode_manifest (m : ImageManifest) : res EncodeError (list Z) :=
  match sfor_each (im_regions m) encode_region
          {| ec_regions := []; ec_entries := []; ec_segments := []; ec_strings := [] |} with
  | (st, Ok _) =>
      let string_table_offset := HEADER_BYTES + zlen (ec_regions st) * REGION_BYTES
        + zlen (ec_entries st) * ENTRY_BYTES + zlen (ec_segments st) * SEGMENT_BYTES in
      let? region_count := ok_or (try_from u32_max (zlen (ec_regions st))) TooManyRegions in
      let? entry_count := ok_or (try_from u32_max (zlen (ec_entries st))) TooManyEntries in
      let? segment_count := ok_or (try_from u32_max (zlen (ec_segments st))) TooManySegments in
      let? strings_offset := ok_or (try_from u32_max string_table_offset) ManifestTooLarge in
      let? strings_size := ok_or (try_from u32_max (zlen (ec_strings st))) StringTableTooLarge in
      let header := {|
        h_magic := MANIFEST_MAGIC; h_version := MANIFEST_VERSION; h_region_count := region_count;
        h_entry_count := entry_count; h_segment_count := segment_count;
        h_string_table_offset := strings_offset; h_string_table_size := strings_size |} in
      let out := concat (header_pieces_of header) ++ record_table region_pieces_of (ec_regions st)
        ++ record_table entry_pieces_of (ec_entries st) ++ record_table segment_pieces_of (ec_segments st)
        ++ ec_strings st in
      let? _ := map_err InvalidDirectory (manifest_parse out) in
      Ok out
  | (_, Err e) => Err e
  | (_, Panic) => Panic
  end.
End manifest.

(** A small image: one container with a stage of a code and a BSS segment, a
    raw hole, and a raw region. *)
Definition demo_manifest : ImageManifest := {| im_regions :=
  [{| im_name := [0x72; 0x6f]; im_offset := 0x1000; im_size := 0x8000; im_content := Container
      [{| en_name := [0x6d; 0x61; 0x69; 0x6e]; en_offset := 0x100; en_size := 0x200; en_content :=
          File StageCode
            [{| sg_name := [0x74]; sg_kind := Code; sg_offset := 0; sg_stored_size := 16;
                sg_initialized_size := 32; sg_stored_digest := replicate 32 7;
                sg_loaded_digest := replicate 32 9; sg_loaded_size := 40; sg_in_place_size := 48;
                sg_load_addr := 0x80000000; sg_compression := CompressionLz4;
                sg_flags := {| sf_execute := true; sf_write := false; sf_read := true |} |};
             {| sg_name := [0x62]; sg_kind := Bss; sg_offset := 16; sg_stored_size := 0;
                sg_initialized_size := 0; sg_stored_digest := zeros 32; sg_loaded_digest := zeros 32;
                sg_loaded_size := 64; sg_in_place_size := 0; sg_load_addr := 0x80001000;
                sg_compression := CompressionNone;
                sg_flags := {| sf_execute := false; sf_write := true; sf_read := true |} |}]
            {| ds_sha256 := Some (replicate 32 3); ds_sha3_256 := None |} |};
       {| en_name := [0x68]; en_offset := 0x300; en_size := 0x100; en_content := RawEntry 0xff |}] |};
   {| im_name := [0x6e; 0x76; 0x73]; im_offset := 0x9000; im_size := 0x1000; im_content := RawRegion 0xff |}] |}.

Definition demo_directory : list Z :=
  Eval vm_compute in match encode_manifest demo_manifest with Ok b => b | _ => [] end.

Example demo_encodes : encode_manifest demo_manifest = Ok demo_directory.
Proof. vm_compute. reflexivity. Qed.

Example demo_reads_back :
  (let? v := manifest_parse demo_directory in to_owned_manifest v) = Ok demo_manifest.
Proof. vm_compute. reflexivity. Qed.

(** ** What validation establishes *)

(** Records as the wire can carry them: every count, offset and size is a [u32]. *)
Record region_typed (r : RegionRecord) : Prop := {
  rt_offset : 0 <= rr_offset r <= u32_max; rt_size : 0 <= rr_size r <= u32_max;
  rt_first : 0 <= rr_first_entry r <= u32_max; rt_count : 0 <= rr_entry_count r <= u32_max
}.
Record entry_typed (e : EntryRecord) : Prop := {
  et_offset : 0 <= er_offset e <= u32_max; et_size : 0 <= er_size e <= u32_max;
  et_first : 0 <= er_first_segment e <= u32_max; et_count : 0 <= er_segment_count e <= u32_max
}.
Record segment_typed (s : SegmentRecord) : Prop := {
  st_offset : 0 <= sr_offset s <= u32_max; st_stored : 0 <= sr_stored_size s <= u32_max;
  st_loaded : 0 <= sr_loaded_size s <= u32_max; st_initialized : 0 <= sr_initialized_size s <= u32_max;
  st_load_addr : 0 <= sr_load_addr s <= u64_max;
  st_stored_digest : array_ok 32 (sr_stored_digest s); st_loaded_digest : array_ok 32 (sr_loaded_digest s)
}.

Record view_typed (v : ManifestView) : Prop := {
  vt_regions : Forall region_typed (mv_regions v);
  vt_entries : Forall entry_typed (mv_entries v);
  vt_segments : Forall segment_typed (mv_segments v)
}.

(** The entries of a container and the segments of a file. *)
Definition children (v : ManifestView) (r : RegionRecord) : list EntryRecord :=
  sub (mv_entries v) (rr_first_entry r) (rr_entry_count r).
Definition segments_of (v : ManifestView) (e : EntryRecord) : list SegmentRecord :=
  sub (mv_segments v) (er_first_segment e) (er_segment_count e).

(** The index range [first, first + count) of each owner holds child [i] once. *)
Definition owns_once {A} (l : list A) (owns : A -> bool) (first count : A -> Z) (i : Z) : Prop :=
  exists! k, exists x, l !! k = Some x /\ owns x = true /\ first x <= i < first x + count x.

(** A container's place in the image and its entries. *)
Record region_ok (v : ManifestView) (r : RegionRecord) : Prop := {
  ro_name : exists s, string v (rr_name r) = Ok s;
  ro_place : rr_offset r + rr_size r <= u32_max;
  ro_entries : is_container r = true -> rr_first_entry r + rr_entry_count r <= zlen (mv_entries v);
  ro_children : is_container r = true ->
    forall e, e ∈ children v r -> er_offset e + er_size e <= rr_size r;
  ro_distinct : is_container r = true ->
    forall i j e1 e2, children v r !! i = Some e1 -> children v r !! j = Some e2 ->
      string v (er_name e1) = string v (er_name e2) -> i = j
}.

Record file_ok (v : ManifestView) (e : EntryRecord) : Prop := {
  fo_name : exists s, string v (er_name e) = Ok s;
  fo_type : exists t, decode_file_type (er_file_type e) = Ok t;
  fo_bound : er_first_segment e + er_segment_count e <= zlen (mv_segments v);
  fo_segments : segments_of v e <> [];
  fo_data : forall s, s ∈ segments_of v e -> sr_offset s + sr_stored_size s <= er_size e;
  fo_digest : er_digest_flags e = DIGEST_SHA256
}.

Record segment_ok (v : ManifestView) (s : SegmentRecord) : Prop := {
  so_name : exists n, string v (sr_name s) = Ok n;
  so_memory : sr_load_addr s + sr_loaded_size s <= u64_max;
  so_initialized : sr_initialized_size s <= sr_loaded_size s;
  so_plain : sr_compression s = 0 -> sr_stored_size s = sr_initialized_size s;
  so_workspace : sr_compression s = 1 -> sr_initialized_size s + sr_stored_size s <= sr_in_place_size s
}.

Record view_ok (v : ManifestView) : Prop := {
  vo_typed : view_typed v;
  vo_regions : forall r, r ∈ mv_regions v -> region_ok v r;
  vo_files : forall e, e ∈ mv_entries v -> is_file e = true -> file_ok v e;
  vo_segments : forall s, s ∈ mv_segments v -> segment_ok v s;
  vo_region_names : forall i j r1 r2, mv_regions v !! i = Some r1 -> mv_regions v !! j = Some r2 ->
    string v (rr_name r1) = string v (rr_name r2) -> i = j;
  vo_entry_owner : forall i, 0 <= i < zlen (mv_entries v) ->
    owns_once (mv_regions v) is_container rr_first_entry rr_entry_count i;
  vo_segment_owner : forall i, 0 <= i < zlen (mv_segments v) ->
    owns_once (mv_entries v) is_file er_first_segment er_segment_count i
}.

(** ** Loops over tables *)

Lemma elem_of_enumerate {A} (l : list A) i x :
  (i, x) ∈ enumerate l <-> 0 <= i /\ l !! Z.to_nat i = Some x.
Proof.
  unfold enumerate. split.
  - intros [k Hk]%list_elem_of_lookup_1. rewrite lookup_zip_with in Hk.
    apply bind_Some in Hk as (z & Hz & Hk). apply bind_Some in Hk as (y & Hy & [= <- <-]).
    rewrite list_lookup_fmap in Hz. apply fmap_Some in Hz as (n & Hn & ->).
    apply lookup_seq in Hn as [-> _]. rewrite Nat2Z.id, Nat.add_0_l. split; [lia|done].
  - intros [H0 Hl]. apply (list_elem_of_lookup_2 _ (Z.to_nat i)). rewrite lookup_zip_with.
    pose proof (lookup_lt_Some _ _ _ Hl). rewrite list_lookup_fmap, lookup_seq_lt by done. cbn.
    rewrite Hl, Z2Nat.id by done. done.
Qed.

Lemma elem_of_indices {A} (l : list A) i : i ∈ indices l <-> 0 <= i < zlen l.
Proof.
  unfold indices, zlen. rewrite list_elem_of_fmap. setoid_rewrite elem_of_seq. split.
  - intros (n & -> & Hn). lia.
  - intros Hi. exists (Z.to_nat i). lia.
Qed.

(** What loops that ran to their end have checked. *)
Ltac loop_facts := repeat match goal with X : for_each _ _ = Ok _ |- _ => rewrite for_each_Ok in X end.

Section validate.
Context {T : Target}.

Lemma u32_usize : u32_max <= usize_max.
Proof. pose proof usize_max_bounds. lia. Qed.

Lemma checked_range_Ok len start count u :
  len <= usize_max -> checked_range len start count = Ok u <-> start + count <= len.
Proof.
  intros Hl. destruct u. unfold checked_range. rewrite rbind_Ok. setoid_rewrite ok_or_Ok.
  setoid_rewrite checked_add_Some. split.
  - intros (e & [-> _] & H). case_match; [by bool_hyp|done].
  - intros H. exists (start + count). split; [lia|]. by guard_true.
Qed.

Lemma checked_range_no_panic len start count : checked_range len start count <> Panic.
Proof. unfold checked_range. destruct (checked_add _ _ _); simpl; [|done]. by case_match. Qed.

Lemma slice_Ok {A} (l : list A) start count :
  0 <= start -> 0 <= count -> start + count <= zlen l -> zlen l <= usize_max ->
  slice l start count = Ok (sub l start count).
Proof.
  intros H0 H1 H2 H3. unfold slice, add_or_panic. rewrite checked_add_ok by lia. cbn [or_panic rbind].
  unfold get_range. guard_true. cbn [or_panic]. do 2 f_equal. lia.
Qed.

Lemma string_no_panic v off : string v off <> Panic.
Proof.
  unfold string, string_at. destruct (get_range _ _ _); simpl; [|done].
  destruct (until_nul _); simpl; [|done]. by case_match.
Qed.

Lemma check_distinct_Ok v a b u :
  check_distinct v a b = Ok u ->
  exists s1 s2, string v a = Ok s1 /\ string v b = Ok s2 /\ s1 <> s2.
Proof.
  unfold check_distinct. intros H. rust_step H. rust_step H. rust_step H.
  apply bytes_eqb_false in Hb. eauto.
Qed.

Lemma check_distinct_no_panic v a b : check_distinct v a b <> Panic.
Proof.
  unfold check_distinct. intros H. repeat panic_step H; by eapply string_no_panic.
Qed.

(** Pairwise distinct names, from the loops that compare each with the ones before it. *)
Lemma distinct_names {A} v (name : A -> Z) (l : list A) :
  (forall i x, l !! i = Some x -> forall y, y ∈ take i l -> check_distinct v (name y) (name x) = Ok tt) ->
  forall i j x y, l !! i = Some x -> l !! j = Some y ->
    string v (name x) = string v (name y) -> i = j.
Proof.
  intros H i j x y Hi Hj Hs. destruct (decide (i = j)) as [|Hne]; [done|]. exfalso.
  assert (Hlt : forall i j x y, (i < j)%nat -> l !! i = Some x -> l !! j = Some y ->
                string v (name x) <> string v (name y)).
  { clear -H. intros i j x y Hij Hi Hj. destruct (check_distinct_Ok v (name x) (name y) tt) as (s1 & s2 & -> & -> & Hn).
    - apply (H j y Hj). apply (list_elem_of_lookup_2 _ i). by rewrite lookup_take_lt.
    - congruence. }
  destruct (Nat.lt_total i j) as [Hl|[?|Hl]]; [eapply Hlt; eauto|done|].
  symmetry in Hs. eapply Hlt; eauto.
Qed.

(** ** Owners *)

Definition claims {A} (owns : A -> bool) (first count : A -> Z) (i : Z) (x : A) : bool :=
  owns x && (first x <=? i) && (i <? first x + count x).

Lemma count_owners_from {A} (l : list A) owns first count i n :
  (forall x, x ∈ l -> owns x = true -> first x + count x <= usize_max) ->
  fold_each l n (fun n x =>
    if owns x && (first x <=? i) then
      let? end_ := add_or_panic usize_max (first x) (count x) in
      Ok (if i <? end_ then n + 1 else n)
    else Ok n) = @Ok ReaderError Z (n + zlen (filter (fun x => claims owns first count i x = true) l)).
Proof.
  revert n. induction l as [|x l IH]; intros n Hl; cbn [fold_each].
  { by rewrite Z.add_0_r. }
  setoid_rewrite elem_of_cons in Hl. rewrite filter_cons.
  case_decide as Hc; unfold claims in Hc.
  - apply andb_true_iff in Hc as [Hc Hi]. rewrite Hc. apply andb_true_iff in Hc as [Ho _].
    unfold add_or_panic. rewrite checked_add_ok by auto. cbn [or_panic rbind]. rewrite Hi, IH by auto.
    f_equal. rewrite zlen_cons. lia.
  - destruct (owns x && (first x <=? i)) eqn:Hb; cbn [andb] in Hc.
    + pose proof Hb as [Ho _]%andb_true_iff. apply not_true_iff_false in Hc.
      unfold add_or_panic. rewrite checked_add_ok by auto. cbn [or_panic rbind]. rewrite Hc. apply IH. auto.
    + cbn [rbind]. apply IH. auto.
Qed.

Lemma filter_one_unique {A} (P : A -> bool) (l : list A) :
  zlen (filter (fun x => P x = true) l) = 1 -> exists! k, exists x, l !! k = Some x /\ P x = true.
Proof.
  induction l as [|x l IH]; [done|]. rewrite filter_cons. case_decide as Hx.
  - intros H. assert (Hnil : filter (fun x => P x = true) l = []).
    { rewrite zlen_cons in H. destruct (filter _ l) as [|y k]; [done|]. rewrite zlen_cons in H.
      pose proof (zlen_nonneg k). lia. }
    exists 0%nat. split; [eauto|]. intros [|k] (y & Hy & Hp); [done|]. exfalso. simpl in Hy.
    apply (elem_of_nil y). rewrite <- Hnil. apply list_elem_of_filter. split; [done|].
    by eapply list_elem_of_lookup_2.
  - intros H. destruct (IH H) as (k & (y & Hy & Hp) & Huniq). exists (S k). split; [eauto|].
    intros [|j] (z & Hz & Hp'); simpl in Hz; [simplify_eq|]. f_equal. apply Huniq. eauto.
Qed.

Lemma check_one_owner_Ok {A} (l : list A) owns first count i u :
  (forall x, x ∈ l -> owns x = true -> first x + count x <= usize_max) ->
  check_one_owner l owns first count i = Ok u -> owns_once l owns first count i.
Proof.
  intros Hl. unfold check_one_owner, count_owners. rewrite count_owners_from by done. cbn [rbind].
  rewrite Z.add_0_l. intros H. rust_step H. bool_hyp.
  destruct (filter_one_unique _ _ Hb) as (k & (x & Hx & Hc) & Huniq). unfold owns_once.
  assert (Hiff : forall y, claims owns first count i y = true <-> owns y = true /\ first y <= i < first y + count y).
  { intros y. unfold claims. rewrite !andb_true_iff, Z.leb_le, Z.ltb_lt. tauto. }
  exists k. split.
  - exists x. split; [done|]. by apply Hiff.
  - intros j (y & Hy & Hc'). apply Huniq. exists y. split; [done|]. by apply Hiff.
Qed.

Lemma check_one_owner_no_panic {A} (l : list A) owns first count i :
  (forall x, x ∈ l -> owns x = true -> first x + count x <= usize_max) ->
  check_one_owner l owns first count i <> Panic.
Proof.
  intros Hl. unfold check_one_owner, count_owners. rewrite count_owners_from by done. cbn [rbind].
  by case_match.
Qed.

(** ** The records *)

Section records.
Context (v : ManifestView).
Hypothesis Htyped : view_typed v.
Hypothesis Hentries : zlen (mv_entries v) <= usize_max.
Hypothesis Hsegments : zlen (mv_segments v) <= usize_max.

Lemma region_in_typed r : r ∈ mv_regions v -> region_typed r.
Proof. intros. eapply list.Forall_forall; [apply Htyped|done]. Qed.
Lemma entry_in_typed e : e ∈ mv_entries v -> entry_typed e.
Proof. intros. eapply list.Forall_forall; [apply Htyped|done]. Qed.
Lemma segment_in_typed s : s ∈ mv_segments v -> segment_typed s.
Proof. intros. eapply list.Forall_forall; [apply Htyped|done]. Qed.

(** The first two loops. *)
Definition kinds_ok : Prop :=
  (forall r, r ∈ mv_regions v -> check_region_kind v r = Ok tt) /\
  (forall e, e ∈ mv_entries v -> check_entry_kind v e = Ok tt).

Lemma region_kind_facts r :
  check_region_kind v r = Ok tt ->
  (exists s, string v (rr_name r) = Ok s) /\
  (is_container r = true -> rr_first_entry r + rr_entry_count r <= zlen (mv_entries v)).
Proof.
  unfold check_region_kind, is_container. intros H. rust_step H. split; [eauto|].
  intros Hc. rewrite Hc in H. by apply checked_range_Ok in H.
Qed.

Lemma entry_kind_facts e :
  check_entry_kind v e = Ok tt ->
  (exists s, string v (er_name e) = Ok s) /\
  (is_file e = true -> (exists t, decode_file_type (er_file_type e) = Ok t) /\
   er_first_segment e + er_segment_count e <= zlen (mv_segments v)).
Proof.
  unfold check_entry_kind, is_file. intros H. rust_step H. split; [eauto|].
  intros Hc. rewrite Hc in H. rust_step H. split; [eauto|]. by apply checked_range_Ok in H.
Qed.

Lemma slice_children r :
  r ∈ mv_regions v -> kinds_ok -> is_container r = true ->
  slice (mv_entries v) (rr_first_entry r) (rr_entry_count r) = Ok (children v r).
Proof.
  intros Hin [Hk _] Hc. destruct (region_in_typed r Hin). destruct (region_kind_facts r) as [_ Hb]; [auto|].
  apply slice_Ok; [lia | lia | auto | done].
Qed.

Lemma slice_segments e :
  e ∈ mv_entries v -> kinds_ok -> is_file e = true ->
  slice (mv_segments v) (er_first_segment e) (er_segment_count e) = Ok (segments_of v e).
Proof.
  intros Hin [_ Hk] Hc. destruct (entry_in_typed e Hin). destruct (entry_kind_facts e) as [_ Hb]; [auto|].
  apply slice_Ok; [lia | lia | by apply Hb | done].
Qed.

Lemma sub_elem {A} (l : list A) a n x : x ∈ sub l a n -> x ∈ l.
Proof.
  intros [i Hi]%list_elem_of_lookup_1. rewrite lookup_sub in Hi. case_decide; [|done].
  by eapply list_elem_of_lookup_2.
Qed.

Lemma check_region_facts i r :
  kinds_ok -> mv_regions v !! i = Some r -> check_region v (Z.of_nat i, r) = Ok tt ->
  region_ok v r /\
  (forall p, p ∈ take i (mv_regions v) -> check_distinct v (rr_name p) (rr_name r) = Ok tt).
Proof.
  intros Hk Hi H. pose proof (list_elem_of_lookup_2 _ _ _ Hi) as Hin.
  destruct (region_in_typed r Hin) as [? [? Hsz] ? ?].
  destruct (region_kind_facts r) as [Hname Hb]; [by apply Hk|].
  unfold check_region in H. rust_step H. bool_hyp. rust_step H. destruct a.
  rewrite for_each_Ok in Ha. rewrite Nat2Z.id in Ha. split; [|done].
  assert (Hplace : rr_offset r + rr_size r <= u32_max).
  { destruct (checked_add u32_max _ _) eqn:E; [|done]. apply checked_add_Some in E. lia. }
  destruct (rr_kind r =? REGION_KIND_CONTAINER) eqn:Hc.
  2:{ constructor; try done; unfold is_container; rewrite Hc; done. }
  rewrite (slice_children r Hin Hk Hc) in H. cbn [rbind] in H. rewrite for_each_Ok in H.
  assert (Hch : forall j e, children v r !! j = Some e -> check_child v r (children v r) (Z.of_nat j, e) = Ok tt).
  { intros j e Hj. apply H. apply elem_of_enumerate. rewrite Nat2Z.id. split; [lia|done]. }
  constructor; try done; intros _.
  - intros e [j Hj]%list_elem_of_lookup_1. specialize (Hch j e Hj). unfold check_child in Hch.
  rust_step Hch. apply checked_range_Ok in Hch; [done|]. pose proof u32_usize. lia.
  - apply distinct_names. intros j e Hj y Hy. specialize (Hch j e Hj). unfold check_child in Hch.
  rust_step Hch. destruct a. rewrite for_each_Ok, Nat2Z.id in Ha0. auto.
Qed.

Lemma check_entry_facts e :
  kinds_ok -> e ∈ mv_entries v -> check_entry v e = Ok tt -> is_file e = true -> file_ok v e.
Proof.
  intros Hk Hin H Hf. destruct (entry_in_typed e Hin) as [? [? ?] ? ?].
  destruct (entry_kind_facts e) as [Hn Hb]; [by apply Hk|]. destruct (Hb Hf) as [Ht Hbound].
  pose proof (slice_segments e Hin Hk Hf) as Hsl.
  unfold check_entry in H. unfold is_file in Hf. rewrite Hf in H. cbn [negb] in H. rust_step H. bool_hyp.
  rewrite Hsl in H. cbn [rbind] in H. rewrite for_each_Ok in H.
  constructor; try done.
  - intros Hnil. apply (f_equal zlen) in Hnil. unfold segments_of in Hnil.
  rewrite zlen_sub in Hnil by lia. change (zlen (@nil SegmentRecord)) with 0 in Hnil. lia.
  - intros s Hs. specialize (H s Hs). apply checked_range_Ok in H; [done|]. pose proof u32_usize. lia.
Qed.

Lemma check_segment_facts s :
  s ∈ mv_segments v -> check_segment v s = Ok tt -> segment_ok v s.
Proof.
  intros Hin H. destruct (segment_in_typed s Hin) as [? [? ?] ? [? ?] ?]. unfold check_segment in H.
  rust_step H. rust_step H. rust_step H. rust_step H. bool_hyp. rust_step H. rust_step H. rename a1 into c.
  assert (Hc : sr_compression s = encode_compression c).
  { unfold decode_compression in Ha1. repeat rust_step Ha1; injection Ha1 as <-; by apply Z.eqb_eq. }
  constructor; [eauto | | lia | |].
  - destruct (checked_add u64_max _ _) eqn:E; [|done]. apply checked_add_Some in E. lia.
  - intros Hp. assert (c = CompressionNone) as -> by (destruct c; [done | rewrite Hc in Hp; done]).
  destruct (Z.eqb_spec (sr_stored_size s) 0).
  + rust_step H. bool_hyp. lia.
  + rewrite (bool_decide_true (CompressionNone = CompressionNone)) in H by done. cbn [andb] in H.
    rust_step H. rust_step H. bool_hyp. done.
  - intros Hp. assert (c = CompressionLz4) as -> by (destruct c; [rewrite Hc in Hp; done | done]).
  rewrite bool_decide_true in Ha2 by done. rust_step Ha2. rust_step Ha2. bool_hyp. rewrite ok_or_Ok, checked_add_Some in Ha3. lia.
Qed.

Lemma containers_fit : kinds_ok ->
  forall r, r ∈ mv_regions v -> is_container r = true -> rr_first_entry r + rr_entry_count r <= usize_max.
Proof. intros Hk r Hr Hc. destruct (region_kind_facts r) as [_ Hb]; [by apply Hk|]. specialize (Hb Hc). lia. Qed.

Lemma files_fit : kinds_ok ->
  forall e, e ∈ mv_entries v -> is_file e = true -> er_first_segment e + er_segment_count e <= usize_max.
Proof.
  intros Hk e He Hf. destruct (entry_kind_facts e) as [_ Hb]; [by apply Hk|]. destruct (Hb Hf). lia.
Qed.

Lemma manifest_validate_Ok u : manifest_validate v = Ok u -> view_ok v.
Proof.
  unfold manifest_validate. intros H. do 6 rust_step H.
  loop_facts. assert (Hk : kinds_ok) by (split; assumption).
  assert (Hr : forall i r, mv_regions v !! i = Some r -> region_ok v r /\
  (forall p, p ∈ take i (mv_regions v) -> check_distinct v (rr_name p) (rr_name r) = Ok tt)).
  { intros i r Hi. apply check_region_facts; [done..|]. apply Ha1. apply elem_of_enumerate.
  rewrite Nat2Z.id. split; [lia|done]. }
  constructor; [done| | | | | |].
  - intros r [i Hi]%list_elem_of_lookup_1. by apply (Hr i).
  - intros e He Hf. apply check_entry_facts; auto.
  - intros s Hs. apply check_segment_facts; auto.
  - apply distinct_names. intros i r Hi. by apply Hr.
  - intros i Hi. eapply check_one_owner_Ok; [by apply containers_fit|]. apply Ha3. by apply elem_of_indices.
  - intros i Hi. eapply check_one_owner_Ok; [by apply files_fit|]. apply Ha4. by apply elem_of_indices.
Qed.

Lemma check_region_no_panic i r :
  kinds_ok -> r ∈ mv_regions v -> check_region v (i, r) <> Panic.
Proof.
  intros Hk Hr H. unfold check_region in H. panic_step H. panic_step H.
  { apply for_each_no_panic in H; [done|]. intros x _. apply check_distinct_no_panic. }
  panic_step H. change (is_container r = true) in Hb0. rewrite slice_children in H by done.
  cbn [rbind] in H. apply for_each_no_panic in H; [done|]. intros [j e] _ Hc. unfold check_child in Hc.
  panic_step Hc; [|by apply checked_range_no_panic in Hc].
  apply for_each_no_panic in Hc; [done|]. intros x _. apply check_distinct_no_panic.
Qed.

Lemma decode_no_panic x : decode_file_type x <> Panic /\ decode_segment_kind x <> Panic /\ decode_compression x <> Panic.
Proof. unfold decode_file_type, decode_segment_kind, decode_compression. split_and!; by repeat case_match. Qed.

Lemma manifest_validate_no_panic : manifest_validate v <> Panic.
Proof.
  unfold manifest_validate. intros H. panic_step H.
  { apply for_each_no_panic in H; [done|]. intros r _ Hr. unfold check_region_kind in Hr.
  panic_step Hr; [by apply string_no_panic in Hr|]. repeat panic_step Hr. by apply checked_range_no_panic in Hr. }
  panic_step H.
  { apply for_each_no_panic in H; [done|]. intros e _ He. unfold check_entry_kind in He.
  panic_step He; [by apply string_no_panic in He|]. repeat panic_step He;
    [by apply decode_no_panic in He | by apply checked_range_no_panic in He]. }
  loop_facts.
  assert (Hk : kinds_ok) by (split; assumption). panic_step H.
  { apply for_each_no_panic in H; [done|]. intros [i r] [_ Hi]%elem_of_enumerate.
  apply check_region_no_panic; [done|]. by eapply list_elem_of_lookup_2. }
  panic_step H.
  { apply for_each_no_panic in H; [done|]. intros e He Hp. unfold check_entry in Hp. panic_step Hp.
  panic_step Hp. apply negb_false_iff in Hb. rewrite slice_segments in Hp by done. cbn [rbind] in Hp.
  apply for_each_no_panic in Hp; [done|]. intros s _. apply checked_range_no_panic. }
  panic_step H.
  { apply for_each_no_panic in H; [done|]. intros i _. apply check_one_owner_no_panic. by apply containers_fit. }
  panic_step H.
  { apply for_each_no_panic in H; [done|]. intros i _. apply check_one_owner_no_panic. by apply files_fit. }
  apply for_each_no_panic in H; [done|]. intros s _ Hs. unfold check_segment in Hs.
  panic_step Hs; [by apply string_no_panic in Hs|].
  panic_step Hs; [by apply decode_no_panic in Hs|].
  panic_step Hs; [by apply decode_no_panic in Hs|]. repeat panic_step Hs.
Qed.
End records.
End validate.

(** ** Parsing *)

Section parse.
Context {T : Target}.

Lemma u32_at_typed b off : bytes_ok b -> 0 <= off -> off + 4 <= zlen b -> 0 <= u32_at b off <= u32_max.
Proof. intros Hb H0 H1. pose proof (le_at_bound b off 4 Hb H0 ltac:(lia) H1). unfold u32_at, u32_max. lia. Qed.

Lemma read_region_typed b : zlen b = REGION_BYTES /\ bytes_ok b -> region_typed (read_region_record b).
Proof. unfold REGION_BYTES. intros [Hz Hb]. constructor; apply u32_at_typed; (done || lia). Qed.
Lemma read_entry_typed b : zlen b = ENTRY_BYTES /\ bytes_ok b -> entry_typed (read_entry_record b).
Proof. unfold ENTRY_BYTES. intros [Hz Hb]. constructor; apply u32_at_typed; (done || lia). Qed.
Lemma read_segment_typed b : zlen b = SEGMENT_BYTES /\ bytes_ok b -> segment_typed (read_segment_record b).
Proof.
  unfold SEGMENT_BYTES. intros [Hz Hb]. constructor; try (apply u32_at_typed; (done || lia));
    try (apply sub_array_ok; (done || lia)).
  pose proof (le_at_bound b 20 8 Hb). unfold read_segment_record, u64_at, u64_max. cbn [sr_load_addr]. lia.
Qed.

Lemma table_typed {A} size n bytes k (read : list Z -> A) (P : A -> Prop) :
  (forall b, zlen b = size /\ bytes_ok b -> P (read b)) ->
  0 <= size -> 0 <= n -> n * size <= zlen bytes -> bytes_ok bytes -> k = Z.to_nat n ->
  Forall P (map read (split_records size k bytes)).
Proof.
  intros HP Hs Hn Hl Hb ->. apply list.Forall_fmap. eapply Forall_impl; [exact HP|].
  apply split_records_len; [done | lia | done].
Qed.

Lemma zlen_table {A} size n bytes (read : list Z -> A) :
  0 <= n -> zlen (map read (split_records size (Z.to_nat n) bytes)) = n.
Proof. intros. unfold zlen. rewrite length_map, length_split_records. lia. Qed.

(** The tables a directory header promises are there. *)
Lemma manifest_parse_view bytes v r :
  bytes_ok bytes -> manifest_parse bytes = r -> r = Ok v \/ r = Panic ->
  exists w, view_typed w /\ zlen (mv_entries w) <= usize_max /\ zlen (mv_segments w) <= usize_max /\
    (let? _ := manifest_validate w in Ok w) = r.
Proof.
  intros Hb H Hr. unfold manifest_parse in H. set (h := read_manifest_header bytes) in H.
  destruct (Z.ltb_spec (zlen bytes) HEADER_BYTES) as [|Hlen]; [destruct Hr; congruence|].
  unfold HEADER_BYTES, REGION_BYTES, ENTRY_BYTES, SEGMENT_BYTES in *.
  assert (Hu : forall off, 0 <= off -> off + 4 <= 28 -> 0 <= u32_at bytes off <= u32_max)
    by (intros; apply u32_at_typed; (done || lia)).
  pose proof (Hu 8) as Hrc. pose proof (Hu 12) as Hec. pose proof (Hu 16) as Hsc. pose proof (Hu 20). pose proof (Hu 24).
  change (u32_at bytes 8) with (h_region_count h) in Hrc. change (u32_at bytes 12) with (h_entry_count h) in Hec.
  change (u32_at bytes 16) with (h_segment_count h) in Hsc. pose proof u32_usize.
  destruct (_ || _) in H; [destruct Hr; congruence|].
  assert (Hstep : forall {A} (o : option A) e (k : A -> res ReaderError ManifestView),
    rbind (ok_or o e) k = r -> exists a, o = Some a /\ k a = r).
  { intros A o e k Hk. destruct o as [a|]; simpl in Hk; [eauto|]. destruct Hr; congruence. }
  apply Hstep in H as (rs & [-> _]%checked_mul_Some & H). apply Hstep in H as (eo & [-> _]%checked_add_Some & H).
  apply Hstep in H as (es & [-> _]%checked_mul_Some & H). apply Hstep in H as (so & [-> _]%checked_add_Some & H).
  apply Hstep in H as (ss & [-> _]%checked_mul_Some & H). apply Hstep in H as (ex & [-> _]%checked_add_Some & H).
  destruct (negb _) in H; [destruct Hr; congruence|].
  apply Hstep in H as (se & [-> _]%checked_add_Some & H). destruct (negb _) in H; [destruct Hr; congruence|].
  apply Hstep in H as (rb & (Ra1 & Rb1 & ->)%get_range_Some & H).
  apply Hstep in H as (eb & (Ra2 & Rb2 & ->)%get_range_Some & H).
  apply Hstep in H as (sb & (Ra3 & Rb3 & ->)%get_range_Some & H).
  apply Hstep in H as (st & _ & H). eexists. split_and!; [| | |exact H].
  - constructor; (eapply table_typed; [auto using read_region_typed, read_entry_typed, read_segment_typed
      | lia | | | by apply bytes_ok_sub | done]); rewrite ?zlen_sub; lia.
  - cbn [mv_entries]. rewrite zlen_table by lia. lia.
  - cbn [mv_segments]. rewrite zlen_table by lia. lia.
Qed.

Lemma manifest_parse_ok bytes v :
  bytes_ok bytes -> manifest_parse bytes = Ok v ->
  view_ok v /\ zlen (mv_entries v) <= usize_max /\ zlen (mv_segments v) <= usize_max.
Proof.
  intros Hb H. destruct (manifest_parse_view bytes v (Ok v) Hb H (or_introl eq_refl))
    as (w & Ht & He & Hs & Hv). rust_step Hv. injection Hv as <-.
  split; [|done]. by eapply manifest_validate_Ok.
Qed.
End parse.

(** ** Lookups *)

(** The files of the directory, each with its region. *)
Definition files (v : ManifestView) : list (RegionRecord * EntryRecord) :=
  concat (map (fun r =>
    if is_container r then map (pair r) (filter (fun e => is_file e = true) (children v r)) else [])
    (mv_regions v)).

Definition view_of (v : ManifestView) (r : RegionRecord) (e : EntryRecord) : FileView := {|
  fv_entry := e; fv_region_offset := rr_offset r; fv_segments := segments_of v e;
  fv_strings := mv_strings v |}.

(** What a search that has [found] something returns when [hits] are left. *)
Definition outcome (v : ManifestView) (found : option FileView) (hits : list (RegionRecord * EntryRecord))
    : res ReaderError (option FileView) :=
  match found, hits with
  | _, [] => Ok found
  | None, [(r, e)] => Ok (Some (view_of v r e))
  | _, _ => Err DeserializeError
  end.

Lemma outcome_cons v found h hits :
  outcome v found (h :: hits) = (let? f := outcome v found [h] in outcome v f hits).
Proof. destruct found, h as [r e], hits; done. Qed.

Lemma outcome_app v found h1 h2 :
  outcome v found (h1 ++ h2) = (let? f := outcome v found h1 in outcome v f h2).
Proof.
  revert found. induction h1 as [|h h1 IH]; intros found; [by destruct found|].
  cbn [app]. rewrite outcome_cons, (outcome_cons v found h h1).
  destruct (outcome v found [h]); [apply IH | done..].
Qed.

Section lookup.
Context {T : Target} (v : ManifestView).
Hypothesis Hok : view_ok v.
Hypothesis Hentries : zlen (mv_entries v) <= usize_max.
Hypothesis Hsegments : zlen (mv_segments v) <= usize_max.

Lemma slice_children_ok r :
  r ∈ mv_regions v -> is_container r = true ->
  slice (mv_entries v) (rr_first_entry r) (rr_entry_count r) = Ok (children v r).
Proof.
  intros Hin Hc. destruct (region_in_typed v (vo_typed _ Hok) r Hin).
  apply slice_Ok; [lia | lia | by apply (ro_entries v r (vo_regions _ Hok r Hin)) | done].
Qed.

Lemma file_view_ok r e : e ∈ mv_entries v -> is_file e = true -> file_view v r e = Ok (view_of v r e).
Proof.
  intros He Hf. destruct (entry_in_typed v (vo_typed _ Hok) e He).
  pose proof (fo_bound _ _ (vo_files _ Hok e He Hf)) as Hb. unfold file_view.
  rewrite (proj2 (checked_range_Ok _ _ _ tt Hsegments)) by done. cbn [rbind].
  rewrite slice_Ok by (done || lia). done.
Qed.

Lemma find_file_outcome test (t : EntryRecord -> bool) :
  (forall e, e ∈ mv_entries v -> is_file e = true -> test e = Ok (t e)) ->
  find_file v test =
    (let? found := outcome v None (filter (fun p => t p.2 = true) (files v)) in ok_or found FileNotFound).
Proof.
  intros Ht. unfold find_file, files.
  assert (Hgo : forall l found, (forall r, r ∈ l -> r ∈ mv_regions v) ->
    fold_each l found (fun found r =>
      if negb (rr_kind r =? REGION_KIND_CONTAINER) then Ok found
      else
        let? entries := slice (mv_entries v) (rr_first_entry r) (rr_entry_count r) in
        fold_each entries found (fun found e =>
          let? hit := (if er_kind e =? ENTRY_KIND_FILE then test e else Ok false) in
          if hit then
            match found with
            | Some _ => Err DeserializeError
            | None => let? f := file_view v r e in Ok (Some f)
            end
          else Ok found)) =
    outcome v found (filter (fun p => t p.2 = true) (concat (map (fun r =>
      if is_container r then map (pair r) (filter (fun e => is_file e = true) (children v r)) else []) l)))).
  2:{ rewrite Hgo by done. done. }
  induction l as [|r l IH]; intros found Hl; cbn [fold_each map concat]; [by destruct found|].
  setoid_rewrite elem_of_cons in Hl. rewrite list.filter_app, outcome_app.
  change (rr_kind r =? REGION_KIND_CONTAINER) with (is_container r).
  destruct (is_container r) eqn:Hc; cbn [negb].
  2:{ cbn [rbind]. rewrite IH by auto. destruct found; done. }
  rewrite slice_children_ok by auto. cbn [rbind].
  assert (Hinner : forall es found, (forall e, e ∈ es -> e ∈ mv_entries v) ->
    fold_each es found (fun found e =>
      let? hit := (if er_kind e =? ENTRY_KIND_FILE then test e else Ok false) in
      if hit then
        match found with
        | Some _ => Err DeserializeError
        | None => let? f := file_view v r e in Ok (Some f)
        end
      else Ok found) =
    outcome v found (filter (fun p => t p.2 = true) (map (pair r) (filter (fun e => is_file e = true) es)))).
  { clear IH found. induction es as [|e es IH]; intros found Hes; cbn [fold_each]; [by destruct found|].
    setoid_rewrite elem_of_cons in Hes. change (er_kind e =? ENTRY_KIND_FILE) with (is_file e).
    rewrite filter_cons. destruct (is_file e) eqn:Hf; cbn [rbind].
    2:{ rewrite decide_False by done. apply IH. auto. }
    rewrite decide_True by done. rewrite Ht by auto. cbn [map rbind]. rewrite filter_cons. cbn [snd].
    destruct (t e) eqn:He.
    - rewrite decide_True by done. rewrite outcome_cons. destruct found; [done|].
      rewrite file_view_ok by auto. cbn [rbind outcome]. apply IH. auto.
    - rewrite decide_False by done. cbn [rbind]. apply IH. auto. }
  rewrite Hinner.
  2:{ intros e He. by eapply sub_elem. }
  destruct (outcome v found _); cbn [rbind]; [apply IH; auto | done..].
Qed.

(** Where a file's entry comes from. *)
Lemma elem_of_files r e :
  (r, e) ∈ files v <-> r ∈ mv_regions v /\ is_container r = true /\ e ∈ children v r /\ is_file e = true.
Proof.
  unfold files. rewrite list_elem_of_In, in_concat. setoid_rewrite in_map_iff. setoid_rewrite <- list_elem_of_In.
  split.
  - intros (x & (r' & <- & Hr) & Hx). destruct (is_container r') eqn:Hc; [|by apply elem_of_nil in Hx].
    apply list_elem_of_fmap in Hx as (e' & [= <- <-] & Hx). apply list_elem_of_filter in Hx as [? ?]. done.
  - intros (Hr & Hc & He & Hf). eexists. split; [exists r; split; [done|done]|]. rewrite Hc.
    apply list_elem_of_fmap. exists e. split; [done|]. by apply list_elem_of_filter.
Qed.
End lookup.

(** ** What the encoder writes *)

(** [name] is in the string table at [off], with its NUL. *)
Definition has_string (strings : list Z) (off : Z) (name : list Z) : Prop :=
  exists pre post, strings = pre ++ name ++ 0 :: post /\ off = zlen pre /\ Forall (fun b => b <> 0) name.

Lemma until_nul_app name post :
  Forall (fun b => b <> 0) name -> until_nul (name ++ 0 :: post) = Some name.
Proof.
  induction 1 as [|b name Hb _ IH]; [done|]. cbn [app until_nul]. rewrite (proj2 (Z.eqb_neq _ _) Hb), IH. done.
Qed.

Lemma has_string_at strings off name :
  has_string strings off name -> valid_utf8 name = true -> string_at strings off = Ok name.
Proof.
  intros (pre & post & -> & -> & Hn) Hu. unfold string_at, get_range.
  pose proof (zlen_nonneg pre). rewrite zlen_app. pose proof (zlen_nonneg (name ++ 0 :: post)). guard_true.
  cbn [ok_or rbind]. rewrite sub_app_r, Z.sub_diag by lia.
  replace (zlen pre + zlen (name ++ 0 :: post) - zlen pre) with (zlen (name ++ 0 :: post)) by lia.
  rewrite sub_all, until_nul_app by done. cbn [ok_or rbind]. by rewrite Hu.
Qed.

Lemma has_string_app strings ext off name : has_string strings off name -> has_string (strings ++ ext) off name.
Proof.
  intros (pre & post & -> & -> & Hn). exists pre, (post ++ ext). split; [|done].
  by rewrite <- app_assoc, <- app_assoc.
Qed.

Lemma push_string_Ok name st st' off :
  push_string name st = (st', Ok off) ->
  st' = {| ec_regions := ec_regions st; ec_entries := ec_entries st; ec_segments := ec_segments st;
           ec_strings := ec_strings st ++ name ++ [0] |} /\
  has_string (ec_strings st') off name /\ 0 <= off <= u32_max.
Proof.
  unfold push_string. destruct (_ || _) eqn:Hb; [done|]. intros H. injection H as <- Ho.
  rewrite ok_or_Ok, try_from_Some in Ho. destruct Ho as [-> Ho]. split; [done|]. cbn [ec_strings].
  pose proof (zlen_nonneg (ec_strings st)). split; [|lia].
  exists (ec_strings st), []. split; [done|]. split; [done|].
  apply orb_false_iff in Hb as [_ Hb]. apply list.Forall_forall. intros b Hin ->.
  apply not_true_iff_false in Hb. apply Hb, existsb_exists. exists 0. split; [by apply list_elem_of_In|done].
Qed.

(** The tables grow at the end. *)
Record grows (st st' : Encoder) (es : list EntryRecord) (ss : list SegmentRecord) : Prop := {
  gr_regions : ec_regions st' = ec_regions st;
  gr_entries : ec_entries st' = ec_entries st ++ es;
  gr_segments : ec_segments st' = ec_segments st ++ ss;
  gr_strings : exists x, ec_strings st' = ec_strings st ++ x
}.

Lemma grows_trans s1 s2 s3 es1 es2 ss1 ss2 :
  grows s1 s2 es1 ss1 -> grows s2 s3 es2 ss2 -> grows s1 s3 (es1 ++ es2) (ss1 ++ ss2).
Proof.
  intros [R1 E1 S1 [x1 X1]] [R2 E2 S2 [x2 X2]]. constructor; [congruence| | |].
  - by rewrite E2, E1, app_assoc. - by rewrite S2, S1, app_assoc.
  - exists (x1 ++ x2). by rewrite X2, X1, app_assoc.
Qed.

Definition seg_rel (strings : list Z) (rec : SegmentRecord) (s : Segment) : Prop :=
  exists off, 0 <= off <= u32_max /\ has_string strings off (sg_name s) /\ rec = segment_record off s.

Lemma seg_rel_app strings x rec s : seg_rel strings rec s -> seg_rel (strings ++ x) rec s.
Proof. intros (off & ? & ? & ?). exists off. split_and!; [lia|lia| |done]. by apply has_string_app. Qed.

Lemma encode_segment_Ok s st st' :
  encode_segment s st = (st', Ok tt) ->
  exists rec, grows st st' [] [rec] /\ seg_rel (ec_strings st') rec s.
Proof.
  intros H. apply sbind_Ok in H as (off & st1 & Hp & [= <-]).
  apply push_string_Ok in Hp as (-> & Hs & Ho). cbn [ec_strings] in *.
  exists (segment_record off s). split; [|by exists off]. constructor; cbn; [done| |done|by eexists].
  by rewrite app_nil_r.
Qed.

Lemma encode_segments_Ok l st st' :
  sfor_each l encode_segment st = (st', Ok tt) ->
  exists recs, grows st st' [] recs /\ Forall2 (seg_rel (ec_strings st')) recs l.
Proof.
  revert st. induction l as [|s l IH]; intros st H; cbn [sfor_each] in H.
  { injection H as <-. exists []. split; [|constructor].
    constructor; [done|by rewrite app_nil_r..|exists []; by rewrite app_nil_r]. }
  apply sbind_Ok in H as ([] & st1 & Hs & H). apply encode_segment_Ok in Hs as (rec & G1 & R1).
  apply IH in H as (recs & G2 & R2). exists (rec :: recs). split.
  - apply (grows_trans _ _ _ [] [] [rec] recs G1 G2).
  - constructor; [|done]. destruct (gr_strings _ _ _ _ G2) as [x ->]. by apply seg_rel_app.
Qed.

(** The segments of an entry are a contiguous part of the segment table. *)
Definition entry_rel (strings : list Z) (segs : list SegmentRecord) (rec : EntryRecord) (e : RegionEntry) : Prop :=
  exists off first, 0 <= off <= u32_max /\ has_string strings off (en_name e) /\
    rec = entry_record off (as_u32 first) e /\ 0 <= first /\
    first + zlen (entry_segments e) <= zlen segs /\
    Forall2 (seg_rel strings) (sub segs first (zlen (entry_segments e))) (entry_segments e).

Lemma entry_rel_app strings segs x y rec e :
  entry_rel strings segs rec e -> entry_rel (strings ++ x) (segs ++ y) rec e.
Proof.
  intros (off & first & ? & Hs & Hr & ? & ? & Hf). exists off, first.
  pose proof (zlen_nonneg y). pose proof (zlen_nonneg (entry_segments e)).
  split_and!; try (done || lia).
  - by apply has_string_app.
  - rewrite zlen_app. lia.
  - rewrite sub_app_l by lia. eapply Forall2_impl; [|exact Hf]. intros. by apply seg_rel_app.
Qed.

Lemma encode_entry_Ok e st st' :
  encode_entry e st = (st', Ok tt) ->
  exists rec recs, grows st st' [rec] recs /\ entry_rel (ec_strings st') (ec_segments st') rec e.
Proof.
  intros H. apply sbind_Ok in H as (off & st1 & Hp & H). apply push_string_Ok in Hp as (-> & Hs & Ho).
  apply sbind_Ok in H as (first & st2 & [= <- <-] & H). cbn [ec_segments ec_strings] in *.
  apply sbind_Ok in H as ([] & st3 & Hl & [= <-]). apply encode_segments_Ok in Hl as (recs & [Gr Ge Gs [x Gx]] & Hf).
  cbn [ec_regions ec_entries ec_segments ec_strings] in *.
  exists (entry_record off (as_u32 (zlen (ec_segments st))) e), recs. split.
  - constructor; cbn; [done|by rewrite Ge, app_nil_r|done|]. exists ((en_name e ++ [0]) ++ x). by rewrite Gx, <- !app_assoc.
  - exists off, (zlen (ec_segments st)). pose proof (zlen_nonneg (ec_segments st)).
    pose proof (Forall2_length Hf) as Hlen.
    assert (Hz : zlen (entry_segments e) = zlen recs) by (unfold zlen; lia).
    split_and!; try (done || lia).
    + rewrite Gx. by apply has_string_app.
    + rewrite Gs, zlen_app. lia.
    + rewrite Gs, sub_app_r, Z.sub_diag, Hz, sub_all by lia. done.
Qed.

Lemma encode_entries_Ok l st st' :
  sfor_each l encode_entry st = (st', Ok tt) ->
  exists es ss, grows st st' es ss /\ Forall2 (entry_rel (ec_strings st') (ec_segments st')) es l.
Proof.
  revert st. induction l as [|e l IH]; intros st H; cbn [sfor_each] in H.
  { injection H as <-. exists [], []. split; [|constructor].
    constructor; [done|by rewrite app_nil_r..|exists []; by rewrite app_nil_r]. }
  apply sbind_Ok in H as ([] & st1 & Hs & H). apply encode_entry_Ok in Hs as (rec & ss1 & G1 & R1).
  apply IH in H as (es & ss & G2 & R2). exists (rec :: es), (ss1 ++ ss). split.
  - apply (grows_trans _ _ _ [rec] es ss1 ss G1 G2).
  - constructor; [|done]. destruct G2 as [_ _ -> [x ->]]. by apply entry_rel_app.
Qed.

(** The entries of a region are a contiguous part of the entry table. *)
Definition region_rel (strings : list Z) (segs : list SegmentRecord) (ents : list EntryRecord)
    (rec : RegionRecord) (r : ImageRegion) : Prop :=
  exists off first, 0 <= off <= u32_max /\ has_string strings off (im_name r) /\
    rec = region_record off (as_u32 first) r /\ 0 <= first /\
    first + zlen (region_children r) <= zlen ents /\
    Forall2 (entry_rel strings segs) (sub ents first (zlen (region_children r))) (region_children r).

Lemma region_rel_app strings segs ents x y z rec r :
  region_rel strings segs ents rec r -> region_rel (strings ++ x) (segs ++ y) (ents ++ z) rec r.
Proof.
  intros (off & first & ? & Hs & Hr & ? & ? & Hf). exists off, first.
  pose proof (zlen_nonneg z). pose proof (zlen_nonneg (region_children r)).
  split_and!; try (done || lia).
  - by apply has_string_app.
  - rewrite zlen_app. lia.
  - rewrite sub_app_l by lia. eapply Forall2_impl; [|exact Hf]. intros. by apply entry_rel_app.
Qed.

(** The tables after some regions. *)
Record covers (st st' : Encoder) (rs : list RegionRecord) : Prop := {
  cv_regions : ec_regions st' = ec_regions st ++ rs;
  cv_entries : exists x, ec_entries st' = ec_entries st ++ x;
  cv_segments : exists x, ec_segments st' = ec_segments st ++ x;
  cv_strings : exists x, ec_strings st' = ec_strings st ++ x
}.

Lemma encode_region_Ok r st st' :
  encode_region r st = (st', Ok tt) ->
  exists rec, covers st st' [rec] /\
    region_rel (ec_strings st') (ec_segments st') (ec_entries st') rec r.
Proof.
  intros H. apply sbind_Ok in H as (off & st1 & Hp & H). apply push_string_Ok in Hp as (-> & Hs & Ho).
  apply sbind_Ok in H as (first & st2 & [= <- <-] & H). cbn [ec_entries ec_strings] in *.
  apply sbind_Ok in H as ([] & st3 & Hl & [= <-]).
  apply encode_entries_Ok in Hl as (es & ss & [Gr Ge Gs [x Gx]] & Hf).
  cbn [ec_regions ec_entries ec_segments ec_strings] in *.
  exists (region_record off (as_u32 (zlen (ec_entries st))) r). split.
  - constructor; cbn; [by rewrite Gr|by eexists|by eexists|]. exists ((im_name r ++ [0]) ++ x). by rewrite Gx, <- !app_assoc.
  - exists off, (zlen (ec_entries st)). pose proof (zlen_nonneg (ec_entries st)).
    pose proof (Forall2_length Hf) as Hlen.
    assert (Hz : zlen (region_children r) = zlen es) by (unfold zlen; lia).
    split_and!; try (done || lia).
    + rewrite Gx. by apply has_string_app.
    + rewrite Ge, zlen_app. lia.
    + rewrite Ge, sub_app_r, Z.sub_diag, Hz, sub_all by lia. done.
Qed.

Lemma encode_regions_Ok l st st' :
  sfor_each l encode_region st = (st', Ok tt) ->
  exists rs, covers st st' rs /\
    Forall2 (region_rel (ec_strings st') (ec_segments st') (ec_entries st')) rs l.
Proof.
  revert st. induction l as [|r l IH]; intros st H; cbn [sfor_each] in H.
  { injection H as <-. exists []. split; [|constructor].
    constructor; [by rewrite app_nil_r|exists []; by rewrite app_nil_r..]. }
  apply sbind_Ok in H as ([] & st1 & Hs & H). apply encode_region_Ok in Hs as (rec & G1 & R1).
  apply IH in H as (rs & G2 & R2). exists (rec :: rs).
  destruct G1 as [A1 [b1 B1] [c1 C1] [d1 D1]], G2 as [A2 [b2 B2] [c2 C2] [d2 D2]]. split.
  - constructor; [by rewrite A2, A1, <- app_assoc|eexists..].
    + by rewrite B2, B1, <- app_assoc. + by rewrite C2, C1, <- app_assoc. + by rewrite D2, D1, <- app_assoc.
  - constructor; [|done]. rewrite B2, C2, D2. by apply region_rel_app.
Qed.

(** ** Records on the wire *)

Definition u32_ok (x : Z) : Prop := 0 <= x <= u32_max.
Definition digest_ok (d : list Z) : Prop := zlen d = 32.
#[local] Hint Unfold digest_ok : wire.

(** The records whose fields have their widths. *)
Record region_fits (r : RegionRecord) : Prop := {
  rf_name : u32_ok (rr_name r); rf_offset : u32_ok (rr_offset r); rf_size : u32_ok (rr_size r);
  rf_first : u32_ok (rr_first_entry r); rf_count : u32_ok (rr_entry_count r);
  rf_reserved : zlen (rr_reserved r) = 2
}.
Record entry_fits (e : EntryRecord) : Prop := {
  ef_name : u32_ok (er_name e); ef_offset : u32_ok (er_offset e); ef_size : u32_ok (er_size e);
  ef_first : u32_ok (er_first_segment e); ef_count : u32_ok (er_segment_count e);
  ef_sha256 : digest_ok (er_sha256 e); ef_sha3_256 : digest_ok (er_sha3_256 e)
}.
Record segment_fits (s : SegmentRecord) : Prop := {
  sf_name : u32_ok (sr_name s); sf_offset : u32_ok (sr_offset s); sf_stored : u32_ok (sr_stored_size s);
  sf_loaded : u32_ok (sr_loaded_size s); sf_in_place : u32_ok (sr_in_place_size s);
  sf_addr : 0 <= sr_load_addr s <= u64_max; sf_initialized : u32_ok (sr_initialized_size s);
  sf_stored_digest : digest_ok (sr_stored_digest s); sf_loaded_digest : digest_ok (sr_loaded_digest s)
}.

Lemma read_header_enc h :
  u32_ok (h_magic h) -> u32_ok (h_version h) -> u32_ok (h_region_count h) -> u32_ok (h_entry_count h) ->
  u32_ok (h_segment_count h) -> u32_ok (h_string_table_offset h) -> u32_ok (h_string_table_size h) ->
  read_manifest_header (concat (header_pieces_of h)) = h.
Proof.
  intros. destruct h. unfold read_manifest_header, header_pieces_of. cbn [h_magic h_version h_region_count
    h_entry_count h_segment_count h_string_table_offset h_string_table_size] in *. f_equal; any_field.
Qed.

Lemma read_region_enc r : region_fits r -> read_region_record (concat (region_pieces_of r)) = r.
Proof.
  intros []. destruct r. unfold read_region_record, region_pieces_of. cbn [rr_name rr_offset rr_size
    rr_first_entry rr_entry_count rr_kind rr_fill rr_reserved] in *. f_equal; any_field.
Qed.

Lemma read_entry_enc e : entry_fits e -> read_entry_record (concat (entry_pieces_of e)) = e.
Proof.
  intros []. destruct e. unfold read_entry_record, entry_pieces_of. cbn [er_name er_offset er_size
    er_first_segment er_segment_count er_file_type er_kind er_fill er_digest_flags er_sha256 er_sha3_256] in *.
  f_equal; any_field.
Qed.

Lemma read_segment_enc s : segment_fits s -> read_segment_record (concat (segment_pieces_of s)) = s.
Proof.
  intros []. destruct s. unfold read_segment_record, segment_pieces_of. cbn [sr_name sr_offset sr_stored_size
    sr_loaded_size sr_in_place_size sr_load_addr sr_kind sr_compression sr_flags sr_reserved
    sr_initialized_size sr_stored_digest sr_loaded_digest] in *. f_equal; any_field.
Qed.

Lemma read_table {A} (pieces : A -> list (list Z)) (read : list Z -> A) size l :
  Forall (fun x => zlen (concat (pieces x)) = size /\ read (concat (pieces x)) = x) l ->
  map read (split_records size (Z.to_nat (zlen l)) (record_table pieces l)) = l /\
  zlen (record_table pieces l) = size * zlen l.
Proof.
  intros Hl. unfold record_table. set (f := fun r => concat (pieces r)).
  assert (Hf : Forall (fun p => zlen p = size) (map f l)).
  { apply list.Forall_fmap. eapply Forall_impl; [|exact Hl]. by intros x [? _]. }
  split.
  - replace (Z.to_nat (zlen l)) with (length (map f l)) by (rewrite length_map; unfold zlen; lia).
    rewrite split_records_concat, map_map by done.
    induction Hl as [|x l [_ Hx] Hl IH]; [done|]. cbn [map]. inversion Hf. rewrite IH by done. by unfold f at 1; rewrite Hx.
  - rewrite zlen_concat, (sum_len_const size) by done. unfold zlen at 1. rewrite length_map. fold (zlen l). lia.
Qed.

Lemma zlen_region r : region_fits r -> zlen (concat (region_pieces_of r)) = REGION_BYTES.
Proof.
  intros []. rewrite zlen_concat. unfold region_pieces_of. cbn [sum_len foldr].
  rewrite ?zlen_le_enc, ?zlen_1. unfold REGION_BYTES. lia.
Qed.
Lemma zlen_entry e : entry_fits e -> zlen (concat (entry_pieces_of e)) = ENTRY_BYTES.
Proof.
  intros []. rewrite zlen_concat. unfold entry_pieces_of, digest_ok in *. cbn [sum_len foldr].
  rewrite ?zlen_le_enc, ?zlen_1. unfold ENTRY_BYTES. lia.
Qed.
Lemma zlen_segment s : segment_fits s -> zlen (concat (segment_pieces_of s)) = SEGMENT_BYTES.
Proof.
  intros []. rewrite zlen_concat. unfold segment_pieces_of, digest_ok in *. cbn [sum_len foldr].
  rewrite ?zlen_le_enc, ?zlen_1. unfold SEGMENT_BYTES. lia.
Qed.
Lemma zlen_manifest_header h : zlen (concat (header_pieces_of h)) = HEADER_BYTES.
Proof. rewrite zlen_concat. unfold header_pieces_of. cbn [sum_len foldr]. by rewrite ?zlen_le_enc. Qed.

Lemma read_header_app a b : zlen a = HEADER_BYTES -> read_manifest_header (a ++ b) = read_manifest_header a.
Proof.
  unfold HEADER_BYTES. intros Ha. unfold read_manifest_header, u32_at, le_at. by rewrite !sub_app_l by lia.
Qed.

Section encoded.
Context {T : Target}.

(** A parsed view is what its header says. *)
Lemma manifest_parse_tables bytes v :
  manifest_parse bytes = Ok v ->
  let h := read_manifest_header bytes in
  let so := HEADER_BYTES + REGION_BYTES * h_region_count h in
  let eo := so + ENTRY_BYTES * h_entry_count h in
  v = {| mv_regions := map read_region_record (split_records REGION_BYTES (Z.to_nat (h_region_count h))
           (sub bytes HEADER_BYTES (REGION_BYTES * h_region_count h)));
         mv_entries := map read_entry_record (split_records ENTRY_BYTES (Z.to_nat (h_entry_count h))
           (sub bytes so (ENTRY_BYTES * h_entry_count h)));
         mv_segments := map read_segment_record (split_records SEGMENT_BYTES (Z.to_nat (h_segment_count h))
           (sub bytes eo (SEGMENT_BYTES * h_segment_count h)));
         mv_strings := sub bytes (h_string_table_offset h) (h_string_table_size h) |}.
Proof.
  unfold manifest_parse. set (h := read_manifest_header bytes). intros H. cbn zeta.
  rust_step H. rust_step H. do 6 rust_step H. rust_step H. rust_step H. rust_step H. do 5 rust_step H.
  repeat match goal with X : ok_or _ _ = Ok _ |- _ => apply ok_or_Ok in X end.
  repeat match goal with X : checked_add _ _ _ = Some _ |- _ => apply checked_add_Some in X as [-> _]
    | X : checked_mul _ _ _ = Some _ |- _ => apply checked_mul_Some in X as [-> _] end.
  repeat match goal with X : get_range _ _ _ = Some _ |- _ => apply get_range_Some in X as (_ & _ & ->) end.
  injection H as <-.
  rewrite !Z.add_simpl_l. reflexivity.
Qed.
End encoded.

(** ** Owned values *)

(** The values of the Rust types: bounded UTF-8 names, integers of their
    widths, 32-byte digests, bounded vectors. *)
Definition name_wf (capacity : Z) (s : list Z) : Prop := zlen s <= capacity /\ valid_utf8 s = true.

Record segment_wf (s : Segment) : Prop := {
  sw_name : name_wf 32 (sg_name s); sw_offset : u32_ok (sg_offset s);
  sw_stored : u32_ok (sg_stored_size s); sw_initialized : u32_ok (sg_initialized_size s);
  sw_loaded : u32_ok (sg_loaded_size s); sw_in_place : u32_ok (sg_in_place_size s);
  sw_addr : 0 <= sg_load_addr s <= u64_max;
  sw_stored_digest : digest_ok (sg_stored_digest s); sw_loaded_digest : digest_ok (sg_loaded_digest s)
}.

Definition content_wf (c : EntryContent) : Prop :=
  match c with
  | File _ segments digests =>
      zlen segments <= MAX_SEGMENTS /\ Forall segment_wf segments /\
      (forall d, ds_sha256 digests = Some d -> digest_ok d) /\
      (forall d, ds_sha3_256 digests = Some d -> digest_ok d)
  | RawEntry fill => byte_ok fill
  end.

Record entry_wf (e : RegionEntry) : Prop := {
  ew_name : name_wf 64 (en_name e); ew_offset : u32_ok (en_offset e); ew_size : u32_ok (en_size e);
  ew_content : content_wf (en_content e)
}.

Record region_wf (r : ImageRegion) : Prop := {
  rw_name : name_wf 64 (im_name r); rw_offset : u32_ok (im_offset r); rw_size : u32_ok (im_size r);
  rw_children : Forall entry_wf (region_children r); rw_count : zlen (region_children r) <= MAX_CHILDREN
}.

Definition manifest_wf (m : ImageManifest) : Prop :=
  zlen (im_regions m) <= MAX_IMAGE_REGIONS /\ Forall region_wf (im_regions m).

(** ** The encoder writes records that fit *)

Record tables_fit (st : Encoder) : Prop := {
  tf_regions : Forall region_fits (ec_regions st);
  tf_entries : Forall entry_fits (ec_entries st);
  tf_segments : Forall segment_fits (ec_segments st)
}.

Lemma as_u32_ok x : u32_ok (as_u32 x).
Proof. unfold u32_ok, as_u32, u32_max. pose proof (Z.mod_pos_bound x (2 ^ 32)). lia. Qed.

Lemma as_u32_id x : u32_ok x -> as_u32 x = x.
Proof. unfold u32_ok, as_u32, u32_max. intros. apply Z.mod_small. lia. Qed.

Lemma sfor_each_inv {S E A} (P : S -> Prop) (Q : A -> Prop) (f : A -> sres S E unit) l s s' :
  (forall x s s', Q x -> P s -> f x s = (s', Ok tt) -> P s') ->
  Forall Q l -> P s -> sfor_each l f s = (s', Ok tt) -> P s'.
Proof.
  intros Hf Hl. revert s. induction Hl as [|x l Hx _ IH]; intros s Hs H; cbn [sfor_each] in H.
  { by injection H as <-. }
  apply sbind_Ok in H as ([] & s1 & H1 & H). eauto.
Qed.

Lemma encode_segment_fits s st st' :
  segment_wf s -> tables_fit st -> encode_segment s st = (st', Ok tt) -> tables_fit st'.
Proof.
  intros [] [] H. apply sbind_Ok in H as (off & st1 & Hp & [= <-]). apply push_string_Ok in Hp as (-> & _ & Ho).
  constructor; cbn; [done..|]. apply list.Forall_app. split; [done|]. constructor; [|constructor]. by constructor.
Qed.

Lemma zeros_digest : digest_ok (zeros 32).
Proof. reflexivity. Qed.

Lemma entry_record_fits off first e :
  entry_wf e -> u32_ok off -> u32_ok first -> entry_fits (entry_record off first e).
Proof.
  intros [_ Ho Hs Hc] Hoff Hf. unfold entry_record. destruct (en_content e) as [t segs [d1 d2]|fill].
  - destruct Hc as (_ & _ & H1 & H2). cbn [ds_sha256 ds_sha3_256] in *.
    constructor; cbn; try done; [apply as_u32_ok | destruct d1; cbn; auto using zeros_digest
                                | destruct d2; cbn; auto using zeros_digest].
  - constructor; cbn; try done.
Qed.

Lemma entry_segments_wf e : entry_wf e -> Forall segment_wf (entry_segments e).
Proof. intros [_ _ _ Hc]. unfold entry_segments. destruct (en_content e); [by apply Hc|constructor]. Qed.

Lemma encode_entry_fits e st st' :
  entry_wf e -> tables_fit st -> encode_entry e st = (st', Ok tt) -> tables_fit st'.
Proof.
  intros He [? ? ?] H. apply sbind_Ok in H as (off & st1 & Hp & H). apply push_string_Ok in Hp as (-> & _ & Ho).
  apply sbind_Ok in H as (first & st2 & [= <- <-] & H). cbn [ec_segments] in H.
  apply sbind_Ok in H as ([] & st3 & Hl & [= <-]).
  apply (sfor_each_inv tables_fit segment_wf) in Hl; [|apply encode_segment_fits|by apply entry_segments_wf|done].
  destruct Hl. constructor; cbn; try done. apply list.Forall_app. split; [done|]. constructor; [|constructor].
  apply entry_record_fits; [done..|apply as_u32_ok].
Qed.

Lemma encode_region_fits r st st' :
  region_wf r -> tables_fit st -> encode_region r st = (st', Ok tt) -> tables_fit st'.
Proof.
  intros [? ? ? Hc ?] [? ? ?] H. apply sbind_Ok in H as (off & st1 & Hp & H).
  apply push_string_Ok in Hp as (-> & _ & Ho).
  apply sbind_Ok in H as (first & st2 & [= <- <-] & H). cbn [ec_entries] in H.
  apply sbind_Ok in H as ([] & st3 & Hl & [= <-]).
  apply (sfor_each_inv tables_fit entry_wf) in Hl; [|apply encode_entry_fits|done|done].
  destruct Hl. constructor; cbn; try done. apply list.Forall_app. split; [done|]. constructor; [|constructor].
  unfold region_record. destruct (im_content r); constructor; cbn; try done; try apply as_u32_ok.
Qed.

(** ** Reading back *)

Lemma collect_Forall2 {A B} capacity (l : list A) (k : list B) (f : A -> res ReaderError B) :
  Forall2 (fun x y => f x = Ok y) l k -> zlen k <= capacity -> collect capacity l f = Ok k.
Proof.
  intros Hf Hk. unfold collect.
  assert (Hgo : forall acc, zlen acc + zlen k <= capacity ->
    fold_each l acc (fun acc x => let? y := f x in push capacity DeserializeError acc y) = Ok (acc ++ k)).
  2:{ by rewrite Hgo. }
  clear Hk. induction Hf as [|x y l k Hx Hf IH]; intros acc Hacc; cbn [fold_each]; [by rewrite app_nil_r|].
  rewrite zlen_cons in Hacc. pose proof (zlen_nonneg k). rewrite Hx. cbn [rbind].
  rewrite (proj2 (push_Ok capacity DeserializeError acc y (acc ++ [y]))) by (split; [lia|done]). cbn [rbind].
  rewrite IH, <- app_assoc; [done|]. rewrite zlen_app, zlen_1. lia.
Qed.

Lemma file_type_roundtrip t : decode_file_type (encode_file_type t) = Ok t.
Proof. by destruct t. Qed.
Lemma segment_kind_roundtrip k : decode_segment_kind (encode_segment_kind k) = Ok k.
Proof. by destruct k. Qed.
Lemma compression_roundtrip c : decode_compression (encode_compression c) = Ok c.
Proof. by destruct c. Qed.
Lemma segment_flags_roundtrip f : decode_segment_flags (encode_segment_flags f) = f.
Proof. by destruct f as [[] [] []]. Qed.

Lemma hstring_wf capacity s : name_wf capacity s -> hstring capacity s = Ok s.
Proof. intros [H _]. unfold hstring. by guard_true. Qed.

Lemma segment_rel_owned strings rec s :
  segment_wf s -> seg_rel strings rec s -> segment_to_owned strings rec = Ok s.
Proof.
  intros Hw (off & _ & Hs & ->). pose proof (sw_name s Hw) as Hn. unfold segment_to_owned, segment_record.
  cbn [sr_name sr_kind sr_compression sr_flags].
  rewrite (has_string_at _ _ _ Hs) by apply Hn. cbn [rbind]. rewrite (hstring_wf _ _ Hn). cbn [rbind].
  rewrite segment_kind_roundtrip, compression_roundtrip, segment_flags_roundtrip. by destruct s.
Qed.

Lemma Forall2_wf {A B} (R R' : A -> B -> Prop) (W : B -> Prop) l k :
  (forall x y, W y -> R x y -> R' x y) -> Forall W k -> Forall2 R l k -> Forall2 R' l k.
Proof. intros H Hk Hl. induction Hl; inversion Hk; subst; constructor; auto. Qed.

Lemma digest_set_record off first t segs ds e :
  en_content e = File t segs ds -> digest_set (entry_record off first e) = ds.
Proof. intros H. unfold entry_record. rewrite H. by destruct ds as [[] []]. Qed.

Section owned.
Context {T : Target} (v : ManifestView).
Hypothesis Hentries : zlen (mv_entries v) <= u32_max.
Hypothesis Hsegments : zlen (mv_segments v) <= u32_max.

Lemma entry_rel_owned rec e :
  entry_wf e -> entry_rel (mv_strings v) (mv_segments v) rec e -> entry_to_owned v rec = Ok e.
Proof.
  intros Hw (off & first & Ho & Hs & -> & H0 & Hend & Hf). pose proof (ew_name e Hw) as Hn.
  pose proof u32_usize. pose proof (zlen_nonneg (entry_segments e)).
  pose proof (entry_segments_wf e Hw) as Hsw. pose proof (ew_content e Hw) as Hc.
  unfold entry_to_owned, string.
  assert (Hrec : er_name (entry_record off (as_u32 first) e) = off /\
    er_offset (entry_record off (as_u32 first) e) = en_offset e /\
    er_size (entry_record off (as_u32 first) e) = en_size e)
    by (unfold entry_record; by destruct (en_content e)).
  destruct Hrec as (-> & -> & ->). rewrite (has_string_at _ _ _ Hs) by apply Hn. cbn [rbind].
  rewrite (hstring_wf _ _ Hn). cbn [rbind]. unfold entry_segments in *.
  destruct e as [name eo es [t segs ds|fill]]; cbn [en_content en_name en_offset en_size] in *; [|done].
  rewrite (digest_set_record off (as_u32 first) t segs ds) by done. cbn [entry_record en_content er_kind
    er_first_segment er_segment_count er_file_type]. rewrite Z.eqb_refl.
  rewrite !as_u32_id by (unfold u32_ok; lia). rewrite slice_Ok by lia. cbn [rbind].
  rewrite (collect_Forall2 _ _ segs), file_type_roundtrip; [done| |apply Hc].
  eapply Forall2_wf; [|apply Hsw|exact Hf]. intros x y. apply segment_rel_owned.
Qed.

Lemma region_rel_owned rec r :
  region_wf r -> region_rel (mv_strings v) (mv_segments v) (mv_entries v) rec r ->
  region_to_owned v rec = Ok r.
Proof.
  intros [Hn _ _ Hcw Hcount] (off & first & Ho & Hs & -> & H0 & Hend & Hf).
  pose proof u32_usize. pose proof (zlen_nonneg (region_children r)).
  destruct r as [name ro rs [cs|fill]]; unfold region_to_owned, string, region_record, region_children in *;
    cbn [im_content im_name im_offset im_size rr_name rr_offset rr_size rr_kind rr_fill rr_first_entry
         rr_entry_count] in *;
    rewrite (has_string_at _ _ _ Hs) by apply Hn; cbn [rbind]; rewrite (hstring_wf _ _ Hn); cbn [rbind]; [|done].
  rewrite Z.eqb_refl. rewrite !as_u32_id by (unfold u32_ok; lia). rewrite slice_Ok by lia. cbn [rbind].
  rewrite (collect_Forall2 _ _ cs); [done| |done].
  eapply Forall2_wf; [|apply Hcw|exact Hf]. intros x y. apply entry_rel_owned.
Qed.
End owned.

Section theorems.
Context {T : Target}.

(** The view of the encoder's tables. *)
Definition view_of_tables (st : Encoder) : ManifestView := {|
  mv_regions := ec_regions st; mv_entries := ec_entries st; mv_segments := ec_segments st;
  mv_strings := ec_strings st |}.

Lemma parse_encoded st h v :
  tables_fit st -> h_magic h = MANIFEST_MAGIC -> h_version h = MANIFEST_VERSION ->
  h_region_count h = zlen (ec_regions st) -> h_entry_count h = zlen (ec_entries st) ->
  h_segment_count h = zlen (ec_segments st) -> h_string_table_size h = zlen (ec_strings st) ->
  h_string_table_offset h = HEADER_BYTES + zlen (ec_regions st) * REGION_BYTES
    + zlen (ec_entries st) * ENTRY_BYTES + zlen (ec_segments st) * SEGMENT_BYTES ->
  zlen (ec_regions st) <= u32_max -> zlen (ec_entries st) <= u32_max -> zlen (ec_segments st) <= u32_max ->
  h_string_table_offset h <= u32_max -> zlen (ec_strings st) <= u32_max ->
  manifest_parse (concat (header_pieces_of h) ++ record_table region_pieces_of (ec_regions st)
    ++ record_table entry_pieces_of (ec_entries st) ++ record_table segment_pieces_of (ec_segments st)
    ++ ec_strings st) = Ok v -> v = view_of_tables st.
Proof.
  intros [Fr Fe Fs] Hm Hv Hr He Hs Hss Hso Br Be Bs Bso Bss H.
  apply manifest_parse_tables in H. cbn zeta in H.
  rewrite read_header_app, read_header_enc in H; rewrite ?zlen_manifest_header, ?Hm, ?Hv, ?Hr, ?He, ?Hs, ?Hss;
    try done; try (unfold u32_ok; split; [apply zlen_nonneg|done]).
  2:{ unfold u32_ok. split; [|done]. rewrite Hso. unfold HEADER_BYTES, REGION_BYTES, ENTRY_BYTES, SEGMENT_BYTES.
      pose proof (zlen_nonneg (ec_regions st)). pose proof (zlen_nonneg (ec_entries st)).
      pose proof (zlen_nonneg (ec_segments st)). lia. }
  rewrite Hr, He, Hs, Hss, Hso in H. clear Hr He Hs Hss Hso Hm Hv Bso.
  destruct (read_table region_pieces_of read_region_record REGION_BYTES (ec_regions st))
    as [R1 R2]; [eapply Forall_impl; [|exact Fr]; auto using zlen_region, read_region_enc|].
  destruct (read_table entry_pieces_of read_entry_record ENTRY_BYTES (ec_entries st))
    as [E1 E2]; [eapply Forall_impl; [|exact Fe]; auto using zlen_entry, read_entry_enc|].
  destruct (read_table segment_pieces_of read_segment_record SEGMENT_BYTES (ec_segments st))
    as [S1 S2]; [eapply Forall_impl; [|exact Fs]; auto using zlen_segment, read_segment_enc|].
  set (A := concat (header_pieces_of h)) in *. set (B := record_table region_pieces_of _) in *.
  set (C := record_table entry_pieces_of _) in *. set (D := record_table segment_pieces_of _) in *.
  assert (HA : zlen A = HEADER_BYTES) by apply zlen_manifest_header.
  replace (A ++ B ++ C ++ D ++ ec_strings st) with (concat [A; B; C; D; ec_strings st]) in H
    by (cbn [concat]; by rewrite app_nil_r).
  rewrite (sub_concat 1 _ B), (sub_concat 2 _ C), (sub_concat 3 _ D), (sub_concat 4 _ (ec_strings st)) in H;
    try done; try (cbn [take sum_len foldr]; lia).
  by rewrite R1, E1, S1 in H.
Qed.

(** What a successful encoding is: the tables of the tree behind their header,
    accepted by the parser. *)
Lemma encode_manifest_Ok m bytes :
  manifest_wf m -> encode_manifest m = Ok bytes ->
  exists st, manifest_parse bytes = Ok (view_of_tables st) /\
    zlen (ec_entries st) <= u32_max /\ zlen (ec_segments st) <= u32_max /\
    Forall2 (region_rel (ec_strings st) (ec_segments st) (ec_entries st)) (ec_regions st) (im_regions m).
Proof.
  intros [_ Hw] H. unfold encode_manifest in H.
  destruct (sfor_each (im_regions m) encode_region _) as [st [[]|e|]] eqn:Hst; [|done..].
  assert (Hfit : tables_fit st).
  { eapply (sfor_each_inv tables_fit region_wf); [apply encode_region_fits|exact Hw| |exact Hst]. by repeat constructor. }
  apply encode_regions_Ok in Hst as (rs & [Cr _ _ _] & Hrel). cbn [ec_regions app] in Cr. subst rs.
  rename H into He. do 5 (apply rbind_Ok in He as (? & [-> ?]%ok_or_Ok%try_from_Some & He)).
  set (out := _ ++ _) in He. apply rbind_Ok in He as (v & Hp & [= <-]).
  apply map_err_Ok in Hp. exists st. split; [|done]. rewrite Hp. f_equal.
  by eapply parse_encoded; [exact Hfit| .. |exact Hp].
Qed.

(** parsing any bytes, whatever the header and the records say, returns
    a view or an error: no index, slice or addition in [parse] and [validate] panics. *)
Theorem manifest_parse_no_panic bytes : bytes_ok bytes -> manifest_parse bytes <> Panic.
Proof.
  intros Hb H. destruct (manifest_parse_view bytes {| mv_regions := []; mv_entries := []; mv_segments := []; mv_strings := [] |}
    Panic Hb H (or_intror eq_refl)) as (w & Ht & He & Hs & Hv).
  apply rbind_Panic in Hv as [Hv|(u & _ & Hv)]; [by apply manifest_validate_no_panic in Hv | done].
Qed.

(** C40: a view that parses is well formed: names are strings of the table and
    distinct, every container lies below 4 GiB and holds its entries, every file
    holds the stored bytes of its segments and has at least one, every segment's
    loaded range fits the address space, and every entry and every segment has
    exactly one owner. *)
Theorem manifest_parse_sound bytes v : bytes_ok bytes -> manifest_parse bytes = Ok v -> view_ok v.
Proof. intros Hb H. by apply (manifest_parse_ok bytes v Hb H). Qed.

(** The test of the search by name on a file entry. *)
Definition named (v : ManifestView) (name : list Z) (e : EntryRecord) : bool :=
  match string v (er_name e) with Ok s => bytes_eqb s name | _ => false end.

Lemma find_file_by_name_outcome bytes v name :
  bytes_ok bytes -> manifest_parse bytes = Ok v ->
  find_file_by_name v name =
    (let? found := outcome v None (filter (fun p => named v name p.2 = true) (files v)) in ok_or found FileNotFound).
Proof.
  intros Hb H. destruct (manifest_parse_ok bytes v Hb H) as (Hok & He & Hs). unfold find_file_by_name.
  apply find_file_outcome; [done..|]. intros e Hin Hf. unfold named.
  destruct (fo_name v e (vo_files v Hok e Hin Hf)) as [s ->]. done.
Qed.

(** in a parsed directory the search by name returns the file when exactly
    one file entry has the name, fails when none has it and refuses the
    directory when several have it; it never panics. *)
Theorem find_file_by_name_unique bytes v name :
  bytes_ok bytes -> manifest_parse bytes = Ok v ->
  find_file_by_name v name =
    match filter (fun p => named v name p.2 = true) (files v) with
    | [] => Err FileNotFound
    | [(r, e)] => Ok (view_of v r e)
    | _ => Err DeserializeError
    end.
Proof.
  intros Hb H. rewrite (find_file_by_name_outcome bytes v name Hb H).
  destruct (filter _ _) as [|[r e] [|? ?]]; done.
Qed.

(** The search by type finds the one file of the type in the same way. *)
Theorem find_file_by_type_unique bytes v t :
  bytes_ok bytes -> manifest_parse bytes = Ok v ->
  find_file_by_type v t =
    match filter (fun p => (er_file_type p.2 =? encode_file_type t) = true) (files v) with
    | [] => Err FileNotFound
    | [(r, e)] => Ok (view_of v r e)
    | _ => Err DeserializeError
    end.
Proof.
  intros Hb H. destruct (manifest_parse_ok bytes v Hb H) as (Hok & He & Hs). unfold find_file_by_type.
  rewrite (find_file_outcome v Hok He Hs _ (fun e => er_file_type e =? encode_file_type t)) by done.
  destruct (filter _ _) as [|[r e] [|? ?]]; done.
Qed.

(** What a search returns is a file of the directory. *)
Lemma found_in_files bytes v f :
  bytes_ok bytes -> manifest_parse bytes = Ok v ->
  (exists t, find_file_by_type v t = Ok f) \/ (exists name, find_file_by_name v name = Ok f) ->
  exists r e, (r, e) ∈ files v /\ f = view_of v r e.
Proof.
  intros Hb H [[t Hf]|[name Hf]].
  - rewrite (find_file_by_type_unique bytes v t Hb H) in Hf. destruct (filter _ _) as [|[r e] [|? ?]] eqn:Hl; try done.
    injection Hf as <-. exists r, e. split; [|done].
    assert (Hin : (r, e) ∈ filter (fun p => (er_file_type p.2 =? encode_file_type t) = true) (files v)) by (rewrite Hl; by left).
    by apply list_elem_of_filter in Hin as [_ ?].
  - rewrite (find_file_by_name_outcome bytes v name Hb H) in Hf. destruct (filter _ _) as [|[r e] [|? ?]] eqn:Hl; try done.
    injection Hf as <-. exists r, e. split; [|done].
    assert (Hin : (r, e) ∈ filter (fun p => named v name p.2 = true) (files v)) by (rewrite Hl; by left).
    by apply list_elem_of_filter in Hin as [_ ?].
Qed.

(** the stored bytes of a found file, at the address the firmware computes
    from the region, the entry and the segment, lie inside the region, below
    4 GiB, and what they load to fits the address space. *)
Theorem found_file_in_bounds bytes v name f :
  bytes_ok bytes -> manifest_parse bytes = Ok v -> find_file_by_name v name = Ok f ->
  exists r, r ∈ mv_regions v /\ is_container r = true /\ fv_region_offset f = rr_offset r /\
    string v (er_name (fv_entry f)) = Ok name /\ fv_segments f <> [] /\
    forall s, s ∈ fv_segments f ->
      rr_offset r <= fv_region_offset f + er_offset (fv_entry f) + sr_offset s /\
      fv_region_offset f + er_offset (fv_entry f) + sr_offset s + sr_stored_size s <= rr_offset r + rr_size r /\
      rr_offset r + rr_size r <= u32_max /\
      sr_initialized_size s <= sr_loaded_size s /\ sr_load_addr s + sr_loaded_size s <= u64_max.
Proof.
  intros Hb H Hf. rewrite (find_file_by_name_outcome bytes v name Hb H) in Hf.
  destruct (manifest_parse_ok bytes v Hb H) as (Hok & _ & _).
  destruct (filter _ _) as [|[r e] [|? ?]] eqn:Hfil; cbn in Hf; [done| |done]. injection Hf as <-.
  assert (Hin : (r, e) ∈ filter (fun p => named v name p.2 = true) (files v)) by (rewrite Hfil; by left).
  apply list_elem_of_filter in Hin as [Hn (Hr & Hc & He & Hfile)%elem_of_files].
  pose proof (vo_regions v Hok r Hr) as Hro. pose proof (sub_elem _ _ _ _ He) as Hem.
  pose proof (vo_files v Hok e Hem Hfile) as Hfo.
  exists r. split_and!; try done; [|by apply (fo_segments v e Hfo)|].
  - cbn [fv_entry view_of snd] in *. unfold named in Hn. destruct (string v (er_name e)); [|done..].
    by apply bytes_eqb_true in Hn as ->.
  - intros s Hs. cbn [fv_segments fv_entry fv_region_offset view_of] in *.
    pose proof (sub_elem _ _ _ _ Hs) as Hsm. pose proof (vo_segments v Hok s Hsm) as [_ ? ? _ _].
    pose proof (fo_data v e Hfo s Hs). pose proof (ro_children v r Hro Hc e He). pose proof (ro_place v r Hro).
    destruct (segment_in_typed v (vo_typed v Hok) s Hsm), (entry_in_typed v (vo_typed v Hok) e Hem). lia.
Qed.

(** C39: what the host encodes, the firmware's parser accepts, and the owned
    tree read from the parsed view is the tree that was encoded. *)
Theorem manifest_roundtrip m bytes :
  manifest_wf m -> encode_manifest m = Ok bytes ->
  exists v, manifest_parse bytes = Ok v /\ to_owned_manifest v = Ok m.
Proof.
  intros Hw H. destruct (encode_manifest_Ok m bytes Hw H) as (st & Hp & He & Hs & Hrel).
  exists (view_of_tables st). split; [done|]. unfold to_owned_manifest.
  rewrite (collect_Forall2 _ _ (im_regions m)); [by destruct m| |apply Hw].
  eapply Forall2_wf; [|apply Hw|exact Hrel]. intros x y. by apply (region_rel_owned (view_of_tables st)).
Qed.
End theorems.

(** ** Witnesses *)

Definition demo_view : ManifestView :=
  Eval vm_compute in match manifest_parse demo_directory with
    | Ok v => v | _ => {| mv_regions := []; mv_entries := []; mv_segments := []; mv_strings := [] |} end.

Lemma demo_bytes_ok : bytes_ok demo_directory.
Proof. apply (bool_decide_unpack _). vm_compute. exact I. Qed.

Lemma demo_parses : manifest_parse demo_directory = Ok demo_view.
Proof. vm_compute. reflexivity. Qed.

Lemma demo_wf : manifest_wf demo_manifest.
Proof.
  split; [vm_compute; done|]. repeat constructor; cbn; try done; try (vm_compute; done); intros; simplify_eq;
    vm_compute; done.
Qed.

Lemma manifest_parse_no_panic_witness : manifest_parse (replicate 64 0xff) <> Panic.
Proof. apply manifest_parse_no_panic. apply Forall_replicate. unfold byte_ok. lia. Defined.

Lemma manifest_parse_sound_witness : view_ok demo_view.
Proof. apply (manifest_parse_sound demo_directory); [apply demo_bytes_ok | apply demo_parses]. Defined.

Lemma find_file_by_name_unique_witness :
  match mv_regions demo_view, mv_entries demo_view with
  | r :: _, e :: _ => find_file_by_name demo_view [0x6d; 0x61; 0x69; 0x6e] = Ok (view_of demo_view r e)
  | _, _ => False
  end.
Proof.
  rewrite (find_file_by_name_unique demo_directory demo_view _ demo_bytes_ok demo_parses).
  vm_compute. reflexivity.
Defined.

Lemma find_file_by_type_unique_witness : find_file_by_type demo_view PayloadFile = Err FileNotFound.
Proof.
  rewrite (find_file_by_type_unique demo_directory demo_view); [|apply demo_bytes_ok|apply demo_parses].
  vm_compute. reflexivity.
Defined.

Lemma found_file_in_bounds_witness :
  exists f r, find_file_by_name demo_view [0x6d; 0x61; 0x69; 0x6e] = Ok f /\ r ∈ mv_regions demo_view /\
    fv_segments f <> [].
Proof.
  destruct (find_file_by_name demo_view [0x6d; 0x61; 0x69; 0x6e]) as [f|e|] eqn:Hf;
    [|vm_compute in Hf; discriminate Hf..].
  destruct (found_file_in_bounds demo_directory demo_view _ f demo_bytes_ok demo_parses Hf)
    as (r & Hr & _ & _ & _ & Hs & _).
  exists f, r. split; [reflexivity|]. split; [exact Hr | exact Hs].
Defined.

Lemma manifest_roundtrip_witness :
  exists v, manifest_parse demo_directory = Ok v /\ to_owned_manifest v = Ok demo_manifest.
Proof. apply manifest_roundtrip; [apply demo_wf | apply demo_encodes]. Defined.
