(* ===== verification/Memory.v ===== *)
(** * Memory: physical memory as a byte per address

    Reading a slice, and writing one back when its borrow ends. *)

From S2P Require Import Prelude.
From S2P Require Import Bytes.
From Stdlib Require Import ZArith Lia.
From stdpp Require Import base numbers list option.

#[local] Open Scope Z_scope.

(** CPU-visible memory: a byte per address. *)
Definition memory := Z -> Z.

Definition mem_bytes (m : memory) (addr n : Z) : list Z :=
  map (fun i => m (addr + Z.of_nat i)) (seq 0 (Z.to_nat n)).

(** A slice of memory written back when its borrow ends. *)
Definition mem_write (m : memory) (addr : Z) (l : list Z) : memory :=
  fun a => if (addr <=? a) && (a <? addr + zlen l) then nth (Z.to_nat (a - addr)) l 0 else m a.

Lemma zlen_mem_bytes m a n : 0 <= n -> zlen (mem_bytes m a n) = n.
Proof. intros. unfold zlen, mem_bytes. rewrite length_map, length_seq. lia. Qed.

Lemma lookup_mem_bytes m a n (i : nat) :
  Z.of_nat i < n -> mem_bytes m a n !! i = Some (m (a + Z.of_nat i)).
Proof.
  intros Hi. unfold mem_bytes. rewrite list_lookup_fmap, lookup_seq_lt by lia. done.
Qed.

Lemma mem_bytes_split m a n k :
  0 <= n -> 0 <= k -> mem_bytes m a (n + k) = mem_bytes m a n ++ mem_bytes m (a + n) k.
Proof.
  intros Hn Hk. unfold mem_bytes. rewrite Z2Nat.inj_add, seq_app, map_app by lia. f_equal.
  rewrite Nat.add_0_l. rewrite <- (Nat.add_0_r (Z.to_nat n)) at 1. rewrite <- fmap_add_seq, map_map.
  apply map_ext. intros i. f_equal. lia.
Qed.

Lemma mem_bytes_ext m m' a a' n :
  (forall i, 0 <= i < n -> m (a + i) = m' (a' + i)) -> mem_bytes m a n = mem_bytes m' a' n.
Proof. intros H. apply map_ext_in. intros i Hi%in_seq. apply H. lia. Qed.

Lemma sub_mem_bytes m a n off k :
  0 <= off -> 0 <= k -> off + k <= n -> sub (mem_bytes m a n) off k = mem_bytes m (a + off) k.
Proof.
  intros Ho Hk Hn. apply list_eq. intros i. rewrite lookup_sub. case_decide.
  - rewrite !lookup_mem_bytes by lia. do 2 f_equal. lia.
  - symmetry. apply lookup_ge_None. pose proof (zlen_mem_bytes m (a + off) k Hk). unfold zlen in *. lia.
Qed.

Lemma mem_bytes_same m m' addr n : (forall a, addr <= a < addr + n -> m' a = m a) -> mem_bytes m' addr n = mem_bytes m addr n.
Proof. intros H. apply mem_bytes_ext. intros i Hi. apply H. lia. Qed.

Definition mem_ok (m : memory) : Prop := forall a, byte_ok (m a).

Lemma bytes_ok_mem_bytes m a n : mem_ok m -> bytes_ok (mem_bytes m a n).
Proof. intros Hm. unfold mem_bytes. apply Forall_map, Forall_true. intros i. apply Hm. Qed.

Lemma mem_write_in m addr l a :
  addr <= a < addr + zlen l -> mem_write m addr l a = nth (Z.to_nat (a - addr)) l 0.
Proof. intros. unfold mem_write. by guard_true. Qed.

Lemma mem_ok_write m addr l : mem_ok m -> bytes_ok l -> mem_ok (mem_write m addr l).
Proof. intros Hm Hl a. unfold mem_write. case_match; [by apply nth_byte_ok | apply Hm]. Qed.

Lemma mem_write_out m addr l a : ~ addr <= a < addr + zlen l -> mem_write m addr l a = m a.
Proof. intros. unfold mem_write. by guard_false. Qed.

Lemma mem_bytes_write m addr l off n :
  0 <= off -> 0 <= n -> off + n <= zlen l -> mem_bytes (mem_write m addr l) (addr + off) n = sub l off n.
Proof.
  intros Ho Hn Hl. apply list_eq. intros i. rewrite lookup_sub. case_decide as Hi.
  - rewrite lookup_mem_bytes by lia. rewrite mem_write_in by lia.
    destruct (lookup_lt_is_Some_2 l (Z.to_nat off + i)) as [x Hx]; [unfold zlen in *; lia|].
    rewrite Hx. f_equal. apply nth_lookup_Some.
    replace (Z.to_nat (addr + off + Z.of_nat i - addr)) with (Z.to_nat off + i)%nat by lia. done.
  - apply lookup_ge_None. pose proof (zlen_mem_bytes (mem_write m addr l) (addr + off) n Hn).
    unfold zlen in *. lia.
Qed.

(** Writing inside a range that is then read. *)
Lemma mem_bytes_write_inside m a n off k :
  0 <= off -> off + zlen k <= n -> mem_bytes (mem_write m (a + off) k) a n = upd (mem_bytes m a n) off k.
Proof.
  intros Ho Hk. pose proof (zlen_nonneg k). assert (Hz : zlen (mem_bytes m a n) = n) by (apply zlen_mem_bytes; lia).
  apply list_eq. intros i. rewrite lookup_upd by lia. destruct (decide (Z.of_nat i < n)) as [Hi|Hi].
  - rewrite !lookup_mem_bytes by done. case_decide as Hd.
    + rewrite mem_write_in by (unfold zlen; lia).
      destruct (lookup_lt_is_Some_2 k (i - Z.to_nat off)) as [x Hx]; [lia|]. rewrite Hx. f_equal.
      apply nth_lookup_Some. rewrite <- Hx. f_equal. lia.
    + rewrite mem_write_out by (unfold zlen; lia). done.
  - rewrite decide_False by (unfold zlen in *; lia). unfold zlen in *.
    rewrite !lookup_ge_None_2; [done|lia|].
    pose proof (zlen_mem_bytes (mem_write m (a + off) k) a n). unfold zlen in *. lia.
Qed.

Lemma mem_bytes_write_apart m addr l a n :
  addr + zlen l <= a \/ a + n <= addr -> mem_bytes (mem_write m addr l) a n = mem_bytes m a n.
Proof. intros. apply mem_bytes_same. intros x Hx. apply mem_write_out. lia. Qed.

Lemma mem_bytes_write_all m a l n : n = zlen l -> mem_bytes (mem_write m a l) a n = l.
Proof.
  intros ->. pose proof (zlen_nonneg l). pose proof (mem_bytes_write m a l 0 (zlen l)) as H0.
  rewrite Z.add_0_r in H0. rewrite H0 by lia. apply sub_all.
Qed.

(** ** Loops of writes *)

(** A loop all of whose steps succeed is a fold of their effects. *)
Lemma sfor_each_pure {S E A} (g : A -> S -> S) (f : A -> sres S E unit) l s :
  (forall x s, x ∈ l -> f x s = (g x s, Ok tt)) -> sfor_each l f s = (foldl (fun s x => g x s) s l, Ok tt).
Proof.
  revert s. induction l as [|x l IH]; intros s H; cbn [sfor_each foldl]; [done|].
  unfold sbind. rewrite H by left. apply IH. intros y s' Hy. apply H. by right.
Qed.

(** What no step touches is unchanged after the loop. *)
Lemma foldl_untouched {A} (g : A -> memory -> memory) l m a :
  (forall x m, x ∈ l -> g x m a = m a) -> foldl (fun m x => g x m) m l a = m a.
Proof.
  revert m. induction l as [|x l IH]; intros m H; cbn [foldl]; [done|].
  rewrite IH; [apply H; left|]. intros y m' Hy. apply H. by right.
Qed.

(** What one step leaves in a range that no later step touches. *)
Lemma foldl_step {A} (g : A -> memory -> memory) l i x m addr n :
  l !! i = Some x ->
  (forall j y m a, (i < j)%nat -> l !! j = Some y -> addr <= a < addr + n -> g y m a = m a) ->
  exists m0, mem_bytes (foldl (fun m x => g x m) m l) addr n = mem_bytes (g x m0) addr n.
Proof.
  intros Hi Hlater. rewrite <- (take_drop_middle l i x Hi), foldl_app. cbn [foldl].
  set (m0 := foldl _ m (take i l)). exists m0. apply mem_bytes_same. intros a Ha. apply foldl_untouched.
  intros y m1 Hy. apply list_elem_of_lookup_1 in Hy as [j Hj]. rewrite lookup_drop in Hj.
  apply (Hlater (S i + j)%nat); [lia|done..].
Qed.
