(* ===== verification/SmmImage.v ===== *)
(** * SmmImage: the SMM image header ([crates/smm/src/header.rs])

    The image the host builds starts with a fixed header, followed by entry
    descriptors, entry stubs, the initialized bytes of the handler and a table of
    fixups.  [smm_parse] checks every range the loader uses later. *)

From S2P Require Import Prelude.
From S2P Require Import Bytes.
From S2P Require Import Wire.
From Stdlib Require Import ZArith Lia.
From stdpp Require Import base numbers list option.

#[local] Open Scope Z_scope.

(** The bytes [FSMM]. *)
Definition SMM_IMAGE_MAGIC : Z := Bytes.le_dec [0x46; 0x53; 0x4D; 0x4D].

Definition FLAG_COREBOOT_MODULE_ARGS : Z := Z.shiftl 1 0.
Definition FLAG_COREBOOT_HEADER : Z := Z.shiftl 1 1.
Definition FLAG_PROTECTED_MODE : Z := Z.shiftl 1 2.

Inductive HeaderError :=
| TooSmall | BadMagic | BadHeaderSize | RangeOutOfBounds | NotEnoughEntries | BadMemoryImage.

Record SmmImageHeader := {
  sh_magic : Z; sh_header_size : Z; sh_entry_desc_size : Z; sh_flags : Z; sh_image_size : Z; sh_entry_count : Z;
  sh_reserved : Z; sh_entries_offset : Z; sh_handler_offset : Z; sh_handler_load_size : Z; sh_handler_mem_size : Z;
  sh_handler_entry_offset : Z; sh_runtime_offset : Z; sh_runtime_size : Z; sh_handler_config_offset : Z;
  sh_handler_config_capacity : Z; sh_module_args_offset : Z; sh_module_args_size : Z; sh_stack_size : Z;
  sh_fixups_offset : Z; sh_fixup_count : Z
}.

Record EntryDescriptor := { ed_stub_offset : Z; ed_stub_size : Z; ed_entry_offset : Z; ed_params_offset : Z }.

(** [size_of] of both, which have no padding. *)
Definition HEADER_SIZE : Z := 76.
Definition ENTRY_DESC_SIZE : Z := 16.

Definition smm_header_new (flags image_size entry_count entries_offset handler_offset handler_load_size handler_mem_size
    handler_entry_offset runtime_offset runtime_size handler_config_offset handler_config_capacity module_args_offset
    module_args_size stack_size : Z) : SmmImageHeader := {|
  sh_magic := SMM_IMAGE_MAGIC; sh_header_size := HEADER_SIZE; sh_entry_desc_size := ENTRY_DESC_SIZE; sh_flags := flags;
  sh_image_size := image_size; sh_entry_count := entry_count; sh_reserved := 0; sh_entries_offset := entries_offset;
  sh_handler_offset := handler_offset; sh_handler_load_size := handler_load_size; sh_handler_mem_size := handler_mem_size;
  sh_handler_entry_offset := handler_entry_offset; sh_runtime_offset := runtime_offset; sh_runtime_size := runtime_size;
  sh_handler_config_offset := handler_config_offset; sh_handler_config_capacity := handler_config_capacity;
  sh_module_args_offset := module_args_offset; sh_module_args_size := module_args_size; sh_stack_size := stack_size;
  sh_fixups_offset := 0; sh_fixup_count := 0 |}.

Definition with_fixups (h : SmmImageHeader) (offset count : Z) : SmmImageHeader := {|
  sh_magic := sh_magic h; sh_header_size := sh_header_size h; sh_entry_desc_size := sh_entry_desc_size h;
  sh_flags := sh_flags h; sh_image_size := sh_image_size h; sh_entry_count := sh_entry_count h; sh_reserved := sh_reserved h;
  sh_entries_offset := sh_entries_offset h; sh_handler_offset := sh_handler_offset h;
  sh_handler_load_size := sh_handler_load_size h; sh_handler_mem_size := sh_handler_mem_size h;
  sh_handler_entry_offset := sh_handler_entry_offset h; sh_runtime_offset := sh_runtime_offset h;
  sh_runtime_size := sh_runtime_size h; sh_handler_config_offset := sh_handler_config_offset h;
  sh_handler_config_capacity := sh_handler_config_capacity h; sh_module_args_offset := sh_module_args_offset h;
  sh_module_args_size := sh_module_args_size h; sh_stack_size := sh_stack_size h; sh_fixups_offset := offset;
  sh_fixup_count := count |}.

(** ** Wire format: [zerocopy] on the [repr(C)] structs *)

Definition smm_header_decode (l : list Z) : SmmImageHeader := {|
  sh_magic := u32_at l 0; sh_header_size := u16_at l 4; sh_entry_desc_size := u16_at l 6; sh_flags := u32_at l 8;
  sh_image_size := u32_at l 12; sh_entry_count := u16_at l 16; sh_reserved := u16_at l 18; sh_entries_offset := u32_at l 20;
  sh_handler_offset := u32_at l 24; sh_handler_load_size := u32_at l 28; sh_handler_mem_size := u32_at l 32;
  sh_handler_entry_offset := u32_at l 36; sh_runtime_offset := u32_at l 40; sh_runtime_size := u32_at l 44;
  sh_handler_config_offset := u32_at l 48; sh_handler_config_capacity := u32_at l 52; sh_module_args_offset := u32_at l 56;
  sh_module_args_size := u32_at l 60; sh_stack_size := u32_at l 64; sh_fixups_offset := u32_at l 68;
  sh_fixup_count := u32_at l 72 |}.

Definition header_pieces (h : SmmImageHeader) : list (list Z) :=
  [le_enc 4 (sh_magic h); le_enc 2 (sh_header_size h); le_enc 2 (sh_entry_desc_size h); le_enc 4 (sh_flags h);
   le_enc 4 (sh_image_size h); le_enc 2 (sh_entry_count h); le_enc 2 (sh_reserved h); le_enc 4 (sh_entries_offset h);
   le_enc 4 (sh_handler_offset h); le_enc 4 (sh_handler_load_size h); le_enc 4 (sh_handler_mem_size h);
   le_enc 4 (sh_handler_entry_offset h); le_enc 4 (sh_runtime_offset h); le_enc 4 (sh_runtime_size h);
   le_enc 4 (sh_handler_config_offset h); le_enc 4 (sh_handler_config_capacity h); le_enc 4 (sh_module_args_offset h);
   le_enc 4 (sh_module_args_size h); le_enc 4 (sh_stack_size h); le_enc 4 (sh_fixups_offset h); le_enc 4 (sh_fixup_count h)].

Definition smm_header_encode (h : SmmImageHeader) : list Z := concat (header_pieces h).

Definition descriptor_decode (l : list Z) : EntryDescriptor := {|
  ed_stub_offset := u32_at l 0; ed_stub_size := u32_at l 4; ed_entry_offset := u32_at l 8; ed_params_offset := u32_at l 12 |}.

Definition descriptor_encode (d : EntryDescriptor) : list Z :=
  concat [le_enc 4 (ed_stub_offset d); le_enc 4 (ed_stub_size d); le_enc 4 (ed_entry_offset d); le_enc 4 (ed_params_offset d)].

(** ** Checks *)

Definition check_file_range (h : SmmImageHeader) (offset size : Z) : res HeaderError unit :=
  let? end_ := ok_or (checked_add u32_max offset size) RangeOutOfBounds in
  fail_if (offset <? sh_header_size h) || (sh_image_size h <? end_) with RangeOutOfBounds;
  Ok tt.

Definition check_memory_range (h : SmmImageHeader) (offset size : Z) : res HeaderError unit :=
  let? end_ := ok_or (checked_add u32_max offset size) BadMemoryImage in
  fail_if (size =? 0) || (offset <? sh_handler_load_size h) || (sh_handler_mem_size h <? end_) with BadMemoryImage;
  Ok tt.

Definition smm_parse (image : list Z) : res HeaderError SmmImageHeader :=
  fail_if zlen image <? HEADER_SIZE with TooSmall;
  let h := smm_header_decode image in
  fail_if negb (sh_magic h =? SMM_IMAGE_MAGIC) with BadMagic;
  fail_if negb (sh_header_size h =? HEADER_SIZE) || negb (sh_entry_desc_size h =? ENTRY_DESC_SIZE) with BadHeaderSize;
  fail_if zlen image <? sh_image_size h with RangeOutOfBounds;
  let? table := ok_or (checked_mul u32_max (sh_entry_count h) (sh_entry_desc_size h)) RangeOutOfBounds in
  let? _ := check_file_range h (sh_entries_offset h) table in
  let? _ := check_file_range h (sh_handler_offset h) (sh_handler_load_size h) in
  fail_if (sh_handler_mem_size h <? sh_handler_load_size h) || (sh_handler_load_size h <=? sh_handler_entry_offset h)
    with BadMemoryImage;
  let? _ := check_memory_range h (sh_runtime_offset h) (sh_runtime_size h) in
  let? _ := check_memory_range h (sh_handler_config_offset h) (sh_handler_config_capacity h) in
  let? _ := (if negb (sh_module_args_offset h =? 0) || negb (sh_module_args_size h =? 0)
             then check_memory_range h (sh_module_args_offset h) (sh_module_args_size h) else Ok tt) in
  let? _ := (if negb (sh_fixup_count h =? 0) then
               let? bytes := ok_or (checked_mul u32_max (sh_fixup_count h) 4) RangeOutOfBounds in
               check_file_range h (sh_fixups_offset h) bytes
             else Ok tt) in
  Ok h.

Section image.
Context {T : Target}.

Definition entry (h : SmmImageHeader) (image : list Z) (index : Z) : res HeaderError EntryDescriptor :=
  fail_if sh_entry_count h <=? index with NotEnoughEntries;
  let? at_ := or_panic (checked_mul usize_max index ENTRY_DESC_SIZE) in
  let? off := ok_or (checked_add usize_max (sh_entries_offset h) at_) RangeOutOfBounds in
  let? end_ := ok_or (checked_add usize_max off ENTRY_DESC_SIZE) RangeOutOfBounds in
  fail_if (zlen image <? end_) || (sh_image_size h <? end_) with RangeOutOfBounds;
  Ok (descriptor_decode (sub image off ENTRY_DESC_SIZE)).

Definition fixup (h : SmmImageHeader) (image : list Z) (index : Z) : res HeaderError Z :=
  fail_if sh_fixup_count h <=? index with RangeOutOfBounds;
  let? at_ := or_panic (checked_mul usize_max index 4) in
  let? off := add_or_panic usize_max (sh_fixups_offset h) at_ in
  let? end_ := add_or_panic usize_max off 4 in
  let? bytes := ok_or (get_range image off end_) RangeOutOfBounds in
  let offset := Bytes.le_dec bytes in
  fail_if match checked_add u32_max offset 4 with Some end_ => sh_handler_load_size h <? end_ | None => true end
    with BadMemoryImage;
  Ok offset.
End image.

(** ** What a parsed header guarantees *)

Definition header_typed (h : SmmImageHeader) : Prop :=
  0 <= sh_magic h <= u32_max /\ 0 <= sh_header_size h <= u16_max /\ 0 <= sh_entry_desc_size h <= u16_max /\
  0 <= sh_flags h <= u32_max /\ 0 <= sh_image_size h <= u32_max /\ 0 <= sh_entry_count h <= u16_max /\
  0 <= sh_reserved h <= u16_max /\ 0 <= sh_entries_offset h <= u32_max /\ 0 <= sh_handler_offset h <= u32_max /\
  0 <= sh_handler_load_size h <= u32_max /\ 0 <= sh_handler_mem_size h <= u32_max /\
  0 <= sh_handler_entry_offset h <= u32_max /\ 0 <= sh_runtime_offset h <= u32_max /\ 0 <= sh_runtime_size h <= u32_max /\
  0 <= sh_handler_config_offset h <= u32_max /\ 0 <= sh_handler_config_capacity h <= u32_max /\
  0 <= sh_module_args_offset h <= u32_max /\ 0 <= sh_module_args_size h <= u32_max /\ 0 <= sh_stack_size h <= u32_max /\
  0 <= sh_fixups_offset h <= u32_max /\ 0 <= sh_fixup_count h <= u32_max.

(** A range of the file behind the header, a range of memory behind the
    initialized bytes. *)
Definition file_range (h : SmmImageHeader) (image : list Z) (offset size : Z) : Prop :=
  HEADER_SIZE <= offset /\ 0 <= size /\ offset + size <= sh_image_size h /\ sh_image_size h <= zlen image.

Definition memory_range (h : SmmImageHeader) (offset size : Z) : Prop :=
  sh_handler_load_size h <= offset /\ 0 < size /\ offset + size <= sh_handler_mem_size h.

Record header_ok (image : list Z) (h : SmmImageHeader) : Prop := {
  hk_typed : header_typed h;
  hk_decode : h = smm_header_decode image; hk_len : HEADER_SIZE <= zlen image;
  hk_magic : sh_magic h = SMM_IMAGE_MAGIC; hk_size : sh_header_size h = HEADER_SIZE; hk_desc : sh_entry_desc_size h = ENTRY_DESC_SIZE;
  hk_table : file_range h image (sh_entries_offset h) (sh_entry_count h * ENTRY_DESC_SIZE);
  hk_handler : file_range h image (sh_handler_offset h) (sh_handler_load_size h);
  hk_entry : sh_handler_entry_offset h < sh_handler_load_size h;
  hk_load : sh_handler_load_size h <= sh_handler_mem_size h;
  hk_runtime : memory_range h (sh_runtime_offset h) (sh_runtime_size h);
  hk_config : memory_range h (sh_handler_config_offset h) (sh_handler_config_capacity h);
  hk_args : sh_module_args_offset h <> 0 \/ sh_module_args_size h <> 0 -> memory_range h (sh_module_args_offset h) (sh_module_args_size h);
  hk_fixups : sh_fixup_count h <> 0 -> file_range h image (sh_fixups_offset h) (sh_fixup_count h * 4)
}.

(** ** Lemmas *)

Lemma u16_at_ok b off : bytes_ok b -> 0 <= off -> off + 2 <= zlen b -> 0 <= u16_at b off <= u16_max.
Proof. intros Hb ? ?. pose proof (le_at_bound b off 2 Hb). unfold u16_at, u16_max. lia. Qed.

Lemma header_decode_typed l : bytes_ok l -> HEADER_SIZE <= zlen l -> header_typed (smm_header_decode l).
Proof.
  unfold HEADER_SIZE. intros Hb Hl. unfold header_typed, smm_header_decode. cbn [sh_magic sh_header_size sh_entry_desc_size
    sh_flags sh_image_size sh_entry_count sh_reserved sh_entries_offset sh_handler_offset sh_handler_load_size
    sh_handler_mem_size sh_handler_entry_offset sh_runtime_offset sh_runtime_size sh_handler_config_offset
    sh_handler_config_capacity sh_module_args_offset sh_module_args_size sh_stack_size sh_fixups_offset sh_fixup_count].
  split_and!; first [apply u32_at_ok | apply u16_at_ok]; auto; lia.
Qed.

Lemma check_file_range_Ok h image offset size u :
  sh_header_size h = HEADER_SIZE -> sh_image_size h <= zlen image -> sh_image_size h <= u32_max -> 0 <= size ->
  check_file_range h offset size = Ok u <-> file_range h image offset size.
Proof.
  intros Hh Hi Hm Hs. destruct u. unfold check_file_range, file_range. rewrite Hh. split.
  - intros H. repeat rust_step H. apply ok_or_Ok, checked_add_Some in Ha as [-> ?]. bool_hyp. lia.
  - intros (? & ? & ? & ?). rewrite checked_add_ok by lia. cbn [ok_or rbind]. by guard_false.
Qed.

Lemma check_memory_range_Ok h offset size u :
  sh_handler_mem_size h <= u32_max -> 0 <= size ->
  check_memory_range h offset size = Ok u <-> memory_range h offset size.
Proof.
  intros Hm Hs. destruct u. unfold check_memory_range, memory_range. split.
  - intros H. repeat rust_step H. apply ok_or_Ok, checked_add_Some in Ha as [-> ?]. bool_hyp. lia.
  - intros (? & ? & ?). rewrite checked_add_ok by lia. cbn [ok_or rbind]. by guard_false.
Qed.

Lemma check_file_range_ok h image offset size :
  sh_header_size h = HEADER_SIZE -> header_typed h -> file_range h image offset size -> check_file_range h offset size = Ok tt.
Proof. intros Hs Ht Hr. unfold header_typed in Ht. pose proof Hr as Hr'. unfold file_range in Hr'. apply (check_file_range_Ok h image); auto; lia. Qed.

Lemma check_memory_range_ok h offset size :
  header_typed h -> memory_range h offset size -> check_memory_range h offset size = Ok tt.
Proof. intros Ht Hr. unfold header_typed in Ht. pose proof Hr as Hr'. unfold memory_range in Hr'. apply check_memory_range_Ok; auto; lia. Qed.

(** The header the checks accept is exactly the one that satisfies [header_ok]. *)
Lemma smm_parse_spec image h : bytes_ok image -> smm_parse image = Ok h <-> header_ok image h.
Proof.
  intros Hb. split.
  - intros H. unfold smm_parse in H. rust_step H. bool_hyp.
    pose proof (header_decode_typed image Hb ltac:(lia)) as Ht.
    set (d := smm_header_decode image) in *. pose proof Ht as Ht'. unfold header_typed in Ht'.
    repeat rust_step H. injection H as <-. bool_hyp.
    apply ok_or_Ok, checked_mul_Some in Ha as [-> ?].
    rewrite check_file_range_Ok in Ha0 by (done || lia || nia). rewrite check_file_range_Ok in Ha1 by (done || lia).
    rewrite check_memory_range_Ok in Ha2 by lia. rewrite check_memory_range_Ok in Ha3 by lia.
    constructor; auto.
    + by match goal with H : sh_entry_desc_size d = _ |- _ => rewrite <- H end.
    + intros Hargs. rust_step Ha4; bool_hyp; [|lia]. by rewrite check_memory_range_Ok in Ha4 by lia.
    + intros Hfix. rust_step Ha5; bool_hyp; [|lia]. apply rbind_Ok in Ha5 as (x & Hx & Ha5).
      apply ok_or_Ok, checked_mul_Some in Hx as [-> ?]. by rewrite check_file_range_Ok in Ha5 by (done || lia).
  - intros [Ht Hd Hl Hm Hs Hde Htab Hh He Hlo Hr Hc Ha Hf]. unfold smm_parse. rewrite <- Hd. pose proof Ht as Ht'.
    unfold header_typed in Ht'. pose proof Htab as Htab'. unfold file_range in Htab'.
    guard_false. rewrite Hm, Hs, Hde, !Z.eqb_refl. cbn [negb orb]. guard_false.
    rewrite checked_mul_ok by (unfold ENTRY_DESC_SIZE in *; lia). cbn [ok_or rbind].
    rewrite (check_file_range_ok h image) by done. cbn [rbind]. rewrite (check_file_range_ok h image) by done. cbn [rbind].
    guard_false. rewrite check_memory_range_ok by done. cbn [rbind]. rewrite check_memory_range_ok by done. cbn [rbind].
    assert (E1 : (if negb (sh_module_args_offset h =? 0) || negb (sh_module_args_size h =? 0)
       then check_memory_range h (sh_module_args_offset h) (sh_module_args_size h) else Ok tt) = Ok tt).
    { destruct (_ || _)%bool eqn:Eb; [|done]. apply check_memory_range_ok; [done|]. apply Ha. bool_cases; auto. }
    rewrite E1. cbn [rbind]. destruct (negb (sh_fixup_count h =? 0)) eqn:Eb; [|done]. bool_hyp. specialize (Hf Eb).
    pose proof Hf as Hf'. unfold file_range in Hf'. rewrite checked_mul_ok by lia. cbn [ok_or rbind].
    by rewrite (check_file_range_ok h image).
Qed.

Lemma u16_field i ps off x :
  ps !! i = Some (le_enc 2 x) -> off = sum_len (take i ps) -> 0 <= x <= u16_max -> u16_at (concat ps) off = x.
Proof. intros Hi Ho [H0 H1]. unfold u16_at, u16_max in *. apply le_at_enc; [lia| |lia]. by apply (sub_concat i). Qed.

Ltac header_offset := cbn [take sum_len foldr app]; rewrite ?zlen_le_enc; lia.
Ltac header_field i :=
  first [eapply (u32_field i); [reflexivity | header_offset | unfold u32_ok; tauto]
        | eapply (u16_field i); [reflexivity | header_offset | tauto]].

(** What the image builder writes is what the loader reads. *)
Lemma header_decode_encode h rest : header_typed h -> smm_header_decode (smm_header_encode h ++ rest) = h.
Proof.
  intros Ht. unfold header_typed in Ht.
  replace (smm_header_encode h ++ rest) with (concat (header_pieces h ++ [rest]))
    by (rewrite concat_app; simpl; by rewrite app_nil_r).
  unfold smm_header_decode, header_pieces. destruct h. simpl in Ht. f_equal;
    [header_field 0%nat | header_field 1%nat | header_field 2%nat | header_field 3%nat | header_field 4%nat | header_field 5%nat | header_field 6%nat | header_field 7%nat | header_field 8%nat | header_field 9%nat | header_field 10%nat
    | header_field 11%nat | header_field 12%nat | header_field 13%nat | header_field 14%nat | header_field 15%nat | header_field 16%nat | header_field 17%nat | header_field 18%nat | header_field 19%nat | header_field 20%nat].
Qed.

Section ranges.
Context {T : Target}.

Lemma entry_Ok h image i d :
  header_ok image h -> 0 <= i -> entry h image i = Ok d <->
  i < sh_entry_count h /\ d = descriptor_decode (sub image (sh_entries_offset h + i * ENTRY_DESC_SIZE) ENTRY_DESC_SIZE).
Proof.
  intros Hok Hi. pose proof (hk_typed _ _ Hok) as Ht. pose proof (hk_table _ _ Hok) as Htab.
  unfold header_typed in Ht. unfold file_range in Htab. unfold ENTRY_DESC_SIZE in *. pose proof usize_max_bounds.
  unfold entry, ENTRY_DESC_SIZE. split.
  - intros H0. repeat rust_step H0. bool_hyp. apply or_panic_Ok, checked_mul_Some in Ha as [-> _].
    apply ok_or_Ok, checked_add_Some in Ha0 as [-> _]. injection H0 as <-. done.
  - intros [Hlt ->]. guard_false. rewrite checked_mul_ok by lia. cbn [or_panic rbind].
    rewrite checked_add_ok by lia. cbn [ok_or rbind]. rewrite checked_add_ok by lia. cbn [ok_or rbind]. by guard_false.
Qed.

Lemma entry_no_panic h image i : 0 <= i <= u16_max -> entry h image i <> Panic.
Proof.
  intros Hi H. unfold entry, ENTRY_DESC_SIZE in H. repeat panic_step H. apply checked_mul_None in H.
  pose proof usize_max_bounds. unfold u16_max, u32_max in *. lia.
Qed.

Lemma fixup_Ok h image i off :
  header_ok image h -> 0 <= i -> fixup h image i = Ok off <->
  i < sh_fixup_count h /\ off = u32_at image (sh_fixups_offset h + i * 4) /\ off + 4 <= sh_handler_load_size h.
Proof.
  intros Hok Hi. pose proof (hk_typed _ _ Hok) as Ht. pose proof (hk_fixups _ _ Hok) as Hf.
  unfold header_typed in Ht. unfold file_range in Hf. pose proof usize_max_bounds. unfold fixup, add_or_panic. split.
  - intros H0. rust_step H0. bool_hyp. specialize (Hf ltac:(lia)). repeat rust_step H0. injection H0 as <-.
    apply or_panic_Ok, checked_mul_Some in Ha as [-> _]. apply or_panic_Ok, checked_add_Some in Ha0 as [-> _].
    apply or_panic_Ok, checked_add_Some in Ha1 as [-> _]. apply ok_or_Ok, get_range_Some in Ha2 as (_ & _ & ->).
    replace (sh_fixups_offset h + i * 4 + 4 - (sh_fixups_offset h + i * 4)) with 4 in * by lia.
    change (Bytes.le_dec (sub image (sh_fixups_offset h + i * 4) 4)) with (u32_at image (sh_fixups_offset h + i * 4)) in *.
    destruct (checked_add _ _ _) eqn:E; [|discriminate]. apply checked_add_Some in E as [-> _]. bool_hyp. auto.
  - intros (Hlt & -> & Hl). specialize (Hf ltac:(lia)). guard_false. rewrite checked_mul_ok by lia. cbn [or_panic rbind].
    rewrite checked_add_ok by lia. cbn [or_panic rbind]. rewrite checked_add_ok by lia. cbn [or_panic rbind].
    set (at_ := sh_fixups_offset h + i * 4) in *.
    assert (E : get_range image at_ (at_ + 4) = Some (sub image at_ 4)).
    { apply get_range_Some. split_and!; [lia..|]. f_equal. lia. }
    rewrite E. cbn [ok_or rbind]. change (Bytes.le_dec (sub image at_ 4)) with (u32_at image at_).
    rewrite checked_add_ok by lia. by guard_false.
Qed.

Lemma fixup_no_panic h image i : header_ok image h -> 0 <= i -> fixup h image i <> Panic.
Proof.
  intros Hok Hi H. pose proof (hk_typed _ _ Hok) as Ht. pose proof (hk_fixups _ _ Hok) as Hf.
  unfold header_typed in Ht. unfold file_range in Hf. pose proof usize_max_bounds. unfold fixup, add_or_panic in H.
  panic_step H. bool_hyp. specialize (Hf ltac:(lia)).
  rewrite checked_mul_ok in H by lia. cbn [or_panic rbind] in H. rewrite checked_add_ok in H by lia. cbn [or_panic rbind] in H.
  rewrite checked_add_ok in H by lia. cbn [or_panic rbind] in H. repeat panic_step H.
Qed.

Lemma smm_parse_no_panic image : smm_parse image <> Panic.
Proof.
  intros H. unfold smm_parse, check_file_range, check_memory_range in H. repeat panic_step H.
Qed.
End ranges.
