(* ===== verification/SmmInstall.v ===== *)
(** * SmmInstall: installing an SMM image ([crates/smm/src/installer.rs])

    [prepare] is the first half of [install_pic_image], which reads the image and
    computes every address; [write_image] is the second half, the raw stores into
    SMRAM.  The state is physical memory and the caller's slot buffer.  A pointer
    made from a [u64] keeps the low [usize_bits] bits; a copy whose source lies
    outside the image is a [Panic] of the model, so that a proof of no panic is
    also a proof that every raw read is in bounds. *)

From S2P Require Import Prelude.
From S2P Require Import Bytes.
From S2P Require Import Wire.
From S2P Require Import Memory.
From S2P Require Import SmmLayout.
From S2P Require Import SmmImage.
From Stdlib Require Import ZArith Lia.
From stdpp Require Import base numbers list option.

#[local] Open Scope Z_scope.

Definition HANDLER_CONFIG_CAPACITY : Z := 256.
Definition HANDLER_CONFIG_ALIGNMENT : Z := 16.
Definition LOW_4G_END : Z := Z.shiftl 1 32.

Inductive InstallError :=
| Header (e : HeaderError)
| Layout (e : LayoutError)
| NotEnoughEntries | BadEntryRange | BadParams | BadRuntime | BadHandlerConfig | BadModuleArgs | BadAlignment
| AddressAbove4G | Overflow | ModeMismatch.

(** The handler configuration, a value of the type parameter [T], is its bytes and
    the alignment of [T]. *)
Record InstallConfig := {
  ic_smram_base : Z; ic_smram_size : Z; ic_num_cpus : Z; ic_save_state_size : Z;
  ic_handler_config : list Z; ic_handler_config_align : Z
}.

Record InstalledSmmImage := {
  in_header : SmmImageHeader; in_common_base : Z; in_common_entry : Z; in_runtime_addr : Z; in_cr3 : Z;
  in_cpus : list CpuSmmLayout
}.

Record DefaultRelocationCallbackConfig := {
  dr_default_smbase : Z; dr_cr3 : Z; dr_callback : Z; dr_callback_arg : Z; dr_stack_top : Z
}.

Record SmmRuntime := {
  rt_smram_base : Z; rt_smram_size : Z; rt_num_cpus : Z; rt_reserved : Z; rt_stack_size : Z;
  rt_handler_config_offset : Z; rt_handler_config_size : Z; rt_owner : Z
}.

Definition smm_runtime_new (smram_base smram_size num_cpus stack_size handler_config_offset handler_config_size : Z)
    : SmmRuntime := {|
  rt_smram_base := smram_base; rt_smram_size := smram_size; rt_num_cpus := num_cpus; rt_reserved := 0;
  rt_stack_size := stack_size; rt_handler_config_offset := handler_config_offset;
  rt_handler_config_size := handler_config_size; rt_owner := 0 |}.

Record SmmEntryParams := {
  ep_cpu : Z; ep_stack_size : Z; ep_stack_top : Z; ep_common_entry : Z; ep_runtime : Z; ep_coreboot_module_args : Z;
  ep_cr3 : Z; ep_entry_base : Z
}.

Record CorebootModuleArgs := { ma_cpu : Z; ma_canary : Z }.

(** The bytes of the fields; [SmmRuntime] has four bytes of padding after them where
    a [u64] is aligned to eight bytes (x86_64), whose value is unspecified and which
    the model leaves as they are. *)
Definition runtime_pieces (r : SmmRuntime) : list (list Z) :=
  [le_enc 8 (rt_smram_base r); le_enc 8 (rt_smram_size r); le_enc 2 (rt_num_cpus r); le_enc 2 (rt_reserved r);
   le_enc 4 (rt_stack_size r); le_enc 4 (rt_handler_config_offset r); le_enc 4 (rt_handler_config_size r);
   le_enc 4 (rt_owner r)].
Definition runtime_bytes (r : SmmRuntime) : list Z := concat (runtime_pieces r).

Definition params_pieces (p : SmmEntryParams) : list (list Z) :=
  [le_enc 4 (ep_cpu p); le_enc 4 (ep_stack_size p); le_enc 8 (ep_stack_top p); le_enc 8 (ep_common_entry p);
   le_enc 8 (ep_runtime p); le_enc 8 (ep_coreboot_module_args p); le_enc 8 (ep_cr3 p); le_enc 8 (ep_entry_base p)].
Definition params_bytes (p : SmmEntryParams) : list Z := concat (params_pieces p).

Definition args_bytes (a : CorebootModuleArgs) : list Z := le_enc 8 (ma_cpu a) ++ le_enc 8 (ma_canary a).

Definition RUNTIME_FIELDS : Z := 36.
Definition PARAMS_SIZE : Z := 56.
Definition MODULE_ARGS_SIZE : Z := 16.

(** [for i in 0..n] *)
Definition upto (n : Z) : list Z := map Z.of_nat (seq 0 (Z.to_nat n)).

Section install.
Context {T : Target}.

(** [align_of::<u64>()] and the structs that hold one: eight bytes on x86_64, four
    on i686. *)
Definition align_of_u64 : Z := usize_bits / 8.
Definition size_of_runtime : Z := next_multiple_of RUNTIME_FIELDS align_of_u64.

(** [address as *mut u8] *)
Definition as_ptr (address : Z) : Z := address mod (usize_max + 1).

(** [cfg!(target_arch = "x86")] *)
Definition protected_target : bool := usize_bits =? 32.

Definition check_mode (h : SmmImageHeader) : res InstallError unit :=
  let protected := negb (Z.land (sh_flags h) FLAG_PROTECTED_MODE =? 0) in
  if Bool.eqb protected protected_target then Ok tt else Err ModeMismatch.

Definition validate_memory_blocks (h : SmmImageHeader) : res InstallError unit :=
  fail_if negb (is_multiple_of (sh_runtime_offset h) align_of_u64) || (sh_runtime_size h <? size_of_runtime) with BadRuntime;
  fail_if negb (is_multiple_of (sh_handler_config_offset h) HANDLER_CONFIG_ALIGNMENT)
          || negb (sh_handler_config_capacity h =? HANDLER_CONFIG_CAPACITY) with BadHandlerConfig;
  let? runtime_end := ok_or (Prelude.checked_add u32_max (sh_runtime_offset h) (sh_runtime_size h)) Overflow in
  let? config_end := ok_or (Prelude.checked_add u32_max (sh_handler_config_offset h) (sh_handler_config_capacity h)) Overflow in
  fail_if sh_handler_config_offset h <? runtime_end with BadHandlerConfig;
  let module_args_flag := negb (Z.land (sh_flags h) FLAG_COREBOOT_MODULE_ARGS =? 0) in
  let offset := sh_module_args_offset h in
  let size := sh_module_args_size h in
  if (offset =? 0) && (size =? 0) && negb module_args_flag then Ok tt else
  fail_if (offset =? 0) || (size =? 0) with BadModuleArgs;
  fail_if negb module_args_flag with BadModuleArgs;
  let? needed := ok_or (checked_mul usize_max MODULE_ARGS_SIZE (sh_entry_count h)) Overflow in
  fail_if negb (is_multiple_of offset align_of_u64) || (size <? needed) || (offset <? config_end) with BadModuleArgs;
  Ok tt.

(** [checked_add(base: u64, offset: u32)] *)
Definition checked_add (base offset : Z) : res InstallError Z := ok_or (Prelude.checked_add u64_max base offset) Overflow.

Definition check_low_address (address : Z) : res InstallError unit :=
  if LOW_4G_END <=? address then Err AddressAbove4G else Ok tt.

Definition check_low_range (base size : Z) : res InstallError unit :=
  let? end_ := ok_or (Prelude.checked_add u64_max base size) Overflow in
  if (LOW_4G_END <=? base) || (LOW_4G_END <? end_) then Err AddressAbove4G else Ok tt.

Definition check_entry_params (e : EntryDescriptor) : res InstallError unit :=
  let? params_end := ok_or (Prelude.checked_add u32_max (ed_params_offset e) PARAMS_SIZE) Overflow in
  fail_if (ed_params_offset e =? 0) || negb (is_multiple_of (ed_params_offset e) align_of_u64)
          || (ed_stub_size e <? params_end) with BadParams;
  Ok tt.

Definition check_entry_range (h : SmmImageHeader) (image : list Z) (e : EntryDescriptor) : res InstallError unit :=
  let? end_ := ok_or (Prelude.checked_add u32_max (ed_stub_offset e) (ed_stub_size e)) BadEntryRange in
  fail_if (ed_stub_offset e <? sh_header_size h) || (sh_image_size h <? end_) || (zlen image <? end_) with BadEntryRange;
  Ok tt.

(** ** Before the first write *)

(** One iteration of the descriptor loop: the largest stub so far. *)
Definition check_descriptor (h : SmmImageHeader) (image : list Z) (max_stub_size i : Z) : res InstallError Z :=
  let? e := map_err Header (entry h image i) in
  let? _ := check_entry_range h image e in
  let? _ := check_entry_params e in
  Ok (Z.max max_stub_size (ed_stub_size e)).

(** The checks of the image itself: its header and its largest stub. *)
Definition check_image (image : list Z) (config : InstallConfig) (slots : Z) : res InstallError (SmmImageHeader * Z) :=
  let? h := map_err Header (smm_parse image) in
  let? _ := check_mode h in
  fail_if (sh_entry_count h <? ic_num_cpus config) || (slots <? ic_num_cpus config) with NotEnoughEntries;
  let? _ := validate_memory_blocks h in
  let? _ := for_each (upto (sh_fixup_count h)) (fun i => let? _ := map_err Header (fixup h image i) in Ok tt) in
  fail_if (sh_handler_config_capacity h <? zlen (ic_handler_config config))
          || (HANDLER_CONFIG_ALIGNMENT <? ic_handler_config_align config) with BadHandlerConfig;
  let? max_stub_size := fold_each (upto (ic_num_cpus config)) 0 (check_descriptor h image) in
  Ok (h, max_stub_size).

Definition smram_layout (config : InstallConfig) (h : SmmImageHeader) (max_stub_size : Z) : SmramLayout := {|
  smram_base := ic_smram_base config; smram_size := ic_smram_size config; entry_count := ic_num_cpus config;
  save_state_size := ic_save_state_size config; stack_size := sh_stack_size h; entry_stub_size := max_stub_size;
  handler_mem_size := sh_handler_mem_size h; page_table_size := SMM_IDENTITY_TABLE_SIZE |}.

(** The addresses and values the second half uses. *)
Record Plan := {
  pl_header : SmmImageHeader; pl_common_base : Z; pl_page_table_base : Z; pl_cpus : list CpuSmmLayout;
  pl_runtime_addr : Z; pl_config_addr : Z; pl_module_args_base : option Z; pl_common_entry : Z; pl_runtime : SmmRuntime
}.

(** The alignment checks before the slots are filled: the two bases. *)
Definition place (config : InstallConfig) (layout : SmramLayout) : res InstallError (Z * Z) :=
  let? smram_top := ok_or (Prelude.checked_add u64_max (ic_smram_base config) (ic_smram_size config)) Overflow in
  fail_if negb (Z.land smram_top 0xfff =? 0) with BadAlignment;
  let? common_base := map_err Layout (compute_common_base layout) in
  let? page_table_base := map_err Layout (compute_page_table_base layout) in
  fail_if negb (Z.land page_table_base 0xfff =? 0) with BadAlignment;
  Ok (common_base, page_table_base).

Definition check_cpu (h : SmmImageHeader) (max_stub_size : Z) (c : CpuSmmLayout) : res InstallError unit :=
  let? _ := for_each [smbase c; entry_addr c; save_state_base c; save_state_top c; stack_bottom c; stack_top c]
              check_low_address in
  let? _ := check_low_range (entry_addr c) max_stub_size in
  check_low_range (stack_bottom c) (sh_stack_size h).

(** Everything between the placement and the first write. *)
Definition addresses (config : InstallConfig) (h : SmmImageHeader) (max_stub_size common_base page_table_base : Z)
    (cpus : list CpuSmmLayout) : res InstallError Plan :=
  let? runtime_addr := checked_add common_base (sh_runtime_offset h) in
  let? config_addr := checked_add common_base (sh_handler_config_offset h) in
  let? module_args_base := (if negb (sh_module_args_offset h =? 0)
                            then let? a := checked_add common_base (sh_module_args_offset h) in Ok (Some a)
                            else Ok None) in
  let? common_entry := checked_add common_base (sh_handler_entry_offset h) in
  let? config_relative := ok_or (checked_sub (sh_handler_config_offset h) (sh_runtime_offset h)) BadHandlerConfig in
  fail_if negb (is_multiple_of config_relative HANDLER_CONFIG_ALIGNMENT) with BadHandlerConfig;
  let runtime := smm_runtime_new (ic_smram_base config) (ic_smram_size config) (ic_num_cpus config) (sh_stack_size h)
                   config_relative (zlen (ic_handler_config config) mod 2 ^ 32) in
  let? _ := check_low_range common_base (sh_handler_mem_size h) in
  let? _ := check_low_range page_table_base SMM_IDENTITY_TABLE_SIZE in
  let? _ := for_each [common_entry; runtime_addr; config_addr; page_table_base] check_low_address in
  let? _ := match module_args_base with Some address => check_low_address address | None => Ok tt end in
  let? _ := for_each cpus (check_cpu h max_stub_size) in
  Ok {| pl_header := h; pl_common_base := common_base; pl_page_table_base := page_table_base; pl_cpus := cpus;
        pl_runtime_addr := runtime_addr; pl_config_addr := config_addr; pl_module_args_base := module_args_base;
        pl_common_entry := common_entry; pl_runtime := runtime |}.

(** The slot buffer afterwards, and the plan. *)
Definition prepare (image : list Z) (config : InstallConfig) (slots : list CpuSmmLayout)
    : list CpuSmmLayout * res InstallError Plan :=
  match (let? (h, stub) := check_image image config (zlen slots) in
         let? bases := place config (smram_layout config h stub) in Ok (h, stub, bases)) with
  | Ok (h, stub, (common_base, page_table_base)) =>
      let (slots', r) := compute_cpu_layout (smram_layout config h stub) slots in
      (slots', let? cpus := map_err Layout r in addresses config h stub common_base page_table_base cpus)
  | Err e => (slots, Err e)
  | Panic => (slots, Panic)
  end.

(** ** The writes *)

(** [ptr::write] and its kind at the pointer made from an address. *)
Definition poke {E} (address : Z) (l : list Z) : sres memory E unit :=
  fun m => (mem_write m (as_ptr address) l, Ok tt).

(** [copy_nonoverlapping] from the image. *)
Definition copy_image (image : list Z) (offset : Z) (address size : Z) : sres memory InstallError unit :=
  let! l := slift (or_panic (get_range image offset (offset + size))) in
  poke address l.

(** Rebase the 32-bit address at one fixup. *)
Definition apply_fixup (image : list Z) (p : Plan) (i : Z) : sres memory InstallError unit :=
  let! offset := slift (map_err Header (fixup (pl_header p) image i)) in
  let! at_ := slift (add_or_panic u64_max (pl_common_base p) offset) in
  fun m => poke at_ (le_enc 4 ((Bytes.le_dec (mem_bytes m (as_ptr at_) 4) + pl_common_base p mod 2 ^ 32) mod 2 ^ 32)) m.

Definition write_handler (image : list Z) (config : InstallConfig) (p : Plan) : sres memory InstallError unit :=
  let h := pl_header p in
  let! _ := poke (pl_common_base p) (zeros (sh_handler_mem_size h)) in
  let! _ := copy_image image (sh_handler_offset h) (pl_common_base p) (sh_handler_load_size h) in
  let! _ := sfor_each (upto (sh_fixup_count h)) (apply_fixup image p) in
  let! _ := poke (pl_runtime_addr p) (runtime_bytes (pl_runtime p)) in
  poke (pl_config_addr p) (ic_handler_config config).

(** [build_identity_tables]: the words of the table area, stored in place. *)
Definition table_bytes (base : Z) : list Z := concat (map (le_enc 8) (build_identity_tables base)).

Definition patch_entry_params (entry_addr : Z) (e : EntryDescriptor) (params : SmmEntryParams) : sres memory InstallError unit :=
  let! _ := slift (check_entry_params e) in
  let! params_addr := slift (ok_or (Prelude.checked_add u64_max entry_addr (ed_params_offset e)) Overflow) in
  poke params_addr (params_bytes params).

(** The module arguments and the canary of one CPU: the address stored in the
    entry parameters. *)
Definition write_module_args (p : Plan) (i : Z) (c : CpuSmmLayout) : sres memory InstallError Z :=
  match pl_module_args_base p with
  | Some base =>
      let! off := slift (or_panic (checked_mul usize_max i MODULE_ARGS_SIZE)) in
      let! addr := slift (ok_or (Prelude.checked_add u64_max base off) Overflow) in
      let! _ := poke addr (args_bytes {| ma_cpu := i; ma_canary := stack_bottom c |}) in
      let! _ := poke (stack_bottom c) (le_enc 8 (stack_bottom c)) in
      slift (Ok addr)
  | None => slift (Ok 0)
  end.

Definition entry_params (p : Plan) (cr3 i : Z) (c : CpuSmmLayout) (args : Z) : SmmEntryParams := {|
  ep_cpu := i; ep_stack_size := sh_stack_size (pl_header p); ep_stack_top := stack_top c;
  ep_common_entry := pl_common_entry p; ep_runtime := pl_runtime_addr p; ep_coreboot_module_args := args; ep_cr3 := cr3;
  ep_entry_base := entry_addr c |}.

Definition write_cpu (image : list Z) (p : Plan) (cr3 : Z) (ic : Z * CpuSmmLayout) : sres memory InstallError unit :=
  let (i, c) := ic in
  let! e := slift (map_err Header (entry (pl_header p) image (i mod 2 ^ 16))) in
  let! _ := copy_image image (ed_stub_offset e) (entry_addr c) (ed_stub_size e) in
  let! args := write_module_args p i c in
  patch_entry_params (entry_addr c) e (entry_params p cr3 i c args).

Definition write_image (image : list Z) (config : InstallConfig) (p : Plan) : sres memory InstallError InstalledSmmImage :=
  let! _ := write_handler image config p in
  let! _ := poke (pl_page_table_base p) (table_bytes (pl_page_table_base p)) in
  let cr3 := pl_page_table_base p in
  let! _ := sfor_each (zip (upto (zlen (pl_cpus p))) (pl_cpus p)) (write_cpu image p cr3) in
  slift (Ok {| in_header := pl_header p; in_common_base := pl_common_base p; in_common_entry := pl_common_entry p;
               in_runtime_addr := pl_runtime_addr p; in_cr3 := cr3; in_cpus := pl_cpus p |}).

Definition install_pic_image (image : list Z) (config : InstallConfig)
    : sres (memory * list CpuSmmLayout) InstallError InstalledSmmImage :=
  fun '(m, slots) =>
    match prepare image config slots with
    | (slots', Ok p) => let (m', r) := write_image image config p m in ((m', slots'), r)
    | (slots', Err e) => ((m, slots'), Err e)
    | (slots', Panic) => ((m, slots'), Panic)
    end.

(** ** The temporary relocation stub at the default SMBASE *)

Definition prepare_relocation (image : list Z) (config : DefaultRelocationCallbackConfig)
    : res InstallError (EntryDescriptor * Z) :=
  let? h := map_err Header (smm_parse image) in
  let? _ := check_mode h in
  fail_if sh_entry_count h =? 0 with NotEnoughEntries;
  let? stub := map_err Header (entry h image 0) in
  let? _ := check_entry_range h image stub in
  let? _ := check_entry_params stub in
  let? entry_addr := ok_or (Prelude.checked_add u64_max (dr_default_smbase config) SMM_ENTRY_OFFSET) Overflow in
  let? entry_end := ok_or (Prelude.checked_add u64_max entry_addr (ed_stub_size stub)) Overflow in
  let? page_tables := ok_or (Prelude.checked_add u64_max (dr_default_smbase config) SMM_RELOCATION_TABLE_OFFSET) Overflow in
  fail_if page_tables <? entry_end with BadEntryRange;
  fail_if negb (Z.land (dr_cr3 config) 0xfff =? 0) with BadAlignment;
  let? _ := for_each [entry_addr; dr_cr3 config; dr_callback config; dr_callback_arg config; dr_stack_top config]
              check_low_address in
  Ok (stub, entry_addr).

Definition install_default_relocation_callback_stub (image : list Z) (config : DefaultRelocationCallbackConfig)
    : sres memory InstallError unit :=
  let! (stub, entry_addr) := slift (prepare_relocation image config) in
  let! _ := copy_image image (ed_stub_offset stub) entry_addr (ed_stub_size stub) in
  patch_entry_params entry_addr stub {|
    ep_cpu := 0; ep_stack_size := 0; ep_stack_top := dr_stack_top config; ep_common_entry := dr_callback config;
    ep_runtime := dr_callback_arg config; ep_coreboot_module_args := 0; ep_cr3 := dr_cr3 config;
    ep_entry_base := entry_addr |}.
End install.

(** ** What the checks establish *)

Definition config_typed (c : InstallConfig) : Prop :=
  0 <= ic_smram_base c <= u64_max /\ 0 <= ic_smram_size c <= u64_max /\ 0 <= ic_num_cpus c <= u16_max /\
  0 <= ic_save_state_size c <= u32_max /\ bytes_ok (ic_handler_config c).

Section checked.
Context {T : Target}.

(** The loader-owned blocks lie behind each other in the handler memory. *)
Record blocks_ok (h : SmmImageHeader) : Prop := {
  bk_runtime : size_of_runtime <= sh_runtime_size h;
  bk_capacity : sh_handler_config_capacity h = HANDLER_CONFIG_CAPACITY;
  bk_config : sh_runtime_offset h + sh_runtime_size h <= sh_handler_config_offset h;
  bk_config_align : sh_handler_config_offset h mod HANDLER_CONFIG_ALIGNMENT = 0;
  bk_args : sh_module_args_offset h <> 0 ->
    MODULE_ARGS_SIZE * sh_entry_count h <= sh_module_args_size h /\
    sh_handler_config_offset h + HANDLER_CONFIG_CAPACITY <= sh_module_args_offset h
}.

Lemma validate_memory_blocks_Ok h u : header_typed h -> validate_memory_blocks h = Ok u -> blocks_ok h.
Proof.
  intros Ht H. unfold header_typed in Ht. unfold validate_memory_blocks in H. do 2 rust_step H. bool_hyp.
  do 2 rust_step H. apply ok_or_Ok, checked_add_Some in Ha as [-> ?]. apply ok_or_Ok, checked_add_Some in Ha0 as [-> ?].
  rust_step H. bool_hyp. constructor; auto; [by apply is_multiple_of_spec|]. intros Hne.
  rust_step H; [bool_cases; lia|]. repeat rust_step H. bool_hyp.
  match goal with H : ok_or _ _ = Ok _ |- _ => apply ok_or_Ok, checked_mul_Some in H as [-> ?] end.
  split; [lia|]. match goal with H : sh_handler_config_capacity h = _ |- _ => rewrite <- H end. lia.
Qed.

(** A descriptor whose stub and parameter block are in range. *)
Record descriptor_ok (h : SmmImageHeader) (image : list Z) (d : EntryDescriptor) : Prop := {
  dk_range : HEADER_SIZE <= ed_stub_offset d /\ ed_stub_offset d + ed_stub_size d <= zlen image;
  dk_params : 0 < ed_params_offset d /\ ed_params_offset d + PARAMS_SIZE <= ed_stub_size d;
  dk_size : ed_stub_size d <= u32_max
}.

Lemma descriptor_typed image off :
  bytes_ok image -> 0 <= off -> off + ENTRY_DESC_SIZE <= zlen image ->
  let d := descriptor_decode (sub image off ENTRY_DESC_SIZE) in
  0 <= ed_stub_offset d <= u32_max /\ 0 <= ed_stub_size d <= u32_max /\ 0 <= ed_entry_offset d <= u32_max /\
  0 <= ed_params_offset d <= u32_max.
Proof.
  unfold ENTRY_DESC_SIZE. intros Hb Ho Hl. assert (zlen (sub image off 16) = 16) by (apply zlen_sub; lia).
  cbn [descriptor_decode ed_stub_offset ed_stub_size ed_entry_offset ed_params_offset].
  split_and!; apply u32_at_ok; auto using bytes_ok_sub; lia.
Qed.

Lemma check_entry_params_Ok d u :
  check_entry_params d = Ok u <->
  ed_params_offset d + PARAMS_SIZE <= u32_max /\ ed_params_offset d <> 0 /\ ed_params_offset d mod align_of_u64 = 0 /\
  ed_params_offset d + PARAMS_SIZE <= ed_stub_size d.
Proof.
  destruct u. unfold check_entry_params. split.
  - intros H. repeat rust_step H. apply ok_or_Ok, checked_add_Some in Ha as [-> ?]. bool_hyp.
    split_and!; auto. by apply is_multiple_of_spec.
  - intros (? & ? & Hm & ?). rewrite checked_add_ok by lia. cbn [ok_or rbind]. apply is_multiple_of_spec in Hm.
    rewrite Hm. by guard_false.
Qed.

Lemma entry_typed h image i d :
  bytes_ok image -> header_ok image h -> 0 <= i -> entry h image i = Ok d ->
  0 <= ed_stub_offset d <= u32_max /\ 0 <= ed_stub_size d <= u32_max /\ 0 <= ed_entry_offset d <= u32_max /\
  0 <= ed_params_offset d <= u32_max.
Proof.
  intros Hb Hok Hi H. apply entry_Ok in H as [Hlt ->]; [|done..].
  pose proof (hk_table _ _ Hok) as Ht. pose proof (hk_typed _ _ Hok) as Hty. unfold file_range, header_typed, HEADER_SIZE, ENTRY_DESC_SIZE in *.
  apply descriptor_typed; unfold ENTRY_DESC_SIZE; auto; nia.
Qed.

Lemma check_entry_Ok h image i d u v :
  bytes_ok image -> header_ok image h -> 0 <= i -> entry h image i = Ok d ->
  check_entry_range h image d = Ok u -> check_entry_params d = Ok v -> descriptor_ok h image d.
Proof.
  intros Hb Hok Hi He Hr Hp. pose proof (entry_typed _ _ _ _ Hb Hok Hi He) as Ht.
  apply check_entry_params_Ok in Hp as (_ & ? & _ & ?). unfold check_entry_range in Hr. repeat rust_step Hr.
  apply ok_or_Ok, checked_add_Some in Ha as [-> ?]. bool_hyp. rewrite (hk_size _ _ Hok) in *.
  constructor; unfold PARAMS_SIZE in *; lia.
Qed.

(** The descriptor loop: every descriptor is in range and no stub is larger than
    the result. *)
Lemma check_descriptors_Ok h image l m m' :
  bytes_ok image -> header_ok image h -> (forall i, i ∈ l -> 0 <= i) ->
  fold_each l m (check_descriptor h image) = Ok m' ->
  m <= m' /\ (forall i, i ∈ l -> exists d, entry h image i = Ok d /\ descriptor_ok h image d /\ check_entry_params d = Ok tt
              /\ ed_stub_size d <= m') /\ (m <= u32_max -> m' <= u32_max).
Proof.
  intros Hb Hok. revert m. induction l as [|i l IH]; intros m Hi H; cbn [fold_each] in H.
  { injection H as <-. split_and!; auto; [lia|]. intros i Hl. by apply elem_of_nil in Hl. }
  apply rbind_Ok in H as (m1 & H1 & H). apply IH in H as (Hm & Hall & Hmax); [|intros j Hj; apply Hi; by right].
  unfold check_descriptor in H1. repeat rust_step H1. injection H1 as <-. apply map_err_Ok in Ha.
  destruct a0, a1. pose proof (check_entry_Ok _ _ _ _ _ _ Hb Hok (Hi i ltac:(left)) Ha Ha0 Ha1) as Hd.
  split; [lia|]. split; [|pose proof (dk_size _ _ _ Hd); lia]. intros j Hj. apply elem_of_cons in Hj as [->|Hj]; [|by apply Hall].
  exists a. split_and!; auto. lia.
Qed.

Lemma elem_of_upto i n : i ∈ upto n <-> 0 <= i < n.
Proof.
  unfold upto. rewrite list_elem_of_In, in_map_iff. split.
  - intros (k & <- & Hk%in_seq). lia.
  - intros Hi. exists (Z.to_nat i). rewrite in_seq. lia.
Qed.

(** What [check_image] accepts. *)
Record image_ok (image : list Z) (config : InstallConfig) (h : SmmImageHeader) (stub : Z) : Prop := {
  ik_header : header_ok image h;
  ik_mode : check_mode h = Ok tt;
  ik_blocks : blocks_ok h;
  ik_count : ic_num_cpus config <= sh_entry_count h;
  ik_config : zlen (ic_handler_config config) <= HANDLER_CONFIG_CAPACITY;
  ik_align : ic_handler_config_align config <= HANDLER_CONFIG_ALIGNMENT;
  ik_fixups : forall i, 0 <= i < sh_fixup_count h -> exists off, fixup h image i = Ok off;
  ik_entries : forall i, 0 <= i < ic_num_cpus config ->
    exists d, entry h image i = Ok d /\ descriptor_ok h image d /\ check_entry_params d = Ok tt /\ ed_stub_size d <= stub;
  ik_stub : 0 <= stub <= u32_max
}.

Lemma check_image_Ok image config slots h stub :
  bytes_ok image -> check_image image config slots = Ok (h, stub) -> image_ok image config h stub.
Proof.
  intros Hb H. unfold check_image in H. repeat rust_step H. injection H as <- <-. bool_hyp.
  apply map_err_Ok in Ha. pose proof (proj1 (smm_parse_spec _ _ Hb) Ha) as Hok.
  destruct a0. apply validate_memory_blocks_Ok in Ha1; [|apply (hk_typed _ _ Hok)].
  apply check_descriptors_Ok in Ha3 as (Hm & Hall & Hmax); [|done..|intros i Hi%elem_of_upto; lia].
  rewrite for_each_Ok in Ha2. constructor; auto.
  - by rewrite <- (bk_capacity _ Ha1).
  - intros i Hi. specialize (Ha2 i). rewrite elem_of_upto in Ha2. specialize (Ha2 Hi).
    apply rbind_Ok in Ha2 as (off & Hoff%map_err_Ok & _). eauto.
  - intros i Hi. apply Hall. by apply elem_of_upto.
  - split; [done|]. apply Hmax. unfold u32_max. lia.
Qed.
End checked.

Section plans.
Context {T : Target}.

Lemma smram_layout_typed config h stub :
  config_typed config -> header_typed h -> 0 <= stub <= u32_max -> layout_typed (smram_layout config h stub).
Proof.
  unfold config_typed, header_typed, layout_typed. simpl. unfold SMM_IDENTITY_TABLE_SIZE, u32_max. intros. lia.
Qed.

Lemma check_low_address_Ok a u : check_low_address a = Ok u <-> a < LOW_4G_END.
Proof. destruct u. unfold check_low_address. case_match; bool_hyp; naive_solver lia. Qed.

Lemma check_low_range_Ok a n u : 0 <= n -> check_low_range a n = Ok u <-> a < LOW_4G_END /\ a + n <= LOW_4G_END.
Proof.
  destruct u. unfold check_low_range, LOW_4G_END. change (Z.shiftl 1 32) with 4294967296. intros Hn. split.
  - intros H. repeat rust_step H. apply ok_or_Ok, checked_add_Some in Ha as [-> ?]. bool_hyp. done.
  - intros [? ?]. rewrite checked_add_ok by (unfold u64_max; lia). cbn [ok_or rbind]. by guard_false.
Qed.

(** A CPU's regions, all below 4 GiB. *)
Definition cpu_low (c : CpuSmmLayout) : Prop :=
  smbase c < LOW_4G_END /\ entry_addr c < LOW_4G_END /\ save_state_base c < LOW_4G_END /\ save_state_top c < LOW_4G_END /\
  stack_bottom c < LOW_4G_END /\ stack_top c < LOW_4G_END.

Lemma check_cpu_Ok h stub c u :
  0 <= stub -> 0 <= sh_stack_size h -> check_cpu h stub c = Ok u <->
  cpu_low c /\ entry_addr c + stub <= LOW_4G_END /\ stack_bottom c + sh_stack_size h <= LOW_4G_END.
Proof.
  intros Hs Hk. destruct u. unfold check_cpu, cpu_low. split.
  - intros H. apply rbind_Ok in H as (u & Hall & H). rewrite for_each_Ok in Hall.
    apply rbind_Ok in H as (u' & Hr & H). apply check_low_range_Ok in Hr, H; [|done..].
    assert (forall a, a ∈ [smbase c; entry_addr c; save_state_base c; save_state_top c; stack_bottom c; stack_top c] -> a < LOW_4G_END).
    { intros a Ha. by apply (check_low_address_Ok a tt), Hall. }
    split_and!; try apply H0; rewrite ?elem_of_cons; tauto.
  - intros ((? & ? & ? & ? & ? & ?) & ? & ?).
    assert (E : for_each [smbase c; entry_addr c; save_state_base c; save_state_top c; stack_bottom c; stack_top c] check_low_address = Ok tt).
    { apply for_each_Ok. intros a Ha. apply check_low_address_Ok. rewrite !elem_of_cons, elem_of_nil in Ha.
      naive_solver. }
    rewrite E. cbn [rbind]. rewrite (proj2 (check_low_range_Ok (entry_addr c) stub tt Hs)) by done. cbn [rbind].
    by apply check_low_range_Ok.
Qed.

(** A plan that [prepare] accepts. *)
Record plan_ok (image : list Z) (config : InstallConfig) (stub : Z) (p : Plan) : Prop := {
  po_image : image_ok image config (pl_header p) stub;
  po_common : compute_common_base (smram_layout config (pl_header p) stub) = Ok (pl_common_base p);
  po_tables : compute_page_table_base (smram_layout config (pl_header p) stub) = Ok (pl_page_table_base p);
  po_cpus : exists slots slots', compute_cpu_layout (smram_layout config (pl_header p) stub) slots = (slots', Ok (pl_cpus p));
  po_runtime_addr : pl_runtime_addr p = pl_common_base p + sh_runtime_offset (pl_header p);
  po_config_addr : pl_config_addr p = pl_common_base p + sh_handler_config_offset (pl_header p);
  po_args : pl_module_args_base p =
    if sh_module_args_offset (pl_header p) =? 0 then None else Some (pl_common_base p + sh_module_args_offset (pl_header p));
  po_entry : pl_common_entry p = pl_common_base p + sh_handler_entry_offset (pl_header p);
  po_runtime : pl_runtime p = smm_runtime_new (ic_smram_base config) (ic_smram_size config) (ic_num_cpus config)
    (sh_stack_size (pl_header p)) (sh_handler_config_offset (pl_header p) - sh_runtime_offset (pl_header p))
    (zlen (ic_handler_config config) mod 2 ^ 32);
  po_relative : (sh_handler_config_offset (pl_header p) - sh_runtime_offset (pl_header p)) mod HANDLER_CONFIG_ALIGNMENT = 0;
  po_top : ic_smram_base config + ic_smram_size config <= u64_max /\
    Z.land (ic_smram_base config + ic_smram_size config) 0xfff = 0;
  po_aligned : Z.land (pl_page_table_base p) 0xfff = 0;
  po_low : pl_common_base p + sh_handler_mem_size (pl_header p) <= LOW_4G_END /\
    pl_page_table_base p + SMM_IDENTITY_TABLE_SIZE <= LOW_4G_END;
  po_cpu_low : forall c, c ∈ pl_cpus p -> cpu_low c /\ entry_addr c + stub <= LOW_4G_END /\
    stack_bottom c + sh_stack_size (pl_header p) <= LOW_4G_END
}.

Lemma sinstall_checked_add_Ok a b c : checked_add a b = Ok c <-> c = a + b /\ a + b <= u64_max.
Proof. unfold checked_add. rewrite ok_or_Ok. apply checked_add_Some. Qed.

Lemma install_prepare_Ok image config slots slots' p :
  bytes_ok image -> config_typed config -> prepare image config slots = (slots', Ok p) ->
  exists stub, plan_ok image config stub p.
Proof.
  intros Hb Hc H. unfold prepare in H.
  destruct (rbind _ _) as [[[h stub] [base tables]]| |] eqn:E; [|discriminate..].
  apply rbind_Ok in E as ([h' stub'] & Hi & E). apply rbind_Ok in E as (bases & Hpl & E).
  injection E as -> -> ->. apply check_image_Ok in Hi; [|done].
  pose proof (hk_typed _ _ (ik_header _ _ _ _ Hi)) as Hht. pose proof Hht as Hht'. unfold header_typed in Hht'.
  pose proof (ik_stub _ _ _ _ Hi) as Hstub.
  destruct (compute_cpu_layout _ _) as [slots1 r] eqn:Hcl. injection H as -> H.
  apply rbind_Ok in H as (cpus & Hr%map_err_Ok & H). subst r.
  unfold place in Hpl. repeat rust_step Hpl. injection Hpl as <- <-. bool_hyp.
  apply ok_or_Ok, checked_add_Some in Ha as [-> Htop]. apply map_err_Ok in Ha0, Ha1.
  unfold addresses in H. do 5 rust_step H. rust_step H. bool_hyp.
  apply sinstall_checked_add_Ok in Ha as [-> _], Ha2 as [-> _], Ha4 as [-> _].
  apply ok_or_Ok, checked_sub_Some in Ha5 as [-> _].
  do 5 rust_step H. injection H as <-. exists stub.
  apply check_low_range_Ok in Ha, Ha2; [|unfold SMM_IDENTITY_TABLE_SIZE; lia..].
  constructor; cbn [pl_header pl_common_base pl_page_table_base pl_cpus pl_runtime_addr pl_config_addr pl_module_args_base
    pl_common_entry pl_runtime]; auto; try tauto.
  - eauto.
  - destruct (sh_module_args_offset h =? 0) eqn:Em; cbn [negb] in Ha3.
    + by injection Ha3 as <-.
    + apply rbind_Ok in Ha3 as (x & Hx & Ha3). apply sinstall_checked_add_Ok in Hx as [-> _]. by injection Ha3 as <-.
  - by apply is_multiple_of_spec.
  - intros c Hin. match goal with H : for_each cpus _ = Ok _ |- _ => rewrite for_each_Ok in H; specialize (H c Hin) end.
    by eapply check_cpu_Ok; [..|eassumption]; lia.
Qed.
End plans.
