(* ===== verification/SmmEffects.v ===== *)
(** * SmmEffects: what an installation leaves in SMRAM

    Under the checks of [prepare] no store of [write_image] can fail, so the second
    half of the installation is a pure update of memory, [image_write].  The lemmas
    say what it leaves in each region, the theorems what [install_pic_image] and the
    relocation stub promise. *)

From S2P Require Import Prelude.
From S2P Require Import Bytes.
From S2P Require Import Wire.
From S2P Require Import Memory.
From S2P Require Import SmmLayout.
From S2P Require Import SmmImage.
From S2P Require Import SmmInstall.
From Stdlib Require Import ZArith Lia.
From stdpp Require Import base numbers list option.

#[local] Open Scope Z_scope.

(** ** The writes as pure updates of memory *)

Section effects.
Context {T : Target}.

Lemma as_ptr_low a : 0 <= a < LOW_4G_END -> as_ptr a = a.
Proof.
  unfold as_ptr, LOW_4G_END. change (Z.shiftl 1 32) with 4294967296. pose proof usize_max_bounds. unfold u32_max in *.
  intros. apply Z.mod_small. lia.
Qed.

Lemma zlen_runtime_bytes r : zlen (runtime_bytes r) = RUNTIME_FIELDS.
Proof. unfold runtime_bytes. rewrite zlen_concat. cbn [runtime_pieces sum_len foldr]. rewrite !zlen_le_enc. reflexivity. Qed.

Lemma zlen_params_bytes p : zlen (params_bytes p) = PARAMS_SIZE.
Proof. unfold params_bytes. rewrite zlen_concat. cbn [params_pieces sum_len foldr]. rewrite !zlen_le_enc. reflexivity. Qed.

Lemma zlen_args_bytes a : zlen (args_bytes a) = MODULE_ARGS_SIZE.
Proof. unfold args_bytes. rewrite zlen_app, !zlen_le_enc. reflexivity. Qed.

Lemma size_of_runtime_bounds : RUNTIME_FIELDS <= size_of_runtime < RUNTIME_FIELDS + 8.
Proof.
  unfold size_of_runtime, align_of_u64, RUNTIME_FIELDS.
  destruct usize_bits_ok as [-> | ->]; vm_compute; split; (discriminate || reflexivity).
Qed.

Lemma zlen_table_bytes base : zlen (table_bytes base) = SMM_IDENTITY_TABLE_SIZE.
Proof.
  unfold table_bytes. rewrite zlen_concat, (sum_len_const 8).
  - unfold zlen. rewrite length_map. unfold build_identity_tables, pd_writes, pdpt_writes.
    rewrite !length_foldl_insert, length_insert, length_replicate. reflexivity.
  - apply Forall_map, Forall_true. intros x. by rewrite zlen_le_enc.
Qed.

(** The stores of one fixup, of the handler, and of one CPU. *)
Definition fixup_write (image : list Z) (p : Plan) (i : Z) (m : memory) : memory :=
  let at_ := pl_common_base p + u32_at image (sh_fixups_offset (pl_header p) + i * 4) in
  mem_write m at_ (le_enc 4 ((Bytes.le_dec (mem_bytes m at_ 4) + pl_common_base p mod 2 ^ 32) mod 2 ^ 32)).

Definition handler_write (image : list Z) (config : InstallConfig) (p : Plan) (m : memory) : memory :=
  let h := pl_header p in
  let zeroed := mem_write m (pl_common_base p) (zeros (sh_handler_mem_size h)) in
  let loaded := mem_write zeroed (pl_common_base p) (sub image (sh_handler_offset h) (sh_handler_load_size h)) in
  let fixed := foldl (fun m i => fixup_write image p i m) loaded (upto (sh_fixup_count h)) in
  mem_write (mem_write fixed (pl_runtime_addr p) (runtime_bytes (pl_runtime p))) (pl_config_addr p) (ic_handler_config config).

Definition args_address (p : Plan) (i : Z) : Z :=
  match pl_module_args_base p with Some base => base + i * MODULE_ARGS_SIZE | None => 0 end.

Definition args_write (p : Plan) (i : Z) (c : CpuSmmLayout) (m : memory) : memory :=
  match pl_module_args_base p with
  | Some base => mem_write (mem_write m (base + i * MODULE_ARGS_SIZE) (args_bytes {| ma_cpu := i; ma_canary := stack_bottom c |}))
                   (stack_bottom c) (le_enc 8 (stack_bottom c))
  | None => m
  end.

Definition descriptor_of (image : list Z) (h : SmmImageHeader) (i : Z) : EntryDescriptor :=
  descriptor_decode (sub image (sh_entries_offset h + i * ENTRY_DESC_SIZE) ENTRY_DESC_SIZE).

Definition cpu_write (image : list Z) (p : Plan) (ic : Z * CpuSmmLayout) (m : memory) : memory :=
  let (i, c) := ic in
  let d := descriptor_of image (pl_header p) i in
  mem_write (args_write p i c (mem_write m (entry_addr c) (sub image (ed_stub_offset d) (ed_stub_size d))))
    (entry_addr c + ed_params_offset d) (params_bytes (entry_params p (pl_page_table_base p) i c (args_address p i))).

Definition cpus_write (image : list Z) (p : Plan) (m : memory) : memory :=
  foldl (fun m ic => cpu_write image p ic m) m (zip (upto (zlen (pl_cpus p))) (pl_cpus p)).

Definition image_write (image : list Z) (config : InstallConfig) (p : Plan) (m : memory) : memory :=
  cpus_write image p (mem_write (handler_write image config p m) (pl_page_table_base p) (table_bytes (pl_page_table_base p))).

Definition installed (p : Plan) : InstalledSmmImage := {|
  in_header := pl_header p; in_common_base := pl_common_base p; in_common_entry := pl_common_entry p;
  in_runtime_addr := pl_runtime_addr p; in_cr3 := pl_page_table_base p; in_cpus := pl_cpus p |}.

(** ** Geometry of a plan *)

(** Where the regions lie: the stacks, the windows, the handler and the tables,
    from the bottom of SMRAM to its top. *)
Lemma plan_regions image config stub p :
  bytes_ok image -> config_typed config -> plan_ok image config stub p ->
  let top := ic_smram_base config + ic_smram_size config in
  0 <= ic_smram_base config <= pl_common_base p /\ pl_common_base p mod 4096 = 0 /\
  pl_common_base p + sh_handler_mem_size (pl_header p) <= pl_page_table_base p /\
  pl_page_table_base p + SMM_IDENTITY_TABLE_SIZE <= top /\ pl_page_table_base p mod 4096 = 0 /\
  zlen (pl_cpus p) = ic_num_cpus config.
Proof.
  intros Hb Hc Hp. simpl. pose proof (po_image _ _ _ _ Hp) as Hi. pose proof (ik_header _ _ _ _ Hi) as Hh.
  pose proof (smram_layout_typed config _ stub Hc (hk_typed _ _ Hh) (ik_stub _ _ _ _ Hi)) as Hl.
  destruct (compute_common_base_Ok _ _ Hl (po_common _ _ _ _ Hp)) as (hs & ts & Hhs & H1 & H1m & H2 & H3 & H4 & H5).
  pose proof (po_tables _ _ _ _ Hp) as Ht. unfold compute_page_table_base, SMM_HANDLER_ALIGNMENT in Ht.
  rewrite (po_common _ _ _ _ Hp) in Ht. cbn [rbind] in Ht. rewrite Hhs in Ht. cbn [rbind] in Ht.
  apply ok_or_Ok, checked_add_Some in Ht as [Ht _].
  destruct (po_cpus _ _ _ _ Hp) as (sl & sl' & Hcl).
  destruct (compute_cpu_layout_Ok _ _ _ _ Hl Hcl) as (? & ? & ? & ? & ? & _ & Hn & _).
  cbn [smram_layout smram_base smram_size handler_mem_size page_table_size entry_count] in *.
  unfold config_typed in Hc. split_and!; auto; try lia.
  rewrite Ht, <- Z.add_mod_idemp_l, H4, Z.add_0_l by lia. done.
Qed.

Lemma land_fff x : 0 <= x -> Z.land x 0xfff = x mod 4096.
Proof. intros. change 0xfff with (Z.ones 12). rewrite Z.land_ones by lia. done. Qed.

(** The page tables end where SMRAM ends. *)
Lemma plan_tables_top image config stub p :
  bytes_ok image -> config_typed config -> plan_ok image config stub p ->
  pl_page_table_base p + SMM_IDENTITY_TABLE_SIZE = ic_smram_base config + ic_smram_size config.
Proof.
  intros Hb Hc Hp. pose proof (po_image _ _ _ _ Hp) as Him. pose proof (ik_header _ _ _ _ Him) as Hh.
  pose proof (hk_typed _ _ Hh) as Ht. unfold header_typed in Ht. unfold config_typed in Hc. pose proof (po_top _ _ _ _ Hp) as [Htop Hal].
  rewrite land_fff in Hal by lia. pose proof (po_tables _ _ _ _ Hp) as Hpt. pose proof (po_common _ _ _ _ Hp) as Hcb.
  unfold compute_page_table_base in Hpt. rewrite Hcb in Hpt. cbn [rbind] in Hpt. unfold compute_common_base in Hcb.
  cbn [smram_layout smram_base smram_size handler_mem_size page_table_size] in *. unfold SMM_HANDLER_ALIGNMENT in *.
  apply rbind_Ok in Hpt as (hs & Hhs & Hpt). apply ok_or_Ok, checked_add_Some in Hpt as [-> _].
  rust_step Hcb. rust_step Hcb. apply ok_or_Ok, checked_add_Some in Ha as [-> _]. rewrite Hhs in Hcb. cbn [rbind] in Hcb.
  change (align_up SMM_IDENTITY_TABLE_SIZE 4096) with (@Ok LayoutError Z 24576) in Hcb. cbn [rbind] in Hcb.
  repeat rust_step Hcb. injection Hcb as <-. apply ok_or_Ok, checked_add_Some in Ha as [-> _].
  apply ok_or_Ok, checked_sub_Some in Ha0 as [-> ?]. change 4096 with (2 ^ 12) in *.
  destruct (align_up_Ok (sh_handler_mem_size (pl_header p)) 12 hs ltac:(lia) ltac:(lia) Hhs) as (? & Hm & ?).
  rewrite land_not_mask by (unfold u64_max in *; lia). set (below := _ - _).
  assert (below mod 2 ^ 12 = 0) as Hbl.
  { unfold below. replace (ic_smram_base config + ic_smram_size config - (hs + 24576)) with (ic_smram_base config + ic_smram_size config - hs + (-6) * 2 ^ 12) by lia.
    rewrite Z.mod_add by lia. rewrite Zminus_mod, Hal, Hm. done. }
  pose proof (Z.div_mod below (2 ^ 12)). unfold SMM_IDENTITY_TABLE_SIZE, below in *. lia.
Qed.

(** Where the regions of one CPU lie. *)
Lemma plan_cpu image config stub p (i : nat) c :
  bytes_ok image -> config_typed config -> plan_ok image config stub p -> pl_cpus p !! i = Some c ->
  Z.of_nat i < ic_num_cpus config /\ 0 < sh_stack_size (pl_header p) /\
  ic_smram_base config <= stack_bottom c /\ stack_top c = stack_bottom c + sh_stack_size (pl_header p) /\
  stack_top c <= ic_smram_base config + sh_stack_size (pl_header p) * ic_num_cpus config /\
  ic_smram_base config + sh_stack_size (pl_header p) * ic_num_cpus config + 0x8000 <= entry_addr c /\
  entry_addr c + stub <= save_state_base c /\ save_state_top c <= pl_common_base p /\
  save_state_base c < save_state_top c /\ 0 <= stub.
Proof.
  intros Hb Hc Hp Hi. pose proof (po_image _ _ _ _ Hp) as Him. pose proof (ik_header _ _ _ _ Him) as Hh.
  pose proof (smram_layout_typed config _ stub Hc (hk_typed _ _ Hh) (ik_stub _ _ _ _ Him)) as Hl.
  destruct (po_cpus _ _ _ _ Hp) as (sl & sl' & Hcl).
  destruct (compute_cpu_layout_Ok _ _ _ _ Hl Hcl) as (common & se & needed & per & first & Hpk & Hn & Hall).
  destruct (Hall i c Hi) as [Hlt Hs]. pose proof (slot_bounds _ _ _ _ _ _ _ _ Hpk Hs ltac:(lia)) as Hbd.
  pose proof (pk_sizes _ _ _ _ _ _ Hpk) as Hsz. pose proof (pk_common _ _ _ _ _ _ Hpk) as Hcm.
  rewrite (po_common _ _ _ _ Hp) in Hcm. injection Hcm as <-. pose proof (pk_stacks _ _ _ _ _ _ Hpk) as Hse. destruct Hs.
  cbn [smram_layout smram_base stack_size save_state_size entry_stub_size entry_count] in *. lia.
Qed.

(** Two CPUs share nothing. *)
Lemma plan_cpus_apart image config stub p (i j : nat) c d :
  bytes_ok image -> config_typed config -> plan_ok image config stub p ->
  pl_cpus p !! i = Some c -> pl_cpus p !! j = Some d -> i <> j ->
  forall r s, r ∈ cpu_ranges (smram_layout config (pl_header p) stub) c ->
    s ∈ cpu_ranges (smram_layout config (pl_header p) stub) d -> SmmLayout.disjoint r s.
Proof.
  intros Hb Hc Hp Hi Hj Hne r s Hr Hs. pose proof (po_image _ _ _ _ Hp) as Him. pose proof (ik_header _ _ _ _ Him) as Hh.
  pose proof (smram_layout_typed config _ stub Hc (hk_typed _ _ Hh) (ik_stub _ _ _ _ Him)) as Hl.
  destruct (po_cpus _ _ _ _ Hp) as (sl & sl' & Hcl).
  destruct (compute_cpu_layout_Ok _ _ _ _ Hl Hcl) as (common & se & needed & per & first & Hpk & Hn & Hall).
  destruct (Hall i c Hi) as [? Hci]. destruct (Hall j d Hj) as [? Hdj].
  destruct (decide (i < j)%nat).
  - eapply (cpus_apart _ _ _ _ _ _ _ _ c d Hpk Hci Hdj); eauto; lia.
  - apply disjoint_sym. eapply (cpus_apart _ _ _ _ _ _ _ _ d c Hpk Hdj Hci); eauto; lia.
Qed.
End effects.

Section pure.
Context {T : Target}.

Lemma poke_low {E} a l m : 0 <= a < LOW_4G_END -> @poke _ E a l m = (mem_write m a l, Ok tt).
Proof. intros Ha. unfold poke. by rewrite as_ptr_low. Qed.

Lemma copy_image_low image off a n m :
  0 <= off -> 0 <= n -> off + n <= zlen image -> 0 <= a < LOW_4G_END ->
  copy_image image off a n m = (mem_write m a (sub image off n), Ok tt).
Proof.
  intros Ho Hn Hl Ha. unfold copy_image, sbind, slift.
  assert (E : get_range image off (off + n) = Some (sub image off n)).
  { apply get_range_Some. split_and!; [lia..|]. f_equal. lia. }
  rewrite E. cbn [or_panic]. by apply poke_low.
Qed.

Lemma lookup_indexed {A} (l : list A) k x :
  zip (upto (zlen l)) l !! k = Some x <-> exists c, l !! k = Some c /\ x = (Z.of_nat k, c).
Proof.
  rewrite lookup_zip_with_Some. unfold upto, zlen. rewrite Nat2Z.id. change (map Z.of_nat) with (fmap (M := list) Z.of_nat).
  split.
  - intros (i & c & -> & Hi & Hc). apply list_lookup_fmap_Some in Hi as (j & -> & Hj).
    apply lookup_seq in Hj as [-> _]. eauto.
  - intros (c & Hc & ->). exists (Z.of_nat k), c. split_and!; [done| |done].
    apply list_lookup_fmap_Some. exists k. split; [done|]. apply lookup_seq_lt. by eapply lookup_lt_Some.
Qed.

Lemma elem_of_indexed {A} (l : list A) x :
  x ∈ zip (upto (zlen l)) l -> exists k c, l !! k = Some c /\ x = (Z.of_nat k, c).
Proof. intros Hx. apply list_elem_of_lookup_1 in Hx as [k Hk]. apply lookup_indexed in Hk as (c & ? & ?). eauto. Qed.

Section plan.
Context (image : list Z) (config : InstallConfig) (stub : Z) (p : Plan).
Hypothesis (Hb : bytes_ok image) (Hc : config_typed config) (Hp : plan_ok image config stub p).
Let h := pl_header p.

Lemma plan_header : header_ok image h.
Proof. apply (ik_header _ _ _ _ (po_image _ _ _ _ Hp)). Qed.

(** The blocks of the handler memory, in order. *)
Lemma plan_blocks :
  0 <= sh_handler_load_size h <= sh_runtime_offset h /\ sh_runtime_offset h + RUNTIME_FIELDS <= sh_handler_config_offset h /\
  sh_handler_config_offset h + HANDLER_CONFIG_CAPACITY <= sh_handler_mem_size h /\
  (sh_module_args_offset h <> 0 -> sh_handler_config_offset h + HANDLER_CONFIG_CAPACITY <= sh_module_args_offset h /\
     sh_module_args_offset h + ic_num_cpus config * MODULE_ARGS_SIZE <= sh_handler_mem_size h) /\
  zlen (ic_handler_config config) <= HANDLER_CONFIG_CAPACITY.
Proof.
  pose proof plan_header as Hh. pose proof (po_image _ _ _ _ Hp) as Hi. pose proof (ik_blocks _ _ _ _ Hi) as Hbk.
  pose proof (hk_typed _ _ Hh) as Ht. unfold header_typed in Ht. pose proof (hk_runtime _ _ Hh) as Hr.
  pose proof (hk_config _ _ Hh) as Hcf. pose proof (hk_args _ _ Hh) as Ha. pose proof size_of_runtime_bounds.
  destruct Hbk as [B1 B2 B3 B4 B5]. fold h in B1, B2, B3, B4, B5. unfold memory_range in *. rewrite B2 in Hcf.
  pose proof (ik_count _ _ _ _ Hi) as Hn. fold h in Hn. unfold config_typed in Hc.
  split_and!; try lia; [|apply (ik_config _ _ _ _ Hi)].
  intros Hne. specialize (B5 Hne). specialize (Ha (or_introl Hne)). unfold MODULE_ARGS_SIZE in *. lia.
Qed.

Lemma plan_fixup i :
  0 <= i < sh_fixup_count h ->
  fixup h image i = Ok (u32_at image (sh_fixups_offset h + i * 4)) /\
  0 <= u32_at image (sh_fixups_offset h + i * 4) /\ u32_at image (sh_fixups_offset h + i * 4) + 4 <= sh_handler_load_size h.
Proof.
  intros Hi. destruct (ik_fixups _ _ _ _ (po_image _ _ _ _ Hp) i Hi) as [off Hoff]. fold h in Hoff.
  pose proof Hoff as Hoff'. apply fixup_Ok in Hoff' as (_ & Ho & Hl); [|apply plan_header|lia]. subst off. split; [done|].
  pose proof (hk_fixups _ _ plan_header ltac:(lia)) as Hf. unfold file_range, HEADER_SIZE in Hf.
  split; [|done]. apply u32_at_ok; auto; lia.
Qed.

Lemma apply_fixup_pure i m : i ∈ upto (sh_fixup_count h) -> apply_fixup image p i m = (fixup_write image p i m, Ok tt).
Proof.
  intros Hi%elem_of_upto. destruct (plan_fixup i Hi) as (Hf & H0 & Hl). unfold apply_fixup, sbind, slift. fold h.
  rewrite Hf. cbn [map_err]. pose proof (plan_regions _ _ _ _ Hb Hc Hp) as Hg. simpl in Hg. fold h in Hg.
  pose proof (po_low _ _ _ _ Hp) as [Hlow _]. fold h in Hlow. pose proof plan_blocks.
  unfold LOW_4G_END, HANDLER_CONFIG_CAPACITY, RUNTIME_FIELDS in *. change (Z.shiftl 1 32) with 4294967296 in *.
  unfold add_or_panic. rewrite checked_add_ok by (unfold u64_max; lia). cbn [or_panic].
  unfold fixup_write. fold h. rewrite poke_low, as_ptr_low by (unfold LOW_4G_END; change (Z.shiftl 1 32) with 4294967296; lia).
  done.
Qed.

Lemma write_handler_pure m : write_handler image config p m = (handler_write image config p m, Ok tt).
Proof.
  pose proof (plan_regions _ _ _ _ Hb Hc Hp) as Hg. simpl in Hg. fold h in Hg.
  pose proof (po_low _ _ _ _ Hp) as [Hlow _]. fold h in Hlow. pose proof plan_blocks.
  unfold HANDLER_CONFIG_CAPACITY, RUNTIME_FIELDS in *. pose proof (hk_handler _ _ plan_header) as Hfr.
  unfold file_range, HEADER_SIZE in Hfr.
  unfold write_handler, sbind. fold h. rewrite poke_low by lia. rewrite copy_image_low by lia.
  rewrite (sfor_each_pure (fixup_write image p)) by (intros; by apply apply_fixup_pure).
  rewrite (po_runtime_addr _ _ _ _ Hp), (po_config_addr _ _ _ _ Hp). fold h.
  rewrite !poke_low by lia. unfold handler_write. fold h. by rewrite (po_runtime_addr _ _ _ _ Hp), (po_config_addr _ _ _ _ Hp).
Qed.

(** The descriptor of a CPU. *)
Lemma plan_entry i :
  0 <= i < ic_num_cpus config ->
  entry h image i = Ok (descriptor_of image h i) /\ descriptor_ok h image (descriptor_of image h i) /\
  check_entry_params (descriptor_of image h i) = Ok tt /\ 0 <= ed_stub_size (descriptor_of image h i) <= stub /\
  i mod 2 ^ 16 = i.
Proof.
  intros Hi. destruct (ik_entries _ _ _ _ (po_image _ _ _ _ Hp) i Hi) as (d & He & Hd & Hpa & Hs). fold h in He, Hd.
  pose proof (entry_typed h image i d Hb plan_header ltac:(lia) He).
  pose proof He as He'. apply entry_Ok in He' as [_ Heq]; [|apply plan_header|lia].
  change (d = descriptor_of image h i) in Heq. subst d. split_and!; auto; try lia.
  unfold config_typed, u16_max in Hc. apply Z.mod_small. lia.
Qed.

Lemma write_module_args_pure (k : nat) c m :
  pl_cpus p !! k = Some c ->
  write_module_args p (Z.of_nat k) c m = (args_write p (Z.of_nat k) c m, Ok (args_address p (Z.of_nat k))).
Proof.
  intros Hk. pose proof (plan_cpu _ _ _ _ _ _ Hb Hc Hp Hk) as Hcpu. fold h in Hcpu.
  pose proof (plan_regions _ _ _ _ Hb Hc Hp) as Hg. simpl in Hg. fold h in Hg.
  pose proof (po_low _ _ _ _ Hp) as [Hlow _]. fold h in Hlow. pose proof plan_blocks as Hbl.
  unfold write_module_args, args_write, args_address. rewrite (po_args _ _ _ _ Hp). fold h.
  destruct (sh_module_args_offset h =? 0) eqn:Em; [done|]. bool_hyp. destruct Hbl as (? & ? & ? & Hargs & _).
  specialize (Hargs Em). pose proof usize_max_bounds. unfold config_typed, u16_max in Hc.
  unfold MODULE_ARGS_SIZE, HANDLER_CONFIG_CAPACITY, RUNTIME_FIELDS, SMM_IDENTITY_TABLE_SIZE in *.
  assert (LOW_4G_END = 4294967296) as E4 by reflexivity. unfold sbind, slift.
  rewrite checked_mul_ok by (unfold u32_max in *; lia). cbn [or_panic].
  rewrite checked_add_ok by (unfold u64_max; lia). cbn [ok_or]. rewrite poke_low by lia. rewrite poke_low by lia. done.
Qed.

Lemma write_cpu_pure ic m :
  ic ∈ zip (upto (zlen (pl_cpus p))) (pl_cpus p) ->
  write_cpu image p (pl_page_table_base p) ic m = (cpu_write image p ic m, Ok tt).
Proof.
  intros (k & c & Hk & ->)%elem_of_indexed. pose proof (plan_cpu _ _ _ _ _ _ Hb Hc Hp Hk) as Hcpu. fold h in Hcpu.
  destruct (plan_entry (Z.of_nat k) ltac:(lia)) as (He & Hd & Hpa & Hs & Hm).
  pose proof (dk_range _ _ _ Hd). pose proof (dk_params _ _ _ Hd). unfold HEADER_SIZE, PARAMS_SIZE in *.
  pose proof (plan_regions _ _ _ _ Hb Hc Hp) as Hg. simpl in Hg. fold h in Hg.
  pose proof (po_low _ _ _ _ Hp) as [Hlow _]. fold h in Hlow. pose proof plan_blocks.
  assert (LOW_4G_END = 4294967296) as E4 by reflexivity.
  unfold RUNTIME_FIELDS, HANDLER_CONFIG_CAPACITY in *.
  unfold write_cpu, sbind, slift. fold h. rewrite Hm, He. cbn [map_err]. rewrite copy_image_low by lia.
  rewrite write_module_args_pure by done. unfold patch_entry_params, sbind, slift. rewrite Hpa.
  rewrite checked_add_ok by (unfold u64_max; lia). cbn [ok_or]. rewrite poke_low by lia. done.
Qed.

(** The second half of the installation succeeds and stores what [image_write]
    says. *)
Lemma write_image_pure m : write_image image config p m = (image_write image config p m, Ok (installed p)).
Proof.
  pose proof (plan_regions _ _ _ _ Hb Hc Hp) as Hg. simpl in Hg. pose proof (po_low _ _ _ _ Hp) as [_ Hlow].
  unfold SMM_IDENTITY_TABLE_SIZE in *. pose proof (hk_typed _ _ plan_header) as Ht. unfold header_typed in Ht. fold h in Hg.
  unfold write_image, sbind. rewrite write_handler_pure. rewrite poke_low by lia.
  rewrite (sfor_each_pure (cpu_write image p)) by (intros; by apply write_cpu_pure). done.
Qed.
End plan.
End pure.

(** ** What the writes leave *)

(** The initialized bytes, rebased: each fixup adds the base to the 32-bit word at
    its offset, in order. *)
Definition rebase (base : Z) (offsets : list Z) (l : list Z) : list Z :=
  foldl (fun l off => upd l off (le_enc 4 ((u32_at l off + base mod 2 ^ 32) mod 2 ^ 32))) l offsets.

Definition fixup_offsets (image : list Z) (h : SmmImageHeader) : list Z :=
  map (fun i => u32_at image (sh_fixups_offset h + i * 4)) (upto (sh_fixup_count h)).

Definition handler_image (image : list Z) (h : SmmImageHeader) (base : Z) : list Z :=
  rebase base (fixup_offsets image h) (sub image (sh_handler_offset h) (sh_handler_load_size h)).

Section leaves.
Context {T : Target} (image : list Z) (config : InstallConfig) (stub : Z) (p : Plan).
Hypothesis (Hb : bytes_ok image) (Hc : config_typed config) (Hp : plan_ok image config stub p).
Let h := pl_header p.
Let base := pl_common_base p.

(** All the numbers of a plan, for [lia]. *)
Lemma plan_numbers :
  (0 <= ic_smram_base config <= base /\ base + sh_handler_mem_size h <= pl_page_table_base p /\
   pl_page_table_base p + 24576 <= ic_smram_base config + ic_smram_size config) /\
  (0 <= sh_handler_load_size h <= sh_runtime_offset h /\ sh_runtime_offset h + 36 <= sh_handler_config_offset h /\
   sh_handler_config_offset h + 256 <= sh_handler_mem_size h /\ zlen (ic_handler_config config) <= 256 /\
   0 <= zlen (ic_handler_config config)) /\
  pl_runtime_addr p = base + sh_runtime_offset h /\ pl_config_addr p = base + sh_handler_config_offset h /\
  zlen (pl_cpus p) = ic_num_cpus config /\ zlen (sub image (sh_handler_offset h) (sh_handler_load_size h)) = sh_handler_load_size h.
Proof.
  pose proof (plan_regions _ _ _ _ Hb Hc Hp) as Hg. simpl in Hg. fold h base in Hg.
  destruct (plan_blocks _ _ _ _ Hp) as (? & ? & ? & _ & ?). fold h in H, H0, H1.
  unfold RUNTIME_FIELDS, HANDLER_CONFIG_CAPACITY, SMM_IDENTITY_TABLE_SIZE in *.
  pose proof (hk_handler _ _ (plan_header _ _ _ _ Hp)) as Hf. unfold file_range, HEADER_SIZE in Hf. fold h in Hf.
  pose proof (zlen_nonneg (ic_handler_config config)).
  split_and!; try lia; [apply (po_runtime_addr _ _ _ _ Hp)|apply (po_config_addr _ _ _ _ Hp)|apply zlen_sub; lia].
Qed.

(** The ranges one CPU's stores touch. *)
Lemma plan_cpu_numbers (k : nat) c :
  pl_cpus p !! k = Some c ->
  let d := descriptor_of image h (Z.of_nat k) in
  (Z.of_nat k < ic_num_cpus config /\ 0 < sh_stack_size h /\ ic_smram_base config <= stack_bottom c /\
   stack_bottom c + 8 <= ic_smram_base config + sh_stack_size h * ic_num_cpus config + 7 /\
   ic_smram_base config + sh_stack_size h * ic_num_cpus config + 0x8000 <= entry_addr c /\ entry_addr c + stub < base) /\
  (0 < ed_params_offset d /\ ed_params_offset d + 56 <= ed_stub_size d <= stub /\
   zlen (sub image (ed_stub_offset d) (ed_stub_size d)) = ed_stub_size d).
Proof.
  intros Hk d. pose proof (plan_cpu _ _ _ _ _ _ Hb Hc Hp Hk) as Hcpu. fold h base in Hcpu.
  destruct (plan_entry _ _ _ _ Hb Hc Hp (Z.of_nat k) ltac:(lia)) as (_ & Hd & _ & Hs & _). fold h in Hd, Hs. fold d in Hd, Hs.
  pose proof (dk_range _ _ _ Hd). pose proof (dk_params _ _ _ Hd). unfold PARAMS_SIZE, HEADER_SIZE in *.
  rewrite zlen_sub by lia. lia.
Qed.

Lemma plan_args :
  match pl_module_args_base p with
  | Some a => base + sh_handler_config_offset h + 256 <= a /\ a + ic_num_cpus config * 16 <= base + sh_handler_mem_size h
  | None => True
  end.
Proof.
  rewrite (po_args _ _ _ _ Hp). fold h base. destruct (sh_module_args_offset h =? 0) eqn:H; bool_hyp; [done|].
  destruct (plan_blocks _ _ _ _ Hp) as (_ & _ & _ & Ha & _). fold h in Ha. specialize (Ha H).
  unfold HANDLER_CONFIG_CAPACITY, MODULE_ARGS_SIZE in Ha. lia.
Qed.

(** Outside its stub, its module arguments and its canary, the stores of a CPU
    change nothing. *)
Lemma cpu_write_out (k : nat) c m a :
  pl_cpus p !! k = Some c ->
  ~ entry_addr c <= a < entry_addr c + stub -> ~ stack_bottom c <= a < stack_bottom c + 8 ->
  (forall b, pl_module_args_base p = Some b -> ~ b + Z.of_nat k * 16 <= a < b + Z.of_nat k * 16 + 16) ->
  cpu_write image p (Z.of_nat k, c) m a = m a.
Proof.
  intros Hk H1 H2 H3. pose proof (plan_cpu_numbers k c Hk) as Hn. cbv zeta in Hn. unfold cpu_write. fold h.
  rewrite mem_write_out by (rewrite zlen_params_bytes; unfold PARAMS_SIZE; lia).
  unfold args_write. destruct (pl_module_args_base p) as [b|].
  - rewrite mem_write_out by (rewrite zlen_le_enc; lia).
    rewrite mem_write_out by (rewrite zlen_args_bytes; unfold MODULE_ARGS_SIZE; specialize (H3 b eq_refl); lia).
    rewrite mem_write_out by lia. done.
  - rewrite mem_write_out by lia. done.
Qed.

(** The stores of all CPUs leave alone what is in the handler memory before the
    module arguments, and everything from the end of the handler on. *)
Lemma cpus_write_out m a :
  (base <= a < base + sh_handler_config_offset h + 256 \/ base + sh_handler_mem_size h <= a \/ a < ic_smram_base config \/
   (base <= a /\ forall b, pl_module_args_base p = Some b -> ~ b <= a < b + ic_num_cpus config * 16)) ->
  cpus_write image p m a = m a.
Proof.
  intros Ha. unfold cpus_write. apply foldl_untouched. intros ic m' (k & c & Hk & ->)%elem_of_indexed.
  pose proof (plan_cpu_numbers k c Hk) as Hn. cbv zeta in Hn. pose proof plan_numbers. pose proof plan_args as Hargs.
  apply cpu_write_out; [done|lia|lia|]. intros b Eb. rewrite Eb in Hargs.
  destruct Ha as [?|[?|[?|[? Ha]]]]; [lia..|]. specialize (Ha b Eb). nia.
Qed.

Lemma mem_bytes_cpus_write m a n :
  (base <= a /\ a + n <= base + sh_handler_config_offset h + 256) \/ base + sh_handler_mem_size h <= a ->
  mem_bytes (cpus_write image p m) a n = mem_bytes m a n.
Proof. intros H. apply mem_bytes_same. intros x Hx. apply cpus_write_out. lia. Qed.

(** The fixups, seen on the bytes of the handler. *)
Lemma fixups_bytes l m :
  (forall i, i ∈ l -> 0 <= u32_at image (sh_fixups_offset h + i * 4) /\
     u32_at image (sh_fixups_offset h + i * 4) + 4 <= sh_handler_load_size h) ->
  mem_bytes (foldl (fun m i => fixup_write image p i m) m l) base (sh_handler_load_size h) =
  rebase base (map (fun i => u32_at image (sh_fixups_offset h + i * 4)) l) (mem_bytes m base (sh_handler_load_size h)).
Proof.
  revert m. induction l as [|i l IH]; intros m Hl; [done|]. cbn [foldl map]. rewrite IH by (intros j Hj; apply Hl; by right).
  destruct (Hl i ltac:(left)) as [H0 H1]. set (off := u32_at image (sh_fixups_offset h + i * 4)) in *.
  assert (E : u32_at (mem_bytes m base (sh_handler_load_size h)) off = Bytes.le_dec (mem_bytes m (base + off) 4)).
  { unfold u32_at, le_at. by rewrite sub_mem_bytes by lia. }
  unfold rebase. cbn [foldl]. rewrite E. f_equal. unfold fixup_write. fold h base off.
  by rewrite mem_bytes_write_inside by (rewrite ?zlen_le_enc; lia).
Qed.

Lemma fixups_out l m a :
  (forall i, i ∈ l -> 0 <= u32_at image (sh_fixups_offset h + i * 4) /\
     u32_at image (sh_fixups_offset h + i * 4) + 4 <= sh_handler_load_size h) ->
  ~ base <= a < base + sh_handler_load_size h ->
  foldl (fun m i => fixup_write image p i m) m l a = m a.
Proof.
  intros Hl Ha. apply foldl_untouched. intros i m' Hi. destruct (Hl i Hi). unfold fixup_write. fold h base.
  apply mem_write_out. rewrite zlen_le_enc. lia.
Qed.

Lemma fixups_in_range i :
  i ∈ upto (sh_fixup_count h) -> 0 <= u32_at image (sh_fixups_offset h + i * 4) /\
    u32_at image (sh_fixups_offset h + i * 4) + 4 <= sh_handler_load_size h.
Proof. intros Hi%elem_of_upto. by destruct (plan_fixup _ _ _ _ Hb Hp i Hi) as (_ & ? & ?). Qed.
End leaves.

Section image.
Context {T : Target} (image : list Z) (config : InstallConfig) (stub : Z) (p : Plan).
Hypothesis (Hb : bytes_ok image) (Hc : config_typed config) (Hp : plan_ok image config stub p).
Let h := pl_header p.
Let base := pl_common_base p.

(** Nothing outside SMRAM is written. *)
Lemma image_write_confined m a :
  ~ ic_smram_base config <= a < ic_smram_base config + ic_smram_size config -> image_write image config p m a = m a.
Proof.
  intros Ha. pose proof (plan_numbers _ _ _ _ Hb Hc Hp) as Hn. fold h base in Hn. unfold image_write.
  assert (E : cpus_write image p (mem_write (handler_write image config p m) (pl_page_table_base p) (table_bytes (pl_page_table_base p))) a =
    mem_write (handler_write image config p m) (pl_page_table_base p) (table_bytes (pl_page_table_base p)) a).
  { apply (cpus_write_out image config stub p Hb Hc Hp). fold h base. lia. }
  rewrite E. rewrite mem_write_out by (rewrite zlen_table_bytes; unfold SMM_IDENTITY_TABLE_SIZE; lia).
  unfold handler_write. fold h base. destruct Hn as (? & ? & E1 & E2 & ? & Hz). fold h in Hz.
  rewrite E1, E2. rewrite mem_write_out by lia. rewrite mem_write_out by (rewrite zlen_runtime_bytes; unfold RUNTIME_FIELDS; lia).
  rewrite (fixups_out image p) by (first [intros; by eapply fixups_in_range | fold h base; lia]).
  rewrite mem_write_out by lia. rewrite mem_write_out by (rewrite zlen_zeros; lia). done.
Qed.

(** The bytes of the handler memory that [handler_write] leaves are the final ones,
    module arguments apart. *)
Lemma image_write_handler m a n :
  base <= a -> 0 <= n -> a + n <= base + sh_handler_config_offset h + 256 ->
  mem_bytes (image_write image config p m) a n = mem_bytes (handler_write image config p m) a n.
Proof.
  intros H0 Hn0 H1. pose proof (plan_numbers _ _ _ _ Hb Hc Hp) as Hn. fold h base in Hn. unfold image_write.
  rewrite (mem_bytes_cpus_write image config stub p) by (done || (fold h base; lia)).
  apply mem_bytes_write_apart. rewrite zlen_table_bytes. lia.
Qed.

Lemma installed_handler m :
  mem_bytes (image_write image config p m) base (sh_handler_load_size h) = handler_image image h base.
Proof.
  pose proof (plan_numbers _ _ _ _ Hb Hc Hp) as Hn. fold h base in Hn. destruct Hn as (? & ? & E1 & E2 & ? & Hz).
  rewrite image_write_handler by lia. unfold handler_write. fold h base. rewrite E1, E2.
  rewrite mem_bytes_write_apart by lia. rewrite mem_bytes_write_apart by (rewrite zlen_runtime_bytes; unfold RUNTIME_FIELDS; lia).
  unfold h, base. rewrite fixups_bytes by (intros; by eapply fixups_in_range). fold h base.
  rewrite mem_bytes_write_all by done. done.
Qed.

(** The rest of the handler memory is zero, the loader's own blocks apart. *)
Lemma installed_zero m a :
  base + sh_handler_load_size h <= a < base + sh_handler_mem_size h ->
  ~ pl_runtime_addr p <= a < pl_runtime_addr p + RUNTIME_FIELDS ->
  ~ pl_config_addr p <= a < pl_config_addr p + zlen (ic_handler_config config) ->
  (forall b, pl_module_args_base p = Some b -> ~ b <= a < b + ic_num_cpus config * MODULE_ARGS_SIZE) ->
  image_write image config p m a = 0.
Proof.
  intros Ha Hr Hcf Har. pose proof (plan_numbers _ _ _ _ Hb Hc Hp) as Hn. fold h base in Hn.
  destruct Hn as (? & ? & E1 & E2 & ? & Hz). unfold image_write.
  rewrite (cpus_write_out image config stub p) by (first [done | fold h base; unfold MODULE_ARGS_SIZE in Har; right; right; right; split; [lia|done]]).
  rewrite mem_write_out by (rewrite zlen_table_bytes; lia). unfold handler_write. fold h base.
  rewrite mem_write_out by lia. rewrite mem_write_out by (rewrite zlen_runtime_bytes; lia).
  rewrite (fixups_out image p) by (first [intros; by eapply fixups_in_range | fold h base; lia]).
  rewrite mem_write_out by lia. rewrite mem_write_in by (rewrite zlen_zeros; lia). unfold zeros.
  apply nth_lookup_Some, lookup_replicate_2. lia.
Qed.

Lemma installed_runtime m :
  mem_bytes (image_write image config p m) (pl_runtime_addr p) RUNTIME_FIELDS = runtime_bytes (pl_runtime p).
Proof.
  pose proof (plan_numbers _ _ _ _ Hb Hc Hp) as Hn. fold h base in Hn. destruct Hn as (? & ? & E1 & E2 & ? & Hz).
  unfold RUNTIME_FIELDS. rewrite image_write_handler by lia. unfold handler_write. fold h base.
  rewrite mem_bytes_write_apart by lia. apply mem_bytes_write_all. by rewrite zlen_runtime_bytes.
Qed.

Lemma installed_config m :
  mem_bytes (image_write image config p m) (pl_config_addr p) (zlen (ic_handler_config config)) = ic_handler_config config.
Proof.
  pose proof (plan_numbers _ _ _ _ Hb Hc Hp) as Hn. fold h base in Hn. destruct Hn as (? & ? & E1 & E2 & ? & Hz).
  rewrite image_write_handler by lia. unfold handler_write. by apply mem_bytes_write_all.
Qed.

Lemma installed_tables m :
  mem_bytes (image_write image config p m) (pl_page_table_base p) SMM_IDENTITY_TABLE_SIZE = table_bytes (pl_page_table_base p).
Proof.
  pose proof (plan_numbers _ _ _ _ Hb Hc Hp) as Hn. fold h base in Hn. unfold image_write.
  rewrite (mem_bytes_cpus_write image config stub p) by (done || (fold h base; lia)).
  apply mem_bytes_write_all. by rewrite zlen_table_bytes.
Qed.

(** What one CPU's stores leave, when no later CPU's stores touch the range. *)
Lemma installed_step m (k : nat) c addr n :
  pl_cpus p !! k = Some c ->
  (forall j d, k <> j -> pl_cpus p !! j = Some d -> forall m a, addr <= a < addr + n ->
     cpu_write image p (Z.of_nat j, d) m a = m a) ->
  exists m0, mem_bytes (image_write image config p m) addr n = mem_bytes (cpu_write image p (Z.of_nat k, c) m0) addr n.
Proof.
  intros Hk Hlater. unfold image_write, cpus_write. apply foldl_step with (i := k).
  - apply lookup_indexed. eauto.
  - intros j ic m' a Hj (d & Hd & ->)%lookup_indexed Ha. apply (Hlater j d); auto. lia.
Qed.

(** Another CPU's stores touch neither the stub nor, when a stack holds a canary,
    the canary; nor the module arguments. *)
Lemma other_cpu_apart (j k : nat) c d m a :
  pl_cpus p !! k = Some c -> pl_cpus p !! j = Some d -> k <> j ->
  entry_addr c <= a < entry_addr c + stub \/
  (8 <= sh_stack_size h /\ stack_bottom c <= a < stack_bottom c + 8) \/
  (exists b, pl_module_args_base p = Some b /\ b + Z.of_nat k * 16 <= a < b + Z.of_nat k * 16 + 16) ->
  cpu_write image p (Z.of_nat j, d) m a = m a.
Proof.
  intros Hk Hj Hne Ha. pose proof (plan_cpu_numbers _ _ _ _ Hb Hc Hp k c Hk) as Hnk.
  pose proof (plan_cpu_numbers _ _ _ _ Hb Hc Hp j d Hj) as Hnj. cbv zeta in Hnk, Hnj. fold h base in Hnk, Hnj.
  pose proof (plan_cpu _ _ _ _ _ _ Hb Hc Hp Hk) as Hck. pose proof (plan_cpu _ _ _ _ _ _ Hb Hc Hp Hj) as Hcj.
  fold h base in Hck, Hcj. pose proof (plan_args _ _ _ _ Hp) as Hargs. fold h base in Hargs.
  pose proof (plan_numbers _ _ _ _ Hb Hc Hp) as Hn. fold h base in Hn.
  pose proof (plan_cpus_apart _ _ _ _ _ _ _ _ Hb Hc Hp Hk Hj Hne) as Hap. fold h in Hap.
  pose proof (Hap (stub_range (smram_layout config h stub) c) (stub_range (smram_layout config h stub) d)
    ltac:(unfold cpu_ranges; rewrite !elem_of_cons; tauto) ltac:(unfold cpu_ranges; rewrite !elem_of_cons; tauto)) as H1.
  pose proof (Hap (stack_range c) (stack_range d)
    ltac:(unfold cpu_ranges; rewrite !elem_of_cons; tauto) ltac:(unfold cpu_ranges; rewrite !elem_of_cons; tauto)) as H2.
  unfold SmmLayout.disjoint, stub_range, stack_range in H1, H2. cbn [fst snd smram_layout entry_stub_size] in H1, H2.
  apply (cpu_write_out _ _ _ _ Hb Hc Hp); [done|..].
  - destruct Ha as [?|[?|(b & Eb & ?)]]; [lia..|]. rewrite Eb in Hargs. lia.
  - destruct Ha as [?|[?|(b & Eb & ?)]]; [lia..|]. rewrite Eb in Hargs. lia.
  - intros b Eb. rewrite Eb in Hargs. destruct Ha as [?|[?|(b' & Eb' & ?)]]; [lia..|]. rewrite Eb in Eb'. injection Eb' as <-. lia.
Qed.

Lemma installed_stub m (k : nat) c :
  pl_cpus p !! k = Some c ->
  let d := descriptor_of image h (Z.of_nat k) in
  mem_bytes (image_write image config p m) (entry_addr c) (ed_stub_size d) =
  upd (sub image (ed_stub_offset d) (ed_stub_size d)) (ed_params_offset d)
    (params_bytes (entry_params p (pl_page_table_base p) (Z.of_nat k) c (args_address p (Z.of_nat k)))).
Proof.
  intros Hk d. pose proof (plan_cpu_numbers _ _ _ _ Hb Hc Hp k c Hk) as Hn. cbv zeta in Hn. fold h base d in Hn.
  destruct (installed_step m k c (entry_addr c) (ed_stub_size d) Hk) as [m0 ->].
  { intros j e Hne Hj m1 a Ha. apply (other_cpu_apart j k c); auto. left. lia. }
  unfold cpu_write. fold h d.
  rewrite mem_bytes_write_inside by (rewrite ?zlen_params_bytes; unfold PARAMS_SIZE; lia). f_equal.
  pose proof (plan_args _ _ _ _ Hp) as Hargs. fold h base in Hargs. pose proof (plan_numbers _ _ _ _ Hb Hc Hp) as Hnn.
  fold h base in Hnn. unfold args_write. destruct (pl_module_args_base p) as [b|].
  - rewrite mem_bytes_write_apart by (rewrite zlen_le_enc; lia).
    rewrite mem_bytes_write_apart by (rewrite zlen_args_bytes; unfold MODULE_ARGS_SIZE; lia). apply mem_bytes_write_all. lia.
  - apply mem_bytes_write_all. lia.
Qed.

Lemma installed_args m (k : nat) c b :
  pl_cpus p !! k = Some c -> pl_module_args_base p = Some b ->
  mem_bytes (image_write image config p m) (b + Z.of_nat k * MODULE_ARGS_SIZE) MODULE_ARGS_SIZE =
    args_bytes {| ma_cpu := Z.of_nat k; ma_canary := stack_bottom c |} /\
  (8 <= sh_stack_size h -> mem_bytes (image_write image config p m) (stack_bottom c) 8 = le_enc 8 (stack_bottom c)).
Proof.
  intros Hk Eb. pose proof (plan_cpu_numbers _ _ _ _ Hb Hc Hp k c Hk) as Hn. cbv zeta in Hn. fold h base in Hn.
  set (d := descriptor_of image h (Z.of_nat k)) in *.
  pose proof (plan_args _ _ _ _ Hp) as Hargs. fold h base in Hargs. rewrite Eb in Hargs.
  pose proof (plan_numbers _ _ _ _ Hb Hc Hp) as Hnn. fold h base in Hnn. unfold MODULE_ARGS_SIZE. split.
  - destruct (installed_step m k c (b + Z.of_nat k * 16) 16 Hk) as [m0 ->].
    { intros j e Hne Hj m1 a Ha. apply (other_cpu_apart j k c); eauto. }
    unfold cpu_write, args_write. fold h d. rewrite Eb. unfold MODULE_ARGS_SIZE.
    rewrite mem_bytes_write_apart by (rewrite zlen_params_bytes; unfold PARAMS_SIZE; lia).
    rewrite mem_bytes_write_apart by (rewrite zlen_le_enc; lia). by apply mem_bytes_write_all.
  - intros H8. destruct (installed_step m k c (stack_bottom c) 8 Hk) as [m0 ->].
    { intros j e Hne Hj m1 a Ha. apply (other_cpu_apart j k c); eauto. }
    unfold cpu_write, args_write. fold h d. rewrite Eb.
    rewrite mem_bytes_write_apart by (rewrite zlen_params_bytes; unfold PARAMS_SIZE; lia).
    by apply mem_bytes_write_all.
Qed.
End image.

(** ** No step panics *)

Section total.
Context {T : Target}.

Lemma validate_memory_blocks_no_panic h : validate_memory_blocks h <> Panic.
Proof. intros H. unfold validate_memory_blocks in H. repeat panic_step H. Qed.

Lemma check_descriptor_no_panic h image m i : 0 <= i <= u16_max -> check_descriptor h image m i <> Panic.
Proof.
  intros Hi H. unfold check_descriptor, check_entry_range, check_entry_params in H. repeat panic_step H.
  by apply entry_no_panic in H.
Qed.

Lemma fold_each_no_panic {E A S} (l : list A) (f : S -> A -> res E S) s :
  (forall s x, x ∈ l -> f s x <> Panic) -> fold_each l s f <> Panic.
Proof.
  revert s. induction l as [|x l IH]; intros s H; cbn [fold_each]; [done|]. intros Hp. panic_step Hp.
  - apply (H s x); [left|done].
  - apply (IH a); [|done]. intros s' y Hy. apply H. by right.
Qed.

Lemma check_image_no_panic image config slots :
  bytes_ok image -> config_typed config -> check_image image config slots <> Panic.
Proof.
  intros Hb Hc H. unfold check_image in H. panic_step H; [panic_step H; by apply smm_parse_no_panic in H|].
  apply map_err_Ok, smm_parse_spec in Ha; [|done]. unfold config_typed in Hc.
  panic_step H; [unfold check_mode in H; by repeat panic_step H|]. panic_step H.
  panic_step H; [by apply validate_memory_blocks_no_panic in H|].
  panic_step H.
  { apply for_each_no_panic in H; [done|]. intros i Hi%elem_of_upto Hf. repeat panic_step Hf.
    apply fixup_no_panic in Hf; [done|done|lia]. }
  panic_step H. panic_step H; [|discriminate].
  apply fold_each_no_panic in H; [done|]. intros s i Hi%elem_of_upto. apply check_descriptor_no_panic. lia.
Qed.

Lemma compute_page_table_base_no_panic l : compute_page_table_base l <> Panic.
Proof.
  intros H. unfold compute_page_table_base, align_up in H. repeat panic_step H. by apply compute_common_base_no_panic in H.
Qed.

Lemma check_low_no_panic l : for_each l check_low_address <> Panic.
Proof. apply for_each_no_panic. intros a _. unfold check_low_address. by case_match. Qed.

Lemma check_low_range_no_panic a n : check_low_range a n <> Panic.
Proof. intros H. unfold check_low_range in H. by repeat panic_step H. Qed.

Lemma addresses_no_panic config h stub base tables cpus : addresses config h stub base tables cpus <> Panic.
Proof.
  intros H. unfold addresses, checked_add in H.
  repeat first [panic_step H | by apply check_low_range_no_panic in H | by apply check_low_no_panic in H].
  - unfold check_low_address in H. by repeat panic_step H.
  - apply for_each_no_panic in H; [done|]. intros c _ Hcp. unfold check_cpu in Hcp.
    repeat first [panic_step Hcp | by apply check_low_range_no_panic in Hcp | by apply check_low_no_panic in Hcp].
Qed.

Lemma install_prepare_no_panic image config slots :
  bytes_ok image -> config_typed config -> snd (prepare image config slots) <> Panic.
Proof.
  intros Hb Hc H. unfold prepare in H. destruct (rbind _ _) as [[[h stub] [base tables]]| |] eqn:E; [|discriminate|].
  - apply rbind_Ok in E as ([h' stub'] & Hi & E). apply rbind_Ok in E as (bases & Hpl & E). injection E as -> -> ->.
    apply check_image_Ok in Hi; [|done]. pose proof (hk_typed _ _ (ik_header _ _ _ _ Hi)) as Hht.
    pose proof (compute_cpu_layout_no_panic (smram_layout config h stub) slots
      (smram_layout_typed config h stub Hc Hht (ik_stub _ _ _ _ Hi))) as Hn.
    destruct (compute_cpu_layout _ _) as [slots1 r]. cbn [snd] in *. panic_step H; [by panic_step H|].
    by apply addresses_no_panic in H.
  - panic_step E; [by apply check_image_no_panic in E|]. destruct a as [h stub]. panic_step E; [|discriminate].
    unfold place in E. repeat first [panic_step E | by apply compute_common_base_no_panic in E
      | by apply compute_page_table_base_no_panic in E].
Qed.
End total.

(** ** Properties *)

Section properties.
Context {T : Target}.

(** How an installation ends: refused with memory as it was, or carried out. *)
Lemma install_cases image config m slots m' slots' r :
  bytes_ok image -> config_typed config -> install_pic_image image config (m, slots) = ((m', slots'), r) ->
  (m' = m /\ exists e, r = Err e) \/
  (exists stub p, plan_ok image config stub p /\ m' = image_write image config p m /\ r = Ok (installed p)).
Proof.
  intros Hb Hc H. unfold install_pic_image in H. pose proof (install_prepare_no_panic image config slots Hb Hc) as Hn.
  destruct (prepare image config slots) as [slots1 [p|e|]] eqn:Hpr; [| |by destruct Hn].
  - right. destruct (install_prepare_Ok _ _ _ _ _ Hb Hc Hpr) as [stub Hp]. exists stub, p. split; [done|].
    rewrite (write_image_pure image config stub p Hb Hc Hp) in H. by injection H as <- _ <-.
  - left. injection H as <- _ <-. eauto.
Qed.

(** C11: Whatever the image and the configuration, an installation neither panics nor
    reads outside the image, changes no byte outside the SMRAM range it was given, and
    when it reports an error it has not changed memory at all: every failure, also one
    a later CPU's descriptor causes, is found before the first store. *)
Theorem install_pic_image_confined image config m slots :
  bytes_ok image -> config_typed config ->
  snd (install_pic_image image config (m, slots)) <> Panic /\
  (forall e, snd (install_pic_image image config (m, slots)) = Err e ->
    fst (fst (install_pic_image image config (m, slots))) = m) /\
  (forall a, ~ ic_smram_base config <= a < ic_smram_base config + ic_smram_size config ->
    fst (fst (install_pic_image image config (m, slots))) a = m a).
Proof.
  intros Hb Hc. destruct (install_pic_image image config (m, slots)) as [[m' slots'] r] eqn:H. cbn [fst snd].
  destruct (install_cases _ _ _ _ _ _ _ Hb Hc H) as [[-> [e ->]] | (stub & p & Hp & -> & ->)].
  - split_and!; [done|done|done].
  - split_and!; [done|done|]. intros a Ha. by apply (image_write_confined image config stub p Hb Hc Hp).
Qed.

(** C10: A successful installation leaves, whatever SMRAM held before: the initialized
    bytes of the handler, rebased at the fixups, and zeros behind them; the runtime
    block and the platform's configuration where the header puts them; the identity
    page tables at the returned CR3; and for every CPU its own entry stub with its own
    parameter block, the module arguments and, when a stack is large enough to hold
    it, the stack canary.  No later store damages an earlier one. *)
Theorem install_pic_image_leaves image config m slots m' slots' r :
  bytes_ok image -> config_typed config -> install_pic_image image config (m, slots) = ((m', slots'), Ok r) ->
  let h := in_header r in
  let base := in_common_base r in
  let args (i : Z) := if sh_module_args_offset h =? 0 then 0 else base + sh_module_args_offset h + i * MODULE_ARGS_SIZE in
  header_ok image h /\ zlen (in_cpus r) = ic_num_cpus config /\
  mem_bytes m' base (sh_handler_load_size h) = handler_image image h base /\
  (forall a, base + sh_handler_load_size h <= a < base + sh_runtime_offset h -> m' a = 0) /\
  in_runtime_addr r = base + sh_runtime_offset h /\ in_common_entry r = base + sh_handler_entry_offset h /\
  mem_bytes m' (in_runtime_addr r) RUNTIME_FIELDS =
    runtime_bytes (smm_runtime_new (ic_smram_base config) (ic_smram_size config) (ic_num_cpus config) (sh_stack_size h)
      (sh_handler_config_offset h - sh_runtime_offset h) (zlen (ic_handler_config config))) /\
  mem_bytes m' (base + sh_handler_config_offset h) (zlen (ic_handler_config config)) = ic_handler_config config /\
  mem_bytes m' (in_cr3 r) SMM_IDENTITY_TABLE_SIZE = table_bytes (in_cr3 r) /\ in_cr3 r mod 4096 = 0 /\
  (forall (i : nat) c, in_cpus r !! i = Some c ->
     let d := descriptor_of image h (Z.of_nat i) in
     mem_bytes m' (entry_addr c) (ed_stub_size d) =
       upd (sub image (ed_stub_offset d) (ed_stub_size d)) (ed_params_offset d)
         (params_bytes {| ep_cpu := Z.of_nat i; ep_stack_size := sh_stack_size h; ep_stack_top := stack_top c;
                          ep_common_entry := in_common_entry r; ep_runtime := in_runtime_addr r;
                          ep_coreboot_module_args := args (Z.of_nat i); ep_cr3 := in_cr3 r; ep_entry_base := entry_addr c |}) /\
     (sh_module_args_offset h <> 0 ->
        mem_bytes m' (args (Z.of_nat i)) MODULE_ARGS_SIZE = args_bytes {| ma_cpu := Z.of_nat i; ma_canary := stack_bottom c |} /\
        (8 <= sh_stack_size h -> mem_bytes m' (stack_bottom c) 8 = le_enc 8 (stack_bottom c)))).
Proof.
  intros Hb Hc H. destruct (install_cases _ _ _ _ _ _ _ Hb Hc H) as [[_ [e E]] | (stub & p & Hp & -> & E)]; [done|].
  injection E as ->. cbn [installed in_header in_common_base in_common_entry in_runtime_addr in_cr3 in_cpus]. cbv zeta.
  pose proof (plan_numbers _ _ _ _ Hb Hc Hp) as (N1 & N2 & N3 & N4 & N5 & N6).
  pose proof (plan_regions _ _ _ _ Hb Hc Hp) as Hg. cbv zeta in Hg. pose proof (po_args _ _ _ _ Hp) as Hargs.
  split_and!; [apply (plan_header _ _ _ _ Hp)|done|by apply (installed_handler image config stub p)|
    |done|apply (po_entry _ _ _ _ Hp)| | |by apply (installed_tables image config stub p)|tauto|].
  - intros a Ha. apply (installed_zero image config stub p Hb Hc Hp); [lia|lia|lia|]. intros b Eb. rewrite Eb in Hargs.
    pose proof (plan_args _ _ _ _ Hp) as Ha'. rewrite Eb in Ha'. lia.
  - rewrite (installed_runtime image config stub p Hb Hc Hp), (po_runtime _ _ _ _ Hp). do 2 f_equal.
    apply Z.mod_small. lia.
  - rewrite <- N4. by apply (installed_config image config stub p).
  - intros i c Hi. split.
    + rewrite (installed_stub image config stub p Hb Hc Hp m i c Hi). unfold entry_params, args_address. rewrite Hargs.
      by destruct (sh_module_args_offset (pl_header p) =? 0).
    + intros Hne. destruct (sh_module_args_offset (pl_header p) =? 0) eqn:Em; bool_hyp; [done|].
      by apply (installed_args image config stub p Hb Hc Hp).
Qed.

(** The temporary relocation stub at the default SMBASE: an error leaves memory as
    it was; success stores the first entry stub at offset 0x8000 with the callback,
    its argument, the stack and the page tables in its parameter block, and nothing
    beyond: the temporary page tables at offset 0x9000 stay intact. *)
Theorem relocation_stub_installed image config m m' r :
  bytes_ok image -> 0 <= dr_default_smbase config -> dr_default_smbase config + SMM_RELOCATION_TABLE_OFFSET <= LOW_4G_END ->
  install_default_relocation_callback_stub image config m = (m', r) ->
  let at_ := dr_default_smbase config + SMM_ENTRY_OFFSET in
  r <> Panic /\ (forall e, r = Err e -> m' = m) /\
  (forall a, ~ at_ <= a < dr_default_smbase config + SMM_RELOCATION_TABLE_OFFSET -> m' a = m a) /\
  (r = Ok tt -> exists h, smm_parse image = Ok h /\
     let d := descriptor_of image h 0 in
     at_ + ed_stub_size d <= dr_default_smbase config + SMM_RELOCATION_TABLE_OFFSET /\
     mem_bytes m' at_ (ed_stub_size d) =
       upd (sub image (ed_stub_offset d) (ed_stub_size d)) (ed_params_offset d)
         (params_bytes {| ep_cpu := 0; ep_stack_size := 0; ep_stack_top := dr_stack_top config;
                          ep_common_entry := dr_callback config; ep_runtime := dr_callback_arg config;
                          ep_coreboot_module_args := 0; ep_cr3 := dr_cr3 config; ep_entry_base := at_ |})).
Proof.
  intros Hb H0 H4 H at_. subst at_. unfold install_default_relocation_callback_stub, sbind, slift in H.
  destruct (prepare_relocation image config) as [[stub entry_addr]|e|] eqn:Hp.
  - unfold prepare_relocation in Hp. repeat rust_step Hp. injection Hp as <- <-. bool_hyp.
    apply map_err_Ok in Ha, Ha1. destruct a0, a2, a3.
    apply smm_parse_spec in Ha as Hok; [|done]. pose proof (check_entry_Ok a image 0 a1 _ _ Hb Hok ltac:(lia) Ha1 Ha2 Ha3) as Hd.
    apply entry_Ok in Ha1 as [_ Heq]; [|done|lia]. change (a1 = descriptor_of image a 0) in Heq. subst a1.
    set (d := descriptor_of image a 0) in *. assert (Ed : descriptor_of image a 0 = d) by done. clearbody d.
    apply ok_or_Ok, checked_add_Some in Ha4 as [-> ?], Ha5 as [-> ?], Ha6 as [-> ?].
    pose proof (dk_range _ _ _ Hd). pose proof (dk_params _ _ _ Hd). unfold HEADER_SIZE, PARAMS_SIZE in *.
    unfold SMM_ENTRY_OFFSET, SMM_RELOCATION_TABLE_OFFSET in *.
    rewrite copy_image_low in H by lia. unfold patch_entry_params, sbind, slift in H. rewrite Ha3 in H.
    rewrite checked_add_ok in H by lia. cbn [ok_or] in H. rewrite poke_low in H by lia. injection H as <- <-.
    assert (Hz : zlen (sub image (ed_stub_offset d) (ed_stub_size d)) = ed_stub_size d) by (apply zlen_sub; lia).
    split_and!; [done|done| |].
    + intros x Hx. rewrite mem_write_out by (rewrite zlen_params_bytes; unfold PARAMS_SIZE; lia). by rewrite mem_write_out by lia.
    + intros _. exists a. split; [done|]. cbv zeta. rewrite Ed. split; [lia|].
      rewrite mem_bytes_write_inside by (rewrite ?zlen_params_bytes; unfold PARAMS_SIZE; lia). f_equal.
      by apply mem_bytes_write_all.
  - injection H as <- <-. split_and!; done.
  - exfalso. unfold prepare_relocation in Hp. panic_step Hp; [panic_step Hp; by apply smm_parse_no_panic in Hp|].
    unfold check_mode, check_entry_range, check_entry_params in Hp.
    repeat first [panic_step Hp | by apply check_low_no_panic in Hp].
    apply entry_no_panic in Hp; [done | unfold u16_max; lia].
Qed.
End properties.

(** ** Witnesses: the two-CPU image of the source's own tests *)

Definition test_header : SmmImageHeader :=
  smm_header_new FLAG_COREBOOT_MODULE_ARGS 416 2 76 128 0x20 400 0 0x40 40 112 256 368 32 0x400.
Definition test_descriptor (i : Z) : EntryDescriptor :=
  {| ed_stub_offset := 160 + i * 0x80; ed_stub_size := 0x80; ed_entry_offset := 0; ed_params_offset := 0x20 |}.
Definition test_image : list Z :=
  smm_header_encode test_header ++ descriptor_encode (test_descriptor 0) ++ descriptor_encode (test_descriptor 1) ++ zeros 20 ++
  (0xaa :: zeros 31) ++ (0xbb :: zeros 127) ++ (0xbb :: zeros 127).
Definition test_install : InstallConfig := {|
  ic_smram_base := 0x7f000000; ic_smram_size := 0x80000; ic_num_cpus := 2; ic_save_state_size := 0x400;
  ic_handler_config := [0x00; 0x06; 0x20; 0x00]; ic_handler_config_align := 2 |}.
Definition test_relocation : DefaultRelocationCallbackConfig := {|
  dr_default_smbase := 0x30000; dr_cr3 := 0x39000; dr_callback := 0x100000; dr_callback_arg := 0x200000; dr_stack_top := 0x38000 |}.

(** Stale SMRAM filled with 0x5a. *)
Definition stale : memory := fun _ => 0x5a.
Definition test_run : (memory * list CpuSmmLayout) * res InstallError InstalledSmmImage :=
  install_pic_image test_image test_install (stale, replicate 2 ZERO_CPU).
Definition test_result : res InstallError InstalledSmmImage := Eval vm_compute in snd test_run.

Lemma test_image_ok : bytes_ok test_image.
Proof. apply (bool_decide_unpack _). vm_compute. exact I. Qed.

Lemma test_install_typed : config_typed test_install.
Proof.
  unfold config_typed, u64_max, u32_max, u16_max. cbn [test_install ic_smram_base ic_smram_size ic_num_cpus ic_save_state_size ic_handler_config].
  split_and!; try lia. apply (bool_decide_unpack _). vm_compute. exact I.
Qed.

Lemma test_run_eq : test_run = ((test_run.1.1, test_run.1.2), test_result).
Proof.
  assert (E : snd test_run = test_result) by (vm_compute; reflexivity). destruct test_run as [[m s] r]. simpl in *. by subst r.
Qed.

Lemma install_pic_image_confined_witness : test_run.1.1 0x7f080000 = 0x5a.
Proof.
  destruct (install_pic_image_confined test_image test_install stale (replicate 2 ZERO_CPU) test_image_ok test_install_typed)
    as (_ & _ & Hout).
  exact (Hout 0x7f080000 ltac:(cbn [test_install ic_smram_base ic_smram_size]; lia)).
Defined.

Lemma install_pic_image_leaves_witness :
  exists base, mem_bytes test_run.1.1 (base + 112) 4 = [0x00; 0x06; 0x20; 0x00].
Proof.
  destruct test_result as [r| |] eqn:E; [|discriminate E..].
  pose proof test_run_eq as H. rewrite E in H.
  pose proof (install_pic_image_leaves test_image test_install stale (replicate 2 ZERO_CPU) _ _ r test_image_ok test_install_typed H) as L.
  cbv zeta in L. destruct L as (_ & _ & _ & _ & _ & _ & _ & Hcfg & _).
  exists (in_common_base r). injection E as <-. exact Hcfg.
Defined.

Lemma relocation_stub_installed_witness :
  let run := install_default_relocation_callback_stub test_image test_relocation stale in run.1 0x39000 = 0x5a /\ snd run = Ok tt.
Proof.
  cbv zeta. destruct (install_default_relocation_callback_stub test_image test_relocation stale) as [m r] eqn:E.
  destruct (relocation_stub_installed test_image test_relocation stale m r test_image_ok ltac:(vm_compute; discriminate)
    ltac:(vm_compute; discriminate) E) as (_ & _ & Hout & _).
  split.
  - cbn [fst]. rewrite Hout; [reflexivity|]. vm_compute. intros [_ H]. discriminate H.
  - cbn [snd]. assert (Hs : snd (install_default_relocation_callback_stub test_image test_relocation stale) = Ok tt)
      by (vm_compute; reflexivity). rewrite E in Hs. exact Hs.
Defined.
