(* ===== verification/SmmSaveState.v ===== *)
(** * SmmSaveState: the processor's state-save areas ([crates/smm/src/save_state.rs])

    A view of one CPU's save area: the exclusive top of its SMBASE window and the
    layout its CPU model uses.  Every access first checks the revision word that the
    hardware stored. *)

From S2P Require Import Prelude.
From S2P Require Import Bytes.
From S2P Require Import Wire.
From S2P Require Import Memory.
From Stdlib Require Import ZArith Lia.
From stdpp Require Import base numbers list option.

#[local] Open Scope Z_scope.

Definition REVISION_OFFSET : Z := 0x104.

Inductive X86SaveStateFormat := IntelEm64t | Amd64 | IntelLegacy | Amd64OrIntelLegacy.

#[export] Instance X86SaveStateFormat_eq_dec : EqDecision X86SaveStateFormat.
Proof. solve_decision. Defined.

Definition amd64_accepts (revision : Z) : bool := (revision =? 0x00020064) || (revision =? 0x00030064).
Definition legacy_accepts (revision : Z) : bool :=
  negb (Z.land revision (Z.shiftl 1 17) =? 0) && negb (amd64_accepts revision).

Definition accepts (f : X86SaveStateFormat) (revision : Z) : bool :=
  match f with
  | IntelEm64t => (revision =? 0x00030100) || (revision =? 0x00030101)
  | Amd64 => amd64_accepts revision
  | IntelLegacy => legacy_accepts revision
  | Amd64OrIntelLegacy => amd64_accepts revision || legacy_accepts revision
  end.

Definition smbase_offset (f : X86SaveStateFormat) (revision : Z) : Z :=
  match f with
  | IntelEm64t | IntelLegacy => 0x108
  | Amd64 => 0x100
  | Amd64OrIntelLegacy => if amd64_accepts revision then 0x100 else 0x108
  end.

Inductive Amd64Register := Rax | Rcx | Rdx | Rip.

#[export] Instance Amd64Register_eq_dec : EqDecision Amd64Register.
Proof. solve_decision. Defined.

Definition register_offset (r : Amd64Register) : Z :=
  match r with Rax => 0x08 | Rcx => 0x10 | Rdx => 0x18 | Rip => 0x88 end.

Inductive SaveStateError := RevisionMismatch (expected : X86SaveStateFormat) (actual : Z).

Record X86SaveState := { ss_top : Z; ss_format : X86SaveStateFormat }.

(** The volatile byte loops. *)
Definition read_u32 (m : memory) (ptr : Z) : Z := Bytes.le_dec (mem_bytes m ptr 4).
Definition read_u64 (m : memory) (ptr : Z) : Z := Bytes.le_dec (mem_bytes m ptr 8).
Definition write_u32 (m : memory) (ptr value : Z) : memory := mem_write m ptr (le_enc 4 value).
Definition write_u64 (m : memory) (ptr value : Z) : memory := mem_write m ptr (le_enc 8 value).

Definition revision (s : X86SaveState) (m : memory) : res SaveStateError Z :=
  let actual := read_u32 m (ss_top s - REVISION_OFFSET) in
  if accepts (ss_format s) actual then Ok actual else Err (RevisionMismatch (ss_format s) actual).

Definition amd64_revision (s : X86SaveState) (m : memory) : res SaveStateError unit :=
  let? actual := revision s m in
  if match ss_format s with Amd64 | Amd64OrIntelLegacy => true | _ => false end && accepts Amd64 actual
  then Ok tt else Err (RevisionMismatch Amd64 actual).

Definition read_amd64 (s : X86SaveState) (r : Amd64Register) (m : memory) : res SaveStateError Z :=
  let? _ := amd64_revision s m in Ok (read_u64 m (ss_top s - register_offset r)).

Definition write_amd64 (s : X86SaveState) (r : Amd64Register) (value : Z) : sres memory SaveStateError unit :=
  fun m => match amd64_revision s m with
           | Ok _ => (write_u64 m (ss_top s - register_offset r) value, Ok tt)
           | Err e => (m, Err e)
           | Panic => (m, Panic)
           end.

Definition write_smbase (s : X86SaveState) (smbase : Z) : sres memory SaveStateError unit :=
  fun m => match revision s m with
           | Ok rev => (write_u32 m (ss_top s - smbase_offset (ss_format s) rev) smbase, Ok tt)
           | Err e => (m, Err e)
           | Panic => (m, Panic)
           end.

(** The SMBASE field that the hardware will load, read with the layout of the
    stored revision. *)
Definition stored_smbase (s : X86SaveState) (m : memory) : res SaveStateError Z :=
  let? rev := revision s m in Ok (read_u32 m (ss_top s - smbase_offset (ss_format s) rev)).

(** ** Lemmas *)

Lemma smbase_offset_bounds f rev : smbase_offset f rev = 0x100 \/ smbase_offset f rev = 0x108.
Proof. destruct f; simpl; auto. destruct (amd64_accepts rev); auto. Qed.

Lemma read_u32_write m a v : 0 <= v <= u32_max -> read_u32 (write_u32 m a v) a = v.
Proof.
  intros Hv. unfold read_u32, write_u32. rewrite mem_bytes_write_all by (by rewrite zlen_le_enc).
  apply le_dec_enc. unfold u32_max in *. lia.
Qed.

Lemma read_u64_write m a v : 0 <= v <= u64_max -> read_u64 (write_u64 m a v) a = v.
Proof.
  intros Hv. unfold read_u64, write_u64. rewrite mem_bytes_write_all by (by rewrite zlen_le_enc).
  apply le_dec_enc. unfold u64_max in *. lia.
Qed.

(** A write apart from the revision word keeps the revision. *)
Lemma revision_keeps s m m' :
  (forall a, ss_top s - 0x104 <= a < ss_top s - 0x100 -> m' a = m a) -> revision s m' = revision s m.
Proof.
  intros H. unfold revision, read_u32, REVISION_OFFSET. rewrite (mem_bytes_same m m'); [done|]. intros a Ha. apply H. lia.
Qed.

(** ** Properties *)

(** Relocating a CPU through its save state changes exactly the four bytes of the
    SMBASE field, keeps the revision word (so the view stays usable) and stores the
    value the hardware will load; with a revision of another layout nothing is
    changed and the revision found is reported. *)
Theorem write_smbase_exact s v m m' r :
  0 <= v <= u32_max -> write_smbase s v m = (m', r) ->
  match r with
  | Ok _ => exists rev, revision s m = Ok rev /\ revision s m' = Ok rev /\ stored_smbase s m' = Ok v /\
      forall a, ~ ss_top s - smbase_offset (ss_format s) rev <= a < ss_top s - smbase_offset (ss_format s) rev + 4 -> m' a = m a
  | Err (RevisionMismatch f actual) => m' = m /\ f = ss_format s /\ actual = read_u32 m (ss_top s - REVISION_OFFSET) /\
      accepts f actual = false
  | Panic => False
  end.
Proof.
  intros Hv H. unfold write_smbase in H. destruct (revision s m) as [rev|e|] eqn:Hr.
  - injection H as <- <-. exists rev. pose proof (smbase_offset_bounds (ss_format s) rev) as Ho.
    assert (Hout : forall a, ~ ss_top s - smbase_offset (ss_format s) rev <= a < ss_top s - smbase_offset (ss_format s) rev + 4 ->
      write_u32 m (ss_top s - smbase_offset (ss_format s) rev) v a = m a).
    { intros a Ha. unfold write_u32. apply mem_write_out. rewrite zlen_le_enc. lia. }
    assert (Hr' : revision s (write_u32 m (ss_top s - smbase_offset (ss_format s) rev) v) = Ok rev).
    { rewrite (revision_keeps s m); [done|]. intros a Ha. apply Hout. lia. }
    split_and!; auto. unfold stored_smbase. rewrite Hr'. cbn [rbind]. by rewrite read_u32_write.
  - injection H as <- <-. unfold revision in Hr. case_match eqn:Ea; [done|]. injection Hr as <-. auto.
  - unfold revision in Hr. by case_match.
Qed.

(** A saved AMD64 register that is written reads back, with every other byte of
    memory, hence every other register, the revision and SMBASE, unchanged; on a
    layout that is not AMD64's nothing is written. *)
Theorem write_amd64_exact s reg v m m' r :
  0 <= v <= u64_max -> write_amd64 s reg v m = (m', r) ->
  match r with
  | Ok _ => read_amd64 s reg m' = Ok v /\ (forall reg', reg' <> reg -> read_amd64 s reg' m' = read_amd64 s reg' m) /\
      stored_smbase s m' = stored_smbase s m
  | Err _ => m' = m /\ forall reg', exists e, read_amd64 s reg' m = Err e
  | Panic => False
  end.
Proof.
  intros Hv H. unfold write_amd64 in H. destruct (amd64_revision s m) as [[]|e|] eqn:Hr.
  - injection H as <- <-.
    assert (Hout : forall a, ~ ss_top s - register_offset reg <= a < ss_top s - register_offset reg + 8 ->
      write_u64 m (ss_top s - register_offset reg) v a = m a).
    { intros a Ha. unfold write_u64. apply mem_write_out. rewrite zlen_le_enc. lia. }
    assert (Hkeep : revision s (write_u64 m (ss_top s - register_offset reg) v) = revision s m).
    { apply revision_keeps. intros a Ha. apply Hout. destruct reg; simpl; lia. }
    assert (Hr' : amd64_revision s (write_u64 m (ss_top s - register_offset reg) v) = Ok tt).
    { unfold amd64_revision in *. by rewrite Hkeep. }
    split_and!.
    + unfold read_amd64. rewrite Hr'. cbn [rbind]. by rewrite read_u64_write.
    + intros reg' Hne. unfold read_amd64. rewrite Hr, Hr'. cbn [rbind]. unfold read_u64. do 2 f_equal.
      apply mem_bytes_same. intros a Ha. apply Hout. destruct reg, reg'; simpl in *; try done; lia.
    + unfold stored_smbase. rewrite Hkeep. destruct (revision s m) as [rev| |]; [|done..]. cbn [rbind].
      pose proof (smbase_offset_bounds (ss_format s) rev). unfold read_u32. do 2 f_equal. apply mem_bytes_same.
      intros a Ha. apply Hout. destruct reg; simpl; lia.
  - injection H as <- <-. split; [done|]. intros reg'. exists e. unfold read_amd64. by rewrite Hr.
  - unfold amd64_revision, revision in Hr. by repeat panic_step Hr.
Qed.

(** ** Witnesses *)

Definition zen_memory : memory := mem_write (fun _ => 0x5a) (0x10000 - 0x104) (le_enc 4 0x30064).
Definition zen : X86SaveState := {| ss_top := 0x10000; ss_format := Amd64 |}.

Lemma write_smbase_exact_witness :
  stored_smbase zen (fst (write_smbase zen 0x70000000 zen_memory)) = Ok 0x70000000.
Proof.
  destruct (write_smbase zen 0x70000000 zen_memory) as [m' r] eqn:E.
  pose proof (write_smbase_exact zen 0x70000000 zen_memory m' r ltac:(vm_compute; split; discriminate) E) as H.
  assert (Er : r = Ok tt). { change r with (snd (m', r)). rewrite <- E. vm_compute. reflexivity. }
  subst r. destruct H as (rev & _ & _ & H & _). exact H.
Defined.

Lemma write_amd64_exact_witness :
  read_amd64 zen Rip (fst (write_amd64 zen Rip 0xffffffff80001234 zen_memory)) = Ok 0xffffffff80001234.
Proof.
  destruct (write_amd64 zen Rip 0xffffffff80001234 zen_memory) as [m' r] eqn:E.
  pose proof (write_amd64_exact zen Rip 0xffffffff80001234 zen_memory m' r ltac:(vm_compute; split; discriminate) E) as H.
  assert (Er : r = Ok tt). { change r with (snd (m', r)). rewrite <- E. vm_compute. reflexivity. }
  subst r. destruct H as (H & _). exact H.
Defined.
