(* ===== verification/SmmDispatch.v ===== *)
(** * SmmDispatch: handling an SMI ([crates/smm/src/handler.rs], [stage.rs])

    [handle] on one CPU finds its parameter block and the configuration the installer
    left in SMRAM, runs the CPU-local work, and enters the rendezvous: the CPU that
    swaps its token into the owner word dispatches, the others wait for the word to be
    released.  The CPUs run concurrently; [smi_step] interleaves their atomic steps. *)

From S2P Require Import Prelude.
From S2P Require Import Bytes.
From S2P Require Import Wire.
From S2P Require Import Memory.
From S2P Require Import SmmLayout.
From S2P Require Import SmmImage.
From S2P Require Import SmmInstall.
From S2P Require Import SmmEffects.
From Stdlib Require Import ZArith Lia.
From stdpp Require Import base numbers list option relations.

#[local] Open Scope Z_scope.

(** ** The context of an entry *)

Definition params_decode (l : list Z) : SmmEntryParams := {|
  ep_cpu := u32_at l 0; ep_stack_size := u32_at l 4; ep_stack_top := u64_at l 8; ep_common_entry := u64_at l 16;
  ep_runtime := u64_at l 24; ep_coreboot_module_args := u64_at l 32; ep_cr3 := u64_at l 40; ep_entry_base := u64_at l 48 |}.

Definition runtime_decode (l : list Z) : SmmRuntime := {|
  rt_smram_base := u64_at l 0; rt_smram_size := u64_at l 8; rt_num_cpus := u16_at l 16; rt_reserved := u16_at l 18;
  rt_stack_size := u32_at l 20; rt_handler_config_offset := u32_at l 24; rt_handler_config_size := u32_at l 28;
  rt_owner := u32_at l 32 |}.

(** [SmmContext::from_raw]: the parameter block the stub passes. *)
Definition from_raw (m : memory) (params : Z) : option SmmEntryParams :=
  if params =? 0 then None else Some (params_decode (mem_bytes m params PARAMS_SIZE)).

Section context.
Context {T : Target}.

Definition runtime_ptr (ctx : SmmEntryParams) : option Z :=
  if ep_runtime ctx =? 0 then None else Some (as_ptr (ep_runtime ctx)).

(** The address of the configuration, for a type of the given size and alignment. *)
Definition handler_config (m : memory) (ctx : SmmEntryParams) (size_of align_of : Z) : option Z :=
  runtime ← runtime_ptr ctx;
  let rt := runtime_decode (mem_bytes m runtime RUNTIME_FIELDS) in
  let offset := rt_handler_config_offset rt in
  let size := rt_handler_config_size rt in
  let smram_base := as_ptr (rt_smram_base rt) in
  let smram_size := as_ptr (rt_smram_size rt) in
  start ← Prelude.checked_add usize_max runtime offset;
  end_ ← Prelude.checked_add usize_max start size;
  if negb (size =? size_of) || (HANDLER_CONFIG_CAPACITY <? size) || (HANDLER_CONFIG_ALIGNMENT <? align_of)
     || negb (is_multiple_of offset HANDLER_CONFIG_ALIGNMENT) || (offset <? size_of_runtime) || (start <? smram_base)
  then None
  else
    top ← Prelude.checked_add usize_max smram_base smram_size;
    if top <? end_ then None else Some start.
End context.

(** ** The rendezvous *)

(** [compare_exchange(0, token)]: the word afterwards, and whether it was free. *)
Definition claim_owner (owner token : Z) : Z * bool := if owner =? 0 then (token, true) else (owner, false).

(** [ctx.cpu().wrapping_add(1)] *)
Definition token (cpu : nat) : Z := (Z.of_nat cpu + 1) mod 2 ^ 32.

(** Where a CPU is in [handle]: outside SMM, in its local work, about to claim,
    waiting, or dispatching as the owner. *)
Inductive phase := Outside | Local | Claim | Wait | Dispatch.

#[export] Instance phase_eq_dec : EqDecision phase.
Proof. solve_decision. Defined.

Record smi := { sm_owner : Z; sm_phases : list phase; sm_dispatched : bool }.

Definition at_phase (s : smi) (i : nat) (f : phase) : Prop := sm_phases s !! i = Some f.
Definition move (s : smi) (i : nat) (owner : Z) (f : phase) : smi :=
  {| sm_owner := owner; sm_phases := <[i := f]> (sm_phases s); sm_dispatched := sm_dispatched s |}.
(** The same, noting that a handler ran ([sm_dispatched] is no state of the code). *)
Definition dispatching (s : smi) (i : nat) (owner : Z) : smi :=
  {| sm_owner := owner; sm_phases := <[i := Dispatch]> (sm_phases s); sm_dispatched := true |}.

(** One atomic step of one CPU inside [handle]; [step_spin] re-reads the word. *)
Inductive smi_step : smi -> smi -> Prop :=
| step_local s i : at_phase s i Local -> smi_step s (move s i (sm_owner s) Claim)
| step_claim s i owner : at_phase s i Claim -> claim_owner (sm_owner s) (token i) = (owner, true) -> smi_step s (dispatching s i owner)
| step_refused s i owner : at_phase s i Claim -> claim_owner (sm_owner s) (token i) = (owner, false) -> smi_step s (move s i owner Wait)
| step_resume s i : at_phase s i Wait -> sm_owner s = 0 -> smi_step s (move s i (sm_owner s) Outside)
| step_leave s i : at_phase s i Dispatch -> smi_step s (move s i 0 Outside).

(** A spinning CPU changes nothing; an SMI brings a CPU into SMM. *)
Inductive smi_event : smi -> smi -> Prop :=
| event_step s s' : smi_step s s' -> smi_event s s'
| event_spin s i : at_phase s i Wait -> sm_owner s <> 0 -> smi_event s s
| event_smi s i : at_phase s i Outside -> smi_event s (move s i (sm_owner s) Local).

(** The first SMI after the installation, which left the owner word zero. *)
Definition smi_start (n : nat) : smi := {| sm_owner := 0; sm_phases := replicate n Outside; sm_dispatched := false |}.

(** The work left: the steps each CPU still has to take. *)
Definition phase_work (f : phase) : nat :=
  match f with Outside => 0 | Local => 3 | Claim => 2 | Wait => 1 | Dispatch => 1 end.
Definition smi_work (s : smi) : nat := list_sum (map phase_work (sm_phases s)).

(** The owner word names the CPU that dispatches, and none when it is zero. *)
Record smi_inv (n : nat) (s : smi) : Prop := {
  si_len : length (sm_phases s) = n;
  si_owned : forall i, at_phase s i Dispatch -> sm_owner s = token i;
  si_owner : sm_owner s <> 0 -> exists i, at_phase s i Dispatch;
  si_waits : forall i, at_phase s i Wait -> sm_dispatched s = true
}.

(** ** Lemmas *)

Lemma token_small i : Z.of_nat i < u32_max -> token i = Z.of_nat i + 1.
Proof. unfold token, u32_max. intros. apply Z.mod_small. lia. Qed.

Lemma move_at s i owner f j g :
  at_phase (move s i owner f) j g -> (j = i /\ g = f) \/ (j <> i /\ at_phase s j g).
Proof.
  unfold at_phase, move. cbn [sm_phases]. intros H. destruct (decide (j = i)) as [->|Hne].
  - left. split; [done|]. apply list_lookup_insert_Some in H. naive_solver.
  - right. by rewrite list_lookup_insert_ne in H.
Qed.

Lemma at_move s i owner f g : at_phase s i g -> at_phase (move s i owner f) i f.
Proof. intros H. unfold at_phase, move. cbn [sm_phases]. apply list_lookup_insert_eq. by eapply lookup_lt_Some. Qed.

Lemma at_move_other s i owner f j g : j <> i -> at_phase s j g -> at_phase (move s i owner f) j g.
Proof. intros Hne H. unfold at_phase, move. cbn [sm_phases]. by rewrite list_lookup_insert_ne. Qed.

Lemma phase_unique s i f g : at_phase s i f -> at_phase s i g -> f = g.
Proof. unfold at_phase. naive_solver. Qed.

Lemma smi_inv_start n : smi_inv n (smi_start n).
Proof.
  constructor; unfold smi_start, at_phase; cbn [sm_owner sm_phases sm_dispatched].
  - apply length_replicate.
  - intros i H. apply lookup_replicate_1 in H. naive_solver.
  - done.
  - intros i H. apply lookup_replicate_1 in H. naive_solver.
Qed.

(** A CPU that neither takes nor holds the word moves between phases. *)
Lemma smi_inv_move n s i f g :
  smi_inv n s -> at_phase s i f -> f <> Dispatch -> g <> Dispatch -> (g = Wait -> sm_dispatched s = true) ->
  smi_inv n (move s i (sm_owner s) g).
Proof.
  intros [Hl Ho Hw Hd] Hi Hf Hg Hgw. constructor.
  - cbn [move sm_phases]. by rewrite length_insert.
  - intros j [[-> <-]|[_ Hj]]%move_at; [done|]. by apply Ho.
  - intros Hne. destruct (Hw Hne) as [j Hj]. exists j. apply at_move_other; [|done]. intros ->.
    by pose proof (phase_unique _ _ _ _ Hi Hj).
  - intros j [[-> <-]|[_ Hj]]%move_at; [by apply Hgw|by apply (Hd j)].
Qed.

Lemma dispatch_one n s i j :
  Z.of_nat n <= u32_max -> smi_inv n s -> at_phase s i Dispatch -> at_phase s j Dispatch -> i = j.
Proof.
  intros Hn [Hl Ho _ _] Hi Hj. pose proof (Ho i Hi) as H1. rewrite (Ho j Hj) in H1.
  pose proof (lookup_lt_Some _ _ _ Hi). pose proof (lookup_lt_Some _ _ _ Hj). rewrite !token_small in H1 by lia. lia.
Qed.

(** Some handler has run by the time a CPU finds the word taken. *)
Lemma owned_dispatched n s : smi_inv n s -> (forall i, at_phase s i Dispatch -> sm_dispatched s = true) -> sm_owner s <> 0 -> sm_dispatched s = true.
Proof. intros [_ _ Hw _] Hd Hne. destruct (Hw Hne) as [i Hi]. by apply (Hd i). Qed.

Definition smi_ok (n : nat) (s : smi) : Prop := smi_inv n s /\ forall i, at_phase s i Dispatch -> sm_dispatched s = true.

Lemma smi_ok_step n s s' : Z.of_nat n <= u32_max -> smi_ok n s -> smi_step s s' -> smi_ok n s'.
Proof.
  intros Hn [Hinv Hd] Hstep. pose proof (si_len _ _ Hinv) as Hl.
  destruct Hstep as [s i Hi|s i owner Hi Hc|s i owner Hi Hc|s i Hi H0|s i Hi].
  - split; [by apply (smi_inv_move n s i Local)|]. intros j [[_ ?]|[_ Hj]]%move_at; [done|]. by apply (Hd j).
  - unfold claim_owner in Hc. case_match; [|done]. bool_hyp. injection Hc as <-. split; [|done].
    pose proof (lookup_lt_Some _ _ _ Hi) as Hlt. constructor.
    + cbn [dispatching sm_phases]. by rewrite length_insert.
    + intros j Hj. apply (move_at s i (token i) Dispatch) in Hj as [[-> _]|[_ Hj]]; [done|].
      pose proof (si_owned _ _ Hinv j Hj) as Ht. pose proof (lookup_lt_Some _ _ _ Hj). rewrite token_small in Ht by lia. lia.
    + intros _. exists i. by apply (at_move s i (token i) Dispatch Claim).
    + done.
  - unfold claim_owner in Hc. case_match; [done|]. bool_hyp. injection Hc as <-. split.
    + apply (smi_inv_move n s i Claim); auto. intros _. by apply (owned_dispatched n s).
    + intros j [[_ ?]|[_ Hj]]%move_at; [done|]. by apply (Hd j).
  - split; [by apply (smi_inv_move n s i Wait)|]. intros j [[_ ?]|[_ Hj]]%move_at; [done|]. by apply (Hd j).
  - split.
    + constructor.
      * cbn [move sm_phases]. by rewrite length_insert.
      * intros j [[_ ?]|[Hne Hj]]%move_at; [done|]. by pose proof (dispatch_one n s i j Hn Hinv Hi Hj).
      * done.
      * intros j [[_ ?]|[_ Hj]]%move_at; [done|]. by apply (si_waits _ _ Hinv j).
    + intros j [[_ ?]|[_ Hj]]%move_at; [done|]. by apply (Hd j).
Qed.

Lemma smi_ok_reachable n s : Z.of_nat n <= u32_max -> rtc smi_event (smi_start n) s -> smi_ok n s.
Proof.
  intros Hn Hr. revert s Hr. apply (rtc_ind_r (R := smi_event) (fun s => smi_ok n s) (smi_start n)).
  - split; [apply smi_inv_start|]. intros i H. apply lookup_replicate_1 in H. naive_solver.
  - intros y z _ Hyz Hy. destruct Hyz as [y z Hyz|y i Hw Hne|y i Hi].
    + by apply (smi_ok_step n y).
    + done.
    + destruct Hy as [Hinv Hd]. split; [by apply (smi_inv_move n y i Outside)|].
      intros j [[_ ?]|[_ Hj]]%move_at; [done|]. by apply (Hd j).
Qed.

Lemma work_insert fs i f g :
  fs !! i = Some f -> (list_sum (map phase_work (<[i := g]> fs)) + phase_work f = list_sum (map phase_work fs) + phase_work g)%nat.
Proof.
  revert i. induction fs as [|h fs IH]; intros [|i] Hi; simplify_eq/=; [lia|]. specialize (IH i Hi). lia.
Qed.

(** Every step of the code takes some of the work. *)
Lemma smi_step_work s s' : smi_step s s' -> (smi_work s' < smi_work s)%nat.
Proof.
  intros H. unfold smi_work.
  destruct H as [s i Hi|s i owner Hi _|s i owner Hi _|s i Hi _|s i Hi]; cbn [move dispatching sm_phases];
    match goal with |- context [<[i := ?g]> _] => pose proof (work_insert (sm_phases s) i _ g Hi) as Hw end;
    cbn [phase_work] in Hw; lia.
Qed.

(** A state in which some CPU is in SMM can take a step. *)
Lemma smi_progress n s i f :
  smi_ok n s -> at_phase s i f -> f <> Outside -> exists s', smi_step s s'.
Proof.
  intros [Hinv _] Hi Hf. destruct f; [done|..].
  - eexists. by apply (step_local s i).
  - destruct (claim_owner (sm_owner s) (token i)) as [o []] eqn:E; eexists; [by apply (step_claim s i o)|by apply (step_refused s i o)].
  - destruct (decide (sm_owner s = 0)) as [H0|H0]; [eexists; by apply (step_resume s i)|].
    destruct (si_owner _ _ Hinv H0) as [j Hj]. eexists. by apply (step_leave s j).
  - eexists. by apply (step_leave s i).
Qed.

Lemma smi_quiet_or_step n s :
  smi_ok n s -> (exists s', smi_step s s') \/ (forall i f, at_phase s i f -> f = Outside).
Proof.
  intros Hok. destruct (decide (Forall (fun f => f = Outside) (sm_phases s))) as [Hall|Hno].
  - right. intros i f Hi. by apply (Forall_lookup_1 _ _ _ _ Hall Hi).
  - left. apply not_Forall_Exists in Hno; [|solve_decision]. apply Exists_exists in Hno as (f & Hf & Hne).
    apply list_elem_of_lookup_1 in Hf as [i Hi]. by apply (smi_progress n s i f).
Qed.

(** ** Reading back what the installer wrote *)

Definition runtime_typed (r : SmmRuntime) : Prop :=
  u64_ok (rt_smram_base r) /\ u64_ok (rt_smram_size r) /\ 0 <= rt_num_cpus r <= u16_max /\ 0 <= rt_reserved r <= u16_max /\
  u32_ok (rt_stack_size r) /\ u32_ok (rt_handler_config_offset r) /\ u32_ok (rt_handler_config_size r) /\ u32_ok (rt_owner r).

Definition params_typed (p : SmmEntryParams) : Prop :=
  u32_ok (ep_cpu p) /\ u32_ok (ep_stack_size p) /\ u64_ok (ep_stack_top p) /\ u64_ok (ep_common_entry p) /\
  u64_ok (ep_runtime p) /\ u64_ok (ep_coreboot_module_args p) /\ u64_ok (ep_cr3 p) /\ u64_ok (ep_entry_base p).

Ltac record_field i :=
  first [eapply (u64_field i); [reflexivity | header_offset | tauto]
        | eapply (u32_field i); [reflexivity | header_offset | tauto]
        | eapply (u16_field i); [reflexivity | header_offset | tauto]].

Lemma runtime_decode_bytes r : runtime_typed r -> runtime_decode (runtime_bytes r) = r.
Proof.
  intros Ht. unfold runtime_typed in Ht. unfold runtime_decode, runtime_bytes, runtime_pieces. destruct r. simpl in Ht.
  f_equal; [record_field 0%nat | record_field 1%nat | record_field 2%nat | record_field 3%nat | record_field 4%nat
    | record_field 5%nat | record_field 6%nat | record_field 7%nat].
Qed.

Lemma params_decode_bytes p : params_typed p -> params_decode (params_bytes p) = p.
Proof.
  intros Ht. unfold params_typed in Ht. unfold params_decode, params_bytes, params_pieces. destruct p. simpl in Ht.
  f_equal; [record_field 0%nat | record_field 1%nat | record_field 2%nat | record_field 3%nat | record_field 4%nat
    | record_field 5%nat | record_field 6%nat | record_field 7%nat].
Qed.

Section properties.
Context {T : Target}.

(** The configuration a context finds, computed from a runtime block that holds what
    the installer wrote. *)
Lemma handler_config_reads m ctx rt size align :
  runtime_typed rt -> 0 < ep_runtime ctx < LOW_4G_END ->
  mem_bytes m (ep_runtime ctx) RUNTIME_FIELDS = runtime_bytes rt ->
  0 <= rt_smram_base rt <= ep_runtime ctx -> rt_smram_base rt + rt_smram_size rt <= LOW_4G_END ->
  size = rt_handler_config_size rt -> size <= HANDLER_CONFIG_CAPACITY -> align <= HANDLER_CONFIG_ALIGNMENT ->
  rt_handler_config_offset rt mod HANDLER_CONFIG_ALIGNMENT = 0 -> size_of_runtime <= rt_handler_config_offset rt ->
  ep_runtime ctx + rt_handler_config_offset rt + size <= rt_smram_base rt + rt_smram_size rt ->
  ep_runtime ctx + rt_handler_config_offset rt + size < LOW_4G_END ->
  handler_config m ctx size align =
    if rt_smram_base rt + rt_smram_size rt <=? usize_max then Some (ep_runtime ctx + rt_handler_config_offset rt) else None.
Proof.
  intros Ht Hrt Hm Hb Hs -> Hcap Hal Hmod Hoff Htop H4. pose proof usize_max_bounds as Hu.
  assert (LOW_4G_END = 4294967296) as E4 by reflexivity. unfold u32_max in Hu.
  assert (0 <= rt_handler_config_offset rt /\ 0 <= rt_handler_config_size rt /\ 0 <= rt_smram_size rt) as (? & ? & ?)
    by (unfold runtime_typed, u32_ok, u64_ok in Ht; lia).
  unfold handler_config, runtime_ptr. guard_false. cbn [mbind option_bind].
  rewrite (as_ptr_low (ep_runtime ctx)), Hm, runtime_decode_bytes, (as_ptr_low (rt_smram_base rt)) by (done || lia).
  rewrite (checked_add_ok _ (ep_runtime ctx)) by lia. cbn [mbind option_bind].
  rewrite (checked_add_ok _ (ep_runtime ctx + rt_handler_config_offset rt)) by lia. cbn [mbind option_bind]. rewrite Z.eqb_refl. cbn [negb orb].
  apply is_multiple_of_spec in Hmod. rewrite Hmod. cbn [negb]. guard_false.
  destruct (Z.ltb_spec (rt_smram_size rt) LOW_4G_END) as [Hlt|Hge].
  - rewrite as_ptr_low by lia. unfold Prelude.checked_add. destruct (_ <=? usize_max) eqn:E; cbn [mbind option_bind]; [|done].
    bool_hyp. by guard_false.
  - assert (rt_smram_base rt = 0) as -> by lia. assert (rt_smram_size rt = 4294967296) as -> by lia. rewrite Z.add_0_l.
    unfold as_ptr, Prelude.checked_add, usize_max. destruct usize_bits_ok as [-> | ->].
    + change (4294967296 mod (2 ^ 32 - 1 + 1)) with 0. change (0 + 0 <=? 2 ^ 32 - 1) with true.
      change (4294967296 <=? 2 ^ 32 - 1) with false. cbn [mbind option_bind]. by guard_true.
    + change (4294967296 mod (2 ^ 64 - 1 + 1)) with 4294967296. change (0 + 4294967296 <=? 2 ^ 64 - 1) with true.
      change (4294967296 <=? 2 ^ 64 - 1) with true. cbn [mbind option_bind]. by guard_false.
Qed.

(** C31: The installer and the handler agree: after an installation the parameter block
    inside each CPU's stub names that CPU and the runtime block, the owner word is
    free, and a handler that asks for a value of the type the installer was given is
    handed exactly the platform's configuration.  That holds as long as the address
    after SMRAM fits in a [usize]; an SMRAM that ends at 4 GiB, which the installer
    accepts, leaves a 32-bit handler without its configuration. *)
Theorem handler_finds_config image config m slots m' slots' r (i : nat) c :
  bytes_ok image -> config_typed config -> install_pic_image image config (m, slots) = ((m', slots'), Ok r) ->
  in_cpus r !! i = Some c ->
  let d := descriptor_of image (in_header r) (Z.of_nat i) in
  let config_addr := in_common_base r + sh_handler_config_offset (in_header r) in
  exists ctx,
    from_raw m' (entry_addr c + ed_params_offset d) = Some ctx /\ ep_cpu ctx = Z.of_nat i /\ ep_runtime ctx = in_runtime_addr r /\
    rt_owner (runtime_decode (mem_bytes m' (ep_runtime ctx) RUNTIME_FIELDS)) = 0 /\
    mem_bytes m' config_addr (zlen (ic_handler_config config)) = ic_handler_config config /\
    handler_config m' ctx (zlen (ic_handler_config config)) (ic_handler_config_align config) =
      if ic_smram_base config + ic_smram_size config <=? usize_max then Some config_addr else None.
Proof.
  intros Hb Hc H Hi. cbv zeta. destruct (install_cases _ _ _ _ _ _ _ Hb Hc H) as [[_ [e E]] | (stub & p & Hp & -> & E)]; [done|].
  injection E as ->. cbn [installed in_header in_common_base in_common_entry in_runtime_addr in_cr3 in_cpus] in *.
  set (h := pl_header p) in *. set (d := descriptor_of image h (Z.of_nat i)).
  pose proof (plan_numbers _ _ _ _ Hb Hc Hp) as (N1 & N2 & N3 & N4 & N5 & N6).
  pose proof (plan_cpu_numbers _ _ _ _ Hb Hc Hp i c Hi) as Hn. cbv zeta in Hn. fold h d in Hn, N1, N2, N3, N4, N6.
  pose proof (po_low _ _ _ _ Hp) as [L1 L2]. fold h in L1. pose proof (po_image _ _ _ _ Hp) as Him.
  pose proof (bk_runtime _ (ik_blocks _ _ _ _ Him)) as Hrs. pose proof (bk_config _ (ik_blocks _ _ _ _ Him)) as Hbc. fold h in Hrs, Hbc.
  pose proof (hk_typed _ _ (plan_header _ _ _ _ Hp)) as Hht. unfold header_typed in Hht. fold h in Hht.
  pose proof (plan_cpu _ _ _ _ _ _ Hb Hc Hp Hi) as Hcpu. fold h in Hcpu.
  pose proof (hk_entry _ _ (plan_header _ _ _ _ Hp)) as Hent. fold h in Hent.
  pose proof (plan_entry _ _ _ _ Hb Hc Hp (Z.of_nat i) ltac:(lia)) as Hpe. 
  assert (LOW_4G_END = 4294967296) as E4 by reflexivity. unfold config_typed, SMM_IDENTITY_TABLE_SIZE in *.
  set (ctx := entry_params p (pl_page_table_base p) (Z.of_nat i) c (args_address p (Z.of_nat i))).
  pose proof (plan_args _ _ _ _ Hp) as Hargs. fold h in Hargs.
  pose proof (plan_tables_top _ _ _ _ Hb Hc Hp) as Htop.
  assert (Hctx : params_typed ctx).
  { unfold params_typed, u32_ok, u64_ok, u32_max, u64_max, ctx, entry_params, args_address, MODULE_ARGS_SIZE. fold h.
    cbn [ep_cpu ep_stack_size ep_stack_top ep_common_entry ep_runtime ep_coreboot_module_args ep_cr3 ep_entry_base].
    rewrite (po_entry _ _ _ _ Hp), N3. fold h. unfold u16_max, u32_max in *.
    destruct (pl_module_args_base p); split_and!; lia. }
  exists ctx. set (m'' := image_write image config p m).
  assert (Hblock : mem_bytes m'' (entry_addr c + ed_params_offset d) PARAMS_SIZE = params_bytes ctx).
  { unfold PARAMS_SIZE. rewrite <- (sub_mem_bytes m'' (entry_addr c) (ed_stub_size d)) by lia.
    pose proof (installed_stub image config stub p Hb Hc Hp m i c Hi) as Hst. cbv zeta in Hst. fold h d ctx m'' in Hst. rewrite Hst.
    apply sub_upd_at; [by rewrite zlen_params_bytes|lia|]. destruct Hn as (_ & ? & ? & Hz). rewrite Hz. lia. }
  assert (Hrtm : mem_bytes m'' (pl_runtime_addr p) RUNTIME_FIELDS = runtime_bytes (pl_runtime p)).
  { by apply (installed_runtime image config stub p). }
  assert (Hrt : runtime_typed (pl_runtime p)).
  { rewrite (po_runtime _ _ _ _ Hp). fold h. unfold runtime_typed, smm_runtime_new, u32_ok, u64_ok.
    cbn [rt_smram_base rt_smram_size rt_num_cpus rt_reserved rt_stack_size rt_handler_config_offset rt_handler_config_size rt_owner].
    rewrite (Z.mod_small (zlen _)) by lia. unfold u32_max, u64_max, u16_max in *. lia. }
  split_and!.
  - unfold from_raw. guard_false. by rewrite Hblock, params_decode_bytes.
  - done.
  - done.
  - change (ep_runtime ctx) with (pl_runtime_addr p). rewrite Hrtm, runtime_decode_bytes by done.
    by rewrite (po_runtime _ _ _ _ Hp).
  - rewrite <- N4. by apply (installed_config image config stub p).
  - assert (Hsz : rt_handler_config_size (pl_runtime p) = zlen (ic_handler_config config)).
    { rewrite (po_runtime _ _ _ _ Hp). cbn [smm_runtime_new rt_handler_config_size]. apply Z.mod_small. lia. }
    assert (Hof : rt_handler_config_offset (pl_runtime p) = sh_handler_config_offset h - sh_runtime_offset h)
      by by rewrite (po_runtime _ _ _ _ Hp).
    assert (Hsb : rt_smram_base (pl_runtime p) = ic_smram_base config) by by rewrite (po_runtime _ _ _ _ Hp).
    assert (Hss : rt_smram_size (pl_runtime p) = ic_smram_size config) by by rewrite (po_runtime _ _ _ _ Hp).
    rewrite (handler_config_reads m'' ctx (pl_runtime p)); rewrite ?Hsz, ?Hof, ?Hsb, ?Hss;
      change (ep_runtime ctx) with (pl_runtime_addr p); auto; unfold HANDLER_CONFIG_CAPACITY; try lia.
    + rewrite N3. replace (pl_common_base p + sh_runtime_offset h + (sh_handler_config_offset h - sh_runtime_offset h))
        with (pl_common_base p + sh_handler_config_offset h) by lia. done.
    + unfold SMM_IDENTITY_TABLE_SIZE in Htop. lia.
    + apply (ik_align _ _ _ _ Him).
    + apply (po_relative _ _ _ _ Hp).
Qed.
End properties.

(** C32: In every interleaving of any number of SMIs at most one CPU dispatches at a
    time, the owner word then holds that CPU's token and is zero when nobody
    dispatches; and a CPU only ever waits for a handler that runs. *)
Theorem rendezvous_exclusive n s :
  Z.of_nat n <= u32_max -> rtc smi_event (smi_start n) s ->
  (forall i j, at_phase s i Dispatch -> at_phase s j Dispatch -> i = j) /\
  (forall i, at_phase s i Dispatch -> sm_owner s = Z.of_nat i + 1) /\
  (sm_owner s = 0 <-> forall i, ~ at_phase s i Dispatch) /\
  (forall i, at_phase s i Wait -> sm_dispatched s = true).
Proof.
  intros Hn Hr. pose proof (smi_ok_reachable n s Hn Hr) as [Hinv Hd]. pose proof (si_len _ _ Hinv) as Hl.
  assert (Htok : forall i, at_phase s i Dispatch -> sm_owner s = Z.of_nat i + 1).
  { intros i Hi. pose proof (lookup_lt_Some _ _ _ Hi). rewrite (si_owned _ _ Hinv i Hi). apply token_small. lia. }
  split_and!; [by intros i j; apply (dispatch_one n)|done| |apply (si_waits _ _ Hinv)].
  split; [intros H0 i Hi; specialize (Htok i Hi); lia|]. intros Hno.
  destruct (decide (sm_owner s = 0)) as [|Hne]; [done|]. destruct (si_owner _ _ Hinv Hne) as [i Hi]. by destruct (Hno i).
Qed.

Lemma smi_drains n w : forall s, (smi_work s <= w)%nat -> Z.of_nat n <= u32_max -> smi_ok n s ->
  exists s', rtc smi_step s s' /\ smi_ok n s' /\ forall i f, at_phase s' i f -> f = Outside.
Proof.
  induction w as [|w IH]; intros s Hw Hn Hok; destruct (smi_quiet_or_step n s Hok) as [[s1 H1]|Hq]; eauto using rtc_refl.
  - apply smi_step_work in H1. lia.
  - pose proof (smi_step_work _ _ H1). destruct (IH s1) as (s' & Hs & Hok' & Hq); [lia|done|by apply (smi_ok_step n s)|].
    exists s'. split_and!; [by eapply rtc_l|done|done].
Qed.

(** C33: No SMI hangs: whatever the interleaving so far, the CPUs inside SMM take at
    most as many further steps as they have work left, and when no more steps are
    possible every CPU has left SMM with the owner word released. *)
Theorem rendezvous_drains n s :
  Z.of_nat n <= u32_max -> rtc smi_event (smi_start n) s ->
  (forall k s', nsteps smi_step k s s' -> (k <= smi_work s)%nat) /\
  exists s', rtc smi_step s s' /\ sm_owner s' = 0 /\ forall i f, at_phase s' i f -> f = Outside.
Proof.
  intros Hn Hr. split.
  - intros k s' Hk. clear Hr. induction Hk as [s|k s s1 s' H _ IH]; [lia|]. apply smi_step_work in H. lia.
  - destruct (smi_drains n (smi_work s) s) as (s' & Hs & [Hinv _] & Hq); [lia|done|by apply smi_ok_reachable|].
    exists s'. split_and!; [done| |done]. destruct (decide (sm_owner s' = 0)) as [|Hne]; [done|].
    destruct (si_owner _ _ Hinv Hne) as [i Hi]. by apply Hq in Hi.
Qed.

(** ** Witnesses *)

Lemma handler_finds_config_witness :
  exists r c ctx, test_result = Ok r /\ in_cpus r !! 1%nat = Some c /\
    from_raw test_run.1.1 (entry_addr c + 0x20) = Some ctx /\ ep_cpu ctx = 1 /\
    handler_config test_run.1.1 ctx 4 2 = Some (in_common_base r + 112).
Proof.
  destruct test_result as [r| |] eqn:E; [|discriminate E..]. pose proof test_run_eq as H. rewrite E in H.
  destruct (in_cpus r !! 1%nat) as [c|] eqn:Hc; [|injection E as <-; discriminate Hc].
  pose proof (handler_finds_config test_image test_install stale (replicate 2 ZERO_CPU) _ _ r 1%nat c test_image_ok
    test_install_typed H Hc) as L.
  cbv zeta in L. destruct L as (ctx & Hf & Hcpu & _ & _ & _ & Hh). exists r, c, ctx.
  injection E as <-. split_and!; [reflexivity|exact Hc| |exact Hcpu|exact Hh].
  injection Hc as <-. exact Hf.
Defined.

(** The second CPU takes an SMI and claims the owner word. *)
Definition claimed : smi := {| sm_owner := 2; sm_phases := [Outside; Dispatch]; sm_dispatched := true |}.

Lemma claimed_reachable : rtc smi_event (smi_start 2) claimed.
Proof.
  eapply rtc_l; [by apply (event_smi _ 1)|]. eapply rtc_l; [apply event_step; by apply (step_local _ 1)|].
  eapply rtc_l; [apply event_step; by apply (step_claim _ 1 2)|]. apply rtc_refl.
Qed.

Lemma rendezvous_exclusive_witness : sm_owner claimed = 2 /\ ~ at_phase claimed 0 Dispatch.
Proof.
  destruct (rendezvous_exclusive 2 claimed ltac:(vm_compute; discriminate) claimed_reachable) as (Hx & Ho & _).
  split; [exact (Ho 1%nat eq_refl)|]. intros H0. discriminate (Hx 0%nat 1%nat H0 eq_refl).
Defined.

Lemma rendezvous_drains_witness : exists s', rtc smi_step claimed s' /\ sm_owner s' = 0.
Proof.
  destruct (rendezvous_drains 2 claimed ltac:(vm_compute; discriminate) claimed_reachable) as (_ & s' & Hs & H0 & _).
  exists s'. split; [exact Hs|exact H0].
Defined.
