(* ===== verification/BootMedia.v ===== *)
(** * BootMedia: firmware storage ([crates/core/src/services/boot_media.rs],
    [crates/core/src/services/firmware.rs])

    [BootMedia] is the interface through which the loader reads firmware.  The
    class carries the operations of the Rust trait, [BootMediaLaws] what a client
    may rely on; memory-mapped flash, sub-regions and block devices implement it.
    The bump arena that buffers media reads is here too.

    A buffer a caller lends to [read_at] is disjoint from the memory the medium
    is read from (an exclusive borrow), so it is passed and returned by value. *)

From S2P Require Import Prelude.
From S2P Require Import Bytes.
From S2P Require Import Services.
From S2P Require Import Memory.
From Stdlib Require Import ZArith Lia.
From stdpp Require Import base numbers list option.

#[local] Open Scope Z_scope.

(** ** The interface *)

(** [read_at m offset buf] is the buffer afterwards and the result; [as_slice]
    is the address and contents of a mapped medium. *)
Class BootMedia (M : Type) := {
  read_at : M -> Z -> list Z -> list Z * res ServiceError Z;
  media_size : M -> Z;
  as_slice : M -> option (Z * list Z)
}.

(** What the trait documents: reads stay inside the medium and the buffer, and
    a mapped view spans the whole medium. *)
Class BootMediaLaws {T : Target} (M : Type) {B : BootMedia M} (wf : M -> Prop) := {
  media_size_range m : wf m -> 0 <= media_size m <= usize_max;
  read_at_zlen m off buf :
    wf m -> 0 <= off <= usize_max -> zlen buf <= usize_max ->
    zlen (fst (read_at m off buf)) = zlen buf;
  read_at_bytes m off buf :
    wf m -> 0 <= off <= usize_max -> zlen buf <= usize_max -> bytes_ok buf ->
    bytes_ok (fst (read_at m off buf));
  read_at_no_panic m off buf :
    wf m -> 0 <= off <= usize_max -> zlen buf <= usize_max -> snd (read_at m off buf) <> Panic;
  read_at_in_bounds m off buf n :
    wf m -> 0 <= off <= usize_max -> zlen buf <= usize_max ->
    snd (read_at m off buf) = Ok n -> off + zlen buf <= media_size m;
  as_slice_spans m a s : wf m -> as_slice m = Some (a, s) -> zlen s = media_size m
}.

(** [offset.checked_add(len).is_none_or(|end| end > size)] *)
Definition out_of_bounds {T : Target} (size offset len : Z) : bool :=
  match checked_add usize_max offset len with
  | Some end_ => size <? end_
  | None => true
  end.

Lemma out_of_bounds_false {T : Target} size offset len :
  size <= usize_max -> out_of_bounds size offset len = false <-> offset + len <= size.
Proof.
  intros Hs. unfold out_of_bounds. destruct (checked_add _ _ _) as [e|] eqn:E.
  - apply checked_add_Some in E as [-> _]. rewrite Z.ltb_ge. done.
  - apply checked_add_None in E. split; [done|lia].
Qed.

Lemma in_bounds {T : Target} size offset len :
  size <= usize_max -> offset + len <= size -> out_of_bounds size offset len = false.
Proof. intros. by apply out_of_bounds_false. Qed.

(** ** Firmware image windows *)

Record FirmwareWindow := { flash_offset : Z; cpu_base : Z; fw_size : Z }.

Definition flash_end (w : FirmwareWindow) : option Z :=
  checked_add u64_max (flash_offset w) (fw_size w).
Definition cpu_end (w : FirmwareWindow) : option Z :=
  checked_add u64_max (cpu_base w) (fw_size w).

Definition window_contains (w : FirmwareWindow) (offset : Z) : bool :=
  match flash_end w with
  | Some end_ => (flash_offset w <=? offset) && (offset <? end_)
  | None => false
  end.

Record FirmwareImage := { fi_size : Z; windows : list FirmwareWindow; window_count : Z }.

Definition EMPTY_WINDOW : FirmwareWindow := {| flash_offset := 0; cpu_base := 0; fw_size := 0 |}.

Definition single_window (base size : Z) : FirmwareImage :=
  {| fi_size := size;
     windows := [{| flash_offset := 0; cpu_base := base; fw_size := size |};
                 EMPTY_WINDOW; EMPTY_WINDOW; EMPTY_WINDOW];
     window_count := 1 |}.

(** [0x1_0000_0000u64 - size] *)
Definition x86_top_of_4g (size : Z) : res ServiceError FirmwareImage :=
  let? base := or_panic (checked_sub 0x100000000 size) in
  Ok (single_window base size).

Definition active_windows (i : FirmwareImage) : list FirmwareWindow :=
  take (Z.to_nat (Z.min (window_count i) (zlen (windows i)))) (windows i).

Fixpoint validate_windows (size : Z) (ws : list FirmwareWindow) : res ServiceError unit :=
  match ws with
  | [] => Ok tt
  | w :: ws =>
      let? end_ := ok_or (flash_end w) InvalidParam in
      let? _ := ok_or (cpu_end w) InvalidParam in
      fail_if size <? end_ with InvalidParam;
      validate_windows size ws
  end.

Definition image_validate (i : FirmwareImage) : res ServiceError unit :=
  fail_if zlen (windows i) <? window_count i with InvalidParam;
  validate_windows (fi_size i) (active_windows i).

Definition contiguous_window (i : FirmwareImage) : option FirmwareWindow :=
  if window_count i =? 1 then
    w ← windows i !! 0%nat;
    if (flash_offset w =? 0) && (fw_size w =? fi_size i) then Some w else None
  else None.

(** [active_windows().iter().find(|w| w.contains(offset))], the search both
    loops over the windows do. *)
Definition find_window (i : FirmwareImage) (offset : Z) : option FirmwareWindow :=
  snd <$> list_find (fun w => window_contains w offset = true) (active_windows i).

Definition image_translate (i : FirmwareImage) (offset : Z) : option Z :=
  w ← find_window i offset; checked_add u64_max (cpu_base w) (offset - flash_offset w).

(** ** Flash maps *)

Class FlashMap (F : Type) := {
  translate : F -> Z -> Z;
  contiguous_len : F -> Z -> Z -> Z;
  as_contiguous_slice : F -> memory -> Z -> option (Z * list Z)
}.

Record LinearMap := { lm_base : Z }.

#[export] Instance linear_flash_map : FlashMap LinearMap := {|
  translate f offset := lm_base f + offset;
  contiguous_len f offset max_len := max_len;
  as_contiguous_slice f mem size :=
    if size =? 0 then Some (0, [])
    else if lm_base f =? 0 then None
    else Some (lm_base f, mem_bytes mem (lm_base f) size)
|}.

Record FirmwareImageMap := { fim_image : FirmwareImage }.

(** [value as usize] *)
Definition as_usize {T : Target} (v : Z) : Z := v mod 2 ^ usize_bits.

Definition image_contiguous_len {T : Target} (f : FirmwareImageMap) (offset max_len : Z) : Z :=
  match find_window (fim_image f) offset with
  | Some w =>
      match flash_end w with
      | Some end_ => Z.min (as_usize (end_ - offset)) max_len
      | None => 0
      end
  | None => 0
  end.

#[export] Instance image_flash_map {T : Target} : FlashMap FirmwareImageMap := {|
  translate f offset := as_usize (default 0 (image_translate (fim_image f) offset));
  contiguous_len := image_contiguous_len;
  as_contiguous_slice f mem size :=
    w ← contiguous_window (fim_image f);
    if negb (as_usize (fw_size w) =? size) then None
    else if size =? 0 then Some (0, [])
    else if cpu_base w =? 0 then None
    else Some (as_usize (cpu_base w), mem_bytes mem (as_usize (cpu_base w)) size)
|}.

(** ** Media *)

Record MemoryMapped (F : Type) := { mm_map : F; mm_size : Z; mm_mem : memory }.
Arguments mm_map {F}. Arguments mm_size {F}. Arguments mm_mem {F}.

Section media.
Context {T : Target}.

Section mapped.
Context {F : Type} {FM : FlashMap F}.

(** The copy loop.  A round copies at least a byte, so one more round than
    the buffer has bytes is enough; the [u64] cast of a [usize] is exact. *)
Fixpoint copy_loop (fuel : nat) (m : MemoryMapped F) (offset copied : Z) (buf : list Z)
  : list Z * res ServiceError Z :=
  match fuel with
  | O => (buf, Panic)
  | S fuel =>
    if copied <? zlen buf then
      let flash_offset := offset + copied in
      let chunk_len := contiguous_len (mm_map m) flash_offset (zlen buf - copied) in
      if chunk_len =? 0 then (buf, Err InvalidParam)
      else
        let src := translate (mm_map m) flash_offset in
        copy_loop fuel m offset (copied + chunk_len)
          (upd buf copied (mem_bytes (mm_mem m) src chunk_len))
    else (buf, Ok (zlen buf))
  end.

Definition mapped_read_at (m : MemoryMapped F) (offset : Z) (buf : list Z)
  : list Z * res ServiceError Z :=
  if out_of_bounds (mm_size m) offset (zlen buf) then (buf, Err InvalidParam)
  else copy_loop (S (length buf)) m offset 0 buf.

#[export] Instance mapped_media : BootMedia (MemoryMapped F) := {|
  read_at := mapped_read_at;
  media_size := mm_size;
  as_slice m := as_contiguous_slice (mm_map m) (mm_mem m) (mm_size m)
|}.
End mapped.

Record SubRegion (M : Type) := { sr_parent : M; sr_offset : Z; sr_size : Z }.
#[global] Arguments sr_parent {M}.
#[global] Arguments sr_offset {M}.
#[global] Arguments sr_size {M}.
#[global] Arguments Build_SubRegion {M}.

Section sub_region.
Context {M : Type} {BM : BootMedia M}.

Definition sub_region_new (parent : M) (offset size : Z) : option (SubRegion M) :=
  if out_of_bounds (media_size parent) offset size then None
  else Some {| sr_parent := parent; sr_offset := offset; sr_size := size |}.

Definition sub_region_read_at (r : SubRegion M) (offset : Z) (buf : list Z)
  : list Z * res ServiceError Z :=
  if out_of_bounds (sr_size r) offset (zlen buf) then (buf, Err InvalidParam)
  else if usize_max <? sr_offset r + offset then (buf, Panic)
  else read_at (sr_parent r) (sr_offset r + offset) buf.

#[export] Instance sub_region_media : BootMedia (SubRegion M) := {|
  read_at := sub_region_read_at;
  media_size := sr_size;
  as_slice r := '(a, s) ← as_slice (sr_parent r);
              Some (a + sr_offset r, sub s (sr_offset r) (sr_size r))
|}.
End sub_region.

(** A block device is a driver: its [read] is an argument. *)
Record BlockDeviceMedia := {
  device_read : Z -> list Z -> list Z * res ServiceError Z;
  base_offset : Z;
  bd_media_size : Z
}.

Definition block_read_at (m : BlockDeviceMedia) (offset : Z) (buf : list Z)
    : list Z * res ServiceError Z :=
  if out_of_bounds (bd_media_size m) offset (zlen buf) then (buf, Err InvalidParam)
  else if u64_max <? base_offset m + offset then (buf, Panic)
  else device_read m (base_offset m + offset) buf.

#[export] Instance block_media : BootMedia BlockDeviceMedia := {|
  read_at := block_read_at;
  media_size := bd_media_size;
  as_slice _ := None
|}.
End media.

(** ** The bump arena *)

Record TempRamArena := { ar_base : Z; ar_size : Z; ar_used : Z }.

Section arena.
Context {T : Target}.

Definition arena_new (base size : Z) : res ServiceError TempRamArena :=
  let? base := ok_or (try_from usize_max base) InvalidParam in
  let? size := ok_or (try_from usize_max size) InvalidParam in
  fail_if negb (size =? 0) && (base =? 0) with InvalidParam;
  let? _ := ok_or (checked_add usize_max base size) InvalidParam in
  Ok {| ar_base := base; ar_size := size; ar_used := 0 |}.

Definition arena_reset (a : TempRamArena) : TempRamArena :=
  {| ar_base := ar_base a; ar_size := ar_size a; ar_used := 0 |}.

(** [n.is_power_of_two()] *)
Definition is_power_of_two (n : Z) : bool := (0 <? n) && (Z.land n (n - 1) =? 0).

(** The address of the allocation and the arena afterwards. *)
Definition arena_alloc (a : TempRamArena) (len align : Z) : option (Z * TempRamArena) :=
  let align := Z.max align 1 in
  if negb (is_power_of_two align) then None else
  raw_start ← checked_add usize_max (ar_base a) (ar_used a);
  bumped ← checked_add usize_max raw_start (align - 1);
  let aligned_start := Z.land bumped (not_mask usize_bits (align - 1)) in
  start ← checked_sub aligned_start (ar_base a);
  end_ ← checked_add usize_max start len;
  if ar_size a <? end_ then None
  else Some (aligned_start, {| ar_base := ar_base a; ar_size := ar_size a; ar_used := end_ |}).

(** [buf] is what the arena's memory held; the bytes are returned with the
    address they were read to. *)
Definition read_to_temp {M : Type} {BM : BootMedia M} (media : M) (offset len : Z)
    (a : TempRamArena) (mem : memory) : TempRamArena * res ServiceError (Z * list Z) :=
  match arena_alloc a len 8 with
  | None => (a, Err InvalidParam)
  | Some (addr, a') =>
      let '(buf, r) := read_at media offset (mem_bytes mem addr len) in
      (a', let? n := r in fail_if negb (n =? len) with InvalidParam; Ok (addr, buf))
  end.
End arena.

(** ** Laws of the implementations *)

(** The safety contract of [FlashMap]: a chunk is no longer than asked for. *)
Class FlashMapLaws {T : Target} (F : Type) {FM : FlashMap F} := {
  contiguous_len_bound (f : F) o n :
    0 <= o <= usize_max -> 0 <= n <= usize_max -> 0 <= contiguous_len f o n <= n;
  contiguous_slice_zlen (f : F) mem n a s :
    0 <= n -> as_contiguous_slice f mem n = Some (a, s) -> zlen s = n
}.

Lemma as_usize_range {T : Target} v : 0 <= as_usize v <= usize_max.
Proof.
  unfold as_usize, usize_max. assert (0 < 2 ^ usize_bits) by (destruct usize_bits_ok as [-> | ->]; lia).
  pose proof (Z.mod_pos_bound v (2 ^ usize_bits)). lia.
Qed.

#[export] Instance linear_flash_map_laws {T : Target} : FlashMapLaws LinearMap.
Proof.
  split.
  - simpl. lia.
  - simpl. intros f mem n a s Hn H. repeat case_match; bool_hyp; simplify_eq; [done|].
    by apply zlen_mem_bytes.
Qed.

#[export] Instance image_flash_map_laws {T : Target} : FlashMapLaws FirmwareImageMap.
Proof.
  split.
  - intros f o n Ho Hn. simpl. unfold image_contiguous_len.
    destruct (find_window _ _) as [w|]; [|lia]. destruct (flash_end w) as [e|]; [|lia].
    pose proof (as_usize_range (e - o)). lia.
  - simpl. intros f mem n a s Hn H. destruct (contiguous_window _); simpl in H; [|done].
    repeat case_match; bool_hyp; simplify_eq; [done|]. by apply zlen_mem_bytes.
Qed.

Section mapped_laws.
Context {T : Target} {F : Type} {FM : FlashMap F} {FL : FlashMapLaws F}.

Record mapped_wf (m : MemoryMapped F) : Prop := {
  mw_size : 0 <= mm_size m <= usize_max;
  mw_mem : mem_ok (mm_mem m)
}.

(** What every round keeps: the buffer's length and that it holds bytes. *)
Lemma copy_loop_keeps fuel m offset copied buf :
  mapped_wf m -> 0 <= offset -> 0 <= copied <= zlen buf -> offset + zlen buf <= usize_max ->
  zlen (fst (copy_loop fuel m offset copied buf)) = zlen buf /\
  (bytes_ok buf -> bytes_ok (fst (copy_loop fuel m offset copied buf))).
Proof.
  intros Hm Ho. revert copied buf. induction fuel as [|fuel IH]; intros copied buf Hc Hb; [done|].
  simpl. case_match; [|done]. case_match; [done|]. bool_hyp.
  set (n := contiguous_len _ _ _) in *.
  assert (Hn : 0 <= n <= zlen buf - copied) by (apply contiguous_len_bound; lia).
  set (k := mem_bytes _ _ _). assert (Hk : zlen k = n) by (apply zlen_mem_bytes; lia).
  assert (Hz : zlen (upd buf copied k) = zlen buf) by (apply zlen_upd; lia).
  destruct (IH (copied + n) (upd buf copied k)) as [IH1 IH2]; [lia..|]. split; [lia|].
  intros Hbuf. apply IH2, bytes_ok_upd; [done|]. apply bytes_ok_mem_bytes, Hm.
Qed.

Lemma copy_loop_no_panic fuel m offset copied buf :
  mapped_wf m -> 0 <= offset -> 0 <= copied <= zlen buf -> offset + zlen buf <= usize_max ->
  zlen buf - copied < Z.of_nat fuel -> snd (copy_loop fuel m offset copied buf) <> Panic.
Proof.
  intros Hm Ho. revert copied buf. induction fuel as [|fuel IH]; intros copied buf Hc Hb Hf; [lia|].
  simpl. case_match; [|done]. case_match; [done|]. bool_hyp.
  set (n := contiguous_len _ _ _) in *.
  assert (Hn : 0 <= n <= zlen buf - copied) by (apply contiguous_len_bound; lia).
  set (k := mem_bytes _ _ _). assert (Hk : zlen k = n) by (apply zlen_mem_bytes; lia).
  assert (Hz : zlen (upd buf copied k) = zlen buf) by (apply zlen_upd; lia).
  apply IH; lia.
Qed.

#[export] Instance mapped_media_laws : BootMediaLaws (MemoryMapped F) mapped_wf.
Proof.
  split; simpl.
  - intros m Hm. apply Hm.
  - intros m off buf Hm Ho Hb. unfold mapped_read_at. case_match eqn:E; [done|].
    pose proof (zlen_nonneg buf). destruct (mw_size m Hm).
    apply out_of_bounds_false in E; [|done]. apply copy_loop_keeps; (done || lia).
  - intros m off buf Hm Ho Hb Hok. unfold mapped_read_at. case_match eqn:E; [done|].
    pose proof (zlen_nonneg buf). destruct (mw_size m Hm).
    apply out_of_bounds_false in E; [|done]. apply copy_loop_keeps; (done || lia).
  - intros m off buf Hm Ho Hb. unfold mapped_read_at. case_match eqn:E; [done|].
    pose proof (zlen_nonneg buf). destruct (mw_size m Hm).
    apply out_of_bounds_false in E; [|done]. apply copy_loop_no_panic; (done || unfold zlen in *; lia).
  - intros m off buf n Hm Ho Hb. unfold mapped_read_at. case_match eqn:E; [done|].
    intros _. destruct (mw_size m Hm). by apply out_of_bounds_false in E.
  - intros m a s Hm H. destruct (mw_size m Hm). by eapply contiguous_slice_zlen in H.
Qed.
End mapped_laws.

Section sub_region_laws.
Context {T : Target} {M : Type} {BM : BootMedia M} {wf : M -> Prop} {BL : BootMediaLaws M wf}.

(** What [SubRegion::new] establishes. *)
Record sub_region_wf (r : SubRegion M) : Prop := {
  srw_parent : wf (sr_parent r);
  srw_offset : 0 <= sr_offset r;
  srw_size : 0 <= sr_size r;
  srw_inside : sr_offset r + sr_size r <= media_size (sr_parent r)
}.

Lemma sub_region_new_wf parent offset size r :
  wf parent -> 0 <= offset -> 0 <= size -> sub_region_new parent offset size = Some r -> sub_region_wf r.
Proof.
  intros Hp Ho Hs. unfold sub_region_new. case_match eqn:E; [done|]. intros [= <-].
  pose proof (media_size_range parent Hp). apply out_of_bounds_false in E; [|lia]. by constructor.
Qed.

(** A read that is in bounds of the region is the parent's, and cannot overflow. *)
Lemma sub_region_read_at_eq r off buf :
  sub_region_wf r -> 0 <= off -> off + zlen buf <= sr_size r ->
  read_at r off buf = read_at (sr_parent r) (sr_offset r + off) buf.
Proof.
  intros [Hp ? ? ?] Ho Hb. pose proof (media_size_range _ Hp). pose proof (zlen_nonneg buf).
  simpl. unfold sub_region_read_at. rewrite in_bounds by lia.
  by guard_false.
Qed.

Lemma sub_region_read_at_out r off buf :
  sub_region_wf r -> sr_size r < off + zlen buf -> read_at r off buf = (buf, Err InvalidParam).
Proof.
  intros [Hp ? ? ?] Ho. pose proof (media_size_range _ Hp). simpl. unfold sub_region_read_at.
  destruct (out_of_bounds _ _ _) eqn:E; [done|]. apply out_of_bounds_false in E; lia.
Qed.

#[export] Instance sub_region_media_laws : BootMediaLaws (SubRegion M) sub_region_wf.
Proof.
  assert (Hr : forall r off (buf : list Z), sub_region_wf r -> 0 <= off -> off + zlen buf <= sr_size r ->
    0 <= sr_offset r + off <= usize_max).
  { intros r off buf [Hp ? ? ?] ? ?. pose proof (media_size_range _ Hp).
    pose proof (zlen_nonneg buf). lia. }
  split; simpl media_size.
  - intros r [Hp ? ? ?]. pose proof (media_size_range _ Hp). lia.
  - intros r off buf Hw [Ho ?] Hb. destruct (Z.le_gt_cases (off + zlen buf) (sr_size r)).
    + rewrite sub_region_read_at_eq by done. apply read_at_zlen; [apply Hw | eauto | done].
    + by rewrite sub_region_read_at_out by (done || lia).
  - intros r off buf Hw [Ho ?] Hb Hok. destruct (Z.le_gt_cases (off + zlen buf) (sr_size r)).
    + rewrite sub_region_read_at_eq by done. apply read_at_bytes; [apply Hw | eauto | done | done].
    + by rewrite sub_region_read_at_out by (done || lia).
  - intros r off buf Hw [Ho ?] Hb. destruct (Z.le_gt_cases (off + zlen buf) (sr_size r)).
    + rewrite sub_region_read_at_eq by done. apply read_at_no_panic; [apply Hw | eauto | done].
    + by rewrite sub_region_read_at_out by (done || lia).
  - intros r off buf n Hw [Ho ?] Hb Hn. destruct (Z.le_gt_cases (off + zlen buf) (sr_size r)); [done|].
    by rewrite sub_region_read_at_out in Hn by (done || lia).
  - intros r a s [Hp ? ? ?]. simpl. destruct (as_slice (sr_parent r)) as [[a' s']|] eqn:E; [|done].
    intros [= <- <-]. apply zlen_sub; [done..|].
    by rewrite (as_slice_spans _ _ _ Hp E).
Qed.
End sub_region_laws.

Section block_laws.
Context {T : Target}.

(** A driver's [read] cannot resize the buffer it is lent, and the medium lies
    where 64-bit device offsets reach. *)
Record block_wf (m : BlockDeviceMedia) : Prop := {
  bw_size : 0 <= bd_media_size m <= usize_max;
  bw_base : 0 <= base_offset m /\ base_offset m + bd_media_size m <= u64_max;
  bw_zlen off buf : zlen (fst (device_read m off buf)) = zlen buf;
  bw_bytes off buf : bytes_ok buf -> bytes_ok (fst (device_read m off buf));
  bw_no_panic off buf : snd (device_read m off buf) <> Panic
}.

#[export] Instance block_media_laws : BootMediaLaws BlockDeviceMedia block_wf.
Proof.
  split; simpl.
  - intros m Hm. apply Hm.
  - intros m off buf Hm _ _. unfold block_read_at. repeat case_match; [done..|]. apply Hm.
  - intros m off buf Hm _ _ ?. unfold block_read_at. repeat case_match; [done..|]. by apply Hm.
  - intros m off buf Hm [? _] _. unfold block_read_at. destruct (bw_size m Hm), (bw_base m Hm).
    pose proof (zlen_nonneg buf). case_match eqn:E; [done|].
    apply out_of_bounds_false in E; [|done]. guard_false. apply Hm.
  - intros m off buf n Hm _ _. unfold block_read_at. case_match eqn:E; [done|]. intros _.
    destruct (bw_size m Hm). by apply out_of_bounds_false in E.
  - done.
Qed.
End block_laws.

(** ** Reading through image windows *)

(** Linearly mapped flash is read in one copy. *)
Lemma linear_read_at {T : Target} base size mem off buf :
  0 <= size <= usize_max -> 0 <= off -> off + zlen buf <= size ->
  let m := {| mm_map := {| lm_base := base |}; mm_size := size; mm_mem := mem |} in
  read_at m off buf = (mem_bytes mem (base + off) (zlen buf), Ok (zlen buf)).
Proof.
  intros Hs Ho Hb m. cbn [read_at mapped_media]. unfold mapped_read_at. cbn [mm_size m].
  rewrite in_bounds by lia. pose proof (zlen_nonneg buf) as H0.
  destruct buf as [|x buf]; [done|]. set (b := x :: buf) in *.
  assert (Hz : zlen b = 1 + zlen buf) by apply zlen_cons. pose proof (zlen_nonneg buf).
  change (length b) with (S (length buf)). cbn [copy_loop].
  cbn [contiguous_len translate linear_flash_map mm_map m lm_base].
  guard_true. rewrite (proj2 (Z.eqb_neq _ _)) by lia. rewrite Z.add_0_r, Z.sub_0_r.
  set (k := mem_bytes _ _ _). assert (Hk : zlen k = zlen b) by (apply zlen_mem_bytes; lia).
  assert (upd b 0 k = k) as ->.
  { unfold upd. simpl. rewrite drop_ge by (unfold zlen in *; lia). apply app_nil_r. }
  rewrite Z.add_0_l, Hk. by guard_false.
Qed.

Section image_read.
Context {T : Target}.

Definition covers (w : FirmwareWindow) (o : Z) : Prop :=
  flash_offset w <= o < flash_offset w + fw_size w.

Definition covered (i : FirmwareImage) (o : Z) : Prop :=
  exists w, w ∈ active_windows i /\ covers w o.

(** The windows are address ranges of the CPU through which [mem] shows the
    logical image [img]; windows may overlap. *)
Record window_shows (mem img : memory) (w : FirmwareWindow) : Prop := {
  ws_flash : 0 <= flash_offset w /\ flash_offset w + fw_size w <= u64_max;
  ws_cpu : 0 <= cpu_base w /\ cpu_base w + fw_size w <= usize_max;
  ws_bytes o : covers w o -> mem (cpu_base w + (o - flash_offset w)) = img o
}.

Lemma window_contains_spec mem img w o :
  window_shows mem img w -> window_contains w o = true <-> covers w o.
Proof.
  intros [[? ?] _ _]. unfold window_contains, flash_end, covers. rewrite checked_add_ok by done.
  rewrite andb_true_iff, Z.leb_le, Z.ltb_lt. done.
Qed.

Lemma find_window_Some mem img i o w :
  Forall (window_shows mem img) (active_windows i) -> find_window i o = Some w ->
  w ∈ active_windows i /\ window_shows mem img w /\ covers w o.
Proof.
  intros Hi H. unfold find_window in H. apply fmap_Some in H as ([j w'] & H & ->). simpl.
  apply list_find_Some in H as (Hj & Hc & _).
  assert (Hw : window_shows mem img w') by (by eapply Forall_lookup_1 in Hi).
  apply (window_contains_spec mem img) in Hc; [|done].
  split_and!; [by eapply list_elem_of_lookup_2 | done..].
Qed.

Lemma find_window_None mem img i o :
  Forall (window_shows mem img) (active_windows i) -> find_window i o = None -> ~ covered i o.
Proof.
  intros Hi H (w & Hw & Hc).
  unfold find_window in H. apply fmap_None, list_find_None in H.
  apply list_elem_of_lookup_1 in Hw as [j Hj].
  eapply (Forall_lookup_1 _ _ _ _ H Hj), window_contains_spec; [|done].
  by eapply Forall_lookup_1 in Hi.
Qed.

Lemma as_usize_small v : 0 <= v <= usize_max -> as_usize v = v.
Proof. intros. unfold as_usize, usize_max in *. apply Z.mod_small. lia. Qed.

(** A chunk of the copy loop shows the image. *)
Lemma image_chunk mem img i o n :
  Forall (window_shows mem img) (active_windows i) -> covered i o -> 0 <= o -> 0 < n ->
  let f := {| fim_image := i |} in
  0 < contiguous_len f o n <= n /\
  mem_bytes mem (translate f o) (contiguous_len f o n) = mem_bytes img o (contiguous_len f o n) /\
  (forall p, o <= p < o + contiguous_len f o n -> covered i p).
Proof.
  intros Hi Hc Ho Hn f. subst f. simpl. unfold image_contiguous_len, image_translate. simpl.
  destruct (find_window i o) as [w|] eqn:E; [|by apply find_window_None with mem img i o in Hi].
  apply (find_window_Some mem img) in E as (Hin & [[? ?] [? ?] Hb] & Hco); [|done]. simpl.
  unfold covers in *.
  pose proof usize_max_bounds. unfold flash_end. rewrite !checked_add_ok by lia. simpl.
  rewrite !as_usize_small by lia.
  split_and!; [lia|lia| |].
  - apply mem_bytes_ext. intros k Hk. rewrite <- (Hb (o + k)) by lia. f_equal. lia.
  - intros p Hp. exists w. split; [done|]. unfold covers. lia.
Qed.

Lemma copy_loop_image mem img i size fuel offset copied buf :
  Forall (window_shows mem img) (active_windows i) ->
  0 <= offset -> 0 <= copied <= zlen buf -> offset + zlen buf <= usize_max ->
  zlen buf - copied < Z.of_nat fuel ->
  sub buf 0 copied = mem_bytes img offset copied ->
  let m := {| mm_map := {| fim_image := i |}; mm_size := size; mm_mem := mem |} in
  ((forall o, offset + copied <= o < offset + zlen buf -> covered i o) /\
   copy_loop fuel m offset copied buf = (mem_bytes img offset (zlen buf), Ok (zlen buf))) \/
  ((exists o, offset + copied <= o < offset + zlen buf /\ ~ covered i o) /\
   snd (copy_loop fuel m offset copied buf) = Err InvalidParam).
Proof.
  intros Hi Ho. cbn zeta. revert copied buf.
  induction fuel as [|fuel IH]; intros copied buf Hc Hb Hf Hpre; [lia|]. cbn [copy_loop mm_map mm_mem].
  destruct (Z.ltb_spec copied (zlen buf)) as [Hlt|Hge].
  2:{ left. split; [intros; lia|]. replace copied with (zlen buf) in Hpre by lia.
      by rewrite <- Hpre, sub_all. }
  destruct (find_window i (offset + copied)) as [w|] eqn:Hfind.
  - assert (Hcov : covered i (offset + copied)).
    { apply (find_window_Some mem img) in Hfind as (? & _ & ?); [|done]. exists w. eauto. }
    destruct (image_chunk mem img i (offset + copied) (zlen buf - copied)) as (Hn & Hk & Hcs);
      [done..|lia|lia|].
    set (n := contiguous_len _ _ _) in *. rewrite (proj2 (Z.eqb_neq n 0)) by lia.
    rewrite Hk. set (k := mem_bytes img (offset + copied) n) in *.
    assert (Hz : zlen k = n) by (apply zlen_mem_bytes; lia).
    assert (Hu : zlen (upd buf copied k) = zlen buf) by (apply zlen_upd; lia).
    destruct (IH (copied + n) (upd buf copied k)) as [[Hall ->]|[(o & ? & Hno) ->]]; rewrite ?Hu; try lia.
    + rewrite (sub_split _ 0 copied n) by lia. rewrite sub_upd_other by lia.
      rewrite Hpre, mem_bytes_split by lia. f_equal. rewrite Z.add_0_l.
      pose proof (sub_upd_same buf copied k) as Hs. rewrite Hz in Hs. apply Hs; lia.
    + left. split; [|done]. intros o Hoo.
      destruct (Z.lt_ge_cases o (offset + copied + n)); [apply Hcs; lia | apply Hall; lia].
    + right. split; [|done]. exists o. split; [lia|done].
  - right. pose proof (find_window_None mem img i _ Hi Hfind). split; [exists (offset + copied); split; [lia|done]|].
    cbn [contiguous_len image_flash_map]. unfold image_contiguous_len. cbn [fim_image]. by rewrite Hfind.
Qed.
End image_read.

(** A read through a chipset's decode windows returns exactly the bytes of
    the logical firmware image, however many windows the range crosses, and it
    succeeds precisely when the range is inside the medium and every byte of it
    is covered by a window. *)
Theorem image_read_at_iff {T : Target} mem img i size offset buf n :
  Forall (window_shows mem img) (active_windows i) ->
  0 <= size <= usize_max -> 0 <= offset ->
  let m := {| mm_map := {| fim_image := i |}; mm_size := size; mm_mem := mem |} in
  (snd (read_at m offset buf) = Ok n <->
    n = zlen buf /\ offset + zlen buf <= size /\
    forall o, offset <= o < offset + zlen buf -> covered i o) /\
  (snd (read_at m offset buf) = Ok n ->
    fst (read_at m offset buf) = mem_bytes img offset (zlen buf)).
Proof.
  intros Hi Hs Ho m. cbn [read_at mapped_media]. unfold mapped_read_at. cbn [mm_size m].
  pose proof (zlen_nonneg buf).
  destruct (out_of_bounds size offset (zlen buf)) eqn:E.
  { split; [|done]. split; [done|]. intros (_ & Hb & _). by rewrite in_bounds in E by lia. }
  apply out_of_bounds_false in E; [|lia].
  destruct (copy_loop_image mem img i size (S (length buf)) offset 0 buf Hi Ho ltac:(lia) ltac:(lia)
    ltac:(unfold zlen; lia) eq_refl) as [[Hall He]|[(o & ? & Hno) He]]; unfold m.
  - rewrite He. simpl. rewrite Z.add_0_r in Hall. split; [|done].
    split; [by intros [= <-] | by intros (-> & _)].
  - rewrite He. split; [|done]. split; [done|]. intros (_ & _ & Hall). destruct Hno. apply Hall. lia.
Qed.

(** ** The arena *)

Lemma is_power_of_two_spec n : is_power_of_two n = true -> exists k, 0 <= k /\ n = 2 ^ k.
Proof.
  unfold is_power_of_two. intros [Hn Hl]%andb_true_iff. bool_hyp.
  pose proof (Z.log2_spec n Hn) as [Hlo Hhi]. pose proof (Z.log2_nonneg n).
  exists (Z.log2 n). split; [done|].
  destruct (Z.eq_dec n (2 ^ Z.log2 n)) as [|Hne]; [done|]. exfalso.
  assert (Hb : Z.testbit (Z.land n (n - 1)) (Z.log2 n) = true); [|by rewrite Hl, Z.bits_0 in Hb].
  rewrite Z.land_spec, Z.bit_log2 by done. simpl.
  replace (Z.log2 n) with (Z.log2 (n - 1)) by (apply Z.log2_unique; lia).
  apply Z.bit_log2. lia.
Qed.

Section arena_props.
Context {T : Target}.

(** What [new] establishes and [alloc] and [reset] keep. *)
Record arena_wf (a : TempRamArena) : Prop := {
  aw_base : 0 <= ar_base a;
  aw_used : 0 <= ar_used a <= ar_size a;
  aw_end : ar_base a + ar_size a <= usize_max
}.

Lemma arena_new_wf base size a :
  0 <= base -> 0 <= size -> arena_new base size = Ok a -> arena_wf a.
Proof.
  intros Hb Hs H. unfold arena_new in H. repeat rust_step H.
  repeat match goal with X : ok_or _ _ = Ok _ |- _ => apply ok_or_Ok in X end.
  rewrite try_from_Some, checked_add_Some in *. simplify_eq. destruct_and!. subst.
  constructor; simpl; lia.
Qed.

Lemma arena_reset_wf a : arena_wf a -> arena_wf (arena_reset a).
Proof. intros [? ? ?]. constructor; simpl; lia. Qed.
End arena_props.

Lemma round_up_pow2 x k : 0 <= k -> (x + (2 ^ k - 1)) / 2 ^ k * 2 ^ k = next_multiple_of x (2 ^ k).
Proof. intros. unfold next_multiple_of. by rewrite Z.add_sub_assoc. Qed.

(** The arena's allocations: one succeeds exactly when the aligned block
    fits above everything handed out before; it is then aligned, inside the
    arena, and disjoint from all earlier allocations, and the arena stays well
    formed. *)
Theorem arena_alloc_iff {T : Target} a len k addr a' :
  arena_wf a -> 0 <= len -> 0 <= k < usize_bits ->
  ar_base a + ar_used a + 2 ^ k - 1 <= usize_max ->
  let start := next_multiple_of (ar_base a + ar_used a) (2 ^ k) in
  arena_alloc a len (2 ^ k) = Some (addr, a') <->
    addr = start /\ addr mod 2 ^ k = 0 /\
    ar_base a + ar_used a <= addr /\ addr + len <= ar_base a + ar_size a /\
    a' = {| ar_base := ar_base a; ar_size := ar_size a; ar_used := addr + len - ar_base a |} /\
    arena_wf a'.
Proof.
  intros [Hb Hu He] Hlen Hk Hover start. unfold arena_alloc. cbv zeta.
  pose proof (Z.pow_pos_nonneg 2 k). rewrite Z.max_l by lia.
  assert (is_power_of_two (2 ^ k) = true) as ->.
  { unfold is_power_of_two. rewrite (proj2 (Z.ltb_lt _ _)) by lia. simpl. apply Z.eqb_eq.
    replace (2 ^ k - 1) with (Z.ones k) by (rewrite Z.ones_equiv; lia).
    rewrite Z.land_ones, Z.mod_same by lia. done. }
  cbn [negb]. do 2 (rewrite checked_add_ok by lia; cbn [mbind option_bind]).
  rewrite land_not_mask by (unfold usize_max in *; lia). rewrite round_up_pow2 by lia. fold start.
  destruct (next_multiple_of_spec (ar_base a + ar_used a) (2 ^ k)) as [Hs Hm]; [lia|]. fold start in Hs, Hm.
  rewrite checked_sub_ok by lia. cbn [mbind option_bind].
  destruct (checked_add usize_max (start - ar_base a) len) as [e|] eqn:E; cbn [mbind option_bind].
  2:{ apply checked_add_None in E. split; [done|]. intros (-> & _ & _ & ? & _). lia. }
  apply checked_add_Some in E as [-> _].
  destruct (Z.ltb_spec (ar_size a) (start - ar_base a + len)) as [Hlt|Hge].
  { split; [done|]. intros (-> & _ & _ & ? & _). lia. }
  replace (start - ar_base a + len) with (start + len - ar_base a) by lia. split.
  - intros [= <- <-]. split_and!; try (done || lia). constructor; simpl; lia.
  - by intros (-> & _ & _ & _ & -> & _).
Qed.

(** ** Witnesses *)

(** Two windows: the upper half of a 32-byte image below the lower half. *)
Definition demo_image : FirmwareImage := {|
  fi_size := 32;
  windows := [{| flash_offset := 0; cpu_base := 5000; fw_size := 16 |};
              {| flash_offset := 16; cpu_base := 1000; fw_size := 16 |};
              EMPTY_WINDOW; EMPTY_WINDOW];
  window_count := 2 |}.

Definition demo_img : memory := fun o => (o * 7) mod 256.
Definition demo_mem : memory :=
  fun a => if a <? 1016 then demo_img (a - 984) else demo_img (a - 5000).

Lemma image_read_at_iff_witness :
  let m := {| mm_map := {| fim_image := demo_image |}; mm_size := 32; mm_mem := demo_mem |} in
  snd (read_at m 10 (zeros 12)) = Ok 12 /\
  fst (read_at m 10 (zeros 12)) = mem_bytes demo_img 10 12.
Proof.
  assert (Hi : Forall (window_shows demo_mem demo_img) (active_windows demo_image)).
  { pose proof usize_max_bounds as Hm. unfold u32_max in Hm.
    change (active_windows demo_image) with (take 2 (windows demo_image)). cbn [take demo_image windows].
    constructor; [|constructor; [|constructor]].
    all: split; cbn [flash_offset cpu_base fw_size]; [unfold u64_max; lia | lia |].
    all: intros o Ho; unfold covers in Ho; cbn [flash_offset fw_size] in Ho; unfold demo_mem.
    - guard_false. f_equal. lia.
    - guard_true. f_equal. lia. }
  cbn zeta. set (m := {| mm_map := _ |}).
  assert (E : snd (read_at m 10 (zeros 12)) = Ok 12) by (vm_compute; reflexivity).
  split; [exact E|].
  exact (proj2 (image_read_at_iff demo_mem demo_img demo_image 32 10 (zeros 12) 12 Hi
                  ltac:(vm_compute; split; discriminate) ltac:(lia)) E).
Defined.

Lemma arena_alloc_iff_witness :
  let a := {| ar_base := 0x1004; ar_size := 64; ar_used := 3 |} in
  exists a', arena_alloc a 16 8 = Some (0x1008, a') /\ arena_wf a'.
Proof.
  set (a := {| ar_base := 0x1004; ar_size := 64; ar_used := 3 |}). cbn zeta.
  assert (Hw : arena_wf a) by (constructor; vm_compute; repeat split; discriminate).
  assert (E : arena_alloc a 16 (2 ^ 3) =
    Some (0x1008, {| ar_base := 0x1004; ar_size := 64; ar_used := 20 |})) by (vm_compute; reflexivity).
  eexists. split; [exact E|].
  apply (arena_alloc_iff a 16 3) in E; [apply E | exact Hw | lia | vm_compute; split; congruence | vm_compute; discriminate].
Defined.
