(* ===== verification/Load.v ===== *)
(** * Load: the loading chain ([crates/load/src/lib.rs])

    Firmware bytes are read from the boot medium, verified, measured,
    decompressed, verified again and only then run.  [load_bootstrap] places a
    bootstrap image in physical memory after checking the destination against
    the platform's memory policy.  The theorems say what a successful load
    guarantees about memory, measurements and the entry point, that no outcome
    writes outside the permitted footprint, and that a good image loads. *)

From S2P Require Import Prelude.
From S2P Require Import Bytes.
From S2P Require Import Wire.
From S2P Require Import Crypto.
From S2P Require Import Root.
From S2P Require Import Memory.
From S2P Require Import BootMedia.
From S2P Require Import Lz4.
From Stdlib Require Import ZArith Lia.
From stdpp Require Import base numbers list option.

#[local] Open Scope Z_scope.

Inductive LoadError :=
| Bounds | MemoryPolicyError | Unsupported | Io | StoredDigest | LoadedDigest | Decompression.

(** ** Measurements ([crates/core/src/services/measure.rs]) *)

Record Event := { ev_pcr : Z; ev_kind : Z; ev_description : list Z; ev_base : Z }.

(** The trace of [Measure::measure] calls a load makes: each event with the
    bytes it was recorded for. *)
Definition trace : Type := list (Event * list Z).

Definition record (event : Event) (bytes : list Z) (t : trace) : trace := t ++ [(event, bytes)].

(** ** Codecs *)

(** The two implementations of the trait; a stage passes one of them. *)
Inductive Codec := Stored | Lz4.

Definition codec (c : Compression) : Codec :=
  match c with CompressionNone => Stored | CompressionLz4 => Lz4 end.

Definition supports (c : Codec) (compression : Compression) : bool :=
  match c with
  | Stored => false
  | Lz4 => bool_decide (compression = CompressionLz4)
  end.

(** ** Placement *)

Record MemoryWindow := { mw_start : Z; mw_len : Z }.

Definition window_end (w : MemoryWindow) : option Z := checked_add u64_max (mw_start w) (mw_len w).

Definition contains (w other : MemoryWindow) : bool :=
  match window_end w, window_end other with
  | Some end_, Some other_end => (mw_start w <=? mw_start other) && (other_end <=? end_)
  | _, _ => false
  end.

Definition overlaps (w other : MemoryWindow) : bool :=
  match window_end w, window_end other with
  | Some end_, Some other_end => (mw_start w <? other_end) && (mw_start other <? end_)
  | _, _ => true
  end.

Record MemoryPolicy := {
  writable : list MemoryWindow;
  reserved : list MemoryWindow;
  entry_alignment : Z
}.

Definition isize_max {T : Target} : Z := 2 ^ (usize_bits - 1) - 1.

Definition permits {T : Target} (p : MemoryPolicy) (start size : Z) : bool :=
  let range := {| mw_start := start; mw_len := size |} in
  negb (size =? 0)
  && negb (start =? 0)
  && bool_decide (is_Some (try_from usize_max start))
  && (size <=? isize_max)
  && bool_decide (is_Some (window_end range ≫= try_from usize_max))
  && existsb (fun w => contains w range) (writable p)
  && negb (existsb (fun w => overlaps w range) (reserved p)).

Definition place {T : Target} {M : Type} {BM : BootMedia M} (media : M) (p : MemoryPolicy)
    (start size : Z) : res LoadError unit :=
  fail_if negb (permits p start size) with MemoryPolicyError;
  match as_slice media with
  | Some (addr, source) =>
      fail_if overlaps {| mw_start := addr; mw_len := zlen source |}
                       {| mw_start := start; mw_len := size |} with MemoryPolicyError;
      Ok tt
  | None => Ok tt
  end.

(** ** Bootstrap descriptors *)

Definition bootstrap_footprint (d : BootstrapDescriptor) : res LoadError Z :=
  let? _ := map_err (fun _ => Bounds) (bootstrap_validate d u64_max) in
  match bd_compression d with
  | CompressionNone =>
      fail_if negb (bd_stored_size d =? bd_loaded_size d)
              || negb (bytes_eqb (bd_stored_digest d) (bd_loaded_digest d)) with Bounds;
      Ok (bd_loaded_size d)
  | _ => ok_or (checked_add u64_max (bd_loaded_size d) (bd_stored_size d)) Bounds
  end.

Definition stored_input (d : BootstrapDescriptor) : res LoadError MemoryWindow :=
  let? start :=
    match bd_compression d with
    | CompressionNone => Ok (bd_load_addr d)
    | _ => ok_or (checked_add u64_max (bd_load_addr d) (bd_loaded_size d)) Bounds
    end in
  Ok {| mw_start := start; mw_len := bd_stored_size d |}.

(** ** The chain *)

(** What the chain changes: the workspace it reads and decodes into, and the
    measurements it records. *)
Record LoadState := { workspace : list Z; measured : trace }.

Section chain.
Context {T : Target} {C : Crypto} {M : Type} {BM : BootMedia M}.
(** What a decoder that gives up has left in its output buffer; nothing may
    depend on it. *)
Context (partial : list Z -> list Z -> list Z).

Definition lz4_decompress (compression : Compression) (input output : list Z)
    : list Z * res LoadError unit :=
  if negb (bool_decide (compression = CompressionLz4)) then (output, Err Unsupported)
  else match decompress_block input output with
       | Ok (count, output') =>
           (output', fail_if negb (count =? zlen output) with Decompression; Ok tt)
       | Err _ => (partial input output, Err Decompression)
       | Panic => (partial input output, Panic)
       end.

Definition codec_decompress (c : Codec) (compression : Compression) (input output : list Z)
    : list Z * res LoadError unit :=
  match c with
  | Stored => (output, Err Unsupported)
  | Lz4 => lz4_decompress compression input output
  end.

(** [read(media, offset, &mut workspace[at..at + len])] *)
Definition read (media : M) (offset at_ len : Z) : sres LoadState LoadError (list Z) :=
  let! offset := slift (ok_or (try_from usize_max offset) Bounds) in
  let! _ := slift (match checked_add usize_max offset len with
                   | Some end_ => fail_if media_size media <? end_ with Bounds; Ok tt
                   | None => Err Bounds
                   end) in
  fun s =>
    let '(into, r) := read_at media offset (sub (workspace s) at_ len) in
    ({| workspace := upd (workspace s) at_ into; measured := measured s |},
     match r with
     | Ok size => if size =? len then Ok into else Err Io
     | Err _ => Err Io
     | Panic => Panic
     end).

Definition verify (bytes expected : list Z) (error : LoadError) : sres LoadState LoadError (list Z) :=
  slift (if bytes_eqb (sha256 bytes) expected then Ok bytes else Err error).

Definition measure (event : Event) (bytes : list Z) : sres LoadState LoadError (list Z) :=
  fun s => ({| workspace := workspace s; measured := record event bytes (measured s) |}, Ok bytes).

(** Decode [input] into [workspace[..len]]. *)
Definition decompress (c : Codec) (compression : Compression) (input : list Z) (len : Z)
    : sres LoadState LoadError (list Z) :=
  fun s =>
    let '(output, r) := codec_decompress c compression input (sub (workspace s) 0 len) in
    ({| workspace := upd (workspace s) 0 output; measured := measured s |},
     let? _ := r in Ok output).

Definition load_bootstrap_into (media : M) (d : BootstrapDescriptor) (c : Codec) (event : Event)
    : sres LoadState LoadError unit :=
  let! footprint := slift (bootstrap_footprint d) in
  let! required := slift (ok_or (try_from usize_max footprint) Bounds) in
  let! _ := fun s => (s,
    fail_if (zlen (workspace s) <? required)
            || match checked_add u64_max (bd_offset d) (bd_stored_size d) with
               | Some end_ => media_size media <? end_
               | None => true
               end with Bounds; Ok tt) in
  let! _ := slift (fail_if negb (bool_decide (bd_compression d = CompressionNone))
                           && negb (supports c (bd_compression d)) with Unsupported; Ok tt) in
  let! loaded := slift (ok_or (try_from usize_max (bd_loaded_size d)) Bounds) in
  let! _ := slift (if required <? loaded then Panic else Ok tt) in
  match bd_compression d with
  | CompressionNone =>
      let! bytes := read media (bd_offset d) 0 loaded in
      let! bytes := verify bytes (bd_stored_digest d) StoredDigest in
      let! _ := measure event bytes in
      slift (Ok tt)
  | compression =>
      let! bytes := read media (bd_offset d) loaded (required - loaded) in
      let! bytes := verify bytes (bd_stored_digest d) StoredDigest in
      let! bytes := measure event bytes in
      let! output := decompress c compression bytes loaded in
      let! _ := verify output (bd_loaded_digest d) LoadedDigest in
      slift (Ok tt)
  end.

(** *** Loading into physical memory *)

Record Machine := { ram : memory; log : trace }.

(** The entry address, after the checks that precede the placement. *)
Definition entry_address (d : BootstrapDescriptor) (p : MemoryPolicy) : res LoadError Z :=
  let? entry := ok_or (checked_add u64_max (bd_load_addr d) (bd_entry_offset d)) Bounds in
  fail_if (bd_loaded_size d <=? bd_entry_offset d)
          || (entry_alignment p =? 0)
          || negb (is_power_of_two (entry_alignment p))
          || negb (entry mod entry_alignment p =? 0) with MemoryPolicyError;
  Ok entry.

Definition load_bootstrap (media : M) (d : BootstrapDescriptor) (p : MemoryPolicy) (c : Codec)
    (event : Event) : sres Machine LoadError Z :=
  let! footprint := slift (bootstrap_footprint d) in
  let! entry := slift (entry_address d p) in
  let! _ := slift (place media p (bd_load_addr d) footprint) in
  let! _ := fun s =>
    let ws := mem_bytes (ram s) (bd_load_addr d) (as_usize footprint) in
    let '(s', r) := load_bootstrap_into media d c event {| workspace := ws; measured := log s |} in
    ({| ram := mem_write (ram s) (bd_load_addr d) (workspace s'); log := measured s' |}, r) in
  slift (Ok entry).
End chain.

(** ** The memory policy *)

Definition in_window (w : MemoryWindow) (a : Z) : Prop := mw_start w <= a < mw_start w + mw_len w.

(** Windows as the Rust type can hold them. *)
Definition window_ok (w : MemoryWindow) : Prop :=
  0 <= mw_start w <= u64_max /\ 0 <= mw_len w <= u64_max.

Lemma contains_spec w o : contains w o = true <->
  mw_start w + mw_len w <= u64_max /\ mw_start o + mw_len o <= u64_max /\
  mw_start w <= mw_start o /\ mw_start o + mw_len o <= mw_start w + mw_len w.
Proof.
  unfold contains, window_end, checked_add.
  destruct (Z.leb_spec (mw_start w + mw_len w) u64_max), (Z.leb_spec (mw_start o + mw_len o) u64_max);
    rewrite ?andb_true_iff, ?Z.leb_le; split; try done; lia.
Qed.

Lemma overlaps_false w o : overlaps w o = false <->
  mw_start w + mw_len w <= u64_max /\ mw_start o + mw_len o <= u64_max /\
  (mw_start o + mw_len o <= mw_start w \/ mw_start w + mw_len w <= mw_start o).
Proof.
  unfold overlaps, window_end, checked_add.
  destruct (Z.leb_spec (mw_start w + mw_len w) u64_max), (Z.leb_spec (mw_start o + mw_len o) u64_max);
    rewrite ?andb_false_iff, ?Z.ltb_ge; split; try done; lia.
Qed.

Lemma permits_true {T : Target} p start size :
  permits p start size = true <->
    size <> 0 /\ start <> 0 /\ start <= usize_max /\ size <= isize_max /\ start + size <= usize_max /\
    (exists w, w ∈ writable p /\ contains w {| mw_start := start; mw_len := size |} = true) /\
    (forall w, w ∈ reserved p -> overlaps w {| mw_start := start; mw_len := size |} = false).
Proof.
  unfold permits. rewrite !andb_true_iff, !negb_true_iff, !Z.eqb_neq, Z.leb_le, !bool_decide_eq_true.
  rewrite existsb_exists. pose proof usize_max_bounds as Hm.
  assert (Hend : is_Some (window_end {| mw_start := start; mw_len := size |} ≫= try_from usize_max) <->
                 start + size <= usize_max).
  { unfold window_end. simpl. split.
    - intros [x (e & He & Hx)%bind_Some]. apply checked_add_Some in He as [-> ?].
      by apply try_from_Some in Hx as [_ ?].
    - intros. rewrite checked_add_ok by lia. simpl. rewrite try_from_ok by lia. eauto. }
  assert (Hst : is_Some (try_from usize_max start) <-> start <= usize_max).
  { unfold try_from. case_match; bool_hyp; split; [done | eauto | by intros [] | lia]. }
  assert (Hres : existsb (fun w => overlaps w {| mw_start := start; mw_len := size |}) (reserved p) = false
    <-> forall w, w ∈ reserved p -> overlaps w {| mw_start := start; mw_len := size |} = false).
  { rewrite <- not_true_iff_false, existsb_exists. setoid_rewrite <- list_elem_of_In. split.
    - intros H w Hw. apply not_true_iff_false. eauto.
    - intros H (w & Hw & Ho). rewrite H in Ho; done. }
  rewrite Hend, Hst, Hres. setoid_rewrite <- list_elem_of_In. naive_solver.
Qed.

(** ** What the steps of the chain leave *)

Section chain_props.
Context {T : Target} {C : Crypto} {M : Type} {BM : BootMedia M} {wf : M -> Prop}
  {BL : BootMediaLaws M wf}.
Context (partial : list Z -> list Z -> list Z).

Lemma read_Ok media offset at_ len s s' bytes :
  wf media -> 0 <= offset -> 0 <= at_ -> 0 <= len -> at_ + len <= zlen (workspace s) ->
  bytes_ok (workspace s) -> len <= usize_max ->
  read media offset at_ len s = (s', Ok bytes) ->
  zlen bytes = len /\ bytes_ok bytes /\
  s' = {| workspace := upd (workspace s) at_ bytes; measured := measured s |} /\
  read_at media offset (sub (workspace s) at_ len) = (bytes, Ok len).
Proof.
  intros Hm Ho Ha Hl Hw Hb Hlen H. unfold read in H.
  apply sbind_Ok in H as (o & s1 & [-> Hof]%slift_Ok & H). rewrite ok_or_Ok, try_from_Some in Hof.
  destruct Hof as [-> Hof]. apply sbind_Ok in H as (u & s2 & [-> _]%slift_Ok & H).
  pose proof (zlen_sub (workspace s) at_ len Ha Hl Hw) as Hz.
  pose proof (read_at_zlen media offset (sub (workspace s) at_ len) Hm) as Hz'.
  pose proof (read_at_bytes media offset (sub (workspace s) at_ len) Hm) as Hb'.
  destruct (read_at media offset (sub (workspace s) at_ len)) as [into r] eqn:E. simpl in *.
  destruct r as [n|e|]; simplify_eq. destruct (Z.eqb_spec n len) as [->|]; simplify_eq.
  split_and!; [rewrite Hz'; lia | apply Hb'; [lia | lia | by apply bytes_ok_sub] | done | done].
Qed.

(** The same for any outcome: only the bytes lent to the medium change. *)
Lemma read_keeps media offset at_ len s :
  wf media -> 0 <= offset -> 0 <= at_ -> 0 <= len -> at_ + len <= zlen (workspace s) ->
  len <= usize_max ->
  zlen (workspace (fst (read media offset at_ len s))) = zlen (workspace s).
Proof.
  intros Hm Ho Ha Hl Hw Hlen. unfold read, sbind, slift. unfold try_from.
  destruct (Z.leb_spec offset usize_max); [|done]. simpl.
  destruct (checked_add _ _ _) as [e|]; [|done]. destruct (_ <? e); [done|]. simpl.
  pose proof (zlen_sub (workspace s) at_ len Ha Hl Hw) as Hz.
  pose proof (read_at_zlen media offset (sub (workspace s) at_ len) Hm) as Hz'.
  destruct (read_at media offset (sub (workspace s) at_ len)) as [into r]. simpl in *.
  apply zlen_upd; lia.
Qed.

(** Bytes and their decoded form, by the descriptor's compression. *)
Definition decoded (compression : Compression) (stored loaded : list Z) : Prop :=
  match compression with
  | CompressionNone => loaded = stored
  | CompressionLz4 => lz4_block [] stored loaded
  end.

Lemma decompress_Ok c compression input len s s' output :
  bytes_ok input -> 0 <= len <= zlen (workspace s) ->
  decompress partial c compression input len s = (s', Ok output) ->
  compression = CompressionLz4 /\ c = Lz4 /\ zlen output = len /\ lz4_block [] input output /\
  s' = {| workspace := upd (workspace s) 0 output; measured := measured s |}.
Proof.
  intros Hb Hl H. unfold decompress, codec_decompress, lz4_decompress in H.
  destruct c; [simplify_eq/=|]. destruct compression; [by simplify_eq/=|]. simpl in H.
  destruct (decompress_block _ _) as [[n out]|e|] eqn:E; [|by simplify_eq/=..].
  assert (Hz : zlen (sub (workspace s) 0 len) = len) by (apply zlen_sub; lia).
  unfold decompress_block in E.
  apply (lz4_loop_Ok _ _ _ _ _ _ _ _ Hb (at_start _ _)) in E as (Hz' & _ & Hblk).
  destruct (Z.eqb_spec n (zlen (sub (workspace s) 0 len))) as [->|]; simplify_eq/=.
  rewrite Hz in *. split_and!; try done. change (drop (Z.to_nat 0) input) with input in Hblk.
  rewrite <- Hz', sub_all in Hblk. done.
Qed.

Lemma decompress_keeps c compression input len s :
  (forall i o, zlen (partial i o) = zlen o) ->
  bytes_ok input -> 0 <= len <= zlen (workspace s) ->
  zlen (workspace (fst (decompress partial c compression input len s))) = zlen (workspace s).
Proof.
  intros Hp Hb Hl. unfold decompress.
  assert (Hz : zlen (sub (workspace s) 0 len) = len) by (apply zlen_sub; lia).
  enough (Ho : zlen (fst (codec_decompress partial c compression input (sub (workspace s) 0 len))) = len).
  { destruct (codec_decompress _ _ _ _ _) as [out r]. simpl in *. apply zlen_upd; lia. }
  unfold codec_decompress, lz4_decompress. destruct c; [done|]. case_match; [done|].
  destruct (decompress_block _ _) as [[n out]|e|] eqn:E; simpl; [|by rewrite Hp..].
  unfold decompress_block in E.
  apply (lz4_loop_Ok _ _ _ _ _ _ _ _ Hb (at_start _ _)) in E as (Hz' & _). lia.
Qed.

Definition footprint_size (d : BootstrapDescriptor) : Z :=
  match bd_compression d with
  | CompressionNone => bd_loaded_size d
  | CompressionLz4 => bd_loaded_size d + bd_stored_size d
  end.

Lemma bootstrap_footprint_Ok d f :
  bootstrap_footprint d = Ok f <-> bootstrap_valid d u64_max /\ f = footprint_size d.
Proof.
  unfold bootstrap_footprint, footprint_size. rewrite rbind_Ok. setoid_rewrite map_err_Ok.
  setoid_rewrite bootstrap_validate_Ok. split.
  - intros (_ & Hv & H). split; [done|]. destruct (bd_compression d).
    + rust_step H. by injection H.
    + by apply ok_or_Ok, checked_add_Some in H as [-> _].
  - intros [Hv ->]. exists tt. split; [done|]. destruct Hv as [_ _ _ _ Hlz Hno].
    destruct (bd_compression d).
    + destruct Hno as (_ & -> & ->); [done|]. rewrite Z.eqb_refl.
      by rewrite (proj2 (bytes_eqb_true _ _)).
    + destruct Hlz; [done|]. rewrite checked_add_ok by lia. done.
Qed.

(** Where the verified input lies in the workspace. *)
Definition input_at (d : BootstrapDescriptor) : Z :=
  match bd_compression d with CompressionNone => 0 | CompressionLz4 => bd_loaded_size d end.

(** What a successful load has established about the workspace. *)
Record load_done (d : BootstrapDescriptor) (c : Codec) (event : Event) (s s' : LoadState)
    (stored loaded : list Z) : Prop := {
  ld_stored_at : sub (workspace s') (input_at d) (bd_stored_size d) = stored;
  ld_loaded_at : sub (workspace s') 0 (bd_loaded_size d) = loaded;
  ld_stored_digest : sha256 stored = bd_stored_digest d;
  ld_loaded_digest : sha256 loaded = bd_loaded_digest d;
  ld_decoded : decoded (bd_compression d) stored loaded;
  ld_codec : bd_compression d = CompressionLz4 -> c = Lz4;
  ld_measured : measured s' = record event stored (measured s);
  ld_zlen : zlen (workspace s') = zlen (workspace s);
  ld_bytes : bytes_ok (workspace s')
}.

Lemma verify_Ok bytes expected error (s s' : LoadState) b :
  verify bytes expected error s = (s', Ok b) -> s' = s /\ b = bytes /\ sha256 bytes = expected.
Proof.
  unfold verify. intros [-> H]%slift_Ok. rust_step H. apply bytes_eqb_true in Hb. naive_solver.
Qed.

Lemma load_bootstrap_into_Ok media d c event s s' :
  wf media -> bootstrap_wf d -> bytes_ok (workspace s) ->
  load_bootstrap_into partial media d c event s = (s', Ok tt) ->
  exists stored loaded, load_done d c event s s' stored loaded.
Proof.
  intros Hm Hd Hb H. unfold load_bootstrap_into in H.
  apply sbind_Ok in H as (f & ? & [-> Hf]%slift_Ok & H).
  apply bootstrap_footprint_Ok in Hf as [Hv ->].
  apply sbind_Ok in H as (required & ? & [-> Hr]%slift_Ok & H).
  rewrite ok_or_Ok, try_from_Some in Hr. destruct Hr as [-> Hfit].
  apply sbind_Ok in H as (? & ? & [= <- Hg] & H). rust_step Hg. bool_hyp.
  apply sbind_Ok in H as (? & ? & [-> _]%slift_Ok & H).
  apply sbind_Ok in H as (? & ? & [-> Hl]%slift_Ok & H).
  rewrite ok_or_Ok, try_from_Some in Hl. destruct Hl as [-> Hl].
  apply sbind_Ok in H as (? & ? & [-> _]%slift_Ok & H).
  destruct Hd as [[? ?] [? ?] [? ?] _ _ _ _ _ _].
  unfold footprint_size in *. destruct (bd_compression d) eqn:Hc.
  - apply sbind_Ok in H as (bytes & s1 & Hread & H).
    apply read_Ok in Hread as (Hz & Hbo & -> & _); try (done || lia).
    apply sbind_Ok in H as (? & ? & (-> & -> & Hdig)%verify_Ok & H).
    apply sbind_Ok in H as (? & ? & [= <- <-] & [-> _]%slift_Ok).
    destruct (bv_none _ _ Hv Hc) as (_ & Hss & Hdd).
    exists bytes, bytes. constructor; unfold input_at; rewrite ?Hc; simpl; try congruence.
    + apply sub_upd_at; lia.
    + apply sub_upd_at; lia.
    + apply zlen_upd; lia.
    + by apply bytes_ok_upd.
  - replace (bd_loaded_size d + bd_stored_size d - bd_loaded_size d) with (bd_stored_size d) in H by lia.
    apply sbind_Ok in H as (bytes & s1 & Hread & H).
    apply read_Ok in Hread as (Hz & Hbo & -> & _); try (done || lia).
    apply sbind_Ok in H as (? & ? & (-> & -> & Hdig)%verify_Ok & H).
    apply sbind_Ok in H as (? & ? & [= <- <-] & H).
    assert (Hu : zlen (upd (workspace s) (bd_loaded_size d) bytes) = zlen (workspace s))
      by (apply zlen_upd; lia).
    apply sbind_Ok in H as (output & ? & Hdec & H).
    apply decompress_Ok in Hdec as (_ & -> & Hzo & Hblk & ->); [|done|simpl; lia].
    apply sbind_Ok in H as (? & ? & (-> & -> & Hdig2)%verify_Ok & [-> _]%slift_Ok). simpl in *.
    exists bytes, output. constructor; unfold input_at; rewrite ?Hc; simpl; try done.
    + rewrite sub_upd_other by lia. apply sub_upd_at; lia.
    + apply sub_upd_at; lia.
    + rewrite zlen_upd; lia.
    + apply bytes_ok_upd; [by apply bytes_ok_upd|].
      apply (lz4_block_bytes [] bytes); [done | constructor | done].
Qed.

Definition same_size (s s' : LoadState) : Prop := zlen (workspace s') = zlen (workspace s).

#[local] Instance same_size_refl : Reflexive same_size.
Proof. intros s. done. Qed.
#[local] Instance same_size_trans : Transitive same_size.
Proof. intros s1 s2 s3. unfold same_size. congruence. Qed.

Lemma bind_same_size {A B} (m : sres LoadState LoadError A) (k : A -> sres LoadState LoadError B) s :
  same_size s (fst (m s)) ->
  (forall a, snd (m s) = Ok a -> same_size (fst (m s)) (fst (k a (fst (m s))))) ->
  same_size s (fst (sbind m k s)).
Proof. apply (sbind_keeps same_size). Qed.

(** Whatever the outcome, the workspace keeps its size. *)
Lemma load_bootstrap_into_keeps media d c event s :
  (forall i o, zlen (partial i o) = zlen o) ->
  wf media -> bootstrap_wf d -> bytes_ok (workspace s) ->
  same_size s (fst (load_bootstrap_into partial media d c event s)).
Proof.
  intros Hp Hm Hd Hb. unfold load_bootstrap_into.
  apply bind_same_size; [done|]. intros f Hf. cbn [slift fst snd] in *.
  apply bootstrap_footprint_Ok in Hf as [Hv ->].
  apply bind_same_size; [done|]. intros r Hr. cbn [slift fst snd] in *.
  rewrite ok_or_Ok, try_from_Some in Hr. destruct Hr as [-> Hfit].
  apply bind_same_size; [done|]. intros u Hg. cbn [fst snd] in *. rust_step Hg. bool_hyp.
  apply bind_same_size; [done|]. intros u' _. cbn [slift fst].
  apply bind_same_size; [done|]. intros l Hl. cbn [slift fst snd] in *.
  rewrite ok_or_Ok, try_from_Some in Hl. destruct Hl as [-> Hl].
  apply bind_same_size; [done|]. intros u'' _. cbn [slift fst].
  destruct Hd as [[? ?] [? ?] [? ?] _ _ _ _ _ _]. unfold footprint_size in *.
  destruct (bd_compression d).
  - apply bind_same_size; [apply read_keeps; done || lia|]. intros b _.
    apply bind_same_size; [done|]. intros b' _. apply bind_same_size; [done|]. done.
  - replace (bd_loaded_size d + bd_stored_size d - bd_loaded_size d) with (bd_stored_size d) by lia.
    apply bind_same_size; [apply read_keeps; done || lia|]. intros b Hread.
    destruct (read _ _ _ _ s) as [s1 r] eqn:E. cbn [fst snd] in *. subst r.
    apply read_Ok in E as (Hz & Hbo & -> & _); try (done || lia).
    apply bind_same_size; [done|]. intros b' Hver. cbn [verify slift fst snd] in *.
    rust_step Hver. injection Hver as <-.
    apply bind_same_size; [done|]. intros b'' [= <-]. cbn [measure fst snd workspace].
    apply bind_same_size; [apply decompress_keeps; [done..|] | intros o _; apply bind_same_size; done].
    cbn [workspace]. rewrite zlen_upd; lia.
Qed.

(** What a decoder that gives up leaves behind are as many bytes. *)
Definition partial_ok : Prop := forall i o, zlen (partial i o) = zlen o /\ (bytes_ok o -> bytes_ok (partial i o)).

Definition same_bytes (s s' : LoadState) : Prop := bytes_ok (workspace s) -> bytes_ok (workspace s').

#[local] Instance same_bytes_refl : Reflexive same_bytes.
Proof. intros s. by unfold same_bytes. Qed.
#[local] Instance same_bytes_trans : Transitive same_bytes.
Proof. intros s1 s2 s3. unfold same_bytes. auto. Qed.

Lemma bind_same_bytes {A B} (m : sres LoadState LoadError A) (k : A -> sres LoadState LoadError B) s :
  same_bytes s (fst (m s)) ->
  (forall a, snd (m s) = Ok a -> same_bytes (fst (m s)) (fst (k a (fst (m s))))) ->
  same_bytes s (fst (sbind m k s)).
Proof. apply (sbind_keeps same_bytes). Qed.

Lemma read_bytes media offset at_ len s :
  wf media -> 0 <= offset -> 0 <= at_ -> 0 <= len -> at_ + len <= zlen (workspace s) -> len <= usize_max ->
  same_bytes s (fst (read media offset at_ len s)).
Proof.
  intros Hm Ho Ha Hl Hw Hlen Hb. unfold read, sbind, slift. unfold try_from.
  destruct (Z.leb_spec offset usize_max); [|done]. simpl.
  destruct (checked_add _ _ _) as [e|]; [|done]. destruct (_ <? e); [done|]. simpl.
  pose proof (zlen_sub (workspace s) at_ len Ha Hl Hw) as Hz.
  pose proof (read_at_bytes media offset (sub (workspace s) at_ len) Hm) as Hb'.
  destruct (read_at media offset (sub (workspace s) at_ len)) as [into r]. simpl in *.
  apply bytes_ok_upd; [done|]. apply Hb'; [lia|lia|by apply bytes_ok_sub].
Qed.

Lemma decompress_bytes c compression input len s :
  partial_ok -> bytes_ok input -> same_bytes s (fst (decompress partial c compression input len s)).
Proof.
  intros Hp Hb Hw. unfold decompress.
  enough (Ho : bytes_ok (fst (codec_decompress partial c compression input (sub (workspace s) 0 len)))).
  { destruct (codec_decompress _ _ _ _ _) as [out r]. by apply bytes_ok_upd. }
  assert (Hs : bytes_ok (sub (workspace s) 0 len)) by by apply bytes_ok_sub.
  unfold codec_decompress, lz4_decompress. destruct c; [done|]. case_match; [done|].
  destruct (decompress_block _ _) as [[n out]|e|] eqn:E; simpl; [|by apply Hp..]. by apply decompress_block_bytes in E.
Qed.

(** Whatever the outcome, the workspace holds bytes. *)
Lemma load_bootstrap_into_bytes media d c event s :
  partial_ok -> wf media -> bootstrap_wf d -> bytes_ok (workspace s) ->
  bytes_ok (workspace (fst (load_bootstrap_into partial media d c event s))).
Proof.
  intros Hp Hm Hd Hb. revert Hb. change (same_bytes s (fst (load_bootstrap_into partial media d c event s))).
  unfold load_bootstrap_into. apply bind_same_bytes; [done|]. intros f Hf. cbn [slift fst snd] in *.
  apply bootstrap_footprint_Ok in Hf as [Hv ->].
  apply bind_same_bytes; [done|]. intros r Hr. cbn [slift fst snd] in *.
  rewrite ok_or_Ok, try_from_Some in Hr. destruct Hr as [-> Hfit].
  apply bind_same_bytes; [done|]. intros u Hg. cbn [fst snd] in *. rust_step Hg. bool_hyp.
  apply bind_same_bytes; [done|]. intros u' _. cbn [slift fst].
  apply bind_same_bytes; [done|]. intros l Hl. cbn [slift fst snd] in *.
  rewrite ok_or_Ok, try_from_Some in Hl. destruct Hl as [-> Hl].
  apply bind_same_bytes; [done|]. intros u'' _. cbn [slift fst].
  destruct Hd as [[? ?] [? ?] [? ?] _ _ _ _ _ _]. unfold footprint_size in *. intros Hb.
  destruct (bd_compression d).
  - refine (bind_same_bytes _ _ _ _ _ Hb); [apply read_bytes; done || lia|]. intros b _.
    apply (bind_same_bytes (verify _ _ _)); [by intros ?|]. intros b' _. apply bind_same_bytes; [by intros ?|]. by intros ? _ ?.
  - replace (bd_loaded_size d + bd_stored_size d - bd_loaded_size d) with (bd_stored_size d) by lia.
    refine (bind_same_bytes _ _ _ _ _ Hb); [apply read_bytes; done || lia|]. intros b Hread.
    destruct (read _ _ _ _ s) as [s1 r] eqn:E. cbn [fst snd] in *. subst r.
    apply read_Ok in E as (Hz & Hbo & -> & _); try (done || lia).
    apply bind_same_bytes; [by intros ?|]. intros b' Hver. cbn [verify slift fst snd] in *.
    rust_step Hver. injection Hver as <-.
    apply bind_same_bytes; [by intros ?|]. intros b'' [= <-]. cbn [measure fst snd workspace].
    apply bind_same_bytes; [by apply decompress_bytes|]. intros o _. apply bind_same_bytes; [by intros ?|]. by intros ? _ ?.
Qed.
End chain_props.

Section load_props.
Context {T : Target} {C : Crypto} {M : Type} {BM : BootMedia M} {wf : M -> Prop}
  {BL : BootMediaLaws M wf}.

Lemma place_Ok (media : M) p start size :
  place media p start size = Ok tt <->
    permits p start size = true /\
    (forall addr src, as_slice media = Some (addr, src) ->
       overlaps {| mw_start := addr; mw_len := zlen src |}
                {| mw_start := start; mw_len := size |} = false).
Proof.
  unfold place. destruct (permits p start size); simpl; [|naive_solver].
  destruct (as_slice media) as [[addr src]|]; [|naive_solver].
  case_match eqn:E; [|naive_solver]. split; [done|]. intros [_ H].
  by rewrite (H _ _ eq_refl) in E.
Qed.

Lemma entry_address_Ok d p entry :
  entry_address d p = Ok entry ->
  entry = bd_load_addr d + bd_entry_offset d /\ bd_entry_offset d < bd_loaded_size d /\
  entry mod entry_alignment p = 0.
Proof.
  intros H. unfold entry_address in H. apply rbind_Ok in H as (e & He & H).
  rewrite ok_or_Ok, checked_add_Some in He. destruct He as [-> _]. rust_step H. bool_hyp.
  injection H as <-. done.
Qed.

(** The workspace [load_bootstrap] makes of memory has the footprint's size. *)
Lemma workspace_size d p media m :
  bootstrap_wf d -> place media p (bd_load_addr d) (footprint_size d) = Ok tt ->
  0 <= footprint_size d /\
  zlen (mem_bytes m (bd_load_addr d) (as_usize (footprint_size d))) = footprint_size d.
Proof.
  intros Hd [Hp _]%place_Ok. apply permits_true in Hp as (_ & _ & _ & _ & Hend & _).
  destruct Hd as [_ [? ?] [? ?] [? ?] _ _ _ _ _]. unfold footprint_size in *.
  split; [case_match; lia|]. rewrite as_usize_small, zlen_mem_bytes by (case_match; lia). done.
Qed.
End load_props.

(** ** Theorems *)

(** The memory policy permits a range exactly when it is non-empty,
    addressable, inside one writable window and free of every reserved byte. *)
Theorem permits_iff {T : Target} p start size :
  0 <= start -> 0 <= size ->
  Forall (fun w => window_end w <> None) (writable p) ->
  Forall (fun w => window_end w <> None /\ 0 < mw_len w) (reserved p) ->
  permits p start size = true <->
    0 < size <= isize_max /\ 0 < start /\ start + size <= usize_max /\
    (exists w, w ∈ writable p /\ forall a, start <= a < start + size -> in_window w a) /\
    (forall w a, w ∈ reserved p -> start <= a < start + size -> ~ in_window w a).
Proof.
  intros Hs Hz Hw Hr. rewrite permits_true. pose proof usize_max_bounds as Hm.
  assert (Hend : forall w, window_end w <> None -> mw_start w + mw_len w <= u64_max).
  { intros w H. unfold window_end, checked_add in H. destruct (Z.leb_spec (mw_start w + mw_len w) u64_max); done. }
  rewrite Forall_forall in Hw, Hr. setoid_rewrite <- list_elem_of_In in Hw.
  setoid_rewrite <- list_elem_of_In in Hr.
  setoid_rewrite contains_spec. setoid_rewrite overlaps_false. simpl. unfold in_window. split.
  - intros (? & ? & ? & ? & ? & (w & Hin & ?) & Hres). split_and!; try lia.
    + exists w. split; [done|]. lia.
    + intros w' a Hin' Ha. specialize (Hres w' Hin'). lia.
  - intros (? & ? & ? & (w & Hin & Hall) & Hres). split_and!; try lia.
    + exists w. specialize (Hend w (Hw w Hin)). pose proof (Hall start). pose proof (Hall (start + size - 1)).
      split_and!; (done || lia).
    + intros w' Hin'. destruct (Hr w' Hin') as [Hn' Hl']. specialize (Hend w' Hn').
      pose proof (Hres w' start Hin'). pose proof (Hres w' (mw_start w') Hin'). lia.
Qed.

(** A successful load, step by step. *)
Lemma load_bootstrap_Ok {T : Target} {C : Crypto} {M : Type} {BM : BootMedia M}
    {wf : M -> Prop} {BL : BootMediaLaws M wf} partial (media : M) d p c event s s' entry :
  wf media -> bootstrap_wf d -> mem_ok (ram s) ->
  load_bootstrap partial media d p c event s = (s', Ok entry) ->
  let loaded := mem_bytes (ram s') (bd_load_addr d) (bd_loaded_size d) in
  let stored := mem_bytes (ram s') (bd_load_addr d + input_at d) (bd_stored_size d) in
  mem_ok (ram s') /\ permits p (bd_load_addr d) (footprint_size d) = true /\
  sha256 loaded = bd_loaded_digest d /\ sha256 stored = bd_stored_digest d /\
  decoded (bd_compression d) stored loaded /\
  log s' = record event stored (log s) /\
  entry = bd_load_addr d + bd_entry_offset d /\
  bd_load_addr d <= entry < bd_load_addr d + bd_loaded_size d /\
  entry mod entry_alignment p = 0.
Proof.
  intros Hm Hd Hram H. unfold load_bootstrap in H.
  apply sbind_Ok in H as (f & ? & [-> [Hv ->]%bootstrap_footprint_Ok]%slift_Ok & H).
  apply sbind_Ok in H as (e & ? & [-> (-> & He & Hal)%entry_address_Ok]%slift_Ok & H).
  apply sbind_Ok in H as ([] & ? & [-> Hpl]%slift_Ok & H).
  apply sbind_Ok in H as ([] & s1 & H & [-> [= <-]]%slift_Ok).
  destruct (workspace_size d p media (ram s) Hd Hpl) as [Hf0 Hfz].
  set (ws := mem_bytes _ _ (as_usize _)) in *.
  destruct (load_bootstrap_into _ _ _ _ _ _) as [s2 r] eqn:E. simplify_eq.
  apply load_bootstrap_into_Ok in E as (stored & loaded & [Hst Hld Hsd Hldd Hdec _ Hmeas Hz Hbo]); try done;
    [|apply bytes_ok_mem_bytes, Hram].
  simpl in *. rewrite Hfz in Hz. destruct Hd as [_ [? ?] [? ?] _ [? ?] _ _ _ _].
  assert (Hin : 0 <= input_at d /\ input_at d + bd_stored_size d <= footprint_size d /\
                bd_loaded_size d <= footprint_size d).
  { unfold input_at, footprint_size. destruct (bd_compression d) eqn:Hc; [|lia].
    destruct (bv_none _ _ Hv Hc) as (_ & -> & _). lia. }
  pose proof (mem_bytes_write (ram s) (bd_load_addr d) (workspace s2) 0 (bd_loaded_size d)) as Hl0.
  rewrite Z.add_0_r in Hl0. rewrite Hl0, mem_bytes_write by lia.
  rewrite Hst, Hld. apply place_Ok in Hpl as [Hperm _].
  split; [by apply mem_ok_write|]. split_and!; try (done || lia).
Qed.

(** C4: What a successful load guarantees.  The bytes at the load address hash
    to the descriptor's loaded digest, the stored bytes kept beside them hash to
    the stored digest and decode to them, exactly those stored bytes were
    measured, once, and the entry point lies in the verified bytes, aligned as
    the policy asks. *)
Theorem load_bootstrap_sound {T : Target} {C : Crypto} {M : Type} {BM : BootMedia M}
    {wf : M -> Prop} {BL : BootMediaLaws M wf} partial (media : M) d p c event s s' entry :
  wf media -> bootstrap_wf d -> mem_ok (ram s) ->
  load_bootstrap partial media d p c event s = (s', Ok entry) ->
  let loaded := mem_bytes (ram s') (bd_load_addr d) (bd_loaded_size d) in
  let stored := mem_bytes (ram s') (bd_load_addr d + input_at d) (bd_stored_size d) in
  sha256 loaded = bd_loaded_digest d /\ sha256 stored = bd_stored_digest d /\
  decoded (bd_compression d) stored loaded /\
  log s' = record event stored (log s) /\
  entry = bd_load_addr d + bd_entry_offset d /\
  bd_load_addr d <= entry < bd_load_addr d + bd_loaded_size d /\
  entry mod entry_alignment p = 0.
Proof. intros Hm Hd Hram H. by destruct (load_bootstrap_Ok partial media d p c event s s' entry Hm Hd Hram H) as (_ & _ & ?). Qed.

(** Every byte an outcome changes. *)
Lemma load_bootstrap_changes {T : Target} {C : Crypto} {M : Type} {BM : BootMedia M}
    {wf : M -> Prop} {BL : BootMediaLaws M wf} partial (media : M) d p c event s a :
  (forall i o, zlen (partial i o) = zlen o) ->
  wf media -> bootstrap_wf d -> mem_ok (ram s) ->
  ram (fst (load_bootstrap partial media d p c event s)) a <> ram s a ->
  bd_load_addr d <= a < bd_load_addr d + footprint_size d /\ 0 < a <= usize_max /\
  (exists w, w ∈ writable p /\ in_window w a) /\
  (forall w, w ∈ reserved p -> ~ in_window w a) /\
  (forall addr src, as_slice media = Some (addr, src) -> ~ addr <= a < addr + zlen src).
Proof.
  intros Hpart Hm Hd Hram. unfold load_bootstrap, sbind, slift.
  destruct (bootstrap_footprint d) as [f|e|] eqn:Hf; [|done..].
  apply bootstrap_footprint_Ok in Hf as [_ ->]. destruct (entry_address d p); [|done..].
  destruct (place media p _ _) as [[]|e|] eqn:Hpl; [|done..].
  destruct (workspace_size d p media (ram s) Hd Hpl) as [Hf0 Hfz].
  apply place_Ok in Hpl as [Hperm Hsl].
  apply permits_true in Hperm as (_ & ? & _ & _ & ? & (w & Hw & Hcon) & Hres).
  pose proof (load_bootstrap_into_keeps partial media d c event
    {| workspace := mem_bytes (ram s) (bd_load_addr d) (as_usize (footprint_size d));
       measured := log s |} Hpart Hm Hd (bytes_ok_mem_bytes _ _ _ Hram)) as Hk.
  unfold same_size in Hk. simpl in Hk. rewrite Hfz in Hk.
  destruct (load_bootstrap_into _ _ _ _ _ _) as [s2 r]. simpl in Hk.
  intros Hne. assert (Ha : bd_load_addr d <= a < bd_load_addr d + footprint_size d).
  { apply dec_stable. intros Hno. apply Hne. destruct r; simpl; apply mem_write_out; by rewrite Hk. }
  destruct Hd as [_ _ _ [? ?] _ _ _ _ _].
  rewrite contains_spec in Hcon. simpl in Hcon. unfold in_window. split_and!; try lia.
  - exists w. split; [done|]. lia.
  - intros w' Hin. specialize (Hres w' Hin). rewrite overlaps_false in Hres. simpl in Hres. lia.
  - intros addr src Has. specialize (Hsl addr src Has). rewrite overlaps_false in Hsl. simpl in Hsl. lia.
Qed.

(** Memory holds bytes, whatever the outcome. *)
Lemma load_bootstrap_mem_ok {T : Target} {C : Crypto} {M : Type} {BM : BootMedia M}
    {wf : M -> Prop} {BL : BootMediaLaws M wf} partial (media : M) d p c event s :
  partial_ok partial -> wf media -> bootstrap_wf d -> mem_ok (ram s) ->
  mem_ok (ram (fst (load_bootstrap partial media d p c event s))).
Proof.
  intros Hpart Hm Hd Hram. unfold load_bootstrap, sbind, slift.
  destruct (bootstrap_footprint d) as [f|e|] eqn:Hf; [|done..]. destruct (entry_address d p); [|done..].
  destruct (place media p _ _) as [[]|e|] eqn:Hpl; [|done..].
  pose proof (load_bootstrap_into_bytes partial media d c event
    {| workspace := mem_bytes (ram s) (bd_load_addr d) (as_usize f); measured := log s |} Hpart Hm Hd
    (bytes_ok_mem_bytes _ _ _ Hram)) as Hk.
  destruct (load_bootstrap_into _ _ _ _ _ _) as [s2 r]. cbn [fst] in Hk.
  destruct r; by apply mem_ok_write.
Qed.

(** C16: No outcome, success or failure, changes a byte of memory that the
    policy does not permit: a changed byte is inside the image's footprint, in a
    writable window, in no reserved window and not in the medium's mapping. *)
Theorem load_bootstrap_confined {T : Target} {C : Crypto} {M : Type} {BM : BootMedia M}
    {wf : M -> Prop} {BL : BootMediaLaws M wf} partial (media : M) d p c event s a :
  (forall i o, zlen (partial i o) = zlen o) ->
  wf media -> bootstrap_wf d -> mem_ok (ram s) ->
  ram (fst (load_bootstrap partial media d p c event s)) a <> ram s a ->
  bd_load_addr d <= a < bd_load_addr d + footprint_size d /\ 0 < a <= usize_max /\
  (exists w, w ∈ writable p /\ in_window w a) /\
  (forall w, w ∈ reserved p -> ~ in_window w a) /\
  (forall addr src, as_slice media = Some (addr, src) -> ~ addr <= a < addr + zlen src).
Proof. apply load_bootstrap_changes. Qed.

(** ** Good images load *)

(** A medium whose reads return its contents. *)
Definition media_holds {M : Type} {BM : BootMedia M} (media : M) (img : list Z) : Prop :=
  zlen img = media_size media /\
  forall off buf, 0 <= off -> off + zlen buf <= media_size media ->
    read_at media off buf = (sub img off (zlen buf), Ok (zlen buf)).

(** The image a descriptor names: its stored and its loaded bytes. *)
Record image_ok {T : Target} {C : Crypto} (d : BootstrapDescriptor) (c : Codec)
    (stored loaded : list Z) : Prop := {
  io_stored : sha256 stored = bd_stored_digest d;
  io_loaded : sha256 loaded = bd_loaded_digest d;
  io_none : bd_compression d = CompressionNone -> loaded = stored;
  io_lz4 : bd_compression d = CompressionLz4 ->
           c = Lz4 /\ lz4_conformant (bd_loaded_size d) [] stored loaded /\
           256 * bd_stored_size d + bd_loaded_size d + 64 <= usize_max
}.

Lemma lz4_conformant_zlen n out rest out' : lz4_conformant n out rest out' -> zlen out' = n.
Proof. induction 1; done. Qed.

Section complete.
Context {T : Target} {C : Crypto} {M : Type} {BM : BootMedia M} {wf : M -> Prop}
  {BL : BootMediaLaws M wf}.
Context (partial : list Z -> list Z -> list Z).

Lemma read_complete media img offset at_ len s :
  wf media -> media_holds media img -> 0 <= offset -> 0 <= at_ -> 0 <= len ->
  at_ + len <= zlen (workspace s) -> offset + len <= media_size media ->
  read media offset at_ len s =
    ({| workspace := upd (workspace s) at_ (sub img offset len); measured := measured s |},
     Ok (sub img offset len)).
Proof.
  intros Hm [_ Himg] Ho Ha Hl Hw Hb. pose proof (media_size_range media Hm).
  unfold read, sbind, slift. rewrite try_from_ok by lia. simpl. rewrite checked_add_ok by lia.
  guard_false. simpl.
  assert (Hz : zlen (sub (workspace s) at_ len) = len) by (apply zlen_sub; lia).
  rewrite Himg by lia. rewrite Hz, Z.eqb_refl. done.
Qed.

Lemma decompress_complete stored loaded len s :
  bytes_ok stored -> 256 * zlen stored + len + 64 <= usize_max -> 0 <= len <= zlen (workspace s) ->
  lz4_conformant len [] stored loaded ->
  decompress partial Lz4 CompressionLz4 stored len s =
    ({| workspace := upd (workspace s) 0 loaded; measured := measured s |}, Ok loaded).
Proof.
  intros Hb Hsz Hl Hconf. unfold decompress, codec_decompress, lz4_decompress. simpl.
  assert (Hz : zlen (sub (workspace s) 0 len) = len) by (apply zlen_sub; lia).
  assert (E : decompress_block stored (sub (workspace s) 0 len) = Ok (len, loaded)).
  { unfold decompress_block. rewrite <- Hz. apply (lz4_loop_complete _ [] stored loaded).
    all: auto using at_start, drop_0. all: rewrite ?Hz; try done. all: unfold sizes_ok, zlen in *; lia. }
  rewrite E, Hz, Z.eqb_refl. done.
Qed.

Lemma load_bootstrap_into_complete media img d c event s loaded :
  wf media -> media_holds media img -> bytes_ok img -> bootstrap_wf d ->
  bd_offset d + bd_stored_size d <= media_size media ->
  footprint_size d <= usize_max -> zlen (workspace s) = footprint_size d ->
  image_ok d c (sub img (bd_offset d) (bd_stored_size d)) loaded ->
  exists s', load_bootstrap_into partial media d c event s = (s', Ok tt) /\
             sub (workspace s') 0 (bd_loaded_size d) = loaded /\
             sub (workspace s') (input_at d) (bd_stored_size d)
               = sub img (bd_offset d) (bd_stored_size d) /\
             zlen (workspace s') = footprint_size d.
Proof.
  intros Hm Himg Hbo Hd Hend Hfit Hws [Hsd Hld Hno Hlz].
  assert (Hv : bootstrap_valid d u64_max) by (eapply bootstrap_validate_Ok, bwf_valid, Hd).
  pose proof (media_size_range media Hm). pose proof usize_max_bounds.
  destruct Hd as [[? ?] [? ?] [? ?] _ _ _ _ _ _].
  assert (Hl : bd_loaded_size d <= footprint_size d) by (unfold footprint_size; case_match; lia).
  unfold load_bootstrap_into, sbind, slift.
  rewrite (proj2 (bootstrap_footprint_Ok d (footprint_size d))) by done.
  rewrite try_from_ok by lia. simpl. rewrite checked_add_ok by lia. guard_false.
  destruct (bd_compression d) eqn:Hc.
  - destruct (bv_none _ _ Hv Hc) as (_ & Hss & _). simpl.
    rewrite try_from_ok by lia. simpl. guard_false.
    unfold footprint_size in *. rewrite Hc in *.
    rewrite (read_complete media img) by (done || lia).
    unfold verify, slift. rewrite <- Hss, (proj2 (bytes_eqb_true _ _) Hsd). simpl.
    eexists. split; [done|]. simpl. rewrite Hno by done.
    pose proof (zlen_sub img (bd_offset d) (bd_stored_size d)) as Hz.
    rewrite (proj1 Himg) in Hz. unfold input_at. rewrite Hc.
    split_and!; [apply sub_upd_at; lia.. | rewrite zlen_upd; lia].
  - destruct Hlz as (-> & Hconf & Hsz); [done|]. simpl.
    rewrite try_from_ok by lia. simpl. guard_false.
    unfold footprint_size in *. rewrite Hc in *.
    replace (bd_loaded_size d + bd_stored_size d - bd_loaded_size d) with (bd_stored_size d) by lia.
    rewrite (read_complete media img) by (done || lia).
    unfold verify, slift. rewrite (proj2 (bytes_eqb_true _ _) Hsd). simpl.
    pose proof (zlen_sub img (bd_offset d) (bd_stored_size d)) as Hz. rewrite (proj1 Himg) in Hz.
    rewrite decompress_complete with (loaded := loaded);
      [| by apply bytes_ok_sub | rewrite Hz; lia | simpl; rewrite zlen_upd; lia | done].
    rewrite (proj2 (bytes_eqb_true _ _) Hld). simpl. eexists. split; [done|]. simpl.
    assert (Hlz : zlen loaded = bd_loaded_size d) by (by eapply lz4_conformant_zlen).
    unfold input_at. rewrite Hc. split_and!.
    + apply sub_upd_at; rewrite ?zlen_upd; lia.
    + rewrite sub_upd_other by (rewrite ?zlen_upd; lia). apply sub_upd_at; lia.
    + rewrite !zlen_upd; rewrite ?zlen_upd; lia.
Qed.
End complete.

(** A good image passes every step. *)
Lemma load_bootstrap_loads {T : Target} {C : Crypto} {M : Type} {BM : BootMedia M}
    {wf : M -> Prop} {BL : BootMediaLaws M wf} partial (media : M) img d p c event s entry loaded :
  wf media -> media_holds media img -> bytes_ok img -> bootstrap_wf d ->
  bd_offset d + bd_stored_size d <= media_size media ->
  place media p (bd_load_addr d) (footprint_size d) = Ok tt -> entry_address d p = Ok entry ->
  image_ok d c (sub img (bd_offset d) (bd_stored_size d)) loaded ->
  exists s', load_bootstrap partial media d p c event s = (s', Ok entry) /\
             mem_bytes (ram s') (bd_load_addr d) (bd_loaded_size d) = loaded /\
             mem_bytes (ram s') (bd_load_addr d + input_at d) (bd_stored_size d)
               = sub img (bd_offset d) (bd_stored_size d).
Proof.
  intros Hm Himg Hbo Hd Hend Hpl He Hio.
  assert (Hv : bootstrap_valid d u64_max) by (eapply bootstrap_validate_Ok, bwf_valid, Hd).
  destruct (workspace_size d p media (ram s) Hd Hpl) as [Hf0 Hfz].
  pose proof Hpl as [(_ & _ & _ & _ & Hfit & _)%permits_true _]%place_Ok.
  destruct (load_bootstrap_into_complete partial media img d c event
    {| workspace := mem_bytes (ram s) (bd_load_addr d) (as_usize (footprint_size d));
       measured := log s |} loaded) as (s' & Hrun & Hsub & Hin & Hz); try done.
  { destruct Hd as [_ _ _ [? ?] _ _ _ _ _]. lia. }
  unfold load_bootstrap, sbind, slift.
  rewrite (proj2 (bootstrap_footprint_Ok d (footprint_size d)))
    by (split; [eapply bootstrap_validate_Ok, bwf_valid, Hd | done]).
  rewrite He, Hpl, Hrun. eexists. split; [done|]. simpl.
  pose proof (mem_bytes_write (ram s) (bd_load_addr d) (workspace s') 0 (bd_loaded_size d)) as Hl0.
  rewrite Z.add_0_r in Hl0. destruct Hd as [_ [? ?] [? ?] _ _ _ _ _ _].
  unfold footprint_size in *. split.
  - rewrite Hl0; [done | lia | lia |]. case_match; lia.
  - rewrite mem_bytes_write; [done | unfold input_at; case_match; lia | lia |].
    unfold input_at. destruct (bd_compression d) eqn:Hc; [|lia].
    destruct (bv_none _ _ Hv Hc) as (_ & Hss & _). lia.
Qed.

(** C37: A good image always loads: when the medium holds the stored bytes, they
    hash to the stored digest and decode to bytes with the loaded digest, and the
    policy admits the destination and the entry point, [load_bootstrap] returns
    the entry address with the decoded bytes at the load address and the stored
    bytes where [stored_input] says they are. *)
Theorem load_bootstrap_complete {T : Target} {C : Crypto} {M : Type} {BM : BootMedia M}
    {wf : M -> Prop} {BL : BootMediaLaws M wf} partial (media : M) img d p c event s entry loaded :
  wf media -> media_holds media img -> bytes_ok img -> bootstrap_wf d ->
  bd_offset d + bd_stored_size d <= media_size media ->
  place media p (bd_load_addr d) (footprint_size d) = Ok tt -> entry_address d p = Ok entry ->
  image_ok d c (sub img (bd_offset d) (bd_stored_size d)) loaded ->
  exists s', load_bootstrap partial media d p c event s = (s', Ok entry) /\
             mem_bytes (ram s') (bd_load_addr d) (bd_loaded_size d) = loaded /\
             mem_bytes (ram s') (bd_load_addr d + input_at d) (bd_stored_size d)
               = sub img (bd_offset d) (bd_stored_size d).
Proof. apply load_bootstrap_loads. Qed.

(** ** Witnesses *)

#[local] Existing Instance demo_crypto.

(** 64 bytes of linearly mapped flash at 0x1000 with an LZ4 image at offset 8. *)
Definition demo_flash : list Z := zeros 8 ++ sample_block ++ zeros 37.
Definition demo_ram : memory :=
  fun a => if (0x1000 <=? a) && (a <? 0x1040) then nth (Z.to_nat (a - 0x1000)) demo_flash 0 else 0.
Definition demo_media : MemoryMapped LinearMap :=
  {| mm_map := {| lm_base := 0x1000 |}; mm_size := 64; mm_mem := demo_ram |}.

Definition demo_bootstrap : BootstrapDescriptor := {|
  bd_role := Mainstage; bd_compression := CompressionLz4; bd_offset := 8;
  bd_stored_size := 19; bd_loaded_size := 24; bd_load_addr := 0x4000;
  bd_entry_offset := 4; bd_scratch_size := 43;
  bd_stored_digest := sha256 sample_block; bd_loaded_digest := sha256 sample_out |}.

Definition demo_memory_policy : MemoryPolicy := {|
  writable := [{| mw_start := 0x3000; mw_len := 0x2000 |}];
  reserved := [{| mw_start := 0x3000; mw_len := 0x100 |}];
  entry_alignment := 4 |}.

Definition demo_event : Event :=
  {| ev_pcr := 2; ev_kind := 0x80000008; ev_description := []; ev_base := 0x1008 |}.
Definition demo_machine : Machine := {| ram := demo_ram; log := [] |}.
Definition no_partial (i o : list Z) : list Z := o.

Lemma demo_ram_ok : mem_ok demo_ram.
Proof.
  intros a. unfold demo_ram. case_match; [|unfold byte_ok; lia].
  assert (Hf : bytes_ok demo_flash)
    by (apply (bool_decide_eq_true_1 (bytes_ok demo_flash)); vm_compute; reflexivity).
  destruct (nth_lookup_or_length demo_flash (Z.to_nat (a - 0x1000)) 0) as [Hl | Hl].
  - by eapply Forall_lookup_1 in Hf.
  - rewrite nth_overflow by done. unfold byte_ok. lia.
Qed.

Lemma demo_media_wf : mapped_wf demo_media.
Proof.
  split; [|apply demo_ram_ok]. pose proof usize_max_bounds as H. unfold u32_max in H. simpl. lia.
Qed.

Lemma demo_bootstrap_wf : bootstrap_wf demo_bootstrap.
Proof.
  assert (Hd : forall l, bytes_ok l -> array_ok 32 (sha256 l)).
  { intros l _. split; [done|]. cbn [sha256 demo_crypto]. apply Forall_replicate. unfold byte_ok.
    apply Z.mod_pos_bound. lia. }
  constructor; try (apply Hd); try (apply (bool_decide_eq_true_1 (bytes_ok _)); vm_compute; reflexivity);
    try (vm_compute; split; discriminate).
Qed.

Lemma permits_iff_witness :
  permits demo_memory_policy 0x4000 43 = true /\ 0x4000 + 43 <= usize_max.
Proof.
  assert (E : permits demo_memory_policy 0x4000 43 = true) by (vm_compute; reflexivity).
  split; [exact E|].
  apply permits_iff in E; [apply E | lia | lia | repeat constructor; discriminate |].
  repeat constructor; discriminate.
Defined.

Lemma load_bootstrap_sound_witness :
  exists s', load_bootstrap no_partial demo_media demo_bootstrap demo_memory_policy Lz4 demo_event
               demo_machine = (s', Ok 0x4004) /\
             sha256 (mem_bytes (ram s') 0x4000 24) = bd_loaded_digest demo_bootstrap.
Proof.
  destruct (load_bootstrap no_partial demo_media demo_bootstrap demo_memory_policy Lz4 demo_event
              demo_machine) as [s' r] eqn:E.
  assert (Hr : r = Ok 0x4004).
  { change r with (snd (s', r)). rewrite <- E. vm_compute. reflexivity. }
  subst r. exists s'. split; [reflexivity|].
  exact (proj1 (load_bootstrap_sound no_partial demo_media demo_bootstrap demo_memory_policy Lz4
                  demo_event demo_machine s' 0x4004 demo_media_wf demo_bootstrap_wf demo_ram_ok E)).
Defined.

Lemma load_bootstrap_confined_witness :
  ram (fst (load_bootstrap no_partial demo_media demo_bootstrap demo_memory_policy Lz4 demo_event
              demo_machine)) 0x4001 <> ram demo_machine 0x4001 /\
  0x4000 <= 0x4001 < 0x4000 + footprint_size demo_bootstrap.
Proof.
  assert (E : ram (fst (load_bootstrap no_partial demo_media demo_bootstrap demo_memory_policy Lz4
                demo_event demo_machine)) 0x4001 <> ram demo_machine 0x4001)
    by (vm_compute; discriminate).
  split; [exact E|].
  exact (proj1 (load_bootstrap_confined no_partial demo_media demo_bootstrap demo_memory_policy Lz4
    demo_event demo_machine 0x4001 (fun i o => eq_refl) demo_media_wf demo_bootstrap_wf demo_ram_ok E)).
Defined.

Lemma demo_media_holds : media_holds demo_media demo_flash.
Proof.
  assert (Hf : demo_flash = mem_bytes demo_ram 0x1000 64) by (vm_compute; reflexivity).
  split; [reflexivity|]. intros off buf Ho Hb. pose proof usize_max_bounds as H. unfold u32_max in H.
  pose proof (zlen_nonneg buf). unfold demo_media in *. simpl media_size in Hb.
  rewrite linear_read_at by lia. by rewrite Hf, sub_mem_bytes by lia.
Qed.

Lemma load_bootstrap_complete_witness :
  exists s', load_bootstrap no_partial demo_media demo_bootstrap demo_memory_policy Lz4 demo_event
               demo_machine = (s', Ok 0x4004) /\ mem_bytes (ram s') 0x4000 24 = sample_out /\
             mem_bytes (ram s') 0x4018 19 = sample_block.
Proof.
  apply (load_bootstrap_complete no_partial demo_media demo_flash demo_bootstrap demo_memory_policy
           Lz4 demo_event demo_machine 0x4004 sample_out demo_media_wf demo_media_holds).
  - apply (bool_decide_eq_true_1 (bytes_ok demo_flash)). vm_compute. reflexivity.
  - exact demo_bootstrap_wf.
  - vm_compute. discriminate.
  - vm_compute. reflexivity.
  - vm_compute. reflexivity.
  - constructor; [vm_compute; reflexivity.. | discriminate |].
    intros _. split_and!; [reflexivity | exact sample_conformant | vm_compute; discriminate].
Defined.
