(* ===== verification/Store.v ===== *)
(** * Store: the firmware store ([crates/store/src/lib.rs])

    Firmware data that outlives a stage is kept as tagged entries of an Arm
    Firmware Handoff transfer list in one RAM window.  The window is a byte list
    at a base address; a store is only ever seen through the bytes of its
    window, which may have been written by an earlier stage or another project,
    so [open] has to establish everything the other operations rely on.

    The abstract view of a store is the list of its entries ([chain]); the
    theorems relate the operations to that list: [open] accepts exactly the
    windows that hold one, [add] appends to it, [relocate] carries it over. *)

From S2P Require Import Prelude.
From S2P Require Import Bytes.
From S2P Require Import Wire.
From Stdlib Require Import ZArith Lia.
From stdpp Require Import base numbers list option.

#[local] Open Scope Z_scope.

Definition SIGNATURE : Z := 0x4a0fb10b.
Definition VERSION : Z := 1.
Definition HEADER_SIZE : Z := 0x18.
Definition ENTRY_HEADER_SIZE : Z := 8.
Definition GRANULE : Z := 8.
Definition FLAG_HAS_CHECKSUM : Z := 1.

Record ListHeader := {
  lh_signature : Z; lh_checksum : Z; lh_version : Z; lh_header_size : Z; lh_alignment : Z;
  lh_used_size : Z; lh_max_size : Z; lh_flags : Z; lh_reserved : Z
}.

(** [Tag]: a 24-bit number; 0 is padding. *)
Definition VOID : Z := 0.

Record Entry := { e_tag : Z; e_offset : Z; e_size : Z }.
#[export] Instance Entry_eq_dec : EqDecision Entry.
Proof. solve_decision. Defined.

Inductive StoreError := Misaligned | TooSmall | Invalid | Full | NotLast | BadTag.

Record Store := { st_base : Z; st_mem : list Z }.

(** ** Header and entry headers in memory *)

Definition read_header (m : list Z) : ListHeader := {|
  lh_signature := u32_at m 0; lh_checksum := u8_at m 4; lh_version := u8_at m 5;
  lh_header_size := u8_at m 6; lh_alignment := u8_at m 7; lh_used_size := u32_at m 8;
  lh_max_size := u32_at m 12; lh_flags := u32_at m 16; lh_reserved := u32_at m 20 |}.

Definition header_bytes (h : ListHeader) : list Z :=
  le_enc 4 (lh_signature h) ++ [lh_checksum h; lh_version h; lh_header_size h; lh_alignment h]
  ++ le_enc 4 (lh_used_size h) ++ le_enc 4 (lh_max_size h) ++ le_enc 4 (lh_flags h)
  ++ le_enc 4 (lh_reserved h).

Definition write_header (m : list Z) (h : ListHeader) : list Z := upd m 0 (header_bytes h).

Definition used (m : list Z) : Z := lh_used_size (read_header m).
Definition max_size (m : list Z) : Z := lh_max_size (read_header m).

(** An entry header: [tag: [u8; 3]], [header_size: u8], [data_size: u32]. *)
Definition write_entry_header (m : list Z) (offset tag data_size : Z) : list Z :=
  upd m offset (le_enc 3 tag ++ [ENTRY_HEADER_SIZE] ++ le_enc 4 (data_size mod 2 ^ 32)).

(** [max_size] and [used_size] are set through an [as u32] cast. *)
Definition set_used (h : ListHeader) (v : Z) : ListHeader :=
  {| lh_signature := lh_signature h; lh_checksum := lh_checksum h; lh_version := lh_version h;
     lh_header_size := lh_header_size h; lh_alignment := lh_alignment h;
     lh_used_size := v mod 2 ^ 32; lh_max_size := lh_max_size h; lh_flags := lh_flags h;
     lh_reserved := lh_reserved h |}.
Definition set_max (h : ListHeader) (v : Z) : ListHeader :=
  {| lh_signature := lh_signature h; lh_checksum := lh_checksum h; lh_version := lh_version h;
     lh_header_size := lh_header_size h; lh_alignment := lh_alignment h;
     lh_used_size := lh_used_size h; lh_max_size := v mod 2 ^ 32; lh_flags := lh_flags h;
     lh_reserved := lh_reserved h |}.
Definition set_alignment (h : ListHeader) (v : Z) : ListHeader :=
  {| lh_signature := lh_signature h; lh_checksum := lh_checksum h; lh_version := lh_version h;
     lh_header_size := lh_header_size h; lh_alignment := v;
     lh_used_size := lh_used_size h; lh_max_size := lh_max_size h; lh_flags := lh_flags h;
     lh_reserved := lh_reserved h |}.

(** ** Operations *)

Section store.
Context {T : Target}.

(** [n.next_multiple_of(m)], which panics when the multiple leaves [usize]. *)
Definition usize_next_multiple_of {E} (n m : Z) : res E Z :=
  or_panic (try_from usize_max (next_multiple_of n m)).

(** [1usize.checked_shl(n)] *)
Definition checked_shl_one (n : Z) : option Z :=
  if n <? usize_bits then Some (Z.shiftl 1 n) else None.

(** [Entry::end] *)
Definition entry_end {E} (e : Entry) : res E Z :=
  let? n := usize_next_multiple_of (e_size e) GRANULE in
  add_or_panic usize_max (e_offset e) n.

(** [None] is [Err tt]. *)
Definition entry_at (m : list Z) (offset : Z) : res unit Entry :=
  fail_if negb (is_multiple_of offset GRANULE) with tt;
  let? header_end := ok_or (checked_add usize_max offset ENTRY_HEADER_SIZE) tt in
  fail_if used m <? header_end with tt;
  let header_size := u8_at m (offset + 3) in
  fail_if (header_size <? ENTRY_HEADER_SIZE) || negb (is_multiple_of header_size GRANULE) with tt;
  let? data := ok_or (checked_add usize_max offset header_size) tt in
  let entry := {| e_tag := le_at m offset 3; e_offset := data; e_size := u32_at m (offset + 4) |} in
  let? padded := usize_next_multiple_of (e_size entry) GRANULE in
  let? end_ := ok_or (checked_add usize_max (e_offset entry) padded) tt in
  fail_if used m <? end_ with tt;
  Ok entry.

(** [(window.min(u32::MAX as usize) / GRANULE) * GRANULE] *)
Definition window_max (window : Z) : Z := Z.min window u32_max / GRANULE * GRANULE.

Definition create (base : Z) (m : list Z) : res StoreError Store :=
  fail_if negb (is_multiple_of base GRANULE) with Misaligned;
  let max := window_max (zlen m) in
  fail_if max <? HEADER_SIZE with TooSmall;
  Ok {| st_base := base;
        st_mem := write_header m
          {| lh_signature := SIGNATURE; lh_checksum := 0; lh_version := VERSION;
             lh_header_size := HEADER_SIZE; lh_alignment := 3; lh_used_size := HEADER_SIZE;
             lh_max_size := max; lh_flags := 0; lh_reserved := 0 |} |}.

(** The walk of [open] over the entries; a step advances by at least
    [ENTRY_HEADER_SIZE] bytes, so as many steps as the window has bytes are
    enough. *)
Fixpoint open_walk (fuel : nat) (m : list Z) (offset : Z) : res StoreError Z :=
  match fuel with
  | O => Panic
  | S fuel =>
      if offset <? used m then
        let? entry := map_err (fun _ => Invalid) (entry_at m offset) in
        let? offset := entry_end entry in
        open_walk fuel m offset
      else Ok offset
  end.

Definition wrapping_sum (l : list Z) : Z := foldl (fun sum b => (sum + b) mod 256) 0 l.

Definition open (base : Z) (m : list Z) : res StoreError Store :=
  fail_if negb (is_multiple_of base GRANULE) with Misaligned;
  fail_if zlen m <? HEADER_SIZE with TooSmall;
  let header := read_header m in
  let used := lh_used_size header in
  let max := lh_max_size header in
  let header_size := lh_header_size header in
  fail_if negb (lh_signature header =? SIGNATURE) || negb (lh_version header =? VERSION)
          || (header_size <? HEADER_SIZE) || negb (is_multiple_of header_size GRANULE)
          || (used <? header_size) || negb (used mod GRANULE =? 0) || (max <? used) with Invalid;
  fail_if zlen m <? max with TooSmall;
  let? align := ok_or (checked_shl_one (lh_alignment header)) Invalid in
  fail_if negb (Z.land base (align - 1) =? 0) with Misaligned;
  fail_if negb (Z.land (lh_flags header) FLAG_HAS_CHECKSUM =? 0)
          && negb (wrapping_sum (sub m 0 used) =? 0) with Invalid;
  let? offset := open_walk (S (length m)) m header_size in
  fail_if negb (offset =? used) with Invalid;
  Ok {| st_base := base; st_mem := m |}.

(** The items of the [entries] iterator. *)
Fixpoint entries_from (fuel : nat) (m : list Z) (offset : Z) : res unit (list Entry) :=
  match fuel with
  | O => Panic
  | S fuel =>
      if offset <? used m then
        match entry_at m offset with
        | Ok entry =>
            let? offset := entry_end entry in
            let? rest := entries_from fuel m offset in
            Ok (if e_tag entry =? VOID then rest else entry :: rest)
        | Err _ => Ok []
        | Panic => Panic
        end
      else Ok []
  end.

Definition entries (s : Store) : res unit (list Entry) :=
  entries_from (S (length (st_mem s))) (st_mem s) (lh_header_size (read_header (st_mem s))).

Definition find (s : Store) (tag : Z) : res unit (option Entry) :=
  let? es := entries s in
  Ok (snd <$> list_find (fun e => e_tag e = tag) es).

(** [Store::address] and [Store::bytes_mut]: where an entry's data is, the data,
    and the store after the borrowed slice has been written to. *)
Definition address (s : Store) (e : Entry) : Z := st_base s + e_offset e.
Definition entry_bytes (s : Store) (e : Entry) : list Z := sub (st_mem s) (e_offset e) (e_size e).
Definition write_bytes (s : Store) (e : Entry) (data : list Z) : Store :=
  {| st_base := st_base s; st_mem := upd (st_mem s) (e_offset e) data |}.

Definition add (tag size align_log2 : Z) : sres Store StoreError Entry := fun s =>
  let r :=
    (fail_if (tag =? VOID) || (2 ^ 24 <=? tag) with BadTag;
     let? shifted := ok_or (checked_shl_one align_log2) Misaligned in
     let align := Z.max shifted GRANULE in
     fail_if negb (is_multiple_of (st_base s) align) with Misaligned;
     let used := used (st_mem s) in
     let? unpadded := add_or_panic usize_max used ENTRY_HEADER_SIZE in
     let? padded := usize_next_multiple_of unpadded align in
     let padding := padded - unpadded in
     let offset := used + padding + ENTRY_HEADER_SIZE in
     let? data_size := ok_or (try_from u32_max size) Full in
     let? rounded := usize_next_multiple_of size GRANULE in
     let? end_ := ok_or (checked_add usize_max offset rounded) Full in
     fail_if max_size (st_mem s) <? end_ with Full;
     let m := st_mem s in
     let? m := (if padding =? 0 then Ok m
                else let? void_size := or_panic (checked_sub padding ENTRY_HEADER_SIZE) in
                     Ok (write_entry_header m used VOID void_size)) in
     let m := write_entry_header m (offset - ENTRY_HEADER_SIZE) tag data_size in
     let header := read_header m in
     let header := set_used header end_ in
     let header := set_alignment header (Z.max (lh_alignment header) (Z.log2 align)) in
     Ok (write_header m header, {| e_tag := tag; e_offset := offset; e_size := size |})) in
  match r with
  | Ok (m, e) => ({| st_base := st_base s; st_mem := m |}, Ok e)
  | Err e => (s, Err e)
  | Panic => (s, Panic)
  end.

Definition resize_last (entry : Entry) (size : Z) : sres Store StoreError Entry := fun s =>
  let m := st_mem s in
  let r :=
    (let? at_ := or_panic (checked_sub (e_offset entry) ENTRY_HEADER_SIZE) in
     let? same := match entry_at m at_ with
                  | Ok e => Ok (bool_decide (e = entry))
                  | Err _ => Ok false
                  | Panic => Panic
                  end in
     let? last := (if same then let? end_ := entry_end entry in Ok (end_ =? used m) else Ok false) in
     fail_if negb last with NotLast;
     let resized := {| e_tag := e_tag entry; e_offset := e_offset entry; e_size := size |} in
     fail_if u32_max <? size with Full;
     let? end_ := entry_end resized in
     fail_if max_size m <? end_ with Full;
     let m := write_entry_header m at_ (e_tag entry) size in
     Ok (write_header m (set_used (read_header m) end_), resized)) in
  match r with
  | Ok (m, e) => ({| st_base := st_base s; st_mem := m |}, Ok e)
  | Err e => (s, Err e)
  | Panic => (s, Panic)
  end.

Definition limit (granule : Z) : sres Store StoreError Z := fun s =>
  let m := st_mem s in
  match @usize_next_multiple_of StoreError (used m) (Z.max granule GRANULE) with
  | Ok rounded =>
      let limited := Z.min rounded (max_size m) in
      ({| st_base := st_base s; st_mem := write_header m (set_max (read_header m) limited) |}, Ok limited)
  | Err e => (s, Err e)
  | Panic => (s, Panic)
  end.

(** [dest] and [window] (the bytes found at [dest]) are the destination. *)
Definition relocate (s : Store) (dest : Z) (window : list Z) : res StoreError Store :=
  let header := read_header (st_mem s) in
  let? align := or_panic (checked_shl_one (lh_alignment header)) in
  fail_if negb (is_multiple_of dest align) with Misaligned;
  let max := window_max (zlen window) in
  let used := used (st_mem s) in
  fail_if max <? used with TooSmall;
  let m := upd window 0 (sub (st_mem s) 0 used) in
  Ok {| st_base := dest; st_mem := write_header m (set_max (read_header m) max) |}.
End store.

(** ** Reading back what was written *)

Lemma u8_at_alt l off : u8_at l off = nth 0 (sub l off 1) 0.
Proof.
  unfold u8_at, sub. change (Z.to_nat 1) with 1%nat.
  destruct (nth_lookup_or_length l (Z.to_nat off) 0) as [H|H].
  - by rewrite (drop_S _ _ _ H).
  - rewrite drop_ge by done. by apply nth_overflow.
Qed.

Lemma sub_ext (m m' : list Z) off n a k :
  sub m off n = sub m' off n -> 0 <= off <= a -> 0 <= k -> a + k <= off + n -> sub m a k = sub m' a k.
Proof.
  intros H ? ? ?. pose proof (sub_sub m off n (a - off) k) as E1.
  pose proof (sub_sub m' off n (a - off) k) as E2. rewrite H in E1.
  replace (off + (a - off)) with a in * by lia. rewrite <- E1, <- E2 by lia. done.
Qed.

Record header_fit (h : ListHeader) : Prop := {
  hf_signature : 0 <= lh_signature h <= u32_max;
  hf_used : 0 <= lh_used_size h <= u32_max;
  hf_max : 0 <= lh_max_size h <= u32_max;
  hf_flags : 0 <= lh_flags h <= u32_max;
  hf_reserved : 0 <= lh_reserved h <= u32_max
}.

Lemma read_header_ext m m' : sub m 0 24 = sub m' 0 24 -> read_header m = read_header m'.
Proof.
  intros H. unfold read_header, u32_at, le_at. rewrite !u8_at_alt.
  by rewrite !(sub_ext m m' 0 24 _ _ H) by lia.
Qed.

Lemma zlen_header_bytes h : zlen (header_bytes h) = 24.
Proof. unfold header_bytes. rewrite !zlen_app, !zlen_le_enc. reflexivity. Qed.

Lemma zlen_write_header m h : 24 <= zlen m -> zlen (write_header m h) = zlen m.
Proof. intros. apply zlen_upd; rewrite ?zlen_header_bytes; lia. Qed.

Lemma sub_write_header m h a n :
  24 <= zlen m -> 24 <= a -> 0 <= n -> sub (write_header m h) a n = sub m a n.
Proof. intros. apply sub_upd_other; rewrite ?zlen_header_bytes; lia. Qed.

Lemma read_write_header m h :
  24 <= zlen m -> header_fit h -> read_header (write_header m h) = h.
Proof.
  intros Hm [? ? ? ? ?]. unfold u32_max in *.
  set (ps := [le_enc 4 (lh_signature h); [lh_checksum h]; [lh_version h]; [lh_header_size h];
              [lh_alignment h]; le_enc 4 (lh_used_size h); le_enc 4 (lh_max_size h);
              le_enc 4 (lh_flags h); le_enc 4 (lh_reserved h)]).
  assert (Hps : sub (write_header m h) 0 24 = concat ps).
  { rewrite <- (zlen_header_bytes h) at 1. unfold write_header.
    rewrite sub_upd_same by (rewrite ?zlen_header_bytes; lia).
    unfold ps, header_bytes. cbn [concat]. by rewrite app_nil_r. }
  assert (Hf : forall i p a k, ps !! i = Some p -> a = sum_len (take i ps) -> k = zlen p ->
    a + k <= 24 -> sub (write_header m h) a k = p).
  { intros i p a k Hi Ha Hk Hle. pose proof (zlen_nonneg p).
    pose proof (sum_len_nonneg (take i ps)). rewrite <- (sub_prefix _ 24 a k) by lia.
    rewrite Hps. by apply (sub_concat i). }
  unfold read_header, u32_at.
  rewrite (u8_at_sub _ 4 (lh_checksum h)) by (by apply (Hf 1%nat)).
  rewrite (u8_at_sub _ 5 (lh_version h)) by (by apply (Hf 2%nat)).
  rewrite (u8_at_sub _ 6 (lh_header_size h)) by (by apply (Hf 3%nat)).
  rewrite (u8_at_sub _ 7 (lh_alignment h)) by (by apply (Hf 4%nat)).
  rewrite (le_at_enc _ 0 4 (lh_signature h)) by ((by apply (Hf 0%nat)) || lia).
  rewrite (le_at_enc _ 8 4 (lh_used_size h)) by ((by apply (Hf 5%nat)) || lia).
  rewrite (le_at_enc _ 12 4 (lh_max_size h)) by ((by apply (Hf 6%nat)) || lia).
  rewrite (le_at_enc _ 16 4 (lh_flags h)) by ((by apply (Hf 7%nat)) || lia).
  rewrite (le_at_enc _ 20 4 (lh_reserved h)) by ((by apply (Hf 8%nat)) || lia).
  by destruct h.
Qed.

(** ** The abstract store *)

(** Where the footprint of an entry ends. *)
Definition e_end (e : Entry) : Z := e_offset e + next_multiple_of (e_size e) GRANULE.

(** An entry header at [off] that describes [e], inside the used size. *)
Record entry_in (m : list Z) (off : Z) (e : Entry) : Prop := {
  ei_aligned : off mod GRANULE = 0;
  ei_header : off + ENTRY_HEADER_SIZE <= used m;
  ei_tag : e_tag e = le_at m off 3;
  ei_offset : e_offset e = off + u8_at m (off + 3);
  ei_header_size : ENTRY_HEADER_SIZE <= u8_at m (off + 3) /\ u8_at m (off + 3) mod GRANULE = 0;
  ei_size : e_size e = u32_at m (off + 4);
  ei_end : e_end e <= used m
}.

(** [es] are the entries from [off] to the used size, padding included. *)
Inductive chain (m : list Z) : Z -> list Entry -> Prop :=
| chain_nil : chain m (used m) []
| chain_cons off e es : entry_in m off e -> chain m (e_end e) es -> chain m off (e :: es).

(** What [open] establishes and every operation keeps: the store at [s] holds
    the entries [es]. *)
Record store_inv {T : Target} (s : Store) (es : list Entry) : Prop := {
  si_bytes : bytes_ok (st_mem s);
  si_base : st_base s mod GRANULE = 0;
  si_signature : lh_signature (read_header (st_mem s)) = SIGNATURE;
  si_version : lh_version (read_header (st_mem s)) = VERSION;
  si_header_size : HEADER_SIZE <= lh_header_size (read_header (st_mem s)) /\
                   lh_header_size (read_header (st_mem s)) mod GRANULE = 0;
  si_used : lh_header_size (read_header (st_mem s)) <= used (st_mem s) /\
            used (st_mem s) mod GRANULE = 0;
  si_max : used (st_mem s) <= max_size (st_mem s) /\ max_size (st_mem s) <= zlen (st_mem s);
  si_alignment : lh_alignment (read_header (st_mem s)) < usize_bits /\
                 st_base s mod 2 ^ lh_alignment (read_header (st_mem s)) = 0;
  si_chain : chain (st_mem s) (lh_header_size (read_header (st_mem s))) es
}.

Lemma nmo8_bounds n : 0 <= n -> n <= next_multiple_of n GRANULE < n + 8 /\ next_multiple_of n GRANULE mod 8 = 0.
Proof. intros. unfold GRANULE. pose proof (next_multiple_of_spec n 8). lia. Qed.

Section facts.
Context {T : Target}.

Lemma u8_at_range m off : bytes_ok m -> 0 <= u8_at m off < 256.
Proof.
  intros Hm. unfold u8_at. destruct (nth_lookup_or_length m (Z.to_nat off) 0) as [H|H].
  - by apply (Forall_lookup_1 _ _ _ _ Hm) in H.
  - rewrite nth_overflow by done. lia.
Qed.

Lemma le_at_range m off n : bytes_ok m -> 0 <= n -> 0 <= le_at m off n < 256 ^ n.
Proof.
  intros Hm Hn. unfold le_at. pose proof (le_dec_bound (sub m off n) (bytes_ok_sub _ _ _ Hm)) as Hb.
  split; [lia|]. eapply Z.lt_le_trans; [apply Hb|]. apply Z.pow_le_mono_r; [lia|].
  unfold zlen, sub. rewrite length_take. lia.
Qed.

Lemma used_range m : bytes_ok m -> 0 <= used m <= u32_max.
Proof. intros Hm. pose proof (le_at_range m 8 4 Hm). unfold used, u32_max, read_header, u32_at. simpl. lia. Qed.

Lemma max_range m : bytes_ok m -> 0 <= max_size m <= u32_max.
Proof. intros Hm. pose proof (le_at_range m 12 4 Hm). unfold max_size, u32_max, read_header, u32_at. simpl. lia. Qed.

Lemma usize_next_multiple_of_ok {E} n m :
  next_multiple_of n m <= usize_max -> @usize_next_multiple_of T E n m = Ok (next_multiple_of n m).
Proof. intros. unfold usize_next_multiple_of. by rewrite try_from_ok. Qed.

Lemma usize_next_multiple_of_Ok {E} n m k :
  @usize_next_multiple_of T E n m = Ok k -> k = next_multiple_of n m /\ k <= usize_max.
Proof. unfold usize_next_multiple_of. rewrite or_panic_Ok, try_from_Some. intros [-> ?]. done. Qed.

Lemma entry_at_Ok m off e :
  bytes_ok m -> 0 <= off -> entry_at m off = Ok e <-> entry_in m off e.
Proof.
  intros Hm Ho. pose proof (used_range m Hm) as Hu. pose proof usize_max_bounds as Hx.
  pose proof (u8_at_range m (off + 3) Hm) as Hh. pose proof (le_at_range m (off + 4) 4 Hm) as Hs.
  change (le_at m (off + 4) 4) with (u32_at m (off + 4)) in Hs.
  pose proof (nmo8_bounds (u32_at m (off + 4))) as Hn.
  unfold entry_at, ENTRY_HEADER_SIZE. split.
  - intros H. rust_step H. apply rbind_Ok in H as (he & Hhe & H). rewrite ok_or_Ok, checked_add_Some in Hhe.
    do 2 rust_step H. apply rbind_Ok in H as (data & Hd & H). rewrite ok_or_Ok, checked_add_Some in Hd.
    apply rbind_Ok in H as (p & [-> _]%usize_next_multiple_of_Ok & H).
    apply rbind_Ok in H as (en & Hen & H). rewrite ok_or_Ok, checked_add_Some in Hen.
    rust_step H. bool_hyp. injection H as <-. destruct_and!. subst. simpl in *.
    match goal with X : is_multiple_of off _ = true |- _ => apply is_multiple_of_spec in X end.
    match goal with X : is_multiple_of (u8_at _ _) _ = true |- _ => apply is_multiple_of_spec in X end.
    constructor; unfold e_end, ENTRY_HEADER_SIZE; simpl; (done || lia).
  - intros [Ha Hhd Ht Hof [Hs1 Hs2] Hsz Hend]. unfold e_end, ENTRY_HEADER_SIZE in *.
    rewrite (proj2 (is_multiple_of_spec off GRANULE)) by done. simpl.
    rewrite checked_add_ok by lia. simpl. guard_false.
    rewrite (proj2 (is_multiple_of_spec _ _)) by done. simpl. rewrite orb_false_r. guard_false.
    rewrite Hof, Hsz in Hend. rewrite checked_add_ok by lia. simpl.
    rewrite usize_next_multiple_of_ok by lia. simpl. rewrite checked_add_ok by lia. simpl. guard_false.
    rewrite <- Ht, <- Hof, <- Hsz. by destruct e.
Qed.

Lemma entry_end_Ok {E} e : 0 <= e_offset e -> 0 <= e_size e -> e_end e <= usize_max -> @entry_end T E e = Ok (e_end e).
Proof.
  intros Ho Hs He. pose proof (nmo8_bounds (e_size e) Hs). unfold entry_end, e_end in *.
  rewrite usize_next_multiple_of_ok by lia. simpl. unfold add_or_panic. by rewrite checked_add_ok by lia.
Qed.

(** An entry takes room and ends on an entry boundary. *)
Lemma entry_in_end m off e :
  bytes_ok m -> 0 <= off -> entry_in m off e ->
  off + 8 <= e_offset e /\ 0 <= e_size e /\ e_offset e + e_size e <= e_end e /\
  e_offset e <= e_end e <= used m /\ e_end e mod 8 = 0.
Proof.
  intros Hm Ho [Ha Hh Ht Hof [Hs1 Hs2] Hsz Hend]. unfold ENTRY_HEADER_SIZE, GRANULE in *.
  pose proof (le_at_range m (off + 4) 4 Hm) as Hr. change (le_at m (off + 4) 4) with (u32_at m (off + 4)) in Hr.
  rewrite <- Hsz in Hr. pose proof (nmo8_bounds (e_size e)) as Hn. unfold e_end, GRANULE in *.
  split_and!; try lia. rewrite Z.add_mod by lia. destruct Hn as [_ Hn]; [lia|]. rewrite Hn, Hof.
  rewrite (Z.add_mod off) by lia. by rewrite Ha, Hs2.
Qed.
End facts.

(** ** Walking the chain *)

Definition nonvoid (es : list Entry) : list Entry := filter (fun e => e_tag e <> VOID) es.

Section walk.
Context {T : Target}.

Lemma open_walk_chain fuel m off o :
  bytes_ok m -> 0 <= off -> open_walk fuel m off = Ok o -> o = used m -> exists es, chain m off es.
Proof.
  intros Hm. revert off. induction fuel as [|fuel IH]; intros off Ho H Hu; [done|]. simpl in H.
  destruct (Z.ltb_spec off (used m)).
  - apply rbind_Ok in H as (e & He & H). rewrite map_err_Ok in He.
    apply entry_at_Ok in He; [|done..]. pose proof (entry_in_end _ _ _ Hm Ho He) as (? & ? & ? & ? & ?).
    pose proof (used_range m Hm). pose proof usize_max_bounds.
    rewrite entry_end_Ok in H by lia. simpl in H. apply IH in H as [es Hes]; [|lia|done].
    exists (e :: es). by constructor.
  - injection H as <-. rewrite Hu. exists []. constructor.
Qed.

(** Each step of a walk costs one unit of fuel and at least 8 bytes. *)
Lemma chain_open_walk fuel m off es :
  bytes_ok m -> 0 <= off -> chain m off es -> used m - off < Z.of_nat fuel ->
  open_walk fuel m off = Ok (used m).
Proof.
  intros Hm Ho Hc. revert fuel Ho. induction Hc as [|off e es He Hc IH]; intros fuel Ho Hf.
  - destruct fuel; [lia|]. simpl. by rewrite Z.ltb_irrefl.
  - pose proof (entry_in_end _ _ _ Hm Ho He) as (? & ? & ? & ? & ?).
    pose proof (used_range m Hm). pose proof usize_max_bounds.
    destruct fuel as [|fuel]; [lia|]. simpl. guard_true.
    rewrite (proj2 (entry_at_Ok m off e Hm Ho)) by done. simpl.
    rewrite entry_end_Ok by lia. simpl. apply IH; lia.
Qed.

Lemma chain_entries fuel m off es :
  bytes_ok m -> 0 <= off -> chain m off es -> used m - off < Z.of_nat fuel ->
  entries_from fuel m off = Ok (nonvoid es).
Proof.
  intros Hm Ho Hc. revert fuel Ho. induction Hc as [|off e es He Hc IH]; intros fuel Ho Hf.
  - destruct fuel; [lia|]. simpl. by rewrite Z.ltb_irrefl.
  - pose proof (entry_in_end _ _ _ Hm Ho He) as (? & ? & ? & ? & ?).
    pose proof (used_range m Hm). pose proof usize_max_bounds.
    destruct fuel as [|fuel]; [lia|]. simpl. guard_true.
    rewrite (proj2 (entry_at_Ok m off e Hm Ho)) by done. simpl.
    rewrite entry_end_Ok by lia. simpl. rewrite IH by lia. simpl.
    unfold nonvoid. rewrite filter_cons. destruct (Z.eqb_spec (e_tag e) VOID).
    + by rewrite decide_False by (intros Hne; by apply Hne).
    + by rewrite decide_True.
Qed.

Lemma chain_start_le m off es : bytes_ok m -> 0 <= off -> chain m off es -> off <= used m.
Proof.
  intros Hm Ho Hc. destruct Hc as [|off e es He Hc]; [lia|].
  pose proof (entry_in_end _ _ _ Hm Ho He). lia.
Qed.

(** The entries of a chain lie one after the other below the used size. *)
Lemma chain_sorted m off es i e :
  bytes_ok m -> 0 <= off -> chain m off es -> es !! i = Some e ->
  off + 8 <= e_offset e /\ 0 <= e_size e /\ e_offset e + e_size e <= e_end e <= used m /\
  (forall j e', (i < j)%nat -> es !! j = Some e' -> e_end e + 8 <= e_offset e').
Proof.
  intros Hm Ho Hc. revert i e Ho. induction Hc as [|off e0 es He Hc IH]; intros i e Ho Hi; [done|].
  pose proof (entry_in_end _ _ _ Hm Ho He) as (? & ? & ? & ? & ?).
  destruct i as [|i]; simplify_eq/=.
  - split_and!; try lia. intros [|j] e' Hj Hl; [lia|]. simpl in Hl.
    apply IH in Hl; lia.
  - apply IH in Hi as (? & ? & ? & Hs); [|lia]. split_and!; try lia.
    intros [|j] e' Hj Hl; [lia|]. simpl in Hl. eapply Hs; [|done]. lia.
Qed.

Lemma entries_inv s es : store_inv s es -> entries s = Ok (nonvoid es).
Proof.
  intros [Hb _ _ _ [? ?] [? ?] [? ?] _ Hc]. unfold entries, HEADER_SIZE in *.
  apply chain_entries; [done | lia | done | unfold zlen in *; lia].
Qed.

Lemma find_inv s es tag :
  store_inv s es -> find s tag = Ok (snd <$> list_find (fun e => e_tag e = tag) (nonvoid es)).
Proof. intros Hi. unfold find. by rewrite (entries_inv s es Hi). Qed.
End walk.

(** The checksum is right where the header asks for one. *)
Definition checksum_ok (m : list Z) : Prop :=
  Z.land (lh_flags (read_header m)) FLAG_HAS_CHECKSUM <> 0 -> wrapping_sum (sub m 0 (used m)) = 0.

Lemma land_mask_mod b k : 0 <= k -> Z.land b (Z.shiftl 1 k - 1) = b mod 2 ^ k.
Proof.
  intros. rewrite Z.shiftl_1_l. replace (2 ^ k - 1) with (Z.ones k) by (rewrite Z.ones_equiv; lia).
  by apply Z.land_ones.
Qed.

(** A window that holds a store is accepted. *)
Lemma open_accepts {T : Target} s es :
  store_inv s es -> checksum_ok (st_mem s) -> open (st_base s) (st_mem s) = Ok s.
Proof.
  intros [Hm Hb Hsig Hver [Hh1 Hh2] [Hu1 Hu2] [Hm1 Hm2] [Ha1 Ha2] Hc] Hck. destruct s as [base m].
  cbn [st_base st_mem] in *. pose proof (u8_at_range m 7 Hm) as Hal.
  unfold open, checked_shl_one, checksum_ok, HEADER_SIZE in *.
  cbn [st_base st_mem] in *. rewrite (proj2 (is_multiple_of_spec _ _)) by done. cbn [negb]. guard_false.
  unfold used, max_size in *. cbv zeta.
  rewrite Hsig, Hver, !Z.eqb_refl, (proj2 (is_multiple_of_spec _ _)), (proj2 (Z.eqb_eq _ 0) Hu2) by done.
  cbn [negb orb]. rewrite !orb_false_r. do 2 guard_false. guard_true. cbn [ok_or rbind].
  rewrite land_mask_mod, Ha2, Z.eqb_refl by (simpl; lia). cbn [negb].
  match goal with |- context [if ?b then Err Invalid else _] => assert (b = false) as -> end.
  { destruct (Z.eqb_spec (Z.land (lh_flags (read_header m)) FLAG_HAS_CHECKSUM) 0); [done|].
    by rewrite Hck. }
  rewrite (chain_open_walk _ _ _ es) by (done || unfold used, HEADER_SIZE, zlen in *; lia).
  cbn [rbind]. by rewrite Z.eqb_refl.
Qed.

(** [open] accepts exactly the windows that hold a transfer list: it
    returns the store, unchanged, when the header is valid and fits the window,
    the base honours the recorded alignment, the checksum (if flagged) is right
    and the entries run from the header to exactly the used size. *)
Theorem open_iff {T : Target} base m s :
  bytes_ok m -> 0 <= base ->
  open base m = Ok s <->
    s = {| st_base := base; st_mem := m |} /\ checksum_ok m /\
    exists es, store_inv s es.
Proof.
  intros Hm Hbase. pose proof (used_range m Hm) as Hu. pose proof (u8_at_range m 7 Hm) as Hal.
  pose proof (max_range m Hm) as Hmx.
  unfold open, checked_shl_one, checksum_ok. split.
  - intros H. do 4 rust_step H. apply rbind_Ok in H as (a & Ha & H). do 2 rust_step H.
    apply rbind_Ok in H as (o & Hw & H). rust_step H. injection H as <-.
    rewrite ok_or_Ok in Ha. destruct (Z.ltb_spec (lh_alignment (read_header m)) usize_bits); [|done].
    injection Ha as <-. bool_hyp. rewrite !is_multiple_of_spec in *. unfold HEADER_SIZE in *.
    match goal with X : Z.land base _ = 0 |- _ => rewrite land_mask_mod in X by (simpl; lia) end.
    apply open_walk_chain in Hw as [es Hes]; [|done|lia|done].
    split_and!; [done | |].
    + intros Hf. match goal with X : _ \/ _ |- _ => destruct X; bool_hyp; done end.
    + exists es. constructor; simpl; try done; unfold max_size, used in *; simpl in *; (done || lia).
  - intros (-> & Hck & es & Hi). by apply (open_accepts {| st_base := base; st_mem := m |} es).
Qed.

(** ** Appending *)

Definition entry_header_bytes (tag size : Z) : list Z := le_enc 3 tag ++ [8] ++ le_enc 4 size.

Lemma zlen_entry_header_bytes tag size : zlen (entry_header_bytes tag size) = 8.
Proof. unfold entry_header_bytes. rewrite !zlen_app, !zlen_le_enc. reflexivity. Qed.

Lemma bytes_ok_entry_header tag size : bytes_ok (entry_header_bytes tag size).
Proof.
  unfold entry_header_bytes. rewrite !bytes_ok_app. split_and!; [apply bytes_ok_le_enc | |apply bytes_ok_le_enc].
  repeat constructor; unfold byte_ok; lia.
Qed.

Lemma write_entry_header_eq m off tag size :
  0 <= size <= u32_max -> write_entry_header m off tag size = upd m off (entry_header_bytes tag size).
Proof. intros. unfold write_entry_header, u32_max in *. by rewrite Z.mod_small by lia. Qed.

Lemma entry_of_bytes m off tag size :
  0 <= off -> off mod 8 = 0 -> 0 <= tag < 2 ^ 24 -> 0 <= size <= u32_max ->
  sub m off 8 = entry_header_bytes tag size ->
  off + 8 + next_multiple_of size GRANULE <= used m ->
  entry_in m off {| e_tag := tag; e_offset := off + 8; e_size := size |}.
Proof.
  intros Ho Ha Ht Hs Hb Hend. unfold u32_max in *. pose proof (nmo8_bounds size).
  set (ps := [le_enc 3 tag; [8]; le_enc 4 size]).
  assert (Hps : sub m off 8 = concat ps) by (rewrite Hb; unfold ps; cbn [concat]; by rewrite app_nil_r).
  assert (Hf : forall i p a k, ps !! i = Some p -> a = sum_len (take i ps) -> k = zlen p ->
    a + k <= 8 -> sub m (off + a) k = p).
  { intros i p a k Hi E1 E2 Hle. pose proof (zlen_nonneg p). pose proof (sum_len_nonneg (take i ps)).
    rewrite <- (sub_sub m off 8 a k) by lia. rewrite Hps. by apply (sub_concat i). }
  assert (H8 : u8_at m (off + 3) = 8) by (apply u8_at_sub; by apply (Hf 1%nat)).
  constructor; unfold e_end, ENTRY_HEADER_SIZE; simpl; rewrite ?H8; try (done || lia).
  - symmetry. apply le_at_enc; [lia | | lia]. rewrite <- (Z.add_0_r off). by apply (Hf 0%nat).
  - symmetry. apply le_at_enc; [lia | | lia]. by apply (Hf 2%nat).
Qed.

Lemma entry_in_mono m m' off e :
  0 <= off -> used m <= used m' -> sub m' off 8 = sub m off 8 -> entry_in m off e -> entry_in m' off e.
Proof.
  intros Ho Hu Hs [Ha Hh Ht Hof Hhs Hsz Hend]. unfold ENTRY_HEADER_SIZE in *.
  assert (Hx : forall a k, off <= a -> 0 <= k -> a + k <= off + 8 -> sub m' a k = sub m a k)
    by (intros; apply (sub_ext m' m off 8); (done || lia)).
  assert (H8 : u8_at m' (off + 3) = u8_at m (off + 3)) by (rewrite !u8_at_alt, Hx by lia; done).
  unfold u32_at, le_at in *. rewrite <- !Hx in * by lia. rewrite <- H8 in *.
  constructor; unfold ENTRY_HEADER_SIZE, u32_at, le_at; (done || lia).
Qed.

(** Growing a store past its used size keeps the entries it has. *)
Lemma chain_extend m m' off es tail :
  bytes_ok m -> 24 <= off -> used m <= used m' ->
  (forall a n, 24 <= a -> 0 <= n -> a + n <= used m -> sub m' a n = sub m a n) ->
  chain m off es -> chain m' (used m) tail -> chain m' off (es ++ tail).
Proof.
  intros Hm Ho Hu Hs Hc Ht. revert Ho. induction Hc as [|off e es He Hc IH]; intros Ho; [done|].
  pose proof (entry_in_end m off e Hm ltac:(lia) He) as (? & ? & ? & ? & ?). simpl. constructor.
  - eapply entry_in_mono; [lia | done | | done]. apply Hs; [lia | lia |]. apply He.
  - apply IH. lia.
Qed.

Section grow.
Context {T : Target}.

Definition is_pow2_align (align : Z) : Prop := exists k, 3 <= k < usize_bits /\ align = 2 ^ k.

Lemma bits_ge_32 : 32 <= usize_bits <= 64.
Proof. destruct usize_bits_ok; lia. Qed.

(** The alignment [add] computes. *)
Lemma add_align n a :
  0 <= n -> checked_shl_one n = Some a -> is_pow2_align (Z.max a GRANULE) /\ (Z.max a GRANULE) mod 2 ^ n = 0.
Proof.
  intros Hn. unfold checked_shl_one. case_match eqn:E; [|done]. intros [= <-]. bool_hyp.
  rewrite Z.shiftl_1_l. unfold GRANULE. pose proof bits_ge_32.
  destruct (Z.le_gt_cases 3 n) as [H3|H3].
  - assert (8 <= 2 ^ n) by (change 8 with (2 ^ 3); apply Z.pow_le_mono_r; lia).
    rewrite Z.max_l by lia. split; [by exists n|]. apply Z.mod_same. lia.
  - assert (2 ^ n < 8) by (change 8 with (2 ^ 3); apply Z.pow_lt_mono_r; lia).
    rewrite Z.max_r by lia. split; [exists 3; split; [lia|done]|].
    assert (n = 0 \/ n = 1 \/ n = 2) as [-> | [-> | ->]] by lia; reflexivity.
Qed.

(** A multiple of a power of two is a multiple of every smaller one. *)
Lemma mod_pow2_le x j k : 0 <= j <= k -> x mod 2 ^ k = 0 -> x mod 2 ^ j = 0.
Proof.
  intros Hj Hx. pose proof (Z.pow_pos_nonneg 2 k). pose proof (Z.pow_pos_nonneg 2 j).
  apply Z.mod_divide in Hx as [q ->]; [|lia]. replace k with ((k - j) + j) by lia.
  rewrite Z.pow_add_r, Z.mul_assoc by lia. apply Z.mod_mul. lia.
Qed.

Lemma header_fit_read m : bytes_ok m -> header_fit (read_header m).
Proof.
  intros Hm. assert (H : forall off, 0 <= u32_at m off <= u32_max).
  { intros off. pose proof (le_at_range m off 4 Hm). unfold u32_at, u32_max. lia. }
  constructor; apply H.
Qed.

Lemma bytes_ok_header m h :
  bytes_ok m -> 0 <= lh_checksum h < 256 -> 0 <= lh_version h < 256 -> 0 <= lh_header_size h < 256 ->
  0 <= lh_alignment h < 256 -> bytes_ok (write_header m h).
Proof.
  intros. apply bytes_ok_upd; [done|]. unfold header_bytes. rewrite !bytes_ok_app.
  split_and!; try apply bytes_ok_le_enc. repeat constructor; unfold byte_ok; lia.
Qed.

Lemma used_write_header m h :
  24 <= zlen m -> header_fit h -> used (write_header m h) = lh_used_size h.
Proof. intros. unfold used. by rewrite read_write_header. Qed.

Lemma header_fit_edit m end_ al :
  bytes_ok m -> 0 <= end_ <= u32_max -> header_fit (set_alignment (set_used (read_header m) end_) al).
Proof.
  intros Hb He. destruct (header_fit_read m Hb). constructor; cbn; try done.
  unfold u32_max in *. rewrite Z.mod_small; lia.
Qed.

(** Common core of [add] and [resize_last]: an edit that leaves the header's
    other fields and the bytes below [lo] alone and ends the list at [end_]
    gives a well-formed store again. *)
Lemma edit_inv s es pre tail m2 al end_ :
  store_inv s es -> 0 <= end_ -> end_ mod 8 = 0 ->
  lh_header_size (read_header (st_mem s)) <= end_ <= max_size (st_mem s) ->
  bytes_ok m2 -> zlen m2 = zlen (st_mem s) -> read_header m2 = read_header (st_mem s) ->
  0 <= al < usize_bits -> st_base s mod 2 ^ al = 0 ->
  let m' := write_header m2 (set_alignment (set_used (read_header m2) end_) al) in
  chain m' (lh_header_size (read_header (st_mem s))) (pre ++ tail) ->
  store_inv {| st_base := st_base s; st_mem := m' |} (pre ++ tail).
Proof.
  intros [Hb Hbase Hsig Hver [Hh1 Hh2] [Hu1 Hu2] [Hm1 Hm2] [Ha1 Ha2] Hc] H0 He8 Hend Hb2 Hz Hr Hal Hbal m' Hch.
  pose proof bits_ge_32. pose proof (max_range _ Hb). unfold HEADER_SIZE, u32_max in *.
  pose proof (header_fit_read _ Hb) as [? ? ? ? ?].
  assert (Hfit : header_fit (set_alignment (set_used (read_header m2) end_) al))
    by (apply header_fit_edit; [done | unfold u32_max; lia]).
  assert (Hread : read_header m' = set_alignment (set_used (read_header m2) end_) al)
    by (apply read_write_header; [lia | done]).
  assert (Hlen : zlen m' = zlen (st_mem s)) by (unfold m'; rewrite zlen_write_header; lia).
  assert (Hused : used m' = end_) by (unfold used; rewrite Hread; cbn; apply Z.mod_small; lia).
  constructor; cbn [st_base st_mem]; rewrite ?Hread, ?Hr; cbn [lh_signature lh_version lh_header_size
    lh_alignment set_alignment set_used]; try done.
  - assert (Hu8 : forall off, 0 <= u8_at m2 off < 256) by (intros; by apply u8_at_range).
    apply bytes_ok_header; cbn; (apply Hu8 || lia || done).
  - rewrite Hused. unfold GRANULE. lia.
  - assert (Hmax : max_size m' = max_size (st_mem s)) by (unfold max_size; by rewrite Hread, Hr).
    lia.
  - split; [lia | done].
Qed.
End grow.

Section add.
Context {T : Target}.

(** The bytes a successful [add] writes before the list header. *)
Definition add_writes (m : list Z) (padded tag size : Z) : list Z :=
  let padding := padded - (used m + 8) in
  let m1 := if padding =? 0 then m else upd m (used m) (entry_header_bytes VOID (padding - 8)) in
  upd m1 (padded - 8) (entry_header_bytes tag size).

Record add_plan (s : Store) (tag size al align : Z) (e : Entry) : Prop := {
  ap_tag : 0 < tag < 2 ^ 24;
  ap_size : size <= u32_max;
  ap_align : exists a, checked_shl_one al = Some a /\ align = Z.max a GRANULE;
  ap_base : st_base s mod align = 0;
  ap_entry : e = {| e_tag := tag; e_offset := next_multiple_of (used (st_mem s) + 8) align; e_size := size |};
  ap_fits : e_end e <= max_size (st_mem s)
}.

Lemma add_Ok_inv s es tag size al s' e :
  store_inv s es -> 0 <= size -> 0 <= tag -> 0 <= al -> add tag size al s = (s', Ok e) ->
  exists align, add_plan s tag size al align e /\
    let m2 := add_writes (st_mem s) (e_offset e) tag size in
    s' = {| st_base := st_base s;
            st_mem := write_header m2
              (set_alignment (set_used (read_header m2) (e_end e))
                 (Z.max (lh_alignment (read_header m2)) (Z.log2 align))) |}.
Proof.
  intros Hi Hsz Htag Hal H. unfold add in H.
  match type of H with match ?r with _ => _ end = _ => destruct r as [[m' e']|err|] eqn:Hr end;
    simplify_eq/=.
  do 1 rust_step Hr. apply rbind_Ok in Hr as (a & Ha & Hr). rewrite ok_or_Ok in Ha.
  rust_step Hr. apply rbind_Ok in Hr as (unp & Hunp & Hr).
  apply or_panic_Ok, checked_add_Some in Hunp as [-> _].
  apply rbind_Ok in Hr as (padded & [-> _]%usize_next_multiple_of_Ok & Hr).
  apply rbind_Ok in Hr as (ds & Hds & Hr). rewrite ok_or_Ok, try_from_Some in Hds. destruct Hds as [-> Hds].
  apply rbind_Ok in Hr as (rounded & [-> _]%usize_next_multiple_of_Ok & Hr).
  apply rbind_Ok in Hr as (en & Hen & Hr). rewrite ok_or_Ok, checked_add_Some in Hen. destruct Hen as [-> _].
  rust_step Hr. apply rbind_Ok in Hr as (m1 & Hm1 & [= <- <-]).
  bool_hyp. rewrite is_multiple_of_spec in *. unfold ENTRY_HEADER_SIZE, VOID in *.
  destruct (add_align al a Hal Ha) as [(k & Hk & Hpow) _].
  set (align := Z.max a GRANULE) in *. set (padded := next_multiple_of (used (st_mem s) + 8) align) in *.
  replace (used (st_mem s) + (padded - (used (st_mem s) + 8)) + 8) with padded in * by lia.
  exists align. split.
  { constructor; unfold e_end; simpl; try (done || lia). by exists a. }
  cbv zeta. cbn [e_offset]. f_equal. unfold e_end. cbn [e_offset e_size].
  assert (Hw : write_entry_header m1 (padded - 8) tag size = add_writes (st_mem s) padded tag size).
  { rewrite write_entry_header_eq by (unfold u32_max in *; lia). unfold add_writes. f_equal.
    pose proof (used_range _ (si_bytes _ _ Hi)). pose proof (max_range _ (si_bytes _ _ Hi)).
    destruct (Z.eqb_spec (padded - (used (st_mem s) + 8)) 0); [by injection Hm1|].
    apply rbind_Ok in Hm1 as (v & Hv & [= <-]). apply or_panic_Ok, checked_sub_Some in Hv as [-> Hv].
    pose proof (nmo8_bounds size Hsz). unfold u32_max in *. rewrite write_entry_header_eq; [done|].
    unfold u32_max. lia. }
  by rewrite Hw.
Qed.

(** The geometry of an [add]: padding and entry lie between the old used size
    and the maximum, on entry boundaries. *)
Lemma add_geometry s es tag size al align e :
  store_inv s es -> 0 <= size -> 0 <= al -> add_plan s tag size al align e ->
  let m := st_mem s in
  24 <= used m /\ used m mod 8 = 0 /\ e_offset e mod 8 = 0 /\ e_offset e mod 2 ^ al = 0 /\
  used m + 8 <= e_offset e <= e_end e /\ e_end e mod 8 = 0 /\ e_end e <= zlen m /\
  (e_offset e = used m + 8 \/ used m + 16 <= e_offset e) /\ e_end e <= u32_max.
Proof.
  intros Hi Hs Hal [Htag Hsz (a & Ha & ->) Hb -> Hfit]. cbv zeta. destruct (add_align al a Hal Ha) as [(k & Hk & Hp) Hm].
  destruct Hi as [Hbo _ _ _ [? ?] [? Hu8] [? ?] _ _]. pose proof (max_range _ Hbo).
  unfold HEADER_SIZE, GRANULE in *. unfold e_end in *. cbn [e_offset e_size] in *.
  set (u := used (st_mem s)) in *. set (al' := Z.max a 8) in *.
  assert (Hpos : 0 < al') by (unfold al'; lia).
  destruct (next_multiple_of_spec (u + 8) al' Hpos) as [Hp1 Hp2].
  set (p := next_multiple_of (u + 8) al') in *.
  assert (Hp8 : p mod 8 = 0).
  { change 8 with (2 ^ 3). apply (mod_pow2_le p 3 k); [lia|]. by rewrite <- Hp. }
  assert (Hpa : p mod 2 ^ al = 0).
  { pose proof (Z.pow_pos_nonneg 2 al). apply Z.mod_divide; [lia|]. etrans.
    - apply Z.mod_divide; [lia | exact Hm].
    - apply Z.mod_divide; [lia | exact Hp2]. }
  destruct (nmo8_bounds size Hs) as [Hn1 Hn2]. unfold GRANULE in *.
  apply Z.mod_divide in Hu8 as [uq Hu8]; [|lia]. apply Z.mod_divide in Hp8 as [pq Hp8]; [|lia].
  apply Z.mod_divide in Hn2 as [nq Hn2]; [|lia].
  split_and!; try lia; try done.
  - rewrite Hu8. apply Z.mod_mul. lia.
  - rewrite Hp8. apply Z.mod_mul. lia.
  - rewrite Hp8, Hn2, <- Z.mul_add_distr_r. apply Z.mod_mul. lia.
Qed.

(** What the writes leave alone and what they write. *)
Lemma add_writes_spec m p tag size :
  bytes_ok m -> 24 <= used m -> used m + 8 <= p <= zlen m ->
  (p = used m + 8 \/ used m + 16 <= p) ->
  let m2 := add_writes m p tag size in
  zlen m2 = zlen m /\ bytes_ok m2 /\
  (forall a n, 0 <= a -> 0 <= n -> a + n <= used m -> sub m2 a n = sub m a n) /\
  sub m2 (p - 8) 8 = entry_header_bytes tag size /\
  (p <> used m + 8 -> sub m2 (used m) 8 = entry_header_bytes VOID (p - (used m + 8) - 8)).
Proof.
  intros Hb Hu Hp Hpad. unfold add_writes. cbv zeta.
  set (m1 := if _ =? 0 then m else _).
  assert (Hm1 : zlen m1 = zlen m /\ bytes_ok m1 /\
    (forall a n, 0 <= a -> 0 <= n -> a + n <= used m -> sub m1 a n = sub m a n) /\
    (p <> used m + 8 -> sub m1 (used m) 8 = entry_header_bytes VOID (p - (used m + 8) - 8))).
  { unfold m1. destruct (Z.eqb_spec (p - (used m + 8)) 0).
    - split_and!; try done. lia.
    - set (h := entry_header_bytes _ _). assert (Hh : zlen h = 8) by apply zlen_entry_header_bytes.
      split_and!.
      + apply zlen_upd; lia.
      + apply bytes_ok_upd; [done | apply bytes_ok_entry_header].
      + intros. apply sub_upd_other; lia.
      + intros _. apply sub_upd_at; lia. }
  destruct Hm1 as (Hz & Hb1 & Hs & Hv). set (h := entry_header_bytes tag size).
  assert (Hh : zlen h = 8) by apply zlen_entry_header_bytes. split_and!.
  - rewrite zlen_upd; lia.
  - apply bytes_ok_upd; [done | apply bytes_ok_entry_header].
  - intros. rewrite sub_upd_other by lia. by apply Hs.
  - apply sub_upd_at; lia.
  - intros Hne. rewrite sub_upd_other by lia. by apply Hv.
Qed.

(** The entries a successful [add] appends to the chain. *)
Definition pad_entries (m : list Z) (e : Entry) : list Entry :=
  if e_offset e =? used m + 8 then []
  else [{| e_tag := VOID; e_offset := used m + 8; e_size := e_offset e - (used m + 8) - 8 |}].

Lemma nonvoid_pad m e : nonvoid (pad_entries m e) = [].
Proof. unfold pad_entries. by case_match. Qed.

(** Any memory with the writes of [add] in place has the longer chain. *)
Lemma add_chain s es tag size al align e m' :
  store_inv s es -> 0 <= size -> 0 <= al -> add_plan s tag size al align e ->
  let m2 := add_writes (st_mem s) (e_offset e) tag size in
  (forall a n, 24 <= a -> 0 <= n -> sub m' a n = sub m2 a n) -> used m' = e_end e ->
  chain m' (lh_header_size (read_header (st_mem s))) (es ++ pad_entries (st_mem s) e ++ [e]).
Proof.
  intros Hi Hs Hal Hp m2 Hm' Hu'.
  destruct (add_geometry _ _ _ _ _ _ _ Hi Hs Hal Hp) as (Hu & Hu8 & Ho8 & _ & Ho & He8 & Hez & Hpad & Heu).
  destruct (add_writes_spec (st_mem s) (e_offset e) tag size (si_bytes _ _ Hi) Hu ltac:(lia) Hpad)
    as (Hz2 & Hb2 & Hold & Hnew & Hvoid). fold m2 in Hz2, Hb2, Hold, Hnew, Hvoid.
  destruct Hp as [Htag Hsz _ _ Hent Hfit]. unfold u32_max in *.
  assert (He : entry_in m' (e_offset e - 8) e).
  { assert (Hee : e = {| e_tag := tag; e_offset := e_offset e - 8 + 8; e_size := size |}).
    { rewrite Hent. cbn [e_offset]. f_equal. lia. }
    rewrite Hee at 2. apply entry_of_bytes; try lia.
    - rewrite <- (Z.mod_add _ 1) by lia. by replace (e_offset e - 8 + 1 * 8) with (e_offset e) by lia.
    - unfold u32_max. lia.
    - rewrite Hm' by lia. done.
    - assert (Hes : e_size e = size) by (by rewrite Hent). rewrite Hu'. unfold e_end. rewrite Hes. lia. }
  assert (Htail : chain m' (e_offset e - 8) [e]).
  { apply chain_cons; [done|]. rewrite <- Hu'. constructor. }
  apply chain_extend with (st_mem s); [apply Hi | | lia | | apply Hi |].
  - pose proof (si_header_size _ _ Hi). unfold HEADER_SIZE in *. lia.
  - intros a n ? ? ?. rewrite Hm' by lia. apply Hold; lia.
  - unfold pad_entries. destruct (Z.eqb_spec (e_offset e) (used (st_mem s) + 8)) as [E|E].
    + by replace (used (st_mem s)) with (e_offset e - 8) by lia.
    + set (v := {| e_tag := VOID |}). assert (Hv : e_end v = e_offset e - 8).
      { unfold e_end, v, GRANULE. cbn [e_offset e_size]. rewrite next_multiple_of_id; [lia..|].
        apply Z.mod_divide in Ho8 as [x Hx]; [|lia]. apply Z.mod_divide in Hu8 as [y Hy]; [|lia].
        replace (e_offset e - (used (st_mem s) + 8) - 8) with ((x - y - 2) * 8) by lia.
        apply Z.mod_mul. lia. }
      simpl. apply chain_cons; [|by rewrite Hv]. unfold v.
      apply entry_of_bytes; unfold VOID, u32_max in *; try (done || lia).
      * rewrite Hm' by lia. by apply Hvoid.
      * unfold e_end, v in Hv. cbn [e_offset e_size] in Hv. lia.
Qed.
End add.

(** A failed [add] leaves the store alone. *)
Lemma add_Err {T : Target} s tag size al s' e : add tag size al s = (s', Err e) -> s' = s.
Proof.
  unfold add. lazymatch goal with |- (match ?r with _ => _ end) = _ -> _ => destruct r as [[? ?]|?|] end;
    by intros [=].
Qed.

(** What a successful [add] leaves behind. *)
Lemma add_Ok {T : Target} s es tag size al s' e :
  store_inv s es -> 0 <= size -> 0 <= tag -> 0 <= al -> add tag size al s = (s', Ok e) ->
  (exists pad, store_inv s' (es ++ pad ++ [e]) /\ nonvoid pad = []) /\
  entries s' = Ok (nonvoid es ++ [e]) /\
  e_tag e = tag /\ e_size e = size /\ (st_base s' + e_offset e) mod 2 ^ al = 0 /\
  used (st_mem s) + ENTRY_HEADER_SIZE <= e_offset e /\ e_offset e + size <= used (st_mem s') /\
  (forall a n, HEADER_SIZE <= a -> 0 <= n -> a + n <= used (st_mem s) ->
     sub (st_mem s') a n = sub (st_mem s) a n).
Proof.
  intros Hi Hs Ht Hal H. destruct (add_Ok_inv _ _ _ _ _ _ _ Hi Hs Ht Hal H) as (align & Hp & ->).
  destruct (add_geometry _ _ _ _ _ _ _ Hi Hs Hal Hp) as (Hu & Hu8 & Ho8 & Hoa & Ho & He8 & Hez & Hpad & Heu).
  destruct (add_writes_spec (st_mem s) (e_offset e) tag size (si_bytes _ _ Hi) Hu ltac:(lia) Hpad)
    as (Hz2 & Hb2 & Hold & _ & _).
  set (m2 := add_writes _ _ _ _) in *.
  assert (Hr2 : read_header m2 = read_header (st_mem s)) by (apply read_header_ext, Hold; lia).
  set (al' := Z.max _ _). set (m' := write_header m2 _).
  assert (Hm' : forall a n, 24 <= a -> 0 <= n -> sub m' a n = sub m2 a n)
    by (intros; apply sub_write_header; lia).
  destruct (ap_align _ _ _ _ _ _ Hp) as (sh & Hsh & Halign).
  destruct (add_align al sh Hal Hsh) as [(k & Hk & Hkp) Hmod]. rewrite <- Halign in *.
  assert (Hbase : st_base s mod 2 ^ al' = 0).
  { unfold al'. rewrite Hr2, Hkp, Z.log2_pow2 by lia. pose proof (ap_base _ _ _ _ _ _ Hp) as Hb.
    rewrite Hkp in Hb. destruct (si_alignment _ _ Hi) as [_ Ha2]. by apply Z.max_case_strong. }
  assert (Hused : used m' = e_end e).
  { unfold m'. rewrite used_write_header; [|lia|apply header_fit_edit; [done|lia]].
    cbn. unfold u32_max in *. apply Z.mod_small. lia. }
  assert (Hinv : store_inv {| st_base := st_base s; st_mem := m' |} (es ++ pad_entries (st_mem s) e ++ [e])).
  { apply edit_inv with es; try done; [lia | | |].
    - destruct (si_used _ _ Hi). pose proof (ap_fits _ _ _ _ _ _ Hp). lia.
    - unfold al'. rewrite Hr2, Hkp, Z.log2_pow2 by lia. pose proof (proj1 (si_alignment _ _ Hi)). lia.
    - by apply (add_chain s es tag size al align e). }
  split_and!.
  - exists (pad_entries (st_mem s) e). split; [done | apply nonvoid_pad].
  - rewrite (entries_inv _ _ Hinv). unfold nonvoid. rewrite !list.filter_app. fold (nonvoid es).
    fold (nonvoid (pad_entries (st_mem s) e)). rewrite nonvoid_pad, filter_cons_True; [done|].
    rewrite (ap_entry _ _ _ _ _ _ Hp). cbn. pose proof (ap_tag _ _ _ _ _ _ Hp). unfold VOID. lia.
  - by rewrite (ap_entry _ _ _ _ _ _ Hp).
  - by rewrite (ap_entry _ _ _ _ _ _ Hp).
  - cbn [st_base]. pose proof (ap_base _ _ _ _ _ _ Hp) as Hb. pose proof (Z.pow_pos_nonneg 2 al).
    rewrite Z.add_mod, Hoa by lia. rewrite Z.add_0_r, Z.mod_mod by lia.
    apply Z.mod_divide; [lia|]. etrans; [apply Z.mod_divide; [lia | exact Hmod]|].
    apply Z.mod_divide; [|exact Hb]. rewrite Hkp. pose proof (Z.pow_pos_nonneg 2 k). lia.
  - unfold ENTRY_HEADER_SIZE. lia.
  - cbn [st_mem]. rewrite Hused. pose proof (nmo8_bounds size Hs).
    assert (e_size e = size) as Hes by (by rewrite (ap_entry _ _ _ _ _ _ Hp)). unfold e_end. rewrite Hes. lia.
  - intros a n Ha Hn Hle. cbn [st_mem]. unfold HEADER_SIZE in Ha. rewrite Hm' by lia. apply Hold; lia.
Qed.

(** C15: [add] refines appending to the list of entries.  When it succeeds the
    store holds the old entries and then the new one (padding apart), the new
    entry has the requested tag and size at an address with the requested
    alignment, above everything that was in use, and not a byte of the entries
    already there has changed. *)
Theorem add_appends {T : Target} s es tag size al s' e :
  store_inv s es -> 0 <= size -> 0 <= tag -> 0 <= al -> add tag size al s = (s', Ok e) ->
  (exists pad, store_inv s' (es ++ pad ++ [e]) /\ nonvoid pad = []) /\
  entries s' = Ok (nonvoid es ++ [e]) /\
  e_tag e = tag /\ e_size e = size /\ (st_base s' + e_offset e) mod 2 ^ al = 0 /\
  used (st_mem s) + ENTRY_HEADER_SIZE <= e_offset e /\ e_offset e + size <= used (st_mem s') /\
  (forall a n, HEADER_SIZE <= a -> 0 <= n -> a + n <= used (st_mem s) ->
     sub (st_mem s') a n = sub (st_mem s) a n).
Proof. apply add_Ok. Qed.

(** ** Writing an entry's data *)

(** Bytes that are no entry header may change. *)
Lemma chain_write m m' off es e :
  bytes_ok m -> 24 <= off -> used m' = used m ->
  (forall a n, 24 <= a -> 0 <= n -> a + n <= e_offset e \/ e_offset e + e_size e <= a ->
     sub m' a n = sub m a n) ->
  chain m off es -> e ∈ es \/ e_offset e + e_size e <= off -> chain m' off es.
Proof.
  intros Hm Ho Hu Hs Hc. revert Ho. induction Hc as [|off e0 es He Hc IH]; intros Ho Hor.
  { rewrite <- Hu. constructor. }
  pose proof (entry_in_end m off e0 Hm ltac:(lia) He) as (? & ? & ? & ? & ?).
  assert (Hcase : off + 8 <= e_offset e /\ (e ∈ es \/ e_offset e + e_size e <= e_end e0)
                  \/ e_offset e + e_size e <= off).
  { destruct Hor as [Hin|?]; [|auto]. left. apply elem_of_cons in Hin as [->|Hin]; [split; [lia|right; lia]|].
    split; [|auto]. apply list_elem_of_lookup_1 in Hin as [i Hi].
    pose proof (chain_sorted m (e_end e0) es i e Hm ltac:(lia) Hc Hi). lia. }
  constructor.
  - apply (entry_in_mono m); [lia | lia | | done]. apply Hs; lia.
  - apply IH; [lia|]. destruct Hcase as [[_ ?]|?]; [done|right; lia].
Qed.

Lemma write_bytes_inv {T : Target} s es e data :
  store_inv s es -> e ∈ es -> zlen data = e_size e -> bytes_ok data ->
  store_inv (write_bytes s e data) es /\ entry_bytes (write_bytes s e data) e = data /\
  (forall a n, 0 <= a -> 0 <= n -> a + n <= e_offset e \/ e_offset e + e_size e <= a ->
     sub (st_mem (write_bytes s e data)) a n = sub (st_mem s) a n).
Proof.
  intros [Hb Hbase Hsig Hver [Hh1 Hh2] [Hu1 Hu2] [Hm1 Hm2] Hal Hc] Hin Hz Hd.
  pose proof (list_elem_of_lookup_1 _ _ Hin) as [i Hi].
  unfold HEADER_SIZE in *.
  pose proof (chain_sorted (st_mem s) (lh_header_size (read_header (st_mem s))) es i e Hb ltac:(lia) Hc Hi) as (? & ? & ? & _).
  assert (Hout : forall a n, 0 <= a -> 0 <= n -> a + n <= e_offset e \/ e_offset e + e_size e <= a ->
     sub (st_mem (write_bytes s e data)) a n = sub (st_mem s) a n)
    by (intros; apply sub_upd_other; lia).
  assert (Hr : read_header (st_mem (write_bytes s e data)) = read_header (st_mem s))
    by (apply read_header_ext, Hout; lia).
  split_and!; [|apply sub_upd_at; (done || lia)|done].
  unfold used, max_size, HEADER_SIZE in *.
  constructor; unfold used, max_size, HEADER_SIZE; rewrite ?Hr; cbn [st_base write_bytes] in *; try done.
  - by apply bytes_ok_upd.
  - split; [done|]. unfold write_bytes. cbn [st_mem]. rewrite zlen_upd by lia. done.
  - apply (chain_write (st_mem s) _ _ _ e); [done|lia|unfold used; by rewrite Hr| |done|].
    + intros. apply Hout; lia.
    + left. by eapply list_elem_of_lookup_2.
Qed.

(** ** Creating, limiting and moving a store *)

Record header_ok {T : Target} (base window : Z) (h : ListHeader) : Prop := {
  ho_fit : header_fit h;
  ho_checksum : 0 <= lh_checksum h < 256;
  ho_signature : lh_signature h = SIGNATURE;
  ho_version : lh_version h = VERSION;
  ho_header_size : HEADER_SIZE <= lh_header_size h < 256 /\ lh_header_size h mod GRANULE = 0;
  ho_used : lh_header_size h <= lh_used_size h /\ lh_used_size h mod GRANULE = 0;
  ho_max : lh_used_size h <= lh_max_size h /\ lh_max_size h <= window;
  ho_alignment : 0 <= lh_alignment h < usize_bits /\ base mod 2 ^ lh_alignment h = 0
}.

Section whole_header.
Context {T : Target}.

(** A valid header over a chain of entries makes a store. *)
Lemma header_inv base m h es :
  bytes_ok m -> base mod 8 = 0 -> header_ok base (zlen m) h ->
  chain (write_header m h) (lh_header_size h) es ->
  store_inv {| st_base := base; st_mem := write_header m h |} es.
Proof.
  intros Hb Hbase [Hfit Hck Hsig Hver [Hh1 Hh2] [Hu1 Hu2] [Hm1 Hm2] [Ha1 Ha2]] Hc.
  unfold HEADER_SIZE in *. pose proof bits_ge_32.
  assert (Hr : read_header (write_header m h) = h) by (apply read_write_header; [lia|done]).
  constructor; cbn [st_base st_mem]; unfold used, max_size; rewrite ?Hr, ?zlen_write_header by lia;
    try (done || lia).
  - apply bytes_ok_header; try (done || lia). rewrite Hver. unfold VERSION. lia.
  - unfold HEADER_SIZE. split; [lia|done].
Qed.

(** The header of a store in use is valid. *)
Lemma inv_header s es : store_inv s es -> header_ok (st_base s) (zlen (st_mem s)) (read_header (st_mem s)).
Proof.
  intros [Hb _ Hsig Hver [Hh1 Hh2] Hu [Hm1 Hm2] [Ha1 Ha2] _].
  assert (Hu8 : forall off, 0 <= u8_at (st_mem s) off < 256) by (intros; by apply u8_at_range).
  constructor; try done; [by apply header_fit_read | apply Hu8 | |].
  - split; [|done]. split; [done|]. apply Hu8.
  - split; [|done]. split; [apply Hu8|done].
Qed.

(** Changing the header's maximum, or the bytes above the used size, keeps the
    entries. *)
Lemma chain_same m m' off es :
  bytes_ok m -> 24 <= off -> used m' = used m ->
  (forall a n, 24 <= a -> 0 <= n -> a + n <= used m -> sub m' a n = sub m a n) ->
  chain m off es -> chain m' off es.
Proof.
  intros Hm Ho Hu Hs Hc. rewrite <- (app_nil_r es). apply chain_extend with m; try done; [lia|].
  rewrite <- Hu. constructor.
Qed.

Lemma window_max_range w : 0 <= w -> 0 <= window_max w <= w /\ window_max w <= u32_max.
Proof.
  intros. unfold window_max, GRANULE, u32_max. pose proof (Z.div_mod (Z.min w 4294967295) 8).
  pose proof (Z.mod_pos_bound (Z.min w 4294967295) 8). lia.
Qed.
End whole_header.

(** [create] makes an empty store over the largest window the format can
    describe, and [open] finds it again. *)
Theorem create_open {T : Target} base m s :
  bytes_ok m -> 0 <= base -> create base m = Ok s ->
  store_inv s [] /\ entries s = Ok [] /\ max_size (st_mem s) = window_max (zlen m) /\
  open (st_base s) (st_mem s) = Ok s.
Proof.
  intros Hm Hb H. unfold create in H. do 2 rust_step H. injection H as <-. bool_hyp.
  rewrite is_multiple_of_spec in *. unfold HEADER_SIZE in *. pose proof bits_ge_32.
  pose proof (window_max_range (zlen m) (zlen_nonneg m)) as [Hw1 Hw2].
  set (h := {| lh_signature := SIGNATURE |}).
  assert (Hfit : header_fit h).
  { constructor; cbn; unfold SIGNATURE, u32_max in *; lia. }
  assert (Hok : header_ok base (zlen m) h).
  { constructor; cbn; unfold HEADER_SIZE, GRANULE in *; try (done || lia). split; [lia|done]. }
  assert (Hlen : 24 <= zlen m) by lia.
  pose proof (read_write_header m h Hlen Hfit) as Hr.
  assert (Hinv : store_inv {| st_base := base; st_mem := write_header m h |} []).
  { apply header_inv; try done. change (lh_header_size h) with (lh_used_size h).
    rewrite <- (used_write_header m h) by done. constructor. }
  split_and!; [done | by rewrite (entries_inv _ _ Hinv) | unfold max_size; cbn [st_mem]; by rewrite Hr |].
  apply open_accepts with []; [done|]. unfold checksum_ok. cbn [st_mem]. by rewrite Hr.
Qed.

(** [limit] stops growth at the used size rounded up to the granule (or the
    old maximum, when that is lower) and changes nothing else. *)
Theorem limit_keeps {T : Target} s es granule s' n :
  store_inv s es -> limit granule s = (s', Ok n) ->
  store_inv s' es /\ entries s' = entries s /\ max_size (st_mem s') = n /\
  n = Z.min (next_multiple_of (used (st_mem s)) (Z.max granule 8)) (max_size (st_mem s)) /\
  used (st_mem s) <= n /\
  forall a k, HEADER_SIZE <= a -> 0 <= k -> sub (st_mem s') a k = sub (st_mem s) a k.
Proof.
  intros Hi H. unfold limit in H. destruct (usize_next_multiple_of _ _) as [r| |] eqn:Hr; simplify_eq/=.
  apply usize_next_multiple_of_Ok in Hr as [-> _]. unfold GRANULE in *.
  pose proof (inv_header _ _ Hi) as Ho. pose proof (si_bytes _ _ Hi) as Hb. pose proof (max_range _ Hb).
  destruct (si_max _ _ Hi) as [Hm1 Hm2]. pose proof (used_range _ Hb). destruct (si_header_size _ _ Hi).
  destruct (si_used _ _ Hi). unfold HEADER_SIZE, u32_max in *.
  destruct (next_multiple_of_spec (used (st_mem s)) (Z.max granule 8)) as [Hn _]; [lia|].
  set (n := Z.min _ _). assert (Hn2 : n mod 2 ^ 32 = n) by (apply Z.mod_small; lia).
  assert (Hok : header_ok (st_base s) (zlen (st_mem s)) (set_max (read_header (st_mem s)) n)).
  { destruct Ho as [[? ? ? ? ?] ? ? ? ? ? ? ?].
    constructor; cbn [set_max lh_checksum lh_signature lh_version lh_header_size lh_used_size lh_max_size
      lh_alignment]; rewrite ?Hn2; try assumption.
    - constructor; cbn [set_max lh_signature lh_used_size lh_max_size lh_flags lh_reserved];
        rewrite ?Hn2; try assumption. unfold u32_max. lia.
    - fold (used (st_mem s)). lia. }
  assert (Hrd : read_header (write_header (st_mem s) (set_max (read_header (st_mem s)) n)) =
    set_max (read_header (st_mem s)) n) by (apply read_write_header; [lia | apply Hok]).
  assert (Hsub : forall a k, 24 <= a -> 0 <= k ->
    sub (write_header (st_mem s) (set_max (read_header (st_mem s)) n)) a k = sub (st_mem s) a k)
    by (intros; apply sub_write_header; lia).
  assert (Hinv : store_inv {| st_base := st_base s;
    st_mem := write_header (st_mem s) (set_max (read_header (st_mem s)) n) |} es).
  { apply header_inv; [done | apply Hi | done |]. apply chain_same with (st_mem s); try done.
    - unfold used. by rewrite Hrd.
    - intros. apply Hsub; lia.
    - apply Hi. }
  split_and!; try (done || lia).
  - by rewrite (entries_inv _ _ Hinv), (entries_inv _ _ Hi).
  - unfold max_size. rewrite Hrd. done.
Qed.

(** [relocate] carries a store over: the copy at the new base holds the
    same entries at the same offsets with the same data, and may grow to the new
    window. *)
Theorem relocate_keeps {T : Target} s es dest window s' :
  store_inv s es -> bytes_ok window -> 3 <= lh_alignment (read_header (st_mem s)) ->
  relocate s dest window = Ok s' ->
  store_inv s' es /\ entries s' = entries s /\ st_base s' = dest /\
  max_size (st_mem s') = window_max (zlen window) /\
  forall a k, HEADER_SIZE <= a -> 0 <= k -> a + k <= used (st_mem s) ->
    sub (st_mem s') a k = sub (st_mem s) a k.
Proof.
  intros Hi Hwb Hal3 H. unfold relocate in H. apply rbind_Ok in H as (align & Ha & H).
  rewrite or_panic_Ok in Ha. do 2 rust_step H. injection H as <-. bool_hyp.
  rewrite is_multiple_of_spec in *. unfold checked_shl_one in Ha. case_match eqn:Hlt; [|done].
  injection Ha as <-. rewrite Z.shiftl_1_l in *. bool_hyp.
  set (m := st_mem s) in *. set (u := used m) in *. set (mx := window_max (zlen window)) in *.
  pose proof (inv_header _ _ Hi) as Ho. fold m in Ho.
  pose proof (si_bytes _ _ Hi) as Hbo. fold m in Hbo. pose proof (used_range _ Hbo) as Hur. fold u in Hur.
  pose proof (si_max _ _ Hi) as [Hm1 Hm2]. fold m u in Hm1, Hm2.
  pose proof (si_header_size _ _ Hi) as [Hh1 _]. pose proof (si_used _ _ Hi) as [Hu1 _].
  fold m u in Hh1, Hu1. unfold HEADER_SIZE in *.
  pose proof (window_max_range (zlen window) (zlen_nonneg window)) as [Hw1 Hw2]. fold mx in Hw1, Hw2.
  assert (Hzu : zlen (sub m 0 u) = u) by (apply zlen_sub; lia).
  set (m1 := upd window 0 (sub m 0 u)).
  assert (Hz1 : zlen m1 = zlen window) by (apply zlen_upd; lia).
  assert (Hs1 : forall a k, 0 <= a -> 0 <= k -> a + k <= u -> sub m1 a k = sub m a k).
  { intros a k ? ? ?. rewrite <- (sub_prefix m1 u a k), <- (sub_prefix m u a k) by lia. f_equal.
    apply sub_upd_at; lia. }
  assert (Hr1 : read_header m1 = read_header m) by (apply read_header_ext, Hs1; lia).
  assert (Hmx : mx mod 2 ^ 32 = mx) by (unfold u32_max in *; apply Z.mod_small; lia).
  assert (Hok : header_ok dest (zlen m1) (set_max (read_header m1) mx)).
  { rewrite Hr1, Hz1. destruct Ho as [[? ? ? ? ?] ? ? ? ? ? ? [? _]].
    constructor; cbn [set_max lh_checksum lh_signature lh_version lh_header_size lh_used_size lh_max_size
      lh_alignment]; rewrite ?Hmx; try assumption.
    - constructor; cbn [set_max lh_signature lh_used_size lh_max_size lh_flags lh_reserved];
        rewrite ?Hmx; try assumption. lia.
    - fold (used m). fold u. lia.
    - split; assumption. }
  assert (Hrd : read_header (write_header m1 (set_max (read_header m1) mx)) = set_max (read_header m1) mx)
    by (apply read_write_header; [lia | apply Hok]).
  assert (Hsub : forall a k, 24 <= a -> 0 <= k -> a + k <= u ->
    sub (write_header m1 (set_max (read_header m1) mx)) a k = sub m a k).
  { intros. rewrite sub_write_header by lia. apply Hs1; lia. }
  assert (Hinv : store_inv {| st_base := dest; st_mem := write_header m1 (set_max (read_header m1) mx) |} es).
  { apply header_inv; [| | done |].
    - apply bytes_ok_upd; [done | by apply bytes_ok_sub].
    - change 8 with (2 ^ 3). by apply (mod_pow2_le _ _ (lh_alignment (read_header m))).
    - cbn [set_max lh_header_size].
      replace (lh_header_size (read_header m1)) with (lh_header_size (read_header m)) by (by rewrite Hr1).
      apply chain_same with m; try done.
      + unfold used. rewrite Hrd. cbn [set_max lh_used_size]. by rewrite Hr1.
      + apply Hi. }
  split_and!; try done.
  - by rewrite (entries_inv _ _ Hinv), (entries_inv _ _ Hi).
  - unfold max_size. cbn [st_mem]. by rewrite Hrd.
Qed.

(** The outcomes of [add]: it succeeds whenever the tag is a 24-bit tag,
    the base honours the alignment, and the padded entry fits below the maximum;
    otherwise the error names the failed condition and the store is untouched.
    It cannot panic while the rounded sizes are addressable. *)
Theorem add_outcomes {T : Target} s es tag size al :
  store_inv s es -> 0 <= size -> 0 <= tag -> 0 <= al -> size + 7 <= usize_max ->
  let align := Z.max (2 ^ al) GRANULE in
  let offset := next_multiple_of (used (st_mem s) + ENTRY_HEADER_SIZE) align in
  (al < usize_bits -> offset <= usize_max) ->
  match add tag size al s with
  | (s', Ok e) => e = {| e_tag := tag; e_offset := offset; e_size := size |} /\
                  0 < tag < 2 ^ 24 /\ st_base s mod align = 0 /\
                  offset + next_multiple_of size GRANULE <= max_size (st_mem s)
  | (s', Err BadTag) => s' = s /\ (tag = VOID \/ 2 ^ 24 <= tag)
  | (s', Err Misaligned) => s' = s /\ (usize_bits <= al \/ st_base s mod align <> 0)
  | (s', Err Full) => s' = s /\ (u32_max < size \/
                        max_size (st_mem s) < offset + next_multiple_of size GRANULE)
  | _ => False
  end.
Proof.
  intros Hi Hs Ht Hal Hsz align offset Hoff. unfold add, VOID.
  pose proof (si_bytes _ _ Hi) as Hb. pose proof (used_range _ Hb). pose proof (max_range _ Hb).
  destruct (si_max _ _ Hi). destruct (si_used _ _ Hi) as [Hu1 Hu8]. pose proof (si_header_size _ _ Hi).
  pose proof usize_max_bounds. destruct (nmo8_bounds size Hs) as [Hn _].
  unfold HEADER_SIZE, ENTRY_HEADER_SIZE in *.
  destruct ((tag =? 0) || (2 ^ 24 <=? tag)) eqn:Htag.
  { split; [done|]. apply orb_true_iff in Htag as [?|?]; bool_hyp; auto. }
  bool_hyp. unfold checked_shl_one. destruct (Z.ltb_spec al usize_bits) as [Hlt|Hge]; cbn [ok_or rbind].
  2:{ split; [done|]. by left. }
  rewrite Z.shiftl_1_l. fold align. specialize (Hoff Hlt).
  destruct (is_multiple_of (st_base s) align) eqn:Hmul; cbn [negb].
  2:{ split; [done|]. right. rewrite <- is_multiple_of_spec, Hmul. done. }
  apply is_multiple_of_spec in Hmul.
  assert (Hpos : 0 < align) by (unfold align, GRANULE; lia).
  destruct (next_multiple_of_spec (used (st_mem s) + 8) align Hpos) as [Hp1 Hp2]. fold offset in Hp1, Hp2.
  unfold add_or_panic. rewrite checked_add_ok by lia. cbn [or_panic rbind].
  rewrite usize_next_multiple_of_ok by done. cbn [rbind]. fold offset.
  destruct (Z.le_gt_cases size u32_max) as [Hle|Hgt].
  2:{ unfold try_from. rewrite (proj2 (Z.leb_gt _ _)) by lia. cbn [ok_or rbind]. split; [done|]. by left. }
  rewrite try_from_ok by done. cbn [ok_or rbind]. rewrite usize_next_multiple_of_ok by lia. cbn [rbind].
  replace (used (st_mem s) + (offset - (used (st_mem s) + 8)) + 8) with offset by lia.
  destruct (checked_add usize_max offset (next_multiple_of size GRANULE)) as [en|] eqn:Hen; cbn [ok_or rbind].
  2:{ apply checked_add_None in Hen. split; [done|]. right. lia. }
  apply checked_add_Some in Hen as [-> _].
  destruct (Z.ltb_spec (max_size (st_mem s)) (offset + next_multiple_of size GRANULE)).
  { split; [done|]. by right. }
  destruct (Z.eqb_spec (offset - (used (st_mem s) + 8)) 0) as [E|E]; cbn [rbind].
  { split_and!; (done || lia). }
  assert (Hpad : 8 <= offset - (used (st_mem s) + 8)).
  { destruct (add_align al (Z.shiftl 1 al) Hal) as [(k & Hk & Hkp) _].
    { unfold checked_shl_one. by rewrite (proj2 (Z.ltb_lt _ _)). }
    rewrite Z.shiftl_1_l in Hkp. fold align in Hkp. rewrite Hkp in Hp2.
    assert (Ho8 : offset mod 2 ^ 3 = 0) by (apply (mod_pow2_le offset 3 k); [lia | done]).
    change (2 ^ 3) with 8 in Ho8. unfold GRANULE in Hu8.
    apply Z.mod_divide in Hu8 as [uq Hu8]; [|lia]. apply Z.mod_divide in Ho8 as [oq Ho8]; [|lia]. lia. }
  rewrite checked_sub_ok by lia. cbn [or_panic rbind]. split_and!; (done || lia).
Qed.

(** ** Witnesses *)

Definition demo_store : Store :=
  Eval vm_compute in
  match create 0x1000 (zeros 160) with Ok s => s | _ => {| st_base := 0; st_mem := [] |} end.

Lemma demo_store_created : create 0x1000 (zeros 160) = Ok demo_store.
Proof. vm_compute. reflexivity. Qed.

Lemma bytes_ok_demo : bytes_ok (st_mem demo_store).
Proof. apply (bool_decide_eq_true_1 (bytes_ok (st_mem demo_store))). vm_compute. reflexivity. Qed.

Lemma create_open_witness :
  store_inv demo_store [] /\ entries demo_store = Ok [] /\
  max_size (st_mem demo_store) = window_max (zlen (zeros 160)) /\
  open (st_base demo_store) (st_mem demo_store) = Ok demo_store.
Proof. exact (create_open 0x1000 (zeros 160) demo_store (bytes_ok_zeros 160) ltac:(lia) demo_store_created). Defined.

Lemma demo_store_inv : store_inv demo_store [].
Proof.
  pose proof bits_ge_32. pose proof usize_max_bounds.
  constructor; try (vm_compute; done); try (vm_compute; split; done || discriminate).
  - exact bytes_ok_demo.
  - change (lh_header_size (read_header (st_mem demo_store))) with (used (st_mem demo_store)). constructor.
Qed.

Lemma open_iff_witness :
  open 0x1000 (st_mem demo_store) = Ok demo_store /\ exists es, store_inv demo_store es.
Proof.
  assert (E : open 0x1000 (st_mem demo_store) = Ok demo_store) by (vm_compute; reflexivity).
  split; [exact E|].
  exact (proj2 (proj2 (proj1 (open_iff 0x1000 (st_mem demo_store) demo_store bytes_ok_demo ltac:(lia)) E))).
Defined.

(** A 10-byte entry aligned to 64 bytes: 32 bytes of padding come first. *)
Definition demo_added : Store := Eval vm_compute in fst (add 0xfff005 10 6 demo_store).

Lemma add_appends_witness :
  entries demo_added = Ok [{| e_tag := 0xfff005; e_offset := 64; e_size := 10 |}].
Proof.
  assert (E : add 0xfff005 10 6 demo_store =
    (demo_added, Ok {| e_tag := 0xfff005; e_offset := 64; e_size := 10 |})) by (vm_compute; reflexivity).
  exact (proj1 (proj2 (add_appends demo_store [] 0xfff005 10 6 demo_added _ demo_store_inv
                         ltac:(lia) ltac:(lia) ltac:(lia) E))).
Defined.

Lemma limit_keeps_witness : store_inv (fst (limit 64 demo_store)) [] /\ snd (limit 64 demo_store) = Ok 64.
Proof.
  assert (E : limit 64 demo_store = (fst (limit 64 demo_store), Ok 64)) by (vm_compute; reflexivity).
  split; [|rewrite E; reflexivity].
  exact (proj1 (limit_keeps demo_store [] 64 _ 64 demo_store_inv E)).
Defined.

Lemma relocate_keeps_witness :
  exists s', relocate demo_store 0x2000 (zeros 200) = Ok s' /\ store_inv s' [] /\ st_base s' = 0x2000.
Proof.
  destruct (relocate demo_store 0x2000 (zeros 200)) as [s'| |] eqn:E;
    [|vm_compute in E; discriminate E..].
  exists s'.
  destruct (relocate_keeps demo_store [] 0x2000 (zeros 200) s' demo_store_inv (bytes_ok_zeros 200)
              ltac:(vm_compute; discriminate) E) as (Hi & _ & Hb & _).
  exact (conj eq_refl (conj Hi Hb)).
Defined.

Lemma add_outcomes_witness :
  match add 0xfff005 500 3 demo_store with
  | (s', Err Full) => s' = demo_store
  | _ => False
  end.
Proof.
  assert (Hm : 500 + 7 <= usize_max) by (pose proof usize_max_bounds as H; unfold u32_max in H; lia).
  pose proof (add_outcomes demo_store [] 0xfff005 500 3 demo_store_inv ltac:(lia) ltac:(lia) ltac:(lia) Hm
                ltac:(intros _; vm_compute; discriminate)) as H.
  vm_compute in H |- *. exact (proj1 H).
Defined.

(** ** Two behaviours at the edge *)

(** A list whose only entry claims a [data_size] within 7 of [u32::MAX]. *)
Definition huge_entry_list : list Z :=
  header_bytes {| lh_signature := SIGNATURE; lh_checksum := 0; lh_version := VERSION;
                  lh_header_size := HEADER_SIZE; lh_alignment := 3; lh_used_size := 32;
                  lh_max_size := 32; lh_flags := 0; lh_reserved := 0 |}
  ++ entry_header_bytes 0xfff005 0xfffffffc.

(** On a 64-bit target [open] rejects an entry that claims nearly 4 GiB,
    but on a 32-bit target rounding its [data_size] up leaves [usize], so that
    [open] panics (or, without overflow checks, wraps to a small entry). *)
Theorem open_huge_entry :
  @open target64 0x1000 huge_entry_list = Err Invalid /\ @open target32 0x1000 huge_entry_list = Panic.
Proof. split; vm_compute; reflexivity. Qed.

(** An empty list with a valid checksum. *)
Definition checksummed_list : list Z :=
  header_bytes {| lh_signature := SIGNATURE; lh_checksum := 0x76; lh_version := VERSION;
                  lh_header_size := HEADER_SIZE; lh_alignment := 3; lh_used_size := 24;
                  lh_max_size := 64; lh_flags := FLAG_HAS_CHECKSUM; lh_reserved := 0 |} ++ zeros 40.

(** [add] does not refresh the checksum of a list that carries one: the
    list opens, and no longer does once an entry was added. *)
Theorem add_breaks_checksum :
  match open 0x1000 checksummed_list with
  | Ok s => match add 0xfff005 8 3 s with
            | (s', Ok _) => open (st_base s') (st_mem s') = Err Invalid
            | _ => False
            end
  | _ => False
  end.
Proof. vm_compute. reflexivity. Qed.
