(* ===== verification/Mtrr.v ===== *)
(** * Mtrr: x86 cacheability planning ([crates/arch/src/x86/mtrr.rs])

    The planner turns the physical RAM map and the write-combining apertures
    into at most [variable_count] naturally aligned power-of-two ranges and a
    default type.  The theorems are about what the processor then does: the
    effective type of every address, under the architecture's precedence rules
    for overlapping ranges, is the requested one. *)

From S2P Require Import Prelude.
From S2P Require Import Bits.
From S2P Require Import Bytes.
From S2P Require Import Services.
From Stdlib Require Import ZArith Lia.
From stdpp Require Import base numbers list option.

#[local] Open Scope Z_scope.

Definition ONE_MIB : Z := 0x100000.
Definition FOUR_GIB : Z := 2 ^ 32.
Definition MAX_MTRRS : Z := 32.
Definition MAX_RANGES : Z := 64.
Definition VALID : Z := 2 ^ 11.

Inductive CacheType := Uncacheable | WriteCombining | WriteBack.
#[export] Instance CacheType_eq_dec : EqDecision CacheType.
Proof. solve_decision. Defined.

Definition cache_type_u8 (t : CacheType) : Z :=
  match t with Uncacheable => 0 | WriteCombining => 1 | WriteBack => 6 end.

Record Capabilities := {
  variable_count : Z;
  physical_bits : Z;
  caps_fixed : bool;
  write_combining : bool
}.

Definition caps_limit (c : Capabilities) : Z := Z.shiftl 1 (physical_bits c).

Record Range := { r_base : Z; r_end : Z; r_kind : CacheType }.

Record Plan := { p_caps : Capabilities; p_default : CacheType; p_ranges : list Range }.

(** ** Power-of-two chunks *)

(** The items of the [chunks] iterator.  128 chunks always suffice: at most 64
    that double in size, then at most 64 that halve. *)
Fixpoint chunks_from (fuel : nat) (next remaining : Z) : list (Z * Z) :=
  match fuel with
  | O => []
  | S fuel =>
      if remaining =? 0 then []
      else
        let max_size := 2 ^ Z.log2 remaining in
        let size := if next =? 0 then max_size else Z.min max_size (low_bit next) in
        (next, size) :: chunks_from fuel (next + size) (remaining - size)
  end.

Definition chunks (base size : Z) : list (Z * Z) := chunks_from 129 base size.

(** ** The planner *)

(** One RAM or WC range of the input: [None] when it is skipped. *)
Definition admit_range (caps : Capabilities) (base size : Z) (kind : CacheType)
    : res ServiceError (option Range) :=
  if size =? 0 then Ok None
  else
    let? end_ := ok_or (checked_add u64_max base size) InvalidParam in
    if caps_fixed caps && bool_decide (kind = WriteBack) && (end_ <=? ONE_MIB) then Ok None
    else
      fail_if negb (Z.land base 0xfff =? 0) || negb (Z.land end_ 0xfff =? 0)
              || (caps_limit caps <? end_)
              || (caps_fixed caps && bool_decide (kind = WriteCombining) && (base <? ONE_MIB))
        with InvalidParam;
      fail_if bool_decide (kind = WriteCombining) && negb (write_combining caps) with NotSupported;
      let base := if caps_fixed caps && bool_decide (kind = WriteBack) && (base <=? ONE_MIB)
                  then 0 else base in
      Ok (Some {| r_base := base; r_end := end_; r_kind := kind |}).

Fixpoint occupy (caps : Capabilities) (inputs : list (Z * Z * CacheType)) (occupied : list Range)
    : res ServiceError (list Range) :=
  match inputs with
  | [] => Ok occupied
  | (base, size, kind) :: inputs =>
      let? r := admit_range caps base size kind in
      let? occupied := match r with
                       | Some r => push MAX_RANGES NotSupported occupied r
                       | None => Ok occupied
                       end in
      occupy caps inputs occupied
  end.

(** [sort_unstable_by_key(|range| range.base)] *)
Fixpoint insert_range (r : Range) (l : list Range) : list Range :=
  match l with
  | [] => [r]
  | x :: l => if r_base r <=? r_base x then r :: x :: l else x :: insert_range r l
  end.
Definition sort_ranges (l : list Range) : list Range := foldr insert_range [] l.

(** Append [r], merging it into a last range it continues. *)
Definition append_range (map : list Range) (r : Range) : res ServiceError (list Range) :=
  match list.last map with
  | Some previous =>
      if (r_end previous =? r_base r) && bool_decide (r_kind previous = r_kind r) then
        Ok (take (length map - 1) map
            ++ [{| r_base := r_base previous; r_end := r_end r; r_kind := r_kind previous |}])
      else push MAX_RANGES NotSupported map r
  | None => push MAX_RANGES NotSupported map r
  end.

(** The map so far and the cursor. *)
Fixpoint fill_map (occupied : list Range) (map : list Range) (cursor : Z)
    : res ServiceError (list Range * Z) :=
  match occupied with
  | [] => Ok (map, cursor)
  | range :: occupied =>
      fail_if r_base range <? cursor with InvalidParam;
      let? map := (if cursor <? r_base range then
                     push MAX_RANGES NotSupported map
                       {| r_base := cursor; r_end := r_base range; r_kind := Uncacheable |}
                   else Ok map) in
      let? map := append_range map range in
      fill_map occupied map (r_end range)
  end.

Fixpoint add_tiles (caps : Capabilities) (kind : CacheType) (tiles : list (Z * Z)) (ranges : list Range)
    : res ServiceError (list Range) :=
  match tiles with
  | [] => Ok ranges
  | (base, size) :: tiles =>
      fail_if zlen ranges =? variable_count caps with NotSupported;
      let? ranges := push MAX_MTRRS NotSupported ranges
                       {| r_base := base; r_end := base + size; r_kind := kind |} in
      add_tiles caps kind tiles ranges
  end.

Definition add_chunks (caps : Capabilities) (base end_ : Z) (kind : CacheType) (ranges : list Range)
    : res ServiceError (list Range) :=
  add_tiles caps kind (chunks base (end_ - base)) ranges.

(** The loop over [shift] that looks for a rounded end with cheaper coverage. *)
Fixpoint best_end (base range_end limit : Z) (shifts : list Z) (cost : nat) (end_ : Z) : Z :=
  match shifts with
  | [] => end_
  | shift :: shifts =>
      let rounded := next_multiple_of range_end (Z.shiftl 1 shift) in
      if u64_max <? rounded then end_
      else if limit <? rounded then end_
      else
        let next_cost := (length (chunks base (rounded - base))
                          + length (chunks range_end (rounded - range_end)))%nat in
        if (next_cost <? cost)%nat
        then best_end base range_end limit shifts next_cost rounded
        else best_end base range_end limit shifts cost end_
  end.

Definition shifts_of (caps : Capabilities) (range_end : Z) : list Z :=
  let first := trailing_zeros range_end + 1 in
  map (fun i => first + Z.of_nat i) (seq 0 (Z.to_nat (physical_bits caps + 1 - first))).

Definition next_used (caps : Capabilities) (rest : list Range) : Z :=
  match list_find (fun next => r_kind next <> Uncacheable) rest with
  | Some (_, next) => r_base next
  | None => caps_limit caps
  end.

Definition rounded_end (caps : Capabilities) (default : CacheType) (base : Z) (range : Range)
    (rest : list Range) : Z :=
  if bool_decide (default = Uncacheable) && bool_decide (r_kind range = WriteBack) then
    best_end base (r_end range) (next_used caps rest) (shifts_of caps (r_end range))
      (length (chunks base (r_end range - base))) (r_end range)
  else r_end range.

Fixpoint candidate_loop (caps : Capabilities) (default : CacheType) (map : list Range)
    (ranges : list Range) : res ServiceError (list Range) :=
  match map with
  | [] => Ok ranges
  | range :: rest =>
      if bool_decide (r_kind range = default) then candidate_loop caps default rest ranges
      else if caps_fixed caps && (r_base range <? ONE_MIB) && (r_end range <=? ONE_MIB)
      then candidate_loop caps default rest ranges
      else
        let base := if caps_fixed caps && (r_base range <? ONE_MIB)
                       && negb (bool_decide (r_kind range = WriteBack))
                    then ONE_MIB else r_base range in
        let end_ := rounded_end caps default base range rest in
        let? ranges := add_chunks caps base end_ (r_kind range) ranges in
        let? ranges := (if end_ =? r_end range then Ok ranges
                        else add_chunks caps (r_end range) end_ Uncacheable ranges) in
        candidate_loop caps default rest ranges
  end.

Definition candidate (caps : Capabilities) (map : list Range) (default : CacheType)
    : res ServiceError Plan :=
  let? ranges := candidate_loop caps default map [] in
  Ok {| p_caps := caps; p_default := default; p_ranges := ranges |}.

Definition build_map (caps : Capabilities) (ram wc : list (Z * Z)) : res ServiceError (list Range) :=
  let? occupied := occupy caps (map (fun '(b, s) => (b, s, WriteBack)) ram
                                ++ map (fun '(b, s) => (b, s, WriteCombining)) wc) [] in
  fail_if negb (existsb (fun r => bool_decide (r_kind r = WriteBack)) occupied) with NoDevice;
  let? (map, cursor) := fill_map (sort_ranges occupied) [] 0 in
  if cursor <? caps_limit caps then
    push MAX_RANGES NotSupported map
      {| r_base := cursor; r_end := caps_limit caps; r_kind := Uncacheable |}
  else Ok map.

(** [Plan::build] *)
Definition build (caps : Capabilities) (ram wc : list (Z * Z)) : res ServiceError Plan :=
  fail_if negb ((32 <=? physical_bits caps) && (physical_bits caps <=? 52))
          || (MAX_MTRRS <? variable_count caps) with NotSupported;
  let? map := build_map caps ram wc in
  match candidate caps map Uncacheable, candidate caps map WriteBack with
  | Ok uc, Ok wb => Ok (if (length (p_ranges wb) <? length (p_ranges uc))%nat then wb else uc)
  | Ok plan, Err _ | Err _, Ok plan => Ok plan
  | Err _, Err _ => Err NotSupported
  | _, _ => Panic
  end.

(** [Plan::build_ram]: without the RAM above 4 GiB when the registers run out. *)
Definition below_4g (ram : list (Z * Z)) : list (Z * Z) :=
  omap (fun '(base, size) =>
          let end_ := Z.min (saturating_add u64_max base size) FOUR_GIB in
          if base <? end_ then Some (base, end_ - base) else None) ram.

Definition build_ram (caps : Capabilities) (ram wc : list (Z * Z)) : res ServiceError Plan :=
  match build caps ram wc with
  | Err NotSupported => build caps (below_4g ram) wc
  | r => r
  end.

(** [Plan::final_solution] *)
Definition final_solution (caps : Capabilities) (ram wc : list (Z * Z)) : res ServiceError Plan :=
  match build caps ram wc with
  | Err NotSupported => build_ram caps ram []
  | r => r
  end.

(** ** Chunks tile their range *)

(** A register can hold the tile: a naturally aligned power of two. *)
Definition tile_ok (t : Z * Z) : Prop := exists k, 0 <= k /\ snd t = 2 ^ k /\ fst t mod 2 ^ k = 0.

Inductive tiles : Z -> Z -> list (Z * Z) -> Prop :=
| tiles_nil a : tiles a a []
| tiles_cons a s e l : tile_ok (a, s) -> tiles (a + s) e l -> tiles a e ((a, s) :: l).

Lemma tile_pos t : tile_ok t -> 0 < snd t.
Proof. intros (k & Hk & -> & _). lia. Qed.

Lemma tiles_le a e l : tiles a e l -> a <= e.
Proof. induction 1 as [|a s e l Ht _ IH]; [lia|]. apply tile_pos in Ht. simpl in Ht. lia. Qed.

(** Every address of the range is in a tile, and no other is. *)
Lemma tiles_cover a e l x :
  tiles a e l -> a <= x < e <-> exists t, t ∈ l /\ fst t <= x < fst t + snd t.
Proof.
  induction 1 as [a|a s e l Ht Hl IH].
  - split; [lia|]. intros (t & Hin & _). by apply not_elem_of_nil in Hin.
  - pose proof (tile_pos _ Ht) as Hs. simpl in Hs. pose proof (tiles_le _ _ _ Hl). split.
    + intros Hx. destruct (Z.lt_ge_cases x (a + s)).
      * exists (a, s). split; [by left|]. simpl. lia.
      * destruct (proj1 IH) as (t & Hin & ?); [lia|]. exists t. split; [by right|done].
    + intros (t & Hin & Hx). apply elem_of_cons in Hin as [->|Hin]; simpl in *; [lia|].
      enough (a + s <= x < e) by lia. apply IH. eauto.
Qed.

(** How many chunks are left: [b] is the exponent of the lowest set bit of the
    position ([None] at 0), [r] that of the highest bit of what remains. *)
Definition chunk_phase2 (next remaining : Z) : Prop := next = 0 \/ 2 ^ Z.log2 remaining <= low_bit next.

Definition chunk_fuel (fuel : nat) (next remaining : Z) : Prop :=
  remaining = 0 \/
  (chunk_phase2 next remaining /\ Z.log2 remaining + 1 <= Z.of_nat fuel) \/
  (0 < next /\ 128 - Z.log2 (low_bit next) <= Z.of_nat fuel).

Lemma log2_lt_64 n : 0 < n < 2 ^ 64 -> Z.log2 n < 64.
Proof. intros. apply Z.log2_lt_pow2; lia. Qed.

(** The chunk taken at a position: a tile that fits, after which less fuel is
    needed. *)
Lemma chunk_step fuel next remaining :
  0 <= next -> 0 < remaining -> next + remaining <= 2 ^ 64 -> next < 2 ^ 64 -> remaining < 2 ^ 64 ->
  chunk_fuel (S fuel) next remaining ->
  let size := if next =? 0 then 2 ^ Z.log2 remaining else Z.min (2 ^ Z.log2 remaining) (low_bit next) in
  tile_ok (next, size) /\ 0 < size <= remaining /\ chunk_fuel fuel (next + size) (remaining - size).
Proof.
  intros Hn Hr Hsum Hn64 Hr64 Hf size. pose proof (Z.log2_spec remaining Hr) as [Hlo Hhi].
  pose proof (Z.log2_nonneg remaining) as Hr0. pose proof (log2_lt_64 remaining ltac:(lia)) as Hr1.
  set (r := Z.log2 remaining) in *. rewrite Z.pow_succ_r in Hhi by lia.
  pose proof (Z.pow_pos_nonneg 2 r ltac:(lia) Hr0) as Hrp.
  (* after a chunk of 2^r at a multiple of 2^r, the rest is in the halving phase *)
  assert (Hhalve : size = 2 ^ r -> next mod 2 ^ r = 0 -> r + 1 <= Z.of_nat (S fuel) ->
    chunk_fuel fuel (next + size) (remaining - size)).
  { intros -> Hmod Hfu. destruct (Z.eq_dec (remaining - 2 ^ r) 0) as [|Hne]; [by left|]. right. left.
    assert (Hlt : Z.log2 (remaining - 2 ^ r) < r) by (apply Z.log2_lt_pow2; lia). split; [|lia].
    unfold chunk_phase2. right.
    destruct (low_bit_spec (next + 2 ^ r)) as (k & q & Hk & Hq & -> & E); [lia|].
    apply Z.pow_le_mono_r; [lia|].
    enough (Hle : ~ k < r) by lia. intros Hkr.
    assert (Hd : (next + 2 ^ r) mod 2 ^ (k + 1) = 0).
    { apply Z.mod_divide in Hmod as [z ->]; [|lia]. replace r with (r - (k + 1) + (k + 1)) by lia.
      rewrite Z.pow_add_r by lia.
      apply Z.mod_divide; [pose proof (Z.pow_pos_nonneg 2 (k + 1)); lia|].
      exists ((z + 1) * 2 ^ (r - (k + 1))). lia. }
    apply Z.mod_divide in Hd as [z Hz]; [|pose proof (Z.pow_pos_nonneg 2 (k + 1)); lia].
    rewrite Z.pow_add_r, Z.pow_1_r in Hz by lia. pose proof (Z.pow_pos_nonneg 2 k).
    assert (2 * q + 1 = 2 * z) by (apply (Z.mul_reg_l _ _ (2 ^ k)); lia). lia. }
  assert (Hsize : size = if next =? 0 then 2 ^ r else Z.min (2 ^ r) (low_bit next)) by done. clearbody size.
  destruct (Z.eqb_spec next 0) as [->|Hne].
  - subst size. split_and!; try lia.
    + exists r. split_and!; [lia | done |]. apply Z.mod_0_l. lia.
    + apply Hhalve; [done | apply Z.mod_0_l; lia|].
      unfold chunk_fuel in Hf. fold r in Hf. destruct Hf as [?|[[_ ?]|[? _]]]; lia.
  - destruct (low_bit_spec next) as (k & q & Hk & Hq & Hlow & E); [lia|].
    pose proof (Z.pow_pos_nonneg 2 k ltac:(lia) ltac:(lia)) as Hkp.
    unfold chunk_fuel, chunk_phase2 in Hf. fold r in Hf. rewrite Hlow, Z.log2_pow2 in Hf by lia.
    rewrite Hlow in Hsize.
    destruct (Z.le_gt_cases r k) as [Hrk|Hkr].
    + assert (Hle : 2 ^ r <= 2 ^ k) by (apply Z.pow_le_mono_r; lia).
      assert (Hs : size = 2 ^ r) by lia.
      assert (Hmod : next mod 2 ^ r = 0).
      { apply Z.mod_divide; [lia|]. exists (2 ^ (k - r) * (2 * q + 1)). rewrite E.
        replace k with (k - r + r) at 1 by lia. rewrite Z.pow_add_r by lia. lia. }
      split_and!; try lia.
      * exists r. by split_and!.
      * apply Hhalve; [done..|]. lia.
    + assert (Hlt : 2 ^ k < 2 ^ r) by (apply Z.pow_lt_mono_r; lia).
      assert (Hs : size = 2 ^ k) by lia.
      split_and!; try lia.
      * exists k. split_and!; [lia | done |]. apply Z.mod_divide; [lia|]. exists (2 * q + 1). simpl. lia.
      * assert (Hfk : 128 - k <= Z.of_nat (S fuel)) by (destruct Hf as [?|[[[?|?] _]|[_ ?]]]; lia).
        right. right. split; [lia|].
        destruct (low_bit_spec (next + size)) as (k' & q' & Hk' & Hq' & -> & E'); [lia|].
        rewrite Z.log2_pow2 by lia. enough (k < k') by lia.
        enough (~ k' <= k) by lia. intros Hle.
        assert (E2 : 2 ^ k * (2 * (q + 1)) = 2 ^ k' * (2 * q' + 1)) by lia.
        replace k with (k - k' + k') in E2 at 1 by lia. rewrite Z.pow_add_r in E2 by lia.
        pose proof (Z.pow_pos_nonneg 2 k').
        assert (2 ^ (k - k') * (2 * (q + 1)) = 2 * q' + 1)
          by (apply (Z.mul_reg_l _ _ (2 ^ k')); lia). lia.
Qed.

Lemma chunks_from_tiles fuel next remaining :
  0 <= next -> 0 <= remaining -> next + remaining < 2 ^ 64 -> chunk_fuel fuel next remaining ->
  tiles next (next + remaining) (chunks_from fuel next remaining).
Proof.
  revert next remaining. induction fuel as [|fuel IH]; intros next remaining Hn Hr Hs Hf.
  - destruct (Z.eq_dec remaining 0) as [->|]; [rewrite Z.add_0_r; constructor|]. exfalso.
    pose proof (Z.log2_nonneg remaining). destruct Hf as [?|[[_ ?]|[? ?]]]; [lia..|].
    destruct (low_bit_spec next) as (k & q & Hk & _ & E & _); [lia|]. rewrite E, Z.log2_pow2 in * by lia. lia.
  - cbn [chunks_from]. destruct (Z.eqb_spec remaining 0) as [->|Hne]; [rewrite Z.add_0_r; constructor|].
    destruct (chunk_step fuel next remaining) as (Ht & Hsz & Hf'); try lia; [done|].
    constructor; [done|]. set (size := if next =? 0 then _ else _) in *.
    replace (next + remaining) with (next + size + (remaining - size)) by lia. apply IH; (done || lia).
Qed.

(** The chunk iterator cuts any range below 2^64 into adjacent, naturally
    aligned powers of two that cover exactly the range. *)
Lemma chunks_tile base size :
  0 <= base -> 0 <= size -> base + size < 2 ^ 64 -> tiles base (base + size) (chunks base size).
Proof.
  intros Hb Hs Hsum. apply chunks_from_tiles; try done.
  destruct (Z.eq_dec size 0); [by left|]. right. pose proof (log2_lt_64 size ltac:(lia)).
  destruct (Z.eq_dec base 0) as [->|].
  - left. split; [by left|]. lia.
  - right. destruct (low_bit_spec base) as (k & q & Hk & _ & -> & _); [lia|].
    rewrite Z.log2_pow2 by lia. lia.
Qed.

(** ** What the processor does with a set of ranges *)

Definition in_range (r : Range) (a : Z) : Prop := r_base r <= a < r_end r.
#[export] Instance in_range_dec r a : Decision (in_range r a).
Proof. unfold in_range. apply _. Defined.

(** The type of an address under overlapping variable ranges: the default when
    none matches, UC when one of them is UC, the common type when all agree,
    undefined otherwise. *)
Definition effective (default : CacheType) (ranges : list Range) (a : Z) : option CacheType :=
  match r_kind <$> filter (fun r => in_range r a) ranges with
  | [] => Some default
  | k :: ks =>
      if existsb (fun k => bool_decide (k = Uncacheable)) (k :: ks) then Some Uncacheable
      else if forallb (fun k' => bool_decide (k' = k)) ks then Some k
      else None
  end.

Lemma effective_default d rs a : (forall r, r ∈ rs -> ~ in_range r a) -> effective d rs a = Some d.
Proof.
  intros H. unfold effective. replace (filter (fun r => in_range r a) rs) with (@nil Range); [done|].
  symmetry. induction rs as [|r rs IH]; [done|].
  rewrite filter_cons_False; [apply IH; intros; apply H; by right|]. apply H. by left.
Qed.

Lemma effective_uc d rs a r :
  r ∈ rs -> in_range r a -> r_kind r = Uncacheable -> effective d rs a = Some Uncacheable.
Proof.
  intros Hr Ha Hk. unfold effective.
  assert (Hin : Uncacheable ∈ r_kind <$> filter (fun r => in_range r a) rs).
  { rewrite <- Hk. apply list_elem_of_fmap_2, list_elem_of_filter. done. }
  destruct (r_kind <$> _) as [|k ks]; [by apply not_elem_of_nil in Hin|].
  destruct (existsb _ (k :: ks)) eqn:E; [done|]. exfalso. apply not_true_iff_false in E. apply E.
  apply existsb_exists. exists Uncacheable. split; [by apply list_elem_of_In|]. by apply bool_decide_eq_true.
Qed.

Lemma effective_kind d rs a r :
  r ∈ rs -> in_range r a -> (forall r', r' ∈ rs -> in_range r' a -> r_kind r' = r_kind r) ->
  effective d rs a = Some (r_kind r).
Proof.
  intros Hr Ha Hall. destruct (decide (r_kind r = Uncacheable)) as [E|E].
  { rewrite E. by apply (effective_uc d rs a r). }
  unfold effective.
  assert (Hks : Forall (fun k => k = r_kind r) (r_kind <$> filter (fun r => in_range r a) rs)).
  { apply Forall_fmap, Forall_forall. intros r' Hr'%list_elem_of_In. apply list_elem_of_filter in Hr' as [? ?].
    by apply Hall. }
  assert (Hin : r_kind r ∈ r_kind <$> filter (fun r => in_range r a) rs).
  { apply list_elem_of_fmap_2, list_elem_of_filter. done. }
  destruct (r_kind <$> _) as [|k ks]; [by apply not_elem_of_nil in Hin|].
  inversion_clear Hks as [|? ? -> Hks'].
  replace (existsb _ _) with false.
  2:{ symmetry. apply not_true_iff_false. intros (x & Hx & Hu)%existsb_exists.
      apply bool_decide_eq_true in Hu as ->. destruct Hx as [Hx|Hx]; [by rewrite Hx in E|].
      rewrite Forall_forall in Hks'. by rewrite (Hks' _ Hx) in E. }
  replace (forallb _ _) with true; [done|]. symmetry. apply forallb_forall. intros x Hx.
  rewrite Forall_forall in Hks'. apply bool_decide_eq_true. by apply Hks'.
Qed.

(** ** What the planner emits *)

Definition tile_range (kind : CacheType) (t : Z * Z) : Range :=
  {| r_base := fst t; r_end := fst t + snd t; r_kind := kind |}.

Lemma add_tiles_Ok caps kind ts rs rs' :
  add_tiles caps kind ts rs = Ok rs' -> zlen rs <= variable_count caps ->
  rs' = rs ++ map (tile_range kind) ts /\ zlen rs' <= variable_count caps.
Proof.
  revert rs. induction ts as [|[b s] ts IH]; intros rs H Hc; simpl in H.
  - injection H as <-. by rewrite app_nil_r.
  - rust_step H. apply rbind_Ok in H as (rs1 & [Hlt ->]%push_Ok & H). bool_hyp.
    apply IH in H as [-> Hle]; [|rewrite zlen_app, zlen_cons, zlen_nil; lia].
    split; [|done]. rewrite <- app_assoc. done.
Qed.

Lemma add_chunks_eq caps b e kind rs :
  add_chunks caps b e kind rs = add_tiles caps kind (chunks b (e - b)) rs.
Proof. reflexivity. Qed.

Lemma add_chunks_Ok caps b e kind rs rs' :
  add_chunks caps b e kind rs = Ok rs' -> 0 <= b <= e -> e < 2 ^ 64 -> zlen rs <= variable_count caps ->
  exists ts, tiles b e ts /\ rs' = rs ++ map (tile_range kind) ts /\ zlen rs' <= variable_count caps.
Proof.
  intros H Hb He Hc. rewrite add_chunks_eq in H.
  assert (Ht : tiles b e (chunks b (e - b))).
  { pose proof (chunks_tile b (e - b)) as Ht. rewrite Zplus_minus in Ht. apply Ht; lia. }
  revert H Ht. generalize (chunks b (e - b)). intros ts H Ht.
  apply add_tiles_Ok in H as [-> Hle]; [|done]. by exists ts.
Qed.

Lemma tile_ranges_cover b e ts kind a :
  tiles b e ts -> b <= a < e <-> exists r, r ∈ map (tile_range kind) ts /\ in_range r a.
Proof.
  intros Ht. rewrite (tiles_cover b e ts a Ht). split.
  - intros (t & Hin & Ha). exists (tile_range kind t). split; [by apply list_elem_of_fmap_2|done].
  - intros (r & (t & -> & Hin)%list_elem_of_fmap & Ha). exists t. done.
Qed.

Lemma tile_ranges_kind kind ts r : r ∈ map (tile_range kind) ts -> r_kind r = kind.
Proof. by intros (t & -> & _)%list_elem_of_fmap. Qed.

Lemma effective_app_out d rs new a :
  (forall r, r ∈ new -> ~ in_range r a) -> effective d (rs ++ new) a = effective d rs a.
Proof.
  intros H. unfold effective. rewrite list.filter_app.
  replace (filter (fun r => in_range r a) new) with (@nil Range); [by rewrite app_nil_r|].
  symmetry. induction new as [|r new IH]; [done|].
  rewrite filter_cons_False; [apply IH; intros; apply H; by right | apply H; by left].
Qed.

(** A map of the address space: adjacent non-empty ranges from [lo] to [hi]. *)
Fixpoint contiguous (lo : Z) (ms : list Range) (hi : Z) : Prop :=
  match ms with
  | [] => lo = hi
  | r :: ms => r_base r = lo /\ lo < r_end r /\ contiguous (r_end r) ms hi
  end.

Lemma contiguous_le lo ms hi : contiguous lo ms hi -> lo <= hi.
Proof. revert lo. induction ms as [|r ms IH]; simpl; intros lo; [lia|]. intros (_ & ? & ?%IH). lia. Qed.

Lemma next_used_range caps lo ms :
  contiguous lo ms (caps_limit caps) -> lo <= next_used caps ms <= caps_limit caps.
Proof.
  unfold next_used. revert lo. induction ms as [|r ms IH]; intros lo Hc.
  - simpl in *. lia.
  - destruct Hc as (Hb & Hlt & Hc). pose proof (contiguous_le _ _ _ Hc). simpl.
    case_decide; [lia|]. specialize (IH _ Hc).
    destruct (list_find _ ms) as [[i n]|]; simpl in *; lia.
Qed.

Lemma next_used_uc caps r ms : r_kind r = Uncacheable -> next_used caps (r :: ms) = next_used caps ms.
Proof.
  intros H. unfold next_used. simpl. rewrite decide_False by (intros Hn; by apply Hn).
  by destruct (list_find _ ms) as [[i n]|].
Qed.

Lemma next_used_here caps r ms : r_kind r <> Uncacheable -> next_used caps (r :: ms) = r_base r.
Proof. intros H. unfold next_used. simpl. by rewrite decide_True. Qed.

Lemma best_end_range base range_end limit shifts cost end_ :
  end_ = range_end \/ range_end <= end_ <= limit ->
  Forall (fun s => 0 <= s) shifts ->
  let e := best_end base range_end limit shifts cost end_ in e = range_end \/ range_end <= e <= limit.
Proof.
  revert cost end_. induction shifts as [|s shifts IH]; intros cost end_ He Hs; [done|].
  inversion_clear Hs as [|? ? Hs0 Hs']. cbn [best_end]. case_match; [done|]. case_match eqn:Hl; [done|]. bool_hyp.
  assert (range_end <= next_multiple_of range_end (Z.shiftl 1 s)).
  { apply next_multiple_of_spec. rewrite Z.shiftl_1_l. lia. }
  case_match; apply IH; (done || lia).
Qed.

Lemma rounded_end_range caps default base range rest :
  0 < r_end range < 2 ^ 64 ->
  let e := rounded_end caps default base range rest in
  e = r_end range \/
  (default = Uncacheable /\ r_kind range = WriteBack /\ r_end range <= e <= next_used caps rest).
Proof.
  intros Hr. unfold rounded_end. destruct (decide (default = Uncacheable)) as [->|]; [|by left; rewrite bool_decide_false].
  destruct (decide (r_kind range = WriteBack)); [|left; rewrite (bool_decide_false (r_kind range = _)) by done; by rewrite andb_false_r].
  rewrite !bool_decide_true by done. simpl.
  destruct (best_end_range base (r_end range) (next_used caps rest) (shifts_of caps (r_end range))
    (length (chunks base (r_end range - base))) (r_end range)) as [->|?]; [by left | | by left | by right].
  unfold shifts_of. apply Forall_map, Forall_true. intros i.
  assert (0 <= trailing_zeros (r_end range)); [|lia].
  unfold trailing_zeros. case_match; [lia|]. apply Z.log2_nonneg.
Qed.

(** ** A candidate plan realizes its map *)

(** A variable-range register can hold the range. *)
Definition register_ok (r : Range) : Prop :=
  exists k, 0 <= k /\ r_end r - r_base r = 2 ^ k /\ r_base r mod 2 ^ k = 0.

Lemma tile_ranges_ok b e ts kind : tiles b e ts -> Forall register_ok (map (tile_range kind) ts).
Proof.
  induction 1 as [|a s e l (k & Hk & Hs & Hm) _ IH]; [constructor|]. constructor; [|done].
  exists k. simpl in *. split_and!; [done | lia | done].
Qed.

(** What earlier ranges may already cover from [lo] on: rounding a WB range up
    also carved the excess out as UC, and never reached a range in use. *)
Definition overhang (caps : Capabilities) (default : CacheType) (rs ms : list Range) (lo : Z) : Prop :=
  forall r a, r ∈ rs -> in_range r a -> lo <= a ->
    default = Uncacheable /\ a < next_used caps ms /\
    exists r', r' ∈ rs /\ in_range r' a /\ r_kind r' = Uncacheable.

(** What the planner emits for one range of the map. *)
Record emitted (caps : Capabilities) (default : CacheType) (range : Range) (rest new : list Range) : Prop := {
  em_right : forall a, r_base range <= a < r_end range -> (caps_fixed caps = true -> ONE_MIB <= a) ->
             (exists r, r ∈ new /\ in_range r a) /\
             (forall r, r ∈ new -> in_range r a -> r_kind r = r_kind range);
  em_above : forall r a, r ∈ new -> in_range r a -> r_base range <= a;
  em_over : forall r a, r ∈ new -> in_range r a -> r_end range <= a ->
            default = Uncacheable /\ a < next_used caps rest /\
            exists r', r' ∈ new /\ in_range r' a /\ r_kind r' = Uncacheable;
  em_registers : Forall register_ok new
}.

Lemma emit_Ok caps default range rest rs rs' :
  let base := if caps_fixed caps && (r_base range <? ONE_MIB) && negb (bool_decide (r_kind range = WriteBack))
              then ONE_MIB else r_base range in
  let end_ := rounded_end caps default base range rest in
  0 <= r_base range < r_end range -> contiguous (r_end range) rest (caps_limit caps) ->
  caps_limit caps < 2 ^ 64 -> (caps_fixed caps = true -> ONE_MIB < r_end range \/ ONE_MIB <= r_base range) ->
  zlen rs <= variable_count caps ->
  (let? ranges := add_chunks caps base end_ (r_kind range) rs in
   if end_ =? r_end range then Ok ranges else add_chunks caps (r_end range) end_ Uncacheable ranges) = Ok rs' ->
  exists new, rs' = rs ++ new /\ zlen rs' <= variable_count caps /\
    emitted caps default range rest new.
Proof.
  intros base end_ Hr Hc Hlim Hfix Hvc H. pose proof (contiguous_le _ _ _ Hc).
  pose proof (next_used_range _ _ _ Hc) as Hnu.
  assert (Hbase : r_base range <= base < r_end range /\
    (forall a, r_base range <= a -> (caps_fixed caps = true -> ONE_MIB <= a) -> base <= a)).
  { unfold base. destruct (caps_fixed caps) eqn:Hf; simpl; [|split; [lia | auto]].
    destruct (Z.ltb_spec (r_base range) ONE_MIB); simpl; [|split; [lia|auto]].
    destruct (negb (bool_decide (r_kind range = WriteBack)));
      (split; [|intros a ? Ha; specialize (Ha eq_refl); lia]); destruct (Hfix eq_refl); lia. }
  destruct Hbase as [Hb Hlow].
  destruct (rounded_end_range caps default base range rest) as [Hend|(Hd & Hk & Hend)]; [lia| |]; fold end_ in Hend.
  - rewrite (proj2 (Z.eqb_eq _ _) Hend) in H. apply rbind_Ok in H as (rs1 & H1 & [= <-]). rewrite Hend in H1.
    apply add_chunks_Ok in H1 as (ts & Ht & -> & Hle); [|lia..]. exists (map (tile_range (r_kind range)) ts).
    pose proof (tile_ranges_cover base (r_end range) ts (r_kind range)) as Hcov.
    split_and!; [done..|]. constructor.
    + intros a Ha Hfa. split; [apply (Hcov a Ht); pose proof (Hlow a (proj1 Ha) Hfa); lia|].
      intros r Hin _. by eapply tile_ranges_kind.
    + intros r a Hin Ha. enough (base <= a < r_end range) by lia. apply (Hcov a Ht). eauto.
    + intros r a Hin Ha Hge. enough (base <= a < r_end range) by lia. apply (Hcov a Ht). eauto.
    + by eapply tile_ranges_ok.
  - apply rbind_Ok in H as (rs1 & H1 & H2). apply add_chunks_Ok in H1 as (ts & Ht & -> & Hle1); [|lia..].
    assert (Hu : exists us, tiles (r_end range) end_ us /\
      rs' = (rs ++ map (tile_range (r_kind range)) ts) ++ map (tile_range Uncacheable) us /\
      zlen rs' <= variable_count caps).
    { destruct (Z.eqb_spec end_ (r_end range)) as [E|E].
      - injection H2 as <-. exists []. rewrite E, app_nil_r. split_and!; [constructor | done | done].
      - apply add_chunks_Ok in H2; [done | lia..]. }
    destruct Hu as (us & Hu & -> & Hle). exists (map (tile_range (r_kind range)) ts ++ map (tile_range Uncacheable) us).
    pose proof (tile_ranges_cover base end_ ts (r_kind range)) as Hcov.
    pose proof (tile_ranges_cover (r_end range) end_ us Uncacheable) as Hcu.
    split_and!; [by rewrite app_assoc | done |]. constructor.
    + intros a Ha Hfa. split.
      * destruct (proj1 (Hcov a Ht)) as (r & Hin & Hra); [pose proof (Hlow a (proj1 Ha) Hfa); lia|].
        exists r. split; [apply elem_of_app; by left | done].
      * intros r [Hin|Hin]%elem_of_app Hra; [by eapply tile_ranges_kind|].
        assert (r_end range <= a < end_) by (apply (Hcu a Hu); eauto). lia.
    + intros r a [Hin|Hin]%elem_of_app Ha.
      * enough (base <= a < end_) by lia. apply (Hcov a Ht). eauto.
      * enough (r_end range <= a < end_) by lia. apply (Hcu a Hu). eauto.
    + intros r a Hin Ha Hge. assert (Hae : r_end range <= a < end_).
      { apply elem_of_app in Hin as [Hin|Hin].
        - enough (base <= a < end_) by lia. apply (Hcov a Ht). eauto.
        - apply (Hcu a Hu). eauto. }
      split_and!; [done | lia |]. destruct (proj1 (Hcu a Hu) Hae) as (r' & Hin' & Ha').
      exists r'. split_and!; [apply elem_of_app; by right | done | by eapply tile_ranges_kind].
    + apply Forall_app. split; by eapply tile_ranges_ok.
Qed.

(** The effective types are those of the map, from [lo] on. *)
Definition realizes (caps : Capabilities) (default : CacheType) (rs ms : list Range) : Prop :=
  forall m a, m ∈ ms -> in_range m a -> (caps_fixed caps = true -> ONE_MIB <= a) ->
    effective default rs a = Some (r_kind m).

Lemma contiguous_above lo ms hi m a : contiguous lo ms hi -> m ∈ ms -> in_range m a -> lo <= a < hi.
Proof.
  revert lo. induction ms as [|r ms IH]; intros lo Hc Hin Ha; [by apply not_elem_of_nil in Hin|].
  destruct Hc as (Hb & Hlt & Hc). pose proof (contiguous_le _ _ _ Hc). unfold in_range in *.
  apply elem_of_cons in Hin as [->|Hin]; [lia|]. specialize (IH _ Hc Hin Ha). lia.
Qed.

(** Nothing hangs over into a range that is in use, or when the default is not UC. *)
Lemma overhang_none caps default rs range rest :
  overhang caps default rs (range :: rest) (r_base range) -> r_kind range <> default ->
  forall r a, r ∈ rs -> in_range r a -> ~ r_base range <= a.
Proof.
  intros Ho Hk r a Hin Ha Hge. destruct (Ho r a Hin Ha Hge) as (-> & Hlt & _).
  rewrite next_used_here in Hlt by done. lia.
Qed.

Lemma candidate_loop_Ok caps default ms lo rs rs' :
  0 <= lo -> contiguous lo ms (caps_limit caps) -> caps_limit caps < 2 ^ 64 ->
  zlen rs <= variable_count caps -> overhang caps default rs ms lo ->
  candidate_loop caps default ms rs = Ok rs' ->
  exists new, rs' = rs ++ new /\ zlen rs' <= variable_count caps /\ Forall register_ok new /\
    (forall r a, r ∈ new -> in_range r a -> lo <= a) /\ realizes caps default rs' ms.
Proof.
  intros Hlo Hc Hlim. revert lo rs Hlo Hc. induction ms as [|range rest IH]; intros lo rs Hlo Hc Hvc Hov H.
  { injection H as <-. exists []. rewrite app_nil_r. split_and!; try done.
    - intros r a Hin. by apply not_elem_of_nil in Hin.
    - intros m a Hin. by apply not_elem_of_nil in Hin. }
  destruct Hc as (Hb & Hlt & Hc). cbn [candidate_loop] in H.
  (* continue after [rs1], whose ranges are right for this range of the map *)
  assert (Hgo : forall rs1 new1, rs1 = rs ++ new1 -> zlen rs1 <= variable_count caps ->
    Forall register_ok new1 -> (forall r a, r ∈ new1 -> in_range r a -> lo <= a) ->
    overhang caps default rs1 rest (r_end range) ->
    (forall a, in_range range a -> (caps_fixed caps = true -> ONE_MIB <= a) ->
       effective default rs1 a = Some (r_kind range)) ->
    candidate_loop caps default rest rs1 = Ok rs' ->
    exists new, rs' = rs ++ new /\ zlen rs' <= variable_count caps /\ Forall register_ok new /\
      (forall r a, r ∈ new -> in_range r a -> lo <= a) /\ realizes caps default rs' (range :: rest)).
  { intros rs1 new1 -> Hvc1 Hreg1 Habove1 Hov1 Heff Hl.
    destruct (IH (r_end range) (rs ++ new1) ltac:(lia) Hc Hvc1 Hov1 Hl) as (new2 & -> & Hvc2 & Hreg2 & Habove2 & Hreal).
    exists (new1 ++ new2). split_and!; [by rewrite app_assoc | done | by apply Forall_app | |].
    - intros r a [Hin|Hin]%elem_of_app Ha; [by eapply Habove1|]. specialize (Habove2 r a Hin Ha). lia.
    - intros m a [->|Hin]%elem_of_cons Ha Hfa; [|by eapply Hreal].
      rewrite effective_app_out; [by apply Heff|]. intros r Hin Hra. specialize (Habove2 r a Hin Hra).
      unfold in_range in Ha. lia. }
  assert (Hov' : overhang caps default rs (range :: rest) (r_base range)) by (by rewrite Hb).
  destruct (decide (r_kind range = default)) as [Hk|Hk].
  - rewrite bool_decide_true in H by done. apply (Hgo rs []); try done; [by rewrite app_nil_r | | |].
    + intros r a Hin. by apply not_elem_of_nil in Hin.
    + intros r a Hin Ha Hge. destruct (Hov' r a Hin Ha) as (Hd & Hn & Hu); [lia|].
      rewrite next_used_uc in Hn by congruence. done.
    + intros a Ha _. destruct (decide (Exists (fun r => in_range r a) rs)) as [He|He].
      * apply Exists_exists in He as (r & Hin & Hra). apply list_elem_of_In in Hin.
        destruct (Hov' r a Hin Hra) as (Hd & _ & (r' & Hin' & Hra' & Hk')); [unfold in_range in Ha; lia|].
        rewrite (effective_uc _ _ _ r') by done. congruence.
      * rewrite effective_default; [by rewrite Hk|]. intros r Hin Hra. apply He, Exists_exists.
        exists r. split; [by apply list_elem_of_In | done].
  - rewrite bool_decide_false in H by done.
    pose proof (overhang_none _ _ _ _ _ Hov' Hk) as Hnone.
    destruct (caps_fixed caps && (r_base range <? ONE_MIB) && (r_end range <=? ONE_MIB)) eqn:Hskip.
    + apply (Hgo rs []); try done; [by rewrite app_nil_r | | |].
      * intros r a Hin. by apply not_elem_of_nil in Hin.
      * intros r a Hin Ha Hge. destruct (Hnone r a Hin Ha). lia.
      * intros a Ha Hfa. bool_hyp. match goal with E : caps_fixed caps = true |- _ => specialize (Hfa E) end.
        unfold in_range in Ha. lia.
    + cbv zeta in H.
      apply rbind_Ok in H as (ra & Ha & H). apply rbind_Ok in H as (rb & Hrb & H).
      destruct (emit_Ok caps default range rest rs rb) as (new & -> & Hvc1 & [Hright Habove Hover Hreg]);
        try done; [lia | | |].
      * intros Hf. rewrite Hf in Hskip. simpl in Hskip. bool_cases; lia.
      * rewrite Ha. exact Hrb.
      * apply (Hgo (rs ++ new) new); try done.
        -- intros r a Hin Hra. specialize (Habove r a Hin Hra). lia.
        -- intros r a [Hin|Hin]%elem_of_app Hra Hge; [destruct (Hnone r a Hin Hra); lia|].
           destruct (Hover r a Hin Hra Hge) as (Hd & Hn & r' & Hin' & Hr').
           split_and!; [done | done |]. exists r'. split; [apply elem_of_app; by right | done].
        -- intros a Hra Hfa. destruct (Hright a Hra Hfa) as [(r & Hin & Hr) Hall].
           rewrite <- (Hall r Hin Hr). apply effective_kind; [apply elem_of_app; by right | done |].
           intros r' [Hin'|Hin']%elem_of_app Hr'.
           ++ destruct (Hnone r' a Hin' Hr'). unfold in_range in Hra. lia.
           ++ by rewrite (Hall r' Hin' Hr'), (Hall r Hin Hr).
Qed.

(** ** The map is the request *)

Definition maps_to (ms : list Range) (a : Z) (k : CacheType) : Prop :=
  exists m, m ∈ ms /\ in_range m a /\ r_kind m = k.

Lemma maps_to_app ms ms' a k : maps_to (ms ++ ms') a k <-> maps_to ms a k \/ maps_to ms' a k.
Proof. unfold maps_to. setoid_rewrite elem_of_app. naive_solver. Qed.

Lemma maps_to_one m a k : maps_to [m] a k <-> in_range m a /\ k = r_kind m.
Proof. unfold maps_to. setoid_rewrite list_elem_of_singleton. naive_solver. Qed.

Lemma contiguous_app lo ms ms' hi :
  contiguous lo (ms ++ ms') hi <-> exists mid, contiguous lo ms mid /\ contiguous mid ms' hi.
Proof.
  revert lo. induction ms as [|r ms IH]; intros lo; simpl.
  - naive_solver.
  - rewrite IH. naive_solver.
Qed.

Lemma contiguous_covers lo ms hi a : contiguous lo ms hi -> lo <= a < hi -> exists k, maps_to ms a k.
Proof.
  revert lo. induction ms as [|r ms IH]; intros lo Hc Ha; simpl in Hc; [lia|].
  destruct Hc as (Hb & Hlt & Hc). destruct (Z.lt_ge_cases a (r_end r)).
  - exists (r_kind r), r. split_and!; [by left | unfold in_range; lia | done].
  - destruct (IH _ Hc) as (k & m & Hin & ?); [lia|]. exists k, m. split; [by right|done].
Qed.

Lemma push_contiguous ms r ms' :
  contiguous 0 ms (r_base r) -> r_base r < r_end r -> push MAX_RANGES NotSupported ms r = Ok ms' ->
  contiguous 0 ms' (r_end r) /\
  forall a k, maps_to ms' a k <-> maps_to ms a k \/ (in_range r a /\ k = r_kind r).
Proof.
  intros Hc Hr [_ ->]%push_Ok. split.
  - apply contiguous_app. exists (r_base r). simpl. done.
  - intros a k. by rewrite maps_to_app, maps_to_one.
Qed.

Lemma append_range_Ok ms r ms' :
  contiguous 0 ms (r_base r) -> r_base r < r_end r -> append_range ms r = Ok ms' ->
  contiguous 0 ms' (r_end r) /\
  forall a k, maps_to ms' a k <-> maps_to ms a k \/ (in_range r a /\ k = r_kind r).
Proof.
  intros Hc Hr H. unfold append_range in H.
  destruct (list.last ms) as [p|] eqn:Hl; [|by apply push_contiguous].
  case_match eqn:Hm; [|by apply push_contiguous]. injection H as <-. bool_hyp.
  apply last_Some in Hl as [pre ->]. rewrite length_app. simpl.
  replace (length pre + 1 - 1)%nat with (length pre) by lia. rewrite take_app_length.
  apply contiguous_app in Hc as (mid & Hpre & Hp). simpl in Hp. destruct Hp as (Hb & Hlt & He). split.
  - apply contiguous_app. exists mid. simpl. split_and!; (done || lia).
  - intros a k. rewrite !maps_to_app, !maps_to_one. unfold in_range. simpl.
    match goal with E : r_kind p = r_kind r |- _ => rewrite E end.
    split; [|naive_solver lia]. intros [?|[? ->]]; [auto|].
    destruct (Z.lt_ge_cases a (r_end p)); [left; right | right]; (split; [lia|done]).
Qed.

Lemma fill_map_base occ ms cursor res :
  Forall (fun r => r_base r < r_end r) occ -> fill_map occ ms cursor = Ok res ->
  forall r, r ∈ occ -> cursor <= r_base r.
Proof.
  revert ms cursor. induction occ as [|x occ IH]; intros ms cursor Hf H r Hin; [by apply not_elem_of_nil in Hin|].
  inversion_clear Hf as [|? ? Hx Hf']. simpl in H. rust_step H. bool_hyp.
  apply rbind_Ok in H as (ms1 & _ & H). apply rbind_Ok in H as (ms2 & _ & H).
  apply elem_of_cons in Hin as [->|Hin]; [done|]. specialize (IH _ _ Hf' H r Hin). lia.
Qed.

Lemma fill_map_Ok occ ms cursor ms' cursor' :
  Forall (fun r => r_base r < r_end r) occ -> contiguous 0 ms cursor ->
  fill_map occ ms cursor = Ok (ms', cursor') ->
  contiguous 0 ms' cursor' /\ cursor <= cursor' /\
  (forall r, r ∈ occ -> r_end r <= cursor') /\
  forall a k, maps_to ms' a k ->
    maps_to ms a k \/
    (cursor <= a /\ ((exists r, r ∈ occ /\ in_range r a /\ k = r_kind r) \/
                     (k = Uncacheable /\ forall r, r ∈ occ -> ~ in_range r a))).
Proof.
  revert ms cursor. induction occ as [|r occ IH]; intros ms cursor Hf Hc H.
  { injection H as <- <-. split_and!; [done | lia | | by auto]. intros r Hin. by apply not_elem_of_nil in Hin. }
  inversion_clear Hf as [|? ? Hr Hf']. simpl in H. rust_step H. bool_hyp.
  apply rbind_Ok in H as (ms1 & H1 & H). apply rbind_Ok in H as (ms2 & H2 & H).
  assert (Hgap : contiguous 0 ms1 (r_base r) /\ forall a k, maps_to ms1 a k ->
    maps_to ms a k \/ (cursor <= a < r_base r /\ k = Uncacheable)).
  { destruct (Z.ltb_spec cursor (r_base r)).
    - apply push_contiguous in H1 as [? Hm]; [|done..]. split; [done|]. intros a k Hk.
      apply Hm in Hk as [?|[? ->]]; [by left|right; done].
    - injection H1 as <-. replace (r_base r) with cursor by lia. auto. }
  destruct Hgap as [Hc1 Hm1]. apply append_range_Ok in H2 as [Hc2 Hm2]; [|done..].
  pose proof (fill_map_base _ _ _ _ Hf' H) as Hbase.
  destruct (IH _ _ Hf' Hc2 H) as (Hc' & Hcur & Hend & Hmap). split_and!; [done | lia | |].
  { intros x [->|Hin]%elem_of_cons; [lia | by apply Hend]. }
  intros a k Hk. apply Hmap in Hk as [Hk|(Ha & [(x & Hin & Hx & ->)|(-> & Hno)])].
  - apply Hm2 in Hk as [Hk|(Hra & ->)].
    + apply Hm1 in Hk as [?|(Ha & ->)]; [by left|]. right. split; [lia|]. right. split; [done|].
      intros x [->|Hin]%elem_of_cons Hx; unfold in_range in Hx; [lia|]. specialize (Hbase x Hin). lia.
    + right. unfold in_range in Hra. split; [lia|]. left. exists r. split; [by left|done].
  - right. split; [lia|]. left. exists x. split; [by right|done].
  - right. split; [lia|]. right. split; [done|].
    intros x [->|Hin]%elem_of_cons; [unfold in_range; lia | by apply Hno].
Qed.

(** *** The ranges that are admitted *)

Definition covers_addr (l : list (Z * Z)) (a : Z) : Prop :=
  Exists (fun '(b, s) => b <= a < b + s) l.
#[export] Instance covers_addr_dec l a : Decision (covers_addr l a).
Proof. apply Exists_dec. intros [b s]. change (Decision (b <= a < b + s)). apply _. Defined.

Lemma admit_range_Ok caps base size kind o :
  0 <= base -> 0 <= size -> admit_range caps base size kind = Ok o ->
  (forall r, o = Some r -> r_kind r = kind /\ 0 <= r_base r < r_end r /\ r_end r <= caps_limit caps) /\
  (forall a, (caps_fixed caps = true -> ONE_MIB <= a) ->
     base <= a < base + size <-> exists r, o = Some r /\ in_range r a).
Proof.
  intros Hb Hs H. unfold admit_range in H. unfold in_range.
  destruct (Z.eqb_spec size 0) as [->|Hne].
  { injection H as <-. split; [done|]. intros a _. split; [lia | by intros (? & ? & _)]. }
  apply rbind_Ok in H as (e & He & H). rewrite ok_or_Ok, checked_add_Some in He. destruct He as [-> _].
  destruct (caps_fixed caps && bool_decide (kind = WriteBack) && (base + size <=? ONE_MIB)) eqn:Hskip.
  { injection H as <-. split; [done|]. bool_hyp.
    intros a Hfa. match goal with E : caps_fixed caps = true |- _ => specialize (Hfa E) end.
    split; [lia | by intros (? & ? & _)]. }
  do 2 rust_step H. injection H as <-. bool_hyp.
  destruct (caps_fixed caps && bool_decide (kind = WriteBack) && (base <=? ONE_MIB)) eqn:Hlow.
  - bool_hyp. split.
    + intros r [= <-]. simpl. split_and!; (done || lia).
    + intros a Hfa. match goal with E : caps_fixed caps = true |- _ => specialize (Hfa E) end.
      split; [intros; eexists; split; [done|]; simpl; lia | intros (r & [= <-] & Hr); simpl in Hr; lia].
  - split.
    + intros r [= <-]. simpl. split_and!; (done || lia).
    + intros a _. split; [intros; eexists; split; [done|]; simpl; lia | by intros (r & [= <-] & Hr)].
Qed.

Lemma occupy_Ok caps inputs occ occ' :
  Forall (fun '(b, s, _) => 0 <= b /\ 0 <= s) inputs -> occupy caps inputs occ = Ok occ' ->
  exists new, occ' = occ ++ new /\
    Forall (fun r => 0 <= r_base r < r_end r /\ r_end r <= caps_limit caps) new /\
    forall a k, (caps_fixed caps = true -> ONE_MIB <= a) ->
      (exists r, r ∈ new /\ in_range r a /\ r_kind r = k) <->
      Exists (fun '(b, s, k') => b <= a < b + s /\ k' = k) inputs.
Proof.
  revert occ. induction inputs as [|[[b s] kind] inputs IH]; intros occ Hf H.
  { injection H as <-. exists []. rewrite app_nil_r. split_and!; [done..|]. intros a k _.
    rewrite Exists_nil. split; [intros (r & Hin & _); by apply not_elem_of_nil in Hin | done]. }
  inversion_clear Hf as [|? ? Hbs Hf']. destruct Hbs as [Hb Hs]. simpl in H. apply rbind_Ok in H as (o & Ho & H).
  apply rbind_Ok in H as (occ1 & Hp & H).
  destruct (admit_range_Ok _ _ _ _ _ Hb Hs Ho) as [Hr Hcov].
  destruct (IH _ Hf' H) as (new & -> & Hnew & Hiff).
  exists (option_list o ++ new). split_and!.
  - destruct o as [r|]; [|by injection Hp as ->]. apply push_Ok in Hp as [_ ->]. by rewrite <- app_assoc.
  - apply Forall_app. split; [|done]. destruct o as [r|]; constructor; [by apply Hr | done].
  - intros a k Hfa. rewrite Exists_cons, <- (Hiff a k Hfa). rewrite (Hcov a Hfa). split.
    + intros (r & Hin & Hra & Hk). apply elem_of_app in Hin as [Hin|Hin]; [|right; eauto].
      left. destruct o as [x|]; [|by apply not_elem_of_nil in Hin].
      apply list_elem_of_singleton in Hin as ->. destruct (Hr x eq_refl) as [<- _]. eauto.
    + intros [((r & -> & Hra) & <-)|(r & Hin & ?)].
      * exists r. destruct (Hr r eq_refl) as [-> _]. split_and!; [|done|done]. apply elem_of_app. left. by left.
      * exists r. split; [apply elem_of_app; by right|done].
Qed.

Lemma insert_range_perm r l : insert_range r l ≡ₚ r :: l.
Proof.
  induction l as [|x l IH]; simpl; [done|]. case_match; [done|]. rewrite IH. apply Permutation_swap.
Qed.

Lemma sort_ranges_perm l : sort_ranges l ≡ₚ l.
Proof. induction l as [|x l IH]; simpl; [done|]. by rewrite insert_range_perm, IH. Qed.

Lemma fill_map_disjoint occ ms cursor res r r' a :
  Forall (fun r => r_base r < r_end r) occ -> fill_map occ ms cursor = Ok res ->
  r ∈ occ -> r' ∈ occ -> in_range r a -> in_range r' a -> r_kind r = r_kind r'.
Proof.
  revert ms cursor. induction occ as [|x occ IH]; intros ms cursor Hf H Hr Hr' Ha Ha';
    [by apply not_elem_of_nil in Hr|].
  inversion_clear Hf as [|? ? Hx Hf']. simpl in H. rust_step H. bool_hyp.
  apply rbind_Ok in H as (ms1 & _ & H). apply rbind_Ok in H as (ms2 & _ & H).
  pose proof (fill_map_base _ _ _ _ Hf' H) as Hbase. unfold in_range in *.
  apply elem_of_cons in Hr as [->|Hr]; apply elem_of_cons in Hr' as [->|Hr'].
  - done.
  - specialize (Hbase _ Hr'). lia.
  - specialize (Hbase _ Hr). lia.
  - by eapply IH.
Qed.

(** The type asked for: RAM is write-back, apertures are write-combining,
    everything else is uncacheable. *)
Definition requested (ram wc : list (Z * Z)) (a : Z) : CacheType :=
  if decide (covers_addr ram a) then WriteBack
  else if decide (covers_addr wc a) then WriteCombining
  else Uncacheable.

Definition inputs_ok (l : list (Z * Z)) : Prop := Forall (fun '(b, s) => 0 <= b /\ 0 <= s) l.

Lemma Exists_inputs ram wc a k :
  Exists (fun '(b, s, k') => b <= a < b + s /\ k' = k)
    (map (fun '(b, s) => (b, s, WriteBack)) ram ++ map (fun '(b, s) => (b, s, WriteCombining)) wc) <->
  (covers_addr ram a /\ k = WriteBack) \/ (covers_addr wc a /\ k = WriteCombining).
Proof.
  assert (H : forall l c, Exists (fun '(b, s, k') => b <= a < b + s /\ k' = k)
    (map (fun '(b, s) => (b, s, c)) l) <-> covers_addr l a /\ k = c).
  { intros l c. unfold covers_addr. rewrite Exists_map. rewrite !Exists_exists. split.
    - intros ([b s] & Hin & Ha & ->). split; [|done]. by exists (b, s).
    - intros [([b s] & Hin & Ha) ->]. by exists (b, s). }
  rewrite Exists_app, !H. done.
Qed.

Lemma fill_map_cursor occ ms cursor ms' cursor' hi :
  Forall (fun r => r_end r <= hi) occ -> cursor <= hi -> fill_map occ ms cursor = Ok (ms', cursor') ->
  cursor' <= hi.
Proof.
  revert ms cursor. induction occ as [|r occ IH]; intros ms cursor Hf Hc H; simpl in H; [by injection H as _ <-|].
  inversion_clear Hf. rust_step H. apply rbind_Ok in H as (? & _ & H). apply rbind_Ok in H as (? & _ & H).
  by eapply IH.
Qed.

Lemma inputs_ok_map l (c : CacheType) :
  inputs_ok l -> Forall (fun '(b, s, _) => 0 <= b /\ 0 <= s) (map (fun '(b, s) => (b, s, c)) l).
Proof. induction 1 as [|[b s] l Hx _ IH]; [constructor|]. by constructor. Qed.

Lemma build_map_Ok caps ram wc ms :
  inputs_ok ram -> inputs_ok wc -> 0 < caps_limit caps -> build_map caps ram wc = Ok ms ->
  contiguous 0 ms (caps_limit caps) /\
  forall m a, m ∈ ms -> in_range m a -> (caps_fixed caps = true -> ONE_MIB <= a) ->
    r_kind m = requested ram wc a.
Proof.
  intros Hram Hwc Hpos H. unfold build_map in H. apply rbind_Ok in H as (occ & Hocc & H). rust_step H.
  apply rbind_Ok in H as ([map cursor] & Hfill & H).
  apply occupy_Ok in Hocc as (new & -> & Hnew & Hiff); [|apply Forall_app; split; by apply inputs_ok_map].
  rewrite app_nil_l in *. pose proof (sort_ranges_perm new) as Hperm.
  assert (Hsort : Forall (fun r => r_base r < r_end r) (sort_ranges new)).
  { rewrite Hperm. eapply Forall_impl; [|exact Hnew]. simpl. lia. }
  destruct (fill_map_Ok _ _ _ _ _ Hsort (eq_refl : contiguous 0 [] 0) Hfill) as (Hc & Hcur & Hend & Hmap).
  assert (Hlim : cursor <= caps_limit caps).
  { apply (fill_map_cursor (sort_ranges new) [] 0 map cursor); [|lia|done]. rewrite Hperm. eapply Forall_impl; [|exact Hnew]. simpl. lia. }
  assert (Hkind : forall a k, (caps_fixed caps = true -> ONE_MIB <= a) ->
    (exists r, r ∈ sort_ranges new /\ in_range r a /\ k = r_kind r) \/
    (k = Uncacheable /\ forall r, r ∈ sort_ranges new -> ~ in_range r a) -> k = requested ram wc a).
  { intros a k Hfa Hk. unfold requested.
    assert (Hcov : forall k', (covers_addr ram a /\ k' = WriteBack) \/ (covers_addr wc a /\ k' = WriteCombining) ->
      exists r, r ∈ sort_ranges new /\ in_range r a /\ r_kind r = k').
    { intros k' Hk'. rewrite <- Exists_inputs, <- (Hiff a k' Hfa) in Hk'. by setoid_rewrite Hperm. }
    destruct Hk as [(r & Hin & Hra & ->)|(-> & Hno)].
    - assert (Hk : (covers_addr ram a /\ r_kind r = WriteBack) \/ (covers_addr wc a /\ r_kind r = WriteCombining)).
      { rewrite <- Exists_inputs, <- (Hiff a _ Hfa). exists r. by rewrite <- Hperm. }
      destruct Hk as [[Hr ->]|[Hw Hk]]; [by rewrite decide_True|].
      destruct (decide (covers_addr ram a)) as [Hr|Hr]; [|by rewrite decide_True].
      destruct (Hcov WriteBack) as (r' & Hin' & Hra' & <-); [by left|].
      by eapply fill_map_disjoint.
    - rewrite !decide_False; [done| |]; intros Hx.
      + destruct (Hcov WriteCombining) as (r & Hin & Hra & _); [by right|]. by eapply Hno.
      + destruct (Hcov WriteBack) as (r & Hin & Hra & _); [by left|]. by eapply Hno. }
  assert (Hdone : forall m a, m ∈ map -> in_range m a -> (caps_fixed caps = true -> ONE_MIB <= a) ->
    r_kind m = requested ram wc a).
  { intros m a Hin Ha Hfa. destruct (Hmap a (r_kind m)) as [(x & Hx & _)|[_ Hk]]; [by exists m | | by apply Hkind].
    by apply not_elem_of_nil in Hx. }
  destruct (Z.ltb_spec cursor (caps_limit caps)).
  - pose proof H as [_ Hpush]%push_Ok. apply push_contiguous in H as [Hc' _]; [|done..]. split; [done|].
    subst ms. intros m a [Hin|Hin]%elem_of_app Ha Hfa; [by apply Hdone|].
    apply list_elem_of_singleton in Hin as ->. apply (Hkind a Uncacheable Hfa). right. split; [done|].
    intros r Hin Hra. specialize (Hend r Hin). unfold in_range in *. simpl in *. lia.
  - injection H as <-. replace (caps_limit caps) with cursor by lia. done.
Qed.

Lemma candidate_Ok caps default ms plan :
  contiguous 0 ms (caps_limit caps) -> caps_limit caps < 2 ^ 64 -> 0 <= variable_count caps ->
  candidate caps ms default = Ok plan ->
  p_default plan = default /\ zlen (p_ranges plan) <= variable_count caps /\
  Forall register_ok (p_ranges plan) /\ realizes caps default (p_ranges plan) ms.
Proof.
  intros Hc Hlim Hvc H. unfold candidate in H. apply rbind_Ok in H as (rs & H & [= <-]).
  apply (candidate_loop_Ok caps default ms 0) in H as (new & -> & ? & ? & _ & ?); [done | lia | done | done | done |].
  intros r a Hin. by apply not_elem_of_nil in Hin.
Qed.

(** What a successful [build] establishes. *)
Definition plan_realizes (caps : Capabilities) (ram wc : list (Z * Z)) (plan : Plan) : Prop :=
  zlen (p_ranges plan) <= variable_count caps /\ Forall register_ok (p_ranges plan) /\
  forall a, 0 <= a < caps_limit caps -> (caps_fixed caps = true -> ONE_MIB <= a) ->
    effective (p_default plan) (p_ranges plan) a = Some (requested ram wc a).

Lemma build_Ok caps ram wc plan :
  inputs_ok ram -> inputs_ok wc -> 0 <= variable_count caps -> build caps ram wc = Ok plan ->
  plan_realizes caps ram wc plan.
Proof.
  intros Hram Hwc Hvc H. unfold build in H. rust_step H.
  assert (Hlim : 0 < caps_limit caps < 2 ^ 64).
  { bool_hyp. unfold caps_limit. rewrite Z.shiftl_1_l.
    split; [apply Z.pow_pos_nonneg; lia | apply Z.pow_lt_mono_r; lia]. }
  apply rbind_Ok in H as (ms & Hms & H). apply build_map_Ok in Hms as [Hc Hkind]; [|done|done|lia].
  assert (Hcand : forall default p, candidate caps ms default = Ok p ->
    plan_realizes caps ram wc p).
  { intros default p Hp. unfold plan_realizes. apply candidate_Ok in Hp as (-> & ? & ? & Hreal); [|done|lia|done].
    split_and!; [done..|]. intros a Ha Hfa. destruct (contiguous_covers _ _ _ a Hc Ha) as (k & m & Hin & Hma & <-).
    rewrite (Hreal m a Hin Hma Hfa). f_equal. by apply Hkind. }
  destruct (candidate caps ms Uncacheable) as [uc| |] eqn:Huc, (candidate caps ms WriteBack) as [wb| |] eqn:Hwb;
    try discriminate H; injection H as <-; [case_match|..]; eauto.
Qed.

(** C34: The plan realizes the request: for every physical address (from 1 MiB
    up when the fixed-range registers govern the first MiB), the type the
    processor derives from the planned registers and default, by its own rules
    for overlapping ranges, is WB for RAM, WC for an aperture and UC elsewhere;
    the plan uses no more registers than there are, each holding a naturally
    aligned power of two. *)
Theorem build_realizes caps ram wc plan :
  inputs_ok ram -> inputs_ok wc -> 0 <= variable_count caps -> build caps ram wc = Ok plan ->
  zlen (p_ranges plan) <= variable_count caps /\ Forall register_ok (p_ranges plan) /\
  forall a, 0 <= a < caps_limit caps -> (caps_fixed caps = true -> ONE_MIB <= a) ->
    effective (p_default plan) (p_ranges plan) a = Some (requested ram wc a).
Proof. apply build_Ok. Qed.

Lemma inputs_ok_nil : inputs_ok [].
Proof. constructor. Qed.

Lemma inputs_ok_below ram : inputs_ok ram -> inputs_ok (below_4g ram).
Proof.
  induction 1 as [|[b s] l [Hb Hs] _ IH]; [constructor|]. unfold below_4g. simpl.
  destruct (Z.ltb_spec b (Z.min (saturating_add u64_max b s) FOUR_GIB)); [|done].
  apply Forall_cons; [cbn; lia | exact IH].
Qed.

(** Below 4 GiB the trimmed RAM map is the RAM map. *)
Lemma below_4g_covers ram a :
  Forall (fun '(b, s) => b + s <= u64_max) ram ->
  covers_addr (below_4g ram) a <-> covers_addr ram a /\ a < FOUR_GIB.
Proof.
  unfold covers_addr. induction 1 as [|[b s] l Hb _ IH].
  - simpl. rewrite !Exists_nil. naive_solver.
  - unfold below_4g in *. simpl. unfold saturating_add in *. rewrite (Z.min_r u64_max (b + s)) by done.
    destruct (Z.ltb_spec b (Z.min (b + s) FOUR_GIB)); rewrite ?Exists_cons, IH.
    + split; [intros [?|?]; [split; [left; lia | lia] | naive_solver] | intros [[?|?] ?]; [left; lia | by right]].
    + split; [naive_solver | intros [[?|?] ?]; [lia | done]].
Qed.

(** However few registers there are, the final solution never gives up the
    RAM below 4 GiB: it stays write-back, and nothing that is neither RAM nor an
    aperture becomes cacheable. *)
Theorem final_solution_low_ram caps ram wc plan a :
  inputs_ok ram -> inputs_ok wc -> Forall (fun '(b, s) => b + s <= u64_max) ram ->
  0 <= variable_count caps -> final_solution caps ram wc = Ok plan ->
  0 <= a < caps_limit caps -> (caps_fixed caps = true -> ONE_MIB <= a) ->
  (covers_addr ram a -> a < FOUR_GIB ->
     effective (p_default plan) (p_ranges plan) a = Some WriteBack) /\
  (~ covers_addr ram a -> ~ covers_addr wc a ->
     effective (p_default plan) (p_ranges plan) a = Some Uncacheable).
Proof.
  intros Hram Hwc Hfit Hvc H Ha Hfa. unfold final_solution, build_ram in H.
  assert (Hcase : exists ram' wc', build caps ram' wc' = Ok plan /\ inputs_ok ram' /\ inputs_ok wc' /\
    (ram' = ram \/ ram' = below_4g ram) /\ (wc' = wc \/ wc' = [])).
  { destruct (build caps ram wc) as [p|[]|] eqn:E1; try discriminate H.
    - injection H as <-. exists ram, wc. split_and!; auto.
    - destruct (build caps ram []) as [p|[]|] eqn:E2; try discriminate H.
      + injection H as <-. exists ram, []. split_and!; auto using inputs_ok_nil.
      + exists (below_4g ram), []. split_and!; auto using inputs_ok_below, inputs_ok_nil. }
  destruct Hcase as (ram' & wc' & Hb & Hram' & Hwc' & Hr & Hw).
  destruct (build_Ok _ _ _ _ Hram' Hwc' Hvc Hb) as (_ & _ & Heff). rewrite (Heff a Ha Hfa). unfold requested.
  pose proof (below_4g_covers ram a Hfit) as Hbelow. split.
  - intros Hc Hlt. rewrite decide_True; [done|]. destruct Hr as [->| ->]; [done|]. by apply Hbelow.
  - intros Hc Hcw. rewrite !decide_False; [done| |].
    + destruct Hw as [->| ->]; [done|]. intros Hn. by apply Exists_nil in Hn.
    + destruct Hr as [->| ->]; [done|]. rewrite Hbelow. tauto.
Qed.

(** ** Register encoding *)

(** [physical_address_mask()] for a CPU with [bits] physical address bits. *)
Definition physical_address_mask (bits : Z) : Z :=
  if 64 <=? bits then not_mask 64 0xfff
  else Z.land (Z.shiftl 1 bits - 1) (not_mask 64 0xfff).

Definition encode_variable (bits base size ty : Z) : Z * Z :=
  let mask := physical_address_mask bits in
  (Z.lor (Z.land base mask) ty,
   Z.lor (Z.land (not_mask 64 ((size - 1) mod 2 ^ 64)) mask) VALID).

Definition is_valid_mask (mask : Z) : bool := negb (Z.land mask VALID =? 0).
Definition decode_base (bits base : Z) : Z := Z.land base (physical_address_mask bits).
Definition decode_type (base : Z) : Z := Z.land base 0xff.
Definition decode_size (bits mask : Z) : Z :=
  let phys := physical_address_mask bits in
  (Z.land (not_mask 64 (Z.land mask phys)) phys + 0x1000) mod 2 ^ 64.

(** The architecture's rule: a valid register pair matches an address when they
    agree on the masked address bits. *)
Definition register_matches (bits : Z) (reg : Z * Z) (a : Z) : bool :=
  let m := Z.land (snd reg) (physical_address_mask bits) in
  is_valid_mask (snd reg) && (Z.land a m =? Z.land (fst reg) m).

(** Bits of the values involved, by position. *)
Lemma testbit_not_mask w k i :
  0 <= k <= w -> 0 <= i -> Z.testbit (not_mask w (2 ^ k - 1)) i = (k <=? i) && (i <? w).
Proof.
  intros Hk Hi. unfold not_mask.
  replace (2 ^ w - 1 - (2 ^ k - 1)) with (Z.shiftl (Z.ones (w - k)) k).
  2:{ rewrite Z.shiftl_mul_pow2, Z.ones_equiv by lia.
      replace w with ((w - k) + k) at 2 by lia. rewrite Z.pow_add_r by lia. lia. }
  rewrite Z.shiftl_spec by done. destruct (Z.leb_spec k i); simpl.
  - rewrite Z.testbit_ones by lia. rewrite (proj2 (Z.leb_le 0 (i - k))) by lia. simpl.
    destruct (Z.ltb_spec i w); [apply Z.ltb_lt; lia | apply Z.ltb_ge; lia].
  - apply Z.testbit_neg_r. lia.
Qed.

Lemma testbit_phys_mask bits i :
  12 <= bits < 64 -> 0 <= i -> Z.testbit (physical_address_mask bits) i = (12 <=? i) && (i <? bits).
Proof.
  intros Hb Hi. unfold physical_address_mask. rewrite (proj2 (Z.leb_gt _ _)) by lia.
  change 0xfff with (2 ^ 12 - 1). rewrite Z.land_spec, testbit_not_mask by lia.
  rewrite Z.shiftl_1_l. replace (2 ^ bits - 1) with (Z.ones bits) by (rewrite Z.ones_equiv; lia).
  rewrite Z.testbit_ones by lia. rewrite (proj2 (Z.leb_le 0 i)) by lia. simpl.
  destruct (Z.ltb_spec i bits), (Z.leb_spec 12 i); simpl; try done.
  - by apply Z.ltb_lt; lia.
Qed.

Lemma testbit_not64 m i :
  0 <= m < 2 ^ 64 -> 0 <= i -> Z.testbit (not_mask 64 m) i = (i <? 64) && negb (Z.testbit m i).
Proof.
  intros Hm Hi. unfold not_mask. replace (2 ^ 64 - 1 - m) with (Z.lnot m mod 2 ^ 64).
  - destruct (Z.ltb_spec i 64); simpl.
    + rewrite Z.mod_pow2_bits_low by lia. by apply Z.lnot_spec.
    + apply Z.mod_pow2_bits_high. lia.
  - unfold Z.lnot. symmetry. apply (Z.mod_unique_pos _ _ (-1)); lia.
Qed.

Section register.
Context (bits base k ty : Z).
Hypothesis (Hbits : 32 <= bits <= 52) (Hk : 12 <= k <= bits) (Hbase : 0 <= base < 2 ^ bits)
  (Halign : base mod 2 ^ k = 0) (Hty : 0 <= ty < 256).

Let reg : Z * Z := encode_variable bits base (2 ^ k) ty.

Lemma size_mod : (2 ^ k - 1) mod 2 ^ 64 = 2 ^ k - 1.
Proof.
  pose proof (Z.pow_pos_nonneg 2 k). apply Z.mod_small.
  assert (2 ^ k <= 2 ^ 64) by (apply Z.pow_le_mono_r; lia). lia.
Qed.

Lemma base_low i : 0 <= i < k -> Z.testbit base i = false.
Proof.
  intros Hi. apply Z.mod_divide in Halign as [q Hq]; [|pose proof (Z.pow_pos_nonneg 2 k); lia].
  rewrite Hq. apply Z.mul_pow2_bits_low. lia.
Qed.

Lemma ty_high i : 8 <= i -> Z.testbit ty i = false.
Proof. intros. apply (testbit_high ty 8); lia. Qed.

Lemma testbit_mask i : 0 <= i ->
  Z.testbit (snd reg) i = ((k <=? i) && (i <? bits)) || (i =? 11).
Proof.
  intros Hi. unfold reg, encode_variable, VALID. cbn [snd].
  rewrite size_mod, Z.lor_spec, Z.land_spec, testbit_not_mask, testbit_phys_mask by lia.
  rewrite Z.pow2_bits_eqb, (Z.eqb_sym 11 i) by lia. f_equal.
  destruct (Z.leb_spec k i), (Z.ltb_spec i 64), (Z.leb_spec 12 i), (Z.ltb_spec i bits); simpl; lia || done.
Qed.

Lemma testbit_base i : 0 <= i ->
  Z.testbit (fst reg) i = (Z.testbit base i && (12 <=? i)) || Z.testbit ty i.
Proof.
  intros Hi. unfold reg, encode_variable. cbn [fst].
  rewrite Z.lor_spec, Z.land_spec, testbit_phys_mask by lia. f_equal.
  destruct (Z.ltb_spec i bits); [by rewrite andb_true_r|].
  rewrite (testbit_high base bits i) by lia. done.
Qed.

Lemma reg_valid : is_valid_mask (snd reg) = true.
Proof.
  unfold is_valid_mask. apply negb_true_iff, Z.eqb_neq. intros H.
  assert (Hb : Z.testbit (Z.land (snd reg) VALID) 11 = true).
  { rewrite Z.land_spec, testbit_mask by lia. unfold VALID. rewrite Z.pow2_bits_true by lia.
    by rewrite orb_true_r. }
  by rewrite H, Z.bits_0 in Hb.
Qed.

(** The mask selects the address bits from [k] up. *)
Lemma reg_mask : Z.land (snd reg) (physical_address_mask bits) = not_mask bits (2 ^ k - 1).
Proof.
  apply Z.bits_inj'. intros i Hi. rewrite Z.land_spec, testbit_mask, testbit_phys_mask, testbit_not_mask by lia.
  destruct (Z.leb_spec k i), (Z.ltb_spec i bits), (Z.eqb_spec i 11), (Z.leb_spec 12 i); simpl; lia || done.
Qed.

Lemma reg_base_masked : Z.land (fst reg) (not_mask bits (2 ^ k - 1)) = base.
Proof.
  apply Z.bits_inj'. intros i Hi. rewrite Z.land_spec, testbit_base, testbit_not_mask by lia.
  destruct (Z.leb_spec k i).
  - rewrite ty_high by lia. rewrite (proj2 (Z.leb_le 12 i)) by lia.
    rewrite andb_true_r, orb_false_r. simpl. destruct (Z.ltb_spec i bits); [apply andb_true_r|].
    by rewrite (testbit_high base bits i) by lia.
  - rewrite base_low by lia. apply andb_false_r.
Qed.

Lemma reg_matches_iff a : 0 <= a < 2 ^ bits ->
  register_matches bits reg a = true <-> base <= a < base + 2 ^ k.
Proof.
  intros Ha. unfold register_matches. rewrite reg_valid, reg_mask, reg_base_masked. simpl.
  rewrite land_not_mask by lia. rewrite Z.eqb_eq.
  pose proof (Z.pow_pos_nonneg 2 k ltac:(lia) ltac:(lia)) as Hp.
  pose proof (Z.div_mod a (2 ^ k)). pose proof (Z.mod_pos_bound a (2 ^ k) Hp).
  apply Z.mod_divide in Halign as [q Hq]; [|lia]. split; [lia|].
  intros Hin. assert (a / 2 ^ k = q); [|lia]. symmetry. apply (Z.div_unique_pos _ _ _ (a - base)); lia.
Qed.

Lemma reg_decode :
  decode_base bits (fst reg) = base /\ decode_type (fst reg) = ty /\ decode_size bits (snd reg) = 2 ^ k.
Proof.
  split_and!.
  - unfold decode_base. apply Z.bits_inj'. intros i Hi.
    rewrite Z.land_spec, testbit_base, testbit_phys_mask by lia.
    destruct (Z.leb_spec 12 i); simpl; [|by rewrite base_low, andb_false_r by lia].
    rewrite ty_high by lia. rewrite andb_true_r, orb_false_r.
    destruct (Z.ltb_spec i bits); [apply andb_true_r|]. by rewrite (testbit_high base bits i) by lia.
  - unfold decode_type. change 0xff with (Z.ones 8). apply Z.bits_inj'. intros i Hi.
    rewrite Z.land_spec, testbit_base, Z.testbit_ones by lia. rewrite (proj2 (Z.leb_le 0 i)) by lia. simpl.
    destruct (Z.ltb_spec i 8).
    + rewrite base_low by lia. simpl. by rewrite andb_true_r.
    + rewrite (ty_high i) by lia. apply andb_false_r.
  - unfold decode_size. rewrite reg_mask.
    assert (Hk64 : 2 ^ bits < 2 ^ 64 /\ 2 ^ k <= 2 ^ bits /\ 2 ^ 12 <= 2 ^ k).
    { split_and!; [apply Z.pow_lt_mono_r | apply Z.pow_le_mono_r | apply Z.pow_le_mono_r]; lia. }
    assert (Hnm : 0 <= not_mask bits (2 ^ k - 1) < 2 ^ 64) by (unfold not_mask; lia).
    assert (Z.land (not_mask 64 (not_mask bits (2 ^ k - 1))) (physical_address_mask bits) = not_mask k (2 ^ 12 - 1)) as ->.
    { apply Z.bits_inj'. intros i Hi.
      rewrite Z.land_spec, testbit_not64, testbit_phys_mask, !testbit_not_mask by lia.
      destruct (Z.ltb_spec i 64), (Z.leb_spec k i), (Z.ltb_spec i bits), (Z.leb_spec 12 i), (Z.ltb_spec i k);
        simpl; lia || done. }
    unfold not_mask. rewrite Z.mod_small; lia.
Qed.
End register.

(** The register encoding is right: the pair [encode_variable] computes for
    a naturally aligned power-of-two range matches exactly the addresses of the
    range, and decodes back to its base, type and size. *)
Theorem encode_variable_matches bits base k ty a :
  32 <= bits <= 52 -> 12 <= k <= bits -> 0 <= base < 2 ^ bits -> base mod 2 ^ k = 0 ->
  0 <= ty < 256 -> 0 <= a < 2 ^ bits ->
  let reg := encode_variable bits base (2 ^ k) ty in
  (register_matches bits reg a = true <-> base <= a < base + 2 ^ k) /\
  decode_base bits (fst reg) = base /\ decode_type (fst reg) = ty /\ decode_size bits (snd reg) = 2 ^ k.
Proof. intros. split; [by apply reg_matches_iff | by apply reg_decode]. Qed.

(** ** The fixed-range registers *)

Definition fixed_type (address : Z) : CacheType :=
  if (0xa0000 <=? address) && (address <? 0xc0000) then Uncacheable else WriteBack.

Definition FIXED_MSRS : list Z :=
  [0x250; 0x258; 0x259; 0x268; 0x269; 0x26a; 0x26b; 0x26c; 0x26d; 0x26e; 0x26f].

(** Base and step of the ranges of the [index]th fixed register. *)
Definition fixed_ranges (index : Z) : Z * Z :=
  if index =? 0 then (0, 0x10000)
  else if index =? 1 then (0x80000, 0x4000)
  else if index =? 2 then (0xa0000, 0x4000)
  else (0xc0000 + (index - 3) * 0x8000, 0x1000).

Definition fixed_msr_value (index : Z) : Z :=
  let '(base, step) := fixed_ranges index in
  foldl (fun value range =>
           Z.lor value (Z.shiftl (cache_type_u8 (fixed_type (base + range * step))) (range * 8)))
    0 [0; 1; 2; 3; 4; 5; 6; 7].

(** The register and byte that govern an address below 1 MiB (Intel SDM, fixed-range MTRRs). *)
Definition fixed_slot (a : Z) : Z * Z :=
  if a <? 0x80000 then (0, a / 0x10000)
  else if a <? 0xa0000 then (1, (a - 0x80000) / 0x4000)
  else if a <? 0xc0000 then (2, (a - 0xa0000) / 0x4000)
  else (3 + (a - 0xc0000) / 0x8000, (a - 0xc0000) mod 0x8000 / 0x1000).

Definition fixed_byte (index range : Z) : Z := Z.land (Z.shiftr (fixed_msr_value index) (range * 8)) 0xff.

(** All 88 bytes, by evaluation. *)
Lemma fixed_bytes_checked :
  forallb (fun i => forallb (fun j =>
    fixed_byte (Z.of_nat i) (Z.of_nat j) =?
    cache_type_u8 (fixed_type (fst (fixed_ranges (Z.of_nat i)) + Z.of_nat j * snd (fixed_ranges (Z.of_nat i)))))
    (seq 0 8)) (seq 0 11) = true.
Proof. vm_compute. reflexivity. Qed.

Lemma fixed_byte_spec i j :
  0 <= i < 11 -> 0 <= j < 8 ->
  fixed_byte i j = cache_type_u8 (fixed_type (fst (fixed_ranges i) + j * snd (fixed_ranges i))).
Proof.
  intros Hi Hj. pose proof fixed_bytes_checked as H. rewrite forallb_forall in H.
  specialize (H (Z.to_nat i)). rewrite forallb_forall in H.
  specialize (H ltac:(apply in_seq; lia) (Z.to_nat j) ltac:(apply in_seq; lia)).
  apply Z.eqb_eq in H. by rewrite !Z2Nat.id in H by lia.
Qed.

(** The fixed-range registers give every address of the first MiB its
    policy type: write-back but for the VGA window. *)
Theorem fixed_msr_types a :
  0 <= a < ONE_MIB ->
  let '(index, range) := fixed_slot a in
  0 <= index < zlen FIXED_MSRS /\ 0 <= range < 8 /\
  fixed_byte index range = cache_type_u8 (fixed_type a).
Proof.
  intros Ha. unfold ONE_MIB in Ha. change (zlen FIXED_MSRS) with 11. unfold fixed_slot.
  assert (Hgo : forall i j, 0 <= i < 11 -> 0 <= j < 8 ->
    fst (fixed_ranges i) + j * snd (fixed_ranges i) <= a
      < fst (fixed_ranges i) + (j + 1) * snd (fixed_ranges i) ->
    0 <= i < 11 /\ 0 <= j < 8 /\ fixed_byte i j = cache_type_u8 (fixed_type a)).
  { intros i j Hi Hj Hin. split_and!; try lia. rewrite fixed_byte_spec by done. f_equal.
    unfold fixed_type, fixed_ranges in *.
    destruct (Z.eqb_spec i 0); [|destruct (Z.eqb_spec i 1); [|destruct (Z.eqb_spec i 2)]]; cbn [fst snd] in *;
      repeat match goal with |- context [?x <=? ?y] => destruct (Z.leb_spec x y) end;
      repeat match goal with |- context [?x <? ?y] => destruct (Z.ltb_spec x y) end; simpl; lia || done. }
  destruct (Z.ltb_spec a 0x80000).
  { pose proof (Z.div_mod a 0x10000). pose proof (Z.mod_pos_bound a 0x10000).
    apply Hgo; cbn [fixed_ranges Z.eqb fst snd]; lia. }
  destruct (Z.ltb_spec a 0xa0000).
  { pose proof (Z.div_mod (a - 0x80000) 0x4000). pose proof (Z.mod_pos_bound (a - 0x80000) 0x4000).
    apply Hgo; cbn [fixed_ranges Z.eqb Pos.eqb fst snd]; lia. }
  destruct (Z.ltb_spec a 0xc0000).
  { pose proof (Z.div_mod (a - 0xa0000) 0x4000). pose proof (Z.mod_pos_bound (a - 0xa0000) 0x4000).
    apply Hgo; cbn [fixed_ranges Z.eqb Pos.eqb fst snd]; lia. }
  set (q := (a - 0xc0000) / 0x8000). set (r := (a - 0xc0000) mod 0x8000).
  pose proof (Z.div_mod (a - 0xc0000) 0x8000 ltac:(lia)) as Hd.
  pose proof (Z.mod_pos_bound (a - 0xc0000) 0x8000 ltac:(lia)) as Hm. fold q r in Hd. fold r in Hm.
  pose proof (Z.div_mod r 0x1000). pose proof (Z.mod_pos_bound r 0x1000).
  apply Hgo; [lia | lia|]. unfold fixed_ranges.
  rewrite !(proj2 (Z.eqb_neq _ _)) by lia. cbn [fst snd]. lia.
Qed.

(** ** Witnesses *)

(** 2 GiB of RAM less a hole below 4 GiB, 2 GiB above, a frame buffer. *)
Definition demo_caps : Capabilities :=
  {| variable_count := 8; physical_bits := 36; caps_fixed := true; write_combining := true |}.
Definition demo_ram : list (Z * Z) :=
  [(0, 0xa0000); (0x100000, 0x7f500000); (0x100000000, 0x80000000)].
Definition demo_wc : list (Z * Z) := [(0xd0000000, 0x10000000)].
Definition demo_plan : Plan :=
  Eval vm_compute in
  match build demo_caps demo_ram demo_wc with
  | Ok p => p
  | _ => {| p_caps := demo_caps; p_default := Uncacheable; p_ranges := [] |}
  end.

Lemma demo_inputs : inputs_ok demo_ram /\ inputs_ok demo_wc.
Proof. split; repeat constructor; lia. Qed.

Lemma build_realizes_witness :
  effective (p_default demo_plan) (p_ranges demo_plan) 0x7f700000 = Some Uncacheable.
Proof.
  assert (E : build demo_caps demo_ram demo_wc = Ok demo_plan) by (vm_compute; reflexivity).
  exact (proj2 (proj2 (build_realizes demo_caps demo_ram demo_wc demo_plan (proj1 demo_inputs)
    (proj2 demo_inputs) ltac:(vm_compute; discriminate) E)) 0x7f700000
    ltac:(vm_compute; split; [discriminate | reflexivity]) ltac:(vm_compute; discriminate)).
Defined.

(** One register: the high RAM and the aperture are given up. *)
Definition tiny_caps : Capabilities :=
  {| variable_count := 1; physical_bits := 36; caps_fixed := true; write_combining := true |}.
Definition tiny_ram : list (Z * Z) := [(0, 0x80000000); (0x100000000, 0x80000000)].

Lemma final_solution_low_ram_witness :
  exists plan, final_solution tiny_caps tiny_ram demo_wc = Ok plan /\
    effective (p_default plan) (p_ranges plan) 0x40000000 = Some WriteBack.
Proof.
  destruct (final_solution tiny_caps tiny_ram demo_wc) as [plan| |] eqn:E;
    [|vm_compute in E; discriminate E..].
  exists plan. split; [reflexivity|].
  apply (final_solution_low_ram tiny_caps tiny_ram demo_wc plan 0x40000000);
    [ repeat constructor; lia | exact (proj2 demo_inputs) | repeat constructor; discriminate
    | vm_compute; discriminate | exact E | vm_compute; split; [discriminate | reflexivity]
    | vm_compute; discriminate | | reflexivity].
  constructor. lia.
Defined.

Lemma encode_variable_matches_witness :
  let reg := encode_variable 36 0xd0000000 (2 ^ 28) 1 in
  register_matches 36 reg 0xd1234567 = true /\ decode_size 36 (snd reg) = 2 ^ 28.
Proof.
  pose proof (encode_variable_matches 36 0xd0000000 28 1 0xd1234567 ltac:(lia) ltac:(lia) ltac:(lia)
    eq_refl ltac:(lia) ltac:(lia)) as H.
  exact (conj (proj2 (proj1 H) ltac:(lia)) (proj2 (proj2 (proj2 H)))).
Defined.

Lemma fixed_msr_types_witness :
  fixed_slot 0xa1234 = (2, 0) /\ fixed_byte 2 0 = cache_type_u8 (fixed_type 0xa1234).
Proof.
  pose proof (fixed_msr_types 0xa1234 ltac:(unfold ONE_MIB; lia)) as H.
  change (fixed_slot 0xa1234) with (2, 0) in *. exact (conj eq_refl (proj2 (proj2 H))).
Defined.
