(* ===== verification/StageLayout.v ===== *)
(** * StageLayout: the stage-local build layout
    ([crates/core/src/layout.rs], [crates/image-build/src/layout.rs])

    The host resolver encodes the physical reservations of a stage, the firmware
    parses the bytes from its own image.  The theorem says the two agree: the
    parser accepts exactly the byte strings the encoder produces, and reads back
    the regions that were encoded. *)

From S2P Require Import Prelude.
From S2P Require Import Bytes.
From S2P Require Import Wire.
From Stdlib Require Import ZArith Lia.
From stdpp Require Import base numbers list option.

#[local] Open Scope Z_scope.

(** "FSLY" *)
Definition MAGIC : list Z := [0x46; 0x53; 0x4c; 0x59].
Definition LAYOUT_VERSION : Z := 1.
Definition HEADER_LEN : Z := 16.
Definition REGION_LEN : Z := 24.
Definition MAX_REGIONS : Z := 32.
Definition MAX_ENCODED_LEN : Z := HEADER_LEN + MAX_REGIONS * REGION_LEN.

Inductive RegionKind :=
| Image | Writable | Stack | Heap | Flash | Reserved | Firmware | Payload | PayloadFirmware
| DeviceTree | Execution | BootstrapPostcar | BootstrapMainstage | BootstrapRam | FirmwareStore.
#[export] Instance RegionKind_eq_dec : EqDecision RegionKind.
Proof. solve_decision. Defined.

Definition kind_u16 (k : RegionKind) : Z :=
  match k with
  | Image => 1 | Writable => 2 | Stack => 3 | Heap => 4 | Flash => 5 | Reserved => 6
  | Firmware => 7 | Payload => 8 | PayloadFirmware => 9 | DeviceTree => 10 | Execution => 11
  | BootstrapPostcar => 12 | BootstrapMainstage => 13 | BootstrapRam => 14 | FirmwareStore => 20
  end.

Inductive LayoutError :=
| InvalidLength | BadMagic | UnsupportedVersion | InvalidCount | ReservedBits | UnknownRegionKind
| InvalidRange | DuplicateRegionKind.

(** [RegionKind::decode] *)
Definition kind_decode (v : Z) : res LayoutError RegionKind :=
  if v =? 1 then Ok Image else if v =? 2 then Ok Writable else if v =? 3 then Ok Stack
  else if v =? 4 then Ok Heap else if v =? 5 then Ok Flash else if v =? 6 then Ok Reserved
  else if v =? 7 then Ok Firmware else if v =? 8 then Ok Payload
  else if v =? 9 then Ok PayloadFirmware else if v =? 10 then Ok DeviceTree
  else if v =? 11 then Ok Execution else if v =? 12 then Ok BootstrapPostcar
  else if v =? 13 then Ok BootstrapMainstage else if v =? 14 then Ok BootstrapRam
  else if v =? 20 then Ok FirmwareStore else Err UnknownRegionKind.

Record Region := { rg_kind : RegionKind; rg_base : Z; rg_size : Z }.

Definition region_end (r : Region) : option Z := checked_add u64_max (rg_base r) (rg_size r).

Definition decode_region (record : list Z) (kind : RegionKind) : Region :=
  {| rg_kind := kind; rg_base := u64_at record 8; rg_size := u64_at record 16 |}.

(** [bytes[HEADER_LEN..].as_chunks::<REGION_LEN>().0] *)
Definition records (bytes : list Z) : list (list Z) :=
  split_records REGION_LEN (Z.to_nat ((zlen bytes - HEADER_LEN) / REGION_LEN))
    (sub bytes HEADER_LEN (zlen bytes - HEADER_LEN)).

(** One round of the loop over the records: the new value of [seen]. *)
Definition check_record (record : list Z) (seen : Z) : res LayoutError Z :=
  let? kind := kind_decode (u16_at record 0) in
  fail_if existsb (fun b => negb (b =? 0)) (sub record 2 6) with ReservedBits;
  let region := decode_region record kind in
  fail_if (rg_size region =? 0) || bool_decide (region_end region = None) with InvalidRange;
  if bool_decide (kind = Reserved) then Ok seen
  else
    let bit := Z.shiftl 1 (kind_u16 kind) in
    fail_if negb (Z.land seen bit =? 0) with DuplicateRegionKind;
    Ok (Z.lor seen bit).

Fixpoint check_records (rs : list (list Z)) (seen : Z) : res LayoutError Z :=
  match rs with
  | [] => Ok seen
  | r :: rs => let? seen := check_record r seen in check_records rs seen
  end.

(** [Layout::parse]: the slices are in range because the length is tested first. *)
Definition layout_parse (bytes : list Z) : res LayoutError (list Z) :=
  fail_if negb ((HEADER_LEN <=? zlen bytes) && (zlen bytes <=? MAX_ENCODED_LEN)) with InvalidLength;
  fail_if negb (bytes_eqb (sub bytes 0 4) MAGIC) with BadMagic;
  fail_if negb (u16_at bytes 4 =? LAYOUT_VERSION) with UnsupportedVersion;
  fail_if negb (u16_at bytes 6 =? zlen bytes) with InvalidLength;
  let count := u16_at bytes 10 in
  fail_if negb ((1 <=? count) && (count <=? MAX_REGIONS)) with InvalidCount;
  fail_if negb (zlen bytes =? HEADER_LEN + count * REGION_LEN) with InvalidLength;
  fail_if existsb (fun b => negb (b =? 0)) (sub bytes 12 4) with ReservedBits;
  let? _ := check_records (records bytes) 0 in
  Ok bytes.

Definition stage_index (bytes : list Z) : Z := u16_at bytes 8.

(** The regions of a parsed layout; [decode(..).unwrap()] is a panic here. *)
Fixpoint decode_records (rs : list (list Z)) : res LayoutError (list Region) :=
  match rs with
  | [] => Ok []
  | r :: rs =>
      match kind_decode (u16_at r 0) with
      | Ok kind => let? tail := decode_records rs in Ok (decode_region r kind :: tail)
      | _ => Panic
      end
  end.

Definition regions (bytes : list Z) : res LayoutError (list Region) := decode_records (records bytes).

(** [Layout::region] *)
Definition region (bytes : list Z) (kind : RegionKind) : res LayoutError (option Region) :=
  let? rs := regions bytes in
  Ok (snd <$> list_find (fun r => rg_kind r = kind) rs).

(** ** The host encoder *)

Definition region_bytes (r : Region) : list Z :=
  le_enc 2 (kind_u16 (rg_kind r)) ++ zeros 6 ++ le_enc 8 (rg_base r) ++ le_enc 8 (rg_size r).

Definition layout_bytes (stage : Z) (rs : list Region) : list Z :=
  let len := HEADER_LEN + zlen rs * REGION_LEN in
  MAGIC ++ le_enc 2 LAYOUT_VERSION ++ le_enc 2 len ++ le_enc 2 stage ++ le_enc 2 (zlen rs)
  ++ zeros 4 ++ concat (map region_bytes rs).

(** [EncodedLayout::encode] *)
Definition layout_encode (stage : Z) (rs : list Region) : res LayoutError (list Z) :=
  fail_if negb ((1 <=? zlen rs) && (zlen rs <=? MAX_REGIONS)) with InvalidCount;
  let bytes := layout_bytes stage rs in
  let? _ := layout_parse bytes in
  Ok bytes.

(** ** The contract *)

(** A region the wire format can carry: fields in range, not empty, with an end
    that is a [u64]. *)
Definition region_ok (r : Region) : Prop :=
  0 <= rg_base r /\ 0 < rg_size r /\ rg_base r + rg_size r <= u64_max.

(** The roles that may appear once: all but [Reserved]. *)
Definition singletons (rs : list Region) : list RegionKind :=
  filter (fun k => k <> Reserved) (map rg_kind rs).

Definition layout_ok (stage : Z) (rs : list Region) : Prop :=
  1 <= zlen rs <= MAX_REGIONS /\ 0 <= stage <= u16_max /\ Forall region_ok rs
  /\ NoDup (singletons rs).

(** ** The records of a layout *)

Lemma records_count n : 0 <= n -> (HEADER_LEN + n * REGION_LEN - HEADER_LEN) / REGION_LEN = n.
Proof. unfold HEADER_LEN, REGION_LEN. intros. Z.to_euclidean_division_equations. lia. Qed.

Lemma records_concat h ps :
  zlen h = HEADER_LEN -> Forall (fun p => zlen p = REGION_LEN) ps -> records (h ++ concat ps) = ps.
Proof.
  intros Hh Hps. pose proof (zlen_nonneg ps). pose proof (sum_len_const _ _ Hps) as Hs.
  rewrite <- zlen_concat in Hs.
  assert (Hz : zlen (h ++ concat ps) = HEADER_LEN + zlen ps * REGION_LEN)
    by (rewrite zlen_app, Hh, Hs; done).
  unfold records. rewrite sub_app_r by (rewrite Hh; lia). rewrite Hz, records_count, Hh, Z.sub_diag by done.
  replace (HEADER_LEN + zlen ps * REGION_LEN - HEADER_LEN) with (zlen (concat ps)) by lia.
  rewrite sub_all. replace (Z.to_nat (zlen ps)) with (length ps) by (unfold zlen; lia).
  by apply split_records_concat.
Qed.

Lemma records_body bytes n :
  0 <= n -> zlen bytes = HEADER_LEN + n * REGION_LEN ->
  records bytes = split_records REGION_LEN (Z.to_nat n) (sub bytes HEADER_LEN (n * REGION_LEN)) /\
  zlen (sub bytes HEADER_LEN (n * REGION_LEN)) = Z.of_nat (Z.to_nat n) * REGION_LEN.
Proof.
  intros Hn Hl. unfold records. rewrite Hl, records_count by done. split.
  - do 2 f_equal. lia.
  - rewrite zlen_sub; unfold HEADER_LEN, REGION_LEN in *; lia.
Qed.

Lemma length_records bytes n :
  0 <= n -> zlen bytes = HEADER_LEN + n * REGION_LEN -> length (records bytes) = Z.to_nat n.
Proof. intros Hn Hl. destruct (records_body bytes n Hn Hl) as [-> _]. apply length_split_records. Qed.

Lemma concat_records bytes n :
  0 <= n -> zlen bytes = HEADER_LEN + n * REGION_LEN ->
  bytes = sub bytes 0 HEADER_LEN ++ concat (records bytes).
Proof.
  intros Hn Hl. destruct (records_body bytes n Hn Hl) as [-> Hz].
  rewrite concat_split_records by (done || unfold REGION_LEN; lia).
  etrans; [symmetry; apply sub_all|]. rewrite Hl.
  apply (sub_split bytes 0 HEADER_LEN); unfold HEADER_LEN, REGION_LEN; lia.
Qed.

Lemma records_len bytes n :
  0 <= n -> zlen bytes = HEADER_LEN + n * REGION_LEN -> bytes_ok bytes ->
  Forall (fun r => zlen r = REGION_LEN /\ bytes_ok r) (records bytes).
Proof.
  intros Hn Hl Hb. destruct (records_body bytes n Hn Hl) as [-> Hz].
  apply split_records_len; [unfold REGION_LEN; lia | lia | by apply bytes_ok_sub].
Qed.

(** ** One record *)

Lemma kind_decode_iff v k : kind_decode v = Ok k <-> v = kind_u16 k.
Proof.
  split.
  - unfold kind_decode. intros H. repeat rust_step H; injection H as <-; by apply Z.eqb_eq.
  - intros ->. by destruct k.
Qed.

Lemma kind_u16_inj k1 k2 : kind_u16 k1 = kind_u16 k2 -> k1 = k2.
Proof. destruct k1, k2; intros H; done. Qed.

Lemma kind_u16_bound k : 1 <= kind_u16 k <= 20.
Proof. destruct k; simpl; lia. Qed.

Lemma existsb_nonzero l : existsb (fun b => negb (b =? 0)) l = false <-> l = zeros (zlen l).
Proof.
  unfold zeros, zlen. rewrite Nat2Z.id.
  induction l as [|b l IH]; [done|]. simpl. rewrite orb_false_iff, IH, negb_false_iff, Z.eqb_eq.
  split; [by intros [-> <-] | by intros [= -> <-]].
Qed.

Definition region_pieces (r : Region) : list (list Z) :=
  [le_enc 2 (kind_u16 (rg_kind r)); zeros 6; le_enc 8 (rg_base r); le_enc 8 (rg_size r)].

Lemma region_bytes_pieces r : region_bytes r = concat (region_pieces r).
Proof. reflexivity. Qed.

Lemma zlen_region_bytes r : zlen (region_bytes r) = REGION_LEN.
Proof. by rewrite region_bytes_pieces, zlen_concat. Qed.

Lemma region_field (i : nat) r p off n :
  region_pieces r !! i = Some p -> off = sum_len (take i (region_pieces r)) -> n = zlen p ->
  sub (region_bytes r) off n = p.
Proof. rewrite region_bytes_pieces. apply sub_concat. Qed.

Lemma region_bytes_kind r : u16_at (region_bytes r) 0 = kind_u16 (rg_kind r).
Proof.
  apply le_at_enc; [lia| |pose proof (kind_u16_bound (rg_kind r)); lia].
  by apply (region_field 0).
Qed.

Lemma decode_region_bytes r :
  region_ok r -> decode_region (region_bytes r) (rg_kind r) = r.
Proof.
  intros (Hb & Hs & He). unfold u64_max in He. unfold decode_region. destruct r as [k b s]. f_equal.
  - apply le_at_enc; [lia| |simpl in *; lia]. by apply (region_field 2).
  - apply le_at_enc; [lia| |simpl in *; lia]. by apply (region_field 3).
Qed.

(** A record with a known kind and zero padding is the encoding of what it decodes to. *)
Lemma region_bytes_decode rec k :
  zlen rec = REGION_LEN -> bytes_ok rec -> u16_at rec 0 = kind_u16 k -> sub rec 2 6 = zeros 6 ->
  region_bytes (decode_region rec k) = rec.
Proof.
  intros Hl Hb Hk Hz. rewrite region_bytes_pieces. unfold REGION_LEN in Hl. apply matches_concat.
  unfold region_pieces, decode_region. cbn [matches rg_kind rg_base rg_size].
  rewrite !zlen_le_enc, zlen_zeros by lia. rewrite Hl. unfold u64_at.
  rewrite <- Hk. split_and!; [|done| | |done]; symmetry.
  - apply (sub_le_at rec 0 2); [done|lia..].
  - apply (sub_le_at rec 8 8); [done|lia..].
  - apply (sub_le_at rec 16 8); [done|lia..].
Qed.

Lemma bit_unseen seen i : 0 <= i -> (Z.land seen (Z.shiftl 1 i) =? 0) = negb (Z.testbit seen i).
Proof.
  intros Hi. destruct (Z.testbit seen i) eqn:Ht; simpl.
  - apply Z.eqb_neq. intros H. apply (f_equal (fun z => Z.testbit z i)) in H.
    rewrite Z.land_spec, Z.shiftl_spec, Z.sub_diag, Ht, Z.bits_0 in H by lia. done.
  - apply Z.eqb_eq. apply Z.bits_inj'. intros j Hj. rewrite Z.land_spec, Z.bits_0.
    destruct (decide (j = i)) as [->|]; [by rewrite Ht|].
    rewrite Z.shiftl_1_l, Z.pow2_bits_false by lia. apply andb_false_r.
Qed.

Lemma bit_seen seen i j :
  0 <= i -> 0 <= j -> Z.testbit (Z.lor seen (Z.shiftl 1 i)) j = (Z.testbit seen j || (j =? i)).
Proof.
  intros Hi Hj. rewrite Z.lor_spec, Z.shiftl_1_l, Z.pow2_bits_eqb by lia.
  f_equal. apply Z.eqb_sym.
Qed.

(** What the round does to [seen]. *)
Definition mark (k : RegionKind) (seen : Z) : Z :=
  if bool_decide (k = Reserved) then seen else Z.lor seen (Z.shiftl 1 (kind_u16 k)).

Lemma check_record_iff rec seen seen' :
  zlen rec = REGION_LEN -> bytes_ok rec ->
  check_record rec seen = Ok seen' <->
    exists r, rec = region_bytes r /\ region_ok r /\ seen' = mark (rg_kind r) seen
      /\ (rg_kind r <> Reserved -> Z.testbit seen (kind_u16 (rg_kind r)) = false).
Proof.
  intros Hl Hb. unfold check_record, mark. split.
  - intros H. rust_step H. apply kind_decode_iff in Ha. rename a into k.
    rust_step H. apply existsb_nonzero in Hb0. unfold REGION_LEN in *.
    rewrite zlen_sub in Hb0 by lia. rust_step H. bool_hyp.
    unfold region_end in *. pose proof (region_bytes_decode rec k Hl Hb Ha Hb0) as Hr.
    exists (decode_region rec k). split; [by rewrite Hr|].
    assert (Hok : region_ok (decode_region rec k)).
    { unfold region_ok. pose proof (le_at_bound rec 8 8 Hb). pose proof (le_at_bound rec 16 8 Hb).
      unfold decode_region, u64_at in *. cbn [rg_base rg_size] in *.
      destruct (checked_add u64_max _ _) eqn:Hc; [|done]. apply checked_add_Some in Hc. lia. }
    split; [done|]. cbn [decode_region rg_kind].
    destruct (bool_decide (k = Reserved)) eqn:Hk; bool_hyp; [by simplify_eq|].
    rust_step H. rewrite bit_unseen in Hb1 by (pose proof (kind_u16_bound k); lia).
    apply negb_false_iff, negb_true_iff in Hb1. split; [by simplify_eq|done].
  - intros (r & -> & Hok & -> & Hseen). rewrite region_bytes_kind.
    rewrite (proj2 (kind_decode_iff _ (rg_kind r))) by done. cbn [rbind].
    replace (sub (region_bytes r) 2 6) with (zeros 6) by (symmetry; by apply (region_field 1)).
    cbn [existsb zeros replicate]. change (existsb _ (zeros 6)) with false. cbn [orb].
    rewrite (decode_region_bytes r Hok). destruct Hok as (H0 & H1 & H2).
    test_false (rg_size r =? 0). unfold region_end. rewrite checked_add_ok by done. simpl orb.
    destruct (bool_decide (rg_kind r = Reserved)) eqn:Hk; bool_hyp; [done|].
    rewrite bit_unseen by (pose proof (kind_u16_bound (rg_kind r)); lia).
    by rewrite (Hseen Hk).
Qed.

(** ** The loop *)

Lemma singletons_cons r rs :
  singletons (r :: rs) = if decide (rg_kind r <> Reserved) then rg_kind r :: singletons rs else singletons rs.
Proof. unfold singletons. simpl. rewrite filter_cons. done. Qed.

(** What is left of the uniqueness rule when [seen] has been collected. *)
Definition fresh_kinds (seen : Z) (rs : list Region) : Prop :=
  NoDup (singletons rs) /\ forall k, k ∈ singletons rs -> Z.testbit seen (kind_u16 k) = false.

Lemma fresh_kinds_cons seen r rs :
  fresh_kinds seen (r :: rs) <->
    (rg_kind r <> Reserved -> Z.testbit seen (kind_u16 (rg_kind r)) = false)
    /\ fresh_kinds (mark (rg_kind r) seen) rs.
Proof.
  unfold fresh_kinds, mark. rewrite singletons_cons. pose proof (kind_u16_bound (rg_kind r)).
  case_decide as Hk.
  2:{ rewrite bool_decide_true by (destruct (decide (rg_kind r = Reserved)); [assumption | contradiction]). naive_solver. }
  rewrite bool_decide_false by done. rewrite list.NoDup_cons.
  assert (Hbit : forall k, Z.testbit (Z.lor seen (Z.shiftl 1 (kind_u16 (rg_kind r)))) (kind_u16 k) = false
                 <-> Z.testbit seen (kind_u16 k) = false /\ k <> rg_kind r).
  { intros k. pose proof (kind_u16_bound k). rewrite bit_seen, orb_false_iff, Z.eqb_neq by lia.
    split; intros [? Hne]; (split; [done|]).
    - by intros ->. - intros ?%kind_u16_inj. done. }
  split.
  - intros [[Hn Hd] Hs]. split; [intros _; apply Hs; (apply elem_of_cons; auto)|]. split; [done|].
    intros k Hin. apply Hbit. split; [apply Hs; (apply elem_of_cons; auto)|]. by intros ->.
  - intros [H0 [Hd Hs]]. split; [split; [|done]|].
    + intros Hin. apply Hs in Hin. apply Hbit in Hin. naive_solver.
    + intros k [->|Hin]%elem_of_cons; [auto|]. by apply Hs, Hbit in Hin as [? _].
Qed.

Lemma check_records_iff recs seen :
  Forall (fun r => zlen r = REGION_LEN /\ bytes_ok r) recs ->
  (exists s, check_records recs seen = Ok s) <->
    exists rs, recs = map region_bytes rs /\ Forall region_ok rs /\ fresh_kinds seen rs.
Proof.
  intros Hall. revert seen. induction Hall as [|rec recs [Hl Hb] _ IH]; intros seen; simpl.
  { split; [intros _|eauto]. exists []. split_and!; [done..|]. split; [constructor|]. intros k []%elem_of_nil. }
  split.
  - intros (s & H). rust_step H. apply check_record_iff in Ha as (r & -> & Hok & -> & Hseen); [|done..].
    destruct (proj1 (IH _) (ex_intro _ _ H)) as (rs & -> & Hrs & Hf).
    exists (r :: rs). split_and!; [done|by constructor|]. by apply fresh_kinds_cons.
  - intros (rs & Hrs & Hok & Hf). destruct rs as [|r rs]; [done|]. simpl in Hrs. simplify_eq.
    apply list.Forall_cons in Hok as [Hok1 Hok]. apply fresh_kinds_cons in Hf as [Hseen Hf].
    rewrite (proj2 (check_record_iff _ seen (mark (rg_kind r) seen) Hl Hb)) by eauto 10.
    apply IH. eauto.
Qed.

Lemma decode_records_map rs :
  Forall region_ok rs -> decode_records (map region_bytes rs) = Ok rs.
Proof.
  induction 1 as [|r rs Hr _ IH]; [done|]. cbn [map decode_records].
  rewrite region_bytes_kind, (proj2 (kind_decode_iff _ (rg_kind r))) by done.
  rewrite IH, decode_region_bytes by done. done.
Qed.

(** A singleton role is found where it is. *)
Lemma find_singleton rs r :
  NoDup (singletons rs) -> r ∈ rs -> rg_kind r <> Reserved ->
  snd <$> list_find (fun q => rg_kind q = rg_kind r) rs = Some r.
Proof.
  intros Hd Hin Hk. induction rs as [|q rs IH]; [by apply elem_of_nil in Hin|]. simpl.
  rewrite singletons_cons in Hd.
  destruct (decide (rg_kind q = rg_kind r)) as [Hq|Hq]; simpl.
  - apply elem_of_cons in Hin as [->|Hin]; [done|]. rewrite decide_True in Hd by congruence.
    apply list.NoDup_cons in Hd as [Hd _]. destruct Hd. unfold singletons. rewrite Hq.
    apply list_elem_of_filter. split; [done|]. by apply list_elem_of_fmap_2.
  - apply elem_of_cons in Hin as [->|Hin]; [done|]. case_decide; [apply list.NoDup_cons in Hd as [_ Hd]|];
      specialize (IH Hd Hin); destruct (list_find _ rs) as [[i x]|]; done.
Qed.

(** ** The header *)

Definition header_pieces (stage n : Z) : list (list Z) :=
  [MAGIC; le_enc 2 LAYOUT_VERSION; le_enc 2 (HEADER_LEN + n * REGION_LEN); le_enc 2 stage;
   le_enc 2 n; zeros 4].

Lemma layout_bytes_header stage rs :
  layout_bytes stage rs = concat (header_pieces stage (zlen rs)) ++ concat (map region_bytes rs).
Proof. reflexivity. Qed.

Lemma zlen_header stage n : zlen (concat (header_pieces stage n)) = HEADER_LEN.
Proof. by rewrite zlen_concat. Qed.

Lemma zlen_layout_bytes stage rs : zlen (layout_bytes stage rs) = HEADER_LEN + zlen rs * REGION_LEN.
Proof.
  rewrite layout_bytes_header, zlen_app, zlen_header, zlen_concat, (sum_len_const REGION_LEN).
  - f_equal. unfold zlen. by rewrite length_map.
  - apply list.Forall_fmap, Forall_true. intros. apply zlen_region_bytes.
Qed.

Lemma bytes_ok_layout_bytes stage rs : bytes_ok (layout_bytes stage rs).
Proof.
  unfold layout_bytes. rewrite !bytes_ok_app. split_and!; auto with bytes.
  - repeat (constructor; [unfold byte_ok; lia|]). constructor.
  - induction rs as [|r rs IH]; [constructor|]. cbn [map concat]. apply bytes_ok_app. split; [|done].
    unfold region_bytes. rewrite !bytes_ok_app. auto with bytes.
Qed.

Lemma records_layout_bytes stage rs : records (layout_bytes stage rs) = map region_bytes rs.
Proof.
  rewrite layout_bytes_header. apply records_concat; [apply zlen_header|].
  apply list.Forall_fmap, Forall_true. intros. apply zlen_region_bytes.
Qed.

Lemma header_field (i : nat) stage rs p off n :
  header_pieces stage (zlen rs) !! i = Some p ->
  off = sum_len (take i (header_pieces stage (zlen rs))) -> n = zlen p ->
  0 <= off -> off + n <= HEADER_LEN -> sub (layout_bytes stage rs) off n = p.
Proof.
  intros Hp Ho Hn H0 H1. rewrite layout_bytes_header. pose proof (zlen_nonneg p).
  rewrite sub_app_l by (rewrite ?zlen_header; lia). by apply (sub_concat i).
Qed.

Lemma layout_parse_encoded stage rs :
  layout_ok stage rs -> layout_parse (layout_bytes stage rs) = Ok (layout_bytes stage rs).
Proof.
  intros (Hn & Hs & Hok & Hd). pose proof (zlen_layout_bytes stage rs) as Hl.
  pose proof (bytes_ok_layout_bytes stage rs) as Hb.
  unfold MAX_REGIONS, u16_max, HEADER_LEN, REGION_LEN in *. unfold layout_parse, u16_at.
  rewrite (header_field 0 _ _ MAGIC) by (done || lia).
  rewrite (le_at_enc _ 4 2 LAYOUT_VERSION) by (try apply (header_field 1); done || lia).
  rewrite (le_at_enc _ 6 2 (zlen (layout_bytes stage rs)))
    by (try (rewrite Hl; apply (header_field 2)); done || lia).
  rewrite (le_at_enc _ 10 2 (zlen rs)) by (try apply (header_field 4); done || lia).
  rewrite (header_field 5 _ _ (zeros 4)) by (done || lia).
  unfold MAX_ENCODED_LEN, MAX_REGIONS, HEADER_LEN, REGION_LEN.
  guard_false. change (negb (bytes_eqb MAGIC MAGIC)) with false. cbn [negb Z.eqb LAYOUT_VERSION].
  rewrite Z.eqb_refl. cbn [negb]. guard_false. guard_false.
  change (existsb _ (zeros 4)) with false. cbn [negb].
  pose proof (records_len (layout_bytes stage rs) (zlen rs) ltac:(lia) Hl Hb) as Hr.
  destruct (proj2 (check_records_iff _ 0 Hr)) as [s Hc].
  - exists rs. split; [apply records_layout_bytes|]. split; [done|]. split; [done|].
    intros k _. apply Z.bits_0.
  - by rewrite Hc.
Qed.

Lemma layout_parse_decodes bytes v :
  bytes_ok bytes -> layout_parse bytes = Ok v ->
  v = bytes /\ exists stage rs, layout_ok stage rs /\ bytes = layout_bytes stage rs.
Proof.
  intros Hb H. unfold layout_parse in H. do 7 rust_step H. bool_hyp.
  rust_step H. injection H as <-. split; [done|].
  apply bytes_eqb_true in Hb1. set (n := u16_at bytes 10) in *.
  pose proof (records_len bytes n ltac:(lia) ltac:(lia) Hb) as Hr.
  destruct (proj1 (check_records_iff _ 0 Hr) (ex_intro _ _ Ha)) as (rs & Hrs & Hok & Hd & _).
  assert (Hn : zlen rs = n).
  { pose proof (length_records bytes n ltac:(lia) ltac:(lia)) as Hlen. rewrite Hrs, length_map in Hlen.
    unfold zlen. lia. }
  unfold MAX_REGIONS, HEADER_LEN, REGION_LEN in *. unfold u16_at in *.
  exists (stage_index bytes), rs. split.
  { pose proof (le_at_bound bytes 8 2 Hb). unfold layout_ok, MAX_REGIONS, stage_index, u16_at, u16_max.
    split; [lia|]. split; [lia|]. done. }
  rewrite layout_bytes_header, <- Hrs. etrans; [apply (concat_records bytes n); unfold HEADER_LEN, REGION_LEN; lia|].
  f_equal. apply existsb_nonzero in Hb6. rewrite zlen_sub in Hb6 by lia. symmetry.
  apply matches_concat. unfold header_pieces. cbn [matches].
  rewrite !zlen_le_enc. change (zlen MAGIC) with 4. change (zlen (zeros 4)) with 4.
  unfold HEADER_LEN, REGION_LEN, stage_index, u16_at.
  rewrite !sub_prefix, zlen_sub by (simpl; lia).
  split_and!; [done| | | | |done|done].
  - rewrite <- Hb2. symmetry. apply (sub_le_at bytes 4 2); [done|lia..].
  - rewrite Hn, <- Hb5, <- Hb3. symmetry. apply (sub_le_at bytes 6 2); [done|lia..].
  - symmetry. apply (sub_le_at bytes 8 2); [done|lia..].
  - rewrite Hn. symmetry. apply (sub_le_at bytes 10 2); [done|lia..].
Qed.

(** ** The theorems *)

(** The layout parser accepts exactly the encodings of well-formed
    layouts: a byte string is accepted if and only if it is the header and the
    records of some stage index and some 1 to 32 regions, each non-empty with
    an end that fits a [u64], no role but [Reserved] used twice.  No other
    length, padding or trailing byte gets through. *)
Theorem layout_parse_iff bytes v :
  bytes_ok bytes ->
  layout_parse bytes = Ok v <->
    v = bytes /\ exists stage rs, layout_ok stage rs /\ bytes = layout_bytes stage rs.
Proof.
  intros Hb. split; [by apply layout_parse_decodes|].
  intros (-> & stage & rs & Hok & ->). by apply layout_parse_encoded.
Qed.

(** What the host encodes is what the firmware reads: encoding a
    well-formed layout succeeds, the accessors of the parsed bytes never panic
    and return the stage index, all the regions in order, and for a singleton
    role the one region that has it. *)
Theorem layout_roundtrip stage rs :
  layout_ok stage rs ->
  exists bytes, layout_encode stage rs = Ok bytes /\ layout_parse bytes = Ok bytes
    /\ stage_index bytes = stage /\ regions bytes = Ok rs
    /\ (forall r, r ∈ rs -> rg_kind r <> Reserved -> region bytes (rg_kind r) = Ok (Some r))
    /\ (forall k, (forall r, r ∈ rs -> rg_kind r <> k) -> region bytes k = Ok None).
Proof.
  intros Hok. pose proof (layout_parse_encoded _ _ Hok) as Hp. destruct Hok as (Hn & Hs & Hrs & Hd).
  assert (Hr : regions (layout_bytes stage rs) = Ok rs)
    by (unfold regions; rewrite records_layout_bytes; by apply decode_records_map).
  exists (layout_bytes stage rs). split_and!; [|done| |done| |].
  - unfold layout_encode. guard_false. by rewrite Hp.
  - unfold u16_max in Hs. apply le_at_enc; [lia| |lia]. apply (header_field 3); (done || lia).
  - intros r Hin Hk. unfold region. rewrite Hr. cbn [rbind]. do 2 f_equal.
    by apply find_singleton.
  - intros k Hk. unfold region. rewrite Hr. cbn [rbind]. f_equal.
    rewrite (proj2 (list_find_None _ _)); [done|]. apply list.Forall_forall. auto.
Qed.

(** ** A concrete layout: flash, a stack and two exclusions *)

Definition demo_regions : list Region :=
  [{| rg_kind := Flash; rg_base := 0x20000000; rg_size := 0x2000000 |};
   {| rg_kind := Reserved; rg_base := 0x1000; rg_size := 0x1000 |};
   {| rg_kind := Stack; rg_base := 0x80000000; rg_size := 0x4000 |};
   {| rg_kind := Reserved; rg_base := 0xffffffffffff0000; rg_size := 0xffff |}].

Lemma demo_layout_ok : layout_ok 7 demo_regions.
Proof.
  unfold layout_ok, u16_max, MAX_REGIONS. split; [vm_compute; split; discriminate|]. split; [lia|]. split.
  - unfold demo_regions, region_ok, u64_max. repeat (constructor; [simpl; lia|]). constructor.
  - apply (bool_decide_unpack _). vm_compute. exact I.
Qed.

Lemma layout_parse_iff_witness :
  bytes_ok (layout_bytes 7 demo_regions)
  /\ layout_parse (layout_bytes 7 demo_regions) = Ok (layout_bytes 7 demo_regions).
Proof.
  split; [apply bytes_ok_layout_bytes|].
  apply (layout_parse_iff (layout_bytes 7 demo_regions)); [apply bytes_ok_layout_bytes|].
  split; [reflexivity|]. exists 7, demo_regions. split; [apply demo_layout_ok|reflexivity].
Defined.

Lemma layout_roundtrip_witness :
  layout_ok 7 demo_regions /\ exists bytes, layout_encode 7 demo_regions = Ok bytes
    /\ regions bytes = Ok demo_regions.
Proof.
  split; [apply demo_layout_ok|].
  destruct (layout_roundtrip 7 demo_regions demo_layout_ok) as (b & He & _ & _ & Hr & _).
  exists b. split; assumption.
Defined.

(** The bytes of the source's own fixture. *)
Example layout_fixture :
  layout_bytes 7 [{| rg_kind := Flash; rg_base := 0x20000000; rg_size := 0x2000000 |}] =
    [0x46; 0x53; 0x4c; 0x59; 1; 0; 40; 0; 7; 0; 1; 0; 0; 0; 0; 0; 5; 0; 0; 0; 0; 0; 0; 0; 0; 0;
     0; 0x20; 0; 0; 0; 0; 0; 0; 0; 2; 0; 0; 0; 0].
Proof. reflexivity. Qed.
