(* ===== verification/Resume.v ===== *)
(** * Resume: the S3 stage cache ([crates/resume/src/stage_cache.rs],
    [crates/resume/src/lib.rs])

    A cold boot verifies a stage from flash and keeps a copy of its stored bytes
    in a firmware store entry; a resume loads the stage from that entry through
    the same verified loader.  The theorems: a slot is sealed only over a
    complete body, a resume runs nothing the descriptor does not authenticate,
    and what a cold boot cached is what a resume loads.

    The store's window is disjoint from the memory a load may write (the
    reservations of the memory policy exclude it, as the safety contract of
    [load_stage] requires), so the store is a component of the state of its own. *)

From S2P Require Import Prelude.
From S2P Require Import Bytes.
From S2P Require Import Wire.
From S2P Require Import Services.
From S2P Require Import Crypto.
From S2P Require Import Root.
From S2P Require Import Memory.
From S2P Require Import BootMedia.
From S2P Require Import Lz4.
From S2P Require Import Load.
From S2P Require Import Store.
From Stdlib Require Import ZArith Lia.
From stdpp Require Import base numbers list option.

#[local] Open Scope Z_scope.

(** The bytes "FSCC" read little-endian. *)
Definition STAGE_CACHE_MAGIC : Z := 0x43435346.
Definition STAGE_CACHE_VERSION : Z := 1.
Definition STAGE_CACHE_HEADER_LEN : Z := 32.

Record CacheHeader := {
  ch_magic : Z; ch_version : Z; ch_stored_size : Z; ch_loaded_size : Z; ch_role : Z;
  ch_reserved : list Z
}.

Inductive CachedStage := CachedPostcar | CachedMainstage.
#[export] Instance CachedStage_eq_dec : EqDecision CachedStage.
Proof. solve_decision. Defined.

(** [CachedStage::tag]: [STAGE_CACHE_POSTCAR] and [STAGE_CACHE_RAMSTAGE]. *)
Definition stage_tag (s : CachedStage) : Z :=
  match s with CachedPostcar => 0xfff002 | CachedMainstage => 0xfff003 end.

Definition role_byte (s : CachedStage) : Z :=
  match s with CachedPostcar => 1 | CachedMainstage => 2 end.

Inductive CacheError := SlotTooSmall | Media.

(** ** The slot header *)

Definition cache_header_bytes (h : CacheHeader) : list Z :=
  le_enc 4 (ch_magic h) ++ le_enc 4 (ch_version h) ++ le_enc 8 (ch_stored_size h)
  ++ le_enc 8 (ch_loaded_size h) ++ [ch_role h] ++ ch_reserved h.

(** [CacheHeader::read_from_prefix] *)
Definition read_cache_header (bytes : list Z) : option CacheHeader :=
  if zlen bytes <? STAGE_CACHE_HEADER_LEN then None
  else Some {| ch_magic := u32_at bytes 0; ch_version := u32_at bytes 4;
               ch_stored_size := u64_at bytes 8; ch_loaded_size := u64_at bytes 16;
               ch_role := u8_at bytes 24; ch_reserved := sub bytes 25 7 |}.

Definition valid_header (bytes : list Z) (stage : CachedStage) : option CacheHeader :=
  match read_cache_header bytes with
  | None => None
  | Some header =>
      if (ch_magic header =? STAGE_CACHE_MAGIC)
         && (ch_version header =? STAGE_CACHE_VERSION)
         && (ch_role header =? role_byte stage)
         && bytes_eqb (ch_reserved header) (zeros 7)
         && negb (ch_stored_size header =? 0)
      then Some header else None
  end.

(** [BootstrapDescriptor { offset: 0, ..d }] *)
Definition with_offset (d : BootstrapDescriptor) (offset : Z) : BootstrapDescriptor := {|
  bd_role := bd_role d; bd_compression := bd_compression d; bd_offset := offset;
  bd_stored_size := bd_stored_size d; bd_loaded_size := bd_loaded_size d;
  bd_load_addr := bd_load_addr d; bd_entry_offset := bd_entry_offset d;
  bd_scratch_size := bd_scratch_size d; bd_stored_digest := bd_stored_digest d;
  bd_loaded_digest := bd_loaded_digest d |}.

(** [Measurement::NONE]: its log ignores the event. *)
Definition none_event : Event := {| ev_pcr := 0; ev_kind := 0; ev_description := []; ev_base := 0 |}.

(** ** Slots *)

Section slot.
Context {T : Target} {C : Crypto} {M : Type} {BM : BootMedia M}.
Context (partial : list Z -> list Z -> list Z).

(** The slot's bytes are the state.  The cache line flushes of the x86 build
    do not change them. *)
Definition cache_store (stage : CachedStage) (source : M) (d : BootstrapDescriptor)
    : sres (list Z) CacheError unit :=
  let! _ := fun slot => ((if 4 <=? zlen slot then upd slot 0 (zeros 4) else slot), Ok tt) in
  let! stored := slift (ok_or (try_from usize_max (bd_stored_size d)) SlotTooSmall) in
  let! required := slift (ok_or (checked_add usize_max STAGE_CACHE_HEADER_LEN stored) SlotTooSmall) in
  let! _ := fun slot => (slot, fail_if zlen slot <? required with SlotTooSmall; Ok tt) in
  let! offset := slift (ok_or (try_from usize_max (bd_offset d)) Media) in
  let! _ := fun slot =>
    let '(body, r) := read_at source offset (sub slot STAGE_CACHE_HEADER_LEN stored) in
    (upd slot STAGE_CACHE_HEADER_LEN body,
     match r with
     | Ok read => if read =? stored then Ok tt else Err Media
     | Err _ => Err Media
     | Panic => Panic
     end) in
  let header := {| ch_magic := 0; ch_version := STAGE_CACHE_VERSION;
                   ch_stored_size := bd_stored_size d; ch_loaded_size := bd_loaded_size d;
                   ch_role := role_byte stage; ch_reserved := zeros 7 |} in
  fun slot => (upd (upd slot 0 (cache_header_bytes header)) 0 (le_enc 4 STAGE_CACHE_MAGIC), Ok tt).

Definition has_complete_slot (slot : M) (stage : CachedStage) : res unit bool :=
  let '(bytes, r) := read_at slot 0 (zeros STAGE_CACHE_HEADER_LEN) in
  match r with
  | Panic => Panic
  | Err _ => Ok false
  | Ok n =>
      if negb (n =? STAGE_CACHE_HEADER_LEN) then Ok false
      else match valid_header bytes stage with
           | None => Ok false
           | Some header =>
               match checked_add u64_max STAGE_CACHE_HEADER_LEN (ch_stored_size header) with
               | Some end_ => Ok (end_ <=? media_size slot)
               | None => Ok false
               end
           end
  end.

(** The part of [load_from_slot] that finds the body; [None] is [Err tt]. *)
Definition slot_body (slot_media : M) (stage : CachedStage) (d : BootstrapDescriptor)
    : res unit (SubRegion M) :=
  let '(bytes, r) := read_at slot_media 0 (zeros STAGE_CACHE_HEADER_LEN) in
  let? n := map_err (fun _ => tt) r in
  fail_if negb (n =? STAGE_CACHE_HEADER_LEN) with tt;
  let? header := ok_or (valid_header bytes stage) tt in
  let? stored := ok_or (try_from usize_max (ch_stored_size header)) tt in
  fail_if negb (ch_stored_size header =? bd_stored_size d)
          || negb (ch_loaded_size header =? bd_loaded_size d) with tt;
  ok_or (sub_region_new slot_media STAGE_CACHE_HEADER_LEN stored) tt.

Definition load_from_slot (slot_media : M) (stage : CachedStage) (d : BootstrapDescriptor)
    (p : MemoryPolicy) (c : Codec) : sres Machine unit Z :=
  let! body := slift (slot_body slot_media stage d) in
  fun s =>
    let '(s', r) := load_bootstrap partial body (with_offset d 0) p c none_event s in
    ({| ram := ram s'; log := log s |}, map_err (fun _ => tt) r).
End slot.

(** ** Loading a stage *)

Inductive ResumeError := LoadFailed (e : LoadError) | NotCached.

Record Boot := { machine : Machine; bstore : Store }.

(** The memory of the store's window. *)
Definition store_memory (s : Store) : memory := mem_write (fun _ => 0) (st_base s) (st_mem s).

Definition linear_media (addr size : Z) (m : memory) : MemoryMapped LinearMap :=
  {| mm_map := {| lm_base := addr |}; mm_size := size; mm_mem := m |}.

Definition entry_media (s : Store) (e : Entry) : MemoryMapped LinearMap :=
  linear_media (address s e) (e_size e) (store_memory s).

Section load_stage.
Context {T : Target} {C : Crypto} {M : Type} {BM : BootMedia M}.
Context (partial : list Z -> list Z -> list Z).

Definition resume_stage (stage : CachedStage) (d : BootstrapDescriptor) (p : MemoryPolicy)
    (c : Codec) : sres Boot ResumeError Z := fun b =>
  match Store.find (bstore b) (stage_tag stage) with
  | Ok (Some entry) =>
      let '(m, r) := load_from_slot partial (entry_media (bstore b) entry) stage d p c (machine b) in
      ({| machine := m; bstore := bstore b |}, map_err (fun _ => NotCached) r)
  | Ok None => (b, Err NotCached)
  | Err _ => (b, Err NotCached)
  | Panic => (b, Panic)
  end.

(** Copy the stored bytes the loader left in memory into a fresh entry; a
    failure is only logged. *)
Definition cache_stage (stage : CachedStage) (d : BootstrapDescriptor) (input : MemoryWindow)
    (stored need : Z) : sres Boot ResumeError unit := fun b =>
  let media := linear_media (as_usize (mw_start input)) stored (ram (machine b)) in
  match add (stage_tag stage) need 3 (bstore b) with
  | (s, Ok entry) =>
      let '(slot, r) := cache_store stage media (with_offset d 0) (entry_bytes s entry) in
      ({| machine := machine b; bstore := write_bytes s entry slot |},
       match r with Panic => Panic | _ => Ok tt end)
  | (s, Err _) => ({| machine := machine b; bstore := s |}, Ok tt)
  | (s, Panic) => ({| machine := machine b; bstore := s |}, Panic)
  end.

Definition load_stage (media : M) (stage : CachedStage) (d : BootstrapDescriptor)
    (p : MemoryPolicy) (resume : bool) (c : Codec) (event : Event) : sres Boot ResumeError Z :=
  if resume then resume_stage stage d p c
  else
    let! verified := fun b =>
      let '(m, r) := load_bootstrap partial media d p c event (machine b) in
      ({| machine := m; bstore := bstore b |}, map_err LoadFailed r) in
    let! input := slift (map_err LoadFailed (stored_input d)) in
    let! stored := slift (ok_or (try_from usize_max (mw_len input)) (LoadFailed Bounds)) in
    let! need := slift (add_or_panic usize_max STAGE_CACHE_HEADER_LEN stored) in
    let! _ := cache_stage stage d input stored need in
    slift (Ok verified).
End load_stage.

(** [cached]: [iter().all] stops at the first stage that is not. *)
Fixpoint cached {T : Target} (s : Store) (stages : list CachedStage) : res unit bool :=
  match stages with
  | [] => Ok true
  | stage :: stages =>
      let? entry := Store.find s (stage_tag stage) in
      let? complete := match entry with
                       | Some e => has_complete_slot (entry_media s e) stage
                       | None => Ok false
                       end in
      if complete then cached s stages else Ok false
  end.

(** ** Sealing a slot *)

(** The header a sealed slot carries. *)
Definition sealed_header (stage : CachedStage) (d : BootstrapDescriptor) : CacheHeader := {|
  ch_magic := STAGE_CACHE_MAGIC; ch_version := STAGE_CACHE_VERSION;
  ch_stored_size := bd_stored_size d; ch_loaded_size := bd_loaded_size d;
  ch_role := role_byte stage; ch_reserved := zeros 7 |}.

Lemma zlen_cache_header h : zlen (ch_reserved h) = 7 -> zlen (cache_header_bytes h) = 32.
Proof. intros H. unfold cache_header_bytes. rewrite !zlen_app, !zlen_le_enc, H. reflexivity. Qed.

Lemma read_cache_header_bytes slot stage d :
  u64_ok (bd_stored_size d) -> u64_ok (bd_loaded_size d) ->
  sub slot 0 32 = cache_header_bytes (sealed_header stage d) -> 32 <= zlen slot ->
  read_cache_header slot = Some (sealed_header stage d).
Proof.
  intros [? ?] [? ?] Hs Hl. unfold u64_max in *.
  set (ps := [le_enc 4 STAGE_CACHE_MAGIC; le_enc 4 STAGE_CACHE_VERSION; le_enc 8 (bd_stored_size d);
              le_enc 8 (bd_loaded_size d); [role_byte stage]; zeros 7]).
  assert (Hps : sub slot 0 32 = concat ps) by (rewrite Hs; reflexivity).
  assert (Hf : forall i p a k, ps !! i = Some p -> a = sum_len (take i ps) -> k = zlen p ->
    a + k <= 32 -> sub slot a k = p).
  { intros i p a k Hi Ha Hk Hle. pose proof (zlen_nonneg p). pose proof (sum_len_nonneg (take i ps)).
    rewrite <- (sub_prefix _ 32 a k) by lia. rewrite Hps. by apply (sub_concat i). }
  unfold read_cache_header, STAGE_CACHE_HEADER_LEN. guard_false. unfold u32_at, u64_at, sealed_header.
  rewrite (le_at_enc _ 0 4 STAGE_CACHE_MAGIC) by ((by apply (Hf 0%nat)) || (unfold STAGE_CACHE_MAGIC; lia)).
  rewrite (le_at_enc _ 4 4 STAGE_CACHE_VERSION)
    by ((by apply (Hf 1%nat)) || (unfold STAGE_CACHE_VERSION; lia)).
  rewrite (le_at_enc _ 8 8 (bd_stored_size d)) by ((by apply (Hf 2%nat)) || lia).
  rewrite (le_at_enc _ 16 8 (bd_loaded_size d)) by ((by apply (Hf 3%nat)) || lia).
  rewrite (u8_at_sub _ 24 (role_byte stage)) by (by apply (Hf 4%nat)).
  by rewrite (Hf 5%nat (zeros 7)).
Qed.

Lemma role_byte_inj s1 s2 : role_byte s1 = role_byte s2 -> s1 = s2.
Proof. by destruct s1, s2. Qed.

Lemma valid_header_sealed slot stage d :
  u64_ok (bd_stored_size d) -> u64_ok (bd_loaded_size d) -> bd_stored_size d <> 0 ->
  sub slot 0 32 = cache_header_bytes (sealed_header stage d) -> 32 <= zlen slot ->
  forall st, valid_header slot st = if decide (st = stage) then Some (sealed_header stage d) else None.
Proof.
  intros Hs Hl Hn Hb Hz st. unfold valid_header. rewrite (read_cache_header_bytes slot stage d) by done.
  unfold sealed_header at 1 2 3 4 5. cbn [ch_magic ch_version ch_role ch_reserved ch_stored_size].
  rewrite !Z.eqb_refl, (proj2 (bytes_eqb_true _ _)), (proj2 (Z.eqb_neq _ _) Hn) by done.
  rewrite andb_true_r. cbn [andb negb]. rewrite andb_true_r. case_decide as E.
  - subst st. by rewrite Z.eqb_refl.
  - by rewrite (proj2 (Z.eqb_neq _ _)) by (intros ?%role_byte_inj; auto).
Qed.

(** A slot whose magic is zero is valid for no stage. *)
Definition magic_cleared (slot : list Z) : Prop := 4 <= zlen slot -> sub slot 0 4 = zeros 4.

Lemma valid_header_cleared slot st : magic_cleared slot -> valid_header slot st = None.
Proof.
  intros Hc. unfold valid_header, read_cache_header, STAGE_CACHE_HEADER_LEN.
  destruct (Z.ltb_spec (zlen slot) 32); [done|]. cbn [ch_magic].
  unfold u32_at, le_at. rewrite Hc by lia. done.
Qed.

Section seal.
Context {T : Target} {M : Type} {BM : BootMedia M} {wf : M -> Prop} {BL : BootMediaLaws M wf}.

(** What [cache_store] does, whatever the outcome. *)
Lemma cache_store_spec stage source d slot slot' r :
  wf source -> bootstrap_wf d -> zlen slot <= usize_max ->
  cache_store stage source d slot = (slot', r) ->
  zlen slot' = zlen slot /\
  match r with
  | Ok _ =>
      32 + bd_stored_size d <= zlen slot /\
      sub slot' 0 32 = cache_header_bytes (sealed_header stage d) /\
      read_at source (bd_offset d) (sub slot 32 (bd_stored_size d)) =
        (sub slot' 32 (bd_stored_size d), Ok (bd_stored_size d)) /\
      (forall a n, 32 + bd_stored_size d <= a -> 0 <= n -> sub slot' a n = sub slot a n)
  | Err _ => magic_cleared slot'
  | Panic => False
  end.
Proof.
  intros Hm Hd Hz H. destruct Hd as [[? ?] [? ?] [? ?] _ _ _ _ _ _].
  unfold cache_store, STAGE_CACHE_HEADER_LEN, sbind, slift in H.
  set (s0 := if 4 <=? zlen slot then upd slot 0 (zeros 4) else slot) in *.
  assert (Hz0 : zlen s0 = zlen slot).
  { unfold s0. destruct (Z.leb_spec 4 (zlen slot)); [|done]. apply zlen_upd; [lia|done]. }
  assert (Hc0 : magic_cleared s0).
  { unfold s0, magic_cleared. destruct (Z.leb_spec 4 (zlen slot)); [|lia].
    intros _. by apply sub_upd_at. }
  assert (Hs0 : forall a n, 4 <= a -> 0 <= n -> sub s0 a n = sub slot a n).
  { intros a n Ha Hn. unfold s0. destruct (Z.leb_spec 4 (zlen slot)); [|done].
    apply sub_upd_other; (lia || (change (zlen (zeros 4)) with 4; lia)). }
  clearbody s0. unfold try_from in H at 1.
  destruct (Z.leb_spec (bd_stored_size d) usize_max); [|by simplify_eq/=]. cbn [ok_or] in H.
  destruct (checked_add usize_max 32 (bd_stored_size d)) as [req|] eqn:Hreq; [|by simplify_eq/=].
  apply checked_add_Some in Hreq as [-> Hreq]. cbn [ok_or] in H.
  destruct (Z.ltb_spec (zlen s0) (32 + bd_stored_size d)); [by simplify_eq/=|].
  unfold try_from in H. destruct (Z.leb_spec (bd_offset d) usize_max); [|by simplify_eq/=].
  cbn [ok_or] in H.
  assert (Hzb : zlen (sub s0 32 (bd_stored_size d)) = bd_stored_size d) by (apply zlen_sub; lia).
  pose proof (read_at_zlen source (bd_offset d) (sub s0 32 (bd_stored_size d)) Hm) as Hbz.
  pose proof (read_at_no_panic source (bd_offset d) (sub s0 32 (bd_stored_size d)) Hm) as Hnp.
  specialize (Hbz ltac:(lia) ltac:(lia)). specialize (Hnp ltac:(lia) ltac:(lia)).
  rewrite Hs0 in * by lia.
  destruct (read_at source _ _) as [body rr] eqn:Hread. cbn [fst snd] in *. rewrite Hzb in Hbz.
  assert (Hz1 : zlen (upd s0 32 body) = zlen s0) by (apply zlen_upd; lia).
  assert (Hc1 : magic_cleared (upd s0 32 body)).
  { intros Hge. rewrite sub_upd_other by lia. apply Hc0. lia. }
  destruct rr as [n|e|]; [|simplify_eq; split; [lia|done]|done].
  destruct (Z.eqb_spec n (bd_stored_size d)) as [->|]; [|simplify_eq; split; [lia|done]].
  set (h0 := cache_header_bytes _) in H. set (mg := le_enc 4 _) in H. injection H as <- <-.
  assert (Hh0 : zlen h0 = 32) by (by apply zlen_cache_header).
  assert (Hz2 : zlen (upd (upd s0 32 body) 0 h0) = zlen slot) by (rewrite zlen_upd; lia).
  assert (Hz3 : zlen mg = 4) by done.
  split; [by rewrite zlen_upd by lia|]. split_and!; [lia| | |].
  - change 32 with (4 + 28) at 2. rewrite sub_split by lia.
    rewrite sub_upd_at by (done || lia). change (0 + 4) with 4.
    rewrite sub_upd_other by lia.
    rewrite <- (sub_prefix _ 32 4 28), sub_upd_at by lia. reflexivity.
  - f_equal. rewrite !sub_upd_other by lia. symmetry. apply sub_upd_at; lia.
  - intros a n Ha Hn. rewrite !sub_upd_other by lia. apply Hs0; lia.
Qed.
End seal.

Lemma bind_bytes {E A B} (m : sres (list Z) E A) (k : A -> sres (list Z) E B) slot :
  bytes_ok (fst (m slot)) ->
  (forall a, snd (m slot) = Ok a -> bytes_ok (fst (k a (fst (m slot))))) ->
  bytes_ok (fst (sbind m k slot)).
Proof. unfold sbind. destruct (m slot) as [s [a|e|]]; simpl; auto. Qed.

Lemma bytes_ok_cache_header h :
  byte_ok (ch_role h) -> bytes_ok (ch_reserved h) -> bytes_ok (cache_header_bytes h).
Proof.
  intros. unfold cache_header_bytes. rewrite !bytes_ok_app.
  split_and!; try apply bytes_ok_le_enc; [|done]. constructor; [done | constructor].
Qed.

Lemma cache_store_bytes {T : Target} {M : Type} {BM : BootMedia M} {wf : M -> Prop}
    {BL : BootMediaLaws M wf} stage (source : M) d slot :
  wf source -> 0 <= bd_offset d -> 0 <= bd_stored_size d -> bytes_ok slot ->
  bytes_ok (fst (cache_store stage source d slot)).
Proof.
  intros Hm Ho Hs Hb. unfold cache_store. apply bind_bytes.
  { simpl. case_match; [|done]. apply bytes_ok_upd; auto with bytes. }
  intros _ _. cbn [fst]. set (s0 := if 4 <=? zlen slot then upd slot 0 (zeros 4) else slot).
  assert (Hb0 : bytes_ok s0) by (unfold s0; case_match; [apply bytes_ok_upd; auto with bytes|done]).
  clearbody s0. apply bind_bytes; [done|]. intros stored Hst. cbn [slift fst snd] in *.
  rewrite ok_or_Ok, try_from_Some in Hst. destruct Hst as [-> Hst].
  apply bind_bytes; [done|]. intros req _. cbn [slift fst].
  apply bind_bytes; [done|]. intros _ _. cbn [fst].
  apply bind_bytes; [done|]. intros off Hoff. cbn [slift fst snd] in *.
  rewrite ok_or_Ok, try_from_Some in Hoff. destruct Hoff as [-> Hoff].
  assert (Hr : bytes_ok (fst (read_at source (bd_offset d)
             (sub s0 STAGE_CACHE_HEADER_LEN (bd_stored_size d))))).
  { apply read_at_bytes; [done|lia| |by apply bytes_ok_sub].
    unfold sub, zlen. rewrite length_take. lia. }
  apply bind_bytes; cbn beta; destruct (read_at source _ _) as [body r]; cbn [fst] in *;
    [by apply bytes_ok_upd|]. intros _ _.
  repeat apply bytes_ok_upd; auto with bytes. apply bytes_ok_cache_header; [|apply bytes_ok_zeros].
  unfold byte_ok. destruct stage; simpl; lia.
Qed.

(** ** Loading from a slot *)

Lemma with_offset_wf d : bootstrap_wf d -> bootstrap_wf (with_offset d 0).
Proof.
  intros [[? ?] ? ? ? ? ? ? ? Hv]. destruct d. constructor; try done.
  apply bootstrap_validate_Ok in Hv as [? ? [? ?] ? ? ?]. apply bootstrap_validate_Ok.
  cbn in *. constructor; cbn; try done. lia.
Qed.

Lemma store_memory_ok s : bytes_ok (st_mem s) -> mem_ok (store_memory s).
Proof. intros H. apply mem_ok_write; [|done]. intros a. unfold byte_ok. lia. Qed.

Section resume.
Context {T : Target} {C : Crypto}.
Context (partial : list Z -> list Z -> list Z).

Section slot.
Context {M : Type} {BM : BootMedia M} {wf : M -> Prop} {BL : BootMediaLaws M wf}.

Lemma slot_body_Ok (slot : M) stage d body :
  wf slot -> bootstrap_wf d -> slot_body slot stage d = Ok body ->
  sub_region_wf (wf := wf) body /\ body = {| sr_parent := slot; sr_offset := 32; sr_size := bd_stored_size d |}.
Proof.
  intros Hm Hd H. unfold slot_body in H. destruct (read_at _ _ _) as [bytes r].
  rust_step H. rust_step H. rust_step H. rust_step H. rust_step H. bool_hyp.
  apply ok_or_Ok in H. apply ok_or_Ok, try_from_Some in Ha1 as [-> _]. rewrite H0 in H.
  pose proof (bwf_stored_size _ Hd) as [? ?].
  split; [eapply sub_region_new_wf; [done| | |done]; unfold STAGE_CACHE_HEADER_LEN; lia|].
  unfold sub_region_new in H. case_match; [done|]. by simplify_eq.
Qed.

(** What a resume runs is what the descriptor authenticates. *)
Lemma load_from_slot_Ok (slot : M) stage d p c s s' entry :
  wf slot -> bootstrap_wf d -> mem_ok (ram s) ->
  load_from_slot partial slot stage d p c s = (s', Ok entry) ->
  let loaded := mem_bytes (ram s') (bd_load_addr d) (bd_loaded_size d) in
  sha256 loaded = bd_loaded_digest d /\
  (exists stored, sha256 stored = bd_stored_digest d /\ decoded (bd_compression d) stored loaded) /\
  log s' = log s /\ mem_ok (ram s') /\
  entry = bd_load_addr d + bd_entry_offset d /\
  bd_load_addr d <= entry < bd_load_addr d + bd_loaded_size d /\
  entry mod entry_alignment p = 0.
Proof.
  intros Hm Hd Hram H. unfold load_from_slot in H.
  apply sbind_Ok in H as (body & ? & [-> Hb]%slift_Ok & H).
  apply slot_body_Ok in Hb as [Hw _]; [|done..].
  destruct (load_bootstrap _ _ _ _ _ _ _) as [s1 r] eqn:E. simplify_eq.
  destruct r as [v|e|]; simplify_eq/=.
  apply (load_bootstrap_Ok partial body) in E as (Hmem & _ & Hl & Hst & Hdec & _ & He & Hin & Hal);
  [|done|by apply with_offset_wf|done].
  cbn in *. split; [done|]. split; [eauto|]. done.
Qed.
End slot.

Lemma entry_media_wf s es e :
  store_inv s es -> e ∈ es -> mapped_wf (entry_media s e).
Proof.
  intros Hi Hin. pose proof (list_elem_of_lookup_1 _ _ Hin) as [i Hl].
  destruct (si_header_size _ _ Hi) as [Hh _]. unfold HEADER_SIZE in Hh.
  pose proof (chain_sorted (st_mem s) (lh_header_size (read_header (st_mem s))) es i e
                (si_bytes _ _ Hi) ltac:(lia) (si_chain _ _ Hi) Hl) as (? & ? & ? & _).
  pose proof (used_range _ (si_bytes _ _ Hi)). pose proof usize_max_bounds.
  constructor; simpl; [lia|]. apply store_memory_ok, Hi.
Qed.

Lemma find_in s es tag e : store_inv s es -> Store.find s tag = Ok (Some e) -> e ∈ es /\ e_tag e = tag.
Proof.
  intros Hi. rewrite (find_inv s es tag Hi). intros [= H].
  apply fmap_Some in H as ([i x] & H & ->). apply list_find_Some in H as (Hl & Ht & _).
  split; [|done]. apply list_elem_of_lookup_2 in Hl. by apply list_elem_of_filter in Hl as [_ ?].
Qed.

(** *** The copy a cold boot makes *)

Lemma stored_input_Ok d :
  bootstrap_wf d ->
  stored_input d = Ok {| mw_start := bd_load_addr d + input_at d; mw_len := bd_stored_size d |}.
Proof.
  intros Hd. pose proof (proj1 (bootstrap_validate_Ok _ _ tt) (bwf_valid _ Hd)) as [_ _ _ Hl _ _].
  unfold stored_input, input_at. destruct (bd_compression d); simpl.
  - by rewrite Z.add_0_r.
  - by rewrite checked_add_ok.
Qed.

(** A medium that delivers the body lets the slot be sealed. *)
Lemma cache_store_seals_ok {M : Type} {BM : BootMedia M} stage (source : M) d slot :
  0 <= bd_offset d <= usize_max -> 0 <= bd_stored_size d -> 32 + bd_stored_size d <= usize_max ->
  zlen slot = 32 + bd_stored_size d ->
  (forall buf, zlen buf = bd_stored_size d ->
     snd (read_at source (bd_offset d) buf) = Ok (bd_stored_size d)) ->
  exists slot', cache_store stage source d slot = (slot', Ok tt).
Proof.
  intros Ho Hs Hu Hz Hread. unfold cache_store, sbind, slift, STAGE_CACHE_HEADER_LEN.
  rewrite try_from_ok by lia. cbn [ok_or]. rewrite checked_add_ok by lia. cbn [ok_or].
  set (s0 := if 4 <=? zlen slot then upd slot 0 (zeros 4) else slot).
  assert (Hz0 : zlen s0 = zlen slot).
  { unfold s0. destruct (Z.leb_spec 4 (zlen slot)); [|done]. apply zlen_upd; [lia|done]. }
  clearbody s0. test_false (zlen s0 <? 32 + bd_stored_size d). rewrite try_from_ok by lia. cbn [ok_or].
  specialize (Hread (sub s0 32 (bd_stored_size d)) ltac:(apply zlen_sub; lia)).
  destruct (read_at source _ _) as [body r]. cbn [snd] in Hread. subst r. rewrite Z.eqb_refl. eauto.
Qed.

Definition room_for (b : Boot) (stage : CachedStage) (d : BootstrapDescriptor) : Prop :=
  exists s e, add (stage_tag stage) (STAGE_CACHE_HEADER_LEN + bd_stored_size d) 3 (bstore b) = (s, Ok e).

(** The entry that holds a sealed copy of [stored]. *)
Record cached_entry (s : Store) (stage : CachedStage) (d : BootstrapDescriptor) (stored : list Z)
    (e : Entry) : Prop := {
  ce_tag : e_tag e = stage_tag stage;
  ce_size : e_size e = 32 + bd_stored_size d;
  ce_header : sub (entry_bytes s e) 0 32 = cache_header_bytes (sealed_header stage d);
  ce_body : sub (entry_bytes s e) 32 (bd_stored_size d) = stored
}.

Lemma stage_tag_range stage : 0 < stage_tag stage < 2 ^ 24.
Proof. destruct stage; simpl; lia. Qed.

Lemma cache_stage_spec stage d input b b' r es :
  store_inv (bstore b) es -> mem_ok (ram (machine b)) -> bootstrap_wf d ->
  0 <= mw_start input <= usize_max -> 32 + bd_stored_size d <= usize_max ->
  cache_stage stage d input (bd_stored_size d) (STAGE_CACHE_HEADER_LEN + bd_stored_size d) b = (b', r) ->
  r <> Panic ->
  machine b' = machine b /\ r = Ok tt /\
  exists tail, store_inv (bstore b') (es ++ tail) /\
    (tail = [] /\ ~ room_for b stage d \/
     exists pad e, tail = pad ++ [e] /\ nonvoid pad = [] /\
       cached_entry (bstore b') stage d
         (mem_bytes (ram (machine b)) (mw_start input) (bd_stored_size d)) e).
Proof.
  intros Hi Hmem Hd Hst Hsz H Hnp. unfold cache_stage in H. rewrite as_usize_small in H by lia.
  pose proof (bwf_stored_size _ Hd) as [Hs0 Hs1]. pose proof (stage_tag_range stage) as Htag.
  destruct (add _ _ 3 (bstore b)) as [s [e|err|]] eqn:Hadd; [| |simplify_eq].
  2:{ injection H as <- <-. pose proof (add_Err _ _ _ _ _ _ Hadd) as ->.
      split_and!; [done..|]. exists []. rewrite app_nil_r. split; [done|]. left. split; [done|].
      intros (s' & e' & Hadd'). by rewrite Hadd in Hadd'. }
  unfold STAGE_CACHE_HEADER_LEN in *.
  pose proof Hadd as Hadd'. apply (add_Ok (bstore b) es) in Hadd'; [|done|lia..].
  destruct Hadd' as ((pad & Hinv & Hpad) & _ & Het & Hez & _ & Hu1 & Hu2 & _).
  set (media := linear_media (mw_start input) (bd_stored_size d) (ram (machine b))) in *.
  assert (Hwf : mapped_wf media) by (constructor; simpl; [lia|done]).
  assert (Hin : e ∈ es ++ pad ++ [e]) by (rewrite !elem_of_app; right; right; by apply list_elem_of_singleton).
  pose proof (used_range _ (si_bytes _ _ Hi)). pose proof (si_max _ _ Hinv) as [? ?].
  assert (Hzb : zlen (entry_bytes s e) = 32 + bd_stored_size d)
    by (unfold entry_bytes; rewrite Hez; apply zlen_sub; unfold ENTRY_HEADER_SIZE in *; lia).
  destruct (cache_store_seals_ok stage media (with_offset d 0) (entry_bytes s e)) as [slot Hcs];
    cbn [bd_offset bd_stored_size with_offset]; try lia.
  { intros buf Hbuf. unfold media, linear_media. rewrite linear_read_at by lia. by rewrite Hbuf. }
  rewrite Hcs in H. injection H as <- <-. cbn [machine bstore].
  pose proof (cache_store_bytes stage media (with_offset d 0) (entry_bytes s e) Hwf ltac:(done) Hs0
                (bytes_ok_sub _ _ _ (si_bytes _ _ Hinv))) as Hbo.
  rewrite Hcs in Hbo. cbn [fst] in Hbo.
  apply (cache_store_spec stage media) in Hcs as (Hz & _ & Hhd & Hbd & _);
    [|done|by apply with_offset_wf|lia].
  cbn [bd_offset bd_stored_size with_offset] in *.
  destruct (write_bytes_inv s _ e slot Hinv Hin ltac:(lia) Hbo) as (Hinv' & Heb & _).
  split_and!; [done..|]. exists (pad ++ [e]). split; [done|]. right. exists pad, e. split_and!; [done..|].
  constructor; [done|lia|by rewrite Heb|]. rewrite Heb.
  assert (Hzs : zlen (sub (entry_bytes s e) 32 (bd_stored_size d)) = bd_stored_size d)
    by (apply zlen_sub; lia).
  unfold media, linear_media in Hbd. rewrite linear_read_at in Hbd by lia.
  rewrite Z.add_0_r, Hzs in Hbd. by injection Hbd.
Qed.

(** *** The two ways to load a stage *)

Section load_stage.
Context {M : Type} {BM : BootMedia M} {wf : M -> Prop} {BL : BootMediaLaws M wf}.

Lemma stored_fits p d :
  bootstrap_wf d -> permits p (bd_load_addr d) (footprint_size d) = true ->
  0 <= bd_load_addr d + input_at d <= usize_max /\ 0 <= input_at d /\
  bd_stored_size d <= usize_max /\ 32 + bd_stored_size d <= usize_max.
Proof.
  intros Hd Hp. apply permits_true in Hp as (_ & _ & ? & Hi & Hend & _).
  pose proof (proj1 (bootstrap_validate_Ok _ _ tt) (bwf_valid _ Hd)) as [_ _ _ _ _ Hno].
  destruct Hd as [_ [? ?] [? ?] [? ?] _ _ _ _ _].
  assert (isize_max + 32 <= usize_max)
  by (unfold isize_max, usize_max; destruct usize_bits_ok as [-> | ->]; lia).
  unfold footprint_size, input_at in *. destruct (bd_compression d).
  - destruct Hno as (_ & ? & _); [done|]. lia.
  - lia.
Qed.

Lemma load_stage_cold media stage d p c event b b' entry es :
  wf media -> bootstrap_wf d -> mem_ok (ram (machine b)) -> store_inv (bstore b) es ->
  load_stage partial media stage d p false c event b = (b', Ok entry) ->
  load_bootstrap partial media d p c event (machine b) = (machine b', Ok entry) /\
  exists tail, store_inv (bstore b') (es ++ tail) /\
  (tail = [] /\ ~ room_for b stage d \/
   exists pad e, tail = pad ++ [e] /\ nonvoid pad = [] /\
     cached_entry (bstore b') stage d
       (mem_bytes (ram (machine b')) (bd_load_addr d + input_at d) (bd_stored_size d)) e).
Proof.
  intros Hm Hd Hram Hi H. unfold load_stage in H. apply sbind_Ok in H as (v & b1 & Hload & H).
  destruct (load_bootstrap _ _ _ _ _ _ _) as [m1 r1] eqn:E. simplify_eq.
  rewrite map_err_Ok in *. subst r1.
  destruct (load_bootstrap_Ok partial media d p c event _ _ _ Hm Hd Hram E) as (Hmem & Hperm & _).
  destruct (stored_fits p d Hd Hperm) as (? & ? & ? & ?).
  rewrite stored_input_Ok in H by done.
  apply sbind_Ok in H as (input & ? & [-> [= <-]]%slift_Ok & H). cbn [mw_len] in H.
  rewrite try_from_ok in H by done. apply sbind_Ok in H as (st & ? & [-> [= <-]]%slift_Ok & H).
  unfold add_or_panic, STAGE_CACHE_HEADER_LEN in H. rewrite checked_add_ok in H by done.
  apply sbind_Ok in H as (need & ? & [-> [= <-]]%slift_Ok & H).
  apply sbind_Ok in H as (u & b2 & Hc & [-> [= <-]]%slift_Ok).
  apply (cache_stage_spec stage d _ _ _ _ es) in Hc as (Hmc & _ & tail & Hinv & Hor); try done.
  cbn [machine bstore mw_start] in *. rewrite Hmc in *. split; [done|].
  exists tail. split; [done|]. exact Hor.
Qed.

(** Caching never makes a cold boot fail. *)
Lemma load_stage_runs media stage d p c event b m1 entry es :
  wf media -> bootstrap_wf d -> mem_ok (ram (machine b)) -> store_inv (bstore b) es ->
  load_bootstrap partial media d p c event (machine b) = (m1, Ok entry) -> room_for b stage d ->
  exists b1, load_stage partial media stage d p false c event b = (b1, Ok entry) /\ machine b1 = m1.
Proof.
  intros Hm Hd Hram Hi E (s & e & Hadd).
  destruct (load_bootstrap_Ok partial media d p c event _ _ _ Hm Hd Hram E) as (Hmem & Hperm & _).
  destruct (stored_fits p d Hd Hperm) as (? & ? & ? & ?).
  destruct (cache_stage stage d {| mw_start := bd_load_addr d + input_at d; mw_len := bd_stored_size d |}
  (bd_stored_size d) (STAGE_CACHE_HEADER_LEN + bd_stored_size d)
  {| machine := m1; bstore := bstore b |}) as [b2 r] eqn:Hc.
  assert (Hnp : r <> Panic).
  { unfold cache_stage in Hc. cbn [bstore machine mw_start] in Hc. rewrite Hadd in Hc.
  destruct (cache_store _ _ _ _) as [slot [u|e'|]] eqn:Hcs; simplify_eq; try done.
  apply (cache_store_spec (wf := mapped_wf)) in Hcs as [_ []]; try done.
  - constructor; simpl; [|done]. pose proof (bwf_stored_size _ Hd) as [? ?]. lia.
  - by apply with_offset_wf.
  - pose proof (bwf_stored_size _ Hd) as [? ?]. pose proof (stage_tag_range stage).
    apply (add_Ok (bstore b) es) in Hadd as (_ & _ & _ & Hez & _); try (done || lia).
    2:{ unfold STAGE_CACHE_HEADER_LEN. lia. }
    unfold entry_bytes. rewrite Hez. unfold sub, zlen. rewrite length_take.
    unfold STAGE_CACHE_HEADER_LEN. lia. }
  pose proof Hc as Hc'.
  apply (cache_stage_spec stage d _ _ _ _ es) in Hc' as (Hmc & -> & _); try done.
  exists b2. split; [|done]. unfold load_stage, sbind, slift. rewrite E. cbn [map_err].
  rewrite stored_input_Ok by done. cbn [map_err mw_len]. rewrite try_from_ok by done. cbn [ok_or].
  unfold add_or_panic, STAGE_CACHE_HEADER_LEN in *. rewrite checked_add_ok by done. cbn [or_panic].
  by rewrite Hc.
Qed.

Lemma load_stage_resume media stage d p c event b b' entry es :
  bootstrap_wf d -> mem_ok (ram (machine b)) -> store_inv (bstore b) es ->
  load_stage partial media stage d p true c event b = (b', Ok entry) ->
  bstore b' = bstore b /\
  exists e, e ∈ es /\ e_tag e = stage_tag stage /\
  load_from_slot partial (entry_media (bstore b) e) stage d p c (machine b) = (machine b', Ok entry).
Proof.
  intros Hd Hram Hi H. unfold load_stage, resume_stage in H.
  destruct (Store.find _ _) as [[e|]|?|] eqn:Hf; simplify_eq.
  apply (find_in _ es) in Hf as [Hin Ht]; [|done].
  destruct (load_from_slot _ _ _ _ _ _ _) as [m1 r1] eqn:E. simplify_eq. rewrite map_err_Ok in *.
  subst r1. split; [done|]. eauto.
Qed.
End load_stage.
End resume.

(** ** Theorems *)

(** Sealing a slot.  Whatever the outcome, [store] keeps the slot's size
    and never panics.  On success the slot's header is valid for this stage and
    for no other and records the descriptor's sizes, the bytes behind it are the
    ones the source delivered, and the rest is untouched; after any error no
    stage finds a valid header, even if the slot held one before. *)
Theorem cache_store_seals {T : Target} {M : Type} {BM : BootMedia M} {wf : M -> Prop}
    {BL : BootMediaLaws M wf} stage (source : M) d slot slot' r :
  wf source -> bootstrap_wf d -> zlen slot <= usize_max ->
  cache_store stage source d slot = (slot', r) ->
  zlen slot' = zlen slot /\
  match r with
  | Ok _ =>
      (forall st, valid_header slot' st = if decide (st = stage) then Some (sealed_header stage d) else None) /\
      read_at source (bd_offset d) (sub slot 32 (bd_stored_size d)) =
        (sub slot' 32 (bd_stored_size d), Ok (bd_stored_size d)) /\
      (forall a n, 32 + bd_stored_size d <= a -> 0 <= n -> sub slot' a n = sub slot a n)
  | Err _ => forall st, valid_header slot' st = None
  | Panic => False
  end.
Proof.
  intros Hm Hd Hz H. pose proof (bwf_stored_size _ Hd) as Hs.
  pose proof (proj1 (bootstrap_validate_Ok _ _ tt) (bwf_valid _ Hd)) as [[Hne _] _ _ _ _ _].
  apply cache_store_spec in H as [Hl H]; [|done..]. split; [done|].
  destruct r as [u|e|]; [|intros st; by apply valid_header_cleared|done].
  destruct H as (Hfit & Hh & Hb & Hrest). split_and!; try done.
  intros st. apply valid_header_sealed; try done; [apply Hd|]. destruct Hs. lia.
Qed.

(** C17: Nothing unauthenticated runs, on a cold boot or on a resume.  When
    [load_stage] returns an entry point, the bytes at the load address hash to
    the descriptor's loaded digest and decode from bytes with the stored digest,
    the entry point lies among them, a cold boot has measured those stored bytes
    once and a resume has measured nothing; the store still holds every entry it
    had, and a resume has not touched it. *)
Theorem load_stage_sound {T : Target} {C : Crypto} {M : Type} {BM : BootMedia M}
    {wf : M -> Prop} {BL : BootMediaLaws M wf} partial (media : M) stage d p resume c event b b' entry es :
  wf media -> bootstrap_wf d -> mem_ok (ram (machine b)) -> store_inv (bstore b) es ->
  load_stage partial media stage d p resume c event b = (b', Ok entry) ->
  let loaded := mem_bytes (ram (machine b')) (bd_load_addr d) (bd_loaded_size d) in
  sha256 loaded = bd_loaded_digest d /\
  (exists stored, sha256 stored = bd_stored_digest d /\ decoded (bd_compression d) stored loaded /\
     log (machine b') = if resume then log (machine b) else record event stored (log (machine b))) /\
  entry = bd_load_addr d + bd_entry_offset d /\
  bd_load_addr d <= entry < bd_load_addr d + bd_loaded_size d /\
  (exists tail, store_inv (bstore b') (es ++ tail) /\ (resume = true -> bstore b' = bstore b)).
Proof.
  intros Hm Hd Hram Hi H. destruct resume.
  - apply (load_stage_resume partial media stage d p c event b b' entry es) in H as (Hst & e & Hin & _ & H);
      [|done..].
    apply (load_from_slot_Ok partial (entry_media (bstore b) e)) in H
      as (Hl & (st & ? & ?) & Hlog & _ & He & Hrange & _); [|by eapply entry_media_wf|done..].
    split; [done|]. split; [by exists st|]. split_and!; [done..|lia|lia|].
    exists []. rewrite app_nil_r, Hst. done.
  - apply (load_stage_cold partial media stage d p c event b b' entry es) in H as (H & tail & Hinv & _);
      [|done..].
    apply (load_bootstrap_Ok partial media) in H as (_ & _ & Hl & Hs & Hdec & Hlog & He & Hr & _); [|done..].
    split; [done|]. split; [eauto|]. split_and!; [done|lia|lia|]. by exists tail.
Qed.

(** ** From cold boot to resume *)

Section cycle.
Context {T : Target} {C : Crypto}.
Context (partial : list Z -> list Z -> list Z).

Lemma find_last s es pad e tag :
  store_inv s (es ++ pad ++ [e]) -> nonvoid pad = [] -> e_tag e = tag -> tag <> VOID ->
  (forall x, x ∈ es -> e_tag x <> tag) -> Store.find s tag = Ok (Some e).
Proof.
  intros Hi Hpad He Ht Hes. rewrite (find_inv _ _ tag Hi). f_equal.
  assert (Hn : nonvoid (es ++ pad ++ [e]) = nonvoid es ++ [e]).
  { unfold nonvoid in *. rewrite !list.filter_app, Hpad, filter_cons, decide_True by congruence. done. }
  rewrite Hn, list_find_app_r.
  - simpl. rewrite decide_True by done. done.
  - apply list_find_None, list.Forall_forall. intros x Hx.
    apply list_elem_of_filter in Hx as [_ Hx]. auto.
Qed.

Context (s : Store) (es : list Entry) (stage : CachedStage) (d : BootstrapDescriptor) (stored : list Z)
  (e : Entry).
Hypothesis Hinv : store_inv s es.
Hypothesis Hin : e ∈ es.
Hypothesis Hent : cached_entry s stage d stored e.
Hypothesis Hd : bootstrap_wf d.

Lemma entry_inside : 0 <= e_offset e /\ 0 <= e_size e /\ e_offset e + e_size e <= zlen (st_mem s) /\
  e_size e <= usize_max.
Proof.
  pose proof (list_elem_of_lookup_1 _ _ Hin) as [i Hl].
  destruct (si_header_size _ _ Hinv) as [Hh _]. unfold HEADER_SIZE in Hh.
  pose proof (chain_sorted (st_mem s) (lh_header_size (read_header (st_mem s))) es i e
                (si_bytes _ _ Hinv) ltac:(lia) (si_chain _ _ Hinv) Hl) as (? & ? & ? & _).
  pose proof (used_range _ (si_bytes _ _ Hinv)). pose proof (si_max _ _ Hinv). pose proof usize_max_bounds.
  lia.
Qed.

(** Reads of the entry through the boot media interface return its bytes. *)
Lemma entry_media_read off buf :
  0 <= off -> off + zlen buf <= e_size e ->
  read_at (entry_media s e) off buf = (sub (entry_bytes s e) off (zlen buf), Ok (zlen buf)).
Proof.
  intros Ho Hb. pose proof entry_inside as (? & ? & ? & ?). pose proof (zlen_nonneg buf).
  unfold entry_media, linear_media. rewrite linear_read_at by lia. f_equal.
  unfold address, store_memory, entry_bytes.
  replace (st_base s + e_offset e + off) with (st_base s + (e_offset e + off)) by lia.
  rewrite mem_bytes_write by lia. symmetry. apply sub_sub; lia.
Qed.

Lemma entry_header_read :
  exists bytes, read_at (entry_media s e) 0 (zeros STAGE_CACHE_HEADER_LEN) = (bytes, Ok 32) /\
                valid_header bytes stage = Some (sealed_header stage d).
Proof.
  destruct Hent as [_ Hsz Hhd _]. pose proof (bwf_stored_size _ Hd) as [? ?].
  pose proof (proj1 (bootstrap_validate_Ok _ _ tt) (bwf_valid _ Hd)) as [[Hne _] _ _ _ _ _].
  pose proof entry_inside as (? & ? & ? & ?).
  assert (Hz : zlen (entry_bytes s e) = e_size e) by (apply zlen_sub; lia).
  exists (sub (entry_bytes s e) 0 32). split.
  - rewrite entry_media_read by (rewrite ?zlen_zeros; unfold STAGE_CACHE_HEADER_LEN; lia). done.
  - rewrite (valid_header_sealed _ stage d); [by rewrite decide_True| | |done| |].
    + apply Hd. + apply Hd.
    + rewrite sub_prefix by lia. done.
    + rewrite zlen_sub; lia.
Qed.

Lemma has_complete_slot_entry : has_complete_slot (entry_media s e) stage = Ok true.
Proof.
  unfold has_complete_slot. destruct entry_header_read as (bytes & -> & Hv). rewrite Z.eqb_refl, Hv.
  cbn [negb ch_stored_size sealed_header]. destruct Hent as [_ Hsz _ _].
  pose proof entry_inside as (? & ? & ? & ?). pose proof usize_max_bounds.
  unfold STAGE_CACHE_HEADER_LEN. rewrite checked_add_ok by lia. f_equal. apply Z.leb_le.
  change (media_size (entry_media s e)) with (e_size e). lia.
Qed.

Definition body_region : SubRegion (MemoryMapped LinearMap) :=
  {| sr_parent := entry_media s e; sr_offset := 32; sr_size := bd_stored_size d |}.

Lemma slot_body_entry : slot_body (entry_media s e) stage d = Ok body_region.
Proof.
  unfold slot_body. destruct entry_header_read as (bytes & -> & Hv). rewrite Hv.
  cbn [map_err rbind ok_or]. rewrite Z.eqb_refl. cbn [negb].
  destruct Hent as [_ Hsz _ _]. pose proof entry_inside as (? & ? & ? & ?).
  cbn [ch_stored_size ch_loaded_size sealed_header]. rewrite try_from_ok by lia.
  cbn [rbind ok_or]. rewrite !Z.eqb_refl. cbn [negb orb].
  unfold sub_region_new. change (media_size (entry_media s e)) with (e_size e).
  rewrite in_bounds by (unfold STAGE_CACHE_HEADER_LEN; lia). done.
Qed.

Lemma body_region_wf : sub_region_wf (wf := mapped_wf) body_region.
Proof.
  pose proof (bwf_stored_size _ Hd) as [? ?]. destruct Hent as [_ Hsz _ _].
  constructor; cbn [body_region sr_parent sr_offset sr_size]; try lia.
  - by eapply entry_media_wf.
  - change (media_size (entry_media s e)) with (e_size e). lia.
Qed.

Lemma body_region_holds : media_holds body_region stored.
Proof.
  pose proof (bwf_stored_size _ Hd) as [? ?]. destruct Hent as [_ Hsz _ Hbd].
  pose proof entry_inside as (? & ? & ? & ?).
  assert (Hz : zlen (entry_bytes s e) = e_size e) by (apply zlen_sub; lia).
  split; [rewrite <- Hbd; cbn [body_region sr_size media_size sub_region_media]; apply zlen_sub; lia|].
  intros off buf Ho Hb. cbn [media_size sub_region_media body_region sr_size] in Hb.
  pose proof (zlen_nonneg buf).
  rewrite (sub_region_read_at_eq (wf := mapped_wf)) by (apply body_region_wf || done).
  cbn [body_region sr_parent sr_offset]. rewrite entry_media_read by lia. f_equal.
  rewrite <- Hbd, sub_sub by lia. done.
Qed.

(** The policy keeps the store out of the destination. *)
Definition store_reserved (p : MemoryPolicy) : Prop :=
  exists w, w ∈ reserved p /\ mw_start w <= st_base s /\
            st_base s + zlen (st_mem s) <= mw_start w + mw_len w.

Lemma place_body p start size :
  0 <= size -> store_reserved p -> permits p start size = true -> place body_region p start size = Ok tt.
Proof.
  intros Hsz0 (w & Hw & Hw1 & Hw2) Hp. apply place_Ok. split; [done|]. intros addr src Has.
  pose proof (as_slice_spans _ _ _ body_region_wf Has) as Hz. destruct Hent as [_ Hsz _ _].
  pose proof (bwf_stored_size _ Hd) as [? ?].
  cbn [media_size sub_region_media body_region sr_size] in Hz.
  assert (Haddr : addr = address s e + 32).
  { cbn [as_slice sub_region_media body_region sr_parent sr_offset sr_size] in Has.
    apply bind_Some in Has as ([a l] & Ha & [= <- _]).
    cbn [as_slice mapped_media entry_media linear_media mm_map mm_mem mm_size as_contiguous_slice
         linear_flash_map lm_base] in Ha.
    destruct (Z.eqb_spec (e_size e) 0); [lia|]. case_match; by simplify_eq. }
  apply permits_true in Hp as (_ & _ & _ & _ & _ & _ & Hres). specialize (Hres w Hw).
  rewrite overlaps_false in *. cbn [mw_start mw_len] in *. rewrite Hz, Haddr. unfold address.
  pose proof entry_inside as (? & ? & ? & ?). lia.
Qed.

(** A sealed entry loads. *)
Lemma load_from_entry p c m entry loaded :
  bytes_ok stored -> store_reserved p ->
  permits p (bd_load_addr d) (footprint_size d) = true -> entry_address d p = Ok entry ->
  image_ok d c stored loaded ->
  exists m', load_from_slot partial (entry_media s e) stage d p c m = (m', Ok entry) /\
             mem_bytes (ram m') (bd_load_addr d) (bd_loaded_size d) = loaded.
Proof.
  intros Hb Hres Hperm He Hio. destruct body_region_holds as [Hz Hread].
  cbn [media_size sub_region_media body_region sr_size] in Hz.
  assert (Hf : 0 <= footprint_size d).
  { destruct Hd as [_ [? ?] [? ?] _ _ _ _ _ _]. unfold footprint_size. case_match; lia. }
  destruct (load_bootstrap_loads (wf := sub_region_wf (wf := mapped_wf)) partial body_region stored (with_offset d 0) p c
              none_event m entry loaded) as (m' & Hrun & Hl & _).
  - apply body_region_wf.
  - split; done.
  - done.
  - by apply with_offset_wf.
  - cbn. lia.
  - by apply place_body.
  - done.
  - cbn [with_offset bd_offset bd_stored_size]. rewrite <- Hz, sub_all. by destruct Hio.
  - unfold load_from_slot, sbind, slift. rewrite slot_body_entry, Hrun. eexists. split; [done|]. done.
Qed.
End cycle.

(** C6: What a cold boot caches, a resume loads.  Let the medium hold an image
    with the descriptor's digests, let the policy admit its destination and
    reserve the store, and let the store have room and no older copy.  Then the
    cold boot loads the stage and reports it cached; and from then on, however
    the rest of memory has changed and whatever has become of the medium, a
    resume returns the same entry point with the same bytes at the load address. *)
Theorem cold_boot_resumes {T : Target} {C : Crypto} {M : Type} {BM : BootMedia M}
    {wf : M -> Prop} {BL : BootMediaLaws M wf} partial (media : M) img stage d p c event b es entry loaded :
  wf media -> media_holds media img -> bytes_ok img -> bootstrap_wf d ->
  bd_offset d + bd_stored_size d <= media_size media ->
  place media p (bd_load_addr d) (footprint_size d) = Ok tt -> entry_address d p = Ok entry ->
  image_ok d c (sub img (bd_offset d) (bd_stored_size d)) loaded ->
  mem_ok (ram (machine b)) -> store_inv (bstore b) es -> room_for b stage d ->
  (forall x, x ∈ es -> e_tag x <> stage_tag stage) ->
  exists b1, load_stage partial media stage d p false c event b = (b1, Ok entry) /\
    mem_bytes (ram (machine b1)) (bd_load_addr d) (bd_loaded_size d) = loaded /\
    cached (bstore b1) [stage] = Ok true /\
    forall (media' : M) event' b2, bstore b2 = bstore b1 -> store_reserved (bstore b1) p ->
      exists b3, load_stage partial media' stage d p true c event' b2 = (b3, Ok entry) /\
        mem_bytes (ram (machine b3)) (bd_load_addr d) (bd_loaded_size d) = loaded.
Proof.
  intros Hm Himg Hbo Hd Hend Hpl He Hio Hram Hi Hroom Htag.
  destruct (load_bootstrap_loads partial media img d p c event (machine b) entry loaded)
    as (m1 & Hrun & Hl & Hst); try done.
  destruct (load_stage_runs partial media stage d p c event b m1 entry es) as (b1 & Hload & Hm1); try done.
  pose proof (load_stage_cold partial media stage d p c event b b1 entry es Hm Hd Hram Hi Hload)
    as (_ & tail & Hinv & [[_ Hno]|(pad & e & -> & Hpad & Hent)]); [done|].
  rewrite Hm1, Hst in Hent. pose proof (stage_tag_range stage).
  assert (Hin : e ∈ es ++ pad ++ [e]) by (rewrite !elem_of_app; right; right; by apply list_elem_of_singleton).
  assert (Hfind : Store.find (bstore b1) (stage_tag stage) = Ok (Some e)).
  { apply (find_last _ es pad); (done || apply Hent || (unfold VOID; lia)). }
  exists b1. split; [done|]. split; [by rewrite Hm1|]. split.
  { cbn [cached]. rewrite Hfind. cbn [rbind].
    by rewrite (has_complete_slot_entry _ _ _ _ _ _ Hinv Hin Hent Hd). }
  intros media' event' b2 Hb2 Hres. pose proof Hpl as [Hperm _]%place_Ok.
  destruct (load_from_entry partial (bstore b1) _ stage d _ e Hinv Hin Hent Hd p c (machine b2) entry loaded)
    as (m3 & Hrun3 & Hl3); try done; [by apply bytes_ok_sub|].
  unfold load_stage, resume_stage. rewrite Hb2, Hfind, Hrun3. by eexists.
Qed.

(** ** A cold boot and a resume, run *)

#[local] Existing Instance demo_crypto.

Definition demo_slots : Store :=
  {| st_base := 0x3000; st_mem := st_mem demo_store |}.
Definition demo_boot : Boot := {| machine := demo_machine; bstore := demo_slots |}.

Lemma demo_slots_inv : store_inv demo_slots [].
Proof. destruct demo_store_inv as [? ? ? ? ? ? ? [? ?] ?]. constructor; try done. Qed.

(** A slot that held a sealed copy of something else. *)
Definition demo_old_slot : list Z :=
  cache_header_bytes (sealed_header CachedPostcar demo_bootstrap) ++ zeros 28.

Lemma cache_store_seals_witness :
  valid_header demo_old_slot CachedPostcar <> None /\
  valid_header (fst (cache_store CachedMainstage demo_media demo_bootstrap demo_old_slot)) CachedPostcar = None.
Proof.
  split; [vm_compute; discriminate|].
  destruct (cache_store CachedMainstage demo_media demo_bootstrap demo_old_slot) as [slot' r] eqn:E.
  assert (Hr : r = Ok tt) by (change r with (snd (slot', r)); rewrite <- E; vm_compute; reflexivity).
  subst r.
  assert (Hz : zlen demo_old_slot <= usize_max) by (vm_compute; discriminate).
  destruct (cache_store_seals CachedMainstage demo_media demo_bootstrap demo_old_slot slot' (Ok tt)
              demo_media_wf demo_bootstrap_wf Hz E) as [_ [H _]].
  cbn [fst]. rewrite H. reflexivity.
Defined.

Lemma load_stage_sound_witness :
  exists b', load_stage no_partial demo_media CachedMainstage demo_bootstrap demo_memory_policy false Lz4
               demo_event demo_boot = (b', Ok 0x4004) /\
             sha256 (mem_bytes (ram (machine b')) 0x4000 24) = bd_loaded_digest demo_bootstrap.
Proof.
  destruct (load_stage no_partial demo_media CachedMainstage demo_bootstrap demo_memory_policy false Lz4
              demo_event demo_boot) as [b' r] eqn:E.
  assert (Hr : r = Ok 0x4004) by (change r with (snd (b', r)); rewrite <- E; vm_compute; reflexivity).
  subst r. exists b'. split; [reflexivity|].
  exact (proj1 (load_stage_sound no_partial demo_media CachedMainstage demo_bootstrap demo_memory_policy
    false Lz4 demo_event demo_boot b' 0x4004 [] demo_media_wf demo_bootstrap_wf demo_ram_ok demo_slots_inv E)).
Defined.

Lemma cold_boot_resumes_witness :
  exists b1, load_stage no_partial demo_media CachedMainstage demo_bootstrap demo_memory_policy false Lz4
               demo_event demo_boot = (b1, Ok 0x4004) /\
             cached (bstore b1) [CachedMainstage] = Ok true.
Proof.
  destruct (cold_boot_resumes no_partial demo_media demo_flash CachedMainstage demo_bootstrap
    demo_memory_policy Lz4 demo_event demo_boot [] 0x4004 sample_out demo_media_wf demo_media_holds)
    as (b1 & Hload & _ & Hc & _).
  - apply (bool_decide_eq_true_1 (bytes_ok demo_flash)). vm_compute. reflexivity.
  - exact demo_bootstrap_wf.
  - vm_compute. discriminate.
  - vm_compute. reflexivity.
  - vm_compute. reflexivity.
  - constructor; [vm_compute; reflexivity.. | discriminate |].
    intros _. split_and!; [reflexivity | exact sample_conformant | vm_compute; discriminate].
  - exact demo_ram_ok.
  - exact demo_slots_inv.
  - do 2 eexists. vm_compute. reflexivity.
  - intros x Hx. by apply elem_of_nil in Hx.
  - exists b1. split; assumption.
Defined.

(** The same run by evaluation: a resume after the flash was wiped. *)
Example resume_from_cache :
  let '(b1, _) := load_stage no_partial demo_media CachedMainstage demo_bootstrap demo_memory_policy false
                    Lz4 demo_event demo_boot in
  let b2 := {| machine := {| ram := fun _ => 0; log := [] |}; bstore := bstore b1 |} in
  let '(b3, r) := load_stage no_partial (linear_media 0x1000 64 (fun _ => 0)) CachedMainstage demo_bootstrap
                    demo_memory_policy true Lz4 demo_event b2 in
  r = Ok 0x4004 /\ mem_bytes (ram (machine b3)) 0x4000 24 = sample_out /\ log (machine b3) = [].
Proof. vm_compute. split_and!; reflexivity. Qed.
