(* ===== verification/Tpm.v ===== *)
(** * Tpm: commands to a TPM ([crates/driver-tpm/src])

    Firmware marshals TPM 1.2 and TPM 2.0 commands ([Command]), exchanges them
    with the device through a [Transport] and reads the responses ([Reader]).
    The transport is a class, so that the command sets and their clients hold
    for every interface; [TpmDevice] states what the TPM itself promises, as
    the TPM specifications document it: what a successful PCR extension does to
    the PCRs, that a refused command does nothing, and what locks the platform
    hierarchy.  The theorems say that the bytes of a command mean what the
    caller asked, so that the device's promise carries over to each routine. *)

From S2P Require Import Prelude.
From S2P Require Import Bytes.
From S2P Require Import Crypto.
From Stdlib Require Import ZArith Lia.
From stdpp Require Import base numbers list option.

#[local] Open Scope Z_scope.

(** ** Interface *)

Inductive TpmError :=
| TpmTimeout | TpmLocality | TpmProtocol | TpmResponse | TpmCode (code : Z).
#[export] Instance TpmError_eq_dec : EqDecision TpmError.
Proof. solve_decision. Defined.

Inductive Family := Tpm12 | Tpm20.
#[export] Instance Family_eq_dec : EqDecision Family.
Proof. solve_decision. Defined.

(** [transmit] fills the caller's response buffer, which is therefore part of
    the state, and returns the length of the response. *)
Class Transport (M : Type) := {
  transmit : list Z -> sres (M * list Z) TpmError Z;
  wait_ms : Z -> M -> M;
  release : M -> M
}.

Definition BUFFER_SIZE : Z := 1024.
Definition RESPONSE_HEADER : Z := 10.

(** ** Commands under construction

    The bytes written so far; the rest of the buffer is not visible. *)
Record Command := { cm_bytes : list Z; cm_overflow : bool }.

Definition cmd_bytes (c : Command) (bytes : list Z) : Command :=
  if zlen (cm_bytes c) + zlen bytes <=? BUFFER_SIZE
  then {| cm_bytes := cm_bytes c ++ bytes; cm_overflow := cm_overflow c |}
  else {| cm_bytes := cm_bytes c; cm_overflow := true |}.

Definition cmd_u8 (c : Command) (value : Z) : Command := cmd_bytes c [value].
Definition cmd_u16 (c : Command) (value : Z) : Command := cmd_bytes c (be_enc 2 value).
Definition cmd_u32 (c : Command) (value : Z) : Command := cmd_bytes c (be_enc 4 value).
(** [as u16] truncates the length; the bytes are written whole. *)
Definition cmd_sized (c : Command) (bytes : list Z) : Command :=
  cmd_bytes (cmd_u16 c (zlen bytes mod 2 ^ 16)) bytes.

Definition cmd_new (tag code : Z) : Command :=
  cmd_u32 (cmd_u32 (cmd_u16 {| cm_bytes := []; cm_overflow := false |} tag) 0) code.

Definition cmd_finish (c : Command) : res TpmError (list Z) :=
  fail_if cm_overflow c with TpmResponse;
  Ok (upd (cm_bytes c) 2 (be_enc 4 (zlen (cm_bytes c)))).

(** ** Responses *)

Definition response_body (response : list Z) : res TpmError (list Z) :=
  let? header := ok_or (get_range response 0 RESPONSE_HEADER) TpmResponse in
  let size := be_dec (sub header 2 4) in
  let code := be_dec (sub header 6 4) in
  fail_if negb (size =? zlen response) with TpmResponse;
  fail_if negb (code =? 0) with TpmCode code;
  Ok (sub response RESPONSE_HEADER (zlen response - RESPONSE_HEADER)).

Definition RETRY_CODES : list Z := [0x908; 0x90A; 0x922; 0x800; 0x802].
Definition RETRIES : nat := 500.

Definition reader (A : Type) : Type := sres (list Z) TpmError A.

Definition rd_bytes (len : Z) : reader (list Z) := fun r =>
  if zlen r <? len then (r, Err TpmResponse) else (sub r len (zlen r - len), Ok (sub r 0 len)).
Definition rd_u8 : reader Z := let! b := rd_bytes 1 in slift (or_panic (get b 0)).
Definition rd_u16 : reader Z := let! b := rd_bytes 2 in slift (Ok (be_dec b)).
Definition rd_u32 : reader Z := let! b := rd_bytes 4 in slift (Ok (be_dec b)).

(** Parse a response body; the reader is dropped afterwards. *)
Definition parse {A} (p : reader A) (body : list Z) : res TpmError A := snd (p body).

Section commands.
Context {M : Type} {TM : Transport M}.

Definition response (len : Z) : sres (M * list Z) TpmError (list Z) :=
  fun s => (s, or_panic (get_range (snd s) 0 len)).

Definition wait (ms : Z) : sres (M * list Z) TpmError unit := fun s => ((wait_ms ms (fst s), snd s), Ok tt).

(** Whether the answer asks to send the command again. *)
Definition is_retry (r : res TpmError (list Z)) : bool :=
  match r with Err (TpmCode code) => existsb (Z.eqb code) RETRY_CODES | _ => false end.

Fixpoint retry (n : nat) (command : list Z) (len : Z) : sres (M * list Z) TpmError Z :=
  match n with
  | O => slift (Ok len)
  | S n =>
      let! r := response len in
      if is_retry (response_body r) then
        let! _ := wait 10 in
        let! len := transmit command in
        retry n command len
      else slift (Ok len)
  end.

(** The checked body; the response itself stays in the buffer. *)
Definition execute (command : list Z) : sres (M * list Z) TpmError (list Z) :=
  let! len := transmit command in
  let! len := retry RETRIES command len in
  let! r := response len in
  slift (response_body r).

(** A routine with a response buffer of its own. *)
Definition with_buffer {A} (f : sres (M * list Z) TpmError A) : sres M TpmError A := fun m =>
  let '((m, _), r) := f (m, zeros BUFFER_SIZE) in (m, r).

Definition run (command : Command) : sres M TpmError unit :=
  let! bytes := slift (cmd_finish command) in
  with_buffer (let! _ := execute bytes in slift (Ok tt)).

(** ** TPM 2.0 ([tpm20.rs]) *)

Definition ST_NO_SESSIONS : Z := 0x8001.
Definition ST_SESSIONS : Z := 0x8002.
Definition CC_HIERARCHY_CONTROL : Z := 0x121.
Definition CC_PCR_EVENT : Z := 0x13C.
Definition CC_CLEAR : Z := 0x126.
Definition CC_HIERARCHY_CHANGE_AUTH : Z := 0x129.
Definition CC_SELF_TEST : Z := 0x143.
Definition CC_STARTUP : Z := 0x144.
Definition CC_SHUTDOWN : Z := 0x145.
Definition CC_STIR_RANDOM : Z := 0x146.
Definition CC_GET_CAPABILITY : Z := 0x17A.
Definition CC_GET_RANDOM : Z := 0x17B.
Definition CC_PCR_EXTEND : Z := 0x182.
Definition RS_PW : Z := 0x40000009.
Definition CAP_PCRS : Z := 5.
Definition RH_OWNER : Z := 0x40000001.
Definition RH_ENDORSEMENT : Z := 0x4000000B.
Definition RH_PLATFORM : Z := 0x4000000C.

Definition RC_INITIALIZE : Z := 0x100.
Definition RC_BAD_TAG : Z := 0x01E.
Definition RC_TESTING : Z := 0x90A.
Definition RC_YIELDED : Z := 0x908.
Definition RC_RETRY : Z := 0x922.
Definition RC_VALUE : Z := 0x084.
Definition RC_LOCALITY : Z := 0x107.
Definition rc_base (code : Z) : Z := if negb (Z.land code 0x80 =? 0) then Z.land code 0xBF else code.

Inductive StartupType := SuClear | SuState.
Definition startup_u16 (k : StartupType) : Z := match k with SuClear => 0 | SuState => 1 end.

Definition password_session (c : Command) : Command :=
  cmd_sized (cmd_u8 (cmd_sized (cmd_u32 (cmd_u32 c 9) RS_PW) []) 0) [].

(** The tag of a complete response, an error response included, tells the family. *)
Definition startup (kind : StartupType) : sres M TpmError unit :=
  let! bytes := slift (cmd_finish (cmd_u16 (cmd_new ST_NO_SESSIONS CC_STARTUP) (startup_u16 kind))) in
  with_buffer (fun s =>
    let '(s, result) := execute bytes s in
    match result with
    | Ok _ | Err (TpmCode _) =>
        let tag := be_dec (sub (snd s) 0 2) in
        if negb (tag =? ST_NO_SESSIONS) && negb (tag =? ST_SESSIONS)
        then (s, Err (TpmCode RC_BAD_TAG))
        else (s, let? _ := result in Ok tt)
    | Err e => (s, Err e)
    | Panic => (s, Panic)
    end).

Definition shutdown (kind : StartupType) : sres M TpmError unit :=
  run (cmd_u16 (cmd_new ST_NO_SESSIONS CC_SHUTDOWN) (startup_u16 kind)).

Fixpoint self_test_loop (n : nat) (command : list Z) : sres (M * list Z) TpmError unit :=
  match n with
  | O => slift (Err TpmTimeout)
  | S n =>
      let! len := transmit command in
      let! r := response len in
      match response_body r with
      | Ok _ => slift (Ok tt)
      | Err (TpmCode code) =>
          if code =? RC_TESTING then slift (Ok tt)
          else if (code =? RC_RETRY) || (code =? RC_YIELDED) then
            let! _ := wait 10 in self_test_loop n command
          else slift (Err (TpmCode code))
      | Err e => slift (Err e)
      | Panic => slift Panic
      end
  end.

Definition self_test (full : bool) : sres M TpmError unit :=
  let! bytes := slift (cmd_finish (cmd_u8 (cmd_new ST_NO_SESSIONS CC_SELF_TEST) (Z.b2z full))) in
  with_buffer (self_test_loop RETRIES bytes).

(** The allocated banks: at most 8 [(algorithm, PCR mask)] pairs. *)
Definition Banks : Type := list (Z * Z).
Definition MAX_REPORTED_BANKS : Z := 8.

Definition banks_push (b : Banks) (alg pcrs : Z) : res TpmError Banks :=
  if zlen b <? MAX_REPORTED_BANKS then Ok (b ++ [(alg, pcrs)]) else Err TpmResponse.

(** Bit [n] of byte [m] is PCR [8m + n]; four bytes are looked at. *)
Fixpoint select_mask (i : Z) (select : list Z) : Z :=
  match select with
  | [] => 0
  | bits :: select => Z.lor (Z.shiftl bits (8 * i)) (select_mask (i + 1) select)
  end.

Fixpoint banks_loop (n : nat) (banks : Banks) : reader Banks :=
  match n with
  | O => slift (Ok banks)
  | S n =>
      let! hash := rd_u16 in
      let! size := rd_u8 in
      let! select := rd_bytes size in
      let pcrs := select_mask 0 (take 4 select) in
      let! banks := slift (if negb (pcrs =? 0) then banks_push banks hash pcrs else Ok banks) in
      banks_loop n banks
  end.

Definition read_banks : reader Banks :=
  let! _more := rd_u8 in
  let! cap := rd_u32 in
  if negb (cap =? CAP_PCRS) then slift (Err TpmResponse)
  else
    let! count := rd_u32 in
    banks_loop (Z.to_nat count) [].

Definition pcr_banks : sres M TpmError Banks :=
  let command := cmd_u32 (cmd_u32 (cmd_u32 (cmd_new ST_NO_SESSIONS CC_GET_CAPABILITY) CAP_PCRS) 0) 1 in
  let! bytes := slift (cmd_finish command) in
  with_buffer (let! body := execute bytes in slift (parse read_banks body)).

Definition extend_command (pcr : Z) (digests : list (Z * list Z)) : Command :=
  fold_left (fun c '(alg, digest) => cmd_bytes (cmd_u16 c alg) digest) digests
    (cmd_u32 (password_session (cmd_u32 (cmd_new ST_SESSIONS CC_PCR_EXTEND) pcr)) (zlen digests mod 2 ^ 32)).

Definition pcr_extend (pcr : Z) (digests : list (Z * list Z)) : sres M TpmError unit :=
  run (extend_command pcr digests).

Definition pcr_event (pcr : Z) (data : list Z) : sres M TpmError unit :=
  run (cmd_sized (password_session (cmd_u32 (cmd_new ST_SESSIONS CC_PCR_EVENT) pcr)) data).

Definition hierarchy_change_auth (hierarchy : Z) (new_auth : list Z) : sres M TpmError unit :=
  run (cmd_sized (password_session (cmd_u32 (cmd_new ST_SESSIONS CC_HIERARCHY_CHANGE_AUTH) hierarchy)) new_auth).

Definition hierarchy_control (auth enable : Z) (state : bool) : sres M TpmError unit :=
  run (cmd_u8 (cmd_u32 (password_session (cmd_u32 (cmd_new ST_SESSIONS CC_HIERARCHY_CONTROL) auth)) enable)
         (Z.b2z state)).

Definition clear (auth : Z) : sres M TpmError unit :=
  run (password_session (cmd_u32 (cmd_new ST_SESSIONS CC_CLEAR) auth)).

Definition stir_random (entropy : list Z) : sres M TpmError unit :=
  run (cmd_sized (cmd_new ST_NO_SESSIONS CC_STIR_RANDOM) entropy).

(** One round of [get_random]: between 1 and [want] bytes. *)
Definition read_random (want : Z) : reader (list Z) :=
  let! n := rd_u16 in
  let size := Z.min n want in
  if size =? 0 then slift (Err TpmResponse) else rd_bytes size.

(** Each round adds at least a byte, so the missing bytes bound the rounds. *)
Fixpoint random_loop (fuel : nat) (total : Z) (out : list Z) : sres M TpmError (list Z) :=
  if zlen out <? total then
    match fuel with
    | O => slift Panic
    | S fuel =>
        let want := Z.min (total - zlen out) 32 in
        let! bytes := slift (cmd_finish (cmd_u16 (cmd_new ST_NO_SESSIONS CC_GET_RANDOM) want)) in
        let! more := with_buffer (let! body := execute bytes in slift (parse (read_random want) body)) in
        random_loop fuel total (out ++ more)
    end
  else slift (Ok out).

(** The bytes that fill a buffer of [len] bytes. *)
Definition get_random (len : Z) : sres M TpmError (list Z) := random_loop (Z.to_nat len) len [].

(** ** TPM 1.2 ([tpm12.rs]) *)

Definition TAG_RQU_COMMAND : Z := 0xC1.
Definition ORD_EXTEND : Z := 0x14.
Definition ORD_CONTINUE_SELF_TEST : Z := 0x53.
Definition ORD_GET_CAPABILITY : Z := 0x65.
Definition ORD_SELF_TEST_FULL : Z := 0x50.
Definition ORD_FORCE_CLEAR : Z := 0x5D.
Definition ORD_PHYSICAL_ENABLE : Z := 0x6F.
Definition ORD_PHYSICAL_DISABLE : Z := 0x70.
Definition ORD_SET_OWNER_INSTALL : Z := 0x71.
Definition ORD_PHYSICAL_SET_DEACTIVATED : Z := 0x72.
Definition ORD_STARTUP : Z := 0x99.
Definition TSC_ORD_PHYSICAL_PRESENCE : Z := 0x4000000A.
Definition CAP_FLAG : Z := 4.
Definition CAP_FLAG_PERMANENT : Z := 0x108.
Definition CAP_FLAG_VOLATILE : Z := 0x109.
Definition RC_INVALID_POSTINIT : Z := 0x26.
Definition PP_LOCK : Z := 0x4.
Definition PP_PRESENT : Z := 0x8.
Definition PP_NOTPRESENT : Z := 0x10.
Definition PP_CMD_ENABLE : Z := 0x20.

(** [TPM_Startup] is only sent with [Clear = 1]. *)
Inductive StartupType12 := St12Clear | St12State | St12Deactivated.
Definition startup12_u16 (k : StartupType12) : Z :=
  match k with St12Clear => 1 | St12State => 2 | St12Deactivated => 3 end.

Record PermanentFlags := {
  pf_disable : bool; pf_ownership : bool; pf_deactivated : bool; pf_lifetime_lock : bool;
  pf_hw_enable : bool; pf_cmd_enable : bool
}.

Record VolatileFlags := { vf_deactivated : bool; vf_physical_presence : bool; vf_physical_presence_lock : bool }.

Definition startup12 (kind : StartupType12) : sres M TpmError unit :=
  run (cmd_u16 (cmd_new TAG_RQU_COMMAND ORD_STARTUP) (startup12_u16 kind)).

Definition continue_self_test : sres M TpmError unit := run (cmd_new TAG_RQU_COMMAND ORD_CONTINUE_SELF_TEST).

Definition extend12_command (pcr : Z) (digest : list Z) : Command :=
  cmd_bytes (cmd_u32 (cmd_new TAG_RQU_COMMAND ORD_EXTEND) pcr) digest.

Definition extend12 (pcr : Z) (digest : list Z) : sres M TpmError unit := run (extend12_command pcr digest).

Definition self_test_full : sres M TpmError unit := run (cmd_new TAG_RQU_COMMAND ORD_SELF_TEST_FULL).

Definition physical_enable (enable : bool) : sres M TpmError unit :=
  run (cmd_new TAG_RQU_COMMAND (if enable then ORD_PHYSICAL_ENABLE else ORD_PHYSICAL_DISABLE)).

Definition physical_set_deactivated (deactivated : bool) : sres M TpmError unit :=
  run (cmd_u8 (cmd_new TAG_RQU_COMMAND ORD_PHYSICAL_SET_DEACTIVATED) (Z.b2z deactivated)).

Definition force_clear : sres M TpmError unit := run (cmd_new TAG_RQU_COMMAND ORD_FORCE_CLEAR).

Definition set_owner_install (allow : bool) : sres M TpmError unit :=
  run (cmd_u8 (cmd_new TAG_RQU_COMMAND ORD_SET_OWNER_INSTALL) (Z.b2z allow)).

Definition physical_presence (bits : Z) : sres M TpmError unit :=
  run (cmd_u16 (cmd_new TAG_RQU_COMMAND TSC_ORD_PHYSICAL_PRESENCE) bits).

(** [flag = data.u8()? != 0], [n] times. *)
Fixpoint rd_flags (n : nat) : reader (list bool) :=
  match n with
  | O => slift (Ok [])
  | S n =>
      let! b := rd_u8 in
      let! rest := rd_flags n in
      slift (Ok (negb (b =? 0) :: rest))
  end.

Definition read_capability {A} (tag : Z) (p : reader A) : reader A :=
  let! size := rd_u32 in
  let! data := rd_bytes size in
  slift (parse (let! t := rd_u16 in if negb (t =? tag) then slift (Err TpmResponse) else p) data).

Definition flags {A} (sub tag : Z) (p : reader A) : sres M TpmError A :=
  let command := cmd_u32 (cmd_u32 (cmd_u32 (cmd_new TAG_RQU_COMMAND ORD_GET_CAPABILITY) CAP_FLAG) 4) sub in
  let! bytes := slift (cmd_finish command) in
  with_buffer (let! body := execute bytes in slift (parse (read_capability tag p) body)).

Definition flag (l : list bool) (i : nat) : bool := default false (l !! i).

Definition permanent_flags : sres M TpmError PermanentFlags :=
  flags CAP_FLAG_PERMANENT 0x1F (let! b := rd_flags 9 in slift (Ok {|
    pf_disable := flag b 0; pf_ownership := flag b 1; pf_deactivated := flag b 2;
    pf_lifetime_lock := flag b 6; pf_hw_enable := flag b 7; pf_cmd_enable := flag b 8 |})).

Definition volatile_flags : sres M TpmError VolatileFlags :=
  flags CAP_FLAG_VOLATILE 0x20 (let! b := rd_flags 4 in slift (Ok {|
    vf_deactivated := flag b 0; vf_physical_presence := flag b 2; vf_physical_presence_lock := flag b 3 |})).
End commands.

(** ** What a command asks of the TPM

    A reader of command bytes after the TPM specifications (TPM 2.0 Library
    part 1, 18; TPM Main part 3), independent of the code that writes them. *)

Inductive effect :=
| EExtend (pcr : Z) (digests : list (Z * list Z))
| EEvent (pcr : Z) (data : list Z)
| EChangeAuth (hierarchy : Z) (auth : list Z)
| EControl (auth enable : Z) (state : Z)
| EPresence (bits : Z)
| EQuery
| EUnknown.

(** Commands that neither extend a PCR nor change a lock. *)
Definition query_codes : list Z :=
  [CC_SELF_TEST; CC_GET_CAPABILITY; CC_GET_RANDOM; CC_STIR_RANDOM; CC_SHUTDOWN].
Definition query_ordinals : list Z := [ORD_CONTINUE_SELF_TEST; ORD_GET_CAPABILITY; ORD_SELF_TEST_FULL].

Fixpoint rd_digests (n : nat) : reader (list (Z * list Z)) :=
  match n with
  | O => slift (Ok [])
  | S n =>
      let! alg := rd_u16 in
      let! size := slift (ok_or (digest_size alg) TpmResponse) in
      let! digest := rd_bytes size in
      let! rest := rd_digests n in
      slift (Ok ((alg, digest) :: rest))
  end.

Definition rd_sized : reader (list Z) := let! n := rd_u16 in rd_bytes n.

(** The parameters of a command whose handle is [handle]. *)
Definition rd_parameters (code handle : Z) : reader effect :=
  if code =? CC_PCR_EXTEND then
    let! count := rd_u32 in
    let! ds := rd_digests (Z.to_nat count) in
    slift (Ok (EExtend handle ds))
  else if code =? CC_PCR_EVENT then let! data := rd_sized in slift (Ok (EEvent handle data))
  else if code =? CC_HIERARCHY_CHANGE_AUTH then let! auth := rd_sized in slift (Ok (EChangeAuth handle auth))
  else if code =? CC_HIERARCHY_CONTROL then
    let! enable := rd_u32 in
    let! state := rd_u8 in
    slift (Ok (EControl handle enable state))
  else slift (Ok EUnknown).

(** Parameters that are not looked at. *)
Definition rd_rest : reader unit := fun _ => ([], Ok tt).

Definition rd_command (length : Z) : reader effect :=
  let! tag := rd_u16 in
  let! size := rd_u32 in
  let! code := rd_u32 in
  if negb (size =? length) then slift (Ok EUnknown)
  else if tag =? ST_SESSIONS then
    let! handle := rd_u32 in
    let! auth_size := rd_u32 in
    let! _ := rd_bytes auth_size in
    rd_parameters code handle
  else if tag =? ST_NO_SESSIONS then
    let! _ := rd_rest in
    slift (Ok (if existsb (Z.eqb code) query_codes then EQuery else EUnknown))
  else if tag =? TAG_RQU_COMMAND then
    if code =? ORD_EXTEND then
      let! pcr := rd_u32 in
      let! digest := rd_bytes 20 in
      slift (Ok (EExtend pcr [(ALG_SHA1, digest)]))
    else if code =? TSC_ORD_PHYSICAL_PRESENCE then let! bits := rd_u16 in slift (Ok (EPresence bits))
    else
      let! _ := rd_rest in
      slift (Ok (if existsb (Z.eqb code) query_ordinals then EQuery else EUnknown))
  else slift (Ok EUnknown).

(** Bytes left over are not part of any command. *)
Definition meaning (command : list Z) : effect :=
  match rd_command (zlen command) command with
  | ([], Ok e) => e
  | _ => EUnknown
  end.

(** ** The device *)

(** What can be observed of a TPM: the PCRs it has, the hierarchies that are
    off, whether the platform authorization was set, whether physical presence is
    asserted by command and whether the command that asserts it is barred. *)
Class TpmDevice (M : Type) := {
  has_pcr : Z -> Z -> Prop;
  pcr : M -> Z -> Z -> list Z;
  disabled : M -> Z -> Prop;
  auth_set : M -> Prop;
  presence_asserted : M -> Prop;
  presence_barred : M -> Prop
}.

Section device.
Context {H : PcrHash} {M : Type} {D : TpmDevice M}.

(** The value of a PCR after the digests of its bank are extended into it. *)
Definition extended (alg : Z) (value : list Z) (digests : list (Z * list Z)) : list Z :=
  fold_left (fun v '(a, d) => if a =? alg then pcr_digest alg (v ++ d) else v) digests value.

(** Nobody can assert physical presence by command before the next start-up. *)
Definition presence_locked (m : M) : Prop := ~ presence_asserted m /\ presence_barred m.

Definition same_pcrs (m m' : M) : Prop := forall a i, has_pcr a i -> pcr m' a i = pcr m a i.

Record locks_kept (m m' : M) : Prop := {
  lk_disabled h : disabled m h -> disabled m' h;
  lk_auth : auth_set m -> auth_set m';
  lk_absent : ~ presence_asserted m -> ~ presence_asserted m';
  lk_barred : presence_barred m -> presence_barred m'
}.

Lemma lk_presence m m' : locks_kept m m' -> presence_locked m -> presence_locked m'.
Proof. intros [] []. split; auto. Qed.

(** What the answer [body] to [command] tells of the flags of a TPM 1.2 (TPM Main
    part 2, 7.1 and 7.2, part 3, 7.1): a [TPM_GetCapability] for [TPM_CAP_FLAG]
    returns the size and then the structure of the flags, one byte each, behind
    its tag.  In [TPM_STCLEAR_FLAGS] the third is [physicalPresence] and the fourth
    [physicalPresenceLock]; in [TPM_PERMANENT_FLAGS] the seventh is
    [physicalPresenceLifetimeLock] and the ninth [physicalPresenceCMDEnable]. *)
Definition flag_set (body : list Z) (i : nat) : Prop := exists b, body !! i = Some b /\ b <> 0.
Definition flag_clear (body : list Z) (i : nat) : Prop := body !! i = Some 0.

Definition asks_flags (command : list Z) (sub_cap : Z) : Prop :=
  be_dec (sub command 0 2) = 0xC1 /\ be_dec (sub command 6 4) = 0x65 /\ be_dec (sub command 10 4) = 4 /\
  be_dec (sub command 14 4) = 4 /\ be_dec (sub command 18 4) = sub_cap.

Record told (command body : list Z) (m : M) : Prop := {
  to_absent : asks_flags command 0x109 -> be_dec (sub body 4 2) = 0x20 -> flag_clear body 8 -> ~ presence_asserted m;
  to_volatile : asks_flags command 0x109 -> be_dec (sub body 4 2) = 0x20 -> flag_set body 9 -> presence_barred m;
  to_permanent : asks_flags command 0x108 -> be_dec (sub body 4 2) = 0x1F -> flag_set body 12 -> flag_clear body 14 ->
    presence_barred m
}.

Definition performs (e : effect) (m m' : M) : Prop :=
  match e with
  | EExtend i ds =>
      locks_kept m m' /\
      forall a j, has_pcr a j -> pcr m' a j = if j =? i then extended a (pcr m a j) ds else pcr m a j
  | EEvent i data =>
      locks_kept m m' /\
      forall a j, has_pcr a j ->
        pcr m' a j = if j =? i then pcr_digest a (pcr m a j ++ pcr_digest a data) else pcr m a j
  | EChangeAuth h auth => locks_kept m m' /\ same_pcrs m m' /\ (h = RH_PLATFORM -> auth <> [] -> auth_set m')
  | EControl _ h state => same_pcrs m m' /\ (state = 0 -> locks_kept m m' /\ disabled m' h)
  | EPresence bits =>
      same_pcrs m m' /\ (bits = Z.lor PP_NOTPRESENT PP_LOCK -> locks_kept m m' /\ presence_locked m')
  | EQuery => locks_kept m m' /\ same_pcrs m m'
  | EUnknown => True
  end.

(** Effects after which every lock that was set is still set, done or not. *)
Definition harmless (e : effect) : bool :=
  match e with
  | EControl _ _ state => state =? 0
  | EPresence bits => bits =? Z.lor PP_NOTPRESENT PP_LOCK
  | EUnknown => false
  | _ => true
  end.

(** Effects on PCRs. *)
Definition extends_pcr (e : effect) : bool :=
  match e with EExtend _ _ | EEvent _ _ | EUnknown => true | _ => false end.
End device.

(** What the interface and the TPM behind it promise: responses fit the buffer;
    a command that is answered with success has been performed, and what the
    answer tells of the flags of a TPM 1.2 is so; one that is answered with an
    error code has not been performed; when the transport fails the command may
    or may not have been performed, so that nothing is known of the PCRs if it was
    one that extends them.  Waiting and giving up the locality change nothing. *)
Class TpmLaws (H : PcrHash) (M : Type) (TM : Transport M) (D : TpmDevice M) : Prop := {
  transmit_len cmd m buf m' buf' r :
    transmit cmd (m, buf) = ((m', buf'), r) ->
      r <> Panic /\ zlen buf' = zlen buf /\ (bytes_ok buf -> bytes_ok buf');
  transmit_fits cmd m buf m' buf' len :
    transmit cmd (m, buf) = ((m', buf'), Ok len) -> 0 <= len <= zlen buf;
  transmit_performed cmd m buf m' buf' len body :
    transmit cmd (m, buf) = ((m', buf'), Ok len) -> response_body (sub buf' 0 len) = Ok body ->
    performs (meaning cmd) m m';
  transmit_told cmd m buf m' buf' len body :
    transmit cmd (m, buf) = ((m', buf'), Ok len) -> response_body (sub buf' 0 len) = Ok body -> told cmd body m';
  transmit_refused cmd m buf m' buf' len code :
    transmit cmd (m, buf) = ((m', buf'), Ok len) -> response_body (sub buf' 0 len) = Err (TpmCode code) ->
    same_pcrs m m' /\ locks_kept m m';
  transmit_locks cmd m buf m' buf' r :
    transmit cmd (m, buf) = ((m', buf'), r) -> harmless (meaning cmd) = true -> locks_kept m m';
  transmit_pcrs cmd m buf m' buf' r :
    transmit cmd (m, buf) = ((m', buf'), r) -> extends_pcr (meaning cmd) = false -> same_pcrs m m';
  wait_same ms m : same_pcrs m (wait_ms ms m) /\ locks_kept m (wait_ms ms m);
  release_same m : same_pcrs m (release m) /\ locks_kept m (release m)
}.

(** ** Reading what was written *)

Lemma rd_bytes_app n a r : zlen a = n -> rd_bytes n (a ++ r) = (r, Ok a).
Proof.
  intros <-. unfold rd_bytes. rewrite zlen_app. pose proof (zlen_nonneg r). guard_false.
  rewrite sub_app_r, Z.sub_diag, Z.add_simpl_l, sub_all, sub_app_exact by lia. done.
Qed.

Lemma rd_u16_enc v r : 0 <= v < 2 ^ 16 -> rd_u16 (be_enc 2 v ++ r) = (r, Ok v).
Proof. intros Hv. unfold rd_u16, sbind. rewrite rd_bytes_app, be_dec_enc by done. done. Qed.

Lemma rd_u32_enc v r : 0 <= v < 2 ^ 32 -> rd_u32 (be_enc 4 v ++ r) = (r, Ok v).
Proof. intros Hv. unfold rd_u32, sbind. rewrite rd_bytes_app, be_dec_enc by done. done. Qed.

Lemma rd_u8_cons v r : rd_u8 (v :: r) = (r, Ok v).
Proof. change (v :: r) with ([v] ++ r). unfold rd_u8, sbind. by rewrite rd_bytes_app. Qed.

Lemma rd_sized_enc d r : zlen d < 2 ^ 16 -> rd_sized (be_enc 2 (zlen d) ++ d ++ r) = (r, Ok d).
Proof.
  intros Hd. pose proof (zlen_nonneg d). unfold rd_sized, sbind. rewrite rd_u16_enc, rd_bytes_app by lia || done. done.
Qed.

(** A bank entry of an extension, with the size of its algorithm. *)
Definition digest_fits (p : Z * list Z) : Prop := 0 <= p.1 < 2 ^ 16 /\ digest_size p.1 = Some (zlen p.2).

Definition digest_pieces (ds : list (Z * list Z)) : list Z :=
  concat (map (fun '(alg, digest) => be_enc 2 alg ++ digest) ds).

Lemma rd_digests_enc ds r : Forall digest_fits ds -> rd_digests (length ds) (digest_pieces ds ++ r) = (r, Ok ds).
Proof.
  intros Hds. revert r. induction Hds as [|[a d] ds [Ha Hd] _ IH]; intros r; [done|]. cbn [fst snd] in *.
  unfold digest_pieces in *. cbn [length rd_digests map concat]. rewrite <- !app_assoc. unfold sbind.
  rewrite rd_u16_enc by done. rewrite Hd. unfold slift. cbn [ok_or]. rewrite rd_bytes_app by done. by rewrite IH.
Qed.

(** *** Commands *)

Lemma cmd_bytes_ok c b :
  cm_overflow (cmd_bytes c b) = false ->
  cm_overflow c = false /\ cm_bytes (cmd_bytes c b) = cm_bytes c ++ b /\ zlen (cm_bytes c) + zlen b <= BUFFER_SIZE.
Proof. unfold cmd_bytes. case_match; bool_hyp; cbn; [auto|discriminate]. Qed.

(** [c] holds [b] if nothing overflowed. *)
Definition holds (c : Command) (b : list Z) : Prop :=
  cm_overflow c = false -> cm_bytes c = b /\ zlen b <= BUFFER_SIZE.

Lemma holds_bytes c b x : holds c b -> holds (cmd_bytes c x) (b ++ x).
Proof.
  intros Hc Ho. apply cmd_bytes_ok in Ho as (Ho & -> & Hs). destruct (Hc Ho) as [<- _]. by rewrite zlen_app.
Qed.

Lemma holds_new tag code : holds (cmd_new tag code) ((be_enc 2 tag ++ be_enc 4 0) ++ be_enc 4 code).
Proof. unfold cmd_new, cmd_u16, cmd_u32. by repeat apply holds_bytes. Qed.

Lemma holds_sized c b x :
  zlen x < 2 ^ 16 -> holds c b -> holds (cmd_sized c x) ((b ++ be_enc 2 (zlen x)) ++ x).
Proof.
  intros Hx Hc. unfold cmd_sized, cmd_u16. pose proof (zlen_nonneg x). rewrite Z.mod_small by lia.
  by repeat apply holds_bytes.
Qed.

(** The empty password authorization. *)
Definition password_bytes : list Z := be_enc 4 9 ++ be_enc 4 RS_PW ++ be_enc 2 0 ++ [0] ++ be_enc 2 0.

Lemma holds_password c b : holds c b -> holds (password_session c) (b ++ password_bytes).
Proof.
  intros Hc. unfold password_session. replace (b ++ password_bytes) with
    ((((((b ++ be_enc 4 9) ++ be_enc 4 RS_PW) ++ be_enc 2 0) ++ []) ++ [0]) ++ be_enc 2 0 ++ []).
  2:{ unfold password_bytes. by rewrite !app_nil_r, <- !app_assoc. }
  rewrite (app_assoc _ (be_enc 2 0) []). apply (holds_sized _ _ []); [done|]. apply holds_bytes.
  apply (holds_sized _ _ []); [done|]. by repeat apply holds_bytes.
Qed.

Lemma holds_extend c b ds :
  holds c b ->
  holds (fold_left (fun c '(alg, digest) => cmd_bytes (cmd_u16 c alg) digest) ds c) (b ++ digest_pieces ds).
Proof.
  revert c b. induction ds as [|[a d] ds IH]; intros c b Hc; cbn [fold_left].
  { unfold digest_pieces. cbn. by rewrite app_nil_r. }
  unfold digest_pieces in *. cbn [map concat]. rewrite <- app_assoc, !app_assoc. apply IH.
  by repeat apply holds_bytes.
Qed.

(** A finished command: the header with the patched size, then the parameters. *)
Lemma cmd_finish_holds c tag code params bytes :
  holds c ((be_enc 2 tag ++ be_enc 4 0 ++ be_enc 4 code) ++ params) -> cmd_finish c = Ok bytes ->
  bytes = be_enc 2 tag ++ be_enc 4 (zlen bytes) ++ be_enc 4 code ++ params /\ zlen bytes <= BUFFER_SIZE.
Proof.
  intros Hc Hf. unfold cmd_finish in Hf. destruct (cm_overflow c) eqn:Ho; [done|]. injection Hf as Hf.
  destruct (Hc Ho) as [Hcb Hs]. rewrite Hcb in Hf. set (n := zlen (_ ++ params)) in *.
  assert (Hb : bytes = be_enc 2 tag ++ be_enc 4 n ++ be_enc 4 code ++ params) by (rewrite <- Hf; reflexivity).
  assert (Hn : zlen bytes = n) by (rewrite Hb; unfold n; rewrite !zlen_app, !zlen_be_enc; lia).
  rewrite Hn. done.
Qed.

(** *** Their meanings *)

Lemma meaning_header tag code params bytes :
  bytes = be_enc 2 tag ++ be_enc 4 (zlen bytes) ++ be_enc 4 code ++ params -> zlen bytes <= BUFFER_SIZE ->
  0 <= tag < 2 ^ 16 -> 0 <= code < 2 ^ 32 ->
  meaning bytes =
    match (if tag =? ST_SESSIONS then
             let! handle := rd_u32 in
             let! auth_size := rd_u32 in
             let! _ := rd_bytes auth_size in
             rd_parameters code handle
           else if tag =? ST_NO_SESSIONS then
             let! _ := rd_rest in
             slift (Ok (if existsb (Z.eqb code) query_codes then EQuery else EUnknown))
           else if tag =? TAG_RQU_COMMAND then
             if code =? ORD_EXTEND then
               let! pcr := rd_u32 in
               let! digest := rd_bytes 20 in
               slift (Ok (EExtend pcr [(ALG_SHA1, digest)]))
             else if code =? TSC_ORD_PHYSICAL_PRESENCE then let! bits := rd_u16 in slift (Ok (EPresence bits))
             else
      let! _ := rd_rest in
      slift (Ok (if existsb (Z.eqb code) query_ordinals then EQuery else EUnknown))
           else slift (Ok EUnknown)) params with
    | ([], Ok e) => e
    | _ => EUnknown
    end.
Proof.
  intros Hb Hs Ht Hc. pose proof (zlen_nonneg bytes). unfold BUFFER_SIZE in Hs.
  unfold meaning, rd_command. set (n := zlen bytes) in *. rewrite Hb at 1. unfold sbind at 1.
  rewrite rd_u16_enc by done. unfold sbind at 1. rewrite rd_u32_enc by lia. unfold sbind at 1.
  rewrite rd_u32_enc by done. rewrite Z.eqb_refl. done.
Qed.

Lemma meaning_sessions code handle params bytes :
  bytes = be_enc 2 ST_SESSIONS ++ be_enc 4 (zlen bytes) ++ be_enc 4 code ++
    be_enc 4 handle ++ password_bytes ++ params ->
  zlen bytes <= BUFFER_SIZE -> 0 <= code < 2 ^ 32 -> 0 <= handle < 2 ^ 32 ->
  meaning bytes = match rd_parameters code handle params with ([], Ok e) => e | _ => EUnknown end.
Proof.
  intros Hb Hs Hc Hh. rewrite (meaning_header _ _ _ _ Hb Hs) by done. rewrite Z.eqb_refl. unfold sbind.
  rewrite rd_u32_enc by done. unfold password_bytes. rewrite <- app_assoc, rd_u32_enc by done.
  by rewrite rd_bytes_app.
Qed.

Ltac holds_step :=
  lazymatch goal with
  | |- holds (cmd_new _ _) _ => apply holds_new
  | |- holds (password_session _) _ => apply holds_password
  | |- holds (cmd_sized _ _) _ => apply holds_sized; [done|]
  | |- holds (extend_command _ _) _ => unfold extend_command; apply holds_extend
  | |- holds (extend12_command _ _) _ => unfold extend12_command
  | |- holds (cmd_u32 ?c ?v) _ => apply (holds_bytes c _ (be_enc 4 v))
  | |- holds (cmd_u16 ?c ?v) _ => apply (holds_bytes c _ (be_enc 2 v))
  | |- holds (cmd_u8 ?c ?v) _ => apply (holds_bytes c _ [v])
  | |- holds (cmd_bytes _ _) _ => apply holds_bytes
  end.

(** The header and parameters of a command that finished. *)
Ltac finished Hf tag code params :=
  match type of Hf with
  | cmd_finish ?c = Ok ?b =>
      let Hb := fresh "Hb" in let Hs := fresh "Hs" in
      destruct (cmd_finish_holds c tag code params b) as [Hb Hs];
      [rewrite !app_assoc; repeat holds_step | exact Hf |]
  end.

Section meanings.
Context {M : Type} {TM : Transport M}.

(** What the extension command means is the extension that was asked for. *)
Lemma meaning_extend pcr ds bytes :
  0 <= pcr < 2 ^ 32 -> Forall digest_fits ds -> cmd_finish (extend_command pcr ds) = Ok bytes ->
  meaning bytes = EExtend pcr ds.
Proof.
  intros Hp Hds Hf. pose proof (zlen_nonneg ds).
  finished Hf ST_SESSIONS CC_PCR_EXTEND (be_enc 4 pcr ++ password_bytes ++ be_enc 4 (zlen ds mod 2 ^ 32) ++ digest_pieces ds).
  rewrite (meaning_sessions _ _ _ _ Hb Hs) by done. unfold rd_parameters. cbn [Z.eqb Pos.eqb CC_PCR_EXTEND].
  unfold sbind. rewrite rd_u32_enc by (apply Z.mod_pos_bound; lia).
  assert (Hn : zlen ds < 2 ^ 32).
  { assert (Hlen : zlen ds <= zlen (digest_pieces ds)).
    { clear. induction ds as [|[a d] ds IH]; [done|]. unfold digest_pieces in *. cbn [map concat].
      rewrite zlen_cons, !zlen_app, zlen_be_enc. pose proof (zlen_nonneg d). lia. }
    rewrite Hb in Hs. rewrite !zlen_app in Hs. unfold BUFFER_SIZE in Hs.
    repeat match type of Hs with context [zlen (be_enc ?n ?v)] => rewrite (zlen_be_enc n v) in Hs end.
    pose proof (zlen_nonneg password_bytes). lia. }
  rewrite Z.mod_small by lia. replace (Z.to_nat (zlen ds)) with (length ds) by (unfold zlen; lia).
  rewrite <- (app_nil_r (digest_pieces ds)). by rewrite rd_digests_enc.
Qed.

Lemma meaning_event pcr data bytes :
  0 <= pcr < 2 ^ 32 -> zlen data < 2 ^ 16 ->
  cmd_finish (cmd_sized (password_session (cmd_u32 (cmd_new ST_SESSIONS CC_PCR_EVENT) pcr)) data) = Ok bytes ->
  meaning bytes = EEvent pcr data.
Proof.
  intros Hp Hd Hf.
  finished Hf ST_SESSIONS CC_PCR_EVENT (be_enc 4 pcr ++ password_bytes ++ be_enc 2 (zlen data) ++ data).
  rewrite (meaning_sessions _ _ _ _ Hb Hs) by done. unfold rd_parameters. cbn [Z.eqb Pos.eqb CC_PCR_EXTEND CC_PCR_EVENT].
  unfold sbind. rewrite <- (app_nil_r data) at 2. by rewrite rd_sized_enc.
Qed.

Lemma meaning_change_auth h auth bytes :
  0 <= h < 2 ^ 32 -> zlen auth < 2 ^ 16 ->
  cmd_finish (cmd_sized (password_session (cmd_u32 (cmd_new ST_SESSIONS CC_HIERARCHY_CHANGE_AUTH) h)) auth) = Ok bytes ->
  meaning bytes = EChangeAuth h auth.
Proof.
  intros Hp Hd Hf.
  finished Hf ST_SESSIONS CC_HIERARCHY_CHANGE_AUTH (be_enc 4 h ++ password_bytes ++ be_enc 2 (zlen auth) ++ auth).
  rewrite (meaning_sessions _ _ _ _ Hb Hs) by done. unfold rd_parameters.
  cbn [Z.eqb Pos.eqb CC_PCR_EXTEND CC_PCR_EVENT CC_HIERARCHY_CHANGE_AUTH].
  unfold sbind. rewrite <- (app_nil_r auth) at 2. by rewrite rd_sized_enc.
Qed.

Lemma meaning_control auth h (state : bool) bytes :
  0 <= auth < 2 ^ 32 -> 0 <= h < 2 ^ 32 ->
  cmd_finish (cmd_u8 (cmd_u32 (password_session (cmd_u32 (cmd_new ST_SESSIONS CC_HIERARCHY_CONTROL) auth)) h)
    (Z.b2z state)) = Ok bytes ->
  meaning bytes = EControl auth h (Z.b2z state).
Proof.
  intros Hp Hh Hf.
  finished Hf ST_SESSIONS CC_HIERARCHY_CONTROL (be_enc 4 auth ++ password_bytes ++ be_enc 4 h ++ [Z.b2z state]).
  rewrite (meaning_sessions _ _ _ _ Hb Hs) by done. unfold rd_parameters.
  cbn [Z.eqb Pos.eqb CC_PCR_EXTEND CC_PCR_EVENT CC_HIERARCHY_CHANGE_AUTH CC_HIERARCHY_CONTROL].
  unfold sbind. rewrite rd_u32_enc by done. by rewrite rd_u8_cons.
Qed.

Lemma meaning_extend12 pcr digest bytes :
  0 <= pcr < 2 ^ 32 -> zlen digest = 20 -> cmd_finish (extend12_command pcr digest) = Ok bytes ->
  meaning bytes = EExtend pcr [(ALG_SHA1, digest)].
Proof.
  intros Hp Hd Hf.
  finished Hf TAG_RQU_COMMAND ORD_EXTEND (be_enc 4 pcr ++ digest).
  rewrite (meaning_header _ _ _ _ Hb Hs) by done.
  cbn [Z.eqb Pos.eqb ST_SESSIONS ST_NO_SESSIONS TAG_RQU_COMMAND ORD_EXTEND].
  unfold sbind. rewrite rd_u32_enc by done. pose proof (rd_bytes_app 20 digest [] Hd) as E.
  rewrite app_nil_r in E. by rewrite E.
Qed.

Lemma meaning_presence bits bytes :
  0 <= bits < 2 ^ 16 ->
  cmd_finish (cmd_u16 (cmd_new TAG_RQU_COMMAND TSC_ORD_PHYSICAL_PRESENCE) bits) = Ok bytes ->
  meaning bytes = EPresence bits.
Proof.
  intros Hp Hf.
  finished Hf TAG_RQU_COMMAND TSC_ORD_PHYSICAL_PRESENCE (be_enc 2 bits).
  rewrite (meaning_header _ _ _ _ Hb Hs) by done.
  cbn [Z.eqb Pos.eqb ST_SESSIONS ST_NO_SESSIONS TAG_RQU_COMMAND ORD_EXTEND TSC_ORD_PHYSICAL_PRESENCE].
  unfold sbind. rewrite <- (app_nil_r (be_enc 2 bits)). by rewrite rd_u16_enc.
Qed.

Lemma meaning_random want bytes :
  cmd_finish (cmd_u16 (cmd_new ST_NO_SESSIONS CC_GET_RANDOM) want) = Ok bytes -> meaning bytes = EQuery.
Proof. intros Hf. finished Hf ST_NO_SESSIONS CC_GET_RANDOM (be_enc 2 want). by rewrite (meaning_header _ _ _ _ Hb Hs). Qed.

Lemma meaning_capability bytes :
  cmd_finish (cmd_u32 (cmd_u32 (cmd_u32 (cmd_new ST_NO_SESSIONS CC_GET_CAPABILITY) CAP_PCRS) 0) 1) = Ok bytes ->
  meaning bytes = EQuery.
Proof.
  intros Hf. finished Hf ST_NO_SESSIONS CC_GET_CAPABILITY (be_enc 4 CAP_PCRS ++ be_enc 4 0 ++ be_enc 4 1).
  by rewrite (meaning_header _ _ _ _ Hb Hs).
Qed.

Lemma meaning_capability12 sub bytes :
  cmd_finish (cmd_u32 (cmd_u32 (cmd_u32 (cmd_new TAG_RQU_COMMAND ORD_GET_CAPABILITY) CAP_FLAG) 4) sub) = Ok bytes ->
  meaning bytes = EQuery.
Proof.
  intros Hf. finished Hf TAG_RQU_COMMAND ORD_GET_CAPABILITY (be_enc 4 CAP_FLAG ++ be_enc 4 4 ++ be_enc 4 sub).
  by rewrite (meaning_header _ _ _ _ Hb Hs).
Qed.
End meanings.

(** ** Executing commands *)

Section execution.
Context {H : PcrHash} {M : Type} {TM : Transport M} {D : TpmDevice M} {L : TpmLaws H M TM D}.

Lemma locks_kept_refl m : locks_kept m m.
Proof. by constructor. Qed.
Lemma locks_kept_trans m1 m2 m3 : locks_kept m1 m2 -> locks_kept m2 m3 -> locks_kept m1 m3.
Proof. intros [] []. constructor; auto. Qed.
#[export] Instance locks_kept_transitive : Transitive locks_kept.
Proof. intros ???. apply locks_kept_trans. Qed.
Lemma same_pcrs_trans m1 m2 m3 : same_pcrs m1 m2 -> same_pcrs m2 m3 -> same_pcrs m1 m3.
Proof. intros H1 H2 a i Hp. rewrite H2, H1; done. Qed.

(** A performed command keeps its meaning if nothing happened before it. *)
Lemma performs_pre e m0 m m' : same_pcrs m0 m -> locks_kept m0 m -> performs e m m' -> performs e m0 m'.
Proof.
  intros Hs Hl. destruct e; cbn [performs]; intros Hp; try done.
  - destruct Hp as [Hk Hp]. split; [by eapply locks_kept_trans|]. intros a j Ha. by rewrite Hp, (Hs a j Ha).
  - destruct Hp as [Hk Hp]. split; [by eapply locks_kept_trans|]. intros a j Ha. by rewrite Hp, (Hs a j Ha).
  - destruct Hp as (Hk & Hq & Hp). split_and!; [by eapply locks_kept_trans|by eapply same_pcrs_trans|done].
  - destruct Hp as (Hq & Hp). split; [by eapply same_pcrs_trans|]. intros Hz. destruct (Hp Hz).
    split; [by eapply locks_kept_trans|done].
  - destruct Hp as (Hq & Hp). split; [by eapply same_pcrs_trans|]. intros Hz. destruct (Hp Hz).
    split; [by eapply locks_kept_trans|done].
  - destruct Hp. split; [by eapply locks_kept_trans|by eapply same_pcrs_trans].
Qed.

(** The device has just answered [cmd], and nothing else happened since [m0]. *)
Definition answered (cmd : list Z) (m0 : M) (s : M * list Z) (len : Z) : Prop :=
  exists m1 buf1, same_pcrs m0 m1 /\ locks_kept m0 m1 /\ transmit cmd (m1, buf1) = (s, Ok len).

Lemma response_Ok len (s s' : M * list Z) r :
  response len s = (s', Ok r) -> s' = s /\ r = sub (snd s) 0 len.
Proof.
  unfold response. intros [= <- Hr]. apply or_panic_Ok, get_range_Some in Hr as (_ & _ & ->).
  split; [done|]. f_equal. lia.
Qed.

Lemma is_retry_code r : is_retry r = true -> exists code, r = Err (TpmCode code).
Proof. destruct r as [|[]|]; simpl; intros; [done..| |done]; eauto. Qed.

Lemma retry_answered n cmd m0 s len s' len' :
  answered cmd m0 s len -> retry n cmd len s = (s', Ok len') -> answered cmd m0 s' len'.
Proof.
  revert s len. induction n as [|n IH]; intros s len Ha Hr; cbn [retry] in Hr.
  { by injection Hr as <- <-. }
  apply sbind_Ok in Hr as (r & s1 & [-> ->]%response_Ok & Hr).
  destruct (is_retry _) eqn:Hc; [|by injection Hr as <- <-].
  apply is_retry_code in Hc as [code Hc].
  apply sbind_Ok in Hr as ([] & s2 & [= <-] & Hr). apply sbind_Ok in Hr as (len1 & s3 & Ht & Hr).
  apply (IH s3 len1); [|done]. destruct Ha as (m1 & buf1 & Hs & Hl & Htr). destruct s as [m buf].
  destruct (transmit_refused _ _ _ _ _ _ _ Htr Hc) as [Hs1 Hl1]. cbn [fst snd] in *.
  destruct (wait_same 10 m) as [Hs2 Hl2]. exists (wait_ms 10 m), buf. split_and!.
  - eapply same_pcrs_trans; [done|]. by eapply same_pcrs_trans.
  - eapply locks_kept_trans; [done|]. by eapply locks_kept_trans.
  - done.
Qed.

Lemma execute_Ok cmd m buf m' buf' body :
  execute cmd (m, buf) = ((m', buf'), Ok body) -> performs (meaning cmd) m m'.
Proof.
  intros He. apply sbind_Ok in He as (len & s1 & Ht & He). apply sbind_Ok in He as (len' & s2 & Hr & He).
  apply sbind_Ok in He as (r & s3 & [-> ->]%response_Ok & He). apply slift_Ok in He as [<- Hb].
  apply (retry_answered _ _ m) in Hr; [|by exists m, buf].
  destruct Hr as (m1 & buf1 & Hs & Hl & Htr). cbn [snd] in Hb.
  apply (performs_pre _ m m1); [done..|]. by eapply transmit_performed.
Qed.

Lemma execute_told cmd m buf m' buf' body :
  execute cmd (m, buf) = ((m', buf'), Ok body) -> told cmd body m'.
Proof.
  intros He. apply sbind_Ok in He as (len & s1 & Ht & He). apply sbind_Ok in He as (len' & s2 & Hr & He).
  apply sbind_Ok in He as (r & s3 & [-> ->]%response_Ok & He). apply slift_Ok in He as [<- Hb].
  apply (retry_answered _ _ m) in Hr; [|by exists m, buf].
  destruct Hr as (m1 & buf1 & _ & _ & Htr). cbn [snd] in Hb. by eapply transmit_told.
Qed.

(** Whatever one transmission of the command respects, the exchange does. *)
Lemma retry_keeps (R : M -> M -> Prop) `{!PreOrder R} n cmd s len :
  (forall ms m, R m (wait_ms ms m)) ->
  (forall m buf m' buf' r, transmit cmd (m, buf) = ((m', buf'), r) -> R m m') ->
  R (fst s) (fst (fst (retry n cmd len s))).
Proof.
  intros Hw Ht. revert s len. induction n as [|n IH]; intros s len; cbn [retry]; [done|].
  unfold sbind at 1. unfold response. destruct (or_panic _) as [r|e|]; cbn [fst]; [|done..].
  destruct (is_retry _); [|done]. unfold wait, sbind. destruct s as [m buf]. cbn [fst snd].
  destruct (transmit cmd (wait_ms 10 m, buf)) as [[m1 buf1] r1] eqn:Htr. pose proof (Ht _ _ _ _ _ Htr) as Hk.
  destruct r1 as [len1|e|]; cbn [fst]; [|by etrans; [apply Hw|]..].
  etrans; [apply Hw|]. etrans; [exact Hk|]. apply (IH (m1, buf1)).
Qed.

Lemma execute_keeps (R : M -> M -> Prop) `{!PreOrder R} cmd m buf :
  (forall ms m, R m (wait_ms ms m)) ->
  (forall m buf m' buf' r, transmit cmd (m, buf) = ((m', buf'), r) -> R m m') ->
  R m (fst (fst (execute cmd (m, buf)))).
Proof.
  intros Hw Ht. unfold execute, sbind at 1. destruct (transmit cmd (m, buf)) as [[m1 buf1] r1] eqn:Htr.
  pose proof (Ht _ _ _ _ _ Htr) as Hk. destruct r1 as [len|e|]; cbn [fst]; [|done..].
  etrans; [exact Hk|]. pose proof (retry_keeps R RETRIES cmd (m1, buf1) len Hw Ht) as Hr.
  unfold sbind. destruct (retry _ _ _ _) as [s2 [len'|e|]]; cbn [fst] in *; [|done..].
  unfold response, slift. by destruct (or_panic _) as [r|e|].
Qed.

(** Commands that change neither PCRs nor locks. *)
Definition quiet (m m' : M) : Prop := same_pcrs m m' /\ locks_kept m m'.

#[export] Instance quiet_preorder : PreOrder quiet.
Proof.
  split.
  - intros m. split; [by intros a i|apply locks_kept_refl].
  - intros m1 m2 m3 [] []. split; [by eapply same_pcrs_trans|by eapply locks_kept_trans].
Qed.
#[export] Instance locks_kept_preorder : PreOrder locks_kept.
Proof. split; [exact locks_kept_refl|exact locks_kept_trans]. Qed.

Lemma execute_locks cmd m buf :
  harmless (meaning cmd) = true -> locks_kept m (fst (fst (execute cmd (m, buf)))).
Proof.
  intros Hh. apply (execute_keeps locks_kept); [intros; apply wait_same|].
  intros m1 buf1 m' buf' r Ht. by eapply transmit_locks.
Qed.

Lemma execute_quiet cmd m buf :
  harmless (meaning cmd) = true -> extends_pcr (meaning cmd) = false -> quiet m (fst (fst (execute cmd (m, buf)))).
Proof.
  intros Hh Hp. apply (execute_keeps quiet); [intros; apply wait_same|].
  intros m1 buf1 m' buf' r Ht. split; [by eapply transmit_pcrs|by eapply transmit_locks].
Qed.

(** *** No exchange panics *)

Lemma response_no_panic len (m : M) buf : 0 <= len <= zlen buf -> snd (response len (m, buf)) <> Panic.
Proof. intros Hl. unfold response, get_range. cbn [snd]. by guard_true. Qed.

Lemma response_body_no_panic r : response_body r <> Panic.
Proof. unfold response_body. destruct (get_range _ _ _); simpl; [|done]. by repeat case_match. Qed.

(** A response buffer as the next step finds it. *)
Definition buffer_kept (buf buf' : list Z) : Prop := zlen buf' = zlen buf /\ (bytes_ok buf -> bytes_ok buf').

Lemma buffer_kept_trans b1 b2 b3 : buffer_kept b1 b2 -> buffer_kept b2 b3 -> buffer_kept b1 b3.
Proof. intros [? ?] [? ?]. split; [congruence|auto]. Qed.

Lemma retry_fits n cmd m buf len s' r :
  0 <= len <= zlen buf -> retry n cmd len (m, buf) = (s', r) ->
  r <> Panic /\ buffer_kept buf (snd s') /\ forall len', r = Ok len' -> 0 <= len' <= zlen buf.
Proof.
  revert m buf len. induction n as [|n IH]; intros m buf len Hl Hr; cbn [retry] in Hr.
  { injection Hr as <- <-. split_and!; [done|done|]. by intros ? [= <-]. }
  unfold sbind at 1 in Hr. destruct (response len (m, buf)) as [s1 r1] eqn:Hresp.
  pose proof (response_no_panic len m buf Hl) as Hnp. rewrite Hresp in Hnp. cbn [snd] in Hnp.
  destruct r1 as [r1|e|]; [|by unfold response, or_panic in Hresp; case_match|done].
  apply response_Ok in Hresp as [-> ->]. destruct (is_retry _).
  2:{ injection Hr as <- <-. split_and!; [done|done|]. by intros ? [= <-]. }
  unfold wait, sbind in Hr. cbn [fst snd] in Hr.
  destruct (transmit cmd (wait_ms 10 m, buf)) as [[m1 buf1] r1] eqn:Ht.
  destruct (transmit_len _ _ _ _ _ _ Ht) as (Hp & Hz & Hb). destruct r1 as [len1|e|]; [|by injection Hr as <- <-|done].
  pose proof (transmit_fits _ _ _ _ _ _ Ht). rewrite <- Hz in *. apply IH in Hr as (? & ? & ?); [|done].
  split_and!; [done| |done]. by apply (buffer_kept_trans _ buf1).
Qed.

Lemma execute_fits cmd m buf s r :
  execute cmd (m, buf) = (s, r) ->
  r <> Panic /\ buffer_kept buf (snd s) /\ forall body, r = Ok body -> bytes_ok buf -> bytes_ok body.
Proof.
  intros He. unfold execute, sbind at 1 in He. destruct (transmit cmd (m, buf)) as [[m1 buf1] r1] eqn:Ht.
  destruct (transmit_len _ _ _ _ _ _ Ht) as (Hp & Hz & Hb). destruct r1 as [len|e|]; [|by injection He as <- <-|done].
  pose proof (transmit_fits _ _ _ _ _ _ Ht) as Hl. rewrite <- Hz in Hl. unfold sbind at 1 in He.
  destruct (retry RETRIES cmd len (m1, buf1)) as [s2 r2] eqn:Hr. apply retry_fits in Hr as (Hp2 & Hk2 & Hf); [|done].
  assert (Hk : buffer_kept buf (snd s2)) by (by apply (buffer_kept_trans _ buf1)).
  destruct r2 as [len'|e|]; [|by injection He as <- <-|done].
  specialize (Hf len' eq_refl). destruct Hk2 as [Hz2 _]. rewrite <- Hz2 in Hf. destruct s2 as [m2 buf2]. cbn [snd] in *.
  pose proof (response_no_panic len' m2 buf2 Hf) as Hnp.
  unfold sbind, response in He. unfold response in Hnp. cbn [snd] in *.
  destruct (get_range buf2 0 len') as [rr|] eqn:Hg; [|done]. cbn [or_panic] in He. unfold slift in He.
  injection He as <- <-. split_and!; [apply response_body_no_panic|done|].
  intros body Hbody Hbuf. apply get_range_Some in Hg as (_ & _ & ->). unfold response_body in Hbody.
  rust_step Hbody. rust_step Hbody. rust_step Hbody. injection Hbody as <-. apply bytes_ok_sub, bytes_ok_sub. by apply Hk.
Qed.

Lemma run_Ok c m m' :
  run c m = (m', Ok tt) -> exists bytes, cmd_finish c = Ok bytes /\ performs (meaning bytes) m m'.
Proof.
  intros Hr. apply sbind_Ok in Hr as (bytes & m1 & Hf & Hr). apply slift_Ok in Hf as [-> Hf].
  exists bytes. split; [done|]. unfold with_buffer in Hr.
  destruct ((let! _ := execute bytes in slift (Ok tt)) (m, zeros BUFFER_SIZE)) as [[m2 buf2] r] eqn:He.
  injection Hr as <- ->. apply sbind_Ok in He as (body & [m3 buf3] & He & Hs). apply slift_Ok in Hs as [[= <- <-] _].
  by eapply execute_Ok.
Qed.

Lemma with_buffer_fst {A} (f : sres (M * list Z) TpmError A) m :
  fst (with_buffer f m) = fst (fst (f (m, zeros BUFFER_SIZE))).
Proof. unfold with_buffer. by destruct (f _) as [[m' buf'] r]. Qed.

Lemma sbind_fst_slift {S A B} (f : sres S TpmError A) (k : A -> res TpmError B) s :
  fst (sbind f (fun a => slift (k a)) s) = fst (f s).
Proof. unfold sbind. by destruct (f s) as [s' [a|e|]]. Qed.

(** One exchange whose body is then read. *)
Lemma query_quiet {A} cmd (k : list Z -> res TpmError A) m :
  meaning cmd = EQuery -> quiet m (fst (with_buffer (let! body := execute cmd in slift (k body)) m)).
Proof. intros Hq. rewrite with_buffer_fst, sbind_fst_slift. apply execute_quiet; by rewrite Hq. Qed.

Lemma query_no_panic {A} cmd (k : list Z -> res TpmError A) m :
  (forall body, bytes_ok body -> k body <> Panic) -> snd (with_buffer (let! body := execute cmd in slift (k body)) m) <> Panic.
Proof.
  intros Hk. unfold with_buffer, sbind, slift.
  destruct (execute cmd (m, zeros BUFFER_SIZE)) as [[m' buf'] r] eqn:He. apply execute_fits in He as (Hp & _ & Hb).
  destruct r; cbn; [apply Hk, Hb; [done|apply bytes_ok_zeros]|done|done].
Qed.

Lemma cmd_finish_no_panic c : cmd_finish c <> Panic.
Proof. unfold cmd_finish. by case_match. Qed.

Lemma run_no_panic c m : snd (run c m) <> Panic.
Proof.
  unfold run, sbind, slift. pose proof (cmd_finish_no_panic c) as Hp. destruct (cmd_finish c) as [bytes|e|]; [|done|done].
  by apply (query_no_panic bytes (fun _ => Ok tt)).
Qed.
End execution.

(** ** What the routines do *)

Section routines.
Context {H : PcrHash} {M : Type} {TM : Transport M} {D : TpmDevice M} {L : TpmLaws H M TM D}.

(** A routine whose command means [e]. *)
Lemma run_spec c e m :
  (forall bytes, cmd_finish c = Ok bytes -> meaning bytes = e) -> harmless e = true ->
  (locks_kept m (fst (run c m)) /\ (extends_pcr e = false -> quiet m (fst (run c m)))) /\
  (forall m', run c m = (m', Ok tt) -> performs e m m').
Proof.
  intros He Hh. split.
  - unfold run, sbind at 1 3, slift at 1 3. destruct (cmd_finish c) as [bytes|e'|]; [|done..].
    rewrite with_buffer_fst, (sbind_fst_slift _ (fun _ => Ok tt)). rewrite <- (He bytes eq_refl) in *.
    split; [by apply execute_locks|intros; by apply execute_quiet].
  - intros m' Hr. apply run_Ok in Hr as (bytes & Hf & Hp). by rewrite (He bytes Hf) in Hp.
Qed.

(** The same for a command that does not extend a PCR. *)
Lemma run_quiet c e m :
  (forall bytes, cmd_finish c = Ok bytes -> meaning bytes = e) -> harmless e = true -> extends_pcr e = false ->
  quiet m (fst (run c m)) /\ (forall m', run c m = (m', Ok tt) -> performs e m m').
Proof. intros He Hh Hp. destruct (run_spec c e m He Hh) as [[_ Hq] Hr]. auto. Qed.

(** A command that extends a PCR. *)
Lemma run_extends c e m :
  (forall bytes, cmd_finish c = Ok bytes -> meaning bytes = e) -> harmless e = true ->
  locks_kept m (fst (run c m)) /\ (forall m', run c m = (m', Ok tt) -> performs e m m').
Proof. intros He Hh. destruct (run_spec c e m He Hh) as [[Hq _] Hr]. auto. Qed.

Lemma pcr_extend_spec i ds m :
  0 <= i < 2 ^ 32 -> Forall digest_fits ds ->
  locks_kept m (fst (pcr_extend i ds m)) /\
  (forall m', pcr_extend i ds m = (m', Ok tt) -> performs (EExtend i ds) m m').
Proof.
  intros Hi Hds. apply run_extends; [|done]. intros bytes. by apply meaning_extend.
Qed.

Lemma extend12_spec i d m :
  0 <= i < 2 ^ 32 -> zlen d = 20 ->
  locks_kept m (fst (extend12 i d m)) /\
  (forall m', extend12 i d m = (m', Ok tt) -> performs (EExtend i [(ALG_SHA1, d)]) m m').
Proof.
  intros Hi Hd. apply run_extends; [|done]. intros bytes. by apply meaning_extend12.
Qed.

Lemma pcr_event_spec i data m :
  0 <= i < 2 ^ 32 -> zlen data < 2 ^ 16 ->
  locks_kept m (fst (pcr_event i data m)) /\
  (forall m', pcr_event i data m = (m', Ok tt) -> performs (EEvent i data) m m').
Proof.
  intros Hi Hd. apply run_extends; [|done]. intros bytes. by apply meaning_event.
Qed.

Lemma change_auth_spec h auth m :
  0 <= h < 2 ^ 32 -> zlen auth < 2 ^ 16 ->
  quiet m (fst (hierarchy_change_auth h auth m)) /\
  (forall m', hierarchy_change_auth h auth m = (m', Ok tt) -> performs (EChangeAuth h auth) m m').
Proof.
  intros Hi Hd. apply run_quiet; [|done..]. intros bytes. by apply meaning_change_auth.
Qed.

Lemma disable_spec auth h m :
  0 <= auth < 2 ^ 32 -> 0 <= h < 2 ^ 32 ->
  quiet m (fst (hierarchy_control auth h false m)) /\
  (forall m', hierarchy_control auth h false m = (m', Ok tt) -> performs (EControl auth h 0) m m').
Proof.
  intros Hi Hd. apply run_quiet; [|done..]. intros bytes. by apply (meaning_control auth h false).
Qed.

Lemma lock_presence_spec m :
  quiet m (fst (physical_presence (Z.lor PP_NOTPRESENT PP_LOCK) m)) /\
  (forall m', physical_presence (Z.lor PP_NOTPRESENT PP_LOCK) m = (m', Ok tt) ->
     performs (EPresence (Z.lor PP_NOTPRESENT PP_LOCK)) m m').
Proof.
  apply run_quiet; [|done..]. intros bytes. by apply meaning_presence.
Qed.

Lemma rd_bytes_spec n r : bytes_ok r -> 0 <= n ->
  snd (rd_bytes n r) <> Panic /\ bytes_ok (fst (rd_bytes n r)) /\
  forall b, snd (rd_bytes n r) = Ok b -> zlen b = n /\ bytes_ok b.
Proof.
  intros Hr Hn. unfold rd_bytes. destruct (Z.ltb_spec (zlen r) n); cbn [fst snd]; [by split_and!|].
  split_and!; [done|by apply bytes_ok_sub|]. intros b [= <-]. split; [apply zlen_sub; lia|by apply bytes_ok_sub].
Qed.

Lemma be_dec_nonneg b : bytes_ok b -> 0 <= be_dec b.
Proof. intros Hb. unfold be_dec. apply le_dec_bound. by apply Forall_reverse. Qed.

Lemma read_random_Ok want body s out :
  0 <= want -> read_random want body = (s, Ok out) -> zlen out <= want.
Proof.
  unfold read_random. intros Hw Hr. apply sbind_Ok in Hr as (n & b1 & _ & Hr).
  destruct (Z.eqb_spec (Z.min n want) 0); [done|]. unfold rd_bytes in Hr.
  destruct (Z.ltb_spec (zlen b1) (Z.min n want)); [done|]. injection Hr as <- <-.
  unfold sub, zlen in *. rewrite length_take, length_drop. lia.
Qed.

Lemma random_loop_Ok fuel total out m m' out' :
  zlen out <= total -> random_loop fuel total out m = (m', Ok out') -> zlen out' = total.
Proof.
  revert out m. induction fuel as [|fuel IH]; intros out m Hout Hr; cbn [random_loop] in Hr.
  { destruct (Z.ltb_spec (zlen out) total); [done|]. injection Hr as <- <-. lia. }
  destruct (Z.ltb_spec (zlen out) total); [|injection Hr as <- <-; lia].
  apply sbind_Ok in Hr as (bytes & m1 & Hf & Hr). apply sbind_Ok in Hr as (more & m2 & Hw & Hr).
  apply (IH (out ++ more) m2); [|done]. unfold with_buffer in Hw.
  destruct ((let! body := _ in _) _) as [[m3 buf] r] eqn:He in Hw. injection Hw as <- ->.
  apply sbind_Ok in He as (body & s & _ & Hs). apply slift_Ok in Hs as [_ Hp]. unfold parse in Hp.
  destruct (read_random _ body) as [s' r'] eqn:Hr'. cbn [snd] in Hp. subst r'.
  apply read_random_Ok in Hr'; [rewrite zlen_app; lia | lia].
Qed.

(** A round reads at least a byte. *)
Lemma read_random_spec want body : bytes_ok body -> 0 < want ->
  parse (read_random want) body <> Panic /\ forall out, parse (read_random want) body = Ok out -> 0 < zlen out.
Proof.
  intros Hb Hw. unfold parse, read_random, rd_u16. destruct (rd_bytes_spec 2 body Hb) as (Hp & Hb1 & Hok); [done|].
  unfold sbind. destruct (rd_bytes 2 body) as [b1 [d|e|]]; cbn [fst snd slift] in *; [|done..].
  destruct (Hok d eq_refl) as [_ Hd]. pose proof (be_dec_nonneg d Hd). unfold slift.
  destruct (Z.eqb_spec (Z.min (be_dec d) want) 0); [done|].
  destruct (rd_bytes_spec (Z.min (be_dec d) want) b1 Hb1) as (Hp2 & _ & Hok2); [lia|].
  split; [done|]. intros out Ho. destruct (Hok2 out Ho). lia.
Qed.

Lemma random_loop_no_panic fuel total out m :
  total - zlen out <= Z.of_nat fuel -> snd (random_loop fuel total out m) <> Panic.
Proof.
  revert out m. induction fuel as [|fuel IH]; intros out m Hf; cbn [random_loop];
    (destruct (Z.ltb_spec (zlen out) total); [|done]); [lia|].
  set (want := Z.min _ 32). unfold sbind at 1, slift at 1.
  pose proof (cmd_finish_no_panic (cmd_u16 (cmd_new ST_NO_SESSIONS CC_GET_RANDOM) want)) as Hc.
  destruct (cmd_finish _) as [bytes|e|]; [|done..].
  pose proof (query_no_panic bytes (fun body => parse (read_random want) body) m) as Hq.
  unfold sbind at 1. destruct (with_buffer _ m) as [m1 [more|e|]] eqn:Hw; [|done|].
  2:{ destruct Hq; [|done]. intros body Hb. apply read_random_spec; [done|lia]. }
  apply IH. rewrite zlen_app. unfold with_buffer in Hw.
  destruct ((let! body := _ in _) _) as [[m3 buf] r] eqn:He in Hw. injection Hw as <- ->.
  apply sbind_Ok in He as (body & s & He & Hs). apply slift_Ok in Hs as [_ Hs].
  apply execute_fits in He as (_ & _ & Hb). specialize (Hb body eq_refl (bytes_ok_zeros _)).
  destruct (read_random_spec want body Hb) as [_ Hpos]; [lia|]. specialize (Hpos more Hs). lia.
Qed.

Lemma get_random_no_panic len m : snd (get_random len m) <> Panic.
Proof. apply random_loop_no_panic. change (@zlen Z []) with 0. lia. Qed.

Lemma get_random_Ok len m m' out : 0 <= len -> get_random len m = (m', Ok out) -> zlen out = len.
Proof. intros Hl. apply random_loop_Ok. done. Qed.

Lemma random_loop_quiet fuel total out m : quiet m (fst (random_loop fuel total out m)).
Proof.
  revert out m. induction fuel as [|fuel IH]; intros out m; cbn [random_loop];
    (destruct (zlen out <? total); [|done]); [done|].
  apply (sbind_keeps quiet); [done|]. intros bytes Hf. cbn [fst slift].
  unfold slift in Hf. cbn [snd] in Hf. apply (sbind_keeps quiet); [|intros more _; apply IH].
  apply (query_quiet bytes (fun body => parse (read_random _) body)), (meaning_random _ _ Hf).
Qed.

Lemma get_random_quiet len m : quiet m (fst (get_random len m)).
Proof. apply random_loop_quiet. Qed.

(** Readers of bytes never panic; their values satisfy [P]. *)
Definition reads {A} (P : A -> Prop) (p : reader A) : Prop := forall r, bytes_ok r ->
  snd (p r) <> Panic /\ bytes_ok (fst (p r)) /\ forall a, snd (p r) = Ok a -> P a.

Lemma reads_bind {A B} (P : A -> Prop) (Q : B -> Prop) p (k : A -> reader B) :
  reads P p -> (forall a, P a -> reads Q (k a)) -> reads Q (let! x := p in k x).
Proof.
  intros Hp Hk r Hr. destruct (Hp r Hr) as (Hn & Hb & Ha). unfold sbind.
  destruct (p r) as [r' [a|e|]]; cbn [fst snd] in *; [|by split_and!|done]. apply Hk; auto.
Qed.

Lemma reads_lift {A} (P : A -> Prop) (x : res TpmError A) :
  x <> Panic -> (forall a, x = Ok a -> P a) -> reads P (slift x).
Proof. intros Hx HP r Hr. unfold slift. by split_and!. Qed.

Lemma reads_u8 : reads (fun v => 0 <= v) rd_u8.
Proof.
  apply (reads_bind (fun b => zlen b = 1 /\ bytes_ok b)).
  - intros r Hr. by apply rd_bytes_spec.
  - intros b [Hz Hb]. destruct b as [|x [|y b]]; [done| |rewrite !zlen_cons in Hz; pose proof (zlen_nonneg b); lia].
    apply reads_lift; [done|]. intros a [= <-]. inversion Hb as [|? ? Hx]. unfold byte_ok in Hx. lia.
Qed.

Lemma reads_dec n : 0 <= n -> reads (fun v => 0 <= v) (let! b := rd_bytes n in slift (Ok (be_dec b))).
Proof.
  intros Hn. apply (reads_bind bytes_ok).
  - intros r Hr. destruct (rd_bytes_spec n r Hr Hn) as (? & ? & Hb). split_and!; [done..|]. intros b Hb'. by apply Hb.
  - intros b Hb. apply reads_lift; [done|]. intros a [= <-]. by apply be_dec_nonneg.
Qed.

Lemma reads_bytes n : 0 <= n -> reads bytes_ok (rd_bytes n).
Proof.
  intros Hn r Hr. destruct (rd_bytes_spec n r Hr Hn) as (? & ? & Hb). split_and!; [done..|]. intros b Hb'. by apply Hb.
Qed.

Lemma reads_flags n : reads (fun _ => True) (rd_flags n).
Proof.
  induction n as [|n IH]; cbn [rd_flags]; [by apply reads_lift|]. eapply reads_bind; [apply reads_u8|]. intros b _.
  eapply reads_bind; [apply IH|]. intros l _. by apply reads_lift.
Qed.

Lemma parse_no_panic {A} (P : A -> Prop) p body : reads P p -> bytes_ok body -> parse p body <> Panic.
Proof. intros Hp Hb. by apply Hp. Qed.

Lemma flags_no_panic {A} sub tag (p : reader A) m :
  reads (fun _ => True) p -> snd (flags sub tag p m) <> Panic.
Proof.
  intros Hp. unfold flags, sbind at 1, slift at 1.
  pose proof (cmd_finish_no_panic (cmd_u32 (cmd_u32 (cmd_u32 (cmd_new TAG_RQU_COMMAND ORD_GET_CAPABILITY) CAP_FLAG) 4) sub)) as Hc.
  destruct (cmd_finish _) as [bytes|e|]; [|done..].
  apply (query_no_panic bytes (fun body => parse (read_capability tag p) body)). intros body Hb.
  apply (parse_no_panic (fun _ => True)); [|done]. unfold read_capability. eapply reads_bind; [by apply reads_dec|].
  intros n Hn. eapply reads_bind; [by apply reads_bytes|]. intros data Hdata. apply reads_lift; [|done].
  apply (parse_no_panic (fun _ => True)); [|done]. eapply reads_bind; [by apply reads_dec|]. intros t _.
  case_match; [by apply reads_lift|done].
Qed.

Lemma permanent_flags_no_panic m : snd (permanent_flags m) <> Panic.
Proof.
  apply flags_no_panic. eapply reads_bind; [apply reads_flags|]. intros b _. by apply reads_lift.
Qed.

Lemma volatile_flags_no_panic m : snd (volatile_flags m) <> Panic.
Proof.
  apply flags_no_panic. eapply reads_bind; [apply reads_flags|]. intros b _. by apply reads_lift.
Qed.

Lemma reads_banks n banks : reads (fun _ => True) (banks_loop n banks).
Proof.
  revert banks. induction n as [|n IH]; intros banks; cbn [banks_loop]; [by apply reads_lift|].
  eapply reads_bind; [by apply reads_dec|]. intros h _. eapply reads_bind; [apply reads_u8|]. intros size Hs.
  eapply reads_bind; [by apply reads_bytes|]. intros select _. apply (reads_bind (fun _ => True)); [|intros; apply IH].
  apply reads_lift; [|done]. unfold banks_push. by repeat case_match.
Qed.

Lemma pcr_banks_no_panic m : snd (pcr_banks m) <> Panic.
Proof.
  unfold pcr_banks, sbind at 1, slift at 1.
  pose proof (cmd_finish_no_panic (cmd_u32 (cmd_u32 (cmd_u32 (cmd_new ST_NO_SESSIONS CC_GET_CAPABILITY) CAP_PCRS) 0) 1)) as Hc.
  destruct (cmd_finish _) as [bytes|e|]; [|done..].
  apply (query_no_panic bytes (fun body => parse read_banks body)). intros body Hb.
  apply (parse_no_panic (fun _ => True)); [|done]. unfold read_banks. eapply reads_bind; [apply reads_u8|]. intros _ _.
  eapply reads_bind; [by apply reads_dec|]. intros c _. case_match; [by apply reads_lift|].
  eapply reads_bind; [by apply reads_dec|]. intros n _. apply reads_banks.
Qed.

Lemma flags_quiet {A} sub tag (p : reader A) m : quiet m (fst (flags sub tag p m)).
Proof.
  unfold flags. apply (sbind_keeps quiet); [done|]. intros bytes Hf. cbn [fst slift].
  unfold slift in Hf. cbn [snd] in Hf. apply (query_quiet bytes (fun body => parse (read_capability tag p) body)).
  apply (meaning_capability12 _ _ Hf).
Qed.

(** *** What the flags of a TPM 1.2 tell *)

Lemma rd_bytes_Ok n r r' b : 0 <= n -> rd_bytes n r = (r', Ok b) -> r = b ++ r' /\ zlen b = n.
Proof.
  intros Hn. unfold rd_bytes. destruct (Z.ltb_spec (zlen r) n); [done|]. intros [= <- <-].
  split; [|apply zlen_sub; lia]. symmetry. apply sub_take_drop_eq. lia.
Qed.

Lemma rd_flags_Ok n r r' l : rd_flags n r = (r', Ok l) ->
  exists bs, r = bs ++ r' /\ length bs = n /\ l = map (fun b => negb (b =? 0)) bs.
Proof.
  revert r l. induction n as [|n IH]; intros r l Hf; cbn [rd_flags] in Hf.
  { injection Hf as -> <-. by exists []. }
  apply sbind_Ok in Hf as (b & r1 & Hb & Hf). apply sbind_Ok in Hf as (rest & r2 & Hr & Hf). injection Hf as -> <-.
  apply IH in Hr as (bs & -> & Hn & ->). unfold rd_u8 in Hb. apply sbind_Ok in Hb as (x & r3 & Hx & Hb).
  apply rd_bytes_Ok in Hx as [-> Hx]; [|done]. apply slift_Ok in Hb as [<- Hb]. destruct x as [|y [|z x]];
    [done| |rewrite !zlen_cons in Hx; pose proof (zlen_nonneg x); lia].
  injection Hb as <-. exists (y :: bs). cbn. by rewrite Hn.
Qed.

(** The flags of a structure with [n] of them, which the answer holds from byte 6. *)
Lemma read_flags_Ok {A} tag n (f : list bool -> A) body v :
  bytes_ok body -> parse (read_capability tag (let! b := rd_flags n in slift (Ok (f b)))) body = Ok v ->
  exists bs, length bs = n /\ be_dec (sub body 4 2) = tag /\ v = f (map (fun b => negb (b =? 0)) bs) /\
    forall i, (i < n)%nat -> body !! (6 + i)%nat = bs !! i.
Proof.
  unfold read_capability, parse. intros Hbody Hv. match type of Hv with snd ?p = _ => destruct p as [r0 x] eqn:E end. cbn [snd] in Hv. subst x.
  apply sbind_Ok in E as (size & r1 & Hs & E). unfold rd_u32 in Hs. apply sbind_Ok in Hs as (sz & r2 & Hs & Hsz).
  apply rd_bytes_Ok in Hs as [-> Hs]; [|done]. injection Hsz as -> <-.
  apply sbind_Ok in E as (data & r2 & Hd & E). apply rd_bytes_Ok in Hd as [-> Hd]; [|apply be_dec_nonneg; by apply bytes_ok_app in Hbody as [??]].
  apply slift_Ok in E as [_ E]. match type of E with snd ?p = _ => destruct p as [r3 x] eqn:F end. cbn [snd] in E. subst x.
  apply sbind_Ok in F as (t & r4 & Ht & F). unfold rd_u16 in Ht. apply sbind_Ok in Ht as (tb & r5 & Ht & Htb).
  apply rd_bytes_Ok in Ht as [-> Ht]; [|done]. injection Htb as -> <-. destruct (Z.eqb_spec (be_dec tb) tag) as [Htag|]; [|done].
  cbn [negb] in F. apply sbind_Ok in F as (l & r5 & Hl & F). injection F as <- <-.
  apply rd_flags_Ok in Hl as (bs & -> & Hn & ->). exists bs. split; [done|]. split; [|split; [done|]].
  - rewrite sub_app_r, Hs by lia. change (4 - 4) with 0. rewrite <- !app_assoc. by rewrite sub_app_exact.
  - intros i Hi. unfold zlen in *. rewrite lookup_app_r by lia. rewrite <- !app_assoc, lookup_app_r by lia.
    rewrite lookup_app_l by lia. f_equal. lia.
Qed.

(** The field behind [pre]. *)
Lemma field_at pre n v post bytes off : bytes = pre ++ be_enc n v ++ post -> zlen pre = off -> 0 <= v < 256 ^ Z.of_nat n ->
  be_dec (sub bytes off (Z.of_nat n)) = v.
Proof.
  intros -> <- Hv. rewrite sub_app_r, Z.sub_diag by lia. rewrite sub_app_exact by apply zlen_be_enc. by apply be_dec_enc.
Qed.

Lemma asks_flags_spec sub_cap bytes : 0 <= sub_cap < 2 ^ 32 ->
  cmd_finish (cmd_u32 (cmd_u32 (cmd_u32 (cmd_new TAG_RQU_COMMAND ORD_GET_CAPABILITY) CAP_FLAG) 4) sub_cap) = Ok bytes ->
  asks_flags bytes sub_cap.
Proof.
  intros Hr Hf. finished Hf TAG_RQU_COMMAND ORD_GET_CAPABILITY (be_enc 4 CAP_FLAG ++ be_enc 4 4 ++ be_enc 4 sub_cap).
  clear Hs Hf. split_and!.
  - by apply (field_at [] 2 TAG_RQU_COMMAND _ _ _ Hb).
  - apply (field_at (be_enc 2 TAG_RQU_COMMAND ++ be_enc 4 (zlen bytes)) 4 ORD_GET_CAPABILITY
      (be_enc 4 CAP_FLAG ++ be_enc 4 4 ++ be_enc 4 sub_cap)); [|done..]. by rewrite <- !app_assoc.
  - apply (field_at (be_enc 2 TAG_RQU_COMMAND ++ be_enc 4 (zlen bytes) ++ be_enc 4 ORD_GET_CAPABILITY) 4 CAP_FLAG
      (be_enc 4 4 ++ be_enc 4 sub_cap)); [|done..]. by rewrite <- !app_assoc.
  - apply (field_at (be_enc 2 TAG_RQU_COMMAND ++ be_enc 4 (zlen bytes) ++ be_enc 4 ORD_GET_CAPABILITY ++ be_enc 4 CAP_FLAG) 4 4
      (be_enc 4 sub_cap)); [|done..]. by rewrite <- !app_assoc.
  - apply (field_at (be_enc 2 TAG_RQU_COMMAND ++ be_enc 4 (zlen bytes) ++ be_enc 4 ORD_GET_CAPABILITY ++ be_enc 4 CAP_FLAG ++
      be_enc 4 4) 4 sub_cap []); [|done..]. by rewrite <- !app_assoc, app_nil_r.
Qed.

Lemma flags_Ok {A} sub_cap tag n (f : list bool -> A) m m' v : 0 <= sub_cap < 2 ^ 32 ->
  flags sub_cap tag (let! b := rd_flags n in slift (Ok (f b))) m = (m', Ok v) ->
  exists command body bs, asks_flags command sub_cap /\ told command body m' /\ length bs = n /\
    be_dec (sub body 4 2) = tag /\ v = f (map (fun b => negb (b =? 0)) bs) /\
    forall i, (i < n)%nat -> body !! (6 + i)%nat = bs !! i.
Proof.
  intros Hs Hr. unfold flags in Hr. apply sbind_Ok in Hr as (command & m1 & Hc & Hr). apply slift_Ok in Hc as [-> Hc].
  unfold with_buffer in Hr. destruct (sbind _ _ _) as [[m2 buf] r] eqn:E in Hr. injection Hr as <- ->.
  apply sbind_Ok in E as (body & [m3 buf3] & He & Hp). apply slift_Ok in Hp as [[= <- <-] Hp].
  pose proof (execute_fits _ _ _ _ _ He) as (_ & _ & Hbody). specialize (Hbody body eq_refl (bytes_ok_zeros _)).
  apply read_flags_Ok in Hp as (bs & Hp); [|done]. exists command, body, bs. split; [by apply asks_flags_spec|].
  split; [by eapply execute_told|done].
Qed.

Lemma flag_map bs i : (i < length bs)%nat ->
  exists b, bs !! i = Some b /\ flag (map (fun b => negb (b =? 0)) bs) i = negb (b =? 0).
Proof.
  intros Hi. destruct (lookup_lt_is_Some_2 bs i Hi) as [b Hb]. exists b. split; [done|].
  unfold flag. change (map ?g bs) with (g <$> bs). by rewrite list_lookup_fmap, Hb.
Qed.

Lemma volatile_flags_spec m m' v : volatile_flags m = (m', Ok v) ->
  (vf_physical_presence v = false -> ~ presence_asserted m') /\
  (vf_physical_presence_lock v = true -> presence_barred m').
Proof.
  intros (command & body & bs & Ha & [T1 T2 _] & Hn & Ht & -> & Hbs)%flags_Ok; [|done]. cbn.
  destruct (flag_map bs 2) as (p & Hp & ->); [lia|]. destruct (flag_map bs 3) as (k & Hk & ->); [lia|]. split; intros Hz; bool_hyp.
  - apply T1; [done..|]. unfold flag_clear. rewrite (Hbs 2%nat ltac:(lia) : body !! 8%nat = _), Hp. by f_equal.
  - apply T2; [done..|]. exists k. by rewrite (Hbs 3%nat ltac:(lia) : body !! 9%nat = _), Hk.
Qed.

Lemma permanent_flags_spec m m' v : permanent_flags m = (m', Ok v) ->
  pf_lifetime_lock v = true -> pf_cmd_enable v = false -> presence_barred m'.
Proof.
  intros (command & body & bs & Ha & [_ _ T3] & Hn & Ht & -> & Hbs)%flags_Ok; [|done]. cbn.
  destruct (flag_map bs 6) as (p & Hp & ->); [lia|]. destruct (flag_map bs 8) as (k & Hk & ->); [lia|]. intros Hz Hz'. bool_hyp.
  apply T3; [done..| |].
  - exists p. by rewrite (Hbs 6%nat ltac:(lia) : body !! 12%nat = _), Hp.
  - unfold flag_clear. rewrite (Hbs 8%nat ltac:(lia) : body !! 14%nat = _), Hk. by f_equal.
Qed.

Lemma self_test_loop_no_panic n command s : snd (self_test_loop n command s) <> Panic.
Proof.
  revert s. induction n as [|n IH]; intros [m buf]; cbn [self_test_loop]; [done|]. unfold sbind at 1.
  destruct (transmit command (m, buf)) as [[m1 buf1] r] eqn:Ht. destruct (transmit_len _ _ _ _ _ _ Ht) as (Hp & Hz & _).
  destruct r as [len|e|]; [|done..]. pose proof (transmit_fits _ _ _ _ _ _ Ht) as Hl. rewrite <- Hz in Hl.
  pose proof (response_no_panic len m1 buf1 Hl) as Hr. unfold sbind at 1.
  destruct (response len (m1, buf1)) as [s2 [r|e|]]; cbn [snd] in Hr; [|done..].
  pose proof (response_body_no_panic r). destruct (response_body r) as [b|[]|]; try done.
  case_match; [done|]. case_match; [|done]. apply IH.
Qed.

Lemma self_test_no_panic full m : snd (self_test full m) <> Panic.
Proof.
  unfold self_test. apply sbind_no_panic; [apply cmd_finish_no_panic|]. intros bytes _. unfold with_buffer.
  pose proof (self_test_loop_no_panic RETRIES bytes (fst (slift (E:=TpmError) (Ok bytes) m), zeros BUFFER_SIZE)) as Hn.
  by destruct (self_test_loop _ _ _) as [[m' buf'] r].
Qed.
Lemma startup_no_panic kind m : snd (startup kind m) <> Panic.
Proof.
  unfold startup. apply sbind_no_panic; [apply cmd_finish_no_panic|]. intros bytes _. unfold with_buffer.
  destruct (execute bytes _) as [[m' buf'] r] eqn:He. apply execute_fits in He as (Hp & _ & _).
  destruct r as [b|[]|]; try done; by destruct (negb _ && negb _).
Qed.
End routines.

(** ** The extension command *)

(** The room that a command under construction takes. *)
Definition takes (c : Command) (n : Z) : Prop := cm_overflow c = false /\ zlen (cm_bytes c) <= n.

Lemma takes_bytes c n x k : takes c n -> zlen x = k -> n + k <= BUFFER_SIZE -> takes (cmd_bytes c x) (n + k).
Proof.
  intros [Ho Hz] <- Hn. unfold cmd_bytes. guard_true. split; cbn; [done|]. rewrite zlen_app. lia.
Qed.

Lemma takes_extend ds : forall c n, takes c n -> Forall digest_fits ds -> n + 66 * zlen ds <= BUFFER_SIZE ->
  takes (fold_left (fun c '(alg, digest) => cmd_bytes (cmd_u16 c alg) digest) ds c) (n + 66 * zlen ds).
Proof.
  induction ds as [|[a d] ds IH]; intros c n Hc Hds Hn; cbn [fold_left].
  { change (zlen []) with 0. by replace (n + 66 * 0) with n by lia. }
  rewrite zlen_cons in *. apply list.Forall_cons in Hds as [[_ Hd] Hds]. cbn in Hd. apply digest_size_bound in Hd.
  unfold MAX_DIGEST_SIZE in Hd. pose proof (zlen_nonneg ds).
  replace (n + 66 * (1 + zlen ds)) with (n + 66 + 66 * zlen ds) by lia. apply IH; [|done|lia].
  destruct (takes_bytes (cmd_u16 c a) (n + 2) d (zlen d)) as [Ho Hz]; [|done|lia|by split; [|lia]].
  by apply takes_bytes; [|rewrite zlen_be_enc|lia].
Qed.

(** The command to extend a PCR in all banks fits its buffer, and its bytes,
    read by the TPM's own rules, ask for exactly that extension: the PCR, and the
    digests in their banks. *)
Theorem extend_command_means i ds :
  0 <= i < 2 ^ 32 -> Forall digest_fits ds -> zlen ds <= 15 ->
  exists bytes, cmd_finish (extend_command i ds) = Ok bytes /\ meaning bytes = EExtend i ds.
Proof.
  intros Hi Hds Hz.
  assert (Ht : takes (extend_command i ds) (31 + 66 * zlen ds)).
  { unfold extend_command. apply takes_extend; [|done|unfold BUFFER_SIZE; lia]. split; vm_compute; done. }
  destruct Ht as [Ho _]. destruct (cmd_finish (extend_command i ds)) as [bytes|e|] eqn:Hf.
  - exists bytes. split; [done|]. by apply meaning_extend.
  - unfold cmd_finish in Hf. by rewrite Ho in Hf.
  - by apply cmd_finish_no_panic in Hf.
Qed.

Lemma extend_command_means_witness :
  exists bytes, cmd_finish (extend_command 4 [(ALG_SHA1, zeros 20); (ALG_SHA256, zeros 32)]) = Ok bytes /\
    meaning bytes = EExtend 4 [(ALG_SHA1, zeros 20); (ALG_SHA256, zeros 32)].
Proof.
  apply (extend_command_means 4 [(ALG_SHA1, zeros 20); (ALG_SHA256, zeros 32)]); [done| |done].
  repeat (constructor; [by split|]). constructor.
Defined.
