(* ===== verification/Tis.v ===== *)
(** * Tis: the TPM FIFO interface ([crates/driver-tpm/src/tis.rs])

    The register interface of a TIS 1.3 or PTP FIFO TPM.  The bus is a parameter
    ([Bus]): a read or a delay may change the hardware in any way.  The driver's
    polling, its use of burst counts, and the retries of a response are translated
    step by step; [tis_transport] is the transport the commands of [Tpm] use. *)

From S2P Require Import Prelude.
From S2P Require Import Bytes.
From S2P Require Import Services.
From S2P Require Import Tpm.
From Stdlib Require Import ZArith Lia.
From stdpp Require Import base numbers list option.

#[local] Open Scope Z_scope.

(** ** Registers *)

Definition LOCALITY_SIZE : Z := 0x1000.

Definition ACCESS : Z := 0x000.
Definition INTF_CAPABILITY : Z := 0x014.
Definition STS : Z := 0x018.
Definition BURST_COUNT : Z := 0x019.
Definition DATA_FIFO : Z := 0x024.
Definition INTERFACE_ID : Z := 0x030.
Definition DID_VID : Z := 0xF00.
Definition RID : Z := 0xF04.

(** [TPM_ACCESS_x] *)
Definition REQUEST_USE : Z := Z.shiftl 1 1.
Definition ACTIVE_LOCALITY : Z := Z.shiftl 1 5.
Definition ACCESS_VALID : Z := Z.shiftl 1 7.
(** [TPM_STS_x] *)
Definition RESPONSE_RETRY : Z := Z.shiftl 1 1.
Definition EXPECT : Z := Z.shiftl 1 3.
Definition DATA_AVAIL : Z := Z.shiftl 1 4.
Definition GO : Z := Z.shiftl 1 5.
Definition COMMAND_READY : Z := Z.shiftl 1 6.
Definition STS_VALID : Z := Z.shiftl 1 7.

(** [is_set] and [matches_all]: every bit of the mask is set. *)
Definition all_set (value mask : Z) : bool := Z.land value mask =? mask.
(** [read(FIELD)] *)
Definition field (value offset bits : Z) : Z := Z.land (Z.shiftr value offset) (Z.ones bits).

Definition TIMEOUT_A : positive := 750000.
Definition TIMEOUT_B : positive := 2000000.
Definition TIMEOUT_C : positive := 750000.
Definition TIMEOUT_D : positive := 750000.
Definition TIMEOUT_COMMAND : positive := 120000000.
Definition POLL_US : positive := 10.
Definition RESPONSE_RETRIES : nat := 3.

(** ** The bus

    A read of [width] bytes at an address, a write, and a delay. *)
Class Bus (H : Type) := {
  bus_read : Z -> Z -> H -> H * Z;
  bus_write : Z -> Z -> Z -> H -> H;
  delay_us : Z -> H -> H;
  delay_ms : Z -> H -> H
}.

Record Tis (H : Type) := { ti_base : Z; ti_locality : Z; ti_hw : H }.
Arguments ti_base {H} _.
Arguments ti_locality {H} _.
Arguments ti_hw {H} _.
Arguments Build_Tis {H} _ _ _.

Record Identity := { id_family : Family; id_vendor : Z; id_device : Z; id_revision : Z }.

(** ** Polling

    [repeat_until p f] runs [f] until it succeeds, at most [p] times; the recursion
    halves [p], so that a timeout of minutes is cheap to write down. *)
Fixpoint repeat_until {S A} (p : positive) (f : S -> S * (bool * A)) (s : S) : S * (bool * A) :=
  match p with
  | xH => f s
  | xO p =>
      match repeat_until p f s with
      | (s, (true, a)) => (s, (true, a))
      | (s, (false, _)) => repeat_until p f s
      end
  | xI p =>
      match f s with
      | (s, (true, a)) => (s, (true, a))
      | (s, (false, _)) =>
          match repeat_until p f s with
          | (s, (true, a)) => (s, (true, a))
          | (s, (false, _)) => repeat_until p f s
          end
      end
  end.

Section driver.
Context {H : Type} {B : Bus H}.

Definition set_hw (t : Tis H) (h : H) : Tis H := Build_Tis (ti_base t) (ti_locality t) h.

Definition tis_new (base : Z) (h : H) : Tis H := Build_Tis base 0 h.
Definition set_locality (t : Tis H) (locality : Z) : Tis H := Build_Tis (ti_base t) (Z.min locality 4) (ti_hw t).

(** [self.regs(self.locality)] and a register of that page. *)
Definition reg (t : Tis H) (offset : Z) : Z := ti_base t + ti_locality t * LOCALITY_SIZE + offset.

Definition rd (offset width : Z) (t : Tis H) : Tis H * Z :=
  let (h, v) := bus_read (reg t offset) width (ti_hw t) in (set_hw t h, v).
Definition wr (offset value : Z) (t : Tis H) : Tis H := set_hw t (bus_write (reg t offset) 1 value (ti_hw t)).

(** One round of [wait]: the condition, and what its closure captured. *)
Definition poll_round {A} (cond : Tis H -> Tis H * (bool * A)) (t : Tis H) : Tis H * (bool * A) :=
  cond (set_hw t (delay_us (Z.pos POLL_US) (ti_hw t))).

(** [wait(timeout_us, done)]: the condition is tried at once and then after every
    polling interval until the timeout. *)
Definition wait_for {A} (timeout_us : positive) (cond : Tis H -> Tis H * (bool * A)) (t : Tis H) : Tis H * (bool * A) :=
  match cond t with
  | (t, (true, a)) => (t, (true, a))
  | (t, (false, _)) => repeat_until (Z.to_pos (Z.pos timeout_us / Z.pos POLL_US)) (poll_round cond) t
  end.

(** Turn the outcome of a wait into a result. *)
Definition waited {A} (e : TpmError) (w : Tis H -> Tis H * (bool * A)) : sres (Tis H) TpmError A := fun t =>
  match w t with
  | (t, (true, a)) => (t, Ok a)
  | (t, (false, _)) => (t, Err e)
  end.

(** A condition on a register, capturing its value. *)
Definition reg_cond (offset : Z) (test : Z -> bool) (t : Tis H) : Tis H * (bool * Z) :=
  let (t, v) := rd offset 1 t in (t, (test v, v)).

Definition store (offset value : Z) : sres (Tis H) TpmError unit := fun t => (wr offset value t, Ok tt).
Definition load (offset width : Z) : sres (Tis H) TpmError Z := fun t => let (t, v) := rd offset width t in (t, Ok v).

Definition request_locality : sres (Tis H) TpmError unit :=
  let! access := load ACCESS 1 in
  if all_set access (Z.lor ACCESS_VALID ACTIVE_LOCALITY) then slift (Ok tt) else
  let! _ := store ACCESS REQUEST_USE in
  let! _ := waited TpmLocality (wait_for TIMEOUT_A (reg_cond ACCESS (fun v => all_set v (Z.lor ACCESS_VALID ACTIVE_LOCALITY)))) in
  slift (Ok tt).

Definition release_locality (t : Tis H) : Tis H := wr ACCESS ACTIVE_LOCALITY t.

(** Two byte reads, the low byte first. *)
Definition burst_cond (t : Tis H) : Tis H * (bool * Z) :=
  let (t, low) := rd BURST_COUNT 1 t in
  let (t, high) := rd (BURST_COUNT + 1) 1 t in
  let count := Z.lor low (Z.shiftl high 8) in
  (t, (negb (count =? 0), count)).

Definition burst_count : sres (Tis H) TpmError Z := waited TpmTimeout (wait_for TIMEOUT_D burst_cond).

Definition status : sres (Tis H) TpmError Z :=
  waited TpmTimeout (wait_for TIMEOUT_C (reg_cond STS (fun v => all_set v STS_VALID))).

Definition ready : sres (Tis H) TpmError unit :=
  let! _ := store STS COMMAND_READY in
  let! _ := waited TpmTimeout (wait_for TIMEOUT_B (reg_cond STS (fun v => all_set v COMMAND_READY))) in
  slift (Ok tt).

(** The credit left over, or a fresh burst count. *)
Definition credit (c : Z) : sres (Tis H) TpmError Z := if c =? 0 then burst_count else slift (Ok c).

(** [for_each(|&byte| fifo.set(byte))] *)
Fixpoint write_fifo (bytes : list Z) (t : Tis H) : Tis H :=
  match bytes with [] => t | b :: bytes => write_fifo bytes (wr DATA_FIFO b t) end.

(** [for_each(|byte| *byte = fifo.get())] *)
Fixpoint read_fifo (n : nat) (t : Tis H) : Tis H * list Z :=
  match n with
  | O => (t, [])
  | S n => let (t, b) := rd DATA_FIFO 1 t in let (t, bs) := read_fifo n t in (t, b :: bs)
  end.

(** [while sent < body.len()]: the credit left at the end. *)
Fixpoint send_loop (fuel : nat) (body : list Z) (sent c : Z) : sres (Tis H) TpmError Z :=
  if zlen body <=? sent then slift (Ok c) else
  match fuel with
  | O => slift Panic
  | S fuel =>
      let! c := credit c in
      let burst := Z.min c (zlen body - sent) in
      let! bytes := slift (or_panic (get_range body sent (sent + burst))) in
      let! _ := (fun t => (write_fifo bytes t, Ok tt)) in
      send_loop fuel body (sent + burst) (c - burst)
  end.

(** [command.split_last()] *)
Definition split_last (command : list Z) : option (Z * list Z) :=
  match reverse command with [] => None | b :: rest => Some (b, reverse rest) end.

Definition send (command : list Z) : sres (Tis H) TpmError unit :=
  let! (last, body) := slift (ok_or (split_last command) TpmProtocol) in
  let! c := send_loop (length body) body 0 0 in
  let! sts := status in
  if negb (all_set sts EXPECT) then slift (Err TpmProtocol) else
  let! _ := credit c in
  let! _ := store DATA_FIFO last in
  let! sts := status in
  if all_set sts EXPECT then slift (Err TpmProtocol) else
  store STS GO.

(** Routines that also fill the response buffer. *)
Definition on_tis {A} (m : sres (Tis H) TpmError A) : sres (Tis H * list Z) TpmError A := fun '(t, buf) =>
  let (t, r) := m t in ((t, buf), r).

(** [receive_into(&mut response[at..at + len], credit)]: the credit left. *)
Fixpoint receive_loop (fuel : nat) (at_ len received c : Z) : sres (Tis H * list Z) TpmError Z :=
  if len <=? received then slift (Ok c) else
  match fuel with
  | O => slift Panic
  | S fuel =>
      let! sts := on_tis status in
      if negb (all_set sts DATA_AVAIL) then slift (Err TpmProtocol) else
      let! c := on_tis (credit c) in
      let burst := Z.min c (len - received) in
      let! _ := (fun '(t, buf) => let (t, bytes) := read_fifo (Z.to_nat burst) t in ((t, upd buf (at_ + received) bytes), Ok tt)) in
      receive_loop fuel at_ len (received + burst) (c - burst)
  end.

Definition receive_into (at_ len c : Z) : sres (Tis H * list Z) TpmError Z := receive_loop (Z.to_nat len) at_ len 0 c.

Definition buffer : sres (Tis H * list Z) TpmError (list Z) := fun s => (s, Ok (snd s)).

Definition receive_once : sres (Tis H * list Z) TpmError Z :=
  let! response := buffer in
  let! _ := slift (ok_or (get_range response 0 RESPONSE_HEADER) TpmResponse) in
  let! c := receive_into 0 RESPONSE_HEADER 0 in
  let! response := buffer in
  let size := be_dec (sub response 2 4) in
  if size <? RESPONSE_HEADER then slift (Err TpmResponse) else
  let! _ := slift (ok_or (get_range response RESPONSE_HEADER size) TpmResponse) in
  let! _ := receive_into RESPONSE_HEADER (size - RESPONSE_HEADER) c in
  let! sts := on_tis status in
  if all_set sts DATA_AVAIL then slift (Err TpmProtocol) else
  slift (Ok size).

Definition data_avail : Z := Z.lor STS_VALID DATA_AVAIL.

(** Whether a failed transfer is worth asking for again. *)
Definition broke_off (r : res TpmError Z) : bool :=
  match r with Err TpmProtocol | Err TpmTimeout => true | _ => false end.

(** [for _ in 0..RESPONSE_RETRIES] with the last result. *)
Fixpoint receive_retry (n : nat) (result : res TpmError Z) : sres (Tis H * list Z) TpmError Z :=
  match n with
  | O => slift result
  | S n =>
      if negb (broke_off result) then slift result else
      fun '(t, buf) =>
        match wait_for TIMEOUT_C (reg_cond STS (fun v => all_set v data_avail)) (wr STS RESPONSE_RETRY t) with
        | (t, (false, _)) => ((t, buf), result)
        | (t, (true, _)) => let (s, result) := receive_once (t, buf) in receive_retry n result s
        end
  end.

Definition receive : sres (Tis H * list Z) TpmError Z :=
  let! _ := on_tis (waited TpmTimeout (wait_for TIMEOUT_COMMAND (reg_cond STS (fun v => all_set v data_avail)))) in
  fun s => let (s, result) := receive_once s in receive_retry RESPONSE_RETRIES result s.

(** The command phase and the response phase of one exchange. *)
Definition exchange (command : list Z) : sres (Tis H * list Z) TpmError Z :=
  let! _ := on_tis ready in
  let! _ := on_tis (send command) in
  receive.

Definition tis_transmit (command : list Z) : sres (Tis H * list Z) TpmError Z :=
  let! _ := on_tis request_locality in
  fun s => let '((t, buf), result) := exchange command s in ((wr STS COMMAND_READY t, buf), result).

#[export] Instance tis_transport : Transport (Tis H) := {
  transmit := tis_transmit;
  wait_ms ms t := set_hw t (delay_ms ms (ti_hw t));
  release := release_locality
}.

(** ** Identification *)

(** The registers of locality 0. *)
Definition rd0 (offset width : Z) (t : Tis H) : Tis H * Z :=
  let (h, v) := bus_read (ti_base t + offset) width (ti_hw t) in (set_hw t h, v).

Definition probe (t : Tis H) : Tis H * option Identity :=
  let (t, access) := rd0 ACCESS 1 t in
  if access =? 0xFF then (t, None) else
  let (t, access) := rd0 ACCESS 1 t in
  if negb (all_set access ACCESS_VALID) then (t, None) else
  let (t, id) := rd0 INTERFACE_ID 4 t in
  let ptp := negb (id =? u32_max) && ((field id 0 4 =? 0) || (field id 0 4 =? 1)) in
  let (t, capability) := rd0 INTF_CAPABILITY 4 t in
  let version := field capability 28 3 in
  let (t, vendor) := rd0 DID_VID 4 t in
  let (t, device) := rd0 DID_VID 4 t in
  let (t, revision) := rd0 RID 1 t in
  (t, Some {| id_family := if ptp || (version =? 3) then Tpm20 else Tpm12; id_vendor := field vendor 0 16 mod 2 ^ 16;
              id_device := field device 16 16 mod 2 ^ 16; id_revision := revision |}).

Definition is_crb (t : Tis H) : Tis H * bool :=
  let (t, id) := rd0 INTERFACE_ID 4 t in (t, negb (id =? u32_max) && (field id 0 4 =? 1)).
End driver.
