(* ===== verification/TisFifo.v ===== *)
(** * TisFifo: the FIFO driver against a TPM behind the interface

    What the TIS promises of a device is stated as laws on its bus ([FifoLaws]):
    which register accesses leave it alone, what the status bits say, what a command
    phase and a response phase do.  Whatever the device's timing, its burst counts
    and its failures, an exchange then executes the command at most once, and a
    response it returns is the device's; so the driver is a transport as the command
    sets of [Tpm] need it ([TpmLaws]). *)

From S2P Require Import Prelude.
From S2P Require Import Bytes.
From S2P Require Import Services.
From S2P Require Import Crypto.
From S2P Require Import Tpm.
From S2P Require Import Tis.
From Stdlib Require Import ZArith Lia.
From stdpp Require Import base numbers list option.

#[local] Open Scope Z_scope.

(** ** The device behind the registers *)

(** The TPM itself, the command bytes it has received, the response it offers and
    how many bytes of it have been read. *)
Record FifoView (M : Type) := {
  fv_device : M; fv_pending : list Z; fv_response : option (list Z); fv_read : nat
}.
Arguments fv_device {M} _.
Arguments fv_pending {M} _.
Arguments fv_response {M} _.
Arguments fv_read {M} _.
Arguments Build_FifoView {M} _ _ _ _.

Class FifoTpm (H M : Type) := {
  fifo_view : H -> FifoView M;
  fifo_exec : list Z -> M -> M * list Z
}.

(** A complete response: its header holds its size. *)
Record complete (r : list Z) : Prop := {
  cp_bytes : bytes_ok r; cp_header : RESPONSE_HEADER <= zlen r; cp_size : be_dec (sub r 2 4) = zlen r
}.

Section laws.
Context {H M : Type} {B : Bus H} {F : FifoTpm H M}.

Definition reg_at (base l offset : Z) : Z := base + l * LOCALITY_SIZE + offset.
(** A register of the page whose reads do not move the FIFO. *)
Definition quiet_reg (off : Z) : Prop := (0 <=? off) && (off <? LOCALITY_SIZE) && negb (off =? DATA_FIFO) = true.

(** The effect of the command being executed. *)
Definition executed (v : FifoView M) : FifoView M :=
  Build_FifoView (fst (fifo_exec (fv_pending v) (fv_device v))) [] (Some (snd (fifo_exec (fv_pending v) (fv_device v)))) 0.

(** TIS 1.3 section 5.5 and 11.2, PTP section 6.5. *)
Class FifoLaws (base : Z) : Prop := {
  read_bounds a h h' v : bus_read a 1 h = (h', v) -> 0 <= v < 256;
  read_quiet l off w h h' v :
    quiet_reg off -> bus_read (reg_at base l off) w h = (h', v) -> fifo_view h' = fifo_view h;
  read_data l h h' v : bus_read (reg_at base l DATA_FIFO) 1 h = (h', v) ->
    fifo_view h' = Build_FifoView (fv_device (fifo_view h)) (fv_pending (fifo_view h)) (fv_response (fifo_view h))
                     (S (fv_read (fifo_view h))) /\
    forall r b, fv_response (fifo_view h) = Some r -> r !! fv_read (fifo_view h) = Some b -> byte_ok b -> v = b;
  delay_quiet us h : fifo_view (delay_us us h) = fifo_view h;
  delay_ms_quiet ms h : fifo_view (delay_ms ms h) = fifo_view h;
  (** The TPM is ready to receive a new command. *)
  status_ready l h h' v : bus_read (reg_at base l STS) 1 h = (h', v) -> all_set v COMMAND_READY = true ->
    fv_pending (fifo_view h) = [] /\ fv_response (fifo_view h) = None;
  (** More response data is available. *)
  status_avail l h h' v : bus_read (reg_at base l STS) 1 h = (h', v) -> all_set v (Z.lor STS_VALID DATA_AVAIL) = true ->
    exists r, fv_response (fifo_view h) = Some r /\ (fv_read (fifo_view h) < length r)%nat;
  write_data l b h : fifo_view (bus_write (reg_at base l DATA_FIFO) 1 b h) =
    Build_FifoView (fv_device (fifo_view h)) (fv_pending (fifo_view h) ++ [b]) (fv_response (fifo_view h)) (fv_read (fifo_view h));
  (** A command that is not complete is not executed. *)
  write_go l h : fifo_view (bus_write (reg_at base l STS) 1 GO h) = fifo_view h \/
    fifo_view (bus_write (reg_at base l STS) 1 GO h) = executed (fifo_view h);
  write_retry l h : fifo_view (bus_write (reg_at base l STS) 1 RESPONSE_RETRY h) =
    Build_FifoView (fv_device (fifo_view h)) (fv_pending (fifo_view h)) (fv_response (fifo_view h)) 0;
  write_ready l h : fv_device (fifo_view (bus_write (reg_at base l STS) 1 COMMAND_READY h)) = fv_device (fifo_view h);
  write_access l v h : fv_device (fifo_view (bus_write (reg_at base l ACCESS) 1 v h)) = fv_device (fifo_view h)
}.
End laws.

(** ** Polling *)

Section polling.
Context {S A : Type} (R : S -> S -> Prop) `{!Reflexive R, !Transitive R} (f : S -> S * (bool * A)).
Hypothesis (Hf : forall s, R s (fst (f s))).

(** The rounds one after the other, as the loop of the source runs them. *)
Fixpoint rounds (n : nat) (s : S) : S * (bool * A) :=
  match n with
  | O => f s
  | Datatypes.S n => match f s with (s, (true, a)) => (s, (true, a)) | (s, (false, _)) => rounds n s end
  end.

Lemma rounds_add n m s :
  rounds (n + Datatypes.S m) s = match rounds n s with (s, (true, a)) => (s, (true, a)) | (s, (false, _)) => rounds m s end.
Proof.
  revert s. induction n as [|n IH]; intros s; cbn [rounds Nat.add]; [done|].
  destruct (f s) as [s1 [[] a]]; [done|]. apply IH.
Qed.

Lemma repeat_until_rounds p s : repeat_until p f s = rounds (pred (Pos.to_nat p)) s.
Proof.
  revert s. induction p as [p IH|p IH|]; intros s; cbn [repeat_until]; [| |done].
  - pose proof (Pos2Nat.is_pos p). rewrite Pos2Nat.inj_xI.
    replace (pred (Datatypes.S (2 * Pos.to_nat p))) with (Datatypes.S (pred (Pos.to_nat p) + Datatypes.S (pred (Pos.to_nat p)))) by lia.
    cbn [rounds]. destruct (f s) as [s1 [[] a]]; [done|]. rewrite rounds_add, IH.
    by destruct (rounds (pred (Pos.to_nat p)) s1) as [s2 [[] a2]].
  - pose proof (Pos2Nat.is_pos p). rewrite Pos2Nat.inj_xO.
    replace (pred (2 * Pos.to_nat p)) with (pred (Pos.to_nat p) + Datatypes.S (pred (Pos.to_nat p)))%nat by lia.
    rewrite rounds_add, IH. by destruct (rounds (pred (Pos.to_nat p)) s) as [s2 [[] a2]].
Qed.

(** A poll keeps what every round keeps, and ends with a successful round when it
    succeeds. *)
Lemma rounds_keeps n s s' ok a :
  rounds n s = (s', (ok, a)) -> R s s' /\ (ok = true -> exists s0, R s s0 /\ f s0 = (s', (true, a))).
Proof.
  revert s. induction n as [|n IH]; intros s E; cbn [rounds] in E.
  - pose proof (Hf s) as Hs. rewrite E in Hs. split; [done|]. intros ->. by exists s.
  - pose proof (Hf s) as Hs. destruct (f s) as [s1 [[] a1]] eqn:E1; cbn [fst] in Hs.
    + injection E as -> <- ->. split; [done|]. intros _. by exists s.
    + destruct (IH s1 E) as [Hr Hok]. split; [by etrans|]. intros Ht. destruct (Hok Ht) as (s0 & Hs0 & E0).
      exists s0. split; [by etrans|done].
Qed.
End polling.

Section driver.
Context {H M : Type} {B : Bus H} {F : FifoTpm H M} (base : Z) {L : FifoLaws base}.

Definition view (t : Tis H) : FifoView M := fifo_view (ti_hw t).

(** The same interface: base and locality do not change. *)
Definition same_regs (t t' : Tis H) : Prop := ti_base t' = ti_base t /\ ti_locality t' = ti_locality t.

(** Nothing the device holds has changed. *)
Definition quiet (t t' : Tis H) : Prop := same_regs t t' /\ view t' = view t.

#[export] Instance quiet_refl : Reflexive quiet.
Proof. done. Qed.
#[export] Instance quiet_trans : Transitive quiet.
Proof. intros t1 t2 t3 [[? ?] ?] [[? ?] ?]. unfold quiet, same_regs. split_and!; congruence. Qed.

Lemma reg_reg_at (t : Tis H) off : ti_base t = base -> reg t off = reg_at base (ti_locality t) off.
Proof. intros <-. done. Qed.

Lemma rd_quiet t off t' v :
  ti_base t = base -> quiet_reg off -> rd off 1 t = (t', v) -> quiet t t' /\ 0 <= v < 256.
Proof.
  intros Hb Ho E. unfold rd in E. destruct (bus_read _ _ _) as [h x] eqn:Er. injection E as <- <-.
  rewrite reg_reg_at in Er by done. split; [|by eapply read_bounds]. split; [done|]. by eapply read_quiet.
Qed.

(** The condition of a poll on a register, and a successful one. *)
Lemma reg_cond_quiet t off test : ti_base t = base -> quiet_reg off -> quiet t (fst (reg_cond off test t)).
Proof.
  intros Hb Ho. unfold reg_cond. destruct (rd off 1 t) as [t' v] eqn:E. by destruct (rd_quiet _ _ _ _ Hb Ho E).
Qed.

Definition on_base (cond : Tis H -> Tis H * (bool * Z)) : Prop := forall t, ti_base t = base -> quiet t (fst (cond t)).

Lemma wait_for_quiet timeout (cond : Tis H -> Tis H * (bool * Z)) t t' ok a :
  on_base cond -> ti_base t = base -> wait_for timeout cond t = (t', (ok, a)) ->
  quiet t t' /\ (ok = true -> exists t0, quiet t t0 /\ cond t0 = (t', (true, a))).
Proof.
  intros Hcond Hb E. unfold wait_for in E. pose proof (Hcond t Hb) as Hq.
  destruct (cond t) as [t1 [[] a1]] eqn:E1; cbn [fst] in Hq.
  { injection E as -> <- ->. split; [done|]. intros _. by exists t. }
  rewrite repeat_until_rounds in E.
  (* Between states of this interface. *)
  set (R := fun s s' => ti_base s = base -> quiet s s').
  assert (Reflexive R) by (intros s _; done).
  assert (Transitive R) by (intros x y z Hxy Hyz Hx; pose proof (Hxy Hx) as [[Hy ?] ?]; transitivity y; [by apply Hxy | apply Hyz; congruence]).
  assert (Hf : forall s, R s (fst (poll_round cond s))).
  { intros s Hs. unfold poll_round. transitivity (set_hw s (delay_us (Z.pos POLL_US) (ti_hw s))); [|by apply Hcond].
    split; [done|]. unfold view. cbn [set_hw ti_hw]. apply delay_quiet. }
  assert (Hb1 : ti_base t1 = base) by (destruct Hq as [[? _] _]; congruence).
  destruct (rounds_keeps R (poll_round cond) Hf _ _ _ _ _ E) as [Hr Hok]. split; [transitivity t1; auto|].
  intros Ht. destruct (Hok Ht) as (s0 & Hs0 & E0). specialize (Hs0 Hb1). unfold poll_round in E0.
  exists (set_hw s0 (delay_us (Z.pos POLL_US) (ti_hw s0))). split; [|done].
  transitivity t1; [done|]. transitivity s0; [done|]. split; [done|]. unfold view. cbn [set_hw ti_hw]. apply delay_quiet.
Qed.

(** The outcome of a wait on a condition. *)
Lemma waited_quiet e timeout cond t t' r :
  on_base cond -> ti_base t = base -> waited e (wait_for timeout cond) t = (t', r) ->
  quiet t t' /\ (r = Err e \/ exists a t0, r = Ok a /\ quiet t t0 /\ cond t0 = (t', (true, a))).
Proof.
  intros Hcond Hb E. unfold waited in E. destruct (wait_for timeout cond t) as [t1 [ok a]] eqn:Ew.
  destruct (wait_for_quiet _ _ _ _ _ _ Hcond Hb Ew) as [Hq Hok].
  destruct ok; injection E as <- <-; split; auto. right. destruct (Hok eq_refl) as (t0 & ? & ?). eauto.
Qed.

Lemma on_base_reg off test : quiet_reg off -> on_base (reg_cond off test).
Proof. intros Ho t Hb. by apply reg_cond_quiet. Qed.

Lemma on_base_burst : on_base burst_cond.
Proof.
  intros t Hb. unfold burst_cond. destruct (rd BURST_COUNT 1 t) as [t1 lo] eqn:E1.
  destruct (rd_quiet t BURST_COUNT t1 lo Hb ltac:(reflexivity) E1) as [Hq1 _]. destruct (rd (BURST_COUNT + 1) 1 t1) as [t2 hi] eqn:E2.
  assert (ti_base t1 = base) by (destruct Hq1 as [[? _] _]; congruence).
  destruct (rd_quiet t1 (BURST_COUNT + 1) t2 hi ltac:(done) ltac:(reflexivity) E2) as [Hq2 _]. cbn [fst]. by transitivity t1.
Qed.

Lemma reg_cond_true (t : Tis H) off test t' a :
  reg_cond off test t = (t', (true, a)) -> rd off 1 t = (t', a) /\ test a = true.
Proof. unfold reg_cond. destruct (rd off 1 t) as [t1 v]. intros [= <- Ht <-]. done. Qed.

Lemma burst_positive t t' c : ti_base t = base -> burst_cond t = (t', (true, c)) -> 0 < c.
Proof.
  intros Hb. unfold burst_cond. destruct (rd BURST_COUNT 1 t) as [t1 lo] eqn:E1.
  destruct (rd_quiet t BURST_COUNT t1 lo Hb ltac:(reflexivity) E1) as [[[Hb1 _] _] Hlo]. destruct (rd (BURST_COUNT + 1) 1 t1) as [t2 hi] eqn:E2.
  destruct (rd_quiet t1 (BURST_COUNT + 1) t2 hi ltac:(congruence) ltac:(reflexivity) E2) as [_ Hhi]. intros [= _ Ht <-]. bool_hyp.
  assert (0 <= Z.lor lo (Z.shiftl hi 8)); [|lia]. apply Z.lor_nonneg. split; [lia|]. apply Z.shiftl_nonneg. lia.
Qed.

(** ** The steps of an exchange *)

Lemma quiet_base t t' : ti_base t = base -> quiet t t' -> ti_base t' = base.
Proof. intros Hb [[-> _] _]. done. Qed.

Lemma view_wr t off v : view (wr off v t) = fifo_view (bus_write (reg t off) 1 v (ti_hw t)).
Proof. done. Qed.

Lemma status_spec t t' r :
  ti_base t = base -> status t = (t', r) ->
  quiet t t' /\ (r = Err TpmTimeout \/ exists v, r = Ok v /\
    (all_set v DATA_AVAIL = true -> exists rp, fv_response (view t') = Some rp /\ (fv_read (view t') < length rp)%nat)).
Proof.
  intros Hb E. destruct (waited_quiet _ _ _ _ _ _ (on_base_reg STS _ ltac:(reflexivity)) Hb E) as [Hq Hr].
  split; [done|]. destruct Hr as [->|(a & t0 & -> & Hq0 & Hc)]; [by left|]. right. exists a. split; [done|].
  apply reg_cond_true in Hc as [Hc Hv]. intros Ha. assert (Hb0 : ti_base t0 = base) by by apply (quiet_base t).
  assert (Hboth : all_set a (Z.lor STS_VALID DATA_AVAIL) = true).
  { unfold all_set in *. apply Z.eqb_eq in Hv, Ha. apply Z.eqb_eq. rewrite Z.land_lor_distr_r. by rewrite Hv, Ha. }
  pose proof (rd_quiet t0 STS t' a Hb0 ltac:(reflexivity) Hc) as [[_ Hvw] _]. rewrite Hvw.
  unfold rd in Hc. destruct (bus_read _ _ _) as [h x] eqn:Er. injection Hc as <- <-. rewrite reg_reg_at in Er by done.
  by eapply status_avail.
Qed.

Lemma wait_avail_spec e timeout t t' r :
  ti_base t = base -> waited e (wait_for timeout (reg_cond STS (fun v => all_set v data_avail))) t = (t', r) ->
  quiet t t' /\ (r = Err e \/ exists v, r = Ok v /\ exists rp, fv_response (view t') = Some rp).
Proof.
  intros Hb E. destruct (waited_quiet _ _ _ _ _ _ (on_base_reg STS _ ltac:(reflexivity)) Hb E) as [Hq Hr].
  split; [done|]. destruct Hr as [->|(a & t0 & -> & Hq0 & Hc)]; [by left|]. right. exists a. split; [done|].
  apply reg_cond_true in Hc as [Hc Hv]. assert (Hb0 : ti_base t0 = base) by by apply (quiet_base t).
  pose proof (rd_quiet t0 STS t' a Hb0 ltac:(reflexivity) Hc) as [[_ Hvw] _]. rewrite Hvw.
  unfold rd in Hc. destruct (bus_read _ _ _) as [h x] eqn:Er. injection Hc as <- <-. rewrite reg_reg_at in Er by done.
  destruct (status_avail _ _ _ _ Er Hv) as (rp & ? & _). eauto.
Qed.

Lemma credit_spec c t t' r :
  ti_base t = base -> 0 <= c -> credit c t = (t', r) ->
  quiet t t' /\ (r = Err TpmTimeout \/ exists c', r = Ok c' /\ 0 < c').
Proof.
  intros Hb Hc E. unfold credit in E. destruct (c =? 0) eqn:E0; bool_hyp.
  - destruct (waited_quiet _ _ _ _ _ _ on_base_burst Hb E) as [Hq [->|(a & t0 & -> & Hq0 & Hp)]]; split; auto.
    right. exists a. split; [done|]. eapply burst_positive; [|done]. by apply (quiet_base t).
  - injection E as <- <-. split; [done|]. right. exists c. split; [done|lia].
Qed.

Lemma ready_spec t t' r :
  ti_base t = base -> ready t = (t', r) ->
  same_regs t t' /\ fv_device (view t') = fv_device (view t) /\
  (r = Err TpmTimeout \/ (r = Ok tt /\ fv_pending (view t') = [] /\ fv_response (view t') = None)).
Proof.
  intros Hb E. unfold ready, sbind, store in E. set (t1 := wr STS COMMAND_READY t) in *.
  destruct (waited _ _ t1) as [t2 r2] eqn:Ew.
  destruct (waited_quiet _ _ _ _ _ _ (on_base_reg STS _ ltac:(reflexivity)) (Hb : ti_base t1 = base) Ew) as [Hq Hr].
  assert (Hd : fv_device (view t1) = fv_device (view t)).
  { unfold t1. rewrite view_wr, reg_reg_at by done. apply write_ready. }
  destruct Hr as [->|(a & t0 & -> & Hq0 & Hc)]; injection E as <- <-.
  - destruct Hq as [Hs Hv]. split_and!; [apply Hs|by rewrite Hv|by left].
  - destruct Hq as [Hs Hv]. split_and!; [apply Hs|by rewrite Hv|]. right. split; [done|].
    apply reg_cond_true in Hc as [Hc Ha]. assert (Hb0 : ti_base t0 = base) by by apply (quiet_base t1).
    pose proof (rd_quiet t0 STS t2 a Hb0 ltac:(reflexivity) Hc) as [[_ ->] _].
    unfold rd in Hc. destruct (bus_read _ _ _) as [h x] eqn:Er. injection Hc as <- <-. rewrite reg_reg_at in Er by done.
    by eapply status_ready.
Qed.

Lemma request_locality_spec t t' r :
  ti_base t = base -> request_locality t = (t', r) ->
  same_regs t t' /\ fv_device (view t') = fv_device (view t) /\ r <> Panic.
Proof.
  intros Hb E. unfold request_locality, sbind, load in E. destruct (rd ACCESS 1 t) as [t1 v] eqn:E1.
  destruct (rd_quiet t ACCESS t1 v Hb ltac:(reflexivity) E1) as [[[Hs1 Hs2] Hv1] _].
  destruct (all_set v _); [injection E as <- <-; rewrite Hv1; done|]. unfold store in E.
  set (t2 := wr ACCESS REQUEST_USE t1) in *. assert (Hb2 : ti_base t2 = base) by (cbn; congruence).
  destruct (waited _ _ t2) as [t3 r3] eqn:Ew.
  destruct (waited_quiet _ _ _ _ _ _ (on_base_reg ACCESS _ ltac:(reflexivity)) Hb2 Ew) as [[[Hs3 Hs4] Hv3] Hr].
  assert (Hd : fv_device (view t2) = fv_device (view t1)).
  { unfold t2. rewrite view_wr, reg_reg_at by congruence. apply write_access. }
  assert (E' : t' = t3 /\ r <> Panic).
  { destruct Hr as [->|(a & t0 & -> & _)]; by injection E as <- <-. }
  destruct E' as [-> Hp]. split_and!; [split; cbn in *; congruence|rewrite Hv3, Hd, Hv1; done|done].
Qed.

(** Bytes written to the FIFO join the pending command. *)
Definition pushed (v : FifoView M) (bytes : list Z) : FifoView M :=
  Build_FifoView (fv_device v) (fv_pending v ++ bytes) (fv_response v) (fv_read v).

Lemma write_fifo_spec bytes t :
  ti_base t = base -> same_regs t (write_fifo bytes t) /\ view (write_fifo bytes t) = pushed (view t) bytes.
Proof.
  revert t. induction bytes as [|b bytes IH]; intros t Hb; cbn [write_fifo].
  - split; [done|]. unfold pushed. rewrite app_nil_r. by destruct (view t).
  - destruct (IH (wr DATA_FIFO b t) Hb) as [[Hs1 Hs2] Hv]. split; [done|]. rewrite Hv, view_wr, reg_reg_at, write_data by done.
    unfold pushed. cbn [fv_device fv_pending fv_response fv_read]. by rewrite <- app_assoc.
Qed.

(** Bytes read from the FIFO are the next ones of the response. *)
Definition pulled (v : FifoView M) (n : nat) : FifoView M :=
  Build_FifoView (fv_device v) (fv_pending v) (fv_response v) (fv_read v + n).

Lemma read_fifo_spec n t t' bs :
  ti_base t = base -> read_fifo n t = (t', bs) ->
  same_regs t t' /\ view t' = pulled (view t) n /\ length bs = n /\ bytes_ok bs /\
  forall rp, fv_response (view t) = Some rp -> bytes_ok rp -> (fv_read (view t) + n <= length rp)%nat -> bs = take n (drop (fv_read (view t)) rp).
Proof.
  revert t t' bs. induction n as [|n IH]; intros t t' bs Hb E; cbn [read_fifo] in E.
  { injection E as <- <-. split_and!; [done| |done|constructor|done]. unfold pulled. rewrite Nat.add_0_r. by destruct (view t). }
  destruct (rd DATA_FIFO 1 t) as [t1 b] eqn:E1. destruct (read_fifo n t1) as [t2 bs'] eqn:E2. injection E as <- <-.
  unfold rd in E1. destruct (bus_read _ _ _) as [h x] eqn:Er. injection E1 as <- <-. rewrite reg_reg_at in Er by done.
  destruct (read_data _ _ _ _ Er) as [Hv1 Hval]. pose proof (read_bounds _ _ _ _ Er) as Hx.
  destruct (IH (set_hw t h) t2 bs' Hb E2) as ([Hs1 Hs2] & Hv & Hl & Hok & Hbs).
  change (view (set_hw t h)) with (fifo_view h) in Hv, Hbs. rewrite Hv1 in Hv, Hbs.
  change (fifo_view (ti_hw t)) with (view t) in *.
  split_and!.
  - done.
  - rewrite Hv. unfold pulled. cbn [fv_device fv_pending fv_response fv_read]. f_equal. lia.
  - cbn [length]. lia.
  - constructor; [|done]. unfold byte_ok. lia.
  - intros rp Hrp Hbr Hle. destruct (lookup_lt_is_Some_2 rp (fv_read (view t))) as [y Hy]; [lia|].
    rewrite (drop_S rp y) by done. cbn [take]. f_equal; [eapply Hval; [done..|]; by apply (Forall_lookup_1 _ _ _ _ Hbr Hy)|]. apply (Hbs rp); [done..|]. cbn [fv_read]. lia.
Qed.

Lemma send_loop_spec fuel body sent c t t' r :
  ti_base t = base -> 0 <= c -> 0 <= sent <= zlen body -> zlen body - sent <= Z.of_nat fuel ->
  send_loop fuel body sent c t = (t', r) ->
  same_regs t t' /\ (r = Err TpmTimeout \/ exists c', r = Ok c' /\ 0 <= c') /\
  fv_device (view t') = fv_device (view t) /\ fv_response (view t') = fv_response (view t) /\
  ((exists c', r = Ok c') -> view t' = pushed (view t) (sub body sent (zlen body - sent))).
Proof.
  revert sent c t. induction fuel as [|fuel IH]; intros sent c t Hb Hc Hs Hf E; cbn [send_loop] in E.
  all: destruct (zlen body <=? sent) eqn:E0; bool_hyp.
  1, 3: injection E as <- <-; split_and!; [done|right; exists c; auto|done|done|]; intros _; replace (zlen body - sent) with 0 by lia;
    unfold pushed; rewrite sub_nil, app_nil_r; by destruct (view t).
  - lia.
  - unfold sbind at 1 in E. destruct (credit c t) as [t1 r1] eqn:Ec.
    destruct (credit_spec c t t1 r1 Hb Hc Ec) as [[[Hs1 Hs2] Hv1] [->|(c1 & -> & Hpos)]].
    { injection E as <- <-. rewrite Hv1. split_and!; [by split|by left|done|done|by intros [? [=]]]. }
    unfold sbind at 1, slift at 1 in E. set (burst := Z.min c1 (zlen body - sent)) in *.
    assert (Eg : get_range body sent (sent + burst) = Some (sub body sent burst)).
    { apply get_range_Some. split_and!; [lia..|]. f_equal. lia. }
    rewrite Eg in E. cbn [or_panic] in E. unfold sbind at 1 in E.
    destruct (write_fifo_spec (sub body sent burst) t1 ltac:(congruence)) as [[Hs3 Hs4] Hv2].
    apply IH in E as ([Hs5 Hs6] & Hr & Hd & Hrp & Hok); [|congruence|lia|lia|lia].
    rewrite Hd, Hrp, Hv2, Hv1. split_and!; [split; congruence|done|done|done|]. intros Hr'. rewrite (Hok Hr'), Hv2, Hv1.
    unfold pushed. cbn [fv_device fv_pending fv_response fv_read]. rewrite <- app_assoc, <- sub_split by lia. do 3 f_equal. lia.
Qed.

Lemma split_last_spec command :
  match split_last command with
  | Some (last, body) => command = body ++ [last]
  | None => command = []
  end.
Proof.
  unfold split_last. destruct (reverse command) as [|b rest] eqn:E.
  - rewrite <- (reverse_involutive command), E. done.
  - rewrite <- (reverse_involutive command), E. by rewrite reverse_cons.
Qed.

(** A command phase that succeeds ends with GO after exactly the command. *)
Lemma send_spec command t t' r :
  ti_base t = base -> fv_pending (view t) = [] -> fv_response (view t) = None -> send command t = (t', r) ->
  same_regs t t' /\ r <> Panic /\
  ((fv_device (view t') = fv_device (view t) /\ fv_response (view t') = None) \/
   (view t' = executed (pushed (view t) command) /\ r = Ok tt)).
Proof.
  intros Hb Hp Hrp E. unfold send in E. unfold sbind at 1, slift at 1 in E. pose proof (split_last_spec command) as Hsl.
  destruct (split_last command) as [[last body]|]; cbn [ok_or] in E; [|injection E as <- <-; split_and!; [done|done|by left]].
  unfold sbind at 1 in E. destruct (send_loop _ _ _ _ t) as [t1 r1] eqn:El.
  apply send_loop_spec in El as ([Hs1 Hs2] & Hr1 & Hd1 & Hrp1 & Hok1);
    [|done|lia|split; [lia|apply zlen_nonneg]|unfold zlen; lia].
  destruct Hr1 as [->|(c & -> & Hc)]; [injection E as <- <-; split_and!; [by split|done|left; split; congruence]|].
  specialize (Hok1 ltac:(eauto)). rewrite Z.sub_0_r, sub_all in Hok1.
  unfold sbind at 1 in E. destruct (status t1) as [t2 r2] eqn:Es.
  destruct (status_spec t1 t2 r2 ltac:(congruence) Es) as [[[Hs3 Hs4] Hv2] [->|(sts & -> & _)]];
    [injection E as <- <-; rewrite Hv2; split_and!; [split; congruence|done|left; split; congruence]|].
  destruct (negb (all_set sts EXPECT));
    [injection E as <- <-; rewrite Hv2; split_and!; [split; congruence|done|left; split; congruence]|].
  unfold sbind at 1 in E. destruct (credit c t2) as [t3 r3] eqn:Ec.
  destruct (credit_spec c t2 t3 r3 ltac:(congruence) Hc Ec) as [[[Hs5 Hs6] Hv3] [->|(c3 & -> & _)]];
    [injection E as <- <-; rewrite Hv3, Hv2; split_and!; [split; congruence|done|left; split; congruence]|].
  unfold sbind at 1, store at 1 in E. set (t4 := wr DATA_FIFO last t3) in *.
  assert (Hv4 : view t4 = pushed (view t) command).
  { unfold t4. rewrite view_wr, reg_reg_at, write_data by congruence. change (fifo_view (ti_hw t3)) with (view t3).
    rewrite Hv3, Hv2, Hok1. unfold pushed. cbn [fv_device fv_pending fv_response fv_read]. by rewrite <- app_assoc, <- Hsl. }
  assert (Hb4 : ti_base t4 = base) by (cbn; congruence).
  unfold sbind at 1 in E. destruct (status t4) as [t5 r5] eqn:Es5.
  destruct (status_spec t4 t5 r5 Hb4 Es5) as [[[Hs7 Hs8] Hv5] Hr5].
  assert (Hleft : fv_device (view t5) = fv_device (view t) /\ fv_response (view t5) = None) by (rewrite Hv5, Hv4; cbn; auto).
  assert (Hregs : same_regs t t5) by (split; cbn in *; congruence).
  destruct Hr5 as [->|(sts5 & -> & _)]; [injection E as <- <-; split_and!; [done|done|by left]|].
  destruct (all_set sts5 EXPECT); [injection E as <- <-; split_and!; [done|done|by left]|]. unfold store in E. injection E as <- <-.
  split_and!; [apply Hregs|done|]. rewrite view_wr, reg_reg_at by congruence.
  destruct (write_go (ti_locality t5) (ti_hw t5)) as [Hg|Hg]; rewrite Hg; [by left|right]. split; [|done].
  change (fifo_view (ti_hw t5)) with (view t5). by rewrite Hv5, Hv4.
Qed.

Lemma upd_upd_next (l x y : list Z) off :
  0 <= off -> off + zlen x + zlen y <= zlen l -> upd (upd l off x) (off + zlen x) y = upd l off (x ++ y).
Proof.
  intros Ho Hl. pose proof (zlen_nonneg x). pose proof (zlen_nonneg y).
  apply list_eq. intros i. rewrite lookup_upd by (rewrite ?zlen_upd; lia). rewrite !lookup_upd by (rewrite ?zlen_app; lia).
  unfold zlen in *. rewrite length_app. repeat case_decide; try lia; try done.
  - rewrite lookup_app_r by lia. f_equal. lia.
  - by rewrite lookup_app_l by lia.
Qed.

Lemma receive_loop_spec fuel at_ len received c rp t buf t' buf' r :
  ti_base t = base -> fv_response (view t) = Some rp -> 0 <= at_ -> at_ + len <= zlen buf -> 0 <= received <= len -> 0 <= c ->
  len - received <= Z.of_nat fuel -> receive_loop fuel at_ len received c (t, buf) = ((t', buf'), r) ->
  same_regs t t' /\ fv_device (view t') = fv_device (view t) /\ fv_response (view t') = Some rp /\
  zlen buf' = zlen buf /\ (bytes_ok buf -> bytes_ok buf') /\
  (r = Err TpmTimeout \/ r = Err TpmProtocol \/ exists c', r = Ok c' /\ 0 <= c') /\
  ((exists c', r = Ok c') -> bytes_ok rp -> Z.of_nat (fv_read (view t)) + (len - received) <= zlen rp ->
     Z.of_nat (fv_read (view t')) = Z.of_nat (fv_read (view t)) + (len - received) /\
     buf' = upd buf (at_ + received) (sub rp (Z.of_nat (fv_read (view t))) (len - received))).
Proof.
  revert received c t buf. induction fuel as [|fuel IH]; intros received c t buf Hb Hrp Ha Hal Hrec Hc Hf E; cbn [receive_loop] in E.
  all: destruct (len <=? received) eqn:E0; bool_hyp.
  1, 3: injection E as <- <- <-; replace (len - received) with 0 by lia; split_and!;
    [done|done|done|done|done|right; right; eauto|]; intros _ _ _; split; [lia|]; rewrite sub_nil; unfold upd; cbn [length app];
    by rewrite Nat.add_0_r, take_drop.
  - lia.
  - unfold sbind at 1, on_tis at 1 in E. destruct (status t) as [t1 r1] eqn:Es.
    destruct (status_spec t t1 r1 Hb Es) as [[Hs1 Hv1] Hr1].
    destruct Hr1 as [->|(sts & -> & _)];
      [injection E as <- <- <-; rewrite Hv1; split_and!; [done|done|done|done|done|by left|by intros [? [=]]]|].
    destruct (negb (all_set sts DATA_AVAIL));
      [injection E as <- <- <-; rewrite Hv1; split_and!; [done|done|done|done|done|by right; left|by intros [? [=]]]|].
    assert (Hb1 : ti_base t1 = base) by (destruct Hs1; congruence).
    unfold sbind at 1, on_tis at 1 in E. destruct (credit c t1) as [t2 r2] eqn:Ec.
    destruct (credit_spec c t1 t2 r2 Hb1 Hc Ec) as [[[Hs2 Hs2'] Hv2] [->|(c1 & -> & Hpos)]].
    { injection E as <- <- <-. rewrite Hv2, Hv1. split_and!; [split; destruct Hs1; congruence|done|done|done|done|by left|by intros [? [=]]]. }
    set (burst := Z.min c1 (len - received)) in *. unfold sbind at 1 in E.
    destruct (read_fifo (Z.to_nat burst) t2) as [t3 bs] eqn:Ef.
    destruct (read_fifo_spec (Z.to_nat burst) t2 t3 bs ltac:(congruence) Ef) as ([Hs3 Hs3'] & Hv3 & Hl & Hok & Hbs).
    assert (Hzb : zlen bs = burst) by (unfold zlen; lia).
    assert (Hzu : zlen (upd buf (at_ + received) bs) = zlen buf) by (apply zlen_upd; lia).
    apply IH in E as (Hs4 & Hd & Hrp' & Hz & Hbok & Hr & Hval);
      [|congruence|by rewrite Hv3, Hv2, Hv1|done|by rewrite Hzu|lia|lia|lia].
    rewrite Hv3 in Hd, Hval. cbn [pulled fv_device fv_read] in Hd, Hval. rewrite Hv2, Hv1 in Hd, Hval.
    split_and!; [destruct Hs1, Hs4; split; congruence|done|done|by rewrite Hz, Hzu| |done|].
    + intros Hbo. apply Hbok. by apply bytes_ok_upd.
    + intros Hr' Hbr Hle. rewrite Hv2, Hv1 in Hbs. destruct (Hval Hr' Hbr) as [Hrd Hbuf]; [lia|]. split; [lia|].
      rewrite Hbuf. specialize (Hbs rp Hrp Hbr ltac:(unfold zlen in Hle; lia)).
      assert (Eb : bs = sub rp (Z.of_nat (fv_read (view t))) burst) by (unfold sub; by rewrite Nat2Z.id).
      replace (Z.of_nat (fv_read (view t) + Z.to_nat burst)) with (Z.of_nat (fv_read (view t)) + burst) by lia.
      replace (at_ + (received + burst)) with (at_ + received + zlen bs) by lia.
      rewrite upd_upd_next; [|lia|rewrite zlen_sub; lia]. f_equal.
      replace (len - received) with (burst + (len - (received + burst))) by lia. rewrite sub_split by lia. by rewrite <- Eb.
Qed.

Lemma receive_into_spec at_ len c rp t buf t' buf' r :
  ti_base t = base -> fv_response (view t) = Some rp -> 0 <= at_ -> at_ + len <= zlen buf -> 0 <= len -> 0 <= c ->
  receive_into at_ len c (t, buf) = ((t', buf'), r) ->
  same_regs t t' /\ fv_device (view t') = fv_device (view t) /\ fv_response (view t') = Some rp /\
  zlen buf' = zlen buf /\ (bytes_ok buf -> bytes_ok buf') /\
  (r = Err TpmTimeout \/ r = Err TpmProtocol \/ exists c', r = Ok c' /\ 0 <= c') /\
  ((exists c', r = Ok c') -> bytes_ok rp -> Z.of_nat (fv_read (view t)) + len <= zlen rp ->
     Z.of_nat (fv_read (view t')) = Z.of_nat (fv_read (view t)) + len /\
     buf' = upd buf at_ (sub rp (Z.of_nat (fv_read (view t))) len)).
Proof.
  intros Hb Hrp Ha Hal Hl Hc E. unfold receive_into in E.
  apply (receive_loop_spec _ _ _ _ _ rp) in E as (H1 & H2 & H3 & H4 & H5 & H6 & H7); try done; try lia.
  split_and!; auto. rewrite Z.sub_0_r, Z.add_0_r in H7. done.
Qed.

(** What one attempt at the response leaves, whatever its outcome. *)
Record attempted (rp : list Z) (t : Tis H) (buf : list Z) (t' : Tis H) (buf' : list Z) (r : res TpmError Z) : Prop := {
  at_regs : same_regs t t';
  at_device : fv_device (view t') = fv_device (view t);
  at_response : fv_response (view t') = Some rp;
  at_len : zlen buf' = zlen buf;
  at_bytes : bytes_ok buf -> bytes_ok buf';
  at_no_panic : r <> Panic;
  at_size : forall n, r = Ok n -> RESPONSE_HEADER <= n <= zlen buf
}.

Lemma receive_once_spec rp t buf t' buf' r :
  ti_base t = base -> fv_response (view t) = Some rp -> receive_once (t, buf) = ((t', buf'), r) ->
  attempted rp t buf t' buf' r /\
  (complete rp -> fv_read (view t) = 0%nat -> forall n, r = Ok n -> n = zlen rp /\ sub buf' 0 n = rp).
Proof.
  intros Hb Hrp E. unfold receive_once in E. unfold sbind at 1, buffer at 1 in E. cbn [snd] in E.
  unfold sbind at 1, slift at 1 in E. destruct (get_range buf 0 RESPONSE_HEADER) as [hd|] eqn:Eg; cbn [ok_or] in E.
  2:{ injection E as <- <- <-. split; [by constructor|]. intros _ _ n [=]. }
  apply get_range_Some in Eg as (_ & Hlen & _). unfold RESPONSE_HEADER in *.
  unfold sbind at 1 in E. destruct (receive_into 0 10 0 (t, buf)) as [[t1 buf1] r1] eqn:E1.
  destruct (receive_into_spec 0 10 0 rp t buf t1 buf1 r1 Hb Hrp ltac:(lia) ltac:(lia) ltac:(lia) ltac:(lia) E1)
    as ([Hs1 Hs1'] & Hd1 & Hrp1 & Hz1 & Hb1 & Hr1 & Hval1).
  destruct Hr1 as [->|[->|(c1 & -> & Hc1)]]; [injection E as <- <- <-; by (split; [constructor|])..|].
  unfold sbind at 1, buffer at 1 in E. cbn [snd] in E. set (size := be_dec (sub buf1 2 4)) in *.
  destruct (size <? 10) eqn:Esz; [injection E as <- <- <-; by (split; [constructor|])|]. bool_hyp.
  unfold sbind at 1, slift at 1 in E. destruct (get_range buf1 10 size) as [rest|] eqn:Eg2; cbn [ok_or] in E.
  2:{ injection E as <- <- <-. by (split; [constructor|]). }
  apply get_range_Some in Eg2 as (_ & Hlen2 & _).
  unfold sbind at 1 in E. destruct (receive_into 10 (size - 10) c1 (t1, buf1)) as [[t2 buf2] r2] eqn:E2.
  destruct (receive_into_spec 10 (size - 10) c1 rp t1 buf1 t2 buf2 r2 ltac:(congruence) Hrp1 ltac:(lia) ltac:(lia) ltac:(lia) Hc1 E2)
    as ([Hs2 Hs2'] & Hd2 & Hrp2 & Hz2 & Hb2 & Hr2 & Hval2).
  assert (Hregs : same_regs t t2) by (split; congruence).
  destruct Hr2 as [->|[->|(c2 & -> & Hc2)]];
    [injection E as <- <- <-; (split; [constructor; auto; congruence|done])..|].
  unfold sbind at 1, on_tis at 1 in E. destruct (status t2) as [t3 r3] eqn:Es.
  destruct (status_spec t2 t3 r3 ltac:(destruct Hregs; congruence) Es) as [[[Hs3 Hs3'] Hv3] Hr3].
  assert (Hat : forall r, r <> Panic -> (forall n, r = Ok n -> n = size) -> attempted rp t buf t3 buf2 r).
  { intros x Hx Hn. constructor; rewrite ?Hv3; auto; try congruence; [destruct Hregs; split; congruence|].
    intros n Hxn. rewrite (Hn n Hxn). unfold RESPONSE_HEADER. lia. }
  destruct Hr3 as [->|(sts & -> & _)]; [injection E as <- <- <-; split; [by apply Hat|done]|].
  destruct (all_set sts DATA_AVAIL); injection E as <- <- <-; (split; [apply Hat; [done|congruence]|]); [done|].
  intros [Hcb Hch Hcs] H0 n [= <-]. unfold RESPONSE_HEADER in Hch. rewrite H0 in Hval1.
  destruct (Hval1 ltac:(eauto) Hcb ltac:(lia)) as [Hrd1 Hbuf1]. change (Z.of_nat 0) with 0 in *.
  assert (Hsize : size = zlen rp).
  { unfold size. rewrite <- Hcs, Hbuf1. f_equal. rewrite <- (sub_prefix rp 10 2 4) by lia.
    rewrite <- (sub_upd_at buf 0 (sub rp 0 10) 10) at 2 by (rewrite ?zlen_sub; lia). by rewrite sub_prefix by lia. }
  split; [done|]. rewrite Hrd1 in Hval2. destruct (Hval2 ltac:(eauto) Hcb ltac:(lia)) as [_ Hbuf2]. rewrite Hbuf2, Hbuf1.
  assert (Hz : zlen (sub rp 0 10) = 10) by (apply zlen_sub; lia).
  replace (upd (upd buf 0 (sub rp 0 10)) 10 (sub rp (0 + 10) (size - 10))) with (upd buf 0 rp).
  - rewrite Hsize. apply sub_upd_at; [done|lia|lia].
  - pose proof (upd_upd_next buf (sub rp 0 10) (sub rp (0 + 10) (size - 10)) 0 ltac:(lia)) as Hu.
    rewrite Hz, Z.add_0_l in Hu. rewrite Z.add_0_l in *. rewrite Hu by (rewrite zlen_sub; lia). f_equal.
    pose proof (sub_split rp 0 10 (size - 10) ltac:(lia) ltac:(lia) ltac:(lia)) as Hsp. rewrite Z.add_0_l in Hsp.
    rewrite <- Hsp. replace (10 + (size - 10)) with (zlen rp) by lia. by rewrite sub_all.
Qed.

Lemma attempted_trans rp t buf t1 buf1 r1 t2 buf2 r2 :
  attempted rp t buf t1 buf1 r1 -> attempted rp t1 buf1 t2 buf2 r2 -> attempted rp t buf t2 buf2 r2.
Proof.
  intros [[R1 R2] D1 P1 L1 B1 _ _] [[R3 R4] D2 P2 L2 B2 N2 S2]. constructor; auto; try congruence; [split; congruence|].
  intros n Hn. rewrite <- L1. by apply S2.
Qed.

Lemma receive_retry_spec k rp t buf r0 t' buf' r :
  ti_base t = base -> fv_response (view t) = Some rp -> attempted rp t buf t buf r0 ->
  (complete rp -> forall n, r0 = Ok n -> n = zlen rp /\ sub buf 0 n = rp) ->
  receive_retry k r0 (t, buf) = ((t', buf'), r) ->
  attempted rp t buf t' buf' r /\ (complete rp -> forall n, r = Ok n -> n = zlen rp /\ sub buf' 0 n = rp).
Proof.
  revert t buf r0. induction k as [|k IH]; intros t buf r0 Hb Hrp Hat Hok E; cbn [receive_retry] in E.
  { injection E as <- <- <-. done. }
  destruct (broke_off r0) eqn:Ebo; cbn [negb] in E; [|injection E as <- <- <-; done].
  set (t1 := wr STS RESPONSE_RETRY t) in *.
  assert (Hv1 : view t1 = Build_FifoView (fv_device (view t)) (fv_pending (view t)) (fv_response (view t)) 0).
  { unfold t1. rewrite view_wr, reg_reg_at by done. apply write_retry. }
  destruct (wait_for _ _ t1) as [t2 [ok a]] eqn:Ew.
  destruct (wait_for_quiet _ _ _ _ _ _ (on_base_reg STS _ ltac:(reflexivity)) (Hb : ti_base t1 = base) Ew) as [[[Hs2 Hs2'] Hv2] _].
  assert (Hrp2 : fv_response (view t2) = Some rp) by (by rewrite Hv2, Hv1).
  assert (Hat2 : attempted rp t buf t2 buf r0).
  { destruct Hat. constructor; auto; [split; cbn in *; congruence|by rewrite Hv2, Hv1]. }
  destruct ok.
  - destruct (receive_once (t2, buf)) as [[t3 buf3] r3] eqn:Eo. assert (Hb2 : ti_base t2 = base) by (cbn in *; congruence).
    destruct (receive_once_spec rp t2 buf t3 buf3 r3 Hb2 Hrp2 Eo) as [Hat3 Hval3].
    assert (Hb3 : ti_base t3 = base) by (destruct (at_regs _ _ _ _ _ _ Hat3); congruence).
    apply IH in E as [Hat4 Hval4].
    + split; [|done]. eapply attempted_trans; [exact Hat2|]. by eapply attempted_trans.
    + done.
    + apply (at_response _ _ _ _ _ _ Hat3).
    + destruct Hat3. constructor; auto; [done|]. intros n Hn. rewrite at_len0. auto.
    + intros Hcp. apply Hval3; [done|]. by rewrite Hv2, Hv1.
  - injection E as <- <- <-. split; [done|]. intros Hcp n ->. done.
Qed.

Lemma receive_none t buf t' buf' r :
  ti_base t = base -> fv_response (view t) = None -> receive (t, buf) = ((t', buf'), r) ->
  same_regs t t' /\ fv_device (view t') = fv_device (view t) /\ buf' = buf /\ r = Err TpmTimeout.
Proof.
  intros Hb Hn E. unfold receive, sbind, on_tis in E. destruct (waited _ _ t) as [t1 r1] eqn:Ew.
  destruct (wait_avail_spec _ _ _ _ _ Hb Ew) as [[Hs Hv] [->|(v & -> & rp & Hrp)]].
  - injection E as <- <- <-. by rewrite Hv.
  - rewrite Hv in Hrp. congruence.
Qed.

Lemma receive_some rp t buf t' buf' r :
  ti_base t = base -> fv_response (view t) = Some rp -> fv_read (view t) = 0%nat -> receive (t, buf) = ((t', buf'), r) ->
  attempted rp t buf t' buf' r /\ (complete rp -> forall n, r = Ok n -> n = zlen rp /\ sub buf' 0 n = rp).
Proof.
  intros Hb Hrp H0 E. unfold receive, sbind, on_tis in E. destruct (waited _ _ t) as [t1 r1] eqn:Ew.
  destruct (wait_avail_spec _ _ _ _ _ Hb Ew) as [[Hs Hv] Hr].
  assert (Hb1 : ti_base t1 = base) by (destruct Hs; congruence).
  assert (Hat1 : attempted rp t buf t1 buf (Err TpmTimeout)) by (constructor; by rewrite ?Hv).
  destruct Hr as [->|(v & -> & _)]; [injection E as <- <- <-; by split|].
  destruct (receive_once (t1, buf)) as [[t2 buf2] r2] eqn:Eo.
  destruct (receive_once_spec rp t1 buf t2 buf2 r2 Hb1 ltac:(by rewrite Hv) Eo) as [Hat2 Hval2].
  apply (receive_retry_spec _ rp) in E as [Hat3 Hval3].
  - split; [|done]. eapply attempted_trans; [exact Hat1|]. by eapply attempted_trans.
  - destruct (at_regs _ _ _ _ _ _ Hat2). congruence.
  - apply (at_response _ _ _ _ _ _ Hat2).
  - destruct Hat2. constructor; auto; [done|]. intros n Hn. rewrite at_len0. auto.
  - intros Hcp. apply Hval2; [done|]. by rewrite Hv.
Qed.

(** What an exchange does to the TPM and to the buffer. *)
Record exchanged (cmd : list Z) (t : Tis H) (buf : list Z) (t' : Tis H) (buf' : list Z) (r : res TpmError Z) : Prop := {
  ex_regs : same_regs t t';
  ex_once : fv_device (view t') = fv_device (view t) \/ fv_device (view t') = fst (fifo_exec cmd (fv_device (view t)));
  ex_len : zlen buf' = zlen buf;
  ex_bytes : bytes_ok buf -> bytes_ok buf';
  ex_no_panic : r <> Panic;
  ex_fits : forall n, r = Ok n -> RESPONSE_HEADER <= n <= zlen buf;
  ex_done : forall n, r = Ok n -> fv_device (view t') = fst (fifo_exec cmd (fv_device (view t))) /\
    (complete (snd (fifo_exec cmd (fv_device (view t)))) -> sub buf' 0 n = snd (fifo_exec cmd (fv_device (view t))))
}.

Lemma exchange_failed cmd t buf t' e :
  same_regs t t' -> fv_device (view t') = fv_device (view t) -> exchanged cmd t buf t' buf (Err e).
Proof. intros. by constructor; auto. Qed.

Lemma exchange_spec cmd t buf t' buf' r :
  ti_base t = base -> exchange cmd (t, buf) = ((t', buf'), r) -> exchanged cmd t buf t' buf' r.
Proof.
  intros Hb E. unfold exchange in E. unfold sbind at 1, on_tis at 1 in E. destruct (ready t) as [t1 r1] eqn:Er.
  destruct (ready_spec t t1 r1 Hb Er) as ([Hs1 Hs1'] & Hd1 & [->|(-> & Hp1 & Hrp1)]).
  { injection E as <- <- <-. by apply exchange_failed. }
  unfold sbind at 1, on_tis at 1 in E. destruct (send cmd t1) as [t2 r2] eqn:Es.
  destruct (send_spec cmd t1 t2 r2 ltac:(congruence) Hp1 Hrp1 Es) as ([Hs2 Hs2'] & Hnp & Hcase).
  assert (Hregs : same_regs t t2) by (split; congruence). assert (Hb2 : ti_base t2 = base) by congruence.
  destruct Hcase as [[Hd2 Hrp2]|[Hv2 ->]].
  - destruct r2 as [[]|e|]; [|injection E as <- <- <-; apply exchange_failed; [done|congruence]|done].
    destruct (receive_none t2 buf t' buf' r Hb2 Hrp2 E) as ([Hs3 Hs3'] & Hd3 & -> & ->).
    apply exchange_failed; [split; destruct Hregs; congruence|congruence].
  - set (d := fv_device (view t1)) in *.
    assert (Hx : view t2 = Build_FifoView (fst (fifo_exec cmd d)) [] (Some (snd (fifo_exec cmd d))) 0).
    { rewrite Hv2. unfold executed, pushed. cbn [fv_device fv_pending]. by rewrite Hp1. }
    destruct (receive_some (snd (fifo_exec cmd d)) t2 buf t' buf' r Hb2 ltac:(by rewrite Hx) ltac:(by rewrite Hx) E) as [[[Hs3 Hs3'] Hd3 _ Hl Hbo Hn Hz] Hval].
    rewrite Hx in Hd3. cbn [fv_device] in Hd3. constructor; rewrite <- ?Hd1; fold d; auto.
    + split; destruct Hregs; congruence.
    + intros n Hr. split; [done|]. intros Hc. by destruct (Hval Hc n Hr).
Qed.

(** The driver as a transport: one command, executed at most once. *)
Lemma tis_transmit_spec cmd t buf t' buf' r :
  ti_base t = base -> tis_transmit cmd (t, buf) = ((t', buf'), r) -> exchanged cmd t buf t' buf' r.
Proof.
  intros Hb E. unfold tis_transmit in E. unfold sbind at 1, on_tis at 1 in E.
  destruct (request_locality t) as [t1 r1] eqn:El. destruct (request_locality_spec t t1 r1 Hb El) as ([Hs1 Hs1'] & Hd1 & Hn1).
  destruct r1 as [[]|e|]; [|injection E as <- <- <-; by apply exchange_failed|done].
  destruct (exchange cmd (t1, buf)) as [[t2 buf2] r2] eqn:Ex. injection E as <- <- <-.
  assert (Hb1 : ti_base t1 = base) by congruence.
  destruct (exchange_spec cmd t1 buf t2 buf2 r2 Hb1 Ex) as [[Hs2 Hs2'] Ho Hl Hbo Hn Hf Hd].
  assert (Hv : fv_device (view (wr STS COMMAND_READY t2)) = fv_device (view t2)).
  { rewrite view_wr, reg_reg_at by congruence. apply write_ready. }
  rewrite Hd1 in Ho, Hd. constructor; rewrite ?Hv; auto. split; cbn; congruence.
Qed.

Lemma release_spec t : ti_base t = base -> fv_device (view (release_locality t)) = fv_device (view t).
Proof. intros Hb. unfold release_locality. rewrite view_wr, reg_reg_at by done. apply write_access. Qed.
End driver.

(** ** The driver as a transport *)

(** The TPM behind the interface, and what its commands do. *)
Class ExecLaws (PH : PcrHash) (H M : Type) (F : FifoTpm H M) (D : TpmDevice M) : Prop := {
  exec_complete cmd m : complete (snd (fifo_exec cmd m));
  exec_performed cmd m body : response_body (snd (fifo_exec cmd m)) = Ok body -> performs (meaning cmd) m (fst (fifo_exec cmd m));
  exec_told cmd m body : response_body (snd (fifo_exec cmd m)) = Ok body -> told cmd body (fst (fifo_exec cmd m));
  exec_refused cmd m code : response_body (snd (fifo_exec cmd m)) = Err (TpmCode code) ->
    same_pcrs m (fst (fifo_exec cmd m)) /\ locks_kept m (fst (fifo_exec cmd m));
  exec_locks cmd m : harmless (meaning cmd) = true -> locks_kept m (fst (fifo_exec cmd m));
  exec_pcrs cmd m : extends_pcr (meaning cmd) = false -> same_pcrs m (fst (fifo_exec cmd m))
}.

Section transport.
Context {PH : PcrHash} {H M : Type} {B : Bus H} {F : FifoTpm H M} {D : TpmDevice M} (base : Z).

(** A driver whose base address is fixed: its locality and the hardware. *)
Definition at_base (s : Z * H) : Tis H := Build_Tis base (fst s) (snd s).

Definition tis_at : Transport (Z * H) := {|
  transmit cmd := fun '(s, buf) =>
    let '((t, buf), r) := tis_transmit cmd (at_base s, buf) in (((ti_locality t, ti_hw t), buf), r);
  wait_ms ms s := (fst s, delay_ms ms (snd s));
  release s := let t := release_locality (at_base s) in (ti_locality t, ti_hw t)
|}.

Definition behind (s : Z * H) : M := fv_device (fifo_view (snd s)).

Definition tis_device : TpmDevice (Z * H) := {|
  has_pcr := has_pcr; pcr s := pcr (behind s); disabled s := disabled (behind s); auth_set s := auth_set (behind s);
  presence_asserted s := presence_asserted (behind s); presence_barred s := presence_barred (behind s)
|}.

(** The relations on the TPM, seen through the interface. *)
Lemma locks_behind s s' : @locks_kept M D (behind s) (behind s') -> @locks_kept _ tis_device s s'.
Proof. intros [? ? ? ?]. by constructor. Qed.

Lemma locks_same s s' : behind s' = behind s -> @locks_kept _ tis_device s s'.
Proof. intros Hb. apply locks_behind. rewrite Hb. by constructor. Qed.

Lemma pcrs_same s s' : behind s' = behind s -> @same_pcrs _ tis_device s s'.
Proof. intros Hb a i _. cbn. by rewrite Hb. Qed.

Lemma performs_behind e s s' : @performs _ M D e (behind s) (behind s') -> @performs _ _ tis_device e s s'.
Proof.
  destruct e; cbn; intros Hp; try done.
  1, 2, 3, 6: destruct Hp as [Hl Hp]; split; [by apply locks_behind|exact Hp].
  all: destruct Hp as [Hp Hl]; split; [exact Hp|]; intros Hs; destruct (Hl Hs) as [Hk Hd]; split; [by apply locks_behind|exact Hd].
Qed.

Lemma tis_at_spec cmd s buf s' buf' r :
  FifoLaws (M := M) base -> @transmit _ tis_at cmd (s, buf) = ((s', buf'), r) ->
  r <> Panic /\ zlen buf' = zlen buf /\ (bytes_ok buf -> bytes_ok buf') /\
  (forall n, r = Ok n -> RESPONSE_HEADER <= n <= zlen buf) /\
  (behind s' = behind s \/ behind s' = fst (fifo_exec cmd (behind s))) /\
  (forall n, r = Ok n -> behind s' = fst (fifo_exec cmd (behind s)) /\
     (complete (snd (fifo_exec cmd (behind s))) -> sub buf' 0 n = snd (fifo_exec cmd (behind s)))).
Proof.
  intros L E. cbn in E. destruct (tis_transmit cmd (at_base s, buf)) as [[t b] x] eqn:Et. injection E as <- <- <-.
  destruct (tis_transmit_spec (M := M) base cmd (at_base s) buf t b x eq_refl Et). auto 10.
Qed.

(** C14: The FIFO driver implements the transport the TPM commands rely on, for every
    device that keeps the promises of the TIS, however long it takes, whatever burst
    counts it offers and wherever a transfer breaks off: a command is executed at most
    once, an answer is the device's own and belongs to a command that was executed, and
    an answer never exceeds the caller's buffer. *)
Theorem tis_implements_transport :
  FifoLaws (M := M) base -> ExecLaws PH H M F D -> TpmLaws PH (Z * H) tis_at tis_device.
Proof.
  intros L X. constructor.
  - intros cmd m buf m' buf' r (? & ? & ? & _)%tis_at_spec; auto.
  - intros cmd m buf m' buf' len (_ & _ & _ & Hf & _)%tis_at_spec; [|done]. specialize (Hf len eq_refl).
    unfold RESPONSE_HEADER in Hf. lia.
  - intros cmd m buf m' buf' len body (_ & _ & _ & _ & _ & Hd)%tis_at_spec; [|done].
    destruct (Hd len eq_refl) as [Hb Hs]. rewrite (Hs (exec_complete cmd (behind m))). intros Hr.
    apply performs_behind. rewrite Hb. by eapply exec_performed.
  - intros cmd m buf m' buf' len body (_ & _ & _ & _ & _ & Hd)%tis_at_spec; [|done].
    destruct (Hd len eq_refl) as [Hb Hs]. rewrite (Hs (exec_complete cmd (behind m))). intros Hr.
    apply exec_told in Hr. rewrite <- Hb in Hr. by destruct Hr.
  - intros cmd m buf m' buf' len code (_ & _ & _ & _ & _ & Hd)%tis_at_spec; [|done].
    destruct (Hd len eq_refl) as [Hb Hs]. rewrite (Hs (exec_complete cmd (behind m))). intros Hr.
    destruct (exec_refused _ _ _ Hr) as [Hp Hl]. rewrite <- Hb in *. split; [exact Hp|by apply locks_behind].
  - intros cmd m buf m' buf' r (_ & _ & _ & _ & Ho & _)%tis_at_spec Hh; [|done].
    destruct Ho as [Hb|Hb]; [by apply locks_same|]. apply locks_behind. rewrite Hb. by apply exec_locks.
  - intros cmd m buf m' buf' r (_ & _ & _ & _ & Ho & _)%tis_at_spec He; [|done].
    destruct Ho as [Hb|Hb]; [by apply pcrs_same|]. pose proof (exec_pcrs cmd (behind m) He) as Hp. by rewrite <- Hb in Hp.
  - intros ms m. assert (Hb : behind (@wait_ms _ tis_at ms m) = behind m)
      by (unfold behind; cbn; by rewrite (delay_ms_quiet (base := base))).
    split; [by apply pcrs_same|by apply locks_same].
  - intros m. assert (Hb : behind (@release _ tis_at m) = behind m) by (apply (release_spec (M := M) base (at_base m) eq_refl)).
    split; [by apply pcrs_same|by apply locks_same].
Qed.
End transport.
