(* ===== verification/EventLog.v ===== *)
(** * EventLog: the TCG event log ([crates/tcg/src/log.rs], [event.rs])

    The log is written into a caller's buffer: entries of the SHA-1 format, or
    of the crypto-agile format after a first SHA-1 entry that describes the
    banks.  The abstract view of a log is the list of its entries; the theorems
    say that appending refines adding to that list, that a full log is left as
    it was, and that a reader of the whole zero-terminated area, which does not
    know how much of it is used, finds exactly the entries.

    A slice has at most [isize::MAX] bytes, so the sums of lengths stay in
    [usize] and are plain additions. *)

From S2P Require Import Prelude.
From S2P Require Import Bytes.
From S2P Require Import Crypto.
From S2P Require Import Tpm.
From Stdlib Require Import ZArith Lia.
From stdpp Require Import base numbers list option.

#[local] Open Scope Z_scope.

(** ** Event data ([event.rs]) *)

Definition EV_NO_ACTION : Z := 0x03.
Definition EV_SEPARATOR : Z := 0x04.
Definition EV_POST_CODE : Z := 0x01.
Definition EV_S_CRTM_VERSION : Z := 0x08.
Definition EV_POST_CODE2 : Z := 0x13.
Definition EV_EFI_PLATFORM_FIRMWARE_BLOB : Z := 0x80000008.
Definition EV_EFI_PLATFORM_FIRMWARE_BLOB2 : Z := 0x8000000A.

Definition MAX_EVENT_DATA : Z := 256.

(** The used part of the buffer; [push] truncates. *)
Definition event_push (data bytes : list Z) : list Z :=
  data ++ take (Z.to_nat (MAX_EVENT_DATA - zlen data)) bytes.

Definition blob2 (description : list Z) (base length : Z) : list Z :=
  let description := take (Z.to_nat (MAX_EVENT_DATA - 17)) description in
  event_push (event_push (event_push (event_push [] [zlen description mod 2 ^ 8]) description)
    (le_enc 8 base)) (le_enc 8 length).

Definition blob (base length : Z) : list Z := event_push (event_push [] (le_enc 8 base)) (le_enc 8 length).

Definition tagged (tag : Z) (data : list Z) : list Z :=
  let data := take (Z.to_nat (MAX_EVENT_DATA - 8)) data in
  event_push (event_push (event_push [] (le_enc 4 tag)) (le_enc 4 (zlen data mod 2 ^ 32))) data.

(** [str::encode_utf16] of the characters of a string. *)
Definition utf16 (c : Z) : list Z :=
  if c <? 0x10000 then [c]
  else [0xD800 + Z.shiftr (c - 0x10000) 10; 0xDC00 + Z.land (c - 0x10000) 0x3FF].

Definition ucs2 (text : list Z) : list Z :=
  event_push (fold_left (fun data unit => event_push data (le_enc 2 unit)) (concat (map utf16 text)) []) [0; 0].

(** ** Digests of a measurement *)

Definition MAX_BANKS : Z := 4.

(** [(algorithm, 64-byte slot)] pairs. *)
Definition Digests : Type := list (Z * list Z).

(** Banks beyond [MAX_BANKS] are ignored; a digest larger than a slot panics. *)
Definition digests_push (ds : Digests) (alg : Z) (digest : list Z) : res TpmError Digests :=
  if zlen ds <? MAX_BANKS then
    if zlen digest <=? MAX_DIGEST_SIZE then Ok (ds ++ [(alg, upd (zeros MAX_DIGEST_SIZE) 0 digest)]) else Panic
  else Ok ds.

(** The [(algorithm, digest)] pairs. *)
Definition digests_iter (ds : Digests) : list (Z * list Z) :=
  map (fun '(alg, slot) => (alg, sub slot 0 (default 0 (digest_size alg)))) ds.

Definition digests_get (ds : Digests) (alg : Z) : option (list Z) :=
  snd <$> List.find (fun p => p.1 =? alg) (digests_iter ds).

(** ** The log *)

Inductive Format := Sha1Format | CryptoAgile.
#[export] Instance Format_eq_dec : EqDecision Format.
Proof. solve_decision. Defined.

Inductive PlatformClass := Client | Server.
Definition class_u32 (c : PlatformClass) : Z := match c with Client => 0 | Server => 1 end.

Inductive LogFull := Full.

Record EventLog := { el_buf : list Z; el_used : Z; el_last : option Z; el_format : Format }.

Section log.
Context {T : Target}.

(** The offset of the reserved entry. *)
Definition reserve (size : Z) : sres EventLog LogFull Z := fun log =>
  let start := el_used log in
  match checked_add usize_max start size with
  | None => (log, Err Full)
  | Some end_ =>
      if zlen (el_buf log) <? end_ then (log, Err Full)
      else ({| el_buf := el_buf log; el_used := end_; el_last := Some start; el_format := el_format log |}, Ok start)
  end.

(** [entry[off..].copy_from_slice(bytes)] on the entry at [start]. *)
Definition put (start off : Z) (bytes : list Z) : sres EventLog LogFull unit := fun log =>
  ({| el_buf := upd (el_buf log) (start + off) bytes; el_used := el_used log; el_last := el_last log;
      el_format := el_format log |}, Ok tt).

Definition append_sha1_entry (pcr event_type : Z) (digest event : list Z) : sres EventLog LogFull unit :=
  let! start := reserve (32 + zlen event) in
  let! _ := put start 0 (le_enc 4 pcr) in
  let! _ := put start 4 (le_enc 4 event_type) in
  let! digest := slift (or_panic (get_range digest 0 20)) in
  let! _ := put start 8 digest in
  let! _ := put start 28 (le_enc 4 (zlen event mod 2 ^ 32)) in
  put start 32 event.

(** The digests from [at_] on; the offset behind them. *)
Fixpoint put_digests (start at_ : Z) (ds : list (Z * list Z)) : sres EventLog LogFull Z :=
  match ds with
  | [] => slift (Ok at_)
  | (alg, digest) :: ds =>
      let! _ := put start at_ (le_enc 2 alg) in
      let! _ := put start (at_ + 2) digest in
      put_digests start (at_ + 2 + zlen digest) ds
  end.

Definition append (pcr event_type : Z) (digests : Digests) (event : list Z) : sres EventLog LogFull unit := fun log =>
  match el_format log with
  | Sha1Format =>
      append_sha1_entry pcr event_type (default (zeros 20) (digests_get digests ALG_SHA1)) event log
  | CryptoAgile =>
      (let digest_bytes := foldr Z.add 0 (map (fun '(_, d) => 2 + zlen d) (digests_iter digests)) in
       let! start := reserve (12 + digest_bytes + 4 + zlen event) in
       let! _ := put start 0 (le_enc 4 pcr) in
       let! _ := put start 4 (le_enc 4 event_type) in
       let! _ := put start 8 (le_enc 4 (zlen digests mod 2 ^ 32)) in
       let! at_ := put_digests start 12 (digests_iter digests) in
       let! _ := put start at_ (le_enc 4 (zlen event mod 2 ^ 32)) in
       put start (at_ + 4) event) log
  end.

Definition SPEC_ID_00 : list Z := [0x53; 0x70; 0x65; 0x63; 0x20; 0x49; 0x44; 0x20; 0x45; 0x76; 0x65; 0x6e; 0x74; 0x30; 0x30; 0].
Definition SPEC_ID_02 : list Z := [0x53; 0x70; 0x65; 0x63; 0x20; 0x49; 0x44; 0x20; 0x45; 0x76; 0x65; 0x6e; 0x74; 0x30; 0x32; 0].
Definition SPEC_ID_03 : list Z := [0x53; 0x70; 0x65; 0x63; 0x20; 0x49; 0x44; 0x20; 0x45; 0x76; 0x65; 0x6e; 0x74; 0x30; 0x33; 0].

(** The Specification ID event data of the SHA-1 format, 25 bytes. *)
Definition sha1_spec_id (class : PlatformClass) (signature : list Z) (errata fifth : Z) : list Z :=
  upd (upd (upd (zeros 25) 0 signature) 16 (le_enc 4 (class_u32 class))) 20 [2; 1; errata; fifth].

Definition cleared (buf : list Z) (format : Format) : EventLog :=
  {| el_buf := zeros (zlen buf); el_used := 0; el_last := None; el_format := format |}.

(** The log after [f], which the caller gets on success. *)
Definition started (log : EventLog) (f : sres EventLog LogFull unit) : res LogFull EventLog :=
  match f log with
  | (log, Ok _) => Ok log
  | (_, Err e) => Err e
  | (_, Panic) => Panic
  end.

Definition log_sha1 (buf : list Z) (class : PlatformClass) (uefi : bool) : res LogFull EventLog :=
  started (cleared buf Sha1Format)
    (let! _ := append_sha1_entry 0 EV_NO_ACTION (zeros 20) (sha1_spec_id class SPEC_ID_00 1 0) in
     if uefi then append_sha1_entry 0 EV_NO_ACTION (zeros 20) (sha1_spec_id class SPEC_ID_02 2 2)
     else slift (Ok tt)).

(** The [(algorithm, digest size)] pairs of the Specification ID event. *)
Fixpoint spec_banks (at_ : Z) (banks : list Z) (spec_id : list Z) : list Z * Z :=
  match banks with
  | [] => (spec_id, at_)
  | alg :: banks =>
      let size := default 0 (digest_size alg) mod 2 ^ 16 in
      spec_banks (at_ + 4) banks (upd (upd spec_id at_ (le_enc 2 alg)) (at_ + 2) (le_enc 2 size))
  end.

Definition agile_spec_id (banks : list Z) (class : PlatformClass) : list Z :=
  let spec_id := upd (upd (upd (zeros (16 + 4 + 4 + 4 + 4 * MAX_BANKS + 1)) 0 SPEC_ID_03) 16
    (le_enc 4 (class_u32 class))) 20 [0; 2; 106; 2] in
  let banks := take (Z.to_nat MAX_BANKS) banks in
  let '(spec_id, at_) := spec_banks 28 banks (upd spec_id 24 (le_enc 4 (zlen banks mod 2 ^ 32))) in
  sub spec_id 0 (at_ + 1).

Definition log_crypto_agile (buf banks : list Z) (class : PlatformClass) : res LogFull EventLog :=
  started (cleared buf CryptoAgile)
    (append_sha1_entry 0 EV_NO_ACTION (zeros 20) (agile_spec_id banks class)).

(** The entries written so far. *)
Definition log_bytes (log : EventLog) : list Z := sub (el_buf log) 0 (el_used log).
End log.

Example agile_spec_id_example :
  sub (agile_spec_id [ALG_SHA1; ALG_SHA256] Server) 16 21 =
    [1; 0; 0; 0; 0; 2; 106; 2; 2; 0; 0; 0; 4; 0; 20; 0; 0x0b; 0; 32; 0; 0].
Proof. reflexivity. Qed.

(** ** The abstract log *)

(** A log entry of either format; a SHA-1 entry has its digest under the
    algorithm SHA-1. *)
Record LogEntry := {
  le_agile : bool; le_pcr : Z; le_type : Z; le_digests : list (Z * list Z); le_data : list Z
}.

Definition agile_pieces (ds : list (Z * list Z)) : list Z := concat (map (fun '(alg, d) => le_enc 2 alg ++ d) ds).

Definition entry_bytes (e : LogEntry) : list Z :=
  le_enc 4 (le_pcr e) ++ le_enc 4 (le_type e) ++
  (if le_agile e then
     le_enc 4 (zlen (le_digests e)) ++ agile_pieces (le_digests e)
   else concat (map snd (le_digests e))) ++
  le_enc 4 (zlen (le_data e)) ++ le_data e.

Definition log_image (es : list LogEntry) : list Z := concat (map entry_bytes es).

(** [log] holds the entries [es] and nothing else. *)
Record log_holds (log : EventLog) (es : list LogEntry) : Prop := {
  lh_used : el_used log = zlen (log_image es);
  lh_room : el_used log <= zlen (el_buf log);
  lh_buf : el_buf log = log_image es ++ zeros (zlen (el_buf log) - el_used log)
}.

Lemma log_image_snoc es e : log_image (es ++ [e]) = log_image es ++ entry_bytes e.
Proof. unfold log_image. rewrite map_app, concat_app. cbn [map concat]. by rewrite app_nil_r. Qed.

Lemma log_bytes_holds log es : log_holds log es -> log_bytes log = log_image es.
Proof.
  intros [Hu _ Hb]. unfold log_bytes. rewrite Hu, Hb. by apply sub_app_exact.
Qed.

(** *** Filling a reserved entry

    [written log start k rest p]: of the entry at [start], [p] is written and
    [rest] bytes are still zero. *)
Definition written (log : EventLog) (start rest : Z) (pre p : list Z) : Prop :=
  el_buf log = pre ++ p ++ zeros rest ++ zeros (zlen (el_buf log) - el_used log) /\
  zlen pre = start /\ 0 <= rest /\ start + zlen p + rest = el_used log /\ el_used log <= zlen (el_buf log).

Lemma reserve_Ok {T : Target} size log es start log' :
  0 <= size -> log_holds log es -> reserve size log = (log', Ok start) ->
  written log' start size (log_image es) [] /\ start = el_used log /\
  el_last log' = Some start /\ el_format log' = el_format log /\ zlen (el_buf log') = zlen (el_buf log).
Proof.
  intros Hs [Hu Hr Hb] H. unfold reserve in H. destruct (checked_add _ _ _) as [end_|] eqn:Ha; [|done].
  apply checked_add_Some in Ha as [-> _]. destruct (Z.ltb_spec (zlen (el_buf log)) (el_used log + size)); [done|].
  injection H as <- <-. cbn. split_and!; try done.
  unfold written. cbn [el_buf el_used]. change (zlen (@nil Z)) with 0. split_and!; try lia.
  rewrite Hb at 1. f_equal. rewrite app_nil_l.
  rewrite <- zeros_add by lia. f_equal. lia.
Qed.

(** All but the bytes. *)
Record same_frame (log log' : EventLog) : Prop := {
  fr_used : el_used log' = el_used log; fr_last : el_last log' = el_last log;
  fr_format : el_format log' = el_format log; fr_size : zlen (el_buf log') = zlen (el_buf log)
}.

Lemma same_frame_trans l1 l2 l3 : same_frame l1 l2 -> same_frame l2 l3 -> same_frame l1 l3.
Proof. intros [] []. constructor; congruence. Qed.

Lemma put_spec log start off k rest pre p (Q : EventLog * res LogFull unit -> Prop) :
  written log start rest pre p -> off = zlen p -> zlen k <= rest ->
  (forall log', written log' start (rest - zlen k) pre (p ++ k) -> same_frame log log' -> Q (log', Ok tt)) ->
  Q (put start off k log).
Proof.
  intros (Hb & Hp & Hr & Hu & Hz) -> Hk HQ. apply HQ; clear Q HQ.
  all: pose proof (zlen_nonneg k); pose proof (zlen_nonneg pre); pose proof (zlen_nonneg p).
  all: assert (Hzl : zlen (upd (el_buf log) (start + zlen p) k) = zlen (el_buf log)) by (apply zlen_upd; lia).
  2: by constructor.
  unfold written. cbn [el_buf el_used]. rewrite Hzl. rewrite zlen_app. split_and!; try (done || lia).
  set (tail := zeros (zlen (el_buf log) - el_used log)) in *.
  rewrite Hb. replace rest with (zlen k + (rest - zlen k)) at 1 by lia. rewrite zeros_add by lia.
  rewrite <- app_assoc, (app_assoc pre p), <- Hp, <- zlen_app. rewrite upd_middle by (rewrite zlen_zeros by lia; done).
  by rewrite <- !app_assoc.
Qed.

Lemma put_then {A} log start off k rest pre p (K : unit -> sres EventLog LogFull A) (Q : EventLog * res LogFull A -> Prop) :
  written log start rest pre p -> off = zlen p -> zlen k <= rest ->
  (forall log', written log' start (rest - zlen k) pre (p ++ k) -> same_frame log log' -> Q (K tt log')) ->
  Q (sbind (put start off k) K log).
Proof.
  intros Hw Ho Hk HQ. unfold sbind.
  apply (put_spec log start off k rest pre p (fun o => Q (match o with (s, Ok a) => K a s | (s, Err e) => (s, Err e)
    | (s, Panic) => (s, Panic) end)) Hw Ho Hk HQ).
Qed.

(** A completed entry. *)
Lemma written_holds log start es e p :
  written log start 0 (log_image es) p -> p = entry_bytes e -> log_holds log (es ++ [e]).
Proof.
  intros (Hb & Hp & _ & Hu & Hz) ->. change (zeros 0) with (@nil Z) in Hb.
  constructor; rewrite ?log_image_snoc, ?zlen_app; [lia|done|]. by rewrite <- app_assoc.
Qed.

(** *** Appending *)

(** The log after a successful or a refused [append]: the entry is added whole,
    or nothing is changed and there was no room for it. *)
Definition appended {T : Target} (log : EventLog) (es : list LogEntry) (e : LogEntry)
    (out : EventLog * res LogFull unit) : Prop :=
  match out with
  | (log', Ok _) => log_holds log' (es ++ [e]) /\ el_last log' = Some (el_used log) /\
      el_format log' = el_format log /\ zlen (el_buf log') = zlen (el_buf log)
  | (log', Err Full) => log' = log /\
      (zlen (el_buf log) < el_used log + zlen (entry_bytes e) \/ usize_max < el_used log + zlen (entry_bytes e))
  | (_, Panic) => False
  end.

Definition sha1_entry (pcr event_type : Z) (digest event : list Z) : LogEntry :=
  {| le_agile := false; le_pcr := pcr; le_type := event_type; le_digests := [(ALG_SHA1, digest)]; le_data := event |}.

Definition agile_entry (pcr event_type : Z) (ds : list (Z * list Z)) (event : list Z) : LogEntry :=
  {| le_agile := true; le_pcr := pcr; le_type := event_type; le_digests := ds; le_data := event |}.

Lemma reserve_Full {T : Target} size log log' e :
  reserve size log = (log', Err e) ->
  log' = log /\ (zlen (el_buf log) < el_used log + size \/ usize_max < el_used log + size).
Proof.
  unfold reserve. destruct (checked_add _ _ _) as [end_|] eqn:Ha.
  - apply checked_add_Some in Ha as [-> _]. destruct (Z.ltb_spec (zlen (el_buf log)) (el_used log + size)); [|done].
    intros [= <-]. auto.
  - apply checked_add_None in Ha. intros [= <-]. auto.
Qed.

Lemma append_sha1_spec {T : Target} log es pcr event_type digest event :
  log_holds log es -> 20 <= zlen digest ->
  appended log es (sha1_entry pcr event_type (sub digest 0 20) event)
    (append_sha1_entry pcr event_type digest event log).
Proof.
  intros Hh Hd. unfold append_sha1_entry. set (e := sha1_entry _ _ _ _). pose proof (zlen_nonneg event).
  assert (Hd20 : zlen (sub digest 0 20) = 20) by (apply zlen_sub; lia).
  assert (Hsz : zlen (entry_bytes e) = 32 + zlen event).
  { unfold entry_bytes, e, sha1_entry. cbn [le_agile le_pcr le_type le_digests le_data map concat snd].
    rewrite !zlen_app, !zlen_le_enc, Hd20, zlen_nil. lia. }
  destruct (reserve (32 + zlen event) log) as [log1 [start|[]|]] eqn:Hres.
  2:{ unfold sbind. rewrite Hres. apply reserve_Full in Hres. unfold appended. by rewrite Hsz. }
  2:{ unfold reserve in Hres. by repeat case_match. }
  unfold sbind at 1. rewrite Hres. apply (reserve_Ok _ _ es) in Hres as (Hw & -> & Hlast & Hfmt & Hz); [|lia|done].
  eapply put_then; [exact Hw|done|rewrite zlen_le_enc; lia|]. intros log2 Hw2 Hf2.
  eapply put_then; [exact Hw2|done|rewrite !zlen_le_enc; lia|]. intros log3 Hw3 Hf3.
  unfold sbind at 1, slift at 1. unfold get_range. guard_true. cbn [or_panic].
  eapply put_then; [exact Hw3|done|rewrite !zlen_le_enc, Z.sub_0_r, Hd20; lia|]. intros log4 Hw4 Hf4.
  eapply put_then; [exact Hw4|rewrite !zlen_app, !zlen_le_enc, Z.sub_0_r, Hd20; done
    |rewrite !zlen_le_enc, Z.sub_0_r, Hd20; lia|]. intros log5 Hw5 Hf5.
  eapply put_spec; [exact Hw5|rewrite !zlen_app, !zlen_le_enc, Z.sub_0_r, Hd20; done
    |rewrite !zlen_le_enc, Z.sub_0_r, Hd20; lia|]. intros log6 Hw6 Hf6.
  pose proof (same_frame_trans _ _ _ Hf2 (same_frame_trans _ _ _ Hf3 (same_frame_trans _ _ _ Hf4
    (same_frame_trans _ _ _ Hf5 Hf6)))) as [Fu Fl Ff Fz].
  split_and!; [|congruence|congruence|congruence].
  rewrite !zlen_le_enc, Z.sub_0_r, Hd20 in Hw6.
  replace (32 + zlen event - Z.of_nat 4 - Z.of_nat 4 - 20 - Z.of_nat 4 - zlen event) with 0 in Hw6 by lia.
  eapply written_holds; [exact Hw6|]. unfold entry_bytes, e, sha1_entry. cbn [le_agile le_pcr le_type le_digests le_data map concat snd].
  rewrite (le_enc_mod 4). by rewrite app_nil_r, app_nil_l, <- !app_assoc.
Qed.

Lemma put_digests_then {A} ds : forall log start at_ rest pre p (K : Z -> sres EventLog LogFull A)
    (Q : EventLog * res LogFull A -> Prop),
  written log start rest pre p -> at_ = zlen p -> zlen (agile_pieces ds) <= rest ->
  (forall log', written log' start (rest - zlen (agile_pieces ds)) pre (p ++ agile_pieces ds) ->
     same_frame log log' -> Q (K (at_ + zlen (agile_pieces ds)) log')) ->
  Q (sbind (put_digests start at_ ds) K log).
Proof.
  induction ds as [|[alg d] ds IH]; intros log start at_ rest pre p K Q Hw Hat Hrest HQ; unfold agile_pieces in *;
    cbn [put_digests map concat] in *.
  { rewrite zlen_nil, Z.sub_0_r, app_nil_r, Z.add_0_r in HQ. apply HQ; [done|by constructor]. }
  rewrite <- app_assoc, !zlen_app, zlen_le_enc in *. pose proof (zlen_nonneg d).
  set (tail := concat _) in *. pose proof (zlen_nonneg tail).
  assert (Hassoc : forall (f : sres EventLog LogFull unit) (g : unit -> sres EventLog LogFull unit)
    (h : unit -> sres EventLog LogFull Z) s,
    sbind (sbind f (fun x => sbind (g x) h)) K s = sbind f (fun x => sbind (g x) (fun y => sbind (h y) K)) s).
  { intros f g h s. unfold sbind. destruct (f s) as [s1 [a|e|]]; [|done..]. by destruct (g a s1) as [s2 [b|e|]]. }
  rewrite Hassoc. eapply put_then; [exact Hw|done|rewrite zlen_le_enc; lia|]. intros log2 Hw2 Hf2.
  eapply put_then; [exact Hw2|rewrite zlen_app, zlen_le_enc; lia|rewrite zlen_le_enc; lia|]. intros log3 Hw3 Hf3.
  eapply IH; [exact Hw3|rewrite !zlen_app, zlen_le_enc; lia|rewrite zlen_le_enc; lia|]. intros log4 Hw4 Hf4.
  replace (at_ + 2 + zlen d + zlen tail) with (at_ + (Z.of_nat 2 + (zlen d + zlen tail))) by lia. apply HQ.
  - rewrite zlen_le_enc in Hw4. rewrite <- !app_assoc in Hw4.
    by replace (rest - (Z.of_nat 2 + (zlen d + zlen tail))) with (rest - Z.of_nat 2 - zlen d - zlen tail) by lia.
  - by eapply same_frame_trans; [|eapply same_frame_trans].
Qed.

Lemma agile_length ds : foldr Z.add 0 (map (fun '(_, d) => 2 + zlen d) ds) = zlen (agile_pieces ds).
Proof.
  unfold agile_pieces. induction ds as [|[a d] ds IH]; [done|]. cbn [map foldr concat].
  rewrite !zlen_app, zlen_le_enc, IH. lia.
Qed.

(** The entry [append] writes for the digests of a measurement. *)
Definition entry_of (format : Format) (pcr event_type : Z) (ds : Digests) (event : list Z) : LogEntry :=
  match format with
  | Sha1Format => sha1_entry pcr event_type (sub (default (zeros 20) (digests_get ds ALG_SHA1)) 0 20) event
  | CryptoAgile => agile_entry pcr event_type (digests_iter ds) event
  end.

Lemma digests_get_sha1 ds d :
  Forall (fun p => zlen p.2 = MAX_DIGEST_SIZE) ds -> digests_get ds ALG_SHA1 = Some d -> zlen d = 20.
Proof.
  intros Hds Hg. unfold digests_get in Hg. apply fmap_Some in Hg as ([a d'] & Hf & ->).
  apply List.find_some in Hf as [Hin Ha]. cbn [fst snd] in *. bool_hyp. subst a.
  apply list_elem_of_In in Hin. unfold digests_iter in Hin. apply list_elem_of_fmap in Hin as ([a s] & [= <- ->] & Hin).
  rewrite list.Forall_forall in Hds. specialize (Hds _ Hin). cbn [snd] in Hds.
  cbn. apply zlen_sub; unfold MAX_DIGEST_SIZE in Hds; lia.
Qed.

Lemma append_spec {T : Target} log es pcr event_type ds event :
  log_holds log es -> Forall (fun p => zlen p.2 = MAX_DIGEST_SIZE) ds ->
  appended log es (entry_of (el_format log) pcr event_type ds event) (append pcr event_type ds event log).
Proof.
  intros Hh Hds. unfold append, entry_of. destruct (el_format log) eqn:Hformat.
  { apply append_sha1_spec; [done|]. destruct (digests_get ds ALG_SHA1) as [d|] eqn:Hg; [|done].
    cbn. rewrite (digests_get_sha1 ds d) by done. lia. }
  set (e := agile_entry _ _ _ _). pose proof (zlen_nonneg event).
  set (pieces := digests_iter ds) in *. pose proof (zlen_nonneg (agile_pieces pieces)).
  assert (Hsz : zlen (entry_bytes e) = 12 + zlen (agile_pieces pieces) + 4 + zlen event).
  { unfold entry_bytes, e, agile_entry. cbn [le_agile le_pcr le_type le_digests le_data].
    rewrite !zlen_app, !zlen_le_enc. lia. }
  rewrite agile_length. set (size := 12 + _ + 4 + zlen event) in *.
  assert (Hsize : size = 12 + zlen (agile_pieces pieces) + 4 + zlen event) by done.
  destruct (reserve size log) as [log1 [start|[]|]] eqn:Hres.
  2:{ unfold sbind. rewrite Hres. apply reserve_Full in Hres. unfold appended. by rewrite Hsz. }
  2:{ unfold reserve in Hres. by repeat case_match. }
  unfold sbind at 1. rewrite Hres. apply (reserve_Ok _ _ es) in Hres as (Hw & -> & Hlast & Hfmt & Hz); [|lia|done].
  eapply put_then; [exact Hw|done|rewrite zlen_le_enc; lia|]. intros log2 Hw2 Hf2.
  eapply put_then; [exact Hw2|done|rewrite !zlen_le_enc; lia|]. intros log3 Hw3 Hf3.
  eapply put_then; [exact Hw3|done|rewrite !zlen_le_enc; lia|]. intros log4 Hw4 Hf4.
  eapply put_digests_then; [exact Hw4|done|rewrite !zlen_le_enc; lia|]. intros log5 Hw5 Hf5.
  eapply put_then; [exact Hw5|rewrite !zlen_app, !zlen_le_enc; done|rewrite !zlen_le_enc; lia|]. intros log6 Hw6 Hf6.
  eapply put_spec; [exact Hw6|rewrite !zlen_app, !zlen_le_enc, zlen_nil; lia|rewrite !zlen_le_enc; lia|]. intros log7 Hw7 Hf7.
  pose proof (same_frame_trans _ _ _ Hf2 (same_frame_trans _ _ _ Hf3 (same_frame_trans _ _ _ Hf4
    (same_frame_trans _ _ _ Hf5 (same_frame_trans _ _ _ Hf6 Hf7))))) as [Fu Fl Ff Fz].
  split_and!; [|congruence|congruence|congruence].
  rewrite !zlen_le_enc in Hw7.
  match type of Hw7 with written _ _ ?r _ _ => replace r with 0 in Hw7 by lia end.
  eapply written_holds; [exact Hw7|]. unfold entry_bytes, e, agile_entry. cbn [le_agile le_pcr le_type le_digests le_data].
  rewrite !(le_enc_mod 4), app_nil_l, <- !app_assoc. do 3 f_equal. f_equal.
  unfold pieces, digests_iter, zlen. by rewrite length_map.
Qed.

(** ** The reader of a later boot component

    It knows the area but not how much of it is used: after the first entry it
    reads entries until one has PCR index and event type zero or the area
    ends. *)

Definition rd_le (n : Z) : reader Z := let! b := rd_bytes n in slift (Ok (Bytes.le_dec b)).

Fixpoint rd_agile_digests (n : nat) : reader (list (Z * list Z)) :=
  match n with
  | O => slift (Ok [])
  | S n =>
      let! alg := rd_le 2 in
      let! size := slift (ok_or (digest_size alg) TpmResponse) in
      let! digest := rd_bytes size in
      let! rest := rd_agile_digests n in
      slift (Ok ((alg, digest) :: rest))
  end.

Definition read_entry (agile : bool) : reader LogEntry :=
  let! pcr := rd_le 4 in
  let! event_type := rd_le 4 in
  let! digests :=
    (if agile then let! count := rd_le 4 in rd_agile_digests (Z.to_nat count)
     else let! d := rd_bytes 20 in slift (Ok [(ALG_SHA1, d)])) in
  let! size := rd_le 4 in
  let! data := rd_bytes size in
  slift (Ok {| le_agile := agile; le_pcr := pcr; le_type := event_type; le_digests := digests; le_data := data |}).

Fixpoint scan (fuel : nat) (agile : bool) (r : list Z) : list LogEntry :=
  match fuel with
  | O => []
  | S fuel =>
      if (zlen r <? 8) || (Bytes.le_dec (sub r 0 8) =? 0) then []
      else match read_entry agile r with
           | (r, Ok e) => e :: scan fuel agile r
           | _ => []
           end
  end.

Definition read_log (agile : bool) (area : list Z) : list LogEntry :=
  match read_entry false area with
  | (r, Ok e) => e :: scan (length r) agile r
  | _ => []
  end.

(** Entries whose fields have their widths; a SHA-1 entry has one digest. *)
Record entry_fits (e : LogEntry) : Prop := {
  ef_pcr : 0 <= le_pcr e < 2 ^ 32; ef_type : 0 <= le_type e < 2 ^ 32;
  ef_digests : if le_agile e then Forall digest_fits (le_digests e) /\ zlen (le_digests e) < 2 ^ 32
               else exists d, le_digests e = [(ALG_SHA1, d)] /\ zlen d = 20;
  ef_data : zlen (le_data e) < 2 ^ 32
}.

Lemma rd_le_enc n v r : 0 <= v < 256 ^ Z.of_nat n -> rd_le (Z.of_nat n) (le_enc n v ++ r) = (r, Ok v).
Proof.
  intros Hv. unfold rd_le, sbind. rewrite rd_bytes_app by apply zlen_le_enc. by rewrite le_dec_enc.
Qed.

Lemma rd_agile_enc ds r : Forall digest_fits ds -> rd_agile_digests (length ds) (agile_pieces ds ++ r) = (r, Ok ds).
Proof.
  intros Hds. revert r. induction Hds as [|[a d] ds [Ha Hd] _ IH]; intros r; [done|]. cbn [fst snd] in *.
  unfold agile_pieces in *. cbn [length rd_agile_digests map concat]. rewrite <- !app_assoc. unfold sbind.
  rewrite (rd_le_enc 2) by done. rewrite Hd. unfold slift. cbn [ok_or]. rewrite rd_bytes_app by done. by rewrite IH.
Qed.

Lemma log_entry_enc e r : entry_fits e -> read_entry (le_agile e) (entry_bytes e ++ r) = (r, Ok e).
Proof.
  intros [Hp Ht Hd Hn]. pose proof (zlen_nonneg (le_data e)). unfold read_entry, entry_bytes.
  destruct e as [agile p t ds data]. cbn [le_agile le_pcr le_type le_digests le_data] in *.
  rewrite <- !app_assoc. unfold sbind at 1. rewrite (rd_le_enc 4) by done. unfold sbind at 1.
  rewrite (rd_le_enc 4) by done. unfold sbind at 1.
  assert (Hdr : forall r', (if agile then let! count := rd_le 4 in rd_agile_digests (Z.to_nat count)
     else let! d := rd_bytes 20 in slift (Ok [(ALG_SHA1, d)]))
     ((if agile then le_enc 4 (zlen ds) ++ agile_pieces ds else concat (map snd ds)) ++ r') = (r', Ok ds)).
  { intros r'. destruct agile.
    - destruct Hd as [Hf Hc]. pose proof (zlen_nonneg ds). rewrite <- app_assoc. unfold sbind.
      rewrite (rd_le_enc 4) by (split; [lia|done]).
      replace (Z.to_nat (zlen ds)) with (length ds) by (unfold zlen; lia). by apply rd_agile_enc.
    - destruct Hd as (d & -> & Hd). cbn [map concat snd]. rewrite app_nil_r. unfold sbind. by rewrite rd_bytes_app. }
  rewrite Hdr. unfold sbind at 1. rewrite (rd_le_enc 4) by (split; [lia|done]). unfold sbind.
  by rewrite rd_bytes_app.
Qed.

(** An entry that does not look like the end of the log. *)
Definition visible (e : LogEntry) : Prop := le_pcr e <> 0 \/ le_type e <> 0.

Lemma entry_head e r :
  entry_fits e -> 8 <= zlen (entry_bytes e ++ r) /\
    Bytes.le_dec (sub (entry_bytes e ++ r) 0 8) = le_pcr e + 2 ^ 32 * le_type e.
Proof.
  intros [Hp Ht _ _]. unfold entry_bytes. rewrite <- !app_assoc, app_assoc.
  set (rest := (if le_agile e then _ else _) ++ _). split.
  - pose proof (zlen_nonneg rest). rewrite !zlen_app, !zlen_le_enc. lia.
  - rewrite sub_app_exact by reflexivity.
    assert (Hgo : forall n a b, 0 <= a < 256 ^ Z.of_nat n ->
      Bytes.le_dec (le_enc n a ++ b) = a + 256 ^ Z.of_nat n * Bytes.le_dec b).
    { clear. induction n as [|n IH]; intros a b Ha; cbn [le_enc app Bytes.le_dec]; [cbn in *; lia|].
      rewrite Nat2Z.inj_succ, Z.pow_succ_r in * by lia.
      rewrite IH by (split; [apply Z.div_pos; lia|apply Z.div_lt_upper_bound; lia]).
      pose proof (Z.div_mod a 256). lia. }
    rewrite Hgo by done. rewrite (le_dec_enc 4) by done. done.
Qed.

Lemma scan_image agile es n fuel :
  Forall (fun e => entry_fits e /\ visible e /\ le_agile e = agile) es -> 0 <= n ->
  (length es <= fuel)%nat -> scan fuel agile (log_image es ++ zeros n) = es.
Proof.
  intros Hes Hn. revert fuel. induction Hes as [|e es (Hf & Hv & Ha) Hes IH]; intros fuel Hfuel.
  - destruct fuel as [|fuel]; [done|]. cbn [scan]. unfold log_image. cbn [map concat].
    rewrite app_nil_l, zlen_zeros by done. destruct (Z.ltb_spec n 8); [done|].
    replace (Bytes.le_dec (sub (zeros n) 0 8)) with 0; [done|].
    replace n with (8 + (n - 8)) by lia. rewrite zeros_add by lia. by rewrite sub_app_exact.
  - destruct fuel as [|fuel]; [cbn in Hfuel; lia|]. cbn [scan]. unfold log_image. cbn [map concat].
    rewrite <- app_assoc. destruct (entry_head e (concat (map entry_bytes es) ++ zeros n) Hf) as [H8 Hh].
    rewrite Hh. pose proof (ef_pcr e Hf). pose proof (ef_type e Hf).
    assert (le_pcr e + 2 ^ 32 * le_type e <> 0) by (destruct Hv; lia).
    guard_false. rewrite <- Ha, log_entry_enc, Ha by done. f_equal. apply IH. cbn in Hfuel. lia.
Qed.

Lemma log_image_length es : Forall entry_fits es -> (length es <= length (log_image es))%nat.
Proof.
  induction 1 as [|e es Hf Hes IH]; [done|]. unfold log_image in *. cbn [map concat length].
  rewrite length_app. destruct (entry_head e [] Hf) as [H8 _]. rewrite app_nil_r in H8. unfold zlen in H8. lia.
Qed.

Lemma read_log_holds log first es agile :
  log_holds log (first :: es) -> entry_fits first -> le_agile first = false ->
  Forall (fun e => entry_fits e /\ visible e /\ le_agile e = agile) es ->
  read_log agile (el_buf log) = first :: es.
Proof.
  intros [Hu Hr Hb] Hf Hfa Hes. unfold read_log. rewrite Hb. unfold log_image. cbn [map concat].
  pose proof (log_entry_enc first (log_image es ++ zeros (zlen (el_buf log) - el_used log)) Hf) as He.
  rewrite Hfa in He. rewrite <- app_assoc. unfold log_image in He. rewrite He. f_equal. apply scan_image; [done|lia|].
  rewrite length_app. pose proof (log_image_length es) as Hl. unfold log_image in Hl.
  etrans; [apply Hl|lia]. eapply Forall_impl; [|exact Hes]. by intros e (? & _).
Qed.

(** ** The shape of a log *)

Definition is_agile (f : Format) : bool := match f with CryptoAgile => true | Sha1Format => false end.

(** A log: a SHA-1 entry that describes it, then entries of its format. *)
Definition log_shape (f : Format) (es : list LogEntry) : Prop :=
  exists first rest, es = first :: rest /\ entry_fits first /\ le_agile first = false /\
    Forall (fun e => entry_fits e /\ visible e /\ le_agile e = is_agile f) rest.

Lemma log_shape_snoc f es e :
  log_shape f es -> entry_fits e -> visible e -> le_agile e = is_agile f -> log_shape f (es ++ [e]).
Proof.
  intros (first & rest & -> & Hf & Ha & Hr) He Hv Hg. exists first, (rest ++ [e]). split_and!; [done..|].
  apply list.Forall_app. split; [done|]. by constructor.
Qed.

Lemma log_shape_read log es :
  log_holds log es -> log_shape (el_format log) es -> read_log (is_agile (el_format log)) (el_buf log) = es.
Proof. intros Hl (first & rest & -> & Hf & Ha & Hr). by apply read_log_holds. Qed.

Section fresh.
Context {T : Target}.

(** A log that has just been started: the entries that describe it. *)
Definition fresh_log (f : Format) (log : EventLog) : Prop :=
  el_format log = f /\
  exists es, log_holds log es /\ log_shape f es /\ Forall (fun e => le_type e = EV_NO_ACTION) es.

Lemma cleared_holds buf f : log_holds (cleared buf f) [].
Proof.
  pose proof (zlen_nonneg buf). constructor; cbn; [done|rewrite zlen_zeros; lia|].
  by rewrite zlen_zeros, Z.sub_0_r by lia.
Qed.

Lemma started_spec_id log es data :
  log_holds log es -> zlen data < 2 ^ 32 ->
  let e := sha1_entry 0 EV_NO_ACTION (zeros 20) data in
  appended log es e (append_sha1_entry 0 EV_NO_ACTION (zeros 20) data log) /\ entry_fits e /\ visible e.
Proof.
  intros Hl Hd e. split_and!; [by apply append_sha1_spec| |by right].
  constructor; cbn; try done. exists (zeros 20). done.
Qed.

Lemma spec_banks_end banks : forall at_ spec_id, snd (spec_banks at_ banks spec_id) = at_ + 4 * zlen banks.
Proof.
  induction banks as [|alg banks IH]; intros at_ spec_id; cbn [spec_banks].
  { change (zlen []) with 0. cbn. lia. }
  rewrite IH, zlen_cons. lia.
Qed.

Lemma agile_spec_id_size banks class : zlen (agile_spec_id banks class) < 2 ^ 32.
Proof.
  unfold agile_spec_id. set (bs := take _ banks). set (s0 := upd _ 24 _).
  pose proof (spec_banks_end bs 28 s0) as He. destruct (spec_banks 28 bs s0) as [spec_id at_]. cbn [snd] in He.
  assert (Hb : zlen bs <= 4) by (unfold bs, zlen; rewrite length_take; change (Z.to_nat MAX_BANKS) with 4%nat; lia).
  pose proof (zlen_nonneg bs). unfold sub, zlen in *. rewrite length_take, length_drop. lia.
Qed.

Lemma sha1_spec_id_size class signature errata fifth :
  zlen signature = 16 -> zlen (sha1_spec_id class signature errata fifth) < 2 ^ 32.
Proof.
  intros Hs. unfold sha1_spec_id. set (s1 := upd (zeros 25) 0 signature).
  assert (H1 : zlen s1 = 25) by (unfold s1; rewrite zlen_upd; rewrite ?zlen_zeros, ?Hs; lia).
  set (s2 := upd s1 16 _). assert (H2 : zlen s2 = 25) by (unfold s2; rewrite zlen_upd; rewrite ?zlen_le_enc, ?H1; lia).
  rewrite zlen_upd; change (zlen [2; 1; errata; fifth]) with 4; lia.
Qed.

Lemma log_crypto_agile_spec buf banks class :
  log_crypto_agile buf banks class <> Panic /\
  forall log, log_crypto_agile buf banks class = Ok log -> fresh_log CryptoAgile log.
Proof.
  unfold log_crypto_agile, started.
  destruct (started_spec_id (cleared buf CryptoAgile) [] (agile_spec_id banks class) (cleared_holds _ _) (agile_spec_id_size _ _))
    as (Ha & Hf & Hv). set (e := sha1_entry _ _ _ _) in *.
  destruct (append_sha1_entry _ _ _ _ _) as [log [u|[]|]]; [|done|done]. split; [done|]. intros log' [= <-].
  destruct Ha as (Hl & _ & Hfm & _). split; [done|]. exists [e]. split_and!; [done| |by constructor].
  exists e, []. by split_and!.
Qed.

Lemma log_sha1_spec buf class uefi :
  log_sha1 buf class uefi <> Panic /\ forall log, log_sha1 buf class uefi = Ok log -> fresh_log Sha1Format log.
Proof.
  unfold log_sha1, started, sbind.
  destruct (started_spec_id (cleared buf Sha1Format) [] (sha1_spec_id class SPEC_ID_00 1 0) (cleared_holds _ _)) as (Ha & Hf & Hv).
  { by apply sha1_spec_id_size. }
  set (e := sha1_entry _ _ _ _) in *. destruct (append_sha1_entry _ _ _ _ _) as [log [u|[]|]]; [|done|done].
  destruct Ha as (Hl & _ & Hfm & _). destruct uefi; cbn [slift].
  - destruct (started_spec_id log [e] (sha1_spec_id class SPEC_ID_02 2 2) Hl) as (Ha & Hf2 & Hv2).
    { by apply sha1_spec_id_size. }
    set (e2 := sha1_entry _ _ _ (sha1_spec_id class SPEC_ID_02 2 2)) in *.
    destruct (append_sha1_entry _ _ _ _ _) as [log2 [u2|[]|]]; [|done|done]. split; [done|]. intros log' [= <-].
    destruct Ha as (Hl2 & _ & Hfm2 & _). split; [by rewrite Hfm2|]. exists [e; e2]. split_and!; [done| |by apply list.Forall_cons; split; [|constructor]].
    exists e, [e2]. split_and!; [done..|]. constructor; [by split_and!|done].
  - split; [done|]. intros log' [= <-]. split; [done|]. exists [e]. split_and!; [done| |by constructor].
    exists e, []. by split_and!.
Qed.
End fresh.

(** Appending adds exactly the measurement: a later component that reads the
    whole area finds the old entries and the new one.  A log without room for the
    entry is left as it was. *)
Theorem append_reads_back {T : Target} log es i event_type ds event :
  let e := entry_of (el_format log) i event_type ds event in
  log_holds log es -> log_shape (el_format log) es -> Forall (fun p => zlen p.2 = MAX_DIGEST_SIZE) ds ->
  entry_fits e -> visible e ->
  match append i event_type ds event log with
  | (log', Ok _) =>
      read_log (is_agile (el_format log')) (el_buf log') = es ++ [e] /\ zlen (el_buf log') = zlen (el_buf log)
  | (log', Err _) =>
      log' = log /\ (zlen (el_buf log) < el_used log + zlen (entry_bytes e) \/ usize_max < el_used log + zlen (entry_bytes e))
  | (_, Panic) => False
  end.
Proof.
  intros e Hl Hs Hds Hf Hv. pose proof (append_spec log es i event_type ds event Hl Hds) as Ha. fold e in Ha.
  destruct (append i event_type ds event log) as [log' [u|[]|]]; cbn [appended] in Ha; [|done|done].
  destruct Ha as (Hl' & _ & Hfm & Hz). split; [|done]. apply log_shape_read; [done|]. rewrite Hfm.
  apply log_shape_snoc; try done. unfold e. by destruct (el_format log).
Qed.

(** An area with room for one event. *)
Lemma append_reads_back_witness :
  let log := match log_crypto_agile (zeros 256) [ALG_SHA256] Client with Ok log => log | _ => cleared [] Sha1Format end in
  exists es log', append 4 EV_SEPARATOR [(ALG_SHA256, zeros 64)] [1; 2] log = (log', Ok tt) /\
    read_log true (el_buf log') = es ++ [agile_entry 4 EV_SEPARATOR [(ALG_SHA256, zeros 32)] [1; 2]].
Proof.
  destruct (log_crypto_agile_spec (zeros 256) [ALG_SHA256] Client) as [_ Hs].
  assert (Hok : exists log, log_crypto_agile (zeros 256) [ALG_SHA256] Client = Ok log).
  { destruct (log_crypto_agile _ _ _) eqn:He; [by eexists|vm_compute in He; discriminate..]. }
  destruct Hok as [log Hlog]. destruct (Hs log Hlog) as (Hfm & es & Hl & Hsh & _). rewrite Hlog. cbn zeta.
  pose proof (append_reads_back log es 4 EV_SEPARATOR [(ALG_SHA256, zeros 64)] [1; 2]) as Ha.
  cbn zeta in Ha. rewrite Hfm in Ha. cbn [entry_of] in Ha.
  exists es. destruct (append 4 EV_SEPARATOR _ _ log) as [log' r] eqn:Hap. exists log'.
  assert (Hr : r = Ok tt).
  { assert (Hc : snd (append 4 EV_SEPARATOR [(ALG_SHA256, zeros 64)] [1; 2]
      (match log_crypto_agile (zeros 256) [ALG_SHA256] Client with Ok log => log | _ => cleared [] Sha1Format end)) = Ok tt)
      by (vm_compute; reflexivity). rewrite Hlog, Hap in Hc. exact Hc. }
  subst r. split; [done|]. destruct Ha as [Hrd _].
  - done.
  - done.
  - by constructor.
  - constructor; try done. cbn. split; [|done]. constructor; [|constructor]. by split.
  - by right.
  - assert (Hf' : el_format log' = CryptoAgile).
    { pose proof (append_spec log es 4 EV_SEPARATOR [(ALG_SHA256, zeros 64)] [1; 2] Hl) as Hsp. rewrite Hap in Hsp.
      destruct Hsp as (_ & _ & Hfm' & _); [by constructor|]. by rewrite Hfm'. }
    rewrite Hf' in Hrd. exact Hrd.
Defined.
