(* ===== verification/Tcg.v ===== *)
(** * Tcg: measured boot ([crates/tcg/src/lib.rs])

    The first stage starts the TPM, measures what it hands control to into the
    PCRs and the event log, and locks the TPM before a payload runs.  The state
    is a global behind a busy flag; the operations are its methods and the API
    functions around them.  A [TpmDevice] is any TPM that keeps the promises of
    [TpmLaws], behind any transport.

    The theorems: as long as measured boot has not failed, replaying the event
    log gives the PCRs of the TPM; after a failure PCR 0-7 are capped or the
    payload is refused; a successful hand-off leaves the TPM locked; a TPM that
    was started but cannot be used is hidden or the platform must halt. *)

From S2P Require Import Prelude.
From S2P Require Import Bytes.
From S2P Require Import Crypto.
From S2P Require Import Tpm.
From S2P Require Import EventLog.
From Stdlib Require Import ZArith Lia.
From stdpp Require Import base numbers list option.

#[local] Open Scope Z_scope.

(** ** State *)

Record State (M : Type) := {
  st_tpm : M; st_family : Family; st_banks : list (Z * Z); st_log : EventLog;
  st_failed : bool; st_locked : bool; st_cap_failed : bool
}.
Arguments st_tpm {M}. Arguments st_family {M}. Arguments st_banks {M}. Arguments st_log {M}.
Arguments st_failed {M}. Arguments st_locked {M}. Arguments st_cap_failed {M}.

(** The two statics: the state and the flag that is taken while it is borrowed. *)
Record Global (M : Type) := { gl_busy : bool; gl_state : option (State M) }.
Arguments gl_busy {M}. Arguments gl_state {M}.

(** The names that [Startup] carries for the report. *)
Inductive StartCommand :=
| TPM2_Startup | TPM_Startup | TPM_ContinueSelfTest | TPM_GetCapability | TPM2_SelfTest | TPM2_GetCapability.

Inductive StartError :=
| Startup (command : StartCommand) (error : TpmError)
| Inactive | UnsupportedBank (alg : Z) | NoBank | LogAreaFull | Unprotected | Started.

Inductive Remedy := Hide | Reset | NoRemedy | Halt.

Definition remedy (e : StartError) : Remedy :=
  match e with
  | Startup _ (TpmCode code) =>
      if (rc_base code =? RC_VALUE) || (rc_base code =? RC_LOCALITY) then Reset else Hide
  | Inactive | Started => NoRemedy
  | Unprotected => Halt
  | _ => Hide
  end.

Inductive Handoff := HandoffOpen | HandoffLocked | HandoffFinal.
#[export] Instance Handoff_eq_dec : EqDecision Handoff.
Proof. solve_decision. Defined.

Inductive HandoffError := HandoffLock | HandoffCap.

(** Methods of results with state: [map_err], [or_else], [is_ok]. *)
Definition smap_err {S E F A} (f : E -> F) (m : sres S E A) : sres S F A := fun s =>
  let '(s, r) := m s in (s, map_err f r).

Definition sor_else {S E F A} (m : sres S E A) (h : E -> sres S F A) : sres S F A := fun s =>
  match m s with
  | (s, Ok a) => (s, Ok a)
  | (s, Err e) => h e s
  | (s, Panic) => (s, Panic)
  end.

Definition is_ok {S E F A} (m : sres S E A) : sres S F bool := fun s =>
  match m s with
  | (s, Ok _) => (s, Ok true)
  | (s, Err _) => (s, Ok false)
  | (s, Panic) => (s, Panic)
  end.

Section tcg.
Context {T : Target} {PH : PcrHash} {M : Type} {TM : Transport M}.

(** ** Starting *)

Definition start_tpm : sres M StartError Family := fun m =>
  match startup SuClear m with
  | (m, Ok _) => (m, Ok Tpm20)
  | (m, Err (TpmCode code)) =>
      if code =? RC_INITIALIZE then (m, Ok Tpm20)
      else if code =? RC_BAD_TAG then
        match startup12 St12Clear m with
        | (m, Ok _) => (m, Ok Tpm12)
        | (m, Err (TpmCode code)) =>
            if code =? RC_INVALID_POSTINIT then (m, Ok Tpm12) else (m, Err (Startup TPM_Startup (TpmCode code)))
        | (m, Err e) => (m, Err (Startup TPM_Startup e))
        | (m, Panic) => (m, Panic)
        end
      else (m, Err (Startup TPM2_Startup (TpmCode code)))
  | (m, Err e) => (m, Err (Startup TPM2_Startup e))
  | (m, Panic) => (m, Panic)
  end.

Definition prepare_tpm12 : sres M StartError unit :=
  let! _ := smap_err (Startup TPM_ContinueSelfTest) continue_self_test in
  let! flags := smap_err (Startup TPM_GetCapability) permanent_flags in
  let! _ :=
    (if negb (pf_lifetime_lock flags) && negb (pf_cmd_enable flags)
     then let! _ := is_ok (physical_presence PP_CMD_ENABLE) in slift (Ok tt)
     else slift (Ok tt)) in
  let! _ := is_ok (physical_presence PP_PRESENT) in
  let! volatile := smap_err (Startup TPM_GetCapability) volatile_flags in
  slift (if pf_disable flags || pf_deactivated flags || vf_deactivated volatile then Err Inactive else Ok tt).

(** [for pcr in 0..8], collecting whether every step succeeded. *)
Fixpoint all_ok {S E F} (l : list Z) (f : Z -> sres S E unit) : sres S F bool :=
  match l with
  | [] => slift (Ok true)
  | x :: l =>
      let! a := is_ok (f x) in
      let! b := all_ok l f in
      slift (Ok (a && b))
  end.

Definition pcrs_0_7 : list Z := [0; 1; 2; 3; 4; 5; 6; 7].

(** A platform authorization nobody knows, or else the platform hierarchy off. *)
Definition protect_platform : sres M TpmError unit :=
  sor_else (let! auth := get_random 32 in hierarchy_change_auth RH_PLATFORM auth)
    (fun _ => hierarchy_control RH_PLATFORM RH_PLATFORM false).

Definition release_tpm {E} : sres M E unit := fun m => (release m, Ok tt).

Definition hide_tpm20 : sres M StartError bool :=
  let! a := is_ok (hierarchy_control RH_PLATFORM RH_ENDORSEMENT false) in
  let! b := is_ok (hierarchy_control RH_PLATFORM RH_OWNER false) in
  let! c := all_ok pcrs_0_7 (fun pcr => pcr_event pcr (le_enc 4 0)) in
  let! d := is_ok protect_platform in
  let! _ := release_tpm in
  slift (Ok (a && b && c && d)).

(** Every allocated bank must be one that firmware hashes, [MAX_BANKS] at most. *)
Definition select_banks (allocated : Banks) : res StartError (list (Z * Z)) :=
  fold_each allocated [] (fun banks '(alg, pcrs) =>
    fail_if bool_decide (digest_size alg = None) || (zlen banks =? MAX_BANKS) with UnsupportedBank alg;
    Ok (banks ++ [(alg, pcrs)])).

Definition log_or_full (r : res LogFull EventLog) : res StartError EventLog := map_err (fun _ => LogAreaFull) r.

Definition prepare (family : Family) (log_area : list Z) (class : PlatformClass) (uefi : bool)
    : sres M StartError (list (Z * Z) * EventLog) :=
  match family with
  | Tpm20 =>
      let! _ := smap_err (Startup TPM2_SelfTest) (self_test false) in
      let! allocated := smap_err (Startup TPM2_GetCapability) pcr_banks in
      let! banks := slift (select_banks allocated) in
      if bool_decide (banks = []) then slift (Err NoBank)
      else
        let! log := slift (log_or_full (log_crypto_agile log_area (map fst banks) class)) in
        slift (Ok (banks, log))
  | Tpm12 =>
      let! _ := prepare_tpm12 in
      let! log := slift (log_or_full (log_sha1 log_area class uefi)) in
      slift (Ok ([(ALG_SHA1, u32_max)], log))
  end.

(** What a failed start does to the started TPM. *)
Definition protect (family : Family) : sres M StartError bool :=
  match family with
  | Tpm20 => hide_tpm20
  | Tpm12 => is_ok (physical_presence (Z.lor PP_NOTPRESENT PP_LOCK))
  end.

(** The state of a successful start. *)
Definition start_state (log_area : list Z) (class : PlatformClass) (uefi : bool) : sres M StartError (Family * list (Z * Z) * EventLog) :=
  let! family := start_tpm in
  let! prepared := sor_else (prepare family log_area class uefi) (fun error =>
    let! protected := protect family in
    slift (Err (if protected : bool then error else Unprotected))) in
  slift (Ok (family, fst prepared, snd prepared)).

(** The TPM is lent for good: it is in the state afterwards, or dropped as the
    failed start left it. *)
Definition start (tpm : M) (log_area : list Z) (class : PlatformClass) (uefi : bool) (g : Global M)
    : Global M * M * res StartError Family :=
  if gl_busy g || bool_decide (is_Some (gl_state g)) then (g, tpm, Err Started)
  else
    match start_state log_area class uefi tpm with
    | (tpm, Ok (family, banks, log)) =>
        ({| gl_busy := false;
            gl_state := Some {| st_tpm := tpm; st_family := family; st_banks := banks; st_log := log;
                                st_failed := false; st_locked := false; st_cap_failed := false |} |}, tpm, Ok family)
    | (tpm, Err e) => (g, tpm, Err e)
    | (tpm, Panic) => (g, tpm, Panic)
    end.

(** ** Methods of the state *)

Definition set_tpm (st : State M) (tpm : M) : State M := {|
  st_tpm := tpm; st_family := st_family st; st_banks := st_banks st; st_log := st_log st;
  st_failed := st_failed st; st_locked := st_locked st; st_cap_failed := st_cap_failed st |}.
Definition set_log (st : State M) (log : EventLog) : State M := {|
  st_tpm := st_tpm st; st_family := st_family st; st_banks := st_banks st; st_log := log;
  st_failed := st_failed st; st_locked := st_locked st; st_cap_failed := st_cap_failed st |}.
Definition set_failed (st : State M) : State M := {|
  st_tpm := st_tpm st; st_family := st_family st; st_banks := st_banks st; st_log := st_log st;
  st_failed := true; st_locked := st_locked st; st_cap_failed := st_cap_failed st |}.
Definition set_cap_failed (st : State M) : State M := {|
  st_tpm := st_tpm st; st_family := st_family st; st_banks := st_banks st; st_log := st_log st;
  st_failed := st_failed st; st_locked := st_locked st; st_cap_failed := true |}.
Definition set_locked (st : State M) (locked : bool) : State M := {|
  st_tpm := st_tpm st; st_family := st_family st; st_banks := st_banks st; st_log := st_log st;
  st_failed := st_failed st; st_locked := locked; st_cap_failed := st_cap_failed st |}.

(** A TPM routine on the TPM of the state. *)
Definition on_tpm {E A} (f : sres M E A) : sres (State M) E A := fun st =>
  let '(tpm, r) := f (st_tpm st) in (set_tpm st tpm, r).

(** The bank has the PCR: [pcr < 32 && pcrs & 1 << pcr != 0]. *)
Definition allocated (pcr pcrs : Z) : bool := (pcr <? 32) && negb (Z.land pcrs (Z.shiftl 1 pcr) =? 0).

Definition digests (st : State M) (data : list Z) (pcr : Z) : res TpmError Digests :=
  fold_each (filter (fun b => allocated pcr b.2 = true) (st_banks st)) [] (fun ds '(alg, _) =>
    match hash alg data with
    | Some digest => digests_push ds alg digest
    | None => Ok ds
    end).

Definition extend (pcr : Z) (ds : Digests) : sres (State M) TpmError unit := fun st =>
  match st_family st with
  | Tpm20 => on_tpm (pcr_extend pcr (digests_iter ds)) st
  | Tpm12 =>
      let digest := default (zeros 20) (digests_get ds ALG_SHA1) in
      if zlen digest =? 20 then on_tpm (extend12 pcr digest) st else (st, Panic)
  end.

Definition append_log (pcr event_type : Z) (ds : Digests) (event : list Z) : sres (State M) LogFull unit := fun st =>
  let '(log, r) := append pcr event_type ds event (st_log st) in (set_log st log, r).

(** A round of [fail]: the result of [append] is ignored. *)
Definition cap (pcr : Z) : sres (State M) TpmError unit :=
  let! ds := fun st => (st, digests st (le_enc 4 1) pcr) in
  let! ok := is_ok (extend pcr ds) in
  let! _ := fun st => (if ok : bool then st else set_cap_failed st, Ok tt) in
  let! _ := is_ok (append_log pcr EV_SEPARATOR ds (le_enc 4 1)) in
  slift (Ok tt).

Definition fail : sres (State M) TpmError unit :=
  let! _ := fun st => (set_failed st, Ok tt) in
  sfor_each pcrs_0_7 cap.

Definition record_event (pcr event_type : Z) (ds : Digests) (event : list Z) : sres (State M) TpmError unit := fun st =>
  if st_failed st then (st, Ok tt)
  else
    sor_else
      (let! _ := extend pcr ds in
       smap_err (fun _ => TpmResponse) (append_log pcr event_type ds event))
      (fun _ => fail) st.

Definition lock_result : sres (State M) TpmError unit := fun st =>
  match st_family st with
  | Tpm20 => on_tpm protect_platform st
  | Tpm12 =>
      on_tpm (sor_else (physical_presence (Z.lor PP_NOTPRESENT PP_LOCK)) (fun error =>
        let! volatile := volatile_flags in
        let! permanent := permanent_flags in
        let safe := negb (vf_physical_presence volatile)
          && (vf_physical_presence_lock volatile || (pf_lifetime_lock permanent && negb (pf_cmd_enable permanent))) in
        slift (if safe then Ok tt else Err error))) st
  end.

Definition lock_state : sres (State M) TpmError unit := fun st =>
  if st_locked st then (st, Ok tt)
  else
    match lock_result st with
    | (st, Panic) => (st, Panic)
    | (st, r) => (set_locked st (match r with Ok _ => true | _ => false end), r)
    end.

(** ** The API *)

(** The closure runs with the flag taken; a panic leaves it taken. *)
Definition with_state {A} (f : sres (State M) TpmError A) (g : Global M) : Global M * res TpmError (option A) :=
  if gl_busy g then (g, Ok None)
  else
    match gl_state g with
    | None => (g, Ok None)
    | Some st =>
        match f st with
        | (st, Ok a) => ({| gl_busy := false; gl_state := Some st |}, Ok (Some a))
        | (st, Err e) => ({| gl_busy := false; gl_state := Some st |}, Err e)
        | (st, Panic) => ({| gl_busy := true; gl_state := Some st |}, Panic)
        end
    end.

(** Operations on the global state. *)
Definition api (A : Type) : Type := sres (Global M) TpmError A.

Definition family : api (option Family) :=
  let! r := with_state (fun st => (st, Ok (if st_failed st then None else Some (st_family st)))) in
  slift (Ok (mjoin r)).

Definition ignore {A} (m : api A) : api unit := let! _ := m in slift (Ok tt).

Definition measurement_error : api unit :=
  ignore (with_state (fun st => if st_failed st then (st, Ok tt) else fail st)).

Definition measure (pcr event_type : Z) (data event : list Z) : api unit :=
  ignore (with_state (
    let! ds := fun st => (st, digests st data pcr) in
    record_event pcr event_type ds event)).

Definition measure_event (pcr event_type : Z) (event : list Z) : api unit := measure pcr event_type event event.

(** The TPM 1.2 event type of a blob. *)
Definition blob_type12 (event_type : Z) : Z :=
  if event_type =? EV_POST_CODE2 then EV_POST_CODE
  else if event_type =? EV_EFI_PLATFORM_FIRMWARE_BLOB2 then EV_EFI_PLATFORM_FIRMWARE_BLOB
  else event_type.

Definition measure_blob (pcr event_type : Z) (description : list Z) (base : Z) (data : list Z) : api unit :=
  let! family := family in
  match family with
  | None => slift (Ok tt)
  | Some Tpm20 => measure pcr event_type data (blob2 description base (zlen data))
  | Some Tpm12 => measure pcr (blob_type12 event_type) data (blob base (zlen data))
  end.

Definition measure_crtm_version (version : list Z) : api unit := measure_event 0 EV_S_CRTM_VERSION (ucs2 version).

Definition separators : api unit :=
  ignore (with_state (sfor_each pcrs_0_7 (fun pcr =>
    let! ds := fun st => (st, digests st (le_enc 4 0) pcr) in
    record_event pcr EV_SEPARATOR ds (le_enc 4 0)))).

Definition lock : api unit := ignore (with_state lock_state).

Definition check : sres (Global M) HandoffError unit :=
  let! cap_failed := smap_err (fun _ => HandoffCap) (with_state (let! _ := on_tpm release_tpm in fun st => (st, Ok (st_cap_failed st)))) in
  slift (if default false cap_failed then Err HandoffCap else Ok tt).

(** The operations before [check] do not fail: their errors are only those of [lock]. *)
Definition handoff (kind : Handoff) : sres (Global M) HandoffError unit :=
  let! _ := (if bool_decide (kind = HandoffFinal) then smap_err (fun _ => HandoffLock) separators else slift (Ok tt)) in
  let! _ := (if negb (bool_decide (kind = HandoffOpen)) then smap_err (fun _ => HandoffLock) lock else slift (Ok tt)) in
  check.

Record PayloadTpm := { pt_family : Family; pt_transport : M; pt_banks : list Z; pt_log_area : list Z; pt_log_used : Z }.

Definition take_for_payload (g : Global M) : Global M * option PayloadTpm :=
  if gl_busy g then (g, None)
  else
    match gl_state g with
    | Some st =>
        if st_failed st then (g, None)
        else ({| gl_busy := false; gl_state := None |},
              Some {| pt_family := st_family st; pt_transport := st_tpm st; pt_banks := map fst (st_banks st);
                      pt_log_area := el_buf (st_log st); pt_log_used := el_used (st_log st) |})
    | None => (g, None)
    end.
End tcg.

(** ** Digests *)

Section digests.
Context {PH : PcrHash} {PL : PcrHashLaws PH}.

(** Banks that firmware can hash for. *)
Definition banks_ok (banks : list (Z * Z)) : Prop :=
  Forall (fun b => 0 <= b.1 < 2 ^ 16 /\ is_Some (digest_size b.1)) banks /\ zlen banks <= MAX_BANKS.

(** One digest for each bank that has the PCR. *)
Definition bank_digests (banks : list (Z * Z)) (data : list Z) (pcr : Z) : list (Z * list Z) :=
  map (fun b => (b.1, pcr_digest b.1 data)) (filter (fun b => allocated pcr b.2 = true) banks).

Lemma Forall_filtered {A} (P Q : A -> Prop) `{!forall x, Decision (Q x)} l : Forall P l -> Forall P (filter Q l).
Proof. rewrite !list.Forall_forall. intros Hl x [_ Hx]%list_elem_of_filter. auto. Qed.

Lemma digest_slot alg d n :
  digest_size alg = Some n -> zlen d = n ->
  zlen (upd (zeros MAX_DIGEST_SIZE) 0 d) = MAX_DIGEST_SIZE /\ sub (upd (zeros MAX_DIGEST_SIZE) 0 d) 0 n = d.
Proof.
  intros Hs <-. destruct (digest_size_bound _ _ Hs).
  pose proof (upd_middle [] (zeros (zlen d)) (zeros (MAX_DIGEST_SIZE - zlen d)) d) as Hu.
  rewrite !app_nil_l, <- zeros_add, zlen_nil in Hu by lia.
  replace (zlen d + (MAX_DIGEST_SIZE - zlen d)) with MAX_DIGEST_SIZE in Hu by lia. rewrite Hu by (apply zlen_zeros; lia).
  split; [rewrite zlen_app, zlen_zeros; lia|]. by apply sub_app_exact.
Qed.

Lemma digests_spec {M} (st : State M) data pcr :
  banks_ok (st_banks st) ->
  exists ds, digests st data pcr = Ok ds /\ Forall (fun p => zlen p.2 = MAX_DIGEST_SIZE) ds /\
    digests_iter ds = bank_digests (st_banks st) data pcr.
Proof.
  intros [Hb Hz]. unfold digests, bank_digests. set (l := filter _ (st_banks st)).
  assert (Hl : Forall (fun b => 0 <= b.1 < 2 ^ 16 /\ is_Some (digest_size b.1)) l) by by apply Forall_filtered.
  assert (Hlz : zlen l <= MAX_BANKS).
  { etrans; [|exact Hz]. unfold zlen. apply inj_le, length_filter. }
  clearbody l. clear Hb Hz.
  assert (Hgo : forall acc, zlen acc + zlen l <= MAX_BANKS -> Forall (fun p => zlen p.2 = MAX_DIGEST_SIZE) acc ->
    exists ds, fold_each l acc (fun ds '(alg, _) =>
      match hash alg data with Some digest => digests_push ds alg digest | None => Ok ds end) = Ok ds /\
      Forall (fun p => zlen p.2 = MAX_DIGEST_SIZE) ds /\
      digests_iter ds = digests_iter acc ++ map (fun b => (b.1, pcr_digest b.1 data)) l).
  2:{ destruct (Hgo []) as (ds & ? & ? & Hi); [by rewrite zlen_nil|done|]. exists ds. by rewrite Hi. }
  clear Hlz. induction Hl as [|[alg mask] l [Ha [n Hn]] Hl IH]; intros acc Hacc Hslots; cbn [fold_each map fst] in *.
  { exists acc. by rewrite app_nil_r. }
  rewrite zlen_cons in Hacc. pose proof (zlen_nonneg l). pose proof (pcr_digest_size alg n data Hn) as Hd.
  destruct (digest_slot alg (pcr_digest alg data) n Hn Hd) as [Hs1 Hs2]. destruct (digest_size_bound _ _ Hn).
  unfold hash. rewrite Hn. unfold digests_push. guard_true. rewrite Hd. guard_true. cbn [rbind].
  destruct (IH (acc ++ [(alg, upd (zeros MAX_DIGEST_SIZE) 0 (pcr_digest alg data))])) as (ds & Hf & Hs & Hi).
  - rewrite zlen_app. change (zlen [_]) with 1. lia.
  - apply list.Forall_app. split; [done|]. by constructor.
  - exists ds. split_and!; [done|done|]. rewrite Hi. unfold digests_iter. rewrite map_app. cbn [map].
    rewrite Hn. change (default 0 (Some n)) with n. by rewrite Hs2, <- app_assoc.
Qed.

Lemma bank_digests_fit banks data pcr : banks_ok banks -> Forall digest_fits (bank_digests banks data pcr).
Proof.
  intros [Hb _]. unfold bank_digests. apply list.Forall_fmap. apply Forall_filtered.
  eapply Forall_impl; [|exact Hb]. intros [alg mask] [Ha [n Hn]]. cbn in *. split; cbn; [done|].
  by rewrite Hn, (pcr_digest_size alg n data Hn).
Qed.
End digests.

(** ** The invariant *)

(** The value a verifier computes for a PCR from the log; [EV_NO_ACTION]
    entries were not extended. *)
Definition replay {PH : PcrHash} (alg i : Z) (value : list Z) (es : list LogEntry) : list Z :=
  fold_left (fun v e =>
    if le_type e =? EV_NO_ACTION then v
    else if le_pcr e =? i then extended alg v (le_digests e) else v) es value.

Lemma replay_snoc {PH : PcrHash} alg i value es e :
  le_type e <> EV_NO_ACTION ->
  replay alg i value (es ++ [e]) =
    if i =? le_pcr e then extended alg (replay alg i value es) (le_digests e) else replay alg i value es.
Proof.
  intros Ht. unfold replay. rewrite fold_left_app. cbn [fold_left].
  rewrite (proj2 (Z.eqb_neq _ _) Ht). by rewrite Z.eqb_sym.
Qed.

Definition format_of (f : Family) : Format := match f with Tpm20 => CryptoAgile | Tpm12 => Sha1Format end.
Section sound.
Context {T : Target} {PH : PcrHash} {PL : PcrHashLaws PH}.
Context {M : Type} {TM : Transport M} {D : TpmDevice M} {L : TpmLaws PH M TM D}.

(** The platform hierarchy of a TPM 2.0 is out of reach. *)
Definition out_of_reach (m : M) : Prop := auth_set m \/ disabled m RH_PLATFORM.

(** The TPM is locked against the payload. *)
Definition locked_down (family : Family) (m : M) : Prop :=
  match family with Tpm20 => out_of_reach m | Tpm12 => presence_locked m end.

(** What holds of the state whether or not measured boot failed. *)
Record base (st : State M) (es : list LogEntry) : Prop := {
  b_banks : banks_ok (st_banks st);
  b_tpm12 : st_family st = Tpm12 -> st_banks st = [(ALG_SHA1, u32_max)];
  b_format : el_format (st_log st) = format_of (st_family st);
  b_log : log_holds (st_log st) es;
  b_shape : log_shape (el_format (st_log st)) es;
  b_locked : st_locked st = true -> locked_down (st_family st) (st_tpm st)
}.

(** The last extension of the PCR, in every bank that has it, was the error
    separator [00000001h]. *)
Definition capped (st : State M) (i : Z) : Prop :=
  forall alg mask, (alg, mask) ∈ st_banks st -> allocated i mask = true -> has_pcr alg i ->
    exists v, pcr (st_tpm st) alg i = pcr_digest alg (v ++ pcr_digest alg (le_enc 4 1)).

(** [initial] are the PCRs when measured boot started. *)
Record sound (initial : Z -> Z -> list Z) (st : State M) : Prop := {
  sd_base : exists es, base st es /\
    (st_failed st = false -> forall a i, has_pcr a i -> pcr (st_tpm st) a i = replay a i (initial a i) es);
  sd_uncapped : st_failed st = false -> st_cap_failed st = false;
  sd_capped : st_failed st = true -> st_cap_failed st = false -> forall i, i ∈ pcrs_0_7 -> capped st i
}.

Lemma out_of_reach_kept m m' : locks_kept m m' -> out_of_reach m -> out_of_reach m'.
Proof. intros [Hd Ha _ _] [H|H]; [left|right]; auto. Qed.

Lemma locked_down_kept family m m' : locks_kept m m' -> locked_down family m -> locked_down family m'.
Proof. destruct family; [apply lk_presence|apply out_of_reach_kept]. Qed.

(** Only the TPM of the state changes. *)
Record tpm_step (st st' : State M) : Prop := {
  ts_eq : st' = set_tpm st (st_tpm st');
  ts_locks : locks_kept (st_tpm st) (st_tpm st')
}.

Lemma base_tpm_step st st' es : base st es -> tpm_step st st' -> base st' es.
Proof.
  intros [] [-> Hl]. constructor; cbn in *; auto. intros Hk. eapply locked_down_kept; eauto.
Qed.

(** The effect of extending with the digests of a measurement is the one its
    log entry records. *)
Lemma extend_spec st es i data event_type event ds :
  base st es -> 0 <= i < 2 ^ 32 -> Forall (fun p => zlen p.2 = MAX_DIGEST_SIZE) ds ->
  digests_iter ds = bank_digests (st_banks st) data i ->
  let out := extend i ds st in
  snd out <> Panic /\ tpm_step st (fst out) /\
  (snd out = Ok tt -> performs (EExtend i (le_digests (entry_of (el_format (st_log st)) i event_type ds event)))
     (st_tpm st) (st_tpm (fst out))).
Proof.
  intros Hb Hi Hs Hds. unfold extend. rewrite (b_format _ _ Hb). destruct (st_family st); cbn zeta.
  - cbn [format_of entry_of]. set (d := default (zeros 20) (digests_get ds ALG_SHA1)).
    assert (Hd : zlen d = 20).
    { unfold d. destruct (digests_get ds ALG_SHA1) eqn:Hg; [|done]. cbn. by eapply digests_get_sha1. }
    rewrite Hd, Z.eqb_refl. unfold on_tpm. destruct (extend12_spec i d (st_tpm st) Hi Hd) as [Hl Hp].
    pose proof (run_no_panic (extend12_command i d) (st_tpm st)) as Hn. fold (extend12 i d (st_tpm st)) in Hn.
    destruct (extend12 i d (st_tpm st)) as [m r]. cbn [fst snd] in *. split_and!; [done|by constructor|].
    intros ->. cbn [le_digests sha1_entry]. rewrite <- Hd, sub_all. by apply Hp.
  - cbn [format_of entry_of le_digests agile_entry]. unfold on_tpm. rewrite Hds.
    pose proof (bank_digests_fit (st_banks st) data i (b_banks _ _ Hb)) as Hfit.
    destruct (pcr_extend_spec i _ (st_tpm st) Hi Hfit) as [Hl Hp].
    pose proof (run_no_panic (extend_command i (bank_digests (st_banks st) data i)) (st_tpm st)) as Hn.
    fold (pcr_extend i (bank_digests (st_banks st) data i) (st_tpm st)) in Hn.
    destruct (pcr_extend _ _ _) as [m r]. cbn [fst snd] in *. split_and!; [done|by constructor|].
    intros ->. by apply Hp.
Qed.

(** What a measurement logs has its field widths. *)
Lemma entry_of_fits st es i data event_type event ds :
  base st es -> 0 <= i < 2 ^ 32 -> 0 <= event_type < 2 ^ 32 -> zlen event < 2 ^ 32 ->
  Forall (fun p => zlen p.2 = MAX_DIGEST_SIZE) ds -> digests_iter ds = bank_digests (st_banks st) data i ->
  entry_fits (entry_of (el_format (st_log st)) i event_type ds event) /\
  le_agile (entry_of (el_format (st_log st)) i event_type ds event) = is_agile (el_format (st_log st)) /\
  le_pcr (entry_of (el_format (st_log st)) i event_type ds event) = i /\
  le_type (entry_of (el_format (st_log st)) i event_type ds event) = event_type.
Proof.
  intros Hb Hi Ht He Hs Hds. destruct (el_format (st_log st)); cbn [entry_of]; split_and!; try done.
  - constructor; cbn; try done. set (d := default (zeros 20) (digests_get ds ALG_SHA1)).
    assert (Hd : zlen d = 20).
    { unfold d. destruct (digests_get ds ALG_SHA1) eqn:Hg; [|done]. cbn. by eapply digests_get_sha1. }
    exists (sub d 0 20). split; [done|]. apply zlen_sub; lia.
  - constructor; cbn; try done. rewrite Hds. split; [by apply bank_digests_fit, (b_banks _ _ Hb)|].
    unfold bank_digests, zlen. rewrite length_map.
    pose proof (length_filter (fun b => allocated i b.2 = true) (st_banks st)) as Hl.
    destruct (b_banks _ _ Hb) as [_ Hz]. unfold zlen, MAX_BANKS in Hz. lia.
Qed.

(** What a measurement must look like to be logged as one. *)
Record event_ok (i event_type : Z) (event : list Z) : Prop := {
  eo_pcr : 0 <= i < 2 ^ 32; eo_type : 0 <= event_type < 2 ^ 32; eo_data : zlen event < 2 ^ 32;
  eo_visible : i <> 0 \/ event_type <> 0
}.

Lemma append_log_spec st es i data event_type event ds :
  base st es -> event_ok i event_type event -> Forall (fun p => zlen p.2 = MAX_DIGEST_SIZE) ds ->
  digests_iter ds = bank_digests (st_banks st) data i ->
  let e := entry_of (el_format (st_log st)) i event_type ds event in
  exists log r, append_log i event_type ds event st = (set_log st log, r) /\ r <> Panic /\
    base (set_log st log) (match r with Ok _ => es ++ [e] | _ => es end).
Proof.
  intros Hb [Hi Ht He Hv] Hs Hds e. unfold append_log.
  destruct (entry_of_fits st es i data event_type event ds Hb Hi Ht He Hs Hds) as (Hfit & Hag & Hp & Hty).
  fold e in Hfit, Hag, Hp, Hty.
  pose proof (append_spec (st_log st) es i event_type ds event (b_log _ _ Hb) Hs) as Ha. fold e in Ha.
  destruct (append i event_type ds event (st_log st)) as [log [u|[]|]]; cbn [appended] in Ha; [| |done].
  - destruct Ha as (Hl & _ & Hf & _). exists log, (Ok u). split_and!; [done|done|].
    destruct Hb as [Hbanks H12 Hbf _ Hshape Hlk]. constructor; cbn; rewrite ?Hf; try done.
    apply log_shape_snoc; [done..| |done]. unfold visible. rewrite Hp, Hty. done.
  - destruct Ha as [-> _]. exists (st_log st), (Err Full). split_and!; [done|done|]. by destruct Hb.
Qed.

(** What a round of [fail] keeps. *)
Record same_measure (st st' : State M) : Prop := {
  sm_family : st_family st' = st_family st; sm_banks : st_banks st' = st_banks st;
  sm_failed : st_failed st' = st_failed st; sm_locked : st_locked st' = st_locked st
}.

Lemma capped_unchanged st st' j :
  st_banks st' = st_banks st ->
  (forall a, has_pcr a j -> pcr (st_tpm st') a j = pcr (st_tpm st) a j) -> capped st j -> capped st' j.
Proof. intros Hb Hp Hc alg mask Hin Ha Hh. rewrite Hb in Hin. rewrite (Hp alg Hh). eauto. Qed.

(** Extending all banks with one value, at least once in the bank. *)
Lemma extended_last alg v banks i data mask :
  (alg, mask) ∈ banks -> allocated i mask = true ->
  exists v', extended alg v (bank_digests banks data i) = pcr_digest alg (v' ++ pcr_digest alg data).
Proof.
  unfold extended, bank_digests. intros Hin Ha. revert v.
  set (P := fun w => exists v', w = pcr_digest alg (v' ++ pcr_digest alg data)).
  assert (Hkeep : forall l v, P v -> P (fold_left (fun v '(a, d) => if a =? alg then pcr_digest alg (v ++ d) else v)
    (map (fun b : Z * Z => (b.1, pcr_digest b.1 data)) l) v)).
  { induction l as [|[a m] l IH]; intros v Hv; [done|]. cbn [map fold_left fst]. apply IH.
    destruct (Z.eqb_spec a alg) as [->|]; [by eexists|done]. }
  induction banks as [|[a m] banks IH]; [by apply elem_of_nil in Hin|]. intros v.
  rewrite filter_cons. apply elem_of_cons in Hin as [[= -> ->]|Hin].
  - rewrite decide_True by done. cbn [map fold_left fst]. rewrite Z.eqb_refl. apply Hkeep. by eexists.
  - case_decide; [cbn [map fold_left fst]|]; by apply IH.
Qed.

(** The entry of a measurement of [data] extends every bank that has the PCR
    with the digest of [data] last. *)
Lemma entry_extends st es i data event_type event ds alg mask v :
  base st es -> digests_iter ds = bank_digests (st_banks st) data i ->
  (alg, mask) ∈ st_banks st -> allocated i mask = true ->
  exists v', extended alg v (le_digests (entry_of (el_format (st_log st)) i event_type ds event)) =
    pcr_digest alg (v' ++ pcr_digest alg data).
Proof.
  intros Hb Hds Hin Ha. rewrite (b_format _ _ Hb). destruct (st_family st) eqn:Hf; cbn [format_of entry_of].
  - rewrite (b_tpm12 _ _ Hb Hf) in *. apply list_elem_of_singleton in Hin as [= -> ->].
    unfold digests_get. rewrite Hds. unfold bank_digests. rewrite filter_cons, decide_True by done.
    cbn [map fst List.find]. rewrite Z.eqb_refl. cbn [fmap option_fmap option_map snd sha1_entry le_digests].
    change (default (zeros 20) (Some ?d)) with d. unfold extended. cbn [fold_left]. rewrite Z.eqb_refl.
    pose proof (pcr_digest_size ALG_SHA1 20 data eq_refl) as Hz. rewrite <- Hz, sub_all. by eexists.
  - cbn [le_digests agile_entry]. rewrite Hds. by eapply extended_last.
Qed.

(** A round of [fail] caps its PCR unless it says otherwise. *)
Lemma cap_spec i st es :
  base st es -> i ∈ pcrs_0_7 ->
  exists st' es', cap i st = (st', Ok tt) /\ base st' es' /\ same_measure st st' /\
    (st_cap_failed st' = false -> st_cap_failed st = false /\ capped st' i /\
       forall j, j <> i -> capped st j -> capped st' j).
Proof.
  intros Hb Hi. destruct (digests_spec st (le_enc 4 1) i (b_banks _ _ Hb)) as (ds & Hd & Hs & Hds).
  assert (Hev : event_ok i EV_SEPARATOR (le_enc 4 1)).
  { constructor; [|done..|by right]. unfold pcrs_0_7 in Hi.
    repeat (apply elem_of_cons in Hi as [->|Hi]; [done|]). by apply elem_of_nil in Hi. }
  destruct (extend_spec st es i (le_enc 4 1) EV_SEPARATOR (le_enc 4 1) ds Hb (eo_pcr _ _ _ Hev) Hs Hds) as (Hn & Hstep & Hp).
  unfold cap, sbind at 1. rewrite Hd. unfold sbind at 1, is_ok at 1.
  destruct (extend i ds st) as [st1 r] eqn:He. cbn [fst snd] in *.
  pose proof (base_tpm_step _ _ _ Hb Hstep) as Hb1. destruct Hstep as [Heq Hl].
  assert (Hgo : forall (ok : bool) st2, st2 = (if ok then st1 else set_cap_failed st1) ->
    exists st' es', (let! _ := is_ok (append_log i EV_SEPARATOR ds (le_enc 4 1)) in slift (Ok tt) : sres (State M) TpmError unit) st2 = (st', Ok tt) /\
      base st' es' /\ same_measure st st' /\ st_tpm st' = st_tpm st1 /\
      st_cap_failed st' = (if ok then st_cap_failed st else true)).
  { intros ok st2 ->. assert (Hb2 : base (if ok then st1 else set_cap_failed st1) es) by (destruct ok, Hb1; by constructor).
    assert (Hds2 : digests_iter ds = bank_digests (st_banks (if ok then st1 else set_cap_failed st1)) (le_enc 4 1) i)
      by (rewrite Hds, Heq; by destruct ok).
    destruct (append_log_spec _ _ i (le_enc 4 1) EV_SEPARATOR (le_enc 4 1) ds Hb2 Hev Hs Hds2) as (log & ra & Ha & Hna & Hb3).
    unfold sbind, is_ok. rewrite Ha. destruct ra; [| |done]; eexists _, _; (split; [done|]; split; [exact Hb3|]);
      rewrite Heq; destruct ok; split_and!; try done; by constructor. }
  destruct r as [[]|e|]; [| |done].
  - destruct (Hgo true st1 eq_refl) as (st' & es' & Hrun & Hb' & Hsm & Htpm & Hcf). exists st', es'.
    unfold sbind at 1. split_and!; [exact Hrun|done|done|]. intros Hc. rewrite Hcf in Hc.
    specialize (Hp eq_refl). destruct Hp as [_ Hp]. split_and!; [done| |].
    + intros alg mask Hin Ha Hh. rewrite (sm_banks _ _ Hsm) in Hin. rewrite Htpm, Hp, Z.eqb_refl by done.
      by eapply entry_extends.
    + intros j Hj. apply capped_unchanged; [apply Hsm|]. intros a Hh. rewrite Htpm, Hp by done.
      by rewrite (proj2 (Z.eqb_neq _ _) Hj).
  - destruct (Hgo false _ eq_refl) as (st' & es' & Hrun & Hb' & Hsm & Htpm & Hcf). exists st', es'.
    unfold sbind at 1. split_and!; [exact Hrun|done|done|]. intros Hc. by rewrite Hcf in Hc.
Qed.

Lemma caps_spec l : forall st es,
  base st es -> (forall i, i ∈ l -> i ∈ pcrs_0_7) -> NoDup l ->
  exists st' es', sfor_each l cap st = (st', Ok tt) /\ base st' es' /\ same_measure st st' /\
    (st_cap_failed st' = false -> st_cap_failed st = false /\ (forall i, i ∈ l -> capped st' i) /\
       forall j, j ∉ l -> capped st j -> capped st' j).
Proof.
  induction l as [|i l IH]; intros st es Hb Hin Hnd; cbn [sfor_each].
  { exists st, es. split_and!; [done|done|by constructor|]. intros Hc. split_and!; [done| |done].
    intros i Hi. by apply elem_of_nil in Hi. }
  apply list.NoDup_cons in Hnd as [Hni Hnd].
  destruct (cap_spec i st es Hb) as (st1 & es1 & Hc1 & Hb1 & Hs1 & Hk1); [by apply Hin, elem_of_cons; left|].
  destruct (IH st1 es1 Hb1) as (st2 & es2 & Hc2 & Hb2 & Hs2 & Hk2); [|done|].
  { intros j Hj. apply Hin, elem_of_cons. by right. }
  exists st2, es2. unfold sbind. rewrite Hc1. split_and!; [done|done| |].
  - destruct Hs1, Hs2. constructor; congruence.
  - intros Hcf. destruct (Hk2 Hcf) as (Hcf1 & Hl & Ho). destruct (Hk1 Hcf1) as (Hcf0 & Hi & Hoi). split_and!; [done| |].
    + intros j [->|Hj]%elem_of_cons; [|auto]. by apply Ho.
    + intros j Hj Hcj. rewrite not_elem_of_cons in Hj. destruct Hj as [Hj1 Hj2]. auto.
Qed.

Lemma fail_spec initial st es :
  base st es -> exists st', fail st = (st', Ok tt) /\ sound initial st' /\ st_failed st' = true.
Proof.
  intros Hb. unfold fail, sbind.
  destruct (caps_spec pcrs_0_7 (set_failed st) es) as (st' & es' & Hc & Hb' & Hs & Hk).
  - by destruct Hb.
  - done.
  - apply (bool_decide_unpack _). vm_compute. exact I.
  - exists st'. split_and!; [exact Hc| |by rewrite (sm_failed _ _ Hs)].
    pose proof (sm_failed _ _ Hs) as Hf. cbn in Hf. constructor; rewrite ?Hf; try done.
    + by exists es'.
    + intros _ Hcf. by apply Hk.
Qed.

(** A measurement leaves the state sound, and never fails. *)
Lemma record_event_spec initial st i event_type data event ds :
  sound initial st -> event_ok i event_type event -> event_type <> EV_NO_ACTION ->
  Forall (fun p => zlen p.2 = MAX_DIGEST_SIZE) ds -> digests_iter ds = bank_digests (st_banks st) data i ->
  exists st', record_event i event_type ds event st = (st', Ok tt) /\ sound initial st'.
Proof.
  intros Hsd Hev Ht Hs Hds. unfold record_event. destruct (st_failed st) eqn:Hf; [by eexists|].
  pose proof (sd_base _ _ Hsd) as (es & Hb & Hr). pose proof (sd_uncapped _ _ Hsd Hf) as Hcf.
  destruct (extend_spec st es i data event_type event ds Hb (eo_pcr _ _ _ Hev) Hs Hds) as (Hn & Hstep & Hp).
  unfold sor_else, sbind. destruct (extend i ds st) as [st1 r]. cbn [fst snd] in *.
  pose proof (base_tpm_step _ _ _ Hb Hstep) as Hb1. destruct Hstep as [Heq _].
  destruct r as [[]|e|]; [|destruct (fail_spec initial st1 es Hb1) as (st' & Hfl & Hsd' & _); by exists st'|done].
  specialize (Hp eq_refl). destruct Hp as [_ Hp].
  assert (Hds1 : digests_iter ds = bank_digests (st_banks st1) data i) by (rewrite Hds, Heq; done).
  destruct (append_log_spec st1 es i data event_type event ds Hb1 Hev Hs Hds1) as (log & ra & Ha & Hna & Hb2).
  unfold smap_err. rewrite Ha. destruct ra as [u|e|]; cbn [map_err]; [| |done].
  2:{ destruct (fail_spec initial _ es Hb2) as (st' & Hfl & Hsd' & _); by exists st'. }
  destruct u. eexists. split; [done|]. assert (Hl : st_log st1 = st_log st) by (rewrite Heq; done).
  assert (Hf1 : st_failed st1 = false) by (rewrite Heq; done).
  destruct (entry_of_fits st es i data event_type event ds Hb (eo_pcr _ _ _ Hev) (eo_type _ _ _ Hev) (eo_data _ _ _ Hev) Hs Hds)
    as (_ & _ & Hpcr & Htype). constructor; cbn; rewrite ?Hf1; try done.
  - eexists. split; [exact Hb2|]. intros _ a j Hh. rewrite Hl, replay_snoc by congruence.
    rewrite Hpcr, (Hp a j Hh), (Hr Hf a j Hh). by destruct (Z.eqb_spec j i) as [->|].
  - intros _. rewrite Heq. done.
Qed.

(** Changes of the TPM that PCRs and locks do not notice. *)
Lemma sound_quiet initial st m : sound initial st -> quiet (st_tpm st) m -> sound initial (set_tpm st m).
Proof.
  intros [(es & Hb & Hr) Hu Hc] [Hs Hl]. constructor; cbn; auto.
  - exists es. split; [by apply (base_tpm_step st)|]. intros Hf a i Hh. rewrite (Hs a i Hh). auto.
  - intros Hf Hcf i Hi. apply (capped_unchanged st); [done| |auto]. intros a Hh. apply (Hs a i Hh).
Qed.

Lemma sound_on_tpm {A} initial st (f : sres M TpmError A) :
  sound initial st -> quiet (st_tpm st) (fst (f (st_tpm st))) -> sound initial (fst (on_tpm f st)).
Proof. intros Hs Hq. unfold on_tpm. destruct (f (st_tpm st)). by apply sound_quiet. Qed.

Lemma sor_else_keeps {S E F A} (R : S -> S -> Prop) `{!Transitive R} (m : sres S E A) (h : E -> sres S F A) s :
  R s (fst (m s)) -> (forall e, snd (m s) = Err e -> R (fst (m s)) (fst (h e (fst (m s))))) -> R s (fst (sor_else m h s)).
Proof. unfold sor_else. destruct (m s) as [s1 [a|e|]]; cbn; intros H1 H2; [done|etrans; eauto|done]. Qed.

Lemma sor_else_no_panic {S E F A} (m : sres S E A) (h : E -> sres S F A) s :
  snd (m s) <> Panic -> (forall e, snd (m s) = Err e -> snd (h e (fst (m s))) <> Panic) -> snd (sor_else m h s) <> Panic.
Proof. unfold sor_else. destruct (m s) as [s1 [a|e|]]; cbn; auto. Qed.

(** Locking a TPM 2.0 puts its platform hierarchy out of reach. *)
Lemma protect_platform_spec (m : M) :
  quiet m (fst (protect_platform m)) /\ snd (protect_platform m) <> Panic /\
  (snd (protect_platform m) = Ok tt -> out_of_reach (fst (protect_platform m))).
Proof.
  assert (Hrp : 0 <= RH_PLATFORM < 2 ^ 32) by done.
  unfold protect_platform. split_and!.
  - apply (sor_else_keeps quiet).
    + apply (sbind_keeps quiet); [apply get_random_quiet|]. intros auth Ha.
      destruct (get_random 32 m) as [m1 r] eqn:Hg. cbn [fst snd] in *. subst r.
      apply get_random_Ok in Hg; [|done]. apply change_auth_spec; [done|lia].
    + intros e _. by apply disable_spec.
  - apply sor_else_no_panic; [|intros; apply run_no_panic].
    apply sbind_no_panic; [apply get_random_no_panic|]. intros auth _. apply run_no_panic.
  - unfold sor_else, sbind. destruct (get_random 32 m) as [m1 [auth|e|]] eqn:Hg; [| |done].
    + apply get_random_Ok in Hg; [|done].
      destruct (change_auth_spec RH_PLATFORM auth m1 Hrp) as [_ Hp]; [lia|].
      destruct (hierarchy_change_auth RH_PLATFORM auth m1) as [m2 [[]|e|]]; [| |done].
      * intros _. destruct (Hp m2 eq_refl) as (_ & _ & Hset). left. apply Hset; [done|]. by intros ->.
      * destruct (disable_spec RH_PLATFORM RH_PLATFORM m2 Hrp Hrp) as [_ Hd].
        destruct (hierarchy_control RH_PLATFORM RH_PLATFORM false m2) as [m3 r]. cbn [fst snd]. intros ->.
        destruct (Hd m3 eq_refl) as [_ Hdis]. right. by apply Hdis.
    + destruct (disable_spec RH_PLATFORM RH_PLATFORM m1 Hrp Hrp) as [_ Hd].
      destruct (hierarchy_control RH_PLATFORM RH_PLATFORM false m1) as [m3 r]. cbn [fst snd]. intros ->.
      destruct (Hd m3 eq_refl) as [_ Hdis]. right. by apply Hdis.
Qed.

(** Locking a TPM 1.2: the command is performed, or the flags say that there is
    nothing left to lock. *)
Definition lock_tpm12 : sres M TpmError unit :=
  sor_else (physical_presence (Z.lor PP_NOTPRESENT PP_LOCK)) (fun error =>
    let! volatile := volatile_flags in
    let! permanent := permanent_flags in
    let safe := negb (vf_physical_presence volatile)
      && (vf_physical_presence_lock volatile || (pf_lifetime_lock permanent && negb (pf_cmd_enable permanent))) in
    slift (if safe then Ok tt else Err error)).

Lemma lock_tpm12_spec (m : M) :
  quiet m (fst (lock_tpm12 m)) /\ snd (lock_tpm12 m) <> Panic /\
  (snd (lock_tpm12 m) = Ok tt -> presence_locked (fst (lock_tpm12 m))).
Proof.
  unfold lock_tpm12. split_and!.
  - apply (sor_else_keeps quiet); [apply lock_presence_spec|]. intros e _.
    apply (sbind_keeps quiet); [apply flags_quiet|]. intros v _.
    apply (sbind_keeps quiet); [apply flags_quiet|]. intros p _. done.
  - apply sor_else_no_panic; [apply run_no_panic|]. intros e _.
    apply sbind_no_panic; [apply volatile_flags_no_panic|]. intros v _.
    apply sbind_no_panic; [apply permanent_flags_no_panic|]. intros p _. cbn. by case_match.
  - unfold sor_else, sbind. destruct (lock_presence_spec m) as [_ Hl].
    destruct (physical_presence _ m) as [m1 [[]|e|]]; [|clear Hl|done].
    { intros _. by destruct (Hl m1 eq_refl) as [_ [_ ?]]. }
    destruct (volatile_flags m1) as [m2 [v|e'|]] eqn:Hv; [|done..]. apply volatile_flags_spec in Hv as [Habs Hbar].
    pose proof (flags_quiet CAP_FLAG_PERMANENT 0x1F (let! b := rd_flags 9 in slift (Ok {|
      pf_disable := flag b 0; pf_ownership := flag b 1; pf_deactivated := flag b 2;
      pf_lifetime_lock := flag b 6; pf_hw_enable := flag b 7; pf_cmd_enable := flag b 8 |})) m2) as [_ Hk].
    fold (permanent_flags (M := M)) in Hk. destruct (permanent_flags m2) as [m3 [p|e'|]] eqn:Hp; [|done..].
    pose proof (permanent_flags_spec _ _ _ Hp) as Hperm. cbn [fst snd] in *. unfold slift. cbn [fst snd].
    destruct (_ && _) eqn:Hsafe; [|done]. intros _. apply andb_true_iff in Hsafe as [H1 H2]. apply negb_true_iff in H1.
    split; [by apply (lk_absent _ _ Hk), Habs|]. apply orb_true_iff in H2 as [H2|H2]; [by apply (lk_barred _ _ Hk), Hbar|].
    apply andb_true_iff in H2 as [H2 H3]. apply negb_true_iff in H3. by apply Hperm.
Qed.

Lemma lock_result_spec initial st :
  sound initial st ->
  let out := lock_result st in
  sound initial (fst out) /\ snd out <> Panic /\ fst out = set_tpm st (st_tpm (fst out)) /\
  (snd out = Ok tt -> locked_down (st_family st) (st_tpm (fst out))).
Proof.
  intros Hs out. unfold out, lock_result. fold lock_tpm12. destruct (st_family st); cbn [locked_down].
  - destruct (lock_tpm12_spec (st_tpm st)) as (Hq & Hn & Hr). split; [by apply sound_on_tpm|]. unfold on_tpm.
    destruct (lock_tpm12 (st_tpm st)) as [m r]. cbn in *. split_and!; auto.
  - destruct (protect_platform_spec (st_tpm st)) as (Hq & Hn & Hr). split; [by apply sound_on_tpm|]. unfold on_tpm.
    destruct (protect_platform (st_tpm st)) as [m r]. cbn in *. split_and!; auto.
Qed.

Lemma lock_state_spec initial st :
  sound initial st ->
  let out := lock_state st in
  sound initial (fst out) /\ snd out <> Panic /\
  st_family (fst out) = st_family st /\ st_failed (fst out) = st_failed st /\
  (snd out = Ok tt -> st_locked (fst out) = true).
Proof.
  intros Hs out. unfold out, lock_state. destruct (st_locked st) eqn:Hl; [by split_and!|].
  destruct (lock_result_spec initial st Hs) as (Hs' & Hn & Heq & Hr). cbn zeta in *.
  destruct (lock_result st) as [st1 r]. cbn [fst snd] in *.
  assert (Hgo : forall b, (b = true -> r = Ok tt) -> sound initial (set_locked st1 b)).
  { intros b Hb. destruct Hs' as [(es & [] & Hrep) Hu Hc]. constructor; cbn; auto.
    exists es. split; [|done]. constructor; cbn; auto. intros Hbt. rewrite Heq. cbn. auto. }
  destruct r as [[]|e|]; [| |done]; cbn [fst snd]; (split; [by apply Hgo|]); rewrite Heq; by split_and!.
Qed.
End sound.

(** ** Starting *)

Section start.
Context {T : Target} {PH : PcrHash} {PL : PcrHashLaws PH}.
Context {M : Type} {TM : Transport M} {D : TpmDevice M} {L : TpmLaws PH M TM D}.

Lemma digest_size_alg alg n : digest_size alg = Some n -> 0 <= alg < 2 ^ 16.
Proof.
  unfold digest_size, ALG_SHA1, ALG_SHA256, ALG_SHA384, ALG_SHA512. intros Hs. repeat case_match; bool_hyp; lia || done.
Qed.

Lemma select_banks_spec (allocated : Banks) :
  select_banks allocated <> Panic /\ forall banks, select_banks allocated = Ok banks -> banks_ok banks.
Proof.
  unfold select_banks. assert (Hgo : forall acc, banks_ok acc ->
    fold_each allocated acc (fun banks '(alg, pcrs) =>
      fail_if bool_decide (digest_size alg = None) || (zlen banks =? MAX_BANKS) with UnsupportedBank alg;
      Ok (banks ++ [(alg, pcrs)])) <> Panic /\
    forall banks, fold_each allocated acc (fun banks '(alg, pcrs) =>
      fail_if bool_decide (digest_size alg = None) || (zlen banks =? MAX_BANKS) with UnsupportedBank alg;
      Ok (banks ++ [(alg, pcrs)])) = Ok banks -> banks_ok banks).
  { induction allocated as [|[alg pcrs] l IH]; intros acc Hacc; cbn [fold_each].
    { split; [done|]. by intros banks [= <-]. }
    case_bool_decide as Hd; [done|]. destruct (Z.eqb_spec (zlen acc) MAX_BANKS) as [|Hz]; [done|].
    cbn [orb rbind]. apply IH. destruct Hacc as [Hf Hm]. split.
    - apply list.Forall_app. split; [done|]. constructor; [|done]. cbn. destruct (digest_size alg) eqn:Hs; [|done].
      split; [by eapply digest_size_alg|by eexists].
    - rewrite zlen_app. change (zlen [_]) with 1. lia. }
  apply Hgo. by split.
Qed.

(** What a successful [prepare] hands to the state. *)
Definition prepared (family : Family) (p : list (Z * Z) * EventLog) : Prop :=
  banks_ok (fst p) /\ (family = Tpm12 -> fst p = [(ALG_SHA1, u32_max)]) /\ fresh_log (format_of family) (snd p).

Lemma smap_err_no_panic {S E F A} (f : E -> F) (m : sres S E A) s : snd (m s) <> Panic -> snd (smap_err f m s) <> Panic.
Proof. unfold smap_err. by destruct (m s) as [s' [a|e|]]. Qed.

Lemma is_ok_no_panic {S E F A} (m : sres S E A) s : snd (m s) <> Panic -> snd ((is_ok m : sres S F bool) s) <> Panic.
Proof. unfold is_ok. by destruct (m s) as [s' [a|e|]]. Qed.

Lemma prepare_tpm12_no_panic (m : M) : snd (prepare_tpm12 m) <> Panic.
Proof.
  unfold prepare_tpm12.
  apply sbind_no_panic; [apply smap_err_no_panic, run_no_panic|]. intros _ _.
  apply sbind_no_panic; [apply smap_err_no_panic, permanent_flags_no_panic|]. intros flags _.
  apply sbind_no_panic; [case_match; [|done]; apply sbind_no_panic; [apply is_ok_no_panic, run_no_panic|done]|]. intros _ _.
  apply sbind_no_panic; [apply is_ok_no_panic, run_no_panic|]. intros _ _.
  apply sbind_no_panic; [apply smap_err_no_panic, volatile_flags_no_panic|]. intros volatile _. cbn. by case_match.
Qed.

Lemma prepare_no_panic family area class uefi (m : M) : snd (prepare family area class uefi m) <> Panic.
Proof.
  unfold prepare. destruct family.
  - apply sbind_no_panic; [apply prepare_tpm12_no_panic|]. intros _ _.
    apply sbind_no_panic; [|done]. unfold slift, log_or_full. cbn [snd].
    destruct (log_sha1_spec area class uefi) as [Hp _]. by destruct (log_sha1 area class uefi).
  - apply sbind_no_panic; [apply smap_err_no_panic, self_test_no_panic|]. intros _ _.
    apply sbind_no_panic; [apply smap_err_no_panic, pcr_banks_no_panic|]. intros allocated _.
    apply sbind_no_panic; [apply select_banks_spec|]. intros banks _.
    case_bool_decide; [done|]. apply sbind_no_panic; [|done]. unfold slift, log_or_full. cbn [snd].
    destruct (log_crypto_agile_spec area (map fst banks) class) as [Hp _]. by destruct (log_crypto_agile _ _ _).
Qed.

Lemma prepare_Ok family area class uefi (m m' : M) p :
  prepare family area class uefi m = (m', Ok p) -> prepared family p.
Proof.
  unfold prepare. intros Hp. destruct family.
  - apply sbind_Ok in Hp as (u & m1 & _ & Hp). apply sbind_Ok in Hp as (log & m2 & Hl & Hp).
    apply slift_Ok in Hp as [_ [= <-]]. apply slift_Ok in Hl as [_ Hl].
    unfold log_or_full in Hl. destruct (log_sha1_spec area class uefi) as [_ Hs].
    destruct (log_sha1 area class uefi) as [log'|e|]; [|done..]. injection Hl as <-.
    split_and!; [split; [constructor; [split; [done|by eexists]|done]|done]|done|by apply Hs].
  - apply sbind_Ok in Hp as (u & m1 & _ & Hp). apply sbind_Ok in Hp as (allocated & m2 & _ & Hp).
    apply sbind_Ok in Hp as (banks & m3 & Hb & Hp). apply slift_Ok in Hb as [_ Hb].
    case_bool_decide; [done|]. apply sbind_Ok in Hp as (log & m4 & Hl & Hp).
    apply slift_Ok in Hp as [_ [= <-]]. apply slift_Ok in Hl as [_ Hl].
    unfold log_or_full in Hl. destruct (log_crypto_agile_spec area (map fst banks) class) as [_ Hs].
    destruct (log_crypto_agile _ _ _) as [log'|e|]; [|done..]. injection Hl as <-.
    split_and!; [by eapply select_banks_spec|done|by apply Hs].
Qed.

Lemma start_tpm_no_panic (m : M) : snd (start_tpm m) <> Panic.
Proof.
  unfold start_tpm. pose proof (startup_no_panic SuClear m) as Hn.
  destruct (startup SuClear m) as [m1 [[]|[]|]]; try done. case_match; [done|]. case_match; [|done].
  pose proof (run_no_panic (cmd_u16 (cmd_new TAG_RQU_COMMAND ORD_STARTUP) (startup12_u16 St12Clear)) m1) as Hn1.
  fold (startup12 St12Clear m1) in Hn1. destruct (startup12 St12Clear m1) as [m2 [[]|[]|]]; try done. by case_match.
Qed.

(** PCR [i] was last extended by the TPM with the digest of [data], in every bank. *)
Definition event_capped (data : list Z) (m : M) (i : Z) : Prop :=
  forall a, has_pcr a i -> exists v, pcr m a i = pcr_digest a (v ++ pcr_digest a data).

(** A TPM 2.0 hidden from the operating system. *)
Record hidden (m : M) : Prop := {
  hd_endorsement : disabled m RH_ENDORSEMENT; hd_owner : disabled m RH_OWNER;
  hd_platform : out_of_reach m; hd_pcrs : forall i, i ∈ pcrs_0_7 -> event_capped (le_enc 4 0) m i
}.

Lemma event_capped_kept data m m' i : same_pcrs m m' -> event_capped data m i -> event_capped data m' i.
Proof. intros Hs Hc a Hh. rewrite (Hs a i Hh). auto. Qed.

Lemma is_ok_spec {F A} (f : sres M TpmError A) m :
  snd (f m) <> Panic ->
  exists b, (is_ok f : sres M F bool) m = (fst (f m), Ok b) /\ (b = true -> exists a, snd (f m) = Ok a).
Proof.
  unfold is_ok. destruct (f m) as [m' [a|e|]]; cbn; intros Hn; [| |done].
  - exists true. split; [done|]. by exists a.
  - by exists false.
Qed.

(** The PCRs of [l] are extended one after the other. *)
Lemma all_ok_events {F} l data m :
  (forall i, i ∈ l -> 0 <= i < 2 ^ 32) -> NoDup l -> zlen data < 2 ^ 16 ->
  exists m' b, (all_ok l (fun pcr => pcr_event pcr data) : sres M F bool) m = (m', Ok b) /\ locks_kept m m' /\
    (b = true -> (forall i, i ∈ l -> event_capped data m' i) /\
       forall a j, has_pcr a j -> j ∉ l -> pcr m' a j = pcr m a j).
Proof.
  intros Hl Hnd Hd. revert m. induction l as [|i l IH]; intros m; cbn [all_ok].
  { exists m, true. split_and!; [done|done|]. intros _. split; [|done]. intros i Hi. by apply elem_of_nil in Hi. }
  apply list.NoDup_cons in Hnd as [Hni Hnd].
  destruct (pcr_event_spec i data m) as [Hk Hp]; [by apply Hl, elem_of_cons; left|done|].
  assert (Hn : snd (pcr_event i data m) <> Panic) by apply run_no_panic.
  destruct (is_ok_spec (F := F) (pcr_event i data) m Hn) as (b1 & Hb1 & Hok).
  unfold sbind. rewrite Hb1. destruct (IH) with (m := fst (pcr_event i data m)) as (m' & b2 & H2 & Hk2 & Hc2); [|done|].
  { intros j Hj. apply Hl, elem_of_cons. by right. }
  rewrite H2. exists m', (b1 && b2). split_and!; [done|by etrans|]. intros [-> ->]%andb_true_iff.
  destruct (Hok eq_refl) as [[] Hr]. destruct (Hc2 eq_refl) as [Hc Hs].
  destruct (pcr_event i data m) as [m1 r]. cbn [fst snd] in *. subst r. destruct (Hp m1 eq_refl) as [_ Hp1]. split.
  - intros j [->|Hj]%elem_of_cons; [|auto]. intros a Hh. rewrite (Hs a i Hh Hni), (Hp1 a i Hh), Z.eqb_refl. by eexists.
  - intros a j Hh Hj. rewrite not_elem_of_cons in Hj. destruct Hj as [Hji Hj].
    rewrite (Hs a j Hh Hj), (Hp1 a j Hh). by rewrite (proj2 (Z.eqb_neq _ _) Hji).
Qed.

Lemma hide_tpm20_spec m :
  exists m' b, hide_tpm20 m = (m', Ok b) /\ (b = true -> hidden m').
Proof.
  assert (Hrp : 0 <= RH_PLATFORM < 2 ^ 32) by done.
  assert (Hre : 0 <= RH_ENDORSEMENT < 2 ^ 32) by done. assert (Hro : 0 <= RH_OWNER < 2 ^ 32) by done.
  unfold hide_tpm20, sbind.
  destruct (disable_spec RH_PLATFORM RH_ENDORSEMENT m Hrp Hre) as [Hq1 Hp1].
  destruct (is_ok_spec (F := StartError) (hierarchy_control RH_PLATFORM RH_ENDORSEMENT false) m) as (b1 & -> & Hok1); [apply run_no_panic|].
  destruct (hierarchy_control RH_PLATFORM RH_ENDORSEMENT false m) as [m1 r1]. cbn [fst snd] in *.
  destruct (disable_spec RH_PLATFORM RH_OWNER m1 Hrp Hro) as [Hq2 Hp2].
  destruct (is_ok_spec (F := StartError) (hierarchy_control RH_PLATFORM RH_OWNER false) m1) as (b2 & -> & Hok2); [apply run_no_panic|].
  destruct (hierarchy_control RH_PLATFORM RH_OWNER false m1) as [m2 r2]. cbn [fst snd] in *.
  destruct (all_ok_events (F := StartError) pcrs_0_7 (le_enc 4 0) m2) as (m3 & b3 & -> & Hk3 & Hc3); [| |done|].
  { intros i Hi. unfold pcrs_0_7 in Hi. repeat (apply elem_of_cons in Hi as [->|Hi]; [done|]). by apply elem_of_nil in Hi. }
  { apply (bool_decide_unpack _). vm_compute. exact I. }
  destruct (protect_platform_spec m3) as (Hq4 & Hn4 & Hr4).
  destruct (is_ok_spec (F := StartError) protect_platform m3 Hn4) as (b4 & -> & Hok4).
  destruct (protect_platform m3) as [m4 r4]. cbn [fst snd release_tpm slift] in *.
  destruct (release_same m4) as [Hs5 Hl5].
  eexists _, _. split; [done|]. intros [[[-> ->]%andb_true_iff ->]%andb_true_iff ->]%andb_true_iff.
  destruct (Hok1 eq_refl) as [[] ->]. destruct (Hok2 eq_refl) as [[] ->]. destruct (Hok4 eq_refl) as [[] ->].
  destruct (Hp1 m1 eq_refl) as [_ Hd1]. destruct (Hd1 eq_refl) as [_ Hdis1].
  destruct (Hp2 m2 eq_refl) as [_ Hd2]. destruct (Hd2 eq_refl) as [_ Hdis2].
  assert (Hk : locks_kept m2 (release m4)) by (etrans; [exact Hk3|]; etrans; [apply Hq4|done]).
  constructor.
  - apply Hk, Hq2, Hdis1.
  - apply Hk, Hdis2.
  - eapply out_of_reach_kept; [exact Hl5|]. by apply Hr4.
  - intros i Hi. eapply event_capped_kept; [exact Hs5|]. eapply event_capped_kept; [apply Hq4|]. by apply Hc3.
Qed.

Lemma replay_no_action alg i v es : Forall (fun e => le_type e = EV_NO_ACTION) es -> replay alg i v es = v.
Proof.
  unfold replay. intros Hes. revert v. induction Hes as [|e es He _ IH]; intros v; [done|]. cbn [fold_left].
  rewrite He, Z.eqb_refl. apply IH.
Qed.

(** What is left of the TPM when it was started but not set up. *)
Definition unusable (family : Family) (m : M) : Prop :=
  match family with Tpm20 => hidden m | Tpm12 => presence_locked m end.

(** What a [start] with measured boot off comes to. *)
Definition start_outcome (tpm : M) (g : Global M) (out : Global M * M * res StartError Family) : Prop :=
  match out with
  | (g', m, Ok family) =>
      snd (start_tpm tpm) = Ok family /\
      exists st, g' = {| gl_busy := false; gl_state := Some st |} /\ st_tpm st = m /\ st_family st = family /\
        sound (pcr m) st
  | (g', m, Err e) =>
      g' = g /\
      match start_tpm tpm with
      | (m', Ok family) => e = Unprotected \/ unusable family m
      | (m', Err e') => e = e' /\ m = m'
      | (_, Panic) => False
      end
  | (_, _, Panic) => False
  end.

Lemma protect_spec family (m : M) :
  exists m' b, protect family m = (m', Ok b) /\ (b = true -> unusable family m').
Proof.
  unfold protect. destruct family; [|by apply hide_tpm20_spec].
  destruct (lock_presence_spec m) as [_ Hp].
  destruct (is_ok_spec (F := StartError) (physical_presence (Z.lor PP_NOTPRESENT PP_LOCK)) m) as (b & Hb & Hok); [apply run_no_panic|].
  rewrite Hb. eexists _, b. split; [done|]. intros ->. destruct (Hok eq_refl) as [[] Hr].
  destruct (physical_presence _ m) as [m1 r1]. cbn [fst snd] in *. subst r1.
  destruct (Hp m1 eq_refl) as [_ Hl]. by apply Hl.
Qed.

Lemma start_spec tpm area class uefi (g : Global M) :
  gl_busy g = false -> gl_state g = None -> start_outcome tpm g (start tpm area class uefi g).
Proof.
  intros Hb Hs. unfold start. rewrite Hb, Hs. rewrite bool_decide_false by by intros [? [=]]. cbn [orb].
  unfold start_state, sbind at 1. pose proof (start_tpm_no_panic tpm) as Hn. unfold start_outcome.
  destruct (start_tpm tpm) as [m1 [family|e|]]; [|by split_and!|done]. cbn [snd] in *. clear Hn.
  unfold sbind at 1, sor_else. pose proof (prepare_no_panic family area class uefi m1) as Hn.
  destruct (prepare family area class uefi m1) as [m2 [p|e|]] eqn:Hp; [| |done].
  - apply prepare_Ok in Hp as (Hbanks & H12 & Hf & es & Hl & Hsh & Hna). split; [done|]. eexists. split; [done|].
    split_and!; [done|done|]. constructor; cbn; try done. exists es. split.
    + constructor; cbn; try done. by rewrite Hf.
    + intros _ a i _. by rewrite replay_no_action.
  - unfold sbind. destruct (protect_spec family m2) as (m3 & b & -> & Hu). cbn. split; [done|].
    destruct b; [right; auto|by left].
Qed.
End start.

(** ** The operations between start and hand-off *)

Inductive op :=
| OpMeasure (pcr event_type : Z) (data event : list Z)
| OpMeasureEvent (pcr event_type : Z) (event : list Z)
| OpMeasureBlob (pcr event_type : Z) (description : list Z) (base : Z) (data : list Z)
| OpCrtmVersion (version : list Z)
| OpSeparators
| OpMeasurementError
| OpLock
| OpCheck
| OpHandoff (kind : Handoff).

Definition measured (i event_type : Z) (event : list Z) : Prop :=
  event_ok i event_type event /\ event_type <> EV_NO_ACTION.

(** Measurements are of PCRs and types that a log entry can hold. *)
Definition op_ok (o : op) : Prop :=
  match o with
  | OpMeasure i t _ event | OpMeasureEvent i t event => measured i t event
  | OpMeasureBlob i t _ _ _ => measured i t []
  | _ => True
  end.

Section operations.
Context {T : Target} {PH : PcrHash} {M : Type} {TM : Transport M}.

Definition perform (o : op) (g : Global M) : Global M :=
  match o with
  | OpMeasure i t data event => fst (measure i t data event g)
  | OpMeasureEvent i t event => fst (measure_event i t event g)
  | OpMeasureBlob i t description base data => fst (measure_blob i t description base data g)
  | OpCrtmVersion version => fst (measure_crtm_version version g)
  | OpSeparators => fst (separators g)
  | OpMeasurementError => fst (measurement_error g)
  | OpLock => fst (lock g)
  | OpCheck => fst (check g)
  | OpHandoff kind => fst (handoff kind g)
  end.

Definition performed (ops : list op) (g : Global M) : Global M := fold_left (fun g o => perform o g) ops g.
End operations.

Section api.
Context {T : Target} {PH : PcrHash} {PL : PcrHashLaws PH}.
Context {M : Type} {TM : Transport M} {D : TpmDevice M} {L : TpmLaws PH M TM D}.
Context (initial : Z -> Z -> list Z).

(** Measured boot is on, its state is sound and nobody holds it. *)
Definition running (g : Global M) : Prop :=
  exists st, g = {| gl_busy := false; gl_state := Some st |} /\ sound initial st.

(** An operation on the state that keeps it sound keeps measured boot running. *)
Lemma with_state_spec {A} (f : sres (State M) TpmError A) st :
  snd (f st) <> Panic ->
  with_state f {| gl_busy := false; gl_state := Some st |} =
    ({| gl_busy := false; gl_state := Some (fst (f st)) |}, let? a := snd (f st) in Ok (Some a)).
Proof. unfold with_state. cbn. by destruct (f st) as [st' [a|e|]]. Qed.

Definition keeps_sound {A} (f : sres (State M) TpmError A) : Prop :=
  forall st, sound initial st -> sound initial (fst (f st)) /\ snd (f st) <> Panic.

Lemma with_state_running {A} (f : sres (State M) TpmError A) g :
  keeps_sound f -> running g -> running (fst (with_state f g)).
Proof.
  intros Hf (st & -> & Hs). destruct (Hf st Hs) as [Hs' Hn]. rewrite with_state_spec by done. by eexists.
Qed.

Lemma ignore_fst {A} (m : sres (Global M) TpmError A) g : fst (ignore m g) = fst (m g).
Proof. unfold ignore, sbind. by destruct (m g) as [g' [a|e|]]. Qed.

Lemma measure_sound i t data event :
  measured i t event ->
  forall st, sound initial st ->
    let out := (let! ds := fun st => (st, digests st data i) in record_event i t ds event) st in
    snd out = Ok tt /\ sound initial (fst out).
Proof.
  intros [Hev Ht] st Hs. destruct (sd_base _ _ Hs) as (es & Hb & _).
  destruct (digests_spec st data i (b_banks _ _ Hb)) as (ds & Hd & Hz & Hds). unfold sbind. rewrite Hd.
  destruct (record_event_spec initial st i t data event ds Hs Hev Ht Hz Hds) as (st' & -> & Hs'). done.
Qed.

Lemma measure_running i t data event g : measured i t event -> running g -> running (fst (measure i t data event g)).
Proof.
  intros Hm. unfold measure. rewrite ignore_fst. apply with_state_running. intros st Hs.
  destruct (measure_sound i t data event Hm st Hs) as [Hr Hs']. cbn zeta in *. by rewrite Hr.
Qed.

Lemma separators_sound l st :
  (forall i, i ∈ l -> i ∈ pcrs_0_7) -> sound initial st ->
  let out := (sfor_each l (fun pcr =>
    let! ds := fun st => (st, digests st (le_enc 4 0) pcr) in
    record_event pcr EV_SEPARATOR ds (le_enc 4 0)) : sres (State M) TpmError unit) st in
  snd out = Ok tt /\ sound initial (fst out).
Proof.
  intros Hl. set (f := fun pcr : Z => _). intros Hs.
  assert (Hf : forall i st, i ∈ pcrs_0_7 -> sound initial st -> snd (f i st) = Ok tt /\ sound initial (fst (f i st))).
  { intros i st1 Hi. apply measure_sound. split; [|done]. constructor; [|done..|by right]. unfold pcrs_0_7 in Hi.
    repeat (apply elem_of_cons in Hi as [->|Hi]; [done|]). by apply elem_of_nil in Hi. }
  clearbody f. revert st Hs. induction l as [|i l IH]; intros st Hs; [done|]. cbn [sfor_each]. unfold sbind.
  destruct (Hf i st) as [Hr Hs']; [by apply Hl, elem_of_cons; left|done|].
  destruct (f i st) as [st1 r]. cbn [fst snd] in *. subst r. apply IH; [|done].
  intros j Hj. apply Hl. by apply elem_of_cons; right.
Qed.

Lemma separators_running g : running g -> running (fst (separators g)) /\ snd (separators g) = Ok tt.
Proof.
  intros (st & -> & Hs). unfold separators, ignore, sbind at 1 3.
  destruct (separators_sound pcrs_0_7 st (fun _ H => H) Hs) as [Hr Hs']. cbn zeta in *.
  rewrite with_state_spec by by rewrite Hr. rewrite Hr. cbn. split; [|done]. by eexists.
Qed.

Lemma lock_running g :
  running g -> running (fst (lock g)) /\ snd (lock g) <> Panic /\
  (snd (lock g) = Ok tt -> exists st, gl_state (fst (lock g)) = Some st /\ st_locked st = true).
Proof.
  intros (st & -> & Hs). unfold lock, ignore, sbind.
  destruct (lock_state_spec initial st Hs) as (Hs' & Hn & _ & _ & Hl). cbn zeta in *.
  rewrite with_state_spec by done. destruct (lock_state st) as [st' [[]|e|]]; [| |done]; cbn in *.
  - split_and!; [by eexists|done|]. intros _. eexists. split; [done|auto].
  - split_and!; [by eexists|done|done].
Qed.

Lemma check_running g st :
  g = {| gl_busy := false; gl_state := Some st |} -> sound initial st ->
  check g = ({| gl_busy := false; gl_state := Some (set_tpm st (release (st_tpm st))) |},
             if st_cap_failed st then Err HandoffCap else Ok tt) /\
  sound initial (set_tpm st (release (st_tpm st))).
Proof.
  intros -> Hs. split; [by destruct st as [???? ?? []]|]. apply sound_quiet; [done|apply release_same].
Qed.

(** What a hand-off that lets the payload run has established. *)
Definition handed_over (kind : Handoff) (st : State M) : Prop :=
  st_cap_failed st = false /\
  (st_failed st = true -> forall i, i ∈ pcrs_0_7 -> capped st i) /\
  (kind <> HandoffOpen -> st_locked st = true /\ locked_down (st_family st) (st_tpm st)).

Lemma handoff_spec kind g :
  running g ->
  running (fst (handoff kind g)) /\ snd (handoff kind g) <> Panic /\
  (snd (handoff kind g) = Ok tt -> exists st, gl_state (fst (handoff kind g)) = Some st /\ handed_over kind st).
Proof.
  intros Hg. unfold handoff, sbind at 1 3 5 7.
  set (sep := (if bool_decide (kind = HandoffFinal) then _ else _ : sres (Global M) HandoffError unit)).
  assert (H1 : running (fst (sep g)) /\ snd (sep g) = Ok tt).
  { unfold sep. case_bool_decide; [|done]. unfold smap_err. destruct (separators_running g Hg) as [Hr Ho].
    destruct (separators g) as [g' r]. cbn [fst snd] in *. by subst r. }
  destruct H1 as [Hr1 Ho1]. destruct (sep g) as [g1 r1]. cbn [fst snd] in *. subst r1. unfold sbind.
  set (lk := (if negb (bool_decide (kind = HandoffOpen)) then _ else _ : sres (Global M) HandoffError unit)).
  assert (H2 : running (fst (lk g1)) /\ snd (lk g1) <> Panic /\
    (snd (lk g1) = Ok tt -> kind <> HandoffOpen -> exists st, gl_state (fst (lk g1)) = Some st /\ st_locked st = true)).
  { unfold lk. case_bool_decide; cbn [negb]; [by split_and!|]. unfold smap_err.
    destruct (lock_running g1 Hr1) as (Hr & Hn & Hl). destruct (lock g1) as [g' [[]|e|]]; cbn [fst snd map_err] in *; [|by split_and!|done].
    split_and!; [done|done|auto]. }
  destruct H2 as ((st & Hg2 & Hs2) & Hn2 & Hl2). destruct (lk g1) as [g2 [[]|e|]]; cbn [fst snd] in *; [| |done].
  2:{ split_and!; [by eexists|done|done]. }
  destruct (check_running g2 st Hg2 Hs2) as [Hc Hs3]. rewrite Hc. cbn [fst snd]. split_and!; [by eexists|by case_match|].
  intros Ho. eexists. split; [done|]. cbn in *. destruct (st_cap_failed st) eqn:Hcf; [done|]. split_and!.
  - done.
  - intros Hf i Hi. by apply (sd_capped _ _ Hs3).
  - intros Hk. destruct (Hl2 eq_refl Hk) as (st' & Hst' & Hlk). rewrite Hg2 in Hst'. injection Hst' as <-. split; [done|].
    destruct (sd_base _ _ Hs3) as (es & Hb & _). by apply (b_locked _ _ Hb).
Qed.

Lemma event_push_size data bytes : zlen data <= MAX_EVENT_DATA -> zlen (event_push data bytes) <= MAX_EVENT_DATA.
Proof.
  unfold event_push, zlen, MAX_EVENT_DATA. rewrite length_app, length_take. lia.
Qed.

Lemma blob2_size description base length : zlen (blob2 description base length) <= MAX_EVENT_DATA.
Proof. unfold blob2. by repeat apply event_push_size. Qed.

Lemma blob_size base length : zlen (blob base length) <= MAX_EVENT_DATA.
Proof. unfold blob. by repeat apply event_push_size. Qed.

Lemma ucs2_size text : zlen (ucs2 text) <= MAX_EVENT_DATA.
Proof.
  unfold ucs2. apply event_push_size. generalize (concat (map utf16 text)). intros l.
  assert (Hd : forall data, zlen data <= MAX_EVENT_DATA ->
    zlen (fold_left (fun data unit => event_push data (le_enc 2 unit)) l data) <= MAX_EVENT_DATA).
  { induction l as [|u l IH]; intros data Hd; [done|]. cbn [fold_left]. by apply IH, event_push_size. }
  by apply Hd.
Qed.

Lemma measured_event i t e e' : measured i t e -> zlen e' <= MAX_EVENT_DATA -> measured i t e'.
Proof. intros [[Hi Ht _ Hv] Hn] He. unfold MAX_EVENT_DATA in He. split; [|done]. constructor; auto; lia. Qed.

Lemma blob_type12_measured i t e : measured i t e -> measured i (blob_type12 t) e.
Proof.
  intros [[Hi Ht Hd Hv] Hn]. unfold blob_type12. repeat case_match; (split; [|done]); constructor; auto; try done; by right.
Qed.

Lemma family_running g : running g -> exists r, family g = (g, Ok r).
Proof.
  intros (st & -> & _). unfold family, sbind. rewrite with_state_spec by done. by eexists.
Qed.

Lemma perform_running o g : op_ok o -> running g -> running (perform o g).
Proof.
  intros Ho Hg. destruct o; cbn [perform op_ok] in *.
  - by apply measure_running.
  - by apply measure_running.
  - destruct (family_running g Hg) as [r Hr]. unfold measure_blob, sbind. rewrite Hr.
    destruct r as [[]|]; [| |done]; (apply measure_running; [|done]).
    + eapply measured_event; [by eapply blob_type12_measured|apply blob_size].
    + eapply measured_event; [done|apply blob2_size].
  - apply measure_running; [|done]. pose proof (ucs2_size version) as Hz. unfold MAX_EVENT_DATA in Hz.
    split; [|done]. constructor; [done|done|lia|by right].
  - by apply separators_running.
  - unfold measurement_error. rewrite ignore_fst. apply with_state_running; [|done]. intros st Hs.
    destruct (st_failed st); [done|]. destruct (sd_base _ _ Hs) as (es & Hb & _).
    destruct (fail_spec initial st es Hb) as (st' & -> & Hs' & _). done.
  - by apply lock_running.
  - destruct Hg as (st & Hg & Hs). destruct (check_running g st Hg Hs) as [-> Hs']. by eexists.
  - by apply handoff_spec.
Qed.

Lemma performed_running ops g : Forall op_ok ops -> running g -> running (performed ops g).
Proof.
  intros Hops. revert g. induction Hops as [|o ops Ho _ IH]; intros g Hg; [done|]. apply IH. by apply perform_running.
Qed.
End api.
