(* ===== verification/MeasuredBoot.v ===== *)
(** * MeasuredBoot: what measured boot promises

    The theorems of [Tcg] over a whole boot, from [start] through any sequence of
    operations to [handoff], and a simulated TPM of either family that keeps the promises of
    [TpmLaws], on which they are run. *)

From S2P Require Import Prelude.
From S2P Require Import Bytes.
From S2P Require Import Crypto.
From S2P Require Import Tpm.
From S2P Require Import EventLog.
From S2P Require Import Tcg.
From Stdlib Require Import ZArith Lia.
From stdpp Require Import base numbers list option.

#[local] Open Scope Z_scope.

(** ** A simulated TPM

    It has 24 PCRs in a SHA-256 bank and refuses the commands of a list.  It is a
    TPM 2.0 unless it refuses [TPM2_Startup], which it then answers as a TPM 1.2,
    whose flags it reports. *)

(** A toy digest of the right sizes. *)
#[export] Instance sim_hash : PcrHash := {
  pcr_digest alg data :=
    le_enc (Z.to_nat (default 32 (digest_size alg))) (fold_left (fun acc b => acc * 31 + b + 1) data 7)
}.

#[export] Instance sim_hash_laws : PcrHashLaws sim_hash.
Proof.
  constructor. intros alg n data Hn. cbn. rewrite Hn. change (default 32 (Some n)) with n. rewrite zlen_le_enc.
  pose proof (digest_size_bound _ _ Hn). lia.
Qed.

Record SimTpm := {
  sim_pcr : Z -> Z -> list Z; sim_off : list Z; sim_auth : bool; sim_present : bool; sim_presence : bool;
  sim_refuses : list Z
}.

#[export] Instance sim_device : TpmDevice SimTpm := {
  has_pcr alg i := alg = ALG_SHA256 /\ 0 <= i < 24;
  pcr := sim_pcr;
  disabled m h := h ∈ sim_off m;
  auth_set m := sim_auth m = true;
  presence_asserted m := sim_present m = true;
  presence_barred m := sim_presence m = true
}.

Definition sim_extend (i : Z) (f : Z -> list Z -> list Z) (m : SimTpm) : SimTpm := {|
  sim_pcr a j := if j =? i then f a (sim_pcr m a j) else sim_pcr m a j;
  sim_off := sim_off m; sim_auth := sim_auth m; sim_present := sim_present m; sim_presence := sim_presence m;
  sim_refuses := sim_refuses m |}.

Definition sim_apply (e : effect) (m : SimTpm) : SimTpm :=
  match e with
  | EExtend i ds => sim_extend i (fun a v => extended a v ds) m
  | EEvent i data => sim_extend i (fun a v => pcr_digest a (v ++ pcr_digest a data)) m
  | EChangeAuth h auth =>
      {| sim_pcr := sim_pcr m; sim_off := sim_off m;
         sim_auth := sim_auth m || ((h =? RH_PLATFORM) && negb (zlen auth =? 0));
         sim_present := sim_present m; sim_presence := sim_presence m; sim_refuses := sim_refuses m |}
  | EControl _ h state =>
      {| sim_pcr := sim_pcr m; sim_off := if state =? 0 then h :: sim_off m else sim_off m;
         sim_auth := sim_auth m; sim_present := sim_present m; sim_presence := sim_presence m;
         sim_refuses := sim_refuses m |}
  | EPresence bits =>
      let off := bits =? Z.lor PP_NOTPRESENT PP_LOCK in
      {| sim_pcr := sim_pcr m; sim_off := sim_off m; sim_auth := sim_auth m;
         sim_present := negb off && (sim_present m || negb (sim_presence m));
         sim_presence := sim_presence m || off; sim_refuses := sim_refuses m |}
  | EQuery | EUnknown => m
  end.

(** [TPM_STCLEAR_FLAGS] and [TPM_PERMANENT_FLAGS]. *)
Definition sim_volatile (m : SimTpm) : list Z :=
  be_enc 4 7 ++ be_enc 2 0x20 ++ [0; 0; Z.b2z (sim_present m); Z.b2z (sim_presence m); 0].
Definition sim_permanent : list Z := be_enc 4 11 ++ be_enc 2 0x1F ++ [0; 1; 0; 1; 0; 0; 0; 0; 1].

Definition sim_flags (sub_cap : Z) (m : SimTpm) : list Z :=
  if sub_cap =? CAP_FLAG_VOLATILE then sim_volatile m
  else if sub_cap =? CAP_FLAG_PERMANENT then sim_permanent else [].

Definition is_query (e : effect) : bool := match e with EQuery => true | _ => false end.

Definition sim_body (command : list Z) (m : SimTpm) : list Z :=
  let code := be_dec (sub command 6 4) in
  if code =? CC_GET_CAPABILITY then [0; 0; 0; 0; 5; 0; 0; 0; 1; 0; 0x0B; 3; 0xFF; 0xFF; 0xFF]
  else if code =? CC_GET_RANDOM then 0 :: 32 :: replicate 32 7
  else if (code =? ORD_GET_CAPABILITY) && is_query (meaning command) then sim_flags (be_dec (sub command 18 4)) m
  else [].

Definition sim_answer (code : Z) (body : list Z) : list Z :=
  be_enc 2 ST_NO_SESSIONS ++ be_enc 4 (10 + zlen body) ++ be_enc 4 code ++ body.

(** The TPM after a command and its answer. *)
Definition sim_refused (command : list Z) (m : SimTpm) : bool := existsb (Z.eqb (be_dec (sub command 6 4))) (sim_refuses m).
Definition sim_refusal (command : list Z) : Z := if be_dec (sub command 6 4) =? CC_STARTUP then RC_BAD_TAG else 0x101.
Definition sim_exec (command : list Z) (m : SimTpm) : SimTpm * list Z :=
  if sim_refused command m then (m, sim_answer (sim_refusal command) [])
  else (sim_apply (meaning command) m, sim_answer 0 (sim_body command m)).

#[export] Instance sim_transport : Transport SimTpm := {
  transmit command := fun '(m, buf) =>
    if zlen buf <? 64 then ((m, buf), Err TpmResponse)
    else let (m', r) := sim_exec command m in ((m', upd buf 0 r), Ok (zlen r));
  wait_ms _ m := m;
  release m := m
}.

(** Answers are complete responses, the refusal an error. *)
Lemma sim_body_cases (P : list Z -> Prop) command m :
  P (sim_body (zeros 6 ++ be_enc 4 CC_GET_CAPABILITY) m) -> P (sim_body (zeros 6 ++ be_enc 4 CC_GET_RANDOM) m) ->
  P (sim_volatile m) -> P sim_permanent -> P [] -> P (sim_body command m).
Proof.
  intros H1 H2 H3 H4 H5. unfold sim_body at 1. destruct (_ =? CC_GET_CAPABILITY); [exact H1|].
  destruct (_ =? CC_GET_RANDOM); [exact H2|]. unfold sim_flags. by repeat case_match.
Qed.

Record answer_ok (result : res TpmError (list Z)) (r : list Z) : Prop := {
  an_size : zlen r <= 64; an_bytes : bytes_ok r; an_body : response_body r = result
}.

Lemma sim_refusal_ok command : exists code, answer_ok (Err (TpmCode code)) (sim_answer (sim_refusal command) []).
Proof.
  unfold sim_refusal. destruct (_ =? CC_STARTUP); eexists; (constructor; [done| |vm_compute; reflexivity]);
    apply (bool_decide_unpack _); vm_compute; exact I.
Qed.

Lemma sim_success_ok command m : answer_ok (Ok (sim_body command m)) (sim_answer 0 (sim_body command m)).
Proof.
  apply (sim_body_cases (fun body => answer_ok (Ok body) (sim_answer 0 body))).
  3: unfold sim_volatile; destruct (sim_present m), (sim_presence m).
  all: constructor; [done|apply (bool_decide_unpack _); vm_compute; exact I|vm_compute; reflexivity].
Qed.

(** What the TPM does with a command. *)
Lemma sim_exec_ok command m :
  (exists code, fst (sim_exec command m) = m /\ answer_ok (Err (TpmCode code)) (snd (sim_exec command m))) \/
  (fst (sim_exec command m) = sim_apply (meaning command) m /\
   answer_ok (Ok (sim_body command m)) (snd (sim_exec command m))).
Proof.
  unfold sim_exec. destruct (sim_refused command m).
  - left. destruct (sim_refusal_ok command) as [code Hc]. by exists code.
  - right. split; [done|apply sim_success_ok].
Qed.

Lemma sim_performs e m : performs e m (sim_apply e m).
Proof.
  destruct e; cbn; try done.
  - split_and!; [constructor; cbn; auto; by intros ->|done|]. intros -> Ha. destruct auth; [done|].
    rewrite zlen_cons. pose proof (zlen_nonneg auth). rewrite Z.eqb_refl, (proj2 (Z.eqb_neq _ _)) by lia. by rewrite orb_true_r.
  - split; [done|]. intros ->. cbn. split; [|by apply list_elem_of_here].
    constructor; cbn; auto. intros h Hh. by apply elem_of_cons; right.
  - split; [done|]. intros ->. rewrite Z.eqb_refl. cbn. unfold presence_locked. cbn. rewrite orb_true_r.
    split; [constructor; cbn; auto|by split].
Qed.

Lemma sim_locks e m : harmless e = true -> locks_kept m (sim_apply e m).
Proof.
  intros Hh. destruct e; cbn in *; constructor; cbn; auto; try (by intros ->); [|by rewrite Hh].
  intros h Hin. case_match; [by apply elem_of_cons; right|done].
Qed.

Lemma sim_same_pcrs e m : extends_pcr e = false -> same_pcrs m (sim_apply e m).
Proof. by destruct e. Qed.

(** The flags it reports are so. *)
Lemma sim_told command m : told command (sim_body command m) (sim_apply (meaning command) m).
Proof.
  assert (Hasked : forall s, asks_flags command s ->
    (sim_body command m = sim_flags s m /\ sim_apply (meaning command) m = m) \/ sim_body command m = []).
  { intros s (_ & Ho & _ & _ & Hs). unfold sim_body. rewrite Ho, Hs. cbn [Z.eqb Pos.eqb CC_GET_CAPABILITY CC_GET_RANDOM].
    change (0x65 =? ORD_GET_CAPABILITY) with true. cbn [andb]. destruct (meaning command); cbn [is_query]; auto. }
  constructor; intros [[-> ->]|Hn]%Hasked _; rewrite ?Hn; unfold flag_clear, flag_set; try done; try (by intros (? & ? & _));
    cbn; try (destruct (sim_present m), (sim_presence m)); cbn; try done; intros (b & [= <-] & ?); done.
Qed.

#[export] Instance sim_laws : TpmLaws sim_hash SimTpm sim_transport sim_device.
Proof.
  assert (Hgo : forall cmd m buf m' buf' r, transmit cmd (m, buf) = ((m', buf'), r) ->
    (m' = m /\ buf' = buf /\ r = Err TpmResponse) \/
    exists result a, answer_ok result a /\ zlen a <= zlen buf /\ r = Ok (zlen a) /\ buf' = upd buf 0 a /\
      ((m' = m /\ exists code, result = Err (TpmCode code)) \/
       (m' = sim_apply (meaning cmd) m /\ result = Ok (sim_body cmd m)))).
  { intros cmd m buf m' buf' r. cbn. destruct (Z.ltb_spec (zlen buf) 64) as [|Hz]; [intros [= <- <- <-]; by left|right].
    pose proof (sim_exec_ok cmd m) as He. destruct (sim_exec cmd m) as [m1 a]. cbn [fst snd] in He. injection H as <- <- <-.
    destruct He as [(code & -> & Ha)|[-> Ha]]; (eexists _, a; split; [exact Ha|]; destruct Ha; split; [lia|]); eauto 10. }
  assert (Hsub : forall buf a : list Z, zlen a <= zlen buf -> sub (upd buf 0 a) 0 (zlen a) = a).
  { intros buf a Ha. apply sub_upd_same; lia. }
  constructor.
  - intros cmd m buf m' buf' r [(-> & -> & ->)|(result & a & [] & Hz & -> & -> & _)]%Hgo; [done|].
    split_and!; [done|by apply zlen_upd; [|lia]|]. intros Hb. by apply bytes_ok_upd.
  - intros cmd m buf m' buf' len [(-> & -> & [=])|(result & a & [] & Hz & [= ->] & -> & _)]%Hgo.
    pose proof (zlen_nonneg a). lia.
  - intros cmd m buf m' buf' len body [(-> & -> & [=])|(result & a & [] & Hz & [= ->] & -> & Hm)]%Hgo.
    rewrite Hsub by done. intros Hb. destruct Hm as [(_ & code & ->)|(-> & _)]; [congruence|apply sim_performs].
  - intros cmd m buf m' buf' len body [(-> & -> & [=])|(result & a & [] & Hz & [= ->] & -> & Hm)]%Hgo.
    rewrite Hsub by done. intros Hb. destruct Hm as [(_ & code & ->)|(-> & ->)]; [congruence|].
    assert (body = sim_body cmd m) as -> by congruence. apply sim_told.
  - intros cmd m buf m' buf' len code [(-> & -> & [=])|(result & a & [] & Hz & [= ->] & -> & Hm)]%Hgo.
    rewrite Hsub by done. intros Hb. destruct Hm as [(-> & _)|(_ & ->)]; [by split|congruence].
  - intros cmd m buf m' buf' r [(-> & -> & ->)|(result & a & [] & Hz & -> & -> & Hm)]%Hgo Hh; [done|].
    destruct Hm as [(-> & _)|(-> & _)]; [done|by apply sim_locks].
  - intros cmd m buf m' buf' r [(-> & -> & ->)|(result & a & [] & Hz & -> & -> & Hm)]%Hgo He; [done|].
    destruct Hm as [(-> & _)|(-> & _)]; [done|by apply sim_same_pcrs].
  - intros ms m. done.
  - intros m. done.
Qed.

Definition sim_reset (refuses : list Z) : SimTpm :=
  {| sim_pcr _ _ := zeros 32; sim_off := []; sim_auth := false; sim_present := false; sim_presence := false;
     sim_refuses := refuses |}.

(** A TPM 1.2 whose physical presence was locked off before, and which answers a
    second attempt with an error. *)
Definition sim_tpm12 : SimTpm :=
  {| sim_pcr _ _ := zeros 20; sim_off := []; sim_auth := false; sim_present := false; sim_presence := true;
     sim_refuses := [CC_STARTUP; TSC_ORD_PHYSICAL_PRESENCE] |}.

(** Measured boot before [start]. *)
Definition not_started {M} : Global M := {| gl_busy := false; gl_state := None |}.

(** ** A boot on the simulated TPM *)

Definition sim_start (refuses : list Z) (room : Z) := start (sim_reset refuses) (zeros room) Client false not_started.

Definition sim_ops : list op :=
  [OpCrtmVersion [0x66; 0x73]; OpMeasureBlob 0 EV_POST_CODE2 [0x53; 0x4D; 0x4D] 0x1000 [1; 2; 3];
   OpMeasure 4 EV_SEPARATOR [9; 9] [1]; OpSeparators; OpLock].

Lemma sim_ops_ok : Forall op_ok sim_ops.
Proof.
  unfold sim_ops. repeat (apply list.Forall_cons; split); try done; cbn.
  - split; [|done]. constructor; try done. by right.
  - split; [|done]. constructor; try done. by left.
Qed.

(** ** The theorems *)

Section promises.
Context {T : Target} {PH : PcrHash} {PL : PcrHashLaws PH}.
Context {M : Type} {TM : Transport M} {D : TpmDevice M} {L : TpmLaws PH M TM D}.

Lemma started_running (tpm m : M) area class uefi g fam :
  start tpm area class uefi not_started = (g, m, Ok fam) ->
  running (pcr m) g.
Proof.
  intros Hs. pose proof (start_spec tpm area class uefi not_started eq_refl eq_refl) as Ho. rewrite Hs in Ho.
  destruct Ho as (_ & st & -> & _ & _ & Hsound). by exists st.
Qed.

(** C7: after any operations, unless a measurement failed, a verifier who reads
    the whole log area and replays its entries from the PCR values of the start
    gets the PCRs of the TPM, in every bank. *)
Theorem log_replays_to_pcrs (tpm m : M) area class uefi g fam ops :
  start tpm area class uefi not_started = (g, m, Ok fam) -> Forall op_ok ops ->
  exists st, performed ops g = {| gl_busy := false; gl_state := Some st |} /\
    (st_failed st = false -> forall a i, has_pcr a i ->
       pcr (st_tpm st) a i =
         replay a i (pcr m a i) (read_log (is_agile (el_format (st_log st))) (el_buf (st_log st)))).
Proof.
  intros Hs Hops. apply started_running in Hs.
  destruct (performed_running (pcr m) ops g Hops Hs) as (st & Hg & Hsound). exists st. split; [done|].
  destruct (sd_base _ _ Hsound) as (es & Hb & Hr). intros Hf a i Hh.
  by rewrite (log_shape_read _ es (b_log _ _ Hb) (b_shape _ _ Hb)), (Hr Hf a i Hh).
Qed.

(** C8: after a failed measurement, unless the payload is refused, each of PCR
    0-7 was last extended with the error separator, in every allocated bank. *)
Theorem failure_caps_pcrs (tpm m : M) area class uefi g fam ops :
  start tpm area class uefi not_started = (g, m, Ok fam) -> Forall op_ok ops ->
  exists st, performed ops g = {| gl_busy := false; gl_state := Some st |} /\
    (st_failed st = true ->
       snd (check (performed ops g)) = Err HandoffCap \/
       forall i alg mask, i ∈ pcrs_0_7 -> (alg, mask) ∈ st_banks st -> allocated i mask = true -> has_pcr alg i ->
         exists v, pcr (st_tpm st) alg i = pcr_digest alg (v ++ pcr_digest alg (le_enc 4 1))).
Proof.
  intros Hs Hops. apply started_running in Hs.
  destruct (performed_running (pcr m) ops g Hops Hs) as (st & Hg & Hsound). exists st. split; [done|]. intros Hf.
  destruct (check_running (pcr m) _ st Hg Hsound) as [Hc _]. rewrite Hc. cbn.
  destruct (st_cap_failed st) eqn:Hcf; [by left|right]. intros i alg mask Hi Hin Ha Hh.
  by apply (sd_capped _ _ Hsound Hf Hcf i Hi alg mask).
Qed.

(** C9: a hand-off that lets the payload run leaves no uncapped failure and,
    except for a payload that locks the TPM itself, the TPM locked: the platform
    hierarchy of a TPM 2.0 is off or behind an authorization, and on a TPM 1.2
    physical presence is not asserted and the command that asserts it is barred,
    whether the lock command was performed or the flags of the TPM say that there
    is nothing left to lock.  It always returns. *)
Theorem handoff_locks (tpm m : M) area class uefi g fam ops kind :
  start tpm area class uefi not_started = (g, m, Ok fam) -> Forall op_ok ops ->
  match handoff kind (performed ops g) with
  | (g', Ok _) => exists st, gl_state g' = Some st /\ handed_over kind st
  | (g', Err _) => running (pcr m) g'
  | (_, Panic) => False
  end.
Proof.
  intros Hs Hops. apply started_running in Hs.
  destruct (handoff_spec (pcr m) kind _ (performed_running (pcr m) ops g Hops Hs)) as (Hr & Hn & Ho).
  destruct (handoff kind (performed ops g)) as [g' [[]|e|]]; cbn in *; auto.
Qed.

(** C30: [start] returns, and either measured boot is on, or no TPM was started
    and nothing but the start-up commands was sent, or the TPM that was started is
    out of the operating system's hands: its storage and endorsement hierarchies
    off, PCR 0-7 capped and the platform hierarchy out of reach (TPM 2.0), physical
    presence locked (TPM 1.2), or else the platform is told to halt.  This covers
    every failure behind the start-up command, a failed self test among them, for
    which the documentation of [StartError::Startup] says that the TPM is left
    alone. *)
Theorem start_hides_tpm (tpm : M) area class uefi :
  match start tpm area class uefi not_started with
  | (g, m, Ok fam) => snd (start_tpm tpm) = Ok fam /\ running (pcr m) g
  | (g, m, Err e) =>
      g = not_started /\
      match start_tpm tpm with
      | (_, Ok fam) => remedy e = Halt \/ unusable fam m
      | (m', Err e') => e = e' /\ m = m'
      | (_, Panic) => False
      end
  | (_, _, Panic) => False
  end.
Proof.
  pose proof (start_spec tpm area class uefi not_started eq_refl eq_refl) as Ho. unfold start_outcome in Ho.
  destruct (start tpm area class uefi not_started) as [[g m] [fam|e|]]; [| |done].
  - destruct Ho as (Hs & st & -> & _ & _ & Hsound). split; [done|]. by exists st.
  - destruct Ho as [-> Ho]. split; [done|]. destruct (start_tpm tpm) as [m' [fam|e'|]]; [| |done].
    + destruct Ho as [->|Hu]; [by left|by right].
    + exact Ho.
Qed.
End promises.


(** *** Boots of the simulated TPM *)

(** Starting it, the state after the operations. *)
Definition started_ok (out : Global SimTpm * SimTpm * res StartError Family) : bool :=
  match out with (_, _, Ok _) => true | _ => false end.
Definition failed_in (g : Global SimTpm) : option (bool * bool) :=
  (fun st => (st_failed st, st_cap_failed st)) <$> gl_state g.

Lemma start_cases out :
  started_ok out = true -> exists fam, out = (fst (fst out), snd (fst out), Ok fam).
Proof. destruct out as [[g m] [fam|e|]]; try done. by exists fam. Qed.

Lemma sim_has_3 : has_pcr ALG_SHA256 3.
Proof. split; [done|lia]. Qed.

(** All goes well: the replay of the log is the PCR. *)
Lemma log_replays_to_pcrs_witness :
  let out := sim_start [] 1024 in
  exists st, gl_state (performed sim_ops (fst (fst out))) = Some st /\ st_failed st = false /\
    length (read_log true (el_buf (st_log st))) = 12%nat /\
    sim_pcr (st_tpm st) ALG_SHA256 0 =
      replay ALG_SHA256 0 (sim_pcr (snd (fst out)) ALG_SHA256 0) (read_log true (el_buf (st_log st))).
Proof.
  intros out. destruct (start_cases out) as (fam & Ho); [vm_compute; reflexivity|].
  destruct (log_replays_to_pcrs _ _ _ _ _ _ _ sim_ops Ho sim_ops_ok) as (st & Hg & Hr).
  assert (Hf : failed_in (performed sim_ops (fst (fst out))) = Some (false, false)) by (vm_compute; reflexivity).
  assert (Hn : (fun st => (is_agile (el_format (st_log st)), length (read_log true (el_buf (st_log st))))) <$>
    gl_state (performed sim_ops (fst (fst out))) = Some (true, 12%nat)) by (vm_compute; reflexivity).
  rewrite Hg in Hf, Hn. cbn in Hf, Hn. injection Hf as Hf _. injection Hn as Ha Hn.
  exists st. rewrite Hg. split_and!; [done..|]. rewrite Ha in Hr.
  specialize (Hr Hf ALG_SHA256 0). exact (Hr (conj eq_refl (conj (Z.le_refl 0) eq_refl))).
Defined.

(** The log is full after its first entries: PCR 0-7 are capped. *)
Lemma failure_caps_pcrs_witness :
  let out := sim_start [] 128 in
  exists st, gl_state (performed sim_ops (fst (fst out))) = Some st /\ st_failed st = true /\
    exists v, sim_pcr (st_tpm st) ALG_SHA256 3 = pcr_digest ALG_SHA256 (v ++ pcr_digest ALG_SHA256 (le_enc 4 1)).
Proof.
  intros out. destruct (start_cases out) as (fam & Ho); [vm_compute; reflexivity|].
  destruct (failure_caps_pcrs _ _ _ _ _ _ _ sim_ops Ho sim_ops_ok) as (st & Hg & Hr).
  assert (Hf : failed_in (performed sim_ops (fst (fst out))) = Some (true, false)) by (vm_compute; reflexivity).
  assert (Hb : st_banks <$> gl_state (performed sim_ops (fst (fst out))) = Some [(ALG_SHA256, 0xFFFFFF)])
    by (vm_compute; reflexivity).
  assert (Hc : snd (check (performed sim_ops (fst (fst out)))) = Ok tt) by (vm_compute; reflexivity).
  rewrite Hc in Hr. rewrite Hg in Hf, Hb. cbn in Hf, Hb. injection Hf as Hf _. injection Hb as Hb.
  exists st. rewrite Hg. split_and!; [done..|]. destruct (Hr Hf) as [|Hp]; [done|].
  assert (Hi : 3 ∈ pcrs_0_7) by (apply (bool_decide_unpack _); vm_compute; exact I).
  assert (Hin : (ALG_SHA256, 0xFFFFFF) ∈ st_banks st) by (rewrite Hb; apply list_elem_of_here).
  exact (Hp 3 ALG_SHA256 0xFFFFFF Hi Hin eq_refl sim_has_3).
Defined.

(** Direct boot: the TPM 2.0 is locked, and the flags of the TPM 1.2 show that it is. *)
Lemma handoff_locks_witness :
  (let out := sim_start [] 1024 in
   exists st, gl_state (fst (handoff HandoffFinal (performed sim_ops (fst (fst out))))) = Some st /\
     handed_over HandoffFinal st) /\
  (let out := start sim_tpm12 (zeros 1024) Client false not_started in
   exists st, gl_state (fst (handoff HandoffFinal (performed sim_ops (fst (fst out))))) = Some st /\
     st_family st = Tpm12 /\ presence_locked (st_tpm st)).
Proof.
  split.
  - intros out. destruct (start_cases out) as (fam & Ho); [vm_compute; reflexivity|].
    pose proof (handoff_locks _ _ _ _ _ _ _ sim_ops HandoffFinal Ho sim_ops_ok) as Hh.
    assert (Hr : snd (handoff HandoffFinal (performed sim_ops (fst (fst out)))) = Ok tt) by (vm_compute; reflexivity).
    destruct (handoff HandoffFinal _) as [g' r]. cbn in Hr. by subst r.
  - intros out. destruct (start_cases out) as (fam & Ho); [vm_compute; reflexivity|].
    pose proof (handoff_locks _ _ _ _ _ _ _ sim_ops HandoffFinal Ho sim_ops_ok) as Hh.
    assert (Hr : snd (handoff HandoffFinal (performed sim_ops (fst (fst out)))) = Ok tt) by (vm_compute; reflexivity).
    assert (Hf : st_family <$> gl_state (fst (handoff HandoffFinal (performed sim_ops (fst (fst out))))) = Some Tpm12)
      by (vm_compute; reflexivity).
    destruct (handoff HandoffFinal _) as [g' r]. cbn [fst snd] in Hr, Hf |- *. subst r. destruct Hh as (st & Hst & _ & _ & Hl).
    rewrite Hst in Hf. cbn in Hf. injection Hf as Hf. exists st. split; [exact Hst|]. split; [exact Hf|].
    destruct Hl as [_ Hl]; [discriminate|]. rewrite Hf in Hl. exact Hl.
Defined.

(** A TPM that fails its self test is hidden. *)
Lemma start_hides_tpm_witness :
  let out := sim_start [CC_SELF_TEST] 1024 in
  snd out = Err (Startup TPM2_SelfTest (TpmCode 0x101)) /\ hidden (snd (fst out)).
Proof.
  unfold sim_start. cbn zeta. pose proof (start_hides_tpm (sim_reset [CC_SELF_TEST]) (zeros 1024) Client false) as Hh.
  assert (Hr : snd (start (sim_reset [CC_SELF_TEST]) (zeros 1024) Client false not_started) =
    Err (Startup TPM2_SelfTest (TpmCode 0x101))) by (vm_compute; reflexivity).
  split; [done|]. assert (Hs : snd (start_tpm (sim_reset [CC_SELF_TEST])) = Ok Tpm20) by (vm_compute; reflexivity).
  destruct (start _ _ _ _ _) as [[g m] r]. cbn in Hr |- *. subst r. destruct Hh as [_ Hh].
  destruct (start_tpm _) as [m' r]. cbn in Hs. subst r. by destruct Hh.
Defined.
