(* ===== verification/TisBoot.v ===== *)
(** * TisBoot: a simulated FIFO TPM

    The simulated TPM 2.0 of [MeasuredBoot] behind FIFO registers that keep the
    promises of [FifoLaws]: it takes three bytes per burst, checks that a command is
    complete before it executes it, and offers the response until it has been read. *)

From S2P Require Import Prelude.
From S2P Require Import Bytes.
From S2P Require Import Crypto.
From S2P Require Import Tpm.
From S2P Require Import Tis.
From S2P Require Import TisFifo.
From S2P Require Import MeasuredBoot.
From Stdlib Require Import ZArith Lia.
From stdpp Require Import base numbers list option.

#[local] Open Scope Z_scope.

Definition TIS_BASE : Z := 0xFED40000.

Definition SimFifo : Type := FifoView SimTpm.

(** The bytes a command announces, once its header is there. *)
Definition announced (pending : list Z) : Z := if zlen pending <? 6 then 6 else be_dec (sub pending 2 4).
Definition expecting (v : SimFifo) : bool := zlen (fv_pending v) <? announced (fv_pending v).

Definition sim_status (v : SimFifo) : Z :=
  match fv_response v with
  | Some r => if (fv_read v <? length r)%nat then Z.lor STS_VALID DATA_AVAIL else STS_VALID
  | None => if bool_decide (fv_pending v = []) then Z.lor STS_VALID (Z.lor COMMAND_READY EXPECT)
            else if expecting v then Z.lor STS_VALID EXPECT else STS_VALID
  end.

#[export] Instance sim_fifo : FifoTpm SimFifo SimTpm := {
  fifo_view v := v;
  fifo_exec command m := sim_exec command m
}.

(** The next byte of the response. *)
Definition next_byte (v : SimFifo) : Z :=
  match fv_response v with Some r => default 0 (r !! fv_read v) mod 256 | None => 0 end.

Definition sim_offset (a : Z) : Z := (a - TIS_BASE) mod LOCALITY_SIZE.

Definition sim_write (off value : Z) (v : SimFifo) : SimFifo :=
  if off =? DATA_FIFO then Build_FifoView (fv_device v) (fv_pending v ++ [value]) (fv_response v) (fv_read v)
  else if negb (off =? STS) then v
  else if value =? COMMAND_READY then Build_FifoView (fv_device v) [] None 0
  else if value =? RESPONSE_RETRY then Build_FifoView (fv_device v) (fv_pending v) (fv_response v) 0
  else if (value =? GO) && negb (expecting v) then executed v
  else v.

#[export] Instance sim_bus : Bus SimFifo := {
  bus_read a w v :=
    let off := sim_offset a in
    if off =? DATA_FIFO then (Build_FifoView (fv_device v) (fv_pending v) (fv_response v) (S (fv_read v)), next_byte v mod 256 ^ w)
    else if off =? STS then (v, sim_status v mod 256 ^ w)
    else if off =? ACCESS then (v, Z.lor ACCESS_VALID ACTIVE_LOCALITY mod 256 ^ w)
    else if off =? BURST_COUNT then (v, 3 mod 256 ^ w)
    else (v, 0);
  bus_write a w value v := sim_write (sim_offset a) value v;
  delay_us _ v := v;
  delay_ms _ v := v
}.

(** ** It keeps its promises *)

Lemma sim_offset_reg l off : 0 <= off < LOCALITY_SIZE -> sim_offset (reg_at TIS_BASE l off) = off.
Proof.
  intros Ho. unfold sim_offset, reg_at. replace (TIS_BASE + l * LOCALITY_SIZE + off - TIS_BASE) with (off + l * LOCALITY_SIZE) by lia.
  rewrite Z.mod_add by (unfold LOCALITY_SIZE; lia). by apply Z.mod_small.
Qed.

Lemma sim_status_cases (P : Z -> Prop) v :
  (forall r, fv_response v = Some r -> (fv_read v < length r)%nat -> P (Z.lor STS_VALID DATA_AVAIL)) ->
  (fv_response v = None -> fv_pending v = [] -> P (Z.lor STS_VALID (Z.lor COMMAND_READY EXPECT))) ->
  P (Z.lor STS_VALID EXPECT) -> P STS_VALID -> P (sim_status v).
Proof.
  intros H1 H2 H3 H4. unfold sim_status. destruct (fv_response v) as [r|].
  - destruct (Nat.ltb_spec (fv_read v) (length r)); [by eapply H1|done].
  - case_bool_decide; [by apply H2|]. by case_match.
Qed.

Lemma sim_status_byte v : 0 <= sim_status v < 256.
Proof. apply sim_status_cases; intros; split; (discriminate || reflexivity). Qed.

Lemma sim_write_at l off value v : 0 <= off < LOCALITY_SIZE -> bus_write (reg_at TIS_BASE l off) 1 value v = sim_write off value v.
Proof. intros Ho. cbn [bus_write sim_bus]. by rewrite sim_offset_reg. Qed.

Lemma sim_status_read l v v' x : bus_read (reg_at TIS_BASE l STS) 1 v = (v', x) -> v' = v /\ x = sim_status v.
Proof.
  cbn [bus_read sim_bus]. rewrite sim_offset_reg by (vm_compute; split; [discriminate|reflexivity]).
  change (STS =? DATA_FIFO) with false. change (STS =? STS) with true. cbv iota zeta. intros [= <- <-]. split; [done|].
  apply Z.mod_small. apply sim_status_byte.
Qed.

Ltac reg_range := vm_compute; split; [discriminate|reflexivity].

#[export] Instance sim_fifo_laws : FifoLaws (M := SimTpm) TIS_BASE.
Proof.
  constructor; cbn [fifo_view sim_fifo]; try done.
  - intros a h h' v E. cbn [bus_read sim_bus] in E.
    repeat (case_match; [injection E as _ <-; apply Z.mod_pos_bound; lia|]). injection E as _ <-. lia.
  - intros l off w h h' v Hq E. unfold quiet_reg in Hq. bool_hyp. cbn [bus_read sim_bus] in E. rewrite sim_offset_reg in E by lia.
    test_false (off =? DATA_FIFO). cbv zeta in E. rewrite (proj2 (Z.eqb_neq off DATA_FIFO)) in E by done.
    by repeat (case_match; [by injection E as <- _|]); injection E as <- _.
  - intros l h h' v E. cbn [bus_read sim_bus] in E. rewrite sim_offset_reg in E by reg_range.
    change (DATA_FIFO =? DATA_FIFO) with true in E. cbv iota zeta in E. injection E as <- <-. split; [done|].
    intros r b Hr Hb Hbyte. unfold next_byte. rewrite Hr, Hb. cbn [default]. unfold byte_ok in Hbyte. change (256 ^ 1) with 256.
    rewrite Z.mod_mod by lia. by apply Z.mod_small.
  - intros l h h' v [_ ->]%sim_status_read. apply (sim_status_cases (fun x => all_set x COMMAND_READY = true -> _)); done.
  - intros l h h' v [_ ->]%sim_status_read.
    apply (sim_status_cases (fun x => all_set x (Z.lor STS_VALID DATA_AVAIL) = true -> _)); [eauto|done..].
  - intros l b h. by rewrite sim_write_at by reg_range.
  - intros l h. rewrite sim_write_at by reg_range. unfold sim_write. change (STS =? DATA_FIFO) with false. change (negb (STS =? STS)) with false.
    change (GO =? COMMAND_READY) with false. change (GO =? RESPONSE_RETRY) with false. cbv iota. case_match; [by right|by left].
  - intros l h. by rewrite sim_write_at by reg_range.
  - intros l h. by rewrite sim_write_at by reg_range.
  - intros l v h. rewrite sim_write_at by reg_range. done.
Qed.

#[export] Instance sim_exec_laws : ExecLaws sim_hash SimFifo SimTpm sim_fifo sim_device.
Proof.
  assert (Hgo : forall cmd m, complete (snd (fifo_exec cmd m))).
  { intros cmd m. cbn [fifo_exec sim_fifo]. unfold sim_exec. destruct (sim_refused cmd m); cbn [snd].
    - unfold sim_refusal. destruct (_ =? CC_STARTUP);
        (constructor; [apply (bool_decide_unpack _); vm_compute; exact I|done|done]).
    - apply (sim_body_cases (fun body => complete (sim_answer 0 body)));
        [..|unfold sim_volatile; destruct (sim_present m), (sim_presence m)| |];
        (constructor; [apply (bool_decide_unpack _); vm_compute; exact I|done|done]). }
  pose proof sim_exec_ok as Hex. change sim_exec with (fifo_exec (FifoTpm := sim_fifo)) in Hex.
  constructor.
  - exact Hgo.
  - intros cmd m body Hb. destruct (Hex cmd m) as [(code & _ & [_ _ Ha])|[-> _]]; [congruence|apply sim_performs].
  - intros cmd m body Hb. destruct (Hex cmd m) as [(code & _ & [_ _ Ha])|[-> [_ _ Ha]]]; [congruence|].
    assert (body = sim_body cmd m) as -> by congruence. apply sim_told.
  - intros cmd m code Hb. destruct (Hex cmd m) as [(code' & -> & _)|[_ [_ _ Ha]]]; [done|congruence].
  - intros cmd m Hh. destruct (Hex cmd m) as [(code' & -> & _)|[-> _]]; [done|by apply sim_locks].
  - intros cmd m He. destruct (Hex cmd m) as [(code' & -> & _)|[-> _]]; [done|by apply sim_same_pcrs].
Qed.

(** ** Witness: extending a PCR through the registers *)

Definition fifo_reset : SimFifo := Build_FifoView (sim_reset []) [] None 0.

Definition extend_bytes : list Z :=
  Eval vm_compute in match cmd_finish (extend_command 0 [(ALG_SHA256, replicate 32 1)]) with Ok c => c | _ => [] end.

Lemma tis_implements_transport_witness :
  let run := @transmit _ (tis_at TIS_BASE) extend_bytes ((0, fifo_reset), zeros 64) in
  snd run = Ok 10 /\
  sim_pcr (behind (fst (fst run))) ALG_SHA256 0 = extended ALG_SHA256 (zeros 32) [(ALG_SHA256, replicate 32 1)].
Proof.
  pose proof (tis_implements_transport TIS_BASE sim_fifo_laws sim_exec_laws) as L.
  intros run. assert (Hr : snd run = Ok 10) by (vm_compute; reflexivity). split; [exact Hr|].
  destruct run as [[s' buf'] r] eqn:E. cbn [fst snd] in *. subst r.
  assert (Hbody : response_body (sub buf' 0 10) = Ok []).
  { change buf' with (snd (fst (s', buf', @Ok TpmError Z 10))). rewrite <- E. vm_compute. reflexivity. }
  pose proof (@transmit_performed _ _ _ _ L extend_bytes (0, fifo_reset) (zeros 64) s' buf' 10 [] E Hbody) as Hp.
  assert (Hm : meaning extend_bytes = EExtend 0 [(ALG_SHA256, replicate 32 1)]) by (vm_compute; reflexivity).
  rewrite Hm in Hp. destruct Hp as [_ Hp]. exact (Hp ALG_SHA256 0 (conj eq_refl (conj (Z.le_refl 0) eq_refl))).
Defined.
