(* ===== verification/Fdt.v ===== *)
(** * Fdt: patching a flattened device tree ([crates/fdt/src/lib.rs])

    The blob is patched in place: the state is the buffer behind the pointer, and
    an access outside it, which would be undefined behaviour, is [Panic].  A
    slice has at most [isize::MAX] bytes; offsets are [usize] and their sums are
    checked.

    The trees the blobs hold are in [FdtTree], the theorems in [FdtPatch]. *)

From S2P Require Import Prelude.
From S2P Require Import Bytes.
From Stdlib Require Import ZArith Lia.
From stdpp Require Import base numbers list option.

#[local] Open Scope Z_scope.

Definition FDT_MAGIC : Z := 0xD00DFEED.
Definition FDT_BEGIN_NODE : Z := 1.
Definition FDT_END_NODE : Z := 2.
Definition FDT_PROP : Z := 3.
Definition FDT_NOP : Z := 4.
Definition FDT_END : Z := 9.

Definition HDR_TOTALSIZE : Z := 4.
Definition HDR_OFF_DT_STRUCT : Z := 8.
Definition HDR_OFF_DT_STRINGS : Z := 12.
Definition HDR_SIZE_DT_STRINGS : Z := 32.
Definition HDR_SIZE_DT_STRUCT : Z := 36.

Inductive FdtPatchError := BadMagic | BufferTooSmall | ChosenNotFound | UnsupportedCellSize | StructureCorrupt.

(** An operation on the buffer. *)
Definition fdt (A : Type) : Type := sres (list Z) FdtPatchError A.

Definition s_bootargs : list Z := [0x62; 0x6F; 0x6F; 0x74; 0x61; 0x72; 0x67; 0x73].
Definition s_chosen : list Z := [0x63; 0x68; 0x6F; 0x73; 0x65; 0x6E].

Section patch.
Context {T : Target}.

(** ** Accesses *)

Definition uadd (a b : Z) : fdt Z := slift (add_or_panic usize_max a b).
Definition usub (a b : Z) : fdt Z := slift (or_panic (checked_sub a b)).

Definition read_u8 (off : Z) : fdt Z := fun buf => (buf, or_panic (get buf off)).

Definition read_be32 (off : Z) : fdt Z := fun buf =>
  (buf, let? b := or_panic (get_range buf off (off + 4)) in Ok (be_dec b)).

Definition write_bytes (off : Z) (bytes : list Z) : fdt unit := fun buf =>
  if (0 <=? off) && (off + zlen bytes <=? zlen buf) then (upd buf off bytes, Ok tt) else (buf, Panic).

(** The value is cast to [u32]. *)
Definition write_be32 (off value : Z) : fdt unit := write_bytes off (be_enc 4 value).

(** [ptr::copy] inside the buffer. *)
Definition copy_within (src dst n : Z) : fdt unit := fun buf =>
  if (0 <=? src) && (0 <=? dst) && (0 <=? n) && (src + n <=? zlen buf) && (dst + n <=? zlen buf) then (upd buf dst (sub buf src n), Ok tt) else (buf, Panic).

Definition align4 (off : Z) : fdt Z := let! a := uadd off 3 in slift (Ok (Z.ldiff a 3)).

(** Every round reads a byte of the buffer, so that many rounds are enough. *)
Fixpoint skip_name_loop (fuel : nat) (i : Z) : fdt Z :=
  match fuel with
  | O => slift Panic
  | S fuel =>
      let! b := read_u8 i in
      if b =? 0 then uadd i 1 else let! i := uadd i 1 in skip_name_loop fuel i
  end.

Definition skip_node_name (off : Z) : fdt Z := fun buf => skip_name_loop (length buf) off buf.

Fixpoint bytes_eq (off : Z) (needle : list Z) : fdt bool :=
  match needle with
  | [] => slift (Ok true)
  | b :: needle =>
      let! x := read_u8 off in
      if x =? b then bytes_eq (off + 1) needle else slift (Ok false)
  end.

(** [while i < str_size && byte != 0] *)
Fixpoint next_nul (fuel : nat) (str_start str_size i : Z) : fdt Z :=
  match fuel with
  | O => slift Panic
  | S fuel =>
      if i <? str_size then
        let! b := read_u8 (str_start + i) in
        if b =? 0 then slift (Ok i) else next_nul fuel str_start str_size (i + 1)
      else slift (Ok i)
  end.

Fixpoint find_string_loop (fuel : nat) (str_start str_size : Z) (needle : list Z) (i : Z) : fdt (option Z) :=
  match fuel with
  | O => slift Panic
  | S fuel =>
      if i + zlen needle <? str_size then
        let! same := bytes_eq (str_start + i) needle in
        let! found :=
          (if same : bool then let! b := read_u8 (str_start + i + zlen needle) in slift (Ok (b =? 0))
           else slift (Ok false)) in
        if found : bool then slift (Ok (Some i))
        else
          let! i := (fun buf => next_nul (S (length buf)) str_start str_size i buf) in
          find_string_loop fuel str_start str_size needle (i + 1)
      else slift (Ok None)
  end.

Definition find_in_strings (str_start str_size : Z) (needle : list Z) : fdt (option Z) := fun buf =>
  find_string_loop (S (length buf)) str_start str_size needle 0 buf.

(** The offset behind a property. *)
Definition prop_end (off prop_len : Z) : fdt Z :=
  let! a := uadd off 12 in
  let! b := uadd a prop_len in
  align4 b.

(** ** Setting the boot arguments *)

(** The depth never leaves [u32]: a node takes eight bytes. *)
Fixpoint find_chosen (fuel : nat) (struct_end off depth : Z) (chosen : option Z) : fdt (option Z) :=
  match fuel with
  | O => slift Panic
  | S fuel =>
      if off <? struct_end then
        let! token := read_be32 off in
        if token =? FDT_BEGIN_NODE then
          let depth := depth + 1 in
          let! name_end := skip_node_name (off + 4) in
          let! chosen :=
            (if depth =? 2 then
               if name_end - 1 - (off + 4) =? 6 then
                 let! same := bytes_eq (off + 4) s_chosen in
                 slift (Ok (if same : bool then Some off else chosen))
               else slift (Ok chosen)
             else slift (Ok chosen)) in
          let! off := align4 name_end in
          find_chosen fuel struct_end off depth chosen
        else if token =? FDT_END_NODE then find_chosen fuel struct_end (off + 4) (saturating_sub depth 1) chosen
        else if token =? FDT_PROP then
          let! prop_len := read_be32 (off + 4) in
          let! off := prop_end off prop_len in
          find_chosen fuel struct_end off depth chosen
        else if token =? FDT_NOP then find_chosen fuel struct_end (off + 4) depth chosen
        else if token =? FDT_END then slift (Ok chosen)
        else slift (Err StructureCorrupt)
      else slift (Ok chosen)
  end.

(** What the scan of a node finds: the last property looked for, the end of the
    last property. *)
Record Found := { fo_existing : option (Z * Z); fo_insert : Z }.

Fixpoint scan_chosen (fuel : nat) (off_strings off depth : Z) (f : Found) : fdt Found :=
  match fuel with
  | O => slift Panic
  | S fuel =>
      let! token := read_be32 off in
      if token =? FDT_PROP then
        if depth =? 0 then
          let! prop_len := read_be32 (off + 4) in
          let! prop_nameoff := read_be32 (off + 8) in
          let! name_abs := uadd off_strings prop_nameoff in
          let! is_bootargs := bytes_eq name_abs (s_bootargs ++ [0]) in
          let! next := prop_end off prop_len in
          scan_chosen fuel off_strings next depth
            {| fo_existing := if is_bootargs : bool then Some (off, prop_len) else fo_existing f; fo_insert := next |}
        else
          let! prop_len := read_be32 (off + 4) in
          let! off := prop_end off prop_len in
          scan_chosen fuel off_strings off depth f
      else if token =? FDT_BEGIN_NODE then
        let! name_end := skip_node_name (off + 4) in
        let! off := align4 name_end in
        scan_chosen fuel off_strings off (depth + 1) f
      else if token =? FDT_END_NODE then
        if depth =? 0 then slift (Ok f) else scan_chosen fuel off_strings (off + 4) (depth - 1) f
      else if token =? FDT_NOP then scan_chosen fuel off_strings (off + 4) depth f
      else slift (Err StructureCorrupt)
  end.

(** [for i in from..to { *dtb.add(base + i) = 0 }] writes one run of zeros. *)
Definition zero_range (from to : Z) : fdt unit :=
  if from <? to then write_bytes from (zeros (to - from)) else slift (Ok tt).

Fixpoint write_nops (n : nat) (off : Z) : fdt unit :=
  match n with
  | O => slift (Ok tt)
  | S n => let! _ := write_be32 off FDT_NOP in write_nops n (off + 4)
  end.

(** [for i in 0..nop_words] over the old property. *)
Definition nop_out (prop_off old_len : Z) : fdt unit :=
  let! a := uadd 12 old_len in
  let! old_total := align4 a in
  write_nops (Z.to_nat (old_total / 4)) prop_off.

Definition update_header (totalsize size_struct off_strings size_strings : Z) : fdt unit :=
  let! _ := write_be32 HDR_TOTALSIZE totalsize in
  let! _ := write_be32 HDR_SIZE_DT_STRUCT size_struct in
  let! _ := write_be32 HDR_OFF_DT_STRINGS off_strings in
  write_be32 HDR_SIZE_DT_STRINGS size_strings.

(** The value fits in place. *)
Definition overwrite_bootargs (prop_off old_len : Z) (bootargs : list Z) (totalsize : Z) : fdt Z :=
  let new_value_len := zlen bootargs + 1 in
  let! _ := write_be32 (prop_off + 4) new_value_len in
  let val_start := prop_off + 12 in
  let! _ := write_bytes val_start bootargs in
  let! _ := write_bytes (val_start + zlen bootargs) [0] in
  let! _ := zero_range (val_start + new_value_len) (val_start + old_len) in
  slift (Ok totalsize).

(** Steps 4 to 7. *)
Definition insert_bootargs (max_size totalsize off_strings size_strings size_struct insert_off : Z)
    (bootargs : list Z) : fdt Z :=
  let new_value_len := zlen bootargs + 1 in
  let! found := find_in_strings off_strings size_strings s_bootargs in
  let '(nameoff, string_add_len) := match found with Some n => (n, 0) | None => (size_strings, 9) end in
  let! value_end := uadd 12 new_value_len in
  let! new_prop_total := align4 value_end in
  let! a := uadd totalsize new_prop_total in
  let! new_totalsize := uadd a string_add_len in
  if max_size <? new_totalsize then slift (Err BufferTooSmall)
  else
    let! tail_len := usub totalsize insert_off in
    let! _ := copy_within insert_off (insert_off + new_prop_total) tail_len in
    let! _ := write_be32 insert_off FDT_PROP in
    let! _ := write_be32 (insert_off + 4) new_value_len in
    let! _ := write_be32 (insert_off + 8) nameoff in
    let! _ := write_bytes (insert_off + 12) bootargs in
    let! _ := write_bytes (insert_off + 12 + zlen bootargs) [0] in
    let! _ := zero_range (insert_off + 12 + new_value_len) (insert_off + new_prop_total) in
    let! _ :=
      (if 0 <? string_add_len then
         write_bytes (off_strings + new_prop_total + size_strings) (s_bootargs ++ [0])
       else slift (Ok tt)) in
    let! _ := update_header new_totalsize (size_struct + new_prop_total) (off_strings + new_prop_total)
      (size_strings + string_add_len) in
    slift (Ok new_totalsize).

(** Step 3 and what follows. *)
Definition patch_found (max_size totalsize off_strings size_strings size_struct : Z) (bootargs : list Z)
    (found : Found) : fdt Z :=
  match fo_existing found with
  | Some (prop_off, old_len) =>
      if zlen bootargs + 1 <=? old_len then overwrite_bootargs prop_off old_len bootargs totalsize
      else
        let! _ := nop_out prop_off old_len in
        insert_bootargs max_size totalsize off_strings size_strings size_struct (fo_insert found) bootargs
  | None => insert_bootargs max_size totalsize off_strings size_strings size_struct (fo_insert found) bootargs
  end.

(** Step 1 and what follows. *)
Definition patch_chosen (max_size totalsize off_struct off_strings size_strings size_struct : Z)
    (bootargs : list Z) : fdt Z :=
  let! struct_end := uadd off_struct size_struct in
  let! chosen := (fun buf => find_chosen (S (length buf)) struct_end off_struct 0 None buf) in
  let! chosen_start := slift (ok_or chosen ChosenNotFound) in
  let! name_end := skip_node_name (chosen_start + 4) in
  let! body := align4 name_end in
  let! found := (fun buf => scan_chosen (S (length buf)) off_strings body 0
    {| fo_existing := None; fo_insert := body |} buf) in
  patch_found max_size totalsize off_strings size_strings size_struct bootargs found.

Definition fdt_set_bootargs (max_size : Z) (bootargs : list Z) : fdt Z :=
  let! magic := read_be32 0 in
  if negb (magic =? FDT_MAGIC) then slift (Err BadMagic)
  else
    let! totalsize := read_be32 HDR_TOTALSIZE in
    let! off_struct := read_be32 HDR_OFF_DT_STRUCT in
    let! off_strings := read_be32 HDR_OFF_DT_STRINGS in
    let! size_strings := read_be32 HDR_SIZE_DT_STRINGS in
    let! size_struct := read_be32 HDR_SIZE_DT_STRUCT in
    patch_chosen max_size totalsize off_struct off_strings size_strings size_struct bootargs.
End patch.
