(* ===== verification/FdtTree.v ===== *)
(** * FdtTree: the trees in a device tree blob

    The abstract view of a blob is a tree of nodes with named properties; the
    structure block is a list of items that flattens the tree.  The walks of
    [Fdt] over the bytes are folds over the items. *)

From S2P Require Import Prelude.
From S2P Require Import Bytes.
From S2P Require Import Fdt.
From Stdlib Require Import ZArith Lia.
From stdpp Require Import base numbers list option.

#[local] Open Scope Z_scope.

(** ** Blobs

    A structure block is a list of items, each padded to whole words. *)

Inductive item := IBegin (name : list Z) | IEnd | IProp (nameoff : Z) (value : list Z) | INop.

Definition pad (n : Z) : list Z := zeros (- n mod 4).

Definition item_bytes (i : item) : list Z :=
  match i with
  | IBegin name => be_enc 4 FDT_BEGIN_NODE ++ name ++ 0 :: pad (zlen name + 1)
  | IEnd => be_enc 4 FDT_END_NODE
  | IProp nameoff value => be_enc 4 FDT_PROP ++ be_enc 4 (zlen value) ++ be_enc 4 nameoff ++ value ++ pad (zlen value)
  | INop => be_enc 4 FDT_NOP
  end.

Definition items_bytes (l : list item) : list Z := concat (map item_bytes l).
Definition struct_bytes (l : list item) : list Z := items_bytes l ++ be_enc 4 FDT_END.

(** Names are without NUL, lengths and offsets have 32 bits. *)
Definition item_ok (i : item) : Prop :=
  match i with
  | IBegin name => 0 ∉ name
  | IProp nameoff value => 0 <= nameoff < 2 ^ 32 /\ zlen value < 2 ^ 32
  | _ => True
  end.

(** A blob in its buffer: the header with its reserved fields, what lies between
    header and structure, the structure, the strings, and the bytes behind. *)
Record Blob := {
  bl_total : Z; bl_fixed : list Z; bl_rsv : list Z; bl_items : list item; bl_mid : list Z;
  bl_strings : list Z; bl_tail : list Z
}.

Definition bl_struct_off (b : Blob) : Z := 40 + zlen (bl_rsv b).
Definition bl_strings_off (b : Blob) : Z := bl_struct_off b + zlen (struct_bytes (bl_items b)) + zlen (bl_mid b).

Definition blob_bytes (b : Blob) : list Z :=
  be_enc 4 FDT_MAGIC ++ be_enc 4 (bl_total b) ++ be_enc 4 (bl_struct_off b) ++ be_enc 4 (bl_strings_off b) ++
  bl_fixed b ++ be_enc 4 (zlen (bl_strings b)) ++ be_enc 4 (zlen (struct_bytes (bl_items b))) ++
  bl_rsv b ++ struct_bytes (bl_items b) ++ bl_mid b ++ bl_strings b ++ bl_tail b.

Record blob_ok (b : Blob) : Prop := {
  bo_fixed : zlen (bl_fixed b) = 16; bo_rsv : zlen (bl_rsv b) mod 4 = 0;
  bo_items : Forall item_ok (bl_items b);
  bo_strings : bl_strings_off b + zlen (bl_strings b) <= bl_total b;
  bo_total : bl_total b <= zlen (blob_bytes b); bo_small : bl_total b < 2 ^ 32
}.

(** ** Reading what is there *)

Section reading.
Context {T : Target}.

Lemma align4_ok off buf : 0 <= off -> off + 3 <= usize_max -> align4 off buf = (buf, Ok (off + zlen (pad off))).
Proof.
  intros H0 Hm. unfold align4, sbind, uadd, slift, add_or_panic. rewrite checked_add_ok by done. cbn [or_panic].
  do 3 f_equal. unfold pad. rewrite zlen_zeros by (apply Z.mod_pos_bound; lia).
  change 3 with (Z.ones 2) at 2. rewrite Z.ldiff_ones_r by lia. rewrite Z.shiftl_mul_pow2, Z.shiftr_div_pow2 by lia.
  change (2 ^ 2) with 4. Z.div_mod_to_equations. lia.
Qed.

Lemma pad_aligned q n : q mod 4 = 0 -> zlen (pad (q + n)) = zlen (pad n).
Proof.
  intros Hq. unfold pad. rewrite !zlen_zeros by (apply Z.mod_pos_bound; lia). Z.div_mod_to_equations. lia.
Qed.

Lemma read_be32_at a v c :
  0 <= v < 2 ^ 32 -> read_be32 (zlen a) (a ++ be_enc 4 v ++ c) = (a ++ be_enc 4 v ++ c, Ok v).
Proof.
  intros Hv. unfold read_be32, get_range. rewrite !zlen_app.
  assert (H4 : zlen (be_enc 4 v) = 4) by (unfold be_enc, zlen; by rewrite length_reverse, length_le_enc).
  pose proof (zlen_nonneg a). pose proof (zlen_nonneg c). rewrite H4. guard_true. cbn [or_panic rbind].
  rewrite sub_app_r, Z.sub_diag, Z.add_simpl_l, sub_app_exact by lia. by rewrite be_dec_enc.
Qed.

Lemma read_be32_in buf a v c off :
  buf = a ++ be_enc 4 v ++ c -> off = zlen a -> 0 <= v < 2 ^ 32 -> read_be32 off buf = (buf, Ok v).
Proof. intros -> -> Hv. by apply read_be32_at. Qed.

Lemma read_u8_at a x c : read_u8 (zlen a) (a ++ x :: c) = (a ++ x :: c, Ok x).
Proof.
  unfold read_u8, get. pose proof (zlen_nonneg a). guard_true. unfold zlen. rewrite Nat2Z.id.
  rewrite list_lookup_middle; done.
Qed.

Lemma skip_name_loop_at n : forall fuel a c,
  0 ∉ n -> (length n < fuel)%nat -> zlen (a ++ n ++ 0 :: c) <= usize_max ->
  skip_name_loop fuel (zlen a) (a ++ n ++ 0 :: c) = (a ++ n ++ 0 :: c, Ok (zlen a + zlen n + 1)).
Proof.
  induction n as [|x n IH]; intros fuel a c Hn Hf Hm; (destruct fuel as [|fuel]; [cbn in Hf; lia|]);
    cbn [skip_name_loop app]; unfold sbind; rewrite read_u8_at; cbn [app] in Hm; rewrite zlen_app, zlen_cons in Hm;
    pose proof (zlen_nonneg c).
  - cbn [Z.eqb]. unfold uadd, slift, add_or_panic. rewrite checked_add_ok by lia.
    change (zlen []) with 0. by rewrite Z.add_0_r.
  - rewrite not_elem_of_cons in Hn. destruct Hn as [Hx Hn]. rewrite (proj2 (Z.eqb_neq x 0)) by done.
    rewrite zlen_app, zlen_cons in Hm. pose proof (zlen_nonneg n).
    unfold uadd, slift, add_or_panic. rewrite checked_add_ok by lia. cbn [or_panic].
    change (a ++ x :: n ++ 0 :: c) with (a ++ [x] ++ n ++ 0 :: c). rewrite app_assoc.
    replace (zlen a + 1) with (zlen (a ++ [x])) by (rewrite zlen_app; done).
    rewrite IH; [|done|cbn in Hf; lia|rewrite !zlen_app, !zlen_cons, zlen_nil; lia].
    do 2 f_equal. rewrite zlen_app, !zlen_cons, zlen_nil. lia.
Qed.

Lemma skip_node_name_at buf a n c off :
  buf = a ++ n ++ 0 :: c -> off = zlen a -> 0 ∉ n -> zlen buf <= usize_max ->
  skip_node_name off buf = (buf, Ok (zlen a + zlen n + 1)).
Proof.
  intros -> -> Hn Hm. unfold skip_node_name. apply skip_name_loop_at; [done| |done].
  rewrite !length_app. cbn. lia.
Qed.

(** Comparing with a name of the same length. *)
Lemma bytes_eq_same n : forall needle a c, zlen n = zlen needle ->
  bytes_eq (zlen a) needle (a ++ n ++ c) = (a ++ n ++ c, Ok (bool_decide (n = needle))).
Proof.
  induction n as [|x n IH]; intros [|y needle] a c Hl; rewrite ?zlen_cons in Hl;
    try (pose proof (zlen_nonneg n)); try (pose proof (zlen_nonneg needle)); try (change (zlen []) with 0 in Hl; lia).
  { by rewrite bool_decide_true. }
  cbn [bytes_eq app]. unfold sbind. rewrite read_u8_at. destruct (Z.eqb_spec x y) as [->|Hxy].
  - change (a ++ y :: n ++ c) with (a ++ [y] ++ n ++ c). rewrite app_assoc.
    replace (zlen a + 1) with (zlen (a ++ [y])) by (rewrite zlen_app; done).
    rewrite IH by lia. do 2 f_equal. apply bool_decide_ext. naive_solver.
  - rewrite bool_decide_false by congruence. done.
Qed.

(** Comparing with a name and its NUL. *)
Lemma bytes_eq_nul n : forall needle a c, 0 ∉ n -> 0 ∉ needle ->
  bytes_eq (zlen a) (needle ++ [0]) (a ++ n ++ 0 :: c) = (a ++ n ++ 0 :: c, Ok (bool_decide (n = needle))).
Proof.
  induction n as [|x n IH]; intros [|y needle] a c Hn Hd; cbn [bytes_eq app]; unfold sbind; rewrite read_u8_at;
    rewrite ?not_elem_of_cons in *.
  - by rewrite bool_decide_true.
  - rewrite (proj2 (Z.eqb_neq 0 y)) by tauto. by rewrite bool_decide_false.
  - rewrite (proj2 (Z.eqb_neq x 0)) by naive_solver. by rewrite bool_decide_false.
  - destruct (Z.eqb_spec x y) as [->|Hxy]; [|rewrite bool_decide_false by congruence; done].
    change (a ++ y :: n ++ 0 :: c) with (a ++ [y] ++ n ++ 0 :: c). rewrite app_assoc.
    replace (zlen a + 1) with (zlen (a ++ [y])) by (rewrite zlen_app; done).
    rewrite IH by tauto. do 2 f_equal. apply bool_decide_ext. naive_solver.
Qed.

Lemma prop_end_ok off n buf :
  0 <= off -> 0 <= n -> off mod 4 = 0 -> off + n + 15 <= usize_max ->
  prop_end off n buf = (buf, Ok (off + 12 + n + zlen (pad n))).
Proof.
  intros H0 Hn Ha Hm. unfold prop_end, sbind, uadd, slift, add_or_panic.
  rewrite !checked_add_ok by lia. cbn [or_panic]. rewrite checked_add_ok by lia. cbn [or_panic].
  rewrite align4_ok by lia. do 2 f_equal. rewrite <- (pad_aligned (off + 12) n); [done|].
  rewrite <- Zplus_mod_idemp_l, Ha. done.
Qed.
End reading.

(** ** Walking over items *)

Lemma zlen_pad n : zlen (pad n) = - n mod 4.
Proof. unfold pad. apply zlen_zeros. apply Z.mod_pos_bound. lia. Qed.

Lemma item_bytes_size i : 4 <= zlen (item_bytes i) /\ zlen (item_bytes i) mod 4 = 0.
Proof.
  destruct i as [name| |o v|]; cbn [item_bytes];
    repeat (rewrite ?zlen_app, ?zlen_cons, ?zlen_be_enc, ?zlen_pad); try done.
  - pose proof (zlen_nonneg name). Z.div_mod_to_equations. lia.
  - pose proof (zlen_nonneg v). Z.div_mod_to_equations. lia.
Qed.

Lemma items_bytes_app l k : items_bytes (l ++ k) = items_bytes l ++ items_bytes k.
Proof. unfold items_bytes. by rewrite map_app, concat_app. Qed.

Lemma items_bytes_cons i l : items_bytes (i :: l) = item_bytes i ++ items_bytes l.
Proof. done. Qed.

Lemma items_bytes_size l : 4 * Z.of_nat (length l) <= zlen (items_bytes l) /\ zlen (items_bytes l) mod 4 = 0.
Proof.
  induction l as [|i l [IH1 IH2]]; [done|]. rewrite items_bytes_cons, zlen_app. cbn [length].
  destruct (item_bytes_size i). split; [lia|]. rewrite Zplus_mod, H0, IH2. done.
Qed.

(** The state of [find_chosen] behind an item. *)
Definition chosen_step (s : Z * Z * option Z) (i : item) : Z * Z * option Z :=
  let '(off, depth, c) := s in
  let next := off + zlen (item_bytes i) in
  match i with
  | IBegin name => (next, depth + 1, if (depth + 1 =? 2) && bool_decide (name = s_chosen) then Some off else c)
  | IEnd => (next, saturating_sub depth 1, c)
  | _ => (next, depth, c)
  end.

(** The name is at this place of the strings. *)
Definition name_at (strings : list Z) (off : Z) (name : list Z) : Prop :=
  0 ∉ name /\ exists a b, strings = a ++ name ++ 0 :: b /\ zlen a = off.

Definition named (strings : list Z) (off : Z) (name : list Z) : bool :=
  bool_decide (sub strings off (zlen name + 1) = name ++ [0]).

(** The state of [scan_chosen] behind an item. *)
Definition scan_step (strings : list Z) (s : Z * Z * Found) (i : item) : Z * Z * Found :=
  let '(off, depth, f) := s in
  let next := off + zlen (item_bytes i) in
  match i with
  | IBegin _ => (next, depth + 1, f)
  | IEnd => (next, depth - 1, f)
  | INop => (next, depth, f)
  | IProp o v =>
      (next, depth,
       if depth =? 0 then
         {| fo_existing := if named strings o s_bootargs then Some (off, zlen v) else fo_existing f; fo_insert := next |}
       else f)
  end.

Lemma zero_free_prefix (n m : list Z) b c : 0 ∉ n -> 0 ∉ m -> n ++ 0 :: b = m ++ 0 :: c -> n = m.
Proof.
  revert m. induction n as [|x n IH]; intros [|y m] Hn Hm; rewrite ?not_elem_of_cons in *; cbn; naive_solver.
Qed.

Lemma name_at_named strings o nm nm' : name_at strings o nm -> 0 ∉ nm' -> named strings o nm' = bool_decide (nm = nm').
Proof.
  intros (Hn & a & b & -> & <-) Hn'. unfold named. apply bool_decide_ext.
  rewrite sub_app_r by lia. rewrite Z.sub_diag. split; [|intros ->].
  - intros He. assert (Hp : exists c, nm ++ 0 :: b = (nm' ++ [0]) ++ c).
    { rewrite <- He. unfold sub. rewrite drop_0. eexists. symmetry. apply take_drop. }
    destruct Hp as [c Hp]. rewrite <- app_assoc in Hp. by eapply zero_free_prefix.
  - rewrite cons_middle, app_assoc. apply sub_app_exact. rewrite zlen_app. done.
Qed.

(** The strings are in the buffer. *)
Definition strings_in (buf : list Z) (off : Z) (strings : list Z) : Prop :=
  exists a c, buf = a ++ strings ++ c /\ zlen a = off.

(** A buffer that [usize] offsets cover with room. *)
Definition small {T : Target} (buf : list Z) : Prop := zlen buf + 16 <= usize_max.

Section walks.
Context {T : Target}.

Lemma bytes_eq_name buf off strings o nm needle :
  strings_in buf off strings -> name_at strings o nm -> 0 ∉ needle ->
  bytes_eq (off + o) (needle ++ [0]) buf = (buf, Ok (bool_decide (nm = needle))).
Proof.
  intros (a & c & -> & <-) (Hn & a' & b & -> & <-) Hd. rewrite <- zlen_app.
  replace (a ++ (a' ++ nm ++ 0 :: b) ++ c) with ((a ++ a') ++ nm ++ 0 :: b ++ c) by (by rewrite <- !app_assoc).
  by apply bytes_eq_nul.
Qed.

Lemma find_chosen_item fuel struct_end i buf pre post depth c :
  buf = pre ++ item_bytes i ++ post -> item_ok i -> zlen pre mod 4 = 0 -> zlen pre < struct_end -> small buf ->
  find_chosen (S fuel) struct_end (zlen pre) depth c buf =
    let '(off, depth, c) := chosen_step (zlen pre, depth, c) i in find_chosen fuel struct_end off depth c buf.
Proof.
  intros Hb Hok Ha He Hs. pose proof (zlen_nonneg pre) as H0. pose proof (zlen_nonneg post).
  assert (Hz : zlen buf = zlen pre + zlen (item_bytes i) + zlen post) by (rewrite Hb, !zlen_app; lia).
  unfold small in Hs. cbn [find_chosen]. rewrite (proj2 (Z.ltb_lt _ _) He). unfold sbind at 1.
  destruct i as [name| |o v|]; cbn [item_bytes chosen_step item_ok] in *.
  - rewrite <- !app_assoc in Hb.
    rewrite (read_be32_in _ pre FDT_BEGIN_NODE _ _ Hb) by done. cbn [Z.eqb Pos.eqb FDT_BEGIN_NODE].
    assert (Hb' : buf = (pre ++ be_enc 4 FDT_BEGIN_NODE) ++ name ++ 0 :: pad (zlen name + 1) ++ post)
      by (rewrite Hb, <- !app_assoc; done).
    assert (Hoff : zlen pre + 4 = zlen (pre ++ be_enc 4 FDT_BEGIN_NODE)) by (rewrite zlen_app, zlen_be_enc; lia).
    rewrite !zlen_app, zlen_cons, zlen_be_enc, zlen_pad in Hz. pose proof (zlen_nonneg name).
    pose proof (Z.mod_pos_bound (- (zlen name + 1)) 4 ltac:(lia)).
    unfold sbind at 1. rewrite (skip_node_name_at _ _ _ _ _ Hb' Hoff Hok) by lia. unfold sbind at 1. rewrite <- Hoff.
    match goal with |- context [(if depth + 1 =? 2 then ?x else ?y) buf] => set (m := if depth + 1 =? 2 then x else y) end.
    assert (Hm : m buf = (buf, Ok (if (depth + 1 =? 2) && bool_decide (name = s_chosen) then Some (zlen pre) else c))).
    { unfold m. destruct (depth + 1 =? 2); [|done]. destruct (Z.eqb_spec (zlen pre + 4 + zlen name + 1 - 1 - (zlen pre + 4)) 6).
      - unfold sbind. rewrite Hoff, Hb' at 1. rewrite bytes_eq_same by (change (zlen s_chosen) with 6; lia).
        rewrite <- Hb'. by case_bool_decide.
      - rewrite bool_decide_false; [done|]. intros ->. change (zlen s_chosen) with 6 in *. lia. }
    rewrite Hm. unfold sbind at 1. rewrite align4_ok by lia. f_equal.
    replace (zlen pre + 4 + zlen name + 1) with (zlen pre + 4 + (zlen name + 1)) by lia.
    rewrite pad_aligned by (rewrite <- Zplus_mod_idemp_l, Ha; done).
    rewrite !zlen_app, zlen_cons, zlen_be_enc. lia.
  - rewrite (read_be32_in _ pre FDT_END_NODE _ _ Hb) by done. done.
  - rewrite <- !app_assoc in Hb. rewrite (read_be32_in _ pre FDT_PROP _ _ Hb) by done. cbn [Z.eqb Pos.eqb FDT_PROP FDT_BEGIN_NODE FDT_END_NODE].
    unfold sbind at 1. destruct Hok as [Ho Hv]. pose proof (zlen_nonneg v).
    assert (Hb' : buf = (pre ++ be_enc 4 FDT_PROP) ++ be_enc 4 (zlen v) ++ be_enc 4 o ++ v ++ pad (zlen v) ++ post)
      by (rewrite Hb, <- !app_assoc; done).
    rewrite (read_be32_in _ _ _ _ _ Hb'); [|rewrite zlen_app, zlen_be_enc; lia|lia].
    rewrite !zlen_app, !zlen_be_enc, zlen_pad in Hz. pose proof (Z.mod_pos_bound (- zlen v) 4 ltac:(lia)).
    unfold sbind at 1. rewrite prop_end_ok by lia. f_equal. rewrite !zlen_app, !zlen_be_enc. lia.
  - rewrite (read_be32_in _ pre FDT_NOP _ _ Hb) by done. done.
Qed.

Definition item_named (strings : list Z) (i : item) : Prop :=
  match i with IProp o _ => exists nm, name_at strings o nm | _ => True end.

Lemma scan_chosen_item fuel off_strings strings i buf pre post depth f :
  buf = pre ++ item_bytes i ++ post -> item_ok i -> item_named strings i -> zlen pre mod 4 = 0 -> small buf ->
  strings_in buf off_strings strings -> (i = IEnd -> depth <> 0) ->
  scan_chosen (S fuel) off_strings (zlen pre) depth f buf =
    let '(off, depth, f) := scan_step strings (zlen pre, depth, f) i in
    scan_chosen fuel off_strings off depth f buf.
Proof.
  intros Hb Hok Hnm Ha Hs Hstr He. pose proof (zlen_nonneg pre) as H0. pose proof (zlen_nonneg post).
  assert (Hz : zlen buf = zlen pre + zlen (item_bytes i) + zlen post) by (rewrite Hb, !zlen_app; lia).
  unfold small in Hs. cbn [scan_chosen]. unfold sbind at 1.
  destruct i as [name| |o v|]; cbn [item_bytes scan_step item_ok item_named] in *.
  - rewrite <- !app_assoc in Hb.
    rewrite (read_be32_in _ pre FDT_BEGIN_NODE _ _ Hb) by done. cbn [Z.eqb Pos.eqb FDT_BEGIN_NODE FDT_PROP].
    assert (Hb' : buf = (pre ++ be_enc 4 FDT_BEGIN_NODE) ++ name ++ 0 :: pad (zlen name + 1) ++ post)
      by (rewrite Hb, <- !app_assoc; done).
    assert (Hoff : zlen pre + 4 = zlen (pre ++ be_enc 4 FDT_BEGIN_NODE)) by (rewrite zlen_app, zlen_be_enc; lia).
    rewrite !zlen_app, zlen_cons, zlen_be_enc, zlen_pad in Hz. pose proof (zlen_nonneg name).
    pose proof (Z.mod_pos_bound (- (zlen name + 1)) 4 ltac:(lia)).
    unfold sbind at 1. rewrite (skip_node_name_at _ _ _ _ _ Hb' Hoff Hok) by lia. unfold sbind at 1. rewrite <- Hoff.
    rewrite align4_ok by lia. f_equal.
    replace (zlen pre + 4 + zlen name + 1) with (zlen pre + 4 + (zlen name + 1)) by lia.
    rewrite pad_aligned by (rewrite <- Zplus_mod_idemp_l, Ha; done).
    rewrite !zlen_app, zlen_cons, zlen_be_enc. lia.
  - rewrite (read_be32_in _ pre FDT_END_NODE _ _ Hb) by done. cbn [Z.eqb Pos.eqb FDT_BEGIN_NODE FDT_PROP FDT_END_NODE].
    by rewrite (proj2 (Z.eqb_neq _ _) (He eq_refl)).
  - rewrite <- !app_assoc in Hb. rewrite (read_be32_in _ pre FDT_PROP _ _ Hb) by done. cbn [Z.eqb Pos.eqb FDT_PROP].
    destruct Hok as [Ho Hv]. pose proof (zlen_nonneg v).
    assert (Hb' : buf = (pre ++ be_enc 4 FDT_PROP) ++ be_enc 4 (zlen v) ++ be_enc 4 o ++ v ++ pad (zlen v) ++ post)
      by (rewrite Hb, <- !app_assoc; done).
    assert (Hb2 : buf = (pre ++ be_enc 4 FDT_PROP ++ be_enc 4 (zlen v)) ++ be_enc 4 o ++ v ++ pad (zlen v) ++ post)
      by (rewrite Hb, <- !app_assoc; done).
    assert (Hr1 : read_be32 (zlen pre + 4) buf = (buf, Ok (zlen v)))
      by (rewrite (read_be32_in _ _ _ _ _ Hb'); [done|rewrite zlen_app, zlen_be_enc; lia|lia]).
    assert (Hr2 : read_be32 (zlen pre + 8) buf = (buf, Ok o))
      by (rewrite (read_be32_in _ _ _ _ _ Hb2); [done|rewrite !zlen_app, !zlen_be_enc; lia|lia]).
    rewrite !zlen_app, !zlen_be_enc, zlen_pad in Hz. pose proof (Z.mod_pos_bound (- zlen v) 4 ltac:(lia)).
    assert (Hp : prop_end (zlen pre) (zlen v) buf = (buf, Ok (zlen pre + zlen (item_bytes (IProp o v))))).
    { rewrite prop_end_ok by lia. do 2 f_equal. cbn [item_bytes]. rewrite !zlen_app, !zlen_be_enc. lia. }
    destruct (depth =? 0).
    + unfold sbind at 1. rewrite Hr1. unfold sbind at 1. rewrite Hr2. unfold sbind at 1.
      destruct Hnm as [nm Hnm]. pose proof Hnm as (Hn0 & a' & b' & Hst & Hao).
      assert (Hle : off_strings + o <= zlen buf).
      { destruct Hstr as (a & c & Hbs & <-). rewrite Hbs, Hst, <- Hao, !zlen_app.
        pose proof (zlen_nonneg nm). pose proof (zlen_nonneg c). pose proof (zlen_nonneg (0 :: b')). lia. }
      unfold uadd, slift, add_or_panic. rewrite checked_add_ok by lia. cbn [or_panic]. unfold sbind at 1.
      assert (Hz0 : 0 ∉ s_bootargs) by (apply (bool_decide_unpack _); vm_compute; exact I).
      rewrite (bytes_eq_name _ _ _ _ _ _ Hstr Hnm Hz0). unfold sbind at 1. rewrite Hp.
      by rewrite (name_at_named _ _ _ _ Hnm Hz0).
    + unfold sbind at 1. rewrite Hr1. unfold sbind at 1. rewrite Hp. done.
  - rewrite (read_be32_in _ pre FDT_NOP _ _ Hb) by done. done.
Qed.

(** Over a list of items. *)
Lemma find_chosen_items l : forall fuel struct_end buf pre post depth c,
  buf = pre ++ items_bytes l ++ post -> Forall item_ok l -> zlen pre mod 4 = 0 ->
  zlen pre + zlen (items_bytes l) <= struct_end -> small buf ->
  find_chosen (length l + fuel) struct_end (zlen pre) depth c buf =
    let '(off, depth, c) := fold_left chosen_step l (zlen pre, depth, c) in
    find_chosen fuel struct_end off depth c buf.
Proof.
  induction l as [|i l IH]; intros fuel struct_end buf pre post depth c Hb Hok Ha He Hs; [done|].
  apply list.Forall_cons in Hok as [Hi Hok]. rewrite items_bytes_cons, zlen_app in He.
  rewrite items_bytes_cons, <- app_assoc in Hb. destruct (item_bytes_size i) as [Hi4 Him].
  pose proof (items_bytes_size l) as [Hl _]. cbn [length plus].
  rewrite (find_chosen_item _ _ i buf pre (items_bytes l ++ post)) by (done || lia). cbn [fold_left].
  destruct (chosen_step (zlen pre, depth, c) i) as [[off d'] c'] eqn:Hst.
  assert (off = zlen (pre ++ item_bytes i)) as ->.
  { rewrite zlen_app. destruct i; cbn [chosen_step] in Hst; congruence. }
  apply (IH fuel struct_end buf (pre ++ item_bytes i) post); rewrite ?zlen_app; try done.
  - by rewrite <- app_assoc.
  - by rewrite Zplus_mod, Ha, Him.
  - lia.
Qed.

Fixpoint inside (l : list item) (depth : Z) : Prop :=
  match l with
  | [] => True
  | IBegin _ :: l => inside l (depth + 1)
  | IEnd :: l => depth <> 0 /\ inside l (depth - 1)
  | _ :: l => inside l depth
  end.

Lemma scan_chosen_items off_strings strings l : forall fuel buf pre post depth f,
  buf = pre ++ items_bytes l ++ post -> Forall item_ok l -> Forall (item_named strings) l ->
  zlen pre mod 4 = 0 -> small buf -> strings_in buf off_strings strings -> inside l depth ->
  scan_chosen (length l + fuel) off_strings (zlen pre) depth f buf =
    let '(off, depth, f) := fold_left (scan_step strings) l (zlen pre, depth, f) in
    scan_chosen fuel off_strings off depth f buf.
Proof.
  induction l as [|i l IH]; intros fuel buf pre post depth f Hb Hok Hnm Ha Hs Hstr Hin; [done|].
  apply list.Forall_cons in Hok as [Hi Hok]. apply list.Forall_cons in Hnm as [Hni Hnm].
  rewrite items_bytes_cons, <- app_assoc in Hb. destruct (item_bytes_size i) as [Hi4 Him]. cbn [length plus].
  rewrite (scan_chosen_item _ _ strings i buf pre (items_bytes l ++ post)); try done.
  2:{ intros ->. apply Hin. }
  cbn [fold_left]. destruct (scan_step strings (zlen pre, depth, f) i) as [[off d'] f'] eqn:Hst.
  assert (Hd : d' = match i with IBegin _ => depth + 1 | IEnd => depth - 1 | _ => depth end)
    by (destruct i; cbn [scan_step] in Hst; congruence).
  assert (off = zlen (pre ++ item_bytes i)) as ->.
  { rewrite zlen_app. destruct i; cbn [scan_step] in Hst; congruence. }
  apply (IH fuel buf (pre ++ item_bytes i) post); try done.
  - by rewrite <- app_assoc.
  - by rewrite zlen_app, Zplus_mod, Ha, Him.
  - rewrite Hd. destruct i; cbn [inside] in Hin; tauto.
Qed.
End walks.

(** ** Trees *)

(** A device tree: names, properties and children in order. *)
Inductive tree := Node (name : list Z) (props : list (list Z * list Z)) (kids : list tree).

Definition tree_name (t : tree) : list Z := let '(Node name _ _) := t in name.

Section flat.
Context (strings : list Z).

(** The items of properties, of a node and of a list of nodes; [INop] may stand
    between any two of them. *)
Inductive flat_props : list (list Z * list Z) -> list item -> Prop :=
| fp_nil : flat_props [] []
| fp_nop ps l : flat_props ps l -> flat_props ps (INop :: l)
| fp_prop name value off ps l :
    name_at strings off name -> item_ok (IProp off value) -> flat_props ps l ->
    flat_props ((name, value) :: ps) (IProp off value :: l).

Inductive flat_node : tree -> list item -> Prop :=
  | fn_node name ps ks pl kl :
      0 ∉ name -> flat_props ps pl -> flat_kids ks kl ->
      flat_node (Node name ps ks) (IBegin name :: pl ++ kl ++ [IEnd])
  with flat_kids : list tree -> list item -> Prop :=
  | fk_nil : flat_kids [] []
  | fk_nop ks l : flat_kids ks l -> flat_kids ks (INop :: l)
  | fk_node k ks kl l : flat_node k kl -> flat_kids ks l -> flat_kids (k :: ks) (kl ++ l).

Scheme flat_node_mut := Induction for flat_node Sort Prop
  with flat_kids_mut := Induction for flat_kids Sort Prop.
Combined Scheme flat_ind from flat_node_mut, flat_kids_mut.

(** What every list of items of a tree satisfies. *)
Definition good_item (i : item) : Prop := item_ok i /\ item_named strings i.

Lemma flat_props_good ps l : flat_props ps l -> Forall good_item l.
Proof. induction 1; constructor; try done. by split; [|eexists]. Qed.

Lemma flat_good :
  (forall t l, flat_node t l -> Forall good_item l) /\ (forall ts l, flat_kids ts l -> Forall good_item l).
Proof.
  apply flat_ind; intros.
  - constructor; [by split|]. rewrite !list.Forall_app. split_and!; [by eapply flat_props_good|done|by constructor].
  - constructor.
  - by constructor.
  - by apply list.Forall_app.
Qed.

(** *** The walks over a tree *)

Lemma chosen_props ps l off depth c :
  flat_props ps l -> fold_left chosen_step l (off, depth, c) = (off + zlen (items_bytes l), depth, c).
Proof.
  intros Hf. revert off. induction Hf; intros off0; cbn [fold_left chosen_step].
  - change (items_bytes []) with (@nil Z). change (zlen []) with 0. by rewrite Z.add_0_r.
  - rewrite IHHf, items_bytes_cons, zlen_app. by rewrite Z.add_assoc.
  - rewrite IHHf, items_bytes_cons, zlen_app. by rewrite Z.add_assoc.
Qed.

(** Below the children of the root nothing is found. *)
Lemma chosen_deep :
  (forall t l, flat_node t l -> forall off depth c, 2 <= depth ->
     fold_left chosen_step l (off, depth, c) = (off + zlen (items_bytes l), depth, c)) /\
  (forall ts l, flat_kids ts l -> forall off depth c, 2 <= depth ->
     fold_left chosen_step l (off, depth, c) = (off + zlen (items_bytes l), depth, c)).
Proof.
  apply flat_ind.
  - intros name ps ks pl kl Hn Hp Hk IH off depth c Hd. cbn [fold_left chosen_step].
    rewrite (proj2 (Z.eqb_neq (depth + 1) 2)) by lia. cbn [andb].
    rewrite !fold_left_app, (chosen_props _ _ _ _ _ Hp), IH by lia. cbn [fold_left chosen_step].
    rewrite items_bytes_cons, !items_bytes_app, !zlen_app. unfold saturating_sub. change (items_bytes [IEnd]) with (item_bytes IEnd).
    do 2 f_equal; lia.
  - intros off depth c _. cbn [fold_left]. change (items_bytes []) with (@nil Z). change (zlen []) with 0. by rewrite Z.add_0_r.
  - intros ks l Hk IH off depth c Hd. cbn [fold_left chosen_step].
    rewrite IH, items_bytes_cons, zlen_app by done. by rewrite Z.add_assoc.
  - intros k ks kl l Hk IHk Hks IHks off depth c Hd. rewrite fold_left_app, IHk, IHks by done.
    rewrite items_bytes_app, zlen_app. by rewrite Z.add_assoc.
Qed.

(** A child of the root is found by its name. *)
Lemma chosen_kid t l off c :
  flat_node t l ->
  fold_left chosen_step l (off, 1, c) =
    (off + zlen (items_bytes l), 1, if bool_decide (tree_name t = s_chosen) then Some off else c).
Proof.
  intros Hf. destruct Hf as [name ps ks pl kl Hn Hp Hk]. cbn [fold_left chosen_step tree_name].
  change (1 + 1 =? 2) with true. change (1 + 1) with 2. cbn [andb].
  rewrite !fold_left_app, (chosen_props _ _ _ _ _ Hp), (proj2 chosen_deep _ _ Hk) by done. cbn [fold_left chosen_step].
  rewrite items_bytes_cons, !items_bytes_app, !zlen_app. change (items_bytes [IEnd]) with (item_bytes IEnd).
  change (saturating_sub 2 1) with 1. do 2 f_equal. lia.
Qed.

Lemma chosen_kids_none ts l : flat_kids ts l -> Forall (fun t => tree_name t <> s_chosen) ts -> forall off c,
  fold_left chosen_step l (off, 1, c) = (off + zlen (items_bytes l), 1, c).
Proof.
  induction 1 as [|ks l Hk IH|k ks kl l Hk Hks IH]; intros Hts off c.
  - cbn [fold_left]. change (items_bytes []) with (@nil Z). change (zlen []) with 0. by rewrite Z.add_0_r.
  - cbn [fold_left chosen_step]. rewrite IH, items_bytes_cons, zlen_app by done. by rewrite Z.add_assoc.
  - apply list.Forall_cons in Hts as [Ht Hts]. rewrite fold_left_app, (chosen_kid _ _ _ _ Hk), bool_decide_false by done.
    rewrite IH, items_bytes_app, zlen_app by done. by rewrite Z.add_assoc.
Qed.

(** Children in front of the one looked for. *)
Lemma chosen_kids ts l off c : flat_kids ts l -> exists c',
  fold_left chosen_step l (off, 1, c) = (off + zlen (items_bytes l), 1, c').
Proof.
  intros Hf. revert off c. induction Hf as [|ks l Hk IH|k ks kl l Hk Hks IH]; intros off c.
  - exists c. cbn [fold_left]. change (items_bytes []) with (@nil Z). change (zlen []) with 0. by rewrite Z.add_0_r.
  - destruct (IH (off + zlen (item_bytes INop)) c) as [c' Hc]. exists c'. cbn [fold_left chosen_step].
    rewrite Hc, items_bytes_cons, zlen_app. by rewrite Z.add_assoc.
  - rewrite fold_left_app, (chosen_kid _ _ _ _ Hk). edestruct IH as [c' Hc]. rewrite Hc. exists c'.
    rewrite items_bytes_app, zlen_app. by rewrite Z.add_assoc.
Qed.

(** Inside a node the scan passes over children. *)
Lemma inside_app_props ps l k depth : flat_props ps l -> inside (l ++ k) depth <-> inside k depth.
Proof. induction 1; cbn [inside app]; auto. Qed.

Lemma inside_deep :
  (forall t l, flat_node t l -> forall k depth, 0 <= depth -> inside (l ++ k) depth <-> inside k depth) /\
  (forall ts l, flat_kids ts l -> forall k depth, 0 <= depth -> inside (l ++ k) depth <-> inside k depth).
Proof.
  apply flat_ind.
  - intros name ps ks pl kl Hn Hp Hk IH k depth Hd. cbn [app inside].
    rewrite <- !app_assoc, (inside_app_props _ _ _ _ Hp), IH by lia. cbn [app inside].
    rewrite Z.add_simpl_r. split; [tauto|]. intros. split; [lia|done].
  - done.
  - intros ks l Hk IH k depth Hd. cbn [app inside]. auto.
  - intros k ks kl l Hk IHk Hks IHks k' depth Hd. rewrite <- app_assoc, IHk, IHks; done.
Qed.

Lemma scan_kids :
  (forall t l, flat_node t l -> forall off depth f, 0 <= depth ->
     fold_left (scan_step strings) l (off, depth, f) = (off + zlen (items_bytes l), depth, f)) /\
  (forall ts l, flat_kids ts l -> forall off depth f, 0 <= depth ->
     fold_left (scan_step strings) l (off, depth, f) = (off + zlen (items_bytes l), depth, f)).
Proof.
  assert (Hprops : forall ps l, flat_props ps l -> forall off depth f, 0 < depth ->
    fold_left (scan_step strings) l (off, depth, f) = (off + zlen (items_bytes l), depth, f)).
  { induction 1; intros off0 depth f Hd; cbn [fold_left scan_step].
    - change (items_bytes []) with (@nil Z). change (zlen []) with 0. by rewrite Z.add_0_r.
    - rewrite IHflat_props, items_bytes_cons, zlen_app by done. by rewrite Z.add_assoc.
    - rewrite (proj2 (Z.eqb_neq depth 0)), IHflat_props, items_bytes_cons, zlen_app by lia. by rewrite Z.add_assoc. }
  apply flat_ind.
  - intros name ps ks pl kl Hn Hp Hk IH off depth f Hd. cbn [fold_left scan_step].
    rewrite !fold_left_app, (Hprops _ _ Hp), IH by lia. cbn [fold_left scan_step].
    rewrite items_bytes_cons, !items_bytes_app, !zlen_app. change (items_bytes [IEnd]) with (item_bytes IEnd).
    do 2 f_equal; lia.
  - intros off depth f _. cbn [fold_left]. change (items_bytes []) with (@nil Z). change (zlen []) with 0. by rewrite Z.add_0_r.
  - intros ks l Hk IH off depth f Hd. cbn [fold_left scan_step].
    rewrite IH, items_bytes_cons, zlen_app by done. by rewrite Z.add_assoc.
  - intros k ks kl l Hk IHk Hks IHks off depth f Hd. rewrite fold_left_app, IHk, IHks by done.
    rewrite items_bytes_app, zlen_app. by rewrite Z.add_assoc.
Qed.
End flat.

(** *** The properties of the node *)

Section props.
Context (strings : list Z).

Lemma flat_props_app p1 l1 p2 l2 :
  flat_props strings p1 l1 -> flat_props strings p2 l2 -> flat_props strings (p1 ++ p2) (l1 ++ l2).
Proof. induction 1; intros H2; cbn [app]; [done|constructor; auto..]. Qed.

Lemma flat_props_split p1 : forall p2 l, flat_props strings (p1 ++ p2) l ->
  exists l1 l2, l = l1 ++ l2 /\ flat_props strings p1 l1 /\ flat_props strings p2 l2.
Proof.
  induction p1 as [|p p1 IH]; intros p2 l Hf; cbn [app] in Hf; [exists [], l; split_and!; [done|constructor|done]|].
  remember (p :: p1 ++ p2) as ps eqn:He. induction Hf as [|ps l Hf IHf|name value off ps l Hn Hi Hf IHf]; [done| |].
  - destruct (IHf He) as (l1 & l2 & -> & H1 & H2). exists (INop :: l1), l2. split_and!; [done|by constructor|done].
  - injection He as <- ->. destruct (IH p2 l Hf) as (l1 & l2 & -> & H1 & H2).
    exists (IProp off value :: l1), l2. split_and!; [done|by constructor|done].
Qed.

Lemma flat_props_cons name value ps l :
  flat_props strings ((name, value) :: ps) l ->
  exists nops off l', l = nops ++ IProp off value :: l' /\ flat_props strings [] nops /\
    name_at strings off name /\ item_ok (IProp off value) /\ flat_props strings ps l'.
Proof.
  intros Hf. remember ((name, value) :: ps) as qs eqn:He.
  induction Hf as [|qs l Hf IHf|name' value' off qs l Hn Hi Hf IHf]; [done| |].
  - destruct (IHf He) as (nops & off & l' & -> & Hnp & ?). exists (INop :: nops), off, l'.
    split_and!; [done|by constructor|naive_solver..].
  - injection He as -> -> ->. exists [], off, l. split_and!; try done. constructor.
Qed.

(** Where a new property goes. *)
Lemma scan_props_insert ps l : flat_props strings ps l -> forall off f, exists ci nops f',
  fold_left (scan_step strings) l (off, 0, f) = (off + zlen (items_bytes l), 0, f') /\
  l = ci ++ nops /\ flat_props strings ps ci /\ flat_props strings [] nops /\
  fo_insert f' = match ps with [] => fo_insert f | _ => off + zlen (items_bytes ci) end /\ (ps = [] -> ci = []).
Proof.
  induction 1 as [|ps l Hf IH|name value o ps l Hn Hi Hf IH]; intros off f.
  - exists [], [], f. cbn [fold_left]. change (items_bytes []) with (@nil Z). change (zlen []) with 0.
    split_and!; [by rewrite Z.add_0_r|done|constructor|constructor|done|done].
  - destruct (IH (off + zlen (item_bytes INop)) f) as (ci & nops & f' & He & -> & Hci & Hnp & Hins & Hnil).
    cbn [fold_left scan_step]. rewrite He, items_bytes_cons, zlen_app, Z.add_assoc. destruct ps as [|p ps].
    + specialize (Hnil eq_refl). subst ci. exists [], (INop :: nops), f'. split_and!; try done. by constructor.
    + exists (INop :: ci), nops, f'. split_and!; try done; [by constructor|].
      rewrite Hins, items_bytes_cons, zlen_app. lia.
  - cbn [fold_left scan_step]. change (0 =? 0) with true. cbn iota.
    set (f1 := {| fo_existing := _; fo_insert := _ |}).
    destruct (IH (off + zlen (item_bytes (IProp o value))) f1) as (ci & nops & f' & He & -> & Hci & Hnp & Hins & Hnil).
    rewrite He, items_bytes_cons, zlen_app, Z.add_assoc. exists (IProp o value :: ci), nops, f'.
    split_and!; try done; [by constructor|]. rewrite Hins, items_bytes_cons, zlen_app. destruct ps as [|p ps].
    + rewrite (Hnil eq_refl). change (items_bytes []) with (@nil Z). change (zlen []) with 0. cbn [f1 fo_insert]. lia.
    + lia.
Qed.

(** Which property it finds. *)
Lemma s_bootargs_nul : 0 ∉ s_bootargs.
Proof. apply (bool_decide_unpack _). vm_compute. exact I. Qed.

Lemma scan_props_none ps l : flat_props strings ps l -> Forall (fun p => p.1 <> s_bootargs) ps -> forall off f,
  exists f', fold_left (scan_step strings) l (off, 0, f) = (off + zlen (items_bytes l), 0, f') /\
    fo_existing f' = fo_existing f.
Proof.
  induction 1 as [|ps l Hf IH|name value o ps l Hn Hi Hf IH]; intros Hps off f; cbn [fold_left scan_step].
  - exists f. change (items_bytes []) with (@nil Z). change (zlen []) with 0. by rewrite Z.add_0_r.
  - destruct (IH Hps (off + zlen (item_bytes INop)) f) as (f' & -> & He). exists f'.
    by rewrite items_bytes_cons, zlen_app, Z.add_assoc.
  - apply list.Forall_cons in Hps as [Hp Hps]. change (0 =? 0) with true. cbn iota.
    rewrite (name_at_named _ _ _ _ Hn s_bootargs_nul), bool_decide_false by done.
    edestruct (IH Hps) as (f' & He & Hx). rewrite He. exists f'. cbn in Hx.
    by rewrite items_bytes_cons, zlen_app, Z.add_assoc.
Qed.

Lemma scan_props_found p1 old p2 l off f :
  flat_props strings (p1 ++ (s_bootargs, old) :: p2) l -> Forall (fun p => p.1 <> s_bootargs) p2 ->
  exists l1 o l2 f', l = l1 ++ IProp o old :: l2 /\ flat_props strings p1 l1 /\ flat_props strings p2 l2 /\
    name_at strings o s_bootargs /\ item_ok (IProp o old) /\
    fold_left (scan_step strings) l (off, 0, f) = (off + zlen (items_bytes l), 0, f') /\
    fo_existing f' = Some (off + zlen (items_bytes l1), zlen old).
Proof.
  intros Hf Hp2. apply flat_props_split in Hf as (k1 & k2 & -> & H1 & H2).
  apply flat_props_cons in H2 as (nops & o & l2 & -> & Hnp & Hn & Hi & H2).
  exists (k1 ++ nops), o, l2. rewrite app_assoc, fold_left_app.
  assert (H1' : flat_props strings p1 (k1 ++ nops)) by (rewrite <- (app_nil_r p1); by apply flat_props_app).
  destruct (scan_props_insert _ _ H1' off f) as (? & ? & f1 & -> & _). cbn [fold_left scan_step].
  change (0 =? 0) with true. cbn iota. rewrite (name_at_named _ _ _ _ Hn s_bootargs_nul), bool_decide_true by done.
  edestruct (scan_props_none _ _ H2 Hp2) as (f' & He & Hx). rewrite He. exists f'. split_and!; try done.
  rewrite (items_bytes_app (k1 ++ nops)), items_bytes_cons, !zlen_app, !Z.add_assoc. done.
Qed.
End props.
