(* ===== verification/FdtPatch.v ===== *)
(** * FdtPatch: what setting the boot arguments does to the tree

    The theorems say that setting [/chosen/bootargs] is setting a property of the
    tree, when it is inserted or moved and when it keeps its size in words, and
    that a shorter value written in place leaves words that no reader accepts. *)

From S2P Require Import Prelude.
From S2P Require Import Bytes.
From S2P Require Import Fdt.
From S2P Require Import FdtTree.
From Stdlib Require Import ZArith Lia.
From stdpp Require Import base numbers list option.

#[local] Open Scope Z_scope.

(** ** The strings block *)

Section strings.
Context {T : Target}.

Lemma bytes_eq_range off needle buf :
  0 <= off -> off + zlen needle <= zlen buf ->
  bytes_eq off needle buf = (buf, Ok (bool_decide (sub buf off (zlen needle) = needle))).
Proof.
  intros H0 Hl. pose proof (zlen_nonneg needle).
  assert (Hb : buf = sub buf 0 off ++ sub buf off (zlen needle) ++ sub buf (off + zlen needle) (zlen buf - (off + zlen needle))).
  { rewrite <- (sub_take_drop_eq buf off) at 1 by lia. f_equal.
    replace (zlen buf - off) with (zlen needle + (zlen buf - (off + zlen needle))) by lia. apply sub_split; lia. }
  assert (Hz : zlen (sub buf 0 off) = off) by (apply zlen_sub; lia).
  pose proof (bytes_eq_same (sub buf off (zlen needle)) needle (sub buf 0 off)
    (sub buf (off + zlen needle) (zlen buf - (off + zlen needle)))) as He.
  rewrite <- Hb, Hz in He. apply He. apply zlen_sub; lia.
Qed.

Lemma read_u8_ok off buf : 0 <= off < zlen buf -> exists b, read_u8 off buf = (buf, Ok b) /\ get buf off = Some b.
Proof. intros Ho. destruct (get_is_Some buf off Ho) as [b Hb]. exists b. unfold read_u8. by rewrite Hb. Qed.

Lemma next_nul_ok fuel : forall str_start str_size i buf,
  0 <= str_start -> 0 <= i -> str_start + str_size <= zlen buf -> Z.max 0 (str_size - i) < Z.of_nat fuel ->
  exists j, next_nul fuel str_start str_size i buf = (buf, Ok j) /\ i <= j.
Proof.
  induction fuel as [|fuel IH]; intros str_start str_size i buf Hs Hi Hb Hf; cbn [next_nul]; [lia|].
  destruct (Z.ltb_spec i str_size); [|exists i; split; [done|lia]].
  unfold sbind. destruct (read_u8_ok (str_start + i) buf) as (b & -> & _); [lia|].
  destruct (b =? 0); [exists i; split; [done|lia]|]. destruct (IH str_start str_size (i + 1) buf) as (j & -> & Hj); try lia.
  exists j. split; [done|lia].
Qed.

Lemma find_string_ok fuel : forall str_start str_size needle i buf,
  0 <= str_start -> 0 <= i -> str_start + str_size <= zlen buf -> Z.max 0 (str_size - i) < Z.of_nat fuel ->
  exists r, find_string_loop fuel str_start str_size needle i buf = (buf, Ok r) /\
    forall n, r = Some n -> 0 <= n /\ n + zlen needle < str_size /\
      sub buf (str_start + n) (zlen needle) = needle /\ get buf (str_start + n + zlen needle) = Some 0.
Proof.
  induction fuel as [|fuel IH]; intros str_start str_size needle i buf Hs Hi Hb Hf; cbn [find_string_loop]; [lia|].
  pose proof (zlen_nonneg needle). destruct (Z.ltb_spec (i + zlen needle) str_size); [|by exists None].
  unfold sbind at 1. rewrite bytes_eq_range by lia.
  destruct (read_u8_ok (str_start + i + zlen needle) buf) as (b & Hr & Hg); [lia|].
  assert (Hrest : exists r,
    (let! i := (fun buf => next_nul (S (length buf)) str_start str_size i buf) in
     find_string_loop fuel str_start str_size needle (i + 1)) buf = (buf, Ok r) /\
    forall n, r = Some n -> 0 <= n /\ n + zlen needle < str_size /\
      sub buf (str_start + n) (zlen needle) = needle /\ get buf (str_start + n + zlen needle) = Some 0).
  { unfold sbind. destruct (next_nul_ok (S (length buf)) str_start str_size i buf) as (j & -> & Hj); try lia.
    { unfold zlen in Hb. lia. }
    apply IH; lia. }
  unfold sbind at 1. case_bool_decide as Hsame; [|exact Hrest].
  unfold sbind at 1. rewrite Hr. unfold slift at 1. destruct (Z.eqb_spec b 0) as [->|]; [|exact Hrest].
  exists (Some i). split; [done|]. intros n [= <-]. done.
Qed.

(** The name it finds is one of the strings. *)
Lemma find_in_strings_spec buf off strings needle :
  strings_in buf off strings -> 0 ∉ needle ->
  exists r, find_in_strings off (zlen strings) needle buf = (buf, Ok r) /\
    forall n, r = Some n -> name_at strings n needle /\ 0 <= n < zlen strings.
Proof.
  intros (a & c & -> & <-) Hn. pose proof (zlen_nonneg a). pose proof (zlen_nonneg c). pose proof (zlen_nonneg needle).
  unfold find_in_strings.
  destruct (find_string_ok (S (length (a ++ strings ++ c))) (zlen a) (zlen strings) needle 0 (a ++ strings ++ c))
    as (r & Hr & Hf); try lia; [rewrite !zlen_app; lia|unfold zlen in *; rewrite !length_app; lia|].
  exists r. split; [done|]. intros n ->. destruct (Hf n eq_refl) as (Hn0 & Hlt & Hsub & Hget). split; [|lia].
  split; [done|]. rewrite sub_app_r in Hsub by lia. replace (zlen a + n - zlen a) with n in Hsub by lia.
  rewrite sub_app_l in Hsub by lia.
  exists (sub strings 0 n), (sub strings (n + zlen needle + 1) (zlen strings - (n + zlen needle + 1))).
  split; [|apply zlen_sub; lia].
  rewrite <- (sub_take_drop_eq strings n) at 1 by lia. f_equal.
  replace (zlen strings - n) with (zlen needle + (1 + (zlen strings - (n + zlen needle + 1)))) by lia.
  rewrite sub_split, Hsub by lia. f_equal. rewrite sub_split by lia.
  assert (Hone : sub strings (n + zlen needle) 1 = [0]).
  { unfold get in Hget. case_match; [|done]. unfold sub.
    replace (Z.to_nat (zlen a + n + zlen needle)) with (length a + Z.to_nat (n + zlen needle))%nat in Hget by (unfold zlen; lia).
    rewrite lookup_app_r in Hget by lia. replace (length a + Z.to_nat (n + zlen needle) - length a)%nat with
      (Z.to_nat (n + zlen needle)) in Hget by lia.
    rewrite lookup_app_l in Hget by (unfold zlen in *; lia).
    change (Z.to_nat 1) with 1%nat. by rewrite (drop_S strings 0). }
  by rewrite Hone.
Qed.
End strings.

(** ** Writing *)

Lemma write_at buf off k a b c :
  buf = a ++ b ++ c -> off = zlen a -> zlen k = zlen b -> write_bytes off k buf = (a ++ k ++ c, Ok tt).
Proof.
  intros -> -> Hk. unfold write_bytes. rewrite !zlen_app. pose proof (zlen_nonneg c). pose proof (zlen_nonneg a). guard_true.
  by rewrite upd_middle.
Qed.

(** Filling a gap from the left: [p] is written, [g] is left. *)
Lemma fill_next buf off k a p g c :
  buf = a ++ p ++ g ++ c -> off = zlen a + zlen p -> zlen k <= zlen g ->
  write_bytes off k buf = (a ++ (p ++ k) ++ drop (length k) g ++ c, Ok tt).
Proof.
  intros -> -> Hk. rewrite (write_at _ _ k (a ++ p) (take (length k) g) (drop (length k) g ++ c)).
  - by rewrite <- !app_assoc.
  - by rewrite <- !app_assoc, (app_assoc (take _ _)), take_drop.
  - by rewrite zlen_app.
  - unfold zlen in *. rewrite length_take. lia.
Qed.

Lemma fill_be32 buf off v a p g c :
  buf = a ++ p ++ g ++ c -> off = zlen a + zlen p -> 4 <= zlen g ->
  write_be32 off v buf = (a ++ (p ++ be_enc 4 v) ++ drop 4 g ++ c, Ok tt).
Proof.
  intros Hb Ho Hg. unfold write_be32. rewrite (fill_next _ _ _ a p g c Hb Ho) by (rewrite zlen_be_enc; lia).
  unfold be_enc. by rewrite length_reverse, length_le_enc.
Qed.

(** The rest of the gap is zeroed. *)
Lemma fill_zeros buf from to a p g c :
  buf = a ++ p ++ g ++ c -> from = zlen a + zlen p -> to = from + zlen g ->
  zero_range from to buf = (a ++ (p ++ zeros (zlen g)) ++ c, Ok tt).
Proof.
  intros -> -> ->. unfold zero_range. pose proof (zlen_nonneg g). destruct (Z.ltb_spec (zlen a + zlen p) (zlen a + zlen p + zlen g)).
  - rewrite Z.add_simpl_l. rewrite (fill_next _ _ _ a p g c) by (done || rewrite zlen_zeros; lia).
    do 2 f_equal. f_equal. unfold zeros, zlen. rewrite length_replicate, Nat2Z.id.
    by rewrite (drop_ge g), app_nil_l.
  - assert (g = []) as ->. { destruct g; [done|]. rewrite zlen_cons in *. pose proof (zlen_nonneg g). lia. }
    change (zeros (zlen [])) with (@nil Z). by rewrite app_nil_r.
Qed.

(** Moving the tail up leaves a gap of the old bytes. *)
Lemma shift_tail buf a t s n :
  buf = a ++ t ++ s -> 0 <= n <= zlen s ->
  exists g, zlen g = n /\
    copy_within (zlen a) (zlen a + n) (zlen t) buf = (a ++ g ++ t ++ drop (Z.to_nat n) s, Ok tt).
Proof.
  intros -> Hn. exists (take (Z.to_nat n) (t ++ s)). pose proof (zlen_nonneg t). pose proof (zlen_nonneg a).
  split; [unfold zlen in *; rewrite length_take, length_app; lia|].
  unfold copy_within. rewrite !zlen_app. guard_true.
  rewrite sub_app_r by lia. rewrite Z.sub_diag, sub_app_exact by done.
  assert (Hsp : a ++ t ++ s = (a ++ take (Z.to_nat n) (t ++ s)) ++ take (length t) (drop (Z.to_nat n) (t ++ s)) ++ drop (Z.to_nat n) s).
  { rewrite <- app_assoc. f_equal. rewrite <- (take_drop (Z.to_nat n) (t ++ s)) at 1. f_equal.
    rewrite <- (take_drop (length t) (drop (Z.to_nat n) (t ++ s))) at 1. f_equal. rewrite drop_drop.
    rewrite drop_app_ge by lia. f_equal. lia. }
  rewrite Hsp. replace (zlen a + n) with (zlen (a ++ take (Z.to_nat n) (t ++ s)))
    by (rewrite zlen_app; unfold zlen in *; rewrite length_take, length_app; lia).
  rewrite upd_middle by (unfold zlen in *; rewrite length_take, length_drop, length_app; lia).
  by rewrite <- app_assoc.
Qed.

Lemma update_header_spec t0 so sto0 fixed ss0 sz0 rest t sz sto ss :
  zlen fixed = 16 ->
  update_header t sz sto ss
    (be_enc 4 FDT_MAGIC ++ be_enc 4 t0 ++ be_enc 4 so ++ be_enc 4 sto0 ++ fixed ++ be_enc 4 ss0 ++ be_enc 4 sz0 ++ rest) =
  (be_enc 4 FDT_MAGIC ++ be_enc 4 t ++ be_enc 4 so ++ be_enc 4 sto ++ fixed ++ be_enc 4 ss ++ be_enc 4 sz ++ rest, Ok tt).
Proof.
  intros Hf. unfold update_header, write_be32. unfold sbind.
  rewrite (write_at _ _ _ (be_enc 4 FDT_MAGIC) (be_enc 4 t0) (be_enc 4 so ++ be_enc 4 sto0 ++ fixed ++ be_enc 4 ss0 ++ be_enc 4 sz0 ++ rest))
    by (rewrite ?zlen_be_enc; done).
  rewrite (write_at _ _ _ (be_enc 4 FDT_MAGIC ++ be_enc 4 t ++ be_enc 4 so ++ be_enc 4 sto0 ++ fixed ++ be_enc 4 ss0) (be_enc 4 sz0) rest);
    [|by rewrite <- !app_assoc|rewrite !zlen_app, !zlen_be_enc, Hf; done|by rewrite !zlen_be_enc].
  rewrite <- !app_assoc.
  rewrite (write_at _ _ _ (be_enc 4 FDT_MAGIC ++ be_enc 4 t ++ be_enc 4 so) (be_enc 4 sto0)
    (fixed ++ be_enc 4 ss0 ++ be_enc 4 sz ++ rest));
    [|by rewrite <- !app_assoc|rewrite !zlen_app, !zlen_be_enc; done|by rewrite !zlen_be_enc].
  rewrite <- !app_assoc.
  rewrite (write_at _ _ _ (be_enc 4 FDT_MAGIC ++ be_enc 4 t ++ be_enc 4 so ++ be_enc 4 sto ++ fixed) (be_enc 4 ss0)
    (be_enc 4 sz ++ rest));
    [|by rewrite <- !app_assoc|rewrite !zlen_app, !zlen_be_enc, Hf; done|by rewrite !zlen_be_enc].
  by rewrite <- !app_assoc.
Qed.

Lemma name_at_ext s e o nm : name_at s o nm -> name_at (s ++ e) o nm.
Proof. intros (Hn & a & b & -> & Ho). split; [done|]. exists a, (b ++ e). split; [by rewrite <- !app_assoc|done]. Qed.

Lemma name_at_new s nm : 0 ∉ nm -> name_at (s ++ nm ++ [0]) (zlen s) nm.
Proof. intros Hn. split; [done|]. by exists s, []. Qed.

Lemma item_one i : items_bytes [i] = item_bytes i.
Proof. rewrite items_bytes_cons. change (items_bytes []) with (@nil Z). by rewrite app_nil_r. Qed.

(** The blob with items inserted between [A] and [B] and [e] behind its
    strings; the bytes behind move up. *)
Definition blob_insert (b : Blob) (A B ins : list item) (e : list Z) : Blob :=
  let n := zlen (items_bytes ins) in
  let t := bl_total b - bl_strings_off b - zlen (bl_strings b) in
  {| bl_total := bl_total b + n + zlen e; bl_fixed := bl_fixed b; bl_rsv := bl_rsv b; bl_items := A ++ ins ++ B;
     bl_mid := bl_mid b; bl_strings := bl_strings b ++ e;
     bl_tail := drop (length e) (take (Z.to_nat t) (bl_tail b) ++ drop (Z.to_nat t + Z.to_nat n) (bl_tail b)) |}.

Section insert.
Context {T : Target}.

Lemma item_prop_size o o' v : zlen (item_bytes (IProp o v)) = zlen (item_bytes (IProp o' v)).
Proof. cbn [item_bytes]. by rewrite !zlen_app, !zlen_be_enc. Qed.

Lemma item_prop_align o v : zlen (item_bytes (IProp o v)) = 12 + zlen v + zlen (pad (12 + zlen v)).
Proof.
  cbn [item_bytes]. rewrite (pad_aligned 12) by done. rewrite !zlen_app, !zlen_be_enc. lia.
Qed.

(** The blob with all that is before and behind a place in its structure. *)
Lemma blob_split b A B :
  bl_items b = A ++ B ->
  let t := bl_total b - bl_strings_off b - zlen (bl_strings b) in
  let P := be_enc 4 FDT_MAGIC ++ be_enc 4 (bl_total b) ++ be_enc 4 (bl_struct_off b) ++ be_enc 4 (bl_strings_off b) ++
    bl_fixed b ++ be_enc 4 (zlen (bl_strings b)) ++ be_enc 4 (zlen (struct_bytes (bl_items b))) ++
    bl_rsv b ++ items_bytes A in
  let R := struct_bytes B ++ bl_mid b ++ bl_strings b ++ take (Z.to_nat t) (bl_tail b) in
  blob_ok b ->
  blob_bytes b = P ++ R ++ drop (Z.to_nat t) (bl_tail b) /\
  zlen P = bl_struct_off b + zlen (items_bytes A) /\ zlen P + zlen R = bl_total b /\
  zlen (bl_tail b) = zlen (blob_bytes b) - bl_strings_off b - zlen (bl_strings b) /\ 0 <= t <= zlen (bl_tail b).
Proof.
  intros Hi t P R [Hf Hr _ Hst Ht _].
  assert (Hz : zlen (blob_bytes b) = bl_strings_off b + zlen (bl_strings b) + zlen (bl_tail b)).
  { unfold blob_bytes, bl_strings_off, bl_struct_off. rewrite !zlen_app, !zlen_be_enc, Hf. lia. }
  assert (Htb : 0 <= t <= zlen (bl_tail b)) by (unfold t; lia).
  assert (HP : zlen P = bl_struct_off b + zlen (items_bytes A)).
  { unfold P, bl_struct_off. rewrite !zlen_app, !zlen_be_enc, Hf. lia. }
  split_and!; try done; try lia.
  - unfold blob_bytes, P, R. rewrite Hi. unfold struct_bytes. rewrite items_bytes_app, <- !app_assoc.
    do 13 f_equal. by rewrite take_drop.
  - assert (Htz : zlen (take (Z.to_nat t) (bl_tail b)) = t) by (unfold zlen in *; rewrite length_take; lia).
    rewrite HP. unfold R. rewrite !zlen_app, Htz. unfold t, bl_strings_off. rewrite Hi. unfold struct_bytes.
    rewrite items_bytes_app, !zlen_app. lia.
Qed.

(** Steps 5 to 7 on a blob whose properties end at [A]. *)
Lemma write_prop_spec {A} (K : fdt A) P R S o v :
  let i := IProp o (v ++ [0]) in
  zlen (item_bytes i) <= zlen S ->
  (let! _ := copy_within (zlen P) (zlen P + zlen (item_bytes i)) (zlen R) in
   let! _ := write_be32 (zlen P) FDT_PROP in
   let! _ := write_be32 (zlen P + 4) (zlen v + 1) in
   let! _ := write_be32 (zlen P + 8) o in
   let! _ := write_bytes (zlen P + 12) v in
   let! _ := write_bytes (zlen P + 12 + zlen v) [0] in
   let! _ := zero_range (zlen P + 12 + (zlen v + 1)) (zlen P + zlen (item_bytes i)) in
   K) (P ++ R ++ S) =
  K (P ++ item_bytes i ++ R ++ drop (Z.to_nat (zlen (item_bytes i))) S).
Proof.
  intros i Hn. pose proof (zlen_nonneg (item_bytes i)) as Hi. pose proof (zlen_nonneg v) as Hv. unfold sbind.
  destruct (shift_tail (P ++ R ++ S) P R S (zlen (item_bytes i))) as (g & Hg & ->); [done|lia|].
  set (Q := R ++ drop _ S).
  assert (Hz : zlen g = 12 + (zlen v + 1) + zlen (pad (zlen v + 1))).
  { rewrite Hg. unfold i. cbn [item_bytes]. rewrite !zlen_app, !zlen_be_enc. change (zlen [0]) with 1. lia. }
  clearbody Q. pose proof (zlen_nonneg (pad (zlen v + 1))).
  assert (Hd : forall (k : nat) (l : list Z), Z.of_nat k <= zlen l -> zlen (drop k l) = zlen l - Z.of_nat k)
    by (intros k l Hk; unfold zlen in *; rewrite length_drop; lia).
  set (p1 := be_enc 4 FDT_PROP). set (p2 := p1 ++ be_enc 4 (zlen v + 1)). set (p3 := p2 ++ be_enc 4 o).
  set (g1 := drop 4 g). set (g2 := drop 4 g1). set (g3 := drop 4 g2). set (g4 := drop (length v) g3).
  assert (Hg1 : zlen g1 = zlen g - 4) by (apply (Hd 4%nat); lia).
  assert (Hg2 : zlen g2 = zlen g1 - 4) by (apply (Hd 4%nat); lia).
  assert (Hg3 : zlen g3 = zlen g2 - 4) by (apply (Hd 4%nat); lia).
  assert (Hg4 : zlen g4 = zlen g3 - zlen v) by (apply (Hd (length v)); unfold zlen in *; lia).
  assert (Hp3 : zlen p3 = 12) by (unfold p3, p2, p1; rewrite !zlen_app, !zlen_be_enc; done).
  rewrite (fill_be32 _ _ _ P [] g Q) by (done || change (zlen []) with 0; lia).
  rewrite (fill_be32 _ _ _ P p1 g1 Q) by (done || lia).
  rewrite (fill_be32 _ _ _ P p2 g2 Q) by (done || lia).
  rewrite (fill_next _ _ v P p3 g3 Q) by (done || lia).
  rewrite (fill_next _ _ [0] P (p3 ++ v) g4 Q); [|done|rewrite zlen_app; lia|change (zlen [0]) with 1; lia].
  assert (Hrest : zlen (drop (length [0]) g4) = zlen (pad (zlen v + 1))) by (rewrite Hd; cbn [length]; lia).
  rewrite (fill_zeros _ _ _ P ((p3 ++ v) ++ [0]) (drop (length [0]) g4) Q);
    [|done|rewrite !zlen_app; change (zlen [0]) with 1; lia|rewrite Hrest, <- Hg; lia].
  f_equal. rewrite Hrest. unfold i, p3, p2, p1. cbn [item_bytes]. rewrite zlen_app. change (zlen [0]) with 1.
  rewrite <- !app_assoc. do 6 f_equal. f_equal. unfold pad at 1. rewrite zlen_zeros; [done|]. apply Z.mod_pos_bound. lia.
Qed.

(** The name the property gets: one of the strings, or a new one behind them. *)
Lemma bootargs_name b : blob_ok b ->
  exists found o e,
    find_in_strings (bl_strings_off b) (zlen (bl_strings b)) s_bootargs (blob_bytes b) = (blob_bytes b, Ok found) /\
    match found with Some n => (n, 0) | None => (zlen (bl_strings b), 9) end = (o, zlen e) /\
    name_at (bl_strings b ++ e) o s_bootargs /\ 0 <= o <= zlen (bl_strings b) /\
    (e = [] \/ e = s_bootargs ++ [0]) /\ 0 <= zlen e <= 9.
Proof.
  intros Hok. assert (Hin : strings_in (blob_bytes b) (bl_strings_off b) (bl_strings b)).
  { unfold blob_bytes. exists (be_enc 4 FDT_MAGIC ++ be_enc 4 (bl_total b) ++ be_enc 4 (bl_struct_off b) ++
      be_enc 4 (bl_strings_off b) ++ bl_fixed b ++ be_enc 4 (zlen (bl_strings b)) ++
      be_enc 4 (zlen (struct_bytes (bl_items b))) ++ bl_rsv b ++ struct_bytes (bl_items b) ++ bl_mid b), (bl_tail b).
    split; [by rewrite <- !app_assoc|]. destruct Hok as [Hf _ _ _ _ _].
    unfold bl_strings_off, bl_struct_off. rewrite !zlen_app, !zlen_be_enc, Hf. lia. }
  assert (Hs0 : 0 ∉ s_bootargs) by (apply (bool_decide_unpack _); vm_compute; exact I).
  pose proof (zlen_nonneg (bl_strings b)).
  destruct (find_in_strings_spec _ _ _ s_bootargs Hin Hs0) as ([n|] & Hfound & Hfd); eexists _, _.
  - exists []. split_and!; [exact Hfound|done|rewrite app_nil_r; by apply Hfd|destruct (Hfd n eq_refl); lia..|by left|done|done].
  - exists (s_bootargs ++ [0]). split_and!; [exact Hfound|done|by apply name_at_new|lia..|by right|done|done].
Qed.

(** The bytes of the blob behind an insertion. *)
Lemma blob_insert_bytes b A B ins e :
  bl_items b = A ++ B ->
  let t := bl_total b - bl_strings_off b - zlen (bl_strings b) in
  let n := zlen (items_bytes ins) in
  be_enc 4 FDT_MAGIC ++ be_enc 4 (bl_total b + n + zlen e) ++ be_enc 4 (bl_struct_off b) ++
    be_enc 4 (bl_strings_off b + n) ++ bl_fixed b ++ be_enc 4 (zlen (bl_strings b) + zlen e) ++
    be_enc 4 (zlen (struct_bytes (bl_items b)) + n) ++
    (bl_rsv b ++ items_bytes A ++ items_bytes ins ++ struct_bytes B ++ bl_mid b ++ bl_strings b ++ e ++
     drop (length e) (take (Z.to_nat t) (bl_tail b) ++ drop (Z.to_nat n) (drop (Z.to_nat t) (bl_tail b)))) =
  blob_bytes (blob_insert b A B ins e).
Proof.
  intros Hi t n. unfold blob_bytes, blob_insert, bl_strings_off, bl_struct_off.
  cbn [bl_total bl_fixed bl_rsv bl_items bl_mid bl_strings bl_tail].
  fold (bl_struct_off b) (bl_strings_off b). fold t n. rewrite drop_drop.
  unfold struct_bytes. rewrite Hi, !items_bytes_app, !zlen_app, <- !app_assoc. fold n.
  replace (bl_struct_off b + (zlen (items_bytes A) + (n + zlen (items_bytes B)) +
    zlen (be_enc 4 FDT_END)) + zlen (bl_mid b)) with (bl_strings_off b + n)
    by (unfold bl_strings_off, struct_bytes; rewrite Hi, items_bytes_app, !zlen_app; lia).
  do 7 f_equal. f_equal. lia.
Qed.

(** What is inserted, and the string that is missing. *)
Lemma insert_bootargs_spec max b A B args :
  blob_ok b -> bl_items b = A ++ B -> max <= zlen (blob_bytes b) -> max < 2 ^ 32 ->
  zlen (blob_bytes b) + zlen args + 64 <= usize_max ->
  let buf := blob_bytes b in
  match insert_bootargs max (bl_total b) (bl_strings_off b) (zlen (bl_strings b)) (zlen (struct_bytes (bl_items b)))
          (bl_struct_off b + zlen (items_bytes A)) args buf with
  | (buf', Ok t) => exists o e, let b' := blob_insert b A B [IProp o (args ++ [0])] e in
      buf' = blob_bytes b' /\ t = bl_total b' /\ t <= max /\
      name_at (bl_strings b ++ e) o s_bootargs /\ item_ok (IProp o (args ++ [0])) /\ (e = [] \/ e = s_bootargs ++ [0])
  | (buf', Err err) => err = BufferTooSmall /\ buf' = buf /\ max < bl_total b + zlen (item_bytes (IProp 0 (args ++ [0]))) + 9
  | (_, Panic) => False
  end.
Proof.
  intros Hok Hi Hmax H32 Hsm buf. pose proof (zlen_nonneg args).
  destruct (blob_split b A B Hi Hok) as (Hb & HP & HR & Htl & Ht).
  set (t := bl_total b - bl_strings_off b - zlen (bl_strings b)) in *.
  set (P := be_enc 4 FDT_MAGIC ++ _) in *. set (R := struct_bytes B ++ _) in *.
  set (S := drop (Z.to_nat t) (bl_tail b)) in *.
  assert (HSz : zlen S = zlen (bl_tail b) - t) by (unfold S, zlen in *; rewrite length_drop; lia).
  destruct (bootargs_name b Hok) as (found & o & e & Hfound & Hoe & Hname & Ho & He & Hez).
  unfold insert_bootargs. unfold sbind at 1. unfold buf at 1. rewrite Hfound, Hoe. clear found Hfound Hoe. fold buf.
  set (i := IProp o (args ++ [0])).
  assert (Hn : zlen (item_bytes i) = 12 + (zlen args + 1) + zlen (pad (12 + (zlen args + 1)))).
  { unfold i. rewrite item_prop_align, zlen_app. done. }
  pose proof (zlen_pad (12 + (zlen args + 1))) as Hpz. pose proof (Z.mod_pos_bound (- (12 + (zlen args + 1))) 4 ltac:(lia)).
  pose proof (zlen_nonneg (item_bytes i)). destruct Hok as [Hf Hr Hit Hst Htt H32b].
  assert (Hst0 : 0 <= bl_strings_off b).
  { unfold bl_strings_off, bl_struct_off. pose proof (zlen_nonneg (bl_rsv b)). pose proof (zlen_nonneg (struct_bytes (bl_items b))).
    pose proof (zlen_nonneg (bl_mid b)). lia. }
  unfold buf in *. unfold sbind at 1. unfold uadd at 1, slift at 1, add_or_panic at 1. rewrite checked_add_ok by lia. cbn [or_panic].
  unfold sbind at 1. rewrite align4_ok by lia. rewrite <- Hn.
  unfold sbind at 1. unfold uadd at 1, slift at 1, add_or_panic at 1. rewrite checked_add_ok by lia. cbn [or_panic].
  unfold sbind at 1. unfold uadd at 1, slift at 1, add_or_panic at 1. rewrite checked_add_ok by lia. cbn [or_panic].
  destruct (Z.ltb_spec max (bl_total b + zlen (item_bytes i) + zlen e)) as [Hbig|Hfit].
  { unfold slift. split_and!; [done|done|]. rewrite (item_prop_size 0 o). fold i. lia. }
  unfold sbind at 1. unfold usub, slift at 1. rewrite <- HP. rewrite checked_sub_ok by (pose proof (zlen_nonneg R); lia). cbn [or_panic].
  replace (bl_total b - zlen P) with (zlen R) by lia. rewrite Hb.
  assert (HS9 : zlen (item_bytes i) + zlen e <= zlen S) by lia.
  rewrite (write_prop_spec _ P R S o args) by (cbn zeta; fold i; lia). cbn zeta. fold i.
  set (S' := drop (Z.to_nat (zlen (item_bytes i))) S).
  assert (HS' : zlen S' = zlen S - zlen (item_bytes i)) by (unfold S', zlen in *; rewrite length_drop; lia).
  set (t1 := take (Z.to_nat t) (bl_tail b)) in *.
  assert (Ht1 : zlen t1 = t) by (unfold t1, zlen in *; rewrite length_take; lia).
  set (P2 := P ++ item_bytes i ++ struct_bytes B ++ bl_mid b ++ bl_strings b).
  assert (HP2 : zlen P2 = bl_strings_off b + zlen (item_bytes i) + zlen (bl_strings b)).
  { unfold P2. rewrite !zlen_app, HP. unfold bl_strings_off, struct_bytes. rewrite Hi, items_bytes_app, !zlen_app. lia. }
  assert (Hstr : (if 0 <? zlen e then write_bytes (bl_strings_off b + zlen (item_bytes i) + zlen (bl_strings b)) (s_bootargs ++ [0])
      else slift (Ok tt)) (P ++ item_bytes i ++ R ++ S') =
    (P2 ++ e ++ drop (length e) (t1 ++ S'), Ok tt)).
  { replace (P ++ item_bytes i ++ R ++ S') with (P2 ++ t1 ++ S') by (unfold P2, R; by rewrite <- !app_assoc).
    destruct He as [-> | ->]; [done|]. change (0 <? zlen (s_bootargs ++ [0])) with true. cbn iota.
    rewrite (fill_next _ _ (s_bootargs ++ [0]) P2 [] (t1 ++ S') []); [by rewrite app_nil_r| |by rewrite <- HP2, Z.add_0_r|].
    - by rewrite app_nil_r.
    - rewrite (zlen_app t1). lia. }
  unfold sbind at 1.
  match goal with |- context [?m (P ++ item_bytes i ++ R ++ S')] =>
    assert (Hm : m (P ++ item_bytes i ++ R ++ S') = (P2 ++ e ++ drop (length e) (t1 ++ S'), Ok tt)) by exact Hstr;
    rewrite Hm
  end. unfold sbind at 1.
  replace (P2 ++ e ++ drop (length e) (t1 ++ S')) with
    (be_enc 4 FDT_MAGIC ++ be_enc 4 (bl_total b) ++ be_enc 4 (bl_struct_off b) ++ be_enc 4 (bl_strings_off b) ++
     bl_fixed b ++ be_enc 4 (zlen (bl_strings b)) ++ be_enc 4 (zlen (struct_bytes (bl_items b))) ++
     (bl_rsv b ++ items_bytes A ++ item_bytes i ++ struct_bytes B ++ bl_mid b ++ bl_strings b ++ e ++ drop (length e) (t1 ++ S')))
    by (unfold P2, P; by rewrite <- !app_assoc).
  rewrite update_header_spec by done. unfold slift. exists o, e. cbn zeta. fold i. split_and!; try done; try lia.
  - pose proof (blob_insert_bytes b A B [i] e Hi) as Hbi. cbn zeta in Hbi. rewrite item_one in Hbi. exact Hbi.
  - cbn [blob_insert bl_total]. by rewrite item_one.
  - unfold i. cbn [item_ok]. rewrite zlen_app. change (zlen [0]) with 1. lia.
Qed.
End insert.

(** *** In place *)

Section in_place.
Context {T : Target}.

Lemma write_nops_spec n : forall buf off a x c,
  buf = a ++ x ++ c -> off = zlen a -> zlen x = 4 * Z.of_nat n ->
  write_nops n off buf = (a ++ items_bytes (replicate n INop) ++ c, Ok tt).
Proof.
  induction n as [|n IH]; intros buf off a x c -> -> Hx; cbn [write_nops].
  { destruct x as [|y x]; [done|]. rewrite zlen_cons in Hx. pose proof (zlen_nonneg x). lia. }
  unfold sbind, write_be32.
  assert (Hd : zlen (drop 4 x) = 4 * Z.of_nat n) by (unfold zlen in *; rewrite length_drop; lia).
  rewrite (write_at _ _ (be_enc 4 FDT_NOP) a (take 4 x) (drop 4 x ++ c)).
  - rewrite (IH _ _ (a ++ be_enc 4 FDT_NOP) (drop 4 x) c); [|by rewrite <- app_assoc|by rewrite zlen_app, zlen_be_enc|done].
    cbn [replicate]. by rewrite items_bytes_cons, <- !app_assoc.
  - by rewrite (app_assoc (take 4 x)), take_drop.
  - done.
  - rewrite zlen_be_enc. unfold zlen in *. rewrite length_take. lia.
Qed.

Lemma nop_out_spec buf a o old c :
  buf = a ++ item_bytes (IProp o old) ++ c -> small buf ->
  exists n, nop_out (zlen a) (zlen old) buf = (a ++ items_bytes (replicate n INop) ++ c, Ok tt) /\
    zlen (items_bytes (replicate n INop)) = zlen (item_bytes (IProp o old)).
Proof.
  intros Hb Hs. pose proof (zlen_nonneg old). pose proof (zlen_nonneg a). pose proof (zlen_nonneg c).
  assert (Hz : zlen buf = zlen a + zlen (item_bytes (IProp o old)) + zlen c) by (rewrite Hb, !zlen_app; lia).
  destruct (item_bytes_size (IProp o old)) as [H4 Hm]. rewrite item_prop_align in *. unfold small in Hs.
  pose proof (zlen_nonneg (pad (12 + zlen old))).
  exists (Z.to_nat ((12 + zlen old + zlen (pad (12 + zlen old))) / 4)). split.
  - unfold nop_out. unfold sbind at 1. unfold uadd, slift, add_or_panic. rewrite checked_add_ok by lia. cbn [or_panic].
    unfold sbind. rewrite align4_ok by lia.
    rewrite (write_nops_spec _ _ _ a (item_bytes (IProp o old)) c Hb eq_refl); [done|].
    rewrite item_prop_align. Z.div_mod_to_equations. lia.
  - assert (Hr : forall n, zlen (items_bytes (replicate n INop)) = 4 * Z.of_nat n).
    { induction n; [done|]. cbn [replicate]. rewrite items_bytes_cons, zlen_app, IHn. cbn [item_bytes]. rewrite zlen_be_enc. lia. }
    rewrite Hr. Z.div_mod_to_equations. lia.
Qed.

Lemma overwrite_spec total buf a o old args c :
  buf = a ++ item_bytes (IProp o old) ++ c -> zlen args + 1 <= zlen old ->
  overwrite_bootargs (zlen a) (zlen old) args total buf =
    (a ++ item_bytes (IProp o (args ++ [0])) ++
       zeros (zlen (item_bytes (IProp o old)) - zlen (item_bytes (IProp o (args ++ [0])))) ++ c, Ok total) /\
  0 <= zlen (item_bytes (IProp o old)) - zlen (item_bytes (IProp o (args ++ [0]))).
Proof.
  intros -> Hl. pose proof (zlen_nonneg args). set (new := args ++ [0]).
  assert (Hn : zlen new = zlen args + 1) by (unfold new; rewrite zlen_app; done).
  pose proof (item_prop_align o old) as Ho. pose proof (item_prop_align o new) as Hnw. rewrite !zlen_pad in *.
  assert (Hd : 0 <= zlen (item_bytes (IProp o old)) - zlen (item_bytes (IProp o new))) by (Z.div_mod_to_equations; lia).
  split; [|done]. remember (zlen (item_bytes (IProp o old)) - zlen (item_bytes (IProp o new))) as d eqn:Hdv.
  rewrite Ho, Hnw in Hdv. clear Ho Hnw. set (g := drop (Z.to_nat (zlen args + 1)) old). set (hd := take (length args) old).
  set (x := take 1 (drop (length args) old)).
  assert (Hold : old = hd ++ x ++ g).
  { unfold hd, x, g. rewrite <- (take_drop (length args) old) at 1. f_equal.
    rewrite <- (take_drop 1 (drop (length args) old)) at 1. f_equal. rewrite drop_drop. f_equal. unfold zlen. lia. }
  assert (Hhd : zlen hd = zlen args) by (unfold hd, zlen in *; rewrite length_take; lia).
  assert (Hx : zlen x = 1) by (unfold x, zlen in *; rewrite length_take, length_drop; lia).
  assert (Hg : zlen g = zlen old - (zlen args + 1)) by (unfold g, zlen in *; rewrite length_drop; lia).
  unfold overwrite_bootargs, write_be32, sbind. cbn [item_bytes].
  set (p := pad (zlen old)). set (zo := zlen old) in *.
  rewrite (write_at _ _ (be_enc 4 (zlen args + 1)) (a ++ be_enc 4 FDT_PROP) (be_enc 4 zo) (be_enc 4 o ++ old ++ p ++ c));
    [|by rewrite <- !app_assoc|by rewrite zlen_app, zlen_be_enc|by rewrite !zlen_be_enc].
  rewrite Hold. rewrite (write_at _ _ args (a ++ be_enc 4 FDT_PROP ++ be_enc 4 (zlen args + 1) ++ be_enc 4 o) hd (x ++ g ++ p ++ c));
    [|by rewrite <- !app_assoc|rewrite !zlen_app, !zlen_be_enc; lia|done].
  rewrite (write_at _ _ [0] ((a ++ be_enc 4 FDT_PROP ++ be_enc 4 (zlen args + 1) ++ be_enc 4 o) ++ args) x (g ++ p ++ c));
    [|by rewrite <- !app_assoc|rewrite !zlen_app, !zlen_be_enc; lia|done].
  rewrite (fill_zeros _ _ _ a ((be_enc 4 FDT_PROP ++ be_enc 4 (zlen args + 1) ++ be_enc 4 o) ++ args ++ [0]) g (p ++ c));
    [|by rewrite <- !app_assoc|rewrite !zlen_app, !zlen_be_enc; change (zlen [0]) with 1; lia|rewrite Hg; lia].
  unfold slift. f_equal. rewrite Hn. unfold new. rewrite <- !app_assoc. do 6 f_equal.
  rewrite app_assoc, (app_assoc (pad _)). f_equal. unfold p, pad. rewrite <- !zeros_add;
    try (apply Z.mod_pos_bound; lia); try lia.
  f_equal. rewrite Hg, Hdv. unfold zo. Z.div_mod_to_equations. lia.
Qed.
End in_place.

(** ** Trees in blobs *)

(** The blob holds the tree. *)
Definition holds (b : Blob) (t : tree) : Prop := blob_ok b /\ flat_kids (bl_strings b) [t] (bl_items b).

Lemma flat_props_ext s e ps l : flat_props s ps l -> flat_props (s ++ e) ps l.
Proof. induction 1; constructor; try done. by apply name_at_ext. Qed.

Lemma flat_ext s e :
  (forall t l, flat_node s t l -> flat_node (s ++ e) t l) /\ (forall ts l, flat_kids s ts l -> flat_kids (s ++ e) ts l).
Proof.
  apply flat_ind; intros; constructor; try done. by apply flat_props_ext.
Qed.

Lemma flat_kids_app s k1 l1 k2 l2 : flat_kids s k1 l1 -> flat_kids s k2 l2 -> flat_kids s (k1 ++ k2) (l1 ++ l2).
Proof.
  induction 1; intros H2; cbn [app]; [done|by constructor; auto|]. rewrite <- app_assoc. constructor; auto.
Qed.

Lemma flat_kids_split s k1 : forall k k2 l, flat_kids s (k1 ++ k :: k2) l ->
  exists l1 kl l2, l = l1 ++ kl ++ l2 /\ flat_kids s k1 l1 /\ flat_node s k kl /\ flat_kids s k2 l2.
Proof.
  induction k1 as [|h k1 IH]; intros k k2 l Hf; cbn [app] in Hf.
  - remember (k :: k2) as ks eqn:He. induction Hf as [|ks l Hf IHf|k' ks kl l Hk Hf IHf]; [done| |].
    + destruct (IHf He) as (l1 & kl & l2 & -> & H1 & ?). exists (INop :: l1), kl, l2. split_and!; [done|by constructor|tauto..].
    + injection He as -> ->. exists [], kl, l. split_and!; try done. constructor.
  - remember (h :: k1 ++ k :: k2) as ks eqn:He. induction Hf as [|ks l Hf IHf|k' ks kl l Hk Hf IHf]; [done| |].
    + destruct (IHf He) as (l1 & kl & l2 & -> & H1 & ?). exists (INop :: l1), kl, l2. split_and!; [done|by constructor|tauto..].
    + injection He as -> ->. destruct (IH _ _ _ Hf) as (l1 & kl' & l2 & -> & H1 & ?).
      exists (kl ++ l1), kl', l2. split_and!; [by rewrite <- app_assoc|by constructor|tauto..].
Qed.

(** The tree whose [/chosen] node has these properties. *)
Definition with_chosen (rn : list Z) (rps : list (list Z * list Z)) (k1 : list tree) (cks : list tree) (k2 : list tree)
    (cps : list (list Z * list Z)) : tree :=
  Node rn rps (k1 ++ Node s_chosen cps cks :: k2).

(** Where [/chosen] is in the items, and that its properties can be replaced. *)
Lemma chosen_items s rn rps k1 cks k2 cps l :
  flat_kids s [with_chosen rn rps k1 cks k2 cps] l -> Forall (fun t => tree_name t <> s_chosen) k2 ->
  exists A cl kl Z0,
    l = A ++ IBegin s_chosen :: cl ++ kl ++ IEnd :: Z0 /\ flat_props s cps cl /\ flat_kids s cks kl /\
    (forall off, fold_left chosen_step l (off, 0, None) =
       (off + zlen (items_bytes l), 0, Some (off + zlen (items_bytes A)))) /\
    (forall e cps' cl', flat_props (s ++ e) cps' cl' ->
       flat_kids (s ++ e) [with_chosen rn rps k1 cks k2 cps'] (A ++ IBegin s_chosen :: cl' ++ kl ++ IEnd :: Z0)).
Proof.
  intros Hf Hk2. apply (flat_kids_split s []) in Hf as (n1 & rl & n2 & -> & Hn1 & Hr & Hn2).
  unfold with_chosen in *. inversion Hr as [? ? ? pl kl0 Hrn Hpl Hkl0]; subst.
  apply flat_kids_split in Hkl0 as (l1 & kl & l2 & -> & H1 & Hc & H2).
  inversion Hc as [? ? ? cl ckl Hcn Hcl Hckl]; subst.
  exists (n1 ++ IBegin rn :: pl ++ l1), cl, ckl, (l2 ++ IEnd :: n2). split_and!; try done.
  - repeat (progress (rewrite <- ?app_assoc; cbn [app])). done.
  - intros off.
    assert (Hnop : forall n off c, flat_kids s [] n ->
      fold_left chosen_step n (off, 0, c) = (off + zlen (items_bytes n), 0, c)).
    { intros n off0 c Hn. remember [] as ks eqn:He. revert off0. induction Hn as [|ks l Hn IH|]; intros off0; [| |done].
      - cbn [fold_left]. change (items_bytes []) with (@nil Z). change (zlen []) with 0. by rewrite Z.add_0_r.
      - cbn [fold_left chosen_step]. rewrite IH, items_bytes_cons, zlen_app by done. by rewrite Z.add_assoc. }
    rewrite !fold_left_app, (Hnop _ _ _ Hn1). cbn [fold_left chosen_step]. change (0 + 1) with 1. change (1 =? 2) with false. cbn [andb].
    rewrite !fold_left_app, (chosen_props _ _ _ _ _ _ Hpl).
    destruct (chosen_kids _ _ _ (off + zlen (items_bytes n1) + zlen (item_bytes (IBegin rn)) + zlen (items_bytes pl)) None H1) as [c' ->].
    rewrite (chosen_kid _ _ _ _ _ Hc). rewrite bool_decide_true by done.
    rewrite (chosen_kids_none _ _ _ H2 Hk2). cbn [fold_left chosen_step]. change (saturating_sub 1 1) with 0.
    rewrite (Hnop _ _ _ Hn2). repeat (rewrite ?items_bytes_app, ?items_bytes_cons, ?zlen_app).
    change (zlen (items_bytes [])) with 0.
    f_equal; [f_equal; lia|]. f_equal. lia.
  - intros e cps' cl' Hcl'.
    replace ((n1 ++ IBegin rn :: pl ++ l1) ++ IBegin s_chosen :: cl' ++ ckl ++ IEnd :: l2 ++ IEnd :: n2) with
      (n1 ++ (IBegin rn :: pl ++ (l1 ++ (IBegin s_chosen :: cl' ++ ckl ++ [IEnd]) ++ l2) ++ [IEnd]) ++ n2).
    2:{ repeat (progress (rewrite <- ?app_assoc; cbn [app])). done. }
    destruct (flat_ext s e) as [Hen Hek].
    apply (flat_kids_app _ []); [auto|]. constructor; [|auto]. constructor; [done|by apply flat_props_ext|].
    apply flat_kids_app; [auto|]. constructor; [|auto]. constructor; auto.
Qed.

(** ** The whole function *)

Section set_bootargs.
Context {T : Target}.

(** All in front of the structure. *)
Definition bl_header (b : Blob) : list Z :=
  be_enc 4 FDT_MAGIC ++ be_enc 4 (bl_total b) ++ be_enc 4 (bl_struct_off b) ++ be_enc 4 (bl_strings_off b) ++
  bl_fixed b ++ be_enc 4 (zlen (bl_strings b)) ++ be_enc 4 (zlen (struct_bytes (bl_items b))) ++ bl_rsv b.

Lemma blob_header b : blob_ok b ->
  blob_bytes b = bl_header b ++ items_bytes (bl_items b) ++ be_enc 4 FDT_END ++ bl_mid b ++ bl_strings b ++ bl_tail b /\
  zlen (bl_header b) = bl_struct_off b /\ zlen (bl_header b) mod 4 = 0.
Proof.
  intros [Hf Hr _ _ _ _]. unfold bl_header. split_and!.
  - unfold blob_bytes, struct_bytes. by rewrite <- !app_assoc.
  - rewrite !zlen_app, !zlen_be_enc, Hf. unfold bl_struct_off. lia.
  - rewrite !zlen_app, !zlen_be_enc, Hf. Z.div_mod_to_equations. lia.
Qed.

Lemma blob_sizes b : blob_ok b ->
  40 <= bl_struct_off b /\ bl_struct_off b + zlen (struct_bytes (bl_items b)) <= bl_strings_off b /\
  bl_strings_off b + zlen (bl_strings b) <= bl_total b < 2 ^ 32 /\ zlen (struct_bytes (bl_items b)) = zlen (items_bytes (bl_items b)) + 4.
Proof.
  intros [_ _ _ Hs _ H32]. pose proof (zlen_nonneg (bl_rsv b)). pose proof (zlen_nonneg (bl_mid b)).
  pose proof (zlen_nonneg (bl_strings b)). pose proof (zlen_nonneg (struct_bytes (bl_items b))).
  unfold bl_strings_off, bl_struct_off in *. split_and!; try lia. unfold struct_bytes. by rewrite zlen_app, zlen_be_enc.
Qed.

Lemma read_header_at t so sto fixed ss sz rest buf :
  buf = be_enc 4 FDT_MAGIC ++ be_enc 4 t ++ be_enc 4 so ++ be_enc 4 sto ++ fixed ++ be_enc 4 ss ++ be_enc 4 sz ++ rest ->
  zlen fixed = 16 -> 0 <= t < 2 ^ 32 -> 0 <= so < 2 ^ 32 -> 0 <= sto < 2 ^ 32 -> 0 <= ss < 2 ^ 32 -> 0 <= sz < 2 ^ 32 ->
  read_be32 0 buf = (buf, Ok FDT_MAGIC) /\ read_be32 HDR_TOTALSIZE buf = (buf, Ok t) /\
  read_be32 HDR_OFF_DT_STRUCT buf = (buf, Ok so) /\ read_be32 HDR_OFF_DT_STRINGS buf = (buf, Ok sto) /\
  read_be32 HDR_SIZE_DT_STRINGS buf = (buf, Ok ss) /\ read_be32 HDR_SIZE_DT_STRUCT buf = (buf, Ok sz).
Proof.
  intros -> Hf Ht Hso Hsto Hss Hsz.
  assert (Hrd : forall buf a v c off, buf = a ++ be_enc 4 v ++ c -> zlen a = off -> 0 <= v < 2 ^ 32 ->
    read_be32 off buf = (buf, Ok v)) by (intros; by eapply read_be32_in).
  split_and!.
  - by eapply (Hrd _ []).
  - eapply (Hrd _ (be_enc 4 FDT_MAGIC)); [done|apply zlen_be_enc|done].
  - eapply (Hrd _ (be_enc 4 FDT_MAGIC ++ be_enc 4 t)); [by rewrite <- app_assoc|by rewrite zlen_app, !zlen_be_enc|done].
  - eapply (Hrd _ (be_enc 4 FDT_MAGIC ++ be_enc 4 t ++ be_enc 4 so));
      [by rewrite <- !app_assoc|by rewrite !zlen_app, !zlen_be_enc|done].
  - eapply (Hrd _ (be_enc 4 FDT_MAGIC ++ be_enc 4 t ++ be_enc 4 so ++ be_enc 4 sto ++ fixed));
      [by rewrite <- !app_assoc|by rewrite !zlen_app, !zlen_be_enc, Hf|done].
  - eapply (Hrd _ (be_enc 4 FDT_MAGIC ++ be_enc 4 t ++ be_enc 4 so ++ be_enc 4 sto ++ fixed ++ be_enc 4 ss));
      [by rewrite <- !app_assoc|by rewrite !zlen_app, !zlen_be_enc, Hf|done].
Qed.

Lemma read_header b : blob_ok b ->
  read_be32 0 (blob_bytes b) = (blob_bytes b, Ok FDT_MAGIC) /\
  read_be32 HDR_TOTALSIZE (blob_bytes b) = (blob_bytes b, Ok (bl_total b)) /\
  read_be32 HDR_OFF_DT_STRUCT (blob_bytes b) = (blob_bytes b, Ok (bl_struct_off b)) /\
  read_be32 HDR_OFF_DT_STRINGS (blob_bytes b) = (blob_bytes b, Ok (bl_strings_off b)) /\
  read_be32 HDR_SIZE_DT_STRINGS (blob_bytes b) = (blob_bytes b, Ok (zlen (bl_strings b))) /\
  read_be32 HDR_SIZE_DT_STRUCT (blob_bytes b) = (blob_bytes b, Ok (zlen (struct_bytes (bl_items b)))).
Proof.
  intros Hok. destruct (blob_sizes b Hok) as (H40 & Hso & Hst & _). pose proof (zlen_nonneg (bl_strings b)).
  pose proof (zlen_nonneg (struct_bytes (bl_items b))). destruct Hok as [Hf _ _ _ _ _].
  eapply read_header_at; [unfold blob_bytes; done|done|lia..].
Qed.

Lemma set_bootargs_header t so sto fixed ss sz rest buf max args :
  buf = be_enc 4 FDT_MAGIC ++ be_enc 4 t ++ be_enc 4 so ++ be_enc 4 sto ++ fixed ++ be_enc 4 ss ++ be_enc 4 sz ++ rest ->
  zlen fixed = 16 -> 0 <= t < 2 ^ 32 -> 0 <= so < 2 ^ 32 -> 0 <= sto < 2 ^ 32 -> 0 <= ss < 2 ^ 32 -> 0 <= sz < 2 ^ 32 ->
  fdt_set_bootargs max args buf = patch_chosen max t so sto ss sz args buf.
Proof.
  intros Hb Hf Ht Hso Hsto Hss Hsz.
  destruct (read_header_at t so sto fixed ss sz rest buf) as (R1 & R2 & R3 & R4 & R5 & R6); try done.
  unfold fdt_set_bootargs. unfold sbind at 1. rewrite R1. change (negb (FDT_MAGIC =? FDT_MAGIC)) with false. cbn iota.
  unfold sbind at 1. rewrite R2. unfold sbind at 1. rewrite R3. unfold sbind at 1. rewrite R4.
  unfold sbind at 1. rewrite R5. unfold sbind at 1. by rewrite R6.
Qed.

(** A blob in the middle of whose items [/chosen] begins. *)
Section chosen.
Context (b : Blob) (A B : list item).
Context (Hok : blob_ok b) (Hsm : small (blob_bytes b)) (Hit : bl_items b = A ++ IBegin s_chosen :: B).

Let buf := blob_bytes b.
Let body := bl_struct_off b + zlen (items_bytes (A ++ [IBegin s_chosen])).
Let rest := be_enc 4 FDT_END ++ bl_mid b ++ bl_strings b ++ bl_tail b.

Lemma chosen_found :
  fold_left chosen_step (bl_items b) (bl_struct_off b, 0, None) =
    (bl_struct_off b + zlen (items_bytes (bl_items b)), 0, Some (bl_struct_off b + zlen (items_bytes A))) ->
  find_chosen (S (length buf)) (bl_struct_off b + zlen (struct_bytes (bl_items b))) (bl_struct_off b) 0 None buf =
    (buf, Ok (Some (bl_struct_off b + zlen (items_bytes A)))).
Proof.
  intros Hc. destruct (blob_header b Hok) as (Hb & Hhz & Hha). destruct (blob_sizes b Hok) as (H40 & Hso & Hst & Hsz).
  pose proof (bo_total _ Hok) as Htot. pose proof (zlen_nonneg (bl_strings b)). unfold small in Hsm.
  assert (Hlen : (length (bl_items b) <= length buf)%nat).
  { destruct (items_bytes_size (bl_items b)) as [Hl _]. unfold buf, zlen in *. lia. }
  replace (S (length buf)) with (length (bl_items b) + S (length buf - length (bl_items b)))%nat by lia.
  rewrite <- Hhz at 2.
  rewrite (find_chosen_items (bl_items b) _ _ buf (bl_header b) _ 0 None Hb (bo_items _ Hok) Hha)
    by (unfold small, buf; lia).
  rewrite Hhz, Hc. cbn [find_chosen]. rewrite (proj2 (Z.ltb_lt _ _)) by lia. unfold sbind at 1.
  assert (Hbe : buf = (bl_header b ++ items_bytes (bl_items b)) ++ rest) by (unfold buf; rewrite Hb at 1; by rewrite <- app_assoc).
  rewrite (read_be32_in _ _ _ _ _ Hbe); [|by rewrite zlen_app, Hhz|done]. done.
Qed.

Lemma chosen_body :
  (let! name_end := skip_node_name (bl_struct_off b + zlen (items_bytes A) + 4) in align4 name_end) buf = (buf, Ok body).
Proof.
  destruct (blob_header b Hok) as (Hb & Hhz & Hha). unfold small in Hsm.
  assert (Hbc : buf = (bl_header b ++ items_bytes A ++ be_enc 4 FDT_BEGIN_NODE) ++ s_chosen ++
    0 :: pad (zlen s_chosen + 1) ++ items_bytes B ++ rest).
  { unfold buf. rewrite Hb at 1. rewrite Hit, items_bytes_app, items_bytes_cons. cbn [item_bytes]. by rewrite <- !app_assoc. }
  assert (Hnz : 0 ∉ s_chosen) by (apply (bool_decide_unpack _); vm_compute; exact I).
  assert (HA : zlen buf = zlen (bl_header b) + zlen (items_bytes A) + 12 + zlen (items_bytes B) + zlen rest).
  { rewrite Hbc at 1. rewrite !zlen_app, zlen_cons, !zlen_app, zlen_be_enc. change (zlen s_chosen) with 6.
    change (zlen (pad (6 + 1))) with 1. lia. }
  pose proof (zlen_nonneg (items_bytes A)). pose proof (zlen_nonneg rest). pose proof (zlen_nonneg (items_bytes B)).
  pose proof (zlen_nonneg (bl_header b)). fold buf in Hsm.
  unfold sbind. rewrite (skip_node_name_at _ _ _ _ _ Hbc); [|rewrite !zlen_app, zlen_be_enc; lia|done|lia].
  rewrite !zlen_app, zlen_be_enc. change (zlen s_chosen) with 6. rewrite align4_ok by lia. do 2 f_equal.
  replace (zlen (bl_header b) + (zlen (items_bytes A) + Z.of_nat 4) + 6 + 1)
    with (zlen (bl_header b) + zlen (items_bytes A) + 4 + 7) by lia.
  rewrite pad_aligned.
  - unfold body. rewrite items_bytes_app, zlen_app. change (zlen (items_bytes [IBegin s_chosen])) with 12.
    change (zlen (pad 7)) with 1. lia.
  - destruct (items_bytes_size A) as [_ HAm]. Z.div_mod_to_equations. lia.
Qed.

Lemma chosen_scanned cl kl Z0 cps cks f :
  B = cl ++ kl ++ IEnd :: Z0 -> flat_props (bl_strings b) cps cl -> flat_kids (bl_strings b) cks kl ->
  scan_chosen (S (length buf)) (bl_strings_off b) body 0 f buf =
    (buf, Ok (snd (fold_left (scan_step (bl_strings b)) cl (body, 0, f)))).
Proof.
  intros HB Hcl Hkl. subst B. destruct (blob_header b Hok) as (Hb & Hhz & Hha).
  set (pre := bl_header b ++ items_bytes (A ++ [IBegin s_chosen])).
  assert (Hpre : zlen pre = body) by (unfold pre, body; rewrite zlen_app, Hhz; done).
  assert (Hbp : buf = pre ++ items_bytes (cl ++ kl) ++ items_bytes (IEnd :: Z0) ++ rest).
  { unfold buf. rewrite Hb at 1. unfold pre. rewrite Hit, !items_bytes_app, items_bytes_cons, !items_bytes_app, <- !app_assoc. done. }
  assert (Hck : (length (cl ++ kl) <= length buf)%nat).
  { destruct (items_bytes_size (cl ++ kl)) as [Hl _]. assert (zlen (items_bytes (cl ++ kl)) <= zlen buf).
    { rewrite Hbp at 1. rewrite (zlen_app pre), (zlen_app (items_bytes (cl ++ kl))). pose proof (zlen_nonneg pre).
      pose proof (zlen_nonneg (items_bytes (IEnd :: Z0) ++ rest)). lia. }
    unfold zlen in *. lia. }
  replace (S (length buf)) with (length (cl ++ kl) + S (length buf - length (cl ++ kl)))%nat by lia.
  assert (Hgood : Forall (good_item (bl_strings b)) (cl ++ kl)).
  { apply list.Forall_app. split; [by eapply flat_props_good|by eapply (proj2 (flat_good _))]. }
  rewrite <- Hpre at 1. rewrite (scan_chosen_items _ (bl_strings b) (cl ++ kl) _ buf pre _ 0 _ Hbp).
  - rewrite fold_left_app, Hpre.
    destruct (scan_props_insert _ _ _ Hcl body f) as (ci & nops & f' & Hfold & _).
    rewrite Hfold. rewrite (proj2 (scan_kids _) _ _ Hkl) by lia. cbn [snd scan_chosen]. unfold sbind at 1.
    assert (Hbn : buf = (pre ++ items_bytes (cl ++ kl)) ++ be_enc 4 FDT_END_NODE ++ items_bytes Z0 ++ rest)
      by (rewrite Hbp at 1; rewrite items_bytes_cons; cbn [item_bytes]; by rewrite <- !app_assoc).
    rewrite (read_be32_in _ _ _ _ _ Hbn); [|rewrite zlen_app, Hpre, items_bytes_app, zlen_app; lia|done]. done.
  - eapply Forall_impl; [|exact Hgood]. by intros ? [].
  - eapply Forall_impl; [|exact Hgood]. by intros ? [].
  - unfold pre. rewrite zlen_app. destruct (items_bytes_size (A ++ [IBegin s_chosen])) as [_ HAm]. Z.div_mod_to_equations. lia.
  - exact Hsm.
  - exists (bl_header b ++ items_bytes (bl_items b) ++ be_enc 4 FDT_END ++ bl_mid b), (bl_tail b). split.
    + unfold buf. rewrite Hb at 1. unfold rest. by rewrite <- !app_assoc.
    + unfold bl_strings_off, struct_bytes. rewrite !zlen_app, Hhz. lia.
  - rewrite (inside_app_props _ _ _ _ _ Hcl). rewrite <- (app_nil_r kl). by apply (proj2 (inside_deep _) _ _ Hkl).
Qed.
End chosen.

Lemma set_bootargs_scans b A cl kl Z0 cps cks max args :
  blob_ok b -> small (blob_bytes b) ->
  bl_items b = A ++ IBegin s_chosen :: cl ++ kl ++ IEnd :: Z0 ->
  flat_props (bl_strings b) cps cl -> flat_kids (bl_strings b) cks kl ->
  fold_left chosen_step (bl_items b) (bl_struct_off b, 0, None) =
    (bl_struct_off b + zlen (items_bytes (bl_items b)), 0, Some (bl_struct_off b + zlen (items_bytes A))) ->
  let body := bl_struct_off b + zlen (items_bytes (A ++ [IBegin s_chosen])) in
  fdt_set_bootargs max args (blob_bytes b) =
    patch_found max (bl_total b) (bl_strings_off b) (zlen (bl_strings b)) (zlen (struct_bytes (bl_items b))) args
      (snd (fold_left (scan_step (bl_strings b)) cl (body, 0, {| fo_existing := None; fo_insert := body |}))) (blob_bytes b).
Proof.
  intros Hok Hsm Hit Hcl Hkl Hc body. destruct (blob_sizes b Hok) as (H40 & Hso & Hst & Hsz).
  pose proof (zlen_nonneg (bl_strings b)). pose proof (zlen_nonneg (struct_bytes (bl_items b))).
  pose proof (bo_total _ Hok). pose proof Hsm as Hsm'. unfold small in Hsm'.
  erewrite set_bootargs_header; [|unfold blob_bytes; done|apply Hok|lia..].
  unfold patch_chosen. unfold sbind at 1. unfold uadd, slift, add_or_panic. rewrite checked_add_ok by lia. cbn [or_panic].
  unfold sbind at 1. rewrite (chosen_found b A Hok Hsm Hc). unfold sbind at 1. unfold ok_or.
  pose proof (chosen_body b A _ Hok Hsm Hit) as Hbd. unfold sbind in Hbd. unfold sbind at 1.
  destruct (skip_node_name _ _) as [s1 [name_end|e|]]; [|done|done]. unfold sbind at 1. rewrite Hbd.
  unfold sbind at 1. by rewrite (chosen_scanned b A _ Hok Hsm Hit cl kl Z0 cps cks _ eq_refl Hcl Hkl).
Qed.
End set_bootargs.

(** ** Setting the boot arguments of a tree *)

Definition bootargs_prop (args : list Z) : list Z * list Z := (s_bootargs, args ++ [0]).

Definition words (n : Z) : Z := (n + 3) / 4.

(** What becomes of the properties of [/chosen]: a new property is the last, an
    old one too small is given up, one of the same size in words is overwritten. *)
Inductive bootargs_set (args : list Z) : list (list Z * list Z) -> list (list Z * list Z) -> Prop :=
| bs_new ps :
    Forall (fun p => p.1 <> s_bootargs) ps -> bootargs_set args ps (ps ++ [bootargs_prop args])
| bs_moved p1 old p2 :
    Forall (fun p => p.1 <> s_bootargs) p2 -> zlen old < zlen args + 1 ->
    bootargs_set args (p1 ++ (s_bootargs, old) :: p2) (p1 ++ p2 ++ [bootargs_prop args])
| bs_kept p1 old p2 :
    Forall (fun p => p.1 <> s_bootargs) p2 -> zlen args + 1 <= zlen old -> words (zlen args + 1) = words (zlen old) ->
    bootargs_set args (p1 ++ (s_bootargs, old) :: p2) (p1 ++ bootargs_prop args :: p2).

(** What is left when there is no room. *)
Inductive bootargs_dropped : list (list Z * list Z) -> list (list Z * list Z) -> Prop :=
| bd_none ps : Forall (fun p => p.1 <> s_bootargs) ps -> bootargs_dropped ps ps
| bd_old p1 old p2 :
    Forall (fun p => p.1 <> s_bootargs) p2 -> bootargs_dropped (p1 ++ (s_bootargs, old) :: p2) (p1 ++ p2).

(** Either there is no such property or there is a last one. *)
Lemma bootargs_cases ps :
  Forall (fun p => p.1 <> s_bootargs) ps \/
  exists p1 old p2, ps = p1 ++ (s_bootargs, old) :: p2 /\ Forall (fun p : list Z * list Z => p.1 <> s_bootargs) p2.
Proof.
  induction ps as [|[n v] ps [IH|(p1 & old & p2 & -> & Hp)]]; [by left|..].
  - destruct (decide (n = s_bootargs)) as [->|Hn].
    + right. by exists [], v, ps.
    + left. by constructor.
  - right. by exists ((n, v) :: p1), old, p2.
Qed.

Definition with_items (b : Blob) (l : list item) : Blob :=
  {| bl_total := bl_total b; bl_fixed := bl_fixed b; bl_rsv := bl_rsv b; bl_items := l; bl_mid := bl_mid b;
     bl_strings := bl_strings b; bl_tail := bl_tail b |}.

Section theorem.
Context {T : Target}.

(** Items can be replaced by others of the same size. *)
Lemma blob_edit b A i B : blob_ok b -> bl_items b = A ++ i :: B ->
  exists a c, blob_bytes b = a ++ item_bytes i ++ c /\ zlen a = bl_struct_off b + zlen (items_bytes A) /\
    a = bl_header b ++ items_bytes A /\
    forall l, zlen (items_bytes l) = zlen (item_bytes i) -> Forall item_ok l ->
      a ++ items_bytes l ++ c = blob_bytes (with_items b (A ++ l ++ B)) /\ blob_ok (with_items b (A ++ l ++ B)) /\
      bl_struct_off (with_items b (A ++ l ++ B)) = bl_struct_off b /\
      bl_strings_off (with_items b (A ++ l ++ B)) = bl_strings_off b /\
      zlen (struct_bytes (A ++ l ++ B)) = zlen (struct_bytes (bl_items b)).
Proof.
  intros Hok Hi. pose proof Hok as [Hf Hr Hit Hst Ht H32].
  exists (be_enc 4 FDT_MAGIC ++ be_enc 4 (bl_total b) ++ be_enc 4 (bl_struct_off b) ++ be_enc 4 (bl_strings_off b) ++
    bl_fixed b ++ be_enc 4 (zlen (bl_strings b)) ++ be_enc 4 (zlen (struct_bytes (bl_items b))) ++ bl_rsv b ++ items_bytes A),
    (items_bytes B ++ be_enc 4 FDT_END ++ bl_mid b ++ bl_strings b ++ bl_tail b).
  split_and!.
  - unfold blob_bytes, struct_bytes. rewrite Hi, !items_bytes_app, items_bytes_cons. by rewrite <- !app_assoc.
  - rewrite !zlen_app, !zlen_be_enc, Hf. unfold bl_struct_off. lia.
  - unfold bl_header. by rewrite <- !app_assoc.
  - intros l Hl Hlok.
    assert (Hz : zlen (struct_bytes (A ++ l ++ B)) = zlen (struct_bytes (bl_items b))).
    { unfold struct_bytes. rewrite Hi, !items_bytes_app, items_bytes_cons, !zlen_app, Hl. lia. }
    assert (Hso : bl_strings_off (with_items b (A ++ l ++ B)) = bl_strings_off b).
    { unfold bl_strings_off, bl_struct_off. cbn [with_items bl_rsv bl_items bl_mid]. by rewrite Hz. }
    assert (Hbytes : (be_enc 4 FDT_MAGIC ++ be_enc 4 (bl_total b) ++ be_enc 4 (bl_struct_off b) ++ be_enc 4 (bl_strings_off b) ++
      bl_fixed b ++ be_enc 4 (zlen (bl_strings b)) ++ be_enc 4 (zlen (struct_bytes (bl_items b))) ++ bl_rsv b ++ items_bytes A) ++
      items_bytes l ++ items_bytes B ++ be_enc 4 FDT_END ++ bl_mid b ++ bl_strings b ++ bl_tail b =
      blob_bytes (with_items b (A ++ l ++ B))).
    { unfold blob_bytes. rewrite Hso. cbn [with_items bl_total bl_fixed bl_rsv bl_items bl_mid bl_strings bl_tail].
      rewrite Hz. unfold struct_bytes at 3. rewrite !items_bytes_app, <- !app_assoc. done. }
    split_and!; try done. constructor; try done.
    + cbn. apply list.Forall_app. rewrite Hi, list.Forall_app, list.Forall_cons in Hit. split; [tauto|].
      apply list.Forall_app. tauto.
    + by rewrite Hso.
    + cbn [with_items bl_total]. rewrite <- Hbytes.
      assert (Hsame : zlen (blob_bytes b) = zlen ((be_enc 4 FDT_MAGIC ++ be_enc 4 (bl_total b) ++ be_enc 4 (bl_struct_off b) ++ be_enc 4 (bl_strings_off b) ++
        bl_fixed b ++ be_enc 4 (zlen (bl_strings b)) ++ be_enc 4 (zlen (struct_bytes (bl_items b))) ++ bl_rsv b ++ items_bytes A) ++
        items_bytes l ++ items_bytes B ++ be_enc 4 FDT_END ++ bl_mid b ++ bl_strings b ++ bl_tail b)); [|lia].
      unfold blob_bytes, struct_bytes. rewrite !zlen_app, !zlen_be_enc, Hi, items_bytes_app, items_bytes_cons, !zlen_app, Hl. lia.
Qed.

(** An insertion that fits. *)
Lemma blob_insert_ok b A B ins e :
  blob_ok b -> bl_items b = A ++ B -> Forall item_ok ins -> bl_total (blob_insert b A B ins e) <= zlen (blob_bytes b) ->
  bl_total (blob_insert b A B ins e) < 2 ^ 32 ->
  blob_ok (blob_insert b A B ins e) /\ zlen (blob_bytes (blob_insert b A B ins e)) = zlen (blob_bytes b).
Proof.
  intros Hok Hi Hio Hmax H32'. destruct (blob_split b A B Hi Hok) as (_ & _ & _ & Htl & Ht).
  pose proof Hok as [Hf Hr Hit Hst Htt H32]. cbn [blob_insert bl_total] in Hmax, H32'.
  set (t := bl_total b - bl_strings_off b - zlen (bl_strings b)) in *. set (n := zlen (items_bytes ins)) in *.
  pose proof (zlen_nonneg (items_bytes ins)). pose proof (zlen_nonneg e).
  assert (Hsame : zlen (blob_bytes (blob_insert b A B ins e)) = zlen (blob_bytes b)).
  { assert (Htz : zlen (bl_tail (blob_insert b A B ins e)) = zlen (bl_tail b) - n - zlen e).
    { cbn [blob_insert bl_tail]. fold t n. unfold zlen in *. rewrite length_drop, length_app, length_take, length_drop. lia. }
    unfold blob_bytes. rewrite !zlen_app, !zlen_be_enc, Htz. cbn [blob_insert bl_fixed bl_rsv bl_items bl_mid bl_strings].
    unfold struct_bytes. rewrite Hi, !items_bytes_app, !zlen_app. fold n. lia. }
  split; [|done]. constructor; try done.
  - cbn. rewrite Hi, list.Forall_app in Hit. rewrite !list.Forall_app. tauto.
  - unfold bl_strings_off, bl_struct_off in *. cbn [blob_insert bl_total bl_rsv bl_items bl_mid bl_strings] in *.
    unfold struct_bytes in *. rewrite Hi, items_bytes_app, !zlen_app in Hst.
    rewrite !items_bytes_app, !zlen_app. fold n. lia.
  - by rewrite Hsame.
Qed.

(** Inserting at the end of the properties of [/chosen]. *)
Lemma insert_holds b rn rps k1 cks k2 ps A cl kl Z0 ci nops max args :
  blob_ok b -> max <= zlen (blob_bytes b) -> max < 2 ^ 32 -> zlen (blob_bytes b) + zlen args + 64 <= usize_max ->
  bl_items b = A ++ IBegin s_chosen :: cl ++ kl ++ IEnd :: Z0 ->
  cl = ci ++ nops -> flat_props (bl_strings b) ps ci -> flat_props (bl_strings b) [] nops ->
  (forall e cps' cl', flat_props (bl_strings b ++ e) cps' cl' ->
     flat_kids (bl_strings b ++ e) [with_chosen rn rps k1 cks k2 cps'] (A ++ IBegin s_chosen :: cl' ++ kl ++ IEnd :: Z0)) ->
  match insert_bootargs max (bl_total b) (bl_strings_off b) (zlen (bl_strings b)) (zlen (struct_bytes (bl_items b)))
          (bl_struct_off b + zlen (items_bytes (A ++ IBegin s_chosen :: ci))) args (blob_bytes b) with
  | (buf', Ok n) => exists b', buf' = blob_bytes b' /\ n = bl_total b' /\ n <= max /\
      holds b' (with_chosen rn rps k1 cks k2 (ps ++ [bootargs_prop args]))
  | (buf', Err err) => err = BufferTooSmall /\ buf' = blob_bytes b /\ max < bl_total b + zlen args + 25
  | (_, Panic) => False
  end.
Proof.
  intros Hok Hmax H32 Hsm Hi -> Hci Hnops Hre.
  assert (Hi' : bl_items b = (A ++ IBegin s_chosen :: ci) ++ (nops ++ kl ++ IEnd :: Z0))
    by (rewrite Hi; repeat (progress (rewrite <- ?app_assoc; cbn [app])); done).
  pose proof (insert_bootargs_spec max b _ _ args Hok Hi' Hmax H32 Hsm) as Hins. cbn zeta in Hins.
  destruct (insert_bootargs _ _ _ _ _ _ _ _) as [buf' [n|err|]]; [| |done].
  - destruct Hins as (o & e & -> & -> & Hle & Hnm & Hio & _).
    destruct (blob_insert_ok b _ _ [IProp o (args ++ [0])] e Hok Hi') as [Hok' _]; [by constructor|lia|lia|].
    eexists. split; [done|]. split; [done|]. split; [done|]. split; [done|]. cbn [blob_insert bl_strings bl_items].
    replace ((A ++ IBegin s_chosen :: ci) ++ [IProp o (args ++ [0])] ++ nops ++ kl ++ IEnd :: Z0) with
      (A ++ IBegin s_chosen :: (ci ++ IProp o (args ++ [0]) :: nops) ++ kl ++ IEnd :: Z0)
      by (repeat (progress (rewrite <- ?app_assoc; cbn [app])); done).
    apply Hre. apply flat_props_app; [by apply flat_props_ext|]. constructor; [done|done|by apply flat_props_ext].
  - destruct Hins as (-> & -> & Hbig). split_and!; [done|done|]. rewrite item_prop_align, zlen_app, zlen_pad in Hbig.
    change (zlen [0]) with 1 in Hbig. pose proof (Z.mod_pos_bound (- (12 + (zlen args + 1))) 4). lia.
Qed.
End theorem.

(** ** The theorems *)

Section promises.
Context {T : Target}.

(** The end of the properties as an offset. *)
Lemma insert_offset b A ci body :
  body = bl_struct_off b + zlen (items_bytes (A ++ [IBegin s_chosen])) ->
  body + zlen (items_bytes ci) = bl_struct_off b + zlen (items_bytes (A ++ IBegin s_chosen :: ci)).
Proof.
  intros ->. replace (A ++ IBegin s_chosen :: ci) with ((A ++ [IBegin s_chosen]) ++ ci) by (by rewrite <- app_assoc).
  rewrite (items_bytes_app (A ++ [IBegin s_chosen])), zlen_app. lia.
Qed.

Lemma words_size n m : 0 <= n -> 0 <= m -> words n = words m -> n + - (12 + n) mod 4 = m + - (12 + m) mod 4.
Proof. unfold words. intros. Z.div_mod_to_equations. lia. Qed.

(** *** A blob whose [/chosen] node has been found *)

Section found.
Context (b : Blob) (rn : list Z) (rps : list (list Z * list Z)) (k1 cks k2 : list tree).
Context (A cl kl Z0 : list item) (body max : Z) (args : list Z).
Context (Hok : blob_ok b) (Hi : bl_items b = A ++ IBegin s_chosen :: cl ++ kl ++ IEnd :: Z0).
Context (Hbody : body = bl_struct_off b + zlen (items_bytes (A ++ [IBegin s_chosen]))).
Context (Hre : forall e cps' cl', flat_props (bl_strings b ++ e) cps' cl' ->
  flat_kids (bl_strings b ++ e) [with_chosen rn rps k1 cks k2 cps'] (A ++ IBegin s_chosen :: cl' ++ kl ++ IEnd :: Z0)).
Context (Hmax : max <= zlen (blob_bytes b)) (H32 : max < 2 ^ 32).
Context (Hsm : zlen (blob_bytes b) + zlen args + 64 <= usize_max).

(** The patch that the scan of properties leads to. *)
Definition patched (cl : list item) : list Z * res FdtPatchError Z :=
  patch_found max (bl_total b) (bl_strings_off b) (zlen (bl_strings b)) (zlen (struct_bytes (bl_items b))) args
    (snd (fold_left (scan_step (bl_strings b)) cl (body, 0, {| fo_existing := None; fo_insert := body |}))) (blob_bytes b).

(** The outcomes promised for the properties [cps]. *)
Definition patched_ok (cps : list (list Z * list Z)) (out : list Z * res FdtPatchError Z) : Prop :=
  match out with
  | (buf', Ok n) => exists b' cps', buf' = blob_bytes b' /\ n = bl_total b' /\
      holds b' (with_chosen rn rps k1 cks k2 cps') /\ bootargs_set args cps cps'
  | (buf', Err err) => err = BufferTooSmall /\ max < bl_total b + zlen args + 25 /\
      exists b' cps', buf' = blob_bytes b' /\ holds b' (with_chosen rn rps k1 cks k2 cps') /\ bootargs_dropped cps cps'
  | (_, Panic) => False
  end.

Lemma scan_insert cps :
  flat_props (bl_strings b) cps cl ->
  exists ci nops f, fold_left (scan_step (bl_strings b)) cl (body, 0, {| fo_existing := None; fo_insert := body |}) =
      (body + zlen (items_bytes cl), 0, f) /\
    cl = ci ++ nops /\ flat_props (bl_strings b) cps ci /\ flat_props (bl_strings b) [] nops /\
    fo_insert f = bl_struct_off b + zlen (items_bytes (A ++ IBegin s_chosen :: ci)).
Proof.
  intros Hcl. destruct (scan_props_insert _ _ _ Hcl body {| fo_existing := None; fo_insert := body |})
    as (ci & nops & f & Hfold & Hcn & Hci & Hnops & Hins & Hnil).
  exists ci, nops, f. split_and!; try done. rewrite <- (insert_offset b A ci body Hbody), Hins.
  destruct cps; [|done]. rewrite (Hnil eq_refl). change (items_bytes []) with (@nil Z). rewrite zlen_nil. cbn. lia.
Qed.

Lemma patched_new cps :
  flat_props (bl_strings b) cps cl -> Forall (fun p => p.1 <> s_bootargs) cps -> patched_ok cps (patched cl).
Proof.
  intros Hcl Hnone. destruct (scan_insert cps Hcl) as (ci & nops & f & Hfold & Hcn & Hci & Hnops & Hoff).
  destruct (scan_props_none _ _ _ Hcl Hnone body {| fo_existing := None; fo_insert := body |}) as (f' & Hfold' & Hex).
  rewrite Hfold in Hfold'. injection Hfold' as <-. unfold patched, patch_found. rewrite Hfold. cbn [snd].
  rewrite Hex, Hoff. cbn [fo_existing].
  pose proof (insert_holds b rn rps k1 cks k2 cps A cl kl Z0 ci nops max args Hok Hmax H32 Hsm Hi Hcn Hci Hnops Hre) as H1.
  unfold patched_ok. destruct (insert_bootargs _ _ _ _ _ _ _ _) as [buf' [n|err|]]; [| |done].
  - destruct H1 as (b' & -> & -> & _ & Hh). exists b', (cps ++ [bootargs_prop args]). split_and!; try done. by constructor.
  - destruct H1 as (-> & -> & Hbig). split_and!; try done. exists b, cps. split_and!; try done; [|by constructor].
    split; [done|]. specialize (Hre [] cps cl). rewrite app_nil_r in Hre. rewrite Hi. auto.
Qed.

(** The place of the last boot arguments property. *)
Lemma scan_old p1 old p2 :
  flat_props (bl_strings b) (p1 ++ (s_bootargs, old) :: p2) cl -> Forall (fun p => p.1 <> s_bootargs) p2 ->
  exists l1 o l2 f a c, cl = l1 ++ IProp o old :: l2 /\ flat_props (bl_strings b) p1 l1 /\ flat_props (bl_strings b) p2 l2 /\
    name_at (bl_strings b) o s_bootargs /\ item_ok (IProp o old) /\
    fold_left (scan_step (bl_strings b)) cl (body, 0, {| fo_existing := None; fo_insert := body |}) =
      (body + zlen (items_bytes cl), 0, f) /\
    fo_existing f = Some (zlen a, zlen old) /\ blob_bytes b = a ++ item_bytes (IProp o old) ++ c /\
    a = bl_header b ++ items_bytes (A ++ IBegin s_chosen :: l1) /\
    forall l, zlen (items_bytes l) = zlen (item_bytes (IProp o old)) -> Forall item_ok l ->
      let b' := with_items b (A ++ IBegin s_chosen :: (l1 ++ l ++ l2) ++ kl ++ IEnd :: Z0) in
      a ++ items_bytes l ++ c = blob_bytes b' /\ blob_ok b' /\ bl_struct_off b' = bl_struct_off b /\
      bl_strings_off b' = bl_strings_off b /\ zlen (struct_bytes (bl_items b')) = zlen (struct_bytes (bl_items b)).
Proof.
  intros Hcl Hp2.
  destruct (scan_props_found _ p1 old p2 cl body {| fo_existing := None; fo_insert := body |} Hcl Hp2)
    as (l1 & o & l2 & f & Hl & H1 & H2 & Hn & Hio & Hfold & Hex).
  destruct (blob_edit b (A ++ IBegin s_chosen :: l1) (IProp o old) (l2 ++ kl ++ IEnd :: Z0) Hok) as (a & c & Hb & Ha & Hah & Hed).
  { rewrite Hi, Hl. repeat (progress (rewrite <- ?app_assoc; cbn [app])). done. }
  exists l1, o, l2, f, a, c. split_and!; try done.
  - by rewrite Ha, <- (insert_offset b A l1 body Hbody).
  - intros l Hlz Hlok. destruct (Hed l Hlz Hlok) as (H3 & H4 & H5 & H6 & H7). cbn zeta.
    replace (A ++ IBegin s_chosen :: (l1 ++ l ++ l2) ++ kl ++ IEnd :: Z0) with
      ((A ++ IBegin s_chosen :: l1) ++ l ++ l2 ++ kl ++ IEnd :: Z0)
      by (repeat (progress (rewrite <- ?app_assoc; cbn [app])); done). by split_and!.
Qed.

Lemma item_new_ok o old : item_ok (IProp o old) -> zlen args + 1 <= zlen old -> item_ok (IProp o (args ++ [0])).
Proof. intros [? ?] ?. split; [done|]. rewrite zlen_app. change (zlen [0]) with 1. lia. Qed.

Lemma patched_kept p1 old p2 :
  flat_props (bl_strings b) (p1 ++ (s_bootargs, old) :: p2) cl -> Forall (fun p => p.1 <> s_bootargs) p2 ->
  zlen args + 1 <= zlen old -> words (zlen args + 1) = words (zlen old) ->
  patched_ok (p1 ++ (s_bootargs, old) :: p2) (patched cl).
Proof.
  intros Hcl Hp2 Hfits Hwords. pose proof (zlen_nonneg args). pose proof (zlen_nonneg old).
  destruct (scan_old p1 old p2 Hcl Hp2) as (l1 & o & l2 & f & a & c & Hl & H1 & H2 & Hn & Hio & Hfold & Hex & Hb & _ & Hed).
  unfold patched, patch_found. rewrite Hfold. cbn [snd]. rewrite Hex. rewrite (proj2 (Z.leb_le _ _) Hfits).
  destruct (overwrite_spec (bl_total b) (blob_bytes b) a o old args c Hb Hfits) as [-> Hd].
  assert (Hsame : zlen (item_bytes (IProp o (args ++ [0]))) = zlen (item_bytes (IProp o old))).
  { rewrite !item_prop_align, !zlen_pad, zlen_app. change (zlen [0]) with 1.
    pose proof (words_size (zlen args + 1) (zlen old) ltac:(lia) ltac:(lia) Hwords). lia. }
  pose proof (item_new_ok o old Hio Hfits) as Hio'.
  rewrite Hsame, Z.sub_diag. change (zeros 0) with (@nil Z). rewrite app_nil_l.
  destruct (Hed [IProp o (args ++ [0])]) as (Hbytes & Hok' & _); [by rewrite item_one|by constructor|].
  rewrite item_one in Hbytes. rewrite Hbytes.
  eexists _, (p1 ++ bootargs_prop args :: p2). split; [done|]. split; [done|]. split; [split; [done|]|by constructor].
  cbn [with_items bl_items bl_strings].
  specialize (Hre [] (p1 ++ bootargs_prop args :: p2) (l1 ++ [IProp o (args ++ [0])] ++ l2)). rewrite app_nil_r in Hre.
  apply Hre, flat_props_app; [done|]. by constructor.
Qed.

Lemma flat_nops s n : flat_props s [] (replicate n INop).
Proof. induction n; cbn [replicate]; by constructor. Qed.
End found.

(** An old property that is too small: without it, the insertion. *)
Lemma patched_moved b rn rps k1 cks k2 A cl kl Z0 body max args p1 old p2 :
  blob_ok b -> bl_items b = A ++ IBegin s_chosen :: cl ++ kl ++ IEnd :: Z0 ->
  body = bl_struct_off b + zlen (items_bytes (A ++ [IBegin s_chosen])) ->
  (forall e cps' cl', flat_props (bl_strings b ++ e) cps' cl' ->
     flat_kids (bl_strings b ++ e) [with_chosen rn rps k1 cks k2 cps'] (A ++ IBegin s_chosen :: cl' ++ kl ++ IEnd :: Z0)) ->
  max <= zlen (blob_bytes b) -> max < 2 ^ 32 -> zlen (blob_bytes b) + zlen args + 64 <= usize_max ->
  flat_props (bl_strings b) (p1 ++ (s_bootargs, old) :: p2) cl -> Forall (fun p => p.1 <> s_bootargs) p2 ->
  zlen old < zlen args + 1 ->
  patched_ok b rn rps k1 cks k2 max args (p1 ++ (s_bootargs, old) :: p2) (patched b body max args cl).
Proof.
  intros Hok Hi Hbody Hre Hmax H32 Hsm Hcl Hp2 Hbig.
  destruct (scan_insert b A cl body Hbody _ Hcl) as (ci & nops & f & Hfold & Hcn & Hci & Hnops & Hoff).
  subst cl. assert (Hi' : bl_items b = A ++ IBegin s_chosen :: ci ++ (nops ++ kl) ++ IEnd :: Z0) by (rewrite Hi; by rewrite <- !app_assoc).
  destruct (scan_old b A ci (nops ++ kl) Z0 body Hok Hi' Hbody p1 old p2 Hci Hp2)
    as (m1 & o & m2 & f' & a & c & Hl & H1 & H2 & Hn & Hio & Hfold' & Hex & Hb & _ & Hed).
  rewrite fold_left_app, Hfold' in Hfold.
  destruct (scan_props_none _ [] nops Hnops (Forall_nil_2 _) (body + zlen (items_bytes ci)) f') as (f2 & Hf2 & Hex2).
  rewrite Hf2 in Hfold. injection Hfold as _ <-. unfold patched, patch_found. rewrite fold_left_app, Hfold', Hf2. cbn [snd].
  rewrite Hex2, Hex, (proj2 (Z.leb_gt _ _)) by lia.
  destruct (nop_out_spec (blob_bytes b) a o old c Hb) as (n & Hnop & Hnz); [unfold small; pose proof (zlen_nonneg args); lia|].
  unfold sbind at 1. rewrite Hnop. destruct (Hed (replicate n INop) Hnz) as (Hbytes & Hok' & Hso & Hsto & Hsz).
  { by apply Forall_replicate. }
  assert (Hbz : zlen (blob_bytes b) = zlen (a ++ items_bytes (replicate n INop) ++ c)) by (rewrite Hb, !zlen_app, Hnz; lia).
  rewrite Hbytes in Hbz |- *. set (b' := with_items b _) in *.
  assert (Hci' : flat_props (bl_strings b') (p1 ++ p2) (m1 ++ replicate n INop ++ m2)).
  { apply flat_props_app; [done|]. apply (flat_props_app _ [] _ p2); [apply flat_nops|done]. }
  assert (Hsame : zlen (items_bytes (A ++ IBegin s_chosen :: ci)) =
    zlen (items_bytes (A ++ IBegin s_chosen :: m1 ++ replicate n INop ++ m2))).
  { rewrite Hl. rewrite !items_bytes_app, !items_bytes_cons, !items_bytes_app, items_bytes_cons, !zlen_app, Hnz. lia. }
  rewrite Hoff, Hsame, <- Hso, <- Hsto, <- Hsz.
  pose proof (insert_holds b' rn rps k1 cks k2 (p1 ++ p2) A ((m1 ++ replicate n INop ++ m2) ++ nops) kl Z0
    (m1 ++ replicate n INop ++ m2) nops max args Hok') as Hins.
  rewrite <- Hbz in Hins. specialize (Hins Hmax H32 Hsm).
  assert (Hit : bl_items b' = A ++ IBegin s_chosen :: ((m1 ++ replicate n INop ++ m2) ++ nops) ++ kl ++ IEnd :: Z0)
    by (unfold b'; cbn [with_items bl_items]; repeat (progress (rewrite <- ?app_assoc; cbn [app])); done).
  specialize (Hins Hit eq_refl Hci' Hnops Hre). unfold patched_ok. change (bl_total b') with (bl_total b) in *.
  change (bl_strings b') with (bl_strings b) in *.
  destruct (insert_bootargs _ _ _ _ _ _ _ _) as [buf' [t|err|]]; [| |done].
  - destruct Hins as (b2 & -> & -> & _ & Hh). exists b2, (p1 ++ p2 ++ [bootargs_prop args]). split_and!; try done.
    + by rewrite app_assoc.
    + by constructor.
  - destruct Hins as (-> & -> & Hlt). split_and!; try done. exists b', (p1 ++ p2). split_and!; try done; [|by constructor].
    split; [done|]. rewrite Hit. change (bl_strings b') with (bl_strings b).
    specialize (Hre [] (p1 ++ p2) ((m1 ++ replicate n INop ++ m2) ++ nops)). rewrite app_nil_r in Hre. apply Hre.
    rewrite <- (app_nil_r (p1 ++ p2)). by apply flat_props_app.
Qed.

(** Setting the boot arguments of a blob that holds a tree gives a blob that
    holds the tree with the property set and all else unchanged, unless the old
    property is at least a word longer than the new one; the size returned is that
    of the new blob.  When there is no room the blob still holds the tree, but
    without an old property that was too small. *)
Theorem set_bootargs_sets b rn rps k1 cks k2 cps max args :
  holds b (with_chosen rn rps k1 cks k2 cps) -> Forall (fun t => tree_name t <> s_chosen) k2 ->
  max <= zlen (blob_bytes b) -> max < 2 ^ 32 -> zlen (blob_bytes b) + zlen args + 64 <= usize_max ->
  (forall p1 old p2, cps = p1 ++ (s_bootargs, old) :: p2 -> Forall (fun p => p.1 <> s_bootargs) p2 ->
     zlen args + 1 <= zlen old -> words (zlen args + 1) = words (zlen old)) ->
  match fdt_set_bootargs max args (blob_bytes b) with
  | (buf', Ok n) => exists b' cps', buf' = blob_bytes b' /\ n = bl_total b' /\
      holds b' (with_chosen rn rps k1 cks k2 cps') /\ bootargs_set args cps cps'
  | (buf', Err err) => err = BufferTooSmall /\ max < bl_total b + zlen args + 25 /\
      exists b' cps', buf' = blob_bytes b' /\ holds b' (with_chosen rn rps k1 cks k2 cps') /\ bootargs_dropped cps cps'
  | (_, Panic) => False
  end.
Proof.
  intros Hh Hk2 Hmax H32 Hsm Hw. assert (Hs : small (blob_bytes b)) by (unfold small; pose proof (zlen_nonneg args); lia).
  destruct (chosen_items _ _ _ _ _ _ _ _ (proj2 Hh) Hk2) as (A & cl & kl & Z0 & Hi & Hcl & Hkl & Hfold & Hre).
  destruct Hh as [Hok _]. rewrite (set_bootargs_scans b A cl kl Z0 cps cks max args Hok Hs Hi Hcl Hkl (Hfold _)).
  set (body := bl_struct_off b + _). assert (Hbody : body = bl_struct_off b + zlen (items_bytes (A ++ [IBegin s_chosen]))) by done.
  clearbody body. change (patched_ok b rn rps k1 cks k2 max args cps (patched b body max args cl)).
  destruct (bootargs_cases cps) as [Hnone|(p1 & old & p2 & -> & Hp2)]; [by eapply patched_new|].
  destruct (Z.le_gt_cases (zlen args + 1) (zlen old)).
  - eapply patched_kept; try done. by eapply Hw.
  - by eapply patched_moved.
Qed.

(** *** A shorter value in place *)

Lemma chosen_offset l : forall off d c, (fold_left chosen_step l (off, d, c)).1.1 = off + zlen (items_bytes l).
Proof.
  induction l as [|i l IH]; intros off d c; cbn [fold_left]; [apply Zplus_0_r_reverse|].
  rewrite items_bytes_cons, zlen_app, Z.add_assoc. unfold chosen_step at 2. set (k := zlen (item_bytes i)).
  destruct i; apply IH.
Qed.

(** A structure whose items are followed by a word that is no token. *)
Lemma walk_stops b l rest buf max args :
  blob_ok b -> buf = bl_header b ++ items_bytes l ++ be_enc 4 0 ++ rest -> zlen buf = zlen (blob_bytes b) ->
  small buf -> Forall item_ok l -> zlen (items_bytes l) < zlen (items_bytes (bl_items b)) ->
  fdt_set_bootargs max args buf = (buf, Err StructureCorrupt).
Proof.
  intros Hok Hbuf Hz Hsm Hl Hlt. pose proof Hsm as Hsm'. unfold small in Hsm'.
  destruct (blob_header b Hok) as (Hb & Hhz & Hha). destruct (blob_sizes b Hok) as (H40 & Hso & Hst & Hsz).
  pose proof (zlen_nonneg (bl_strings b)). pose proof (zlen_nonneg (struct_bytes (bl_items b))). pose proof (bo_total _ Hok).
  rewrite (set_bootargs_header (bl_total b) (bl_struct_off b) (bl_strings_off b) (bl_fixed b) (zlen (bl_strings b))
    (zlen (struct_bytes (bl_items b))) (bl_rsv b ++ items_bytes l ++ be_enc 4 0 ++ rest))
    by first [apply Hok | lia | rewrite Hbuf; unfold bl_header; by rewrite <- !app_assoc].
  unfold patch_chosen.
  unfold sbind at 1. unfold uadd, slift, add_or_panic. rewrite checked_add_ok by lia. cbn [or_panic]. unfold sbind at 1.
  assert (Hlen : (length l <= length buf)%nat).
  { destruct (items_bytes_size l) as [Hl4 _].
    assert (zlen buf = zlen (bl_header b) + zlen (items_bytes l) + 4 + zlen rest)
      by (rewrite Hbuf, !zlen_app, zlen_be_enc; lia). pose proof (zlen_nonneg rest). unfold zlen in *. lia. }
  replace (S (length buf)) with (length l + S (length buf - length l))%nat by lia.
  rewrite <- Hhz at 2. rewrite (find_chosen_items l _ _ buf (bl_header b) _ 0 None Hbuf Hl Hha) by (try done; lia).
  destruct (fold_left chosen_step l (zlen (bl_header b), 0, None)) as [[off d] ch] eqn:Hfold.
  assert (off = zlen (bl_header b) + zlen (items_bytes l)) as ->.
  { pose proof (chosen_offset l (zlen (bl_header b)) 0 None) as Ho. by rewrite Hfold in Ho. }
  cbn [find_chosen]. rewrite (proj2 (Z.ltb_lt _ _)) by lia. unfold sbind at 1.
  assert (Hbe : buf = (bl_header b ++ items_bytes l) ++ be_enc 4 0 ++ rest) by (rewrite Hbuf at 1; by rewrite <- app_assoc).
  rewrite (read_be32_in _ _ _ _ _ Hbe); [|by rewrite zlen_app|done]. done.
Qed.

(** A shorter value written over an old one that took more words is reported
    as success, but leaves a structure block that is corrupt: the words behind the
    value are no tokens, and every later walk fails on them. *)
Theorem shorter_bootargs_corrupt b rn rps k1 cks k2 p1 old p2 max args :
  holds b (with_chosen rn rps k1 cks k2 (p1 ++ (s_bootargs, old) :: p2)) ->
  Forall (fun t => tree_name t <> s_chosen) k2 -> Forall (fun p => p.1 <> s_bootargs) p2 ->
  small (blob_bytes b) -> words (zlen args + 1) < words (zlen old) ->
  exists buf', fdt_set_bootargs max args (blob_bytes b) = (buf', Ok (bl_total b)) /\
    forall max' args', fdt_set_bootargs max' args' buf' = (buf', Err StructureCorrupt).
Proof.
  intros Hh Hk2 Hp2 Hs Hw. pose proof (zlen_nonneg args). pose proof (zlen_nonneg old).
  assert (Hfits : zlen args + 1 <= zlen old) by (unfold words in Hw; Z.div_mod_to_equations; lia).
  destruct (chosen_items _ _ _ _ _ _ _ _ (proj2 Hh) Hk2) as (A & cl & kl & Z0 & Hi & Hcl & Hkl & Hfold & Hre).
  destruct Hh as [Hok _]. rewrite (set_bootargs_scans b A cl kl Z0 _ cks max args Hok Hs Hi Hcl Hkl (Hfold _)).
  set (body := bl_struct_off b + _). assert (Hbody : body = bl_struct_off b + zlen (items_bytes (A ++ [IBegin s_chosen]))) by done.
  clearbody body.
  destruct (scan_old b A cl kl Z0 body Hok Hi Hbody p1 old p2 Hcl Hp2)
    as (l1 & o & l2 & f & a & c & Hl & H1 & H2 & Hn & Hio & Hscan & Hex & Hb & Ha & _).
  rewrite Hscan. cbn [snd]. unfold patch_found. rewrite Hex, (proj2 (Z.leb_le _ _) Hfits).
  destruct (overwrite_spec (bl_total b) (blob_bytes b) a o old args c Hb Hfits) as [-> Hd]. eexists. split; [done|].
  set (new := IProp o (args ++ [0])) in *. set (k := zlen (item_bytes (IProp o old)) - zlen (item_bytes new)) in *.
  assert (Hk : 4 <= k).
  { unfold k, new. rewrite !item_prop_align, !zlen_pad, zlen_app. change (zlen [0]) with 1.
    unfold words in Hw. Z.div_mod_to_equations. lia. }
  intros max' args'. pose proof (bo_items _ Hok) as Hio'. rewrite Hi, Hl in Hio'.
  rewrite list.Forall_app, list.Forall_cons, !list.Forall_app, list.Forall_cons in Hio'.
  replace (a ++ item_bytes new ++ zeros k ++ c) with
    (bl_header b ++ items_bytes (A ++ IBegin s_chosen :: l1 ++ [new]) ++ be_enc 4 0 ++ zeros (k - 4) ++ c).
  2:{ replace k with (4 + (k - 4)) at 2 by lia. rewrite zeros_add by lia. rewrite Ha, <- !app_assoc.
      change (be_enc 4 0) with (zeros 4). f_equal. rewrite !items_bytes_app, !items_bytes_cons, items_bytes_app, item_one.
      by rewrite <- !app_assoc. }
  assert (Hz : zlen (bl_header b ++ items_bytes (A ++ IBegin s_chosen :: l1 ++ [new]) ++ be_enc 4 0 ++ zeros (k - 4) ++ c) =
    zlen (blob_bytes b)).
  { rewrite Hb, Ha. rewrite !items_bytes_app, !items_bytes_cons, items_bytes_app, item_one, !zlen_app, zlen_be_enc, zlen_zeros by lia.
    unfold k. lia. }
  eapply (walk_stops b); try done.
  - unfold small in *. by rewrite Hz.
  - rewrite list.Forall_app, list.Forall_cons, list.Forall_app, list.Forall_singleton. split_and!; try tauto.
    by apply (item_new_ok args o old).
  - rewrite Hi, Hl. cbn [app]. repeat (progress rewrite ?items_bytes_app, ?items_bytes_cons, ?zlen_app).
    pose proof (zlen_nonneg (items_bytes l2)). pose proof (zlen_nonneg (items_bytes kl)).
    pose proof (zlen_nonneg (items_bytes Z0)). pose proof (zlen_nonneg (item_bytes IEnd)). change (zlen (items_bytes [])) with 0. unfold k in Hk. lia.
Qed.
End promises.

(** A root with a [/chosen] node, whose arguments are "a" in [n] bytes. *)
Definition sample_blob (n : Z) : Blob :=
  {| bl_total := 136; bl_fixed := zeros 16; bl_rsv := zeros 16;
     bl_items := [IBegin []; IBegin s_chosen; IProp 0 (97 :: zeros (n - 1)); IEnd; IEnd];
     bl_mid := []; bl_strings := s_bootargs ++ [0]; bl_tail := zeros 120 |}.

Definition sample_props (n : Z) : list (list Z * list Z) := [(s_bootargs, 97 :: zeros (n - 1))].

Lemma sample_holds n : 1 <= n <= 8 -> holds (sample_blob n) (with_chosen [] [] [] [] [] (sample_props n)).
Proof.
  intros Hn. assert (Hname : name_at (s_bootargs ++ [0]) 0 s_bootargs).
  { split; [|by exists [], []]. apply (bool_decide_unpack _). vm_compute. exact I. }
  assert (Hz : zlen (97 :: zeros (n - 1)) = n) by (rewrite zlen_cons, zlen_zeros by lia; lia).
  split.
  - split; try done; cbn [sample_blob bl_items bl_strings bl_total].
    + repeat (apply list.Forall_cons; split); try done; cbn [item_ok]; try lia.
      * by apply not_elem_of_nil.
      * apply (bool_decide_unpack _). vm_compute. exact I.
    + assert (n = 1 \/ n = 2 \/ n = 3 \/ n = 4 \/ n = 5 \/ n = 6 \/ n = 7 \/ n = 8)
        as [-> |[-> |[-> |[-> |[-> |[-> |[-> | ->]]]]]]] by lia; vm_compute; discriminate.
    + assert (n = 1 \/ n = 2 \/ n = 3 \/ n = 4 \/ n = 5 \/ n = 6 \/ n = 7 \/ n = 8)
        as [-> |[-> |[-> |[-> |[-> |[-> |[-> | ->]]]]]]] by lia; vm_compute; discriminate.
  - cbn [sample_blob bl_items bl_strings].
    assert (Hc : flat_node (s_bootargs ++ [0]) (Node s_chosen (sample_props n) [])
      [IBegin s_chosen; IProp 0 (97 :: zeros (n - 1)); IEnd]).
    { apply (fn_node _ s_chosen (sample_props n) [] [IProp 0 (97 :: zeros (n - 1))] []).
      - apply (bool_decide_unpack _). vm_compute. exact I.
      - apply fp_prop; [exact Hname| |constructor]. split; [done|]. rewrite Hz. lia.
      - constructor. }
    apply (fk_node _ _ [] [IBegin []; IBegin s_chosen; IProp 0 (97 :: zeros (n - 1)); IEnd; IEnd] []); [|constructor].
    apply (fn_node _ [] [] [Node s_chosen (sample_props n) []] [] [IBegin s_chosen; IProp 0 (97 :: zeros (n - 1)); IEnd]).
    + by apply not_elem_of_nil.
    + constructor.
    + rewrite <- (app_nil_r [_; _; IEnd]). apply (fk_node _ _ []); [done|constructor].
Qed.

Lemma set_bootargs_sets_witness :
  holds (sample_blob 2) (with_chosen [] [] [] [] [] (sample_props 2)) /\
  exists b' cps', fdt_set_bootargs (T := target64) 180 [98; 98; 98; 98; 98] (blob_bytes (sample_blob 2)) =
      (blob_bytes b', Ok (bl_total b')) /\
    holds b' (with_chosen [] [] [] [] [] cps') /\ bootargs_set [98; 98; 98; 98; 98] (sample_props 2) cps'.
Proof.
  split; [by apply sample_holds|].
  pose proof (set_bootargs_sets (T := target64) (sample_blob 2) [] [] [] [] [] (sample_props 2) 180 [98; 98; 98; 98; 98]
    (sample_holds 2 ltac:(lia)) (Forall_nil_2 _)) as H.
  destruct (fdt_set_bootargs 180 [98; 98; 98; 98; 98] (blob_bytes (sample_blob 2))) as [buf' r] eqn:Hrun.
  assert (Hr : r = Ok (136 + 20)) by (apply (f_equal snd) in Hrun; cbn [snd] in Hrun; rewrite <- Hrun; vm_compute; reflexivity).
  rewrite Hr in H |- *. destruct H as (b' & cps' & -> & -> & Hh & Hs).
  - vm_compute. discriminate.
  - lia.
  - vm_compute. discriminate.
  - intros p1 old p2 Hp _ Hle. destruct p1 as [|p p1].
    + injection Hp as <- _. exfalso. revert Hle. vm_compute. intros Hle. by apply Hle.
    + injection Hp as _ Hp. by destruct p1.
  - by exists b', cps'.
Defined.

Lemma shorter_bootargs_corrupt_witness :
  words (zlen [98] + 1) < words 8 /\
  exists buf', fdt_set_bootargs (T := target64) 180 [98] (blob_bytes (sample_blob 8)) = (buf', Ok 136) /\
    forall max' args', fdt_set_bootargs (T := target64) max' args' buf' = (buf', Err StructureCorrupt).
Proof.
  split; [done|]. change 136 with (bl_total (sample_blob 8)).
  apply (shorter_bootargs_corrupt (sample_blob 8) [] [] [] [] [] [] (97 :: zeros (8 - 1)) [] 180 [98]).
  - by apply sample_holds.
  - constructor.
  - constructor.
  - vm_compute. discriminate.
  - done.
Defined.
