(* ===== verification/FdtMemory.v ===== *)
(** * FdtMemory: the memory node of a device tree blob
    ([fdt_set_memory] of [crates/fdt/src/lib.rs])

    The memory that the firmware found is written into the device tree that the
    payload gets: the [reg] property of an existing memory node is overwritten or
    moved, or a new node is appended to the root.  The buffer is the state, as in
    [Fdt]; the node and the properties are first built in arrays on the stack.  The
    theorem is about the trees of [FdtTree]. *)

From S2P Require Import Prelude.
From S2P Require Import Bytes.
From S2P Require Import Fdt.
From S2P Require Import FdtTree.
From S2P Require Import FdtPatch.
From Stdlib Require Import ZArith Lia.
From stdpp Require Import base numbers list option.

#[local] Open Scope Z_scope.

Definition MEMORY_NODE_MAX : Z := 128.
(** The array of [set_reg_in_existing_memory_node]. *)
Definition PROP_BUF_SIZE : Z := 64.

Definition s_memory : list Z := [0x6d; 0x65; 0x6d; 0x6f; 0x72; 0x79].
Definition s_memory_at : list Z := s_memory ++ [0x40].
Definition s_reg : list Z := [0x72; 0x65; 0x67].
Definition s_device_type : list Z := [0x64; 0x65; 0x76; 0x69; 0x63; 0x65; 0x5f; 0x74; 0x79; 0x70; 0x65].
Definition s_address_cells : list Z :=
  [0x23; 0x61; 0x64; 0x64; 0x72; 0x65; 0x73; 0x73; 0x2d; 0x63; 0x65; 0x6c; 0x6c; 0x73].
Definition s_size_cells : list Z := [0x23; 0x73; 0x69; 0x7a; 0x65; 0x2d; 0x63; 0x65; 0x6c; 0x6c; 0x73].

(** ** Scanning *)

(** What the walk over the whole structure collects. *)
Record RootScan := {
  rs_addr_cells : Z; rs_size_cells : Z; rs_memory_node_begin : option Z; rs_root_end_node : option Z
}.

Definition root_scan_init : RootScan :=
  {| rs_addr_cells := 1; rs_size_cells := 1; rs_memory_node_begin := None; rs_root_end_node := None |}.
Definition set_addr_cells (r : RootScan) (v : Z) : RootScan :=
  {| rs_addr_cells := v; rs_size_cells := rs_size_cells r; rs_memory_node_begin := rs_memory_node_begin r;
     rs_root_end_node := rs_root_end_node r |}.
Definition set_size_cells (r : RootScan) (v : Z) : RootScan :=
  {| rs_addr_cells := rs_addr_cells r; rs_size_cells := v; rs_memory_node_begin := rs_memory_node_begin r;
     rs_root_end_node := rs_root_end_node r |}.
(** Only the first memory node is kept. *)
Definition set_memory_node (r : RootScan) (off : Z) : RootScan :=
  {| rs_addr_cells := rs_addr_cells r; rs_size_cells := rs_size_cells r;
     rs_memory_node_begin := match rs_memory_node_begin r with Some o => Some o | None => Some off end;
     rs_root_end_node := rs_root_end_node r |}.
Definition set_root_end (r : RootScan) (off : Z) : RootScan :=
  {| rs_addr_cells := rs_addr_cells r; rs_size_cells := rs_size_cells r;
     rs_memory_node_begin := rs_memory_node_begin r; rs_root_end_node := Some off |}.

(** What the walk over a memory node collects. *)
Record MemoryScan := { ms_existing_reg : option (Z * Z); ms_has_device_type : bool; ms_insert_off : Z }.

Definition memory_scan_init (off : Z) : MemoryScan :=
  {| ms_existing_reg := None; ms_has_device_type := false; ms_insert_off := off |}.

Section memory.
Context {T : Target}.

Definition is_memory (name_off name_len : Z) : fdt bool :=
  if name_len =? 6 then bytes_eq name_off s_memory
  else if 7 <? name_len then bytes_eq name_off s_memory_at
  else slift (Ok false).

(** A property of the root. *)
Definition root_prop (off_strings off prop_len prop_nameoff : Z) (r : RootScan) : fdt RootScan :=
  let! name_abs := uadd off_strings prop_nameoff in
  let! is_addr := bytes_eq name_abs (s_address_cells ++ [0]) in
  if is_addr : bool then let! v := read_be32 (off + 12) in slift (Ok (set_addr_cells r v))
  else
    let! is_size := bytes_eq name_abs (s_size_cells ++ [0]) in
    if is_size : bool then let! v := read_be32 (off + 12) in slift (Ok (set_size_cells r v))
    else slift (Ok r).

Fixpoint scan_root (fuel : nat) (struct_end off_strings off depth : Z) (r : RootScan) : fdt RootScan :=
  match fuel with
  | O => slift Panic
  | S fuel =>
      if off <? struct_end then
        let! token := read_be32 off in
        if token =? FDT_BEGIN_NODE then
          let depth := depth + 1 in
          let! name_end := skip_node_name (off + 4) in
          let! memory :=
            (if depth =? 2 then is_memory (off + 4) (name_end - 1 - (off + 4)) else slift (Ok false)) in
          let r := if memory : bool then set_memory_node r off else r in
          let! off := align4 name_end in
          scan_root fuel struct_end off_strings off depth r
        else if token =? FDT_END_NODE then
          scan_root fuel struct_end off_strings (off + 4) (saturating_sub depth 1)
            (if depth =? 1 then set_root_end r off else r)
        else if token =? FDT_PROP then
          let! prop_len := read_be32 (off + 4) in
          let! prop_nameoff := read_be32 (off + 8) in
          let! r := (if (depth =? 1) && (prop_len =? 4) then root_prop off_strings off prop_len prop_nameoff r
                     else slift (Ok r)) in
          let! off := prop_end off prop_len in
          scan_root fuel struct_end off_strings off depth r
        else if token =? FDT_NOP then scan_root fuel struct_end off_strings (off + 4) depth r
        else if token =? FDT_END then slift (Ok r)
        else slift (Err StructureCorrupt)
      else slift (Ok r)
  end.

Fixpoint scan_memory (fuel : nat) (off_strings off inner_depth : Z) (m : MemoryScan) : fdt MemoryScan :=
  match fuel with
  | O => slift Panic
  | S fuel =>
      let! token := read_be32 off in
      if token =? FDT_PROP then
        if inner_depth =? 0 then
          let! prop_len := read_be32 (off + 4) in
          let! prop_nameoff := read_be32 (off + 8) in
          let! name_abs := uadd off_strings prop_nameoff in
          let! is_reg := bytes_eq name_abs (s_reg ++ [0]) in
          let! is_dt := (if is_reg : bool then slift (Ok false) else bytes_eq name_abs (s_device_type ++ [0])) in
          let! next := prop_end off prop_len in
          scan_memory fuel off_strings next inner_depth
            {| ms_existing_reg := if is_reg : bool then Some (off, prop_len) else ms_existing_reg m;
               ms_has_device_type := (is_dt : bool) || ms_has_device_type m; ms_insert_off := next |}
        else
          let! prop_len := read_be32 (off + 4) in
          let! off := prop_end off prop_len in
          scan_memory fuel off_strings off inner_depth m
      else if token =? FDT_BEGIN_NODE then
        let! name_end := skip_node_name (off + 4) in
        let! off := align4 name_end in
        scan_memory fuel off_strings off (inner_depth + 1) m
      else if token =? FDT_END_NODE then
        if inner_depth =? 0 then slift (Ok m) else scan_memory fuel off_strings (off + 4) (inner_depth - 1) m
      else if token =? FDT_NOP then scan_memory fuel off_strings (off + 4) inner_depth m
      else slift (Err StructureCorrupt)
  end.

(** ** Building *)

(** The number of bytes written. *)
Definition write_cells (off val cells : Z) : fdt Z :=
  if cells =? 2 then
    let! _ := write_be32 off (Z.shiftr val 32) in
    let! _ := write_be32 (off + 4) val in
    slift (Ok 8)
  else
    let! _ := write_be32 off val in
    slift (Ok 4).

(** The digits of [write_hex_to_buf]. *)
Definition hex_nibble (nibble : Z) : Z := if nibble <? 10 then 0x30 + nibble else 0x61 + nibble - 10.
Definition hex_count (val : Z) : nat := Z.to_nat ((Z.log2 val + 1 + 3) / 4).
Definition hex_digits (val : Z) : list Z :=
  if val =? 0 then [0x30] else
  map (fun i => hex_nibble (Z.land (Z.shiftr val ((Z.of_nat (hex_count val) - 1 - i) * 4)) 0xf))
    (seqZ 0 (Z.of_nat (hex_count val))).

(** An array of [n] bytes on the stack and what is written to it: the first bytes
    of it, up to the returned length, are the result. *)
Definition on_stack (n : Z) (build : fdt Z) : fdt (list Z) := fun buf =>
  match build (zeros n) with
  | (out, Ok p) => (buf, Ok (sub out 0 p))
  | (_, Err e) => (buf, Err e)
  | (_, Panic) => (buf, Panic)
  end.

Definition put_bytes (p : Z) (bytes : list Z) : fdt Z :=
  let! _ := write_bytes p bytes in slift (Ok (p + zlen bytes)).
Definition put_be32 (p v : Z) : fdt Z := let! _ := write_be32 p v in slift (Ok (p + 4)).

(** [while p % 4 != 0] *)
Fixpoint pad_loop (fuel : nat) (p : Z) : fdt Z :=
  match fuel with
  | O => slift Panic
  | S fuel => if p mod 4 =? 0 then slift (Ok p) else let! p := put_bytes p [0] in pad_loop fuel p
  end.

Definition put_device_type (p dt_nameoff : Z) : fdt Z :=
  let dt_value := s_memory ++ [0] in
  let! p := put_be32 p FDT_PROP in
  let! p := put_be32 p (zlen dt_value) in
  let! p := put_be32 p dt_nameoff in
  let! p := put_bytes p dt_value in
  pad_loop 4 p.

Definition put_reg (p reg_nameoff reg_value_len base size addr_cells size_cells : Z) : fdt Z :=
  let! p := put_be32 p FDT_PROP in
  let! p := put_be32 p reg_value_len in
  let! p := put_be32 p reg_nameoff in
  let! n := write_cells p base addr_cells in
  let! m := write_cells (p + n) size size_cells in
  slift (Ok (p + n + m)).

Definition build_node (base size addr_cells size_cells reg_value_len dt_nameoff reg_nameoff : Z) : fdt Z :=
  let! p := put_be32 0 FDT_BEGIN_NODE in
  let! p := put_bytes p s_memory_at in
  let! p := put_bytes p (hex_digits base) in
  let! p := put_bytes p [0] in
  let! p := align4 p in
  let! p := put_device_type p dt_nameoff in
  let! p := put_reg p reg_nameoff reg_value_len base size addr_cells size_cells in
  put_be32 p FDT_END_NODE.

Definition build_props (need_dt need_reg : bool) (base size addr_cells size_cells reg_value_len dt_nameoff reg_nameoff : Z)
  : fdt Z :=
  let! p := (if need_dt then put_device_type 0 dt_nameoff else slift (Ok 0)) in
  if need_reg then put_reg p reg_nameoff reg_value_len base size addr_cells size_cells else slift (Ok p).

(** ** Inserting *)

(** The new strings behind the old ones. *)
Definition append_strings (str_dest : Z) (add_dt add_reg : bool) : fdt unit :=
  let! str_dest :=
    (if add_dt then let! _ := write_bytes str_dest (s_device_type ++ [0]) in slift (Ok (str_dest + 12))
     else slift (Ok str_dest)) in
  if add_reg then write_bytes str_dest (s_reg ++ [0]) else slift (Ok tt).

Definition insert_block (max_size totalsize off_strings size_strings size_struct insert_off : Z) (block : list Z)
    (new_strings_len : Z) (add_dt add_reg : bool) : fdt Z :=
  let! a := uadd totalsize (zlen block) in
  let! new_totalsize := uadd a new_strings_len in
  if max_size <? new_totalsize then slift (Err BufferTooSmall)
  else
    let! tail_len := usub totalsize insert_off in
    let! _ := copy_within insert_off (insert_off + zlen block) tail_len in
    let! _ := write_bytes insert_off block in
    let! _ :=
      (if 0 <? new_strings_len then append_strings (off_strings + zlen block + size_strings) add_dt add_reg
       else slift (Ok tt)) in
    let! _ := update_header new_totalsize (size_struct + zlen block) (off_strings + zlen block)
      (size_strings + new_strings_len) in
    slift (Ok new_totalsize).

(** The [reg] property that is there: [true] when nothing is left to do. *)
Definition overwrite_reg (m : MemoryScan) (base size addr_cells size_cells reg_value_len : Z) : fdt bool :=
  match ms_existing_reg m with
  | Some (prop_off, old_len) =>
      if reg_value_len =? old_len then
        let! _ := write_be32 (prop_off + 4) reg_value_len in
        let val_start := prop_off + 12 in
        let! n := write_cells val_start base addr_cells in
        let! n' := write_cells (val_start + n) size size_cells in
        let! _ := slift (if n + n' =? old_len then Ok tt else Panic) in
        slift (Ok (ms_has_device_type m))
      else let! _ := nop_out prop_off old_len in slift (Ok false)
  | None => slift (Ok false)
  end.

Definition patch_memory (max_size totalsize off_strings size_strings size_struct base size addr_cells size_cells
    reg_value_len reg_nameoff dt_nameoff new_strings_len : Z) (m : MemoryScan) : fdt Z :=
  let! done := overwrite_reg m base size addr_cells size_cells reg_value_len in
  if done : bool then slift (Ok totalsize)
  else
    let need_reg := match ms_existing_reg m with None => true | Some (_, old) => negb (reg_value_len =? old) end in
    let need_dt := negb (ms_has_device_type m) in
    let! block := on_stack PROP_BUF_SIZE
      (build_props need_dt need_reg base size addr_cells size_cells reg_value_len dt_nameoff reg_nameoff) in
    if zlen block =? 0 then slift (Ok totalsize)
    else insert_block max_size totalsize off_strings size_strings size_struct (ms_insert_off m) block new_strings_len
           (size_strings <=? dt_nameoff) (size_strings <=? reg_nameoff).

Definition set_reg_in_existing_memory_node (max_size totalsize off_strings size_strings size_struct mem_node_start
    base size addr_cells size_cells reg_value_len reg_nameoff dt_nameoff new_strings_len : Z) : fdt Z :=
  let! name_end := skip_node_name (mem_node_start + 4) in
  let! off := align4 name_end in
  let! m := (fun buf => scan_memory (S (length buf)) off_strings off 0 (memory_scan_init off) buf) in
  patch_memory max_size totalsize off_strings size_strings size_struct base size addr_cells size_cells reg_value_len
    reg_nameoff dt_nameoff new_strings_len m.

(** ** The whole function *)

Definition cells_ok (n : Z) : bool := (n =? 1) || (n =? 2).

(** Steps 2 to 6. *)
Definition set_memory (max_size totalsize off_strings size_strings size_struct base size : Z) (r : RootScan) : fdt Z :=
  if negb (cells_ok (rs_addr_cells r)) || negb (cells_ok (rs_size_cells r)) then slift (Err UnsupportedCellSize)
  else
    let addr_cells := rs_addr_cells r in
    let size_cells := rs_size_cells r in
    let reg_value_len := (addr_cells + size_cells) * 4 in
    let! dt_nameoff := find_in_strings off_strings size_strings s_device_type in
    let! reg_nameoff := find_in_strings off_strings size_strings s_reg in
    let '(dt_nameoff_val, n) := match dt_nameoff with Some o => (o, 0) | None => (size_strings, 12) end in
    let '(reg_nameoff_val, n) := match reg_nameoff with Some o => (o, n) | None => (size_strings + n, n + 4) end in
    match rs_memory_node_begin r with
    | Some mem_start =>
        set_reg_in_existing_memory_node max_size totalsize off_strings size_strings size_struct mem_start
          base size addr_cells size_cells reg_value_len reg_nameoff_val dt_nameoff_val n
    | None =>
        let! block := on_stack MEMORY_NODE_MAX
          (build_node base size addr_cells size_cells reg_value_len dt_nameoff_val reg_nameoff_val) in
        let! insert_off := slift (ok_or (rs_root_end_node r) StructureCorrupt) in
        insert_block max_size totalsize off_strings size_strings size_struct insert_off block n
          (bool_decide (dt_nameoff = None)) (bool_decide (reg_nameoff = None))
    end.

Definition fdt_set_memory (max_size base size : Z) : fdt Z :=
  let! magic := read_be32 0 in
  if negb (magic =? FDT_MAGIC) then slift (Err BadMagic)
  else
    let! totalsize := read_be32 HDR_TOTALSIZE in
    let! off_struct := read_be32 HDR_OFF_DT_STRUCT in
    let! off_strings := read_be32 HDR_OFF_DT_STRINGS in
    let! size_strings := read_be32 HDR_SIZE_DT_STRINGS in
    let! size_struct := read_be32 HDR_SIZE_DT_STRUCT in
    let! struct_end := uadd off_struct size_struct in
    let! r := (fun buf => scan_root (S (length buf)) struct_end off_strings off_struct 0 root_scan_init buf) in
    set_memory max_size totalsize off_strings size_strings size_struct base size r.
End memory.
