(* ===== verification/FdtMemoryTree.v ===== *)
(** * FdtMemoryTree: what setting the memory does to the tree

    The walks of [FdtMemory] over a blob that holds a tree find the cell sizes of
    the root, its first memory node and the properties of that node; what is built
    on the stack are items; inserting items in the bytes is inserting them in the
    tree.  Together: [fdt_set_memory] sets the memory of the tree. *)

From S2P Require Import Prelude.
From S2P Require Import Bytes.
From S2P Require Import Fdt.
From S2P Require Import FdtTree.
From S2P Require Import FdtPatch.
From S2P Require Import FdtMemory.
From Stdlib Require Import ZArith Lia.
From stdpp Require Import base numbers list option.

#[local] Open Scope Z_scope.

(** ** Names *)

Ltac no_nul := apply (bool_decide_unpack _); vm_compute; exact I.

Lemma s_reg_nul : 0 ∉ s_reg. Proof. no_nul. Qed.
Lemma s_device_type_nul : 0 ∉ s_device_type. Proof. no_nul. Qed.
Lemma s_address_cells_nul : 0 ∉ s_address_cells. Proof. no_nul. Qed.
Lemma s_size_cells_nul : 0 ∉ s_size_cells. Proof. no_nul. Qed.

(** A child of the root with this name is a memory node. *)
Definition memory_name (name : list Z) : Prop :=
  name = s_memory \/ exists unit_address, unit_address <> [] /\ name = s_memory_at ++ unit_address.

#[export] Instance memory_name_dec name : Decision (memory_name name).
Proof.
  refine (cast_if (decide (name = s_memory \/ (7 < zlen name /\ sub name 0 7 = s_memory_at)))); unfold memory_name.
  - abstract (destruct o as [->|[Hl He]]; [by left|]; right; exists (drop 7 name); split;
      [intros Hn; apply (f_equal length) in Hn; rewrite length_drop in Hn; unfold zlen in Hl; cbn in Hn; lia|];
      rewrite <- He; unfold sub; rewrite drop_0; symmetry; apply take_drop).
  - abstract (intros [Hn|(u & Hu & Hn)]; apply n; [by left|right]; subst name;
      rewrite zlen_app; change (zlen s_memory_at) with 7; split;
      [destruct u; [done|]; rewrite zlen_cons; pose proof (zlen_nonneg u); lia|]; by apply (sub_app_exact s_memory_at)).
Defined.

(** The value of hexadecimal digits. *)
Definition hex_digit_value (d : Z) : Z := if d <? 0x3a then d - 0x30 else d - 0x61 + 10.
Definition hex_value (l : list Z) : Z := fold_left (fun v d => 16 * v + hex_digit_value d) l 0.

Lemma hex_nibble_value n : 0 <= n < 16 -> hex_digit_value (hex_nibble n) = n /\ hex_nibble n <> 0.
Proof. unfold hex_digit_value, hex_nibble. intros. case_match eqn:E; case_match; bool_hyp; lia. Qed.

Lemma hex_fold v n : 0 <= v -> forall k, (k <= n)%nat ->
  fold_left (fun v d => 16 * v + hex_digit_value d)
    (map (fun i => hex_nibble (Z.land (Z.shiftr v ((Z.of_nat n - 1 - i) * 4)) 0xf)) (seqZ 0 (Z.of_nat k))) 0 =
  Z.shiftr v ((Z.of_nat n - Z.of_nat k) * 4) mod 16 ^ Z.of_nat k.
Proof.
  intros Hv. induction k as [|k IH]; intros Hk; [by rewrite Z.mod_1_r|].
  replace (Z.of_nat (S k)) with (Z.of_nat k + 1) by lia. rewrite seqZ_app by lia. replace (seqZ (0 + Z.of_nat k) 1) with [Z.of_nat k] by (rewrite seqZ_cons by lia; by rewrite Z.add_0_l).
  rewrite map_app, fold_left_app, IH by lia. cbn [map fold_left].
  change 0xf with (Z.ones 4). rewrite Z.land_ones by lia. change (2 ^ 4) with 16.
  rewrite (proj1 (hex_nibble_value _ (Z.mod_pos_bound _ 16 ltac:(lia)))).
  rewrite !Z.shiftr_div_pow2 by lia. replace ((Z.of_nat n - 1 - Z.of_nat k) * 4) with ((Z.of_nat n - (Z.of_nat k + 1)) * 4) by lia.
  set (m := (Z.of_nat n - (Z.of_nat k + 1)) * 4). replace ((Z.of_nat n - Z.of_nat k) * 4) with (m + 4) by lia.
  rewrite Z.pow_add_r by lia. rewrite <- Z.div_div by lia. set (w := v / 2 ^ m).
  rewrite Z.pow_add_r by lia. change (16 ^ 1) with 16. rewrite (Z.mul_comm _ 16), Z.rem_mul_r by lia. change (2 ^ 4) with 16. lia.
Qed.

(** The digits are those of the number. *)
Lemma hex_digits_value v : 0 <= v <= u64_max ->
  hex_value (hex_digits v) = v /\ zlen (hex_digits v) <= 16 /\ 0 ∉ hex_digits v /\ hex_digits v <> [].
Proof.
  intros Hv. unfold hex_digits. destruct (Z.eqb_spec v 0) as [->|Hz].
  { split_and!; try done. no_nul. }
  assert (Hl : 0 <= Z.log2 v < 64) by (split; [apply Z.log2_nonneg|apply Z.log2_lt_pow2; unfold u64_max in *; lia]).
  assert (Hc : Z.of_nat (hex_count v) = (Z.log2 v + 4) / 4) by (unfold hex_count; rewrite Z2Nat.id; [f_equal; lia|apply Z.div_pos; lia]).
  assert (Hlen : zlen (map (fun i => hex_nibble (Z.land (Z.shiftr v ((Z.of_nat (hex_count v) - 1 - i) * 4)) 0xf))
    (seqZ 0 (Z.of_nat (hex_count v)))) = (Z.log2 v + 4) / 4).
  { unfold zlen. rewrite length_map, length_seqZ. rewrite Z2Nat.id; [done|]. lia. }
  split_and!.
  - unfold hex_value. rewrite (hex_fold v (hex_count v)) by lia. rewrite Z.sub_diag. change (Z.shiftr v (0 * 4)) with v.
    apply Z.mod_small. split; [lia|]. rewrite Hc. change 16 with (2 ^ 4). rewrite <- Z.pow_mul_r by (try apply Z.div_pos; lia).
    eapply Z.lt_le_trans; [apply Z.log2_spec; lia|]. apply Z.pow_le_mono_r; [lia|]. Z.div_mod_to_equations. lia.
  - rewrite Hlen. Z.div_mod_to_equations. lia.
  - rewrite list_elem_of_fmap. intros (i & Hi & _). symmetry in Hi. revert Hi. apply hex_nibble_value.
    change 0xf with (Z.ones 4). rewrite Z.land_ones by lia. apply Z.mod_pos_bound. done.
  - intros He. rewrite He in Hlen. change (zlen []) with 0 in Hlen. Z.div_mod_to_equations. lia.
Qed.

(** ** The walk over the structure *)

(** A four-byte property of the root. *)
Definition root_prop_step (strings : list Z) (o : Z) (v : list Z) (r : RootScan) : RootScan :=
  if zlen v =? 4 then
    if named strings o s_address_cells then set_addr_cells r (be_dec v)
    else if named strings o s_size_cells then set_size_cells r (be_dec v) else r
  else r.

(** The state of [scan_root] behind an item. *)
Definition root_step (strings : list Z) (s : Z * Z * RootScan) (i : item) : Z * Z * RootScan :=
  let '(off, depth, r) := s in
  let next := off + zlen (item_bytes i) in
  match i with
  | IBegin name => (next, depth + 1, if (depth + 1 =? 2) && bool_decide (memory_name name) then set_memory_node r off else r)
  | IEnd => (next, saturating_sub depth 1, if depth =? 1 then set_root_end r off else r)
  | IProp o v => (next, depth, if depth =? 1 then root_prop_step strings o v r else r)
  | INop => (next, depth, r)
  end.

(** The state of [scan_memory] behind an item. *)
Definition memory_step (strings : list Z) (s : Z * Z * MemoryScan) (i : item) : Z * Z * MemoryScan :=
  let '(off, depth, m) := s in
  let next := off + zlen (item_bytes i) in
  match i with
  | IBegin _ => (next, depth + 1, m)
  | IEnd => (next, depth - 1, m)
  | INop => (next, depth, m)
  | IProp o v =>
      (next, depth,
       if depth =? 0 then
         {| ms_existing_reg := if named strings o s_reg then Some (off, zlen v) else ms_existing_reg m;
            ms_has_device_type := (negb (named strings o s_reg) && named strings o s_device_type) || ms_has_device_type m;
            ms_insert_off := next |}
       else m)
  end.

Section walks.
Context {T : Target}.

(** The head of a property in the buffer. *)
Lemma read_prop buf pre o v post :
  buf = pre ++ item_bytes (IProp o v) ++ post -> item_ok (IProp o v) -> zlen pre mod 4 = 0 -> small buf ->
  read_be32 (zlen pre) buf = (buf, Ok FDT_PROP) /\ read_be32 (zlen pre + 4) buf = (buf, Ok (zlen v)) /\
  read_be32 (zlen pre + 8) buf = (buf, Ok o) /\
  (zlen v = 4 -> read_be32 (zlen pre + 12) buf = (buf, Ok (be_dec v))) /\
  prop_end (zlen pre) (zlen v) buf = (buf, Ok (zlen pre + zlen (item_bytes (IProp o v)))).
Proof.
  intros Hb [Ho Hv] Ha Hs. pose proof (zlen_nonneg v). pose proof (zlen_nonneg pre). pose proof (zlen_nonneg post).
  assert (Hz : zlen buf = zlen pre + zlen (item_bytes (IProp o v)) + zlen post) by (rewrite Hb, !zlen_app; lia).
  cbn [item_bytes] in Hb, Hz. rewrite <- !app_assoc in Hb. rewrite !zlen_app, !zlen_be_enc, zlen_pad in Hz.
  pose proof (Z.mod_pos_bound (- zlen v) 4 ltac:(lia)). unfold small in Hs.
  assert (HB1 : buf = (pre ++ be_enc 4 FDT_PROP) ++ be_enc 4 (zlen v) ++ be_enc 4 o ++ v ++ pad (zlen v) ++ post)
    by (rewrite Hb, <- !app_assoc; done).
  assert (HB2 : buf = (pre ++ be_enc 4 FDT_PROP ++ be_enc 4 (zlen v)) ++ be_enc 4 o ++ v ++ pad (zlen v) ++ post)
    by (rewrite Hb, <- !app_assoc; done).
  assert (HB3 : buf = (pre ++ be_enc 4 FDT_PROP ++ be_enc 4 (zlen v) ++ be_enc 4 o) ++ v ++ pad (zlen v) ++ post)
    by (rewrite Hb, <- !app_assoc; done).
  split_and!.
  - by rewrite (read_be32_in _ pre FDT_PROP _ _ Hb).
  - rewrite (read_be32_in _ _ _ _ _ HB1); [done|rewrite zlen_app, zlen_be_enc; lia|lia].
  - rewrite (read_be32_in _ _ _ _ _ HB2); [done|rewrite !zlen_app, !zlen_be_enc; lia|lia].
  - intros H4. unfold read_be32. do 2 f_equal. rewrite (proj2 (get_range_Some _ _ _ v)); [done|].
    split_and!; [lia..|]. rewrite HB3 at 1. replace (zlen pre + 12 + 4 - (zlen pre + 12)) with (zlen v) by lia.
    assert (Hp : zlen (pre ++ be_enc 4 FDT_PROP ++ be_enc 4 (zlen v) ++ be_enc 4 o) = zlen pre + 12)
      by (rewrite !zlen_app, !zlen_be_enc; lia).
    rewrite <- Hp, sub_app_r, Z.sub_diag by lia. symmetry. by apply sub_app_exact.
  - rewrite prop_end_ok by lia. do 2 f_equal. cbn [item_bytes]. rewrite !zlen_app, !zlen_be_enc. lia.
Qed.

(** The head of a node in the buffer. *)
Lemma read_begin buf pre name post :
  buf = pre ++ item_bytes (IBegin name) ++ post -> 0 ∉ name -> zlen pre mod 4 = 0 -> small buf ->
  read_be32 (zlen pre) buf = (buf, Ok FDT_BEGIN_NODE) /\
  skip_node_name (zlen pre + 4) buf = (buf, Ok (zlen pre + 4 + zlen name + 1)) /\
  align4 (zlen pre + 4 + zlen name + 1) buf = (buf, Ok (zlen pre + zlen (item_bytes (IBegin name)))) /\
  zlen pre + 4 + zlen name <= zlen buf /\ sub buf (zlen pre + 4) (zlen name) = name.
Proof.
  intros Hb Hok Ha Hs. pose proof (zlen_nonneg name). pose proof (zlen_nonneg pre). pose proof (zlen_nonneg post).
  assert (Hz : zlen buf = zlen pre + zlen (item_bytes (IBegin name)) + zlen post) by (rewrite Hb, !zlen_app; lia).
  cbn [item_bytes] in Hb, Hz. rewrite <- !app_assoc in Hb. rewrite !zlen_app, zlen_cons, zlen_be_enc, zlen_pad in Hz.
  pose proof (Z.mod_pos_bound (- (zlen name + 1)) 4 ltac:(lia)). unfold small in Hs.
  assert (Hb' : buf = (pre ++ be_enc 4 FDT_BEGIN_NODE) ++ name ++ 0 :: pad (zlen name + 1) ++ post)
    by (rewrite Hb, <- !app_assoc; done).
  assert (Hoff : zlen pre + 4 = zlen (pre ++ be_enc 4 FDT_BEGIN_NODE)) by (rewrite zlen_app, zlen_be_enc; lia).
  split_and!.
  - by rewrite (read_be32_in _ pre FDT_BEGIN_NODE _ _ Hb).
  - rewrite (skip_node_name_at _ _ _ _ _ Hb' Hoff Hok) by lia. do 2 f_equal. lia.
  - rewrite align4_ok by lia. do 2 f_equal. cbn [item_bytes]. rewrite !zlen_app, zlen_cons, zlen_be_enc.
    replace (zlen pre + 4 + zlen name + 1) with (zlen pre + 4 + (zlen name + 1)) by lia.
    rewrite pad_aligned by (rewrite <- Zplus_mod_idemp_l, Ha; done). lia.
  - lia.
  - rewrite Hoff, Hb' at 1. rewrite sub_app_r, Z.sub_diag by lia. by apply sub_app_exact.
Qed.

(** The comparison with the names of memory nodes. *)
Lemma is_memory_spec buf off name :
  0 <= off -> off + zlen name <= zlen buf -> sub buf off (zlen name) = name ->
  is_memory off (zlen name) buf = (buf, Ok (bool_decide (memory_name name))).
Proof.
  intros H0 Hl Hn. unfold is_memory. pose proof (zlen_nonneg name).
  assert (Hat : forall u, zlen (s_memory_at ++ u) = 7 + zlen u) by (intros u; by rewrite zlen_app).
  destruct (Z.eqb_spec (zlen name) 6) as [H6|H6].
  - rewrite bytes_eq_range by (change (zlen s_memory) with 6; lia). change (zlen s_memory) with 6. rewrite <- H6, Hn.
    do 2 f_equal. apply bool_decide_ext. unfold memory_name. split; [by left|]. intros [?|(u & Hu & ->)]; [done|].
    rewrite Hat in H6. pose proof (zlen_nonneg u). lia.
  - destruct (Z.ltb_spec 7 (zlen name)) as [H7|H7].
    + rewrite bytes_eq_range by (change (zlen s_memory_at) with 7; lia). change (zlen s_memory_at) with 7.
      assert (Hp : sub buf off 7 = sub name 0 7) by (rewrite <- Hn, sub_sub by lia; f_equal; lia).
      rewrite Hp. do 2 f_equal. apply bool_decide_ext. unfold memory_name. split.
      * intros He. right. exists (drop 7 name). split.
        { intros Hd. apply (f_equal length) in Hd. rewrite length_drop in Hd. unfold zlen in H7. cbn in Hd. lia. }
        rewrite <- He. unfold sub. rewrite drop_0. symmetry. apply take_drop.
      * intros [->|(u & Hu & ->)]; [done|]. by apply (sub_app_exact s_memory_at).
    + unfold slift. do 2 f_equal. symmetry. apply bool_decide_false. intros [->|(u & Hu & ->)]; [done|].
      rewrite Hat in H7. destruct u; [done|]. rewrite zlen_cons in H7. pose proof (zlen_nonneg u). lia.
Qed.

(** The offset of a name of the strings can be computed. *)
Lemma name_abs_ok buf off strings o nm :
  strings_in buf off strings -> name_at strings o nm -> small buf -> uadd off o buf = (buf, Ok (off + o)).
Proof.
  intros (a & c & Hb & <-) (_ & a' & b' & -> & <-) Hs. unfold small in Hs. rewrite Hb, !zlen_app in Hs.
  pose proof (zlen_nonneg nm). pose proof (zlen_nonneg c). pose proof (zlen_nonneg (0 :: b')).
  unfold uadd, slift, add_or_panic. by rewrite checked_add_ok by lia.
Qed.

Lemma root_prop_spec buf off_strings strings pre o v post r :
  buf = pre ++ item_bytes (IProp o v) ++ post -> item_ok (IProp o v) -> item_named strings (IProp o v) ->
  zlen pre mod 4 = 0 -> small buf -> strings_in buf off_strings strings -> zlen v = 4 ->
  root_prop off_strings (zlen pre) (zlen v) o r buf = (buf, Ok (root_prop_step strings o v r)).
Proof.
  intros Hb Hok [nm Hnm] Ha Hs Hstr H4. destruct (read_prop _ _ _ _ _ Hb Hok Ha Hs) as (_ & _ & _ & Hr & _).
  specialize (Hr H4). unfold root_prop, root_prop_step. rewrite (proj2 (Z.eqb_eq _ _) H4).
  unfold sbind at 1. rewrite (name_abs_ok _ _ _ _ _ Hstr Hnm Hs). unfold sbind at 1.
  rewrite (bytes_eq_name _ _ _ _ _ _ Hstr Hnm s_address_cells_nul), (name_at_named _ _ _ _ Hnm s_address_cells_nul).
  destruct (bool_decide _); [unfold sbind; by rewrite Hr|]. unfold sbind at 1.
  rewrite (bytes_eq_name _ _ _ _ _ _ Hstr Hnm s_size_cells_nul), (name_at_named _ _ _ _ Hnm s_size_cells_nul).
  destruct (bool_decide _); [unfold sbind; by rewrite Hr|done].
Qed.

Lemma scan_root_item fuel struct_end off_strings strings i buf pre post depth r :
  buf = pre ++ item_bytes i ++ post -> item_ok i -> item_named strings i -> zlen pre mod 4 = 0 ->
  zlen pre < struct_end -> small buf -> strings_in buf off_strings strings ->
  scan_root (S fuel) struct_end off_strings (zlen pre) depth r buf =
    let '(off, depth, r) := root_step strings (zlen pre, depth, r) i in
    scan_root fuel struct_end off_strings off depth r buf.
Proof.
  intros Hb Hok Hnm Ha He Hs Hstr. cbn [scan_root]. rewrite (proj2 (Z.ltb_lt _ _) He).
  destruct i as [name| |o v|]; cbn [root_step].
  - destruct (read_begin _ _ _ _ Hb Hok Ha Hs) as (Hr & Hskip & Hal & Hle & Hsub).
    unfold sbind at 1. rewrite Hr. change (FDT_BEGIN_NODE =? FDT_BEGIN_NODE) with true. cbn iota.
    unfold sbind at 1. rewrite Hskip. unfold sbind at 1.
    match goal with |- context [?f buf] => match f with if depth + 1 =? 2 then _ else _ => set (m := f) end end.
    assert (Hm : m buf = (buf, Ok ((depth + 1 =? 2) && bool_decide (memory_name name)))).
    { unfold m. destruct (depth + 1 =? 2); [|done]. replace (zlen pre + 4 + zlen name + 1 - 1 - (zlen pre + 4)) with (zlen name) by lia.
      pose proof (zlen_nonneg pre). apply is_memory_spec; [lia|done|done]. }
    rewrite Hm. unfold sbind at 1. by rewrite Hal.
  - cbn [item_bytes] in Hb. unfold sbind at 1. rewrite (read_be32_in _ pre FDT_END_NODE _ _ Hb) by done. done.
  - destruct (read_prop _ _ _ _ _ Hb Hok Ha Hs) as (Hr & Hr4 & Hr8 & _ & Hend).
    unfold sbind at 1. rewrite Hr. change (FDT_PROP =? FDT_BEGIN_NODE) with false. change (FDT_PROP =? FDT_END_NODE) with false.
    change (FDT_PROP =? FDT_PROP) with true. cbn iota. unfold sbind at 1. rewrite Hr4. unfold sbind at 1. rewrite Hr8.
    unfold sbind at 1.
    match goal with |- context [?f buf] => match f with if (depth =? 1) && _ then _ else _ => set (m := f) end end.
    assert (Hm : m buf = (buf, Ok (if depth =? 1 then root_prop_step strings o v r else r))).
    { unfold m. destruct (depth =? 1); cbn [andb]; [|done]. destruct (Z.eqb_spec (zlen v) 4) as [H4|H4].
      - by eapply root_prop_spec.
      - unfold slift, root_prop_step. by rewrite (proj2 (Z.eqb_neq _ _) H4). }
    rewrite Hm. unfold sbind at 1. by rewrite Hend.
  - cbn [item_bytes] in Hb. unfold sbind at 1. rewrite (read_be32_in _ pre FDT_NOP _ _ Hb) by done. done.
Qed.

Lemma root_step_next strings off depth r i : (root_step strings (off, depth, r) i).1.1 = off + zlen (item_bytes i).
Proof. by destruct i. Qed.

Lemma scan_root_items off_strings strings l : forall fuel struct_end buf pre post depth r,
  buf = pre ++ items_bytes l ++ post -> Forall (good_item strings) l -> zlen pre mod 4 = 0 ->
  zlen pre + zlen (items_bytes l) <= struct_end -> small buf -> strings_in buf off_strings strings ->
  scan_root (length l + fuel) struct_end off_strings (zlen pre) depth r buf =
    let '(off, depth, r) := fold_left (root_step strings) l (zlen pre, depth, r) in
    scan_root fuel struct_end off_strings off depth r buf.
Proof.
  induction l as [|i l IH]; intros fuel struct_end buf pre post depth r Hb Hok Ha He Hs Hstr; [done|].
  apply list.Forall_cons in Hok as [[Hi Hni] Hok]. rewrite items_bytes_cons, zlen_app in He.
  rewrite items_bytes_cons, <- app_assoc in Hb. destruct (item_bytes_size i) as [Hi4 Him].
  pose proof (items_bytes_size l) as [Hl _]. cbn [length plus].
  rewrite (scan_root_item _ _ _ strings i buf pre (items_bytes l ++ post)) by (done || lia). cbn [fold_left].
  pose proof (root_step_next strings (zlen pre) depth r i) as Hn.
  destruct (root_step strings (zlen pre, depth, r) i) as [[off d'] r']. cbn [fst] in Hn. subst off.
  rewrite <- zlen_app. apply (IH fuel struct_end buf (pre ++ item_bytes i) post); rewrite ?zlen_app; try done.
  - by rewrite <- app_assoc.
  - by rewrite Zplus_mod, Ha, Him.
  - lia.
Qed.

Lemma scan_memory_item fuel off_strings strings i buf pre post depth m :
  buf = pre ++ item_bytes i ++ post -> item_ok i -> item_named strings i -> zlen pre mod 4 = 0 -> small buf ->
  strings_in buf off_strings strings -> (i = IEnd -> depth <> 0) ->
  scan_memory (S fuel) off_strings (zlen pre) depth m buf =
    let '(off, depth, m) := memory_step strings (zlen pre, depth, m) i in
    scan_memory fuel off_strings off depth m buf.
Proof.
  intros Hb Hok Hnm Ha Hs Hstr He. cbn [scan_memory]. destruct i as [name| |o v|]; cbn [memory_step].
  - destruct (read_begin _ _ _ _ Hb Hok Ha Hs) as (Hr & Hskip & Hal & _).
    unfold sbind at 1. rewrite Hr. change (FDT_BEGIN_NODE =? FDT_PROP) with false.
    change (FDT_BEGIN_NODE =? FDT_BEGIN_NODE) with true. cbn iota.
    unfold sbind at 1. rewrite Hskip. unfold sbind at 1. by rewrite Hal.
  - cbn [item_bytes] in Hb. unfold sbind at 1. rewrite (read_be32_in _ pre FDT_END_NODE _ _ Hb) by done.
    change (FDT_END_NODE =? FDT_PROP) with false. change (FDT_END_NODE =? FDT_BEGIN_NODE) with false.
    change (FDT_END_NODE =? FDT_END_NODE) with true. cbn iota. by rewrite (proj2 (Z.eqb_neq _ _) (He eq_refl)).
  - destruct (read_prop _ _ _ _ _ Hb Hok Ha Hs) as (Hr & Hr4 & Hr8 & _ & Hend). destruct Hnm as [nm Hnm].
    unfold sbind at 1. rewrite Hr. change (FDT_PROP =? FDT_PROP) with true. cbn iota. destruct (depth =? 0).
    + unfold sbind at 1. rewrite Hr4. unfold sbind at 1. rewrite Hr8. unfold sbind at 1.
      rewrite (name_abs_ok _ _ _ _ _ Hstr Hnm Hs). unfold sbind at 1.
      rewrite (bytes_eq_name _ _ _ _ _ _ Hstr Hnm s_reg_nul), (name_at_named _ _ _ _ Hnm s_reg_nul). unfold sbind at 1.
      rewrite (name_at_named _ _ _ _ Hnm s_device_type_nul). destruct (bool_decide (nm = s_reg)).
      * unfold slift. unfold sbind at 1. by rewrite Hend.
      * rewrite (bytes_eq_name _ _ _ _ _ _ Hstr Hnm s_device_type_nul). unfold sbind at 1. by rewrite Hend.
    + unfold sbind at 1. rewrite Hr4. unfold sbind at 1. by rewrite Hend.
  - cbn [item_bytes] in Hb. unfold sbind at 1. rewrite (read_be32_in _ pre FDT_NOP _ _ Hb) by done. done.
Qed.

Lemma memory_step_next strings off depth m i :
  (memory_step strings (off, depth, m) i).1 =
    (off + zlen (item_bytes i), match i with IBegin _ => depth + 1 | IEnd => depth - 1 | _ => depth end).
Proof. by destruct i. Qed.

Lemma scan_memory_items off_strings strings l : forall fuel buf pre post depth m,
  buf = pre ++ items_bytes l ++ post -> Forall (good_item strings) l -> zlen pre mod 4 = 0 -> small buf ->
  strings_in buf off_strings strings -> inside l depth ->
  scan_memory (length l + fuel) off_strings (zlen pre) depth m buf =
    let '(off, depth, m) := fold_left (memory_step strings) l (zlen pre, depth, m) in
    scan_memory fuel off_strings off depth m buf.
Proof.
  induction l as [|i l IH]; intros fuel buf pre post depth m Hb Hok Ha Hs Hstr Hin; [done|].
  apply list.Forall_cons in Hok as [[Hi Hni] Hok]. rewrite items_bytes_cons, <- app_assoc in Hb.
  destruct (item_bytes_size i) as [Hi4 Him]. cbn [length plus].
  rewrite (scan_memory_item _ _ strings i buf pre (items_bytes l ++ post)); try done.
  2:{ intros ->. apply Hin. }
  cbn [fold_left]. pose proof (memory_step_next strings (zlen pre) depth m i) as Hn.
  destruct (memory_step strings (zlen pre, depth, m) i) as [[off d'] m']. cbn [fst] in Hn. injection Hn as -> ->.
  rewrite <- zlen_app. apply (IH fuel buf (pre ++ item_bytes i) post); rewrite ?zlen_app; try done.
  - by rewrite <- app_assoc.
  - by rewrite Zplus_mod, Ha, Him.
  - destruct i; cbn [inside] in Hin; tauto.
Qed.
End walks.

(** ** The walks over a tree *)

(** A cell count of the root: the last four-byte property of that name, else 1. *)
Definition root_cells (which : list Z) (ps : list (list Z * list Z)) : Z :=
  fold_left (fun c p => if bool_decide (p.1 = which) && (zlen p.2 =? 4) then be_dec p.2 else c) ps 1.

Section flat.
Context (strings : list Z).

Definition props_scan (ps : list (list Z * list Z)) (r : RootScan) : RootScan :=
  fold_left (fun r p =>
    if zlen p.2 =? 4 then
      if bool_decide (p.1 = s_address_cells) then set_addr_cells r (be_dec p.2)
      else if bool_decide (p.1 = s_size_cells) then set_size_cells r (be_dec p.2) else r
    else r) ps r.

Lemma props_scan_cells ps : forall r, props_scan ps r =
  {| rs_addr_cells := fold_left (fun c p => if bool_decide (p.1 = s_address_cells) && (zlen p.2 =? 4) then be_dec p.2 else c)
       ps (rs_addr_cells r);
     rs_size_cells := fold_left (fun c p => if bool_decide (p.1 = s_size_cells) && (zlen p.2 =? 4) then be_dec p.2 else c)
       ps (rs_size_cells r);
     rs_memory_node_begin := rs_memory_node_begin r; rs_root_end_node := rs_root_end_node r |}.
Proof.
  induction ps as [|[n v] ps IH]; intros r; [by destruct r|]. unfold props_scan. cbn [fold_left fst snd].
  rewrite (IH _). destruct (zlen v =? 4); [|by rewrite !andb_false_r]. rewrite !andb_true_r.
  destruct (bool_decide_reflect (n = s_address_cells)) as [->|Hn]; [by rewrite bool_decide_false|].
  by destruct (bool_decide (n = s_size_cells)).
Qed.

Lemma root_props ps l off r :
  flat_props strings ps l -> fold_left (root_step strings) l (off, 1, r) = (off + zlen (items_bytes l), 1, props_scan ps r).
Proof.
  intros Hf. revert off r. induction Hf as [|ps l Hf IH|name value o ps l Hn Hi Hf IH]; intros off r; cbn [fold_left root_step].
  - change (items_bytes []) with (@nil Z). change (zlen []) with 0. by rewrite Z.add_0_r.
  - rewrite IH, items_bytes_cons, zlen_app. by rewrite Z.add_assoc.
  - change (1 =? 1) with true. cbn iota. rewrite IH, items_bytes_cons, zlen_app, Z.add_assoc.
    unfold props_scan, root_prop_step. cbn [fold_left fst snd].
    by rewrite (name_at_named _ _ _ _ Hn s_address_cells_nul), (name_at_named _ _ _ _ Hn s_size_cells_nul).
Qed.

Lemma root_props_deep ps l off depth r : 2 <= depth ->
  flat_props strings ps l -> fold_left (root_step strings) l (off, depth, r) = (off + zlen (items_bytes l), depth, r).
Proof.
  intros Hd Hf. revert off. induction Hf as [|ps l Hf IH|name value o ps l Hn Hi Hf IH]; intros off; cbn [fold_left root_step].
  - change (items_bytes []) with (@nil Z). change (zlen []) with 0. by rewrite Z.add_0_r.
  - rewrite IH, items_bytes_cons, zlen_app. by rewrite Z.add_assoc.
  - rewrite (proj2 (Z.eqb_neq depth 1)) by lia. rewrite IH, items_bytes_cons, zlen_app. by rewrite Z.add_assoc.
Qed.

(** Below the children of the root nothing is collected. *)
Lemma root_deep :
  (forall t l, flat_node strings t l -> forall off depth r, 2 <= depth ->
     fold_left (root_step strings) l (off, depth, r) = (off + zlen (items_bytes l), depth, r)) /\
  (forall ts l, flat_kids strings ts l -> forall off depth r, 2 <= depth ->
     fold_left (root_step strings) l (off, depth, r) = (off + zlen (items_bytes l), depth, r)).
Proof.
  apply flat_ind.
  - intros name ps ks pl kl Hn Hp Hk IH off depth r Hd. cbn [fold_left root_step].
    rewrite (proj2 (Z.eqb_neq (depth + 1) 2)) by lia. cbn [andb].
    rewrite !fold_left_app, (root_props_deep ps pl) by (done || lia). rewrite IH by lia. cbn [fold_left root_step].
    rewrite (proj2 (Z.eqb_neq (depth + 1) 1)) by lia.
    rewrite items_bytes_cons, !items_bytes_app, !zlen_app. unfold saturating_sub. change (items_bytes [IEnd]) with (item_bytes IEnd).
    do 2 f_equal; lia.
  - intros off depth r _. cbn [fold_left]. change (items_bytes []) with (@nil Z). change (zlen []) with 0. by rewrite Z.add_0_r.
  - intros ks l Hk IH off depth r Hd. cbn [fold_left root_step].
    rewrite IH, items_bytes_cons, zlen_app by done. by rewrite Z.add_assoc.
  - intros k ks kl l Hk IHk Hks IHks off depth r Hd. rewrite fold_left_app, IHk, IHks by done.
    rewrite items_bytes_app, zlen_app. by rewrite Z.add_assoc.
Qed.

Lemma root_kid t l off r : flat_node strings t l ->
  fold_left (root_step strings) l (off, 1, r) =
    (off + zlen (items_bytes l), 1, if bool_decide (memory_name (tree_name t)) then set_memory_node r off else r).
Proof.
  intros Hf. destruct Hf as [name ps ks pl kl Hn Hp Hk]. cbn [fold_left root_step tree_name].
  change (1 + 1 =? 2) with true. change (1 + 1) with 2. cbn [andb].
  rewrite !fold_left_app, (root_props_deep ps pl) by done. rewrite (proj2 root_deep _ _ Hk) by done. cbn [fold_left root_step].
  change (2 =? 1) with false. rewrite items_bytes_cons, !items_bytes_app, !zlen_app. change (items_bytes [IEnd]) with (item_bytes IEnd).
  change (saturating_sub 2 1) with 1. do 2 f_equal. lia.
Qed.

(** Children that are no memory nodes, and any children once one is found. *)
Lemma root_kids ts l : flat_kids strings ts l -> forall off r,
  Forall (fun t => ~ memory_name (tree_name t)) ts \/ rs_memory_node_begin r <> None ->
  fold_left (root_step strings) l (off, 1, r) = (off + zlen (items_bytes l), 1, r).
Proof.
  induction 1 as [|ks l Hk IH|k ks kl l Hk Hks IH]; intros off r Hts.
  - cbn [fold_left]. change (items_bytes []) with (@nil Z). change (zlen []) with 0. by rewrite Z.add_0_r.
  - cbn [fold_left root_step]. rewrite IH, items_bytes_cons, zlen_app by done. by rewrite Z.add_assoc.
  - assert (Hr : (if bool_decide (memory_name (tree_name k)) then set_memory_node r off else r) = r).
    { destruct Hts as [Hts|Hr].
      - apply list.Forall_cons in Hts as [Ht _]. by rewrite bool_decide_false.
      - destruct (bool_decide _); [|done]. unfold set_memory_node. by destruct r as [? ? [?|] ?]. }
    rewrite fold_left_app, (root_kid _ _ _ _ Hk), Hr, IH.
    + rewrite items_bytes_app, zlen_app. by rewrite Z.add_assoc.
    + destruct Hts as [Hts|?]; [left|by right]. by apply list.Forall_cons in Hts as [_ ?].
Qed.

Lemma root_nops n : flat_kids strings [] n -> forall off r,
  fold_left (root_step strings) n (off, 0, r) = (off + zlen (items_bytes n), 0, r).
Proof.
  intros Hn. remember [] as ks eqn:He. induction Hn as [|ks l Hn IH|]; intros off r; [| |done].
  - cbn [fold_left]. change (items_bytes []) with (@nil Z). change (zlen []) with 0. by rewrite Z.add_0_r.
  - cbn [fold_left root_step]. rewrite IH, items_bytes_cons, zlen_app by done. by rewrite Z.add_assoc.
Qed.

(** The items of a blob that holds one tree. *)
Record root_items (rn : list Z) (rps : list (list Z * list Z)) (kids : list tree) (n1 pl kl n2 : list item) : Prop := {
  ri_name : 0 ∉ rn; ri_before : flat_kids strings [] n1; ri_props : flat_props strings rps pl;
  ri_kids : flat_kids strings kids kl; ri_after : flat_kids strings [] n2
}.

Lemma tree_items rn rps kids l : flat_kids strings [Node rn rps kids] l ->
  exists n1 pl kl n2, l = n1 ++ IBegin rn :: pl ++ kl ++ IEnd :: n2 /\ root_items rn rps kids n1 pl kl n2.
Proof.
  intros Hf. apply (flat_kids_split strings []) in Hf as (n1 & rl & n2 & -> & Hn1 & Hr & Hn2).
  inversion Hr as [? ? ? pl kl Hrn Hpl Hkl]; subst. exists n1, pl, kl, n2. split; [|by constructor].
  cbn [app]. by rewrite <- !app_assoc.
Qed.

(** The state behind the root. *)
Lemma root_scanned rn rps kids n1 pl kl n2 off r1 :
  root_items rn rps kids n1 pl kl n2 ->
  fold_left (root_step strings) kl (off + zlen (items_bytes (n1 ++ IBegin rn :: pl)), 1, props_scan rps root_scan_init) =
    (off + zlen (items_bytes (n1 ++ IBegin rn :: pl ++ kl)), 1, r1) ->
  fold_left (root_step strings) (n1 ++ IBegin rn :: pl ++ kl ++ IEnd :: n2) (off, 0, root_scan_init) =
    (off + zlen (items_bytes (n1 ++ IBegin rn :: pl ++ kl ++ IEnd :: n2)), 0,
     set_root_end r1 (off + zlen (items_bytes (n1 ++ IBegin rn :: pl ++ kl)))).
Proof.
  intros [Hn H1 Hp Hk H2] Hkl.
  repeat (rewrite ?items_bytes_app, ?items_bytes_cons, ?zlen_app in Hkl |- *).
  rewrite fold_left_app, (root_nops _ H1). cbn [fold_left root_step]. change (0 + 1 =? 2) with false. cbn [andb]. change (0 + 1) with 1.
  rewrite fold_left_app, (root_props _ _ _ _ Hp), fold_left_app.
  replace (off + zlen (items_bytes n1) + zlen (item_bytes (IBegin rn)) + zlen (items_bytes pl)) with
    (off + (zlen (items_bytes n1) + (zlen (item_bytes (IBegin rn)) + zlen (items_bytes pl)))) by lia.
  rewrite Hkl. cbn [fold_left root_step]. change (1 =? 1) with true. cbn iota. change (saturating_sub 1 1) with 0.
  rewrite (root_nops _ H2). repeat (rewrite ?items_bytes_app, ?items_bytes_cons, ?zlen_app).
  do 2 f_equal. lia.
Qed.
End flat.

Lemma tree_of_items s e rn rps kids kids' n1 pl kl kl' n2 :
  root_items s rn rps kids n1 pl kl n2 -> flat_kids (s ++ e) kids' kl' ->
  flat_kids (s ++ e) [Node rn rps kids'] (n1 ++ IBegin rn :: pl ++ kl' ++ IEnd :: n2).
Proof.
  intros [Hn H1 Hp Hk H2] Hkl. destruct (flat_ext s e) as [_ Hek].
  replace (n1 ++ IBegin rn :: pl ++ kl' ++ IEnd :: n2) with (n1 ++ (IBegin rn :: pl ++ kl' ++ [IEnd]) ++ n2)
    by (cbn [app]; by rewrite <- !app_assoc).
  apply (flat_kids_app _ []); [auto|]. constructor; [|auto]. constructor; [done|by apply flat_props_ext|done].
Qed.

(** ** The properties of the memory node *)

Definition has_device_type (ps : list (list Z * list Z)) : bool := existsb (fun p => bool_decide (p.1 = s_device_type)) ps.
Definition no_reg (ps : list (list Z * list Z)) : Prop := Forall (fun p => p.1 <> s_reg) ps.

Section node.
Context (strings : list Z).

(** The last [reg] among the properties and its place in the items. *)
Definition reg_found (ps : list (list Z * list Z)) (ci : list item) (off : Z) (before : option (Z * Z)) (found : option (Z * Z)) : Prop :=
  (no_reg ps /\ found = before) \/
  exists p1 old p2 l1 o l2, ps = p1 ++ (s_reg, old) :: p2 /\ no_reg p2 /\ ci = l1 ++ IProp o old :: l2 /\
    flat_props strings p1 l1 /\ flat_props strings p2 l2 /\ name_at strings o s_reg /\ item_ok (IProp o old) /\
    found = Some (off + zlen (items_bytes l1), zlen old).

Lemma reg_found_cons name value o ps ci off before f :
  name_at strings o name -> item_ok (IProp o value) -> flat_props strings ps ci ->
  reg_found ps ci (off + zlen (item_bytes (IProp o value)))
    (if bool_decide (name = s_reg) then Some (off, zlen value) else before) f ->
  reg_found ((name, value) :: ps) (IProp o value :: ci) off before f.
Proof.
  intros Hn Hi Hf [[Hno ->]|(p1 & old & p2 & l1 & o' & l2 & -> & Hno & -> & H1 & H2 & Hn' & Hi' & ->)].
  - destruct (bool_decide_reflect (name = s_reg)) as [->|Hne].
    + right. exists [], value, ps, [], o, ci. change (items_bytes []) with (@nil Z). change (zlen []) with 0. rewrite Z.add_0_r.
      split_and!; try done. constructor.
    + left. split; [by constructor|done].
  - right. exists ((name, value) :: p1), old, p2, (IProp o value :: l1), o', l2. split_and!; try done; [by constructor|].
    rewrite items_bytes_cons, zlen_app. by rewrite Z.add_assoc.
Qed.

Lemma memory_props ps l : flat_props strings ps l -> forall off m, exists ci nops m',
  fold_left (memory_step strings) l (off, 0, m) = (off + zlen (items_bytes l), 0, m') /\
  l = ci ++ nops /\ flat_props strings ps ci /\ flat_props strings [] nops /\
  ms_insert_off m' = match ps with [] => ms_insert_off m | _ => off + zlen (items_bytes ci) end /\ (ps = [] -> ci = []) /\
  ms_has_device_type m' = has_device_type ps || ms_has_device_type m /\
  reg_found ps ci off (ms_existing_reg m) (ms_existing_reg m').
Proof.
  induction 1 as [|ps l Hf IH|name value o ps l Hn Hi Hf IH]; intros off m.
  - exists [], [], m. cbn [fold_left]. change (items_bytes []) with (@nil Z). change (zlen []) with 0.
    split_and!; try done; try constructor; [by rewrite Z.add_0_r|]. by split; [constructor|].
  - destruct (IH (off + zlen (item_bytes INop)) m) as (ci & nops & m' & He & -> & Hci & Hnp & Hins & Hnil & Hdt & Hreg).
    cbn [fold_left memory_step]. rewrite He, items_bytes_cons, zlen_app, Z.add_assoc. destruct ps as [|p ps].
    + specialize (Hnil eq_refl). subst ci. exists [], (INop :: nops), m'. split_and!; try done; [by constructor|].
      destruct Hreg as [?|(p1 & ? & ? & ? & ? & ? & He' & _)]; [by left|]. by destruct p1.
    + exists (INop :: ci), nops, m'. split_and!; try done; [by constructor|rewrite Hins, items_bytes_cons, zlen_app; lia|].
      destruct Hreg as [?|(p1 & old & p2 & l1 & o & l2 & Hp & Hno & -> & H1 & H2 & Hn & Hi & ->)]; [by left|right].
      exists p1, old, p2, (INop :: l1), o, l2. split_and!; try done; [by constructor|].
      rewrite items_bytes_cons, zlen_app. by rewrite Z.add_assoc.
  - cbn [fold_left memory_step]. change (0 =? 0) with true. cbn iota.
    rewrite (name_at_named _ _ _ _ Hn s_reg_nul), (name_at_named _ _ _ _ Hn s_device_type_nul). set (m1 := {| ms_existing_reg := _ |}).
    destruct (IH (off + zlen (item_bytes (IProp o value))) m1) as (ci & nops & m' & He & -> & Hci & Hnp & Hins & Hnil & Hdt & Hreg).
    rewrite He, items_bytes_cons, zlen_app, Z.add_assoc. exists (IProp o value :: ci), nops, m'.
    split_and!; try done; [by constructor| | |].
    + rewrite Hins, items_bytes_cons, zlen_app. destruct ps as [|p ps]; [|lia].
      rewrite (Hnil eq_refl). change (items_bytes []) with (@nil Z). change (zlen []) with 0. cbn [m1 ms_insert_off]. lia.
    + rewrite Hdt. unfold m1. cbn [ms_has_device_type has_device_type existsb fst].
      assert (Hb : negb (bool_decide (name = s_reg)) && bool_decide (name = s_device_type) = bool_decide (name = s_device_type)).
      { destruct (bool_decide_reflect (name = s_reg)) as [->|]; [by rewrite bool_decide_false|done]. }
      rewrite Hb. fold (has_device_type ps). by destruct (has_device_type ps), (bool_decide (name = s_device_type)).
    + by apply reg_found_cons.
Qed.

(** The children of the node are passed over. *)
Lemma memory_kids :
  (forall t l, flat_node strings t l -> forall off depth m, 0 <= depth ->
     fold_left (memory_step strings) l (off, depth, m) = (off + zlen (items_bytes l), depth, m)) /\
  (forall ts l, flat_kids strings ts l -> forall off depth m, 0 <= depth ->
     fold_left (memory_step strings) l (off, depth, m) = (off + zlen (items_bytes l), depth, m)).
Proof.
  assert (Hprops : forall ps l, flat_props strings ps l -> forall off depth m, 0 < depth ->
    fold_left (memory_step strings) l (off, depth, m) = (off + zlen (items_bytes l), depth, m)).
  { induction 1; intros off0 depth m Hd; cbn [fold_left memory_step].
    - change (items_bytes []) with (@nil Z). change (zlen []) with 0. by rewrite Z.add_0_r.
    - rewrite IHflat_props, items_bytes_cons, zlen_app by done. by rewrite Z.add_assoc.
    - rewrite (proj2 (Z.eqb_neq depth 0)), IHflat_props, items_bytes_cons, zlen_app by lia. by rewrite Z.add_assoc. }
  apply flat_ind.
  - intros name ps ks pl kl Hn Hp Hk IH off depth m Hd. cbn [fold_left memory_step].
    rewrite !fold_left_app, (Hprops _ _ Hp), IH by lia. cbn [fold_left memory_step].
    rewrite items_bytes_cons, !items_bytes_app, !zlen_app. change (items_bytes [IEnd]) with (item_bytes IEnd).
    do 2 f_equal; lia.
  - intros off depth m _. cbn [fold_left]. change (items_bytes []) with (@nil Z). change (zlen []) with 0. by rewrite Z.add_0_r.
  - intros ks l Hk IH off depth m Hd. cbn [fold_left memory_step].
    rewrite IH, items_bytes_cons, zlen_app by done. by rewrite Z.add_assoc.
  - intros k ks kl l Hk IHk Hks IHks off depth m Hd. rewrite fold_left_app, IHk, IHks by done.
    rewrite items_bytes_app, zlen_app. by rewrite Z.add_assoc.
Qed.
End node.

(** ** What is built on the stack *)

Section build.
Context {T : Target}.

(** The array [w] has been written to. *)
Definition filled (n : Z) (w : list Z) : list Z := w ++ zeros (n - zlen w).

Lemma put_bytes_spec n w k p : p = zlen w -> zlen w + zlen k <= n ->
  put_bytes p k (filled n w) = (filled n (w ++ k), Ok (zlen (w ++ k))).
Proof.
  intros -> Hn. pose proof (zlen_nonneg k). pose proof (zlen_nonneg w). unfold put_bytes, filled, sbind.
  rewrite (write_at _ _ k w (zeros (zlen k)) (zeros (n - zlen (w ++ k)))).
  - rewrite <- app_assoc. unfold slift. by rewrite zlen_app.
  - rewrite <- zeros_add by (rewrite ?zlen_app; lia). do 2 f_equal. rewrite zlen_app. lia.
  - done.
  - by rewrite zlen_zeros.
Qed.

Lemma put_be32_spec n w v p : p = zlen w -> zlen w + 4 <= n ->
  put_be32 p v (filled n w) = (filled n (w ++ be_enc 4 v), Ok (zlen (w ++ be_enc 4 v))).
Proof.
  intros Hp Hn. pose proof (put_bytes_spec n w (be_enc 4 v) p Hp) as H. unfold put_be32, put_bytes, write_be32 in *.
  rewrite zlen_be_enc in H. exact (H Hn).
Qed.

(** A value in cells, as the specification stores it. *)
Definition cells (v n : Z) : list Z := if n =? 2 then be_enc 4 (Z.shiftr v 32) ++ be_enc 4 v else be_enc 4 v.
Definition reg_value (base size addr_cells size_cells : Z) : list Z := cells base addr_cells ++ cells size size_cells.

Lemma zlen_cells v n : cells_ok n = true -> zlen (cells v n) = 4 * n.
Proof. unfold cells_ok, cells. destruct (Z.eqb_spec n 2) as [->|]; intros H; bool_hyp; rewrite ?zlen_app, !zlen_be_enc; lia. Qed.

Lemma le_dec_app (l k : list Z) : Bytes.le_dec (l ++ k) = Bytes.le_dec l + 256 ^ zlen l * Bytes.le_dec k.
Proof.
  induction l as [|b l IH]; [cbn [app Bytes.le_dec]; change (zlen []) with 0; rewrite Z.pow_0_r; lia|].
  cbn [app Bytes.le_dec]. rewrite IH, zlen_cons, Z.pow_add_r by (pose proof (zlen_nonneg l); lia). lia.
Qed.

(** Read back, a value that does not fit its cells has lost its upper half. *)
Lemma cells_value v n : 0 <= v <= u64_max -> cells_ok n = true -> be_dec (cells v n) = v mod 2 ^ (32 * n).
Proof.
  unfold u64_max. intros Hv Hn. unfold cells, be_dec, be_enc. destruct (Z.eqb_spec n 2) as [->|Hne].
  - rewrite Z.mod_small by lia. rewrite reverse_app, !reverse_involutive, <- (le_enc_mod 4 v).
    rewrite le_dec_app, zlen_le_enc, !le_dec_enc; rewrite ?Z.shiftr_div_pow2 by lia; change (256 ^ Z.of_nat 4) with (2 ^ 32).
    + pose proof (Z.div_mod v (2 ^ 32)). lia.
    + split; [apply Z.div_pos; lia|]. apply Z.div_lt_upper_bound; lia.
    + apply Z.mod_pos_bound. lia.
  - assert (n = 1) as -> by (unfold cells_ok in Hn; bool_hyp; lia).
    rewrite reverse_involutive, <- le_enc_mod, le_dec_enc; [done|apply Z.mod_pos_bound; lia].
Qed.

Lemma write_cells_at buf off v n a b c : cells_ok n = true ->
  buf = a ++ b ++ c -> off = zlen a -> zlen b = 4 * n ->
  write_cells off v n buf = (a ++ cells v n ++ c, Ok (4 * n)).
Proof.
  intros Hn -> -> Hb. unfold write_cells, cells. destruct (Z.eqb_spec n 2) as [->|Hne].
  - unfold sbind at 1, write_be32. rewrite (write_at _ _ (be_enc 4 (Z.shiftr v 32)) a (take 4 b) (drop 4 b ++ c));
      [|by rewrite (app_assoc (take 4 b)), take_drop|done|unfold zlen in *; rewrite zlen_be_enc || idtac].
    2:{ unfold be_enc, zlen in *. rewrite length_reverse, length_le_enc, length_take. lia. }
    unfold sbind. rewrite (write_at _ _ (be_enc 4 v) (a ++ be_enc 4 (Z.shiftr v 32)) (drop 4 b) c);
      [by rewrite <- !app_assoc|by rewrite <- app_assoc|by rewrite zlen_app, zlen_be_enc|].
    rewrite zlen_be_enc. unfold zlen in *. rewrite length_drop. lia.
  - assert (n = 1) as -> by (unfold cells_ok in Hn; bool_hyp; lia). unfold sbind, write_be32.
    rewrite (write_at _ _ (be_enc 4 v) a b c); [done..|]. by rewrite zlen_be_enc.
Qed.

Lemma put_cells_spec n w v k p : cells_ok k = true -> p = zlen w -> zlen w + 4 * k <= n ->
  write_cells p v k (filled n w) = (filled n (w ++ cells v k), Ok (4 * k)).
Proof.
  intros Hk -> Hn. unfold filled. pose proof (zlen_cells v k Hk) as Hz. assert (0 < k) by (unfold cells_ok in Hk; bool_hyp; lia).
  rewrite (write_cells_at _ _ v k w (zeros (4 * k)) (zeros (n - zlen (w ++ cells v k))) Hk).
  - by rewrite <- app_assoc.
  - rewrite <- zeros_add by (rewrite ?zlen_app; lia). do 2 f_equal. rewrite zlen_app. lia.
  - done.
  - apply zlen_zeros. lia.
Qed.

Lemma filled_zeros n w k : 0 <= k -> zlen w + k <= n -> filled n w = filled n (w ++ zeros k).
Proof.
  intros Hk Hn. unfold filled. rewrite <- app_assoc, zlen_app, zlen_zeros, <- zeros_add by lia. do 2 f_equal. lia.
Qed.

Lemma on_stack_spec n build w buf : build (zeros n) = (filled n w, Ok (zlen w)) -> on_stack n build buf = (buf, Ok w).
Proof. intros H. unfold on_stack. rewrite H. do 2 f_equal. by apply sub_app_exact. Qed.

Definition device_type_item (o : Z) : item := IProp o (s_memory ++ [0]).

Lemma put_device_type_spec n w o p : p = zlen w -> zlen w mod 4 = 0 -> zlen w + 20 <= n ->
  put_device_type p o (filled n w) =
    (filled n (w ++ item_bytes (device_type_item o)), Ok (zlen (w ++ item_bytes (device_type_item o)))).
Proof.
  intros -> Ha Hn. unfold put_device_type. set (w1 := w ++ be_enc 4 FDT_PROP). set (w2 := w1 ++ be_enc 4 (zlen (s_memory ++ [0]))).
  set (w3 := w2 ++ be_enc 4 o). set (w4 := w3 ++ s_memory ++ [0]).
  assert (Hz : zlen w1 = zlen w + 4 /\ zlen w2 = zlen w + 8 /\ zlen w3 = zlen w + 12 /\ zlen w4 = zlen w + 19).
  { unfold w4, w3, w2, w1. rewrite !zlen_app, !zlen_be_enc. change (zlen s_memory) with 6. change (zlen [0]) with 1. lia. }
  unfold sbind at 1. rewrite (put_be32_spec n w) by (done || lia). fold w1.
  unfold sbind at 1. rewrite (put_be32_spec n w1) by (done || lia). fold w2.
  unfold sbind at 1. rewrite (put_be32_spec n w2) by (done || lia). fold w3.
  unfold sbind at 1. rewrite (put_bytes_spec n w3) by (done || change (zlen (s_memory ++ [0])) with 7; lia). fold w4.
  cbn [pad_loop]. assert (H3 : zlen w4 mod 4 = 3) by (Z.div_mod_to_equations; lia). rewrite H3. change (3 =? 0) with false. cbn iota.
  unfold sbind at 1. rewrite (put_bytes_spec n w4 [0]) by (done || change (zlen [0]) with 1; lia).
  assert (H0 : zlen (w4 ++ [0]) mod 4 = 0) by (rewrite zlen_app; change (zlen [0]) with 1; Z.div_mod_to_equations; lia).
  rewrite H0. change (0 =? 0) with true. cbn iota. unfold slift.
  assert (Hw : w4 ++ [0] = w ++ item_bytes (device_type_item o)).
  { unfold w4, w3, w2, w1, device_type_item. cbn [item_bytes]. by rewrite <- !app_assoc. }
  by rewrite Hw.
Qed.

Lemma put_reg_spec n w o base size a s p : cells_ok a = true -> cells_ok s = true -> p = zlen w ->
  zlen w + 12 + 4 * (a + s) <= n ->
  put_reg p o ((a + s) * 4) base size a s (filled n w) =
    (filled n (w ++ item_bytes (IProp o (reg_value base size a s))), Ok (zlen (w ++ item_bytes (IProp o (reg_value base size a s))))).
Proof.
  intros Ha Hs -> Hn. pose proof (zlen_cells base a Ha) as Hza. pose proof (zlen_cells size s Hs) as Hzs.
  assert (Hpos : 0 < a /\ 0 < s) by (unfold cells_ok in *; bool_hyp; lia).
  assert (Hv : zlen (reg_value base size a s) = (a + s) * 4) by (unfold reg_value; rewrite zlen_app; lia).
  unfold put_reg. set (w1 := w ++ be_enc 4 FDT_PROP). set (w2 := w1 ++ be_enc 4 ((a + s) * 4)).
  set (w3 := w2 ++ be_enc 4 o). set (w4 := w3 ++ cells base a).
  assert (Hz : zlen w1 = zlen w + 4 /\ zlen w2 = zlen w + 8 /\ zlen w3 = zlen w + 12 /\ zlen w4 = zlen w + 12 + 4 * a).
  { unfold w4, w3, w2, w1. rewrite !zlen_app, !zlen_be_enc. lia. }
  unfold sbind at 1. rewrite (put_be32_spec n w) by (done || lia). fold w1.
  unfold sbind at 1. rewrite (put_be32_spec n w1) by (done || lia). fold w2.
  unfold sbind at 1. rewrite (put_be32_spec n w2) by (done || lia). fold w3.
  unfold sbind at 1. rewrite (put_cells_spec n w3) by (done || lia). fold w4.
  unfold sbind at 1. rewrite (put_cells_spec n w4) by (done || lia). unfold slift.
  assert (Hw : w4 ++ cells size s = w ++ item_bytes (IProp o (reg_value base size a s))).
  { unfold w4, w3, w2, w1. cbn [item_bytes]. rewrite Hv.
    assert (Hp : pad ((a + s) * 4) = []) by (unfold pad; rewrite <- Z.mul_opp_l, Z.mod_mul by lia; done).
    unfold reg_value. by rewrite Hp, app_nil_r, <- !app_assoc. }
  rewrite Hw. do 2 f_equal. rewrite <- Hw, zlen_app. lia.
Qed.

(** The new node. *)
Definition node_items (base size a s dt reg : Z) : list item :=
  [IBegin (s_memory_at ++ hex_digits base); device_type_item dt; IProp reg (reg_value base size a s); IEnd].

Lemma items_bytes_bound base size a s dt reg : 0 <= base <= u64_max -> cells_ok a = true -> cells_ok s = true ->
  zlen (items_bytes (node_items base size a s dt reg)) <= 80.
Proof.
  intros Hb Ha Hs. destruct (hex_digits_value base Hb) as (_ & Hh & _ & Hne).
  unfold node_items. rewrite !items_bytes_cons, !zlen_app. cbn [item_bytes device_type_item]. unfold reg_value.
  repeat (rewrite ?zlen_app, ?zlen_cons, ?zlen_pad, ?zlen_be_enc). rewrite (zlen_cells base a), (zlen_cells size s) by done.
  change (zlen (items_bytes [])) with 0. change (zlen s_memory_at) with 7. change (zlen s_memory) with 6. change (zlen []) with 0.
  unfold cells_ok in *. pose proof (zlen_nonneg (hex_digits base)).
  replace (- (4 * a + 4 * s)) with ((- a - s) * 4) by lia. rewrite Z.mod_mul by lia.
  bool_hyp; Z.div_mod_to_equations; lia.
Qed.

Lemma build_node_spec base size a s dt reg buf : 0 <= base <= u64_max -> cells_ok a = true -> cells_ok s = true ->
  on_stack MEMORY_NODE_MAX (build_node base size a s ((a + s) * 4) dt reg) buf =
    (buf, Ok (items_bytes (node_items base size a s dt reg))).
Proof.
  intros Hb Ha Hs. destruct (hex_digits_value base Hb) as (_ & Hh & _ & _). apply on_stack_spec. unfold MEMORY_NODE_MAX.
  change (zeros 128) with (filled 128 []). unfold build_node. pose proof (zlen_nonneg (hex_digits base)).
  assert (Has : 2 <= a + s <= 4) by (unfold cells_ok in *; bool_hyp; lia).
  set (name := s_memory_at ++ hex_digits base).
  assert (Hname : zlen name = 7 + zlen (hex_digits base)) by (unfold name; by rewrite zlen_app).
  set (w1 := be_enc 4 FDT_BEGIN_NODE). set (w2 := w1 ++ s_memory_at). set (w3 := w2 ++ hex_digits base). set (w4 := w3 ++ [0]).
  assert (Hz : zlen w1 = 4 /\ zlen w2 = 11 /\ zlen w3 = 4 + zlen name /\ zlen w4 = 4 + (zlen name + 1)).
  { unfold w4, w3, w2, w1. rewrite !zlen_app, !zlen_be_enc. change (zlen s_memory_at) with 7. change (zlen [0]) with 1. lia. }
  unfold sbind at 1. rewrite (put_be32_spec 128 []) by (done || change (zlen []) with 0; lia). change ([] ++ be_enc 4 FDT_BEGIN_NODE) with w1.
  unfold sbind at 1. rewrite (put_bytes_spec 128 w1) by (done || change (zlen s_memory_at) with 7; lia). fold w2.
  unfold sbind at 1. rewrite (put_bytes_spec 128 w2) by (done || lia). fold w3.
  unfold sbind at 1. rewrite (put_bytes_spec 128 w3 [0]) by (done || change (zlen [0]) with 1; lia). fold w4.
  pose proof usize_max_bounds. unfold u32_max in *.
  unfold sbind at 1. rewrite align4_ok by lia.
  assert (Hpad : zlen (pad (zlen w4)) = zlen (pad (zlen name + 1))).
  { replace (zlen w4) with (4 + (zlen name + 1)) by lia. by apply pad_aligned. }
  pose proof (zlen_pad (zlen name + 1)) as Hp4. pose proof (Z.mod_pos_bound (- (zlen name + 1)) 4 ltac:(lia)).
  rewrite (filled_zeros 128 w4 (zlen (pad (zlen name + 1)))) by lia.
  assert (Hw5 : w4 ++ zeros (zlen (pad (zlen name + 1))) = item_bytes (IBegin name)).
  { unfold w4, w3, w2, w1, name. cbn [item_bytes]. rewrite <- !app_assoc. do 4 f_equal.
    change ([0] ++ ?l) with (0 :: l). f_equal. unfold pad at 1. rewrite zlen_zeros by (apply Z.mod_pos_bound; lia). done. }
  rewrite Hw5. assert (Hz5 : zlen w4 + zlen (pad (zlen w4)) = zlen (item_bytes (IBegin name))).
  { rewrite <- Hw5, zlen_app, zlen_zeros by lia. lia. }
  destruct (item_bytes_size (IBegin name)) as [_ Hm5].
  unfold sbind at 1. rewrite (put_device_type_spec 128) by (done || lia). set (w6 := _ ++ item_bytes (device_type_item dt)).
  assert (Hz6 : zlen w6 = zlen (item_bytes (IBegin name)) + 20) by (unfold w6; by rewrite zlen_app).
  unfold sbind at 1. rewrite (put_reg_spec 128 w6) by (done || lia). set (w7 := w6 ++ _).
  assert (Hz7 : zlen w7 = zlen w6 + 12 + 4 * (a + s)).
  { unfold w7. rewrite zlen_app. cbn [item_bytes]. unfold reg_value. rewrite !zlen_app, !zlen_be_enc, (zlen_cells base a), (zlen_cells size s), zlen_pad by done.
    replace (- (4 * a + 4 * s)) with ((- a - s) * 4) by lia. rewrite Z.mod_mul by lia. lia. }
  rewrite (put_be32_spec 128 w7) by (done || lia).
  assert (Hw : w7 ++ be_enc 4 FDT_END_NODE = items_bytes (node_items base size a s dt reg)).
  { unfold w7, w6, node_items. rewrite !items_bytes_cons, <- !app_assoc. done. }
  by rewrite Hw.
Qed.

(** The properties an existing node lacks. *)
Definition prop_items (need_dt need_reg : bool) (base size a s dt reg : Z) : list item :=
  (if need_dt then [device_type_item dt] else []) ++ (if need_reg then [IProp reg (reg_value base size a s)] else []).

Lemma build_props_spec need_dt need_reg base size a s dt reg buf : cells_ok a = true -> cells_ok s = true ->
  on_stack PROP_BUF_SIZE (build_props need_dt need_reg base size a s ((a + s) * 4) dt reg) buf =
    (buf, Ok (items_bytes (prop_items need_dt need_reg base size a s dt reg))).
Proof.
  intros Ha Hs. apply on_stack_spec. unfold PROP_BUF_SIZE. change (zeros 64) with (filled 64 []). unfold build_props.
  assert (Has : 2 <= a + s <= 4) by (unfold cells_ok in *; bool_hyp; lia).
  set (w := if need_dt then item_bytes (device_type_item dt) else []).
  assert (Hz : zlen w <= 20) by (unfold w; by destruct need_dt).
  unfold sbind. match goal with |- context [?f (filled 64 [])] => set (m := f) end.
  assert (Hd : m (filled 64 []) = (filled 64 w, Ok (zlen w))).
  { unfold m, w. destruct need_dt; [|done]. by rewrite (put_device_type_spec 64 []) by (done || change (zlen []) with 0; lia). }
  rewrite Hd. unfold prop_items. rewrite items_bytes_app. destruct need_reg.
  - rewrite (put_reg_spec 64 w) by (done || lia). rewrite item_one. unfold w. destruct need_dt; [by rewrite item_one|done].
  - unfold slift. change (items_bytes []) with (@nil Z) at 1. rewrite app_nil_r. unfold w. destruct need_dt; [by rewrite item_one|done].
Qed.
End build.

(** ** Inserting items *)

Definition new_strings (add_dt add_reg : bool) : list Z :=
  (if add_dt then s_device_type ++ [0] else []) ++ (if add_reg then s_reg ++ [0] else []).

Lemma new_strings_size add_dt add_reg :
  zlen (new_strings add_dt add_reg) = (if add_dt then 12 else 0) + (if add_reg then 4 else 0).
Proof. by destruct add_dt, add_reg. Qed.

Section insert.
Context {T : Target}.

Lemma append_strings_spec buf P x add_dt add_reg : buf = P ++ x -> zlen (new_strings add_dt add_reg) <= zlen x ->
  append_strings (zlen P) add_dt add_reg buf =
    (P ++ new_strings add_dt add_reg ++ drop (length (new_strings add_dt add_reg)) x, Ok tt).
Proof.
  intros -> Hx. rewrite new_strings_size in Hx. unfold append_strings.
  set (d := if add_dt then s_device_type ++ [0] else []). set (r := if add_reg then s_reg ++ [0] else []).
  assert (Hd : zlen d = if add_dt then 12 else 0) by (unfold d; by destruct add_dt).
  assert (Hr : zlen r = if add_reg then 4 else 0) by (unfold r; by destruct add_reg).
  assert (Hxd : zlen (drop (length d) x) = zlen x - zlen d).
  { destruct add_reg; unfold zlen in *; rewrite length_drop; destruct add_dt; lia. }
  unfold sbind at 1. match goal with |- context [?f (P ++ x)] => set (m := f) end.
  assert (Hm : m (P ++ x) = (P ++ d ++ drop (length d) x, Ok (zlen P + zlen d))).
  { unfold m, d. destruct add_dt; [|unfold slift; by rewrite Z.add_0_r]. unfold sbind.
    rewrite (fill_next _ _ (s_device_type ++ [0]) P [] x []); [by rewrite app_nil_r|by rewrite app_nil_r|by rewrite Z.add_0_r|].
    change (zlen (s_device_type ++ [0])) with 12. destruct add_reg; lia. }
  rewrite Hm. unfold new_strings. fold d r. rewrite length_app.
  assert (Hlast : (if add_reg then write_bytes (zlen P + zlen d) (s_reg ++ [0]) else slift (Ok tt)) (P ++ d ++ drop (length d) x) =
    (P ++ d ++ r ++ drop (length r) (drop (length d) x), Ok tt)).
  { unfold r. destruct add_reg; [|done].
    rewrite (fill_next _ _ (s_reg ++ [0]) P d (drop (length d) x) []); [|by rewrite app_nil_r|done|].
    - by rewrite app_nil_r, <- !app_assoc.
    - change (zlen (s_reg ++ [0])) with 4. rewrite Hxd. destruct add_dt; lia. }
  rewrite drop_drop in Hlast. rewrite <- app_assoc. exact Hlast.
Qed.

Lemma insert_block_spec max b A B ins add_dt add_reg :
  blob_ok b -> bl_items b = A ++ B -> Forall item_ok ins -> max <= zlen (blob_bytes b) -> max < 2 ^ 32 ->
  zlen (blob_bytes b) + 256 <= usize_max -> zlen (items_bytes ins) <= 128 ->
  let e := new_strings add_dt add_reg in
  match insert_block max (bl_total b) (bl_strings_off b) (zlen (bl_strings b)) (zlen (struct_bytes (bl_items b)))
          (bl_struct_off b + zlen (items_bytes A)) (items_bytes ins) (zlen e) add_dt add_reg (blob_bytes b) with
  | (buf', Ok n) => let b' := blob_insert b A B ins e in buf' = blob_bytes b' /\ n = bl_total b' /\ blob_ok b'
  | (buf', Err err) => err = BufferTooSmall /\ buf' = blob_bytes b /\ max < bl_total b + zlen (items_bytes ins) + zlen e
  | (_, Panic) => False
  end.
Proof.
  intros Hok Hi Hins Hmax H32 Hsm H128 e.
  destruct (blob_split b A B Hi Hok) as (Hb & HP & HR & Htl & Ht).
  set (t := bl_total b - bl_strings_off b - zlen (bl_strings b)) in *.
  set (P := be_enc 4 FDT_MAGIC ++ _) in *. set (R := struct_bytes B ++ _) in *. set (S := drop (Z.to_nat t) (bl_tail b)) in *.
  assert (HSz : zlen S = zlen (bl_tail b) - t) by (unfold S, zlen in *; rewrite length_drop; lia).
  pose proof (blob_insert_bytes b A B ins e Hi) as Hbytes. cbn zeta in Hbytes. fold t in Hbytes.
  pose proof (blob_insert_ok b A B ins e Hok Hi Hins) as Hok'. cbn [blob_insert bl_total] in Hok'.
  assert (He : 0 <= zlen e <= 16) by (unfold e; rewrite new_strings_size; destruct add_dt, add_reg; lia).
  pose proof (zlen_nonneg (items_bytes ins)). destruct Hok as [Hf Hr Hit Hst Htt H32b].
  assert (Hst0 : 0 <= bl_strings_off b).
  { unfold bl_strings_off, bl_struct_off. pose proof (zlen_nonneg (bl_rsv b)). pose proof (zlen_nonneg (struct_bytes (bl_items b))).
    pose proof (zlen_nonneg (bl_mid b)). lia. }
  unfold insert_block. set (n := zlen (items_bytes ins)) in *.
  unfold sbind at 1. unfold uadd at 1, slift at 1, add_or_panic at 1. rewrite checked_add_ok by lia. cbn [or_panic].
  unfold sbind at 1. unfold uadd at 1, slift at 1, add_or_panic at 1. rewrite checked_add_ok by lia. cbn [or_panic].
  destruct (Z.ltb_spec max (bl_total b + n + zlen e)) as [Hbig|Hfit]; [by unfold slift|].
  unfold sbind at 1. unfold usub, slift at 1. rewrite <- HP, checked_sub_ok by (pose proof (zlen_nonneg R); lia). cbn [or_panic].
  replace (bl_total b - zlen P) with (zlen R) by lia.
  destruct (shift_tail (blob_bytes b) P R S n Hb) as (g & Hg & Hcopy); [lia|].
  unfold sbind at 1. rewrite Hcopy. set (S' := drop (Z.to_nat n) S) in *.
  unfold sbind at 1. rewrite (write_at _ _ (items_bytes ins) P g (R ++ S')) by done.
  assert (HS' : zlen S' = zlen S - n) by (unfold S', zlen in *; rewrite length_drop; lia).
  set (t1 := take (Z.to_nat t) (bl_tail b)) in *.
  assert (Ht1 : zlen t1 = t) by (unfold t1, zlen in *; rewrite length_take; lia).
  set (P2 := P ++ items_bytes ins ++ struct_bytes B ++ bl_mid b ++ bl_strings b).
  assert (HP2 : zlen P2 = bl_strings_off b + n + zlen (bl_strings b)).
  { unfold P2. rewrite !zlen_app, HP. unfold bl_strings_off, struct_bytes. rewrite Hi, items_bytes_app, !zlen_app. fold n. lia. }
  unfold sbind at 1. match goal with |- context [?f (P ++ items_bytes ins ++ R ++ S')] => set (m := f) end.
  assert (Hm : m (P ++ items_bytes ins ++ R ++ S') = (P2 ++ e ++ drop (length e) (t1 ++ S'), Ok tt)).
  { replace (P ++ items_bytes ins ++ R ++ S') with (P2 ++ t1 ++ S') by (unfold P2, R; by rewrite <- !app_assoc).
    unfold m. rewrite <- HP2. destruct (Z.ltb_spec 0 (zlen e)).
    - apply append_strings_spec; [done|]. fold e. rewrite zlen_app. lia.
    - assert (e = []) as ->; [|done]. destruct e as [|x e']; [done|]. rewrite zlen_cons in *. pose proof (zlen_nonneg e'). lia. }
  rewrite Hm. unfold sbind at 1.
  replace (P2 ++ e ++ drop (length e) (t1 ++ S')) with
    (be_enc 4 FDT_MAGIC ++ be_enc 4 (bl_total b) ++ be_enc 4 (bl_struct_off b) ++ be_enc 4 (bl_strings_off b) ++
     bl_fixed b ++ be_enc 4 (zlen (bl_strings b)) ++ be_enc 4 (zlen (struct_bytes (bl_items b))) ++
     (bl_rsv b ++ items_bytes A ++ items_bytes ins ++ struct_bytes B ++ bl_mid b ++ bl_strings b ++ e ++ drop (length e) (t1 ++ S')))
    by (unfold P2, P; by rewrite <- !app_assoc).
  rewrite update_header_spec by done. unfold slift. split; [exact Hbytes|]. split; [done|]. apply Hok'; lia.
Qed.

(** The strings searched for, and what is appended when one is missing. *)
Lemma find_name b needle : blob_ok b -> 0 ∉ needle ->
  exists r, find_in_strings (bl_strings_off b) (zlen (bl_strings b)) needle (blob_bytes b) = (blob_bytes b, Ok r) /\
    forall n, r = Some n -> name_at (bl_strings b) n needle /\ 0 <= n < zlen (bl_strings b).
Proof.
  intros Hok Hn. apply find_in_strings_spec; [|done].
  destruct (blob_header b Hok) as (Hb & Hhz & _).
  exists (bl_header b ++ items_bytes (bl_items b) ++ be_enc 4 FDT_END ++ bl_mid b), (bl_tail b). split.
  - rewrite Hb at 1. by rewrite <- !app_assoc.
  - unfold bl_strings_off, struct_bytes. rewrite !zlen_app, Hhz. lia.
Qed.

(** Where the names of the two properties are: old strings or new ones. *)
Record named_at (strings : list Z) (add_dt add_reg : bool) (dt reg : Z) : Prop := {
  na_dt : name_at (strings ++ new_strings add_dt add_reg) dt s_device_type;
  na_reg : name_at (strings ++ new_strings add_dt add_reg) reg s_reg;
  na_dt_new : (zlen strings <=? dt) = add_dt; na_reg_new : (zlen strings <=? reg) = add_reg;
  na_dt_size : 0 <= dt <= zlen strings; na_reg_size : 0 <= reg <= zlen strings + 12
}.

Lemma find_names b : blob_ok b ->
  exists fd fr dt reg,
    find_in_strings (bl_strings_off b) (zlen (bl_strings b)) s_device_type (blob_bytes b) = (blob_bytes b, Ok fd) /\
    find_in_strings (bl_strings_off b) (zlen (bl_strings b)) s_reg (blob_bytes b) = (blob_bytes b, Ok fr) /\
    (let '(dt, n) := match fd with Some o => (o, 0) | None => (zlen (bl_strings b), 12) end in
     let '(reg, n) := match fr with Some o => (o, n) | None => (zlen (bl_strings b) + n, n + 4) end in (dt, reg, n)) =
      (dt, reg, zlen (new_strings (bool_decide (fd = None)) (bool_decide (fr = None)))) /\
    named_at (bl_strings b) (bool_decide (fd = None)) (bool_decide (fr = None)) dt reg.
Proof.
  intros Hok. destruct (find_name b s_device_type Hok s_device_type_nul) as (fd & Hfd & Hd).
  destruct (find_name b s_reg Hok s_reg_nul) as (fr & Hfr & Hr). pose proof (zlen_nonneg (bl_strings b)).
  assert (Hdt : exists dt, match fd with Some o => (o, 0) | None => (zlen (bl_strings b), 12) end = (dt, if bool_decide (fd = None) then 12 else 0) /\
    0 <= dt <= zlen (bl_strings b) /\ (zlen (bl_strings b) <=? dt) = bool_decide (fd = None) /\
    forall add_reg, name_at (bl_strings b ++ new_strings (bool_decide (fd = None)) add_reg) dt s_device_type).
  { destruct fd as [o|].
    - destruct (Hd o eq_refl) as [Hn Ho]. exists o. split_and!; [done|lia..| |]; [apply Z.leb_gt; lia|]. intros. by apply name_at_ext.
    - eexists. split_and!; [done|lia..| |]; [apply Z.leb_refl|]. intros add_reg. unfold new_strings. rewrite bool_decide_true, app_assoc by done.
      apply name_at_ext, name_at_new, s_device_type_nul. }
  destruct Hdt as (dt & Hfd' & Hdr & Hdn & Hdname).
  set (n := if bool_decide (fd = None) then 12 else 0) in *. assert (Hn : 0 <= n <= 12) by (unfold n; destruct (bool_decide _); lia).
  exists fd, fr, dt, (match fr with Some o => o | None => zlen (bl_strings b) + n end). rewrite Hfd'.
  split_and!; [done|done| |].
  - rewrite new_strings_size. fold n. destruct fr as [o|]; [by rewrite bool_decide_false, Z.add_0_r|by rewrite bool_decide_true].
  - constructor; try done; destruct fr as [o|].
    + destruct (Hr o eq_refl) as [Hnm _]. by apply name_at_ext.
    + rewrite (bool_decide_true (@None Z = None)) by done. unfold new_strings. rewrite app_assoc.
      replace (zlen (bl_strings b) + n) with (zlen (bl_strings b ++ (if bool_decide (fd = None) then s_device_type ++ [0] else [])))
        by (rewrite zlen_app; unfold n; by destruct (bool_decide (fd = None))).
      apply name_at_new, s_reg_nul.
    + destruct (Hr o eq_refl) as [_ Ho]. rewrite (bool_decide_false (Some o = None)) by done. apply Z.leb_gt. lia.
    + rewrite (bool_decide_true (@None Z = None)) by done. apply Z.leb_le. lia.
    + destruct (Hr o eq_refl) as [_ Ho]. lia.
    + lia.
Qed.
End insert.

(** ** The scans of a blob *)

Section scans.
Context {T : Target}.

Lemma blob_strings_in b : blob_ok b -> strings_in (blob_bytes b) (bl_strings_off b) (bl_strings b).
Proof.
  intros Hok. destruct (blob_header b Hok) as (Hb & Hhz & _).
  exists (bl_header b ++ items_bytes (bl_items b) ++ be_enc 4 FDT_END ++ bl_mid b), (bl_tail b). split.
  - rewrite Hb at 1. by rewrite <- !app_assoc.
  - unfold bl_strings_off, struct_bytes. rewrite !zlen_app, Hhz. lia.
Qed.

Lemma set_memory_scans b max base size r :
  blob_ok b -> small (blob_bytes b) -> Forall (good_item (bl_strings b)) (bl_items b) ->
  fold_left (root_step (bl_strings b)) (bl_items b) (bl_struct_off b, 0, root_scan_init) =
    (bl_struct_off b + zlen (items_bytes (bl_items b)), 0, r) ->
  fdt_set_memory max base size (blob_bytes b) =
    set_memory max (bl_total b) (bl_strings_off b) (zlen (bl_strings b)) (zlen (struct_bytes (bl_items b))) base size r (blob_bytes b).
Proof.
  intros Hok Hsm Hgood Hfold. destruct (read_header b Hok) as (R1 & R2 & R3 & R4 & R5 & R6).
  destruct (blob_sizes b Hok) as (H40 & Hso & Hst & Hsz). destruct (blob_header b Hok) as (Hb & Hhz & Hha).
  pose proof (bo_total _ Hok). pose proof (zlen_nonneg (bl_strings b)). pose proof Hsm as Hsm'. unfold small in Hsm'.
  unfold fdt_set_memory. unfold sbind at 1. rewrite R1. change (negb (FDT_MAGIC =? FDT_MAGIC)) with false. cbn iota.
  unfold sbind at 1. rewrite R2. unfold sbind at 1. rewrite R3. unfold sbind at 1. rewrite R4.
  unfold sbind at 1. rewrite R5. unfold sbind at 1. rewrite R6. unfold sbind at 1. unfold uadd, slift, add_or_panic.
  rewrite checked_add_ok by lia. cbn [or_panic]. unfold sbind at 1. set (buf := blob_bytes b) in *.
  assert (Hlen : (length (bl_items b) <= length buf)%nat).
  { destruct (items_bytes_size (bl_items b)) as [Hl _]. unfold zlen in *. lia. }
  replace (S (length buf)) with (length (bl_items b) + S (length buf - length (bl_items b)))%nat by lia.
  assert (Hscan : scan_root (length (bl_items b) + S (length buf - length (bl_items b)))
      (bl_struct_off b + zlen (struct_bytes (bl_items b))) (bl_strings_off b) (bl_struct_off b) 0 root_scan_init buf = (buf, Ok r)).
  { rewrite <- Hhz at 2. rewrite (scan_root_items _ (bl_strings b) (bl_items b) _ _ buf (bl_header b) _ 0 _ Hb Hgood Hha)
      by (try done; try lia; by apply blob_strings_in).
    rewrite Hhz, Hfold. cbn [scan_root]. rewrite (proj2 (Z.ltb_lt _ _)) by lia. unfold sbind at 1.
    assert (Hbe : buf = (bl_header b ++ items_bytes (bl_items b)) ++ be_enc 4 FDT_END ++ bl_mid b ++ bl_strings b ++ bl_tail b)
      by (rewrite Hb at 1; by rewrite <- app_assoc).
    rewrite (read_be32_in _ _ _ _ _ Hbe); [|by rewrite zlen_app, Hhz|done]. done. }
  by rewrite Hscan.
Qed.

(** The scan of a node that begins behind [A]. *)
Lemma node_scanned b A mn cl kl Z0 mps mks :
  blob_ok b -> small (blob_bytes b) -> bl_items b = A ++ IBegin mn :: cl ++ kl ++ IEnd :: Z0 -> 0 ∉ mn ->
  flat_props (bl_strings b) mps cl -> flat_kids (bl_strings b) mks kl ->
  let body := bl_struct_off b + zlen (items_bytes (A ++ [IBegin mn])) in
  (let! name_end := skip_node_name (bl_struct_off b + zlen (items_bytes A) + 4) in
   let! off := align4 name_end in
   fun buf => scan_memory (S (length buf)) (bl_strings_off b) off 0 (memory_scan_init off) buf) (blob_bytes b) =
  (blob_bytes b, Ok (snd (fold_left (memory_step (bl_strings b)) cl (body, 0, memory_scan_init body)))).
Proof.
  intros Hok Hsm Hit Hmn Hcl Hkl body. destruct (blob_header b Hok) as (Hb & Hhz & Hha).
  set (rest := be_enc 4 FDT_END ++ bl_mid b ++ bl_strings b ++ bl_tail b) in *. set (buf := blob_bytes b) in *.
  set (pre0 := bl_header b ++ items_bytes A).
  assert (Hpre0 : zlen pre0 = bl_struct_off b + zlen (items_bytes A)) by (unfold pre0; rewrite zlen_app; lia).
  assert (Hb0 : buf = pre0 ++ item_bytes (IBegin mn) ++ items_bytes (cl ++ kl ++ IEnd :: Z0) ++ rest).
  { rewrite Hb at 1. unfold pre0. rewrite Hit, items_bytes_app, items_bytes_cons. by rewrite <- !app_assoc. }
  assert (Ha0 : zlen pre0 mod 4 = 0).
  { rewrite Hpre0. destruct (items_bytes_size A) as [_ HAm]. rewrite <- Hhz. Z.div_mod_to_equations. lia. }
  destruct (read_begin _ _ _ _ Hb0 Hmn Ha0 Hsm) as (_ & Hskip & Hal & _). rewrite <- Hpre0.
  unfold sbind at 1. rewrite Hskip. unfold sbind at 1. rewrite Hal.
  assert (Hbody : zlen pre0 + zlen (item_bytes (IBegin mn)) = body).
  { unfold body. rewrite Hpre0, items_bytes_app, zlen_app, item_one. lia. }
  rewrite Hbody. set (pre := pre0 ++ item_bytes (IBegin mn)).
  assert (Hpre : zlen pre = body) by (unfold pre; rewrite zlen_app; lia).
  assert (Hbp : buf = pre ++ items_bytes (cl ++ kl) ++ items_bytes (IEnd :: Z0) ++ rest).
  { rewrite Hb0 at 1. unfold pre. rewrite app_assoc, !items_bytes_app, <- !app_assoc. done. }
  assert (Hck : (length (cl ++ kl) <= length buf)%nat).
  { destruct (items_bytes_size (cl ++ kl)) as [Hl _]. assert (zlen (items_bytes (cl ++ kl)) <= zlen buf).
    { rewrite Hbp at 1. rewrite (zlen_app pre), (zlen_app (items_bytes (cl ++ kl))). pose proof (zlen_nonneg pre).
      pose proof (zlen_nonneg (items_bytes (IEnd :: Z0) ++ rest)). lia. }
    unfold zlen in *. lia. }
  replace (S (length buf)) with (length (cl ++ kl) + S (length buf - length (cl ++ kl)))%nat by lia.
  assert (Hgood : Forall (good_item (bl_strings b)) (cl ++ kl)).
  { apply list.Forall_app. split; [by eapply flat_props_good|by eapply (proj2 (flat_good _))]. }
  rewrite <- Hpre at 1. rewrite (scan_memory_items _ (bl_strings b) (cl ++ kl) _ buf pre _ 0 _ Hbp Hgood).
  - rewrite fold_left_app, Hpre.
    destruct (memory_props _ _ _ Hcl body (memory_scan_init body)) as (ci & nops & m' & Hfold & _).
    rewrite Hfold. rewrite (proj2 (memory_kids _) _ _ Hkl) by lia. cbn [snd scan_memory]. unfold sbind at 1.
    assert (Hbn : buf = (pre ++ items_bytes (cl ++ kl)) ++ be_enc 4 FDT_END_NODE ++ items_bytes Z0 ++ rest)
      by (rewrite Hbp at 1; rewrite items_bytes_cons; cbn [item_bytes]; by rewrite <- !app_assoc).
    rewrite (read_be32_in _ _ _ _ _ Hbn); [|rewrite zlen_app, Hpre, items_bytes_app, zlen_app; lia|done]. done.
  - unfold pre. rewrite zlen_app. destruct (item_bytes_size (IBegin mn)) as [_ Hm]. Z.div_mod_to_equations. lia.
  - exact Hsm.
  - by apply blob_strings_in.
  - rewrite (inside_app_props _ _ _ _ _ Hcl). rewrite <- (app_nil_r kl). by apply (proj2 (inside_deep _) _ _ Hkl).
Qed.
End scans.

(** ** What becomes of the properties *)

Definition device_type_prop : list Z * list Z := (s_device_type, s_memory ++ [0]).
Definition missing_device_type (ps : list (list Z * list Z)) : list (list Z * list Z) :=
  if has_device_type ps then [] else [device_type_prop].

(** The [reg] property gets the value [v]: in place when it has that size, else
    behind the others; a missing device type is added. *)
Inductive memory_props_set (v : list Z) : list (list Z * list Z) -> list (list Z * list Z) -> Prop :=
| mp_new ps : no_reg ps -> memory_props_set v ps (ps ++ missing_device_type ps ++ [(s_reg, v)])
| mp_same p1 old p2 : no_reg p2 -> zlen old = zlen v ->
    memory_props_set v (p1 ++ (s_reg, old) :: p2) (p1 ++ (s_reg, v) :: p2 ++ missing_device_type (p1 ++ p2))
| mp_moved p1 old p2 : no_reg p2 -> zlen old <> zlen v ->
    memory_props_set v (p1 ++ (s_reg, old) :: p2) (p1 ++ p2 ++ missing_device_type (p1 ++ p2) ++ [(s_reg, v)]).

(** What is left when there is no room. *)
Inductive memory_props_left (v : list Z) : list (list Z * list Z) -> list (list Z * list Z) -> Prop :=
| ml_none ps : no_reg ps -> memory_props_left v ps ps
| ml_same p1 old p2 : no_reg p2 -> zlen old = zlen v -> memory_props_left v (p1 ++ (s_reg, old) :: p2) (p1 ++ (s_reg, v) :: p2)
| ml_dropped p1 old p2 : no_reg p2 -> zlen old <> zlen v -> memory_props_left v (p1 ++ (s_reg, old) :: p2) (p1 ++ p2).

Lemma has_device_type_reg p1 v p2 : has_device_type (p1 ++ (s_reg, v) :: p2) = has_device_type (p1 ++ p2).
Proof. unfold has_device_type. rewrite !existsb_app. cbn [existsb fst]. by rewrite bool_decide_false. Qed.

Lemma zlen_nops n : zlen (items_bytes (replicate n INop)) = 4 * Z.of_nat n.
Proof.
  induction n as [|n IH]; [done|]. cbn [replicate]. rewrite items_bytes_cons, zlen_app, IH. cbn [item_bytes].
  rewrite zlen_be_enc. lia.
Qed.

Section patch.
Context {T : Target}.

(** The value of a [reg] of the same size is overwritten. *)
Lemma overwrite_same buf a o old c m base size ac sc :
  buf = a ++ item_bytes (IProp o old) ++ c -> cells_ok ac = true -> cells_ok sc = true -> zlen old = (ac + sc) * 4 ->
  ms_existing_reg m = Some (zlen a, zlen old) ->
  overwrite_reg m base size ac sc ((ac + sc) * 4) buf =
    (a ++ item_bytes (IProp o (reg_value base size ac sc)) ++ c, Ok (ms_has_device_type m)).
Proof.
  intros -> Hac Hsc Hold Hm. pose proof (zlen_cells base ac Hac) as Hza. pose proof (zlen_cells size sc Hsc) as Hzs.
  assert (Hpos : 0 < ac /\ 0 < sc) by (unfold cells_ok in *; bool_hyp; lia).
  assert (Hv : zlen (reg_value base size ac sc) = (ac + sc) * 4) by (unfold reg_value; rewrite zlen_app; lia).
  unfold overwrite_reg. rewrite Hm, <- Hold, Z.eqb_refl. unfold write_be32. cbn [item_bytes]. rewrite Hv, <- Hold.
  set (o1 := take (Z.to_nat (4 * ac)) old). set (o2 := drop (Z.to_nat (4 * ac)) old).
  assert (Ho : old = o1 ++ o2) by (unfold o1, o2; by rewrite take_drop).
  assert (Ho1 : zlen o1 = 4 * ac) by (unfold o1, zlen in *; rewrite length_take; lia).
  assert (Ho2 : zlen o2 = 4 * sc) by (unfold o2, zlen in *; rewrite length_drop; lia).
  set (p := pad (zlen old)). set (zo := zlen old) in *. clearbody zo.
  unfold sbind at 1. rewrite (write_at _ _ (be_enc 4 zo) (a ++ be_enc 4 FDT_PROP) (be_enc 4 zo) (be_enc 4 o ++ old ++ p ++ c));
    [|by rewrite <- !app_assoc|by rewrite zlen_app, zlen_be_enc|by rewrite !zlen_be_enc].
  set (a1 := a ++ be_enc 4 FDT_PROP ++ be_enc 4 zo ++ be_enc 4 o).
  assert (Ha1 : zlen a1 = zlen a + 12) by (unfold a1; rewrite !zlen_app, !zlen_be_enc; lia).
  unfold sbind at 1. rewrite (write_cells_at _ _ base ac a1 o1 (o2 ++ p ++ c) Hac); [|rewrite Ho; unfold a1; by rewrite <- !app_assoc|lia|done].
  unfold sbind at 1. rewrite (write_cells_at _ _ size sc (a1 ++ cells base ac) o2 (p ++ c) Hsc); [|by rewrite <- !app_assoc|rewrite zlen_app; lia|done].
  rewrite (proj2 (Z.eqb_eq (4 * ac + 4 * sc) zo)) by lia. unfold sbind, slift. unfold a1, reg_value.
  by rewrite <- !app_assoc.
Qed.

(** What is added has the names it should. *)
Lemma props_added s add_dt add_reg dt reg (need_dt need_reg : bool) base size ac sc :
  named_at s add_dt add_reg dt reg -> zlen s + 16 < 2 ^ 32 -> cells_ok ac = true -> cells_ok sc = true ->
  flat_props (s ++ new_strings add_dt add_reg)
    ((if need_dt then [device_type_prop] else []) ++ (if need_reg then [(s_reg, reg_value base size ac sc)] else []))
    (prop_items need_dt need_reg base size ac sc dt reg).
Proof.
  intros [Hdt Hreg _ _ Hd Hr] Hs Hac Hsc. apply flat_props_app.
  - destruct need_dt; [|constructor]. constructor; [done| |constructor]. split; [lia|]. done.
  - destruct need_reg; [|constructor]. constructor; [done| |constructor]. split; [lia|].
    unfold reg_value. rewrite zlen_app, (zlen_cells base), (zlen_cells size) by done. unfold cells_ok in *. bool_hyp; lia.
Qed.

Lemma prop_items_size need_dt need_reg base size ac sc dt reg : cells_ok ac = true -> cells_ok sc = true ->
  zlen (items_bytes (prop_items need_dt need_reg base size ac sc dt reg)) =
    (if need_dt then 20 else 0) + (if need_reg then 12 + 4 * (ac + sc) else 0).
Proof.
  intros Hac Hsc. unfold prop_items. rewrite items_bytes_app, zlen_app. f_equal.
  - by destruct need_dt.
  - destruct need_reg; [|done]. rewrite item_one. cbn [item_bytes]. unfold reg_value.
    repeat (rewrite ?zlen_app, ?zlen_be_enc, ?zlen_pad). rewrite (zlen_cells base), (zlen_cells size) by done.
    replace (- (4 * ac + 4 * sc)) with ((- ac - sc) * 4) by lia. rewrite Z.mod_mul by lia. lia.
Qed.

(** *** A blob whose memory node has been found *)

Section found.
Context (b : Blob) (with_props : list (list Z * list Z) -> tree) (mn : list Z).
Context (A kl Z0 : list item) (max base size ac sc : Z) (add_dt add_reg : bool) (dt reg : Z).
Context (Hac : cells_ok ac = true) (Hsc : cells_ok sc = true).
Context (Hnamed : named_at (bl_strings b) add_dt add_reg dt reg).
Context (Hre : forall e mps' cl', flat_props (bl_strings b ++ e) mps' cl' ->
  flat_kids (bl_strings b ++ e) [with_props mps'] (A ++ IBegin mn :: cl' ++ kl ++ IEnd :: Z0)).
Context (Hmax : max <= zlen (blob_bytes b)) (H32 : max < 2 ^ 32).
Context (Hsm : zlen (blob_bytes b) + 256 <= usize_max).

Let v := reg_value base size ac sc.

Definition node_outcome (mps : list (list Z * list Z)) (out : list Z * res FdtPatchError Z) : Prop :=
  match out with
  | (buf', Ok n) => exists b' mps', buf' = blob_bytes b' /\ n = bl_total b' /\ holds b' (with_props mps') /\
      memory_props_set v mps mps'
  | (buf', Err err) => err = BufferTooSmall /\ max < bl_total b + 96 /\
      exists b' mps', buf' = blob_bytes b' /\ holds b' (with_props mps') /\ memory_props_left v mps mps'
  | (_, Panic) => False
  end.

(** Adding the missing properties to a blob [b'] with the strings and sizes of [b]. *)
Lemma add_props_spec b' mps' ci nops (need_dt need_reg : bool) :
  blob_ok b' -> bl_strings b' = bl_strings b -> bl_total b' = bl_total b -> bl_struct_off b' = bl_struct_off b ->
  bl_strings_off b' = bl_strings_off b -> zlen (struct_bytes (bl_items b')) = zlen (struct_bytes (bl_items b)) ->
  zlen (blob_bytes b') = zlen (blob_bytes b) ->
  bl_items b' = A ++ IBegin mn :: (ci ++ nops) ++ kl ++ IEnd :: Z0 ->
  flat_props (bl_strings b) mps' ci -> flat_props (bl_strings b) [] nops ->
  match insert_block max (bl_total b) (bl_strings_off b) (zlen (bl_strings b)) (zlen (struct_bytes (bl_items b)))
          (bl_struct_off b + zlen (items_bytes (A ++ IBegin mn :: ci)))
          (items_bytes (prop_items need_dt need_reg base size ac sc dt reg)) (zlen (new_strings add_dt add_reg)) add_dt add_reg
          (blob_bytes b') with
  | (buf', Ok n) => exists b2, buf' = blob_bytes b2 /\ n = bl_total b2 /\
      holds b2 (with_props (mps' ++ (if need_dt then [device_type_prop] else []) ++ (if need_reg then [(s_reg, v)] else [])))
  | (buf', Err err) => err = BufferTooSmall /\ buf' = blob_bytes b' /\ max < bl_total b + 96
  | (_, Panic) => False
  end.
Proof.
  intros Hok Hstr Htot Hso Hsto Hsz Hbz Hi Hci Hnops.
  assert (Hi' : bl_items b' = (A ++ IBegin mn :: ci) ++ nops ++ kl ++ IEnd :: Z0)
    by (rewrite Hi; repeat (progress (rewrite <- ?app_assoc; cbn [app])); done).
  set (ins := prop_items need_dt need_reg base size ac sc dt reg).
  assert (Hz : zlen (items_bytes ins) <= 48).
  { unfold ins. rewrite prop_items_size by done. unfold cells_ok in *. bool_hyp; destruct need_dt, need_reg; lia. }
  pose proof (new_strings_size add_dt add_reg) as Hnz.
  assert (Hnz16 : zlen (new_strings add_dt add_reg) <= 16) by (destruct add_dt, add_reg; lia).
  destruct (blob_sizes b' Hok) as (H40 & Hso' & Hst & _). rewrite Hstr in Hst. pose proof (zlen_nonneg (struct_bytes (bl_items b'))).
  assert (Hs : zlen (bl_strings b) + 16 < 2 ^ 32) by lia.
  assert (Hins : Forall item_ok ins).
  { eapply Forall_impl; [|eapply flat_props_good, (props_added _ _ _ _ _ need_dt need_reg base size ac sc Hnamed Hs Hac Hsc)].
    by intros ? []. }
  assert (Hmax' : max <= zlen (blob_bytes b')) by lia.
  assert (Hsm' : zlen (blob_bytes b') + 256 <= usize_max) by lia.
  assert (Hz128 : zlen (items_bytes ins) <= 128) by lia.
  pose proof (insert_block_spec max b' _ _ ins add_dt add_reg Hok Hi' Hins Hmax' H32 Hsm' Hz128) as Hspec.
  cbn zeta in Hspec. rewrite Hstr, Htot, Hso, Hsto, Hsz in Hspec.
  destruct (insert_block _ _ _ _ _ _ _ _ _ _ _) as [buf' [n|err|]]; [| |done].
  - destruct Hspec as (-> & -> & Hok2). eexists. split; [done|]. split; [done|]. split; [done|]. cbn [blob_insert bl_strings bl_items].
    replace ((A ++ IBegin mn :: ci) ++ ins ++ nops ++ kl ++ IEnd :: Z0) with
      (A ++ IBegin mn :: (ci ++ ins ++ nops) ++ kl ++ IEnd :: Z0)
      by (repeat (progress (rewrite <- ?app_assoc; cbn [app])); done).
    rewrite Hstr. apply Hre. apply flat_props_app; [by apply flat_props_ext|].
    rewrite <- (app_nil_r ((if need_dt then _ else _) ++ _)). apply flat_props_app; [by apply props_added|by apply flat_props_ext].
  - destruct Hspec as (-> & -> & Hbig). split_and!; [done|done|lia].
Qed.

Context (Hok : blob_ok b) (cl : list item) (Hi : bl_items b = A ++ IBegin mn :: cl ++ kl ++ IEnd :: Z0).

Let body := bl_struct_off b + zlen (items_bytes (A ++ [IBegin mn])).

Definition patched_node (m : MemoryScan) : list Z * res FdtPatchError Z :=
  patch_memory max (bl_total b) (bl_strings_off b) (zlen (bl_strings b)) (zlen (struct_bytes (bl_items b))) base size ac sc
    ((ac + sc) * 4) reg dt (zlen (new_strings add_dt add_reg)) m (blob_bytes b).

(** The second half of the patch, once a [reg] has been dealt with. *)
Lemma patched_rest m buf done_ :
  overwrite_reg m base size ac sc ((ac + sc) * 4) (blob_bytes b) = (buf, Ok done_) ->
  patched_node m =
    if done_ : bool then (buf, Ok (bl_total b))
    else
      let need_reg := match ms_existing_reg m with None => true | Some (_, old) => negb ((ac + sc) * 4 =? old) end in
      let need_dt := negb (ms_has_device_type m) in
      let block := items_bytes (prop_items need_dt need_reg base size ac sc dt reg) in
      if zlen block =? 0 then (buf, Ok (bl_total b))
      else insert_block max (bl_total b) (bl_strings_off b) (zlen (bl_strings b)) (zlen (struct_bytes (bl_items b)))
             (ms_insert_off m) block (zlen (new_strings add_dt add_reg)) add_dt add_reg buf.
Proof.
  intros Ho. unfold patched_node, patch_memory. unfold sbind at 1. rewrite Ho. destruct done_; [done|].
  unfold sbind. rewrite build_props_spec by done. rewrite (na_dt_new _ _ _ _ _ Hnamed), (na_reg_new _ _ _ _ _ Hnamed). cbn zeta.
  by destruct (_ =? 0).
Qed.

Lemma node_insert_off (mps : list (list Z * list Z)) (ci : list item) m :
  ms_insert_off m = match mps with [] => body | _ => body + zlen (items_bytes ci) end -> (mps = [] -> ci = []) ->
  ms_insert_off m = bl_struct_off b + zlen (items_bytes (A ++ IBegin mn :: ci)).
Proof.
  intros -> Hnil. unfold body. rewrite !items_bytes_app, item_one, items_bytes_cons, !zlen_app. destruct mps; [|lia].
  rewrite (Hnil eq_refl). change (zlen (items_bytes [])) with 0. lia.
Qed.

Lemma missing_eq mps (m : MemoryScan) : ms_has_device_type m = has_device_type mps ->
  missing_device_type mps = if negb (ms_has_device_type m) then [device_type_prop] else [].
Proof. intros ->. unfold missing_device_type. by destruct (has_device_type mps). Qed.

Lemma block_nonzero need_dt need_reg : need_dt || need_reg = true ->
  (zlen (items_bytes (prop_items need_dt need_reg base size ac sc dt reg)) =? 0) = false.
Proof. intros Hn. apply Z.eqb_neq. rewrite prop_items_size by done. unfold cells_ok in *. destruct need_dt, need_reg; bool_hyp; done || lia. Qed.

Lemma patched_new_reg mps ci nops m : no_reg mps -> cl = ci ++ nops ->
  flat_props (bl_strings b) mps ci -> flat_props (bl_strings b) [] nops ->
  ms_insert_off m = bl_struct_off b + zlen (items_bytes (A ++ IBegin mn :: ci)) ->
  ms_has_device_type m = has_device_type mps -> ms_existing_reg m = None -> node_outcome mps (patched_node m).
Proof.
  intros Hno -> Hci Hnops Hins Hdt Hreg. rewrite (patched_rest m (blob_bytes b) false) by (unfold overwrite_reg; by rewrite Hreg).
  rewrite Hreg. cbn zeta. rewrite block_nonzero by apply orb_true_r. rewrite Hins.
  pose proof (add_props_spec b mps ci nops (negb (ms_has_device_type m)) true Hok eq_refl eq_refl eq_refl eq_refl eq_refl eq_refl
    Hi Hci Hnops) as Hadd. rewrite <- (missing_eq _ _ Hdt) in Hadd. unfold node_outcome.
  destruct (insert_block _ _ _ _ _ _ _ _ _ _ _) as [buf' [n|err|]]; [| |done].
  - destruct Hadd as (b2 & -> & -> & Hh). exists b2, (mps ++ missing_device_type mps ++ [(s_reg, v)]). split_and!; try done. by constructor.
  - destruct Hadd as (-> & -> & Hbig). split_and!; [done|done|]. exists b, mps. split_and!; [done| |by constructor].
    split; [done|]. rewrite Hi. specialize (Hre [] mps (ci ++ nops)). rewrite app_nil_r in Hre. apply Hre.
    rewrite <- (app_nil_r mps). by apply flat_props_app.
Qed.

(** The blob with other items for the [reg] found, and what they mean. *)
Lemma edit_reg p1 old p2 l1 o l2 nops new newps :
  cl = (l1 ++ IProp o old :: l2) ++ nops -> flat_props (bl_strings b) p1 l1 -> flat_props (bl_strings b) p2 l2 ->
  flat_props (bl_strings b) [] nops -> item_ok (IProp o old) ->
  zlen (items_bytes new) = zlen (item_bytes (IProp o old)) -> flat_props (bl_strings b) newps new ->
  exists a c b1, blob_bytes b = a ++ item_bytes (IProp o old) ++ c /\ zlen a = body + zlen (items_bytes l1) /\
    a ++ items_bytes new ++ c = blob_bytes b1 /\ holds b1 (with_props (p1 ++ newps ++ p2)) /\ bl_total b1 = bl_total b /\
    forall m (need_dt need_reg : bool), ms_insert_off m = bl_struct_off b + zlen (items_bytes (A ++ IBegin mn :: l1 ++ IProp o old :: l2)) ->
    match insert_block max (bl_total b) (bl_strings_off b) (zlen (bl_strings b)) (zlen (struct_bytes (bl_items b)))
            (ms_insert_off m) (items_bytes (prop_items need_dt need_reg base size ac sc dt reg))
            (zlen (new_strings add_dt add_reg)) add_dt add_reg (blob_bytes b1) with
    | (buf', Ok n) => exists b2, buf' = blob_bytes b2 /\ n = bl_total b2 /\
        holds b2 (with_props ((p1 ++ newps ++ p2) ++ (if need_dt then [device_type_prop] else []) ++ (if need_reg then [(s_reg, v)] else [])))
    | (buf', Err err) => err = BufferTooSmall /\ buf' = blob_bytes b1 /\ max < bl_total b + 96
    | (_, Panic) => False
    end.
Proof.
  intros Hcl H1 H2 Hnops Hio Hz Hnew.
  destruct (blob_edit b (A ++ IBegin mn :: l1) (IProp o old) (l2 ++ nops ++ kl ++ IEnd :: Z0) Hok) as (a & c & Hb & Ha & _ & Hed).
  { rewrite Hi, Hcl. repeat (progress (rewrite <- ?app_assoc; cbn [app])). done. }
  assert (Hnok : Forall item_ok new) by (eapply Forall_impl; [|by eapply flat_props_good]; by intros ? []).
  destruct (Hed new Hz Hnok) as (Hbytes & Hok1 & Hso & Hsto & Hsz). set (b1 := with_items b _) in *.
  assert (Hi1 : bl_items b1 = A ++ IBegin mn :: ((l1 ++ new ++ l2) ++ nops) ++ kl ++ IEnd :: Z0).
  { unfold b1. cbn [with_items bl_items]. repeat (progress (rewrite <- ?app_assoc; cbn [app])). done. }
  assert (Hf1 : flat_props (bl_strings b) (p1 ++ newps ++ p2) (l1 ++ new ++ l2)) by (by repeat apply flat_props_app).
  exists a, c, b1. split_and!; try done.
  - rewrite Ha. unfold body. rewrite !items_bytes_app, item_one, items_bytes_cons, !zlen_app. lia.
  - split; [done|]. rewrite Hi1. change (bl_strings b1) with (bl_strings b). specialize (Hre [] (p1 ++ newps ++ p2) ((l1 ++ new ++ l2) ++ nops)).
    rewrite app_nil_r in Hre. apply Hre. rewrite <- (app_nil_r (p1 ++ newps ++ p2)). by apply flat_props_app.
  - intros m need_dt need_reg Hm.
    assert (Hbz : zlen (blob_bytes b1) = zlen (blob_bytes b)) by (rewrite <- Hbytes, Hb, !zlen_app, Hz; lia).
    assert (Hoff : ms_insert_off m = bl_struct_off b + zlen (items_bytes (A ++ IBegin mn :: l1 ++ new ++ l2))).
    { rewrite Hm. repeat (rewrite ?items_bytes_app, ?items_bytes_cons, ?zlen_app). lia. }
    rewrite Hoff. by apply (add_props_spec b1 (p1 ++ newps ++ p2) (l1 ++ new ++ l2) nops need_dt need_reg).
Qed.

Lemma zlen_reg_value : zlen v = (ac + sc) * 4.
Proof. unfold v, reg_value. rewrite zlen_app, (zlen_cells base), (zlen_cells size) by done. lia. Qed.

Lemma patched_old_reg p1 old p2 l1 o l2 nops m : no_reg p2 ->
  cl = (l1 ++ IProp o old :: l2) ++ nops -> flat_props (bl_strings b) p1 l1 -> flat_props (bl_strings b) p2 l2 ->
  flat_props (bl_strings b) [] nops -> name_at (bl_strings b) o s_reg -> item_ok (IProp o old) ->
  ms_insert_off m = bl_struct_off b + zlen (items_bytes (A ++ IBegin mn :: l1 ++ IProp o old :: l2)) ->
  ms_has_device_type m = has_device_type (p1 ++ p2) -> ms_existing_reg m = Some (body + zlen (items_bytes l1), zlen old) ->
  node_outcome (p1 ++ (s_reg, old) :: p2) (patched_node m).
Proof.
  intros Hno Hcl H1 H2 Hnops Hn Hio Hins Hdt Hreg. pose proof zlen_reg_value as Hv.
  assert (Hpos : 2 <= ac + sc) by (unfold cells_ok in *; bool_hyp; lia).
  destruct (Z.eq_dec (zlen old) ((ac + sc) * 4)) as [Hsame|Hdiff].
  - assert (Hiv : item_ok (IProp o v)) by (destruct Hio; split; [done|]; rewrite Hv, <- Hsame; done).
    assert (Hz : zlen (items_bytes [IProp o v]) = zlen (item_bytes (IProp o old))).
    { rewrite item_one, !item_prop_align, !zlen_pad, Hv, Hsame. done. }
    assert (Hnew : flat_props (bl_strings b) [(s_reg, v)] [IProp o v]) by (constructor; [done..|constructor]).
    destruct (edit_reg p1 old p2 l1 o l2 nops _ _ Hcl H1 H2 Hnops Hio Hz Hnew) as (a & c & b1 & Hb & Ha & Hb1 & Hh & Ht & Hadd).
    rewrite <- Ha in Hreg. rewrite item_one in Hb1.
    rewrite (patched_rest m (blob_bytes b1) (ms_has_device_type m))
      by (rewrite <- Hb1; by apply (overwrite_same _ a o old c)).
    rewrite Hreg, Hsame, Z.eqb_refl. cbn [negb]. cbn zeta. pose proof (missing_eq _ _ Hdt) as Hmiss.
    destruct (ms_has_device_type m); cbn [negb] in *.
    + exists b1, (p1 ++ (s_reg, v) :: p2). rewrite Ht. split_and!; [done..|].
      pose proof (mp_same v p1 old p2 Hno ltac:(lia)) as Hp. by rewrite Hmiss, app_nil_r in Hp.
    + rewrite block_nonzero by done. specialize (Hadd m true false Hins). unfold node_outcome.
      destruct (insert_block _ _ _ _ _ _ _ _ _ _ _) as [buf' [n|err|]]; [| |done].
      * destruct Hadd as (b2 & -> & -> & Hh2). exists b2, (p1 ++ (s_reg, v) :: p2 ++ missing_device_type (p1 ++ p2)).
        split_and!; [done|done| |by constructor; [|lia]]. rewrite Hmiss. rewrite app_nil_r, <- !app_assoc in Hh2. exact Hh2.
      * destruct Hadd as (-> & -> & Hbig). split_and!; [done|done|]. exists b1, (p1 ++ (s_reg, v) :: p2).
        split_and!; [done|done|]. by constructor; [|lia].
  - destruct (edit_reg p1 old p2 l1 o l2 nops (replicate (Z.to_nat (zlen (item_bytes (IProp o old)) / 4)) INop) [] Hcl H1 H2 Hnops Hio)
      as (a & c & b1 & Hb & Ha & Hb1 & Hh & Ht & Hadd).
    { rewrite zlen_nops. destruct (item_bytes_size (IProp o old)) as [? ?]. Z.div_mod_to_equations. lia. }
    { apply flat_nops. }
    rewrite <- Ha in Hreg.
    assert (Hover : overwrite_reg m base size ac sc ((ac + sc) * 4) (blob_bytes b) = (blob_bytes b1, Ok false)).
    { unfold overwrite_reg. rewrite Hreg, (proj2 (Z.eqb_neq _ _)) by lia. unfold sbind.
      destruct (nop_out_spec (blob_bytes b) a o old c Hb) as (n & Hnop & Hnz); [unfold small; lia|].
      rewrite zlen_nops in Hnz. rewrite Hnop, <- Hb1. unfold slift. do 4 f_equal. rewrite <- Hnz.
      f_equal. rewrite Z.mul_comm, Z.div_mul by lia. lia. }
    rewrite (patched_rest m _ _ Hover). rewrite Hreg, (proj2 (Z.eqb_neq _ _)) by lia. cbn [negb]. cbn zeta.
    rewrite block_nonzero by apply orb_true_r. specialize (Hadd m (negb (ms_has_device_type m)) true Hins). unfold node_outcome.
    rewrite <- (missing_eq _ _ Hdt) in Hadd. cbn [app] in Hadd, Hh.
    destruct (insert_block _ _ _ _ _ _ _ _ _ _ _) as [buf' [n|err|]]; [| |done].
    + destruct Hadd as (b2 & -> & -> & Hh2). exists b2, (p1 ++ p2 ++ missing_device_type (p1 ++ p2) ++ [(s_reg, v)]).
      split_and!; [done|done| |by constructor; [|lia]]. rewrite <- !app_assoc in Hh2. exact Hh2.
    + destruct Hadd as (-> & -> & Hbig). split_and!; [done|done|]. exists b1, (p1 ++ p2). split_and!; [done|done|].
      apply ml_dropped; [done|lia].
Qed.

(** The patch of the node whose properties are [mps]. *)
Lemma patched_node_spec mps : flat_props (bl_strings b) mps cl ->
  node_outcome mps (patched_node (snd (fold_left (memory_step (bl_strings b)) cl (body, 0, memory_scan_init body)))).
Proof.
  intros Hcl. destruct (memory_props _ _ _ Hcl body (memory_scan_init body))
    as (ci & nops & m & Hfold & Hcn & Hci & Hnops & Hins & Hnil & Hdt & Hreg).
  rewrite Hfold. cbn [snd]. cbn [memory_scan_init ms_insert_off ms_has_device_type ms_existing_reg] in *.
  rewrite orb_false_r in Hdt. pose proof (node_insert_off mps ci m Hins Hnil) as Hoff.
  destruct Hreg as [[Hno Hr]|(p1 & old & p2 & l1 & o & l2 & -> & Hno & -> & H1 & H2 & Hn & Hio & Hr)].
  - by apply (patched_new_reg mps ci nops).
  - rewrite has_device_type_reg in Hdt. by apply (patched_old_reg p1 old p2 l1 o l2 nops).
Qed.
End found.
End patch.

(** ** The memory of a tree *)

Definition no_memory (ts : list tree) : Prop := Forall (fun t => ~ memory_name (tree_name t)) ts.

(** What becomes of the children of the root: a first memory node gets the value,
    or a node named after the base is the last. *)
Inductive memory_set (base : Z) (v : list Z) : list tree -> list tree -> Prop :=
| ms_new kids unit_address : no_memory kids -> hex_value unit_address = base ->
    memory_set base v kids (kids ++ [Node (s_memory_at ++ unit_address) [device_type_prop; (s_reg, v)] []])
| ms_old k1 mn mps mps' mks k2 : no_memory k1 -> memory_name mn -> memory_props_set v mps mps' ->
    memory_set base v (k1 ++ Node mn mps mks :: k2) (k1 ++ Node mn mps' mks :: k2).

(** What is left of them when there is no room. *)
Inductive memory_left (v : list Z) : list tree -> list tree -> Prop :=
| mf_new kids : no_memory kids -> memory_left v kids kids
| mf_old k1 mn mps mps' mks k2 : no_memory k1 -> memory_name mn -> memory_props_left v mps mps' ->
    memory_left v (k1 ++ Node mn mps mks :: k2) (k1 ++ Node mn mps' mks :: k2).

Lemma memory_cases ts : no_memory ts \/
  exists k1 mn mps mks k2, ts = k1 ++ Node mn mps mks :: k2 /\ no_memory k1 /\ memory_name mn.
Proof.
  induction ts as [|[n ps ks] ts [IH|(k1 & mn & mps & mks & k2 & -> & Hk1 & Hmn)]]; [by left; constructor| |].
  - destruct (decide (memory_name n)); [right|left; by constructor]. exists [], n, ps, ks, ts. split_and!; [done|by constructor|done].
  - destruct (decide (memory_name n)); right.
    + exists [], n, ps, ks, (k1 ++ Node mn mps mks :: k2). split_and!; [done|by constructor|done].
    + exists (Node n ps ks :: k1), mn, mps, mks, k2. split_and!; [done|by constructor|done].
Qed.

Section theorem.
Context {T : Target}.
Context (b : Blob) (rn : list Z) (rps : list (list Z * list Z)) (max base size : Z).
Context (Hok : blob_ok b) (Hmax : max <= zlen (blob_bytes b)) (H32 : max < 2 ^ 32).
Context (Hsm : zlen (blob_bytes b) + 256 <= usize_max) (Hbase : 0 <= base <= u64_max).

Let ac := root_cells s_address_cells rps.
Let sc := root_cells s_size_cells rps.

Definition set_outcome (kids : list tree) (out : list Z * res FdtPatchError Z) : Prop :=
  match out with
  | (buf', Ok n) => cells_ok ac = true /\ cells_ok sc = true /\ exists b' kids', buf' = blob_bytes b' /\ n = bl_total b' /\
      holds b' (Node rn rps kids') /\ memory_set base (reg_value base size ac sc) kids kids'
  | (buf', Err UnsupportedCellSize) => buf' = blob_bytes b /\ (cells_ok ac = false \/ cells_ok sc = false)
  | (buf', Err BufferTooSmall) => max < bl_total b + 96 /\ exists b' kids', buf' = blob_bytes b' /\
      holds b' (Node rn rps kids') /\ memory_left (reg_value base size ac sc) kids kids'
  | _ => False
  end.

Lemma small_blob : small (blob_bytes b).
Proof. unfold small. lia. Qed.

Lemma set_new_node kids n1 pl kl n2 r : holds b (Node rn rps kids) ->
  bl_items b = n1 ++ IBegin rn :: pl ++ kl ++ IEnd :: n2 -> root_items (bl_strings b) rn rps kids n1 pl kl n2 -> no_memory kids ->
  rs_addr_cells r = ac -> rs_size_cells r = sc -> rs_memory_node_begin r = None ->
  rs_root_end_node r = Some (bl_struct_off b + zlen (items_bytes (n1 ++ IBegin rn :: pl ++ kl))) ->
  set_outcome kids (set_memory max (bl_total b) (bl_strings_off b) (zlen (bl_strings b)) (zlen (struct_bytes (bl_items b))) base size
    r (blob_bytes b)).
Proof.
  intros Hh Hi Hroot Hno Ha Hs Hm He. unfold set_memory. rewrite Ha, Hs, Hm, He.
  destruct (cells_ok ac) eqn:Hac; cbn [negb orb]; [|split; [done|by left]].
  destruct (cells_ok sc) eqn:Hsc; cbn [negb]; [|split; [done|by right]].
  destruct (find_names b Hok) as (fd & fr & dt & reg & Hfd & Hfr & Heq & Hnamed).
  unfold sbind at 1. rewrite Hfd. unfold sbind at 1. rewrite Hfr.
  destruct (match fd with Some o => _ | None => _ end) as [dt' n']. destruct (match fr with Some o => _ | None => _ end) as [reg' n].
  injection Heq as -> -> ->. unfold sbind at 1. rewrite build_node_spec by done. unfold sbind at 1. cbn [ok_or]. unfold slift at 1.
  set (add_dt := bool_decide (fd = None)) in *. set (add_reg := bool_decide (fr = None)) in *.
  set (ins := node_items base size ac sc dt reg). pose proof (items_bytes_bound base size ac sc dt reg Hbase Hac Hsc) as Hz. fold ins in Hz.
  destruct (hex_digits_value base Hbase) as (Hhex & Hhl & Hh0 & _).
  destruct (blob_sizes b Hok) as (H40 & Hso & Hst & _). pose proof (zlen_nonneg (struct_bytes (bl_items b))).
  pose proof (props_added (bl_strings b) add_dt add_reg dt reg true true base size ac sc Hnamed ltac:(lia) Hac Hsc) as Hprops.
  assert (Hnode : flat_node (bl_strings b ++ new_strings add_dt add_reg)
    (Node (s_memory_at ++ hex_digits base) [device_type_prop; (s_reg, reg_value base size ac sc)] []) ins).
  { apply (fn_node _ _ _ [] [device_type_item dt; IProp reg (reg_value base size ac sc)] []); [|exact Hprops|constructor].
    rewrite elem_of_app. intros [Hin|Hin]; [|done]. revert Hin. apply (bool_decide_unpack (0 ∉ s_memory_at)). vm_compute. exact I. }
  assert (Hins : Forall item_ok ins) by (eapply Forall_impl; [|eapply (proj1 (flat_good _)); exact Hnode]; by intros ? []).
  assert (Hi' : bl_items b = (n1 ++ IBegin rn :: pl ++ kl) ++ IEnd :: n2)
    by (rewrite Hi; repeat (progress (rewrite <- ?app_assoc; cbn [app])); done).
  assert (Hz128 : zlen (items_bytes ins) <= 128) by lia.
  pose proof (insert_block_spec max b _ _ ins add_dt add_reg Hok Hi' Hins Hmax H32 Hsm Hz128) as Hspec. cbn zeta in Hspec.
  destruct (insert_block _ _ _ _ _ _ _ _ _ _ _) as [buf' [n|err|]]; [| |done].
  - destruct Hspec as (-> & -> & Hok2). split; [done|]. split; [done|].
    exists (blob_insert b (n1 ++ IBegin rn :: pl ++ kl) (IEnd :: n2) ins (new_strings add_dt add_reg)),
      (kids ++ [Node (s_memory_at ++ hex_digits base) [device_type_prop; (s_reg, reg_value base size ac sc)] []]).
    split_and!; [done|done|split; [done|]|by constructor]. cbn [blob_insert bl_items bl_strings].
    replace ((n1 ++ IBegin rn :: pl ++ kl) ++ ins ++ IEnd :: n2) with (n1 ++ IBegin rn :: pl ++ (kl ++ ins) ++ IEnd :: n2)
      by (repeat (progress (rewrite <- ?app_assoc; cbn [app])); done).
    eapply tree_of_items; [exact Hroot|]. apply flat_kids_app; [apply (proj2 (flat_ext _ _)), Hroot|].
    rewrite <- (app_nil_r ins). by repeat constructor.
  - destruct Hspec as (-> & -> & Hbig). pose proof (new_strings_size add_dt add_reg).
    split; [destruct add_dt, add_reg; lia|]. exists b, kids. split_and!; [done|done|by constructor].
Qed.

Lemma sbind_assoc3 {A B C D} (m : fdt A) (f : A -> fdt B) (g : B -> fdt C) (k : C -> fdt D) buf :
  (let! x := m in let! y := f x in let! z := g y in k z) buf = (let! z := (let! x := m in let! y := f x in g y) in k z) buf.
Proof. unfold sbind. destruct (m buf) as [? [?| |]]; [|done..]. by destruct (f _ _) as [? [?| |]]. Qed.

Lemma set_old_node k1 mn mps mks k2 A cl kl Z0 r :
  bl_items b = A ++ IBegin mn :: cl ++ kl ++ IEnd :: Z0 -> 0 ∉ mn ->
  flat_props (bl_strings b) mps cl -> flat_kids (bl_strings b) mks kl -> no_memory k1 -> memory_name mn ->
  (forall e mps' cl', flat_props (bl_strings b ++ e) mps' cl' ->
    flat_kids (bl_strings b ++ e) [Node rn rps (k1 ++ Node mn mps' mks :: k2)] (A ++ IBegin mn :: cl' ++ kl ++ IEnd :: Z0)) ->
  rs_addr_cells r = ac -> rs_size_cells r = sc -> rs_memory_node_begin r = Some (bl_struct_off b + zlen (items_bytes A)) ->
  set_outcome (k1 ++ Node mn mps mks :: k2)
    (set_memory max (bl_total b) (bl_strings_off b) (zlen (bl_strings b)) (zlen (struct_bytes (bl_items b))) base size r (blob_bytes b)).
Proof.
  intros Hi Hmn0 Hcl Hkl Hno Hmn Hre Ha Hs Hm. unfold set_memory. rewrite Ha, Hs, Hm.
  destruct (cells_ok ac) eqn:Hac; cbn [negb orb]; [|split; [done|by left]].
  destruct (cells_ok sc) eqn:Hsc; cbn [negb]; [|split; [done|by right]].
  destruct (find_names b Hok) as (fd & fr & dt & reg & Hfd & Hfr & Heq & Hnamed).
  unfold sbind at 1. rewrite Hfd. unfold sbind at 1. rewrite Hfr.
  destruct (match fd with Some o => _ | None => _ end) as [dt' n']. destruct (match fr with Some o => _ | None => _ end) as [reg' n].
  injection Heq as -> -> ->.
  set (add_dt := bool_decide (fd = None)) in *. set (add_reg := bool_decide (fr = None)) in *.
  unfold set_reg_in_existing_memory_node. rewrite sbind_assoc3.
  pose proof (node_scanned b A mn cl kl Z0 mps mks Hok small_blob Hi Hmn0 Hcl Hkl) as Hscan. cbn zeta in Hscan.
  unfold sbind at 1. rewrite Hscan.
  pose proof (patched_node_spec b (fun mps' => Node rn rps (k1 ++ Node mn mps' mks :: k2)) mn A kl Z0 max base size ac sc add_dt add_reg dt reg
    Hac Hsc Hnamed Hre Hmax H32 Hsm Hok cl Hi mps Hcl) as Hout. unfold patched_node, node_outcome in Hout.
  unfold set_outcome. destruct (patch_memory _ _ _ _ _ _ _ _ _ _ _ _ _ _) as [buf' [n|err|]]; [| |done].
  - destruct Hout as (b' & mps' & -> & -> & Hh & Hp). split; [done|]. split; [done|].
    eexists b', _. split_and!; [done|done|exact Hh|]. by constructor.
  - destruct Hout as (-> & Hbig & b' & mps' & -> & Hh & Hp). split; [done|]. eexists b', _. split_and!; [done|exact Hh|]. by constructor.
Qed.
End theorem.

Section promise.
Context {T : Target}.

(** The theorem below, for the proofs of the callers. *)
Lemma set_memory_tree b rn rps kids max base size :
  holds b (Node rn rps kids) -> max <= zlen (blob_bytes b) -> max < 2 ^ 32 -> zlen (blob_bytes b) + 256 <= usize_max ->
  0 <= base <= u64_max ->
  let ac := root_cells s_address_cells rps in
  let sc := root_cells s_size_cells rps in
  match fdt_set_memory max base size (blob_bytes b) with
  | (buf', Ok n) => cells_ok ac = true /\ cells_ok sc = true /\ exists b' kids', buf' = blob_bytes b' /\ n = bl_total b' /\
      holds b' (Node rn rps kids') /\ memory_set base (reg_value base size ac sc) kids kids'
  | (buf', Err UnsupportedCellSize) => buf' = blob_bytes b /\ (cells_ok ac = false \/ cells_ok sc = false)
  | (buf', Err BufferTooSmall) => max < bl_total b + 96 /\ exists b' kids', buf' = blob_bytes b' /\
      holds b' (Node rn rps kids') /\ memory_left (reg_value base size ac sc) kids kids'
  | _ => False
  end.
Proof.
  intros Hh Hmax H32 Hsm Hbase ac sc. pose proof Hh as [Hok Hf]. assert (Hsmall : small (blob_bytes b)) by (unfold small; lia).
  pose proof (proj2 (flat_good _) _ _ Hf) as Hgood.
  destruct (tree_items _ _ _ _ _ Hf) as (n1 & pl & kl & n2 & Hi & Hroot). pose proof (ri_kids _ _ _ _ _ _ _ _ Hroot) as Hkl.
  destruct (memory_cases kids) as [Hno|(k1 & mn & mps & mks & k2 & -> & Hk1 & Hmn)].
  - pose proof (root_kids _ _ _ Hkl (bl_struct_off b + zlen (items_bytes (n1 ++ IBegin rn :: pl))) (props_scan rps root_scan_init)
      (or_introl Hno)) as Hfold.
    assert (Hend : bl_struct_off b + zlen (items_bytes (n1 ++ IBegin rn :: pl)) + zlen (items_bytes kl) =
      bl_struct_off b + zlen (items_bytes (n1 ++ IBegin rn :: pl ++ kl))).
    { repeat (rewrite ?items_bytes_app, ?items_bytes_cons, ?zlen_app). lia. }
    rewrite Hend in Hfold. pose proof (root_scanned _ _ _ _ _ _ _ _ (bl_struct_off b) _ Hroot Hfold) as Hscan. rewrite <- Hi in Hscan.
    rewrite (set_memory_scans b max base size _ Hok Hsmall Hgood Hscan).
    apply (set_new_node b rn rps max base size Hok Hmax H32 Hsm Hbase kids n1 pl kl n2); try done; by rewrite props_scan_cells.
  - apply flat_kids_split in Hkl as (l1 & nl & l2 & -> & H1 & Hnl & H2).
    pose proof Hnl as Hnl'. inversion Hnl' as [? ? ? cl ckl Hmn0 Hcl Hckl]; subst.
    set (A := n1 ++ IBegin rn :: pl ++ l1). set (r1 := set_memory_node (props_scan rps root_scan_init) (bl_struct_off b + zlen (items_bytes A))).
    assert (Hfold : fold_left (root_step (bl_strings b)) (l1 ++ (IBegin mn :: cl ++ ckl ++ [IEnd]) ++ l2)
        (bl_struct_off b + zlen (items_bytes (n1 ++ IBegin rn :: pl)), 1, props_scan rps root_scan_init) =
      (bl_struct_off b + zlen (items_bytes (n1 ++ IBegin rn :: pl ++ l1 ++ (IBegin mn :: cl ++ ckl ++ [IEnd]) ++ l2)), 1, r1)).
    { rewrite !fold_left_app, (root_kids _ _ _ H1 _ _ (or_introl Hk1)), (root_kid _ _ _ _ _ Hnl).
      cbn [tree_name]. rewrite bool_decide_true by done.
      assert (HA : bl_struct_off b + zlen (items_bytes (n1 ++ IBegin rn :: pl)) + zlen (items_bytes l1) = bl_struct_off b + zlen (items_bytes A)).
      { unfold A. repeat (rewrite ?items_bytes_app, ?items_bytes_cons, ?zlen_app). lia. }
      rewrite HA. fold r1. rewrite (root_kids _ _ _ H2) by (right; unfold r1, set_memory_node; by rewrite props_scan_cells).
      do 2 f_equal. unfold A. repeat (rewrite ?items_bytes_app, ?items_bytes_cons, ?zlen_app). lia. }
    pose proof (root_scanned _ _ _ _ _ _ _ _ (bl_struct_off b) _ Hroot Hfold) as Hscan. rewrite <- Hi in Hscan.
    rewrite (set_memory_scans b max base size _ Hok Hsmall Hgood Hscan).
    apply (set_old_node b rn rps max base size Hok Hmax H32 Hsm k1 mn mps mks k2 A cl ckl (l2 ++ IEnd :: n2)); try done.
    + rewrite Hi. unfold A. repeat (progress (rewrite <- ?app_assoc; cbn [app])). done.
    + intros e mps' cl' Hcl'.
      replace (A ++ IBegin mn :: cl' ++ ckl ++ IEnd :: l2 ++ IEnd :: n2) with
        (n1 ++ IBegin rn :: pl ++ (l1 ++ (IBegin mn :: cl' ++ ckl ++ [IEnd]) ++ l2) ++ IEnd :: n2)
        by (unfold A; repeat (progress (rewrite <- ?app_assoc; cbn [app])); done).
      eapply tree_of_items; [exact Hroot|]. destruct (flat_ext (bl_strings b) e) as [_ Hek].
      apply flat_kids_app; [auto|]. constructor; [|auto]. constructor; auto.
    + unfold r1, set_memory_node. cbn [set_root_end rs_addr_cells]. by rewrite props_scan_cells.
    + unfold r1, set_memory_node. cbn [set_root_end rs_size_cells]. by rewrite props_scan_cells.
    + unfold r1, set_memory_node. by rewrite props_scan_cells.
Qed.

(** C36: Setting the memory sets it in the tree.  For a blob that holds a tree,
    [fdt_set_memory] gives a blob that holds the tree in which the first memory
    node of the root has the [reg] value of base and size in the cells the root
    asks for - or, without a memory node, a new last child named after the base,
    of device type "memory" - and all else is unchanged; the size returned is that
    of the new blob.  A memory node is a child named "memory", or "memory@" with at
    least one more byte, not every name that starts with "memory"; a root without a
    cell property counts as asking for one cell, it is not an error.  It refuses
    exactly the cell counts other than one and two, changing nothing; without room
    the blob still holds the tree, but for the old [reg].  Nothing panics. *)
Theorem set_memory_sets b rn rps kids max base size :
  holds b (Node rn rps kids) -> max <= zlen (blob_bytes b) -> max < 2 ^ 32 -> zlen (blob_bytes b) + 256 <= usize_max ->
  0 <= base <= u64_max ->
  let ac := root_cells s_address_cells rps in
  let sc := root_cells s_size_cells rps in
  match fdt_set_memory max base size (blob_bytes b) with
  | (buf', Ok n) => cells_ok ac = true /\ cells_ok sc = true /\ exists b' kids', buf' = blob_bytes b' /\ n = bl_total b' /\
      holds b' (Node rn rps kids') /\ memory_set base (reg_value base size ac sc) kids kids'
  | (buf', Err UnsupportedCellSize) => buf' = blob_bytes b /\ (cells_ok ac = false \/ cells_ok sc = false)
  | (buf', Err BufferTooSmall) => max < bl_total b + 96 /\ exists b' kids', buf' = blob_bytes b' /\
      holds b' (Node rn rps kids') /\ memory_left (reg_value base size ac sc) kids kids'
  | _ => False
  end.
Proof. intros. by apply set_memory_tree. Qed.
End promise.

(** The sample of [FdtPatch] gets a memory node; the buffer is just large enough. *)
Lemma set_memory_sets_witness :
  holds (sample_blob 2) (with_chosen [] [] [] [] [] (sample_props 2)) /\
  exists b' kids', fdt_set_memory (T := target64) 216 0x80000000 0x40000000 (blob_bytes (sample_blob 2)) =
      (blob_bytes b', Ok (bl_total b')) /\
    holds b' (Node [] [] kids') /\
    memory_set 0x80000000 (reg_value 0x80000000 0x40000000 1 1) ([] ++ Node s_chosen (sample_props 2) [] :: []) kids'.
Proof.
  split; [by apply sample_holds|].
  assert (Hlen : zlen (blob_bytes (sample_blob 2)) = 233) by (vm_compute; reflexivity).
  pose proof (set_memory_sets (T := target64) (sample_blob 2) [] [] ([] ++ Node s_chosen (sample_props 2) [] :: []) 216 0x80000000 0x40000000
    (sample_holds 2 ltac:(lia))) as H.
  rewrite Hlen in H. cbv zeta in H. change (root_cells s_address_cells []) with 1 in H. change (root_cells s_size_cells []) with 1 in H.
  assert (H0 : 216 <= 233) by lia. specialize (H H0 eq_refl).
  assert (H1 : 233 + 256 <= usize_max (T := target64)) by (vm_compute; discriminate).
  assert (H2 : 0 <= 0x80000000 <= u64_max) by (split; vm_compute; discriminate).
  specialize (H H1 H2).
  destruct (fdt_set_memory 216 0x80000000 0x40000000 (blob_bytes (sample_blob 2))) as [buf' r] eqn:Hrun.
  assert (Hr : r = Ok 216) by (apply (f_equal snd) in Hrun; cbn [snd] in Hrun; rewrite <- Hrun; vm_compute; reflexivity).
  clear Hrun. rewrite Hr in H |- *. destruct H as (_ & _ & b' & kids' & -> & -> & Hh & Hs).
  exists b', kids'. split; [reflexivity|]. split; [exact Hh|exact Hs].
Defined.
