(* ===== verification/Locator.v ===== *)
(** * Locator: where the image is, and whose signature counts
    ([crates/core/src/ffs/locator.rs], [trust.rs], [core/src/handoff.rs],
    [crates/stage/src/anchor.rs])

    The locator says where the image, its root and its microcode lie in the
    medium; it travels from stage to stage in the handoff record and is checked
    against the platform's own capacity.  The trust block carries the keys, the
    image family and the rollback floor and is linked into the verifier.  The two
    are packed little-endian records; a stage publishes its locator once. *)

From S2P Require Import Prelude.
From S2P Require Import Bytes.
From S2P Require Import Wire.
From S2P Require Import Crypto.
From Stdlib Require Import ZArith Lia.
From stdpp Require Import base numbers list option.

#[local] Open Scope Z_scope.

(** ** The locator block *)

Definition LOCATOR_MAGIC : list Z := [0x46; 0x53; 0x54; 0x41; 0x52; 0x54; 0x30; 0x31].
Definition LOCATOR_VERSION : Z := 7.
Definition LOCATOR_SIZE : Z := 40.

Record LocatorBlock := {
  lb_magic : list Z; lb_version : Z; lb_manifest_offset : Z; lb_manifest_size : Z; lb_total_image_size : Z;
  lb_anchor_offset : Z; lb_microcode_offset : Z; lb_microcode_size : Z; lb_image_offset : Z
}.

Definition locator_placeholder : LocatorBlock := {|
  lb_magic := LOCATOR_MAGIC; lb_version := LOCATOR_VERSION; lb_manifest_offset := 0; lb_manifest_size := 0;
  lb_total_image_size := 0; lb_anchor_offset := 0; lb_microcode_offset := 0; lb_microcode_size := 0;
  lb_image_offset := 0 |}.

Definition locator_pieces (b : LocatorBlock) : list (list Z) :=
  [lb_magic b; le_enc 4 (lb_version b); le_enc 4 (lb_manifest_offset b); le_enc 4 (lb_manifest_size b);
   le_enc 4 (lb_total_image_size b); le_enc 4 (lb_anchor_offset b); le_enc 4 (lb_microcode_offset b);
   le_enc 4 (lb_microcode_size b); le_enc 4 (lb_image_offset b)].

(** [as_bytes] *)
Definition locator_bytes (b : LocatorBlock) : list Z := concat (locator_pieces b).

(** [write_to] *)
Definition locator_write {E} (b : LocatorBlock) (output : list Z) : res E (list Z) :=
  if zlen output <? LOCATOR_SIZE then Panic else Ok (upd output 0 (locator_bytes b)).

Definition read_locator (b : list Z) : LocatorBlock := {|
  lb_magic := sub b 0 8; lb_version := u32_at b 8; lb_manifest_offset := u32_at b 12; lb_manifest_size := u32_at b 16;
  lb_total_image_size := u32_at b 20; lb_anchor_offset := u32_at b 24; lb_microcode_offset := u32_at b 28;
  lb_microcode_size := u32_at b 32; lb_image_offset := u32_at b 36 |}.

Definition locator_parse (bytes : list Z) : option LocatorBlock :=
  if zlen bytes =? LOCATOR_SIZE then
    let block := read_locator bytes in
    if bytes_eqb (lb_magic block) LOCATOR_MAGIC && (lb_version block =? LOCATOR_VERSION) then Some block else None
  else None.

(** [LocatorRef::read_volatile] *)
Definition locator_read_volatile (data : list Z) : option LocatorBlock :=
  if negb (zlen data =? LOCATOR_SIZE) then None else locator_parse data.

(** ** Places in the medium *)

Record MediaLocator := {
  ml_image_offset : Z; ml_image_size : Z; ml_root_offset : Z; ml_root_size : Z;
  ml_microcode_offset : Z; ml_microcode_size : Z
}.

Definition locator_media (b : LocatorBlock) : MediaLocator := {|
  ml_image_offset := lb_image_offset b; ml_image_size := lb_total_image_size b;
  ml_root_offset := lb_manifest_offset b; ml_root_size := lb_manifest_size b;
  ml_microcode_offset := lb_microcode_offset b; ml_microcode_size := lb_microcode_size b |}.

(** The closure of [validate]. *)
Definition within (offset size limit : Z) : bool :=
  match checked_add u64_max offset size with Some end_ => end_ <=? limit | None => false end.

Definition media_validate (m : MediaLocator) (media_capacity : Z) : bool :=
  negb (ml_image_size m =? 0)
  && within (ml_image_offset m) (ml_image_size m) media_capacity
  && (ml_root_size m =? 512)
  && within (ml_root_offset m) (ml_root_size m) (ml_image_size m)
  && (if ml_microcode_size m =? 0 then ml_microcode_offset m =? 0
      else negb (ml_microcode_offset m =? 0)
           && within (ml_microcode_offset m) (ml_microcode_size m) (ml_image_size m)).

(** ** The trust block *)

Definition TRUST_MAX_KEYS : Z := 4.
Definition TRUST_MAGIC : list Z := [0x46; 0x53; 0x54; 0x52; 0x55; 0x53; 0x54; 0x31].
Definition TRUST_VERSION : Z := 1.
Definition TRUST_SIZE : Z := 320.
Definition KEY_SIZE : Z := 68.

Record TrustBlock := {
  tb_magic : list Z; tb_version : Z; tb_encoded_size : Z; tb_minimum_security_version : Z; tb_key_count : Z;
  tb_reserved : Z; tb_image_family : list Z; tb_keys : list VerificationKey
}.

(** Keys have two bytes of padding, which nothing reads. *)
Definition key_pieces (k : VerificationKey) : list (list Z) :=
  [[vk_key_id k]; [vk_algorithm k]; zeros 2; vk_key_lo k; vk_key_hi k].

Definition read_key (b : list Z) : VerificationKey := {|
  vk_key_id := u8_at b 0; vk_algorithm := u8_at b 1; vk_key_lo := sub b 4 32; vk_key_hi := sub b 36 32 |}.

Definition ZERO_KEY : VerificationKey := {|
  vk_key_id := 0; vk_algorithm := 0; vk_key_lo := zeros 32; vk_key_hi := zeros 32 |}.

Definition trust_placeholder : TrustBlock := {|
  tb_magic := TRUST_MAGIC; tb_version := TRUST_VERSION; tb_encoded_size := TRUST_SIZE;
  tb_minimum_security_version := 0; tb_key_count := 0; tb_reserved := 0; tb_image_family := zeros 16;
  tb_keys := replicate (Z.to_nat TRUST_MAX_KEYS) ZERO_KEY |}.

Definition trust_pieces (b : TrustBlock) : list (list Z) :=
  [tb_magic b; le_enc 4 (tb_version b); le_enc 4 (tb_encoded_size b); le_enc 8 (tb_minimum_security_version b);
   le_enc 4 (tb_key_count b); le_enc 4 (tb_reserved b); tb_image_family b;
   concat (map (fun k => concat (key_pieces k)) (tb_keys b))].

Definition trust_bytes (b : TrustBlock) : list Z := concat (trust_pieces b).

Definition trust_write {E} (b : TrustBlock) (dest : list Z) : res E (list Z) :=
  if zlen dest <? TRUST_SIZE then Panic else Ok (upd dest 0 (trust_bytes b)).

Definition read_trust (b : list Z) : TrustBlock := {|
  tb_magic := sub b 0 8; tb_version := u32_at b 8; tb_encoded_size := u32_at b 12;
  tb_minimum_security_version := u64_at b 16; tb_key_count := u32_at b 24; tb_reserved := u32_at b 28;
  tb_image_family := sub b 32 16;
  tb_keys := map read_key (split_records KEY_SIZE (Z.to_nat TRUST_MAX_KEYS) (sub b 48 272)) |}.

(** The checks of [parse] and of [TrustRef::read_volatile]. *)
Definition trust_header_ok (b : TrustBlock) : bool :=
  bytes_eqb (tb_magic b) TRUST_MAGIC && (tb_version b =? TRUST_VERSION) && (tb_encoded_size b =? TRUST_SIZE)
  && (tb_key_count b <=? TRUST_MAX_KEYS) && (tb_reserved b =? 0).

Definition trust_parse (bytes : list Z) : option TrustBlock :=
  if zlen bytes =? TRUST_SIZE then
    let block := read_trust bytes in
    if trust_header_ok block then Some block else None
  else None.

(** [TrustRef::read_volatile] of the bytes at [addr]. *)
Definition trust_read_volatile (addr : Z) (data : list Z) : option TrustBlock :=
  if negb (zlen data =? TRUST_SIZE) || negb (addr mod 8 =? 0) then None
  else let block := read_trust data in if negb (trust_header_ok block) then None else Some block.

Definition valid_keys {E} (b : TrustBlock) : res E (list VerificationKey) :=
  or_panic (get_range (tb_keys b) 0 (tb_key_count b)).

(** ** The handoff between stages *)

Definition HANDOFF_MAGIC : Z := 0x46535448.
Definition HANDOFF_VERSION : Z := 3.
Definition HANDOFF_MAX_SIZE : Z := 256.
Definition HANDOFF_SIZE : Z := 56.

Record StageHandoff := { sh_magic : Z; sh_version : Z; sh_dram_size : Z; sh_locator : LocatorBlock }.

Definition handoff_new (dram_size : Z) (locator : LocatorBlock) : StageHandoff := {|
  sh_magic := HANDOFF_MAGIC; sh_version := HANDOFF_VERSION; sh_dram_size := dram_size; sh_locator := locator |}.

Definition handoff_pieces (h : StageHandoff) : list (list Z) :=
  [le_enc 4 (sh_magic h); le_enc 4 (sh_version h); le_enc 8 (sh_dram_size h); locator_bytes (sh_locator h)].

(** [write_to]: the buffer and the size written. *)
Definition handoff_write (h : StageHandoff) (buf : list Z) : option (list Z * Z) :=
  if HANDOFF_SIZE <=? zlen buf then Some (upd buf 0 (concat (handoff_pieces h)), HANDOFF_SIZE) else None.

Definition read_handoff (b : list Z) : StageHandoff := {|
  sh_magic := u32_at b 0; sh_version := u32_at b 4; sh_dram_size := u64_at b 8;
  sh_locator := read_locator (sub b 16 LOCATOR_SIZE) |}.

Definition handoff_read_from (buf : list Z) : option StageHandoff :=
  if HANDOFF_SIZE <=? zlen buf then
    let handoff := read_handoff buf in
    if (sh_magic handoff =? HANDOFF_MAGIC) && (sh_version handoff =? HANDOFF_VERSION)
       && bool_decide (is_Some (locator_parse (locator_bytes (sh_locator handoff))))
    then Some handoff else None
  else None.

(** [try_deserialize]; [ram] is the buffer at the address. *)
Definition try_deserialize (handoff_ptr : Z) (ram : Z -> list Z) : option StageHandoff :=
  if handoff_ptr =? 0 then None else handoff_read_from (ram handoff_ptr).

(** ** The published locator

    The statics of [anchor.rs]: the anchor patched into the initial image, the
    inherited copy, and which of them is published. *)

Inductive Published := Unpublished | OwnAnchor | InheritedCopy.

Record Anchor := { an_patched : list Z; an_inherited : list Z; an_locator : Published }.

Definition initial_stage (a : Anchor) : Anchor := {|
  an_patched := an_patched a; an_inherited := an_inherited a; an_locator := OwnAnchor |}.

Definition install_locator (l : LocatorBlock) (capacity : Z) : sres Anchor unit unit := fun a =>
  match an_locator a with
  | Unpublished =>
      if negb (media_validate (locator_media l) capacity) then (a, Err tt)
      else
        match locator_write l (zeros LOCATOR_SIZE) with
        | Ok bytes => ({| an_patched := an_patched a; an_inherited := bytes; an_locator := InheritedCopy |}, Ok tt)
        | Err e => (a, Err e)
        | Panic => (a, Panic)
        end
  | _ => (a, Err tt)
  end.

Definition fstart_anchor_bytes (a : Anchor) : list Z :=
  match an_locator a with Unpublished => [] | OwnAnchor => an_patched a | InheritedCopy => an_inherited a end.

Definition locator (a : Anchor) : option LocatorBlock := locator_read_volatile (fstart_anchor_bytes a).

Definition media_locator (a : Anchor) : option MediaLocator := locator_media <$> locator a.

Definition anchor_image_size {T : Target} (a : Anchor) : Z :=
  default 0 (media_locator a ≫= fun m => try_from usize_max (ml_image_size m)).

(** What [write_handoff] reports. *)
Inductive HandoffFault := InitialLocatorMissing | HandoffBufferTooSmall.

(** Into the reserved buffer of [HANDOFF_MAX_SIZE] bytes. *)
Definition write_handoff (a : Anchor) (dram_size : Z) (buf : list Z) : res HandoffFault (list Z) :=
  let? l := ok_or (locator a) InitialLocatorMissing in
  let? (buf, _) := ok_or (handoff_write (handoff_new dram_size l) buf) HandoffBufferTooSmall in
  Ok buf.

(** ** The wire formats *)

Record locator_wf (b : LocatorBlock) : Prop := {
  lw_magic : lb_magic b = LOCATOR_MAGIC; lw_version : lb_version b = LOCATOR_VERSION;
  lw_manifest_offset : u32_ok (lb_manifest_offset b); lw_manifest_size : u32_ok (lb_manifest_size b);
  lw_total : u32_ok (lb_total_image_size b); lw_anchor : u32_ok (lb_anchor_offset b);
  lw_microcode_offset : u32_ok (lb_microcode_offset b); lw_microcode_size : u32_ok (lb_microcode_size b);
  lw_image : u32_ok (lb_image_offset b)
}.

Lemma locator_fields b : locator_wf b -> zlen (lb_magic b) = 8 /\ u32_ok (lb_version b).
Proof. intros [-> -> _ _ _ _ _ _ _]. done. Qed.

Lemma zlen_locator_bytes b : locator_wf b -> zlen (locator_bytes b) = LOCATOR_SIZE.
Proof.
  intros Hw. destruct (locator_fields b Hw) as [Hm _]. unfold locator_bytes, locator_pieces, LOCATOR_SIZE.
  rewrite zlen_concat. cbn [sum_len foldr]. rewrite !zlen_le_enc. lia.
Qed.

Lemma read_locator_bytes b : locator_wf b -> read_locator (locator_bytes b) = b.
Proof.
  intros Hw. destruct (locator_fields b Hw) as [Hm Hv]. destruct Hw as [_ _ ? ? ? ? ? ? ?], b.
  unfold read_locator, locator_bytes, locator_pieces. cbn [lb_magic lb_version lb_manifest_offset lb_manifest_size
    lb_total_image_size lb_anchor_offset lb_microcode_offset lb_microcode_size lb_image_offset] in *.
  f_equal; any_field.
Qed.

Lemma locator_parse_bytes b : locator_wf b -> locator_parse (locator_bytes b) = Some b.
Proof.
  intros Hw. unfold locator_parse. rewrite (zlen_locator_bytes b Hw), Z.eqb_refl. cbn zeta.
  rewrite (read_locator_bytes b Hw). destruct Hw as [-> -> _ _ _ _ _ _ _]. done.
Qed.

Lemma locator_parse_inv bytes b :
  bytes_ok bytes -> locator_parse bytes = Some b -> locator_wf b /\ bytes = locator_bytes b.
Proof.
  intros Hb H. unfold locator_parse in H. destruct (Z.eqb_spec (zlen bytes) LOCATOR_SIZE) as [Hz|]; [|done].
  unfold LOCATOR_SIZE in Hz. cbn zeta in H. destruct (_ && _) eqn:Hc; [|done]. injection H as <-.
  apply andb_true_iff in Hc as [Hm Hv]. apply bytes_eqb_true in Hm. apply Z.eqb_eq in Hv. split.
  - split; [done|done|unfold read_locator; cbn; apply u32_at_ok; (done || lia)..].
  - symmetry. unfold locator_bytes, locator_pieces, read_locator.
    cbn [lb_magic lb_version lb_manifest_offset lb_manifest_size lb_total_image_size lb_anchor_offset
      lb_microcode_offset lb_microcode_size lb_image_offset].
    apply matches_concat. cbn [matches]. rewrite !zlen_le_enc, zlen_sub by lia.
    repeat (split; [by rewrite ?le_enc_u32_at by (done || lia)|]). lia.
Qed.

(** The published bytes and the locator read from them. *)
Lemma locator_read_volatile_eq data : locator_read_volatile data = locator_parse data.
Proof. unfold locator_read_volatile, locator_parse. by destruct (zlen data =? LOCATOR_SIZE). Qed.

(** ** The trust block *)

Record key_wf (k : VerificationKey) : Prop := {
  kw_lo : zlen (vk_key_lo k) = 32; kw_hi : zlen (vk_key_hi k) = 32
}.

Record trust_wf (b : TrustBlock) : Prop := {
  tw_magic : tb_magic b = TRUST_MAGIC; tw_version : tb_version b = TRUST_VERSION;
  tw_size : tb_encoded_size b = TRUST_SIZE; tw_reserved : tb_reserved b = 0;
  tw_minimum : u64_ok (tb_minimum_security_version b); tw_count : 0 <= tb_key_count b <= TRUST_MAX_KEYS;
  tw_family : zlen (tb_image_family b) = 16; tw_keys : zlen (tb_keys b) = TRUST_MAX_KEYS;
  tw_each : Forall key_wf (tb_keys b)
}.

Lemma zlen_key k : key_wf k -> zlen (concat (key_pieces k)) = KEY_SIZE.
Proof. intros [Hl Hh]. rewrite zlen_concat. unfold key_pieces. cbn [sum_len foldr]. rewrite Hl, Hh. done. Qed.

Lemma read_key_bytes k : key_wf k -> read_key (concat (key_pieces k)) = k.
Proof.
  intros [Hl Hh]. destruct k as [i a lo hi]. unfold read_key, key_pieces. cbn [vk_key_id vk_algorithm vk_key_lo vk_key_hi] in *.
  f_equal;
    first [by eapply (bytes_field 3) | eapply (bytes_field 4); [done| |done]; cbn [take sum_len foldr]; by rewrite Hl].
Qed.

Lemma read_keys keys : Forall key_wf keys ->
  map read_key (split_records KEY_SIZE (length keys) (concat (map (fun k => concat (key_pieces k)) keys))) = keys /\
  zlen (concat (map (fun k => concat (key_pieces k)) keys)) = KEY_SIZE * zlen keys.
Proof.
  intros Hk. set (f := fun k => concat (key_pieces k)).
  assert (Hf : Forall (fun p => zlen p = KEY_SIZE) (map f keys)).
  { apply list.Forall_fmap. eapply Forall_impl; [|exact Hk]. intros k. apply zlen_key. }
  split.
  - replace (length keys) with (length (map f keys)) by apply length_map. rewrite split_records_concat, map_map by done.
    clear Hf. induction Hk as [|k keys Hk _ IH]; [done|]. cbn [map]. unfold f at 1. by rewrite IH, read_key_bytes.
  - rewrite zlen_concat, (sum_len_const KEY_SIZE) by done. unfold zlen. rewrite length_map. lia.
Qed.

(** What the host packs is what the verifier reads. *)
Lemma trust_roundtrip b : trust_wf b -> trust_parse (trust_bytes b) = Some b.
Proof.
  intros [Hm Hv Hs Hr Hmin Hc Hf Hk He]. destruct (read_keys _ He) as [Hread Hkz]. rewrite Hk in Hkz.
  change (KEY_SIZE * TRUST_MAX_KEYS) with 272 in Hkz. set (keys := concat (map _ (tb_keys b))) in *.
  assert (Hm8 : zlen (tb_magic b) = 8) by by rewrite Hm.
  assert (Hz : zlen (trust_bytes b) = TRUST_SIZE).
  { unfold trust_bytes, trust_pieces. fold keys. rewrite zlen_concat. cbn [sum_len foldr].
    rewrite !zlen_le_enc, Hm8, Hf, Hkz. done. }
  assert (H : read_trust (trust_bytes b) = b).
  { assert (Hsub : sub (trust_bytes b) 48 272 = keys).
    { unfold trust_bytes, trust_pieces. fold keys. eapply (bytes_field 7); [done| |done].
      cbn [take sum_len foldr]. rewrite !zlen_le_enc, Hm8, Hf. done. }
    unfold read_trust. rewrite Hsub. unfold trust_bytes, trust_pieces. fold keys.
    unfold TRUST_MAX_KEYS in *. replace (Z.to_nat 4) with (length (tb_keys b)) by (unfold zlen in Hk; lia).
    unfold keys in *. rewrite Hread. clear Hread Hkz Hz keys Hsub.
    assert (u32_ok (tb_version b) /\ u32_ok (tb_encoded_size b) /\ u32_ok (tb_reserved b) /\ u32_ok (tb_key_count b))
      as (? & ? & ? & ?) by (unfold u32_ok, u32_max; rewrite Hv, Hs, Hr; unfold TRUST_VERSION, TRUST_SIZE; lia).
    destruct b. cbn [tb_magic tb_version tb_encoded_size tb_minimum_security_version tb_key_count tb_reserved
      tb_image_family tb_keys] in *. f_equal; any_field. }
  unfold trust_parse. rewrite Hz, Z.eqb_refl, H. cbn zeta. unfold trust_header_ok.
  rewrite Hm, Hv, Hs, Hr. unfold TRUST_MAX_KEYS in *. rewrite (proj2 (Z.leb_le _ _)) by lia. done.
Qed.

(** A block that parses has its keys. *)
Lemma trust_header_keys {E} bytes b : b = read_trust bytes -> bytes_ok bytes -> zlen bytes = TRUST_SIZE ->
  trust_header_ok b = true ->
  exists keys, valid_keys (E := E) b = Ok keys /\ keys = sub (tb_keys b) 0 (tb_key_count b) /\
    zlen keys = tb_key_count b.
Proof.
  intros -> Hb Hz Hh. unfold trust_header_ok in Hh. bool_hyp. unfold valid_keys.
  assert (Hk : zlen (tb_keys (read_trust bytes)) = 4).
  { cbn [read_trust tb_keys]. unfold zlen. by rewrite length_map, length_split_records. }
  assert (Hc : 0 <= tb_key_count (read_trust bytes)).
  { cbn [read_trust tb_key_count]. pose proof (u32_at_ok bytes 24 Hb) as Hu. unfold u32_ok, TRUST_SIZE in *. lia. }
  unfold TRUST_MAX_KEYS in *. unfold get_range. guard_true. cbn [or_panic]. rewrite Z.sub_0_r. eexists. split_and!; [done..|].
  apply zlen_sub; lia.
Qed.

(** ** The locator from stage to stage *)

(** Root and microcode lie in the image and the image in the medium. *)
Record located (m : MediaLocator) (capacity : Z) : Prop := {
  lo_image : 0 < ml_image_size m; lo_fits : ml_image_offset m + ml_image_size m <= capacity;
  lo_root_size : ml_root_size m = 512; lo_root : ml_root_offset m + 512 <= ml_image_size m;
  lo_microcode : ml_microcode_offset m + ml_microcode_size m <= ml_image_size m;
  lo_microcode_none : ml_microcode_size m = 0 <-> ml_microcode_offset m = 0
}.

Lemma within_true offset size limit :
  limit <= u64_max -> within offset size limit = true <-> offset + size <= limit.
Proof.
  intros Hl. unfold within. destruct (checked_add _ _ _) as [e|] eqn:E.
  - apply checked_add_Some in E as [-> _]. by rewrite Z.leb_le.
  - apply checked_add_None in E. split; [done|lia].
Qed.

Lemma media_validate_located l capacity :
  locator_wf l -> capacity <= u64_max ->
  media_validate (locator_media l) capacity = true <-> located (locator_media l) capacity.
Proof.
  intros [_ _ [? ?] [? ?] [? ?] _ [? ?] [? ?] [? ?]] Hc. unfold media_validate, u32_max in *.
  assert (u32_max <= u64_max) by done. unfold u32_max in *.
  cbn [locator_media ml_image_offset ml_image_size ml_root_offset ml_root_size ml_microcode_offset ml_microcode_size].
  rewrite !andb_true_iff, negb_true_iff, Z.eqb_neq, Z.eqb_eq, !within_true by lia.
  destruct (Z.eqb_spec (lb_microcode_size l) 0) as [Hz|Hz].
  - rewrite Z.eqb_eq. split.
    + intros ((((? & ?) & ?) & ?) & ?). split; cbn; lia.
    + intros [? ? ? ? ? [? ?]]. cbn in *. split_and!; lia.
  - rewrite andb_true_iff, negb_true_iff, Z.eqb_neq, within_true by lia. split.
    + intros ((((? & ?) & ?) & ?) & ? & ?). split; cbn; lia.
    + intros [? ? ? ? ? [? ?]]. cbn in *. split_and!; lia.
Qed.

Lemma handoff_read_write h buf : sh_magic h = HANDOFF_MAGIC -> sh_version h = HANDOFF_VERSION ->
  u64_ok (sh_dram_size h) -> locator_wf (sh_locator h) -> HANDOFF_SIZE <= zlen buf ->
  handoff_read_from (upd buf 0 (concat (handoff_pieces h))) = Some h.
Proof.
  intros Hm Hv Hd Hl Hz. pose proof (zlen_locator_bytes _ Hl) as Hlz. unfold LOCATOR_SIZE in Hlz.
  set (bytes := concat (handoff_pieces h)).
  assert (Hb : zlen bytes = 56).
  { unfold bytes, handoff_pieces. rewrite zlen_concat. cbn [sum_len foldr]. rewrite !zlen_le_enc, Hlz. done. }
  unfold HANDOFF_SIZE in *.
  assert (Hsub : forall o n, 0 <= o -> 0 <= n -> o + n <= 56 -> sub (upd buf 0 bytes) o n = sub bytes o n).
  { intros o n Ho Hn Hon. pose proof (sub_upd_same buf 0 bytes ltac:(lia) ltac:(lia)) as Hs. rewrite Hb in Hs.
    rewrite <- (sub_prefix _ 56 o n) by lia. by rewrite Hs. }
  assert (Hread : read_handoff (upd buf 0 bytes) = h).
  { unfold read_handoff, u32_at, u64_at, le_at. unfold LOCATOR_SIZE. rewrite !Hsub by lia.
    fold (le_at bytes 0 4) (le_at bytes 4 4) (le_at bytes 8 8). fold (u32_at bytes 0) (u32_at bytes 4) (u64_at bytes 8).
    assert (Hloc : sub bytes 16 40 = locator_bytes (sh_locator h)) by (unfold bytes, handoff_pieces; any_field).
    rewrite Hloc, (read_locator_bytes _ Hl). unfold bytes, handoff_pieces.
    assert (u32_ok (sh_magic h) /\ u32_ok (sh_version h)) as [? ?] by (rewrite Hm, Hv; done).
    clear - H H0 Hd. destruct h as [ma ve dr lo]. cbn [sh_magic sh_version sh_dram_size sh_locator] in *. f_equal; any_field. }
  unfold handoff_read_from, HANDOFF_SIZE. rewrite zlen_upd, (proj2 (Z.leb_le _ _)) by lia. cbn zeta.
  rewrite Hread, Hm, Hv, (locator_parse_bytes _ Hl). done.
Qed.

(** C21: the locator a stage has published arrives unchanged in the next one.  The
    next stage reads the handoff record back, installs the locator when the image
    it names fits the platform's own capacity and refuses it otherwise, and once
    installed it stays: no later locator replaces it. *)
Theorem handoff_carries_locator (a next : Anchor) dram_size buf capacity :
  bytes_ok (fstart_anchor_bytes a) -> u64_ok dram_size -> HANDOFF_SIZE <= zlen buf -> capacity <= u64_max ->
  an_locator next = Unpublished ->
  match write_handoff a dram_size buf with
  | Ok buf' =>
      exists l, locator a = Some l /\ handoff_read_from buf' = Some (handoff_new dram_size l) /\
      match install_locator l capacity next with
      | (next', Ok _) =>
          located (locator_media l) capacity /\ locator next' = Some l /\
          fstart_anchor_bytes next' = fstart_anchor_bytes a /\
          forall l' capacity', install_locator l' capacity' next' = (next', Err tt)
      | (next', Err _) => ~ located (locator_media l) capacity /\ next' = next
      | (_, Panic) => False
      end
  | Err e => e = InitialLocatorMissing /\ locator a = None
  | Panic => False
  end.
Proof.
  intros Hb Hd Hz Hc Hn. unfold write_handoff. destruct (locator a) as [l|] eqn:Hl; [|done].
  cbn [ok_or rbind]. unfold handoff_write. rewrite (proj2 (Z.leb_le _ _) Hz). cbn [ok_or rbind].
  pose proof Hl as Hl'. unfold locator in Hl'. rewrite locator_read_volatile_eq in Hl'.
  apply locator_parse_inv in Hl' as [Hw Hbytes]; [|done]. exists l. split; [done|]. split.
  { by apply handoff_read_write. }
  unfold install_locator. rewrite Hn. pose proof (media_validate_located l capacity Hw Hc) as Hv.
  destruct (media_validate _ _); cbn [negb].
  - unfold locator_write, LOCATOR_SIZE. rewrite zlen_zeros by lia. change (40 <? 40) with false. cbn iota.
    assert (Hu : upd (zeros 40) 0 (locator_bytes l) = locator_bytes l).
    { pose proof (zlen_locator_bytes l Hw) as Hlz. unfold LOCATOR_SIZE in Hlz.
      pose proof (sub_upd_same (zeros 40) 0 (locator_bytes l)) as Hs. rewrite zlen_zeros, Hlz in Hs by lia.
      assert (Hz40 : zlen (upd (zeros 40) 0 (locator_bytes l)) = 40) by (rewrite zlen_upd; rewrite ?Hlz, ?zlen_zeros; lia).
      rewrite <- (sub_all (upd _ _ _)), Hz40. apply Hs; lia. }
    rewrite Hu. split_and!; [by apply Hv| |done|done].
    unfold locator. cbn [fstart_anchor_bytes an_locator an_inherited]. rewrite locator_read_volatile_eq.
    by apply locator_parse_bytes.
  - split; [|done]. intros Hcon. by apply Hv in Hcon.
Qed.

(** An initial stage whose anchor the packer has patched. *)
Definition demo_locator : LocatorBlock := {|
  lb_magic := LOCATOR_MAGIC; lb_version := LOCATOR_VERSION; lb_manifest_offset := 0x7fe00; lb_manifest_size := 512;
  lb_total_image_size := 0x80000; lb_anchor_offset := 0x40; lb_microcode_offset := 0x2000;
  lb_microcode_size := 0x1000; lb_image_offset := 0x21000 |}.

Definition demo_anchor : Anchor := {|
  an_patched := locator_bytes demo_locator; an_inherited := zeros 40; an_locator := OwnAnchor |}.
Definition unpublished_anchor : Anchor := {|
  an_patched := locator_bytes locator_placeholder; an_inherited := zeros 40; an_locator := Unpublished |}.

Lemma handoff_carries_locator_witness :
  exists buf' l, write_handoff demo_anchor 0x10000000 (zeros HANDOFF_MAX_SIZE) = Ok buf' /\
    l = demo_locator /\ handoff_read_from buf' = Some (handoff_new 0x10000000 l) /\
    match install_locator l 0x100000 unpublished_anchor with
    | (next', Ok _) => locator next' = Some l
    | _ => False
    end.
Proof.
  assert (Hb : bytes_ok (fstart_anchor_bytes demo_anchor)).
  { apply (bool_decide_unpack _). vm_compute. exact I. }
  pose proof (handoff_carries_locator demo_anchor unpublished_anchor 0x10000000 (zeros HANDOFF_MAX_SIZE) 0x100000
    Hb ltac:(done) ltac:(done) ltac:(done) eq_refl) as H.
  destruct (write_handoff _ _ _) as [buf'| |] eqn:Hrun; [|by destruct H as [_ H]|done].
  destruct H as (l & Hl & Hr & Hi). exists buf', l. split; [done|].
  assert (l = demo_locator) as -> by (vm_compute in Hl; by injection Hl as <-).
  split_and!; [done|done|]. destruct (install_locator _ _ _) as [next' [u|e|]] eqn:Hins; [by destruct Hi as (_ & ? & _)| |done].
  vm_compute in Hins. discriminate.
Defined.
