(* ===== verification/Ledger.v ===== *)
(** * Ledger: the windows that loads have filled ([crates/stage/src/loaded.rs])

    A load takes the ledger's lock with its footprint, its loader scratch
    included, before the first write, and gives it back either committed, which
    enters the live part of the footprint, or dropped.  The invariant, kept by
    every sequence of these steps, is that the live windows are proper and
    disjoint and that the load in progress touches none of them. *)

From S2P Require Import Prelude.
From S2P Require Import Bytes.
From S2P Require Import Load.
From Stdlib Require Import ZArith Lia.
From stdpp Require Import base numbers list option relations.

#[local] Open Scope Z_scope.

Definition MAX_LOADED_WINDOWS : Z := 32.
Definition MAX_PLAN_WINDOWS : Z := 2.

(** The lock, the array of windows and how many of it are in use. *)
Record Ledger := { lg_busy : bool; lg_windows : list MemoryWindow; lg_count : Z }.

Definition ledger_new : Ledger := {|
  lg_busy := false; lg_windows := replicate (Z.to_nat MAX_LOADED_WINDOWS) {| mw_start := 0; mw_len := 0 |};
  lg_count := 0 |}.

Definition set_busy (g : Ledger) (b : bool) : Ledger := {|
  lg_busy := b; lg_windows := lg_windows g; lg_count := lg_count g |}.

(** The guard of a load in progress. *)
Record PendingLoad := { pl_live : list MemoryWindow }.

(** [state.windows[..state.count]] *)
Definition live_windows (g : Ledger) : list MemoryWindow := take (Z.to_nat (lg_count g)) (lg_windows g).

(** One round of the loop of [begin]. *)
Definition admit_window (windows earlier : list MemoryWindow) (footprint live : MemoryWindow) : bool :=
  negb (mw_len footprint =? 0)
  && bool_decide (window_end footprint <> None)
  && negb (mw_len live =? 0)
  && (mw_start live =? mw_start footprint)
  && (mw_len live <=? mw_len footprint)
  && negb (existsb (fun old => overlaps old footprint) windows)
  && negb (existsb (fun other => overlaps other footprint) earlier).

Fixpoint admit_all (windows earlier footprints live : list MemoryWindow) : bool :=
  match footprints, live with
  | f :: footprints, l :: live =>
      admit_window windows earlier f l && admit_all windows (earlier ++ [f]) footprints live
  | _, _ => true
  end.

(** Every failure behind the lock drops the guard. *)
Definition ledger_begin (footprints live : list MemoryWindow) : sres Ledger LoadError PendingLoad := fun g =>
  if negb (zlen footprints =? zlen live) || (zlen live =? 0) || (MAX_PLAN_WINDOWS <? zlen live)
  then (g, Err MemoryPolicyError)
  else if lg_busy g then (g, Err MemoryPolicyError)
  else if MAX_LOADED_WINDOWS <? lg_count g + zlen live then (set_busy g false, Err MemoryPolicyError)
  else if admit_all (live_windows g) [] footprints live then (set_busy g true, Ok {| pl_live := live |})
  else (set_busy g false, Err MemoryPolicyError).

Definition pending_drop (g : Ledger) : Ledger := set_busy g false.

Definition enter_window (w : MemoryWindow) : sres Ledger LoadError unit := fun g =>
  if lg_count g <? zlen (lg_windows g) then
    ({| lg_busy := lg_busy g; lg_windows := <[Z.to_nat (lg_count g) := w]> (lg_windows g);
        lg_count := lg_count g + 1 |}, Ok tt)
  else (g, Panic).

Definition commit (p : PendingLoad) : sres Ledger LoadError unit :=
  let! _ := sfor_each (pl_live p) enter_window in
  fun g => (pending_drop g, Ok tt).

(** ** The global ledger

    [fdt] is the destination of the device tree workspace, if one is registered. *)

Definition conflicts (fdt : option MemoryWindow) (range : MemoryWindow) : bool :=
  match fdt with Some destination => overlaps destination range | None => false end.

(** On the published ledger. *)
Definition with_ledger {A} (f : sres Ledger LoadError A) : sres (option Ledger) LoadError A := fun g =>
  match g with
  | None => (g, Err MemoryPolicyError)
  | Some g => let '(g, r) := f g in (Some g, r)
  end.

Definition begin (fdt : option MemoryWindow) (footprints live : list MemoryWindow)
    : sres (option Ledger) LoadError PendingLoad := fun g =>
  if existsb (conflicts fdt) footprints then (g, Err MemoryPolicyError)
  else with_ledger (ledger_begin footprints live) g.

Definition begin_fdt (range : MemoryWindow) : sres (option Ledger) LoadError PendingLoad :=
  with_ledger (ledger_begin [range] [range]).

Definition ledger_initialize (g : option Ledger) : option Ledger :=
  match g with Some g => Some g | None => Some ledger_new end.

(** ** The invariant *)

(** Apart in the address space. *)
Definition apart (w v : MemoryWindow) : Prop := forall a, in_window w a -> in_window v a -> False.

#[export] Instance apart_sym : Symmetric apart.
Proof. intros w v H a H1 H2. by apply (H a). Qed.

Record proper_window (w : MemoryWindow) : Prop := {
  pw_size : 0 < mw_len w; pw_end : mw_start w + mw_len w <= u64_max
}.

Fixpoint all_apart (l : list MemoryWindow) : Prop :=
  match l with [] => True | w :: l => Forall (apart w) l /\ all_apart l end.

(** The ledger, with the guard if a load is in progress. *)
Record ledger_ok (g : Ledger) (p : option PendingLoad) : Prop := {
  lk_array : zlen (lg_windows g) = MAX_LOADED_WINDOWS;
  lk_count : 0 <= lg_count g; lk_room : lg_count g + zlen (default [] (pl_live <$> p)) <= MAX_LOADED_WINDOWS;
  lk_proper : Forall proper_window (live_windows g ++ default [] (pl_live <$> p));
  lk_windows : Forall window_ok (live_windows g ++ default [] (pl_live <$> p));
  lk_apart : all_apart (live_windows g ++ default [] (pl_live <$> p));
  lk_busy : lg_busy g = bool_decide (is_Some p)
}.

(** What can happen to a ledger.  A second load while one is in progress is
    refused like any other. *)
Inductive ledger_step : Ledger * option PendingLoad -> Ledger * option PendingLoad -> Prop :=
| ls_begin g footprints live g' p :
    Forall window_ok footprints -> Forall window_ok live ->
    ledger_begin footprints live g = (g', Ok p) -> ledger_step (g, None) (g', Some p)
| ls_refused g q footprints live g' e :
    Forall window_ok footprints -> Forall window_ok live ->
    ledger_begin footprints live g = (g', Err e) -> ledger_step (g, q) (g', q)
| ls_commit g p : ledger_step (g, Some p) (fst (commit p g), None)
| ls_drop g p : ledger_step (g, Some p) (pending_drop g, None).

Lemma all_apart_app l k : all_apart (l ++ k) <->
  all_apart l /\ all_apart k /\ Forall (fun w => Forall (apart w) k) l.
Proof.
  induction l as [|w l IH]; cbn [all_apart app]; [naive_solver|].
  rewrite IH, list.Forall_app, list.Forall_cons. naive_solver.
Qed.

Lemma overlaps_apart w v : window_ok w -> window_ok v -> overlaps w v = false -> apart w v.
Proof.
  intros Hw Hv H a [? ?] [? ?]. apply overlaps_false in H. destruct Hw, Hv. lia.
Qed.

Lemma apart_sub w f l : mw_start l = mw_start f -> mw_len l <= mw_len f -> apart w f -> apart w l.
Proof. intros Hs Hl H a Hw [? ?]. apply (H a Hw). split; lia. Qed.

(** What [begin] has checked when it admits a plan. *)
Definition admitted (windows : list MemoryWindow) (footprint live : MemoryWindow) : Prop :=
  proper_window footprint /\ proper_window live /\ mw_start live = mw_start footprint /\
  mw_len live <= mw_len footprint /\ Forall (fun old => overlaps old footprint = false) windows.

Lemma existsb_overlaps l f : existsb (fun o => overlaps o f) l = false <-> Forall (fun o => overlaps o f = false) l.
Proof.
  induction l as [|o l IH]; cbn [existsb]; [split; [by constructor|done]|].
  rewrite orb_false_iff, IH, list.Forall_cons. done.
Qed.

Lemma admit_window_true windows earlier f l : window_ok f -> window_ok l ->
  admit_window windows earlier f l = true ->
  admitted windows f l /\ Forall (fun o => overlaps o f = false) earlier.
Proof.
  intros [Hf0 Hf1] [Hl0 Hl1] H. unfold admit_window in H. bool_hyp.
  match goal with X : window_end f <> None |- _ => rename X into He end.
  unfold window_end in He. destruct (checked_add _ _ _) as [e|] eqn:E; [|done].
  apply checked_add_Some in E as [-> E]. rewrite !existsb_overlaps in *. split; [|done].
  split_and!; try done. all: split; lia.
Qed.

Lemma admit_all_true windows footprints : forall earlier live,
  zlen footprints = zlen live -> Forall window_ok footprints -> Forall window_ok live -> Forall window_ok earlier ->
  admit_all windows earlier footprints live = true ->
  Forall2 (admitted windows) footprints live /\
  Forall (fun l => Forall (fun o => apart o l) earlier) live /\ all_apart live.
Proof.
  induction footprints as [|f footprints IH]; intros earlier [|l live] Hz Hf Hl He H; rewrite ?zlen_cons in Hz;
    try (pose proof (zlen_nonneg footprints)); try (pose proof (zlen_nonneg live)); try (change (zlen []) with 0 in Hz; lia).
  { repeat split; constructor. }
  apply list.Forall_cons in Hf as [Hf Hfs], Hl as [Hl Hls]. cbn [admit_all] in H. apply andb_true_iff in H as [Hadm Had].
  apply admit_window_true in Hadm as [Ha Hov]; [|done..]. pose proof Ha as (? & ? & Hs & Hle & ?).
  apply IH in Had as (Had & Hap & Hal); [|lia|done|done|apply list.Forall_app; split; [done|by apply list.Forall_singleton]].
  rewrite list.Forall_forall in Hap. split; [by constructor|]. split.
  - constructor.
    + rewrite list.Forall_forall in Hov, He |- *. intros o Ho. apply (apart_sub o f l Hs Hle). by apply overlaps_apart; auto.
    + apply list.Forall_forall. intros x Hx. specialize (Hap x Hx). by apply list.Forall_app in Hap as [? _].
  - cbn [all_apart]. split; [|done]. apply list.Forall_forall. intros x Hx. specialize (Hap x Hx).
    apply list.Forall_app in Hap as [_ Hap]. apply list.Forall_cons in Hap as [Hap _].
    symmetry. apply (apart_sub x f l Hs Hle). by symmetry.
Qed.

(** What a load in progress has been promised. *)
Lemma ledger_begin_Ok footprints live g g' p :
  Forall window_ok footprints -> Forall window_ok live -> ledger_begin footprints live g = (g', Ok p) ->
  lg_busy g = false /\ g' = set_busy g true /\ p = {| pl_live := live |} /\
  lg_count g + zlen live <= MAX_LOADED_WINDOWS /\
  Forall2 (admitted (live_windows g)) footprints live /\ all_apart live.
Proof.
  intros Hf Hl H. unfold ledger_begin in H. destruct (_ || _) eqn:Hz; [done|]. bool_hyp.
  destruct (lg_busy g); [done|]. destruct (Z.ltb_spec MAX_LOADED_WINDOWS (lg_count g + zlen live)); [done|].
  destruct (admit_all _ _ _ _) eqn:Ha; [|done]. injection H as <- <-.
  apply admit_all_true in Ha as (Ha & _ & Hal); [|done..|constructor]. by split_and!.
Qed.

Lemma ledger_begin_Err footprints live g g' e : ledger_begin footprints live g = (g', Err e) -> g' = g.
Proof.
  unfold ledger_begin. destruct g as [b ws c]. cbn [lg_busy].
  destruct (_ || _); [by intros [= <- _]|]. destruct b; [by intros [= <- _]|].
  destruct (_ <? _); [by intros [= <- _]|]. destruct (admit_all _ _ _ _); [done|]. by intros [= <- _].
Qed.

Lemma ledger_begin_no_panic footprints live g : snd (ledger_begin footprints live g) <> Panic.
Proof.
  unfold ledger_begin. destruct (_ || _); [done|]. destruct (lg_busy g); [done|]. destruct (_ <? _); [done|].
  by destruct (admit_all _ _ _ _).
Qed.

Lemma live_windows_enter g w : 0 <= lg_count g < zlen (lg_windows g) ->
  exists g', enter_window w g = (g', Ok tt) /\ live_windows g' = live_windows g ++ [w] /\
    lg_count g' = lg_count g + 1 /\ zlen (lg_windows g') = zlen (lg_windows g) /\ lg_busy g' = lg_busy g.
Proof.
  intros [H0 H1]. unfold enter_window. rewrite (proj2 (Z.ltb_lt _ _) H1). eexists. split; [done|].
  unfold live_windows. cbn [lg_count lg_windows lg_busy]. split_and!; try done.
  - replace (Z.to_nat (lg_count g + 1)) with (S (Z.to_nat (lg_count g))) by lia. unfold zlen in H1.
    rewrite (take_S_r _ _ w) by (apply list_lookup_insert_eq; lia). by rewrite take_insert_ge by lia.
  - unfold zlen. by rewrite length_insert.
Qed.

Lemma enter_all l : forall g, 0 <= lg_count g -> lg_count g + zlen l <= zlen (lg_windows g) ->
  exists g', sfor_each l enter_window g = (g', Ok tt) /\ live_windows g' = live_windows g ++ l /\
    lg_count g' = lg_count g + zlen l /\ zlen (lg_windows g') = zlen (lg_windows g) /\ lg_busy g' = lg_busy g.
Proof.
  induction l as [|w l IH]; intros g H0 H1; cbn [sfor_each].
  - exists g. rewrite app_nil_r, zlen_nil, Z.add_0_r. done.
  - rewrite zlen_cons in *. pose proof (zlen_nonneg l).
    destruct (live_windows_enter g w) as (g1 & He & Hw & Hc & Hz & Hb); [lia|].
    destruct (IH g1) as (g2 & H2 & Hw2 & Hc2 & Hz2 & Hb2); [lia..|]. exists g2.
    unfold sbind. rewrite He, H2, Hw2, Hw, Hc2, Hc, Hz2, Hz, Hb2, Hb, <- app_assoc. split_and!; (done || lia).
Qed.

(** A commit never fails: [begin] has made room for it. *)
Lemma commit_Ok g p : ledger_ok g (Some p) ->
  exists g', commit p g = (g', Ok tt) /\ live_windows g' = live_windows g ++ pl_live p /\ ledger_ok g' None.
Proof.
  intros [Ha Hc Hr Hp Hok Hap Hb]. cbn in Hr, Hp, Hok, Hap. destruct (enter_all (pl_live p) g) as (g1 & H1 & Hw & Hc1 & Hz & _); [lia..|].
  exists (pending_drop g1). unfold commit, sbind. rewrite H1. split; [done|].
  change (live_windows (pending_drop g1)) with (live_windows g1). rewrite Hw. split; [done|].
  split; cbn [pending_drop set_busy lg_windows lg_count lg_busy option_fmap option_map default].
  - by rewrite Hz.
  - rewrite Hc1. pose proof (zlen_nonneg (pl_live p)). lia.
  - rewrite Hc1. change (zlen (default [] (pl_live <$> None))) with 0. lia.
  - rewrite app_nil_r. change (live_windows (pending_drop g1)) with (live_windows g1). by rewrite Hw.
  - rewrite app_nil_r. change (live_windows (pending_drop g1)) with (live_windows g1). by rewrite Hw.
  - rewrite app_nil_r. change (live_windows (pending_drop g1)) with (live_windows g1). by rewrite Hw.
  - done.
Qed.

Lemma ledger_ok_drop g p : ledger_ok g p -> ledger_ok (pending_drop g) None.
Proof.
  intros [Ha Hc Hr Hp Hok Hap Hb]. pose proof (zlen_nonneg (default [] (pl_live <$> p))).
  split; cbn [pending_drop set_busy lg_windows lg_count lg_busy]; try done.
  - change (zlen (default [] (pl_live <$> None))) with 0. lia.
  - rewrite app_nil_r. by apply list.Forall_app in Hp as [? _].
  - rewrite app_nil_r. by apply list.Forall_app in Hok as [? _].
  - rewrite app_nil_r. by apply all_apart_app in Hap as [? _].
Qed.

Lemma ledger_ok_begin g footprints live g' p :
  ledger_ok g None -> Forall window_ok footprints -> Forall window_ok live ->
  ledger_begin footprints live g = (g', Ok p) -> ledger_ok g' (Some p).
Proof.
  intros [Ha Hc Hr Hp Hok Hap Hb] Hf Hl H. apply ledger_begin_Ok in H as (_ & -> & -> & Hroom & Had & Hal); [|done..].
  cbn [fmap option_fmap option_map default pl_live] in Hp, Hok, Hap. rewrite app_nil_r in *. pose proof Hok as Hws.
  change (live_windows (set_busy g true)) with (live_windows g).
  split; try done; cbn [fmap option_fmap option_map default pl_live];
    change (live_windows (set_busy g true)) with (live_windows g).
  - apply list.Forall_app. split; [done|]. clear - Had. induction Had as [|f l fs ls (_ & ? & _) _ IH]; by constructor.
  - by apply list.Forall_app.
  - apply all_apart_app. split_and!; [done|done|]. apply list.Forall_forall. intros w Hw.
    rewrite list.Forall_forall in Hws. specialize (Hws w Hw). clear - Had Hw Hws Hf.
    induction Had as [|f l fs ls (_ & _ & Hs & Hle & Hov) _ IH]; constructor; apply list.Forall_cons in Hf as [Hf Hfs].
    + rewrite list.Forall_forall in Hov. apply (apart_sub w f l Hs Hle). by apply overlaps_apart, Hov.
    + by apply IH.
Qed.

Lemma ledger_new_ok : ledger_ok ledger_new None.
Proof. split; (done || constructor). Qed.

Lemma ledger_step_ok g p g' p' : ledger_step (g, p) (g', p') -> ledger_ok g p -> ledger_ok g' p'.
Proof.
  intros H Hok. inversion H; subst.
  - match goal with X : ledger_begin _ _ _ = _ |- _ => by apply (ledger_ok_begin _ _ _ _ _ Hok) in X end.
  - match goal with X : ledger_begin _ _ _ = _ |- _ => by apply ledger_begin_Err in X as -> end.
  - destruct (commit_Ok _ _ Hok) as (g1 & -> & _ & ?). done.
  - by eapply ledger_ok_drop.
Qed.

(** C22: whatever loads are begun, refused, committed and dropped, in whatever
    order, the windows of the ledger stay proper and apart from one another and
    from the load in progress; the lock is held exactly while there is one, and a
    load that was admitted can always be committed, which adds its live windows
    and nothing else. *)
Theorem ledger_keeps_apart g p :
  rtc ledger_step (ledger_new, None) (g, p) ->
  ledger_ok g p /\
  match p with
  | Some q => lg_busy g = true /\
      exists g', commit q g = (g', Ok tt) /\ live_windows g' = live_windows g ++ pl_live q /\ ledger_ok g' None
  | None => lg_busy g = false
  end.
Proof.
  intros H. assert (Hok : ledger_ok g p).
  { apply (rtc_ind_r (fun s => ledger_ok s.1 s.2) (ledger_new, None)) in H; [done|apply ledger_new_ok|].
    intros [g1 p1] [g2 p2] _ Hs Hok. by apply (ledger_step_ok _ _ _ _ Hs). }
  split; [done|]. pose proof (lk_busy _ _ Hok) as Hb. destruct p as [q|]; [|done]. split; [done|]. by apply commit_Ok.
Qed.

(** Two loads, the second in progress. *)
Lemma ledger_keeps_apart_witness :
  exists g q, rtc ledger_step (ledger_new, None) (g, Some q) /\ ledger_ok g (Some q) /\
    live_windows g = [{| mw_start := 0x1000; mw_len := 0x100 |}].
Proof.
  set (w1 := {| mw_start := 0x1000; mw_len := 0x200 |}). set (l1 := {| mw_start := 0x1000; mw_len := 0x100 |}).
  set (w2 := {| mw_start := 0x1100; mw_len := 0x80 |}).
  assert (Hw : forall s n, 0 <= s <= 0x10000 -> 0 <= n <= 0x10000 -> Forall window_ok [{| mw_start := s; mw_len := n |}]).
  { intros s n Hs Hn. apply list.Forall_singleton. unfold window_ok, u64_max. cbn. lia. }
  assert (Hrun : exists g1 g2 p1 q, ledger_begin [w1] [l1] ledger_new = (g1, Ok p1) /\
    ledger_begin [w2] [w2] (fst (commit p1 g1)) = (g2, Ok q) /\ live_windows g2 = [l1]).
  { do 4 eexists. split; [vm_compute; reflexivity|]. split; vm_compute; reflexivity. }
  destruct Hrun as (g1 & g2 & p1 & q & H1 & H2 & H3). exists g2, q.
  assert (Hreach : rtc ledger_step (ledger_new, None) (g2, Some q)).
  { eapply rtc_l; [eapply ls_begin; [| |exact H1]; apply Hw; lia|].
    eapply rtc_l; [apply ls_commit|]. eapply rtc_l; [eapply ls_begin; [| |exact H2]; apply Hw; lia|apply rtc_refl]. }
  split; [done|]. split; [|done]. apply (ledger_keeps_apart g2 (Some q) Hreach).
Defined.
