(* ===== verification/LoadPolicy.v ===== *)
(** * LoadPolicy: the memory a stage may load into
    ([crates/stage/src/directory.rs], the memory policy)

    The stage keeps an owned copy of the platform's memory policy with the codec
    of its loads.  A window granted later is merged into the writable windows it
    touches and cut out of the reserved ones; the theorem is that afterwards
    exactly the byte ranges are permitted that the old windows and the new one
    cover together, but for what stays reserved. *)

From S2P Require Import Prelude.
From S2P Require Import Bytes.
From S2P Require Import Memory.
From S2P Require Import BootMedia.
From S2P Require Import Load.
From S2P Require Import Ledger.
From Stdlib Require Import ZArith Lia.
From stdpp Require Import base numbers list option sorting.

#[local] Open Scope Z_scope.

Definition MAX_WINDOWS : Z := 32.

Record OwnedPolicy := { op_policy : MemoryPolicy; op_codec : Codec }.

(** The statics: the published policy and the ledger of the loads. *)
Record Loads := { ld_policy : option OwnedPolicy; ld_ledger : option Ledger }.

(** The windows of a copied policy are proper and few. *)
Definition policy_bounded (p : MemoryPolicy) : bool :=
  (zlen (writable p) <=? MAX_WINDOWS) && (zlen (reserved p) <=? MAX_WINDOWS)
  && is_power_of_two (entry_alignment p)
  && forallb (fun w => bool_decide (window_end w <> None)) (writable p ++ reserved p).

(** [try_reserve] says whether the stage's heap has room for so many windows. *)
Definition set_load_policy (try_reserve : Z -> bool) (p : MemoryPolicy) (c : Codec) : sres Loads LoadError unit := fun s =>
  if negb (policy_bounded p) then (s, Err MemoryPolicyError)
  else if negb (try_reserve (zlen (writable p))) then (s, Err MemoryPolicyError)
  else if negb (try_reserve (zlen (reserved p))) then (s, Err MemoryPolicyError)
  else ({| ld_policy := Some {| op_policy := p; op_codec := c |}; ld_ledger := ledger_initialize (ld_ledger s) |}, Ok tt).

Definition load_policy (s : Loads) : option MemoryPolicy := op_policy <$> ld_policy s.
Definition load_codec (s : Loads) : option Codec := op_codec <$> ld_policy s.
Definition writable_memory (s : Loads) : option (list MemoryWindow) := writable <$> load_policy s.

(** One round of the merging loop; [acc] has the last window first. *)
Definition merge_window (acc : list MemoryWindow) (w : MemoryWindow) : list MemoryWindow :=
  match acc with
  | last :: rest =>
      if mw_start w <=? saturating_add u64_max (mw_start last) (mw_len last) then
        let end_ := Z.max (saturating_add u64_max (mw_start last) (mw_len last))
                      (saturating_add u64_max (mw_start w) (mw_len w)) in
        {| mw_start := mw_start last; mw_len := end_ - mw_start last |} :: rest
      else w :: acc
  | [] => [w]
  end.

#[local] Instance start_le_dec : RelDecision (fun w v : MemoryWindow => mw_start w <= mw_start v).
Proof. intros w v. apply Z_le_dec. Defined.

(** [sort_unstable_by_key]: windows with the same start are merged, so that
    their order does not matter. *)
Definition sort_windows (l : list MemoryWindow) : list MemoryWindow :=
  merge_sort (fun w v => mw_start w <= mw_start v) l.

Definition merge_windows (l : list MemoryWindow) : list MemoryWindow :=
  reverse (fold_left merge_window (sort_windows l) []).

(** What a reserved window keeps outside [window], which ends at [end_]. *)
Definition cut_window (window : MemoryWindow) (end_ : Z) (r : MemoryWindow) : list MemoryWindow :=
  let r_end := saturating_add u64_max (mw_start r) (mw_len r) in
  map (fun p : Z * Z => {| mw_start := p.1; mw_len := p.2 - p.1 |})
    (filter (fun p : Z * Z => p.1 < p.2)
      [(mw_start r, Z.min r_end (mw_start window)); (Z.max (mw_start r) end_, r_end)]).

Definition grant_load_window (try_reserve : Z -> bool) (window : MemoryWindow) : sres Loads LoadError unit := fun s =>
  match load_policy s, load_codec s, window_end window with
  | Some policy, Some codec, Some end_ =>
      set_load_policy try_reserve {|
        writable := merge_windows (writable policy ++ [window]);
        reserved := concat (map (cut_window window end_) (reserved policy));
        entry_alignment := entry_alignment policy |} codec s
  | _, _, _ => (s, Err MemoryPolicyError)
  end.

(** ** The invariant of the published policy *)

Definition ends_ok (l : list MemoryWindow) : Prop := Forall (fun w => window_ok w /\ window_end w <> None) l.

Record policy_ok (p : MemoryPolicy) : Prop := {
  po_writable : ends_ok (writable p); po_reserved : ends_ok (reserved p);
  po_alignment : is_power_of_two (entry_alignment p) = true
}.

Lemma window_end_ok w : window_end w <> None <-> mw_start w + mw_len w <= u64_max.
Proof.
  unfold window_end. destruct (checked_add _ _ _) as [e|] eqn:E.
  - apply checked_add_Some in E as [_ ?]. done.
  - apply checked_add_None in E. split; [done|lia].
Qed.

Lemma ends_ok_forall l : ends_ok l <->
  Forall (fun w => 0 <= mw_start w /\ 0 <= mw_len w /\ mw_start w + mw_len w <= u64_max) l.
Proof.
  unfold ends_ok, window_ok. rewrite !list.Forall_forall. setoid_rewrite window_end_ok.
  split; intros H w Hw; specialize (H w Hw); lia.
Qed.

Lemma set_load_policy_Ok try_reserve p c s s' :
  Forall window_ok (writable p) -> Forall window_ok (reserved p) ->
  set_load_policy try_reserve p c s = (s', Ok tt) ->
  policy_ok p /\ ld_policy s' = Some {| op_policy := p; op_codec := c |} /\
  ld_ledger s' = ledger_initialize (ld_ledger s).
Proof.
  intros Hw Hr H. unfold set_load_policy in H. destruct (policy_bounded p) eqn:Hb; [|done]. cbn [negb] in H.
  destruct (try_reserve _); [|done]. cbn [negb] in H. destruct (try_reserve _); [|done]. injection H as <-.
  unfold policy_bounded in Hb. rewrite forallb_app in Hb. bool_hyp. rewrite !forallb_forall in *. split; [|done].
  split; [| |done]; apply list.Forall_forall; intros w Hin.
  - split; [by eapply list.Forall_forall in Hw|]. apply list_elem_of_In in Hin.
    match goal with X : forall x, In x (writable p) -> _ |- _ => specialize (X w Hin) end. by bool_hyp.
  - split; [by eapply list.Forall_forall in Hr|]. apply list_elem_of_In in Hin.
    match goal with X : forall x, In x (reserved p) -> _ |- _ => specialize (X w Hin) end. by bool_hyp.
Qed.

(** ** Merging *)

Definition covers (l : list MemoryWindow) (a : Z) : Prop := exists w, w ∈ l /\ in_window w a.

(** Windows from the last to the first, with a gap before each. *)
Fixpoint gapped (l : list MemoryWindow) : Prop :=
  match l with
  | [] => True
  | w :: rest => Forall (fun r => mw_start r + mw_len r < mw_start w) rest /\ gapped rest
  end.

Lemma covers_nil a : ~ covers [] a.
Proof. intros (w & Hw & _). by apply elem_of_nil in Hw. Qed.

Lemma covers_cons w l a : covers (w :: l) a <-> in_window w a \/ covers l a.
Proof. unfold covers. setoid_rewrite elem_of_cons. naive_solver. Qed.

Lemma covers_app l k a : covers (l ++ k) a <-> covers l a \/ covers k a.
Proof. unfold covers. setoid_rewrite elem_of_app. naive_solver. Qed.

Lemma covers_perm l k a : l ≡ₚ k -> covers l a <-> covers k a.
Proof. intros Hp. unfold covers. by setoid_rewrite Hp. Qed.

Lemma saturating_end w : mw_start w + mw_len w <= u64_max -> saturating_add u64_max (mw_start w) (mw_len w) = mw_start w + mw_len w.
Proof. unfold saturating_add. lia. Qed.

Lemma merge_window_spec acc w :
  ends_ok (w :: acc) -> gapped acc -> Forall (fun v => mw_start v <= mw_start w) acc ->
  ends_ok (merge_window acc w) /\ gapped (merge_window acc w) /\
  Forall (fun v => mw_start v <= mw_start w) (merge_window acc w) /\
  forall a, covers (merge_window acc w) a <-> covers acc a \/ in_window w a.
Proof.
  intros He Hg Hs. destruct acc as [|v rest]; cbn [merge_window].
  { split_and!; [done|by repeat constructor|by repeat constructor|]. intros a. rewrite covers_cons. tauto. }
  apply ends_ok_forall in He. rewrite !list.Forall_cons in He. destruct He as ((? & ? & ?) & (? & ? & ?) & Hr).
  apply list.Forall_cons in Hs as [Hv Hs]. destruct Hg as [Hgv Hg]. rewrite !saturating_end by done.
  destruct (Z.leb_spec (mw_start w) (mw_start v + mw_len v)) as [Ht|Ht].
  - split_and!.
    + apply ends_ok_forall. constructor; [cbn; lia|done].
    + by split.
    + by constructor.
    + intros a. rewrite !covers_cons. unfold in_window. cbn [mw_start mw_len]. naive_solver lia.
  - split_and!.
    + apply ends_ok_forall. by repeat (constructor; [done|]).
    + cbn [gapped]. split_and!; [|done|done]. constructor; [done|]. eapply list.Forall_impl; [exact Hgv|].
      cbn. intros r Hrv. lia.
    + constructor; [lia|by constructor].
    + intros a. rewrite !covers_cons. tauto.
Qed.

Lemma merge_all_spec l : forall acc,
  ends_ok l -> ends_ok acc -> gapped acc -> Forall (fun w => Forall (fun v => mw_start v <= mw_start w) acc) l ->
  StronglySorted (fun w v => mw_start w <= mw_start v) l ->
  ends_ok (fold_left merge_window l acc) /\ gapped (fold_left merge_window l acc) /\
  forall a, covers (fold_left merge_window l acc) a <-> covers acc a \/ covers l a.
Proof.
  induction l as [|w l IH]; intros acc Hl Ha Hg Hle Hs; cbn [fold_left].
  { split_and!; [done|done|]. intros a. pose proof (covers_nil a). tauto. }
  unfold ends_ok in Hl. apply list.Forall_cons in Hl as [Hw Hl], Hle as [Hle Hles]. apply StronglySorted_inv in Hs as [Hs Hws].
  destruct (merge_window_spec acc w) as (H1 & H2 & H3 & H4); [by constructor|done..|].
  destruct (IH (merge_window acc w)) as (? & ? & H5); [done|done|done| |done|].
  - apply list.Forall_forall. intros x Hx. rewrite list.Forall_forall in Hws. specialize (Hws x Hx).
    eapply list.Forall_impl; [exact H3|]. cbn. intros. lia.
  - split_and!; [done|done|]. intros a. rewrite H5, H4, covers_cons. tauto.
Qed.

#[local] Instance start_total : Total (fun w v : MemoryWindow => mw_start w <= mw_start v).
Proof. intros w v. lia. Qed.
#[local] Instance start_trans : Transitive (fun w v : MemoryWindow => mw_start w <= mw_start v).
Proof. intros w v x ? ?. lia. Qed.

Lemma merge_windows_spec l : ends_ok l ->
  ends_ok (merge_windows l) /\ gapped (reverse (merge_windows l)) /\ forall a, covers (merge_windows l) a <-> covers l a.
Proof.
  intros Hl. unfold merge_windows. rewrite reverse_involutive.
  assert (Hp : sort_windows l ≡ₚ l) by apply merge_sort_Permutation.
  destruct (merge_all_spec (sort_windows l) []) as (H1 & H2 & H3).
  - unfold ends_ok. by rewrite Hp.
  - constructor.
  - done.
  - apply list.Forall_forall. intros. constructor.
  - apply StronglySorted_merge_sort; apply _.
  - split_and!; [|done|].
    + unfold ends_ok. by rewrite reverse_Permutation.
    + intros a. rewrite (covers_perm _ _ _ (reverse_Permutation _)), H3, (covers_perm _ _ _ Hp).
      pose proof (covers_nil a). tauto.
Qed.

Lemma gapped_total l w v : gapped l -> w ∈ l -> v ∈ l ->
  w = v \/ mw_start w + mw_len w < mw_start v \/ mw_start v + mw_len v < mw_start w.
Proof.
  induction l as [|x l IH]; intros Hg Hw Hv; [by apply elem_of_nil in Hw|]. destruct Hg as [Hx Hg].
  rewrite list.Forall_forall in Hx. apply elem_of_cons in Hw as [->|Hw], Hv as [->|Hv].
  - by left.
  - right. right. by apply Hx.
  - right. left. by apply Hx.
  - by apply IH.
Qed.

(** Windows with gaps between them cover a range only if one of them does. *)
Lemma gapped_covers l start size : ends_ok l -> gapped l -> 0 < size ->
  (forall a, start <= a < start + size -> covers l a) ->
  exists w, w ∈ l /\ forall a, start <= a < start + size -> in_window w a.
Proof.
  intros He Hg Hz Hc. destruct (Hc start) as (w & Hw & Hin); [lia|]. exists w. split; [done|].
  apply ends_ok_forall in He. rewrite list.Forall_forall in He. pose proof (He w Hw). unfold in_window in *.
  destruct (Z.le_gt_cases (start + size) (mw_start w + mw_len w)) as [|Hgt]; [intros; lia|].
  destruct (Hc (mw_start w + mw_len w)) as (v & Hv & Hiv); [lia|]. pose proof (He v Hv). unfold in_window in Hiv.
  destruct (gapped_total l w v Hg Hw Hv) as [->|[?|?]]; lia.
Qed.

Lemma cut_window_spec window end_ r a :
  window_end window = Some end_ -> window_ok r -> window_end r <> None ->
  covers (cut_window window end_ r) a <-> in_window r a /\ ~ in_window window a.
Proof.
  intros Hw [Hr0 Hr1] Hr. apply window_end_ok in Hr. apply checked_add_Some in Hw as [-> Hw].
  unfold cut_window. rewrite saturating_end by done. unfold covers, in_window.
  setoid_rewrite list_elem_of_fmap. split.
  - intros (w & (p & -> & Hp) & Ha). apply list_elem_of_filter in Hp as [Hlt Hp]. cbn [mw_start mw_len] in Ha.
    apply elem_of_cons in Hp as [->|[->|Hp]%elem_of_cons]; [| |by apply elem_of_nil in Hp]; cbn [fst snd] in *; lia.
  - intros [Ha Hn]. destruct (Z.lt_ge_cases a (mw_start window)) as [Hlt|Hge].
    + eexists. split.
      * eexists. split; [done|]. apply list_elem_of_filter. split; [|by left]. cbn [fst snd]. lia.
      * cbn [mw_start mw_len fst snd]. lia.
    + eexists. split.
      * eexists. split; [done|]. apply list_elem_of_filter. split; [|right; by left]. cbn [fst snd]. lia.
      * cbn [mw_start mw_len fst snd]. lia.
Qed.

Lemma cut_window_ok window end_ r w :
  window_end window = Some end_ -> window_ok window -> window_ok r -> window_end r <> None ->
  w ∈ cut_window window end_ r -> window_ok w /\ window_end w <> None /\ 0 < mw_len w.
Proof.
  intros He [? ?] [? ?] Hr Hw. apply window_end_ok in Hr. apply checked_add_Some in He as [-> He].
  unfold cut_window in Hw. rewrite saturating_end in Hw by done. apply list_elem_of_fmap in Hw as (p & -> & Hp).
  apply list_elem_of_filter in Hp as [Hlt Hp]. rewrite window_end_ok. unfold window_ok. cbn [mw_start mw_len].
  apply elem_of_cons in Hp as [->|[->|Hp]%elem_of_cons]; [| |by apply elem_of_nil in Hp]; cbn [fst snd] in *; lia.
Qed.

(** The policy as [grant_load_window] replaces it. *)
Definition granted (p : MemoryPolicy) (window : MemoryWindow) (end_ : Z) : MemoryPolicy := {|
  writable := merge_windows (writable p ++ [window]);
  reserved := concat (map (cut_window window end_) (reserved p));
  entry_alignment := entry_alignment p |}.

Lemma elem_of_concat_map {A B} (f : A -> list B) l x : x ∈ concat (map f l) <-> exists y, y ∈ l /\ x ∈ f y.
Proof. rewrite list_elem_of_In, in_concat. setoid_rewrite in_map_iff. setoid_rewrite list_elem_of_In. naive_solver. Qed.

Section granted.
Context (p : MemoryPolicy) (window : MemoryWindow) (end_ : Z).
Context (Hp : policy_ok p) (Hw : window_ok window) (He : window_end window = Some end_).

Lemma granted_writable : ends_ok (writable p ++ [window]).
Proof.
  apply list.Forall_app. split; [apply Hp|]. apply list.Forall_singleton. split; [done|]. by rewrite He.
Qed.

Lemma granted_reserved a : covers (reserved (granted p window end_)) a <-> covers (reserved p) a /\ ~ in_window window a.
Proof.
  pose proof (po_reserved _ Hp) as Hr. unfold ends_ok in Hr. rewrite list.Forall_forall in Hr. cbn [granted reserved].
  unfold covers. setoid_rewrite elem_of_concat_map. split.
  - intros (w & (r & Hin & Hcut) & Ha). destruct (Hr r Hin) as [Hok Hend].
    destruct (proj1 (cut_window_spec window end_ r a He Hok Hend)) as [? ?]; [by exists w|]. split; [by exists r|done].
  - intros ((r & Hin & Ha) & Hn). destruct (Hr r Hin) as [Hok Hend].
    destruct (proj2 (cut_window_spec window end_ r a He Hok Hend)) as (w & ? & ?); [done|]. exists w. split; [by exists r|done].
Qed.

Lemma granted_reserved_ok w : w ∈ reserved (granted p window end_) -> window_ok w /\ window_end w <> None /\ 0 < mw_len w.
Proof.
  pose proof (po_reserved _ Hp) as Hr. unfold ends_ok in Hr. rewrite list.Forall_forall in Hr. cbn [granted reserved].
  intros (r & Hin & Hcut)%elem_of_concat_map. destruct (Hr r Hin) as [Hok Hend]. by apply (cut_window_ok window end_ r).
Qed.

Lemma granted_ok : Forall window_ok (writable (granted p window end_)) /\ Forall window_ok (reserved (granted p window end_)).
Proof.
  destruct (merge_windows_spec _ granted_writable) as (Hm & _). split.
  - cbn [granted writable]. eapply list.Forall_impl; [exact Hm|]. by intros ? [? _].
  - apply list.Forall_forall. intros w Hin. by apply granted_reserved_ok.
Qed.

(** Overlap with a list of windows is a common byte. *)
Lemma overlaps_none l start size : 0 < size -> (forall w, w ∈ l -> window_ok w /\ window_end w <> None /\ 0 < mw_len w) ->
  start + size <= u64_max ->
  (forall w, w ∈ l -> overlaps w {| mw_start := start; mw_len := size |} = false) <->
  forall a, start <= a < start + size -> ~ covers l a.
Proof.
  intros Hz Hl Hm. split.
  - intros H a Ha (w & Hin & ? & ?). specialize (H w Hin). apply overlaps_false in H. cbn [mw_start mw_len] in H. lia.
  - intros H w Hin. destruct (Hl w Hin) as (_ & Hend & Hpos). apply window_end_ok in Hend. apply overlaps_false.
    cbn [mw_start mw_len].
    destruct (Z.le_gt_cases (start + size) (mw_start w)); [split_and!; (done || lia)|].
    destruct (Z.le_gt_cases (mw_start w + mw_len w) start); [split_and!; (done || lia)|].
    exfalso. apply (H (Z.max start (mw_start w))); [lia|]. exists w. split; [done|]. unfold in_window. lia.
Qed.

Lemma granted_permits {T : Target} start size : 0 <= start -> 0 <= size ->
  permits (granted p window end_) start size = true <->
    0 < size <= isize_max /\ 0 < start /\ start + size <= usize_max /\
    forall a, start <= a < start + size ->
      (covers (writable p) a \/ in_window window a) /\ (covers (reserved p) a -> in_window window a).
Proof.
  intros Hs Hz. rewrite permits_true. pose proof usize_max_bounds as Hm.
  destruct (merge_windows_spec _ granted_writable) as (Hmo & Hgap & Hcov).
  setoid_rewrite contains_spec. cbn [mw_start mw_len].
  assert (Hcov' : forall a, covers (merge_windows (writable p ++ [window])) a <-> covers (writable p) a \/ in_window window a).
  { intros a. rewrite Hcov, covers_app, covers_cons. pose proof (covers_nil a). tauto. }
  assert (Hdec : forall a, in_window window a \/ ~ in_window window a) by (intros a; unfold in_window; lia).
  split.
  - intros (H1 & H2 & H3 & H4 & H5 & (w & Hin & Hcon) & Hres). split_and!; try lia. intros a Ha.
    rewrite (overlaps_none _ start size) in Hres; [|lia|apply granted_reserved_ok|lia].
    specialize (Hres a Ha). rewrite granted_reserved in Hres. split.
    + apply Hcov'. exists w. split; [done|]. unfold in_window. lia.
    + destruct (Hdec a); tauto.
  - intros ((H1 & H2) & H3 & H4 & Hall). split_and!; try lia.
    + destruct (gapped_covers (reverse (merge_windows (writable p ++ [window]))) start size) as (w & Hin & Hw').
      * unfold ends_ok. by rewrite reverse_Permutation.
      * done.
      * lia.
      * intros a Ha. apply (covers_perm _ _ _ (reverse_Permutation _)), Hcov'. by apply Hall.
      * exists w. rewrite elem_of_reverse in Hin. split; [exact Hin|].
        pose proof (Hw' start ltac:(lia)). pose proof (Hw' (start + size - 1) ltac:(lia)). unfold in_window in *.
        unfold ends_ok in Hmo. rewrite list.Forall_forall in Hmo. destruct (Hmo w Hin) as [_ Hend]. apply window_end_ok in Hend.
        split_and!; lia.
    + apply (overlaps_none _ start size); [lia|apply granted_reserved_ok|lia|].
      intros a Ha. rewrite granted_reserved. intros [Hr Hn]. by apply Hn, Hall.
Qed.
End granted.

(** C20: after a window is granted, the policy permits exactly the ranges whose
    bytes all lie in an old writable window or in the new one, across any seam,
    and in a reserved window only where the new one frees it.  Loads already in the
    ledger stay there.  A refused grant changes nothing. *)
Theorem grant_permits_iff {T : Target} try_reserve window s p :
  load_policy s = Some p -> policy_ok p -> window_ok window ->
  match grant_load_window try_reserve window s with
  | (s', Ok _) => ld_ledger s' = ledger_initialize (ld_ledger s) /\
      exists p', load_policy s' = Some p' /\ policy_ok p' /\ entry_alignment p' = entry_alignment p /\
      forall start size, 0 <= start -> 0 <= size ->
        permits p' start size = true <->
          0 < size <= isize_max /\ 0 < start /\ start + size <= usize_max /\
          forall a, start <= a < start + size ->
            (covers (writable p) a \/ in_window window a) /\ (covers (reserved p) a -> in_window window a)
  | (s', Err _) => s' = s
  | (_, Panic) => False
  end.
Proof.
  intros Hs Hp Hw. unfold grant_load_window. rewrite Hs. unfold load_policy in Hs. unfold load_codec.
  destruct (ld_policy s) as [[q c]|] eqn:Hld; [|done]. cbn [fmap option_fmap option_map op_policy op_codec] in *.
  injection Hs as ->. destruct (window_end window) as [end_|] eqn:He; [|done]. fold (granted p window end_).
  destruct (granted_ok p window end_ Hp Hw He) as [Hgw Hgr].
  pose proof (set_load_policy_Ok try_reserve (granted p window end_) c s) as Hset.
  destruct (set_load_policy _ _ _ _) as [s' [[]|e|]] eqn:Hrun.
  - destruct (Hset s' Hgw Hgr eq_refl) as (Hok & Hpol & Hled). split; [done|]. exists (granted p window end_).
    unfold load_policy. rewrite Hpol. split_and!; [done|done|done|]. intros. by apply granted_permits.
  - unfold set_load_policy in Hrun. repeat (destruct (negb _); [by injection Hrun as <- _|]). done.
  - unfold set_load_policy in Hrun. repeat (destruct (negb _); [done|]). done.
Qed.

(** RAM around a reserved framebuffer that is granted back. *)
Definition demo_windows : MemoryPolicy := {|
  writable := [{| mw_start := 0x8000; mw_len := 0x1000 |}; {| mw_start := 0x1000; mw_len := 0x3000 |}];
  reserved := [{| mw_start := 0x3800; mw_len := 0x1000 |}]; entry_alignment := 1 |}.
Definition demo_loads : Loads := {|
  ld_policy := Some {| op_policy := demo_windows; op_codec := Lz4 |}; ld_ledger := None |}.

Lemma grant_permits_iff_witness :
  permits (T := target64) demo_windows 0x3000 0x5800 = false /\
  exists s' p', grant_load_window (fun _ => true) {| mw_start := 0x3800; mw_len := 0x4800 |} demo_loads = (s', Ok tt) /\
    load_policy s' = Some p' /\ policy_ok p' /\ permits (T := target64) p' 0x3000 0x5800 = true.
Proof.
  split; [vm_compute; reflexivity|].
  assert (Hp : policy_ok demo_windows).
  { assert (Hb : forall n m, 0 <= n <= 0x10000 -> 0 <= m <= 0x10000 ->
      window_ok {| mw_start := n; mw_len := m |} /\ window_end {| mw_start := n; mw_len := m |} <> None).
    { intros n m ? ?. unfold window_ok, u64_max. rewrite window_end_ok. cbn [mw_start mw_len]. unfold u64_max. lia. }
    split; [|apply list.Forall_singleton; apply Hb; lia|done].
    apply list.Forall_cons. split; [apply Hb; lia|]. apply list.Forall_singleton. apply Hb; lia. }
  pose proof (grant_permits_iff (T := target64) (fun _ => true) {| mw_start := 0x3800; mw_len := 0x4800 |} demo_loads
    demo_windows eq_refl Hp ltac:(unfold window_ok, u64_max; cbn [mw_start mw_len]; lia)) as H.
  destruct (grant_load_window _ _ _) as [s' [[]|e|]] eqn:Hrun; [|vm_compute in Hrun; discriminate|done].
  destruct H as (_ & p' & Hp' & Hok & _ & Hiff). exists s', p'. split_and!; [done..|]. apply Hiff; [lia..|].
  split; [vm_compute; split; [reflexivity|discriminate]|]. split; [lia|]. split; [vm_compute; discriminate|].
  intros a Ha. assert (Hr : covers (reserved demo_windows) a -> in_window {| mw_start := 0x3800; mw_len := 0x4800 |} a).
  { intros (w & Hw & ?). apply elem_of_cons in Hw as [->|Hw]; [unfold in_window in *; cbn in *; lia|]. by apply elem_of_nil in Hw. }
  split; [|done]. unfold in_window. cbn [mw_start mw_len].
  destruct (Z.lt_ge_cases a 0x3800) as [?|?]; [|destruct (Z.lt_ge_cases a 0x8000) as [?|?]; [right; lia|]]; left.
  - exists {| mw_start := 0x1000; mw_len := 0x3000 |}. split; [right; by left|]. unfold in_window. cbn. lia.
  - exists {| mw_start := 0x8000; mw_len := 0x1000 |}. split; [by left|]. unfold in_window. cbn. lia.
Defined.
