(* ===== verification/Stage.v ===== *)
(** * Stage: the chain of trust of a stage ([crates/stage/src/root.rs],
    [directory.rs], [ffs_helpers.rs], the registration of [fdt_workspace.rs])

    A stage authenticates the boot root against its own trust block, reads the
    directory the root pins into memory it owns, and loads single files of that
    directory through the loader, under its memory policy and the ledger of what
    it has loaded.  The state is the memory with the measurement log, the
    directory, the policy, the ledger and the registered device tree workspace;
    everything runs on the boot processor, so the compare-and-exchange of each
    publication finds what was read before it.

    The stage is built with the features [ffs] and, as a parameter,
    [ffs-signature]; the heap's refusals are a parameter too. *)

From S2P Require Import Prelude.
From S2P Require Import Bytes.
From S2P Require Import Wire.
From S2P Require Import Services.
From S2P Require Import Crypto.
From S2P Require Import Root.
From S2P Require Import Manifest.
From S2P Require Import Memory.
From S2P Require Import BootMedia.
From S2P Require Import Load.
From S2P Require Import Resume.
From S2P Require Import Ledger.
From S2P Require Import LoadPolicy.
From S2P Require Import Locator.
From Stdlib Require Import ZArith Lia.
From stdpp Require Import base numbers list option relations.

#[local] Open Scope Z_scope.

Definition MAX_DIRECTORY_SIZE : Z := 64 * 1024.

#[export] Instance DirectoryRef_eq_dec : EqDecision DirectoryRef.
Proof. solve_decision. Defined.
#[export] Instance MemoryWindow_eq_dec : EqDecision MemoryWindow.
Proof. solve_decision. Defined.
#[export] Instance BootstrapRole_eq_dec : EqDecision BootstrapRole.
Proof. solve_decision. Defined.

Record VerifiedDirectory := { vd_bytes : list Z; vd_reference : DirectoryRef; vd_image_size : Z }.

(** The registered device tree workspace. *)
Record Workspace := { ws_source : MemoryWindow; ws_destination : MemoryWindow }.
#[export] Instance Workspace_eq_dec : EqDecision Workspace.
Proof. solve_decision. Defined.

Record Stage := {
  sg_machine : Machine; sg_directory : option VerifiedDirectory; sg_asset_reader : bool;
  sg_loads : Loads; sg_workspace : option Workspace
}.

Definition set_machine (s : Stage) (m : Machine) : Stage := {|
  sg_machine := m; sg_directory := sg_directory s; sg_asset_reader := sg_asset_reader s;
  sg_loads := sg_loads s; sg_workspace := sg_workspace s |}.
Definition set_loads (s : Stage) (l : Loads) : Stage := {|
  sg_machine := sg_machine s; sg_directory := sg_directory s; sg_asset_reader := sg_asset_reader s;
  sg_loads := l; sg_workspace := sg_workspace s |}.
Definition set_ledger (s : Stage) (g : option Ledger) : Stage :=
  set_loads s {| ld_policy := ld_policy (sg_loads s); ld_ledger := g |}.

(** [r.ok()] *)
Definition ok {E A} (r : res E A) : res unit A := map_err (fun _ => tt) r.
Definition some {A} (o : option A) : res unit A := ok_or o tt.

(** An event and whether the log records it. *)
Record Measurement := { me_event : Event; me_recorded : bool }.
Definition NONE_MEASUREMENT : Measurement := {| me_event := none_event; me_recorded := false |}.

Section stage.
Context {T : Target} {C : Crypto} {M : Type} {BM : BootMedia M}.
Context (partial : list Z -> list Z -> list Z).
Context (ffs_signature : bool) (try_reserve : Z -> bool).
(** The linked trust block: its address and its bytes. *)
Context (trust_addr : Z) (trust_data : list Z).

(** [boot::read_exact] *)
Definition read_exact (media : M) (offset : Z) (destination : list Z) : list Z * res LoadError unit :=
  let '(s, r) := read media offset 0 (zlen destination) {| workspace := destination; measured := [] |} in
  (workspace s, let? _ := r in Ok tt).

(** ** The boot root *)

Definition read_boot_root (media : M) (offset : Z) (policy : RootPolicy) : res RootError Root :=
  fail_if (media_size media <? rp_image_size policy)
          || match checked_add u64_max offset ROOT_SIZE with
             | Some end_ => rp_image_size policy <? end_
             | None => true
             end with Root.OutOfBounds;
  let '(bytes, r) := read_exact media offset (zeros ROOT_SIZE) in
  let? _ := map_err (fun _ => Root.OutOfBounds) r in
  if ffs_signature then authenticate_root policy bytes else Err Root.UnsupportedAlgorithm.

Definition authenticate_boot_root (anchor_data : list Z) (media : M) : res RootError Root :=
  let? trust := ok_or (trust_read_volatile trust_addr trust_data) InvalidFormat in
  let? anchor := ok_or (locator_read_volatile anchor_data) InvalidFormat in
  fail_if negb (lb_image_offset anchor =? 0)
          || negb (media_validate (locator_media anchor) (media_size media)) with InvalidFormat;
  let? keys := valid_keys trust in
  read_boot_root media (lb_manifest_offset anchor) {|
    rp_image_family := tb_image_family trust;
    rp_minimum_security_version := tb_minimum_security_version trust;
    rp_image_size := lb_total_image_size anchor;
    rp_max_directory_size := MAX_DIRECTORY_SIZE;
    rp_keys := keys |}.

(** ** The directory *)

Definition open_directory (media : M) (reference : DirectoryRef) : res ReaderError VerifiedDirectory :=
  let? _ := map_err (fun _ => OutOfBounds) (directory_validate reference (media_size media) MAX_DIRECTORY_SIZE) in
  let? size := ok_or (try_from usize_max (dr_size reference)) OutOfBounds in
  fail_if negb (try_reserve size) with OutOfBounds;
  let '(bytes, r) := read_exact media (dr_offset reference) (zeros size) in
  let? _ := map_err (fun _ => OutOfBounds) r in
  let? _ := map_err (fun _ => DigestMismatch) (directory_verify_bytes reference bytes) in
  let? _ := manifest_parse bytes in
  Ok {| vd_bytes := bytes; vd_reference := reference; vd_image_size := media_size media |}.

(** The reference is published with the reader of named assets. *)
Definition publish_directory (s : Stage) (d : VerifiedDirectory) : Stage := {|
  sg_machine := sg_machine s; sg_directory := Some d; sg_asset_reader := true;
  sg_loads := sg_loads s; sg_workspace := sg_workspace s |}.

Definition install_directory_context (media : M) (reference : DirectoryRef) : sres Stage ReaderError unit := fun s =>
  match sg_directory s with
  | Some existing =>
      (s, if bool_decide (vd_reference existing = reference) && (vd_image_size existing =? media_size media)
          then Ok tt else Err DigestMismatch)
  | None =>
      match open_directory media reference with
      | Ok d => (publish_directory s d, Ok tt)
      | Err e => (s, Err e)
      | Panic => (s, Panic)
      end
  end.

Definition directory_view (s : Stage) (media : M) : res ReaderError ManifestView :=
  let? directory := ok_or (sg_directory s) CannotVerifyInPlace in
  fail_if negb (vd_image_size directory =? media_size media) with OutOfBounds;
  manifest_parse (vd_bytes directory).

Definition ensure_context (anchor_data : list Z) (media : M) : sres Stage ReaderError unit := fun s =>
  match sg_directory s with
  | Some _ => (s, let? _ := directory_view s media in Ok tt)
  | None =>
      match authenticate_boot_root anchor_data media with
      | Ok root => install_directory_context media (r_directory root) s
      | Err _ => (s, Err Manifest.SignatureInvalid)
      | Panic => (s, Panic)
      end
  end.

(** Whether a writer's reservation is the directory's. *)
Definition matches_raw_reservation (s : Stage) (name : list Z) (offset size fill : Z) : res unit bool :=
  match sg_directory s with
  | None => Ok false
  | Some directory =>
      match (let? view := manifest_parse (vd_bytes directory) in raw_region view name) with
      | Ok found => Ok (bool_decide (found = Some (offset, size, fill)))
      | Err _ => Ok false
      | Panic => Panic
      end
  end.

(** ** The device tree workspace *)

Definition workspace_range_ok (range : MemoryWindow) : bool :=
  negb (mw_start range =? 0) && (mw_start range mod 4 =? 0) && (40 <=? mw_len range) && (mw_len range <=? isize_max)
  && bool_decide (is_Some (checked_add u64_max (mw_start range) (mw_len range) ≫= try_from usize_max)).

Definition configure_fdt_workspace (source destination : MemoryWindow) : sres Stage ServiceError unit := fun s =>
  let configured := {| ws_source := source; ws_destination := destination |} in
  if negb (workspace_range_ok source && workspace_range_ok destination) then (s, Err InvalidParam)
  else
    match sg_workspace s with
    | Some old => (s, if bool_decide (old = configured) then Ok tt else Err InvalidParam)
    | None =>
        if negb (mw_start source =? mw_start destination) && overlaps source destination then (s, Err InvalidParam)
        else
          match load_policy (sg_loads s) with
          | None => (s, Err NotInitialized)
          | Some policy =>
              let mapped := {| writable := writable policy; reserved := []; entry_alignment := 1 |} in
              if negb (permits mapped (mw_start destination) (mw_len destination))
                 || existsb (fun r => overlaps r destination
                      && negb ((mw_start source =? mw_start destination) && bool_decide (r = source))) (reserved policy)
              then (s, Err InvalidParam)
              else
                match begin_fdt destination (ld_ledger (sg_loads s)) with
                | (g, Ok _) =>
                    ({| sg_machine := sg_machine s; sg_directory := sg_directory s;
                        sg_asset_reader := sg_asset_reader s;
                        sg_loads := {| ld_policy := ld_policy (sg_loads s); ld_ledger := pending_drop <$> g |};
                        sg_workspace := Some configured |}, Ok tt)
                | (g, Err _) => (set_ledger s g, Err InvalidParam)
                | (g, Panic) => (set_ledger s g, Panic)
                end
          end
    end.

Definition workspace_destination (s : Stage) : option MemoryWindow := ws_destination <$> sg_workspace s.

(** ** Loading files *)

(** The descriptor of a file of one segment that holds data. *)
Definition descriptor (file : FileView) : res unit BootstrapDescriptor :=
  match fv_segments file with
  | [segment] =>
      let? kind := ok (decode_segment_kind (sr_kind segment)) in
      fail_if bool_decide (kind = Bss) with tt;
      let? a := some (checked_add u64_max (fv_region_offset file) (er_offset (fv_entry file))) in
      let? offset := some (checked_add u64_max a (Manifest.sr_offset segment)) in
      let loaded_size := sr_initialized_size segment in
      let stored_size := sr_stored_size segment in
      let? compression := ok (decode_compression (sr_compression segment)) in
      let? scratch :=
        (if bool_decide (compression = CompressionLz4) then some (checked_add u64_max loaded_size stored_size)
         else Ok 0) in
      Ok {| bd_role := Mainstage; bd_compression := compression; bd_offset := offset; bd_stored_size := stored_size;
            bd_loaded_size := loaded_size; bd_load_addr := sr_load_addr segment; bd_entry_offset := 0;
            bd_scratch_size := scratch; bd_stored_digest := sr_stored_digest segment;
            bd_loaded_digest := sr_loaded_digest segment |}
  | _ => Err tt
  end.

Definition with_load_addr (d : BootstrapDescriptor) (addr : Z) : BootstrapDescriptor := {|
  bd_role := bd_role d; bd_compression := bd_compression d; bd_offset := bd_offset d;
  bd_stored_size := bd_stored_size d; bd_loaded_size := bd_loaded_size d; bd_load_addr := addr;
  bd_entry_offset := bd_entry_offset d; bd_scratch_size := bd_scratch_size d;
  bd_stored_digest := bd_stored_digest d; bd_loaded_digest := bd_loaded_digest d |}.

(** The measurement with the file's place and, unless it has one, its name. *)
Definition file_measurement (media : M) (d : BootstrapDescriptor) (name : list Z) (me : Measurement)
    : res unit Measurement :=
  let? base := some (checked_add u64_max (match as_slice media with Some (addr, _) => addr | None => 0 end) (bd_offset d)) in
  let e := me_event me in
  Ok {| me_event := {| ev_pcr := ev_pcr e; ev_kind := ev_kind e;
          ev_description := if bool_decide (ev_description e = []) then name else ev_description e; ev_base := base |};
        me_recorded := me_recorded me |}.

Definition load_measured (media : M) (d : BootstrapDescriptor) (p : MemoryPolicy) (c : Codec) (me : Measurement)
    : sres Machine LoadError Z := fun m =>
  let '(m', r) := load_bootstrap partial media d p c (me_event me) m in
  ({| ram := ram m'; log := if me_recorded me then log m' else log m |}, r).

(** What is loaded where, and whether it goes to the workspace. *)
Record FilePlan := {
  fp_descriptor : BootstrapDescriptor; fp_policy : MemoryPolicy; fp_footprint : Z; fp_loaded_size : Z;
  fp_fdt : option MemoryWindow; fp_measurement : Measurement
}.

(** All that precedes the ledger. *)
Definition plan_file (s : Stage) (media : M) (file : FileView) (image_size : Z) (me : Measurement) : res unit FilePlan :=
  let? d := descriptor file in
  let? name := ok (string_at (fv_strings file) (er_name (fv_entry file))) in
  let? me := file_measurement media d name me in
  let? segment := some (head (fv_segments file)) in
  let? file_type := ok (decode_file_type (er_file_type (fv_entry file))) in
  let? fdt_window :=
    (if bool_decide (file_type = Fdt) then
       let? kind := ok (decode_segment_kind (sr_kind segment)) in
       fail_if bool_decide (kind = Code) || sf_execute (decode_segment_flags (sr_flags segment)) with tt;
       let? w := some (workspace_destination s) in Ok (Some w)
     else Ok None) in
  let? (d, policy) :=
    match fdt_window with
    | Some w => Ok (with_load_addr d (mw_start w), {| writable := [w]; reserved := []; entry_alignment := 1 |})
    | None => let? p := some (load_policy (sg_loads s)) in Ok (d, p)
    end in
  let? footprint := ok (bootstrap_footprint d) in
  let footprint := Z.max footprint (sr_loaded_size segment) in
  let? _ := ok (place media policy (bd_load_addr d) footprint) in
  let? end_ := some (checked_add u64_max (bd_offset d) (bd_stored_size d)) in
  fail_if image_size <? end_ with tt;
  Ok {| fp_descriptor := d; fp_policy := policy; fp_footprint := footprint; fp_loaded_size := sr_loaded_size segment;
        fp_fdt := fdt_window; fp_measurement := me |}.

(** The windows the plan takes from the ledger. *)
Definition plan_begin (s : Stage) (plan : FilePlan) : sres (option Ledger) LoadError PendingLoad :=
  match fp_fdt plan with
  | Some w => begin_fdt w
  | None =>
      begin (workspace_destination s)
        [{| mw_start := bd_load_addr (fp_descriptor plan); mw_len := fp_footprint plan |}]
        [{| mw_start := bd_load_addr (fp_descriptor plan); mw_len := fp_loaded_size plan |}]
  end.

(** The load itself and the zeroed tail. *)
Definition fill_memory (media : M) (plan : FilePlan) (c : Codec) : sres Machine unit Z :=
  let d := fp_descriptor plan in
  let! entry := fun m => let '(m', r) := load_measured media d (fp_policy plan) c (fp_measurement plan) m in (m', ok r) in
  let! tail := slift (some (checked_sub (fp_loaded_size plan) (bd_loaded_size d))) in
  let! _ := fun m =>
    ((if tail =? 0 then m
      else {| ram := mem_write (ram m) (bd_load_addr d + bd_loaded_size d) (zeros tail); log := log m |}), Ok tt) in
  slift (Ok entry).

(** A failure drops the guard. *)
Definition load_file_segments_from_media (media : M) (file : FileView) (image_size : Z) (me : Measurement)
    : sres Stage unit Z := fun s =>
  match plan_file s media file image_size me with
  | Ok plan =>
      match plan_begin s plan (ld_ledger (sg_loads s)) with
      | (g, Ok pending) =>
          match load_codec (sg_loads s) with
          | None => (set_ledger s (pending_drop <$> g), Err tt)
          | Some c =>
              let '(m, r) := fill_memory media plan c (sg_machine s) in
              let s := set_machine s m in
              match r, g with
              | Ok entry, Some g =>
                  match fp_fdt plan with
                  | Some _ => (set_ledger s (Some (pending_drop g)), Ok entry)
                  | None =>
                      let '(g, r) := commit pending g in (set_ledger s (Some g), let? _ := ok r in Ok entry)
                  end
              | r, g => (set_ledger s (pending_drop <$> g), r)
              end
          end
      | (g, Err _) => (set_ledger s g, Err tt)
      | (g, Panic) => (set_ledger s g, Panic)
      end
  | Err e => (s, Err e)
  | Panic => (s, Panic)
  end.

Definition load_ffs_file_measured (media : M) (file_type : FileType) (me : Measurement) : sres Stage unit Z := fun s =>
  match (let? v := ok (directory_view s media) in ok (find_file_by_type v file_type)) with
  | Ok file => load_file_segments_from_media media file (media_size media) me s
  | Err e => (s, Err e)
  | Panic => (s, Panic)
  end.

Definition load_ffs_file_entry_by_type (media : M) (file_type : FileType) : sres Stage unit Z :=
  load_ffs_file_measured media file_type NONE_MEASUREMENT.

(** Reports success only. *)
Definition load_ffs_file_by_type (media : M) (file_type : FileType) : sres Stage unit bool := fun s =>
  match load_ffs_file_entry_by_type media file_type s with
  | (s, Ok _) => (s, Ok true) | (s, Err _) => (s, Ok false) | (s, Panic) => (s, Panic)
  end.

Definition load_ffs_file_by_name (media : M) (name : list Z) : sres Stage unit bool := fun s =>
  match (let? v := ok (directory_view s media) in ok (find_file_by_name v name)) with
  | Ok file =>
      match load_file_segments_from_media media file (media_size media) NONE_MEASUREMENT s with
      | (s, Ok _) => (s, Ok true) | (s, Err _) => (s, Ok false) | (s, Panic) => (s, Panic)
      end
  | Err _ => (s, Ok false)
  | Panic => (s, Panic)
  end.

(** ** Reading files into memory the stage owns *)

Definition stored_file (v : ManifestView) (file_type : FileType) : res unit BootstrapDescriptor :=
  let? file := ok (find_file_by_type v file_type) in
  let? d := descriptor file in
  fail_if negb (bool_decide (bd_compression d = CompressionNone)) with tt;
  Ok d.

Definition find_ffs_file_data (s : Stage) (media : M) (file_type : FileType) : res unit (list Z) :=
  let? v := ok (directory_view s media) in
  let? d := stored_file v file_type in
  let? size := some (try_from usize_max (bd_stored_size d)) in
  let? end_ := some (checked_add u64_max (bd_offset d) (bd_stored_size d)) in
  fail_if media_size media <? end_ with tt;
  fail_if negb (try_reserve size) with tt;
  let '(bytes, r) := read_exact media (bd_offset d) (zeros size) in
  let? _ := ok r in
  fail_if negb (bytes_eqb (sha256 bytes) (bd_stored_digest d)) with tt;
  Ok bytes.

(** Into a temporary arena; [mem] is the arena's memory. *)
Definition find_ffs_file_data_with_scratch (s : Stage) (media : M) (file_type : FileType) (mem : memory)
    : sres (option TempRamArena) unit (list Z) := fun scratch =>
  match scratch with
  | None => (None, find_ffs_file_data s media file_type)
  | Some arena =>
      match (let? v := ok (directory_view s media) in
             let? d := stored_file v file_type in
             let? _ := ok (bootstrap_validate d (media_size media)) in
             let? offset := some (try_from usize_max (bd_offset d)) in
             let? size := some (try_from usize_max (bd_stored_size d)) in
             Ok (d, offset, size)) with
      | Ok (d, offset, size) =>
          let '(arena, r) := read_to_temp media offset size arena mem in
          (Some arena,
           let? (_, bytes) := ok r in
           fail_if negb (bytes_eqb (sha256 bytes) (bd_stored_digest d)) with tt;
           Ok bytes)
      | Err e => (Some arena, Err e)
      | Panic => (Some arena, Panic)
      end
  end.

Definition read_asset (s : Stage) (media : M) (name : list Z) : res unit (list Z) :=
  let? v := ok (directory_view s media) in
  let? file := ok (find_file_by_name v name) in
  let? file_type := ok (decode_file_type (er_file_type (fv_entry file))) in
  fail_if negb (bool_decide (file_type = DataFile)) with tt;
  let? d := descriptor file in
  let? footprint := ok (bootstrap_footprint d) in
  let? footprint := some (try_from usize_max footprint) in
  fail_if negb (try_reserve footprint) with tt;
  let? c := some (load_codec (sg_loads s)) in
  let '(l, r) := load_bootstrap_into partial media d c none_event {| workspace := zeros footprint; measured := [] |} in
  let? _ := ok r in
  let? size := some (try_from usize_max (bd_loaded_size d)) in
  Ok (sub (workspace l) 0 size).

(** ** Bootstrap images *)

(** The one descriptor with the role. *)
Definition root_descriptor (root : Root) (role : BootstrapRole) : option BootstrapDescriptor :=
  match filter (fun d => bd_role d = role)
          (match r_descriptors root with (a, b) => option_list a ++ option_list b end) with
  | [d] => Some d
  | _ => None
  end.

Definition s_postcar : list Z := [0x70; 0x6F; 0x73; 0x74; 0x63; 0x61; 0x72].
Definition s_ramstage : list Z := [0x72; 0x61; 0x6D; 0x73; 0x74; 0x61; 0x67; 0x65].
Definition s_mainstage : list Z := [0x6D; 0x61; 0x69; 0x6E; 0x73; 0x74; 0x61; 0x67; 0x65].
Definition s_main : list Z := [0x6D; 0x61; 0x69; 0x6E].

Definition ffs_file_extent (anchor_data : list Z) (media : M) (name : list Z) : res unit BootstrapDescriptor :=
  let? role :=
    (if bytes_eqb name s_postcar then Ok Postcar
     else if bytes_eqb name s_ramstage || bytes_eqb name s_mainstage || bytes_eqb name s_main then Ok Mainstage
     else Err tt) in
  let? root := ok (authenticate_boot_root anchor_data media) in
  some (root_descriptor root role).

Definition stage_load_with_policy (anchor_data : list Z) (media : M) (role : BootstrapRole) (p : MemoryPolicy)
    (c : Codec) : sres Machine unit Z := fun m =>
  match (let? root := ok (authenticate_boot_root anchor_data media) in some (root_descriptor root role)) with
  | Ok d => let '(m', r) := load_measured media d p c NONE_MEASUREMENT m in (m', ok r)
  | Err e => (m, Err e)
  | Panic => (m, Panic)
  end.
End stage.
