(* ===== verification/StageFiles.v ===== *)
(** * StageFiles: what a stage establishes before it loads

    The chain of trust of [Stage.v] up to the plan of a load: the root is signed
    with a key of the stage, the directory has the digest the root gives, a file
    is one of the directory, and a plan is what its segment says. *)

From S2P Require Import Prelude.
From S2P Require Import Bytes.
From S2P Require Import Wire.
From S2P Require Import Services.
From S2P Require Import Crypto.
From S2P Require Import Root.
From S2P Require Import Manifest.
From S2P Require Import Memory.
From S2P Require Import BootMedia.
From S2P Require Import Lz4.
From S2P Require Import Load.
From S2P Require Import Resume.
From S2P Require Import Ledger.
From S2P Require Import LoadPolicy.
From S2P Require Import Locator.
From S2P Require Import Stage.
From Stdlib Require Import ZArith Lia.
From stdpp Require Import base numbers list option relations.

#[local] Open Scope Z_scope.

Lemma ok_Ok {E A} (r : res E A) a : ok r = Ok a <-> r = Ok a.
Proof. apply map_err_Ok. Qed.
Lemma some_Ok {A} (o : option A) a : some o = Ok a <-> o = Some a.
Proof. apply ok_or_Ok. Qed.

(** [rust_step], through the option-typed helpers of the stage. *)
Ltac stage_step H :=
  match type of H with
  | ok _ = Ok _ => apply (proj1 (ok_Ok _ _)) in H
  | some _ = Ok _ => apply (proj1 (some_Ok _ _)) in H
  | _ => rust_step H
  end.

Section trust.
Context {T : Target} {C : Crypto} {M : Type} {BM : BootMedia M} {wf : M -> Prop} {BL : BootMediaLaws M wf}.
Context (ffs_signature : bool) (try_reserve : Z -> bool).
Context (trust_addr : Z) (trust_data : list Z).
(** The references a protected hand-off may bring. *)
Context (handed : DirectoryRef -> Prop).

Lemma read_exact_Ok media offset dest bytes :
  wf media -> 0 <= offset -> bytes_ok dest -> zlen dest <= usize_max ->
  read_exact media offset dest = (bytes, Ok tt) -> bytes_ok bytes /\ zlen bytes = zlen dest.
Proof.
  intros Hm Ho Hb Hz H. pose proof (zlen_nonneg dest). unfold read_exact in H.
  destruct (read _ _ _ _ _) as [s [b|e|]] eqn:E; try done. injection H as <-.
  apply read_Ok in E as (Hl & Hbo & -> & _); cbn [workspace] in *; try (done || lia). split.
  - by apply bytes_ok_upd.
  - rewrite zlen_upd; lia.
Qed.

(** ** The root and the directory *)

(** Signed with a key of the stage's own trust block, for its family, and no
    older than it allows. *)
Definition root_authentic (root : Root) : Prop :=
  exists trust keys bytes policy,
    trust_read_volatile trust_addr trust_data = Some trust /\ valid_keys (E := RootError) trust = Ok keys /\
    rp_keys policy = keys /\ rp_image_family policy = tb_image_family trust /\
    rp_minimum_security_version policy = tb_minimum_security_version trust /\
    rp_max_directory_size policy = MAX_DIRECTORY_SIZE /\ bytes_ok bytes /\ root_trusted policy bytes root.

Lemma authenticate_boot_root_Ok anchor_data media root :
  wf media -> bytes_ok anchor_data ->
  authenticate_boot_root ffs_signature trust_addr trust_data anchor_data media = Ok root -> root_authentic root.
Proof.
  intros Hm Ha H. unfold authenticate_boot_root in H. rust_step H. rust_step Ha0. rust_step H. rust_step Ha1.
  rust_step H. rust_step H. unfold read_boot_root in H. rust_step H.
  rewrite locator_read_volatile_eq in Ha1. apply locator_parse_inv in Ha1 as [Hl _]; [|done].
  destruct (read_exact _ _ _) as [bytes [[]|e|]] eqn:Er; cbn [map_err rbind] in H; [|done..].
  destruct ffs_signature; [|done].
  assert (Hr : zlen (zeros ROOT_SIZE) = ROOT_SIZE) by done. pose proof usize_max_bounds as Hu.
  apply read_exact_Ok in Er as [Hbo _]; [|done|apply Hl|apply bytes_ok_zeros|unfold u32_max, ROOT_SIZE in *; lia].
  apply authenticate_root_spec in H; [|done]. unfold root_authentic. do 4 eexists. split_and!; [done|done|..|done|done]; done.
Qed.

(** The bytes the stage owns are the ones the reference pins. *)
Record directory_authentic (d : VerifiedDirectory) : Prop := {
  da_bytes : bytes_ok (vd_bytes d);
  da_size : zlen (vd_bytes d) = dr_size (vd_reference d);
  da_digest : sha256 (vd_bytes d) = dr_digest (vd_reference d);
  da_reference : handed (vd_reference d) \/ exists root, root_authentic root /\ r_directory root = vd_reference d
}.

Lemma open_directory_Ok media reference d :
  wf media -> 0 <= dr_offset reference -> 0 <= dr_size reference ->
  open_directory try_reserve media reference = Ok d ->
  bytes_ok (vd_bytes d) /\ zlen (vd_bytes d) = dr_size (vd_reference d) /\
  sha256 (vd_bytes d) = dr_digest (vd_reference d) /\ vd_reference d = reference /\
  vd_image_size d = media_size media /\ exists v, manifest_parse (vd_bytes d) = Ok v.
Proof.
  intros Hm Ho Hs H. unfold open_directory in H. rust_step H. clear Ha. rust_step H. rust_step Ha.
  apply try_from_Some in Ha as [-> Hsz]. rust_step H. destruct (read_exact _ _ _) as [bytes [[]|e|]] eqn:Er; cbn [map_err rbind] in H; [|done..].
  rust_step H. rust_step Ha. rust_step H. injection H as <-.
  apply read_exact_Ok in Er as [Hbo Hz]; [|done|done|apply bytes_ok_zeros|by rewrite zlen_zeros].
  rewrite zlen_zeros in Hz by done. cbn [vd_bytes vd_reference vd_image_size]. split_and!; try done; [|eauto].
  unfold directory_verify_bytes in Ha. rust_step Ha. unfold verify_digest in Ha. rust_step Ha. destruct a0.
  apply verify_digest_set_Ok in Ha as (_ & H2 & _). by apply H2.
Qed.

(** ** The files of the directory *)

(** [s] holds data of a file of [d] in its one segment. *)
Definition directory_segment (d : VerifiedDirectory) (s : SegmentRecord) : Prop :=
  exists v r e, manifest_parse (vd_bytes d) = Ok v /\ (r, e) ∈ files v /\ segments_of v e = [s] /\ 
    decode_segment_kind (sr_kind s) <> Ok Bss.

Definition directory_file (d : VerifiedDirectory) (file : FileView) : Prop :=
  exists v r e, manifest_parse (vd_bytes d) = Ok v /\ (r, e) ∈ files v /\ file = view_of v r e.

Lemma directory_view_Ok s media v :
  directory_view s media = Ok v -> exists d, sg_directory s = Some d /\ manifest_parse (vd_bytes d) = Ok v.
Proof. intros H. unfold directory_view in H. rust_step H. rust_step Ha. rust_step H. eauto. Qed.

Lemma elem_of_segments v e s : s ∈ segments_of v e -> s ∈ mv_segments v.
Proof. apply sub_elem. Qed.

Lemma directory_segment_facts d s :
  bytes_ok (vd_bytes d) -> directory_segment d s -> segment_typed s /\ sr_initialized_size s <= sr_loaded_size s /\
    sr_load_addr s + sr_loaded_size s <= u64_max.
Proof.
  intros Hb (v & r & e & Hp & _ & Hs & _). apply manifest_parse_ok in Hp as ([Ht _ _ Hsg _ _ _] & _); [|done].
  assert (Hin : s ∈ mv_segments v) by (apply (elem_of_segments v e); rewrite Hs; by left).
  destruct (Hsg s Hin). split_and!; [|done|done]. destruct Ht as [_ _ Ht]. rewrite list.Forall_forall in Ht. by apply Ht.
Qed.

Record descriptor_of (file : FileView) (s : SegmentRecord) (d : BootstrapDescriptor) : Prop := {
  do_segments : fv_segments file = [s]; do_kind : decode_segment_kind (sr_kind s) <> Ok Bss;
  do_offset : bd_offset d = fv_region_offset file + er_offset (fv_entry file) + Manifest.sr_offset s;
  do_offset_max : bd_offset d <= u64_max;
  do_stored : bd_stored_size d = sr_stored_size s; do_loaded : bd_loaded_size d = sr_initialized_size s;
  do_addr : bd_load_addr d = sr_load_addr s; do_entry : bd_entry_offset d = 0;
  do_compression : decode_compression (sr_compression s) = Ok (bd_compression d);
  do_scratch : bd_scratch_size d = match bd_compression d with
    | CompressionLz4 => bd_loaded_size d + bd_stored_size d | CompressionNone => 0 end;
  do_stored_digest : bd_stored_digest d = sr_stored_digest s;
  do_loaded_digest : bd_loaded_digest d = sr_loaded_digest s
}.

Lemma descriptor_Ok file d : descriptor file = Ok d -> exists s, descriptor_of file s d.
Proof.
  intros H. unfold descriptor in H. destruct (fv_segments file) as [|s [|? ?]] eqn:Hs; [done| |done]. exists s.
  rust_step H. stage_step Ha. rust_step H. rust_step H. stage_step Ha0. apply checked_add_Some in Ha0 as [-> _].
  rust_step H. stage_step Ha0. apply checked_add_Some in Ha0 as [-> Hmax]. rust_step H. stage_step Ha0.
  rust_step H. injection H as <-. rewrite bool_decide_eq_false in Hb. split; cbn; try (done || lia).
  - rewrite Ha. congruence.
  - destruct a0; case_bool_decide; try done; [by injection Ha1 as <-|]. stage_step Ha1. by apply checked_add_Some in Ha1 as [-> _].
Qed.

(** A file the stage has found by type or by name. *)
Lemma found_directory_file s media d file :
  sg_directory s = Some d -> bytes_ok (vd_bytes d) ->
  (exists t, (let? v := ok (directory_view s media) in ok (find_file_by_type v t)) = Ok file) \/
  (exists n, (let? v := ok (directory_view s media) in ok (find_file_by_name v n)) = Ok file) ->
  directory_file d file.
Proof.
  intros Hd Hb H.
  assert (Hv : exists v, manifest_parse (vd_bytes d) = Ok v /\
    ((exists t, find_file_by_type v t = Ok file) \/ (exists n, find_file_by_name v n = Ok file))).
  { destruct H as [[x H]|[x H]]; stage_step H; stage_step Ha; stage_step H;
      apply directory_view_Ok in Ha as (d' & Hd' & Hp); rewrite Hd in Hd'; injection Hd' as <-; eauto 6. }
  destruct Hv as (v & Hp & Hfound).
  destruct (found_in_files (vd_bytes d) v file Hb Hp Hfound) as (r & e & ? & ?). by exists v, r, e.
Qed.

Lemma descriptor_offset dir file seg d :
  bytes_ok (vd_bytes dir) -> directory_file dir file -> descriptor_of file seg d -> 0 <= bd_offset d.
Proof.
  intros Hb (v & r & e & Hp & Hre & Hfile) Hdo. rewrite (do_offset _ _ _ Hdo).
  assert (Hin : seg ∈ mv_segments v).
  { apply (elem_of_segments v e). pose proof (do_segments _ _ _ Hdo) as Hs. subst file. cbn [view_of fv_segments] in Hs. rewrite Hs. by left. }
  subst file. cbn [view_of fv_region_offset fv_entry].
  apply manifest_parse_ok in Hp as ([[Hrt Het Hst] _ _ _ _ _ _] & _); [|done].
  apply elem_of_files in Hre as (Hr & _ & He & _). rewrite list.Forall_forall in Hrt. rewrite list.Forall_forall in Het.
  rewrite list.Forall_forall in Hst. destruct (Hrt r Hr), (Het e (sub_elem _ _ _ _ He)), (Hst seg Hin). lia.
Qed.

(** The plan of a file, as the checks before the ledger make it. *)
Record plan_of (s : Stage) (file : FileView) (plan : FilePlan) (seg : SegmentRecord) : Prop := {
  pn_segments : fv_segments file = [seg]; pn_kind : decode_segment_kind (sr_kind seg) <> Ok Bss;
  pn_loaded : fp_loaded_size plan = sr_loaded_size seg;
  pn_initialized : bd_loaded_size (fp_descriptor plan) = sr_initialized_size seg;
  pn_digest : bd_loaded_digest (fp_descriptor plan) = sr_loaded_digest seg;
  pn_wf : bootstrap_wf (fp_descriptor plan);
  pn_footprint : fp_footprint plan = Z.max (footprint_size (fp_descriptor plan)) (sr_loaded_size seg);
  pn_place : permits (fp_policy plan) (bd_load_addr (fp_descriptor plan)) (fp_footprint plan) = true;
  pn_addr : fp_fdt plan = None -> bd_load_addr (fp_descriptor plan) = sr_load_addr seg;
  pn_policy : fp_fdt plan = None -> load_policy (sg_loads s) = Some (fp_policy plan);
  pn_fdt : forall w, fp_fdt plan = Some w -> workspace_destination s = Some w /\
    bd_load_addr (fp_descriptor plan) = mw_start w /\ writable (fp_policy plan) = [w] /\
    decode_file_type (er_file_type (fv_entry file)) = Ok Fdt;
  pn_entry : bd_entry_offset (fp_descriptor plan) = 0
}.

Lemma descriptor_wf file seg d f addr :
  descriptor_of file seg d -> segment_typed seg -> 0 <= bd_offset d -> u64_ok addr ->
  bootstrap_footprint (with_load_addr d addr) = Ok f -> bootstrap_wf (with_load_addr d addr).
Proof.
  intros [_ _ _ Hmax Hst Hld _ Hen _ Hsc Hsd Hldd] [_ [? ?] [? ?] [? ?] [? ?] ? ?] Ho Ha [Hv _]%bootstrap_footprint_Ok.
  pose proof (proj2 (bootstrap_validate_Ok _ _ tt) Hv) as Hv'. unfold u32_max in *.
  split; cbn [with_load_addr bd_offset bd_stored_size bd_loaded_size bd_load_addr bd_entry_offset bd_scratch_size
    bd_stored_digest bd_loaded_digest]; try done; unfold u64_ok, u64_max in *; rewrite ?Hst, ?Hld, ?Hen, ?Hsc, ?Hsd, ?Hldd;
    try (done || lia). destruct (bd_compression d); lia.
Qed.

Lemma with_own_addr d : with_load_addr d (bd_load_addr d) = d.
Proof. by destruct d. Qed.

Lemma plan_file_Ok s media file image_size me plan dir :
  sg_directory s = Some dir -> bytes_ok (vd_bytes dir) -> directory_file dir file ->
  (forall w, workspace_destination s = Some w -> window_ok w) ->
  plan_file s media file image_size me = Ok plan ->
  exists seg, plan_of s file plan seg /\ directory_segment dir seg.
Proof.
  intros Hd Hb (v & r & e & Hp & Hre & Hfile) Hw H. unfold plan_file in H. rust_step H.
  apply descriptor_Ok in Ha as (seg & Hdo). exists seg. pose proof Hdo as [Hs Hk Hof _ Hst Hld Had Hen _ _ _ Hldd].
  assert (Hds : directory_segment dir seg).
  { exists v, r, e. split_and!; [done|done| |done]. by subst file. }
  split; [|done]. pose proof (directory_segment_facts dir seg Hb Hds) as (Ht & _ & _).
  pose proof (descriptor_offset dir _ seg a Hb (ex_intro _ v (ex_intro _ r (ex_intro _ e (conj Hp (conj Hre Hfile))))) Hdo) as Ho.
  rust_step H. clear Ha. rust_step H. clear Ha. rust_step H. stage_step Ha. rewrite Hs in Ha. injection Ha as <-.
  rust_step H. stage_step Ha. rust_step H. rename Ha into Hty, Ha0 into Hfdt. rust_step H. destruct a4 as [d p].
  rename Ha into Hdp. rust_step H. stage_step Ha. rename Ha into Hfp. rust_step H. stage_step Ha. rename Ha into Hpl.
  rust_step H. clear Ha. rust_step H. injection H as <-. destruct a5. apply place_Ok in Hpl as [Hpl _].
  destruct a3 as [w|].
  - injection Hdp as <- <-. case_bool_decide as Hf; [|done]. subst a2. rust_step Hfdt. rust_step Hfdt. rust_step Hfdt.
    stage_step Ha0. injection Hfdt as ->. pose proof (Hw _ Ha0) as [? _].
    pose proof (descriptor_wf file seg a _ _ Hdo Ht Ho ltac:(eassumption) Hfp) as Hwf.
    apply bootstrap_footprint_Ok in Hfp as [_ ->]. split; cbn; try done. intros ? [= <-]. done.
  - stage_step Hdp. stage_step Ha. injection Hdp as <- <-. rewrite <- (with_own_addr a) in Hfp.
    pose proof (descriptor_wf file seg a _ (bd_load_addr a) Hdo Ht Ho ltac:(rewrite Had; apply Ht) Hfp) as Hwf.
    rewrite with_own_addr in Hwf, Hfp. apply bootstrap_footprint_Ok in Hfp as [_ ->]. by split.
Qed.
End trust.

(** The windows that hold loaded files. *)
Definition live (s : Stage) : list MemoryWindow := default [] (live_windows <$> ld_ledger (sg_loads s)).

(** The memory, policy and registrations a load leaves alone. *)
Definition same_context (s s' : Stage) : Prop :=
  sg_directory s' = sg_directory s /\ sg_workspace s' = sg_workspace s /\
  sg_asset_reader s' = sg_asset_reader s /\ ld_policy (sg_loads s') = ld_policy (sg_loads s).
