(* ===== verification/Fit.v ===== *)
(** * Fit: reading a flattened image tree ([crates/boot/src/fit/parser.rs])

    A FIT is a device tree with images and configurations.  The reader of device
    trees is a third-party crate, the class [Dtoolkit]: a tree of nodes with named
    properties and their decodings.  What this parser adds are the checks of the
    container, the resolution of a configuration, and where the data of an image
    is: inside a property, or behind the tree in the container.

    A string is the list of its characters. *)

From S2P Require Import Prelude.
From S2P Require Import Bytes.
From S2P Require Import Crypto.
From Stdlib Require Import ZArith Lia Ascii.
From stdpp Require Import base numbers list option strings.

#[local] Open Scope Z_scope.

(** The characters of a literal. *)
Definition lit (s : string) : list Z := map (fun c => Z.of_nat (nat_of_ascii c)) (String.list_ascii_of_string s).

(** ** The reader of device trees *)

Class Dtoolkit := {
  DtFdt : Type; DtNode : Type; DtProperty : Type;
  fdt_new : list Z -> option DtFdt;
  dt_root : DtFdt -> DtNode;
  find_node : DtFdt -> list Z -> option DtNode;
  node_name : DtNode -> list Z;
  children : DtNode -> list DtNode;
  property : DtNode -> list Z -> option DtProperty;
  value : DtProperty -> list Z;
  as_str : DtProperty -> option (list Z);
  as_str_list : DtProperty -> list (list Z);
  as_u32 : DtProperty -> option Z;
  as_u64 : DtProperty -> option Z
}.

(** Numbers have the width of their type, and values are bytes. *)
Class DtoolkitLaws {D : Dtoolkit} := {
  value_bytes p : bytes_ok (value p);
  as_u32_range p v : as_u32 p = Some v -> 0 <= v <= u32_max;
  as_u64_range p v : as_u64 p = Some v -> 0 <= v <= u64_max
}.

(** ** Kinds *)

Inductive FitError :=
| TooShort | BadMagic | InvalidFdt | NoImagesNode | NoConfigurationsNode | ConfigNotFound | MissingProperty
| PropertyDecode | DataOutOfBounds | HashMismatch | UnsupportedHashAlgo.

Inductive FitImageType :=
| ItKernel | ItKernelNoload | ItRamdisk | ItFlatDt | ItFirmware | ItStandalone | ItScript | ItTee | ItFpga | ItUnknown.

Definition image_type_from_str (s : list Z) : FitImageType :=
  if bool_decide (s = lit "kernel") then ItKernel
  else if bool_decide (s = lit "kernel_noload") then ItKernelNoload
  else if bool_decide (s = lit "ramdisk") then ItRamdisk
  else if bool_decide (s = lit "flat_dt") then ItFlatDt
  else if bool_decide (s = lit "firmware") then ItFirmware
  else if bool_decide (s = lit "standalone") then ItStandalone
  else if bool_decide (s = lit "script") then ItScript
  else if bool_decide (s = lit "tee") then ItTee
  else if bool_decide (s = lit "fpga") then ItFpga
  else ItUnknown.

Inductive FitCompression := FcNone | FcGzip | FcBzip2 | FcLzma | FcLzo | FcLz4 | FcZstd | FcUnknown.

#[export] Instance FitCompression_eq_dec : EqDecision FitCompression.
Proof. solve_decision. Defined.

Definition compression_from_str (s : list Z) : FitCompression :=
  if bool_decide (s = lit "none") then FcNone
  else if bool_decide (s = lit "gzip") then FcGzip
  else if bool_decide (s = lit "bzip2") then FcBzip2
  else if bool_decide (s = lit "lzma") then FcLzma
  else if bool_decide (s = lit "lzo") then FcLzo
  else if bool_decide (s = lit "lz4") then FcLz4
  else if bool_decide (s = lit "zstd") then FcZstd
  else FcUnknown.

Inductive FitArch := FaArm | FaArm64 | FaRiscv | FaX86 | FaX86_64 | FaUnknown.

Definition arch_from_str (s : list Z) : FitArch :=
  if bool_decide (s = lit "arm") then FaArm
  else if bool_decide (s = lit "arm64") then FaArm64
  else if bool_decide (s = lit "riscv") then FaRiscv
  else if bool_decide (s = lit "x86") then FaX86
  else if bool_decide (s = lit "x86_64") then FaX86_64
  else FaUnknown.

(** The bytes of a character in UTF-8. *)
Definition utf8_len (c : Z) : Z :=
  if c <? 0x80 then 1 else if c <? 0x800 then 2 else if c <? 0x10000 then 3 else 4.
Definition utf8_size (s : list Z) : Z := foldr (fun c n => utf8_len c + n) 0 s.

(** [heapless::String<32>::push]: a character that does not fit is left out. *)
Definition ALGO_NAME_MAX : Z := 32.
Definition algo_push (name : list Z) (c : Z) : list Z :=
  if utf8_size name + utf8_len c <=? ALGO_NAME_MAX then name ++ [c] else name.

Section fit.
Context {T : Target} {C : Crypto} {D : Dtoolkit}.

Record FitImage := { fi_fdt : DtFdt; fi_blob : list Z; fi_fdt_size : Z }.
Record FitImageNode := { in_node : DtNode; in_blob : list Z; in_fdt_size : Z }.
Record FitConfig := { fc_node : DtNode }.
Record FitHash := { fh_node : DtNode }.

(** A property that is a string or a number. *)
Definition str_property (n : DtNode) (name : list Z) : option (list Z) := property n name ≫= as_str.
Definition u32_property (n : DtNode) (name : list Z) : option Z := property n name ≫= as_u32.

(** ** The container *)

Definition fit_parse (blob : list Z) : res FitError FitImage :=
  fail_if zlen blob <? 8 with TooShort;
  fail_if negb (be_dec (sub blob 0 4) =? 0xd00dfeed) with BadMagic;
  let totalsize := be_dec (sub blob 4 4) in
  fail_if zlen blob <? totalsize with TooShort;
  let? fdt := ok_or (fdt_new (sub blob 0 totalsize)) InvalidFdt in
  fail_if bool_decide (find_node fdt (lit "/images") = None) with NoImagesNode;
  Ok {| fi_fdt := fdt; fi_blob := blob; fi_fdt_size := totalsize |}.

Definition fit_description (f : FitImage) : option (list Z) := str_property (dt_root (fi_fdt f)) (lit "description").
Definition address_cells (f : FitImage) : Z := default 1 (u32_property (dt_root (fi_fdt f)) (lit "#address-cells")).

(** The children of a node that may be missing. *)
Definition children_of (f : FitImage) (path : list Z) : list DtNode :=
  match find_node (fi_fdt f) path with Some n => children n | None => [] end.

Definition images (f : FitImage) : list FitImageNode :=
  map (fun n => {| in_node := n; in_blob := fi_blob f; in_fdt_size := fi_fdt_size f |}) (children_of f (lit "/images")).
Definition image_name (i : FitImageNode) : list Z := node_name (in_node i).
Definition image (f : FitImage) (name : list Z) : option FitImageNode :=
  List.find (fun i => bool_decide (image_name i = name)) (images f).

(** ** Configurations *)

Definition config_name (c : FitConfig) : list Z := node_name (fc_node c).
Definition configurations (f : FitImage) : list FitConfig :=
  map (fun n => {| fc_node := n |}) (children_of f (lit "/configurations")).
Definition default_config_name (f : FitImage) : option (list Z) :=
  find_node (fi_fdt f) (lit "/configurations") ≫= fun n => str_property n (lit "default").
Definition config (f : FitImage) (name : list Z) : option FitConfig :=
  List.find (fun c => bool_decide (config_name c = name)) (configurations f).
Definition default_config (f : FitImage) : option FitConfig := default_config_name f ≫= config f.

Definition resolve_config (f : FitImage) (name : option (list Z)) : res FitError FitConfig :=
  ok_or (match name with Some n => config f n | None => default_config f end) ConfigNotFound.

Definition config_description (c : FitConfig) : option (list Z) := str_property (fc_node c) (lit "description").
Definition config_kernel (c : FitConfig) : option (list Z) := str_property (fc_node c) (lit "kernel").
Definition config_ramdisk (c : FitConfig) : option (list Z) := str_property (fc_node c) (lit "ramdisk").
Definition config_fdt_name (c : FitConfig) : option (list Z) := str_property (fc_node c) (lit "fdt").
Definition config_firmware (c : FitConfig) : option (list Z) := str_property (fc_node c) (lit "firmware").
Definition config_compatible (c : FitConfig) : option (list Z) := str_property (fc_node c) (lit "compatible").
Definition config_loadables (c : FitConfig) : list (list Z) :=
  match property (fc_node c) (lit "loadables") with Some p => as_str_list p | None => [] end.

Record ResolvedBootImages := {
  bi_config : FitConfig; bi_kernel : FitImageNode; bi_ramdisk : option FitImageNode; bi_fdt : option FitImageNode;
  bi_firmware : option FitImageNode
}.

Definition resolve_boot_images (f : FitImage) (name : option (list Z)) : res FitError ResolvedBootImages :=
  let? c := resolve_config f name in
  let? kernel_name := ok_or (config_kernel c) MissingProperty in
  let? kernel := ok_or (image f kernel_name) ConfigNotFound in
  Ok {| bi_config := c; bi_kernel := kernel; bi_ramdisk := config_ramdisk c ≫= image f;
        bi_fdt := config_fdt_name c ≫= image f; bi_firmware := config_firmware c ≫= image f |}.

(** ** Images *)

Definition image_description (i : FitImageNode) : option (list Z) := str_property (in_node i) (lit "description").
Definition image_type (i : FitImageNode) : FitImageType :=
  default ItUnknown (image_type_from_str <$> str_property (in_node i) (lit "type")).
Definition compression (i : FitImageNode) : FitCompression :=
  default FcNone (compression_from_str <$> str_property (in_node i) (lit "compression")).
Definition arch (i : FitImageNode) : FitArch := default FaUnknown (arch_from_str <$> str_property (in_node i) (lit "arch")).
Definition os_type (i : FitImageNode) : option (list Z) := str_property (in_node i) (lit "os").

(** One cell or two. *)
Definition cells_property (n : DtNode) (name : list Z) : option Z :=
  property n name ≫= fun p => match as_u32 p with Some v => Some v | None => as_u64 p end.
Definition load_addr (i : FitImageNode) : option Z := cells_property (in_node i) (lit "load").
Definition entry_addr (i : FitImageNode) : option Z := cells_property (in_node i) (lit "entry").

(** [blob[offset..offset + size]] when it is in bounds. *)
Definition external_data (blob : list Z) (offset size : Z) : res FitError (list Z) :=
  let? end_ := ok_or (checked_add usize_max offset size) DataOutOfBounds in
  fail_if zlen blob <? end_ with DataOutOfBounds;
  Ok (sub blob offset size).

Definition data (i : FitImageNode) : res FitError (list Z) :=
  match property (in_node i) (lit "data") with
  | Some p => Ok (value p)
  | None =>
      let? data_size := ok_or (u32_property (in_node i) (lit "data-size")) MissingProperty in
      match property (in_node i) (lit "data-position") with
      | Some p => let? offset := ok_or (as_u32 p) PropertyDecode in external_data (in_blob i) offset data_size
      | None =>
          match property (in_node i) (lit "data-offset") with
          | Some p =>
              let? rel_offset := ok_or (as_u32 p) PropertyDecode in
              let? a := add_or_panic usize_max (in_fdt_size i) 3 in
              let base := Z.ldiff a 3 in
              let? offset := ok_or (checked_add usize_max base rel_offset) DataOutOfBounds in
              external_data (in_blob i) offset data_size
          | None => Err MissingProperty
          end
      end
  end.

Definition data_size (i : FitImageNode) : option Z :=
  match property (in_node i) (lit "data") with
  | Some p => Some (zlen (value p))
  | None => u32_property (in_node i) (lit "data-size")
  end.

(** ** Hashes

    [sha2_digest] is the feature of that name. *)

Context (sha2_digest : bool).

Definition hashes (i : FitImageNode) : list FitHash :=
  map (fun n => {| fh_node := n |})
    (List.filter (fun n => bool_decide (take 4 (node_name n) = lit "hash")) (children (in_node i))).

Definition hash_algo (h : FitHash) : option (list Z) := str_property (fh_node h) (lit "algo").
Definition hash_value (h : FitHash) : option (list Z) := value <$> property (fh_node h) (lit "value").

Definition verify_sha256 (data expected : list Z) : res FitError unit :=
  if sha2_digest then
    fail_if negb (zlen expected =? 32) with HashMismatch;
    if bytes_eqb (sha256 data) expected then Ok tt else Err HashMismatch
  else Err UnsupportedHashAlgo.

Definition algo_name (algo : list Z) : list Z := fold_left algo_push (take 32 algo) [].

Definition hash_verify (h : FitHash) (data : list Z) : res FitError unit :=
  let? algo := ok_or (hash_algo h) MissingProperty in
  let? expected := ok_or (hash_value h) MissingProperty in
  if bool_decide (algo_name algo = lit "sha256") then verify_sha256 data expected else Err UnsupportedHashAlgo.

Definition verify_hashes (i : FitImageNode) : res FitError unit :=
  let? bytes := data i in
  for_each (hashes i) (fun h => hash_verify h bytes).
End fit.

(** ** What the parser promises *)

Section promises.
Context {T : Target} {C : Crypto} {D : Dtoolkit} {L : DtoolkitLaws}.

(** A container is accepted exactly when its header describes a device tree inside
    it that the reader accepts and that has images. *)
Lemma fit_parse_iff blob f :
  fit_parse blob = Ok f <->
    8 <= zlen blob /\ be_dec (sub blob 0 4) = 0xd00dfeed /\ be_dec (sub blob 4 4) <= zlen blob /\
    fdt_new (sub blob 0 (be_dec (sub blob 4 4))) = Some (fi_fdt f) /\ is_Some (find_node (fi_fdt f) (lit "/images")) /\
    fi_blob f = blob /\ fi_fdt_size f = be_dec (sub blob 4 4).
Proof.
  unfold fit_parse. split.
  - intros H. do 5 rust_step H. injection H as <-. cbn [fi_fdt fi_blob fi_fdt_size]. bool_hyp.
    apply ok_or_Ok in Ha. split_and!; try done. by apply not_eq_None_Some.
  - intros (H8 & Hm & Ht & Hf & [n Hn] & Hb & Hs). guard_false. guard_false. guard_false. rewrite Hf. cbn [ok_or rbind].
    rewrite bool_decide_false by congruence. destruct f as [fdt blob' size]. cbn in *. by subst.
Qed.

Lemma image_in f name i : image f name = Some i ->
  image_name i = name /\ in_blob i = fi_blob f /\ in_fdt_size i = fi_fdt_size f /\ in_node i ∈ children_of f (lit "/images").
Proof.
  unfold image. intros H. apply List.find_some in H as [Hin Hn]. apply bool_decide_eq_true in Hn.
  unfold images in Hin. apply in_map_iff in Hin as (n & <- & Hin). by apply list_elem_of_In in Hin.
Qed.

(** A resolved configuration has images of the container.  A ramdisk that the
    container does not have is left out. *)
Lemma resolve_boot_images_Ok f name b : resolve_boot_images f name = Ok b ->
  resolve_config f name = Ok (bi_config b) /\
  (exists n, config_kernel (bi_config b) = Some n /\ image f n = Some (bi_kernel b)) /\
  bi_ramdisk b = config_ramdisk (bi_config b) ≫= image f.
Proof.
  unfold resolve_boot_images. intros H. do 3 rust_step H. injection H as <-. cbn [bi_config bi_kernel bi_ramdisk].
  apply ok_or_Ok in Ha0, Ha1. split_and!; [done| |done]. by exists a0.
Qed.

Lemma resolve_boot_images_no_panic f name : resolve_boot_images f name <> Panic.
Proof. unfold resolve_boot_images, resolve_config. intros H. by repeat panic_step H. Qed.

Lemma u32_property_range n name v : u32_property n name = Some v -> 0 <= v <= u32_max.
Proof. unfold u32_property. intros H. apply bind_Some in H as (p & _ & H). by apply as_u32_range in H. Qed.

Lemma cells_property_range n name v : cells_property n name = Some v -> 0 <= v <= u64_max.
Proof.
  unfold cells_property. intros H. apply bind_Some in H as (p & _ & H). destruct (as_u32 p) eqn:E.
  - injection H as ->. apply as_u32_range in E. unfold u32_max, u64_max in *. lia.
  - by apply as_u64_range in H.
Qed.

Lemma external_data_Ok blob offset size d : external_data blob offset size = Ok d ->
  offset + size <= zlen blob /\ d = sub blob offset size.
Proof.
  unfold external_data. intros H. rust_step H. apply ok_or_Ok, checked_add_Some in Ha as [-> _]. rust_step H. injection H as <-. bool_hyp. lia || done.
Qed.

(** The data of an image is a property of its node or a range of the container. *)
Lemma data_Ok i d : 0 <= in_fdt_size i -> data i = Ok d ->
  (exists p, property (in_node i) (lit "data") = Some p /\ d = value p) \/
  (exists offset, 0 <= offset /\ offset + zlen d <= zlen (in_blob i) /\ d = sub (in_blob i) offset (zlen d)).
Proof.
  intros Hf H. unfold data in H. destruct (property _ _) as [p|] eqn:Hp; [left; injection H as <-; by exists p|]. right.
  rust_step H. apply ok_or_Ok in Ha. apply u32_property_range in Ha as Hr. assert (Hext : forall o, 0 <= o -> external_data (in_blob i) o a = Ok d ->
    exists offset, 0 <= offset /\ offset + zlen d <= zlen (in_blob i) /\ d = sub (in_blob i) offset (zlen d)).
  { intros o Ho He. apply external_data_Ok in He as [Hl ->]. exists o. rewrite zlen_sub by lia. done. }
  destruct (property _ (lit "data-position")) as [p|].
  - rust_step H. apply ok_or_Ok, as_u32_range in Ha0. apply (Hext a0); [lia|done].
  - destruct (property _ (lit "data-offset")) as [p|]; [|done]. rust_step H. apply ok_or_Ok, as_u32_range in Ha0.
    rust_step H. unfold add_or_panic in Ha1. rust_step Ha1. apply checked_add_Some in Ha1 as [-> _]. cbn zeta in H.
    rust_step H. apply ok_or_Ok, checked_add_Some in Ha1 as [-> _]. refine (Hext _ _ H).
    assert (0 <= Z.ldiff (in_fdt_size i + 3) 3) by (apply Z.ldiff_nonneg; lia). lia.
Qed.

Lemma data_bytes i d : 0 <= in_fdt_size i -> bytes_ok (in_blob i) -> data i = Ok d -> bytes_ok d.
Proof.
  intros Hf Hb H. destruct (data_Ok i d Hf H) as [(p & _ & ->)|(o & _ & _ & ->)]; [apply value_bytes|by apply bytes_ok_sub].
Qed.

Lemma data_no_panic i : in_fdt_size i + 3 <= usize_max -> data i <> Panic.
Proof.
  intros Hf H. unfold data, external_data in H. repeat panic_step H.
  unfold add_or_panic in H. by rewrite checked_add_ok in H.
Qed.

(** *** Hashes *)

Lemma utf8_len_range c : 1 <= utf8_len c <= 4.
Proof. unfold utf8_len. repeat case_match; lia. Qed.

Lemma utf8_size_app s t : utf8_size (s ++ t) = utf8_size s + utf8_size t.
Proof. unfold utf8_size. induction s as [|c s IH]; cbn [foldr app]; lia. Qed.

Lemma utf8_size_nonneg s : 0 <= utf8_size s.
Proof. induction s as [|c s IH]; [done|]. pose proof (utf8_len_range c). unfold utf8_size in *. cbn [foldr]. lia. Qed.

(** What is cut off leaves at least 29 bytes. *)
Lemma algo_pushed s : forall name, fold_left algo_push s name = name ++ s \/ 29 <= utf8_size (fold_left algo_push s name).
Proof.
  assert (Hmono : forall s name, utf8_size name <= utf8_size (fold_left algo_push s name)).
  { induction s0 as [|c s0 IH]; intros name; cbn [fold_left]; [lia|]. etrans; [|apply IH]. unfold algo_push.
    case_match; [|lia]. rewrite utf8_size_app. pose proof (utf8_size_nonneg [c]). lia. }
  induction s as [|c s IH]; intros name; cbn [fold_left]; [left; by rewrite app_nil_r|].
  unfold algo_push at 2 4. destruct (Z.leb_spec (utf8_size name + utf8_len c) ALGO_NAME_MAX) as [Hle|Hgt].
  - destruct (IH (name ++ [c])) as [->|H]; [left; by rewrite <- app_assoc|by right].
  - right. etrans; [|apply Hmono]. unfold ALGO_NAME_MAX in Hgt. pose proof (utf8_len_range c). lia.
Qed.

(** The bounded copy of the name changes nothing: no longer name is taken for it. *)
Lemma algo_name_exact algo : algo_name algo = lit "sha256" <-> algo = lit "sha256".
Proof.
  unfold algo_name. split; [|by intros ->]. intros H. destruct (algo_pushed (take 32 algo) []) as [He|Hl].
  - rewrite H in He. cbn [app] in He. assert (Hlen : length (take 32 algo) = 6%nat) by (by rewrite <- He).
    rewrite length_take in Hlen. rewrite He, take_ge; [done|lia].
  - rewrite H in Hl. exfalso. revert Hl. vm_compute. intros Hl. by apply Hl.
Qed.

(** All the hashes of an image are checked, and an algorithm that is not built in is
    no success. *)
Lemma verify_hashes_iff sha2_digest i :
  verify_hashes sha2_digest i = Ok tt <->
    exists d, data i = Ok d /\ forall h, h ∈ hashes i ->
      sha2_digest = true /\ hash_algo h = Some (lit "sha256") /\ hash_value h = Some (sha256 d) /\ zlen (sha256 d) = 32.
Proof.
  assert (Hh : forall h d, hash_verify sha2_digest h d = Ok tt <->
    sha2_digest = true /\ hash_algo h = Some (lit "sha256") /\ hash_value h = Some (sha256 d) /\ zlen (sha256 d) = 32).
  { intros h d. unfold hash_verify, verify_sha256. destruct (hash_algo h) as [algo|]; [|naive_solver].
    destruct (hash_value h) as [v|]; [|naive_solver]. cbn [ok_or rbind]. rewrite (bool_decide_ext _ _ (algo_name_exact algo)).
    case_bool_decide; [|naive_solver]. destruct sha2_digest; [|naive_solver].
    destruct (Z.eqb_spec (zlen v) 32); cbn [negb]; [|naive_solver].
    destruct (bytes_eqb (sha256 d) v) eqn:E; [apply bytes_eqb_true in E|apply bytes_eqb_false in E]; naive_solver. }
  unfold verify_hashes. split.
  - intros H. rust_step H. exists a. split; [done|]. intros h Hin. apply Hh. by apply (proj1 (for_each_Ok _ _ tt) H).
  - intros (d & -> & H). cbn [rbind]. apply for_each_Ok. intros h Hin. apply Hh. by apply H.
Qed.
End promises.
