(* ===== verification/FitLoad.v ===== *)
(** * FitLoad: loading a kernel and a ramdisk from a flattened image tree
    ([crates/stage/src/fit.rs])

    The container is a file of the stage's directory, authenticated into memory of
    its own.  Every destination is checked against the policy, the container, the
    boot medium and the ledger before the first byte is copied; the copies are
    hashed again.  [container_addr] is where the container's bytes are. *)

From S2P Require Import Prelude.
From S2P Require Import Bytes.
From S2P Require Import Services.
From S2P Require Import Crypto.
From S2P Require Import Root.
From S2P Require Import Manifest.
From S2P Require Import Memory.
From S2P Require Import BootMedia.
From S2P Require Import Load.
From S2P Require Import Ledger.
From S2P Require Import LoadPolicy.
From S2P Require Import Stage.
From S2P Require Import StageFiles.
From S2P Require Import Fit.
From Stdlib Require Import ZArith Lia.
From stdpp Require Import base numbers list option relations strings.

#[local] Open Scope Z_scope.

Inductive FitBootError :=
| NotFound | ParseFailed | ConfigFailed | KernelDataFailed | NoKernelLoadAddr | InvalidLoadPlan | DigestMismatch.

(** What is copied where. *)
Record Component := { cp_source : list Z; cp_destination : MemoryWindow; cp_digest : list Z }.

(** A plan that has passed every check but the ledger's. *)
Record FitPlan := { fp_kernel : Component; fp_ramdisk : option Component; fp_entry : Z }.

Section load.
Context {T : Target} {C : Crypto} {D : Dtoolkit} {M : Type} {BM : BootMedia M}.
Context (try_reserve : Z -> bool) (container_addr : Z).

Definition component_plan (node : FitImageNode) (policy : MemoryPolicy) (source : MemoryWindow)
    : res FitBootError Component :=
  fail_if negb (bool_decide (compression node = FcNone)) with InvalidLoadPlan;
  let? bytes := map_err (fun _ => KernelDataFailed) (data node) in
  let? start := ok_or (load_addr node) NoKernelLoadAddr in
  let destination := {| mw_start := start; mw_len := zlen bytes |} in
  fail_if negb (permits policy start (mw_len destination)) || overlaps destination source with InvalidLoadPlan;
  Ok {| cp_source := bytes; cp_destination := destination; cp_digest := sha256 bytes |}.

Definition copy_verified (c : Component) : sres memory FitBootError unit := fun m =>
  let m := mem_write m (mw_start (cp_destination c)) (cp_source c) in
  (m, if bytes_eqb (sha256 (mem_bytes m (mw_start (cp_destination c)) (zlen (cp_source c)))) (cp_digest c)
      then Ok tt else Err DigestMismatch).

(** An entry inside the kernel, aligned as the policy asks. *)
Definition check_entry (policy : MemoryPolicy) (kernel : MemoryWindow) (entry : Z) : res FitBootError unit :=
  fail_if negb (is_power_of_two (entry_alignment policy)) || negb (entry mod entry_alignment policy =? 0)
          || (entry <? mw_start kernel) with InvalidLoadPlan;
  let? end_ := ok_or (window_end kernel) InvalidLoadPlan in
  fail_if end_ <=? entry with InvalidLoadPlan;
  Ok tt.

Definition plan_ramdisk (ramdisk : option FitImageNode) (policy : MemoryPolicy) (source : MemoryWindow)
    : res FitBootError (option Component) :=
  match ramdisk with
  | Some node => let? c := component_plan node policy source in Ok (Some c)
  | None => Ok None
  end.

(** The windows of the plan, the kernel's first. *)
Definition plan_components (p : FitPlan) : list Component := fp_kernel p :: option_list (fp_ramdisk p).
Definition plan_ranges (p : FitPlan) : list MemoryWindow := map cp_destination (plan_components p).

Definition fit_plan (s : Stage) (media : M) (fit_slice : list Z) (fit_config : option (list Z)) : res FitBootError FitPlan :=
  let? fit := map_err (fun _ => ParseFailed) (fit_parse fit_slice) in
  let? boot := map_err (fun _ => ConfigFailed) (resolve_boot_images fit fit_config) in
  let? policy := ok_or (load_policy (sg_loads s)) InvalidLoadPlan in
  let source := {| mw_start := container_addr; mw_len := zlen fit_slice |} in
  let? kernel := component_plan (bi_kernel boot) policy source in
  let? ramdisk := plan_ramdisk (bi_ramdisk boot) policy source in
  fail_if match ramdisk with Some rd => overlaps (cp_destination kernel) (cp_destination rd) | None => false end
    with InvalidLoadPlan;
  let entry := default (mw_start (cp_destination kernel)) (entry_addr (bi_kernel boot)) in
  let? _ := check_entry policy (cp_destination kernel) entry in
  let plan := {| fp_kernel := kernel; fp_ramdisk := ramdisk; fp_entry := entry |} in
  let? _ := for_each (plan_components plan) (fun c =>
    map_err (fun _ => InvalidLoadPlan) (place media policy (mw_start (cp_destination c)) (mw_len (cp_destination c)))) in
  Ok plan.

(** The ramdisk first. *)
Definition copy_plan (p : FitPlan) : sres memory FitBootError unit :=
  let! _ := match fp_ramdisk p with Some rd => copy_verified rd | None => slift (Ok tt) end in
  copy_verified (fp_kernel p).

(** All that follows the container; a failure drops the guard. *)
Definition load_container (media : M) (fit_slice : list Z) (fit_config : option (list Z)) : sres Stage FitBootError Z := fun s =>
  match fit_plan s media fit_slice fit_config with
  | Ok plan =>
      match begin (workspace_destination s) (plan_ranges plan) (plan_ranges plan) (ld_ledger (sg_loads s)) with
      | (g, Ok pending) =>
          let '(m, r) := copy_plan plan (ram (sg_machine s)) in
          let s := set_machine s {| ram := m; log := log (sg_machine s) |} in
          match r, g with
          | Ok _, Some g =>
              let '(g, r) := commit pending g in
              (set_ledger s (Some g), let? _ := map_err (fun _ => InvalidLoadPlan) r in Ok (fp_entry plan))
          | Err e, g => (set_ledger s (pending_drop <$> g), Err e)
          | _, g => (set_ledger s (pending_drop <$> g), Panic)
          end
      | (g, Err _) => (set_ledger s g, Err InvalidLoadPlan)
      | (g, Panic) => (set_ledger s g, Panic)
      end
  | Err e => (s, Err e)
  | Panic => (s, Panic)
  end.

(** [mem] is the memory of the arena for temporary data. *)
Definition load_fit_components_with_scratch (media : M) (fit_config : option (list Z)) (mem : memory)
    : sres (Stage * option TempRamArena) FitBootError Z := fun '(s, scratch) =>
  let '(scratch, r) := find_ffs_file_data_with_scratch try_reserve s media Manifest.FitImage mem scratch in
  match r with
  | Ok fit_slice => let '(s, r) := load_container media fit_slice fit_config s in ((s, scratch), r)
  | Err _ => ((s, scratch), Err NotFound)
  | Panic => ((s, scratch), Panic)
  end.

Definition load_fit_components (media : M) (fit_config : option (list Z)) : sres Stage FitBootError Z := fun s =>
  let '((s, _), r) := load_fit_components_with_scratch media fit_config (fun _ => 0) (s, None) in (s, r).
End load.

(** ** What a load leaves *)

(** An image of the container that is loaded at a window. *)
Definition loaded_image {T : Target} {D : Dtoolkit} (policy : MemoryPolicy) (source : MemoryWindow) (m : memory)
    (node : FitImageNode) (w : MemoryWindow) : Prop :=
  exists d, data node = Ok d /\ compression node = FcNone /\ load_addr node = Some (mw_start w) /\ mw_len w = zlen d /\
    mem_bytes m (mw_start w) (zlen d) = d /\
    permits policy (mw_start w) (mw_len w) = true /\ overlaps w source = false.

Section plan.
Context {T : Target} {C : Crypto} {D : Dtoolkit} {L : DtoolkitLaws} {M : Type} {BM : BootMedia M}.
Context (container_addr : Z).

(** A component that the plan has accepted. *)
Record planned (policy : MemoryPolicy) (source : MemoryWindow) (node : FitImageNode) (c : Component) : Prop := {
  pc_data : data node = Ok (cp_source c); pc_compression : compression node = FcNone;
  pc_addr : load_addr node = Some (mw_start (cp_destination c)); pc_len : mw_len (cp_destination c) = zlen (cp_source c);
  pc_digest : cp_digest c = sha256 (cp_source c);
  pc_permits : permits policy (mw_start (cp_destination c)) (mw_len (cp_destination c)) = true;
  pc_apart : overlaps (cp_destination c) source = false
}.

Lemma component_plan_Ok node policy source c : component_plan node policy source = Ok c -> planned policy source node c.
Proof.
  unfold component_plan. intros H. rust_step H. apply negb_false_iff, bool_decide_eq_true in Hb.
  rust_step H. rust_step Ha. rust_step H. rust_step Ha0. rust_step H. injection H as <-. bool_hyp. split; done.
Qed.

Lemma planned_window policy source node c : planned policy source node c -> window_ok (cp_destination c).
Proof.
  intros H. pose proof (cells_property_range _ _ _ (pc_addr _ _ _ _ H)) as [? ?].
  pose proof (pc_permits _ _ _ _ H) as Hp. apply permits_true in Hp as (_ & _ & _ & Hi & _). pose proof (pc_len _ _ _ _ H).
  pose proof (zlen_nonneg (cp_source c)). split; [lia|]. unfold isize_max in Hi. split; [lia|].
  unfold u64_max. destruct usize_bits_ok as [E|E]; rewrite E in Hi; lia.
Qed.

(** The node of a configuration's kernel, then the one of its ramdisk, if it names
    one that the container has. *)
Record boots (f : FitImage) (cfg : option (list Z)) (c : FitConfig) (kernel : FitImageNode) : Prop := {
  bo_config : resolve_config f cfg = Ok c;
  bo_kernel : exists name, config_kernel c = Some name /\ image f name = Some kernel
}.

Definition boot_nodes (f : FitImage) (c : FitConfig) (kernel : FitImageNode) : list FitImageNode :=
  kernel :: option_list (config_ramdisk c ≫= image f).

Lemma fit_plan_Ok s media slice cfg p : fit_plan container_addr s media slice cfg = Ok p ->
  exists f c kernel policy, fit_parse slice = Ok f /\ boots f cfg c kernel /\ load_policy (sg_loads s) = Some policy /\
    Forall2 (planned policy {| mw_start := container_addr; mw_len := zlen slice |}) (boot_nodes f c kernel) (plan_components p) /\
    (forall w addr src, w ∈ plan_ranges p -> as_slice media = Some (addr, src) ->
       overlaps {| mw_start := addr; mw_len := zlen src |} w = false) /\
    fp_entry p = default (mw_start (cp_destination (fp_kernel p))) (entry_addr kernel) /\
    in_window (cp_destination (fp_kernel p)) (fp_entry p) /\ fp_entry p mod entry_alignment policy = 0.
Proof.
  unfold fit_plan. intros H. rust_step H. rust_step Ha. rust_step H. rust_step Ha0. rename a0 into boot, Ha0 into Hboot.
  apply resolve_boot_images_Ok in Hboot as (Hconf & Hname & Hrd).
  rust_step H. rust_step Ha0. rename a0 into policy, Ha0 into Hpol. rust_step H. apply component_plan_Ok in Ha0 as Hk.
  rust_step H. rust_step H. cbn zeta in H. rust_step H. rename Ha2 into Hentry. rust_step H. injection H as <-.
  exists a, (bi_config boot), (bi_kernel boot), policy.
  unfold check_entry in Hentry. do 3 rust_step Hentry. apply ok_or_Ok in Ha3. unfold window_end in Ha3.
  apply checked_add_Some in Ha3 as [-> _]. bool_hyp.
  split_and!; cbn [fp_kernel fp_entry]; try done.
  - unfold boot_nodes, plan_components. cbn [fp_kernel fp_ramdisk]. rewrite <- Hrd. constructor; [done|].
    unfold plan_ramdisk in Ha1. destruct (bi_ramdisk boot) as [node|].
    + rust_step Ha1. injection Ha1 as <-. apply component_plan_Ok in Ha3. by constructor.
    + by injection Ha1 as <-.
  - intros w addr src (c & -> & Hc)%list_elem_of_fmap Has. rewrite for_each_Ok in Ha2. specialize (Ha2 c Hc).
    rust_step Ha2. apply place_Ok in Ha2 as [_ Ha2]. by apply Ha2 in Has.
Qed.
End plan.

(** ** The steps after the plan *)

Section steps.
Context {T : Target} {C : Crypto} {D : Dtoolkit} {L : DtoolkitLaws} {M : Type} {BM : BootMedia M}.
Context (container_addr : Z).

Lemma place_no_panic (media : M) p start size : place media p start size <> Panic.
Proof. unfold place. destruct (negb _); [done|]. destruct (as_slice media) as [[? ?]|]; [|done]. by destruct (overlaps _ _). Qed.

Lemma component_plan_no_panic node policy source :
  in_fdt_size node + 3 <= usize_max -> component_plan node policy source <> Panic.
Proof. intros Hf H. unfold component_plan in H. repeat panic_step H. by apply (data_no_panic node Hf). Qed.

Lemma fit_plan_no_panic s media slice cfg : zlen slice + 3 <= usize_max -> fit_plan container_addr s media slice cfg <> Panic.
Proof.
  intros Hz H. unfold fit_plan in H. panic_step H.
  { panic_step H. unfold fit_parse in H. repeat panic_step H. }
  rust_step Ha. apply fit_parse_iff in Ha as (_ & _ & Htot & _ & _ & Hb & Hs).
  panic_step H; [panic_step H; by apply resolve_boot_images_no_panic in H|].
  rust_step Ha. apply resolve_boot_images_Ok in Ha as (_ & (kn & _ & Hk) & Hr).
  apply image_in in Hk as (_ & _ & Hks & _).
  panic_step H; [panic_step H|]. cbn zeta in H.
  panic_step H; [revert H; apply component_plan_no_panic; lia|].
  panic_step H.
  { unfold plan_ramdisk in H. destruct (bi_ramdisk a0) as [node|]; [|done].
    symmetry in Hr. apply bind_Some in Hr as (rn & _ & Hn). apply image_in in Hn as (_ & _ & Hns & _).
    panic_step H; [revert H; apply component_plan_no_panic; lia|done]. }
  panic_step H. panic_step H; [unfold check_entry in H; repeat panic_step H|].
  panic_step H; [|done]. apply for_each_no_panic in H; [done|]. intros c _ Hc. panic_step Hc. by apply place_no_panic in Hc.
Qed.

Lemma copy_verified_spec policy source node c m : planned policy source node c ->
  exists m', copy_verified c m = (m', Ok tt) /\
    mem_bytes m' (mw_start (cp_destination c)) (zlen (cp_source c)) = cp_source c /\
    (bytes_ok (cp_source c) -> mem_ok m -> mem_ok m') /\
    forall a, ~ in_window (cp_destination c) a -> m' a = m a.
Proof.
  intros H. unfold copy_verified. eexists. split; [|split; [|split]].
  - rewrite mem_bytes_write_all, (pc_digest _ _ _ _ H), (proj2 (bytes_eqb_true _ _)) by done. reflexivity.
  - by rewrite mem_bytes_write_all.
  - intros Hb Hm. by apply mem_ok_write.
  - intros a Ha. apply mem_write_out. intros Hin. apply Ha. unfold in_window. rewrite (pc_len _ _ _ _ H). exact Hin.
Qed.

(** Two components that are apart do not disturb each other. *)
Lemma copy_plan_spec policy source nodes p m :
  Forall2 (planned policy source) nodes (plan_components p) -> all_apart (plan_ranges p) ->
  exists m', copy_plan p m = (m', Ok tt) /\
    (forall c, c ∈ plan_components p -> mem_bytes m' (mw_start (cp_destination c)) (zlen (cp_source c)) = cp_source c) /\
    ((forall c, c ∈ plan_components p -> bytes_ok (cp_source c)) -> mem_ok m -> mem_ok m') /\
    forall a, (forall w, w ∈ plan_ranges p -> ~ in_window w a) -> m' a = m a.
Proof.
  intros Hp Hap. unfold copy_plan, plan_ranges, plan_components in *. destruct p as [k [rd|] e]; cbn [fp_kernel fp_ramdisk option_list map] in *.
  - inversion Hp as [|n1 ? nl ? Hk Hp']; subst. inversion Hp' as [|n2 ? ? ? Hr _]; subst.
    destruct (copy_verified_spec _ _ _ _ m Hr) as (m1 & H1 & Hb1 & Hm1 & Ho1).
    destruct (copy_verified_spec _ _ _ _ m1 Hk) as (m2 & H2 & Hb2 & Hm2 & Ho2).
    exists m2. unfold sbind. rewrite H1, H2. split; [done|]. split; [|split].
    + intros c [->|[->|[]%elem_of_nil]%elem_of_cons]%elem_of_cons; [done|].
      rewrite (mem_bytes_same m1); [done|]. intros a Ha. apply Ho2. intros Hin.
      destruct Hap as [Hap _]. apply list.Forall_cons in Hap as [Hap _]. apply (Hap a Hin).
      unfold in_window. rewrite (pc_len _ _ _ _ Hr). exact Ha.
    + intros Hb Hm. apply Hm2; [apply Hb; left|]. apply Hm1; [|done]. apply Hb. right. left.
    + intros a Ha. rewrite Ho2, Ho1; [done| |]; apply Ha; [right; left|left].
  - inversion Hp as [|n1 ? nl ? Hk _]; subst. destruct (copy_verified_spec _ _ _ _ m Hk) as (m1 & H1 & Hb1 & Hm1 & Ho1).
    exists m1. unfold sbind, slift. rewrite H1. split; [done|]. split; [|split].
    + intros c [->|[]%elem_of_nil]%elem_of_cons. done.
    + intros Hb. apply Hm1, Hb. left.
    + intros a Ha. apply Ho1, Ha. left.
Qed.
End steps.

(** ** The guard *)

Section guard.

Lemma begin_Ok fdt ws g g' p : (forall g0, g = Some g0 -> ledger_ok g0 None) -> Forall window_ok ws ->
  begin fdt ws ws g = (g', Ok p) ->
  exists g0 g1 g2, g = Some g0 /\ g' = Some g1 /\ commit p g1 = (g2, Ok tt) /\ ledger_ok g2 None /\
    live_windows g2 = live_windows g0 ++ ws /\ all_apart (live_windows g0 ++ ws) /\
    forall w, w ∈ ws -> conflicts fdt w = false.
Proof.
  intros Hg Hw H. unfold begin in H. destruct (existsb _ _) eqn:Hex; [done|]. unfold with_ledger in H.
  destruct g as [g0|]; [|done]. destruct (ledger_begin ws ws g0) as [g1 r] eqn:E. injection H as <- ->.
  specialize (Hg g0 eq_refl). pose proof (ledger_ok_begin _ _ _ _ _ Hg Hw Hw E) as Hok.
  pose proof (lk_apart _ _ Hok) as Hap. apply ledger_begin_Ok in E as (_ & -> & -> & _ & _ & _); [|done..].
  destruct (commit_Ok _ _ Hok) as (g2 & Hc & Hl & Hok2). exists g0, (set_busy g0 true), g2. split_and!; try done.
  intros w Hin. destruct (conflicts fdt w) eqn:Hcf; [|done]. exfalso.
  assert (existsb (conflicts fdt) ws = true); [|congruence]. apply existsb_exists. exists w. by rewrite <- list_elem_of_In.
Qed.

Lemma begin_not_Ok fdt ws g g' r : begin fdt ws ws g = (g', r) -> match r with Ok _ => True | Err _ => g' = g | Panic => False end.
Proof.
  unfold begin, with_ledger. intros H. destruct (existsb _ _); [by injection H as <- <-|].
  destruct g as [g0|]; [|by injection H as <- <-]. pose proof (ledger_begin_no_panic ws ws g0) as Hn.
  destruct (ledger_begin ws ws g0) as [g1 [?|?|]] eqn:E; injection H as <- <-; [done| |done].
  by apply ledger_begin_Err in E as ->.
Qed.
End guard.

(** ** The container *)

(** Bytes that are the one file of its kind in the directory, stored uncompressed in
    one segment, with the digest the directory gives. *)
Definition fit_container {C : Crypto} {T : Target} (d : VerifiedDirectory) (bytes : list Z) : Prop :=
  bytes_ok bytes /\
  exists v file seg, manifest_parse (vd_bytes d) = Ok v /\ find_file_by_type v Manifest.FitImage = Ok file /\
    fv_segments file = [seg] /\ decode_segment_kind (sr_kind seg) <> Ok Bss /\
    decode_compression (sr_compression seg) = Ok CompressionNone /\ sha256 bytes = sr_stored_digest seg.

(** The arena is the same memory; what is used of it may have grown. *)
Definition same_arena (a b : option TempRamArena) : Prop :=
  match a, b with
  | Some a, Some b => ar_base b = ar_base a /\ ar_size b = ar_size a
  | None, None => True
  | _, _ => False
  end.

Section container.
Context {T : Target} {C : Crypto} {M : Type} {BM : BootMedia M} {wf : M -> Prop} {BL : BootMediaLaws M wf}.
Context (try_reserve : Z -> bool).

Lemma stored_file_container s media v d bytes : (forall dir, sg_directory s = Some dir -> bytes_ok (vd_bytes dir)) ->
  directory_view s media = Ok v -> stored_file v Manifest.FitImage = Ok d ->
  0 <= bd_offset d /\
  (bytes_ok bytes -> sha256 bytes = bd_stored_digest d -> exists dir, sg_directory s = Some dir /\ fit_container dir bytes).
Proof.
  intros Hb Hv H. unfold stored_file in H. stage_step H. stage_step Ha. stage_step H. stage_step H. injection H as <-.
  apply descriptor_Ok in Ha0 as [seg Hdesc]. pose proof Hv as Hdir. apply directory_view_Ok in Hdir as (dir & Hdir & Hp). split.
  - apply (descriptor_offset dir a seg); [by apply Hb| |done]. apply (found_directory_file s media); [done|by apply Hb|]. left.
    exists Manifest.FitImage. rewrite Hv. cbn [ok map_err rbind]. by rewrite Ha.
  - intros Hbo Hs. exists dir. split; [done|]. split; [done|]. exists v, a, seg. destruct Hdesc as [? ? ? ? ? ? ? ? Hc ? Hd ?].
    split_and!; try done; [|by rewrite Hs]. rewrite Hc. apply negb_false_iff, bool_decide_eq_true in Hb0. by rewrite Hb0.
Qed.

Lemma arena_alloc_same a len align addr a' :
  arena_alloc a len align = Some (addr, a') -> ar_base a' = ar_base a /\ ar_size a' = ar_size a.
Proof.
  unfold arena_alloc. intros H. destruct (negb _); [done|].
  repeat (apply bind_Some in H as (? & _ & H)). destruct (_ <? _); [done|]. by injection H as <- <-.
Qed.

Lemma read_to_temp_Ok media offset len a mem a' r :
  wf media -> mem_ok mem -> 0 <= offset <= usize_max -> len <= usize_max ->
  read_to_temp media offset len a mem = (a', r) ->
  (ar_base a' = ar_base a /\ ar_size a' = ar_size a) /\ forall addr bytes, r = Ok (addr, bytes) -> bytes_ok bytes.
Proof.
  intros Hm Hmem Ho Hl H. unfold read_to_temp in H. destruct (arena_alloc a len 8) as [[addr a1]|] eqn:E.
  2:{ injection H as <- <-. split; [done|]. by intros ? ? [=]. }
  apply arena_alloc_same in E. pose proof usize_max_bounds as Hu.
  assert (Hz : zlen (mem_bytes mem addr len) <= usize_max).
  { destruct (Z.le_gt_cases 0 len); [by rewrite zlen_mem_bytes|]. unfold mem_bytes, zlen, u32_max in *. rewrite length_map, length_seq. lia. }
  pose proof (read_at_bytes media offset (mem_bytes mem addr len) Hm Ho Hz (bytes_ok_mem_bytes _ _ _ Hmem)) as Hb.
  destruct (read_at _ _ _) as [buf r0]. injection H as <- <-. split; [done|]. intros ? ? Hr.
  rust_step Hr. rust_step Hr. by injection Hr as _ <-.
Qed.

(** Whatever the search finds is the container of the directory. *)
Lemma container_found s media mem scratch scratch' r :
  wf media -> mem_ok mem -> (forall dir, sg_directory s = Some dir -> bytes_ok (vd_bytes dir)) ->
  find_ffs_file_data_with_scratch try_reserve s media Manifest.FitImage mem scratch = (scratch', r) ->
  same_arena scratch scratch' /\
  forall bytes, r = Ok bytes -> exists d, sg_directory s = Some d /\ fit_container d bytes.
Proof.
  intros Hm Hmem Hb H. unfold find_ffs_file_data_with_scratch in H. destruct scratch as [arena|].
  - destruct (rbind _ _) as [[[d offset] size]|e|] eqn:Hd; [|injection H as <- <-; split; [done|by intros ? [=]]..].
    stage_step Hd. stage_step Ha. stage_step Hd. stage_step Hd. stage_step Hd. stage_step Ha2. apply try_from_Some in Ha2 as [-> Ho].
    stage_step Hd. stage_step Ha2. apply try_from_Some in Ha2 as [-> Hs]. injection Hd as -> <- <-.
    pose proof (fun bytes => stored_file_container s media a d bytes Hb Ha Ha0) as Hc. destruct (Hc []) as [H0 _].
    destruct (read_to_temp _ _ _ _ _) as [arena' r0] eqn:E. injection H as <- <-.
    apply read_to_temp_Ok in E as [Harena Hr]; [|done..]. split; [done|]. intros bytes H.
    stage_step H. stage_step Ha2. destruct a0 as [addr bytes']. stage_step H. injection H as ->. apply negb_false_iff, bytes_eqb_true in Hb0.
    apply (Hc bytes); [by eapply Hr|done].
  - injection H as <- <-. split; [done|]. intros bytes H. unfold find_ffs_file_data in H. stage_step H. stage_step Ha.
    stage_step H. pose proof (fun bytes => stored_file_container s media a a0 bytes Hb Ha Ha0) as Hc. destruct (Hc []) as [H0 _].
    stage_step H. stage_step Ha1. apply try_from_Some in Ha1 as [-> Hs]. do 3 stage_step H.
    destruct (read_exact _ _ _) as [read r] eqn:E. stage_step H. stage_step Ha2. destruct a2. stage_step H. injection H as ->.
    apply negb_false_iff, bytes_eqb_true in Hb2. apply (Hc bytes); [|done].
    subst r. apply (read_exact_Ok (wf := wf)) in E as [? _]; [done|done|done|apply bytes_ok_zeros|].
    pose proof usize_max_bounds. unfold zeros, zlen, u32_max in *. rewrite length_replicate. lia.
Qed.
End container.

(** ** The whole load *)

(** The configuration's kernel, and the ramdisk it names if the container has it, are
    in memory at their addresses, in windows of their own that the ledger has taken;
    nothing else in memory has changed, and the entry lies in the kernel. *)
Record fit_placed {T : Target} {D : Dtoolkit} {M : Type} {BM : BootMedia M} (container_addr : Z) (media : M) (s s' : Stage)
    (slice : list Z) (entry : Z) (f : FitImage) (c : FitConfig) (kernel : FitImageNode) (policy : MemoryPolicy)
    (w : MemoryWindow) (ws : list MemoryWindow) : Prop := {
  pl_images : Forall2 (loaded_image policy {| mw_start := container_addr; mw_len := zlen slice |} (ram (sg_machine s')))
    (boot_nodes f c kernel) (w :: ws);
  pl_joined : live s' = live s ++ w :: ws;
  pl_all_apart : all_apart (live s');
  pl_workspace : forall x v, x ∈ w :: ws -> workspace_destination s = Some v -> apart x v;
  pl_medium : forall x addr src, x ∈ w :: ws -> as_slice media = Some (addr, src) ->
    overlaps {| mw_start := addr; mw_len := zlen src |} x = false;
  pl_confined : forall a, (forall x, x ∈ w :: ws -> ~ in_window x a) -> ram (sg_machine s') a = ram (sg_machine s) a;
  pl_entry : in_window w entry /\ entry mod entry_alignment policy = 0 /\ entry = default (mw_start w) (entry_addr kernel)
}.

Definition fit_loaded {T : Target} {D : Dtoolkit} {M : Type} {BM : BootMedia M} (container_addr : Z) (media : M) (s s' : Stage)
    (slice : list Z) (cfg : option (list Z)) (entry : Z) : Prop :=
  exists f c kernel policy w ws, fit_parse slice = Ok f /\ boots f cfg c kernel /\ load_policy (sg_loads s) = Some policy /\
    fit_placed container_addr media s s' slice entry f c kernel policy w ws.

Section whole.
Context {T : Target} {C : Crypto} {D : Dtoolkit} {L : DtoolkitLaws} {M : Type} {BM : BootMedia M}.
Context (container_addr : Z).

Lemma planned_loaded policy source nodes cs m : Forall2 (planned policy source) nodes cs ->
  (forall c, c ∈ cs -> mem_bytes m (mw_start (cp_destination c)) (zlen (cp_source c)) = cp_source c) ->
  Forall2 (loaded_image policy source m) nodes (map cp_destination cs).
Proof.
  induction 1 as [|n c ns cs Hc _ IH]; intros Hm; cbn [map]; constructor.
  - exists (cp_source c). split_and!; try apply Hc. apply Hm. left.
  - apply IH. intros c' Hc'. apply Hm. by right.
Qed.

Lemma planned_windows policy source nodes cs : Forall2 (planned policy source) nodes cs -> Forall window_ok (map cp_destination cs).
Proof. induction 1 as [|n c ns cs Hc _ IH]; cbn [map]; constructor; [by eapply planned_window|done]. Qed.

(** The images that are loaded are images of the container. *)
Lemma boot_nodes_in f cfg c kernel node : boots f cfg c kernel -> node ∈ boot_nodes f c kernel ->
  exists name, (config_kernel c = Some name \/ config_ramdisk c = Some name) /\ image f name = Some node.
Proof.
  intros [_ (name & Hn & Hi)] [->|H]%elem_of_cons; [by eauto|].
  destruct (config_ramdisk c ≫= image f) as [rd|] eqn:E; [|by apply elem_of_nil in H].
  apply list_elem_of_singleton in H as ->. apply bind_Some in E as (n & ? & ?). by eauto.
Qed.

Lemma boot_nodes_bytes slice f cfg c kernel node d : bytes_ok slice -> fit_parse slice = Ok f -> boots f cfg c kernel ->
  node ∈ boot_nodes f c kernel -> data node = Ok d -> bytes_ok d.
Proof.
  intros Hb Hf Hbo Hn Hd. destruct (boot_nodes_in _ _ _ _ _ Hbo Hn) as (name & _ & Hi).
  apply image_in in Hi as (_ & Hblob & Hsize & _). apply fit_parse_iff in Hf as (_ & _ & _ & _ & _ & Hfb & Hfs).
  apply (data_bytes node d); [|by rewrite Hblob, Hfb|done]. rewrite Hsize, Hfs.
  unfold be_dec. apply le_dec_bound, list.Forall_reverse, bytes_ok_sub, Hb.
Qed.

Lemma planned_bytes policy source nodes cs : Forall2 (planned policy source) nodes cs ->
  (forall node d, node ∈ nodes -> data node = Ok d -> bytes_ok d) -> forall c, c ∈ cs -> bytes_ok (cp_source c).
Proof.
  induction 1 as [|n c ns cs Hc _ IH]; intros Hd c' Hin; [by apply elem_of_nil in Hin|].
  apply elem_of_cons in Hin as [->|Hin].
  - apply (Hd n); [left|apply Hc].
  - apply IH; [|done]. intros node d Hn. apply Hd. by right.
Qed.

(** Success, an error and a panic of the load of a container. *)
Lemma load_container_spec s media slice cfg s' r :
  (forall g, ld_ledger (sg_loads s) = Some g -> ledger_ok g None) ->
  (forall v, workspace_destination s = Some v -> window_ok v) ->
  load_container container_addr media slice cfg s = (s', r) ->
  match r with
  | Ok entry => same_context s s' /\ fit_loaded container_addr media s s' slice cfg entry /\
      (forall g, ld_ledger (sg_loads s') = Some g -> ledger_ok g None) /\
      (bytes_ok slice -> mem_ok (ram (sg_machine s)) -> mem_ok (ram (sg_machine s')))
  | Err _ => s' = s
  | Panic => s' = s /\ usize_max < zlen slice + 3
  end.
Proof.
  intros Hg Hwk H. unfold load_container in H. destruct (fit_plan _ _ _ _ _) as [p|e|] eqn:Hp; [|by injection H as <- <-|].
  2:{ injection H as <- <-. split; [done|]. destruct (Z.le_gt_cases (zlen slice + 3) usize_max); [|lia].
      by apply fit_plan_no_panic in Hp. }
  apply fit_plan_Ok in Hp as (f & c & kernel & policy & Hf & Hb & Hpol & Hcs & Hmed & He & Hin & Hal).
  pose proof (planned_windows _ _ _ _ Hcs) as Hws. fold (plan_ranges p) in Hws.
  destruct (begin _ _ _ _) as [g rb] eqn:E. pose proof (begin_not_Ok _ _ _ _ _ E) as Hbe. destruct rb as [pending|e|]; [| |done].
  2:{ injection H as <- <-. subst g. by destruct s as [? ? ? [? ?] ?]. }
  apply (begin_Ok _ _ _ _ _ Hg Hws) in E as (g0 & g1 & g2 & Hg0 & -> & Hc & Hok2 & Hl2 & Hap & Hcf).
  destruct (copy_plan_spec _ _ _ p (ram (sg_machine s)) Hcs) as (m & Hm & Hbytes & Hmo & Hout);
    [by apply all_apart_app in Hap as (_ & ? & _)|].
  rewrite Hm, Hc in H. cbn [map_err rbind] in H. injection H as <- <-.
  assert (Hl : live s = live_windows g0) by (unfold live; by rewrite Hg0).
  split; [done|]. split; [|split; [by intros ? [= <-]|]].
  - exists f, c, kernel, policy, (cp_destination (fp_kernel p)), (map cp_destination (option_list (fp_ramdisk p))).
    change (_ :: map _ _) with (plan_ranges p). split_and!; try done.
    split; change (_ :: map _ _) with (plan_ranges p); cbn [set_ledger set_machine set_loads sg_machine ram]; try done.
    + by apply planned_loaded.
    + unfold live at 1. cbn [set_ledger set_machine set_loads sg_loads ld_ledger fmap option_fmap option_map default]. by rewrite Hl2, Hl.
    + unfold live. cbn [set_ledger set_machine set_loads sg_loads ld_ledger fmap option_fmap option_map default]. by rewrite Hl2.
    + intros w v Hw Hv. pose proof (Hcf w Hw) as Hno. unfold conflicts in Hno. rewrite Hv in Hno. symmetry.
      rewrite list.Forall_forall in Hws. apply overlaps_apart; [by apply Hwk|by apply Hws|done].
  - intros Hbs. apply Hmo. apply (planned_bytes _ _ _ _ Hcs). intros node d Hn. by apply (boot_nodes_bytes slice f cfg c kernel).
Qed.

(** What was loaded before is as it was. *)
Lemma fit_loaded_keeps media s s' slice cfg entry w a : fit_loaded container_addr media s s' slice cfg entry ->
  w ∈ live s -> in_window w a -> ram (sg_machine s') a = ram (sg_machine s) a.
Proof.
  intros (f & c & kernel & policy & v & vs & _ & _ & _ & H) Hw Ha.
  destruct H as [_ Hl Hap _ _ Hc _]. apply Hc. rewrite Hl in Hap.
  apply all_apart_app in Hap as (_ & _ & Hap). rewrite list.Forall_forall in Hap. specialize (Hap w Hw).
  rewrite list.Forall_forall in Hap. intros x Hx Hxa. by apply (Hap x Hx a).
Qed.
End whole.

(** ** An example *)

(** A reader whose one tree has a kernel and a ramdisk behind the header. *)
Inductive DemoNode := DNode (name : list Z) (properties : list (list Z * list Z)) (kids : list DemoNode).

Definition demo_child (n : DemoNode) (name : list Z) : option DemoNode :=
  let '(DNode _ _ kids) := n in List.find (fun k => let '(DNode m _ _) := k in bool_decide (m = name)) kids.
Definition demo_u (width : nat) (p : list Z) : option Z :=
  let v := be_dec p in
  if bool_decide (length p = width) && (0 <=? v) && (v <=? 256 ^ Z.of_nat width - 1) then Some v else None.

Definition demo_fit_tree : DemoNode :=
  DNode [] [] [
    DNode (lit "images") [] [
      DNode (lit "kernel-1") [(lit "load", be_enc 8 0x4000); (lit "entry", be_enc 4 0x4004); (lit "data-position", be_enc 4 8);
        (lit "data-size", be_enc 4 8)] [];
      DNode (lit "ramdisk-1") [(lit "load", be_enc 4 0x4100); (lit "data-offset", be_enc 4 8); (lit "data-size", be_enc 4 4)] []];
    DNode (lit "configurations") [(lit "default", lit "conf-1")] [
      DNode (lit "conf-1") [(lit "kernel", lit "kernel-1"); (lit "ramdisk", lit "ramdisk-1")] []]].

#[export] Instance demo_dtoolkit : Dtoolkit := {|
  DtFdt := DemoNode; DtNode := DemoNode; DtProperty := list Z;
  fdt_new _ := Some demo_fit_tree; dt_root f := f; find_node f path := demo_child f (drop 1 path);
  node_name n := let '(DNode name _ _) := n in name; children n := let '(DNode _ _ kids) := n in kids;
  property n name := let '(DNode _ ps _) := n in
    snd <$> List.find (fun p => bool_decide (p.1 = name)) ps;
  value p := (fun b => b mod 256) <$> p; as_str p := Some p; as_str_list p := [p]; as_u32 := demo_u 4; as_u64 := demo_u 8 |}.

#[export] Instance demo_dtoolkit_laws : DtoolkitLaws.
Proof.
  split.
  - intros p. apply list.Forall_fmap, list.Forall_true. intros b. unfold byte_ok. pose proof (Z.mod_pos_bound b 256). cbn. lia.
  - intros p v. cbn [as_u32 demo_dtoolkit]. unfold demo_u. cbn zeta. (case_match eqn:E; [|done]);
      intros [= <-]; bool_hyp; unfold u32_max; lia.
  - intros p v. cbn [as_u64 demo_dtoolkit]. unfold demo_u. cbn zeta. (case_match eqn:E; [|done]);
      intros [= <-]; bool_hyp; unfold u64_max; lia.
Qed.
