(* ===== verification/FdtWorkspace.v ===== *)
(** * FdtWorkspace: preparing the device tree of the payload
    ([crates/stage/src/fdt_workspace.rs])

    The device tree that the platform got or loaded is checked, copied into the
    registered workspace and patched there with [Fdt] and [FdtMemory].  The state
    is the stage of [Stage], where the workspace is registered; the guard of the
    ledger is held meanwhile.  A patch works on the bytes of the workspace alone:
    the buffer of [fdt_set_bootargs] is the window in memory. *)

From S2P Require Import Prelude.
From S2P Require Import Bytes.
From S2P Require Import Services.
From S2P Require Import Memory.
From S2P Require Import BootMedia.
From S2P Require Import Load.
From S2P Require Import Ledger.
From S2P Require Import LoadPolicy.
From S2P Require Import Fdt.
From S2P Require Import FdtTree.
From S2P Require Import FdtPatch.
From S2P Require Import FdtMemory.
From S2P Require Import FdtMemoryTree.
From S2P Require Import Stage.
From Stdlib Require Import ZArith Lia.
From stdpp Require Import base numbers list option.

#[local] Open Scope Z_scope.

Definition PATCH_GROWTH : Z := 8192.

Section workspace.
Context {T : Target}.
(** The feature [fdt]: whether the stage can patch. *)
Context (fdt_feature : bool).

Definition range_contains (outer : MemoryWindow) (address size : Z) : res ServiceError bool :=
  if mw_start outer <=? address then
    match checked_add u64_max address size with
    | Some end_ => let? outer_end := add_or_panic u64_max (mw_start outer) (mw_len outer) in Ok (end_ <=? outer_end)
    | None => Ok false
    end
  else Ok false.

(** In one of the permitted envelopes. *)
Definition in_envelope (config : Workspace) (address size : Z) : res ServiceError bool :=
  let? inside := range_contains (ws_source config) address size in
  if inside : bool then Ok true else range_contains (ws_destination config) address size.

Definition be32 (bytes : list Z) (offset : Z) : res ServiceError Z :=
  let? word := ok_or (get_range bytes offset (offset + 4)) InvalidParam in Ok (be_dec word).

(** Every round reads sixteen bytes, so that many rounds are enough. *)
Fixpoint reservations_end (fuel : nat) (bytes : list Z) (end_ : Z) : res ServiceError Z :=
  match fuel with
  | O => Panic
  | S fuel =>
      let? next := ok_or (checked_add usize_max end_ 16) InvalidParam in
      let? record := ok_or (get_range bytes end_ next) InvalidParam in
      if bytes_eqb record (zeros 16) then Ok next else reservations_end fuel bytes next
  end.

(** [start.checked_add(size).filter(|&n| n <= bytes.len())] *)
Definition block_end (bytes : list Z) (start size : Z) : res ServiceError Z :=
  match checked_add usize_max start size with
  | Some n => if n <=? zlen bytes then Ok n else Err InvalidParam
  | None => Err InvalidParam
  end.

(** Whether a range overlaps one before it. *)
Fixpoint any_overlap (earlier ranges : list MemoryWindow) : bool :=
  match ranges with
  | [] => false
  | range :: ranges => existsb (overlaps range) earlier || any_overlap (earlier ++ [range]) ranges
  end.

Definition header_block (start end_ : Z) : MemoryWindow := {| mw_start := start; mw_len := end_ - start |}.

Definition used_size (bytes : list Z) : res ServiceError Z :=
  fail_if zlen bytes <? 40 with InvalidParam;
  let? magic := be32 bytes 0 in
  fail_if negb (magic =? 0xd00dfeed) with InvalidParam;
  let? total := be32 bytes 4 in
  fail_if negb (total =? zlen bytes) with InvalidParam;
  let? version := be32 bytes 20 in
  fail_if negb (version =? 17) with InvalidParam;
  let? last_compatible := be32 bytes 24 in
  fail_if 17 <? last_compatible with InvalidParam;
  let? structure := be32 bytes 8 in
  let? strings := be32 bytes 12 in
  let? reservations := be32 bytes 16 in
  fail_if (structure <? 40) || (strings <? 40) || (reservations <? 40)
          || negb (structure mod 4 =? 0) || negb (reservations mod 8 =? 0) with InvalidParam;
  let? structure_size := be32 bytes 36 in
  let? structure_end := block_end bytes structure structure_size in
  let? strings_size := be32 bytes 32 in
  let? strings_end := block_end bytes strings strings_size in
  let? end_ := reservations_end (S (length bytes)) bytes reservations in
  fail_if any_overlap [] [header_block structure structure_end; header_block strings strings_end; header_block reservations end_]
    with InvalidParam;
  Ok (Z.max (Z.max structure_end strings_end) end_).

(** The arguments and the base and size of the memory. *)
Definition Patches : Type := list Z * Z * Z.

(** A patch of the bytes behind the pointer; its errors are all one to the caller. *)
Definition on_workspace (destination capacity : Z) (patch : fdt Z) : sres memory ServiceError unit := fun m =>
  let '(bytes, r) := patch (mem_bytes m destination capacity) in
  (mem_write m destination bytes, let? _ := map_err (fun _ => InvalidParam) r in Ok tt).

Definition apply_patches (config : Workspace) (destination : Z) (patches : option Patches)
    : sres memory ServiceError unit :=
  match patches with
  | None => slift (Ok tt)
  | Some (bootargs, base, size) =>
      if fdt_feature then
        let capacity := as_usize (mw_len (ws_destination config)) in
        let! _ :=
          (if bool_decide (bootargs = []) then slift (Ok tt)
           else on_workspace destination capacity (fdt_set_bootargs capacity bootargs)) in
        if negb (base =? 0) && negb (size =? 0) then
          let! _ := slift (ok_or (checked_add u64_max base size) InvalidParam) in
          on_workspace destination capacity (fdt_set_memory capacity base size)
        else slift (Ok tt)
      else slift (Err NotSupported)
  end.

Definition read_total (m : memory) (addr : Z) : res ServiceError Z :=
  let? at_ := add_or_panic u64_max addr 4 in Ok (be_dec (mem_bytes m at_ 4)).

(** [ptr::copy] and the new size. *)
Definition copy_tree (source destination used : Z) : sres memory ServiceError unit := fun m =>
  let m := mem_write m destination (mem_bytes m source used) in
  match add_or_panic u64_max destination 4 with
  | Ok at_ => (mem_write m at_ (be_enc 4 used), Ok tt)
  | Err e => (m, Err e)
  | Panic => (m, Panic)
  end.

(** What is checked of the source: how much of it is used. *)
Definition measure_source (config : Workspace) (source : Z) (patches : option Patches) (m : memory) : res ServiceError Z :=
  let? total := read_total m source in
  fail_if total <? 40 with InvalidParam;
  let? inside := in_envelope config source total in
  fail_if negb inside with InvalidParam;
  let? used := used_size (mem_bytes m source total) in
  let growth := match patches with Some _ => PATCH_GROWTH | None => 0 end in
  match checked_add u64_max used growth with
  | Some n => if n <=? mw_len (ws_destination config) then Ok used else Err InvalidParam
  | None => Err InvalidParam
  end.

(** Under the guard. *)
Definition prepare_memory (config : Workspace) (source destination : Z) (patches : option Patches)
    : sres memory ServiceError Z :=
  let! used := fun m => (m, measure_source config source patches m) in
  let! _ := copy_tree source destination used in
  let! _ := apply_patches config destination patches in
  fun m => (m, read_total m destination).

Definition prepare_in (config : Workspace) (source destination : Z) (patches : option Patches)
    : sres Stage ServiceError Z := fun s =>
  match (fail_if negb (destination =? mw_start (ws_destination config)) || negb (source mod 4 =? 0) with InvalidParam;
         let? inside := in_envelope config source 40 in
         fail_if negb inside with InvalidParam;
         Ok tt) with
  | Ok _ =>
      match begin_fdt (ws_destination config) (ld_ledger (sg_loads s)) with
      | (g, Ok _) =>
          let '(m, r) := prepare_memory config source destination patches (ram (sg_machine s)) in
          (set_ledger (set_machine s {| ram := m; log := log (sg_machine s) |}) (pending_drop <$> g), r)
      | (g, Err _) => (set_ledger s g, Err InvalidParam)
      | (g, Panic) => (set_ledger s g, Panic)
      end
  | Err e => (s, Err e)
  | Panic => (s, Panic)
  end.

Definition prepare (source destination : Z) (patches : option Patches) : sres Stage ServiceError Z := fun s =>
  match sg_workspace s with
  | Some config => prepare_in config source destination patches s
  | None => (s, Err NotInitialized)
  end.

Definition copy_fdt_to_workspace (source destination : Z) : sres Stage ServiceError Z :=
  prepare source destination None.

Definition fdt_prepare_platform (source destination : Z) (bootargs : list Z) (base size : Z)
    : sres Stage ServiceError unit :=
  let! _ := prepare source destination (Some (bootargs, base, size)) in slift (Ok tt).

Definition fdt_workspace_capacity (s : Stage) : Z :=
  match workspace_destination s with Some range => mw_len range | None => 0 end.
End workspace.
