(* ===== verification/FdtConfined.v ===== *)
(** * FdtConfined: what a preparation of the device tree may change

    No preparation, of whatever bytes and whatever its outcome, writes outside the
    registered workspace: the patches of [Fdt] and [FdtMemory] keep the size of
    the buffer they are given, and what they write to it are bytes. *)

From S2P Require Import Prelude.
From S2P Require Import Bytes.
From S2P Require Import Services.
From S2P Require Import Memory.
From S2P Require Import BootMedia.
From S2P Require Import Load.
From S2P Require Import Ledger.
From S2P Require Import LoadPolicy.
From S2P Require Import Fdt.
From S2P Require Import FdtMemory.
From S2P Require Import Stage.
From S2P Require Import FdtWorkspace.
From Stdlib Require Import ZArith Lia.
From stdpp Require Import base numbers list option.

#[local] Open Scope Z_scope.

(** ** Patches keep the size of the buffer, and bytes in it *)

(** [B] says that the arguments of the patch are bytes: the size is kept even of
    lists that are none. *)
Record kept (B : Prop) {A} (m : fdt A) (buf : list Z) : Prop := {
  kp_size : zlen (fst (m buf)) = zlen buf;
  kp_bytes : B -> bytes_ok buf -> bytes_ok (fst (m buf))
}.
Definition keeps (B : Prop) {A} (m : fdt A) : Prop := forall buf, kept B m buf.

Create HintDb keeps.

(** What is known of the results of [m]. *)
Definition returns {A} (Q : A -> Prop) (m : fdt A) : Prop := forall buf a, snd (m buf) = Ok a -> Q a.

Section keeps.
Context (B : Prop).

Lemma keeps_bind_returns {A A'} (Q : A -> Prop) (m : fdt A) (k : A -> fdt A') :
  keeps B m -> returns Q m -> (forall a, Q a -> keeps B (k a)) -> keeps B (sbind m k).
Proof.
  intros Hm Hq Hk buf. destruct (Hm buf) as [H1 H2]. specialize (Hq buf). unfold sbind.
  split; (destruct (m buf) as [buf' [a|e|]]; cbn [fst snd] in *; [|auto..]);
    destruct (Hk a (Hq a eq_refl) buf') as [K1 K2]; [congruence|auto].
Qed.

Lemma keeps_bind {A A'} (m : fdt A) (k : A -> fdt A') : keeps B m -> (forall a, keeps B (k a)) -> keeps B (sbind m k).
Proof. intros Hm Hk. apply (keeps_bind_returns (fun _ => True)); [done|done|auto]. Qed.

(** An operation that only reads. *)
Lemma keeps_reader {A} (m : fdt A) : (forall buf, fst (m buf) = buf) -> keeps B m.
Proof. intros H buf. by split; rewrite H. Qed.

Lemma keeps_lift {A} (r : res FdtPatchError A) : keeps B (slift r).
Proof. by apply keeps_reader. Qed.

Lemma keeps_fuel {A} (f : nat -> fdt A) (g : nat -> nat) : (forall n, keeps B (f n)) -> keeps B (fun buf => f (g (length buf)) buf).
Proof. intros H buf. destruct (H (g (length buf)) buf) as [H1 H2]. by split. Qed.

Lemma keeps_write_bytes off bytes : (B -> bytes_ok bytes) -> keeps B (write_bytes off bytes).
Proof.
  intros Hb buf. split; unfold write_bytes; (destruct (_ && _) eqn:E; [|done]); bool_hyp; cbn [fst].
  - by apply zlen_upd.
  - intros. apply bytes_ok_upd; auto.
Qed.

End keeps.

(** Bytes that are written: constants, words, zeros, arguments. *)
Ltac solve_bytes :=
  first [ assumption | intros _; apply bytes_ok_be_enc | intros _; apply bytes_ok_zeros
        | intros _; apply (bool_decide_unpack _); vm_compute; exact I ].

Ltac keeps :=
  repeat match goal with
  | |- keeps _ (sbind _ _) => apply keeps_bind; [|intros]
  | |- keeps _ (slift _) => apply keeps_lift
  | |- keeps _ (if ?b then _ else _) => destruct b
  | |- keeps _ (match ?x with _ => _ end) => destruct x
  | |- keeps _ (fun buf => ?f (S (length buf)) ?a ?b ?c buf) => apply (keeps_fuel _ (fun n => f n a b c)); intros
  | |- keeps _ (fun buf => ?f (S (length buf)) ?a ?b ?c ?d buf) => apply (keeps_fuel _ (fun n => f n a b c d)); intros
  | |- keeps _ (fun buf => ?f (S (length buf)) ?a ?b ?c ?d ?e buf) => apply (keeps_fuel _ (fun n => f n a b c d e)); intros
  | |- keeps _ (write_bytes _ _) => apply keeps_write_bytes; solve_bytes
  | _ => solve [auto with keeps]
  end.

Section sizes.
Context {T : Target} (B : Prop).


Lemma keeps_copy_within src dst n : keeps B (copy_within src dst n).
Proof.
  intros buf. split; unfold copy_within; (destruct (_ && _) eqn:E; [|done]); bool_hyp; cbn [fst].
  - assert (zlen (sub buf src n) = n) by (apply zlen_sub; lia). apply zlen_upd; lia.
  - intros. apply bytes_ok_upd; [done|by apply bytes_ok_sub].
Qed.

Lemma keeps_read_u8 off : keeps B (read_u8 off). Proof. by apply keeps_reader. Qed.
Lemma keeps_read_be32 off : keeps B (read_be32 off). Proof. by apply keeps_reader. Qed.
Lemma keeps_on_stack n build : keeps B (on_stack n build).
Proof. apply keeps_reader. intros buf. unfold on_stack. by destruct (build (zeros n)) as [? [?|?|]]. Qed.
#[local] Hint Resolve keeps_copy_within keeps_read_u8 keeps_read_be32 keeps_on_stack : keeps.

Lemma keeps_write_be32 off v : keeps B (write_be32 off v). Proof. unfold write_be32. keeps. Qed.
Lemma keeps_uadd a b : keeps B (uadd a b). Proof. by apply keeps_reader. Qed.
Lemma keeps_usub a b : keeps B (usub a b). Proof. by apply keeps_reader. Qed.
#[local] Hint Resolve keeps_write_be32 keeps_uadd keeps_usub : keeps.
Lemma keeps_align4 a : keeps B (align4 a). Proof. unfold align4. keeps. Qed.
#[local] Hint Resolve keeps_align4 : keeps.
Lemma keeps_skip_name fuel : forall i, keeps B (skip_name_loop fuel i).
Proof. induction fuel; intros; cbn [skip_name_loop]; keeps. Qed.
Lemma keeps_skip_node_name off : keeps B (skip_node_name off).
Proof. intros buf. destruct (keeps_skip_name (length buf) off buf). by split. Qed.
Lemma keeps_bytes_eq needle : forall off, keeps B (bytes_eq off needle).
Proof. induction needle; intros; cbn [bytes_eq]; keeps. Qed.
Lemma keeps_next_nul fuel : forall s z i, keeps B (next_nul fuel s z i).
Proof. induction fuel; intros; cbn [next_nul]; keeps. Qed.
#[local] Hint Resolve keeps_skip_node_name keeps_bytes_eq keeps_next_nul : keeps.
Lemma keeps_find_string fuel : forall s z n i, keeps B (find_string_loop fuel s z n i).
Proof. induction fuel; intros; cbn [find_string_loop]; keeps. Qed.
Lemma keeps_find_in_strings s z n : keeps B (find_in_strings s z n).
Proof. intros buf. destruct (keeps_find_string (S (length buf)) s z n 0 buf). by split. Qed.
Lemma keeps_prop_end o l : keeps B (prop_end o l). Proof. unfold prop_end. keeps. Qed.
#[local] Hint Resolve keeps_find_in_strings keeps_prop_end : keeps.
Lemma keeps_find_chosen fuel : forall e o d c, keeps B (find_chosen fuel e o d c).
Proof. induction fuel; intros; cbn [find_chosen]; keeps. Qed.
Lemma keeps_scan_chosen fuel : forall s o d f, keeps B (scan_chosen fuel s o d f).
Proof. induction fuel; intros; cbn [scan_chosen]; keeps. Qed.
Lemma keeps_write_nops n : forall o, keeps B (write_nops n o).
Proof. induction n; intros; cbn [write_nops]; keeps. Qed.
#[local] Hint Resolve keeps_find_chosen keeps_scan_chosen keeps_write_nops : keeps.
Lemma keeps_nop_out o l : keeps B (nop_out o l). Proof. unfold nop_out. keeps. Qed.
Lemma keeps_update_header t z s u : keeps B (update_header t z s u). Proof. unfold update_header. keeps. Qed.
Lemma keeps_zero_range a b : keeps B (zero_range a b). Proof. unfold zero_range. keeps. Qed.
#[local] Hint Resolve keeps_nop_out keeps_update_header keeps_zero_range : keeps.
Lemma keeps_insert_bootargs m t so ss sz o args : (B -> bytes_ok args) -> keeps B (insert_bootargs m t so ss sz o args).
Proof. intros Ha. unfold insert_bootargs. keeps. Qed.
#[local] Hint Resolve keeps_insert_bootargs : keeps.
Lemma keeps_set_bootargs max args : (B -> bytes_ok args) -> keeps B (fdt_set_bootargs max args).
Proof. intros Ha. unfold fdt_set_bootargs, patch_chosen, patch_found, overwrite_bootargs. keeps. Qed.

Lemma keeps_is_memory o l : keeps B (is_memory o l). Proof. unfold is_memory. keeps. Qed.
Lemma keeps_root_prop s o l n r : keeps B (root_prop s o l n r). Proof. unfold root_prop. keeps. Qed.
#[local] Hint Resolve keeps_is_memory keeps_root_prop : keeps.
Lemma keeps_scan_root fuel : forall e s o d r, keeps B (scan_root fuel e s o d r).
Proof. induction fuel; intros; cbn [scan_root]; keeps. Qed.
Lemma keeps_scan_memory fuel : forall s o d m, keeps B (scan_memory fuel s o d m).
Proof. induction fuel; intros; cbn [scan_memory]; keeps. Qed.
Lemma keeps_write_cells o v c : keeps B (write_cells o v c). Proof. unfold write_cells. keeps. Qed.
#[local] Hint Resolve keeps_scan_root keeps_scan_memory keeps_write_cells : keeps.
Lemma keeps_append_strings d a r : keeps B (append_strings d a r). Proof. unfold append_strings. keeps. Qed.
#[local] Hint Resolve keeps_append_strings : keeps.
Lemma keeps_put_bytes p bytes : (B -> bytes_ok bytes) -> keeps B (put_bytes p bytes).
Proof. intros Hb. unfold put_bytes. keeps. Qed.
Lemma keeps_put_be32 p v : keeps B (put_be32 p v). Proof. unfold put_be32. keeps. Qed.
#[local] Hint Resolve keeps_put_be32 : keeps.
Lemma keeps_pad_loop fuel : forall p, keeps B (pad_loop fuel p).
Proof.
  induction fuel; intros p; cbn [pad_loop]; keeps. apply keeps_put_bytes. solve_bytes.
Qed.
#[local] Hint Resolve keeps_pad_loop : keeps.
Lemma keeps_put_device_type p o : keeps B (put_device_type p o).
Proof. unfold put_device_type. keeps. apply keeps_put_bytes. solve_bytes. Qed.
Lemma keeps_put_reg p o l b s a c : keeps B (put_reg p o l b s a c). Proof. unfold put_reg. keeps. Qed.
#[local] Hint Resolve keeps_put_device_type keeps_put_reg : keeps.

Lemma bytes_ok_hex_digits v : bytes_ok (hex_digits v).
Proof.
  unfold hex_digits. destruct (v =? 0); [by apply (bool_decide_unpack _)|]. apply list.Forall_forall.
  intros b (i & -> & _)%list_elem_of_fmap. unfold byte_ok, hex_nibble. generalize (Z.shiftr v ((Z.of_nat (hex_count v) - 1 - i) * 4)) as w.
  intros w. change 0xf with (Z.ones 4). rewrite Z.land_ones by lia. pose proof (Z.mod_pos_bound w (2 ^ 4) ltac:(lia)).
  destruct (_ <? 10); lia.
Qed.

Lemma keeps_build_node b s a c l d r : keeps B (build_node b s a c l d r).
Proof. unfold build_node. keeps; apply keeps_put_bytes; first [solve_bytes|intros _; apply bytes_ok_hex_digits]. Qed.
Lemma keeps_build_props x y b s a c l d r : keeps B (build_props x y b s a c l d r).
Proof. unfold build_props. keeps. Qed.

(** What is built on the stack are bytes. *)
Lemma returns_on_stack n build : keeps B build -> returns (fun block => B -> bytes_ok block) (on_stack n build).
Proof.
  intros Hb buf a. unfold on_stack. pose proof (kp_bytes _ _ _ (Hb (zeros n))) as Hz.
  destruct (build (zeros n)) as [out [p|e|]]; [|done..]. intros [= <-] HB. apply bytes_ok_sub, Hz; [done|apply bytes_ok_zeros].
Qed.

Lemma keeps_insert_block m t s ss sz o k n a r : (B -> bytes_ok k) -> keeps B (insert_block m t s ss sz o k n a r).
Proof. intros Hk. unfold insert_block. keeps. Qed.
Lemma keeps_overwrite_reg m b s a c l : keeps B (overwrite_reg m b s a c l). Proof. unfold overwrite_reg. keeps. Qed.
#[local] Hint Resolve keeps_insert_block keeps_overwrite_reg : keeps.

Lemma keeps_patch_memory max t os ss sz b s a c l rn dn n m : keeps B (patch_memory max t os ss sz b s a c l rn dn n m).
Proof.
  unfold patch_memory. apply keeps_bind; [keeps|]. intros done. destruct done; [keeps|]. cbn zeta.
  apply (keeps_bind_returns B (fun block => B -> bytes_ok block)); [keeps|apply returns_on_stack, keeps_build_props|]. intros block Hb. keeps.
Qed.
#[local] Hint Resolve keeps_patch_memory : keeps.

Lemma keeps_set_memory_root max t os ss sz b s r : keeps B (set_memory max t os ss sz b s r).
Proof.
  unfold set_memory, set_reg_in_existing_memory_node. destruct (_ || _); [keeps|]. cbn zeta. apply keeps_bind; [keeps|intros dn].
  apply keeps_bind; [keeps|intros rn].
  destruct (match dn with Some o => (o, 0) | None => _ end) as [? ?]. destruct (match rn with Some o => (o, _) | None => _ end) as [? ?].
  destruct (rs_memory_node_begin r); [keeps|].
  apply (keeps_bind_returns B (fun block => B -> bytes_ok block)); [keeps|apply returns_on_stack, keeps_build_node|]. intros block Hb. keeps.
Qed.
#[local] Hint Resolve keeps_set_memory_root : keeps.

Lemma keeps_set_memory max base size : keeps B (fdt_set_memory max base size).
Proof. unfold fdt_set_memory. keeps. Qed.
End sizes.

(** ** The guard and the window *)

(** No load is in progress. *)
Definition idle (s : Stage) : Prop := forall g, ld_ledger (sg_loads s) = Some g -> lg_busy g = false.

Lemma begin_fdt_idle w l l' r : (forall g, l = Some g -> lg_busy g = false) -> begin_fdt w l = (l', r) ->
  match r with Ok _ => pending_drop <$> l' = l | Err _ => l' = l | Panic => False end.
Proof.
  unfold begin_fdt, with_ledger. destruct l as [g|]; [|by intros _ [= <- <-]]. intros Hg H. specialize (Hg g eq_refl).
  unfold ledger_begin in H. rewrite Hg in H.
  repeat match type of H with context [if ?b then _ else _] => destruct b end; injection H as <- <-; try done;
    cbn [fmap option_fmap option_map]; f_equal; destruct g; cbn in *; by subst.
Qed.

Lemma set_ledger_unchanged s l : l = ld_ledger (sg_loads s) -> set_ledger s l = s.
Proof. intros ->. by destruct s as [? ? ? [? ?] ?]. Qed.

Section window.
Context {T : Target}.

Lemma workspace_range_spec w : workspace_range_ok w = true ->
  mw_start w <> 0 /\ mw_start w mod 4 = 0 /\ 40 <= mw_len w <= isize_max /\ mw_start w + mw_len w <= u64_max /\
  mw_start w + mw_len w <= usize_max.
Proof.
  unfold workspace_range_ok. intros H. bool_hyp. match goal with X : is_Some _ |- _ => destruct X as [e He] end.
  destruct (checked_add _ _ _) as [n|] eqn:E; [|done]. apply checked_add_Some in E as [-> ?]. cbn in He.
  unfold try_from in He. case_match; [|done]. bool_hyp. lia.
Qed.

Lemma workspace_capacity w : workspace_range_ok w = true -> as_usize (mw_len w) = mw_len w.
Proof.
  intros H. apply workspace_range_spec in H as (_ & _ & H & _). apply as_usize_small. unfold isize_max, usize_max in *.
  destruct usize_bits_ok as [E|E]; rewrite E in *; lia.
Qed.

Lemma on_workspace_outside {B} destination capacity patch m a : keeps B patch -> 0 <= capacity ->
  ~ destination <= a < destination + capacity -> fst (on_workspace destination capacity patch m) a = m a.
Proof.
  intros Hp Hc Ha. unfold on_workspace. destruct (Hp (mem_bytes m destination capacity)) as [Hz _].
  destruct (patch _) as [bytes r]. cbn [fst] in *. rewrite zlen_mem_bytes in Hz by done. apply mem_write_out. by rewrite Hz.
Qed.

Lemma on_workspace_bytes destination capacity patch m :
  keeps True patch -> mem_ok m -> mem_ok (fst (on_workspace destination capacity patch m)).
Proof.
  intros Hp Hm. unfold on_workspace. destruct (Hp (mem_bytes m destination capacity)) as [_ Hb].
  destruct (patch _) as [bytes r]. cbn [fst] in *. apply mem_ok_write; [done|]. apply Hb; [done|by apply bytes_ok_mem_bytes].
Qed.

Lemma on_workspace_Ok {B} destination capacity patch m bytes x : patch (mem_bytes m destination capacity) = (bytes, Ok x) ->
  keeps B patch -> 0 <= capacity ->
  exists m', on_workspace destination capacity patch m = (m', Ok tt) /\ mem_bytes m' destination capacity = bytes /\
    forall a, ~ destination <= a < destination + capacity -> m' a = m a.
Proof.
  intros H Hp Hc. destruct (Hp (mem_bytes m destination capacity)) as [Hz _]. rewrite H, zlen_mem_bytes in Hz by done. cbn [fst] in Hz.
  exists (mem_write m destination bytes). split_and!.
  - unfold on_workspace. by rewrite H.
  - by apply mem_bytes_write_all.
  - intros a Ha. apply mem_write_out. by rewrite Hz.
Qed.
End window.

(** ** Confinement *)

(** Boot arguments are bytes. *)
Definition patches_ok (patches : option Patches) : Prop :=
  match patches with Some (bootargs, _, _) => bytes_ok bootargs | None => True end.

Section confined.
Context {T : Target} (fdt_feature : bool) (config : Workspace).
Context (Hd : workspace_range_ok (ws_destination config) = true).

Let destination := mw_start (ws_destination config).

(** Outside the workspace nothing changes; and memory holds bytes afterwards when it
    did and, as [B] says, the arguments are bytes. *)
Record confined (B : Prop) (m m' : memory) : Prop := {
  cf_outside : forall a, ~ in_window (ws_destination config) a -> m' a = m a;
  cf_bytes : B -> mem_ok m -> mem_ok m'
}.

#[local] Instance confined_trans B : Transitive (confined B).
Proof. intros m1 m2 m3 [H1 B1] [H2 B2]. split; [intros a Ha; by rewrite H2, H1|auto]. Qed.
#[local] Instance confined_refl B : Reflexive (confined B).
Proof. intros m. by split. Qed.

Lemma measured_fits source patches m used : measure_source config source patches m = Ok used -> used <= mw_len (ws_destination config).
Proof.
  unfold measure_source. intros H. repeat rust_step H. injection H as ->. bool_hyp. apply checked_add_Some in Hm as [-> _].
  unfold PATCH_GROWTH in *. destruct patches; lia.
Qed.

Lemma copy_tree_confined B source used m :
  used <= mw_len (ws_destination config) -> confined B m (fst (copy_tree source destination used m)).
Proof.
  intros Hu. destruct (workspace_range_spec _ Hd) as (_ & _ & H40 & He & _).
  fold destination in He. unfold copy_tree, add_or_panic. rewrite checked_add_ok by lia. cbn [or_panic fst]. split.
  - intros a Ha. unfold in_window in Ha. fold destination in Ha.
    rewrite mem_write_out by (rewrite zlen_be_enc; lia). apply mem_write_out.
    destruct (Z.le_gt_cases 0 used); [rewrite zlen_mem_bytes by done; lia|].
    unfold mem_bytes, zlen. rewrite length_map, length_seq. lia.
  - intros _ Hm. apply mem_ok_write; [|apply bytes_ok_be_enc]. apply mem_ok_write; [done|by apply bytes_ok_mem_bytes].
Qed.

Lemma on_workspace_confined (B : Prop) patch m :
  keeps B patch -> confined B m (fst (on_workspace destination (as_usize (mw_len (ws_destination config))) patch m)).
Proof.
  intros Hp. rewrite workspace_capacity by done. split.
  - intros a Ha. apply (on_workspace_outside (B := B)); [done| |exact Ha].
    destruct (workspace_range_spec _ Hd) as (_ & _ & ? & _). lia.
  - intros HB Hm. apply on_workspace_bytes; [|done]. intros buf. destruct (Hp buf). by split; auto.
Qed.

Lemma apply_patches_confined patches m :
  confined (patches_ok patches) m (fst (apply_patches fdt_feature config destination patches m)).
Proof.
  destruct patches as [[[args base] size]|]; [|done]. unfold apply_patches. destruct fdt_feature; [|done].
  cbn zeta. apply (sbind_keeps (confined _)).
  - case_bool_decide; [done|]. by apply on_workspace_confined, keeps_set_bootargs.
  - intros _ _. destruct (_ && _); [|done]. apply (sbind_keeps (confined _)); [done|].
    intros _ _. apply on_workspace_confined, keeps_set_memory.
Qed.

Lemma prepare_memory_confined source patches m :
  confined (patches_ok patches) m (fst (prepare_memory fdt_feature config source destination patches m)).
Proof.
  unfold prepare_memory. apply (sbind_keeps (confined _)); [done|]. cbn [fst snd]. intros used Hu.
  apply (sbind_keeps (confined _)); [by apply copy_tree_confined; eapply measured_fits|]. intros _ _.
  apply (sbind_keeps (confined _)); [apply apply_patches_confined|]. done.
Qed.
End confined.

(** Whatever bytes it is given and whatever its outcome, a preparation changes
    nothing but the bytes of the registered workspace. *)
Theorem prepare_confined {T : Target} fdt_feature s config source destination patches :
  sg_workspace s = Some config -> workspace_range_ok (ws_destination config) = true -> idle s ->
  exists m, fst (prepare fdt_feature source destination patches s) = set_machine s {| ram := m; log := log (sg_machine s) |} /\
    confined config (patches_ok patches) (ram (sg_machine s)) m.
Proof.
  intros Hs Hd Hi. unfold prepare. rewrite Hs. unfold prepare_in.
  assert (Hsame : exists m, s = set_machine s {| ram := m; log := log (sg_machine s) |} /\
    confined config (patches_ok patches) (ram (sg_machine s)) m).
  { exists (ram (sg_machine s)). split; [by destruct s as [[? ?] ? ? ? ?]|by split]. }
  destruct (negb (destination =? mw_start (ws_destination config))) eqn:Hdest; [exact Hsame|].
  apply negb_false_iff, Z.eqb_eq in Hdest as ->. cbn [orb].
  match goal with |- context [match ?x with Ok _ => _ | Err _ => _ | Panic => _ end] => destruct x end; [|exact Hsame..].
  destruct (begin_fdt _ _) as [g r] eqn:E. pose proof (begin_fdt_idle _ _ _ _ Hi E) as Hr. destruct r; [| |done].
  - pose proof (prepare_memory_confined fdt_feature config Hd source patches (ram (sg_machine s))) as Hc.
    destruct (prepare_memory _ _ _ _ _ _) as [m r]. exists m. split; [|exact Hc]. cbn [fst]. rewrite Hr. by apply set_ledger_unchanged.
  - subst g. cbn [fst]. rewrite set_ledger_unchanged by done. exact Hsame.
Qed.
