(* ===== verification/StageLoads.v ===== *)
(** * StageLoads: what a stage has loaded stays as the directory promises

    The chain of trust of [Stage.v] as an invariant of everything the stage may
    do: the directory is the one an authentic root or a trusted predecessor names,
    and every window of the ledger still holds the verified bytes of a file of
    that directory, with the rest of the window zero, or the bytes of an image of
    the directory's container, however many loads have succeeded or failed since.

    The steps are the operations that change the stage: the directory contexts,
    the policy, the grants, the workspace of the device tree and its preparation,
    the loads by type and by name, the load of a container, and any other write
    outside the loaded windows.  The load of a bootstrap image
    ([stage_load_with_policy]) belongs to the hand-over: it takes a policy of its
    own, goes past the ledger and is followed by the jump into what it has loaded,
    so it is no step here; [Load.v] says what it leaves. *)

From S2P Require Import Prelude.
From S2P Require Import Bytes.
From S2P Require Import Wire.
From S2P Require Import Services.
From S2P Require Import Crypto.
From S2P Require Import Root.
From S2P Require Import Manifest.
From S2P Require Import Memory.
From S2P Require Import BootMedia.
From S2P Require Import Lz4.
From S2P Require Import Load.
From S2P Require Import Resume.
From S2P Require Import Ledger.
From S2P Require Import LoadPolicy.
From S2P Require Import Locator.
From S2P Require Import Stage.
From S2P Require Import StageFiles.
From S2P Require Import Fit.
From S2P Require Import FitLoad.
From S2P Require Import FdtWorkspace.
From S2P Require Import FdtConfined.
From Stdlib Require Import ZArith Lia.
From stdpp Require Import base numbers list option relations.

#[local] Open Scope Z_scope.

Section trust.
Context {T : Target} {C : Crypto} {M : Type} {BM : BootMedia M} {wf : M -> Prop} {BL : BootMediaLaws M wf}.
Context {D : Dtoolkit} {L : DtoolkitLaws}.
Context (partial : list Z -> list Z -> list Z).
Context (ffs_signature : bool) (try_reserve : Z -> bool).
Context (trust_addr : Z) (trust_data : list Z).
(** The references a protected hand-off may bring. *)
Context (handed : DirectoryRef -> Prop).
Context (Hpartial : partial_ok partial).

(** ** Memory *)

(** The verified bytes at an address, and zeros up to the end of the window. *)
Definition holds (m : memory) (addr size len : Z) (digest : list Z) : Prop :=
  sha256 (mem_bytes m addr size) = digest /\ forall a, addr + size <= a < addr + len -> m a = 0.

Lemma holds_ext m m' addr size len digest :
  size <= len -> (forall a, addr <= a < addr + len -> m' a = m a) ->
  holds m addr size len digest -> 0 <= size -> holds m' addr size len digest.
Proof.
  intros Hs H [Hd Hz] H0. split.
  - rewrite (mem_bytes_same m m'); [done|]. intros a Ha. apply H. lia.
  - intros a Ha. rewrite H by lia. by apply Hz.
Qed.

(** What a load does to memory, whatever its outcome. *)
Record filled (plan : FilePlan) (m m' : Machine) (r : res unit Z) : Prop := {
  fl_bytes : mem_ok (ram m');
  fl_confined : forall a, ram m' a <> ram m a ->
    bd_load_addr (fp_descriptor plan) <= a < bd_load_addr (fp_descriptor plan) + fp_footprint plan;
  fl_holds : forall entry, r = Ok entry ->
    entry = bd_load_addr (fp_descriptor plan) /\
    holds (ram m') (bd_load_addr (fp_descriptor plan)) (bd_loaded_size (fp_descriptor plan)) (fp_loaded_size plan)
      (bd_loaded_digest (fp_descriptor plan))
}.

Lemma load_measured_ram media d p c me m :
  ram (fst (load_measured partial media d p c me m)) = ram (fst (load_bootstrap partial media d p c (me_event me) m)) /\
  snd (load_measured partial media d p c me m) = snd (load_bootstrap partial media d p c (me_event me) m).
Proof. unfold load_measured. by destruct (load_bootstrap _ _ _ _ _ _ _). Qed.

Lemma fill_memory_filled media plan c m m' r :
  wf media -> bootstrap_wf (fp_descriptor plan) -> bd_entry_offset (fp_descriptor plan) = 0 -> mem_ok (ram m) ->
  0 <= fp_loaded_size plan ->
  fp_footprint plan = Z.max (footprint_size (fp_descriptor plan)) (fp_loaded_size plan) ->
  fill_memory partial media plan c m = (m', r) -> filled plan m m' r.
Proof.
  intros Hm Hd He Hram H0 Hf H. set (d := fp_descriptor plan) in *. unfold fill_memory, sbind, slift in H. fold d in H.
  pose proof (load_measured_ram media d (fp_policy plan) c (fp_measurement plan) m) as [Hr1 Hr2].
  pose proof (load_bootstrap_mem_ok partial media d (fp_policy plan) c (me_event (fp_measurement plan)) m Hpartial Hm Hd Hram) as Hb1.
  pose proof (fun a => load_bootstrap_changes partial media d (fp_policy plan) c (me_event (fp_measurement plan)) m a
    (fun i o => proj1 (Hpartial i o)) Hm Hd Hram) as Hc1.
  destruct (load_measured _ _ _ _ _ _ _) as [m1 r1]. cbn [fst snd] in Hr1, Hr2.
  destruct (load_bootstrap _ _ _ _ _ _ _) as [m2 r2] eqn:E. cbn [fst snd] in *. subst r1. rewrite <- Hr1 in *.
  assert (Hconf : forall a, ram m1 a <> ram m a -> bd_load_addr d <= a < bd_load_addr d + fp_footprint plan).
  { intros a Ha. destruct (Hc1 a Ha) as [? _]. lia. }
  destruct r2 as [entry|e|]; cbn [ok map_err] in H; [|injection H as <- <-; by split..].
  apply load_bootstrap_Ok in E as (_ & _ & Hdig & _ & _ & _ & Hent & _); [|done..]. rewrite <- Hr1 in Hdig.
  pose proof (bwf_loaded_size d Hd) as [Hl0 _]. cbn [some ok_or] in H.
  destruct (checked_sub _ _) as [tail|] eqn:Ht; cbn [some ok_or] in H; [|injection H as <- <-; by split].
  apply checked_sub_Some in Ht as [-> Ht]. injection H as <- <-. fold d.
  destruct (Z.eqb_spec (fp_loaded_size plan - bd_loaded_size d) 0) as [Hz|Hz].
  - split; [done|done|]. intros ? [= <-]. fold d. rewrite Hent, He. split; [lia|]. split; [done|]. intros; lia.
  - assert (Hzl : zlen (zeros (fp_loaded_size plan - bd_loaded_size d)) = fp_loaded_size plan - bd_loaded_size d)
      by (apply zlen_zeros; lia).
    split; cbn [ram]; fold d.
    + apply mem_ok_write; [done|apply bytes_ok_zeros].
    + intros a Ha. destruct (decide (bd_load_addr d + bd_loaded_size d <= a < bd_load_addr d + fp_loaded_size plan)) as [?|Hn]; [lia|].
      rewrite mem_write_out in Ha by (rewrite Hzl; lia). by apply Hconf.
    + intros ? [= <-]. rewrite Hent, He. split; [lia|]. split.
      * rewrite (mem_bytes_same (ram m1)); [done|]. intros a Ha. apply mem_write_out. rewrite Hzl. lia.
      * intros a Ha. rewrite mem_write_in by (rewrite Hzl; lia). unfold zeros. rewrite nth_lookup. destruct (_ !! _) eqn:E; [|done]. by apply lookup_replicate in E as [-> _].
Qed.

(** ** The invariant *)

Definition segment_window (seg : SegmentRecord) : MemoryWindow := {|
  mw_start := sr_load_addr seg; mw_len := sr_loaded_size seg |}.

Definition holds_segment (m : memory) (seg : SegmentRecord) (addr : Z) : Prop :=
  holds m addr (sr_initialized_size seg) (sr_loaded_size seg) (sr_loaded_digest seg).

(** [bytes] are a kernel or ramdisk of the directory's container, and [w] is where the
    container wants them. *)
Definition boot_image_at (d : VerifiedDirectory) (w : MemoryWindow) (bytes : list Z) : Prop :=
  exists slice f cfg c name node, fit_container d slice /\ fit_parse slice = Ok f /\ resolve_config f cfg = Ok c /\
    (config_kernel c = Some name \/ config_ramdisk c = Some name) /\ image f name = Some node /\
    compression node = FcNone /\ data node = Ok bytes /\ load_addr node = Some (mw_start w) /\ mw_len w = zlen bytes.

(** The window holds a file of the directory, or an image of its container. *)
Definition intact (s : Stage) (w : MemoryWindow) : Prop :=
  exists d, sg_directory s = Some d /\
    ((exists seg, directory_segment d seg /\ w = segment_window seg /\
        holds_segment (ram (sg_machine s)) seg (sr_load_addr seg)) \/
     (exists bytes, boot_image_at d w bytes /\ mem_bytes (ram (sg_machine s)) (mw_start w) (zlen bytes) = bytes)).

Record stage_ok (s : Stage) : Prop := {
  sk_memory : mem_ok (ram (sg_machine s));
  sk_ledger : forall g, ld_ledger (sg_loads s) = Some g -> ledger_ok g None;
  sk_directory : forall d, sg_directory s = Some d -> directory_authentic trust_addr trust_data handed d;
  sk_workspace : forall w, sg_workspace s = Some w ->
    window_ok (ws_destination w) /\ workspace_range_ok (ws_destination w) = true;
  sk_live : forall w, w ∈ live s -> intact s w;
  sk_clear : forall w v, w ∈ live s -> workspace_destination s = Some v -> apart w v
}.

Lemma live_ok s w : stage_ok s -> w ∈ live s -> window_ok w /\ proper_window w.
Proof.
  intros Hs Hw. unfold live in Hw. destruct (ld_ledger (sg_loads s)) as [g|] eqn:Hg; [|by apply elem_of_nil in Hw].
  destruct (sk_ledger s Hs g Hg) as [_ _ _ Hp Hok _ _]. cbn [fmap option_fmap option_map default] in *.
  rewrite app_nil_r in *. rewrite list.Forall_forall in Hp. rewrite list.Forall_forall in Hok. auto.
Qed.

Lemma workspace_window s v : stage_ok s -> workspace_destination s = Some v -> window_ok v.
Proof.
  unfold workspace_destination. intros Hs Hv. destruct (sg_workspace s) as [ws|] eqn:Hk; [|done]. injection Hv as <-.
  by apply (sk_workspace s Hs).
Qed.

Lemma intact_ext s s' w :
  stage_ok s -> sg_directory s' = sg_directory s ->
  (forall a, in_window w a -> ram (sg_machine s') a = ram (sg_machine s) a) -> intact s w -> intact s' w.
Proof.
  intros Hs Hd H (d & Hdir & Hw). exists d. rewrite Hd. split; [done|].
  destruct Hw as [(seg & Hseg & -> & Hh)|(bytes & Hi & Hb)]; [left; exists seg|right; exists bytes]; split_and!; try done.
  - destruct (directory_segment_facts d seg (da_bytes _ _ _ _ (sk_directory s Hs d Hdir)) Hseg) as ([_ _ _ [? _] _ _ _] & ? & _).
    apply (holds_ext (ram (sg_machine s))); [done| |done|done]. intros a Ha. by apply H.
  - rewrite (mem_bytes_same (ram (sg_machine s))); [done|]. intros a Ha. apply H. unfold in_window.
    destruct Hi as (? & ? & ? & ? & ? & ? & _ & _ & _ & _ & _ & _ & _ & _ & ->). exact Ha.
Qed.

(** A change of the state that touches no loaded window. *)
Lemma stage_ok_mono s s' :
  stage_ok s -> mem_ok (ram (sg_machine s')) ->
  sg_directory s' = sg_directory s -> sg_workspace s' = sg_workspace s -> live s' = live s ->
  (forall g, ld_ledger (sg_loads s') = Some g -> ledger_ok g None) ->
  (forall w a, w ∈ live s -> in_window w a -> ram (sg_machine s') a = ram (sg_machine s) a) -> stage_ok s'.
Proof.
  intros Hs Hm Hd Hw Hl Hg Hr. pose proof Hs as [_ _ Hdir Hws Hlive Hcl].
  split; try done; rewrite ?Hd, ?Hw, ?Hl; try done.
  - intros w Hin. apply (intact_ext s s'); auto. intros a. by apply Hr.
  - intros w v Hin. unfold workspace_destination. rewrite Hw. by apply Hcl.
Qed.

(** Every window of a file or image keeps its bytes. *)
Definition untouched (s s' : Stage) : Prop :=
  forall w a, w ∈ live s -> in_window w a -> ram (sg_machine s') a = ram (sg_machine s) a.

(** What the ledger grants a plan. *)
Lemma plan_begin_Ok s file plan seg g' pending :
  stage_ok s -> segment_typed seg -> plan_of s file plan seg ->
  plan_begin s plan (ld_ledger (sg_loads s)) = (g', Ok pending) ->
  exists g, g' = Some g /\ ledger_ok g (Some pending) /\ live_windows g = live s /\
    (forall w a, w ∈ live s -> in_window w a ->
       ~ bd_load_addr (fp_descriptor plan) <= a < bd_load_addr (fp_descriptor plan) + fp_footprint plan) /\
    (fp_fdt plan = None -> pl_live pending = [segment_window seg] /\
       forall v, workspace_destination s = Some v -> apart (segment_window seg) v).
Proof.
  intros Hs Hseg Hp H. pose proof Hp as [_ _ Hld _ _ Hwf Hfp Hpl Had _ Hfdt _].
  destruct Hwf as [_ [? ?] [? ?] [? ?] _ _ _ _ Hv]. apply bootstrap_validate_Ok in Hv as [_ _ _ Hv1 Hv2 _].
  set (d := fp_descriptor plan) in *. set (f := {| mw_start := bd_load_addr d; mw_len := fp_footprint plan |}).
  destruct Hseg as [_ _ [? ?] _ _ _ _].
  assert (Hf : window_ok f).
  { unfold f, window_ok. cbn [mw_start mw_len]. rewrite Hfp. unfold footprint_size, u32_max, u64_max in *.
    destruct (bd_compression d); [lia|]. destruct Hv2; [done|]. lia. }
  assert (Hin : forall w a, in_window w a -> apart w f -> ~ bd_load_addr d <= a < bd_load_addr d + fp_footprint plan)
    by (intros w a Ha Hap Hc; by apply (Hap a)).
  unfold plan_begin in H. fold d in H. destruct (fp_fdt plan) as [v|] eqn:Hfd.
  - destruct (Hfdt v eq_refl) as (Hws & Hst & Hwr & _). unfold begin_fdt, with_ledger in H. unfold live.
    destruct (ld_ledger (sg_loads s)) as [g0|] eqn:Hg; [|done]. destruct (ledger_begin _ _ g0) as [g r] eqn:E.
    injection H as <- ->. pose proof (workspace_window s v Hs Hws) as Hvo.
    assert (Hvs : Forall window_ok [v]) by by apply list.Forall_singleton.
    exists g. pose proof (ledger_ok_begin _ _ _ _ _ (sk_ledger s Hs g0 Hg) Hvs Hvs E) as Hok.
    apply ledger_begin_Ok in E as (_ & -> & -> & _ & Hadm & _); [|done..]. split_and!; try done.
    intros w a Hw Ha. apply (Hin w a Ha). destruct (live_ok s w Hs) as [Hwo _]; [unfold live; by rewrite Hg|].
    apply (apart_sub w v f); [done| |].
    { apply permits_true in Hpl as (_ & _ & _ & _ & _ & (x & Hx & Hc) & _). rewrite Hwr in Hx.
      apply list_elem_of_singleton in Hx as ->. apply contains_spec in Hc. cbn [f mw_start mw_len] in *. lia. }
    apply overlaps_apart; [done..|]. inversion Hadm as [|? ? ? ? (_ & _ & _ & _ & Hov)]; subst.
    rewrite list.Forall_forall in Hov. by apply Hov.
  - unfold begin in H. destruct (existsb _ _) eqn:Hex; [done|]. unfold with_ledger in H. unfold live.
    destruct (ld_ledger (sg_loads s)) as [g0|] eqn:Hg; [|done]. destruct (ledger_begin _ _ g0) as [g r] eqn:E.
    injection H as <- ->. rewrite Hld, (Had eq_refl) in E. fold (segment_window seg) in E.
    change (sr_load_addr seg) with (sr_load_addr seg) in E. rewrite <- (Had eq_refl) in E. fold f in E.
    assert (Hfs : Forall window_ok [f]) by by apply list.Forall_singleton.
    assert (Hss : Forall window_ok [segment_window seg]).
    { apply list.Forall_singleton. unfold segment_window, window_ok. cbn [mw_start mw_len]. rewrite <- (Had eq_refl).
      unfold u32_max, u64_max in *. lia. }
    exists g. pose proof (ledger_ok_begin _ _ _ _ _ (sk_ledger s Hs g0 Hg) Hfs Hss E) as Hok.
    apply ledger_begin_Ok in E as (_ & -> & -> & _ & Hadm & _); [|done..]. inversion Hadm as [|? ? ? ? (_ & _ & Hsl & Hll & Hov)]; subst.
    split_and!; try done.
    + intros w a Hw Ha. apply (Hin w a Ha). destruct (live_ok s w Hs) as [Hwo _]; [unfold live; by rewrite Hg|].
      apply overlaps_apart; [done..|]. rewrite list.Forall_forall in Hov. by apply Hov.
    + intros _. split; [done|]. intros v Hv'. cbn [existsb] in Hex. rewrite orb_false_r in Hex. unfold conflicts in Hex.
      rewrite Hv' in Hex. symmetry. apply (apart_sub v f); [done..|]. apply overlaps_apart; [|done..]. by apply (workspace_window s).
Qed.

(** ** Loading a file *)

(** What a load of [file] has done. *)
Definition load_effect (s s' : Stage) (file : FileView) (r : res unit Z) : Prop :=
  match r with
  | Ok entry => exists seg, fv_segments file = [seg] /\ holds_segment (ram (sg_machine s')) seg entry /\
      (live s' = live s ++ [segment_window seg] /\ entry = sr_load_addr seg \/
       live s' = live s /\ decode_file_type (er_file_type (fv_entry file)) = Ok Fdt /\
         exists v, workspace_destination s = Some v /\ entry = mw_start v)
  | _ => live s' = live s
  end.

Lemma live_set_ledger s g : live (set_ledger s (Some g)) = live_windows g.
Proof. done. Qed.

Lemma plan_begin_Err s plan g0 g e : plan_begin s plan g0 = (g, Err e) -> g = g0.
Proof.
  unfold plan_begin, begin_fdt, begin, with_ledger. intros H.
  assert (Hw : forall fs ls, (match g0 with
     | Some g1 => let '(g2, r) := ledger_begin fs ls g1 in (Some g2, r) | None => (g0, Err MemoryPolicyError) end) = (g, Err e) -> g = g0).
  { intros fs ls Hx. destruct g0 as [g1|]; [|by injection Hx as <- _]. destruct (ledger_begin fs ls g1) as [g2 r] eqn:E.
    injection Hx as <- ->. by apply ledger_begin_Err in E as ->. }
  destruct (fp_fdt plan); [by eapply Hw|]. destruct (existsb _ _); [by injection H as <- _|]. by eapply Hw.
Qed.

Lemma plan_begin_no_panic s plan g0 g : plan_begin s plan g0 <> (g, Panic).
Proof.
  unfold plan_begin, begin_fdt, begin, with_ledger. intros H.
  assert (Hw : forall fs ls, (match g0 with
     | Some g1 => let '(g2, r) := ledger_begin fs ls g1 in (Some g2, r) | None => (g0, Err MemoryPolicyError) end) <> (g, Panic)).
  { intros fs ls Hx. destruct g0 as [g1|]; [|done]. pose proof (ledger_begin_no_panic fs ls g1) as Hn.
    destruct (ledger_begin fs ls g1) as [g2 r]. injection Hx as _ ->. done. }
  destruct (fp_fdt plan); [by eapply Hw|]. destruct (existsb _ _); [done|]. by eapply Hw.
Qed.

Lemma set_ledger_same s : set_ledger s (ld_ledger (sg_loads s)) = s.
Proof. by destruct s as [? ? ? [? ?] ?]. Qed.

(** The bytes a plan fills are none that is loaded. *)
Lemma filled_keeps s plan m r :
  filled plan (sg_machine s) m r ->
  (forall w a, w ∈ live s -> in_window w a ->
     ~ bd_load_addr (fp_descriptor plan) <= a < bd_load_addr (fp_descriptor plan) + fp_footprint plan) ->
  forall w a, w ∈ live s -> in_window w a -> ram m a = ram (sg_machine s) a.
Proof. intros Hf Hno w a Hw Ha. apply dec_stable. intros Hc. by apply (Hno w a Hw Ha), (fl_confined _ _ _ _ Hf). Qed.

(** The committed window joins the loaded ones. *)
Lemma load_committed s m g d seg file :
  stage_ok s -> mem_ok (ram m) -> sg_directory s = Some d -> directory_segment d seg ->
  (forall w a, w ∈ live s -> in_window w a -> ram m a = ram (sg_machine s) a) ->
  holds_segment (ram m) seg (sr_load_addr seg) ->
  (forall v, workspace_destination s = Some v -> apart (segment_window seg) v) ->
  live_windows g = live s ++ [segment_window seg] -> ledger_ok g None -> fv_segments file = [seg] ->
  let t := set_ledger (set_machine s m) (Some g) in
  stage_ok t /\ same_context s t /\ untouched s t /\ load_effect s t file (Ok (sr_load_addr seg)).
Proof.
  intros Hs Hmo Hd Hds Hk Hh Hcl Hl Hg Hfs t. split_and!; [|done|exact Hk|].
  - pose proof Hs as [_ _ Hdir Hws Hlive Hclear]. split; try done.
    + by intros ? [= <-].
    + intros w Hw. change (live t) with (live_windows g) in Hw. rewrite Hl in Hw. apply elem_of_app in Hw as [Hw|Hw].
      * apply (intact_ext s t); try done; [|by apply Hlive]. intros a. by apply Hk.
      * apply list_elem_of_singleton in Hw as ->. exists d. split; [done|]. left. by exists seg.
    + intros w v Hw Hv. change (live t) with (live_windows g) in Hw. rewrite Hl in Hw. apply elem_of_app in Hw as [Hw|Hw].
      * by apply Hclear.
      * apply list_elem_of_singleton in Hw as ->. by apply Hcl.
  - exists seg. split_and!; [done..|]. left. done.
Qed.

Lemma load_file_spec media file image_size me s s' r d :
  wf media -> stage_ok s -> sg_directory s = Some d -> directory_file d file ->
  load_file_segments_from_media partial media file image_size me s = (s', r) ->
  stage_ok s' /\ same_context s s' /\ untouched s s' /\ load_effect s s' file r.
Proof.
  intros Hm Hs Hd Hf H. unfold load_file_segments_from_media in H.
  destruct (plan_file s media file image_size me) as [plan|e|] eqn:Hplan; [|by injection H as <- <-..].
  pose proof (da_bytes _ _ _ _ (sk_directory s Hs d Hd)) as Hb.
  destruct (plan_file_Ok s media file image_size me plan d Hd Hb Hf) as (seg & Hp & Hds); [by intros w; apply workspace_window|done|].
  destruct (directory_segment_facts d seg Hb Hds) as (Hseg & Hil & _).
  destruct (plan_begin _ _ _) as [g' [pending|e|]] eqn:Hbg.
  2:{ apply plan_begin_Err in Hbg as ->. rewrite set_ledger_same in H. by injection H as <- <-. }
  2:{ by apply plan_begin_no_panic in Hbg. }
  destruct (plan_begin_Ok s file plan seg g' pending Hs Hseg Hp Hbg) as (g & -> & Hg & Hlg & Hno & Hpl).
  cbn [fmap option_fmap option_map] in H.
  assert (Hdrop : forall m, mem_ok (ram m) ->
    (forall w a, w ∈ live s -> in_window w a -> ram m a = ram (sg_machine s) a) ->
    let t := set_ledger (set_machine s m) (Some (pending_drop g)) in
    stage_ok t /\ same_context s t /\ untouched s t /\ live t = live s).
  { intros m Hmo Hk t. split; [|by split_and!]. apply (stage_ok_mono s); try done. intros ? [= <-]. by eapply ledger_ok_drop. }
  destruct (load_codec (sg_loads s)) as [c|].
  2:{ injection H as <- <-. apply (Hdrop (sg_machine s)); [apply Hs|done]. }
  destruct (fill_memory _ _ _ _ _) as [m r0] eqn:Hfill.
  apply fill_memory_filled in Hfill as Hfl; [|done|apply Hp|apply Hp|apply Hs| |by rewrite (pn_footprint _ _ _ _ Hp), (pn_loaded _ _ _ _ Hp)].
  2:{ rewrite (pn_loaded _ _ _ _ Hp). destruct Hseg as [_ _ [? _] _ _ _ _]. done. }
  pose proof (filled_keeps s plan m r0 Hfl Hno) as Hk. pose proof (fl_bytes _ _ _ _ Hfl) as Hmo.
  destruct r0 as [entry|e|]; [|injection H as <- <-; by apply (Hdrop m)..].
  destruct (fl_holds _ _ _ _ Hfl entry eq_refl) as [-> Hh].
  rewrite (pn_initialized _ _ _ _ Hp), (pn_loaded _ _ _ _ Hp), (pn_digest _ _ _ _ Hp) in Hh.
  destruct (fp_fdt plan) as [v|] eqn:Hfd.
  - injection H as <- <-. destruct (Hdrop m Hmo Hk) as (? & ? & ? & ?). split_and!; try done. exists seg.
    destruct (pn_fdt _ _ _ _ Hp v Hfd) as (? & ? & _ & ?). split_and!; [apply Hp|done|]. right. eauto.
  - destruct (Hpl eq_refl) as [Hpw Hcl]. destruct (commit_Ok g pending Hg) as (g1 & Hc & Hl1 & Hok1). rewrite Hc in H.
    injection H as <- <-. rewrite (pn_addr _ _ _ _ Hp Hfd) in Hh |- *. rewrite Hlg, Hpw in Hl1.
    apply (load_committed s m g1 d seg); try done. apply Hp.
Qed.

(** A load of whatever file, seen from outside. *)
Definition loads (s s' : Stage) : Prop :=
  live s' = live s \/ exists seg, live s' = live s ++ [segment_window seg].

Lemma load_effect_loads s s' file r : load_effect s s' file r -> loads s s'.
Proof. destruct r; [|by left..]. intros (seg & _ & _ & [[? _]|[? _]]); [right; by exists seg|by left]. Qed.

Lemma directory_view_None s media x : sg_directory s = None -> directory_view s media <> Ok x.
Proof. intros H Hv. apply directory_view_Ok in Hv as (d & ? & _). congruence. Qed.

Lemma load_ffs_file_measured_spec media t me s s' r :
  wf media -> stage_ok s -> load_ffs_file_measured partial media t me s = (s', r) ->
  stage_ok s' /\ same_context s s' /\ untouched s s' /\
  (s' = s /\ (forall entry, r <> Ok entry) \/
   exists d file, sg_directory s = Some d /\ directory_file d file /\
     (let? v := ok (directory_view s media) in ok (find_file_by_type v t)) = Ok file /\ load_effect s s' file r).
Proof.
  intros Hm Hs H. unfold load_ffs_file_measured in H.
  destruct (rbind _ _) as [file|e|] eqn:Hf; [|injection H as <- <-; split_and!; try done; left; split; [done|by intros ? [=]]..].
  assert (Hd : exists d, sg_directory s = Some d).
  { destruct (sg_directory s) as [d|] eqn:Hd; [eauto|]. stage_step Hf. stage_step Ha.
    by apply (directory_view_None s media a Hd) in Ha. }
  destruct Hd as [d Hd]. pose proof (found_directory_file s media d file Hd (da_bytes _ _ _ _ (sk_directory s Hs d Hd)) (or_introl (ex_intro _ t Hf))) as Hdf.
  destruct (load_file_spec media file _ me s s' r d Hm Hs Hd Hdf H) as (? & ? & ? & ?). split_and!; try done. right. by exists d, file.
Qed.

Lemma load_ffs_file_by_name_spec media n s s' r :
  wf media -> stage_ok s -> load_ffs_file_by_name partial media n s = (s', r) ->
  stage_ok s' /\ same_context s s' /\ loads s s' /\ (r = Ok true \/ live s' = live s).
Proof.
  intros Hm Hs H. unfold load_ffs_file_by_name in H.
  destruct (rbind _ _) as [file|e|] eqn:Hf; [|injection H as <- <-; split_and!; [done..|by left|by right]..].
  assert (Hd : exists d, sg_directory s = Some d).
  { destruct (sg_directory s) as [d|] eqn:Hd; [eauto|]. stage_step Hf. stage_step Ha.
    by apply (directory_view_None s media a Hd) in Ha. }
  destruct Hd as [d Hd]. pose proof (found_directory_file s media d file Hd (da_bytes _ _ _ _ (sk_directory s Hs d Hd)) (or_intror (ex_intro _ n Hf))) as Hdf.
  destruct (load_file_segments_from_media _ _ _ _ _ _) as [s1 r1] eqn:E.
  destruct (load_file_spec media file _ _ s s1 r1 d Hm Hs Hd Hdf E) as (? & ? & _ & He).
  pose proof (load_effect_loads _ _ _ _ He). destruct r1; injection H as <- <-; split_and!; try done; by (left + right).
Qed.

(** ** Everything a stage does *)

Inductive stage_step : Stage -> Stage -> Prop :=
| ss_ensure anchor_data media s :
    wf media -> bytes_ok anchor_data ->
    stage_step s (fst (ensure_context ffs_signature try_reserve trust_addr trust_data anchor_data media s))
| ss_install media reference s :
    wf media -> handed reference -> u64_ok (dr_offset reference) -> u64_ok (dr_size reference) ->
    stage_step s (fst (install_directory_context try_reserve media reference s))
| ss_policy p c s :
    stage_step s (set_loads s (fst (set_load_policy try_reserve p c (sg_loads s))))
| ss_grant window s :
    stage_step s (set_loads s (fst (grant_load_window try_reserve window (sg_loads s))))
| ss_workspace source destination s :
    window_ok source -> window_ok destination ->
    stage_step s (fst (configure_fdt_workspace source destination s))
| ss_load_type media t me s :
    wf media -> stage_step s (fst (load_ffs_file_measured partial media t me s))
| ss_load_name media name s :
    wf media -> stage_step s (fst (load_ffs_file_by_name partial media name s))
| ss_fit container_addr media cfg mem scratch s :
    wf media -> mem_ok mem ->
    stage_step s (fst (fst (load_fit_components_with_scratch try_reserve container_addr media cfg mem (s, scratch))))
| ss_prepare fdt_feature source destination patches s :
    patches_ok patches -> stage_step s (fst (prepare fdt_feature source destination patches s))
| ss_write m s :
    mem_ok (ram m) -> (forall w a, w ∈ live s -> in_window w a -> ram m a = ram (sg_machine s) a) ->
    stage_step s (set_machine s m).

Lemma install_ok media reference s :
  wf media -> 0 <= dr_offset reference -> 0 <= dr_size reference ->
  (handed reference \/ exists root, root_authentic trust_addr trust_data root /\ r_directory root = reference) ->
  stage_ok s -> stage_ok (fst (install_directory_context try_reserve media reference s)).
Proof.
  intros Hm Ho Hz Href Hs. unfold install_directory_context. destruct (sg_directory s) as [d0|] eqn:Hd; [done|].
  destruct (open_directory _ _ _) as [d|e|] eqn:E; [|done..]. cbn [fst].
  apply open_directory_Ok in E as (Hb & Hl & Hdig & Hr & _); [|done..].
  assert (Hnone : forall w, w ∈ live s -> False).
  { intros w Hw. destruct (sk_live s Hs w Hw) as (d1 & Hd1 & _). congruence. }
  pose proof Hs as [? ? _ ? _ ?]. split; try done.
  - intros ? [= <-]. split; try done. by rewrite Hr.
  - intros w Hw. by destruct (Hnone w).
Qed.

Lemma initialized_ledger_ok s l :
  stage_ok s -> ld_ledger l = ld_ledger (sg_loads s) \/ ld_ledger l = ledger_initialize (ld_ledger (sg_loads s)) ->
  stage_ok (set_loads s l).
Proof.
  intros Hs Hl. pose proof (sk_ledger s Hs) as Hg.
  apply (stage_ok_mono s); try done; [apply Hs| |]; unfold live; cbn [set_loads sg_loads]; destruct Hl as [->| ->]; try done;
    destruct (ld_ledger (sg_loads s)) as [g|]; cbn [ledger_initialize]; try done.
  intros ? [= <-]. apply ledger_new_ok.
Qed.

Lemma set_load_policy_ledger p c s :
  let l := fst (set_load_policy try_reserve p c s) in
  ld_ledger l = ld_ledger s \/ ld_ledger l = ledger_initialize (ld_ledger s).
Proof. unfold set_load_policy. repeat (case_match; [by left|]). by right. Qed.

Lemma configure_ok source destination s :
  window_ok destination -> stage_ok s -> stage_ok (fst (configure_fdt_workspace source destination s)).
Proof.
  intros Hw Hs. unfold configure_fdt_workspace. destruct (negb _) eqn:Hr; [done|].
  apply negb_false_iff, andb_true_iff in Hr as [_ Hr]. destruct (sg_workspace s) as [old|] eqn:Hk; [done|]. destruct (_ && _); [done|].
  destruct (load_policy (sg_loads s)); [|done]. destruct (_ || _); [done|].
  unfold begin_fdt, with_ledger. destruct (ld_ledger (sg_loads s)) as [g0|] eqn:Hg0.
  2:{ cbn [fst]. rewrite <- Hg0, set_ledger_same. done. }
  assert (Hds : Forall window_ok [destination]) by by apply list.Forall_singleton.
  destruct (ledger_begin _ _ g0) as [g [p|e|]] eqn:E; cbn [fst].
  - pose proof (ledger_ok_begin _ _ _ _ _ (sk_ledger s Hs g0 Hg0) Hds Hds E) as Hok.
    apply ledger_begin_Ok in E as (_ & -> & -> & _ & Hadm & _); [|done..].
    inversion Hadm as [|? ? ? ? (_ & _ & _ & _ & Hov)]; subst. rewrite list.Forall_forall in Hov.
    assert (Hl : live s = live_windows g0) by (unfold live; by rewrite Hg0).
    pose proof Hs as [? ? ? _ Hlive _]. split; try done.
    + intros ? [= <-]. by eapply ledger_ok_drop.
    + by intros ? [= <-].
    + intros w Hin. apply (intact_ext s _ w Hs); try done. apply Hlive. by rewrite Hl.
    + intros w v Hin [= <-]. destruct (live_ok s w Hs) as [Hwo _]; [by rewrite Hl|]. apply overlaps_apart; try done. by apply Hov.
  - apply ledger_begin_Err in E as ->. rewrite <- Hg0, set_ledger_same. done.
  - pose proof (ledger_begin_no_panic [destination] [destination] g0) as Hn. rewrite E in Hn. done.
Qed.

(** Loading the images of the container. *)
Lemma fit_loaded_intact container_addr media s s' slice cfg entry d w :
  fit_container d slice -> sg_directory s' = Some d -> fit_loaded container_addr media s s' slice cfg entry ->
  w ∈ live s' -> w ∈ live s \/ intact s' w.
Proof.
  intros Hc Hd (f & c & kernel & policy & v & vs & Hf & Hb & _ & [Hi Hl _ _ _ _ _]) Hw. rewrite Hl in Hw.
  apply elem_of_app in Hw as [Hw|Hw]; [by left|]. right.
  apply list_elem_of_lookup in Hw as [i Hw]. destruct (list.Forall2_lookup_r _ _ _ _ _ Hi Hw) as (node & Hn & bytes & Hda & Hco & Ha & Hlen & Hby & _).
  apply list_elem_of_lookup_2 in Hn. destruct (boot_nodes_in _ _ _ _ _ Hb Hn) as (name & Hnm & Him).
  exists d. split; [done|]. right. exists bytes. split; [|done]. exists slice, f, cfg, c, name, node. split_and!; try done. apply Hb.
Qed.

Lemma load_fit_spec container_addr media cfg mem s scratch s' scratch' r :
  wf media -> mem_ok mem -> stage_ok s ->
  load_fit_components_with_scratch try_reserve container_addr media cfg mem (s, scratch) = ((s', scratch'), r) ->
  let found := find_ffs_file_data_with_scratch try_reserve s media Manifest.FitImage mem scratch in
  stage_ok s' /\ same_context s s' /\ scratch' = fst found /\ same_arena scratch scratch' /\
  match r with
  | Ok entry => exists d slice, snd found = Ok slice /\ sg_directory s = Some d /\ fit_container d slice /\
      fit_loaded container_addr media s s' slice cfg entry
  | Err _ => s' = s
  | Panic => s' = s /\ forall slice, snd found = Ok slice -> usize_max < zlen slice + 3
  end.
Proof.
  intros Hm Hmem Hs H found. unfold load_fit_components_with_scratch in H. fold found in H. destruct found as [sc fr] eqn:E. unfold found in E.
  apply (container_found (wf := wf)) in E as [Har Hc]; [|done|done|intros d Hd; exact (da_bytes _ _ _ _ (sk_directory s Hs d Hd))].
  destruct fr as [slice|e|]; [|injection H as <- <- <-; split_and!; try done; by intros ? [=]..].
  destruct (load_container _ _ _ _ _) as [s1 r1] eqn:El. injection H as <- <- <-. destruct (Hc slice eq_refl) as (d & Hd & Hfc).
  apply load_container_spec in El; [|apply (sk_ledger s Hs)|intros v; by apply workspace_window].
  destruct r1 as [entry|e|]; [|subst; by split_and!|destruct El as [-> El]; split_and!; try done; by intros ? [= <-]].
  destruct El as (Hsame & Hl & Hg & Hmo). split_and!; try done; [|by exists d, slice].
  pose proof Hsame as (Hdir & Hwk & _). pose proof Hs as [Hram _ Hdirs Hws Hlive Hclear].
  assert (Hold : forall w, w ∈ live s -> intact s1 w).
  { intros w Hw. apply (intact_ext s s1 w Hs); [done| |by apply Hlive]. intros a. by eapply fit_loaded_keeps. }
  split; rewrite ?Hdir, ?Hwk; try done.
  - apply Hmo; [apply Hfc|done].
  - intros w Hw. eapply fit_loaded_intact in Hw as [?|?]; [by apply Hold|done|done|by rewrite Hdir|done].
  - intros w v Hw Hv. unfold workspace_destination in Hv. rewrite Hwk in Hv.
    destruct Hl as (f & c & kernel & policy & x & xs & _ & _ & _ & [_ Hj _ Hap _ _ _]). rewrite Hj in Hw.
    apply elem_of_app in Hw as [?|?]; [by apply Hclear|by apply Hap].
Qed.

(** Preparing the device tree stays inside the workspace. *)
Lemma prepare_ok fdt_feature source destination patches s :
  patches_ok patches -> stage_ok s -> stage_ok (fst (prepare fdt_feature source destination patches s)).
Proof.
  intros Hp Hs. destruct (sg_workspace s) as [config|] eqn:Hk; [|unfold prepare; by rewrite Hk].
  destruct (sk_workspace s Hs config Hk) as [_ Hr].
  destruct (prepare_confined fdt_feature s config source destination patches Hk Hr) as (m & -> & [Ho Hb]).
  { intros g Hg. exact (lk_busy _ _ (sk_ledger s Hs g Hg)). }
  apply (stage_ok_mono s); try done; cbn [set_machine sg_machine ram].
  - apply Hb; [done|apply Hs].
  - apply Hs.
  - intros w a Hw Ha. apply Ho. intros Hv. apply (sk_clear s Hs w (ws_destination config) Hw) with (a := a); [|done..].
    unfold workspace_destination. by rewrite Hk.
Qed.

Lemma stage_step_ok s s' : stage_step s s' -> stage_ok s -> stage_ok s'.
Proof.
  intros H Hs. destruct H as [anchor_data media s Hm Ha|media reference s Hm Hh [? _] [? _]|p c s|window s|source destination s ? Hw
    |media t me s Hm|media name s Hm|container_addr media cfg mem scratch s Hm Hmem|fdt_feature source destination patches s Hp|m s Hm Hk].
  - unfold ensure_context. destruct (sg_directory s) eqn:Hd; [done|].
    destruct (authenticate_boot_root _ _ _ _ _) as [root|e|] eqn:E; [|done..].
    apply authenticate_boot_root_Ok in E; [|done..]. assert (Hwf : directory_wf (r_directory root)).
    { destruct E as (? & ? & ? & ? & _ & _ & _ & _ & _ & _ & _ & Ht). apply (rt_wf _ _ _ Ht). }
    apply install_ok; [done|apply Hwf..|right; by exists root|done].
  - apply install_ok; auto.
  - apply initialized_ledger_ok; [done|]. apply set_load_policy_ledger.
  - apply initialized_ledger_ok; [done|]. unfold grant_load_window. do 3 (case_match; [|by left]). apply set_load_policy_ledger.
  - by apply configure_ok.
  - destruct (load_ffs_file_measured _ _ _ _ _) as [s1 r] eqn:E. by apply load_ffs_file_measured_spec in E as (? & _).
  - destruct (load_ffs_file_by_name _ _ _ _) as [s1 r] eqn:E. by apply load_ffs_file_by_name_spec in E as (? & _).
  - destruct (load_fit_components_with_scratch _ _ _ _ _ _) as [[s1 sc] r] eqn:E. by apply load_fit_spec in E as (? & _).
  - by apply prepare_ok.
  - apply (stage_ok_mono s); try done. apply Hs.
Qed.
End trust.

(** A stage that has just started. *)
Definition stage_new (m : Machine) : Stage := {|
  sg_machine := m; sg_directory := None; sg_asset_reader := false;
  sg_loads := {| ld_policy := None; ld_ledger := None |}; sg_workspace := None |}.

Lemma stage_new_ok {T : Target} {C : Crypto} {D : Dtoolkit} trust_addr trust_data handed m : mem_ok (ram m) ->
  stage_ok trust_addr trust_data handed (stage_new m).
Proof. intros Hm. split; try done. all: intros w; intros; by match goal with H : _ ∈ _ |- _ => apply elem_of_nil in H end. Qed.


Section reach.
Context {T : Target} {C : Crypto} {D : Dtoolkit} {L : DtoolkitLaws} {M : Type} {BM : BootMedia M} {wf : M -> Prop} {BL : BootMediaLaws M wf}.
Context (partial : list Z -> list Z -> list Z) (ffs_signature : bool) (try_reserve : Z -> bool).
Context (trust_addr : Z) (trust_data : list Z) (handed : DirectoryRef -> Prop).

Definition reachable (m : Machine) (s : Stage) : Prop :=
  rtc (stage_step (wf := wf) partial ffs_signature try_reserve trust_addr trust_data handed) (stage_new m) s.

Lemma reachable_ok m s : partial_ok partial -> mem_ok (ram m) -> reachable m s ->
  stage_ok trust_addr trust_data handed s.
Proof.
  intros Hp Hm H. apply (rtc_ind_r (stage_ok trust_addr trust_data handed) (stage_new m)) in H; [done|by apply stage_new_ok|].
  intros s1 s2 _ Hs. by apply (stage_step_ok (wf := wf) partial ffs_signature try_reserve trust_addr trust_data handed Hp s1 s2).
Qed.
End reach.

(** C1: whatever a stage loads, in whatever order, and whichever of its loads fail:
    its directory is one that an authentic root or the trusted predecessor names,
    with the digest they give; the windows of its loads are apart from one another
    and from the workspace of the device tree; and each of them still holds what it
    was loaded with: the verified bytes of a file of that directory, with zeros up to
    its end, or the kernel or the ramdisk that a configuration of the directory's
    authenticated container puts there. *)
Theorem loaded_files_intact {T : Target} {C : Crypto} {D : Dtoolkit} {L : DtoolkitLaws} {M : Type} {BM : BootMedia M} {wf : M -> Prop}
    {BL : BootMediaLaws M wf} partial ffs_signature try_reserve trust_addr trust_data handed m s :
  partial_ok partial -> mem_ok (ram m) ->
  reachable (wf := wf) partial ffs_signature try_reserve trust_addr trust_data handed m s ->
  (forall d, sg_directory s = Some d -> directory_authentic trust_addr trust_data handed d) /\
  all_apart (live s) /\
  (forall w v, w ∈ live s -> workspace_destination s = Some v -> apart w v) /\
  forall w, w ∈ live s -> exists d, sg_directory s = Some d /\
    ((exists seg, directory_segment d seg /\ w = segment_window seg /\
        sha256 (mem_bytes (ram (sg_machine s)) (sr_load_addr seg) (sr_initialized_size seg)) = sr_loaded_digest seg /\
        forall a, sr_load_addr seg + sr_initialized_size seg <= a < sr_load_addr seg + sr_loaded_size seg ->
          ram (sg_machine s) a = 0) \/
     (exists bytes, boot_image_at d w bytes /\ mem_bytes (ram (sg_machine s)) (mw_start w) (zlen bytes) = bytes)).
Proof.
  intros Hp Hm H. apply reachable_ok in H as Hs; [|done..]. split_and!; [apply Hs| |apply Hs|apply Hs].
  unfold live. destruct (ld_ledger (sg_loads s)) as [g|] eqn:Hg; [|done].
  pose proof (lk_apart _ _ (sk_ledger _ _ _ _ Hs g Hg)) as Ha. cbn [fmap option_fmap option_map default] in *.
  by rewrite app_nil_r in Ha.
Qed.


(** ** Witnesses *)

#[local] Existing Instance demo_crypto.

(** An image of one file, an LZ4 stage with a zero tail, and its directory. *)
Definition demo_image_manifest : ImageManifest := {| im_regions :=
  [{| im_name := [0x72; 0x6f]; im_offset := 0x200; im_size := 0x100; im_content := Container
      [{| en_name := [0x6d; 0x61; 0x69; 0x6e]; en_offset := 0; en_size := 0x40; en_content :=
          File StageCode
            [{| sg_name := [0x74]; sg_kind := Code; sg_offset := 8; sg_stored_size := 19;
                sg_initialized_size := 24; sg_stored_digest := sha256 sample_block;
                sg_loaded_digest := sha256 sample_out; sg_loaded_size := 40; sg_in_place_size := 43;
                sg_load_addr := 0x4000; sg_compression := CompressionLz4;
                sg_flags := {| sf_execute := true; sf_write := false; sf_read := true |} |}]
            {| ds_sha256 := Some (replicate 32 3); ds_sha3_256 := None |} |}] |}] |}.

Definition demo_image_directory : list Z :=
  Eval vm_compute in match encode_manifest demo_image_manifest with Ok b => b | _ => [] end.

Definition demo_image : list Z :=
  Eval vm_compute in
    let d := demo_image_directory in d ++ zeros (0x208 - zlen d) ++ sample_block ++ zeros (0x400 - 0x208 - 19).

Definition demo_image_memory : memory :=
  fun a => if (0x1000 <=? a) && (a <? 0x1400) then nth (Z.to_nat (a - 0x1000)) demo_image 0 else 0.
Definition demo_image_media : MemoryMapped LinearMap :=
  {| mm_map := {| lm_base := 0x1000 |}; mm_size := 0x400; mm_mem := demo_image_memory |}.

Definition demo_reference : DirectoryRef :=
  Eval vm_compute in {| dr_offset := 0; dr_size := zlen demo_image_directory; dr_digest := sha256 demo_image_directory |}.

(** Memory that has been used before. *)
Definition demo_dirty : Machine := {| ram := fun _ => 0xaa; log := [] |}.

Definition demo_reserve (n : Z) : bool := true.
Definition demo_stage1 : Stage :=
  fst (install_directory_context demo_reserve demo_image_media demo_reference (stage_new demo_dirty)).
Definition demo_stage2 : Stage :=
  set_loads demo_stage1 (fst (set_load_policy demo_reserve demo_memory_policy Lz4 (sg_loads demo_stage1))).
Definition demo_load : Stage * res unit Z :=
  load_ffs_file_measured no_partial demo_image_media StageCode NONE_MEASUREMENT demo_stage2.


Lemma demo_image_media_wf : mapped_wf demo_image_media.
Proof.
  assert (Hf : bytes_ok demo_image) by (apply (bool_decide_eq_true_1 (bytes_ok demo_image)); vm_compute; reflexivity).
  split; [split; [done|vm_compute; discriminate]|]. intros a. cbn [mm_mem demo_image_media]. unfold demo_image_memory.
  case_match; [by apply nth_byte_ok|done].
Qed.

Lemma no_partial_ok : partial_ok no_partial.
Proof. by intros i o. Qed.

Lemma demo_dirty_ok : mem_ok (ram demo_dirty).
Proof. intros a. unfold byte_ok. cbn. lia. Qed.

Lemma demo_reaches : reachable (wf := mapped_wf) no_partial false demo_reserve 0 [] (eq demo_reference) demo_dirty demo_stage2.
Proof.
  eapply rtc_l.
  { apply (ss_install (wf := mapped_wf) no_partial false demo_reserve 0 [] (eq demo_reference) demo_image_media demo_reference (stage_new demo_dirty));
      [apply demo_image_media_wf|done|vm_compute; split; discriminate|vm_compute; split; discriminate]. }
  apply rtc_once, (ss_policy (wf := mapped_wf) no_partial false demo_reserve 0 [] (eq demo_reference) demo_memory_policy Lz4).
Qed.

(** *** A container *)

Definition demo_container : list Z := be_enc 4 0xd00dfeed ++ be_enc 4 8 ++ [1; 2; 3; 4; 5; 6; 7; 8] ++ [9; 10; 11; 12].

Definition demo_fit_manifest : ImageManifest := {| im_regions :=
  [{| im_name := [0x72; 0x6f]; im_offset := 0x200; im_size := 0x100; im_content := Container
      [{| en_name := [0x66; 0x69; 0x74]; en_offset := 0; en_size := 0x40; en_content :=
          File Manifest.FitImage
            [{| sg_name := [0x74]; sg_kind := ReadOnlyData; sg_offset := 8; sg_stored_size := 20;
                sg_initialized_size := 20; sg_stored_digest := sha256 demo_container;
                sg_loaded_digest := sha256 demo_container; sg_loaded_size := 20; sg_in_place_size := 0;
                sg_load_addr := 0x3200; sg_compression := CompressionNone;
                sg_flags := {| sf_execute := false; sf_write := false; sf_read := true |} |}]
            {| ds_sha256 := Some (replicate 32 3); ds_sha3_256 := None |} |}] |}] |}.

Definition demo_fit_directory : list Z :=
  Eval vm_compute in match encode_manifest demo_fit_manifest with Ok b => b | _ => [] end.
Definition demo_fit_image : list Z :=
  Eval vm_compute in
    let d := demo_fit_directory in d ++ zeros (0x208 - zlen d) ++ demo_container ++ zeros (0x400 - 0x208 - 20).
Definition demo_fit_media : MemoryMapped LinearMap := {|
  mm_map := {| lm_base := 0x1000 |}; mm_size := 0x400;
  mm_mem := fun a => if (0x1000 <=? a) && (a <? 0x1400) then nth (Z.to_nat (a - 0x1000)) demo_fit_image 0 else 0 |}.
Definition demo_fit_reference : DirectoryRef :=
  Eval vm_compute in {| dr_offset := 0; dr_size := zlen demo_fit_directory; dr_digest := sha256 demo_fit_directory |}.

Definition demo_fit_stage1 : Stage :=
  fst (install_directory_context demo_reserve demo_fit_media demo_fit_reference (stage_new demo_dirty)).
Definition demo_fit_stage : Stage :=
  set_loads demo_fit_stage1 (fst (set_load_policy demo_reserve demo_memory_policy Lz4 (sg_loads demo_fit_stage1))).
Definition demo_fit_load : (Stage * option TempRamArena) * res FitBootError Z :=
  load_fit_components_with_scratch demo_reserve 0x9000 demo_fit_media None (fun _ => 0) (demo_fit_stage, None).

Example demo_fit_runs : snd demo_fit_load = Ok 0x4004.
Proof. vm_compute. reflexivity. Qed.

Lemma demo_fit_media_wf : mapped_wf demo_fit_media.
Proof.
  assert (Hf : bytes_ok demo_fit_image) by (apply (bool_decide_eq_true_1 (bytes_ok demo_fit_image)); vm_compute; reflexivity).
  split; [split; [done|vm_compute; discriminate]|]. intros a. cbn [mm_mem demo_fit_media].
  case_match; [by apply nth_byte_ok|done].
Qed.

Lemma demo_fit_reaches :
  reachable (wf := mapped_wf) no_partial false demo_reserve 0 [] (eq demo_fit_reference) demo_dirty demo_fit_stage.
Proof.
  eapply rtc_l.
  { apply (ss_install (wf := mapped_wf) no_partial false demo_reserve 0 [] (eq demo_fit_reference) demo_fit_media demo_fit_reference
      (stage_new demo_dirty)); [apply demo_fit_media_wf|done|vm_compute; split; discriminate|vm_compute; split; discriminate]. }
  apply rtc_once, (ss_policy (wf := mapped_wf) no_partial false demo_reserve 0 [] (eq demo_fit_reference) demo_memory_policy Lz4).
Qed.

(** What holds of every segment of a directory. *)
Lemma directory_segment_all d seg (P : SegmentRecord -> bool) : directory_segment d seg ->
  match manifest_parse (vd_bytes d) with Ok v => forallb P (mv_segments v) | _ => false end = true -> P seg = true.
Proof.
  intros (v & r & e & -> & _ & Hs & _) H. rewrite forallb_forall in H. apply H, list_elem_of_In, (elem_of_segments v e).
  rewrite Hs. left.
Qed.

Lemma demo_fit_after_reaches : reachable (wf := mapped_wf) no_partial false demo_reserve 0 [] (eq demo_fit_reference) demo_dirty
  (fst (fst demo_fit_load)).
Proof.
  eapply rtc_r; [apply demo_fit_reaches|].
  apply (ss_fit (wf := mapped_wf) no_partial false demo_reserve 0 [] (eq demo_fit_reference) 0x9000 demo_fit_media None (fun _ => 0) None
    demo_fit_stage demo_fit_media_wf). intros a. unfold byte_ok. lia.
Qed.

(** One stage holds the decoded file and zeros where memory was dirty, another the
    kernel of its container. *)
Lemma loaded_files_intact_witness :
  live (fst demo_load) = [{| mw_start := 0x4000; mw_len := 40 |}] /\ ram (sg_machine (fst demo_load)) 0x4020 = 0 /\
  exists d bytes, boot_image_at d {| mw_start := 0x4000; mw_len := 8 |} bytes /\
    mem_bytes (ram (sg_machine (fst (fst demo_fit_load)))) 0x4000 (zlen bytes) = bytes.
Proof.
  split; [vm_compute; reflexivity|]. split.
  - destruct (loaded_files_intact (wf := mapped_wf) no_partial false demo_reserve 0 [] (eq demo_reference) demo_dirty
      (fst demo_load) no_partial_ok demo_dirty_ok) as (_ & _ & _ & H).
    { eapply rtc_r; [apply demo_reaches|].
      apply (ss_load_type (wf := mapped_wf) no_partial false demo_reserve 0 [] (eq demo_reference) demo_image_media StageCode
        NONE_MEASUREMENT demo_stage2 demo_image_media_wf). }
    destruct (H {| mw_start := 0x4000; mw_len := 40 |}) as (d & Hd & Hw).
    { assert (E : live (fst demo_load) = [{| mw_start := 0x4000; mw_len := 40 |}]) by (vm_compute; reflexivity). rewrite E. by left. }
    assert (Hi : match sg_directory (fst demo_load) with
      | Some d => match manifest_parse (vd_bytes d) with
                  | Ok v => forallb (fun s => sr_initialized_size s =? 24) (mv_segments v)
                  | _ => false
                  end = true /\ match manifest_parse (vd_bytes d) with
                  | Ok v => match find_file_by_type v Manifest.FitImage with Ok _ => False | _ => True end
                  | _ => False
                  end
      | None => False end) by (vm_compute; split; exact I || reflexivity).
    rewrite Hd in Hi. destruct Hi as [Hi Hno]. destruct Hw as [(seg & Hs & Hw & _ & Hz)|(bytes & (slice & ? & ? & ? & ? & ? & Hc & _) & _)].
    + injection Hw as Ha Hl. rewrite <- Ha, <- Hl in Hz. apply Hz.
      apply (directory_segment_all _ _ (fun s => sr_initialized_size s =? 24)) in Hs; [|exact Hi].
      apply Z.eqb_eq in Hs. lia.
    + destruct Hc as (_ & v & file & seg & Hv & Hf & _). by rewrite Hv, Hf in Hno.
  - destruct (loaded_files_intact (wf := mapped_wf) no_partial false demo_reserve 0 [] (eq demo_fit_reference) demo_dirty
      (fst (fst demo_fit_load)) no_partial_ok demo_dirty_ok demo_fit_after_reaches) as (_ & _ & _ & H).
    destruct (H {| mw_start := 0x4000; mw_len := 8 |}) as (d & Hd & Hw).
    { assert (E : live (fst (fst demo_fit_load)) = [{| mw_start := 0x4000; mw_len := 8 |}; {| mw_start := 0x4100; mw_len := 4 |}])
        by (vm_compute; reflexivity). rewrite E. by left. }
    assert (Hi : match sg_directory (fst (fst demo_fit_load)) with
      | Some d => match manifest_parse (vd_bytes d) with
                  | Ok v => forallb (fun s => sr_load_addr s =? 0x3200) (mv_segments v)
                  | _ => false
                  end = true
      | None => False end) by (vm_compute; reflexivity).
    rewrite Hd in Hi. destruct Hw as [(seg & Hs & Hw & _)|(bytes & Hb & Hm)]; [exfalso|exists d, bytes; split; [exact Hb|exact Hm]].
    injection Hw as Ha _.
    apply (directory_segment_all _ _ (fun s => sr_load_addr s =? 0x3200)) in Hs; [|exact Hi].
    apply Z.eqb_eq in Hs. lia.
Defined.

