(* ===== verification/StageFit.v ===== *)
(** * StageFit: loading the container of a stage

    The load of [FitLoad.v] on the states of [StageLoads.v]. *)

From S2P Require Import Prelude.
From S2P Require Import Bytes.
From S2P Require Import Services.
From S2P Require Import Crypto.
From S2P Require Import Root.
From S2P Require Import Manifest.
From S2P Require Import Memory.
From S2P Require Import BootMedia.
From S2P Require Import Load.
From S2P Require Import Ledger.
From S2P Require Import LoadPolicy.
From S2P Require Import Stage.
From S2P Require Import StageFiles.
From S2P Require Import Fit.
From S2P Require Import FitLoad.
From S2P Require Import FdtWorkspace.
From S2P Require Import FdtConfined.
From S2P Require Import StageLoads.
From Stdlib Require Import ZArith Lia.
From stdpp Require Import base numbers list option relations strings.

#[local] Open Scope Z_scope.

(** C3: Loading a flattened image tree, on any state a stage can reach.  Success
    means that the container is the one file of its kind in the directory, with the
    digest the directory gives, and that the kernel of its configuration is in
    memory, uncompressed and unchanged, at the address it names, and so is the
    ramdisk if the configuration names one that the container has (a ramdisk that is
    named but missing is left out without an error): where the policy permits it, and
    apart from the container, from a memory-mapped medium, from everything loaded
    before, from the workspace of the device tree and from the other image.  The
    entry is aligned and inside the kernel, nothing else in memory has changed, and
    everything loaded before is intact.  An error has changed nothing, and the arena
    of temporary memory is always the one the search for the container leaves: the
    same memory, of which more may be used. *)
Theorem load_fit_outcome {T : Target} {C : Crypto} {D : Dtoolkit} {L : DtoolkitLaws} {M : Type} {BM : BootMedia M} {wf : M -> Prop}
    {BL : BootMediaLaws M wf} partial ffs_signature try_reserve trust_addr trust_data handed m s
    container_addr media cfg mem scratch s' scratch' r :
  partial_ok partial -> mem_ok (ram m) -> wf media -> mem_ok mem ->
  reachable (wf := wf) partial ffs_signature try_reserve trust_addr trust_data handed m s ->
  load_fit_components_with_scratch try_reserve container_addr media cfg mem (s, scratch) = ((s', scratch'), r) ->
  let found := find_ffs_file_data_with_scratch try_reserve s media Manifest.FitImage mem scratch in
  scratch' = fst found /\ same_arena scratch scratch' /\
  match r with
  | Ok entry => same_context s s' /\ (forall w, w ∈ live s -> intact s' w) /\
      exists d slice, snd found = Ok slice /\ sg_directory s = Some d /\ fit_container d slice /\
        fit_loaded container_addr media s s' slice cfg entry
  | Err _ => s' = s
  | Panic => s' = s /\ forall slice, snd found = Ok slice -> usize_max < zlen slice + 3
  end.
Proof.
  intros Hp Hm Hmed Hmem H Hrun found. apply reachable_ok in H as Hs; [|done..].
  apply (load_fit_spec (wf := wf) try_reserve trust_addr trust_data handed) in Hrun as (_ & Hc & Hsc & Har & Hr); [|done..].
  fold found in Hsc, Hr. split_and!; [done..|]. destruct r as [entry|e|]; [|done..].
  split_and!; [done| |done]. intros w Hw. destruct Hr as (d & slice & _ & _ & _ & Hl).
  apply (intact_ext trust_addr trust_data handed s); [done|apply Hc| |by apply Hs]. intros a. by eapply fit_loaded_keeps.
Qed.

#[local] Existing Instance demo_crypto.

(** The entry behind the start of the kernel, and the ramdisk. *)
Lemma load_fit_outcome_witness :
  live demo_fit_stage = [] /\ exists s' d slice,
    load_fit_components demo_reserve 0x9000 demo_fit_media None demo_fit_stage = (s', Ok 0x4004) /\
    sg_directory demo_fit_stage = Some d /\ fit_container d slice /\
    fit_loaded 0x9000 demo_fit_media demo_fit_stage s' slice None 0x4004.
Proof.
  split; [vm_compute; reflexivity|].
  destruct demo_fit_load as [[s' scratch'] r] eqn:E.
  assert (Hr : r = Ok 0x4004) by (change r with (snd ((s', scratch'), r)); rewrite <- E; exact demo_fit_runs). subst r. unfold demo_fit_load in E.
  destruct (load_fit_outcome (wf := mapped_wf) no_partial false demo_reserve 0 [] (eq demo_fit_reference) demo_dirty
    demo_fit_stage 0x9000 demo_fit_media None (fun _ => 0) None s' scratch' (Ok 0x4004) no_partial_ok demo_dirty_ok
    demo_fit_media_wf ltac:(intros a; unfold byte_ok; lia) demo_fit_reaches E) as (_ & _ & _ & _ & d & slice & _ & Hd & Hc & Hl).
  exists s', d, slice. split; [|split; [exact Hd|split; [exact Hc|exact Hl]]].
  unfold load_fit_components. rewrite E. reflexivity.
Defined.
