(* ===== verification/FdtWorkspaceTree.v ===== *)
(** * FdtWorkspaceTree: what preparing does to the device tree

    A blob with a header of version 17 passes the checks of [FdtWorkspace]; its
    copy in the workspace holds the same tree; the two patches then set the boot
    arguments and the memory of that tree. *)

From S2P Require Import Prelude.
From S2P Require Import Bytes.
From S2P Require Import Services.
From S2P Require Import Memory.
From S2P Require Import BootMedia.
From S2P Require Import Load.
From S2P Require Import Ledger.
From S2P Require Import LoadPolicy.
From S2P Require Import Fdt.
From S2P Require Import FdtTree.
From S2P Require Import FdtPatch.
From S2P Require Import FdtMemory.
From S2P Require Import FdtMemoryTree.
From S2P Require Import Stage.
From S2P Require Import FdtWorkspace.
From S2P Require Import FdtConfined.
From Stdlib Require Import ZArith Lia.
From stdpp Require Import base numbers list option.

#[local] Open Scope Z_scope.

(** ** The header *)

(** The reserved fields are those of version 17, and the memory reservations,
    closed by an empty one, lie in front of the structure. *)
Inductive version17 (b : Blob) : Prop :=
| version17_intro pre records post last_compatible cpu :
    bl_fixed b = be_enc 4 (40 + zlen pre) ++ be_enc 4 17 ++ be_enc 4 last_compatible ++ be_enc 4 cpu ->
    0 <= last_compatible <= 17 -> zlen pre mod 8 = 0 ->
    bl_rsv b = pre ++ concat records ++ zeros 16 ++ post ->
    Forall (fun r => zlen r = 16 /\ r <> zeros 16) records -> version17 b.

Section header.
Context {T : Target}.

Lemma get_range_at (a k c : list Z) : get_range (a ++ k ++ c) (zlen a) (zlen a + zlen k) = Some k.
Proof.
  pose proof (zlen_nonneg a). pose proof (zlen_nonneg k). pose proof (zlen_nonneg c).
  unfold get_range. rewrite !zlen_app. guard_true. rewrite sub_app_r, Z.sub_diag, Z.add_simpl_l by lia.
  by rewrite sub_app_exact.
Qed.

(** A header is a sequence of words. *)
Definition header_words (l : list Z) : list Z := concat (map (be_enc 4) l).

Lemma zlen_header_words l : zlen (header_words l) = 4 * zlen l.
Proof.
  induction l as [|v l IH]; [done|]. unfold header_words in *. cbn [map concat]. rewrite zlen_app, zlen_be_enc, IH, zlen_cons. lia.
Qed.

Lemma be32_word l i v rest : l !! i = Some v -> 0 <= v < 2 ^ 32 ->
  be32 (header_words l ++ rest) (4 * Z.of_nat i) = Ok v.
Proof.
  intros Hi Hv. rewrite <- (take_drop_middle l i v Hi). unfold header_words. rewrite map_app, concat_app. cbn [map concat].
  rewrite <- !app_assoc. set (a := concat (map (be_enc 4) (take i l))).
  assert (Ha : zlen a = 4 * Z.of_nat i).
  { unfold a. pose proof (zlen_header_words (take i l)) as H. unfold header_words in H. rewrite H.
    apply lookup_lt_Some in Hi. unfold zlen. rewrite length_take. lia. }
  rewrite <- Ha. unfold be32.
  pose proof (get_range_at a (be_enc 4 v) (concat (map (be_enc 4) (drop (S i) l)) ++ rest)) as H. rewrite zlen_be_enc in H.
  change (Z.of_nat 4) with 4 in H. rewrite H. cbn [ok_or rbind]. by rewrite be_dec_enc.
Qed.

Lemma reservations_end_at records : forall fuel a post,
  Forall (fun r => zlen r = 16 /\ r <> zeros 16) records -> (length records < fuel)%nat ->
  zlen (a ++ concat records ++ zeros 16 ++ post) <= usize_max ->
  reservations_end fuel (a ++ concat records ++ zeros 16 ++ post) (zlen a) = Ok (zlen a + zlen (concat records) + 16).
Proof.
  induction records as [|r records IH]; intros [|fuel] a post Hr Hf Hm; cbn [length] in Hf; try lia;
    cbn [reservations_end concat app] in *.
  - rewrite !zlen_app in Hm. pose proof (zlen_nonneg post). change (zlen (zeros 16)) with 16 in Hm.
    rewrite checked_add_ok by lia. cbn [ok_or rbind]. pose proof (get_range_at a (zeros 16) post) as Hg.
    change (zlen (zeros 16)) with 16 in Hg. rewrite Hg. cbn [ok_or rbind].
    rewrite (proj2 (bytes_eqb_true _ _)) by done. f_equal. change (zlen []) with 0. lia.
  - apply list.Forall_cons in Hr as [[Hr16 Hrz] Hr]. rewrite <- app_assoc in *.
    pose proof (get_range_at a r (concat records ++ zeros 16 ++ post)) as Hg. rewrite Hr16 in Hg.
    pose proof (zlen_nonneg (concat records ++ zeros 16 ++ post)).
    rewrite checked_add_ok by (rewrite !zlen_app in *; lia). cbn [ok_or rbind]. rewrite Hg. cbn [ok_or rbind].
    rewrite (proj2 (bytes_eqb_false _ _)) by done. rewrite app_assoc in *.
    replace (zlen a + 16) with (zlen (a ++ r)) by (rewrite zlen_app; lia).
    rewrite IH by (try done; lia). f_equal. rewrite !zlen_app, Hr16. lia.
Qed.

Lemma block_end_at bytes start size : start + size <= zlen bytes -> zlen bytes <= usize_max ->
  block_end bytes start size = Ok (start + size).
Proof. intros H1 H2. unfold block_end. rewrite checked_add_ok by lia. guard_true. done. Qed.

(** The bytes in use end behind the strings. *)
Definition bl_used (b : Blob) : Z := bl_strings_off b + zlen (bl_strings b).

Lemma used_size_blob b : blob_ok b -> version17 b -> zlen (blob_bytes b) = bl_total b -> zlen (blob_bytes b) <= usize_max ->
  used_size (blob_bytes b) = Ok (bl_used b).
Proof.
  intros Hok [pre records post lc cpu Hfix Hlc Hpre Hrsv Hrec] Hz Hm. destruct (blob_sizes b Hok) as (H40 & Hso & Hst & Hsz).
  pose proof (zlen_nonneg (bl_strings b)). pose proof (zlen_nonneg (struct_bytes (bl_items b))).
  pose proof (zlen_nonneg pre). pose proof (zlen_nonneg post). pose proof (zlen_nonneg (concat records)).
  assert (Hrz : bl_struct_off b = 40 + zlen pre + zlen (concat records) + 16 + zlen post).
  { unfold bl_struct_off. rewrite Hrsv, !zlen_app. change (zlen (zeros 16)) with 16. lia. }
  set (l := [FDT_MAGIC; bl_total b; bl_struct_off b; bl_strings_off b; 40 + zlen pre; 17; lc; cpu; zlen (bl_strings b);
    zlen (struct_bytes (bl_items b))]).
  assert (Hb : blob_bytes b = header_words l ++ bl_rsv b ++ struct_bytes (bl_items b) ++ bl_mid b ++ bl_strings b ++ bl_tail b).
  { unfold blob_bytes. rewrite Hfix. unfold header_words, l. cbn [map concat]. by rewrite <- !app_assoc. }
  assert (Hw : forall off i v, off = 4 * Z.of_nat i -> l !! i = Some v -> 0 <= v < 2 ^ 32 -> be32 (blob_bytes b) off = Ok v)
    by (intros off i v -> ? ?; rewrite Hb; by apply be32_word).
  assert (Hres : reservations_end (S (length (blob_bytes b))) (blob_bytes b) (40 + zlen pre) = Ok (40 + zlen pre + zlen (concat records) + 16)).
  { replace (40 + zlen pre) with (zlen (header_words l ++ pre)) by (rewrite zlen_app, zlen_header_words; change (zlen l) with 10; lia).
    rewrite Hb, Hrsv. set (c := post ++ struct_bytes (bl_items b) ++ bl_mid b ++ bl_strings b ++ bl_tail b).
    replace (header_words l ++ (pre ++ concat records ++ zeros 16 ++ post) ++ struct_bytes (bl_items b) ++ bl_mid b ++ bl_strings b ++ bl_tail b)
      with ((header_words l ++ pre) ++ concat records ++ zeros 16 ++ c) by (unfold c; by rewrite <- !app_assoc).
    apply reservations_end_at; [done| |].
    - assert (Z.of_nat (length records) <= zlen (concat records)).
      { clear - Hrec. induction Hrec as [|r rs [Hr _] _ IH]; [done|]. cbn [concat length]. rewrite zlen_app. lia. }
      unfold zlen in *. rewrite !length_app. lia.
    - rewrite Hb, Hrsv, !zlen_app in Hm. unfold c. rewrite !zlen_app. lia. }
  assert (Hov : any_overlap [] [header_block (bl_struct_off b) (bl_struct_off b + zlen (struct_bytes (bl_items b)));
      header_block (bl_strings_off b) (bl_strings_off b + zlen (bl_strings b));
      header_block (40 + zlen pre) (40 + zlen pre + zlen (concat records) + 16)] = false).
  { cbn [any_overlap existsb app]. rewrite !orb_false_r. cbn [orb]. rewrite !orb_false_iff, !overlaps_false.
    unfold header_block. cbn [mw_start mw_len]. unfold u64_max. lia. }
  unfold used_size. guard_false.
  rewrite (Hw 0 0%nat _ eq_refl eq_refl) by done. cbn [rbind]. change (FDT_MAGIC =? 0xd00dfeed) with true. cbn [negb].
  rewrite (Hw 4 1%nat _ eq_refl eq_refl) by lia. cbn [rbind]. guard_false.
  rewrite (Hw 20 5%nat _ eq_refl eq_refl) by done. cbn [rbind]. guard_false.
  rewrite (Hw 24 6%nat _ eq_refl eq_refl) by lia. cbn [rbind]. guard_false.
  rewrite (Hw 8 2%nat _ eq_refl eq_refl) by lia. cbn [rbind].
  rewrite (Hw 12 3%nat _ eq_refl eq_refl) by lia. cbn [rbind].
  rewrite (Hw 16 4%nat _ eq_refl eq_refl) by lia. cbn [rbind].
  assert (Hs4 : bl_struct_off b mod 4 = 0) by (pose proof (bo_rsv b Hok); unfold bl_struct_off; Z.div_mod_to_equations; lia).
  assert (Hp8 : (40 + zlen pre) mod 8 = 0) by (Z.div_mod_to_equations; lia).
  rewrite Hs4, Hp8. guard_false.
  rewrite (Hw 36 9%nat _ eq_refl eq_refl) by lia. cbn [rbind]. rewrite block_end_at by lia. cbn [rbind].
  rewrite (Hw 32 8%nat _ eq_refl eq_refl) by lia. cbn [rbind]. rewrite block_end_at by lia. cbn [rbind].
  rewrite Hres. cbn [rbind]. rewrite Hov. f_equal. unfold bl_used. lia.
Qed.
End header.

(** ** The copy *)

(** The blob without what it does not use, in a buffer with other bytes behind. *)
Definition bl_copied (b : Blob) (tail : list Z) : Blob := {|
  bl_total := bl_used b; bl_fixed := bl_fixed b; bl_rsv := bl_rsv b; bl_items := bl_items b; bl_mid := bl_mid b;
  bl_strings := bl_strings b; bl_tail := tail |}.

(** All behind the size. *)
Definition bl_rest (b : Blob) : list Z :=
  be_enc 4 (bl_struct_off b) ++ be_enc 4 (bl_strings_off b) ++
  bl_fixed b ++ be_enc 4 (zlen (bl_strings b)) ++ be_enc 4 (zlen (struct_bytes (bl_items b))) ++
  bl_rsv b ++ struct_bytes (bl_items b) ++ bl_mid b ++ bl_strings b.

Section copy.
Context {T : Target}.

Lemma blob_rest b : blob_bytes b = be_enc 4 FDT_MAGIC ++ be_enc 4 (bl_total b) ++ bl_rest b ++ bl_tail b.
Proof. unfold blob_bytes, bl_rest. by rewrite <- !app_assoc. Qed.

Lemma zlen_rest b : blob_ok b -> zlen (bl_rest b) = bl_used b - 8.
Proof.
  intros Hok. unfold bl_rest. rewrite !zlen_app, !zlen_be_enc, (bo_fixed b Hok). unfold bl_used, bl_strings_off, bl_struct_off. lia.
Qed.

Lemma zlen_blob b : blob_ok b -> zlen (blob_bytes b) = bl_used b + zlen (bl_tail b).
Proof. intros Hok. rewrite blob_rest, !zlen_app, !zlen_be_enc, zlen_rest by done. lia. Qed.

Lemma used_bounds b : blob_ok b -> 40 <= bl_used b <= bl_total b /\ bl_total b < 2 ^ 32.
Proof.
  intros Hok. destruct (blob_sizes b Hok) as (? & ? & ? & ?). unfold bl_used. pose proof (zlen_nonneg (bl_strings b)).
  pose proof (zlen_nonneg (struct_bytes (bl_items b))). lia.
Qed.

Lemma copied_holds b tail t : holds b t -> holds (bl_copied b tail) t.
Proof.
  intros [Hok Ht]. split; [|exact Ht]. destruct (used_bounds b Hok) as [? ?].
  assert (Hz : zlen (blob_bytes (bl_copied b tail)) = bl_used b + zlen tail).
  { rewrite blob_rest, !zlen_app, !zlen_be_enc. change (bl_rest (bl_copied b tail)) with (bl_rest b). rewrite zlen_rest by done.
    cbn [bl_copied bl_tail]. lia. }
  split; try apply Hok.
  - cbn [bl_copied bl_total]. unfold bl_used. done.
  - rewrite Hz. cbn [bl_copied bl_total]. pose proof (zlen_nonneg tail). lia.
  - cbn [bl_copied bl_total]. lia.
Qed.

Lemma copy_tree_copies b source destination capacity m :
  blob_ok b -> mem_bytes m source (zlen (blob_bytes b)) = blob_bytes b -> destination + 4 <= u64_max -> bl_used b <= capacity ->
  exists m' tail, copy_tree source destination (bl_used b) m = (m', Ok tt) /\
    mem_bytes m' destination capacity = blob_bytes (bl_copied b tail) /\
    forall a, ~ destination <= a < destination + capacity -> m' a = m a.
Proof.
  intros Hok Hsrc Hd Hcap. destruct (used_bounds b Hok) as [Hu _]. pose proof (zlen_blob b Hok) as Hz. pose proof (zlen_rest b Hok) as Hr.
  pose proof (zlen_nonneg (bl_tail b)).
  assert (Hhead : mem_bytes m source (bl_used b) = be_enc 4 FDT_MAGIC ++ be_enc 4 (bl_total b) ++ bl_rest b).
  { pose proof (sub_mem_bytes m source (zlen (blob_bytes b)) 0 (bl_used b)) as Hs. rewrite Z.add_0_r in Hs.
    rewrite <- Hs, Hsrc by lia. rewrite blob_rest, !app_assoc. apply sub_app_exact. rewrite !zlen_app, !zlen_be_enc. lia. }
  unfold copy_tree. rewrite Hhead. set (head := _ ++ _). assert (Hhz : zlen head = bl_used b)
    by (unfold head; rewrite !zlen_app, !zlen_be_enc; lia).
  unfold add_or_panic. rewrite checked_add_ok by done. cbn [or_panic].
  set (m1 := mem_write m destination head). eexists _, (drop (length head) (mem_bytes m destination capacity)). split; [reflexivity|]. split.
  - rewrite mem_bytes_write_inside by (rewrite ?zlen_be_enc; lia).
    assert (Hm1 : mem_bytes m1 destination capacity = head ++ drop (length head) (mem_bytes m destination capacity)).
    { pose proof (mem_bytes_write_inside m destination capacity 0 head) as Hw. rewrite Z.add_0_r in Hw. unfold m1. rewrite Hw by lia. done. }
    rewrite Hm1. unfold head at 1. rewrite <- !app_assoc.
    rewrite (upd_middle (be_enc 4 FDT_MAGIC) (be_enc 4 (bl_total b)) _ (be_enc 4 (bl_used b))) by (by rewrite !zlen_be_enc).
    by rewrite blob_rest.
  - intros a Ha. rewrite mem_write_out by (rewrite zlen_be_enc; lia). unfold m1. apply mem_write_out. lia.
Qed.
End copy.

(** ** How much the boot arguments take *)

Ltac fdt_step H :=
  match type of H with
  | sbind _ _ _ = _ =>
      let x := fresh "x" in let s := fresh "s" in let Hx := fresh "Hx" in
      apply sbind_Ok in H; destruct H as (x & s & Hx & H)
  | slift _ _ = _ => apply slift_Ok in H; destruct H as [-> H]
  | (if ?b then _ else _) _ = _ => let Hb := fresh "Hb" in destruct b eqn:Hb
  end.

Section size.
Context {T : Target}.

Lemma uadd_Ok a b buf buf' n : uadd a b buf = (buf', Ok n) -> buf' = buf /\ n = a + b.
Proof.
  unfold uadd, slift, add_or_panic, checked_add. destruct (_ <=? _); [|done]. by intros [= <- <-].
Qed.

Lemma align4_Ok a buf buf' n : align4 a buf = (buf', Ok n) -> buf' = buf /\ n <= a + 3.
Proof.
  unfold align4. intros H. fdt_step H. apply uadd_Ok in Hx as [-> ->]. apply slift_Ok in H as [-> [= <-]]. split; [done|].
  change (Z.ldiff (a + 3) 3) with (Z.ldiff (a + 3) (Z.ones 2)).
  rewrite Z.ldiff_ones_r, Z.shiftl_mul_pow2, Z.shiftr_div_pow2 by lia. change (2 ^ 2) with 4. Z.div_mod_to_equations. lia.
Qed.

Lemma insert_bootargs_size max total sto ss sz off args buf buf' n :
  insert_bootargs max total sto ss sz off args buf = (buf', Ok n) -> n <= total + zlen args + 25.
Proof.
  intros H. unfold insert_bootargs in H. fdt_step H.
  assert (Hadd : exists o add, match x with Some o => (o, 0) | None => (ss, 9) end = (o, add) /\ add <= 9)
    by (destruct x; eexists _, _; (split; [reflexivity|lia])).
  destruct Hadd as (o & add & Heq & Hadd). rewrite Heq in H.
  do 4 fdt_step H. apply uadd_Ok in Hx0 as [-> ->], Hx2 as [-> ->], Hx3 as [-> ->]. apply align4_Ok in Hx1 as [-> ?].
  fdt_step H; [by apply slift_Ok in H as [_ ?]|].
  do 10 fdt_step H. apply slift_Ok in H as [_ [= <-]]. lia.
Qed.

Lemma fdt_set_bootargs_size max args buf buf' n :
  fdt_set_bootargs max args buf = (buf', Ok n) ->
  exists total, snd (read_be32 HDR_TOTALSIZE buf) = Ok total /\ n <= total + zlen args + 25.
Proof.
  intros H. unfold fdt_set_bootargs in H. fdt_step H. fdt_step H; [by apply slift_Ok in H as [_ ?]|].
  unfold read_be32 in Hx at 1. injection Hx as -> _.
  fdt_step H. exists x0. split; [by rewrite Hx|]. pose proof (zlen_nonneg args).
  do 4 fdt_step H. unfold patch_chosen in H. do 6 fdt_step H. unfold patch_found in H.
  destruct (fo_existing _) as [[o l]|]; [|by eapply insert_bootargs_size].
  fdt_step H; [|fdt_step H; by eapply insert_bootargs_size].
  unfold overwrite_bootargs in H. do 4 fdt_step H. apply slift_Ok in H as [_ [= <-]]. lia.
Qed.
End size.

(** ** The tree in the workspace *)

Section patched.
Context {T : Target} (config : Workspace).
Context (Hd : workspace_range_ok (ws_destination config) = true).

Let destination := mw_start (ws_destination config).
Let capacity := mw_len (ws_destination config).

Lemma capacity_small : 40 <= capacity /\ capacity + 8192 + 64 <= usize_max.
Proof.
  destruct (workspace_range_spec _ Hd) as (_ & _ & [? Hi] & _). unfold capacity. split; [done|].
  unfold isize_max, usize_max in *. destruct usize_bits_ok as [E|E]; rewrite E in *; lia.
Qed.

Context (H32 : mw_len (ws_destination config) < 2 ^ 32).

Lemma bootargs_applied b rn rps k1 cks k2 cps args m :
  holds b (with_chosen rn rps k1 cks k2 cps) -> Forall (fun t => tree_name t <> s_chosen) k2 ->
  mem_bytes m destination capacity = blob_bytes b -> bl_total b + zlen args + 25 <= capacity -> zlen args <= 8192 ->
  (forall p1 old p2, cps = p1 ++ (s_bootargs, old) :: p2 -> Forall (fun p => p.1 <> s_bootargs) p2 ->
     zlen args + 1 <= zlen old -> words (zlen args + 1) = words (zlen old)) ->
  exists m' b' cps', on_workspace destination capacity (fdt_set_bootargs capacity args) m = (m', Ok tt) /\
    (forall a, ~ destination <= a < destination + capacity -> m' a = m a) /\
    mem_bytes m' destination capacity = blob_bytes b' /\ bl_total b' <= bl_total b + zlen args + 25 /\
    holds b' (with_chosen rn rps k1 cks k2 cps') /\ bootargs_set args cps cps'.
Proof.
  intros Hh Hk2 Hm Hroom Hargs Hw. pose proof capacity_small as [H40 Hus].
  assert (Hz : zlen (blob_bytes b) = capacity) by (rewrite <- Hm; apply zlen_mem_bytes; lia).
  pose proof (set_bootargs_sets b rn rps k1 cks k2 cps capacity args Hh Hk2) as H.
  assert (H1 : capacity <= zlen (blob_bytes b)) by lia. assert (H2 : zlen (blob_bytes b) + zlen args + 64 <= usize_max) by lia.
  specialize (H H1 H32 H2 Hw). destruct (fdt_set_bootargs capacity args (blob_bytes b)) as [buf [n|e|]] eqn:E; [| |done].
  - destruct H as (b' & cps' & -> & -> & Hh' & Hset). pose proof E as Hsize. apply fdt_set_bootargs_size in Hsize as (t & Ht & Hle).
    destruct (read_header b (proj1 Hh)) as (_ & R & _). rewrite R in Ht. injection Ht as <-.
    rewrite <- Hm in E. apply (on_workspace_Ok (B := False)) in E as (m' & Hon & Hm' & Ho); [|by apply keeps_set_bootargs|lia].
    exists m', b', cps'. done.
  - destruct H as (_ & Hlt & _). lia.
Qed.

Lemma memory_applied b rn rps kids base size m :
  holds b (Node rn rps kids) -> mem_bytes m destination capacity = blob_bytes b -> bl_total b + 96 <= capacity ->
  0 <= base <= u64_max ->
  cells_ok (root_cells s_address_cells rps) = true -> cells_ok (root_cells s_size_cells rps) = true ->
  exists m' b' kids', on_workspace destination capacity (fdt_set_memory capacity base size) m = (m', Ok tt) /\
    (forall a, ~ destination <= a < destination + capacity -> m' a = m a) /\
    mem_bytes m' destination capacity = blob_bytes b' /\ holds b' (Node rn rps kids') /\
    memory_set base (reg_value base size (root_cells s_address_cells rps) (root_cells s_size_cells rps)) kids kids'.
Proof.
  intros Hh Hm Hroom Hbase Hac Hsc. pose proof capacity_small as [H40 Hus].
  assert (Hz : zlen (blob_bytes b) = capacity) by (rewrite <- Hm; apply zlen_mem_bytes; lia).
  pose proof (set_memory_tree b rn rps kids capacity base size Hh) as H. cbn zeta in H.
  assert (H1 : capacity <= zlen (blob_bytes b)) by lia. assert (H2 : zlen (blob_bytes b) + 256 <= usize_max) by lia.
  specialize (H H1 H32 H2 Hbase). destruct (fdt_set_memory capacity base size (blob_bytes b)) as [buf [n|e|]] eqn:E; [| |done].
  - destruct H as (_ & _ & b' & kids' & -> & _ & Hh' & Hset).
    rewrite <- Hm in E. apply (on_workspace_Ok (B := False)) in E as (m' & Hon & Hm' & Ho); [|apply keeps_set_memory|lia].
    exists m', b', kids'. done.
  - exfalso. destruct e; try done; destruct H as [? H]; [lia|]. destruct H; congruence.
Qed.
End patched.

(** ** The whole preparation *)

(** A blob of version 17 is at an address in one of the registered windows. *)
Record tree_at (s : Stage) (config : Workspace) (source : Z) (b : Blob) : Prop := {
  ta_aligned : source mod 4 = 0;
  ta_inside : exists w, (w = ws_source config \/ w = ws_destination config) /\
    mw_start w <= source /\ source + bl_total b <= mw_start w + mw_len w;
  ta_bytes : mem_bytes (ram (sg_machine s)) source (bl_total b) = blob_bytes b;
  ta_version : version17 b
}.

(** The workspace is registered and no load is in the way. *)
Record workspace_ready {T : Target} (s : Stage) (config : Workspace) : Prop := {
  wr_workspace : sg_workspace s = Some config;
  wr_source : workspace_range_ok (ws_source config) = true;
  wr_destination : workspace_range_ok (ws_destination config) = true;
  wr_size : mw_len (ws_destination config) < 2 ^ 32;
  wr_idle : idle s;
  wr_admitted : exists g p, begin_fdt (ws_destination config) (ld_ledger (sg_loads s)) = (g, Ok p)
}.

Section prepare.
Context {T : Target}.

Lemma range_contains_true w a n : workspace_range_ok w = true -> range_contains w a n =
  Ok ((mw_start w <=? a) && (a + n <=? mw_start w + mw_len w)).
Proof.
  intros Hw. destruct (workspace_range_spec _ Hw) as (_ & _ & _ & He & _). unfold range_contains.
  destruct (mw_start w <=? a); [|done]. unfold checked_add at 1. destruct (Z.leb_spec (a + n) u64_max).
  - unfold add_or_panic. by rewrite checked_add_ok by lia.
  - cbn [andb]. by rewrite (proj2 (Z.leb_gt _ _)) by lia.
Qed.

Lemma in_envelope_true s config source b n : workspace_ready s config -> tree_at s config source b -> n <= bl_total b ->
  in_envelope config source n = Ok true.
Proof.
  intros Hr Ht Hn. destruct (ta_inside _ _ _ _ Ht) as (w & Hw & H1 & H2). unfold in_envelope.
  rewrite !range_contains_true by apply Hr. cbn [rbind].
  assert (Hin : (mw_start w <=? source) && (source + n <=? mw_start w + mw_len w) = true)
    by (apply andb_true_iff; rewrite !Z.leb_le; lia).
  destruct Hw as [-> | ->]; rewrite Hin; [done|]. by case_match.
Qed.

Lemma read_total_blob s config source b : workspace_ready s config -> tree_at s config source b -> blob_ok b ->
  read_total (ram (sg_machine s)) source = Ok (bl_total b).
Proof.
  intros Hr Ht Hok. destruct (used_bounds b Hok). destruct (ta_inside _ _ _ _ Ht) as (w & Hw & H1 & H2).
  assert (mw_start w + mw_len w <= u64_max)
    by (destruct Hw as [-> | ->]; [pose proof (workspace_range_spec _ (wr_source _ _ Hr))|
      pose proof (workspace_range_spec _ (wr_destination _ _ Hr))]; lia).
  unfold read_total, add_or_panic. rewrite checked_add_ok by lia. cbn [or_panic rbind].
  rewrite <- (sub_mem_bytes _ _ (bl_total b) 4 4), (ta_bytes _ _ _ _ Ht), blob_rest by lia.
  rewrite sub_app_r by (rewrite zlen_be_enc; lia). rewrite zlen_be_enc. change (4 - Z.of_nat 4) with 0.
  rewrite sub_app_exact by apply zlen_be_enc. by rewrite be_dec_enc by lia.
Qed.

Lemma measure_source_tree s config source b p : workspace_ready s config -> tree_at s config source b -> blob_ok b ->
  bl_used b + PATCH_GROWTH <= mw_len (ws_destination config) ->
  measure_source config source (Some p) (ram (sg_machine s)) = Ok (bl_used b).
Proof.
  intros Hr Ht Hok Hroom. destruct (used_bounds b Hok). unfold measure_source. rewrite (read_total_blob _ _ _ _ Hr Ht Hok).
  cbn [rbind]. guard_false. rewrite (in_envelope_true _ _ _ _ _ Hr Ht) by lia. cbn [rbind negb].
  assert (Hz : zlen (blob_bytes b) = bl_total b) by (rewrite <- (ta_bytes _ _ _ _ Ht); apply zlen_mem_bytes; lia).
  destruct (capacity_small config (wr_destination _ _ Hr)) as [_ Hus].
  rewrite (ta_bytes _ _ _ _ Ht), used_size_blob; [|done|apply Ht|done|].
  2:{ rewrite Hz. unfold usize_max in *. destruct usize_bits_ok as [E|E]; rewrite E in *; lia. }
  cbn [rbind]. unfold PATCH_GROWTH in *. rewrite checked_add_ok.
  - guard_true. done.
  - pose proof (wr_size _ _ Hr). unfold u64_max. lia.
Qed.

(** C35: Preparing a device tree sets its boot arguments and its memory.  The
    source is a version 17 tree with a [/chosen] node whose root asks for one or two
    cells, or does not say; the arguments are not empty, and where they fit in an
    existing value they take as many words as it does, since [fdt_set_bootargs]
    corrupts the tree otherwise; the registered workspace has the room that the
    check asks for, no load is in its way, and the arguments leave a little of the
    room for the memory node.  Then the platform's preparation succeeds: the
    workspace holds the tree of the source with the arguments in [/chosen] and the
    memory in the memory node, all else as it was; no byte outside the workspace
    and nothing of the stage changes. *)
Theorem prepare_platform_sets s config source b rn rps k1 cks k2 cps args base size :
  workspace_ready s config -> tree_at s config source b ->
  holds b (with_chosen rn rps k1 cks k2 cps) -> Forall (fun t => tree_name t <> s_chosen) k2 ->
  (forall p1 old p2, cps = p1 ++ (s_bootargs, old) :: p2 -> Forall (fun p => p.1 <> s_bootargs) p2 ->
     zlen args + 1 <= zlen old -> words (zlen args + 1) = words (zlen old)) ->
  cells_ok (root_cells s_address_cells rps) = true -> cells_ok (root_cells s_size_cells rps) = true ->
  args <> [] -> zlen args + 121 <= PATCH_GROWTH -> 0 < base -> 0 < size -> base + size <= u64_max ->
  bl_used b + PATCH_GROWTH <= mw_len (ws_destination config) ->
  exists m' b' cps' kids',
    fdt_prepare_platform true source (mw_start (ws_destination config)) args base size s =
      (set_machine s {| ram := m'; log := log (sg_machine s) |}, Ok tt) /\
    (forall a, ~ in_window (ws_destination config) a -> m' a = ram (sg_machine s) a) /\
    mem_bytes m' (mw_start (ws_destination config)) (mw_len (ws_destination config)) = blob_bytes b' /\
    holds b' (Node rn rps kids') /\ bootargs_set args cps cps' /\
    memory_set base (reg_value base size (root_cells s_address_cells rps) (root_cells s_size_cells rps))
      (k1 ++ Node s_chosen cps' cks :: k2) kids'.
Proof.
  intros Hr Ht Hh Hk2 Hshort Hac Hsc Hargs Hlen Hbase Hsize Hsum Hroom. pose proof (proj1 Hh) as Hok.
  destruct (used_bounds b Hok) as [Hu _]. pose proof (zlen_nonneg args). pose proof (wr_destination _ _ Hr) as Hd.
  destruct (workspace_range_spec _ Hd) as (_ & _ & _ & Hend & _). pose proof (capacity_small config Hd) as [H40 _].
  unfold PATCH_GROWTH in Hlen, Hroom.
  assert (Hz : zlen (blob_bytes b) = bl_total b) by (rewrite <- (ta_bytes _ _ _ _ Ht); apply zlen_mem_bytes; lia).
  destruct (copy_tree_copies b source (mw_start (ws_destination config)) (mw_len (ws_destination config)) (ram (sg_machine s)) Hok)
    as (m1 & tail & Hcopy & Hm1 & Ho1); [rewrite Hz; apply Ht|lia|lia|].
  destruct (bootargs_applied config Hd (wr_size _ _ Hr) (bl_copied b tail) rn rps k1 cks k2 cps args m1)
    as (m2 & b2 & cps' & Hon2 & Ho2 & Hm2 & Hb2 & Hh2 & Hset2); [by apply copied_holds|done|done| |lia|done|].
  { cbn [bl_copied bl_total]. lia. }
  cbn [bl_copied bl_total] in Hb2.
  destruct (memory_applied config Hd (wr_size _ _ Hr) b2 rn rps _ base size m2 Hh2 Hm2)
    as (m3 & b3 & kids' & Hon3 & Ho3 & Hm3 & Hh3 & Hset3); [lia|lia|done|done|].
  exists m3, b3, cps', kids'. split; [|split; [|done]].
  2:{ intros a Ha. unfold in_window in Ha. by rewrite Ho3, Ho2, Ho1. }
  assert (Hrun : prepare_memory true config source (mw_start (ws_destination config)) (Some (args, base, size)) (ram (sg_machine s)) =
    (m3, read_total m3 (mw_start (ws_destination config)))).
  { unfold prepare_memory. unfold sbind at 1. rewrite (measure_source_tree _ _ _ _ _ Hr Ht Hok Hroom).
    unfold sbind at 1. rewrite Hcopy. unfold sbind at 1. unfold apply_patches. rewrite workspace_capacity by done. cbn zeta.
    rewrite bool_decide_false by done. unfold sbind at 1. rewrite Hon2. guard_true. unfold sbind, slift.
    rewrite checked_add_ok by done. cbn [ok_or]. by rewrite Hon3. }
  unfold fdt_prepare_platform, prepare, sbind. rewrite (wr_workspace _ _ Hr). unfold prepare_in.
  rewrite Z.eqb_refl, (ta_aligned _ _ _ _ Ht). cbn [negb orb Z.eqb].
  rewrite (in_envelope_true _ _ _ _ _ Hr Ht) by lia. cbn [rbind negb].
  destruct (wr_admitted _ _ Hr) as (g & p & Hadm). rewrite Hadm. pose proof (begin_fdt_idle _ _ _ _ (wr_idle _ _ Hr) Hadm) as Hg.
  cbn iota in Hg. rewrite Hrun, Hg, set_ledger_unchanged by done.
  unfold read_total, add_or_panic. rewrite checked_add_ok by lia. done.
Qed.
End prepare.

(** ** An example *)

(** The sample of [FdtPatch] with a header of version 17. *)
Definition platform_blob : Blob := {|
  bl_total := 113; bl_fixed := be_enc 4 40 ++ be_enc 4 17 ++ be_enc 4 16 ++ be_enc 4 0; bl_rsv := zeros 16;
  bl_items := bl_items (sample_blob 2); bl_mid := []; bl_strings := s_bootargs ++ [0]; bl_tail := [] |}.

Definition platform_windows : Workspace := {|
  ws_source := {| mw_start := 0x10000; mw_len := 0x1000 |}; ws_destination := {| mw_start := 0x20000; mw_len := 0x4000 |} |}.

Definition platform_stage : Stage := {|
  sg_machine := {| ram := mem_write (fun _ => 0) 0x10000 (blob_bytes platform_blob); log := [] |};
  sg_directory := None; sg_asset_reader := false; sg_loads := {| ld_policy := None; ld_ledger := Some ledger_new |};
  sg_workspace := Some platform_windows |}.

Lemma platform_size : zlen (blob_bytes platform_blob) = 113. Proof. vm_compute. reflexivity. Qed.

Lemma platform_holds : holds platform_blob (with_chosen [] [] [] [] [] (sample_props 2)).
Proof.
  assert (Hn : 1 <= 2 <= 8) by lia. destruct (sample_holds 2 Hn) as [Hok Hf]. split; [|exact Hf]. split.
  - reflexivity.
  - reflexivity.
  - apply Hok.
  - vm_compute. discriminate.
  - rewrite platform_size. done.
  - done.
Qed.

Lemma platform_version : version17 platform_blob.
Proof. apply (version17_intro platform_blob [] [] [] 16 0); done. Qed.

Lemma platform_tree_at : tree_at platform_stage platform_windows 0x10000 platform_blob.
Proof.
  split; [done| | |apply platform_version].
  - exists (ws_source platform_windows). split; [by left|]. cbn. lia.
  - change (bl_total platform_blob) with 113. apply mem_bytes_write_all. symmetry. apply platform_size.
Qed.

Lemma platform_ready : workspace_ready (T := target64) platform_stage platform_windows.
Proof.
  split; try done.
  - by intros g [= <-].
  - eexists _, _. reflexivity.
Qed.

Lemma prepare_platform_sets_witness :
  workspace_ready (T := target64) platform_stage platform_windows /\
  exists m' b' cps' kids',
    fdt_prepare_platform (T := target64) true 0x10000 0x20000 [98; 98; 98; 98; 98] 0x80000000 0x40000000 platform_stage =
      (set_machine platform_stage {| ram := m'; log := [] |}, Ok tt) /\
    mem_bytes m' 0x20000 0x4000 = blob_bytes b' /\ holds b' (Node [] [] kids') /\
    bootargs_set [98; 98; 98; 98; 98] (sample_props 2) cps' /\
    memory_set 0x80000000 (reg_value 0x80000000 0x40000000 1 1) ([] ++ Node s_chosen cps' [] :: []) kids'.
Proof.
  split; [apply platform_ready|]. set (args := [98; 98; 98; 98; 98]).
  assert (Hshort : forall p1 old p2, sample_props 2 = p1 ++ (s_bootargs, old) :: p2 -> Forall (fun p => p.1 <> s_bootargs) p2 ->
     zlen args + 1 <= zlen old -> words (zlen args + 1) = words (zlen old)).
  { intros p1 old p2 Hp _ Hle. destruct p1 as [|p p1].
    - injection Hp as <- _. exfalso. revert Hle. vm_compute. intros Hle. by apply Hle.
    - injection Hp as _ Hp. by destruct p1. }
  assert (Hargs : args <> []) by discriminate. assert (Hlen : zlen args + 121 <= PATCH_GROWTH) by (vm_compute; discriminate).
  assert (Hsum : 0x80000000 + 0x40000000 <= u64_max) by (vm_compute; discriminate).
  assert (Hroom : bl_used platform_blob + PATCH_GROWTH <= mw_len (ws_destination platform_windows)) by (vm_compute; discriminate).
  pose proof (prepare_platform_sets (T := target64) platform_stage platform_windows 0x10000 platform_blob [] [] [] [] []
    (sample_props 2) args 0x80000000 0x40000000 platform_ready platform_tree_at platform_holds (Forall_nil_2 _) Hshort
    eq_refl eq_refl Hargs Hlen eq_refl eq_refl Hsum Hroom) as (m' & b' & cps' & kids' & Hrun & _ & Hm & Hh & Hb & Hs).
  exists m', b', cps', kids'. split; [exact Hrun|]. split; [exact Hm|]. split; [exact Hh|]. split; [exact Hb|exact Hs].
Defined.
