(* ===== verification/PciPool.v ===== *)
(** * PciPool: the free address ranges of a PCI root
    ([ResourcePool] of [crates/pci/src/ecam_host.rs])

    A pool holds the free ranges of one address type.  Fixed resources are cut
    out of it and base address registers are placed first fit; what lies in front
    of an aligned placement stays free.  The array of ranges is the list of its
    used slots. *)

From S2P Require Import Prelude.
From S2P Require Import Bytes.
From S2P Require Import Services.
From S2P Require Import Memory.
From S2P Require Import BootMedia.
From Stdlib Require Import ZArith Lia.
From stdpp Require Import base numbers list option.

#[local] Open Scope Z_scope.

Inductive PciEcamError :=
| PciConfigError | ResourceRangeLimit | FixedBarInvalid | FixedBarConflict | ResourceExhausted.

Definition MAX_RESOURCE_RANGES : Z := 16.

Record ResourceRange := { rr_base : Z; rr_end : Z }.

(** [&self.ranges[..self.count]] *)
Definition ResourcePool : Type := list ResourceRange.

Definition pool_empty : ResourcePool := [].

Definition push_range (p : ResourcePool) (base end_ : Z) : res PciEcamError ResourcePool :=
  if end_ <=? base then Ok p
  else if zlen p =? MAX_RESOURCE_RANGES then Err ResourceRangeLimit
  else Ok (p ++ [{| rr_base := base; rr_end := end_ |}]).

Definition pool_new (base size : Z) : res PciEcamError ResourcePool :=
  let? end_ := ok_or (checked_add u64_max base size) PciConfigError in
  push_range [] base end_.

(** One round of the loop of [reserve_range]. *)
Definition cut_range (base end_ : Z) (p : ResourcePool) (range : ResourceRange) : res PciEcamError ResourcePool :=
  if (end_ <=? rr_base range) || (rr_end range <=? base) then push_range p (rr_base range) (rr_end range)
  else
    let? p := (if rr_base range <? base then push_range p (rr_base range) (Z.min base (rr_end range)) else Ok p) in
    if end_ <? rr_end range then push_range p (Z.max end_ (rr_base range)) (rr_end range) else Ok p.

(** The callers give up the pool when this fails. *)
Definition reserve_range (p : ResourcePool) (base size : Z) : res PciEcamError ResourcePool :=
  if (size =? 0) || (zlen p =? 0) then Ok p
  else
    let? end_ := ok_or (checked_add u64_max base size) PciConfigError in
    fold_each p [] (cut_range base end_).

Definition free_bytes (p : ResourcePool) : res PciEcamError Z :=
  fold_each p 0 (fun n range => let? d := or_panic (checked_sub (rr_end range) (rr_base range)) in add_or_panic u64_max n d).

(** [x & !(align - 1)] on [u64] *)
Definition align_down (x align : Z) : Z := Z.land x (not_mask 64 (align - 1)).

(** The loop over [ranges], from the ones left to try; an overflow ends it. *)
Fixpoint allocate_from (ranges : list ResourceRange) (p : ResourcePool) (size align : Z) : option (Z * ResourcePool) :=
  match ranges with
  | [] => None
  | range :: ranges =>
      match checked_add u64_max (rr_base range) (align - 1) with
      | None => None
      | Some up =>
          let aligned := align_down up align in
          match checked_add u64_max aligned size with
          | None => None
          | Some end_ =>
              if rr_end range <? end_ then allocate_from ranges p size align
              else
                match reserve_range p aligned size with
                | Ok remaining => Some (aligned, remaining)
                | _ => allocate_from ranges p size align
                end
          end
      end
  end.

(** [None] leaves the pool as it is. *)
Definition allocate_aligned (p : ResourcePool) (size align : Z) : option (Z * ResourcePool) :=
  if (size =? 0) || (align =? 0) then None else allocate_from p p size align.

(** ** What a pool stands for *)

Definition in_range (r : ResourceRange) (a : Z) : Prop := rr_base r <= a < rr_end r.

(** The addresses a pool has free. *)
Definition free (p : ResourcePool) (a : Z) : Prop := exists r, r ∈ p /\ in_range r a.

Record range_ok (r : ResourceRange) : Prop := {
  rk_base : 0 <= rr_base r; rk_size : rr_base r < rr_end r; rk_end : rr_end r <= u64_max
}.

Definition pool_ok (p : ResourcePool) : Prop := Forall range_ok p.

Lemma free_nil a : free [] a <-> False.
Proof. split; [|done]. intros (r & Hr & _). by apply elem_of_nil in Hr. Qed.

Lemma free_app p q a : free (p ++ q) a <-> free p a \/ free q a.
Proof. unfold free. setoid_rewrite elem_of_app. naive_solver. Qed.

Lemma free_one b e a : free [{| rr_base := b; rr_end := e |}] a <-> b <= a < e.
Proof.
  unfold free. setoid_rewrite list_elem_of_singleton. split; [by intros (r & -> & ?)|]. intros. eexists. by split.
Qed.

Lemma free_cons r p a : free (r :: p) a <-> in_range r a \/ free p a.
Proof. unfold free. setoid_rewrite elem_of_cons. naive_solver. Qed.

Lemma push_range_Ok p b e p' :
  push_range p b e = Ok p' -> 0 <= b -> e <= u64_max -> pool_ok p ->
  pool_ok p' /\ forall a, free p' a <-> free p a \/ b <= a < e.
Proof.
  unfold push_range. intros H Hb He Hp. destruct (Z.leb_spec e b).
  { injection H as <-. split; [done|]. intros a. split; [by left|]. intros [?|?]; [done|lia]. }
  destruct (_ =? _); [done|]. injection H as <-. split.
  - apply list.Forall_app. split; [done|]. apply list.Forall_singleton. by split.
  - intros a. by rewrite free_app, free_one.
Qed.

Lemma push_range_not_Panic p b e : push_range p b e <> Panic.
Proof. unfold push_range. by repeat case_match. Qed.

Lemma cut_range_Ok base end_ p r p' :
  base < end_ -> 0 <= base -> end_ <= u64_max -> range_ok r -> pool_ok p -> cut_range base end_ p r = Ok p' ->
  pool_ok p' /\ forall a, free p' a <-> free p a \/ in_range r a /\ ~ base <= a < end_.
Proof.
  intros Hbe Hb He [Hr0 Hr1 Hr2] Hp H. unfold cut_range in H. unfold in_range.
  destruct (_ || _) eqn:E.
  { apply push_range_Ok in H as [Hp' Hf]; [|lia..|done]. split; [done|]. intros a. rewrite Hf. bool_cases; intuition lia. }
  bool_hyp. rust_step H. rename a into q, Ha into Hq.
  assert (Hqs : pool_ok q /\ forall a, free q a <-> free p a \/ rr_base r <= a < base).
  { destruct (Z.ltb_spec (rr_base r) base) as [Hlt|Hge].
    - apply push_range_Ok in Hq as [? Hf]; [|lia..|done]. split; [done|]. intros a. rewrite Hf. intuition lia.
    - injection Hq as <-. split; [done|]. intros a. split; [by left|]. intros [?|?]; [done|lia]. }
  destruct Hqs as [Hqo Hqf]. destruct (Z.ltb_spec end_ (rr_end r)) as [Hlt|Hge].
  - apply push_range_Ok in H as [? Hf]; [|lia..|done]. split; [done|]. intros a. rewrite Hf, Hqf. intuition lia.
  - injection H as <-. split; [done|]. intros a. rewrite Hqf. intuition lia.
Qed.

Lemma cut_all_Ok base end_ l : forall p p',
  base < end_ -> 0 <= base -> end_ <= u64_max -> pool_ok l -> pool_ok p -> fold_each l p (cut_range base end_) = Ok p' ->
  pool_ok p' /\ forall a, free p' a <-> free p a \/ free l a /\ ~ base <= a < end_.
Proof.
  induction l as [|r l IH]; intros p p' Hbe Hb He Hl Hp H; cbn [fold_each] in H.
  - injection H as <-. split; [done|]. intros a. rewrite free_nil. tauto.
  - apply list.Forall_cons in Hl as [Hr Hl]. rust_step H. apply cut_range_Ok in Ha as [Hq Hqf]; [|done..].
    apply IH in H as [Hp' Hf]; [|done..]. split; [done|]. intros x. rewrite Hf, Hqf, free_cons. tauto.
Qed.

(** Exactly the interval is removed. *)
Lemma reserve_range_Ok p base size p' :
  pool_ok p -> 0 <= base -> 0 <= size -> reserve_range p base size = Ok p' ->
  pool_ok p' /\ forall a, free p' a <-> free p a /\ ~ base <= a < base + size.
Proof.
  intros Hp Hb Hs H. unfold reserve_range in H. destruct (_ || _) eqn:E.
  - injection H as <-. split; [done|]. intros a. bool_cases; [intuition lia|]. destruct p; [|rewrite zlen_cons in *; pose proof (zlen_nonneg p); lia].
    rewrite free_nil. tauto.
  - bool_hyp. rust_step H. rust_step Ha. apply checked_add_Some in Ha as [-> ?].
    apply cut_all_Ok in H as [? Hf]; [|lia..|done|constructor]. split; [done|]. intros a. rewrite Hf, free_nil. tauto.
Qed.

(** ** Placement *)

(** The first multiple of [2 ^ k] from [base] on. *)
Definition align_to (base k : Z) : Z := (base + (2 ^ k - 1)) / 2 ^ k * 2 ^ k.

Lemma align_down_spec x k : 0 <= k <= 63 -> 0 <= x <= u64_max -> align_down x (2 ^ k) = x / 2 ^ k * 2 ^ k.
Proof. intros Hk Hx. unfold align_down. rewrite land_not_mask; [done|lia|unfold u64_max in *; lia]. Qed.

Lemma align_to_bounds base k : 0 <= k ->
  base <= align_to base k < base + 2 ^ k /\ align_to base k mod 2 ^ k = 0 /\
  forall b, base <= b -> b mod 2 ^ k = 0 -> align_to base k <= b.
Proof.
  intros Hk. unfold align_to. assert (Hp : 0 < 2 ^ k) by (apply Z.pow_pos_nonneg; lia).
  pose proof (Z.div_mod (base + (2 ^ k - 1)) (2 ^ k)) as Hd. pose proof (Z.mod_pos_bound (base + (2 ^ k - 1)) (2 ^ k) Hp) as Hm.
  split; [lia|]. split; [apply Z.mod_mul; lia|]. intros b Hb Hbm.
  apply Z.mod_divide in Hbm as [q ->]; [|lia]. apply Z.mul_le_mono_nonneg_r; [lia|].
  assert ((base + (2 ^ k - 1)) / 2 ^ k < q + 1); [|lia]. apply Z.div_lt_upper_bound; lia.
Qed.

(** The range a placement takes was free, aligned, and is all that is taken. *)
Definition placed (p : ResourcePool) (size align base : Z) (p' : ResourcePool) : Prop :=
  pool_ok p' /\ base mod align = 0 /\ 0 <= base /\ base + size <= u64_max /\
  (forall a, base <= a < base + size -> free p a) /\ (forall a, free p' a <-> free p a /\ ~ base <= a < base + size).

Lemma allocate_from_Some ranges p size k base p' :
  0 < size -> 0 <= k <= 63 -> pool_ok p -> (forall r, r ∈ ranges -> r ∈ p) ->
  allocate_from ranges p size (2 ^ k) = Some (base, p') -> placed p size (2 ^ k) base p'.
Proof.
  intros Hs Hk Hp. induction ranges as [|r ranges IH]; intros Hin H; cbn [allocate_from] in H; [done|].
  assert (Hr : range_ok r) by (unfold pool_ok in Hp; rewrite list.Forall_forall in Hp; apply Hp, Hin; by left).
  assert (IH' : allocate_from ranges p size (2 ^ k) = Some (base, p') -> placed p size (2 ^ k) base p').
  { apply IH. intros x Hx. apply Hin. by right. }
  destruct Hr as [Hr0 Hr1 Hr2]. destruct (checked_add _ _ _) as [up|] eqn:Hup; [|done]. apply checked_add_Some in Hup as [-> Hup].
  assert (Hpow : 0 < 2 ^ k) by (apply Z.pow_pos_nonneg; lia).
  rewrite align_down_spec in H by lia. fold (align_to (rr_base r) k) in H. pose proof (align_to_bounds (rr_base r) k ltac:(lia)) as (Hb & Hmod & _).
  destruct (checked_add _ (align_to _ _) _) as [e|] eqn:He; [|done]. apply checked_add_Some in He as [-> He].
  destruct (Z.ltb_spec (rr_end r) (align_to (rr_base r) k + size)); [auto|].
  destruct (reserve_range _ _ _) as [q|e|] eqn:Hres; [|auto..]. injection H as <- <-.
  apply reserve_range_Ok in Hres as [Hq Hf]; [|done|lia|lia]. split_and!; try done; [lia|].
  intros a Ha. exists r. split; [apply Hin; by left|]. unfold in_range. lia.
Qed.

(** Cutting one interval out leaves at most one range more. *)
Lemma push_range_len p b e p' : push_range p b e = Ok p' -> zlen p' <= zlen p + 1.
Proof. unfold push_range. intros H. repeat case_match; try done; injection H as <-; rewrite ?zlen_app, ?zlen_cons, ?zlen_nil; lia. Qed.

Lemma push_range_room p b e : zlen p < MAX_RESOURCE_RANGES -> exists p', push_range p b e = Ok p' /\ zlen p <= zlen p' <= zlen p + 1.
Proof.
  intros H. unfold push_range. case_match; [exists p; split; [done|lia]|]. rewrite (proj2 (Z.eqb_neq _ _)) by lia.
  eexists. split; [done|]. rewrite zlen_app. change (zlen [_]) with 1. lia.
Qed.

(** *** Sizes *)

(** The bytes of the ranges. *)
Fixpoint pool_bytes (p : ResourcePool) : Z :=
  match p with [] => 0 | r :: p => rr_end r - rr_base r + pool_bytes p end.

Lemma pool_bytes_app p q : pool_bytes (p ++ q) = pool_bytes p + pool_bytes q.
Proof. induction p as [|r p IH]; cbn [pool_bytes app]; lia. Qed.

Lemma pool_bytes_nonneg p : pool_ok p -> 0 <= pool_bytes p.
Proof. induction 1 as [|r p [? ? ?] _ IH]; cbn [pool_bytes]; lia. Qed.

Lemma push_range_bytes p b e p' : push_range p b e = Ok p' -> pool_bytes p' = pool_bytes p + Z.max 0 (e - b).
Proof.
  unfold push_range. destruct (Z.leb_spec e b); [intros [= <-]; lia|]. destruct (_ =? _); [done|]. intros [= <-].
  rewrite pool_bytes_app. cbn [pool_bytes rr_base rr_end]. lia.
Qed.

Lemma cut_range_bytes base end_ p r p' : base < end_ -> rr_base r < rr_end r -> cut_range base end_ p r = Ok p' ->
  pool_bytes p' <= pool_bytes p + (rr_end r - rr_base r).
Proof.
  intros Hb Hr H. unfold cut_range in H. destruct (_ || _) eqn:E; [apply push_range_bytes in H; lia|].
  apply orb_false_iff in E as [E1 E2]. apply Z.leb_gt in E1, E2. rust_step H. rename a into q, Ha into Hq.
  assert (Hqb : pool_bytes q = pool_bytes p + Z.max 0 (base - rr_base r)).
  { destruct (Z.ltb_spec (rr_base r) base); [apply push_range_bytes in Hq; lia|]. injection Hq as <-. lia. }
  destruct (Z.ltb_spec end_ (rr_end r)); [apply push_range_bytes in H; lia|]. injection H as <-. lia.
Qed.

Lemma cut_all_bytes base end_ l : base < end_ -> pool_ok l -> forall p p', fold_each l p (cut_range base end_) = Ok p' ->
  pool_bytes p' <= pool_bytes p + pool_bytes l.
Proof.
  intros Hb. induction 1 as [|r l [? ? ?] _ IH]; intros p p' H; cbn [fold_each pool_bytes] in *; [injection H as <-; lia|].
  rust_step H. apply cut_range_bytes in Ha; [|done..]. apply IH in H. lia.
Qed.

Lemma reserve_range_bytes p base size p' : pool_ok p -> 0 <= size -> reserve_range p base size = Ok p' -> pool_bytes p' <= pool_bytes p.
Proof.
  intros Hp Hs H. unfold reserve_range in H. destruct (_ || _) eqn:E; [by injection H as <-|]. bool_hyp. rust_step H. rust_step Ha.
  apply checked_add_Some in Ha as [-> _]. apply cut_all_bytes in H; [|lia|done]. cbn [pool_bytes] in H. lia.
Qed.

Lemma allocate_from_bytes ranges p size align base p' : pool_ok p -> 0 <= size ->
  allocate_from ranges p size align = Some (base, p') -> pool_bytes p' <= pool_bytes p.
Proof.
  intros Hp Hs. induction ranges as [|r ranges IH]; intros H; cbn [allocate_from] in H; [done|].
  destruct (checked_add _ (rr_base r) _); [|done]. destruct (checked_add _ (align_down _ _) _); [|done]. destruct (_ <? _); [auto|].
  destruct (reserve_range _ _ _) as [q|e|] eqn:Hr; [|auto..]. injection H as _ <-. by eapply reserve_range_bytes.
Qed.

Lemma allocate_aligned_bytes p size align base p' : pool_ok p -> 0 <= size ->
  allocate_aligned p size align = Some (base, p') -> pool_bytes p' <= pool_bytes p.
Proof. intros Hp Hs. unfold allocate_aligned. destruct (_ || _); [done|]. by apply allocate_from_bytes. Qed.

Lemma free_bytes_Ok p : pool_ok p -> pool_bytes p <= u64_max -> free_bytes p = Ok (pool_bytes p).
Proof.
  intros Hp Hm. unfold free_bytes. change (pool_bytes p) with (0 + pool_bytes p). assert (H0 : 0 <= 0) by done.
  assert (Hm' : 0 + pool_bytes p <= u64_max) by lia. clear Hm. revert H0 Hm'. generalize 0 at 2 3 4 5 as n.
  induction Hp as [|r p [? ? ?] Hp IH]; intros n Hn Hm; cbn [fold_each pool_bytes] in *; [f_equal; lia|].
  pose proof (pool_bytes_nonneg p Hp). rewrite checked_sub_ok by lia. cbn [or_panic rbind].
  unfold add_or_panic. rewrite checked_add_ok by lia. cbn [or_panic rbind]. rewrite IH by lia. f_equal. lia.
Qed.

(** *** A place that is there is found *)

Definition meets (base end_ : Z) (r : ResourceRange) : bool := negb ((end_ <=? rr_base r) || (rr_end r <=? base)).

Definition range_apart (r r' : ResourceRange) : Prop := rr_end r <= rr_base r' \/ rr_end r' <= rr_base r.

Fixpoint ranges_apart (l : list ResourceRange) : Prop :=
  match l with [] => True | r :: l => Forall (range_apart r) l /\ ranges_apart l end.

(** Ranges of [l] that a cut would split or shorten. *)
Fixpoint hits (base end_ : Z) (l : list ResourceRange) : Z :=
  match l with [] => 0 | r :: l => (if meets base end_ r then 1 else 0) + hits base end_ l end.

Lemma hits_nonneg b e l : 0 <= hits b e l.
Proof. induction l as [|r l IH]; cbn [hits]; [lia|]. case_match; lia. Qed.

Lemma hits_none b e l : Forall (fun r => meets b e r = false) l -> hits b e l = 0.
Proof. induction 1 as [|r l Hr _ IH]; cbn [hits]; [done|]. by rewrite Hr, IH. Qed.

Lemma meets_apart b e r x : in_range x b -> b < e <= rr_end x -> range_apart x r -> meets b e r = false.
Proof. unfold meets, in_range, range_apart. intros ? ? H. apply negb_false_iff, orb_true_iff. rewrite !Z.leb_le. lia. Qed.

Lemma hits_one b e l x : ranges_apart l -> x ∈ l -> in_range x b -> b < e <= rr_end x -> hits b e l <= 1.
Proof.
  induction l as [|r l IH]; intros Hap Hx Hb He; [by apply elem_of_nil in Hx|]. destruct Hap as [Hr Hl]. cbn [hits].
  apply elem_of_cons in Hx as [->|Hx].
  - rewrite (hits_none b e l); [case_match; lia|]. eapply list.Forall_impl; [exact Hr|]. cbn. intros y. by apply meets_apart.
  - rewrite list.Forall_forall in Hr. rewrite (meets_apart b e r x Hb He); [|specialize (Hr x Hx); unfold range_apart in *; lia].
    specialize (IH Hl Hx Hb He). lia.
Qed.

Lemma cut_all_room b e l : forall p, zlen p + zlen l + hits b e l <= MAX_RESOURCE_RANGES ->
  exists p', fold_each l p (cut_range b e) = Ok p'.
Proof.
  induction l as [|r l IH]; intros p H; cbn [fold_each]; [eauto|]. cbn [hits] in H. rewrite zlen_cons in H.
  pose proof (zlen_nonneg l). pose proof (hits_nonneg b e l).
  enough (Hc : exists q, cut_range b e p r = Ok q /\ zlen q <= zlen p + 1 + (if meets b e r then 1 else 0)).
  { destruct Hc as (q & -> & Hq). cbn [rbind]. apply IH. lia. }
  unfold cut_range, meets in *. destruct ((e <=? rr_base r) || (rr_end r <=? b)); cbn [negb] in *.
  - destruct (push_range_room p (rr_base r) (rr_end r)) as (q & -> & ?); [lia|]. exists q. split; [done|lia].
  - match goal with |- context [rbind ?m _] => assert (Hq : exists q, m = Ok q /\ zlen p <= zlen q <= zlen p + 1) end.
    { case_match; [apply push_range_room; lia|]. exists p. split; [done|lia]. }
    destruct Hq as (q & -> & Hq). cbn [rbind]. case_match.
    + destruct (push_range_room q (Z.max e (rr_base r)) (rr_end r)) as (q' & -> & ?); [lia|]. exists q'. split; [done|lia].
    + exists q. split; [done|lia].
Qed.

Lemma reserve_range_room p b size x :
  zlen p < MAX_RESOURCE_RANGES -> ranges_apart p -> x ∈ p -> in_range x b -> 0 < size -> b + size <= rr_end x -> rr_end x <= u64_max ->
  exists p', reserve_range p b size = Ok p'.
Proof.
  intros Hz Hap Hx Hb Hs He Hm. unfold reserve_range. destruct (_ || _); [eauto|]. rewrite checked_add_ok by lia. cbn [ok_or rbind].
  apply cut_all_room. pose proof (hits_one b (b + size) p x Hap Hx Hb). change (zlen []) with 0. lia.
Qed.

Lemma allocate_from_None ranges p size k r b :
  0 < size -> 0 <= k <= 63 -> pool_ok p -> ranges_apart p -> zlen p < MAX_RESOURCE_RANGES ->
  (forall x, x ∈ ranges -> x ∈ p) -> (forall x, x ∈ p -> rr_end x + 2 ^ k + size <= u64_max) ->
  allocate_from ranges p size (2 ^ k) = None -> r ∈ ranges -> rr_base r <= b -> b mod 2 ^ k = 0 -> rr_end r < b + size.
Proof.
  intros Hs Hk Hp Hap Hz Hin Hov. induction ranges as [|x ranges IH]; intros H Hr Hb Hm; [by apply elem_of_nil in Hr|].
  assert (Hxp : x ∈ p) by (apply Hin; by left). assert (Hx : range_ok x) by (unfold pool_ok in Hp; rewrite list.Forall_forall in Hp; by apply Hp).
  assert (Hpow : 0 < 2 ^ k) by (apply Z.pow_pos_nonneg; lia). specialize (Hov x Hxp) as Hox. destruct Hx as [Hx0 Hx1 Hx2].
  pose proof (align_to_bounds (rr_base x) k ltac:(lia)) as (Hab & Ham & Hmin).
  cbn [allocate_from] in H. rewrite checked_add_ok in H by lia. rewrite align_down_spec in H by lia. fold (align_to (rr_base x) k) in H.
  rewrite checked_add_ok in H by lia.
  assert (IH' : allocate_from ranges p size (2 ^ k) = None -> r ∈ ranges -> rr_end r < b + size).
  { intros ? ?. apply IH; try done. intros y Hy. apply Hin. by right. }
  destruct (Z.ltb_spec (rr_end x) (align_to (rr_base x) k + size)) as [Hno|Hfit].
  - apply elem_of_cons in Hr as [->|Hr]; [specialize (Hmin b Hb Hm); lia|auto].
  - destruct (reserve_range_room p (align_to (rr_base x) k) size x) as (q & Hq); [done..|unfold in_range; lia|lia|lia|lia|].
    by rewrite Hq in H.
Qed.

(** Placing an address range: what is returned is aligned, was free, and is
    all the pool loses; nothing is returned only if no range of the pool holds such
    a place, as long as the pool has a slot left for the split and its ranges stay
    clear of the end of the address space. *)
Theorem allocate_aligned_spec p size k :
  pool_ok p -> 0 < size -> 0 <= k <= 63 ->
  match allocate_aligned p size (2 ^ k) with
  | Some (base, p') => placed p size (2 ^ k) base p'
  | None =>
      ranges_apart p -> zlen p < MAX_RESOURCE_RANGES -> (forall r, r ∈ p -> rr_end r + 2 ^ k + size <= u64_max) ->
      forall r base, r ∈ p -> rr_base r <= base -> base mod 2 ^ k = 0 -> rr_end r < base + size
  end.
Proof.
  intros Hp Hs Hk. assert (Hpow : 0 < 2 ^ k) by (apply Z.pow_pos_nonneg; lia).
  unfold allocate_aligned. destruct (_ || _) eqn:E; [bool_cases; lia|].
  destruct (allocate_from p p size (2 ^ k)) as [[base p']|] eqn:H.
  - by apply (allocate_from_Some p p size k base p').
  - intros Hap Hz Hov r base Hr Hb Hm. by apply (allocate_from_None p p size k r base).
Qed.

(** Two ranges, the first too small for an aligned page. *)
Definition sample_pool : ResourcePool := [{| rr_base := 0x800; rr_end := 0x1800 |}; {| rr_base := 0x3800; rr_end := 0x6000 |}].

Lemma allocate_aligned_spec_witness :
  allocate_aligned sample_pool 0x1000 (2 ^ 12) = Some (0x4000, [{| rr_base := 0x800; rr_end := 0x1800 |};
    {| rr_base := 0x3800; rr_end := 0x4000 |}; {| rr_base := 0x5000; rr_end := 0x6000 |}]) /\
  match allocate_aligned sample_pool 0x1000 (2 ^ 12) with
  | Some (base, p') => placed sample_pool 0x1000 (2 ^ 12) base p'
  | None =>
      ranges_apart sample_pool -> zlen sample_pool < MAX_RESOURCE_RANGES ->
      (forall r, r ∈ sample_pool -> rr_end r + 2 ^ 12 + 0x1000 <= u64_max) ->
      forall r base, r ∈ sample_pool -> rr_base r <= base -> base mod 2 ^ 12 = 0 -> rr_end r < base + 0x1000
  end.
Proof.
  split; [by vm_compute|]. apply (allocate_aligned_spec sample_pool 0x1000 12); [|lia|lia].
  repeat constructor; vm_compute; congruence.
Defined.
