(* ===== verification/Pci.v ===== *)
(** * Pci: the PCI host bridge ([crates/pci/src/ecam_host.rs], with
    [ecam.rs], [config.rs] and [window.rs])

    Enumeration walks the buses of every root depth first, numbers the bridges
    and sizes the base address registers; allocation places the registers in the
    pools of their root, writes them, and derives the forwarding windows of the
    bridges from what was placed below them.

    The hardware behind the mapped configuration space is the class
    [ConfigSpace]: reading a configuration register changes nothing.  Diagnostics
    are left out. *)

From S2P Require Import Prelude.
From S2P Require Import Bits.
From S2P Require Import Bytes.
From S2P Require Import Services.
From S2P Require Import Memory.
From S2P Require Import BootMedia.
From S2P Require Import PciPool.
From Stdlib Require Import ZArith Lia.
From stdpp Require Import base numbers list option.

#[local] Open Scope Z_scope.

(** ** Registers ([config.rs]) *)

Definition PCI_VENDOR_ID : Z := 0x00.
Definition PCI_COMMAND : Z := 0x04.
Definition PCI_HEADER_TYPE : Z := 0x0E.
Definition PCI_BAR0 : Z := 0x10.
Definition PCI_PRIMARY_BUS : Z := 0x18.
Definition PCI_IO_BASE : Z := 0x1C.
Definition PCI_MEMORY_BASE : Z := 0x20.
Definition PCI_PREF_MEMORY_BASE : Z := 0x24.
Definition PCI_PREF_BASE_UPPER32 : Z := 0x28.
Definition PCI_PREF_LIMIT_UPPER32 : Z := 0x2C.
Definition PCI_HEADER_TYPE_BRIDGE : Z := 0x01.
Definition PCI_HEADER_TYPE_CARDBUS : Z := 0x02.
Definition PCI_HEADER_TYPE_MULTI_FUNC : Z := 0x80.
Definition PCI_VENDOR_INVALID : Z := 0xFFFFFFFF.
Definition PCI_CMD_IO : Z := 0x0001.
Definition PCI_CMD_MEMORY : Z := 0x0002.
Definition PCI_CMD_BUS_MASTER : Z := 0x0004.

(** The address type of the [pci_types] crate, by what its accessors return. *)
Record PciAddress := { pa_segment : Z; pa_bus : Z; pa_device : Z; pa_function : Z }.
#[export] Instance PciAddress_eq_dec : EqDecision PciAddress.
Proof. solve_decision. Defined.

(** ** Windows ([window.rs]) *)

Inductive PciWindowKind := Mmio | IoPort.
#[export] Instance PciWindowKind_eq_dec : EqDecision PciWindowKind.
Proof. solve_decision. Defined.

Record PciWindow := { pw_kind : PciWindowKind; pw_base : Z; pw_size : Z; pw_prefetchable : bool }.

Definition is_below_4g (w : PciWindow) : bool := saturating_add u64_max (pw_base w) (pw_size w) <=? 0x100000000.

(** ** State *)

Inductive PciFixedBarType := FixedIo | FixedMemory32 | FixedMemory64.
#[export] Instance PciFixedBarType_eq_dec : EqDecision PciFixedBarType.
Proof. solve_decision. Defined.

Record PciFixedBar := {
  fb_address : PciAddress; fb_register : Z; fb_kind : PciFixedBarType; fb_base : Z; fb_size : Z; fb_prefetchable : bool
}.

Definition MAX_PCI_FIXED_BARS : Z := 16.

Inductive BarType := NoBar | BarIo | BarMemory32 | BarMemory64.
#[export] Instance BarType_eq_dec : EqDecision BarType.
Proof. solve_decision. Defined.

Record BarInfo := {
  bi_type : BarType; bi_size : Z; bi_prefetchable : bool; bi_reg : Z; bi_allocated : bool; bi_fixed : bool
}.

Record PciDev := {
  pd_addr : PciAddress; pd_root : nat; pd_header_type : Z; pd_original_command : Z; pd_bars : list BarInfo;
  pd_secondary_bus : Z; pd_subordinate_bus : Z
}.

Definition MAX_PCI_ROOT_WINDOWS : Z := 8.
Definition MAX_PCI_DEVICES : Z := 128.
Definition MAX_PCI_ROOTS : Z := 8.

Record PciRoot := {
  rt_segment : Z; rt_ecam_base : Z; rt_ecam_size : Z; rt_bus_start : Z; rt_bus_end : Z;
  rt_mmio32 : ResourcePool; rt_mmio64 : ResourcePool; rt_io : ResourcePool;
  rt_windows : list PciWindow; rt_next_bus : Z
}.

(** Loads and stores of some bytes in the mapped configuration space. *)
Class ConfigSpace (H : Type) := {
  mmio_read : H -> Z -> Z -> Z;
  mmio_write : H -> Z -> Z -> Z -> H
}.

Record PciEcam (H : Type) := {
  pe_roots : list PciRoot; pe_devices : list PciDev; pe_fixed_bars : list PciFixedBar; pe_hw : H
}.
Arguments pe_roots {H}. Arguments pe_devices {H}. Arguments pe_fixed_bars {H}. Arguments pe_hw {H}.

Definition set_pools (r : PciRoot) (mmio32 mmio64 io : ResourcePool) : PciRoot := {|
  rt_segment := rt_segment r; rt_ecam_base := rt_ecam_base r; rt_ecam_size := rt_ecam_size r;
  rt_bus_start := rt_bus_start r; rt_bus_end := rt_bus_end r; rt_mmio32 := mmio32; rt_mmio64 := mmio64; rt_io := io;
  rt_windows := rt_windows r; rt_next_bus := rt_next_bus r |}.

Definition set_windows (r : PciRoot) (windows : list PciWindow) : PciRoot := {|
  rt_segment := rt_segment r; rt_ecam_base := rt_ecam_base r; rt_ecam_size := rt_ecam_size r;
  rt_bus_start := rt_bus_start r; rt_bus_end := rt_bus_end r; rt_mmio32 := rt_mmio32 r; rt_mmio64 := rt_mmio64 r;
  rt_io := rt_io r; rt_windows := windows; rt_next_bus := rt_next_bus r |}.

Definition set_next_bus (n : Z) (r : PciRoot) : PciRoot := {|
  rt_segment := rt_segment r; rt_ecam_base := rt_ecam_base r; rt_ecam_size := rt_ecam_size r;
  rt_bus_start := rt_bus_start r; rt_bus_end := rt_bus_end r; rt_mmio32 := rt_mmio32 r; rt_mmio64 := rt_mmio64 r;
  rt_io := rt_io r; rt_windows := rt_windows r; rt_next_bus := n |}.

Definition set_buses (d : PciDev) (secondary subordinate : Z) : PciDev := {|
  pd_addr := pd_addr d; pd_root := pd_root d; pd_header_type := pd_header_type d;
  pd_original_command := pd_original_command d; pd_bars := pd_bars d;
  pd_secondary_bus := secondary; pd_subordinate_bus := subordinate |}.

Definition set_allocated (b : BarInfo) : BarInfo := {|
  bi_type := bi_type b; bi_size := bi_size b; bi_prefetchable := bi_prefetchable b; bi_reg := bi_reg b;
  bi_allocated := true; bi_fixed := bi_fixed b |}.

Definition set_bar_allocated (j : nat) (d : PciDev) : PciDev := {|
  pd_addr := pd_addr d; pd_root := pd_root d; pd_header_type := pd_header_type d;
  pd_original_command := pd_original_command d; pd_bars := alter set_allocated j (pd_bars d);
  pd_secondary_bus := pd_secondary_bus d; pd_subordinate_bus := pd_subordinate_bus d |}.

(** ** Root bridges *)

Definition root_contains (r : PciRoot) (a : PciAddress) : bool :=
  (pa_segment a =? rt_segment r) && (rt_bus_start r <=? pa_bus a) && (pa_bus a <=? rt_bus_end r).

(** The slots of the array that are written. *)
Definition pool_windows (kind : PciWindowKind) (prefetchable : bool) (p : ResourcePool) : list PciWindow :=
  map (fun r => {| pw_kind := kind; pw_base := rr_base r; pw_size := rr_end r - rr_base r; pw_prefetchable := prefetchable |}) p.

Definition rebuild_windows (r : PciRoot) : PciRoot :=
  set_windows r (take (Z.to_nat MAX_PCI_ROOT_WINDOWS)
    (pool_windows Mmio false (rt_mmio32 r) ++ pool_windows Mmio true (rt_mmio64 r) ++ pool_windows IoPort false (rt_io r))).

(** [for root in &mut roots { .. ? }] *)
Definition map_roots (f : PciRoot -> res PciEcamError PciRoot) (roots : list PciRoot) : res PciEcamError (list PciRoot) :=
  fold_each roots [] (fun done root => let? root := f root in Ok (done ++ [root])).

(** What a provider says of its root. *)
Record PciRootInfo := { ri_segment : Z; ri_ecam_base : Z; ri_bus_start : Z; ri_bus_end : Z }.

Definition info_ecam_size (i : PciRootInfo) : Z :=
  if ri_bus_end i <? ri_bus_start i then 0 else (ri_bus_end i - ri_bus_start i + 1) * 1024 * 1024.

(** The pools and the windows so far. *)
Record RootPools := { rp_mmio32 : ResourcePool; rp_mmio64 : ResourcePool; rp_io : ResourcePool; rp_windows : list PciWindow }.

Definition add_window (p : RootPools) (w : PciWindow) : res PciEcamError RootPools :=
  if pw_size w =? 0 then Ok p
  else
    let? end_ := ok_or (checked_add u64_max (pw_base w) (pw_size w)) PciConfigError in
    fail_if zlen (rp_windows p) =? MAX_PCI_ROOT_WINDOWS with PciConfigError;
    let windows := rp_windows p ++ [w] in
    match pw_kind w with
    | IoPort =>
        let? io := push_range (rp_io p) (pw_base w) end_ in
        Ok {| rp_mmio32 := rp_mmio32 p; rp_mmio64 := rp_mmio64 p; rp_io := io; rp_windows := windows |}
    | Mmio =>
        if is_below_4g w then
          let? m := push_range (rp_mmio32 p) (pw_base w) end_ in
          Ok {| rp_mmio32 := m; rp_mmio64 := rp_mmio64 p; rp_io := rp_io p; rp_windows := windows |}
        else
          let? m := push_range (rp_mmio64 p) (pw_base w) end_ in
          Ok {| rp_mmio32 := rp_mmio32 p; rp_mmio64 := m; rp_io := rp_io p; rp_windows := windows |}
    end.

(** [supplied] is what [resource_windows] returns. *)
Definition root_from_provider {T : Target} (info : PciRootInfo) (supplied : option (list PciWindow))
    : res PciEcamError PciRoot :=
  fail_if ri_bus_end info <? ri_bus_start info with PciConfigError;
  let? supplied := ok_or supplied PciConfigError in
  let? p := fold_each supplied {| rp_mmio32 := pool_empty; rp_mmio64 := pool_empty; rp_io := pool_empty; rp_windows := [] |} add_window in
  Ok {| rt_segment := ri_segment info; rt_ecam_base := as_usize (ri_ecam_base info);
        rt_ecam_size := as_usize (info_ecam_size info); rt_bus_start := ri_bus_start info; rt_bus_end := ri_bus_end info;
        rt_mmio32 := rp_mmio32 p; rt_mmio64 := rp_mmio64 p; rt_io := rp_io p; rt_windows := rp_windows p;
        rt_next_bus := ri_bus_start info + 1 |}.

Definition roots_overlap (root other : PciRoot) : bool :=
  (rt_segment other =? rt_segment root) && (rt_bus_start other <=? rt_bus_end root) && (rt_bus_start root <=? rt_bus_end other).

Definition from_providers {T : Target} {H} (hw : H) (providers : list (PciRootInfo * option (list PciWindow)))
    : res PciEcamError (PciEcam H) :=
  let? roots := fold_each providers [] (fun roots p =>
    let? root := root_from_provider (fst p) (snd p) in
    fail_if existsb (roots_overlap root) roots with PciConfigError;
    push MAX_PCI_ROOTS PciConfigError roots root) in
  fail_if zlen roots =? 0 with PciConfigError;
  Ok {| pe_roots := roots; pe_devices := []; pe_fixed_bars := []; pe_hw := hw |}.

(** The configuration from the board. *)
Record PciEcamConfig := {
  cf_ecam_base : Z; cf_ecam_size : Z; cf_mmio32_base : Z; cf_mmio32_size : Z; cf_mmio64_base : Z; cf_mmio64_size : Z;
  cf_pio_base : Z; cf_pio_size : Z; cf_bus_start : Z; cf_bus_end : Z
}.

Definition config_window (kind : PciWindowKind) (base size : Z) (prefetchable : bool) : list PciWindow :=
  if 0 <? size then [{| pw_kind := kind; pw_base := base; pw_size := size; pw_prefetchable := prefetchable |}] else [].

Definition from_config {T : Target} {H} (hw : H) (c : PciEcamConfig) : res PciEcamError (PciEcam H) :=
  fail_if cf_bus_end c <? cf_bus_start c with PciConfigError;
  let windows := config_window Mmio (cf_mmio32_base c) (cf_mmio32_size c) false
    ++ config_window Mmio (cf_mmio64_base c) (cf_mmio64_size c) true
    ++ config_window IoPort (cf_pio_base c) (cf_pio_size c) false in
  let? mmio32 := pool_new (cf_mmio32_base c) (cf_mmio32_size c) in
  let? mmio64 := pool_new (cf_mmio64_base c) (cf_mmio64_size c) in
  let? io := pool_new (cf_pio_base c) (cf_pio_size c) in
  Ok {| pe_roots := [{|
          rt_segment := 0; rt_ecam_base := as_usize (cf_ecam_base c); rt_ecam_size := as_usize (cf_ecam_size c);
          rt_bus_start := cf_bus_start c; rt_bus_end := cf_bus_end c; rt_mmio32 := mmio32; rt_mmio64 := mmio64;
          rt_io := io; rt_windows := windows; rt_next_bus := cf_bus_start c + 1 |}];
        pe_devices := []; pe_fixed_bars := []; pe_hw := hw |}.

Section ecam.
Context {T : Target} {H : Type} {CS : ConfigSpace H}.
#[local] Notation Pci := (PciEcam H).

Definition set_roots (s : Pci) (roots : list PciRoot) : Pci := {|
  pe_roots := roots; pe_devices := pe_devices s; pe_fixed_bars := pe_fixed_bars s; pe_hw := pe_hw s |}.
Definition set_devices (s : Pci) (devices : list PciDev) : Pci := {|
  pe_roots := pe_roots s; pe_devices := devices; pe_fixed_bars := pe_fixed_bars s; pe_hw := pe_hw s |}.
Definition set_fixed_bars (s : Pci) (bars : list PciFixedBar) : Pci := {|
  pe_roots := pe_roots s; pe_devices := pe_devices s; pe_fixed_bars := bars; pe_hw := pe_hw s |}.
Definition set_hw (s : Pci) (hw : H) : Pci := {|
  pe_roots := pe_roots s; pe_devices := pe_devices s; pe_fixed_bars := pe_fixed_bars s; pe_hw := hw |}.

(** The [Result] of a call as a value, and its [?]. *)
Definition attempt {A} (m : sres Pci PciEcamError A) : sres Pci PciEcamError (PciEcamError + A) := fun s =>
  match m s with
  | (s, Ok a) => (s, Ok (inr a)) | (s, Err e) => (s, Ok (inl e)) | (s, Panic) => (s, Panic)
  end.
Definition resume {A} (r : PciEcamError + A) : res PciEcamError A :=
  match r with inl e => Err e | inr a => Ok a end.

(** What a step reads of the state. *)
Definition gets {A} (f : Pci -> A) : sres Pci PciEcamError A := fun s => (s, Ok (f s)).
Definition ret {A} (a : A) : sres Pci PciEcamError A := slift (Ok a).
Definition fail {A} (e : PciEcamError) : sres Pci PciEcamError A := slift (Err e).

(** ** Configuration space ([ecam.rs]) *)

Definition FUNCTION_CONFIG_BYTES : Z := 0x1000.

Definition function_offset (a : PciAddress) : Z :=
  Z.lor (Z.lor (Z.shiftl (pa_bus a) 20) (Z.shiftl (pa_device a) 15)) (Z.shiftl (pa_function a) 12).

Definition span_address (config_base reg width : Z) : option Z :=
  checked_add usize_max reg width ≫= fun end_ =>
  if FUNCTION_CONFIG_BYTES <? end_ then None
  else
    checked_add usize_max config_base reg ≫= fun address =>
    checked_sub width 1 ≫= fun last =>
    checked_add usize_max address last ≫= fun _ => Some address.

Definition register_address (config_base reg width : Z) : option Z :=
  if negb (reg mod width =? 0) then None else span_address config_base reg width.

(** ** Setting the pools up *)

Definition configure_windows (mmio32_base mmio32_size mmio64_base mmio64_size pio_base pio_size : Z)
    : sres Pci PciEcamError unit := fun s =>
  match pe_roots s with
  | [root] =>
      if negb (zlen (pe_fixed_bars s) =? 0) then (s, Err PciConfigError)
      else
        (** each pool is stored as soon as it is made *)
        match pool_new mmio32_base mmio32_size with
        | Ok m32 =>
            let root := set_pools root m32 (rt_mmio64 root) (rt_io root) in
            match pool_new mmio64_base mmio64_size with
            | Ok m64 =>
                let root := set_pools root m32 m64 (rt_io root) in
                match pool_new pio_base pio_size with
                | Ok io => (set_roots s [rebuild_windows (set_pools root m32 m64 io)], Ok tt)
                | Err e => (set_roots s [root], Err e)
                | Panic => (set_roots s [root], Panic)
                end
            | Err e => (set_roots s [root], Err e)
            | Panic => (set_roots s [root], Panic)
            end
        | Err e => (s, Err e)
        | Panic => (s, Panic)
        end
  | _ => (s, Err PciConfigError)
  end.

Definition reserve_mmio_range (base size : Z) : sres Pci PciEcamError unit := fun s =>
  match map_roots (fun root =>
      let? m32 := reserve_range (rt_mmio32 root) base size in
      let? m64 := reserve_range (rt_mmio64 root) base size in
      Ok (set_pools root m32 m64 (rt_io root))) (pe_roots s) with
  | Ok roots => (set_roots s roots, Ok tt) | Err e => (s, Err e) | Panic => (s, Panic)
  end.

Definition reserve_io_range (base size : Z) : sres Pci PciEcamError unit := fun s =>
  if match checked_add u64_max base size with Some end_ => 0x10000 <? end_ | None => true end then (s, Err PciConfigError)
  else
    match map_roots (fun root =>
        let? io := reserve_range (rt_io root) base size in
        Ok (set_pools root (rt_mmio32 root) (rt_mmio64 root) io)) (pe_roots s) with
    | Ok roots => (set_roots s roots, Ok tt) | Err e => (s, Err e) | Panic => (s, Panic)
    end.

Definition root_of (roots : list PciRoot) (a : PciAddress) : option nat :=
  fst <$> list_find (fun r => root_contains r a = true) roots.

Definition validate_fixed_bar (roots : list PciRoot) (bar : PciFixedBar) : res PciEcamError nat :=
  let? end_ := ok_or (checked_add u64_max (fb_base bar) (fb_size bar)) FixedBarInvalid in
  let? root := ok_or (root_of roots (fb_address bar)) FixedBarInvalid in
  fail_if negb ((PCI_BAR0 <=? fb_register bar) && (fb_register bar <=? PCI_BAR0 + 5 * 4))
          || negb (is_multiple_of (fb_register bar - PCI_BAR0) 4)
          || (fb_size bar =? 0)
          || negb (is_power_of_two (fb_size bar))
          || (fb_base bar =? 0)
          || negb (Z.land (fb_base bar) (fb_size bar - 1) =? 0)
          || (bool_decide (fb_kind bar = FixedIo) && (0x10000 <? end_))
          || (bool_decide (fb_kind bar = FixedMemory32) && (0x100000000 <? end_))
          || (bool_decide (fb_kind bar = FixedIo) && fb_prefetchable bar) with FixedBarInvalid;
  fail_if bool_decide (fb_kind bar = FixedMemory64) && (fb_register bar =? PCI_BAR0 + 5 * 4) with FixedBarInvalid;
  Ok root.

Definition is_io (k : PciFixedBarType) : bool := bool_decide (k = FixedIo).

Definition fixed_bars_overlap (left right : PciFixedBar) : bool :=
  eqb (is_io (fb_kind left)) (is_io (fb_kind right))
  && (fb_base left <? saturating_add u64_max (fb_base right) (fb_size right))
  && (fb_base right <? saturating_add u64_max (fb_base left) (fb_size left)).

(** One round of [add_fixed_bars], on the copies. *)
Definition add_fixed_bar (own : list PciRoot) (c : list PciRoot * list PciFixedBar) (bar : PciFixedBar)
    : res PciEcamError (list PciRoot * list PciFixedBar) :=
  let '(roots, fixed) := c in
  let? i := validate_fixed_bar own bar in
  let? root := or_panic (roots !! i) in
  fail_if existsb (fun f => bool_decide (fb_address f = fb_address bar) && (fb_register f =? fb_register bar)) fixed
    with FixedBarConflict;
  fail_if existsb (fun f => fixed_bars_overlap f bar) fixed with FixedBarConflict;
  let? root :=
    (if is_io (fb_kind bar) then
       let? io := reserve_range (rt_io root) (fb_base bar) (fb_size bar) in
       Ok (set_pools root (rt_mmio32 root) (rt_mmio64 root) io)
     else
       let? m32 := reserve_range (rt_mmio32 root) (fb_base bar) (fb_size bar) in
       let? m64 := reserve_range (rt_mmio64 root) (fb_base bar) (fb_size bar) in
       Ok (set_pools root m32 m64 (rt_io root))) in
  let? fixed := push MAX_PCI_FIXED_BARS ResourceRangeLimit fixed bar in
  Ok (<[i := root]> roots, fixed).

Definition add_fixed_bars (bars : list PciFixedBar) : sres Pci PciEcamError unit := fun s =>
  match fold_each bars (pe_roots s, pe_fixed_bars s) (add_fixed_bar (pe_roots s)) with
  | Ok (roots, fixed) => (set_fixed_bars (set_roots s roots) fixed, Ok tt)
  | Err e => (s, Err e)
  | Panic => (s, Panic)
  end.

(** ** Access to a function *)

(** The mapped base of the function's registers.  The offset is not below the
    root's first bus, which [root_of] has looked at. *)
Definition device (roots : list PciRoot) (a : PciAddress) : option Z :=
  root_of roots a ≫= fun i => roots !! i ≫= fun root =>
  let offset := function_offset a in
  checked_sub offset (Z.shiftl (rt_bus_start root) 20) ≫= fun mapped =>
  checked_add usize_max mapped FUNCTION_CONFIG_BYTES ≫= fun end_ =>
  if rt_ecam_size root <? end_ then None else checked_add usize_max (rt_ecam_base root) offset.

(** The address of a register, for an access of [width] bytes. *)
Definition config_address (roots : list PciRoot) (a : PciAddress) (reg width : Z) : option Z :=
  device roots a ≫= fun base => register_address base reg width.

Definition config_read (width : Z) (a : PciAddress) (reg : Z) : sres Pci PciEcamError Z := fun s =>
  match config_address (pe_roots s) a reg width with
  | Some address => (s, Ok (mmio_read (pe_hw s) width address))
  | None => (s, Panic)
  end.

Definition config_write (width : Z) (a : PciAddress) (reg v : Z) : sres Pci PciEcamError unit := fun s =>
  match config_address (pe_roots s) a reg width with
  | Some address => (set_hw s (mmio_write (pe_hw s) width address v), Ok tt)
  | None => (s, Panic)
  end.

Definition read8 := config_read 1.
Definition read16 := config_read 2.
Definition read32 := config_read 4.
Definition write16 := config_write 2.
Definition write32 := config_write 4.

(** ** Sizing *)

(** [moving] are the bits software can change; the lowest address bit of them is
    the size. *)
Definition size_from_moving_bits (moving address_mask : Z) : res PciEcamError Z :=
  let address_bits := Z.land moving address_mask in
  fail_if address_bits =? 0 with PciConfigError;
  Ok (Z.shiftl 1 (trailing_zeros address_bits)).

Definition bar_type_of (k : PciFixedBarType) : BarType :=
  match k with FixedIo => BarIo | FixedMemory32 => BarMemory32 | FixedMemory64 => BarMemory64 end.

Definition no_bar (reg : Z) : BarInfo := {|
  bi_type := NoBar; bi_size := 0; bi_prefetchable := false; bi_reg := reg; bi_allocated := false; bi_fixed := false |}.

Definition movable_bar (type : BarType) (size : Z) (prefetchable : bool) (reg : Z) : BarInfo := {|
  bi_type := type; bi_size := size; bi_prefetchable := prefetchable; bi_reg := reg; bi_allocated := false; bi_fixed := false |}.

Definition MEMORY_MASK : Z := 0xFFFFFFF0.

(** A BAR the chipset owns is only compared with what was declared. *)
Definition check_fixed_bar (addr : PciAddress) (reg original : Z) (fixed : PciFixedBar) : sres Pci PciEcamError (BarInfo * bool) :=
  let! original_base :=
    match fb_kind fixed with
    | FixedIo =>
        if Z.land original 1 =? 1 then ret (Z.land original 0xFFFC) else fail FixedBarInvalid
    | FixedMemory32 =>
        if (Z.land original 1 =? 0) && (Z.land (Z.shiftr original 1) 3 =? 0) then ret (Z.land original MEMORY_MASK)
        else fail FixedBarInvalid
    | FixedMemory64 =>
        if (Z.land original 1 =? 0) && (Z.land (Z.shiftr original 1) 3 =? 2) then
          let! hi := read32 addr (reg + 4) in ret (Z.lor (Z.shiftl hi 32) (Z.land original MEMORY_MASK))
        else fail FixedBarInvalid
    end in
  let! _ := slift (fail_if negb (original_base =? fb_base fixed)
    || (negb (is_io (fb_kind fixed)) && negb (eqb (negb (Z.land original 8 =? 0)) (fb_prefetchable fixed)))
    with FixedBarInvalid; Ok tt) in
  ret ({| bi_type := bar_type_of (fb_kind fixed); bi_size := fb_size fixed; bi_prefetchable := fb_prefetchable fixed;
          bi_reg := reg; bi_allocated := true; bi_fixed := true |}, bool_decide (fb_kind fixed = FixedMemory64)).

(** Both halves of a 64-bit BAR. *)
Definition probe_memory64 (addr : PciAddress) (reg original : Z) (prefetchable : bool) : sres Pci PciEcamError (BarInfo * bool) :=
  let upper_reg := reg + 4 in
  let! original_hi := read32 addr upper_reg in
  let! _ := write32 addr reg 0xFFFFFFFF in
  let! _ := write32 addr upper_reg 0xFFFFFFFF in
  let! ones_lo := read32 addr reg in
  let! ones_hi := read32 addr upper_reg in
  let! _ := write32 addr reg 0 in
  let! _ := write32 addr upper_reg 0 in
  let! zeroes_lo := read32 addr reg in
  let! zeroes_hi := read32 addr upper_reg in
  let! _ := write32 addr upper_reg original_hi in
  let! _ := write32 addr reg original in
  let moving := Z.lor (Z.shiftl (Z.lxor ones_hi zeroes_hi) 32) (Z.lxor ones_lo zeroes_lo) in
  let! size := slift (size_from_moving_bits moving 0xFFFFFFFFFFFFFFF0) in
  ret (movable_bar BarMemory64 size prefetchable reg, true).

(** The BAR and whether it takes two slots. *)
Definition size_bar (addr : PciAddress) (bar_idx : Z) : sres Pci PciEcamError (BarInfo * bool) :=
  let reg := PCI_BAR0 + bar_idx * 4 in
  let! original := read32 addr reg in
  let! fixed := gets (fun s => List.find (fun f => bool_decide (fb_address f = addr) && (fb_register f =? reg)) (pe_fixed_bars s)) in
  match fixed with
  | Some fixed => check_fixed_bar addr reg original fixed
  | None =>
      let! _ := write32 addr reg 0xFFFFFFFF in
      let! ones := read32 addr reg in
      let! _ := write32 addr reg 0 in
      let! zeroes := read32 addr reg in
      let! _ := write32 addr reg original in
      let moving_lo := Z.lxor ones zeroes in
      if moving_lo =? 0 then ret (no_bar reg, false)
      else
        let attributes := Z.land original (not_mask 32 moving_lo) in
        if Z.land attributes 1 =? 1 then
          let! size := slift (size_from_moving_bits moving_lo 0xFFFC) in
          ret (movable_bar BarIo size false reg, false)
        else
          let prefetchable := negb (Z.land attributes 8 =? 0) in
          let kind := Z.land (Z.shiftr attributes 1) 3 in
          if kind =? 0 then
            let! size := slift (size_from_moving_bits moving_lo MEMORY_MASK) in
            ret (movable_bar BarMemory32 size prefetchable reg, false)
          else if kind =? 2 then probe_memory64 addr reg original prefetchable
          else ret (no_bar reg, false)
  end.

Definition max_bars (header_type base_class : Z) : Z :=
  if header_type =? PCI_HEADER_TYPE_BRIDGE then 2
  else if header_type =? PCI_HEADER_TYPE_CARDBUS then 1
  else if base_class =? 0x06 then 0
  else 6.

(** The loop over the BARs, six at most. *)
Fixpoint probe_bars (fuel : nat) (addr : PciAddress) (max i : Z) (bars : list BarInfo) : sres Pci PciEcamError (list BarInfo) :=
  if negb (i <? max) then ret bars
  else
    match fuel with
    | O => slift Panic
    | S fuel =>
        let! (info, is_64) := size_bar addr i in
        probe_bars fuel addr max (if is_64 then i + 2 else i + 1) (<[Z.to_nat i := info]> bars)
    end.

Definition no_decode (command : Z) : Z := Z.land command (not_mask 16 (Z.lor PCI_CMD_IO PCI_CMD_MEMORY)).

Definition probe_device (addr : PciAddress) : sres Pci PciEcamError (option PciDev) :=
  let! vendor_device := read32 addr PCI_VENDOR_ID in
  if vendor_device =? PCI_VENDOR_INVALID then ret None
  else
    let! dev := gets (fun s => device (pe_roots s) addr) in
    let! _ := slift (ok_or dev PciConfigError) in
    let! header := read8 addr PCI_HEADER_TYPE in
    let header_type := Z.land header 0x7f in
    let! class := read32 addr 0x08 in
    let base_class := Z.shiftr class 24 in
    let! command := read16 addr PCI_COMMAND in
    let! _ := write16 addr PCI_COMMAND (no_decode command) in
    (** the command is restored whatever sizing returns *)
    let! sizing_result := attempt (probe_bars 6 addr (max_bars header_type base_class) 0 (replicate 6 (no_bar 0))) in
    let! _ := write16 addr PCI_COMMAND command in
    let! bars := slift (resume sizing_result) in
    let! root := gets (fun s => root_of (pe_roots s) addr) in
    let! root := slift (ok_or root PciConfigError) in
    ret (Some {| pd_addr := addr; pd_root := root; pd_header_type := header_type; pd_original_command := command;
                 pd_bars := bars; pd_secondary_bus := 0; pd_subordinate_bus := 0 |}).

(** ** Enumeration *)

Definition root_at (i : nat) : sres Pci PciEcamError PciRoot := fun s => (s, or_panic (pe_roots s !! i)).

Definition next_bus (i : nat) (bus_end : Z) : sres Pci PciEcamError Z :=
  let! root := root_at i in
  slift (match try_from u8_max (rt_next_bus root) with
         | Some next => if next <=? bus_end then Ok next else Err ResourceExhausted
         | None => Err ResourceExhausted
         end).

Definition store_next_bus (i : nat) (n : Z) : sres Pci PciEcamError unit := fun s =>
  (set_roots s (alter (set_next_bus n) i (pe_roots s)), Ok tt).

Definition bus_numbers (primary secondary subordinate : Z) : Z :=
  Z.lor (Z.lor primary (Z.shiftl secondary 8)) (Z.shiftl subordinate 16).

Definition push_device (d : PciDev) : sres Pci PciEcamError unit := fun s =>
  match push MAX_PCI_DEVICES PciConfigError (pe_devices s) d with
  | Ok devices => (set_devices s devices, Ok tt) | Err e => (s, Err e) | Panic => (s, Panic)
  end.

(** A bridge is numbered, scanned by [scan], and given its last bus. *)
Definition enumerate_bridge (scan : Z -> sres Pci PciEcamError unit) (root : nat) (bus bus_end : Z) (faddr : PciAddress)
    (d : PciDev) : sres Pci PciEcamError PciDev :=
  let! secondary := next_bus root bus_end in
  let! r := root_at root in
  let! _ := store_next_bus root (rt_next_bus r + 1) in
  let! _ := write32 faddr PCI_PRIMARY_BUS (bus_numbers bus secondary bus_end) in
  let! _ := scan secondary in
  let! r := root_at root in
  let subordinate := (rt_next_bus r - 1) mod 256 in
  let! _ := write32 faddr PCI_PRIMARY_BUS (bus_numbers bus secondary subordinate) in
  ret (set_buses d secondary subordinate).

(** Four buses for the cards of a CardBus bridge. *)
Definition enumerate_cardbus (root : nat) (bus bus_end : Z) (faddr : PciAddress) (d : PciDev) : sres Pci PciEcamError PciDev :=
  let! secondary := next_bus root bus_end in
  let subordinate := Z.min (saturating_add u8_max secondary 3) bus_end in
  let! _ := store_next_bus root (subordinate + 1) in
  let! _ := write32 faddr PCI_PRIMARY_BUS (bus_numbers bus secondary subordinate) in
  ret (set_buses d secondary subordinate).

Definition enumerate_function (scan : Z -> sres Pci PciEcamError unit) (root : nat) (segment bus bus_end dev func : Z)
    : sres Pci PciEcamError unit :=
  let faddr := {| pa_segment := segment; pa_bus := bus; pa_device := dev; pa_function := func |} in
  let! absent := (if 0 <? func then let! v := read32 faddr PCI_VENDOR_ID in ret (v =? PCI_VENDOR_INVALID) else ret false) in
  if (absent : bool) then ret tt
  else
    let! d := probe_device faddr in
    match d with
    | None => ret tt
    | Some d =>
        let! d := (if pd_header_type d =? PCI_HEADER_TYPE_BRIDGE then enumerate_bridge scan root bus bus_end faddr d
                   else if pd_header_type d =? PCI_HEADER_TYPE_CARDBUS then enumerate_cardbus root bus bus_end faddr d
                   else ret d) in
        push_device d
    end.

Definition indices (n : nat) : list Z := map Z.of_nat (seq 0 n).

Definition enumerate_slot (scan : Z -> sres Pci PciEcamError unit) (root : nat) (segment bus bus_end dev : Z)
    : sres Pci PciEcamError unit :=
  let addr := {| pa_segment := segment; pa_bus := bus; pa_device := dev; pa_function := 0 |} in
  let! v := read32 addr PCI_VENDOR_ID in
  if v =? PCI_VENDOR_INVALID then ret tt
  else
    let! d := gets (fun s => device (pe_roots s) addr) in
    let! _ := slift (ok_or d PciConfigError) in
    let! header := read8 addr PCI_HEADER_TYPE in
    let max_func := if negb (Z.land header PCI_HEADER_TYPE_MULTI_FUNC =? 0) then 8%nat else 1%nat in
    sfor_each (indices max_func) (enumerate_function scan root segment bus bus_end dev).

(** Every nested call has a bus number of its own, so that 256 levels are enough. *)
Fixpoint enumerate_bus (fuel : nat) (root : nat) (bus : Z) : sres Pci PciEcamError unit :=
  match fuel with
  | O => slift Panic
  | S fuel =>
      let! r := root_at root in
      sfor_each (indices 32)
        (enumerate_slot (enumerate_bus fuel root) root (rt_segment r) bus (rt_bus_end r))
  end.

(** ** Allocation *)

(** Not on its root bus; the device's root is one [root_of] has found. *)
Definition behind_bridge (roots : list PciRoot) (d : PciDev) : bool :=
  match roots !! pd_root d with Some r => negb (pa_bus (pd_addr d) =? rt_bus_start r) | None => true end.

Definition endpoint_in_pass (roots : list PciRoot) (d : PciDev) (pass : Z) : bool :=
  if pd_header_type d =? PCI_HEADER_TYPE_BRIDGE then false
  else ((pass =? 0) && negb (behind_bridge roots d)) || ((pass =? 1) && behind_bridge roots d).

Definition bar_allocation_alignment (roots : list PciRoot) (d : PciDev) (bar : BarInfo) : Z :=
  match bi_type bar with
  | BarMemory32 | BarMemory64 => if behind_bridge roots d then Z.max (bi_size bar) 0x100000 else bi_size bar
  | BarIo => if behind_bridge roots d then Z.max (bi_size bar) 0x1000 else bi_size bar
  | NoBar => 0
  end.

(** [bar_allocation_rank]: the bus (lowest first), the low window, the alignment. *)
Record BarRank := { br_bus : Z; br_low : Z; br_align : Z }.

Definition bar_allocation_rank (roots : list PciRoot) (d : PciDev) (bar : BarInfo) : BarRank := {|
  br_bus := pa_bus (pd_addr d); br_low := if bool_decide (bi_type bar = BarMemory32) then 1 else 0;
  br_align := bar_allocation_alignment roots d bar |}.

Definition rank_gt (a b : BarRank) : bool :=
  (br_bus a <? br_bus b)
  || ((br_bus a =? br_bus b) && ((br_low b <? br_low a) || ((br_low a =? br_low b) && (br_align b <? br_align a)))).

Definition unplaced (bar : BarInfo) : bool := negb (bool_decide (bi_type bar = NoBar) || bi_fixed bar || bi_allocated bar).

(** The BARs of the devices in order, with their indices. *)
Definition device_bars (p : nat * PciDev) : list (nat * nat * PciDev * BarInfo) :=
  imap (fun j bar => (p.1, j, p.2, bar)) (pd_bars p.2).

Definition all_bars (devices : list PciDev) : list (nat * nat * PciDev * BarInfo) :=
  concat (map device_bars (imap pair devices)).

(** A later BAR replaces the best one only with a higher rank. *)
Definition better (roots : list PciRoot) (best : option (nat * nat * BarRank)) (x : nat * nat * PciDev * BarInfo)
    : option (nat * nat * BarRank) :=
  let '(i, j, d, bar) := x in
  let rank := bar_allocation_rank roots d bar in
  match best with
  | Some (_, _, best_rank) => if rank_gt rank best_rank then Some (i, j, rank) else best
  | None => Some (i, j, rank)
  end.

Definition next_bar_to_allocate (pass : Z) (s : Pci) : option (nat * nat) :=
  fst <$> fold_left (better (pe_roots s))
    (filter (fun x => endpoint_in_pass (pe_roots s) x.1.2 pass && unplaced x.2 = true) (all_bars (pe_devices s))) None.

(** The bytes below 4 GiB that are still needed. *)
Definition pending_low_bytes (root : nat) (s : Pci) : res PciEcamError Z :=
  fold_each
    (filter (fun x => bool_decide (pd_root x.1.2 = root) && negb (pd_header_type x.1.2 =? PCI_HEADER_TYPE_BRIDGE)
                      && bool_decide (bi_type x.2 = BarMemory32) && negb (bi_fixed x.2) && negb (bi_allocated x.2) = true)
      (all_bars (pe_devices s)))
    0 (fun n x => add_or_panic u64_max n (bar_allocation_alignment (pe_roots s) x.1.2 x.2)).

(** The pool a BAR is placed in, for the base and the root afterwards. *)
Definition place_bar (root : PciRoot) (type : BarType) (size align pending : Z) : res PciEcamError (option (Z * PciRoot)) :=
  let low p := set_pools root p (rt_mmio64 root) (rt_io root) in
  let high p := set_pools root (rt_mmio32 root) p (rt_io root) in
  match type with
  | BarMemory32 => Ok ((fun x => (x.1, low x.2)) <$> allocate_aligned (rt_mmio32 root) size align)
  | BarMemory64 =>
      let? fits :=
        match allocate_aligned (rt_mmio32 root) size align with
        | Some (base, p) => let? n := free_bytes p in Ok (if pending <=? n then Some (base, low p) else None)
        | None => Ok None
        end in
      match fits with
      | Some x => Ok (Some x)
      | None => Ok ((fun x => (x.1, high x.2)) <$> allocate_aligned (rt_mmio64 root) size align)
      end
  | BarIo => Ok ((fun x => (x.1, set_pools root (rt_mmio32 root) (rt_mmio64 root) x.2)) <$> allocate_aligned (rt_io root) size align)
  | NoBar => Ok None
  end.

Definition u32_of (v : Z) : Z := v mod 2 ^ 32.

Definition prefetch_bit (bar : BarInfo) : Z := if bi_prefetchable bar then 8 else 0.

(** Decode is off while the BAR is written. *)
Definition program_bar (d : PciDev) (bar : BarInfo) (base : Z) : sres Pci PciEcamError unit :=
  let! _ := write16 (pd_addr d) PCI_COMMAND (no_decode (pd_original_command d)) in
  let! _ :=
    match bi_type bar with
    | BarMemory32 => write32 (pd_addr d) (bi_reg bar) (Z.lor (Z.land (u32_of base) MEMORY_MASK) (prefetch_bit bar))
    | BarMemory64 =>
        let! _ := write32 (pd_addr d) (bi_reg bar)
          (Z.lor (Z.lor (Z.land (u32_of base) MEMORY_MASK) 4) (prefetch_bit bar)) in
        write32 (pd_addr d) (bi_reg bar + 4) (u32_of (Z.shiftr base 32))
    | BarIo => write32 (pd_addr d) (bi_reg bar) (Z.lor (u32_of base) 1)
    | NoBar => ret tt
    end in
  write16 (pd_addr d) PCI_COMMAND (pd_original_command d).

Definition device_at (i : nat) : sres Pci PciEcamError PciDev := fun s => (s, or_panic (pe_devices s !! i)).

Definition allocate_one_bar (i j : nat) : sres Pci PciEcamError unit :=
  let! d := device_at i in
  let! bar := slift (or_panic (pd_bars d !! j)) in
  let! align := gets (fun s => bar_allocation_alignment (pe_roots s) d bar) in
  let! pending := fun s => (s, pending_low_bytes (pd_root d) s) in
  let! root := root_at (pd_root d) in
  let! placed := slift (place_bar root (bi_type bar) (bi_size bar) align pending) in
  let! (base, root) := slift (ok_or placed ResourceExhausted) in
  let! _ := fun s => (set_roots s (<[pd_root d := root]> (pe_roots s)), Ok tt) in
  let! _ := program_bar d bar base in
  fun s => (set_devices s (alter (set_bar_allocated j) i (pe_devices s)), Ok tt).

(** [while let Some(..) = next_bar_to_allocate(pass)] *)
Fixpoint allocate_pass (fuel : nat) (pass : Z) : sres Pci PciEcamError unit := fun s =>
  match next_bar_to_allocate pass s with
  | None => (s, Ok tt)
  | Some (i, j) =>
      match fuel with
      | O => (s, Panic)
      | S fuel => sbind (allocate_one_bar i j) (fun _ => allocate_pass fuel pass) s
      end
  end.

(** The number of BARs: every round places one. *)
Definition bar_count (s : Pci) : nat := length (all_bars (pe_devices s)).

Definition allocate_bars : sres Pci PciEcamError unit :=
  let! fuel := gets bar_count in
  let! _ := allocate_pass fuel 0 in
  allocate_pass fuel 1.

Definition is_memory (t : BarType) : bool := bool_decide (t = BarMemory32) || bool_decide (t = BarMemory64).

Definition enable_decode (d : PciDev) : sres Pci PciEcamError unit :=
  if pd_header_type d =? PCI_HEADER_TYPE_BRIDGE then ret tt
  else
    let has_io := existsb (fun bar => bi_allocated bar && bool_decide (bi_type bar = BarIo)) (pd_bars d) in
    let has_memory := existsb (fun bar => bi_allocated bar && is_memory (bi_type bar)) (pd_bars d) in
    let cmd := pd_original_command d in
    let cmd := if has_io then Z.lor cmd PCI_CMD_IO else cmd in
    let cmd := if has_memory then Z.lor cmd PCI_CMD_MEMORY else cmd in
    write16 (pd_addr d) PCI_COMMAND (Z.lor cmd PCI_CMD_BUS_MASTER).

(** ** Bridge windows *)

(** A span of addresses, empty when [sp_hi] is not above [sp_lo]. *)
Record Span := { sp_lo : Z; sp_hi : Z }.
Definition empty_span : Span := {| sp_lo := u64_max; sp_hi := 0 |}.
Definition widen (sp : Span) (base end_ : Z) : Span := {| sp_lo := Z.min (sp_lo sp) base; sp_hi := Z.max (sp_hi sp) end_ |}.

Record Spans := { ss_mem : Span; ss_pref : Span; ss_io : Span }.
Definition empty_spans : Spans := {| ss_mem := empty_span; ss_pref := empty_span; ss_io := empty_span |}.

(** The programmed base of a BAR. *)
Definition bar_base (d : PciDev) (bar : BarInfo) : sres Pci PciEcamError Z :=
  let! lo := read32 (pd_addr d) (bi_reg bar) in
  let base_lo := Z.land lo MEMORY_MASK in
  if bool_decide (bi_type bar = BarMemory64) then
    let! hi := read32 (pd_addr d) (bi_reg bar + 4) in ret (Z.lor (Z.shiftl hi 32) base_lo)
  else ret base_lo.

Definition span_bar (d : PciDev) (ss : Spans) (bar : BarInfo) : sres Pci PciEcamError Spans :=
  if bool_decide (bi_type bar = NoBar) then ret ss
  else if bool_decide (bi_type bar = BarIo) then
    let! v := read32 (pd_addr d) (bi_reg bar) in
    let base := Z.land v 0xFFFC in
    if negb (base =? 0) then
      let! end_ := slift (add_or_panic u64_max base (bi_size bar)) in
      ret {| ss_mem := ss_mem ss; ss_pref := ss_pref ss; ss_io := widen (ss_io ss) base end_ |}
    else ret ss
  else
    let! base := bar_base d bar in
    if base =? 0 then ret ss
    else
      let! end_ := slift (add_or_panic u64_max base (bi_size bar)) in
      ret (if bi_prefetchable bar then {| ss_mem := ss_mem ss; ss_pref := widen (ss_pref ss) base end_; ss_io := ss_io ss |}
           else {| ss_mem := widen (ss_mem ss) base end_; ss_pref := ss_pref ss; ss_io := ss_io ss |}).

(** A variable updated by the rounds of a loop. *)
Fixpoint sfold_each {A B} (l : list A) (b : B) (f : B -> A -> sres Pci PciEcamError B) : sres Pci PciEcamError B :=
  match l with
  | [] => ret b
  | x :: l => let! b := f b x in sfold_each l b f
  end.

Definition below (bridge child : PciDev) : bool :=
  bool_decide (pd_root child = pd_root bridge) && (pd_secondary_bus bridge <=? pa_bus (pd_addr child))
  && (pa_bus (pd_addr child) <=? pd_subordinate_bus bridge).

Definition span_child (bridge : PciDev) (ss : Spans) (child : PciDev) : sres Pci PciEcamError Spans :=
  if below bridge child then sfold_each (pd_bars child) ss (span_bar child) else ret ss.

(** Base in the low half, limit in the high half, in units of 1 MiB. *)
Definition window_register (sp : Span) : Z :=
  Z.lor (Z.land (Z.shiftr (sp_lo sp) 16) 0xFFF0 mod 2 ^ 16)
        (Z.shiftl (Z.land (Z.shiftr (sp_hi sp - 1) 16) 0xFFF0 mod 2 ^ 16) 16).

Definition io_register (sp : Span) : Z :=
  Z.lor (Z.land (Z.shiftr (sp_lo sp) 8) 0xF0 mod 2 ^ 8)
        (Z.shiftl (Z.land (Z.shiftr (sp_hi sp - 1) 8) 0xF0 mod 2 ^ 8) 8).

Definition program_windows (a : PciAddress) (ss : Spans) : sres Pci PciEcamError unit :=
  let mem := ss_mem ss in
  let pref := ss_pref ss in
  let io := ss_io ss in
  let! _ := (if sp_lo mem <? sp_hi mem then write32 a PCI_MEMORY_BASE (window_register mem)
             else write32 a PCI_MEMORY_BASE 0x0000FFFF) in
  let! _ :=
    (if sp_lo pref <? sp_hi pref then
       let! _ := write32 a PCI_PREF_MEMORY_BASE (window_register pref) in
       let! _ := write32 a PCI_PREF_BASE_UPPER32 (u32_of (Z.shiftr (sp_lo pref) 32)) in
       write32 a PCI_PREF_LIMIT_UPPER32 (u32_of (Z.shiftr (sp_hi pref - 1) 32))
     else
       let! _ := write32 a PCI_PREF_MEMORY_BASE 0x0000FFFF in
       let! _ := write32 a PCI_PREF_BASE_UPPER32 0 in
       write32 a PCI_PREF_LIMIT_UPPER32 0) in
  if sp_lo io <? sp_hi io then write32 a PCI_IO_BASE (io_register io) else write32 a PCI_IO_BASE 0x00FF.

Definition program_bridge (bridge : PciDev) : sres Pci PciEcamError unit :=
  if negb (pd_header_type bridge =? PCI_HEADER_TYPE_BRIDGE) then ret tt
  else
    let! devices := gets pe_devices in
    let! ss := sfold_each devices empty_spans (span_child bridge) in
    let! _ := program_windows (pd_addr bridge) ss in
    write16 (pd_addr bridge) PCI_COMMAND
      (Z.lor (Z.lor (Z.lor (pd_original_command bridge) PCI_CMD_IO) PCI_CMD_MEMORY) PCI_CMD_BUS_MASTER).

Definition allocate_resources : sres Pci PciEcamError unit :=
  let! _ := allocate_bars in
  let! devices := gets pe_devices in
  let! _ := sfor_each devices enable_decode in
  sfor_each devices program_bridge.

(** ** The whole *)

Definition discovered (devices : list PciDev) (fixed : PciFixedBar) : bool :=
  existsb (fun d => bool_decide (pd_addr d = fb_address fixed)
    && existsb (fun bar => bi_fixed bar && (bi_reg bar =? fb_register fixed)) (pd_bars d)) devices.

Definition enumerate_root (root : nat) : sres Pci PciEcamError unit :=
  let! r := root_at root in enumerate_bus 256 root (rt_bus_start r).

(** Every root, in order. *)
Definition enumerate_roots : sres Pci PciEcamError unit := fun s =>
  sfor_each (seq 0 (length (pe_roots s))) enumerate_root s.

Definition enumerate_and_allocate : sres Pci PciEcamError unit :=
  let! _ := enumerate_roots in
  let! missing := gets (fun s => existsb (fun fixed => negb (discovered (pe_devices s) fixed)) (pe_fixed_bars s)) in
  if (missing : bool) then fail FixedBarInvalid
  else
    let! empty := gets (fun s => zlen (pe_devices s) =? 0) in
    if (empty : bool) then ret tt else allocate_resources.

(** ** Queries *)

Definition devices (s : Pci) : list PciAddress := map pd_addr (pe_devices s).

Definition is_bridge (d : PciDev) : bool :=
  (pd_header_type d =? PCI_HEADER_TYPE_BRIDGE) || (pd_header_type d =? PCI_HEADER_TYPE_CARDBUS).

(** The loop of [device_path]; [path] is in reverse.  A path repeats no device, so
    that it ends before the fuel does. *)
Fixpoint path_loop (fuel : nat) (s : Pci) (root_index : nat) (root_bus : Z) (path : list PciAddress) (current : PciAddress)
    : option (list PciAddress) :=
  match fuel with
  | O => None
  | S fuel =>
      if existsb (fun a => bool_decide (a = current)) path then None
      else if MAX_PCI_DEVICES <=? zlen path then None
      else
        let path := current :: path in
        if pa_bus current =? root_bus then Some path
        else
          match filter (fun d => is_bridge d && (pd_secondary_bus d =? pa_bus current)
                                 && bool_decide (root_of (pe_roots s) (pd_addr d) = Some root_index) = true) (pe_devices s) with
          | [parent] => path_loop fuel s root_index root_bus path (pd_addr parent)
          | _ => None
          end
  end.

Definition device_path (s : Pci) (address : PciAddress) : option (list PciAddress) :=
  if negb (existsb (fun d => bool_decide (pd_addr d = address)) (pe_devices s)) then None
  else
    root_of (pe_roots s) address ≫= fun root_index => pe_roots s !! root_index ≫= fun root =>
    path_loop (S (Z.to_nat MAX_PCI_DEVICES)) s root_index (rt_bus_start root) [] address.

Definition assigned_bar (d : PciDev) (l : list (PciAddress * PciWindow)) (bar : BarInfo)
    : sres Pci PciEcamError (list (PciAddress * PciWindow)) :=
  if negb (bi_allocated bar) || negb (is_memory (bi_type bar)) then ret l
  else
    let! base := bar_base d bar in
    ret (l ++ [(pd_addr d, {| pw_kind := Mmio; pw_base := base; pw_size := bi_size bar; pw_prefetchable := bi_prefetchable bar |})]).

Definition assigned_memory_bars : sres Pci PciEcamError (list (PciAddress * PciWindow)) :=
  let! devices := gets pe_devices in
  sfold_each devices [] (fun l d => sfold_each (pd_bars d) l (assigned_bar d)).

Definition assigned_memory_windows : sres Pci PciEcamError (list PciWindow) :=
  let! l := assigned_memory_bars in ret (map snd l).

Definition keep_vga (l : list PciWindow) (x : PciAddress * PciWindow) : sres Pci PciEcamError (list PciWindow) :=
  if pw_prefetchable x.2 then
    let! dev := gets (fun s => device (pe_roots s) x.1) in
    match dev with
    | None => ret l
    | Some _ => let! class := read32 x.1 0x08 in ret (if Z.shiftr class 16 =? 0x0300 then l ++ [x.2] else l)
    end
  else ret l.

Definition prefetchable_vga_windows : sres Pci PciEcamError (list PciWindow) :=
  let! l := assigned_memory_bars in sfold_each l [] keep_vga.
End ecam.

(** ** Frames

    Configuration accesses change the hardware and nothing else. *)

Section frames.
Context {T : Target} {H : Type} {CS : ConfigSpace H}.
#[local] Notation Pci := (PciEcam H).

Definition only_hw (s s' : Pci) : Prop :=
  pe_roots s' = pe_roots s /\ pe_devices s' = pe_devices s /\ pe_fixed_bars s' = pe_fixed_bars s.

#[export] Instance only_hw_refl : Reflexive only_hw.
Proof. done. Qed.
#[export] Instance only_hw_trans : Transitive only_hw.
Proof. intros s1 s2 s3 (? & ? & ?) (? & ? & ?). unfold only_hw. split_and!; congruence. Qed.

Lemma only_hw_read w a reg s : only_hw s (fst (config_read w a reg s)).
Proof. unfold config_read. by destruct (config_address _ _ _ _). Qed.

Lemma only_hw_write w a reg v s : only_hw s (fst (config_write w a reg v s)).
Proof. unfold config_write. by destruct (config_address _ _ _ _). Qed.

Lemma only_hw_lift {A} (r : res PciEcamError A) s : only_hw s (fst (slift r s)).
Proof. done. Qed.

Lemma only_hw_bind {A B} (m : sres Pci PciEcamError A) (k : A -> sres Pci PciEcamError B) s :
  only_hw s (fst (m s)) -> (forall a s1, only_hw s1 (fst (k a s1))) -> only_hw s (fst (sbind m k s)).
Proof. intros Hm Hk. apply (sbind_keeps only_hw); [done|]. intros a _. apply Hk. Qed.

Lemma only_hw_run {A} (m : sres Pci PciEcamError A) s s' r : only_hw s (fst (m s)) -> m s = (s', r) -> only_hw s s'.
Proof. intros Hm E. by rewrite E in Hm. Qed.
End frames.

Create HintDb pci.
#[export] Hint Resolve only_hw_read only_hw_write only_hw_lift : pci.

(** Walks the calls of a routine. *)
Ltac hw_only :=
  repeat first
    [ done
    | solve [auto with pci]
    | progress unfold read8, read16, read32, write16, write32, ret, fail, gets
    | apply only_hw_bind; [|intros ? ?]
    | match goal with |- context [match ?x with _ => _ end] => destruct x end ].

Section frames.
Context {T : Target} {H : Type} {CS : ConfigSpace H}.
#[local] Notation Pci := (PciEcam H).

Lemma only_hw_program d bar base (s : Pci) : only_hw s (fst (program_bar d bar base s)).
Proof. unfold program_bar. hw_only. Qed.

Lemma only_hw_check_fixed addr reg original fixed (s : Pci) : only_hw s (fst (check_fixed_bar addr reg original fixed s)).
Proof. unfold check_fixed_bar. hw_only. Qed.

Lemma only_hw_memory64 addr reg original prefetchable (s : Pci) :
  only_hw s (fst (probe_memory64 addr reg original prefetchable s)).
Proof. unfold probe_memory64. hw_only. Qed.

Lemma only_hw_size_bar addr i (s : Pci) : only_hw s (fst (size_bar addr i s)).
Proof. unfold size_bar. pose proof only_hw_check_fixed. pose proof only_hw_memory64. hw_only. Qed.

Lemma only_hw_probe_bars fuel addr max : forall i bars (s : Pci), only_hw s (fst (probe_bars fuel addr max i bars s)).
Proof.
  induction fuel as [|fuel IH]; intros i bars s; cbn [probe_bars]; (destruct (negb (i <? max)); [done|]); [done|].
  apply only_hw_bind; [apply only_hw_size_bar|]. intros [info is_64] s1. apply IH.
Qed.

Lemma only_hw_attempt {A} (m : sres Pci PciEcamError A) s : only_hw s (fst (m s)) -> only_hw s (fst (attempt m s)).
Proof. unfold attempt. by destruct (m s) as [? [?|?|]]. Qed.

Lemma only_hw_probe_device addr (s : Pci) : only_hw s (fst (probe_device addr s)).
Proof. unfold probe_device. pose proof only_hw_probe_bars. repeat (hw_only; try apply only_hw_attempt). Qed.
End frames.
