(* ===== verification/PciEnum.v ===== *)
(** * PciEnum: what the enumeration of [Pci.v] does

    A scan of a root numbers the bridges depth first and records what it finds:
    [scanned] is that traversal without the hardware, [enumerate_bus] refines it,
    and the properties of the numbering are proved by induction on it.  The sizes
    the BARs get are powers of two whatever the hardware answers. *)

From S2P Require Import Prelude.
From S2P Require Import Bits.
From S2P Require Import Bytes.
From S2P Require Import Services.
From S2P Require Import Memory.
From S2P Require Import BootMedia.
From S2P Require Import PciPool.
From S2P Require Import Pci.
From Stdlib Require Import ZArith Lia.
From stdpp Require Import base numbers list option.

#[local] Open Scope Z_scope.

(** ** Sizes *)

Lemma land_high_mask x j w : 0 <= j <= w -> Z.land x (not_mask w (2 ^ j - 1)) = x mod 2 ^ w / 2 ^ j * 2 ^ j.
Proof.
  intros Hj. assert (Hw : 0 < 2 ^ w) by (apply Z.pow_pos_nonneg; lia).
  rewrite <- (land_not_mask w) by (pose proof (Z.mod_pos_bound x (2 ^ w)); lia).
  apply Z.bits_inj'. intros i Hi. rewrite !Z.land_spec. destruct (Z.ltb_spec i w).
  - by rewrite Z.mod_pow2_bits_low.
  - rewrite (testbit_high (not_mask w (2 ^ j - 1)) w) by (unfold not_mask; pose proof (Z.pow_le_mono_r 2 j w); pose proof (Z.pow_pos_nonneg 2 j); lia).
    by rewrite !andb_false_r.
Qed.

(** The size is a power of two, within the address bits of the BAR. *)
Lemma size_from_moving_bits_Ok moving j w size :
  0 <= j < w -> w <= 64 -> size_from_moving_bits moving (not_mask w (2 ^ j - 1)) = Ok size -> exists n, j <= n < w /\ size = 2 ^ n.
Proof.
  intros Hj Hw H. unfold size_from_moving_bits in H. rewrite land_high_mask in H by lia.
  assert (Hpj : 0 < 2 ^ j) by (apply Z.pow_pos_nonneg; lia). assert (Hpw : 0 < 2 ^ w) by (apply Z.pow_pos_nonneg; lia).
  pose proof (Z.mod_pos_bound moving (2 ^ w) Hpw) as Hm. set (m := moving mod 2 ^ w) in *. set (v := m / 2 ^ j * 2 ^ j) in *.
  destruct (Z.eqb_spec v 0); [done|]. injection H as <-.
  assert (Hv : 0 < v < 2 ^ w).
  { pose proof (Z.div_mod m (2 ^ j)). pose proof (Z.mod_pos_bound m (2 ^ j) Hpj). pose proof (Z.div_pos m (2 ^ j)). nia. }
  assert (H64 : v < 2 ^ 64) by (pose proof (Z.pow_le_mono_r 2 w 64); lia).
  destruct (low_bit_spec v) as (k & q & Hk & Hq & Hlow & Hsplit); [lia|].
  exists k. unfold trailing_zeros. rewrite (proj2 (Z.eqb_neq v 0)) by done. rewrite Hlow, Z.log2_pow2 by lia.
  rewrite Z.shiftl_mul_pow2, Z.mul_1_l by lia. split; [|done]. split.
  - destruct (Z.le_gt_cases j k) as [|Hlt]; [done|]. exfalso.
    assert (E : 2 ^ j = 2 ^ k * 2 ^ (j - k)) by (rewrite <- Z.pow_add_r by lia; f_equal; lia).
    assert (E2 : 2 ^ (j - k) = 2 * 2 ^ (j - k - 1)) by (rewrite <- Z.pow_succ_r by lia; f_equal; lia).
    pose proof (Z.pow_pos_nonneg 2 k). assert (2 * q + 1 = m / 2 ^ j * (2 * 2 ^ (j - k - 1))); [|lia].
    apply (Z.mul_reg_l _ _ (2 ^ k)); [lia|]. rewrite <- Hsplit. unfold v. rewrite E at 2. rewrite E2. lia.
  - apply (Z.pow_lt_mono_r_iff 2); [lia..|]. pose proof (Z.pow_pos_nonneg 2 k). nia.
Qed.

(** The exponents a size can have. *)
Definition size_exponents (t : BarType) (n : Z) : Prop :=
  match t with NoBar => False | BarIo => 2 <= n < 16 | BarMemory32 => 4 <= n < 32 | BarMemory64 => 4 <= n < 64 end.

(** What sizing promises of a BAR that waits for an address. *)
Definition bar_found (i : Z) (bar : BarInfo) : Prop :=
  unplaced bar = true -> bi_reg bar = PCI_BAR0 + i * 4 /\ exists n, size_exponents (bi_type bar) n /\ bi_size bar = 2 ^ n.

(** ** The traversal

    [scanned bus_end b n l n'] : bus [b] is scanned when [n] is the next free bus
    number, the devices [l] are recorded, and [n'] is free afterwards.  A bridge is
    recorded after what lies behind it. *)

Definition no_bridge (d : PciDev) : Prop :=
  pd_header_type d <> PCI_HEADER_TYPE_BRIDGE /\ pd_header_type d <> PCI_HEADER_TYPE_CARDBUS /\
  pd_secondary_bus d = 0 /\ pd_subordinate_bus d = 0.

Inductive scanned (bus_end : Z) : Z -> Z -> list PciDev -> Z -> Prop :=
| scanned_nil b n : scanned bus_end b n [] n
| scanned_endpoint b n l n1 d :
    scanned bus_end b n l n1 -> pa_bus (pd_addr d) = b -> no_bridge d -> scanned bus_end b n (l ++ [d]) n1
| scanned_bridge b n l n1 l' n2 d :
    scanned bus_end b n l n1 -> n1 <= bus_end -> scanned bus_end n1 (n1 + 1) l' n2 ->
    pa_bus (pd_addr d) = b -> pd_header_type d = PCI_HEADER_TYPE_BRIDGE ->
    pd_secondary_bus d = n1 -> pd_subordinate_bus d = n2 - 1 ->
    scanned bus_end b n (l ++ l' ++ [d]) n2
| scanned_cardbus b n l n1 d :
    scanned bus_end b n l n1 -> n1 <= bus_end ->
    pa_bus (pd_addr d) = b -> pd_header_type d = PCI_HEADER_TYPE_CARDBUS ->
    pd_secondary_bus d = n1 -> pd_subordinate_bus d = Z.min (Z.min 255 (n1 + 3)) bus_end ->
    scanned bus_end b n (l ++ [d]) (pd_subordinate_bus d + 1).

Lemma scanned_app bus_end b n l n1 l' n2 :
  scanned bus_end b n l n1 -> scanned bus_end b n1 l' n2 -> scanned bus_end b n (l ++ l') n2.
Proof.
  intros Hl Hl'. revert Hl. induction Hl' as [b n1|b n1 k n2 d _ IH Hd Hno|b n1 k n2 k' n3 d _ IH Hn Hk' _ Hd Hh Hsec Hsub|b n1 k n2 d _ IH Hn Hd Hh Hsec Hsub];
    intros Hl; rewrite ?app_nil_r, ?app_assoc; [done|..].
  - apply scanned_endpoint; auto.
  - rewrite <- app_assoc. eapply scanned_bridge; eauto.
  - eapply scanned_cardbus; eauto.
Qed.

Lemma scanned_next bus_end b n l n' : bus_end <= 255 -> scanned bus_end b n l n' -> n <= bus_end + 1 -> n <= n' <= bus_end + 1.
Proof.
  intros He. induction 1 as [b n|b n k n1 d _ IH Hd Hno|b n k n1 k' n2 d _ IH Hn _ IH' Hd Hh Hsec Hsub|b n k n1 d _ IH Hn Hd Hh Hsec Hsub];
    intros H; [lia|auto|specialize (IH H); specialize (IH' ltac:(lia)); lia|]. specialize (IH H). rewrite Hsub. lia.
Qed.

Section enumeration.
Context {T : Target} {H : Type} {CS : ConfigSpace H}.
#[local] Notation Pci := (PciEcam H).

Lemma bar_found_none reg i : bar_found i (no_bar reg).
Proof. done. Qed.

Lemma check_fixed_found addr reg original fixed (s s' : Pci) info is_64 i :
  check_fixed_bar addr reg original fixed s = (s', Ok (info, is_64)) -> bar_found i info.
Proof.
  intros Hr. apply sbind_Ok in Hr as (? & ? & _ & Hr). apply sbind_Ok in Hr as (? & ? & _ & Hr).
  injection Hr as _ <- _. unfold bar_found, unplaced. cbn. by rewrite !orb_true_r.
Qed.

Lemma movable_found type size prefetchable i n :
  size_exponents type n -> size = 2 ^ n -> bar_found i (movable_bar type size prefetchable (PCI_BAR0 + i * 4)).
Proof. intros Hn Hs _. split; [done|]. by exists n. Qed.

Lemma size_bar_found addr i (s s' : Pci) info is_64 :
  size_bar addr i s = (s', Ok (info, is_64)) -> bar_found i info.
Proof.
  intros Hr. unfold size_bar in Hr. apply sbind_Ok in Hr as (original & s1 & _ & Hr). apply sbind_Ok in Hr as (fixed & s2 & _ & Hr).
  destruct fixed as [fixed|]; [by eapply check_fixed_found|].
  do 5 (apply sbind_Ok in Hr as (? & ? & _ & Hr)).
  destruct (_ =? 0); [by injection Hr as _ <- _|]. destruct (_ =? 1).
  { apply sbind_Ok in Hr as (size & ? & [-> Hs]%slift_Ok & Hr). injection Hr as _ <- _.
    change 0xFFFC with (not_mask 16 (2 ^ 2 - 1)) in Hs. apply size_from_moving_bits_Ok in Hs as (n & Hn & ->); [|lia..].
    by apply (movable_found BarIo _ false i n). }
  destruct (_ =? 0).
  { apply sbind_Ok in Hr as (size & ? & [-> Hs]%slift_Ok & Hr). injection Hr as _ <- _.
    change MEMORY_MASK with (not_mask 32 (2 ^ 4 - 1)) in Hs. apply size_from_moving_bits_Ok in Hs as (n & Hn & ->); [|lia..].
    by apply (movable_found BarMemory32 _ _ i n). }
  destruct (_ =? 2); [|by injection Hr as _ <- _]. unfold probe_memory64 in Hr.
  do 11 (apply sbind_Ok in Hr as (? & ? & _ & Hr)). apply sbind_Ok in Hr as (size & ? & [-> Hs]%slift_Ok & Hr). injection Hr as _ <- _.
  change 0xFFFFFFFFFFFFFFF0 with (not_mask 64 (2 ^ 4 - 1)) in Hs. apply size_from_moving_bits_Ok in Hs as (n & Hn & ->); [|lia..].
  by apply (movable_found BarMemory64 _ _ i n).
Qed.

(** A 64-bit BAR that waits for an address is one that takes two slots. *)
Lemma size_bar_wide addr i (s s' : Pci) info is_64 : size_bar addr i s = (s', Ok (info, is_64)) ->
  unplaced info = true -> bi_type info = BarMemory64 -> is_64 = true.
Proof.
  intros Hr Hu Ht. unfold size_bar in Hr. apply sbind_Ok in Hr as (original & s1 & _ & Hr). apply sbind_Ok in Hr as (fixed & s2 & _ & Hr).
  destruct fixed as [fixed|].
  { apply sbind_Ok in Hr as (? & ? & _ & Hr). apply sbind_Ok in Hr as (? & ? & _ & Hr). injection Hr as _ <- <-.
    unfold unplaced in Hu. cbn in Hu. by rewrite !orb_true_r in Hu. }
  do 5 (apply sbind_Ok in Hr as (? & ? & _ & Hr)).
  destruct (_ =? 0); [by injection Hr as _ <- _|]. destruct (_ =? 1).
  { apply sbind_Ok in Hr as (size & ? & _ & Hr). by injection Hr as _ <- _. }
  destruct (_ =? 0).
  { apply sbind_Ok in Hr as (size & ? & _ & Hr). by injection Hr as _ <- _. }
  destruct (_ =? 2); [|by injection Hr as _ <- _]. unfold probe_memory64 in Hr.
  do 11 (apply sbind_Ok in Hr as (? & ? & _ & Hr)). apply sbind_Ok in Hr as (size & ? & _ & Hr). by injection Hr as _ _ <-.
Qed.

(** Nothing waits in the slot behind a 64-bit BAR that waits. *)
Definition wide_slots (bars : list BarInfo) : Prop := forall j bar bar', bars !! j = Some bar -> bars !! S j = Some bar' ->
  unplaced bar = true -> bi_type bar = BarMemory64 -> unplaced bar' = false.

(** The same while the slots from [i] on are still empty. *)
Record wide_below (i : nat) (bars : list BarInfo) : Prop := {
  wb_slots : wide_slots bars; wb_empty : forall j bar, (i <= j)%nat -> bars !! j = Some bar -> unplaced bar = false;
  wb_last : forall j bar, S j = i -> bars !! j = Some bar -> unplaced bar = true -> bi_type bar <> BarMemory64
}.

Lemma wide_below_insert i bars info (is_64 : bool) : wide_below i bars ->
  (unplaced info = true -> bi_type info = BarMemory64 -> is_64 = true) ->
  wide_below (if is_64 then i + 2 else i + 1)%nat (<[i := info]> bars).
Proof.
  intros [Hs He Hl] Hw. split.
  - intros j bar bar' Hj Hj' Hu Ht. apply list_lookup_insert_Some in Hj as [(<- & -> & _)|[Hne Hj]].
    + rewrite list_lookup_insert_ne in Hj' by lia. apply (He (S i)); [lia|done].
    + apply list_lookup_insert_Some in Hj' as [(E & -> & _)|[_ Hj']]; [|by apply (Hs j bar)].
      exfalso. by apply (Hl j bar).
  - intros j bar Hj Hb. rewrite list_lookup_insert_ne in Hb by (destruct is_64; lia). apply (He j); [destruct is_64; lia|done].
  - intros j bar Hj Hb Hu Ht. destruct (decide (j = i)) as [->|Hne].
    + apply list_lookup_insert_Some in Hb as [(_ & <- & _)|[? _]]; [|done]. rewrite (Hw Hu Ht) in Hj. lia.
    + rewrite list_lookup_insert_ne in Hb by done. destruct is_64; [|lia]. by rewrite (He j bar) in Hu by (done || lia).
Qed.

Lemma probe_bars_wide fuel addr max : forall i bars (s s' : Pci) bars', 0 <= i ->
  wide_below (Z.to_nat i) bars -> probe_bars fuel addr max i bars s = (s', Ok bars') -> wide_slots bars'.
Proof.
  induction fuel as [|fuel IH]; intros i bars s s' bars' Hi Hb Hr; cbn [probe_bars] in Hr;
    (destruct (negb (i <? max)); [injection Hr as _ <-; apply Hb|]); [done|].
  apply sbind_Ok in Hr as ([info is_64] & s1 & Hsize & Hr). pose proof (size_bar_wide _ _ _ _ _ _ Hsize) as Hw.
  apply IH in Hr; [done|destruct is_64; lia|]. pose proof (wide_below_insert _ _ _ _ Hb Hw) as Hx.
  destruct is_64; [replace (Z.to_nat (i + 2)) with (Z.to_nat i + 2)%nat by lia|replace (Z.to_nat (i + 1)) with (Z.to_nat i + 1)%nat by lia]; done.
Qed.

(** Slot [j] of a device's BARs. *)
Definition bars_found (bars : list BarInfo) : Prop := forall j bar, bars !! j = Some bar -> bar_found (Z.of_nat j) bar.

Lemma probe_bars_found fuel addr max : forall i bars (s s' : Pci) bars', 0 <= i ->
  bars_found bars -> probe_bars fuel addr max i bars s = (s', Ok bars') -> bars_found bars' /\ length bars' = length bars.
Proof.
  induction fuel as [|fuel IH]; intros i bars s s' bars' Hi Hb Hr; cbn [probe_bars] in Hr;
    (destruct (negb (i <? max)); [injection Hr as _ <-; done|]); [done|].
  apply sbind_Ok in Hr as ([info is_64] & s1 & Hsize & Hr). apply size_bar_found in Hsize.
  apply IH in Hr as [Hb' Hl]; [|destruct is_64; lia|].
  - split; [done|]. by rewrite Hl, length_insert.
  - intros j bar Hj. apply list_lookup_insert_Some in Hj as [(<- & -> & _)|[_ Hj]]; [by rewrite Z2Nat.id|by apply Hb].
Qed.

(** A function address with a slot and a function number of their width. *)
Definition address_ok (a : PciAddress) : Prop := 0 <= pa_device a < 32 /\ 0 <= pa_function a < 8.

(** What a probe finds out about a function. *)
Record device_found (roots : list PciRoot) (segment : Z) (d : PciDev) : Prop := {
  df_segment : pa_segment (pd_addr d) = segment; df_slot : address_ok (pd_addr d);
  df_root : root_of roots (pd_addr d) = Some (pd_root d);
  df_bars : bars_found (pd_bars d); df_six : length (pd_bars d) = 6%nat; df_wide : wide_slots (pd_bars d)
}.

Lemma probe_device_Some addr (s s' : Pci) d : address_ok addr -> probe_device addr s = (s', Ok (Some d)) ->
  only_hw s s' /\ pd_addr d = addr /\ device_found (pe_roots s) (pa_segment addr) d /\ pd_secondary_bus d = 0 /\ pd_subordinate_bus d = 0.
Proof.
  intros Hslot Hr. split; [by eapply only_hw_run, Hr; apply only_hw_probe_device|]. unfold probe_device in Hr.
  apply sbind_Ok in Hr as (v & s1 & E1 & Hr). pose proof (only_hw_run _ _ _ _ (only_hw_read _ _ _ _) E1) as W1.
  destruct (_ =? _); [done|]. apply sbind_Ok in Hr as (? & s2 & E2 & Hr). injection E2 as <- _.
  apply sbind_Ok in Hr as (? & s3 & [-> _]%slift_Ok & Hr).
  apply sbind_Ok in Hr as (header & s4 & E4 & Hr). pose proof (only_hw_run _ _ _ _ (only_hw_read _ _ _ _) E4) as W4.
  apply sbind_Ok in Hr as (class & s5 & E5 & Hr). pose proof (only_hw_run _ _ _ _ (only_hw_read _ _ _ _) E5) as W5.
  apply sbind_Ok in Hr as (command & s6 & E6 & Hr). pose proof (only_hw_run _ _ _ _ (only_hw_read _ _ _ _) E6) as W6.
  apply sbind_Ok in Hr as ([] & s7 & E7 & Hr). pose proof (only_hw_run _ _ _ _ (only_hw_write _ _ _ _ _) E7) as W7.
  apply sbind_Ok in Hr as (sizing & s8 & E8 & Hr).
  pose proof (only_hw_run _ _ _ _ (only_hw_attempt _ _ (only_hw_probe_bars _ _ _ _ _ _)) E8) as W8.
  apply sbind_Ok in Hr as ([] & s9 & E9 & Hr). pose proof (only_hw_run _ _ _ _ (only_hw_write _ _ _ _ _) E9) as W9.
  apply sbind_Ok in Hr as (bars & ? & [-> Hbars]%slift_Ok & Hr). apply sbind_Ok in Hr as (root & ? & E10 & Hr). injection E10 as <- <-.
  apply sbind_Ok in Hr as (root & ? & [-> Hroot]%slift_Ok & Hr). apply ok_or_Ok in Hroot. injection Hr as _ <-. cbn.
  assert (W : only_hw s s9) by (by do 6 (etrans; [eassumption|])). split_and!; try done.
  unfold attempt in E8. destruct (probe_bars _ _ _ _ _ s7) as [? [bars'|?|]] eqn:Hp; try done; injection E8 as _ <-; [|done]. injection Hbars as <-.
  assert (Hwide : wide_slots bars').
  { apply probe_bars_wide in Hp; [done|done|]. assert (Hn : forall (j : nat) bar, replicate 6 (no_bar 0) !! j = Some bar -> unplaced bar = false).
    { intros j bar Hj. by apply lookup_replicate in Hj as [-> _]. }
    split; [intros j bar bar' _ Hj' _ _; by apply Hn in Hj'|intros j bar _; apply Hn|done]. }
  apply probe_bars_found in Hp as [Hb Hl]; [|done|].
  - split; cbn; [done|done| |done|by rewrite Hl|done]. destruct W as (W & _). by rewrite <- W.
  - intros j bar Hj. apply lookup_replicate in Hj as [-> _]. apply bar_found_none.
Qed.

(** ** Refinement *)

Definition next_ok (r : PciRoot) : Prop := 1 <= rt_next_bus r <= rt_bus_end r + 1 /\ rt_bus_end r <= 255.

(** The steps of a scan of bus [b] of root [k], with last bus [e] and segment [g]. *)
Definition scans (k : nat) (e g b : Z) (s s' : Pci) : Prop :=
  forall r, pe_roots s !! k = Some r -> next_ok r -> rt_bus_end r = e -> rt_segment r = g ->
    exists l n', pe_devices s' = pe_devices s ++ l /\ pe_roots s' = alter (set_next_bus n') k (pe_roots s) /\
      pe_fixed_bars s' = pe_fixed_bars s /\ scanned e b (rt_next_bus r) l n' /\
      Forall (device_found (pe_roots s) g) l /\
      (zlen (pe_devices s) <= MAX_PCI_DEVICES -> zlen (pe_devices s') <= MAX_PCI_DEVICES).

Lemma root_contains_next r n a : root_contains (set_next_bus n r) a = root_contains r a.
Proof. done. Qed.

(** Roots that differ in the next bus number. *)
Definition same_roots (l l' : list PciRoot) : Prop := Forall2 (fun r r' => exists n, r' = set_next_bus n r) l l'.

Lemma same_root r : exists n, r = set_next_bus n r.
Proof. exists (rt_next_bus r). by destruct r. Qed.

Lemma same_roots_refl l : same_roots l l.
Proof. induction l; constructor; [apply same_root|done]. Qed.

Lemma same_roots_alter k n roots : same_roots roots (alter (set_next_bus n) k roots).
Proof.
  revert k. induction roots as [|r roots IH]; intros k; [constructor|]. destruct k as [|k]; cbn; constructor;
    [by exists n|apply same_roots_refl|apply same_root|apply IH].
Qed.

Lemma root_of_same l l' a : same_roots l l' -> root_of l' a = root_of l a.
Proof.
  unfold root_of. induction 1 as [|r r' l l' [n ->] _ IH]; [done|]. cbn. rewrite root_contains_next.
  destruct (decide (root_contains r a = true)); [done|].
  destruct (list_find _ l) as [[? ?]|], (list_find _ l') as [[? ?]|]; cbn in *; congruence.
Qed.

Lemma device_found_same l l' g d : same_roots l l' -> device_found l' g d <-> device_found l g d.
Proof. intros Hs. split; intros [Hg Hok Hr Hb H6 Hw]; split; try done; by rewrite (root_of_same l l') in *. Qed.

Lemma device_found_next roots k n g d : device_found (alter (set_next_bus n) k roots) g d <-> device_found roots g d.
Proof. apply device_found_same, same_roots_alter. Qed.

Lemma alter_next_id r (roots : list PciRoot) (k : nat) : roots !! k = Some r -> alter (set_next_bus (rt_next_bus r)) k roots = roots.
Proof.
  intros Hk. rewrite <- (list_alter_id id roots k) at 2 by done. apply list_alter_ext; [|done].
  intros x Hx. rewrite Hk in Hx. injection Hx as <-. by destruct r.
Qed.

Lemma alter_next_twice (roots : list PciRoot) (k : nat) n m : alter (set_next_bus n) k (alter (set_next_bus m) k roots) = alter (set_next_bus n) k roots.
Proof. rewrite list_alter_alter_eq. done. Qed.

Lemma scans_hw k e g b s s' : only_hw s s' -> scans k e g b s s'.
Proof.
  intros (Hr & Hd & Hf) r Hk Hn He Hg. exists [], (rt_next_bus r).
  rewrite Hr, Hd, Hf, app_nil_r, (alter_next_id r) by done. split_and!; try done; constructor.
Qed.

#[local] Instance scans_trans k e g b : Transitive (scans k e g b).
Proof.
  intros s1 s2 s3 H12 H23 r Hk Hn He Hg. destruct (H12 r Hk Hn He Hg) as (l & n & Hd & Hr & Hf & Hs & Hl & Hz).
  assert (Hn' : next_ok (set_next_bus n r)).
  { destruct Hn as [Hn H255]. subst e. pose proof (scanned_next _ _ _ _ _ H255 Hs). unfold next_ok. cbn. lia. }
  destruct (H23 (set_next_bus n r)) as (l' & n' & Hd' & Hr' & Hf' & Hs' & Hl' & Hz'); [|done..|].
  { rewrite Hr, list_lookup_alter_eq, Hk. done. }
  exists (l ++ l'), n'. rewrite Hd', Hd, Hr', Hr, Hf', Hf, app_assoc, alter_next_twice. split_and!; try done.
  - by eapply scanned_app.
  - apply list.Forall_app. split; [done|]. eapply list.Forall_impl; [exact Hl'|]. intros d. rewrite Hr. apply device_found_next.
  - intros Hle. specialize (Hz' (Hz Hle)). rewrite Hd', Hd in Hz'. by rewrite <- ?app_assoc in *.
Qed.

Lemma sfor_each_scans {A} k e g b (f : A -> sres Pci PciEcamError unit) l :
  (forall x s s', x ∈ l -> f x s = (s', Ok tt) -> scans k e g b s s') -> forall s s', sfor_each l f s = (s', Ok tt) -> scans k e g b s s'.
Proof.
  induction l as [|x l IH]; intros Hf s s' Hr; cbn [sfor_each] in Hr.
  - injection Hr as <-. by apply scans_hw.
  - apply sbind_Ok in Hr as ([] & s1 & Hx & Hr). etrans; [apply (Hf x); [by left|done]|].
    apply IH; [|done]. intros y u v Hy. apply Hf. by right.
Qed.

Lemma next_bus_Ok k bus_end (s s' : Pci) n : next_bus k bus_end s = (s', Ok n) ->
  s' = s /\ exists r, pe_roots s !! k = Some r /\ n = rt_next_bus r /\ n <= bus_end.
Proof.
  intros Hr. apply sbind_Ok in Hr as (r & s1 & Hx & Hr). injection Hx as <- Hx. apply or_panic_Ok in Hx.
  apply slift_Ok in Hr as [-> Hr]. split; [done|]. exists r. destruct (try_from _ _) as [n'|] eqn:Ht; [|done]. apply try_from_Some in Ht as [-> _].
  destruct (Z.leb_spec (rt_next_bus r) bus_end); [|done]. by injection Hr as <-.
Qed.

Lemma push_device_Ok d (s s' : Pci) : push_device d s = (s', Ok tt) ->
  s' = set_devices s (pe_devices s ++ [d]) /\ zlen (pe_devices s') <= MAX_PCI_DEVICES.
Proof.
  unfold push_device. destruct (push _ _ _ _) eqn:E; intros [= <-]. apply push_Ok in E as [Hz ->]. split; [done|].
  cbn. rewrite zlen_app. change (zlen [d]) with 1. lia.
Qed.

(** A probed function that is no bridge. *)
Lemma scans_endpoint k e g b s s1 s' d : only_hw s s1 -> device_found (pe_roots s) g d -> pa_bus (pd_addr d) = b -> no_bridge d ->
  push_device d s1 = (s', Ok tt) -> scans k e g b s s'.
Proof.
  intros (Hr1 & Hd1 & Hf1) Hfound Hb Hno [-> Hz]%push_device_Ok r Hk Hn He Hg. exists [d], (rt_next_bus r). cbn.
  rewrite Hr1, Hd1, Hf1, (alter_next_id r) by done. split_and!; try done; [|by constructor|by rewrite <- Hd1].
  apply (scanned_endpoint _ _ _ []); [constructor|done..].
Qed.

Lemma device_found_buses roots g d x y : device_found roots g (set_buses d x y) <-> device_found roots g d.
Proof. split; by intros [? ? ? ? ? ?]; split. Qed.

Lemma store_next_Ok k n (s s' : Pci) : store_next_bus k n s = (s', Ok tt) -> s' = set_roots s (alter (set_next_bus n) k (pe_roots s)).
Proof. by intros [= <-]. Qed.

Lemma scans_bridge scan k e g b s0 s s' s'' faddr d d' :
  (forall n s s', scan n s = (s', Ok tt) -> scans k e g n s s') ->
  only_hw s0 s -> device_found (pe_roots s0) g d -> pa_bus (pd_addr d) = b ->
  pd_header_type d = PCI_HEADER_TYPE_BRIDGE ->
  enumerate_bridge scan k b e faddr d s = (s', Ok d') -> push_device d' s' = (s'', Ok tt) -> scans k e g b s0 s''.
Proof.
  intros Hscan (Hr0 & Hd0 & Hf0) Hfound Hb Hh Hrun Hpush r Hk0 [Hn He] <- Hg.
  apply sbind_Ok in Hrun as (sec & s1 & (-> & r1 & Hk1 & -> & Hle)%next_bus_Ok & Hrun). rewrite Hr0, Hk0 in Hk1. injection Hk1 as <-.
  apply sbind_Ok in Hrun as (r2 & s2 & Hx & Hrun). injection Hx as <- Hx. apply or_panic_Ok in Hx. rewrite Hr0, Hk0 in Hx. injection Hx as <-.
  apply sbind_Ok in Hrun as ([] & s2 & ->%store_next_Ok & Hrun).
  apply sbind_Ok in Hrun as ([] & s3 & Ew & Hrun). apply (only_hw_run _ _ _ _ (only_hw_write _ _ _ _ _)) in Ew as (Hr3 & Hd3 & Hf3).
  apply sbind_Ok in Hrun as ([] & s4 & Hs & Hrun). apply Hscan in Hs. cbn in Hr3, Hd3, Hf3.
  destruct (Hs (set_next_bus (rt_next_bus r + 1) r)) as (l & n' & Hd4 & Hr4 & Hf4 & Hsc & Hl & _).
  { rewrite Hr3, Hr0, list_lookup_alter_eq, Hk0. done. }
  { unfold next_ok. cbn. lia. }
  { done. }
  { done. }
  cbn in Hsc. assert (Hn' : rt_next_bus r + 1 <= n' <= rt_bus_end r + 1) by (eapply scanned_next; [done|exact Hsc|lia]).
  apply sbind_Ok in Hrun as (r4 & s5 & Hx & Hrun). injection Hx as <- Hx. apply or_panic_Ok in Hx.
  assert (Hn4 : rt_next_bus r4 = n').
  { rewrite Hr4, Hr3, Hr0, alter_next_twice, list_lookup_alter_eq, Hk0 in Hx. by injection Hx as <-. }
  apply sbind_Ok in Hrun as ([] & s6 & Ew & Hrun). apply (only_hw_run _ _ _ _ (only_hw_write _ _ _ _ _)) in Ew as (Hr6 & Hd6 & Hf6).
  injection Hrun as <- <-. apply push_device_Ok in Hpush as [-> Hz]. rewrite Hn4. rewrite (Z.mod_small (n' - 1)) by lia.
  cbn in Hz. rewrite Hd6, Hd4, Hd3, Hd0, <- app_assoc in Hz.
  exists (l ++ [set_buses d (rt_next_bus r) (n' - 1)]), n'. cbn. rewrite Hd6, Hd4, Hd3, Hd0, Hr6, Hr4, Hr3, Hr0, Hf6, Hf4, Hf3, Hf0.
  rewrite alter_next_twice, <- app_assoc. split_and!; try done.
  - apply (scanned_bridge _ b (rt_next_bus r) [] (rt_next_bus r)); try done. constructor.
  - apply list.Forall_app. split.
    + eapply list.Forall_impl; [exact Hl|]. intros x. rewrite Hr3, Hr0. apply device_found_next.
    + constructor; [by apply device_found_buses|constructor].
  - intros _. by rewrite Hn4, (Z.mod_small (n' - 1)) in Hz by lia.
Qed.

Lemma scans_cardbus k e g b s0 s s' s'' faddr d d' :
  only_hw s0 s -> device_found (pe_roots s0) g d -> pa_bus (pd_addr d) = b ->
  pd_header_type d = PCI_HEADER_TYPE_CARDBUS ->
  enumerate_cardbus k b e faddr d s = (s', Ok d') -> push_device d' s' = (s'', Ok tt) -> scans k e g b s0 s''.
Proof.
  intros (Hr0 & Hd0 & Hf0) Hfound Hb Hh Hrun Hpush r Hk0 [Hn He] <- Hg.
  apply sbind_Ok in Hrun as (sec & s1 & (-> & r1 & Hk1 & -> & Hle)%next_bus_Ok & Hrun). rewrite Hr0, Hk0 in Hk1. injection Hk1 as <-.
  apply sbind_Ok in Hrun as ([] & s2 & ->%store_next_Ok & Hrun).
  apply sbind_Ok in Hrun as ([] & s3 & Ew & Hrun). apply (only_hw_run _ _ _ _ (only_hw_write _ _ _ _ _)) in Ew as (Hr3 & Hd3 & Hf3).
  injection Hrun as <- <-. apply push_device_Ok in Hpush as [-> Hz]. cbn in Hr3, Hd3, Hf3.
  set (sub := Z.min (saturating_add u8_max (rt_next_bus r) 3) (rt_bus_end r)).
  exists [set_buses d (rt_next_bus r) sub], (sub + 1). cbn. rewrite Hr3, Hd3, Hf3, Hr0, Hd0, Hf0. cbn in Hz. rewrite Hd3, Hd0 in Hz. split_and!; try done.
  - apply (scanned_cardbus _ b (rt_next_bus r) [] (rt_next_bus r) (set_buses d (rt_next_bus r) sub)); try done. constructor.
  - constructor; [by apply device_found_buses|constructor].
Qed.

Lemma enumerate_function_Ok scan k e g b dev func : 0 <= dev < 32 -> 0 <= func < 8 ->
  (forall n s s', scan n s = (s', Ok tt) -> scans k e g n s s') ->
  forall s s', enumerate_function scan k g b e dev func s = (s', Ok tt) -> scans k e g b s s'.
Proof.
  intros Hdev Hfunc Hscan s s' Hrun. unfold enumerate_function in Hrun.
  set (faddr := {| pa_segment := g; pa_bus := b; pa_device := dev; pa_function := func |}) in *.
  apply sbind_Ok in Hrun as (absent & s1 & Ha & Hrun).
  assert (W1 : only_hw s s1) by (eapply only_hw_run, Ha; hw_only). clear Ha.
  destruct absent; [injection Hrun as <-; by apply scans_hw|].
  apply sbind_Ok in Hrun as ([d|] & s2 & Hp & Hrun).
  2:{ injection Hrun as <-. apply scans_hw. etrans; [done|]. by eapply only_hw_run, Hp; apply only_hw_probe_device. }
  apply probe_device_Some in Hp as (W2 & Haddr & Hfound & Hsec & Hsub); [|done]. pose proof (transitivity W1 W2) as W. clear W2.
  destruct W1 as (W1 & _). rewrite W1 in Hfound. apply sbind_Ok in Hrun as (d' & s3 & Hd & Hrun).
  assert (Hb : pa_bus (pd_addr d) = b) by (by rewrite Haddr).
  destruct (Z.eqb_spec (pd_header_type d) PCI_HEADER_TYPE_BRIDGE); [by eapply scans_bridge|].
  destruct (Z.eqb_spec (pd_header_type d) PCI_HEADER_TYPE_CARDBUS); [by eapply scans_cardbus|].
  injection Hd as <- <-. by eapply scans_endpoint.
Qed.

Lemma indices_bound n i : i ∈ indices n -> 0 <= i < Z.of_nat n.
Proof. unfold indices. intros (j & <- & Hj%in_seq)%list_elem_of_In%in_map_iff. lia. Qed.

Lemma enumerate_slot_Ok scan k e g b dev : 0 <= dev < 32 ->
  (forall n s s', scan n s = (s', Ok tt) -> scans k e g n s s') ->
  forall s s', enumerate_slot scan k g b e dev s = (s', Ok tt) -> scans k e g b s s'.
Proof.
  intros Hdev Hscan s s' Hrun. apply sbind_Ok in Hrun as (v & s1 & E1 & Hrun).
  apply (only_hw_run _ _ _ _ (only_hw_read _ _ _ _)) in E1. destruct (_ =? _); [injection Hrun as <-; by apply scans_hw|].
  apply sbind_Ok in Hrun as (d & s2 & E2 & Hrun). injection E2 as <- _. apply sbind_Ok in Hrun as (d' & s2 & [-> _]%slift_Ok & Hrun).
  apply sbind_Ok in Hrun as (header & s2 & E2 & Hrun). apply (only_hw_run _ _ _ _ (only_hw_read _ _ _ _)) in E2.
  etrans; [by apply scans_hw; etrans|]. eapply sfor_each_scans, Hrun. intros func x y Hf%indices_bound.
  apply enumerate_function_Ok; [done| |done]. case_match; lia.
Qed.

(** A successful scan of a bus is a traversal. *)
Lemma enumerate_bus_Ok fuel k e g : forall b s s', enumerate_bus fuel k b s = (s', Ok tt) -> scans k e g b s s'.
Proof.
  induction fuel as [|fuel IH]; intros b s s' Hrun; [done|]. cbn [enumerate_bus] in Hrun.
  apply sbind_Ok in Hrun as (r0 & s1 & Hr & Hrun). injection Hr as <- Hr. apply or_panic_Ok in Hr.
  intros r Hk Hn He Hg. rewrite Hk in Hr. injection Hr as <-.
  enough (Hs : scans k e g b s s') by by apply Hs. rewrite He, Hg in Hrun.
  eapply sfor_each_scans, Hrun. intros dev x y Hdev%indices_bound. apply enumerate_slot_Ok; [lia|]. intros n u v. apply IH.
Qed.
End enumeration.

(** ** The numbering *)

(** Of two bridges' ranges of buses, one is behind the other or they are disjoint. *)
Definition ranges_nest (d e : PciDev) : Prop :=
  pd_subordinate_bus d < pd_secondary_bus e \/ pd_subordinate_bus e < pd_secondary_bus d \/
  (pa_bus (pd_addr d) <> pa_bus (pd_addr e) /\
   ((pd_secondary_bus e < pd_secondary_bus d /\ pd_subordinate_bus d <= pd_subordinate_bus e) \/
    (pd_secondary_bus d < pd_secondary_bus e /\ pd_subordinate_bus e <= pd_subordinate_bus d))).

Record numbered (b n : Z) (l : list PciDev) (n' : Z) : Prop := {
  nb_bus : Forall (fun d => pa_bus (pd_addr d) = b \/ n <= pa_bus (pd_addr d) < n') l;
  nb_range : Forall (fun d => is_bridge d = true ->
    n <= pd_secondary_bus d <= pd_subordinate_bus d /\ pd_subordinate_bus d < n' /\ pa_bus (pd_addr d) < pd_secondary_bus d) l;
  nb_nest : ForallOrdPairs (fun d e => is_bridge d = true -> is_bridge e = true -> ranges_nest d e) l;
  nb_parent : Forall (fun d => pa_bus (pd_addr d) <> b ->
    exists e, e ∈ l /\ pd_header_type e = PCI_HEADER_TYPE_BRIDGE /\ pd_secondary_bus e = pa_bus (pd_addr d)) l
}.

Lemma no_bridge_false d : no_bridge d -> is_bridge d = false.
Proof. intros (H1 & H2 & _). unfold is_bridge. by rewrite (proj2 (Z.eqb_neq _ _) H1), (proj2 (Z.eqb_neq _ _) H2). Qed.

Lemma ordpairs_app {A} (R : A -> A -> Prop) l k :
  ForallOrdPairs R l -> ForallOrdPairs R k -> Forall (fun x => Forall (R x) k) l -> ForallOrdPairs R (l ++ k).
Proof.
  induction 1 as [|x l Hx _ IH]; intros Hk Hlk; [done|]. apply list.Forall_cons in Hlk as [Hxk Hlk]. cbn.
  constructor; [by apply list.Forall_app|auto].
Qed.

Lemma numbered_app b n l n1 k n2 : b < n -> n <= n1 <= n2 -> numbered b n l n1 -> numbered b n1 k n2 -> numbered b n (l ++ k) n2.
Proof.
  intros Hb Hn [B1 R1 N1 P1] [B2 R2 N2 P2]. split.
  - apply list.Forall_app. split; [apply (list.Forall_impl _ _ l B1)|apply (list.Forall_impl _ _ k B2)]; cbn; intros d; lia.
  - apply list.Forall_app. split; [apply (list.Forall_impl _ _ l R1)|apply (list.Forall_impl _ _ k R2)]; cbn; intros d Hd Hbr; specialize (Hd Hbr); lia.
  - apply ordpairs_app; [done..|]. rewrite list.Forall_forall in R1, B1. rewrite list.Forall_forall in R2.
    apply list.Forall_forall. intros d Hd. apply list.Forall_forall. intros e He Hbd Hbe. left.
    specialize (R1 d Hd Hbd). specialize (R2 e He Hbe). lia.
  - apply list.Forall_app. split; [apply (list.Forall_impl _ _ l P1)|apply (list.Forall_impl _ _ k P2)]; cbn; intros d Hd Hne;
      destruct (Hd Hne) as (e & He & ?); exists e; rewrite elem_of_app; tauto.
Qed.

Lemma numbered_nil b n n' : numbered b n [] n'.
Proof. split; constructor. Qed.

(** A bridge and what is behind it. *)
Lemma numbered_bridge b n l n' d : b < n -> n + 1 <= n' -> numbered n (n + 1) l n' ->
  pa_bus (pd_addr d) = b -> pd_header_type d = PCI_HEADER_TYPE_BRIDGE -> pd_secondary_bus d = n -> pd_subordinate_bus d = n' - 1 ->
  numbered b n (l ++ [d]) n'.
Proof.
  intros Hb Hn [B R N P] Hd Hh Hsec Hsub. split.
  - apply list.Forall_app. split; [|constructor; [by left|constructor]]. eapply list.Forall_impl; [exact B|]. cbn. intros e. lia.
  - apply list.Forall_app. split; [|constructor; [|constructor]; lia]. eapply list.Forall_impl; [exact R|]. cbn. intros e He Hbr. specialize (He Hbr). lia.
  - apply ordpairs_app; [done|by repeat constructor|]. rewrite list.Forall_forall in R, B. apply list.Forall_forall. intros e He.
    constructor; [|constructor]. intros Hbe _. specialize (R e He Hbe). specialize (B e He). unfold ranges_nest. lia.
  - apply list.Forall_app. split; [|constructor; [done|constructor]]. rewrite list.Forall_forall in P. apply list.Forall_forall. intros e He _.
    destruct (decide (pa_bus (pd_addr e) = n)) as [E|E].
    + exists d. rewrite elem_of_app, list_elem_of_singleton, E. auto.
    + destruct (P e He E) as (x & Hx & ?). exists x. rewrite elem_of_app. tauto.
Qed.

Lemma numbered_single b n d n' : b < n -> pa_bus (pd_addr d) = b ->
  (is_bridge d = true -> n <= pd_secondary_bus d <= pd_subordinate_bus d /\ pd_subordinate_bus d < n') -> numbered b n [d] n'.
Proof.
  intros Hb Hd Hr. split.
  - constructor; [by left|constructor].
  - constructor; [|constructor]. intros Hbr. specialize (Hr Hbr). lia.
  - repeat constructor.
  - constructor; [done|constructor].
Qed.

Lemma scanned_numbered bus_end b n l n' : bus_end <= 255 -> scanned bus_end b n l n' -> b < n -> n <= bus_end + 1 -> numbered b n l n'.
Proof.
  intros He Hs. induction Hs as [b n|b n k n1 d Hk IH Hd Hno|b n k n1 k' n2 d Hk IH Hn Hk' IH' Hd Hh Hsec Hsub|b n k n1 d Hk IH Hn Hd Hh Hsec Hsub];
    intros Hb Hne; [apply numbered_nil|..]; pose proof (scanned_next _ _ _ _ _ He Hk Hne) as Hn1; specialize (IH Hb Hne).
  - apply (numbered_app b n k n1 [d] n1); [lia..|done|]. apply numbered_single; [lia|done|]. by rewrite no_bridge_false.
  - pose proof (scanned_next _ _ _ _ _ He Hk' ltac:(lia)) as Hn2.
    apply (numbered_app b n k n1 (k' ++ [d]) n2); [lia..|done|]. apply numbered_bridge; try done; [lia..|]. apply IH'; lia.
  - apply (numbered_app b n k n1 [d]); [lia|lia|done|]. apply numbered_single; [lia|done|]. intros _. lia.
Qed.

(** ** All roots *)

(** A root before it is scanned. *)
Record root_ready (r : PciRoot) : Prop := {
  rr_start : 0 <= rt_bus_start r <= rt_bus_end r; rr_last : rt_bus_end r <= 255; rr_next : rt_next_bus r = rt_bus_start r + 1
}.

(** What a root's scan found. *)
Record root_scan (roots : list PciRoot) (r : PciRoot) (l : list PciDev) : Prop := {
  rs_scan : exists n', scanned (rt_bus_end r) (rt_bus_start r) (rt_bus_start r + 1) l n';
  rs_found : Forall (device_found roots (rt_segment r)) l
}.

Lemma same_roots_lookup l l' (k : nat) r : same_roots l l' -> l !! k = Some r -> exists n, l' !! k = Some (set_next_bus n r).
Proof. intros Hs Hk. destruct (Forall2_lookup_l _ _ _ _ _ Hs Hk) as (r' & Hr' & n & ->). by exists n. Qed.

Lemma same_roots_trans l l' l'' : same_roots l l' -> same_roots l' l'' -> same_roots l l''.
Proof.
  intros H1. revert l''. induction H1 as [|r r' l l' [n ->] _ IH]; intros l'' H2.
  - apply Forall2_nil_inv_l in H2 as ->. constructor.
  - apply Forall2_cons_inv_l in H2 as (r'' & k & [n' ->] & Hk & ->). constructor; [by exists n'|by apply IH].
Qed.

Section roots.
Context {T : Target} {H : Type} {CS : ConfigSpace H}.
#[local] Notation Pci := (PciEcam H).

Lemma enumerate_root_Ok k (s s' : Pci) r : pe_roots s !! k = Some r -> root_ready r -> enumerate_root k s = (s', Ok tt) ->
  exists l n', pe_devices s' = pe_devices s ++ l /\ pe_roots s' = alter (set_next_bus n') k (pe_roots s) /\
    pe_fixed_bars s' = pe_fixed_bars s /\ root_scan (pe_roots s) r l /\
    (zlen (pe_devices s) <= MAX_PCI_DEVICES -> zlen (pe_devices s') <= MAX_PCI_DEVICES).
Proof.
  intros Hk [Hs Hl Hn] Hrun. apply sbind_Ok in Hrun as (r0 & s1 & Hr & Hrun). injection Hr as <- Hr. apply or_panic_Ok in Hr.
  rewrite Hk in Hr. injection Hr as <-.
  destruct (enumerate_bus_Ok 256 k (rt_bus_end r) (rt_segment r) _ _ _ Hrun r Hk) as (l & n' & Hd & Hr & Hf & Hsc & Hfound & Hz); [|done..|].
  { unfold next_ok. lia. }
  exists l, n'. split_and!; try done. split; [|done]. exists n'. by rewrite <- Hn.
Qed.

Lemma enumerate_each_Ok m : forall j (s s' : Pci),
  (forall k r, (j <= k)%nat -> pe_roots s !! k = Some r -> root_ready r) -> (j + m = length (pe_roots s))%nat ->
  sfor_each (seq j m) enumerate_root s = (s', Ok tt) ->
  exists parts, length parts = m /\ pe_devices s' = pe_devices s ++ concat parts /\ pe_fixed_bars s' = pe_fixed_bars s /\
    same_roots (pe_roots s) (pe_roots s') /\ (zlen (pe_devices s) <= MAX_PCI_DEVICES -> zlen (pe_devices s') <= MAX_PCI_DEVICES) /\
    forall i r l, pe_roots s !! (j + i)%nat = Some r -> parts !! i = Some l -> root_scan (pe_roots s) r l.
Proof.
  induction m as [|m IH]; intros j s s' Hready Hlen Hrun; cbn [seq sfor_each] in Hrun.
  - injection Hrun as <-. exists []. rewrite app_nil_r. split_and!; try done. apply same_roots_refl.
  - apply sbind_Ok in Hrun as ([] & s1 & Hone & Hrun).
    destruct (lookup_lt_is_Some_2 (pe_roots s) j) as [r Hr]; [lia|].
    apply (enumerate_root_Ok j s s1 r) in Hone as (l & n' & Hd & Hroots & Hf & Hsc & Hz); [|done|by apply (Hready j)].
    pose proof (same_roots_alter j n' (pe_roots s)) as Hsame. rewrite <- Hroots in Hsame.
    apply IH in Hrun as (parts & Hpl & Hd' & Hf' & Hsame' & Hz' & Hparts).
    + exists (l :: parts). rewrite Hf', Hf. cbn [length]. rewrite Hpl. split_and!; try done.
      { by rewrite Hd', Hd, <- app_assoc. }
      { by eapply same_roots_trans. }
      { auto. }
      intros [|i] r' l' Hr' Hl'; cbn in Hl'.
      * rewrite Nat.add_0_r, Hr in Hr'. injection Hr' as <-. by injection Hl' as <-.
      * rewrite <- Nat.add_succ_comm in Hr'. rewrite <- (list_lookup_alter_ne (set_next_bus n') (pe_roots s) j) in Hr' by lia. rewrite <- Hroots in Hr'.
        destruct (Hparts i r' l' Hr' Hl') as [Hs' Hfound]. split; [done|]. eapply list.Forall_impl; [exact Hfound|].
        intros d. apply (device_found_same _ _ _ _ Hsame).
    + intros k r' Hjk Hk. apply (Hready k); [lia|]. by rewrite Hroots, list_lookup_alter_ne in Hk by lia.
    + rewrite Hroots, length_alter. lia.
Qed.
End roots.

(** ** Paths *)

(** Before enumeration: no devices, and no two roots share a bus. *)
Record ready {H} (s : PciEcam H) : Prop := {
  rd_roots : Forall root_ready (pe_roots s); rd_empty : pe_devices s = [];
  rd_apart : ForallOrdPairs (fun r r' => roots_overlap r r' = false) (pe_roots s)
}.

Lemma roots_overlap_false r r' a : roots_overlap r r' = false -> root_contains r' a = true -> root_contains r a = false.
Proof.
  unfold roots_overlap, root_contains. intros Ho Hc. apply not_true_iff_false. intros Hr.
  rewrite !andb_true_iff, !Z.leb_le, !Z.eqb_eq in Hc, Hr. rewrite !andb_false_iff, !Z.leb_gt, Z.eqb_neq in Ho. lia.
Qed.

Lemma root_of_found roots k r a : ForallOrdPairs (fun r r' => roots_overlap r r' = false) roots ->
  roots !! k = Some r -> root_contains r a = true -> root_of roots a = Some k.
Proof.
  intros Hap. revert k. induction Hap as [|r0 roots Hr0 _ IH]; intros k Hk Hc; [done|]. unfold root_of in *. cbn.
  destruct k as [|k]; cbn in Hk.
  - injection Hk as ->. by rewrite decide_True.
  - rewrite list.Forall_forall in Hr0. rewrite decide_False.
    + specialize (IH k Hk Hc). destruct (list_find _ roots) as [[i x]|]; cbn in *; congruence.
    + rewrite (roots_overlap_false r0 r a); [done|apply Hr0; by eapply list_elem_of_lookup_2|done].
Qed.

Lemma concat_lookup {A} (parts : list (list A)) x : x ∈ concat parts <-> exists k l, parts !! k = Some l /\ x ∈ l.
Proof.
  rewrite list_elem_of_In, in_concat. setoid_rewrite <- list_elem_of_In. split.
  - intros (l & Hl & Hx). apply list_elem_of_lookup_1 in Hl as [k Hk]. eauto.
  - intros (k & l & Hk & Hx). exists l. split; [by eapply list_elem_of_lookup_2|done].
Qed.

Section filters.
Context {A : Type} (P : A -> Prop) `{!forall x, Decision (P x)}.

Lemma filter_none (l : list A) : (forall x, x ∈ l -> ~ P x) -> filter P l = [].
Proof.
  induction l as [|x l IH]; intros Hl; [done|]. rewrite filter_cons_False by (apply Hl; by left).
  apply IH. intros y Hy. apply Hl. by right.
Qed.

(** A filter that keeps members of one part only. *)
Lemma filter_concat (parts : list (list A)) : forall k l,
  parts !! k = Some l -> (forall i l', i <> k -> parts !! i = Some l' -> forall x, x ∈ l' -> ~ P x) ->
  filter P (concat parts) = filter P l.
Proof.
  induction parts as [|l0 parts IH]; intros k l Hk Hp; [done|]. cbn [concat]. rewrite list.filter_app. destruct k as [|k]; cbn in Hk.
  - injection Hk as ->. rewrite (filter_none (concat parts)); [by rewrite app_nil_r|].
    intros x (i & l' & Hi & Hx)%concat_lookup. by apply (Hp (S i) l').
  - rewrite (IH k l Hk) by (intros i l' Hi Hl'; apply (Hp (S i)); [lia|done]).
    by rewrite (filter_none l0) by by apply (Hp 0%nat).
Qed.

Lemma filter_unique (l : list A) x :
  ForallOrdPairs (fun a b => P a -> P b -> False) l -> x ∈ l -> P x -> filter P l = [x].
Proof.
  intros Hl. induction Hl as [|y l Hy _ IH]; intros Hx Hp; [by apply elem_of_nil in Hx|].
  rewrite list.Forall_forall in Hy. apply elem_of_cons in Hx as [<-|Hx].
  - rewrite filter_cons_True by done. f_equal. apply filter_none. intros z Hz Hpz. by apply (Hy z).
  - rewrite filter_cons_False; [by apply IH|]. intros Hpy. by apply (Hy x).
Qed.
End filters.

(** The devices of the roots, root by root. *)
Definition numbered_root (roots : list PciRoot) (k : nat) (r : PciRoot) (l : list PciDev) : Prop :=
  Forall (fun d => device_found roots (rt_segment r) d /\ pd_root d = k) l /\
  exists n', n' <= rt_bus_end r + 1 /\ numbered (rt_bus_start r) (rt_bus_start r + 1) l n'.

Lemma forall_lookup {A} (P : A -> Prop) l (k : nat) x : Forall P l -> l !! k = Some x -> P x.
Proof. rewrite Forall_lookup. eauto. Qed.

Lemma root_scan_numbered roots k r l :
  ForallOrdPairs (fun r r' => roots_overlap r r' = false) roots -> roots !! k = Some r -> root_ready r -> root_scan roots r l ->
  numbered_root roots k r l.
Proof.
  intros Hap Hk [Hs Hl _] [[n' Hscan] Hf]. pose proof (scanned_next _ _ _ _ _ Hl Hscan ltac:(lia)) as Hn.
  pose proof (scanned_numbered _ _ _ _ _ Hl Hscan ltac:(lia) ltac:(lia)) as Hnum. split; [|exists n'; split; [lia|done]].
  pose proof (nb_bus _ _ _ _ Hnum) as Hb. rewrite list.Forall_forall in Hb, Hf. apply list.Forall_forall. intros d Hd.
  specialize (Hb d Hd). specialize (Hf d Hd). split; [done|]. pose proof (df_root _ _ _ Hf) as Hroot.
  rewrite (root_of_found roots k r) in Hroot; [by injection Hroot|done|done|].
  unfold root_contains. rewrite (df_segment _ _ _ Hf), Z.eqb_refl, !andb_true_iff, !Z.leb_le. lia.
Qed.

Section paths.
Context {T : Target} {H : Type} {CS : ConfigSpace H}.
#[local] Notation Pci := (PciEcam H).

Lemma enumerate_roots_Ok (s s' : Pci) : ready s -> enumerate_roots s = (s', Ok tt) ->
  exists parts, length parts = length (pe_roots s) /\ pe_devices s' = concat parts /\ zlen (pe_devices s') <= MAX_PCI_DEVICES /\
    same_roots (pe_roots s) (pe_roots s') /\ pe_fixed_bars s' = pe_fixed_bars s /\
    forall k r l, pe_roots s !! k = Some r -> parts !! k = Some l -> numbered_root (pe_roots s) k r l.
Proof.
  intros [Hr He Hap] Hrun. destruct (enumerate_each_Ok (length (pe_roots s)) 0 s s') as (parts & Hl & Hd & Hf & Hsame & Hz & Hp); [|done|done|].
  - intros k r _ Hk. by eapply forall_lookup.
  - rewrite He in Hd, Hz. exists parts. split_and!; try done; [by apply Hz|]. intros k r l Hk Hlk.
    apply root_scan_numbered; [done|done|by eapply forall_lookup|by apply (Hp k)].
Qed.

(** [a] is the bridge in front of [b]'s bus. *)
Definition leads_to (s : Pci) (k : nat) (a b : PciAddress) : Prop :=
  exists e, e ∈ pe_devices s /\ pd_addr e = a /\ pd_root e = k /\ pd_header_type e = PCI_HEADER_TYPE_BRIDGE /\
    pd_secondary_bus e = pa_bus b.

Fixpoint path_linked (s : Pci) (k : nat) (path : list PciAddress) : Prop :=
  match path with
  | a :: rest => match rest with b :: _ => leads_to s k a b | [] => True end /\ path_linked s k rest
  | [] => True
  end.

(** The filter of [device_path]. *)
Definition parents (s : Pci) (k : nat) (bus : Z) : list PciDev :=
  filter (fun d => is_bridge d && (pd_secondary_bus d =? bus) && bool_decide (root_of (pe_roots s) (pd_addr d) = Some k) = true) (pe_devices s).

Lemma parents_one (s : Pci) parts k r l bus :
  pe_devices s = concat parts -> (forall i r l, pe_roots s !! i = Some r -> parts !! i = Some l -> numbered_root (pe_roots s) i r l) ->
  length parts = length (pe_roots s) -> pe_roots s !! k = Some r -> parts !! k = Some l ->
  bus <> rt_bus_start r -> (exists d, d ∈ l /\ pa_bus (pd_addr d) = bus) ->
  exists e, parents s k bus = [e] /\ e ∈ l /\ pd_header_type e = PCI_HEADER_TYPE_BRIDGE /\ pd_secondary_bus e = bus /\ pa_bus (pd_addr e) < bus.
Proof.
  intros Hd Hnum Hlen Hk Hl Hne (d & Hdl & Hbus). destruct (Hnum k r l Hk Hl) as [Hf (n' & _ & [_ Hr Hn Hp])].
  rewrite list.Forall_forall in Hf, Hr, Hp. destruct (Hp d Hdl) as (e & He & Hh & Hsec); [congruence|].
  assert (Hbr : is_bridge e = true) by (unfold is_bridge; by rewrite Hh). exists e. rewrite Hbus in Hsec.
  split_and!; try done; [|destruct (Hr e He Hbr); lia]. unfold parents. rewrite Hd, (filter_concat _ parts k l); [|done|].
  - apply filter_unique; [|done|].
    + assert (Hall : Forall (fun d => is_bridge d = true -> pd_secondary_bus d <= pd_subordinate_bus d) l).
      { apply list.Forall_forall. intros x Hx Hxb. by destruct (Hr x Hx Hxb) as [[_ ?] _]. }
      clear -Hn Hall. induction Hn as [|x l Hx _ IH]; [constructor|]. apply list.Forall_cons in Hall as [Hxs Hall]. constructor; [|auto].
      rewrite list.Forall_forall in Hx, Hall. apply list.Forall_forall. intros y Hy. rewrite !andb_true_iff, !Z.eqb_eq.
      intros [[Hbx Hsx] _] [[Hby Hsy] _]. specialize (Hx y Hy Hbx Hby). specialize (Hxs Hbx). specialize (Hall y Hy Hby).
      unfold ranges_nest in Hx. lia.
    + rewrite Hbr, Hsec, Z.eqb_refl. cbn. apply bool_decide_eq_true. destruct (Hf e He) as [Hfe <-]. apply Hfe.
  - intros i l' Hik Hi x Hx Hpx. rewrite !andb_true_iff, bool_decide_eq_true in Hpx. destruct Hpx as [_ Hpx].
    destruct (lookup_lt_is_Some_2 (pe_roots s) i) as [r' Hr']; [rewrite <- Hlen; by eapply lookup_lt_Some|].
    destruct (Hnum i r' l' Hr' Hi) as [Hf' _]. rewrite list.Forall_forall in Hf'. destruct (Hf' x Hx) as [Hfx Hxi].
    rewrite (df_root _ _ _ Hfx) in Hpx. congruence.
Qed.

Lemma zlen_map {A B} (f : A -> B) l : zlen (map f l) = zlen l.
Proof. unfold zlen. by rewrite length_map. Qed.

(** Distinct addresses of devices are no more than the devices. *)
Lemma distinct_devices (s : Pci) (path : list PciAddress) :
  NoDup path -> (forall a, a ∈ path -> a ∈ devices s) -> (length path <= length (pe_devices s))%nat.
Proof.
  intros Hn Hin. pose proof (submseteq_length _ _ (NoDup_submseteq _ _ Hn Hin)) as Hl. unfold devices in Hl. by rewrite length_map in Hl.
Qed.

Lemma path_loop_Some (s : Pci) k r (l : list PciDev) :
  zlen (pe_devices s) <= MAX_PCI_DEVICES ->
  (forall d, d ∈ l -> d ∈ pe_devices s /\ pd_root d = k) ->
  (forall bus, bus <> rt_bus_start r -> (exists d, d ∈ l /\ pa_bus (pd_addr d) = bus) -> exists e, parents s k bus = [e] /\ e ∈ l /\
    pd_header_type e = PCI_HEADER_TYPE_BRIDGE /\ pd_secondary_bus e = bus /\ pa_bus (pd_addr e) < bus) ->
  forall fuel path d, d ∈ l -> NoDup path -> (forall a, a ∈ path -> a ∈ devices s /\ pa_bus (pd_addr d) < pa_bus a) ->
    path_linked s k (pd_addr d :: path) -> (129 <= fuel + length path)%nat ->
  exists first rest, path_loop fuel s k (rt_bus_start r) path (pd_addr d) = Some (first :: rest) /\
    pa_bus first = rt_bus_start r /\ list.last (first :: rest) = list.last (pd_addr d :: path) /\ path_linked s k (first :: rest).
Proof.
  intros Hz Hl Hpar. assert (Hdev : forall d, d ∈ l -> pd_addr d ∈ devices s).
  { intros d Hd. unfold devices. apply list_elem_of_In, in_map, list_elem_of_In. by apply Hl. }
  assert (Hz' : (length (pe_devices s) <= 128)%nat) by (unfold zlen, MAX_PCI_DEVICES in Hz; lia). clear Hz.
  induction fuel as [|fuel IH]; intros path d Hd Hn Hp Hlink Hfuel; cbn [path_loop].
  - assert (length path <= length (pe_devices s))%nat by (apply distinct_devices; [done|]; intros a Ha; by apply Hp). lia.
  - assert (Hn' : NoDup (pd_addr d :: path)).
    { constructor; [|done]. intros Ha. destruct (Hp _ Ha). lia. }
    assert (Hin' : forall a, a ∈ pd_addr d :: path -> a ∈ devices s).
    { intros a [->|Ha]%elem_of_cons; [auto|by apply Hp]. }
    pose proof (distinct_devices s _ Hn' Hin') as Hlen. cbn [length] in Hlen.
    replace (existsb _ path) with false; [|symmetry; apply not_true_iff_false; intros (a & Ha & Hb)%existsb_exists;
      apply bool_decide_eq_true in Hb as ->; apply list_elem_of_In in Ha; destruct (Hp _ Ha); lia].
    replace (MAX_PCI_DEVICES <=? zlen path) with false by (symmetry; apply Z.leb_gt; unfold zlen, MAX_PCI_DEVICES; lia).
    destruct (Z.eqb_spec (pa_bus (pd_addr d)) (rt_bus_start r)) as [E|E]; [by exists (pd_addr d), path|].
    destruct (Hpar (pa_bus (pd_addr d))) as (e & He & Hel & Hh & Hsec & Hlt); [done|by exists d|]. unfold parents in He. rewrite He.
    destruct (IH (pd_addr d :: path) e) as (first & rest & Hloop & Hbus & Hlast & Hlk); [done..| | |cbn [length]; lia|].
    + intros a [->|Ha]%elem_of_cons; [split; [auto|lia]|]. destruct (Hp a Ha). split; [done|lia].
    + split; [|done]. exists e. destruct (Hl e Hel). done.
    + exists first, rest. by rewrite Hlast.
Qed.

(** C28: after a successful enumeration every discovered function has a path: the
    chain of bridges from its root bus to it, each bridge leading to the bus of the
    next function. *)
Theorem device_path_found (s s' : Pci) d : ready s -> enumerate_roots s = (s', Ok tt) -> d ∈ pe_devices s' ->
  exists r first rest, pe_roots s' !! pd_root d = Some r /\ device_path s' (pd_addr d) = Some (first :: rest) /\
    pa_bus first = rt_bus_start r /\ list.last (first :: rest) = Some (pd_addr d) /\ path_linked s' (pd_root d) (first :: rest).
Proof.
  intros Hs Hrun Hd. destruct (enumerate_roots_Ok s s' Hs Hrun) as (parts & Hlen & Hdevs & Hz & Hsame & _ & Hnum).
  rewrite Hdevs in Hd. apply concat_lookup in Hd as (k & l & Hk & Hd).
  destruct (lookup_lt_is_Some_2 (pe_roots s) k) as [r Hr]; [rewrite <- Hlen; by eapply lookup_lt_Some|].
  destruct (same_roots_lookup _ _ k r Hsame Hr) as [n Hr'].
  assert (Hnum' : forall i r l, pe_roots s' !! i = Some r -> parts !! i = Some l -> numbered_root (pe_roots s') i r l).
  { intros i ri li Hi Hli. destruct (lookup_lt_is_Some_2 (pe_roots s) i) as [r0 Hr0]; [rewrite <- Hlen; by eapply lookup_lt_Some|].
    destruct (same_roots_lookup _ _ i r0 Hsame Hr0) as [ni Hri]. rewrite Hri in Hi. injection Hi as <-.
    destruct (Hnum i r0 li Hr0 Hli) as [Hf Hx]. split; [|done]. eapply list.Forall_impl; [exact Hf|]. intros x [Hx1 ?].
    split; [|done]. by apply (device_found_same _ _ _ _ Hsame). }
  pose proof (Hnum' k _ l Hr' Hk) as [Hf _]. rewrite list.Forall_forall in Hf. destruct (Hf d Hd) as [Hfd Hroot]. rewrite Hroot.
  destruct (path_loop_Some s' k (set_next_bus n r) l Hz) with (fuel := 129%nat) (path := @nil PciAddress) (d := d)
    as (first & rest & Hloop & Hbus & Hlast & Hlk); [|..|done|lia|].
  - intros x Hx. rewrite Hdevs. split; [apply concat_lookup; eauto|by apply Hf].
  - intros bus Hne Hex. apply (parents_one s' parts k (set_next_bus n r) l bus); try done. by rewrite Hlen, (Forall2_length Hsame).
  - done.
  - constructor.
  - intros a Ha. by apply elem_of_nil in Ha.
  - exists (set_next_bus n r), first, rest. split_and!; try done. unfold device_path.
    rewrite (proj2 (existsb_exists _ _)); [|exists d; split; [rewrite Hdevs; apply list_elem_of_In, concat_lookup; eauto|by apply bool_decide_eq_true]].
    cbn [negb]. rewrite (df_root _ _ _ Hfd), Hroot. cbn [mbind option_bind]. rewrite Hr'. cbn [mbind option_bind]. exact Hloop.
Qed.
End paths.

(** ** A machine *)

(** Little-endian registers kept in memory. *)
#[export] Instance ram_config : ConfigSpace memory := {|
  mmio_read m width a := Bytes.le_dec (mem_bytes m a width);
  mmio_write m width a v := fun x => if (a <=? x) && (x <? a + width) then Z.shiftr v (8 * (x - a)) mod 256 else m x |}.

Definition machine : Target := target64.

Section sample.
#[local] Existing Instance machine.

(** Function 0 of slot 0 and, behind the bridge that is function 1, slot 0 of bus 1.
    What is not there reads as ones. *)
Definition sample_space : memory := fun x =>
  let offset := x - 0x10000000 in
  if (0 <=? offset) && (offset <? 0x2000) then if offset =? 0x0E then 0x80 else if offset =? 0x100E then 1 else 0
  else if (0x100000 <=? offset) && (offset <? 0x101000) then 0
  else 255.

Definition sample_host : PciEcam memory := {|
  pe_roots := [{| rt_segment := 0; rt_ecam_base := 0x10000000; rt_ecam_size := 0x200000; rt_bus_start := 0; rt_bus_end := 1;
    rt_mmio32 := [{| rr_base := 0x80000000; rr_end := 0x90000000 |}]; rt_mmio64 := []; rt_io := []; rt_windows := [];
    rt_next_bus := 1 |}];
  pe_devices := []; pe_fixed_bars := []; pe_hw := sample_space |}.

Lemma sample_ready : ready sample_host.
Proof. split; [constructor; [|constructor]; split; cbn; lia|done|repeat constructor]. Qed.

(** The endpoint behind the bridge. *)
Definition sample_leaf : PciAddress := {| pa_segment := 0; pa_bus := 1; pa_device := 0; pa_function := 0 |}.

Lemma device_path_found_witness :
  exists d, pd_addr d = sample_leaf /\
  exists r first rest, pe_roots (fst (enumerate_roots sample_host)) !! pd_root d = Some r /\
    device_path (fst (enumerate_roots sample_host)) (pd_addr d) = Some (first :: rest) /\
    pa_bus first = rt_bus_start r /\ list.last (first :: rest) = Some (pd_addr d) /\
    path_linked (fst (enumerate_roots sample_host)) (pd_root d) (first :: rest).
Proof.
  assert (E : snd (enumerate_roots sample_host) = Ok tt) by by vm_compute.
  assert (Hd : pd_addr <$> (pe_devices (fst (enumerate_roots sample_host)) !! 1%nat) = Some sample_leaf) by by vm_compute.
  destruct (pe_devices (fst (enumerate_roots sample_host)) !! 1%nat) as [d|] eqn:Hi; [|done]. exists d. split; [by injection Hd|].
  apply (device_path_found sample_host (fst (enumerate_roots sample_host)) d); [exact sample_ready| |by eapply list_elem_of_lookup_2].
  destruct (enumerate_roots sample_host) as [s r]. cbn in *. by rewrite E.
Defined.
End sample.
