(* ===== verification/PciAlloc.v ===== *)
(** * PciAlloc: what the allocator of [Pci.v] does

    A successful allocation is a sequence of placements: every movable base
    address register of every endpoint is written once, with an aligned base in a
    pool of its root, and no two of them share an address. *)

From S2P Require Import Prelude.
From S2P Require Import Bits.
From S2P Require Import Bytes.
From S2P Require Import Services.
From S2P Require Import Memory.
From S2P Require Import BootMedia.
From S2P Require Import PciPool.
From S2P Require Import Pci.
From Stdlib Require Import ZArith Lia.
From stdpp Require Import base numbers list option.

#[local] Open Scope Z_scope.

(** ** The pools of a root *)

(** The free addresses of a root, in port or memory space. *)
Definition space_free (io : bool) (r : PciRoot) (a : Z) : Prop :=
  if io then free (rt_io r) a else free (rt_mmio32 r) a \/ free (rt_mmio64 r) a.

Record root_ok (r : PciRoot) : Prop := {
  ro_mmio32 : pool_ok (rt_mmio32 r); ro_mmio64 : pool_ok (rt_mmio64 r); ro_io : pool_ok (rt_io r);
  ro_apart : forall a, free (rt_mmio32 r) a -> free (rt_mmio64 r) a -> False
}.

Definition topology (r : PciRoot) : Z * Z * Z * Z * Z :=
  (rt_segment r, rt_ecam_base r, rt_ecam_size r, rt_bus_start r, rt_bus_end r).

Definition is_io_bar (t : BarType) : bool := bool_decide (t = BarIo).

(** The interval a placement takes. *)
Definition taken (base size a : Z) : Prop := base <= a < base + size.

Record bar_placed (root root' : PciRoot) (type : BarType) (size align base : Z) : Prop := {
  bp_type : type <> NoBar;
  bp_ok : root_ok root'; bp_topology : topology root' = topology root;
  bp_aligned : base mod align = 0; bp_base : 0 <= base /\ base + size <= u64_max;
  bp_free : forall a, taken base size a -> space_free (is_io_bar type) root a;
  bp_low : type = BarMemory32 -> forall a, taken base size a -> free (rt_mmio32 root) a;
  bp_rest : forall io a, space_free io root' a <->
    space_free io root a /\ ~ (io = is_io_bar type /\ taken base size a);
  bp_rest_low : forall a, free (rt_mmio32 root') a -> free (rt_mmio32 root) a;
  bp_bytes : pool_bytes (rt_mmio32 root') <= pool_bytes (rt_mmio32 root)
}.

Lemma allocate_aligned_placed p size k base p' :
  pool_ok p -> 0 < size -> 0 <= k <= 63 -> allocate_aligned p size (2 ^ k) = Some (base, p') -> placed p size (2 ^ k) base p'.
Proof.
  intros Hp Hs Hk H. unfold allocate_aligned in H. destruct (_ || _); [done|].
  by apply (allocate_from_Some p p size k base p').
Qed.

Lemma place_bar_Ok root type size k pending base root' :
  root_ok root -> 0 < size -> 0 <= k <= 63 ->
  place_bar root type size (2 ^ k) pending = Ok (Some (base, root')) -> bar_placed root root' type size (2 ^ k) base.
Proof.
  intros [H32 H64 Hio Hap] Hs Hk H. unfold place_bar in H.
  assert (Hlow : forall t p, t = BarMemory32 \/ t = BarMemory64 -> placed (rt_mmio32 root) size (2 ^ k) base p ->
    pool_bytes p <= pool_bytes (rt_mmio32 root) -> bar_placed root (set_pools root p (rt_mmio64 root) (rt_io root)) t size (2 ^ k) base).
  { intros t p Ht (Hp & Hm & Hb & He & Hf & Hr) Hbytes. assert (Ht' : is_io_bar t = false) by (by destruct Ht as [-> | ->]).
    split; try done; rewrite ?Ht'; cbn [space_free set_pools rt_mmio32 rt_mmio64 rt_io].
    - by destruct Ht as [-> | ->].
    - split; try done. cbn. intros a Ha. apply Hr in Ha as [Ha _]. by apply Hap.
    - intros a Ha. left. by apply Hf.
    - intros io a. destruct io; cbn; [naive_solver|]. rewrite Hr. unfold taken in *. specialize (Hap a). specialize (Hf a). naive_solver.
    - intros a Ha. by apply Hr in Ha as [? _]. }
  destruct type; [done|..].
  - destruct (allocate_aligned (rt_io root) size (2 ^ k)) as [[b p]|] eqn:E; [|done]. injection H as <- <-.
    apply allocate_aligned_placed in E as (Hp & Hm & Hb & He & Hf & Hr); [|done..].
    split; try done; cbn [space_free is_io_bar set_pools rt_mmio32 rt_mmio64 rt_io]; try done.
    intros io a. destruct io; cbn; [rewrite Hr; unfold taken; naive_solver|naive_solver].
  - destruct (allocate_aligned (rt_mmio32 root) size (2 ^ k)) as [[b p]|] eqn:E; [|done]. injection H as <- <-.
    pose proof (allocate_aligned_bytes _ _ _ _ _ H32 (Z.lt_le_incl _ _ Hs) E). apply allocate_aligned_placed in E; [|done..]. apply Hlow; [by left|done..].
  - apply rbind_Ok in H as (fits & Ha & H). destruct fits as [[b r]|].
    + injection H as -> ->. destruct (allocate_aligned (rt_mmio32 root) size (2 ^ k)) as [[b' p]|] eqn:E; [|done].
      rust_step Ha. destruct (_ <=? _); [|done]. injection Ha as <- <-.
      pose proof (allocate_aligned_bytes _ _ _ _ _ H32 (Z.lt_le_incl _ _ Hs) E). apply allocate_aligned_placed in E; [|done..]. apply Hlow; [by right|done..].
    + clear Ha. destruct (allocate_aligned (rt_mmio64 root) size (2 ^ k)) as [[b p]|] eqn:E; [|done]. injection H as <- <-.
      apply allocate_aligned_placed in E as (Hp & Hm & Hb & He & Hf & Hr); [|done..].
      split; try done; cbn [space_free is_io_bar set_pools rt_mmio32 rt_mmio64 rt_io]; try done.
      * split; try done. cbn. intros a Ha1 Ha2. apply Hr in Ha2 as [Ha2 _]. by apply (Hap a).
      * intros a Ha. right. by apply Hf.
      * intros io a. destruct io; cbn; [naive_solver|]. rewrite Hr. unfold taken in *. specialize (Hap a). specialize (Hf a). naive_solver.
Qed.

(** ** Placements *)

Section trace.
Context {T : Target} {H : Type} {CS : ConfigSpace H}.
#[local] Notation Pci := (PciEcam H).

(** A BAR by its indices, with what does not change of its device. *)
Definition bar_at (s : Pci) (i j : nat) : option (PciAddress * nat * Z * BarInfo) :=
  d ← pe_devices s !! i; bar ← pd_bars d !! j; Some (pd_addr d, pd_root d, pd_header_type d, bar).

(** A movable BAR that has no address yet, of a function that is no bridge. *)
Definition waiting (s : Pci) (i j : nat) : Prop :=
  exists a k h bar, bar_at s i j = Some (a, k, h, bar) /\ h <> PCI_HEADER_TYPE_BRIDGE /\ unplaced bar = true.

(** Sizes are powers of two and roots are known. *)
Record pci_ok (s : Pci) : Prop := {
  po_roots : Forall root_ok (pe_roots s);
  po_root : forall i j a k h bar, bar_at s i j = Some (a, k, h, bar) -> is_Some (pe_roots s !! k);
  po_size : forall i j a k h bar, bar_at s i j = Some (a, k, h, bar) -> unplaced bar = true ->
    exists n, 0 <= n <= 63 /\ bi_size bar = 2 ^ n
}.

Record Placement := { pl_dev : nat; pl_bar : nat; pl_base : Z }.

Definition mark (p : Placement) (s : Pci) : Pci :=
  set_devices s (alter (set_bar_allocated (pl_bar p)) (pl_dev p) (pe_devices s)).

Inductive placement : Pci -> Placement -> Pci -> Prop :=
| placement_step s p d bar root root' s2 :
    pe_devices s !! pl_dev p = Some d -> pd_bars d !! pl_bar p = Some bar ->
    pd_header_type d <> PCI_HEADER_TYPE_BRIDGE -> unplaced bar = true ->
    pe_roots s !! pd_root d = Some root ->
    bar_placed root root' (bi_type bar) (bi_size bar) (bar_allocation_alignment (pe_roots s) d bar) (pl_base p) ->
    program_bar d bar (pl_base p) (set_roots s (<[pd_root d := root']> (pe_roots s))) = (s2, Ok tt) ->
    placement s p (mark p s2).

Inductive placements : Pci -> list Placement -> Pci -> Prop :=
| placements_nil s : placements s [] s
| placements_cons s p s1 l s' : placement s p s1 -> placements s1 l s' -> placements s (p :: l) s'.

Lemma placements_app s l s1 k s' : placements s l s1 -> placements s1 k s' -> placements s (l ++ k) s'.
Proof. induction 1 as [|s p s2 l s1 Hp _ IH]; intros Hk; [done|]. econstructor; eauto. Qed.

(** *** One step *)

Lemma elem_of_all_bars devs i j d bar :
  (i, j, d, bar) ∈ all_bars devs <-> devs !! i = Some d /\ pd_bars d !! j = Some bar.
Proof.
  unfold all_bars. rewrite list_elem_of_In, in_concat. setoid_rewrite in_map_iff. setoid_rewrite <- list_elem_of_In. split.
  - intros (l & (([i' d'] & <- & Hi) & Hj)). apply elem_of_lookup_imap in Hi as (? & ? & [= <- <-] & Hd).
    unfold device_bars in Hj. apply elem_of_lookup_imap in Hj as (? & ? & [= <- <- <- <-] & Hb). done.
  - intros [Hd Hb]. exists (device_bars (i, d)). split.
    + exists (i, d). split; [done|]. apply elem_of_lookup_imap. exists i, d. done.
    + unfold device_bars. apply elem_of_lookup_imap. exists j, bar. done.
Qed.

Lemma better_in roots l : forall best i j r, fold_left (better roots) l best = Some (i, j, r) ->
  best = Some (i, j, r) \/ exists d bar, (i, j, d, bar) ∈ l.
Proof.
  induction l as [|[[[i0 j0] d0] bar0] l IH]; intros best i j r Hf; cbn [fold_left] in Hf; [by left|].
  apply IH in Hf as [Hf|(d & bar & Hin)]; [|right; exists d, bar; by right]. unfold better in Hf.
  destruct best as [[[i1 j1] r1]|]; [destruct (rank_gt _ _)|]; [|by left|];
    injection Hf as <- <- <-; right; exists d0, bar0; by left.
Qed.

Lemma better_none roots l : forall best, fold_left (better roots) l best = None -> l = [] /\ best = None.
Proof.
  induction l as [|[[[i0 j0] d0] bar0] l IH]; intros best Hf; cbn [fold_left] in Hf; [done|].
  apply IH in Hf as [_ Hf]. unfold better in Hf. destruct best as [[[? ?] ?]|]; [destruct (rank_gt _ _)|]; done.
Qed.

Lemma next_bar_Some pass (s : Pci) i j : next_bar_to_allocate pass s = Some (i, j) ->
  exists d bar, pe_devices s !! i = Some d /\ pd_bars d !! j = Some bar /\
    endpoint_in_pass (pe_roots s) d pass = true /\ unplaced bar = true.
Proof.
  unfold next_bar_to_allocate. intros Hn. destruct (fold_left _ _ _) as [[[i0 j0] r]|] eqn:Hf; [|done]. injection Hn as -> ->.
  apply better_in in Hf as [|(d & bar & Hin)]; [done|]. apply list_elem_of_filter in Hin as [Hb Hin].
  apply elem_of_all_bars in Hin as [? ?]. cbn in Hb. apply andb_true_iff in Hb as [? ?]. eauto 7.
Qed.

Lemma next_bar_None pass (s : Pci) : next_bar_to_allocate pass s = None ->
  forall i j d bar, pe_devices s !! i = Some d -> pd_bars d !! j = Some bar -> endpoint_in_pass (pe_roots s) d pass = true ->
    unplaced bar = false.
Proof.
  unfold next_bar_to_allocate. intros Hn i j d bar Hd Hb He. destruct (fold_left _ _ _) as [?|] eqn:Hf; [done|].
  apply better_none in Hf as [Hf _]. apply not_true_iff_false. intros Hu.
  assert (Hin : (i, j, d, bar) ∈ filter (fun x : nat * nat * PciDev * BarInfo => endpoint_in_pass (pe_roots s) x.1.2 pass && unplaced x.2 = true) (all_bars (pe_devices s))).
  { apply list_elem_of_filter. split; [cbn; by rewrite He, Hu|]. by apply elem_of_all_bars. }
  rewrite Hf in Hin. by apply elem_of_nil in Hin.
Qed.

Lemma endpoint_not_bridge roots d pass : endpoint_in_pass roots d pass = true -> pd_header_type d <> PCI_HEADER_TYPE_BRIDGE.
Proof. unfold endpoint_in_pass. case_match eqn:E; [done|]. intros _. by bool_hyp. Qed.

Lemma bar_at_Some s i j d bar : pe_devices s !! i = Some d -> pd_bars d !! j = Some bar ->
  bar_at s i j = Some (pd_addr d, pd_root d, pd_header_type d, bar).
Proof. intros Hd Hb. unfold bar_at. by rewrite Hd; cbn; rewrite Hb. Qed.

(** Alignments are powers of two too. *)
Lemma alignment_pow roots d bar n : bi_type bar <> NoBar -> 0 <= n <= 63 -> bi_size bar = 2 ^ n ->
  exists k, n <= k <= 63 /\ bar_allocation_alignment roots d bar = 2 ^ k.
Proof.
  intros Ht Hn Hs. unfold bar_allocation_alignment. rewrite Hs.
  assert (Hm : forall e, 0 <= e <= 63 -> exists k, n <= k <= 63 /\ Z.max (2 ^ n) (2 ^ e) = 2 ^ k).
  { intros e He. exists (Z.max n e). split; [lia|]. destruct (Z.max_spec n e) as [[? ->]|[? ->]].
    - apply Z.max_r, Z.pow_le_mono_r; lia.
    - apply Z.max_l, Z.pow_le_mono_r; lia. }
  destruct (bi_type bar); [done|..]; destruct (behind_bridge roots d); try (exists n; split; [lia|done]).
  - by apply (Hm 12).
  - by apply (Hm 20).
  - by apply (Hm 20).
Qed.

Lemma allocate_one_bar_Ok i j s s' d bar :
  pci_ok s -> pe_devices s !! i = Some d -> pd_bars d !! j = Some bar -> pd_header_type d <> PCI_HEADER_TYPE_BRIDGE ->
  unplaced bar = true -> allocate_one_bar i j s = (s', Ok tt) ->
  exists base, placement s {| pl_dev := i; pl_bar := j; pl_base := base |} s'.
Proof.
  intros [Hr Hk Hz] Hd Hb Hh Hu Hrun. unfold allocate_one_bar in Hrun.
  apply sbind_Ok in Hrun as (d' & ? & Hx & Hrun). unfold device_at in Hx. rewrite Hd in Hx. injection Hx as <- <-.
  apply sbind_Ok in Hrun as (bar' & ? & [-> Hx]%slift_Ok & Hrun). rewrite Hb in Hx. injection Hx as <-.
  apply sbind_Ok in Hrun as (align & ? & Hx & Hrun). injection Hx as <- <-.
  apply sbind_Ok in Hrun as (pending & ? & Hx & Hrun). injection Hx as <- _.
  apply sbind_Ok in Hrun as (root & ? & Hx & Hrun). unfold root_at in Hx. injection Hx as <- Hroot.
  apply or_panic_Ok in Hroot. apply sbind_Ok in Hrun as (pl & ? & [-> Hplace]%slift_Ok & Hrun).
  apply sbind_Ok in Hrun as ([base root'] & ? & [-> Hx]%slift_Ok & Hrun). apply ok_or_Ok in Hx as ->.
  apply sbind_Ok in Hrun as ([] & ? & Hx & Hrun). injection Hx as <-.
  apply sbind_Ok in Hrun as ([] & s2 & Hprog & Hrun). injection Hrun as <-. exists base.
  destruct (Hz i j _ _ _ _ (bar_at_Some s i j d bar Hd Hb) Hu) as (n & Hn & Hsz).
  assert (Ht : bi_type bar <> NoBar).
  { intros Ht. unfold unplaced in Hu. rewrite bool_decide_true in Hu by done. done. }
  destruct (alignment_pow (pe_roots s) d bar n Ht Hn Hsz) as (k & Hkn & Hal).
  assert (Hro : root_ok root) by (rewrite list.Forall_forall in Hr; apply Hr; by apply list_elem_of_lookup_2 in Hroot).
  rewrite Hal in Hplace. apply place_bar_Ok in Hplace; [|done|rewrite Hsz; apply Z.pow_pos_nonneg; lia|lia].
  rewrite <- Hal in Hplace. by apply (placement_step s {| pl_dev := i; pl_bar := j; pl_base := base |} d bar root root' s2).
Qed.

(** *** What a step keeps *)

Lemma program_frame d bar base s s' r : program_bar d bar base s = (s', r) -> only_hw s s'.
Proof. apply only_hw_run, only_hw_program. Qed.

Lemma bar_at_mark p s i j : bar_at (mark p s) i j =
  if decide (i = pl_dev p /\ j = pl_bar p) then (fun x => (x.1, set_allocated x.2)) <$> bar_at s i j else bar_at s i j.
Proof.
  unfold bar_at, mark. cbn [set_devices pe_devices]. destruct (decide (i = pl_dev p)) as [->|Hi].
  - rewrite list_lookup_alter_eq. destruct (pe_devices s !! pl_dev p) as [d|]; cbn; [|by case_decide].
    destruct (decide (j = pl_bar p)) as [->|Hj].
    + rewrite list_lookup_alter_eq, decide_True by done. by destruct (pd_bars d !! pl_bar p).
    + rewrite list_lookup_alter_ne by done. rewrite decide_False by naive_solver. by destruct (pd_bars d !! j).
  - rewrite list_lookup_alter_ne by done. rewrite decide_False by naive_solver. done.
Qed.

Lemma unplaced_allocated b : unplaced (set_allocated b) = false.
Proof. unfold unplaced. cbn. rewrite orb_true_r. done. Qed.

(** What is still waiting was waiting before, unchanged. *)
Lemma bar_at_unplaced p s i j a k h bar :
  bar_at (mark p s) i j = Some (a, k, h, bar) -> unplaced bar = true -> bar_at s i j = Some (a, k, h, bar).
Proof.
  rewrite bar_at_mark. case_decide; [|done]. destruct (bar_at s i j) as [[? b]|]; cbn; [|done].
  intros [= <- <-] Hu. by rewrite unplaced_allocated in Hu.
Qed.

Lemma bar_at_owner p s i j a k h bar :
  bar_at (mark p s) i j = Some (a, k, h, bar) -> exists bar', bar_at s i j = Some (a, k, h, bar').
Proof.
  rewrite bar_at_mark. case_decide; [|eauto]. destruct (bar_at s i j) as [[? b]|]; cbn; [|done]. intros [= <- <-]. eauto.
Qed.

Lemma bar_at_hw s s' : pe_devices s' = pe_devices s -> forall i j, bar_at s' i j = bar_at s i j.
Proof. unfold bar_at. by intros -> ?. Qed.

(** The facts of a step, by the BAR it places. *)
Record step_facts (s : Pci) (p : Placement) (s' : Pci) (k : nat) (bar : BarInfo) : Prop := {
  sf_before : exists a h, bar_at s (pl_dev p) (pl_bar p) = Some (a, k, h, bar) /\ h <> PCI_HEADER_TYPE_BRIDGE;
  sf_unplaced : unplaced bar = true;
  sf_root : exists root root' align, pe_roots s !! k = Some root /\ pe_roots s' = <[k := root']> (pe_roots s) /\
    bar_placed root root' (bi_type bar) (bi_size bar) align (pl_base p);
  sf_bars : forall i j, bar_at s' i j = bar_at (mark p s) i j
}.

Lemma placement_facts s p s' : placement s p s' -> exists k bar, step_facts s p s' k bar.
Proof.
  intros Hp. inversion Hp as [? ? d bar root root' s2 Hd Hb Hh Hu Hroot Hbp Hprog]; subst. exists (pd_root d), bar.
  apply program_frame in Hprog as (Hroots & Hdevs & _). cbn [set_roots pe_roots pe_devices] in *. split.
  - exists (pd_addr d), (pd_header_type d). split; [by apply bar_at_Some|done].
  - done.
  - exists root, root'. eexists. split_and!; [done|by rewrite <- Hroots|exact Hbp].
  - intros i j. rewrite !bar_at_mark. by rewrite (bar_at_hw s s2).
Qed.

Lemma pci_ok_step s p s' : pci_ok s -> placement s p s' -> pci_ok s'.
Proof.
  intros [Hr Hk Hz] Hp. destruct (placement_facts s p s' Hp) as (k & bar & [_ _ (root & root' & al & Hroot & Hroots & Hbp) Hbars]). split.
  - rewrite Hroots. apply Forall_insert; [done|]. apply Hbp.
  - intros i j a k' h b Hb. rewrite Hbars in Hb. apply bar_at_owner in Hb as [b' Hb]. rewrite Hroots.
    destruct (decide (k' = k)) as [->|Hne]; [rewrite list_lookup_insert_eq; [done|by eapply lookup_lt_Some]|].
    rewrite list_lookup_insert_ne by done. by eapply Hk.
  - intros i j a k' h b Hb Hu. rewrite Hbars in Hb. apply bar_at_unplaced in Hb; [|done]. by eapply Hz.
Qed.

Lemma pci_ok_steps s l s' : pci_ok s -> placements s l s' -> pci_ok s'.
Proof. intros Hok Hp. induction Hp as [|s p s1 l s' Hp _ IH]; [done|]. apply IH. by eapply pci_ok_step. Qed.

Lemma allocate_pass_Ok fuel pass : forall s s', pci_ok s -> allocate_pass fuel pass s = (s', Ok tt) ->
  exists l, placements s l s' /\ next_bar_to_allocate pass s' = None.
Proof.
  induction fuel as [|fuel IH]; intros s s' Hok Hrun; cbn [allocate_pass] in Hrun;
    destruct (next_bar_to_allocate pass s) as [[i j]|] eqn:Hn; try done.
  1,3: by injection Hrun as <-; exists []; split; [constructor|].
  apply sbind_Ok in Hrun as ([] & s1 & Hone & Hrun).
  destruct (next_bar_Some pass s i j Hn) as (d & bar & Hd & Hb & He & Hu).
  destruct (allocate_one_bar_Ok i j s s1 d bar Hok Hd Hb (endpoint_not_bridge _ _ _ He) Hu Hone) as [base Hp].
  destruct (IH s1 s') as (l & Hl & Hend); [by eapply pci_ok_step|done|]. eexists. split; [by econstructor|done].
Qed.
(** *** Where the BARs end up *)

(** A BAR of a state: its device and what allocation reads of it. *)
Definition bar_of (s : Pci) (p : Placement) (d : PciDev) (bar : BarInfo) : Prop :=
  pe_devices s !! pl_dev p = Some d /\ pd_bars d !! pl_bar p = Some bar.

(** The base is aligned and what the BAR takes was free in its root. *)
Definition well_placed (s : Pci) (p : Placement) : Prop :=
  exists d bar root, bar_of s p d bar /\ pd_header_type d <> PCI_HEADER_TYPE_BRIDGE /\ unplaced bar = true /\
    pe_roots s !! pd_root d = Some root /\
    pl_base p mod bar_allocation_alignment (pe_roots s) d bar = 0 /\
    (forall a, taken (pl_base p) (bi_size bar) a -> space_free (is_io_bar (bi_type bar)) root a) /\
    (bi_type bar = BarMemory32 -> forall a, taken (pl_base p) (bi_size bar) a -> free (rt_mmio32 root) a).

(** Two BARs of one root and one space share no address. *)
Definition bars_apart (s : Pci) (p q : Placement) : Prop :=
  (pl_dev p, pl_bar p) <> (pl_dev q, pl_bar q) /\
  forall d bar d' bar', bar_of s p d bar -> bar_of s q d' bar' -> pd_root d = pd_root d' ->
    is_io_bar (bi_type bar) = is_io_bar (bi_type bar') ->
    forall a, ~ (taken (pl_base p) (bi_size bar) a /\ taken (pl_base q) (bi_size bar') a).

(** What [mark] leaves of a device, and of a BAR. *)
Definition same_device (d d' : PciDev) : Prop :=
  pd_addr d' = pd_addr d /\ pd_root d' = pd_root d /\ pd_header_type d' = pd_header_type d.

Definition same_bar (bar bar' : BarInfo) : Prop := bi_type bar' = bi_type bar /\ bi_size bar' = bi_size bar.

Lemma alignment_ext roots roots' d d' bar :
  same_device d d' -> map topology roots' = map topology roots ->
  bar_allocation_alignment roots' d' bar = bar_allocation_alignment roots d bar /\ behind_bridge roots' d' = behind_bridge roots d.
Proof.
  intros (Ha & Hr & _) Ht. enough (E : behind_bridge roots' d' = behind_bridge roots d).
  { split; [|done]. unfold bar_allocation_alignment. by rewrite E. }
  unfold behind_bridge. rewrite Ha, Hr. assert (Hk := f_equal (fun l => l !! pd_root d) Ht). cbn in Hk.
  change (map topology) with (fmap (M := list) topology) in Hk. rewrite !list_lookup_fmap in Hk.
  destruct (roots' !! pd_root d) as [r'|], (roots !! pd_root d) as [r|]; cbn in Hk; try done.
  injection Hk as _ _ _ Hb _. by rewrite Hb.
Qed.

(** What a step does to the devices and to the roots. *)
Lemma placement_devices s p s' : placement s p s' -> pe_devices s' = alter (set_bar_allocated (pl_bar p)) (pl_dev p) (pe_devices s).
Proof.
  intros Hp. inversion Hp as [? ? d bar root root' s2 Hd Hb Hh Hu Hroot Hbp Hprog]; subst.
  apply program_frame in Hprog as (_ & Hdevs & _). cbn in *. by rewrite Hdevs.
Qed.

Lemma placement_topology s p s' : placement s p s' -> map topology (pe_roots s') = map topology (pe_roots s).
Proof.
  intros Hp. inversion Hp as [? ? d bar root root' s2 Hd Hb Hh Hu Hroot Hbp Hprog]; subst.
  apply program_frame in Hprog as (Hroots & _). cbn in *. rewrite Hroots.
  change (map topology) with (fmap (M := list) topology). rewrite list_fmap_insert. apply list_insert_id.
  rewrite list_lookup_fmap, Hroot. cbn. by rewrite (bp_topology _ _ _ _ _ _ Hbp).
Qed.

Lemma bar_of_step s p s' q d bar : placement s p s' -> bar_of s q d bar ->
  exists d' bar', bar_of s' q d' bar' /\ same_device d d' /\ same_bar bar bar'.
Proof.
  intros Hp [Hd Hb]. unfold bar_of. rewrite (placement_devices s p s' Hp).
  destruct (decide (pl_dev q = pl_dev p)) as [E|E].
  - rewrite E in *. rewrite list_lookup_alter_eq, Hd. cbn.
    destruct (decide (pl_bar q = pl_bar p)) as [Ej|Ej].
    + exists (set_bar_allocated (pl_bar p) d), (set_allocated bar). rewrite Ej in *. cbn [set_bar_allocated pd_bars]. by rewrite list_lookup_alter_eq, Hb.
    + exists (set_bar_allocated (pl_bar p) d), bar. cbn [set_bar_allocated pd_bars]. by rewrite list_lookup_alter_ne.
  - rewrite list_lookup_alter_ne by done. exists d, bar. done.
Qed.

Lemma bar_of_back s p s' q d' bar' : placement s p s' -> bar_of s' q d' bar' ->
  exists d bar, bar_of s q d bar /\ same_device d d' /\ same_bar bar bar' /\
    (unplaced bar' = true -> bar = bar' /\ (pl_dev p, pl_bar p) <> (pl_dev q, pl_bar q)).
Proof.
  intros Hp [Hd Hb]. unfold bar_of. rewrite (placement_devices s p s' Hp) in Hd.
  destruct (decide (pl_dev q = pl_dev p)) as [E|E].
  - rewrite E in *. rewrite list_lookup_alter_eq in Hd. destruct (pe_devices s !! pl_dev p) as [d|]; [|done].
    injection Hd as <-. cbn in Hb. exists d. destruct (decide (pl_bar q = pl_bar p)) as [Ej|Ej].
    + rewrite Ej in *. rewrite list_lookup_alter_eq in Hb. destruct (pd_bars d !! pl_bar p) as [bar|]; [|done].
      injection Hb as <-. exists bar. split_and!; try done. intros Hu. by rewrite unplaced_allocated in Hu.
    + rewrite list_lookup_alter_ne in Hb by done. exists bar'. split_and!; try done. intros _. split; [done|congruence].
  - rewrite list_lookup_alter_ne in Hd by done. exists d', bar'. split_and!; try done. intros _. split; [done|congruence].
Qed.

Lemma placement_well s p s' : placement s p s' -> well_placed s p.
Proof.
  intros Hp. inversion Hp as [? ? d bar root root' s2 Hd Hb Hh Hu Hroot Hbp Hprog]; subst.
  exists d, bar, root. split_and!; try done; apply Hbp.
Qed.

(** What is placed later was as free before, and apart from this one. *)
Lemma well_placed_back s p s' q : placement s p s' -> well_placed s' q -> well_placed s q /\ bars_apart s p q.
Proof.
  intros Hp (d' & bar' & root' & Hq & Hh & Hu & Hr & Hal & Hf & Hlow).
  destruct (bar_of_back s p s' q d' bar' Hp Hq) as (d & bar & Hq0 & Hsd & _ & Hsame). destruct (Hsame Hu) as [-> Hne]. clear Hsame.
  destruct (alignment_ext (pe_roots s) (pe_roots s') d d' bar' Hsd (placement_topology s p s' Hp)) as [Hale _].
  inversion Hp as [? ? d0 bar0 root0 root1 s2 Hd0 Hb0 Hh0 Hu0 Hroot0 Hbp Hprog]; subst.
  apply program_frame in Hprog as (Hroots & _). cbn in Hroots, Hr. rewrite Hroots in Hr. destruct Hsd as (_ & Hrt & Hht). rewrite Hrt in Hr.
  assert (Hold : exists root, pe_roots s !! pd_root d = Some root /\
    (forall io a, space_free io root' a -> space_free io root a) /\ (forall a, free (rt_mmio32 root') a -> free (rt_mmio32 root) a)).
  { destruct (decide (pd_root d = pd_root d0)) as [E|E].
    - rewrite E, list_lookup_insert_eq in Hr by (by eapply lookup_lt_Some). injection Hr as <-. exists root0. rewrite E.
      split_and!; [done| |apply Hbp]. intros io a Ha. by apply (bp_rest _ _ _ _ _ _ Hbp) in Ha as [? _].
    - rewrite list_lookup_insert_ne in Hr by done. by exists root'. }
  destruct Hold as (root & Hroot & Hsp & Hlo). split.
  - exists d, bar', root. split_and!; try done; [congruence|by rewrite <- Hale|auto..]. 
  - split; [done|]. intros d1 bar1 d2 bar2 [Hd1 Hb1] [Hd2 Hb2] Hk Hio a [Ha1 Ha2].
    rewrite Hd0 in Hd1. injection Hd1 as <-. rewrite Hb0 in Hb1. injection Hb1 as <-. destruct Hq0 as [Hq1 Hq2].
    rewrite Hq1 in Hd2. injection Hd2 as <-. rewrite Hq2 in Hb2. injection Hb2 as <-.
    rewrite <- Hk, list_lookup_insert_eq in Hr by (by eapply lookup_lt_Some). injection Hr as <-.
    apply Hf, (bp_rest _ _ _ _ _ _ Hbp) in Ha2 as [_ Hno]. by apply Hno.
Qed.

Lemma bars_apart_back s p s' q r : placement s p s' -> bars_apart s' q r -> bars_apart s q r.
Proof.
  intros Hp [Hne Hap]. split; [done|]. intros d bar d' bar' Hq Hr Hk Hio a.
  destruct (bar_of_step s p s' q d bar Hp Hq) as (d1 & b1 & Hq1 & (_ & Hk1 & _) & Ht1 & Hs1).
  destruct (bar_of_step s p s' r d' bar' Hp Hr) as (d2 & b2 & Hr1 & (_ & Hk2 & _) & Ht2 & Hs2).
  rewrite <- Hs1, <- Hs2. apply (Hap d1 b1 d2 b2); try done; congruence.
Qed.

Lemma placements_well s l s' : placements s l s' ->
  Forall (well_placed s) l /\ ForallOrdPairs (bars_apart s) l.
Proof.
  induction 1 as [|s p s1 l s' Hp _ [IHw IHa]]; [split; constructor|]. rewrite list.Forall_forall in IHw. split.
  - constructor; [by eapply placement_well|]. apply list.Forall_forall. intros q Hq. by eapply well_placed_back, IHw.
  - constructor.
    + apply list.Forall_forall. intros q Hq. by eapply well_placed_back, IHw.
    + clear IHw. induction IHa as [|q l Hq _ IH]; constructor; [|done].
      eapply list.Forall_impl; [exact Hq|]. intros r. by eapply bars_apart_back.
Qed.
(** *** Every BAR *)

Lemma waiting_step s p s' i j : placement s p s' -> waiting s i j <-> (i, j) = (pl_dev p, pl_bar p) \/ waiting s' i j.
Proof.
  intros Hp. destruct (placement_facts s p s' Hp) as (k0 & bar0 & [(a0 & h0 & Hb0 & Hh0) Hu0 _ Hbars]). unfold waiting.
  setoid_rewrite Hbars. setoid_rewrite bar_at_mark. case_decide as E.
  - destruct E as [-> ->]. rewrite Hb0. split; [by left|]. intros _. by exists a0, k0, h0, bar0.
  - split; [by right|]. intros [[= -> ->]|Hw]; [by destruct E|done].
Qed.

Lemma waiting_steps s l s' i j : placements s l s' ->
  waiting s i j <-> (exists p, p ∈ l /\ (i, j) = (pl_dev p, pl_bar p)) \/ waiting s' i j.
Proof.
  induction 1 as [s|s p s1 l s' Hp _ IH].
  - split; [by right|]. intros [(p & Hp & _)|?]; [by apply elem_of_nil in Hp|done].
  - rewrite (waiting_step s p s1 i j Hp), IH. setoid_rewrite elem_of_cons. naive_solver.
Qed.

Lemma placements_topology s l s' : placements s l s' -> map topology (pe_roots s') = map topology (pe_roots s).
Proof. induction 1 as [|s p s1 l s' Hp _ IH]; [done|]. rewrite IH. by eapply placement_topology. Qed.

(** An endpoint belongs to one of the two passes. *)
Lemma pass_cases roots d : pd_header_type d <> PCI_HEADER_TYPE_BRIDGE ->
  endpoint_in_pass roots d 0 = true \/ endpoint_in_pass roots d 1 = true.
Proof. intros Hh. unfold endpoint_in_pass. rewrite (proj2 (Z.eqb_neq _ _)) by done. destruct (behind_bridge roots d); [by right|by left]. Qed.

Lemma waiting_end s1 l s2 i j : placements s1 l s2 -> next_bar_to_allocate 0 s1 = None -> next_bar_to_allocate 1 s2 = None ->
  ~ waiting s2 i j.
Proof.
  intros Hl H0 H1 Hw. pose proof (proj2 (waiting_steps s1 l s2 i j Hl) (or_intror Hw)) as Hw1.
  destruct Hw as (a & k & h & bar & Hb & Hh & Hu), Hw1 as (a1 & k1 & h1 & bar1 & Hb1 & _ & Hu1). unfold bar_at in Hb, Hb1.
  destruct (pe_devices s2 !! i) as [d|] eqn:Hd; [|done]. cbn in Hb. destruct (pd_bars d !! j) as [b|] eqn:Hj; [|done]. injection Hb as <- <- <- <-.
  destruct (pe_devices s1 !! i) as [d1|] eqn:Hd1; [|done]. cbn in Hb1. destruct (pd_bars d1 !! j) as [b1|] eqn:Hj1; [|done]. injection Hb1 as <- <- <- <-.
  destruct (pass_cases (pe_roots s2) d Hh) as [Hp|Hp]; [|by rewrite (next_bar_None 1 s2 H1 i j d b Hd Hj Hp) in Hu].
  enough (Hp1 : endpoint_in_pass (pe_roots s1) d1 0 = true) by (by rewrite (next_bar_None 0 s1 H0 i j d1 b1 Hd1 Hj1 Hp1) in Hu1).
  assert (Hsd : same_device d1 d).
  { clear -Hl Hd Hd1. revert d1 Hd1. induction Hl as [s|s p s1 l s' Hp _ IH]; intros d1 Hd1; [rewrite Hd in Hd1; by injection Hd1 as ->|].
    pose proof (placement_devices s p s1 Hp) as E. destruct (decide (i = pl_dev p)) as [->|Hne].
    - assert (Hx := IH Hd (set_bar_allocated (pl_bar p) d1)). rewrite E, list_lookup_alter_eq, Hd1 in Hx. by apply Hx.
    - apply (IH Hd d1). by rewrite E, list_lookup_alter_ne. }
  destruct (alignment_ext (pe_roots s1) (pe_roots s2) d1 d b Hsd (placements_topology s1 l s2 Hl)) as [_ Hbb].
  destruct Hsd as (_ & _ & Hht). unfold endpoint_in_pass in *. by rewrite <- Hht, <- Hbb.
Qed.

(** A successful allocation is a sequence of placements, of all that waits. *)
Lemma allocate_bars_Ok s s' : pci_ok s -> allocate_bars s = (s', Ok tt) ->
  exists l, placements s l s' /\ Forall (well_placed s) l /\ ForallOrdPairs (bars_apart s) l /\
    (forall i j, waiting s i j <-> exists p, p ∈ l /\ (i, j) = (pl_dev p, pl_bar p)) /\
    forall i j, ~ waiting s' i j.
Proof.
  intros Hok Hrun. unfold allocate_bars in Hrun. apply sbind_Ok in Hrun as (n & s0 & Hn & Hrun). injection Hn as <- <-.
  apply sbind_Ok in Hrun as ([] & s1 & H0 & H1).
  destruct (allocate_pass_Ok _ 0 s s1 Hok H0) as (l0 & Hl0 & E0).
  destruct (allocate_pass_Ok _ 1 s1 s' ltac:(by eapply pci_ok_steps) H1) as (l1 & Hl1 & E1).
  pose proof (placements_app s l0 s1 l1 s' Hl0 Hl1) as Hl. exists (l0 ++ l1).
  destruct (placements_well s (l0 ++ l1) s' Hl) as [Hw Ha].
  assert (Hend : forall i j, ~ waiting s' i j) by (intros i j; by apply (waiting_end s1 l1 s')).
  split_and!; try done. intros i j. rewrite (waiting_steps s _ s' i j Hl). specialize (Hend i j). tauto.
Qed.
End trace.
