(* ===== verification/PciSafe.v ===== *)
(** * PciSafe: the host bridge of [Pci.v] never panics

    When the configuration space of every root is mapped, no access misses it, the
    recursion over the buses ends before its fuel does, and the loop that places
    BARs ends after at most as many rounds as there are BARs: enumeration and
    allocation return, with a result or an error. *)

From S2P Require Import Prelude.
From S2P Require Import Bits.
From S2P Require Import Bytes.
From S2P Require Import Services.
From S2P Require Import Memory.
From S2P Require Import BootMedia.
From S2P Require Import PciPool.
From S2P Require Import Pci.
From S2P Require Import PciEnum.
From S2P Require Import PciAlloc.
From Stdlib Require Import ZArith Lia.
From stdpp Require Import base numbers list option.

#[local] Open Scope Z_scope.

(** ** Mapped functions *)

(** The bytes of a root's buses, from the base of bus 0. *)
Record root_mapped {T : Target} (r : PciRoot) : Prop := {
  rm_start : 0 <= rt_bus_start r; rm_last : rt_bus_end r <= 255; rm_base : 0 <= rt_ecam_base r;
  rm_size : (rt_bus_end r - rt_bus_start r + 1) * 2 ^ 20 <= rt_ecam_size r;
  rm_end : rt_ecam_base r + (rt_bus_end r + 1) * 2 ^ 20 <= usize_max
}.

Lemma function_offset_sum a : 0 <= pa_bus a -> address_ok a ->
  function_offset a = pa_bus a * 2 ^ 20 + pa_device a * 2 ^ 15 + pa_function a * 2 ^ 12.
Proof.
  intros Hb [Hd Hf]. unfold function_offset. rewrite <- Z.lor_assoc, Z.lor_comm, (Z.lor_comm (Z.shiftl (pa_device a) 15)).
  rewrite (Z.shiftl_mul_pow2 (pa_function a)) by lia. change (2 ^ 12) with 4096. change (2 ^ 15) with 32768. change (2 ^ 20) with 1048576.
  rewrite (lor_shiftl_add (pa_function a * 4096) (pa_device a) 15) by (change (2 ^ 15) with 32768; lia).
  rewrite (lor_shiftl_add _ (pa_bus a) 20) by (change (2 ^ 15) with 32768; change (2 ^ 20) with 1048576; lia).
  change (2 ^ 15) with 32768. change (2 ^ 20) with 1048576. lia.
Qed.

(** All registers of a function can be accessed. *)
Definition reachable {T : Target} (roots : list PciRoot) (a : PciAddress) : Prop :=
  exists base, device roots a = Some base /\ 0 <= base /\ base + FUNCTION_CONFIG_BYTES <= usize_max.

Lemma root_of_lookup roots a k : root_of roots a = Some k -> exists r, roots !! k = Some r /\ root_contains r a = true.
Proof.
  unfold root_of. intros Hf. destruct (list_find _ roots) as [[i r]|] eqn:E; [|done]. injection Hf as ->.
  apply list_find_Some in E as (Hk & Hc & _). by exists r.
Qed.

Lemma mapped_reachable {T : Target} roots a : Forall root_mapped roots -> is_Some (root_of roots a) -> address_ok a -> reachable roots a.
Proof.
  intros Hm [k Hk] Ha. destruct (root_of_lookup roots a k Hk) as (r & Hr & Hc).
  destruct (forall_lookup _ _ _ _ Hm Hr) as [Hs Hl Hb Hsz He].
  unfold root_contains in Hc. rewrite !andb_true_iff, !Z.leb_le in Hc. destruct Hc as [[_ Hc1] Hc2].
  pose proof (function_offset_sum a ltac:(lia) Ha) as Ho. destruct Ha as [Hd Hf].
  exists (rt_ecam_base r + function_offset a). unfold reachable, device. rewrite Hk. cbn [mbind option_bind]. rewrite Hr. cbn [mbind option_bind].
  rewrite Z.shiftl_mul_pow2, Ho by lia.
  change (2 ^ 20) with 1048576 in *. change (2 ^ 15) with 32768 in *. change (2 ^ 12) with 4096 in *. pose proof usize_max_bounds. unfold FUNCTION_CONFIG_BYTES, u64_max in *.
  rewrite checked_sub_ok by lia. cbn [mbind option_bind]. rewrite !checked_add_ok by lia. cbn [mbind option_bind].
  replace (_ <? _) with false by (symmetry; apply Z.ltb_ge; lia). split; [done|lia].
Qed.

Lemma reachable_register {T : Target} roots a reg w : reachable roots a ->
  0 <= reg -> 1 <= w -> reg mod w = 0 -> reg + w <= FUNCTION_CONFIG_BYTES -> is_Some (config_address roots a reg w).
Proof.
  intros (base & Hd & Hb & He) Hr Hw Hm Hl. unfold config_address. rewrite Hd. cbn [mbind option_bind]. unfold register_address.
  rewrite Hm. cbn. unfold span_address. pose proof usize_max_bounds. unfold FUNCTION_CONFIG_BYTES, u64_max, u32_max in *.
  rewrite (checked_add_ok _ reg w) by lia. cbn [mbind option_bind]. replace (_ <? _) with false by (symmetry; apply Z.ltb_ge; lia).
  rewrite (checked_add_ok _ base reg) by lia. cbn [mbind option_bind]. rewrite checked_sub_ok by lia. cbn [mbind option_bind].
  rewrite checked_add_ok by lia. done.
Qed.

(** ** Routines that only talk to one function *)

Section tame.
Context {T : Target} {H : Type} {CS : ConfigSpace H}.
#[local] Notation Pci := (PciEcam H).

(** With the function mapped, the routine returns and changes the hardware only. *)
Definition tame {A} (a : PciAddress) (m : sres Pci PciEcamError A) : Prop :=
  forall s, reachable (pe_roots s) a -> only_hw s (fst (m s)) /\ snd (m s) <> Panic.

Lemma tame_bind {A B} a (m : sres Pci PciEcamError A) (k : A -> sres Pci PciEcamError B) :
  tame a m -> (forall x, tame a (k x)) -> tame a (sbind m k).
Proof.
  intros Hm Hk s Hr. destruct (Hm s Hr) as [Hw Hp]. unfold sbind. destruct (m s) as [s1 [x|e|]]; cbn in *; [|done..].
  destruct (Hk x s1) as [Hw' Hp']; [by rewrite (proj1 Hw)|]. split; [by etrans|done].
Qed.

Lemma tame_lift {A} a (r : res PciEcamError A) : r <> Panic -> tame a (slift r).
Proof. done. Qed.

Lemma tame_ret {A} a (x : A) : tame a (ret x).
Proof. done. Qed.

Lemma tame_fail {A} a e : tame a (fail e : sres Pci PciEcamError A).
Proof. done. Qed.

Lemma tame_gets {A} a (f : Pci -> A) : tame a (gets f).
Proof. done. Qed.

Lemma tame_read a reg w : 0 <= reg -> 1 <= w -> reg mod w = 0 -> reg + w <= FUNCTION_CONFIG_BYTES -> tame a (config_read w a reg).
Proof.
  intros H1 H2 H3 H4 s Hr. split; [apply only_hw_read|]. unfold config_read.
  by destruct (reachable_register _ a reg w Hr H1 H2 H3 H4) as [x ->].
Qed.

Lemma tame_write a reg w v : 0 <= reg -> 1 <= w -> reg mod w = 0 -> reg + w <= FUNCTION_CONFIG_BYTES -> tame a (config_write w a reg v).
Proof.
  intros H1 H2 H3 H4 s Hr. split; [apply only_hw_write|]. unfold config_write.
  by destruct (reachable_register _ a reg w Hr H1 H2 H3 H4) as [x ->].
Qed.

Lemma tame_attempt {A} a (m : sres Pci PciEcamError A) : tame a m -> tame a (attempt m).
Proof. intros Hm s Hr. destruct (Hm s Hr) as [Hw Hp]. unfold attempt. by destruct (m s) as [? [?|?|]]. Qed.

Lemma resume_not_panic {A} (r : PciEcamError + A) : resume r <> Panic.
Proof. by destruct r. Qed.

Lemma size_not_panic moving mask : size_from_moving_bits moving mask <> Panic.
Proof. unfold size_from_moving_bits. by case_match. Qed.
End tame.

(** A register of a BAR. *)
Lemma bar_register i : 0 <= i -> (PCI_BAR0 + i * 4) mod 4 = 0 /\ (PCI_BAR0 + i * 4 + 4) mod 4 = 0.
Proof.
  intros Hi. unfold PCI_BAR0. replace (16 + i * 4) with ((4 + i) * 4) by lia. replace ((4 + i) * 4 + 4) with ((5 + i) * 4) by lia.
  by rewrite !Z.mod_mul.
Qed.

Ltac tame_step :=
  first
    [ apply tame_ret | apply tame_fail | apply tame_gets
    | apply tame_lift; first [done | apply size_not_panic | apply resume_not_panic | apply ok_or_not_Panic | solve [repeat case_match; done]]
    | apply tame_read; try done; unfold FUNCTION_CONFIG_BYTES; lia
    | apply tame_write; try done; unfold FUNCTION_CONFIG_BYTES; lia
    | apply tame_bind; [|intros ?]
    | match goal with |- tame _ (match ?x with _ => _ end) => destruct x end ].

Ltac tame_tac := unfold read8, read16, read32, write16, write32; repeat tame_step.

Section probing.
Context {T : Target} {H : Type} {CS : ConfigSpace H}.
#[local] Notation Pci := (PciEcam H).

Lemma tame_size_bar a i : 0 <= i < 6 -> tame a (size_bar a i : sres Pci PciEcamError _).
Proof.
  intros Hi. destruct (bar_register i ltac:(lia)) as [H1 H2]. assert (Hb : 0 <= PCI_BAR0 + i * 4 <= 36) by (unfold PCI_BAR0; lia).
  unfold size_bar, check_fixed_bar, probe_memory64. set (reg := PCI_BAR0 + i * 4) in *. clearbody reg. tame_tac.
Qed.

Lemma tame_probe_bars a max : max <= 6 -> forall fuel i bars, 0 <= i -> max <= Z.of_nat fuel + i ->
  tame a (probe_bars fuel a max i bars : sres Pci PciEcamError _).
Proof.
  intros Hm. induction fuel as [|fuel IH]; intros i bars Hi Hf; cbn [probe_bars]; destruct (Z.ltb_spec i max) as [Hlt|Hge]; cbn [negb];
    try apply tame_ret; [lia|]. apply tame_bind; [apply tame_size_bar; lia|]. intros [info is_64]. apply IH; destruct is_64; lia.
Qed.

Lemma max_bars_six h c : max_bars h c <= 6.
Proof. unfold max_bars. repeat case_match; lia. Qed.

Lemma tame_probe_device a : tame a (probe_device a : sres Pci PciEcamError _).
Proof.
  unfold probe_device, PCI_VENDOR_ID, PCI_HEADER_TYPE, PCI_COMMAND. tame_tac.
  apply tame_attempt, tame_probe_bars; [apply max_bars_six|done|].
  match goal with |- ?m <= _ => enough (m <= 6) by lia end. apply max_bars_six.
Qed.
End probing.

(** ** Enumeration *)

Section enumeration.
Context {T : Target} {H : Type} {CS : ConfigSpace H}.
#[local] Notation Pci := (PciEcam H).

Lemma bind_tame {A B} a (m : sres Pci PciEcamError A) (k : A -> sres Pci PciEcamError B) s :
  tame a m -> reachable (pe_roots s) a -> (forall x s1, m s = (s1, Ok x) -> only_hw s s1 -> snd (k x s1) <> Panic) ->
  snd (sbind m k s) <> Panic.
Proof.
  intros Hm Hr Hk. destruct (Hm s Hr) as [Hw Hp]. unfold sbind. destruct (m s) as [s1 [x|e|]] eqn:E; cbn in *; [by apply Hk|done..].
Qed.

(** Root [k] while bus [b] is scanned: [b] is one of its buses and is numbered. *)
Record scanning (k : nat) (e g b : Z) (s : Pci) : Prop := {
  sc_root : exists r, pe_roots s !! k = Some r /\ next_ok r /\ rt_bus_end r = e /\ rt_segment r = g /\
    b < rt_next_bus r /\ rt_bus_start r <= b <= e;
  sc_mapped : Forall root_mapped (pe_roots s)
}.

Lemma mapped_next k n roots : Forall root_mapped roots -> Forall root_mapped (alter (set_next_bus n) k roots).
Proof. intros Hm. apply Forall_alter; [done|]. intros r _ [? ? ? ? ?]. by split. Qed.

Lemma scanning_keep k e g b n s s' : scanning k e g b s -> scans k e g n s s' -> scanning k e g b s'.
Proof.
  intros [(r & Hk & Hn & He & Hg & Hb & Hr) Hm] Hs. destruct (Hs r Hk Hn He Hg) as (l & n' & _ & Hroots & _ & Hsc & _).
  pose proof Hn as [H1 H2]. rewrite He in H1, H2. pose proof (scanned_next _ _ _ _ _ H2 Hsc ltac:(lia)) as Hn'. split.
  - exists (set_next_bus n' r). rewrite Hroots, list_lookup_alter_eq, Hk. unfold next_ok. cbn. rewrite He. split_and!; try done; lia.
  - rewrite Hroots. by apply mapped_next.
Qed.

Lemma scanning_hw k e g b s s' : scanning k e g b s -> only_hw s s' -> scanning k e g b s'.
Proof. intros Hs Hw. apply (scanning_keep k e g b b s); [done|]. by apply scans_hw. Qed.

Lemma root_of_some roots k r a : roots !! k = Some r -> root_contains r a = true -> is_Some (root_of roots a).
Proof.
  intros Hk Hc. unfold root_of. destruct (list_find_elem_of (fun r => root_contains r a = true) roots r) as [[i x] ->]; [by eapply list_elem_of_lookup_2|done|done].
Qed.

Lemma scanning_reachable k e g b s a : scanning k e g b s -> pa_segment a = g -> pa_bus a = b -> address_ok a -> reachable (pe_roots s) a.
Proof.
  intros [(r & Hk & _ & He & Hg & _ & Hr) Hm] Hsa Hba Ha. apply mapped_reachable; [done| |done]. apply (root_of_some _ k r); [done|].
  unfold root_contains. rewrite Hsa, Hba, Hg, Z.eqb_refl, !andb_true_iff, !Z.leb_le. lia.
Qed.

Lemma next_bus_safe k e g b s : scanning k e g b s -> snd (next_bus k e s) <> Panic.
Proof.
  intros [(r & Hk & _) _]. unfold next_bus, root_at, sbind. rewrite Hk. cbn. destruct (try_from _ _); [by case_match|done].
Qed.

Lemma push_device_safe d (s : Pci) : snd (push_device d s) <> Panic.
Proof. unfold push_device, push. by destruct (_ <? _). Qed.

Lemma enumerate_bridge_safe scan k e g b d a s :
  (forall n s, b < n -> scanning k e g n s -> snd (scan n s) <> Panic) ->
  (forall n s s', scan n s = (s', Ok tt) -> scans k e g n s s') ->
  scanning k e g b s -> pa_segment a = g -> pa_bus a = b -> address_ok a ->
  snd (enumerate_bridge scan k b e a d s) <> Panic.
Proof.
  intros Hsafe Hscan Hs Hsa Hba Ha. unfold enumerate_bridge, write32, PCI_PRIMARY_BUS.
  assert (Hw : forall v, tame a (config_write 4 a 24 v : sres Pci PciEcamError unit)) by (intros v; apply tame_write; done).
  apply sbind_no_panic; [by eapply next_bus_safe|]. intros n En. destruct (next_bus k e s) as [s1 r1] eqn:E1. cbn in En. subst r1. cbn [fst].
  apply next_bus_Ok in E1 as (-> & r & Hk & -> & Hle). apply sbind_no_panic; [unfold root_at; cbn; by rewrite Hk|].
  intros r' Er'. unfold root_at in Er'. cbn in Er'. rewrite Hk in Er'. injection Er' as <-. cbn [root_at fst].
  destruct Hs as [(r0 & Hk0 & Hn & He & Hg & Hb & Hr) Hm]. rewrite Hk in Hk0. injection Hk0 as <-. pose proof Hn as [H1 H2]. rewrite He in H1, H2.
  apply sbind_no_panic; [done|]. intros [] _. cbn [store_next_bus fst].
  assert (Hs' : scanning k e g (rt_next_bus r) (set_roots s (alter (set_next_bus (rt_next_bus r + 1)) k (pe_roots s)))).
  { split; cbn; [|by apply mapped_next]. exists (set_next_bus (rt_next_bus r + 1) r). rewrite list_lookup_alter_eq, Hk.
    unfold next_ok. cbn. rewrite He. split_and!; try done; lia. }
  assert (Hsb : scanning k e g b (set_roots s (alter (set_next_bus (rt_next_bus r + 1)) k (pe_roots s)))).
  { split; [|apply Hs']. exists (set_next_bus (rt_next_bus r + 1) r). cbn. rewrite list_lookup_alter_eq, Hk.
    unfold next_ok. cbn. rewrite He. split_and!; try done; lia. }
  eapply (bind_tame a); [apply Hw|by eapply scanning_reachable|]. intros [] s2 _ Hw2.
  pose proof (scanning_hw _ _ _ _ _ _ Hs' Hw2) as Hs2. apply sbind_no_panic; [apply Hsafe; [lia|done]|]. intros [] Hok.
  destruct (scan (rt_next_bus r) s2) as [s3 r3] eqn:E3. cbn in Hok. subst r3. cbn [fst].
  pose proof (scanning_keep _ _ _ _ _ _ _ (scanning_hw _ _ _ _ _ _ Hsb Hw2) (Hscan _ _ _ E3)) as Hs3.
  apply sbind_no_panic; [destruct (sc_root _ _ _ _ _ Hs3) as (r3 & Hk3 & _); unfold root_at; cbn; by rewrite Hk3|].
  intros r4 _. cbn [root_at fst]. eapply (bind_tame a); [apply Hw|by eapply scanning_reachable|done].
Qed.

Lemma enumerate_cardbus_safe k e g b d a s :
  scanning k e g b s -> pa_segment a = g -> pa_bus a = b -> address_ok a -> snd (enumerate_cardbus k b e a d s) <> Panic.
Proof.
  intros Hs Hsa Hba Ha. unfold enumerate_cardbus, write32, PCI_PRIMARY_BUS.
  apply sbind_no_panic; [by eapply next_bus_safe|]. intros n En. destruct (next_bus k e s) as [s1 r1] eqn:E1. cbn in En. subst r1. cbn [fst].
  apply next_bus_Ok in E1 as (-> & r & Hk & -> & Hle). apply sbind_no_panic; [done|]. intros [] _. cbn [store_next_bus fst].
  eapply (bind_tame a); [by apply tame_write| |done]. destruct (scanning_reachable _ _ _ _ _ _ Hs Hsa Hba Ha) as (base & Hd & Hb). exists base.
  split; [|done]. cbn [pe_roots set_roots]. unfold device in *. rewrite (root_of_same _ _ a (same_roots_alter k _ _)). destruct (root_of (pe_roots s) a) as [i|]; [|done]. cbn [mbind option_bind] in *.
  destruct (decide (i = k)) as [->|Hi]; [|by rewrite list_lookup_alter_ne]. rewrite list_lookup_alter_eq. rewrite Hk in *. exact Hd.
Qed.

Lemma enumerate_function_safe scan k e g b dev func s :
  (forall n s, b < n -> scanning k e g n s -> snd (scan n s) <> Panic) ->
  (forall n s s', scan n s = (s', Ok tt) -> scans k e g n s s') ->
  scanning k e g b s -> 0 <= dev < 32 -> 0 <= func < 8 -> snd (enumerate_function scan k g b e dev func s) <> Panic.
Proof.
  intros Hsafe Hscan Hs Hdev Hfunc. unfold enumerate_function.
  set (a := {| pa_segment := g; pa_bus := b; pa_device := dev; pa_function := func |}).
  assert (Ha : address_ok a) by done.
  eapply (bind_tame a); [unfold PCI_VENDOR_ID; tame_tac|by apply (scanning_reachable k e g b)|]. intros absent s1 _ W1.
  pose proof (scanning_hw _ _ _ _ _ _ Hs W1) as Hs1. destruct absent; [done|].
  eapply (bind_tame a); [apply tame_probe_device|by apply (scanning_reachable k e g b)|]. intros [d|] s2 _ W2; [|done].
  pose proof (scanning_hw _ _ _ _ _ _ Hs1 W2) as Hs2. apply sbind_no_panic; [|intros; apply push_device_safe].
  destruct (_ =? _); [by apply (enumerate_bridge_safe scan k e g b)|]. destruct (_ =? _); [by apply (enumerate_cardbus_safe k e g b)|done].
Qed.

(** Every round keeps the state scanned, and none panics. *)
Lemma rounds_safe {A} k e g b (f : A -> sres Pci PciEcamError unit) l :
  (forall x s, x ∈ l -> scanning k e g b s -> snd (f x s) <> Panic) -> (forall x s s', x ∈ l -> f x s = (s', Ok tt) -> scans k e g b s s') ->
  forall s, scanning k e g b s -> snd (sfor_each l f s) <> Panic.
Proof.
  induction l as [|x l IH]; intros Hsafe Hf s Hs; cbn [sfor_each]; [done|].
  apply sbind_no_panic; [apply Hsafe; [by left|done]|]. intros [] Hok. destruct (f x s) as [s1 r1] eqn:E. cbn in Hok. subst r1. cbn [fst].
  apply IH; [intros y s2 Hy; apply Hsafe; by right|intros y u v Hy; apply Hf; by right|].
  eapply scanning_keep; [exact Hs|]. eapply Hf; [by left|done].
Qed.

Lemma enumerate_slot_safe scan k e g b dev s :
  (forall n s, b < n -> scanning k e g n s -> snd (scan n s) <> Panic) ->
  (forall n s s', scan n s = (s', Ok tt) -> scans k e g n s s') ->
  scanning k e g b s -> 0 <= dev < 32 -> snd (enumerate_slot scan k g b e dev s) <> Panic.
Proof.
  intros Hsafe Hscan Hs Hdev. unfold enumerate_slot.
  set (a := {| pa_segment := g; pa_bus := b; pa_device := dev; pa_function := 0 |}). assert (Ha : address_ok a) by done.
  eapply (bind_tame a); [by apply tame_read|by apply (scanning_reachable k e g b)|]. intros v s1 _ W1. destruct (_ =? _); [done|].
  pose proof (scanning_hw _ _ _ _ _ _ Hs W1) as Hs1. apply sbind_no_panic; [done|]. intros dv _. cbn [gets fst].
  apply sbind_no_panic; [cbn; apply ok_or_not_Panic|]. intros x _. cbn [slift fst].
  eapply (bind_tame a); [by apply tame_read|by apply (scanning_reachable k e g b)|]. intros header s2 _ W2.
  pose proof (scanning_hw _ _ _ _ _ _ Hs1 W2) as Hs2. apply (rounds_safe k e g b); [| |done].
  - intros func s3 Hf%indices_bound Hs3. apply (enumerate_function_safe scan k e g b); try done. case_match; lia.
  - intros func s3 s4 Hf%indices_bound. apply enumerate_function_Ok; [done| |done]. case_match; lia.
Qed.

Lemma enumerate_bus_safe fuel k e g : forall b s, 256 <= Z.of_nat fuel + b -> scanning k e g b s -> snd (enumerate_bus fuel k b s) <> Panic.
Proof.
  induction fuel as [|fuel IH]; intros b s Hf Hs; destruct (sc_root _ _ _ _ _ Hs) as (r & Hk & [_ H255] & He & Hg & _ & Hb).
  { lia. }
  cbn [enumerate_bus]. unfold root_at, sbind at 1. rewrite Hk. cbn [or_panic]. rewrite He, Hg.
  apply (rounds_safe k e g b); [| |done].
  - intros dev s1 Hd%indices_bound Hs1. apply enumerate_slot_safe; [|intros; by eapply enumerate_bus_Ok|done|lia].
    intros n s2 Hn Hs2. apply IH; [lia|done].
  - intros dev s1 s2 Hd%indices_bound. apply enumerate_slot_Ok; [lia|]. intros; by eapply enumerate_bus_Ok.
Qed.

Lemma enumerate_root_safe k (s : Pci) r : pe_roots s !! k = Some r -> root_ready r -> Forall root_mapped (pe_roots s) ->
  snd (enumerate_root k s) <> Panic.
Proof.
  intros Hk [Hs Hl Hn] Hm. unfold enumerate_root, root_at, sbind. rewrite Hk. cbn [or_panic].
  apply (enumerate_bus_safe 256 k (rt_bus_end r) (rt_segment r)); [lia|]. split; [|done]. exists r. unfold next_ok. split_and!; try done; lia.
Qed.

Lemma enumerate_each_safe m : forall j (s : Pci),
  (forall k r, (j <= k)%nat -> pe_roots s !! k = Some r -> root_ready r) -> (j + m = length (pe_roots s))%nat ->
  Forall root_mapped (pe_roots s) -> snd (sfor_each (seq j m) enumerate_root s) <> Panic.
Proof.
  induction m as [|m IH]; intros j s Hready Hlen Hm; cbn [seq sfor_each]; [done|].
  destruct (lookup_lt_is_Some_2 (pe_roots s) j) as [r Hr]; [lia|]. pose proof (Hready j r ltac:(lia) Hr) as Hrr.
  apply sbind_no_panic; [by eapply enumerate_root_safe|]. intros [] Hok. destruct (enumerate_root j s) as [s1 r1] eqn:E. cbn in Hok. subst r1. cbn [fst].
  apply (enumerate_root_Ok j s s1 r) in E as (l & n' & _ & Hroots & _); [|done..]. apply IH.
  - intros k r' Hjk Hk. apply (Hready k); [lia|]. by rewrite Hroots, list_lookup_alter_ne in Hk by lia.
  - rewrite Hroots, length_alter. lia.
  - rewrite Hroots. by apply mapped_next.
Qed.

Lemma enumerate_roots_safe (s : Pci) : ready s -> Forall root_mapped (pe_roots s) -> snd (enumerate_roots s) <> Panic.
Proof. intros [Hr _ _] Hm. apply enumerate_each_safe; [|done..]. intros k r _ Hk. by eapply forall_lookup. Qed.
End enumeration.

(** ** Allocation: how many BARs are left *)

(** The BARs that wait for an address, bridges' included. *)
Definition unplaced_in (d : PciDev) : nat := length (filter (fun b => unplaced b = true) (pd_bars d)).
Definition unplaced_count (devs : list PciDev) : nat := list_sum (map unplaced_in devs).

Lemma list_sum_cons x l : list_sum (x :: l) = (x + list_sum l)%nat.
Proof. done. Qed.

Lemma length_all_bars devs : length (all_bars devs) = list_sum (map (fun d => length (pd_bars d)) devs).
Proof.
  unfold all_bars. rewrite length_concat, map_map. change (imap pair devs) with (imap (fun i (d : PciDev) => (id i, d)) devs). generalize (@id nat) as h.
  induction devs as [|d devs IH]; intros h; [done|]. cbn [imap map]. rewrite !list_sum_cons. unfold device_bars at 1. rewrite length_imap. cbn [snd].
  f_equal. apply (IH (fun i => h (S i))).
Qed.

Lemma unplaced_all devs : (unplaced_count devs <= length (all_bars devs))%nat.
Proof.
  rewrite length_all_bars. unfold unplaced_count. induction devs as [|d devs IH]; cbn [map]; [done|]. rewrite !list_sum_cons.
  pose proof (length_filter (fun b => unplaced b = true) (pd_bars d)). unfold unplaced_in at 1. lia.
Qed.

Lemma unplaced_in_set d j bar : pd_bars d !! j = Some bar -> unplaced bar = true ->
  unplaced_in d = S (unplaced_in (set_bar_allocated j d)).
Proof.
  unfold unplaced_in. cbn [set_bar_allocated pd_bars]. revert j. induction (pd_bars d) as [|b l IH]; intros j Hj Hu; [done|].
  destruct j as [|j]; cbn in Hj.
  - injection Hj as ->. cbn [alter list_alter]. rewrite filter_cons_True by done. rewrite filter_cons_False by (by rewrite unplaced_allocated). done.
  - change (alter set_allocated (S j) (b :: l)) with (b :: alter set_allocated j l). rewrite !filter_cons. destruct (decide _); cbn [length]; by rewrite (IH j).
Qed.

Lemma unplaced_count_set devs i j d bar : devs !! i = Some d -> pd_bars d !! j = Some bar -> unplaced bar = true ->
  unplaced_count devs = S (unplaced_count (alter (set_bar_allocated j) i devs)).
Proof.
  unfold unplaced_count. revert i. induction devs as [|x devs IH]; intros i Hi Hj Hu; [done|]. destruct i as [|i]; cbn in Hi.
  - injection Hi as ->. cbn. rewrite (unplaced_in_set d j bar) by done. done.
  - change (alter (set_bar_allocated j) (S i) (x :: devs)) with (x :: alter (set_bar_allocated j) i devs). cbn [map]. rewrite !list_sum_cons. rewrite (IH i) by done. lia.
Qed.

Lemma bar_count_set devs i j : length (all_bars (alter (set_bar_allocated j) i devs)) = length (all_bars devs).
Proof.
  rewrite !length_all_bars. revert i. induction devs as [|x devs IH]; intros i; [done|]. destruct i as [|i].
  - cbn. by rewrite length_alter.
  - change (alter (set_bar_allocated j) (S i) (x :: devs)) with (x :: alter (set_bar_allocated j) i devs). cbn [map]. rewrite !list_sum_cons. by rewrite IH.
Qed.

(** ** Allocation: no panic *)

Section allocation.
Context {T : Target} {H : Type} {CS : ConfigSpace H}.
#[local] Notation Pci := (PciEcam H).

(** What allocation relies on, besides [pci_ok]: functions can be accessed, BARs
    are in their slots, and what is added up fits. *)
Record alloc_ok (s : Pci) : Prop := {
  ao_pci : pci_ok s;
  ao_reach : Forall (fun d => reachable (pe_roots s) (pd_addr d)) (pe_devices s);
  ao_reg : forall i j d bar, pe_devices s !! i = Some d -> pd_bars d !! j = Some bar -> unplaced bar = true ->
    (j < 6)%nat /\ bi_reg bar = PCI_BAR0 + Z.of_nat j * 4;
  ao_low : forall i j d bar, pe_devices s !! i = Some d -> pd_bars d !! j = Some bar -> unplaced bar = true ->
    bi_type bar = BarMemory32 -> bi_size bar <= 2 ^ 31;
  ao_count : Z.of_nat (bar_count s) <= 2 ^ 31;
  ao_bytes : Forall (fun r => pool_bytes (rt_mmio32 r) <= u64_max) (pe_roots s)
}.

Lemma root_of_topology roots roots' a : map topology roots' = map topology roots -> root_of roots' a = root_of roots a.
Proof.
  unfold root_of. revert roots'. induction roots as [|r roots IH]; intros [|r' roots'] E; try done. cbn in E.
  assert (Er : topology r' = topology r) by congruence. assert (Ers : map topology roots' = map topology roots) by congruence.
  assert (Ec : root_contains r' a = root_contains r a).
  { unfold root_contains. unfold topology in Er. injection Er as -> _ _ -> ->. done. }
  cbn. rewrite Ec. destruct (decide _); [done|]. specialize (IH roots' Ers).
  destruct (list_find _ roots) as [[? ?]|], (list_find _ roots') as [[? ?]|]; cbn in *; congruence.
Qed.

Lemma device_topology roots roots' a : map topology roots' = map topology roots -> device roots' a = device roots a.
Proof.
  intros E. unfold device. rewrite (root_of_topology roots roots') by done. destruct (root_of roots a) as [k|]; [|done]. cbn [mbind option_bind].
  assert (Hk := f_equal (fun l => l !! k) E). cbn in Hk. change (map topology) with (fmap (M := list) topology) in Hk.
  rewrite !list_lookup_fmap in Hk. destruct (roots' !! k) as [r'|], (roots !! k) as [r|]; cbn in Hk; try done.
  injection Hk as _ Hb Hs Hst _. cbn [mbind option_bind]. by rewrite Hb, Hs, Hst.
Qed.

Lemma alloc_ok_step s p s' : alloc_ok s -> placement s p s' -> alloc_ok s'.
Proof.
  intros [Hok Hreach Hreg Hlow Hcount Hbytes] Hp. pose proof (placement_topology s p s' Hp) as Htop. pose proof (placement_devices s p s' Hp) as Hdev.
  assert (Hback : forall i j d' bar', pe_devices s' !! i = Some d' -> pd_bars d' !! j = Some bar' -> unplaced bar' = true ->
    exists d, pe_devices s !! i = Some d /\ pd_bars d !! j = Some bar').
  { intros i j d' bar' Hi Hj Hu. destruct (bar_of_back s p s' {| pl_dev := i; pl_bar := j; pl_base := 0 |} d' bar' Hp (conj Hi Hj))
      as (d & bar & [Hd Hb] & _ & _ & Hsame). destruct (Hsame Hu) as [-> _]. by exists d. }
  split.
  - by eapply pci_ok_step.
  - rewrite Hdev. apply Forall_alter.
    + eapply list.Forall_impl; [exact Hreach|]. intros d (b & Hb & ?). exists b. by rewrite (device_topology (pe_roots s)).
    + intros d Hd (b & Hb & ?). by exists b.
  - intros i j d bar Hi Hj Hu. destruct (Hback i j d bar Hi Hj Hu) as (d0 & ? & ?). by apply (Hreg i j d0 bar).
  - intros i j d bar Hi Hj Hu. destruct (Hback i j d bar Hi Hj Hu) as (d0 & ? & ?). by apply (Hlow i j d0 bar).
  - unfold bar_count in *. by rewrite Hdev, bar_count_set.
  - destruct (placement_facts s p s' Hp) as (k & bar & [_ _ (root & root' & al & Hroot & Hroots & Hbp) _]). rewrite Hroots.
    apply Forall_insert; [done|]. pose proof (bp_bytes _ _ _ _ _ _ Hbp). pose proof (forall_lookup _ _ _ _ Hbytes Hroot). cbn in *. lia.
Qed.

Lemma fold_add_bound {A} (f : A -> Z) m l : 0 <= m -> Forall (fun x => 0 <= f x <= m) l -> forall n, 0 <= n ->
  n + Z.of_nat (length l) * m <= u64_max ->
  exists v, fold_each l n (fun n x => @add_or_panic PciEcamError u64_max n (f x)) = Ok v.
Proof.
  intros Hm. induction 1 as [|x l Hx _ IH]; intros n Hn Hb; cbn [fold_each length] in *; [eauto|].
  unfold add_or_panic at 1. rewrite checked_add_ok by nia. cbn [or_panic rbind]. apply IH; nia.
Qed.

Lemma pending_low_Ok k (s : Pci) : alloc_ok s -> exists n, pending_low_bytes k s = Ok n.
Proof.
  intros Hok. unfold pending_low_bytes. apply (fold_add_bound _ (2 ^ 31)); [done| |done|].
  - apply list.Forall_forall. intros [[[i j] d] bar] Hin. apply list_elem_of_filter in Hin as [Hb Hin]. cbn in Hb |- *.
    apply elem_of_all_bars in Hin as [Hi Hj]. rewrite !andb_true_iff, !negb_true_iff, !bool_decide_eq_true in Hb. destruct Hb as [[[[_ _] Ht] Hfx] Hal].
    assert (Hu : unplaced bar = true) by (unfold unplaced; rewrite Ht, Hfx, Hal; done).
    pose proof (ao_low _ Hok i j d bar Hi Hj Hu Ht) as Hsz.
    destruct (po_size _ (ao_pci _ Hok) i j _ _ _ _ (bar_at_Some s i j d bar Hi Hj) Hu) as (n & Hn & E).
    pose proof (Z.pow_pos_nonneg 2 n). unfold bar_allocation_alignment. rewrite Ht. change (2 ^ 31) with 2147483648 in *. case_match; lia.
  - match goal with |- 0 + Z.of_nat (length (filter ?P ?l)) * _ <= _ => pose proof (length_filter P l) as Hl end.
    pose proof (ao_count _ Hok) as Hc. unfold bar_count in Hc. change (2 ^ 31) with 2147483648 in *. unfold u64_max. nia.
Qed.

Lemma place_bar_safe root type size k pending : root_ok root -> 0 < size -> 0 <= k <= 63 -> pool_bytes (rt_mmio32 root) <= u64_max ->
  place_bar root type size (2 ^ k) pending <> Panic.
Proof.
  intros [H32 _ _ _] Hs Hk Hb. unfold place_bar. destruct type; try done.
  destruct (allocate_aligned (rt_mmio32 root) size (2 ^ k)) as [[b p]|] eqn:E; [|by destruct (allocate_aligned _ _ _)].
  pose proof (allocate_aligned_bytes _ _ _ _ _ H32 (Z.lt_le_incl _ _ Hs) E). apply allocate_aligned_placed in E as (Hp & _); [|done..].
  rewrite free_bytes_Ok by (done || lia). cbn [rbind]. destruct (_ <=? _); [done|]. by destruct (allocate_aligned _ _ _).
Qed.

Lemma tame_program d bar base j : (j < 6)%nat -> bi_reg bar = PCI_BAR0 + Z.of_nat j * 4 ->
  tame (pd_addr d) (program_bar d bar base : sres Pci PciEcamError unit).
Proof.
  intros Hj Hr. destruct (bar_register (Z.of_nat j) ltac:(lia)) as [H1 H2]. rewrite <- Hr in H1, H2.
  assert (Hb : 0 <= bi_reg bar <= 36) by (rewrite Hr; unfold PCI_BAR0; lia). unfold program_bar, PCI_COMMAND. tame_tac.
Qed.

Lemma allocate_one_bar_safe i j (s : Pci) d bar : alloc_ok s -> pe_devices s !! i = Some d -> pd_bars d !! j = Some bar ->
  unplaced bar = true -> snd (allocate_one_bar i j s) <> Panic.
Proof.
  intros Hok Hd Hb Hu. pose proof (ao_pci _ Hok) as Hpci. unfold allocate_one_bar.
  destruct (po_size _ Hpci i j _ _ _ _ (bar_at_Some s i j d bar Hd Hb) Hu) as (n & Hn & Hsz).
  destruct (po_root _ Hpci i j _ _ _ _ (bar_at_Some s i j d bar Hd Hb)) as [root Hroot].
  assert (Ht : bi_type bar <> NoBar) by (intros Ht; unfold unplaced in Hu; rewrite bool_decide_true in Hu; done).
  destruct (alignment_pow (pe_roots s) d bar n Ht Hn Hsz) as (k & Hkn & Hal). destruct (pending_low_Ok (pd_root d) s Hok) as [pend Hpend].
  unfold device_at, root_at, gets, slift, sbind at 1 2 3 4 5. rewrite Hd. cbn [or_panic]. rewrite Hb. cbn [or_panic]. rewrite Hpend, Hroot, Hal. cbn [or_panic].
  apply sbind_no_panic.
  { cbn. apply place_bar_safe; [by eapply forall_lookup; [apply Hpci|]|rewrite Hsz; apply Z.pow_pos_nonneg; lia|lia|].
    pose proof (forall_lookup _ _ _ _ (ao_bytes _ Hok) Hroot) as Hx. done. }
  intros pl Hpl. cbn in Hpl. cbn [fst]. apply sbind_no_panic; [cbn; apply ok_or_not_Panic|]. intros [base root'] Hx. cbn in Hx. apply ok_or_Ok in Hx as ->. cbn [fst].
  apply place_bar_Ok in Hpl; [|by eapply forall_lookup; [apply Hpci|]|rewrite Hsz; apply Z.pow_pos_nonneg; lia|lia].
  apply sbind_no_panic; [done|]. intros [] _. cbn [fst]. destruct (ao_reg _ Hok i j d bar Hd Hb Hu) as [Hj Hr].
  eapply (bind_tame (pd_addr d)); [by eapply tame_program| |done].
  destruct (forall_lookup _ _ _ _ (ao_reach _ Hok) Hd) as (b & Hbase & ?). exists b. split; [|done]. cbn [pe_roots set_roots].
  rewrite (device_topology (pe_roots s)); [done|]. change (map topology) with (fmap (M := list) topology). rewrite list_fmap_insert. apply list_insert_id.
  rewrite list_lookup_fmap, Hroot. cbn. by rewrite (bp_topology _ _ _ _ _ _ Hpl).
Qed.

Lemma allocate_pass_safe pass fuel : forall s : Pci, alloc_ok s -> (unplaced_count (pe_devices s) <= fuel)%nat ->
  snd (allocate_pass fuel pass s) <> Panic.
Proof.
  induction fuel as [|fuel IH]; intros s Hok Hf; cbn [allocate_pass]; (destruct (next_bar_to_allocate pass s) as [[i j]|] eqn:Hn; [|done]);
    destruct (next_bar_Some pass s i j Hn) as (d & bar & Hd & Hb & He & Hu);
    pose proof (unplaced_count_set (pe_devices s) i j d bar Hd Hb Hu) as Hc; [lia|].
  apply sbind_no_panic; [by eapply allocate_one_bar_safe|]. intros [] Hone. destruct (allocate_one_bar i j s) as [s1 r1] eqn:E. cbn in Hone. subst r1. cbn [fst].
  destruct (allocate_one_bar_Ok i j s s1 d bar (ao_pci _ Hok) Hd Hb (endpoint_not_bridge _ _ _ He) Hu E) as [base Hp].
  apply IH; [by eapply alloc_ok_step|]. rewrite (placement_devices _ _ _ Hp). cbn. lia.
Qed.

Lemma alloc_ok_steps s l s' : alloc_ok s -> placements s l s' -> alloc_ok s'.
Proof. intros Hok Hp. induction Hp as [|s p s1 l s' Hp _ IH]; [done|]. apply IH. by eapply alloc_ok_step. Qed.

Lemma allocate_bars_safe (s : Pci) : alloc_ok s -> snd (allocate_bars s) <> Panic.
Proof.
  intros Hok. unfold allocate_bars, gets, sbind at 1. apply sbind_no_panic; [apply allocate_pass_safe; [done|apply unplaced_all]|].
  intros [] H0. destruct (allocate_pass (bar_count s) 0 s) as [s1 r1] eqn:E. cbn in H0. subst r1. cbn [fst].
  apply allocate_pass_Ok in E as (l & Hl & _); [|apply Hok]. apply allocate_pass_safe; [by eapply alloc_ok_steps|].
  assert (Hle : (unplaced_count (pe_devices s1) <= unplaced_count (pe_devices s))%nat); [|pose proof (unplaced_all (pe_devices s)); unfold bar_count; lia].
  clear Hok. induction Hl as [|s p s1 l s' Hp _ IH]; [done|]. etrans; [exact IH|].
  inversion Hp as [? ? d bar root root' s2 Hd Hb Hh Hu Hroot Hbp Hprog]; subst. rewrite (placement_devices _ _ _ Hp).
  pose proof (unplaced_count_set (pe_devices s) _ _ d bar Hd Hb Hu). lia.
Qed.
End allocation.
