(* ===== verification/PciDistinct.v ===== *)
(** * PciDistinct: every function is recorded once

    The scan of [Pci.v] visits the slots and functions of a bus in order and gives
    every bus it descends to a number of its own, so that no two recorded devices
    have the same address. *)

From S2P Require Import Prelude.
From S2P Require Import Services.
From S2P Require Import BootMedia.
From S2P Require Import PciPool.
From S2P Require Import Pci.
From S2P Require Import PciEnum.
From Stdlib Require Import ZArith Lia.
From stdpp Require Import base numbers list option.

#[local] Open Scope Z_scope.

(** Devices found while bus [b] is scanned: on [b] and in the slots [P], or on the
    buses numbered from [n] up to [n'] meanwhile. *)
Record once (b n n' : Z) (P : PciAddress -> Prop) (l : list PciDev) : Prop := {
  oc_distinct : NoDup (map pd_addr l);
  oc_where : forall d, d ∈ l -> pa_bus (pd_addr d) = b /\ P (pd_addr d) \/ n <= pa_bus (pd_addr d) < n'
}.

Lemma once_nil b n n' P : once b n n' P [].
Proof. split; [constructor|]. intros d Hd. by apply elem_of_nil in Hd. Qed.

Lemma nodup_app {A} (l k : list A) : NoDup l -> NoDup k -> (forall x, x ∈ l -> x ∈ k -> False) -> NoDup (l ++ k).
Proof. intros Hl Hk H. apply list.NoDup_app. split_and!; [done| |done]. intros x Hx Hx'. by apply (H x). Qed.

Lemma once_app b n n1 n2 P Q l k : b < n <= n1 -> n1 <= n2 -> (forall a, P a -> Q a -> False) ->
  once b n n1 P l -> once b n1 n2 Q k -> once b n n2 (fun a => P a \/ Q a) (l ++ k).
Proof.
  intros Hn H12 Hpq [Hl Hlw] [Hk Hkw]. split.
  - rewrite map_app. apply nodup_app; [done..|]. intros a (d & -> & Hd)%list_elem_of_fmap (d' & E & Hd')%list_elem_of_fmap.
    destruct (Hlw d Hd) as [[Hb Hp]|Hr]; destruct (Hkw d' Hd') as [[Hb' Hq]|Hr']; rewrite <- E in *; [by apply (Hpq (pd_addr d))|lia..].
  - intros d [Hd|Hd]%elem_of_app; [destruct (Hlw d Hd) as [[? ?]|?]|destruct (Hkw d Hd) as [[? ?]|?]]; auto; right; lia.
Qed.

Section distinct.
Context {T : Target} {H : Type} {CS : ConfigSpace H}.
#[local] Notation Pci := (PciEcam H).

(** What a part of the scan of bus [b] of root [k] adds. *)
Definition adds (k : nat) (e b : Z) (P : PciAddress -> Prop) (s s' : Pci) : Prop :=
  forall r, pe_roots s !! k = Some r -> next_ok r -> rt_bus_end r = e -> b < rt_next_bus r ->
    exists l n', pe_devices s' = pe_devices s ++ l /\ pe_roots s' = alter (set_next_bus n') k (pe_roots s) /\
      rt_next_bus r <= n' <= e + 1 /\ once b (rt_next_bus r) n' P l.

Lemma adds_hw k e b P s s' : only_hw s s' -> adds k e b P s s'.
Proof.
  intros (Hr & Hd & _) r Hk [Hn _] He _. exists [], (rt_next_bus r). rewrite Hr, Hd, app_nil_r, (alter_next_id r) by done.
  split_and!; try done; [lia..|]. apply once_nil.
Qed.

Lemma adds_weaken k e b (P Q : PciAddress -> Prop) s s' : (forall a, P a -> Q a) -> adds k e b P s s' -> adds k e b Q s s'.
Proof.
  intros Hpq Ha r Hk Hn He Hb. destruct (Ha r Hk Hn He Hb) as (l & n & Hd & Hr & Hle & [Hl Hw]). exists l, n. split_and!; try done; [lia..|].
  split; [done|]. intros d Hin. destruct (Hw d Hin) as [[? ?]|?]; auto.
Qed.

Lemma next_ok_set r n : next_ok r -> rt_next_bus r <= n <= rt_bus_end r + 1 -> next_ok (set_next_bus n r).
Proof. unfold next_ok. cbn. lia. Qed.

Lemma adds_app k e b (P Q : PciAddress -> Prop) s1 s2 s3 : (forall a, P a -> Q a -> False) ->
  adds k e b P s1 s2 -> adds k e b Q s2 s3 -> adds k e b (fun a => P a \/ Q a) s1 s3.
Proof.
  intros Hpq H12 H23 r Hk Hn He Hb. destruct (H12 r Hk Hn He Hb) as (l & n & Hd & Hr & Hle & Hl).
  destruct (H23 (set_next_bus n r)) as (l' & n' & Hd' & Hr' & Hle' & Hl').
  { by rewrite Hr, list_lookup_alter_eq, Hk. }
  { apply next_ok_set; [done|lia]. }
  { done. }
  { cbn. lia. }
  cbn in Hle', Hl'. exists (l ++ l'), n'. rewrite Hd', Hd, Hr', Hr, app_assoc, alter_next_twice. split_and!; try done; [lia..|].
  apply (once_app b (rt_next_bus r) n n'); (done || lia).
Qed.

(** The rounds of a loop, each with slots of its own. *)
Lemma sfor_each_adds {A} k e b (P : A -> PciAddress -> Prop) (f : A -> sres Pci PciEcamError unit) l :
  NoDup l -> (forall x y a, P x a -> P y a -> x = y) ->
  (forall x s s', x ∈ l -> f x s = (s', Ok tt) -> adds k e b (P x) s s') ->
  forall s s', sfor_each l f s = (s', Ok tt) -> adds k e b (fun a => exists x, x ∈ l /\ P x a) s s'.
Proof.
  intros Hnd Hp. induction Hnd as [|x l Hx _ IH]; intros Hf s s' Hr; cbn [sfor_each] in Hr.
  - injection Hr as <-. by apply adds_hw.
  - apply sbind_Ok in Hr as ([] & s1 & Hone & Hr). apply Hf in Hone; [|left].
    apply IH in Hr; [|intros y u v Hy; apply Hf; by right].
    eapply adds_weaken; [|eapply adds_app, Hr; [|exact Hone]].
    + intros a [Ha|(y & Hy & Ha)]; [exists x; split; [left|done]|exists y; split; [by right|done]].
    + intros a Ha (y & Hy & Ha'). by rewrite (Hp x y a Ha Ha') in Hx.
Qed.

Lemma adds_push k e b d (s0 s s' : Pci) : only_hw s0 s -> pa_bus (pd_addr d) = b -> push_device d s = (s', Ok tt) ->
  adds k e b (eq (pd_addr d)) s0 s'.
Proof.
  intros (Hr & Hd & _) Hb [-> _]%push_device_Ok r Hk [Hn _] He _. exists [d], (rt_next_bus r). cbn.
  rewrite Hr, Hd, (alter_next_id r) by done. split_and!; try done; [lia..|]. split; [apply NoDup_singleton|].
  intros x ->%list_elem_of_singleton. by left.
Qed.

Lemma adds_bridge scan k b e (s0 s s' s'' : Pci) faddr d d' :
  (forall n s s', scan n s = (s', Ok tt) -> adds k e n (fun _ => True) s s') ->
  only_hw s0 s -> pa_bus (pd_addr d) = b ->
  enumerate_bridge scan k b e faddr d s = (s', Ok d') -> push_device d' s' = (s'', Ok tt) -> adds k e b (eq (pd_addr d)) s0 s''.
Proof.
  intros Hscan (Hr0 & Hd0 & _) Hb Hrun Hpush r Hk0 [Hn H255] <- Hlt.
  apply sbind_Ok in Hrun as (sec & s1 & (-> & r1 & Hk1 & -> & Hle)%next_bus_Ok & Hrun). rewrite Hr0, Hk0 in Hk1. injection Hk1 as <-.
  apply sbind_Ok in Hrun as (r2 & s2 & Hx & Hrun). injection Hx as <- Hx. apply or_panic_Ok in Hx. rewrite Hr0, Hk0 in Hx. injection Hx as <-.
  apply sbind_Ok in Hrun as ([] & s2 & ->%store_next_Ok & Hrun).
  apply sbind_Ok in Hrun as ([] & s3 & Ew & Hrun). apply (only_hw_run _ _ _ _ (only_hw_write _ _ _ _ _)) in Ew as (Hr3 & Hd3 & _).
  apply sbind_Ok in Hrun as ([] & s4 & Hs & Hrun). apply Hscan in Hs. cbn in Hr3, Hd3.
  destruct (Hs (set_next_bus (rt_next_bus r + 1) r)) as (l & n' & Hd4 & Hr4 & Hn' & Hl).
  { by rewrite Hr3, Hr0, list_lookup_alter_eq, Hk0. }
  { unfold next_ok. cbn. lia. }
  { done. }
  { cbn. lia. }
  cbn in Hn', Hl. apply sbind_Ok in Hrun as (r4 & s5 & Hx & Hrun). injection Hx as <- _.
  apply sbind_Ok in Hrun as ([] & s6 & Ew & Hrun). apply (only_hw_run _ _ _ _ (only_hw_write _ _ _ _ _)) in Ew as (Hr6 & Hd6 & _).
  injection Hrun as <- <-. apply push_device_Ok in Hpush as [-> _]. set (bridge := set_buses _ _ _).
  exists (l ++ [bridge]), n'. cbn. rewrite Hd6, Hd4, Hd3, Hd0, Hr6, Hr4, Hr3, Hr0, alter_next_twice, <- app_assoc.
  split_and!; try done; [lia..|]. destruct Hl as [Hnd Hw].
  assert (Hup : forall x, x ∈ l -> rt_next_bus r <= pa_bus (pd_addr x) < n') by (intros x Hx'; destruct (Hw x Hx') as [[? _]|?]; lia).
  split.
  - rewrite map_app. apply nodup_app; [done|apply NoDup_singleton|]. intros a (x & -> & Hx')%list_elem_of_fmap Ha.
    apply list_elem_of_singleton in Ha. cbn in Ha. pose proof (Hup x Hx'). rewrite Ha, Hb in *. lia.
  - intros x [Hx'| ->%list_elem_of_singleton]%elem_of_app; [right; by apply Hup|by left].
Qed.

Lemma adds_cardbus k b e (s0 s s' s'' : Pci) faddr d d' :
  only_hw s0 s -> pa_bus (pd_addr d) = b ->
  enumerate_cardbus k b e faddr d s = (s', Ok d') -> push_device d' s' = (s'', Ok tt) -> adds k e b (eq (pd_addr d)) s0 s''.
Proof.
  intros (Hr0 & Hd0 & _) Hb Hrun Hpush r Hk0 [Hn H255] <- Hlt.
  apply sbind_Ok in Hrun as (sec & s1 & (-> & r1 & Hk1 & -> & Hle)%next_bus_Ok & Hrun). rewrite Hr0, Hk0 in Hk1. injection Hk1 as <-.
  apply sbind_Ok in Hrun as ([] & s2 & ->%store_next_Ok & Hrun).
  apply sbind_Ok in Hrun as ([] & s3 & Ew & Hrun). apply (only_hw_run _ _ _ _ (only_hw_write _ _ _ _ _)) in Ew as (Hr3 & Hd3 & _).
  injection Hrun as <- <-. apply push_device_Ok in Hpush as [-> _]. cbn in Hr3, Hd3. set (sub := Z.min _ (rt_bus_end r)) in *.
  exists [set_buses d (rt_next_bus r) sub], (sub + 1). cbn. rewrite Hr3, Hd3, Hr0, Hd0. split_and!; try done.
  - unfold sub, saturating_add, u8_max. lia.
  - unfold sub. lia.
  - split; [apply NoDup_singleton|]. intros x ->%list_elem_of_singleton. by left.
Qed.

Lemma function_adds scan k e g b dev func : 0 <= dev < 32 -> 0 <= func < 8 ->
  (forall n s s', scan n s = (s', Ok tt) -> adds k e n (fun _ => True) s s') ->
  forall s s', enumerate_function scan k g b e dev func s = (s', Ok tt) ->
    adds k e b (fun a => pa_device a = dev /\ pa_function a = func) s s'.
Proof.
  intros Hdev Hfunc Hscan s s' Hrun. unfold enumerate_function in Hrun.
  set (faddr := {| pa_segment := g; pa_bus := b; pa_device := dev; pa_function := func |}) in *.
  apply (adds_weaken k e b (eq faddr)); [by intros a <-|].
  apply sbind_Ok in Hrun as (absent & s1 & Ha & Hrun). assert (W1 : only_hw s s1) by (eapply only_hw_run, Ha; hw_only). clear Ha.
  destruct absent; [injection Hrun as <-; by apply adds_hw|].
  apply sbind_Ok in Hrun as ([d|] & s2 & Hp & Hrun).
  2:{ injection Hrun as <-. apply adds_hw. etrans; [done|]. by eapply only_hw_run, Hp; apply only_hw_probe_device. }
  apply probe_device_Some in Hp as (W2 & Haddr & _); [|done]. pose proof (transitivity W1 W2) as W.
  apply sbind_Ok in Hrun as (d' & s3 & Hd & Hrun). assert (Hb : pa_bus (pd_addr d) = b) by (by rewrite Haddr). rewrite <- Haddr.
  destruct (Z.eqb_spec (pd_header_type d) PCI_HEADER_TYPE_BRIDGE); [by eapply adds_bridge|].
  destruct (Z.eqb_spec (pd_header_type d) PCI_HEADER_TYPE_CARDBUS); [by eapply adds_cardbus|].
  injection Hd as <- <-. by eapply adds_push.
Qed.

Lemma nodup_indices n : NoDup (indices n).
Proof. unfold indices. apply (NoDup_fmap_2 Z.of_nat), NoDup_seq. Qed.

Lemma slot_adds scan k e g b dev : 0 <= dev < 32 ->
  (forall n s s', scan n s = (s', Ok tt) -> adds k e n (fun _ => True) s s') ->
  forall s s', enumerate_slot scan k g b e dev s = (s', Ok tt) -> adds k e b (fun a => pa_device a = dev) s s'.
Proof.
  intros Hdev Hscan s s' Hrun. apply sbind_Ok in Hrun as (v & s1 & E1 & Hrun).
  apply (only_hw_run _ _ _ _ (only_hw_read _ _ _ _)) in E1. destruct (_ =? _); [injection Hrun as <-; by apply adds_hw|].
  apply sbind_Ok in Hrun as (d & s2 & E2 & Hrun). injection E2 as <- _. apply sbind_Ok in Hrun as (d' & s2 & [-> _]%slift_Ok & Hrun).
  apply sbind_Ok in Hrun as (header & s2 & E2 & Hrun). apply (only_hw_run _ _ _ _ (only_hw_read _ _ _ _)) in E2.
  apply (sfor_each_adds k e b (fun func a => pa_device a = dev /\ pa_function a = func)) in Hrun.
  - eapply adds_weaken; [|eapply (adds_app k e b (fun _ => False)), Hrun]; [naive_solver|done|]. apply adds_hw. by etrans.
  - apply nodup_indices.
  - naive_solver.
  - intros func x y Hf%indices_bound. apply function_adds; [done| |done]. case_match; lia.
Qed.

Lemma bus_adds fuel k e : forall b s s', enumerate_bus fuel k b s = (s', Ok tt) -> adds k e b (fun _ => True) s s'.
Proof.
  induction fuel as [|fuel IH]; intros b s s' Hrun; [done|]. cbn [enumerate_bus] in Hrun.
  apply sbind_Ok in Hrun as (r0 & s1 & Hr & Hrun). injection Hr as <- Hr. apply or_panic_Ok in Hr.
  intros r Hk Hn He Hb. rewrite Hk in Hr. injection Hr as <-.
  enough (Hs : adds k e b (fun _ => True) s s') by (by apply Hs). rewrite He in Hrun.
  apply (sfor_each_adds k e b (fun dev a => pa_device a = dev)) in Hrun; [by eapply adds_weaken, Hrun|apply nodup_indices|naive_solver|].
  intros dev x y Hdev%indices_bound. apply slot_adds; [lia|]. intros n u v. apply IH.
Qed.

(** *** All roots *)

Lemma root_distinct k (s s' : Pci) r : pe_roots s !! k = Some r -> root_ready r -> enumerate_root k s = (s', Ok tt) ->
  exists l, pe_devices s' = pe_devices s ++ l /\ NoDup (map pd_addr l).
Proof.
  intros Hk [Hs Hl Hn] Hrun. apply sbind_Ok in Hrun as (r0 & s1 & Hr & Hrun). injection Hr as <- Hr. apply or_panic_Ok in Hr.
  rewrite Hk in Hr. injection Hr as <-.
  destruct (bus_adds 256 k (rt_bus_end r) _ _ _ Hrun r Hk) as (l & n' & Hd & _ & _ & [Hnd _]); [unfold next_ok; lia|done|lia|].
  by exists l.
Qed.

(** Devices of different roots are told apart by their root. *)
Lemma each_distinct m : forall j (s s' : Pci),
  (forall k r, (j <= k)%nat -> pe_roots s !! k = Some r -> root_ready r) -> (j + m = length (pe_roots s))%nat ->
  ForallOrdPairs (fun r r' => roots_overlap r r' = false) (pe_roots s) ->
  sfor_each (seq j m) enumerate_root s = (s', Ok tt) ->
  exists l, pe_devices s' = pe_devices s ++ l /\ NoDup (map pd_addr l) /\
    forall d, d ∈ l -> exists k, (j <= k)%nat /\ root_of (pe_roots s) (pd_addr d) = Some k.
Proof.
  induction m as [|m IH]; intros j s s' Hready Hlen Hap Hrun; cbn [seq sfor_each] in Hrun.
  - injection Hrun as <-. exists []. rewrite app_nil_r. split_and!; [done|constructor|]. intros d Hd. by apply elem_of_nil in Hd.
  - destruct (lookup_lt_is_Some_2 (pe_roots s) j) as [r Hr]; [lia|]. pose proof (Hready j r ltac:(lia) Hr) as Hrr.
    apply sbind_Ok in Hrun as ([] & s1 & Hone & Hrun). destruct (root_distinct j s s1 r Hr Hrr Hone) as (l & Hd & Hnd).
    apply (enumerate_root_Ok j s s1 r) in Hone as (l0 & n' & Hd0 & Hroots & _ & Hscan & _); [|done..].
    rewrite Hd in Hd0. apply (inj (app (pe_devices s))) in Hd0 as <-.
    destruct (root_scan_numbered (pe_roots s) j r l Hap Hr Hrr Hscan) as [Hf _]. rewrite list.Forall_forall in Hf.
    apply IH in Hrun as (l' & Hd' & Hnd' & Hw').
    + exists (l ++ l'). rewrite Hd', Hd, app_assoc. rewrite Hroots in Hw'. split; [done|]. split.
      * rewrite map_app. apply nodup_app; [done..|]. intros a (d & -> & Hin)%list_elem_of_fmap (d' & E & Hin')%list_elem_of_fmap.
        destruct (Hf d Hin) as [[_ _ Hro _ _ _] Hk], (Hw' d' Hin') as (k & Hjk & Hro').
        rewrite (root_of_same _ _ _ (same_roots_alter j n' _)) in Hro'. rewrite <- E, Hro in Hro'. injection Hro' as <-. lia.
      * intros d [Hin|Hin]%elem_of_app.
        { destruct (Hf d Hin) as [[_ _ Hro _ _ _] Hk]. exists j. split; [done|]. by rewrite <- Hk. }
        destruct (Hw' d Hin) as (k & Hjk & Hro). exists k. split; [lia|]. by rewrite (root_of_same _ _ _ (same_roots_alter j n' _)) in Hro.
    + intros k r' Hjk Hk. apply (Hready k); [lia|]. by rewrite Hroots, list_lookup_alter_ne in Hk by lia.
    + rewrite Hroots, length_alter. lia.
    + rewrite Hroots. clear -Hap. revert j. induction Hap as [|x roots Hx Hrest IH]; intros j; [constructor|]. destruct j as [|j]; cbn.
      * constructor; [exact Hx|exact Hrest].
      * constructor; [|apply IH]. apply Forall_alter; [done|]. intros y _. done.
Qed.

(** No address is recorded twice. *)
Lemma enumerated_distinct (s s' : Pci) : ready s -> enumerate_roots s = (s', Ok tt) -> NoDup (map pd_addr (pe_devices s')).
Proof.
  intros [Hr He Hap] Hrun.
  assert (Hready : forall k r, (0 <= k)%nat -> pe_roots s !! k = Some r -> root_ready r) by (intros k r _ Hk; by eapply forall_lookup).
  destruct (each_distinct (length (pe_roots s)) 0 s s' Hready eq_refl Hap Hrun) as (l & Hd & Hnd & _). by rewrite Hd, He.
Qed.
End distinct.
