(* ===== verification/PciStores.v ===== *)
(** * PciStores: the registers an allocation programs

    The hardware of [Pci.v] is abstract, so what a routine does to it is the list of
    its stores, in order.  The last store that meets a register says what the
    register was left with. *)

From S2P Require Import Prelude.
From S2P Require Import Bits.
From S2P Require Import Services.
From S2P Require Import BootMedia.
From S2P Require Import PciPool.
From S2P Require Import Pci.
From S2P Require Import PciEnum.
From S2P Require Import PciAlloc.
From S2P Require Import PciSafe.
From Stdlib Require Import ZArith Lia.
From stdpp Require Import base numbers list option.

#[local] Open Scope Z_scope.

Record Store := { so_width : Z; so_address : Z; so_value : Z }.

(** A store that writes one of the [w] bytes from [a] on. *)
Definition meets (a w : Z) (st : Store) : bool := (so_address st <? a + w) && (a <? so_address st + so_width st).

Definition last_store (t : list Store) (a w : Z) : option Store := list.last (filter (fun st => meets a w st = true) t).

Lemma last_store_app t1 t2 a w :
  last_store (t1 ++ t2) a w = match last_store t2 a w with Some st => Some st | None => last_store t1 a w end.
Proof. unfold last_store. by rewrite list.filter_app, list.last_app. Qed.

Definition misses (a w : Z) (t : list Store) : Prop := forall st, st ∈ t -> meets a w st = false.

Lemma misses_last a w t : misses a w t -> last_store t a w = None.
Proof.
  intros Hm. unfold last_store. assert (E : filter (fun st => meets a w st = true) t = []); [|by rewrite E].
  induction t as [|st t IH]; [done|]. rewrite filter_cons_False; [|by rewrite (Hm st) by left].
  apply IH. intros st' Hst'. apply Hm. by right.
Qed.

Lemma misses_app a w t1 t2 : misses a w t1 -> misses a w t2 -> misses a w (t1 ++ t2).
Proof. intros H1 H2 st [?|?]%elem_of_app; auto. Qed.

Lemma misses_concat a w ts : (forall t, t ∈ ts -> misses a w t) -> misses a w (concat ts).
Proof.
  induction ts as [|t ts IH]; intros Hm; cbn [concat]; [intros st Hst; by apply elem_of_nil in Hst|].
  apply misses_app; [apply Hm; left|]. apply IH. intros t' Ht'. apply Hm. by right.
Qed.

(** In a list of routines one of which is known to be the only one to meet a register. *)
Lemma last_store_concat {A} (f : A -> list Store) l p a w : p ∈ l -> NoDup l ->
  (forall q, q ∈ l -> q <> p -> misses a w (f q)) -> last_store (concat (map f l)) a w = last_store (f p) a w.
Proof.
  induction l as [|x l IH]; intros Hp Hnd Hm; [by apply elem_of_nil in Hp|]. apply list.NoDup_cons in Hnd as [Hx Hnd].
  cbn [map concat]. rewrite last_store_app. apply elem_of_cons in Hp as [->|Hp].
  - rewrite misses_last; [done|]. apply misses_concat. intros t (q & -> & Hq)%list_elem_of_fmap. apply Hm; [by right|]. by intros ->.
  - rewrite IH; [|done..|intros q Hq; apply Hm; by right]. destruct (last_store (f p) a w); [done|]. apply misses_last, Hm; [left|].
    by intros ->.
Qed.

(** Stores in the page of a function. *)
Definition in_page (b : Z) (st : Store) : Prop := b <= so_address st /\ so_address st + so_width st <= b + FUNCTION_CONFIG_BYTES.

Lemma page_misses b b' a w t : (forall st, st ∈ t -> in_page b' st) ->
  b + FUNCTION_CONFIG_BYTES <= b' \/ b' + FUNCTION_CONFIG_BYTES <= b -> b <= a -> a + w <= b + FUNCTION_CONFIG_BYTES -> misses a w t.
Proof.
  intros Ht Hb Ha Hw st Hst. destruct (Ht st Hst). unfold meets. apply andb_false_iff. rewrite !Z.ltb_ge. lia.
Qed.

(** ** What routines store *)

Section stores.
Context {T : Target} {H : Type} {CS : ConfigSpace H}.
#[local] Notation Pci := (PciEcam H).

Definition stores (t : list Store) (hw : H) : H :=
  fold_left (fun hw st => mmio_write hw (so_width st) (so_address st) (so_value st)) t hw.

Definition emits (s : Pci) (t : list Store) (s' : Pci) : Prop := s' = set_hw s (stores t (pe_hw s)).

Lemma emits_nil s : emits s [] s.
Proof. by destruct s. Qed.

Lemma emits_app s1 t1 s2 t2 s3 : emits s1 t1 s2 -> emits s2 t2 s3 -> emits s1 (t1 ++ t2) s3.
Proof. unfold emits. intros -> ->. cbn. unfold stores. by rewrite fold_left_app. Qed.

Lemma emits_roots s t s' : emits s t s' -> pe_roots s' = pe_roots s.
Proof. by intros ->. Qed.

Lemma emits_devices s t s' : emits s t s' -> pe_devices s' = pe_devices s.
Proof. by intros ->. Qed.

Lemma write_emits w a reg v s s' b : device (pe_roots s) a = Some b -> config_write w a reg v s = (s', Ok tt) ->
  emits s [{| so_width := w; so_address := b + reg; so_value := v |}] s' /\ reg + w <= FUNCTION_CONFIG_BYTES.
Proof.
  intros Hd Hr. unfold config_write in Hr. destruct (config_address _ _ _ _) as [x|] eqn:E; [|done]. injection Hr as <-.
  unfold config_address in E. rewrite Hd in E. cbn [mbind option_bind] in E. unfold register_address in E. destruct (negb _); [done|].
  unfold span_address in E. apply bind_Some in E as (e & He & E). apply checked_add_Some in He as [-> _].
  destruct (Z.ltb_spec FUNCTION_CONFIG_BYTES (reg + w)); [done|]. apply bind_Some in E as (a' & Ha & E). apply checked_add_Some in Ha as [-> _].
  apply bind_Some in E as (? & _ & E). apply bind_Some in E as (? & _ & E). by injection E as <-.
Qed.

(** *** One placement *)

Definition store (w a v : Z) : Store := {| so_width := w; so_address := a; so_value := v |}.

Definition bar_stores (b : Z) (bar : BarInfo) (base : Z) : list Store :=
  match bi_type bar with
  | BarMemory32 => [store 4 (b + bi_reg bar) (Z.lor (Z.land (u32_of base) MEMORY_MASK) (prefetch_bit bar))]
  | BarMemory64 => [store 4 (b + bi_reg bar) (Z.lor (Z.lor (Z.land (u32_of base) MEMORY_MASK) 4) (prefetch_bit bar));
                    store 4 (b + (bi_reg bar + 4)) (u32_of (Z.shiftr base 32))]
  | BarIo => [store 4 (b + bi_reg bar) (Z.lor (u32_of base) 1)]
  | NoBar => []
  end.

Definition program_stores (b : Z) (d : PciDev) (bar : BarInfo) (base : Z) : list Store :=
  [store 2 (b + PCI_COMMAND) (no_decode (pd_original_command d))] ++ bar_stores b bar base ++
  [store 2 (b + PCI_COMMAND) (pd_original_command d)].

Lemma program_emits d bar base (s s' : Pci) b : device (pe_roots s) (pd_addr d) = Some b ->
  program_bar d bar base s = (s', Ok tt) -> emits s (program_stores b d bar base) s'.
Proof.
  intros Hb Hr. apply sbind_Ok in Hr as ([] & s1 & H1 & Hr). destruct (write_emits _ _ _ _ _ _ _ Hb H1) as [E1 _].
  rewrite <- (emits_roots _ _ _ E1) in Hb. apply sbind_Ok in Hr as ([] & s2 & H2 & H3).
  assert (E2 : emits s1 (bar_stores b bar base) s2).
  { unfold bar_stores. destruct (bi_type bar).
    - injection H2 as <-. apply emits_nil.
    - by apply (write_emits _ _ _ _ _ _ _ Hb) in H2 as [? _].
    - by apply (write_emits _ _ _ _ _ _ _ Hb) in H2 as [? _].
    - apply sbind_Ok in H2 as ([] & s3 & H2 & H4). destruct (write_emits _ _ _ _ _ _ _ Hb H2) as [E2 _].
      rewrite <- (emits_roots _ _ _ E2) in Hb. destruct (write_emits _ _ _ _ _ _ _ Hb H4) as [E3 _]. exact (emits_app _ _ _ _ _ E2 E3). }
  rewrite <- (emits_roots _ _ _ E2) in Hb. destruct (write_emits _ _ _ _ _ _ _ Hb H3) as [E3 _].
  exact (emits_app _ _ _ _ _ E1 (emits_app _ _ _ _ _ E2 E3)).
Qed.

(** The stores of a placement, by the devices and roots of any state of the run. *)
Definition placed_stores (s : Pci) (p : Placement) : list Store :=
  match pe_devices s !! pl_dev p with
  | Some d =>
      match pd_bars d !! pl_bar p, device (pe_roots s) (pd_addr d) with
      | Some bar, Some b => program_stores b d bar (pl_base p)
      | _, _ => []
      end
  | None => []
  end.

Lemma placed_stores_step (s s' : Pci) p q : placement s p s' -> placed_stores s' q = placed_stores s q.
Proof.
  intros Hp. unfold placed_stores. rewrite (placement_devices s p s' Hp).
  assert (Hdev : forall a, device (pe_roots s') a = device (pe_roots s) a) by (intros a; apply device_topology; by eapply placement_topology).
  destruct (decide (pl_dev q = pl_dev p)) as [->|Hne].
  - rewrite list_lookup_alter_eq. destruct (pe_devices s !! pl_dev p) as [d|]; cbn [fmap option_fmap option_map]; [|done].
    cbn [set_bar_allocated pd_bars pd_addr]. rewrite Hdev. destruct (decide (pl_bar q = pl_bar p)) as [->|Hj].
    + rewrite list_lookup_alter_eq. by destruct (pd_bars d !! pl_bar p).
    + by rewrite list_lookup_alter_ne.
  - rewrite list_lookup_alter_ne by done. destruct (pe_devices s !! pl_dev q) as [d|]; [|done]. by rewrite Hdev.
Qed.

Lemma placement_stores (s s' : Pci) p : alloc_ok s -> placement s p s' -> pe_hw s' = stores (placed_stores s p) (pe_hw s).
Proof.
  intros Hok Hp. inversion Hp as [? ? d bar root root' s2 Hd Hb Hh Hu Hroot Hbp Hprog]; subst.
  destruct (forall_lookup _ _ _ _ (ao_reach _ Hok) Hd) as (b & Hbase & _). unfold placed_stores. rewrite Hd, Hb, Hbase.
  apply (program_emits _ _ _ _ _ b) in Hprog; [by rewrite Hprog|]. cbn [pe_roots set_roots].
  rewrite (device_topology (pe_roots s)); [done|]. change (map topology) with (fmap (M := list) topology). rewrite list_fmap_insert. apply list_insert_id.
  rewrite list_lookup_fmap, Hroot. cbn. by rewrite (bp_topology _ _ _ _ _ _ Hbp).
Qed.

Lemma placements_stores (s s' : Pci) l : alloc_ok s -> placements s l s' ->
  pe_hw s' = stores (concat (map (placed_stores s) l)) (pe_hw s).
Proof.
  intros Hok Hl. induction Hl as [|s p s1 l s' Hp _ IH]; [done|]. rewrite (IH (alloc_ok_step _ _ _ Hok Hp)), (placement_stores s s1 p Hok Hp).
  cbn [map concat]. unfold stores. rewrite fold_left_app.
  by rewrite (map_ext _ _ (fun q => placed_stores_step s s1 p q Hp)).
Qed.

(** *** Enabling decode *)

Definition decode_command (d : PciDev) : Z :=
  let has_io := existsb (fun bar => bi_allocated bar && bool_decide (bi_type bar = BarIo)) (pd_bars d) in
  let has_memory := existsb (fun bar => bi_allocated bar && is_memory (bi_type bar)) (pd_bars d) in
  let cmd := if has_io then Z.lor (pd_original_command d) PCI_CMD_IO else pd_original_command d in
  Z.lor (if has_memory then Z.lor cmd PCI_CMD_MEMORY else cmd) PCI_CMD_BUS_MASTER.

Definition decode_stores (roots : list PciRoot) (d : PciDev) : list Store :=
  if pd_header_type d =? PCI_HEADER_TYPE_BRIDGE then []
  else match device roots (pd_addr d) with Some b => [store 2 (b + PCI_COMMAND) (decode_command d)] | None => [] end.

Lemma decode_emits d (s s' : Pci) : is_Some (device (pe_roots s) (pd_addr d)) -> enable_decode d s = (s', Ok tt) ->
  emits s (decode_stores (pe_roots s) d) s'.
Proof.
  intros [b Hb] Hr. unfold enable_decode in Hr. unfold decode_stores. destruct (_ =? _); [injection Hr as <-; apply emits_nil|].
  rewrite Hb. by destruct (write_emits _ _ _ _ _ _ _ Hb Hr) as [? _].
Qed.

Lemma decode_all devs : forall s s' : Pci, (forall d, d ∈ devs -> is_Some (device (pe_roots s) (pd_addr d))) ->
  sfor_each devs enable_decode s = (s', Ok tt) -> emits s (concat (map (decode_stores (pe_roots s)) devs)) s'.
Proof.
  induction devs as [|d devs IH]; intros s s' Hd Hr; cbn [sfor_each] in Hr; [injection Hr as <-; apply emits_nil|].
  apply sbind_Ok in Hr as ([] & s1 & H1 & Hr). apply decode_emits in H1; [|apply Hd; left].
  pose proof (emits_roots _ _ _ H1) as E. apply IH in Hr; [|intros x Hx; rewrite E; apply Hd; by right].
  rewrite E in Hr. cbn [map concat]. by eapply emits_app.
Qed.

(** *** Bridges: stores in the bridge's own page *)

(** A routine that only reads. *)
Definition quiet {A} (m : sres Pci PciEcamError A) : Prop := forall s, fst (m s) = s.

Lemma quiet_bind {A B} (m : sres Pci PciEcamError A) (k : A -> sres Pci PciEcamError B) :
  quiet m -> (forall x, quiet (k x)) -> quiet (sbind m k).
Proof. intros Hm Hk s. specialize (Hm s). unfold sbind. destruct (m s) as [s1 [x|e|]]; cbn in *; subst; [apply Hk|done..]. Qed.

Lemma quiet_read w a reg : quiet (config_read w a reg).
Proof. intros s. unfold config_read. by destruct (config_address _ _ _ _). Qed.

Lemma quiet_fold {A B} (f : B -> A -> sres Pci PciEcamError B) l : (forall b x, quiet (f b x)) -> forall b, quiet (sfold_each l b f).
Proof. intros Hf. induction l as [|x l IH]; intros b; cbn [sfold_each]; [done|]. by apply quiet_bind. Qed.

Ltac quiet_tac :=
  repeat first [done | apply quiet_read | apply quiet_bind; [|intros ?]
               | match goal with |- quiet (match ?x with _ => _ end) => destruct x end].

Lemma quiet_span_child bridge ss child : quiet (span_child bridge ss child).
Proof.
  unfold span_child. destruct (below _ _); [|done]. apply quiet_fold. intros b bar. unfold span_bar, bar_base, read32. quiet_tac.
Qed.

(** A routine that stores to the page of a function only. *)
Definition pages {A} (a : PciAddress) (m : sres Pci PciEcamError A) : Prop := forall s s' x b,
  device (pe_roots s) a = Some b -> m s = (s', Ok x) -> exists t, emits s t s' /\ forall st, st ∈ t -> in_page b st.

Lemma pages_quiet {A} a (m : sres Pci PciEcamError A) : quiet m -> pages a m.
Proof.
  intros Hq s s' x b _ Hr. exists []. specialize (Hq s). rewrite Hr in Hq. cbn in Hq. subst. split; [apply emits_nil|].
  intros st Hst. by apply elem_of_nil in Hst.
Qed.

Lemma pages_bind {A B} a (m : sres Pci PciEcamError A) (k : A -> sres Pci PciEcamError B) :
  pages a m -> (forall x, pages a (k x)) -> pages a (sbind m k).
Proof.
  intros Hm Hk s s' x b Hb Hr. apply sbind_Ok in Hr as (y & s1 & H1 & Hr). destruct (Hm s s1 y b Hb H1) as (t1 & E1 & P1).
  destruct (Hk y s1 s' x b) as (t2 & E2 & P2); [by rewrite (emits_roots _ _ _ E1)|done|].
  exists (t1 ++ t2). split; [by eapply emits_app|]. intros st [?|?]%elem_of_app; auto.
Qed.

Lemma pages_write a w reg v : 0 <= reg -> pages a (config_write w a reg v).
Proof.
  intros Hg s s' [] b Hb Hr. destruct (write_emits _ _ _ _ _ _ _ Hb Hr) as [E Hle]. eexists. split; [exact E|].
  intros st ->%list_elem_of_singleton. unfold in_page. cbn. lia.
Qed.

Lemma pages_bridge d : pages (pd_addr d) (program_bridge d).
Proof.
  unfold program_bridge. destruct (negb _); [by apply pages_quiet|]. apply pages_bind; [by apply pages_quiet|]. intros devs.
  apply pages_bind; [apply pages_quiet, quiet_fold; intros; apply quiet_span_child|]. intros ss.
  unfold program_windows, write16, write32, PCI_COMMAND, PCI_MEMORY_BASE, PCI_PREF_MEMORY_BASE, PCI_PREF_BASE_UPPER32, PCI_PREF_LIMIT_UPPER32, PCI_IO_BASE.
  repeat first [apply pages_write; lia | apply pages_bind; [|intros ?] | match goal with |- pages _ (if ?x then _ else _) => destruct x end].
Qed.

Lemma bridges_all devs : forall s s' : Pci, (forall d, d ∈ devs -> is_Some (device (pe_roots s) (pd_addr d))) ->
  sfor_each devs program_bridge s = (s', Ok tt) ->
  exists t, emits s t s' /\ forall st, st ∈ t -> exists d b, d ∈ devs /\ pd_header_type d = PCI_HEADER_TYPE_BRIDGE /\
    device (pe_roots s) (pd_addr d) = Some b /\ in_page b st.
Proof.
  induction devs as [|d devs IH]; intros s s' Hd Hr; cbn [sfor_each] in Hr.
  { injection Hr as <-. exists []. split; [apply emits_nil|]. intros st Hst. by apply elem_of_nil in Hst. }
  apply sbind_Ok in Hr as ([] & s1 & H1 & Hr). destruct (Hd d ltac:(left)) as [b Hb].
  assert (E1 : exists t1, emits s t1 s1 /\ forall st, st ∈ t1 -> pd_header_type d = PCI_HEADER_TYPE_BRIDGE /\ in_page b st).
  { destruct (Z.eqb_spec (pd_header_type d) PCI_HEADER_TYPE_BRIDGE) as [E|E].
    - destruct (pages_bridge d s s1 tt b Hb H1) as (t & ? & Hp). exists t. split; [done|]. auto.
    - unfold program_bridge in H1. rewrite (proj2 (Z.eqb_neq _ _) E) in H1. injection H1 as <-. exists []. split; [apply emits_nil|].
      intros st Hst. by apply elem_of_nil in Hst. }
  destruct E1 as (t1 & E1 & P1). pose proof (emits_roots _ _ _ E1) as E.
  apply IH in Hr as (t2 & E2 & P2); [|intros x Hx; rewrite E; apply Hd; by right]. rewrite E in P2.
  exists (t1 ++ t2). split; [by eapply emits_app|]. intros st [Hst|Hst]%elem_of_app.
  - destruct (P1 st Hst). exists d, b. split_and!; try done. left.
  - destruct (P2 st Hst) as (x & bx & ? & ? & ? & ?). exists x, bx. split_and!; try done. by right.
Qed.
End stores.
