(* ===== verification/PciProgram.v ===== *)
(** * PciProgram: what the hardware is left with

    After a successful allocation every placed base address register has been
    stored its base, by the last store that meets it, and the function decodes the
    space of the register. *)

From S2P Require Import Prelude.
From S2P Require Import Bits.
From S2P Require Import Services.
From S2P Require Import Memory.
From S2P Require Import BootMedia.
From S2P Require Import PciPool.
From S2P Require Import Pci.
From S2P Require Import PciEnum.
From S2P Require Import PciAlloc.
From S2P Require Import PciSafe.
From S2P Require Import PciDistinct.
From S2P Require Import PciStores.
From Stdlib Require Import ZArith Lia.
From stdpp Require Import base numbers list option.

#[local] Open Scope Z_scope.

(** ** Pages of distinct functions *)

(** No two roots map a byte of configuration space twice. *)
Definition ecam_apart (roots : list PciRoot) : Prop := forall i j r r', i <> j -> roots !! i = Some r -> roots !! j = Some r' ->
  rt_ecam_base r + (rt_bus_end r + 1) * 2 ^ 20 <= rt_ecam_base r' + rt_bus_start r' * 2 ^ 20 \/
  rt_ecam_base r' + (rt_bus_end r' + 1) * 2 ^ 20 <= rt_ecam_base r + rt_bus_start r * 2 ^ 20.

Lemma device_address {T : Target} roots a k r b : root_of roots a = Some k -> roots !! k = Some r -> root_mapped r -> address_ok a ->
  device roots a = Some b ->
  root_contains r a = true /\ b = rt_ecam_base r + (pa_bus a * 2 ^ 20 + pa_device a * 2 ^ 15 + pa_function a * 2 ^ 12).
Proof.
  intros Hk Hr [Hs _ _ _ _] Ha Hd. destruct (root_of_lookup _ _ _ Hk) as (r' & Hr' & Hc). rewrite Hr in Hr'. injection Hr' as <-.
  split; [done|]. assert (Hb : 0 <= pa_bus a).
  { unfold root_contains in Hc. rewrite !andb_true_iff, !Z.leb_le in Hc. lia. }
  unfold device in Hd. rewrite Hk in Hd. cbn [mbind option_bind] in Hd. rewrite Hr in Hd. cbn [mbind option_bind] in Hd.
  apply bind_Some in Hd as (? & _ & Hd). apply bind_Some in Hd as (? & _ & Hd). destruct (_ <? _); [done|].
  apply checked_add_Some in Hd as [-> _]. by rewrite function_offset_sum.
Qed.

Lemma pages_apart {T : Target} roots a a' b b' : Forall root_mapped roots -> ecam_apart roots ->
  is_Some (root_of roots a) -> is_Some (root_of roots a') -> address_ok a -> address_ok a' ->
  device roots a = Some b -> device roots a' = Some b' -> a <> a' ->
  b + FUNCTION_CONFIG_BYTES <= b' \/ b' + FUNCTION_CONFIG_BYTES <= b.
Proof.
  intros Hm Hap [k Hk] [k' Hk'] Ha Ha' Hd Hd' Hne.
  destruct (root_of_lookup _ _ _ Hk) as (r & Hr & _), (root_of_lookup _ _ _ Hk') as (r' & Hr' & _).
  destruct (device_address roots a k r b Hk Hr (forall_lookup _ _ _ _ Hm Hr) Ha Hd) as [Hc ->].
  destruct (device_address roots a' k' r' b' Hk' Hr' (forall_lookup _ _ _ _ Hm Hr') Ha' Hd') as [Hc' ->].
  unfold root_contains in Hc, Hc'. rewrite !andb_true_iff, !Z.leb_le, Z.eqb_eq in Hc, Hc'.
  destruct Ha, Ha'. unfold FUNCTION_CONFIG_BYTES. change (2 ^ 20) with 1048576. change (2 ^ 15) with 32768. change (2 ^ 12) with 4096.
  destruct (decide (k = k')) as [<-|Hkk].
  - rewrite Hr in Hr'. injection Hr' as <-. destruct a as [g bus dev fn], a' as [g' bus' dev' fn']. cbn in *.
    assert (Hx : bus <> bus' \/ dev <> dev' \/ fn <> fn').
    { destruct (decide (bus = bus')), (decide (dev = dev')), (decide (fn = fn')); auto. exfalso. apply Hne. f_equal; try done. lia. }
    lia.
  - pose proof (Hap k k' r r' Hkk Hr Hr') as Hx. change (2 ^ 20) with 1048576 in Hx. lia.
Qed.

(** ** What a register holds *)

(** The base of a BAR with its attribute bits, in one register or in two. *)
Definition bar_holds (t : list Store) (reg : Z) (bar : BarInfo) (base : Z) : Prop :=
  let attributes := if bi_prefetchable bar then 8 else 0 in
  match bi_type bar with
  | NoBar => False
  | BarIo => base mod 4 = 0 /\ last_store t reg 4 = Some (store 4 reg (base + 1))
  | BarMemory32 => base mod 16 = 0 /\ last_store t reg 4 = Some (store 4 reg (base + attributes))
  | BarMemory64 => base mod 16 = 0 /\ last_store t reg 4 = Some (store 4 reg (base mod 2 ^ 32 + 4 + attributes)) /\
      last_store t (reg + 4) 4 = Some (store 4 (reg + 4) (base / 2 ^ 32))
  end.

(** The addresses of a space. *)
Definition space_end (t : BarType) : Z := match t with BarIo => 2 ^ 16 | BarMemory32 => 2 ^ 32 | _ => 2 ^ 64 end.

(** A placement as the hardware has it: the base is in the register of the BAR, no
    higher than the register reaches, and the function decodes the space of the BAR
    and may be a bus master. *)
Record programmed (t : list Store) (b : Z) (p : Placement) (bar : BarInfo) : Prop := {
  pg_register : bi_reg bar = PCI_BAR0 + Z.of_nat (pl_bar p) * 4;
  pg_base : bar_holds t (b + bi_reg bar) bar (pl_base p);
  pg_end : 0 <= pl_base p /\ pl_base p + bi_size bar <= space_end (bi_type bar);
  pg_decode : exists command, last_store t (b + PCI_COMMAND) 2 = Some (store 2 (b + PCI_COMMAND) command) /\
    Z.testbit command (if is_io_bar (bi_type bar) then 0 else 1) = true /\ Z.testbit command 2 = true
}.

Lemma add_low x y k : 0 <= k -> 0 <= y < 2 ^ k -> x mod 2 ^ k = 0 -> Z.lor x y = x + y.
Proof.
  intros Hk Hy Hx. pose proof (Z.pow_pos_nonneg 2 k). rewrite Z.lor_comm. rewrite (Z.div_mod x (2 ^ k)) at 1 by lia. rewrite Hx, Z.add_0_r, (Z.mul_comm (2 ^ k)).
  rewrite <- Z.shiftl_mul_pow2, lor_shiftl_add by lia. pose proof (Z.div_mod x (2 ^ k)). lia.
Qed.

Lemma memory_low base : base mod 16 = 0 -> Z.land (u32_of base) MEMORY_MASK = base mod 2 ^ 32 /\ base mod 2 ^ 32 mod 16 = 0.
Proof.
  intros Hb. unfold u32_of. change MEMORY_MASK with (not_mask 32 (2 ^ 4 - 1)). rewrite land_high_mask by lia. rewrite Z.mod_mod by lia.
  assert (E : base mod 2 ^ 32 mod 16 = 0).
  { change (2 ^ 32) with (16 * 2 ^ 28). rewrite (Z.mul_comm 16), <- Znumtheory.Zmod_div_mod; [done|lia|lia|]. exists (2 ^ 28). lia. }
  split; [|done]. change (2 ^ 4) with 16. pose proof (Z.div_mod (base mod 2 ^ 32) 16). lia.
Qed.

Lemma attributes_range bar : prefetch_bit bar = 0 \/ prefetch_bit bar = 8.
Proof. unfold prefetch_bit. destruct (bi_prefetchable bar); auto. Qed.

Lemma memory_value base bar : base mod 16 = 0 -> 0 <= base < 2 ^ 32 ->
  Z.lor (Z.land (u32_of base) MEMORY_MASK) (prefetch_bit bar) = base + prefetch_bit bar.
Proof.
  intros Hb Hr. destruct (memory_low base Hb) as [-> _]. rewrite Z.mod_small by done. apply (add_low _ _ 4); [done| |done].
  destruct (attributes_range bar) as [-> | ->]; lia.
Qed.

Lemma memory64_value base bar : base mod 16 = 0 ->
  Z.lor (Z.lor (Z.land (u32_of base) MEMORY_MASK) 4) (prefetch_bit bar) = base mod 2 ^ 32 + 4 + prefetch_bit bar.
Proof.
  intros Hb. destruct (memory_low base Hb) as [-> Hm]. rewrite <- Z.lor_assoc.
  assert (E : Z.lor 4 (prefetch_bit bar) = 4 + prefetch_bit bar) by (destruct (attributes_range bar) as [-> | ->]; done).
  rewrite E, (add_low _ _ 4); [lia|done| |done]. destruct (attributes_range bar) as [-> | ->]; lia.
Qed.

Lemma io_value base : base mod 4 = 0 -> 0 <= base < 2 ^ 16 -> Z.lor (u32_of base) 1 = base + 1.
Proof. intros Hb Hr. unfold u32_of. rewrite Z.mod_small by lia. by apply (add_low _ _ 2). Qed.

(** *** The last store of one placement *)

Lemma last_one st a w : last_store [st] a w = if meets a w st then Some st else None.
Proof.
  unfold last_store. destruct (meets a w st) eqn:E; [by rewrite filter_cons_True|]. rewrite filter_cons_False; [done|]. by rewrite E.
Qed.

Lemma last_two st st' a w : last_store [st; st'] a w = if meets a w st' then Some st' else if meets a w st then Some st else None.
Proof. change [st; st'] with ([st] ++ [st']). rewrite last_store_app, !last_one. by destruct (meets a w st'). Qed.

Lemma meets_self w a v : 0 < w -> meets a w (store w a v) = true.
Proof. intros Hw. unfold meets, store. cbn. apply andb_true_iff. rewrite !Z.ltb_lt. lia. Qed.

Lemma misses_one a w st : so_address st + so_width st <= a \/ a + w <= so_address st -> misses a w [st].
Proof. intros Hm x ->%list_elem_of_singleton. unfold meets. apply andb_false_iff. rewrite !Z.ltb_ge. lia. Qed.

(** The registers of the slot behind a BAR that is not 64 bits wide are not its. *)
Lemma bar_misses a b bar base : b + bi_reg bar + 4 <= a \/ a + 4 <= b + bi_reg bar ->
  (bi_type bar = BarMemory64 -> b + bi_reg bar + 8 <= a \/ a + 4 <= b + bi_reg bar + 4) -> misses a 4 (bar_stores b bar base).
Proof.
  intros H1 H2. unfold bar_stores. destruct (bi_type bar); [intros st Hst; by apply elem_of_nil in Hst|..]; try (apply misses_one; cbn; lia).
  apply (misses_app _ _ [_] [_]); apply misses_one; cbn; [lia|]. specialize (H2 eq_refl). lia.
Qed.

Lemma program_misses a b d bar base : b + PCI_COMMAND + 2 <= a -> misses a 4 (bar_stores b bar base) -> misses a 4 (program_stores b d bar base).
Proof.
  intros Ha Hm. unfold program_stores. apply misses_app; [apply misses_one; cbn; lia|]. apply misses_app; [done|]. apply misses_one. cbn. lia.
Qed.

Lemma program_last a b d bar base : b + PCI_COMMAND + 2 <= a ->
  last_store (program_stores b d bar base) a 4 = last_store (bar_stores b bar base) a 4.
Proof.
  intros Ha. unfold program_stores. rewrite !last_store_app. rewrite (misses_last a 4 [store 2 _ (pd_original_command d)]) by (apply misses_one; cbn; lia).
  rewrite (misses_last a 4 [store 2 _ (no_decode _)]) by (apply misses_one; cbn; lia). by destruct (last_store (bar_stores _ _ _) _ _).
Qed.

(** The bases a BAR can have. *)
Definition base_fits (bar : BarInfo) (base : Z) : Prop :=
  bi_type bar <> NoBar /\ base mod (if is_io_bar (bi_type bar) then 4 else 16) = 0 /\ 0 <= base /\ base + bi_size bar <= space_end (bi_type bar).

Lemma placement_holds t b d bar base : base_fits bar base -> 0 < bi_size bar -> PCI_BAR0 <= bi_reg bar ->
  (forall a, a = b + bi_reg bar \/ (bi_type bar = BarMemory64 /\ a = b + bi_reg bar + 4) ->
     last_store t a 4 = last_store (program_stores b d bar base) a 4) ->
  bar_holds t (b + bi_reg bar) bar base.
Proof.
  intros (Ht & Hal & H0 & He) Hsz Hreg Hlast. unfold PCI_BAR0 in Hreg.
  assert (Hl : forall a, a = b + bi_reg bar \/ (bi_type bar = BarMemory64 /\ a = b + bi_reg bar + 4) ->
    last_store t a 4 = last_store (bar_stores b bar base) a 4).
  { intros a Ha. rewrite Hlast by done. apply program_last. unfold PCI_COMMAND. lia. }
  clear Hlast. unfold bar_holds, bar_stores, is_io_bar in *. fold (prefetch_bit bar). destruct (bi_type bar); [done|..]; cbn in He, Hal.
  - change (bool_decide (BarIo = BarIo)) with true in Hal. cbn in Hal. split; [done|]. rewrite Hl by (by left).
    rewrite last_one, meets_self, io_value by (done || lia). done.
  - change (bool_decide (BarMemory32 = BarIo)) with false in Hal. cbn in Hal. split; [done|]. rewrite Hl by (by left).
    rewrite last_one, meets_self, memory_value by (done || lia). done.
  - change (bool_decide (BarMemory64 = BarIo)) with false in Hal. cbn in Hal. rewrite (Z.shiftr_div_pow2 base) in Hl by lia. rewrite memory64_value in Hl by done.
    replace (u32_of (base / 2 ^ 32)) with (base / 2 ^ 32) in Hl
      by (unfold u32_of; rewrite Z.mod_small; [done|]; split; [apply Z.div_pos; lia|apply Z.div_lt_upper_bound; lia]).
    split_and!; [done|rewrite Hl by (by left)|rewrite Hl by (by right)];
      rewrite last_two.
    + replace (meets _ _ (store 4 (b + (bi_reg bar + 4)) _)) with false
        by (symmetry; apply (misses_one (b + bi_reg bar) 4 (store 4 (b + (bi_reg bar + 4)) (base / 2 ^ 32))); [cbn; lia|left]).
      by rewrite meets_self by lia.
    + replace (b + (bi_reg bar + 4)) with (b + bi_reg bar + 4) by lia. by rewrite meets_self by lia.
Qed.

(** ** The whole allocation *)

Lemma is_io_eq t : is_io_bar t = match t with BarIo => true | _ => false end.
Proof. by destruct t. Qed.


(** Where the pools of a root end: below 4 GiB what is meant for 32-bit BARs, and
    the port space is 64 KiB. *)
Record root_low (r : PciRoot) : Prop := {
  rl_mmio32 : forall a, free (rt_mmio32 r) a -> a < 2 ^ 32;
  rl_io : forall a, free (rt_io r) a -> a < 2 ^ 16
}.

Lemma free_range p a : pool_ok p -> free p a -> 0 <= a < 2 ^ 64.
Proof.
  intros Hp (r & Hr & Ha). unfold pool_ok in Hp. rewrite list.Forall_forall in Hp. destruct (Hp r Hr) as [? ? He].
  unfold in_range in Ha. change (2 ^ 64) with 18446744073709551616. unfold u64_max in He. lia.
Qed.

Lemma nodup_map_inj {A B} (f : A -> B) l x y : NoDup (map f l) -> x ∈ l -> y ∈ l -> f x = f y -> x = y.
Proof.
  induction l as [|z l IH]; intros Hnd Hx Hy E; [by apply elem_of_nil in Hx|]. cbn in Hnd. apply list.NoDup_cons in Hnd as [Hz Hnd].
  apply elem_of_cons in Hx as [->|Hx], Hy as [->|Hy]; [done| | |by apply IH].
  - destruct Hz. rewrite E. by apply list_elem_of_fmap_2.
  - destruct Hz. rewrite <- E. by apply list_elem_of_fmap_2.
Qed.

Section allocation.
Context {T : Target} {H : Type} {CS : ConfigSpace H}.
#[local] Notation Pci := (PciEcam H).

(** What enumeration leaves. *)
Record enumerated (s : Pci) : Prop := {
  en_alloc : alloc_ok s; en_mapped : Forall root_mapped (pe_roots s);
  en_found : forall d, d ∈ pe_devices s -> exists g, device_found (pe_roots s) g d;
  en_distinct : NoDup (map pd_addr (pe_devices s))
}.

(** A placement with its BAR and the page of its function. *)
Record located (s : Pci) (p : Placement) (d : PciDev) (bar : BarInfo) (b : Z) : Prop := {
  lc_bar : bar_of s p d bar; lc_page : device (pe_roots s) (pd_addr d) = Some b;
  lc_header : pd_header_type d <> PCI_HEADER_TYPE_BRIDGE; lc_unplaced : unplaced bar = true;
  lc_slot : bi_reg bar = PCI_BAR0 + Z.of_nat (pl_bar p) * 4 /\ (pl_bar p < 6)%nat;
  lc_size : 0 < bi_size bar; lc_fits : base_fits bar (pl_base p)
}.

Lemma aligned_low base k n : 0 <= n <= k -> base mod 2 ^ k = 0 -> base mod 2 ^ n = 0.
Proof.
  intros Hn Hb. pose proof (Z.pow_pos_nonneg 2 n). pose proof (Z.pow_pos_nonneg 2 k).
  apply Z.mod_divide; [lia|]. apply (Z.divide_trans _ (2 ^ k)); [|by apply Z.mod_divide; [lia|]].
  exists (2 ^ (k - n)). rewrite <- Z.pow_add_r by lia. f_equal. lia.
Qed.

Lemma space_range (s : Pci) d bar root a : enumerated s -> Forall root_low (pe_roots s) -> pe_roots s !! pd_root d = Some root ->
  bi_type bar <> NoBar -> space_free (is_io_bar (bi_type bar)) root a -> (bi_type bar = BarMemory32 -> free (rt_mmio32 root) a) ->
  0 <= a < space_end (bi_type bar).
Proof.
  intros Hen Hlow Hroot Ht Hf H32. destruct (forall_lookup _ _ _ _ (po_roots _ (ao_pci _ (en_alloc _ Hen))) Hroot) as [O32 O64 Oio _].
  destruct (forall_lookup _ _ _ _ Hlow Hroot) as [L32 Lio]. unfold is_io_bar, space_free in Hf.
  destruct (bi_type bar); [done|..]; cbn [space_end].
  - change (bool_decide (BarIo = BarIo)) with true in Hf. cbn in Hf. pose proof (free_range _ _ Oio Hf). split; [lia|by apply Lio].
  - pose proof (free_range _ _ O32 (H32 eq_refl)). split; [lia|apply L32; auto].
  - change (bool_decide (BarMemory64 = BarIo)) with false in Hf. cbn in Hf. destruct Hf as [Hf|Hf]; [exact (free_range _ _ O32 Hf)|exact (free_range _ _ O64 Hf)].
Qed.

Lemma well_located (s : Pci) p : enumerated s -> Forall root_low (pe_roots s) -> well_placed s p -> exists d bar b, located s p d bar b.
Proof.
  intros Hen Hlow (d & bar & root & Hbar & Hh & Hu & Hroot & Hal & Hf & Hf32). pose proof Hbar as [Hd Hb].
  pose proof (list_elem_of_lookup_2 _ _ _ Hd) as Hin. destruct (en_found _ Hen d Hin) as [g Hfound].
  destruct (forall_lookup _ _ _ _ (ao_reach _ (en_alloc _ Hen)) Hd) as (b & Hpage & _).
  destruct (ao_reg _ (en_alloc _ Hen) _ _ _ _ Hd Hb Hu) as [Hj Hr].
  assert (Ht : bi_type bar <> NoBar) by (intros Ht; unfold unplaced in Hu; rewrite bool_decide_true in Hu; done).
  destruct (df_bars _ _ _ Hfound _ _ Hb Hu) as (_ & n & Hn & Hsz).
  assert (Hn' : (if is_io_bar (bi_type bar) then 2 else 4) <= n <= 63) by (rewrite is_io_eq; destruct (bi_type bar); [done|cbn in *; lia..]).
  assert (H2 : 0 <= (if is_io_bar (bi_type bar) then 2 else 4) <= 4) by (destruct (is_io_bar _); lia).
  destruct (alignment_pow (pe_roots s) d bar n Ht ltac:(lia) Hsz) as (k & Hk & Hka).
  assert (Hp : 0 < bi_size bar) by (rewrite Hsz; apply Z.pow_pos_nonneg; lia).
  assert (Hrange : forall a, taken (pl_base p) (bi_size bar) a -> 0 <= a < space_end (bi_type bar)) by (intros a Ha; eapply space_range; eauto).
  exists d, bar, b. split; try done. split_and!; [done| | |].
  - rewrite Hka in Hal. replace (if is_io_bar (bi_type bar) then 4 else 16) with (2 ^ (if is_io_bar (bi_type bar) then 2 else 4)) by (by destruct (is_io_bar _)).
    by apply (aligned_low _ k); [lia|].
  - apply (Hrange (pl_base p)). unfold taken. lia.
  - pose proof (Hrange (pl_base p + bi_size bar - 1) ltac:(unfold taken; lia)). lia.
Qed.

Lemma located_reg s p d bar b : located s p d bar b -> 16 <= bi_reg bar <= 36.
Proof. intros Hl. destruct (lc_slot _ _ _ _ _ Hl) as [-> ?]. unfold PCI_BAR0. lia. Qed.

Lemma program_in_page (s : Pci) q d bar b : located s q d bar b -> forall st, st ∈ program_stores b d bar (pl_base q) -> in_page b st.
Proof.
  intros Hl st Hst. pose proof (located_reg _ _ _ _ _ Hl). unfold program_stores, bar_stores, in_page, FUNCTION_CONFIG_BYTES, PCI_COMMAND in *.
  apply elem_of_app in Hst as [->%list_elem_of_singleton|Hst]; [cbn; lia|].
  apply elem_of_app in Hst as [Hst| ->%list_elem_of_singleton]; [|cbn; lia].
  destruct (bi_type bar); [by apply elem_of_nil in Hst|apply list_elem_of_singleton in Hst as ->; cbn; lia..|].
  apply elem_of_cons in Hst as [->|Hst]; [cbn; lia|]. apply list_elem_of_singleton in Hst as ->. cbn. lia.
Qed.

Lemma located_stores (s : Pci) p d bar b : located s p d bar b -> placed_stores s p = program_stores b d bar (pl_base p).
Proof. intros [[Hd Hb] Hp _ _ _ _ _]. unfold placed_stores. by rewrite Hd, Hb, Hp. Qed.

Context (s : Pci) (Hen : enumerated s) (Hap : ecam_apart (pe_roots s)).

(** Distinct devices have distinct pages. *)
Lemma devices_apart d d' b b' : d ∈ pe_devices s -> d' ∈ pe_devices s -> device (pe_roots s) (pd_addr d) = Some b ->
  device (pe_roots s) (pd_addr d') = Some b' -> pd_addr d <> pd_addr d' -> b + FUNCTION_CONFIG_BYTES <= b' \/ b' + FUNCTION_CONFIG_BYTES <= b.
Proof.
  intros Hd Hd' Hb Hb' Hne. destruct (en_found _ Hen d Hd) as (g & Hf), (en_found _ Hen d' Hd') as (g' & Hf').
  eapply (pages_apart (pe_roots s)); [apply Hen|exact Hap|..]; try exact Hb; try exact Hb'; try done.
  - by rewrite (df_root _ _ _ Hf).
  - by rewrite (df_root _ _ _ Hf').
  - apply Hf.
  - apply Hf'.
Qed.

(** The registers of one placement are not touched by another. *)
Lemma placement_misses p q d bar b d' bar' b' a : located s p d bar b -> located s q d' bar' b' ->
  (pl_dev p, pl_bar p) <> (pl_dev q, pl_bar q) ->
  (a = b + bi_reg bar \/ (bi_type bar = BarMemory64 /\ a = b + bi_reg bar + 4)) -> misses a 4 (placed_stores s q).
Proof.
  intros Hp Hq Hne Ha. rewrite (located_stores _ _ _ _ _ Hq). pose proof (located_reg _ _ _ _ _ Hp) as Hr.
  pose proof Hp as [[Hd Hb] Hpage _ Hu [Hreg _] _ _]. pose proof Hq as [[Hd' Hb'] Hpage' _ Hu' [Hreg' _] _ _].
  destruct (decide (pl_dev p = pl_dev q)) as [E|E].
  - rewrite E in Hd. rewrite Hd' in Hd. injection Hd as <-. rewrite Hpage' in Hpage. injection Hpage as <-.
    assert (Hj : pl_bar p <> pl_bar q) by congruence.
    destruct (en_found _ Hen d' (list_elem_of_lookup_2 _ _ _ Hd')) as [g Hf]. pose proof (df_wide _ _ _ Hf) as Hw.
    assert (W1 : bi_type bar' = BarMemory64 -> pl_bar p <> S (pl_bar q)).
    { intros Ht Es. rewrite Es in Hb. by rewrite (Hw _ _ _ Hb' Hb Hu' Ht) in Hu. }
    assert (W2 : bi_type bar = BarMemory64 -> pl_bar q <> S (pl_bar p)).
    { intros Ht Es. rewrite Es in Hb'. by rewrite (Hw _ _ _ Hb Hb' Hu Ht) in Hu'. }
    apply program_misses; [unfold PCI_COMMAND; lia|]. apply bar_misses.
    + destruct Ha as [->|[Ht ->]]; [lia|]. specialize (W2 Ht). lia.
    + intros Ht. specialize (W1 Ht). destruct Ha as [->|[Ht' ->]]; lia.
  - apply (page_misses b b'); [by apply program_in_page with (s := s)| |unfold FUNCTION_CONFIG_BYTES; lia..].
    apply (devices_apart d d'); [by eapply list_elem_of_lookup_2..|done|done|]. intros Ead. apply E.
    apply (NoDup_lookup (map pd_addr (pe_devices s)) _ _ (pd_addr d)); [apply Hen|by rewrite list_lookup_fmap, Hd|by rewrite list_lookup_fmap, Hd', Ead].
Qed.

(** *** After the placements *)

Lemma addresses_kept (s1 s2 : Pci) l : placements s1 l s2 -> map pd_addr (pe_devices s2) = map pd_addr (pe_devices s1).
Proof.
  induction 1 as [|s1 p s2 l s3 Hp _ IH]; [done|]. rewrite IH, (placement_devices _ _ _ Hp).
  change (map pd_addr) with (fmap (M := list) pd_addr). apply list_eq. intros i. rewrite !list_lookup_fmap.
  destruct (decide (i = pl_dev p)) as [->|Hne]; [rewrite list_lookup_alter_eq; by destruct (_ !! _)|by rewrite list_lookup_alter_ne].
Qed.

Lemma devices_kept (s1 s2 : Pci) l a : placements s1 l s2 -> device (pe_roots s2) a = device (pe_roots s1) a.
Proof. intros Hl. apply device_topology. by eapply placements_topology. Qed.

(** A placed BAR is marked, in the same function. *)
Lemma placed_allocated (s1 s2 : Pci) l i j a k h bar : placements s1 l s2 -> bar_at s1 i j = Some (a, k, h, bar) ->
  bi_allocated bar = true \/ (exists p, p ∈ l /\ (i, j) = (pl_dev p, pl_bar p)) ->
  exists bar', bar_at s2 i j = Some (a, k, h, bar') /\ bi_type bar' = bi_type bar /\ bi_allocated bar' = true.
Proof.
  intros Hl. revert bar. induction Hl as [s1|s1 p s2 l s3 Hp _ IH]; intros bar Hb Ha.
  - destruct Ha as [Ha|(p & Hp & _)]; [by exists bar|by apply elem_of_nil in Hp].
  - destruct (placement_facts _ _ _ Hp) as (? & ? & [_ _ _ Hbars]). pose proof (Hbars i j) as Hij. rewrite bar_at_mark, Hb in Hij.
    case_decide as E.
    + destruct (IH _ Hij) as (bar' & ? & ? & ?); [by left|]. by exists bar'.
    + apply (IH _ Hij). destruct Ha as [?|(q & [->|Hq]%elem_of_cons & Eq)]; [by left| |right; by exists q].
      exfalso. apply E. by injection Eq.
Qed.

Lemma decode_enables d bar : bar ∈ pd_bars d -> bi_allocated bar = true -> bi_type bar <> NoBar ->
  Z.testbit (decode_command d) (if is_io_bar (bi_type bar) then 0 else 1) = true /\ Z.testbit (decode_command d) 2 = true.
Proof.
  intros Hb Ha Ht. unfold decode_command, PCI_CMD_IO, PCI_CMD_MEMORY, PCI_CMD_BUS_MASTER.
  rewrite !Z.lor_spec. split; [|by destruct (Z.testbit (if existsb _ _ then _ else _) 2)]. rewrite is_io_eq. apply list_elem_of_In in Hb.
  assert (Hio : bi_type bar = BarIo -> existsb (fun bar => bi_allocated bar && bool_decide (bi_type bar = BarIo)) (pd_bars d) = true).
  { intros E. apply existsb_exists. exists bar. by rewrite Ha, E. }
  assert (Hmem : bi_type bar <> BarIo -> existsb (fun bar => bi_allocated bar && is_memory (bi_type bar)) (pd_bars d) = true).
  { intros E. apply existsb_exists. exists bar. rewrite Ha. split; [done|]. by destruct (bi_type bar). }
  destruct (bi_type bar); [done|..].
  - rewrite Hio by done. clear Hio Hmem. destruct (existsb _ _); cbv iota; rewrite !Z.lor_spec; by destruct (Z.testbit (pd_original_command d) 0).
  - rewrite Hmem by done. cbv iota. rewrite Z.lor_spec. by destruct (Z.testbit (if existsb _ _ then _ else _) 1).
  - rewrite Hmem by done. cbv iota. rewrite Z.lor_spec. by destruct (Z.testbit (if existsb _ _ then _ else _) 1).
Qed.

(** The registers of a placed BAR are in none of the later pages. *)
Lemma after_misses (s2 : Pci) l devs t p d bar b a w : placements s l s2 -> devs = pe_devices s2 ->
  (forall st, st ∈ t -> exists x bx, x ∈ devs /\ pd_header_type x = PCI_HEADER_TYPE_BRIDGE /\
     device (pe_roots s2) (pd_addr x) = Some bx /\ in_page bx st) ->
  located s p d bar b -> b <= a -> a + w <= b + FUNCTION_CONFIG_BYTES -> misses a w t.
Proof.
  intros Hl -> Ht Hp Ha Hw st Hst. destruct (Ht st Hst) as (x & bx & Hx & Hhx & Hbx & Hpage).
  rewrite (devices_kept _ _ _ _ Hl) in Hbx. apply list_elem_of_lookup in Hx as [i Hi].
  pose proof (f_equal (fun l => l !! i) (addresses_kept _ _ _ Hl)) as Ei. cbn in Ei. change (map pd_addr) with (fmap (M := list) pd_addr) in Ei.
  rewrite !list_lookup_fmap, Hi in Ei. destruct (pe_devices s !! i) as [x0|] eqn:Hi0; [|done]. cbn in Ei. injection Ei as Ei.
  pose proof Hp as [[Hd Hb] Hb0 Hh _ _ _ _].
  assert (Hne : pd_addr d <> pd_addr x0).
  { intros E. assert (Eid : pl_dev p = i).
    { apply (NoDup_lookup (map pd_addr (pe_devices s)) _ _ (pd_addr d)); [apply Hen|by rewrite list_lookup_fmap, Hd|by rewrite list_lookup_fmap, Hi0, E]. }
    subst i. apply Hh. clear -Hl Hi Hd Hhx. revert d Hd. induction Hl as [s1|s1 q s2 l s3 Hq _ IH]; intros d Hd; [rewrite Hi in Hd; by injection Hd as ->|].
    pose proof (placement_devices _ _ _ Hq) as E. destruct (decide (pl_dev p = pl_dev q)) as [Eq|Hne].
    - specialize (IH Hi (set_bar_allocated (pl_bar q) d)). rewrite E, Eq, list_lookup_alter_eq, <- Eq, Hd in IH. by apply IH.
    - apply IH; [done|]. by rewrite E, list_lookup_alter_ne. }
  rewrite Ei in Hbx. pose proof (devices_apart d x0 b bx (list_elem_of_lookup_2 _ _ _ Hd) (list_elem_of_lookup_2 _ _ _ Hi0) Hb0 Hbx Hne) as Hapart.
  destruct Hpage. unfold meets. apply andb_false_iff. rewrite !Z.ltb_ge. lia.
Qed.

Lemma apart_distinct (l : list Placement) : ForallOrdPairs (bars_apart s) l -> NoDup l.
Proof.
  induction 1 as [|p l Hp _ IH]; constructor; [|done]. rewrite list.Forall_forall in Hp. intros Hin. by destruct (Hp p Hin) as [[] _].
Qed.

Lemma apart_pairs (l : list Placement) p q : ForallOrdPairs (bars_apart s) l -> p ∈ l -> q ∈ l -> p <> q ->
  (pl_dev p, pl_bar p) <> (pl_dev q, pl_bar q).
Proof.
  intros Hl Hp%list_elem_of_In Hq%list_elem_of_In Hne.
  destruct (ForallOrdPairs_In Hl _ _ Hp Hq) as [?|[[? _]|[Hx _]]]; [done|done|]. intros E. by rewrite E in Hx.
Qed.

(** The page of any device after the placements. *)
Lemma kept_page (s2 : Pci) l x bx p d bar b : placements s l s2 -> x ∈ pe_devices s2 -> device (pe_roots s2) (pd_addr x) = Some bx ->
  located s p d bar b -> pd_addr x <> pd_addr d -> b + FUNCTION_CONFIG_BYTES <= bx \/ bx + FUNCTION_CONFIG_BYTES <= b.
Proof.
  intros Hl Hx Hbx [[Hd _] Hpage _ _ _ _ _] Hne. rewrite (devices_kept _ _ _ _ Hl) in Hbx.
  assert (Hxa : pd_addr x ∈ map pd_addr (pe_devices s)) by (rewrite <- (addresses_kept _ _ _ Hl); by apply list_elem_of_fmap_2).
  apply list_elem_of_fmap in Hxa as (x0 & Ex & Hx0). rewrite Ex in *.
  apply (devices_apart d x0); [by eapply list_elem_of_lookup_2|done..].
Qed.

(** The one command that is left in a function. *)
Lemma decode_last (s2 : Pci) l p d bar b : placements s l s2 -> p ∈ l -> located s p d bar b ->
  exists command, last_store (concat (map (decode_stores (pe_roots s2)) (pe_devices s2))) (b + PCI_COMMAND) 2
    = Some (store 2 (b + PCI_COMMAND) command) /\
    Z.testbit command (if is_io_bar (bi_type bar) then 0 else 1) = true /\ Z.testbit command 2 = true.
Proof.
  intros Hl Hpl Hp. pose proof Hp as [[Hd Hb] Hpage Hh _ _ _ (Ht & _)].
  destruct (placed_allocated s s2 l _ _ _ _ _ bar Hl (bar_at_Some s _ _ d bar Hd Hb)) as (bar2 & Hb2 & Ht2 & Ha2); [right; by exists p|].
  unfold bar_at in Hb2. destruct (pe_devices s2 !! pl_dev p) as [d2|] eqn:Hd2; [|done]. cbn in Hb2.
  destruct (pd_bars d2 !! pl_bar p) as [b2|] eqn:Hj2; [|done]. injection Hb2 as Ea _ Eh ->.
  pose proof (list_elem_of_lookup_2 _ _ _ Hd2) as Hin2.
  assert (Hnd : NoDup (map pd_addr (pe_devices s2))) by (rewrite (addresses_kept _ _ _ Hl); apply Hen).
  rewrite (last_store_concat _ _ d2); [|done|by eapply NoDup_fmap_1|].
  - unfold decode_stores. rewrite Eh, (proj2 (Z.eqb_neq _ _) Hh), (devices_kept _ _ _ _ Hl), Ea, Hpage, last_one, meets_self by done.
    eexists. split; [done|]. rewrite <- Ht2. apply decode_enables; [by eapply list_elem_of_lookup_2|done|by rewrite Ht2].
  - intros x Hx Hne st Hst. unfold decode_stores in Hst. destruct (_ =? _); [by apply elem_of_nil in Hst|].
    destruct (device (pe_roots s2) (pd_addr x)) as [bx|] eqn:Hbx; [|by apply elem_of_nil in Hst].
    apply list_elem_of_singleton in Hst as ->. assert (Hnea : pd_addr x <> pd_addr d).
    { intros E. apply Hne. apply (nodup_map_inj pd_addr (pe_devices s2)); [done..|by rewrite Ea, E]. }
    pose proof (kept_page s2 l x bx p d bar b Hl Hx Hbx Hp Hnea) as Hapart.
    unfold meets, PCI_COMMAND, FUNCTION_CONFIG_BYTES in *. cbn. apply andb_false_iff. rewrite !Z.ltb_ge. lia.
Qed.

Lemma decode_misses (s2 : Pci) l p d bar b a : placements s l s2 -> located s p d bar b -> b + 16 <= a -> a + 4 <= b + FUNCTION_CONFIG_BYTES ->
  misses a 4 (concat (map (decode_stores (pe_roots s2)) (pe_devices s2))).
Proof.
  intros Hl Hp Ha He. apply misses_concat. intros t (x & -> & Hx)%list_elem_of_fmap. unfold decode_stores.
  destruct (_ =? _); [intros st Hst; by apply elem_of_nil in Hst|].
  destruct (device _ _) as [bx|] eqn:Hbx; [|intros st Hst; by apply elem_of_nil in Hst]. apply misses_one. cbn.
  destruct (decide (pd_addr x = pd_addr d)) as [E|E].
  - rewrite E, (devices_kept _ _ _ _ Hl), (lc_page _ _ _ _ _ Hp) in Hbx. injection Hbx as <-. unfold PCI_COMMAND. lia.
  - pose proof (kept_page s2 l x bx p d bar b Hl Hx Hbx Hp E). unfold FUNCTION_CONFIG_BYTES, PCI_COMMAND in *. lia.
Qed.

Context (Hlow : Forall root_low (pe_roots s)).

Lemma placements_last (l : list Placement) p d bar b a : Forall (well_placed s) l -> ForallOrdPairs (bars_apart s) l -> p ∈ l ->
  located s p d bar b -> (a = b + bi_reg bar \/ (bi_type bar = BarMemory64 /\ a = b + bi_reg bar + 4)) ->
  last_store (concat (map (placed_stores s) l)) a 4 = last_store (program_stores b d bar (pl_base p)) a 4.
Proof.
  intros Hw Ha Hp Hloc Hal. rewrite <- (located_stores _ _ _ _ _ Hloc). apply last_store_concat; [done|by apply apart_distinct|].
  intros q Hq Hne. rewrite list.Forall_forall in Hw. destruct (well_located s q Hen Hlow (Hw q Hq)) as (d' & bar' & b' & Hq').
  eapply placement_misses; [exact Hloc|exact Hq'| |exact Hal]. apply (apart_pairs l); auto.
Qed.

(** After the placements, decoding and the bridges, every placement is programmed. *)
Lemma allocation_programs (l : list Placement) (s2 s' : Pci) :
  placements s l s2 -> Forall (well_placed s) l -> ForallOrdPairs (bars_apart s) l ->
  (let! devices := gets pe_devices in let! _ := sfor_each devices enable_decode in sfor_each devices program_bridge) s2 = (s', Ok tt) ->
  exists t, pe_hw s' = stores t (pe_hw s) /\
    Forall (fun p => exists d bar b, bar_of s p d bar /\ device (pe_roots s) (pd_addr d) = Some b /\ programmed t b p bar) l.
Proof.
  intros Hl Hw Ha Hrun. pose proof (alloc_ok_steps _ _ _ (en_alloc _ Hen) Hl) as Hok2.
  apply sbind_Ok in Hrun as (devs & ? & Hx & Hrun). injection Hx as <- <-. apply sbind_Ok in Hrun as ([] & s3 & Hdec & Hbr).
  assert (Hdev : forall d, d ∈ pe_devices s2 -> is_Some (device (pe_roots s2) (pd_addr d))).
  { intros d Hd. pose proof (ao_reach _ Hok2) as Hr. rewrite list.Forall_forall in Hr. destruct (Hr d Hd) as (b & -> & _). done. }
  apply decode_all in Hdec; [|done]. pose proof (emits_roots _ _ _ Hdec) as E3.
  apply bridges_all in Hbr as (t3 & Hbr & Hpages); [|by rewrite E3]. rewrite E3 in Hpages.
  exists (concat (map (placed_stores s) l) ++ concat (map (decode_stores (pe_roots s2)) (pe_devices s2)) ++ t3). split.
  { pose proof (emits_app _ _ _ _ _ Hdec Hbr) as E. rewrite E. cbn [set_hw pe_hw].
    rewrite (placements_stores s s2 l (en_alloc _ Hen) Hl). unfold stores. by rewrite <- fold_left_app. }
  apply list.Forall_forall. intros p Hp. pose proof (proj1 (list.Forall_forall _ _) Hw p Hp) as Hwp.
  destruct (well_located s p Hen Hlow Hwp) as (d & bar & b & Hloc).
  exists d, bar, b. split_and!; [apply Hloc|apply Hloc|]. pose proof (located_reg _ _ _ _ _ Hloc) as Hreg.
  assert (Hin : forall w a, b <= a -> a + w <= b + FUNCTION_CONFIG_BYTES -> misses a w t3) by (intros w a; by eapply after_misses).
  unfold FUNCTION_CONFIG_BYTES in Hin. split; [apply Hloc| | |].
  - apply (placement_holds _ b d); [apply Hloc|apply Hloc|unfold PCI_BAR0; lia|]. intros a Hal.
    assert (Hab : b + 16 <= a <= b + 40) by lia. rewrite !last_store_app. rewrite (misses_last _ _ t3) by (apply Hin; lia).
    rewrite (misses_last a 4 (concat (map (decode_stores _) _))) by (eapply decode_misses; eauto; unfold FUNCTION_CONFIG_BYTES; lia).
    by apply placements_last.
  - destruct (lc_fits _ _ _ _ _ Hloc) as (_ & _ & ? & ?). done.
  - rewrite !last_store_app. rewrite (misses_last _ _ t3) by (apply Hin; unfold PCI_COMMAND; lia).
    destruct (decode_last s2 l p d bar b Hl Hp Hloc) as (c & Hc & ?). exists c. by rewrite Hc.
Qed.
End allocation.
