(* ===== verification/PciHost.v ===== *)
(** * PciHost: enumeration and allocation together

    What [Pci.v] promises of a whole run, from roots that do not share buses: it
    never panics, every movable base address register that is found gets addresses
    of its own and is left with them, and two bridges of one bus can still forward
    the same addresses. *)

From S2P Require Import Prelude.
From S2P Require Import Bits.
From S2P Require Import Bytes.
From S2P Require Import Services.
From S2P Require Import Memory.
From S2P Require Import BootMedia.
From S2P Require Import PciPool.
From S2P Require Import Pci.
From S2P Require Import PciEnum.
From S2P Require Import PciAlloc.
From S2P Require Import PciSafe.
From S2P Require Import PciDistinct.
From S2P Require Import PciStores.
From S2P Require Import PciProgram.
From Stdlib Require Import ZArith Lia.
From stdpp Require Import base numbers list option.

#[local] Open Scope Z_scope.

(** ** From enumeration to allocation *)

(** What the roots need for allocation. *)
Record root_sound {T : Target} (r : PciRoot) : Prop := {
  rn_mapped : root_mapped r; rn_pools : root_ok r; rn_bytes : pool_bytes (rt_mmio32 r) <= u64_max
}.

Section host.
Context {T : Target} {H : Type} {CS : ConfigSpace H}.
#[local] Notation Pci := (PciEcam H).

Lemma root_sound_next n r : root_sound r -> root_sound (set_next_bus n r).
Proof. by intros [[? ? ? ? ?] [? ? ? ?] ?]. Qed.

Lemma sound_same l l' : same_roots l l' -> Forall root_sound l -> Forall root_sound l'.
Proof.
  induction 1 as [|r r' l l' [n ->] _ IH]; intros Hl; [constructor|]. apply list.Forall_cons in Hl as [Hr Hl].
  constructor; [by apply root_sound_next|auto].
Qed.

(** A discovered device. *)
Lemma enumerated_device (s s' : Pci) d : ready s -> enumerate_roots s = (s', Ok tt) -> d ∈ pe_devices s' ->
  exists g, device_found (pe_roots s') g d /\ is_Some (pe_roots s' !! pd_root d).
Proof.
  intros Hs Hrun Hd. destruct (enumerate_roots_Ok s s' Hs Hrun) as (parts & Hlen & Hdevs & _ & Hsame & _ & Hnum).
  rewrite Hdevs in Hd. apply concat_lookup in Hd as (k & l & Hk & Hd).
  destruct (lookup_lt_is_Some_2 (pe_roots s) k) as [r Hr]; [rewrite <- Hlen; by eapply lookup_lt_Some|].
  destruct (Hnum k r l Hr Hk) as [Hf _]. rewrite list.Forall_forall in Hf. destruct (Hf d Hd) as [Hfd ->].
  exists (rt_segment r). split; [by apply (device_found_same _ _ _ _ Hsame)|].
  destruct (same_roots_lookup _ _ k r Hsame Hr) as [n ->]. done.
Qed.

Lemma six_bars devs : Forall (fun d => length (pd_bars d) = 6%nat) devs -> length (all_bars devs) = (6 * length devs)%nat.
Proof.
  intros Hd. rewrite length_all_bars. induction Hd as [|d devs H6 _ IH]; [done|]. cbn [map length]. rewrite list_sum_cons, IH, H6. lia.
Qed.

Lemma enumerated_alloc_ok (s s' : Pci) : ready s -> Forall root_sound (pe_roots s) -> enumerate_roots s = (s', Ok tt) -> alloc_ok s'.
Proof.
  intros Hs Hsound Hrun. pose proof (enumerate_roots_Ok s s' Hs Hrun) as (parts & _ & _ & Hz & Hsame & _).
  pose proof (sound_same _ _ Hsame Hsound) as Hsound'.
  assert (Hdev : forall i d, pe_devices s' !! i = Some d -> exists g, device_found (pe_roots s') g d /\ is_Some (pe_roots s' !! pd_root d)).
  { intros i d Hi. apply (enumerated_device s s'); [done..|]. by eapply list_elem_of_lookup_2. }
  assert (Hbar : forall i j d bar, pe_devices s' !! i = Some d -> pd_bars d !! j = Some bar -> bar_found (Z.of_nat j) bar /\ (j < 6)%nat).
  { intros i j d bar Hi Hj. destruct (Hdev i d Hi) as (g & Hf & _). split; [by apply (df_bars _ _ _ Hf)|].
    rewrite <- (df_six _ _ _ Hf). by eapply lookup_lt_Some. }
  assert (Hat : forall i j a k h bar, bar_at s' i j = Some (a, k, h, bar) ->
    exists d, pe_devices s' !! i = Some d /\ pd_bars d !! j = Some bar /\ k = pd_root d).
  { intros i j a k h bar. unfold bar_at. destruct (pe_devices s' !! i) as [d|]; [|done]. cbn.
    destruct (pd_bars d !! j) as [b|] eqn:Hj; [|done]. intros [= <- <- <- <-]. eauto. }
  split.
  - split.
    + eapply list.Forall_impl; [exact Hsound'|]. intros r Hr. apply Hr.
    + intros i j a k h bar Hb. destruct (Hat _ _ _ _ _ _ Hb) as (d & Hi & _ & ->). by destruct (Hdev i d Hi) as (g & _ & Hk).
    + intros i j a k h bar Hb Hu. destruct (Hat _ _ _ _ _ _ Hb) as (d & Hi & Hj & _). destruct (Hbar i j d bar Hi Hj) as [Hf _].
      destruct (Hf Hu) as (_ & n & Hn & Hsz). exists n. split; [|done]. unfold size_exponents in Hn. destruct (bi_type bar); [done|lia..].
  - apply list.Forall_forall. intros d Hd. destruct (enumerated_device s s' d Hs Hrun Hd) as (g & Hf & _).
    apply mapped_reachable; [|by rewrite (df_root _ _ _ Hf)|apply Hf]. eapply list.Forall_impl; [exact Hsound'|]. intros r Hr. apply Hr.
  - intros i j d bar Hi Hj Hu. destruct (Hbar i j d bar Hi Hj) as [Hf H6]. split; [done|]. apply (Hf Hu).
  - intros i j d bar Hi Hj Hu Ht. destruct (Hbar i j d bar Hi Hj) as [Hf _]. destruct (Hf Hu) as (_ & n & Hn & ->).
    rewrite Ht in Hn. cbn in Hn. apply Z.pow_le_mono_r; lia.
  - unfold bar_count. rewrite six_bars.
    + unfold zlen, MAX_PCI_DEVICES in Hz. change (2 ^ 31) with 2147483648. lia.
    + apply list.Forall_forall. intros d Hd. destruct (enumerated_device s s' d Hs Hrun Hd) as (g & Hf & _). apply Hf.
  - eapply list.Forall_impl; [exact Hsound'|]. intros r Hr. apply Hr.
Qed.

(** C29: with the configuration space of its roots mapped, enumeration returns, and so
    does the placement of the base address registers it found, both with a result or
    an error: no access falls outside the mapped space, the scan of the buses is no
    deeper than the bus numbers, and every round of the allocation places one
    register. *)
Theorem enumeration_total (s : Pci) : ready s -> Forall root_sound (pe_roots s) ->
  snd (enumerate_roots s) <> Panic /\
  forall s1, enumerate_roots s = (s1, Ok tt) -> snd (allocate_bars s1) <> Panic.
Proof.
  intros Hs Hsound. split.
  - apply enumerate_roots_safe; [done|]. eapply list.Forall_impl; [exact Hsound|]. intros r Hr. apply Hr.
  - intros s1 Hrun. apply allocate_bars_safe. by eapply enumerated_alloc_ok.
Qed.

(** ** After the placements *)

Lemma sfor_each_hw {A} (f : A -> sres Pci PciEcamError unit) l :
  (forall x s, only_hw s (fst (f x s))) -> forall s, only_hw s (fst (sfor_each l f s)).
Proof. intros Hf. induction l as [|x l IH]; intros s; cbn [sfor_each]; [done|]. by apply only_hw_bind. Qed.

Lemma sfold_each_hw {A B} (f : B -> A -> sres Pci PciEcamError B) l :
  (forall b x s, only_hw s (fst (f b x s))) -> forall b s, only_hw s (fst (sfold_each l b f s)).
Proof. intros Hf. induction l as [|x l IH]; intros b s; cbn [sfold_each]; [done|]. by apply only_hw_bind. Qed.

Lemma only_hw_decode d (s : Pci) : only_hw s (fst (enable_decode d s)).
Proof. unfold enable_decode. hw_only. Qed.

Lemma only_hw_bar_base d bar (s : Pci) : only_hw s (fst (bar_base d bar s)).
Proof. unfold bar_base. hw_only. Qed.

Lemma only_hw_span_bar d ss bar (s : Pci) : only_hw s (fst (span_bar d ss bar s)).
Proof. unfold span_bar. pose proof only_hw_bar_base. hw_only. Qed.

Lemma only_hw_windows a ss (s : Pci) : only_hw s (fst (program_windows a ss s)).
Proof. unfold program_windows. hw_only. Qed.

Lemma only_hw_bridge d (s : Pci) : only_hw s (fst (program_bridge d s)).
Proof.
  unfold program_bridge. destruct (negb _); [done|]. apply only_hw_bind; [done|]. intros devs s1. apply only_hw_bind.
  - apply sfold_each_hw. intros ss x s2. unfold span_child. destruct (below _ _); [|done]. apply sfold_each_hw. intros. apply only_hw_span_bar.
  - intros ss s2. apply only_hw_bind; [apply only_hw_windows|]. intros _ s3. apply only_hw_write.
Qed.

(** What enumeration leaves, for the registers that allocation programs. *)
Lemma enumerated_ok (s s' : Pci) : ready s -> Forall root_sound (pe_roots s) -> enumerate_roots s = (s', Ok tt) -> enumerated s'.
Proof.
  intros Hs Hsound Hrun. pose proof (enumerate_roots_Ok s s' Hs Hrun) as (parts & _ & _ & _ & Hsame & _).
  split; [by eapply enumerated_alloc_ok| | |by eapply enumerated_distinct].
  - eapply list.Forall_impl; [exact (sound_same _ _ Hsame Hsound)|]. intros r Hr. apply Hr.
  - intros d Hd. destruct (enumerated_device s s' d Hs Hrun Hd) as (g & Hf & _). by exists g.
Qed.

Lemma low_same l l' : same_roots l l' -> Forall root_low l -> Forall root_low l'.
Proof.
  induction 1 as [|r r' l l' [n ->] _ IH]; intros Hl; [constructor|]. apply list.Forall_cons in Hl as [[H32 Hio] Hl].
  constructor; [by split|auto].
Qed.

Lemma apart_same l l' : same_roots l l' -> ecam_apart l -> ecam_apart l'.
Proof.
  intros Hs Ha i j r r' Hij Hi Hj. destruct (Forall2_lookup_r _ _ _ _ _ Hs Hi) as (r0 & Hr0 & n & ->).
  destruct (Forall2_lookup_r _ _ _ _ _ Hs Hj) as (r1 & Hr1 & m & ->). exact (Ha i j r0 r1 Hij Hr0 Hr1).
Qed.

(** C27: a run that succeeds discovers the devices of all roots and then, if there
    are any, gives addresses to every movable base address register of every
    function that is no bridge, each once: aligned, taken from what was free in the
    pools of its root, and no two of one root and one address space overlap.  The
    last store that meets a register leaves it with its base and attributes, in both
    halves of a 64-bit one; the base ends within what the register decodes, 4 GiB for
    a 32-bit one and 64 KiB for a port one; and the last store to the command
    register of the function enables the decoding of that space.  The roots map their
    configuration space apart, and their pools for ports and for 32-bit registers end
    where those address spaces do. *)
Theorem resources_placed (s s' : Pci) : ready s -> Forall root_sound (pe_roots s) ->
  ecam_apart (pe_roots s) -> Forall root_low (pe_roots s) -> enumerate_and_allocate s = (s', Ok tt) ->
  exists s1, enumerate_roots s = (s1, Ok tt) /\
    (pe_devices s1 = [] /\ s' = s1 \/
     exists l s2, placements s1 l s2 /\ Forall (well_placed s1) l /\ ForallOrdPairs (bars_apart s1) l /\
       (forall i j, waiting s1 i j <-> exists p, p ∈ l /\ (i, j) = (pl_dev p, pl_bar p)) /\
       only_hw s2 s' /\ (forall i j, ~ waiting s' i j) /\
       exists t, pe_hw s' = stores t (pe_hw s1) /\
         Forall (fun p => exists d bar b, bar_of s1 p d bar /\ device (pe_roots s1) (pd_addr d) = Some b /\ programmed t b p bar) l).
Proof.
  intros Hs Hsound Hap Hlow Hrun. apply sbind_Ok in Hrun as ([] & s1 & Henum & Hrun). exists s1. split; [done|].
  apply sbind_Ok in Hrun as (missing & ? & Hx & Hrun). injection Hx as <- _. destruct missing; [done|].
  apply sbind_Ok in Hrun as (empty & ? & Hx & Hrun). injection Hx as <- He. destruct empty.
  { injection Hrun as <-. left. split; [|done]. apply Z.eqb_eq in He. destruct (pe_devices s1); [done|]. rewrite zlen_cons in He. pose proof (zlen_nonneg l). lia. }
  right. apply sbind_Ok in Hrun as ([] & s2 & Halloc & Hrun). pose proof (enumerated_ok s s1 Hs Hsound Henum) as Hen.
  destruct (allocate_bars_Ok s1 s2 (ao_pci _ (en_alloc _ Hen)) Halloc) as (l & Hl & Hw & Ha & Hiff & Hend).
  pose proof (enumerate_roots_Ok s s1 Hs Henum) as (_ & _ & _ & _ & Hsame & _).
  pose proof (allocation_programs s1 Hen (apart_same _ _ Hsame Hap) (low_same _ _ Hsame Hlow) l s2 s' Hl Hw Ha Hrun) as Hprog.
  exists l, s2. assert (W : only_hw s2 s').
  { apply sbind_Ok in Hrun as (devs & ? & Hx & Hrun). injection Hx as <- <-. apply sbind_Ok in Hrun as ([] & s3 & Hdec & Hrun).
    etrans; [eapply only_hw_run, Hdec|eapply only_hw_run, Hrun]; apply sfor_each_hw; intros; [apply only_hw_decode|apply only_hw_bridge]. }
  split_and!; try done. intros i j (a & k & h & bar & Hb & Hrest). apply (Hend i j). exists a, k, h, bar.
  rewrite <- (bar_at_hw s2 s'); [done|apply W].
Qed.
End host.

(** ** The witnesses' machine *)

Section sample.
#[local] Existing Instance machine.

Lemma sample_sound : Forall root_sound (pe_roots sample_host).
Proof.
  constructor; [|constructor]. split; [split; vm_compute; congruence| |vm_compute; congruence].
  split; [|constructor|constructor|intros a _ (r & Hr & _); by apply elem_of_nil in Hr].
  repeat constructor; vm_compute; congruence.
Qed.

Lemma enumeration_total_witness :
  snd (enumerate_roots sample_host) <> Panic /\
  forall s1, enumerate_roots sample_host = (s1, Ok tt) -> snd (allocate_bars s1) <> Panic.
Proof. apply (enumeration_total sample_host); [exact sample_ready|exact sample_sound]. Defined.

Lemma sample_apart : ecam_apart (pe_roots sample_host).
Proof. intros i j r r' Hij Hi Hj. destruct i as [|i]; [|by destruct i]. by destruct j as [|[|j]]. Qed.

Lemma sample_low : Forall root_low (pe_roots sample_host).
Proof.
  constructor; [|constructor]. split; intros a (r & Hr & Ha); cbn in Hr; [|by apply elem_of_nil in Hr].
  apply list_elem_of_singleton in Hr as ->. destruct Ha as [_ Ha]. cbn in Ha. lia.
Qed.

(** Memory keeps what is stored: the BAR of the endpoint behind the bridge reads back
    its base, and the command register has memory decoding on. *)
Lemma resources_placed_witness :
  snd (enumerate_and_allocate sample_host) = Ok tt /\
  snd (read32 sample_leaf PCI_BAR0 (fst (enumerate_and_allocate sample_host))) = Ok 0x80100000 /\
  snd (read16 sample_leaf PCI_COMMAND (fst (enumerate_and_allocate sample_host))) = Ok 6 /\
  exists s1, enumerate_roots sample_host = (s1, Ok tt) /\
    (pe_devices s1 = [] /\ fst (enumerate_and_allocate sample_host) = s1 \/
     exists l s2, placements s1 l s2 /\ Forall (well_placed s1) l /\ ForallOrdPairs (bars_apart s1) l /\
       (forall i j, waiting s1 i j <-> exists p, p ∈ l /\ (i, j) = (pl_dev p, pl_bar p)) /\
       only_hw s2 (fst (enumerate_and_allocate sample_host)) /\
       (forall i j, ~ waiting (fst (enumerate_and_allocate sample_host)) i j) /\
       exists t, pe_hw (fst (enumerate_and_allocate sample_host)) = stores t (pe_hw s1) /\
         Forall (fun p => exists d bar b, bar_of s1 p d bar /\ device (pe_roots s1) (pd_addr d) = Some b /\ programmed t b p bar) l).
Proof.
  assert (E : snd (enumerate_and_allocate sample_host) = Ok tt) by by vm_compute. split; [exact E|].
  split; [vm_compute; reflexivity|]. split; [vm_compute; reflexivity|].
  apply (resources_placed sample_host); [exact sample_ready|exact sample_sound|exact sample_apart|exact sample_low|].
  destruct (enumerate_and_allocate sample_host) as [s r]. cbn in *. by rewrite E.
Defined.
End sample.

(** ** Siblings *)

(** The addresses a bridge forwards: its memory window register holds the base in
    its low half and the last address in its high half, in units of 1 MiB. *)
Definition forwards {T : Target} (s : PciEcam memory) (bridge : PciDev) (a : Z) : Prop :=
  exists register, snd (read32 (pd_addr bridge) PCI_MEMORY_BASE s) = Ok register /\
    Z.shiftl (Z.land register 0xFFF0) 16 <= a <= Z.lor (Z.shiftl (Z.land (Z.shiftr register 16) 0xFFF0) 16) 0xFFFFF.

Section sibling.
#[local] Existing Instance machine.

Definition function_address (bus slot : Z) : PciAddress :=
  {| pa_segment := 0; pa_bus := bus; pa_device := slot; pa_function := 0 |}.

Definition endpoint (bus slot : Z) (bars : list BarInfo) : PciDev := {|
  pd_addr := function_address bus slot; pd_root := 0; pd_header_type := 0; pd_original_command := 0; pd_bars := bars;
  pd_secondary_bus := 0; pd_subordinate_bus := 0 |}.

Definition bridge (slot bus : Z) : PciDev := {|
  pd_addr := function_address 0 slot; pd_root := 0; pd_header_type := PCI_HEADER_TYPE_BRIDGE; pd_original_command := 0;
  pd_bars := []; pd_secondary_bus := bus; pd_subordinate_bus := bus |}.

Definition memory_bar (index size : Z) : BarInfo := movable_bar BarMemory32 size false (PCI_BAR0 + 4 * index).

(** Two bridges and a device on bus 0; 64 MiB and 1 MiB behind the first bridge,
    1 MiB behind the second. *)
Definition sibling_pci : PciEcam memory := {|
  pe_roots := [{| rt_segment := 0; rt_ecam_base := 0x10000000; rt_ecam_size := 0x300000; rt_bus_start := 0; rt_bus_end := 2;
    rt_mmio32 := [{| rr_base := 0x80000000; rr_end := 0x90000000 |}]; rt_mmio64 := []; rt_io := []; rt_windows := [];
    rt_next_bus := 3 |}];
  pe_devices := [endpoint 1 0 [memory_bar 0 0x4000000; memory_bar 1 0x100000]; bridge 1 1;
    endpoint 2 0 [memory_bar 0 0x100000]; bridge 2 2; endpoint 0 3 [memory_bar 0 0x100000]];
  pe_fixed_bars := []; pe_hw := fun _ => 0 |}.

Lemma sibling_pci_ok : pci_ok sibling_pci.
Proof.
  assert (Hbar : forall i j a k h bar, bar_at sibling_pci i j = Some (a, k, h, bar) ->
    k = 0%nat /\ (bi_size bar = 2 ^ 26 \/ bi_size bar = 2 ^ 20)).
  { intros i j a k h bar. unfold bar_at. destruct i as [|[|[|[|[|i]]]]]; cbn; try done; destruct j as [|[|j]]; cbn; try done;
      intros [= <- <- <- <-]; (split; [done|vm_compute; auto]). }
  split.
  - repeat constructor; cbn; try lia; [vm_compute; congruence|]. intros a _ (r & Hr & _). by apply elem_of_nil in Hr.
  - intros i j a k h bar Hb. by destruct (Hbar i j a k h bar Hb) as [-> _].
  - intros i j a k h bar Hb _. destruct (Hbar i j a k h bar Hb) as [_ [H|H]]; [exists 26|exists 20]; (split; [lia|done]).
Qed.

(** Bridges on one bus can be given memory windows that overlap: with the
    devices of [sibling_pci], a successful allocation leaves both bridges forwarding
    the address of the BAR behind the second one.  Buses are placed one by one, but
    the prefix an aligned placement skips stays in the pool, and a BAR of a later
    bus is placed in it, inside the span of the earlier one. *)
Theorem sibling_windows_overlap :
  pci_ok sibling_pci /\
  exists s', allocate_resources sibling_pci = (s', Ok tt) /\
    exists first second d window, pe_devices s' !! 1%nat = Some first /\ pe_devices s' !! 3%nat = Some second /\
      pe_devices s' !! 2%nat = Some d /\ pa_bus (pd_addr first) = pa_bus (pd_addr second) /\
      pd_subordinate_bus first < pd_secondary_bus second /\ below second d = true /\ below first d = false /\
      snd (assigned_bar d [] (set_allocated (memory_bar 0 0x100000)) s') = Ok [(pd_addr d, window)] /\
      forwards s' first (pw_base window) /\ forwards s' second (pw_base window).
Proof.
  split; [exact sibling_pci_ok|]. assert (E : snd (allocate_resources sibling_pci) = Ok tt) by by vm_compute.
  exists (fst (allocate_resources sibling_pci)). split; [destruct (allocate_resources _); cbn in *; by rewrite E|]. clear E.
  eexists _, _, _, {| pw_kind := Mmio; pw_base := 0x80200000; pw_size := 0x100000; pw_prefetchable := false |}.
  split_and!; [by vm_compute..| |]; eexists; (split; [vm_compute; reflexivity|vm_compute; split; congruence]).
Qed.
End sibling.
