(* ===== verification/UnstableSort.v ===== *)
(** * UnstableSort: the unstable sorts of slices

    [sort_unstable_by_key] leaves the order of elements with equal keys open:
    the class states what it promises, and its clients are proved for every
    sort that keeps the promise.  A merge sort keeps it. *)

From Stdlib Require Import ZArith.
From stdpp Require Import base numbers list sorting.

#[local] Open Scope Z_scope.

(** The order a comparison of the code decides. *)
Notation ordered le := (fun x y => le x y = true).

Class UnstableSort := {
  sort_unstable : forall {A : Type}, (A -> A -> bool) -> list A -> list A;
  sort_unstable_perm : forall {A : Type} (le : A -> A -> bool) l, sort_unstable le l ≡ₚ l;
  sort_unstable_sorted : forall {A : Type} (le : A -> A -> bool) l,
    Total (ordered le) -> Transitive (ordered le) -> StronglySorted (ordered le) (sort_unstable le l)
}.

#[local] Instance ordered_dec {A} (le : A -> A -> bool) : RelDecision (ordered le).
Proof. intros x y. apply bool_eq_dec. Defined.

Definition merge_sorted {A : Type} (le : A -> A -> bool) : list A -> list A :=
  merge_sort (ordered le).

#[export] Instance merge_unstable : UnstableSort.
Proof.
  refine {| sort_unstable := @merge_sorted |}.
  - intros A le l. apply merge_sort_Permutation.
  - intros A le l ? ?. apply StronglySorted_merge_sort; apply _.
Defined.
