(* ===== verification/SysMap.v ===== *)
(** * SysMap: the physical memory map of an AMD system
    ([crates/driver-amd/src/apob/sysmap.rs])

    The PSP leaves the top of DRAM and a list of holes in it.  [memory_map]
    turns them into regions that ascend from address 0 and say what every
    address below the top is; the theorems characterise what it calls RAM. *)

From S2P Require Import Prelude.
From S2P Require Import Bytes.
From S2P Require Import Services.
From S2P Require Import UnstableSort.
From Stdlib Require Import ZArith Lia.
From stdpp Require Import base numbers list option sorting.

#[local] Open Scope Z_scope.

Definition MAX_HOLES : Z := 18.
Definition MAX_REGIONS : Z := 2 * (2 * MAX_HOLES + 1) + 1.
Definition HT_HOLE_BASE : Z := 0xfd00000000.
Definition ONE_TIB : Z := 2 ^ 40.

(** The PSP of the SoC. *)
Inductive Variant := Zp | Rv | Ssp | Gn.

Record Hole := { h_base : Z; h_size : Z; h_kind : Z }.

(** A hole that wraps is rejected before its end is taken. *)
Definition h_end (h : Hole) : Z := h_base h + h_size h.

Inductive HoleClass := Uma | Mmio | HoleReserved | Remap1T | HoleUnknown.

Definition classify (variant : Variant) (kind : Z) : HoleClass :=
  if kind =? 0 then Uma
  else if kind =? 1 then Mmio
  else match variant with
       | Ssp => if (kind =? 2) || (kind =? 4) || (kind =? 5) then HoleReserved
                else if kind =? 3 then Remap1T else HoleUnknown
       | Gn => if (kind =? 2) || (kind =? 6) || (kind =? 7) then HoleReserved
               else if kind =? 3 then Remap1T else HoleUnknown
       | _ => if kind =? 2 then HoleReserved else HoleUnknown
       end.

Inductive RegionKind := RkRam | RkUma | RkMmio | RkReserved (raw : Z) | RkHyperTransport | RkUnknown (raw : Z).

#[export] Instance RegionKind_eq_dec : EqDecision RegionKind.
Proof. solve_decision. Defined.

Definition is_ram (k : RegionKind) : bool := match k with RkRam => true | _ => false end.

Record Region := { r_base : Z; r_size : Z; r_kind : RegionKind }.
Definition r_end (r : Region) : Z := r_base r + r_size r.

Inductive MapError := NoDram | TooManyHoles | Wraps (h : Hole) | Overlap (h h' : Hole) | Remap (h : Hole).

(** [heapless::Vec::push] over an iterator. *)
Definition collect {A E} (capacity : Z) (e : E) (l : list A) : res E (list A) :=
  fold_each l [] (push capacity e).

(** The first pair of neighbours that [f] picks, as [windows(2).find(..)]. *)
Fixpoint find_window {A} (f : A -> A -> bool) (l : list A) : option (A * A) :=
  match l with
  | x :: (y :: _) as l' => if f x y then Some (x, y) else find_window f l'
  | _ => None
  end.

Definition by_base (h h' : Hole) : bool := h_base h <=? h_base h'.

(** ** The sorted map of the noncar SoCs *)

Record MemoryMap := { mm_top : Z; mm_holes : list Hole }.

Definition wraps (h : Hole) : bool := bool_decide (checked_add u64_max (h_base h) (h_size h) = None).

(** One round of the loop of [sorted]. *)
Definition sorted_hole (holes : list Hole) (h : Hole) : res MapError (list Hole) :=
  fail_if wraps h with Wraps h; push MAX_HOLES TooManyHoles holes h.

Definition sorted `{UnstableSort} (top : Z) (raw : list Hole) : res MapError MemoryMap :=
  fail_if top =? 0 with NoDram;
  let? holes := fold_each raw [] sorted_hole in
  Ok {| mm_top := top; mm_holes := sort_unstable by_base holes |}.

Definition lower_top (floor : Z) (top : Z) (h : Hole) : Z :=
  if (h_end h <=? top) && (floor <? h_end h) then Z.min top (h_base h) else top.

Definition low_top_above (m : MemoryMap) (floor : Z) : Z :=
  fold_left (lower_top floor) (mm_holes m) (Z.min (mm_top m) (2 ^ 32)).

Definition low_top (m : MemoryMap) : Z := low_top_above m (2 ^ 31).

(** ** The regions of the server SoCs *)

(** [(start, end, kind, synthetic)] *)
Record Interval := { i_start : Z; i_end : Z; i_kind : RegionKind; i_synthetic : bool }.

Definition MAX_SPANS : Z := 2 * MAX_HOLES + 1.

Definition push_span (spans : list Interval) (start end_ : Z) (k : RegionKind) (synthetic : bool)
  : res MapError (list Interval) :=
  push MAX_SPANS TooManyHoles spans {| i_start := start; i_end := end_; i_kind := k; i_synthetic := synthetic |}.

Definition hole_spans (variant : Variant) (spans : list Interval) (h : Hole) : res MapError (list Interval) :=
  let end_ := h_base h + h_size h in
  match classify variant (h_kind h) with
  | Uma => push_span spans (h_base h) end_ RkUma false
  | Mmio => push_span spans (h_base h) end_ RkMmio false
  | HoleReserved => push_span spans (h_base h) end_ (RkReserved (h_kind h)) false
  | HoleUnknown => push_span spans (h_base h) end_ (RkUnknown (h_kind h)) false
  | Remap1T =>
      fail_if HT_HOLE_BASE <? h_base h with Remap h;
      let? spans := push_span spans (h_base h) HT_HOLE_BASE RkMmio false in
      push_span spans HT_HOLE_BASE (Z.max end_ ONE_TIB) RkHyperTransport false
  end.

Definition by_start (i i' : Interval) : bool :=
  (i_start i <? i_start i') || (i_start i =? i_start i') && (implb (i_synthetic i) (i_synthetic i')).

(** A full vector drops the region. *)
Definition emit (out : list Region) (base end_ : Z) (k : RegionKind) : list Region :=
  if base <? end_ then
    if zlen out <? MAX_REGIONS then out ++ [{| r_base := base; r_size := end_ - base; r_kind := k |}] else out
  else out.

(** One round of the sweep; the state is the cursor and what was emitted. *)
Definition sweep (top : Z) (s : Z * list Region) (i : Interval) : Z * list Region :=
  let '(cursor, out) := s in
  if i_end i <=? cursor then s else
  let start := Z.max (i_start i) cursor in
  (i_end i, emit (emit out cursor (Z.min start top) RkRam) start (i_end i) (i_kind i)).

Definition memory_map `{UnstableSort} (variant : Variant) (top : Z) (holes : list Hole)
  : res MapError (list Region) :=
  let? holes := collect MAX_HOLES TooManyHoles (filter (fun h => h_size h <> 0) holes) in
  match list_find (fun h => wraps h = true) holes with
  | Some (_, h) => Err (Wraps h)
  | None =>
      let holes := sort_unstable by_base holes in
      match find_window (fun h h' => h_base h' <? h_base h + h_size h) holes with
      | Some (h, h') => Err (Overlap h h')
      | None =>
          let? spans := fold_each holes [] (hole_spans variant) in
          let? spans := if HT_HOLE_BASE <? top
                        then push_span spans HT_HOLE_BASE ONE_TIB RkHyperTransport true else Ok spans in
          let '(cursor, out) := fold_left (sweep top) (sort_unstable by_start spans) (0, []) in
          Ok (emit out cursor top RkRam)
      end
  end.

(** ** Collecting *)

Lemma push_all_Ok {A E} capacity (e : E) (l : list A) : forall acc l', zlen acc <= capacity ->
  fold_each l acc (push capacity e) = Ok l' <-> l' = acc ++ l /\ zlen (acc ++ l) <= capacity.
Proof.
  induction l as [|x l IH]; intros acc l' Hacc; cbn [fold_each].
  { rewrite app_nil_r. naive_solver. }
  unfold push at 1. destruct (Z.ltb_spec (zlen acc) capacity); cbn [rbind].
  - rewrite IH by (rewrite zlen_app, zlen_cons, @zlen_nil; lia). by rewrite <- app_assoc.
  - split; [done|]. rewrite zlen_app, zlen_cons. pose proof (zlen_nonneg l). lia.
Qed.

Lemma collect_Ok {A E} capacity (e : E) (l l' : list A) : 0 <= capacity ->
  collect capacity e l = Ok l' <-> l' = l /\ zlen l <= capacity.
Proof. intros. unfold collect. by rewrite push_all_Ok. Qed.

(** ** The intervals of the holes *)

Definition plain (h : Hole) (k : RegionKind) : list Interval :=
  [{| i_start := h_base h; i_end := h_end h; i_kind := k; i_synthetic := false |}].

Definition hole_intervals (variant : Variant) (h : Hole) : list Interval :=
  match classify variant (h_kind h) with
  | Uma => plain h RkUma
  | Mmio => plain h RkMmio
  | HoleReserved => plain h (RkReserved (h_kind h))
  | HoleUnknown => plain h (RkUnknown (h_kind h))
  | Remap1T =>
      [{| i_start := h_base h; i_end := HT_HOLE_BASE; i_kind := RkMmio; i_synthetic := false |};
       {| i_start := HT_HOLE_BASE; i_end := Z.max (h_end h) ONE_TIB; i_kind := RkHyperTransport; i_synthetic := false |}]
  end.

Definition remap_low (variant : Variant) (h : Hole) : Prop :=
  classify variant (h_kind h) = Remap1T -> h_base h <= HT_HOLE_BASE.

Lemma hole_spans_Ok variant spans h spans' :
  hole_spans variant spans h = Ok spans' -> spans' = spans ++ hole_intervals variant h /\ remap_low variant h.
Proof.
  unfold hole_spans, hole_intervals, remap_low, push_span, plain. intros H.
  destruct (classify _ _); try (apply push_Ok in H as [_ ->]; by split).
  repeat rust_step H. apply push_Ok in Ha as [_ ->], H as [_ ->]. bool_hyp. split; [|done]. by rewrite <- app_assoc.
Qed.

Lemma holes_spans_Ok variant holes : forall spans spans',
  fold_each holes spans (hole_spans variant) = Ok spans' ->
  spans' = spans ++ (holes ≫= hole_intervals variant) /\ Forall (remap_low variant) holes.
Proof.
  induction holes as [|h holes IH]; intros spans spans' H; cbn [fold_each] in H.
  { injection H as <-. by rewrite app_nil_r. }
  rust_step H. apply hole_spans_Ok in Ha as [-> Hr]. apply IH in H as [-> Hf]. split; [|by constructor].
  by rewrite bind_cons, app_assoc.
Qed.

Lemma hole_intervals_length variant holes : zlen (holes ≫= hole_intervals variant) <= 2 * zlen holes.
Proof.
  induction holes as [|h holes IH]; [done|]. rewrite bind_cons, zlen_app, zlen_cons.
  assert (zlen (hole_intervals variant h) <= 2); [|lia].
  unfold hole_intervals, plain. destruct (classify _ _); by vm_compute.
Qed.

(** ** What the regions say *)

Definition in_interval (i : Interval) (x : Z) : Prop := i_start i <= x < i_end i.
Definition covered (l : list Interval) (x : Z) : Prop := exists i, i ∈ l /\ in_interval i x.

Definition interval_ok (i : Interval) : Prop := 0 <= i_start i <= i_end i /\ i_kind i <> RkRam.

(** Some region gives address [x] the kind [k]. *)
Definition region_at (l : list Region) (x : Z) (k : RegionKind) : Prop :=
  exists r, r ∈ l /\ r_base r <= x < r_end r /\ r_kind r = k.

(** Non-empty regions that ascend from [lo] to [hi] without overlapping. *)
Fixpoint ascending (lo : Z) (l : list Region) (hi : Z) : Prop :=
  match l with
  | [] => lo <= hi
  | r :: l => lo <= r_base r /\ 0 < r_size r /\ ascending (r_end r) l hi
  end.

Lemma covered_app l l' x : covered (l ++ l') x <-> covered l x \/ covered l' x.
Proof. unfold covered. setoid_rewrite elem_of_app. naive_solver. Qed.

Lemma covered_cons i l x : covered (i :: l) x <-> in_interval i x \/ covered l x.
Proof. unfold covered. setoid_rewrite elem_of_cons. naive_solver. Qed.

Lemma covered_nil x : ~ covered [] x.
Proof. intros (i & Hi & _). by apply elem_of_nil in Hi. Qed.

Lemma covered_perm l l' x : l ≡ₚ l' -> covered l x <-> covered l' x.
Proof. intros Hp. unfold covered. by setoid_rewrite Hp. Qed.

Lemma region_at_app l l' x k : region_at (l ++ l') x k <-> region_at l x k \/ region_at l' x k.
Proof. unfold region_at. setoid_rewrite elem_of_app. naive_solver. Qed.

Lemma region_at_nil x k : ~ region_at [] x k.
Proof. intros (r & Hr & _). by apply elem_of_nil in Hr. Qed.

Lemma ascending_weaken lo l hi hi' : ascending lo l hi -> hi <= hi' -> ascending lo l hi'.
Proof.
  revert lo. induction l as [|r l IH]; intros lo; cbn [ascending]; [lia|]. intros (? & ? & ?) ?.
  split; [done|]. split; [done|]. by apply IH.
Qed.

Lemma ascending_snoc lo l b e k : ascending lo l b -> b < e ->
  ascending lo (l ++ [{| r_base := b; r_size := e - b; r_kind := k |}]) e.
Proof.
  revert lo. induction l as [|r l IH]; intros lo; cbn [app ascending]; unfold r_end; cbn; [lia|].
  intros (? & ? & ?) ?. split; [done|]. split; [done|]. by apply IH.
Qed.

Lemma emit_spec out b e k : zlen out < MAX_REGIONS ->
  zlen (emit out b e k) <= zlen out + 1 /\
  (forall lo, ascending lo out b -> ascending lo (emit out b e k) (Z.max b e)) /\
  (forall x k', region_at (emit out b e k) x k' <-> region_at out x k' \/ b <= x < e /\ k' = k).
Proof.
  intros Hl. unfold emit. test_true (zlen out <? MAX_REGIONS). destruct (Z.ltb_spec b e).
  - split; [rewrite zlen_app, zlen_cons, @zlen_nil; lia|]. split.
    + intros lo Ha. rewrite Z.max_r by lia. by apply ascending_snoc.
    + intros x k'. rewrite region_at_app. apply or_iff_compat_l. unfold region_at. setoid_rewrite list_elem_of_singleton.
      unfold r_end. split; [intros (r & -> & ? & <-); cbn in *; split; [lia|done]|]. intros [? ->].
      eexists. split; [done|]. cbn. split; [lia|done].
  - split; [lia|]. split.
    + intros lo Ha. by rewrite Z.max_l by lia.
    + intros x k'. split; [auto|]. intros [?|[? _]]; [done|lia].
Qed.

(** ** The sweep *)

(** After the intervals [done], which all end below the cursor. *)
Record swept (top : Z) (done : list Interval) (s : Z * list Region) : Prop := {
  sw_cursor : 0 <= s.1;
  sw_last : s.1 = 0 \/ exists i, i ∈ done /\ i_end i = s.1;
  sw_length : zlen s.2 <= 2 * zlen done;
  sw_ends : forall i, i ∈ done -> i_end i <= s.1;
  sw_ascending : ascending 0 s.2 s.1;
  sw_ram : forall x, region_at s.2 x RkRam <-> 0 <= x < s.1 /\ x < top /\ ~ covered done x;
  sw_before : forall x, region_at s.2 x RkRam -> exists i, i ∈ done /\ x < i_start i;
  sw_other : forall x, covered done x <-> exists k, k <> RkRam /\ region_at s.2 x k
}.

Lemma swept_nil top : swept top [] (0, []).
Proof.
  split; cbn [fst snd].
  - done.
  - by left.
  - done.
  - by intros i ?%elem_of_nil.
  - done.
  - intros x. pose proof (region_at_nil x RkRam). split; [done|lia].
  - by intros x ?%region_at_nil.
  - intros x. split; [by intros ?%covered_nil|by intros (k & _ & ?%region_at_nil)].
Qed.

(** What lies below the cursor of a later interval is covered. *)
Lemma swept_below top done s i x : swept top done s -> interval_ok i ->
  (forall j, j ∈ done -> i_start j <= i_start i) -> in_interval i x -> x < s.1 -> covered done x.
Proof.
  intros Hsw [Hi _] Hs Hx Hc. destruct (sw_last _ _ _ Hsw) as [H0|(j & Hj & He)].
  { unfold in_interval in Hx. lia. }
  exists j. split; [done|]. specialize (Hs j Hj). unfold in_interval in *. lia.
Qed.

Lemma swept_skip top done s i : swept top done s -> interval_ok i ->
  i_end i <= s.1 -> (forall j, j ∈ done -> i_start j <= i_start i) -> swept top (done ++ [i]) s.
Proof.
  intros Hsw Hi He Hs.
  assert (Hcov : forall x, covered (done ++ [i]) x <-> covered done x).
  { intros x. rewrite covered_app, covered_cons. pose proof (covered_nil x).
    assert (in_interval i x -> covered done x); [|tauto].
    intros Hx. eapply swept_below; [done..|]. unfold in_interval in Hx. lia. }
  destruct Hsw as [S1 S0 S2 S3 S4 S5 S6 S7]. split; [done| | | |done| | |].
  - destruct S0 as [?|(j & ? & ?)]; [by left|right]. exists j. split; [apply elem_of_app; by left|done].
  - rewrite zlen_app, zlen_cons, @zlen_nil. lia.
  - intros j [?|?%list_elem_of_singleton]%elem_of_app; [auto|by subst].
  - intros x. by rewrite Hcov.
  - intros x (j & ? & ?)%S6. exists j. split; [apply elem_of_app; by left|done].
  - intros x. by rewrite Hcov.
Qed.

Lemma swept_emit top done cursor out i : swept top done (cursor, out) -> interval_ok i ->
  cursor < i_end i -> (forall j, j ∈ done -> i_start j <= i_start i) -> 2 * zlen done + 2 <= MAX_REGIONS ->
  swept top (done ++ [i]) (sweep top (cursor, out) i).
Proof.
  intros Hsw Hok He Hs Hlen. pose proof Hok as [Hi Hk].
  assert (Hbelow : forall x, in_interval i x -> x < cursor -> covered done x).
  { intros x Hx Hc. by eapply (swept_below top done (cursor, out)). }
  destruct Hsw as [S1 S0 S2 S3 S4 S5 S6 S7]. cbn [fst snd] in *.
  unfold sweep. test_false (i_end i <=? cursor). set (start := Z.max (i_start i) cursor).
  destruct (emit_spec out cursor (Z.min start top) RkRam) as (L1 & A1 & T1); [lia|].
  set (out1 := emit out cursor (Z.min start top) RkRam) in *.
  destruct (emit_spec out1 start (i_end i) (i_kind i)) as (L2 & A2 & T2); [lia|].
  assert (Hcov : forall x, covered (done ++ [i]) x <-> covered done x \/ in_interval i x).
  { intros x. rewrite covered_app, covered_cons. pose proof (covered_nil x). tauto. }
  assert (Hdone : forall x, covered done x -> x < cursor).
  { intros x (j & Hj & Hx). specialize (S3 j Hj). unfold in_interval in Hx. lia. }
  assert (Hbefore : forall x, region_at out x RkRam -> x < i_start i).
  { intros x (j & Hj & Hx)%S6. specialize (Hs j Hj). lia. }
  split; cbn [fst snd].
  - lia.
  - right. exists i. split; [apply elem_of_app; right; by left|done].
  - rewrite zlen_app, zlen_cons, @zlen_nil. lia.
  - intros j [Hj|?%list_elem_of_singleton]%elem_of_app; [specialize (S3 j Hj); lia|by subst].
  - eapply ascending_weaken; [apply A2; eapply ascending_weaken; [by apply A1|lia]|lia].
  - intros x. rewrite T2, T1, Hcov. unfold in_interval. specialize (S5 x). specialize (Hbefore x). specialize (Hdone x). split.
    + intros [[Hr|[Hr _]]|[_ Hr]]; [| |congruence].
      * apply S5 in Hr as Hr'. specialize (Hbefore Hr). destruct Hr' as (? & ? & ?).
        split; [lia|]. split; [lia|]. intros [?|?]; [tauto|lia].
      * split; [lia|]. split; [lia|]. intros [Hd|?]; [specialize (Hdone Hd); lia|lia].
    + intros (? & ? & Hn). left. destruct (Z.lt_ge_cases x cursor); [left; apply S5; split; [lia|tauto]|]. right. split; [|done].
      assert (~ (i_start i <= x < i_end i)) by tauto. lia.
  - intros x [[Hr|[Hr _]]%T1|[_ Hr]]%T2; [| |congruence].
    + apply S6 in Hr as (j & ? & ?). exists j. split; [apply elem_of_app; by left|done].
    + exists i. split; [apply elem_of_app; right; by left|lia].
  - intros x. rewrite Hcov. setoid_rewrite T2. setoid_rewrite T1. specialize (Hbelow x). split.
    + intros [Hx%S7|Hx]; [naive_solver|]. destruct (Z.lt_ge_cases x cursor) as [Hc|Hc].
      * apply (Hbelow Hx), S7 in Hc as (k & ? & ?). eauto.
      * exists (i_kind i). split; [done|]. right. unfold in_interval in Hx. split; [lia|done].
    + intros (k & Hk' & [[Hr|[_ ->]]|[Hr _]]); [left; apply S7; eauto|done|right]. unfold in_interval. lia.
Qed.

Lemma sweep_all top l : forall done s, swept top done s ->
  Forall interval_ok l -> StronglySorted (ordered by_start) l ->
  Forall (fun i => Forall (fun j => i_start j <= i_start i) done) l ->
  2 * zlen (done ++ l) < MAX_REGIONS -> swept top (done ++ l) (fold_left (sweep top) l s).
Proof.
  induction l as [|i l IH]; intros done s Hsw Hok Hs Hd Hlen; cbn [fold_left]; [by rewrite app_nil_r|].
  apply list.Forall_cons in Hok as [Hi Hok], Hd as [Hdi Hd]. apply StronglySorted_inv in Hs as [Hs Hsi].
  rewrite list.Forall_forall in Hdi. replace (done ++ i :: l) with ((done ++ [i]) ++ l) in * by by rewrite <- app_assoc.
  apply IH; [|done|done| |done].
  - rewrite zlen_app in Hlen. pose proof (zlen_nonneg l). rewrite zlen_app, zlen_cons, @zlen_nil in Hlen.
    destruct s as [cursor out]. destruct (Z.le_gt_cases (i_end i) cursor).
    + unfold sweep. test_true (i_end i <=? cursor). by apply swept_skip.
    + apply swept_emit; [done..|lia].
  - apply list.Forall_forall. intros j Hj. rewrite list.Forall_forall in Hsi, Hd. apply list.Forall_app. split; [by apply Hd|].
    constructor; [|constructor]. specialize (Hsi j Hj). unfold by_start in Hsi. bool_cases; lia.
Qed.

#[local] Instance by_base_total : Total (ordered by_base).
Proof. intros h h'. unfold by_base. rewrite !Z.leb_le. lia. Qed.
#[local] Instance by_base_trans : Transitive (ordered by_base).
Proof. intros h h' h''. unfold by_base. rewrite !Z.leb_le. lia. Qed.
Lemma by_start_true i i' : by_start i i' = true <->
  i_start i < i_start i' \/ (i_start i = i_start i' /\ (i_synthetic i = true -> i_synthetic i' = true)).
Proof.
  unfold by_start. rewrite orb_true_iff, andb_true_iff, Z.ltb_lt, Z.eqb_eq.
  destruct (i_synthetic i), (i_synthetic i'); cbn; naive_solver.
Qed.

#[local] Instance by_start_total : Total (ordered by_start).
Proof.
  intros i i'. rewrite !by_start_true. destruct (i_synthetic i), (i_synthetic i'), (Z.lt_trichotomy (i_start i) (i_start i')); naive_solver.
Qed.
#[local] Instance by_start_trans : Transitive (ordered by_start).
Proof. intros i i' i''. rewrite !by_start_true. intros [?|[? ?]] [?|[? ?]]; [left; lia..|right; split; [lia|auto]]. Qed.

(** ** What is kept from the RAM *)

(** Where a hole ends for the operating system: a remap keeps everything up to
    1 TiB. *)
Definition hole_reach (variant : Variant) (h : Hole) : Z :=
  match classify variant (h_kind h) with Remap1T => Z.max (h_end h) ONE_TIB | _ => h_end h end.

Definition kept (variant : Variant) (top : Z) (holes : list Hole) (x : Z) : Prop :=
  (exists h, h ∈ holes /\ h_size h <> 0 /\ h_base h <= x < hole_reach variant h) \/
  (HT_HOLE_BASE < top /\ HT_HOLE_BASE <= x < ONE_TIB).

Definition hole_ok (h : Hole) : Prop := 0 <= h_base h <= u64_max /\ 0 <= h_size h <= u64_max.

Lemma hole_intervals_ok variant h : hole_ok h -> remap_low variant h -> Forall interval_ok (hole_intervals variant h).
Proof.
  intros [? ?] Hr. unfold hole_intervals, remap_low, plain in *.
  destruct (classify _ _); try specialize (Hr eq_refl);
    repeat apply list.Forall_cons_2; try apply list.Forall_nil_2;
    unfold interval_ok, h_end, HT_HOLE_BASE, ONE_TIB in *; cbn; (split; [lia|done]).
Qed.

Lemma hole_intervals_covered variant holes x : Forall (remap_low variant) holes ->
  covered (holes ≫= hole_intervals variant) x <-> exists h, h ∈ holes /\ h_base h <= x < hole_reach variant h.
Proof.
  induction 1 as [|h holes Hr Hrs IH].
  - cbn. split; [by intros ?%covered_nil|by intros (h & ?%elem_of_nil & _)].
  - rewrite bind_cons, covered_app, IH. setoid_rewrite elem_of_cons.
    assert (covered (hole_intervals variant h) x <-> h_base h <= x < hole_reach variant h) as ->; [|naive_solver].
    unfold remap_low in Hr. unfold hole_intervals, hole_reach, plain.
    assert (covered [] x <-> False) as Hnil by (pose proof (covered_nil x); tauto).
    destruct (classify _ _); rewrite !covered_cons, Hnil; unfold in_interval; cbn [i_start i_end]; try tauto.
    specialize (Hr eq_refl). unfold h_end, HT_HOLE_BASE, ONE_TIB in *. lia.
Qed.

Lemma hole_intervals_end variant holes : Forall (fun h => h_base h + h_size h <= u64_max) holes ->
  Forall (fun i => i_end i <= u64_max) (holes ≫= hole_intervals variant).
Proof.
  intros Hh. apply list.Forall_forall. intros i (h & Hi & Hin)%list_elem_of_bind. rewrite list.Forall_forall in Hh.
  specialize (Hh h Hin). unfold hole_intervals, plain, h_end, HT_HOLE_BASE, ONE_TIB, u64_max in *.
  destruct (classify _ _); repeat (apply elem_of_cons in Hi as [->|Hi]; [cbn; lia|]); by apply elem_of_nil in Hi.
Qed.

Definition ht_interval : Interval :=
  {| i_start := HT_HOLE_BASE; i_end := ONE_TIB; i_kind := RkHyperTransport; i_synthetic := true |}.

Section memory_map.
Context `{UnstableSort}.

(** What a call that succeeds has done. *)
Lemma memory_map_Ok variant top holes regions : memory_map variant top holes = Ok regions ->
  let live := filter (fun h => h_size h <> 0) holes in
  exists sorted, sorted ≡ₚ live /\ zlen live <= MAX_HOLES /\ Forall (remap_low variant) sorted /\
  Forall (fun h => h_base h + h_size h <= u64_max) live /\
  let spans := (sorted ≫= hole_intervals variant) ++ (if HT_HOLE_BASE <? top then [ht_interval] else []) in
  let out := fold_left (sweep top) (sort_unstable by_start spans) (0, []) in
  regions = emit out.2 out.1 top RkRam.
Proof.
  intros Hm live. unfold memory_map in Hm. fold live in Hm. rust_step Hm. apply collect_Ok in Ha as [-> Hlen]; [|done].
  destruct (list_find _ live) as [[? ?]|] eqn:Hw; [done|]. apply list_find_None in Hw.
  destruct (find_window _ _) as [[? ?]|]; [done|]. exists (sort_unstable by_base live).
  rust_step Hm. apply holes_spans_Ok in Ha as [-> Hr]. rust_step Hm.
  split; [apply sort_unstable_perm|]. split; [done|]. split; [done|]. split.
  - eapply list.Forall_impl; [exact Hw|]. cbn. intros h Hh. unfold wraps in Hh.
    destruct (checked_add _ _ _) eqn:E; [by apply checked_add_Some in E as [_ ?]|]. by destruct Hh.
  - assert (a = (sort_unstable by_base live ≫= hole_intervals variant) ++ (if HT_HOLE_BASE <? top then [ht_interval] else [])) as ->.
    { destruct (HT_HOLE_BASE <? top); [unfold push_span in Ha; apply push_Ok in Ha as [_ Ha]; exact Ha|]. injection Ha as <-. by rewrite app_nil_r. }
    cbn zeta. destruct (fold_left _ _ _) as [cursor out]. by injection Hm as <-.
Qed.

Lemma memory_map_swept variant top holes regions : Forall hole_ok holes ->
  memory_map variant top holes = Ok regions ->
  exists cursor out spans, swept top spans (cursor, out) /\ zlen out < MAX_REGIONS /\
    regions = emit out cursor top RkRam /\ cursor <= u64_max /\ forall x, covered spans x <-> kept variant top holes x.
Proof.
  intros Hh Hm. apply memory_map_Ok in Hm as (l & Hp & Hlen & Hr & Hw & ->).
  set (live := filter _ holes) in *. set (spans := _ ++ _).
  assert (Hlive : Forall hole_ok l).
  { rewrite Hp. apply list.Forall_forall. intros h [_ Hi]%list_elem_of_filter. rewrite list.Forall_forall in Hh. auto. }
  assert (Hspans : zlen spans <= MAX_SPANS).
  { unfold spans. rewrite zlen_app. pose proof (hole_intervals_length variant l).
    assert (zlen l = zlen live) by (unfold zlen; by rewrite Hp).
    unfold MAX_SPANS, MAX_HOLES in *. case_match; rewrite ?zlen_cons, ?@zlen_nil; lia. }
  assert (Hok : Forall interval_ok spans).
  { apply list.Forall_app. split.
    - apply Forall_bind. apply list.Forall_forall. intros h Hi. rewrite list.Forall_forall in Hlive, Hr.
      apply hole_intervals_ok; auto.
    - case_match; [|constructor]. constructor; [|constructor]. by unfold interval_ok, ht_interval. }
  pose proof (sweep_all top (sort_unstable by_start spans) [] (0, []) (swept_nil top)) as Hsw.
  destruct (fold_left _ _ _) as [cursor out]. exists cursor, out, (sort_unstable by_start spans).
  assert (Hsp : sort_unstable by_start spans ≡ₚ spans) by apply sort_unstable_perm.
  assert (Hz : zlen (sort_unstable by_start spans) = zlen spans) by (unfold zlen; by rewrite Hsp).
  cbn [app fst snd] in *. specialize (Hsw ltac:(by rewrite Hsp)). specialize (Hsw ltac:(by apply sort_unstable_sorted; apply _)).
  specialize (Hsw ltac:(by apply list.Forall_forall; intros; constructor)).
  specialize (Hsw ltac:(unfold MAX_REGIONS, MAX_SPANS in *; lia)). split; [done|]. split.
  { pose proof (sw_length _ _ _ Hsw). cbn [fst snd] in *. unfold MAX_REGIONS, MAX_SPANS in *. lia. }
  split; [done|]. split.
  { destruct (sw_last _ _ _ Hsw) as [H0|(i & Hi & Hie)]; cbn [fst] in *; [rewrite H0; by vm_compute|]. rewrite <- Hie.
    rewrite Hsp in Hi. unfold spans in Hi. apply elem_of_app in Hi as [Hi|Hi].
    - rewrite <- Hp in Hw. pose proof (hole_intervals_end variant l Hw) as He. rewrite list.Forall_forall in He. by apply He.
    - destruct (HT_HOLE_BASE <? top); [|by apply elem_of_nil in Hi]. apply list_elem_of_singleton in Hi as ->. by vm_compute. }
  intros x. rewrite (covered_perm _ _ x Hsp). unfold spans. rewrite covered_app, hole_intervals_covered by done.
  unfold kept. setoid_rewrite Hp. apply Morphisms_Prop.or_iff_morphism.
  - unfold live. setoid_rewrite list_elem_of_filter. naive_solver.
  - destruct (Z.ltb_spec HT_HOLE_BASE top); [rewrite covered_cons|]; pose proof (covered_nil x);
      unfold in_interval, ht_interval; cbn [i_start i_end]; intuition lia.
Qed.
End memory_map.

Lemma memory_map_ascending `{UnstableSort} variant top holes regions : top <= u64_max ->
  Forall hole_ok holes -> memory_map variant top holes = Ok regions -> exists hi, ascending 0 regions hi /\ hi <= u64_max.
Proof.
  intros Ht Hh Hm. destruct (memory_map_swept _ _ _ _ Hh Hm) as (cursor & out & spans & Hsw & Hlen & -> & Hc & _).
  destruct (emit_spec out cursor top RkRam Hlen) as (_ & Ha & _). exists (Z.max cursor top). split; [|lia].
  apply Ha. exact (sw_ascending _ _ _ Hsw).
Qed.

Lemma ascending_regions lo l hi : ascending lo l hi ->
  Forall (fun r => lo <= r_base r /\ 0 < r_size r /\ r_end r <= hi) l /\ lo <= hi.
Proof.
  revert lo. induction l as [|r l IH]; intros lo; cbn [ascending]; [by split|]. intros (H1 & H2 & [Hl Hle]%IH).
  unfold r_end in *. split; [|lia]. constructor; [lia|]. eapply list.Forall_impl; [exact Hl|]. cbn. lia.
Qed.

Lemma region_at_functional lo l hi x k k' : ascending lo l hi -> region_at l x k -> region_at l x k' -> k = k'.
Proof.
  revert lo. induction l as [|r l IH]; intros lo; cbn [ascending]; [by intros _ ?%region_at_nil|]. intros (H1 & H2 & H3).
  pose proof (ascending_regions _ _ _ H3) as [Hl _]. rewrite list.Forall_forall in Hl.
  assert (Hlate : forall q, region_at l x q -> r_end r <= x).
  { intros q (r' & Hr' & Hx & _). specialize (Hl r' Hr'). unfold r_end in *. lia. }
  unfold region_at. setoid_rewrite elem_of_cons.
  intros (a & [->|Ha] & Hx & <-) (b & [->|Hb] & Hx' & <-); [done| | |eapply IH; [done|by exists a|by exists b]].
  - specialize (Hlate (r_kind b) ltac:(by exists b)). lia.
  - specialize (Hlate (r_kind a) ltac:(by exists a)). lia.
Qed.

Lemma swept_ram top spans cursor out x : swept top spans (cursor, out) -> zlen out < MAX_REGIONS ->
  region_at (emit out cursor top RkRam) x RkRam <-> 0 <= x < top /\ ~ covered spans x.
Proof.
  intros [S1 _ _ S3 _ S5 _ _] Hlen. destruct (emit_spec out cursor top RkRam Hlen) as (_ & _ & Ht). cbn [fst snd] in *.
  rewrite Ht, S5. assert (Hb : covered spans x -> x < cursor).
  { intros (j & Hj & Hx). specialize (S3 j Hj). unfold in_interval in Hx. lia. }
  split.
  - intros [?|[? _]]; [tauto|]. split; [lia|]. intros Hc. specialize (Hb Hc). lia.
  - intros [? ?]. destruct (Z.lt_ge_cases x cursor); [left; split; [lia|split; [lia|done]]|right; split; [lia|done]].
Qed.

Lemma memory_map_ram `{UnstableSort} variant top holes regions x : Forall hole_ok holes ->
  memory_map variant top holes = Ok regions -> region_at regions x RkRam <-> 0 <= x < top /\ ~ kept variant top holes x.
Proof.
  intros Hh Hm. destruct (memory_map_swept _ _ _ _ Hh Hm) as (cursor & out & spans & Hsw & Hlen & -> & _ & Hcov).
  by rewrite (swept_ram _ spans), Hcov.
Qed.

(** C25: The regions say what every address is, and only memory is called RAM.
    Whatever order the unstable sorts leave equal keys in: the regions ascend
    from address 0 without overlapping; an address is RAM exactly when it lies
    below the top of DRAM, in no hole of the APOB (a remap hole reaches to 1 TiB)
    and, where DRAM reaches it, not in the 12 GiB below 1 TiB; and exactly what is
    kept from the RAM has another kind.  No region is lost to the capacity of the
    vector. *)
Theorem memory_map_means `{UnstableSort} variant top holes regions :
  Forall hole_ok holes -> memory_map variant top holes = Ok regions ->
  (exists hi, ascending 0 regions hi) /\
  (forall x, region_at regions x RkRam <-> 0 <= x < top /\ ~ kept variant top holes x) /\
  (forall x, kept variant top holes x <-> exists k, k <> RkRam /\ region_at regions x k).
Proof.
  intros Hh Hm. split; [|split; [intros x; by apply memory_map_ram|]];
    destruct (memory_map_swept _ _ _ _ Hh Hm) as (cursor & out & spans & Hsw & Hlen & -> & _ & Hcov);
    destruct (emit_spec out cursor top RkRam Hlen) as (_ & Ha & Ht).
  - eexists. apply Ha. exact (sw_ascending _ _ _ Hsw).
  - intros x. rewrite <- Hcov, (sw_other _ _ _ Hsw). setoid_rewrite Ht. split; [naive_solver|].
    intros (k & ? & [?|[_ ?]]); [eauto|done].
Qed.

Definition GIB : Z := 2 ^ 30.
Definition rome_holes : list Hole :=
  [{| h_base := 0x80000000; h_size := 0x80000000; h_kind := 1 |};
   {| h_base := 0x100000000 + 4 * GIB; h_size := 0x10000000; h_kind := 2 |}].

Definition rome_regions : res MapError (list Region) := memory_map Ssp (1536 * GIB) rome_holes.

Example rome_map :
  match rome_regions with Ok l => map (fun r => (r_base r, r_end r, is_ram (r_kind r))) l | _ => [] end =
  [(0, 0x80000000, true); (0x80000000, 0x100000000, false); (0x100000000, 0x200000000, true);
   (0x200000000, 0x210000000, false); (0x210000000, 0xfd00000000, true); (0xfd00000000, 2 ^ 40, false);
   (2 ^ 40, 1536 * GIB, true)].
Proof. vm_compute. reflexivity. Qed.

Lemma memory_map_means_witness :
  exists regions, rome_regions = Ok regions /\ ~ kept Ssp (1536 * GIB) rome_holes 0x100000 /\ region_at regions 0x100000 RkRam.
Proof.
  destruct rome_regions as [regions| |] eqn:E; [|vm_compute in E; discriminate..]. exists regions. split; [done|].
  assert (Hn : ~ kept Ssp (1536 * GIB) rome_holes 0x100000).
  { intros [(h & Hin & _ & Hx)|[_ Hx]]; [|unfold HT_HOLE_BASE in Hx; lia].
    unfold rome_holes in Hin. apply elem_of_cons in Hin as [->|Hin]; [|apply list_elem_of_singleton in Hin as ->];
      destruct Hx as [Hx _]; vm_compute in Hx; by apply Hx. }
  split; [done|]. pose proof (memory_map_means Ssp (1536 * GIB) rome_holes regions) as [_ [Hr _]].
  - repeat (apply list.Forall_cons_2; [by vm_compute|]). apply list.Forall_nil_2.
  - exact E.
  - apply Hr. split; [by vm_compute|done].
Defined.

(** A hole that ends between the floor and the computed boundary is empty: the
    memory from the floor to the boundary has no hole inside. *)
Lemma low_top_above_no_hole m floor h : h ∈ mm_holes m -> 0 <= h_size h ->
  floor < h_end h <= low_top_above m floor -> h_size h = 0.
Proof.
  unfold low_top_above. generalize (Z.min (mm_top m) (2 ^ 32)) as t.
  assert (Hdec : forall l t, fold_left (lower_top floor) l t <= t).
  { intros l. induction l as [|g l IH]; intros t; cbn [fold_left]; [lia|]. specialize (IH (lower_top floor t g)).
    assert (lower_top floor t g <= t); [|lia]. unfold lower_top. case_match; lia. }
  induction (mm_holes m) as [|g l IH]; intros t Hin Hz He; [by apply elem_of_nil in Hin|]. cbn [fold_left] in He.
  apply elem_of_cons in Hin as [<-|Hin]; [|by eapply IH]. specialize (Hdec l (lower_top floor t h)).
  assert (lower_top floor t h <= t) by (unfold lower_top; case_match; lia).
  unfold lower_top in *. replace ((h_end h <=? t) && (floor <? h_end h)) with true in *
    by (symmetry; apply andb_true_iff; rewrite Z.leb_le, Z.ltb_lt; lia).
  unfold h_end in *. lia.
Qed.

Lemma low_top_above_le m floor : low_top_above m floor <= Z.min (mm_top m) (2 ^ 32).
Proof.
  unfold low_top_above. generalize (Z.min (mm_top m) (2 ^ 32)) as t.
  induction (mm_holes m) as [|h l IH]; intros t; cbn [fold_left]; [lia|]. specialize (IH (lower_top floor t h)).
  assert (lower_top floor t h <= t); [|lia]. unfold lower_top. case_match; lia.
Qed.

(** The sorted map has the holes of the record, and none wraps. *)
Lemma sorted_Ok `{UnstableSort} top raw m : sorted top raw = Ok m ->
  mm_top m = top /\ top <> 0 /\ mm_holes m ≡ₚ raw /\ Forall (fun h => h_base h + h_size h <= u64_max) raw.
Proof.
  unfold sorted. intros Hs. rust_step Hs. bool_hyp. rust_step Hs. injection Hs as <-. cbn [mm_top mm_holes].
  assert (a = [] ++ raw /\ Forall (fun h => h_base h + h_size h <= u64_max) raw) as [-> ?].
  { revert a Ha. generalize (@nil Hole) as acc. induction raw as [|h raw IH]; intros acc a Ha; cbn [fold_each] in Ha.
    { injection Ha as <-. by rewrite app_nil_r. }
    rust_step Ha. unfold sorted_hole in Ha0. rust_step Ha0. apply push_Ok in Ha0 as [_ ->]. apply IH in Ha as [-> ?].
    split; [by rewrite <- app_assoc|]. constructor; [|done]. unfold wraps in Hb0. bool_hyp.
    destruct (checked_add _ _ _) eqn:E in Hb0; [by apply checked_add_Some in E as [_ ?]|done]. }
  split; [done|]. split; [done|]. split; [apply sort_unstable_perm|done].
Qed.
