(* ===== verification/E820.v ===== *)
(** * E820: the memory map handed to the operating system
    ([crates/core/src/services/memory_detect.rs])

    The map is an array of 128 entries of which the first [count] count.
    [build_pc_compatible_e820] fills it from the chipset's limits, [retype] cuts
    a range out of it under another kind; what a map says of an address is
    [typed], and the theorems state what each operation does to that.  A map is
    a [chain] when its entries ascend without overlapping. *)

From S2P Require Import Prelude.
From S2P Require Import Bytes.
From S2P Require Import Services.
From Stdlib Require Import ZArith Lia.
From stdpp Require Import base numbers list option.

#[local] Open Scope Z_scope.

(** ** Entries *)

Inductive E820Kind := Ram | Reserved | Acpi | Nvs | Unusable.

#[export] Instance E820Kind_eq_dec : EqDecision E820Kind.
Proof. solve_decision. Defined.

(** [kind as u32] *)
Definition kind_code (k : E820Kind) : Z :=
  match k with Ram => 1 | Reserved => 2 | Acpi => 3 | Nvs => 4 | Unusable => 5 end.

Lemma kind_code_inj k k' : kind_code k = kind_code k' <-> k = k'.
Proof. destruct k, k'; naive_solver. Qed.

Record E820Entry := { ee_addr : Z; ee_size : Z; ee_kind : Z }.

Definition entry_zeroed : E820Entry := {| ee_addr := 0; ee_size := 0; ee_kind := 0 |}.
Definition entry_new (addr size : Z) (kind : E820Kind) : E820Entry :=
  {| ee_addr := addr; ee_size := size; ee_kind := kind_code kind |}.

(** [entry.addr.saturating_add(entry.size)] *)
Definition entry_end (e : E820Entry) : Z := saturating_add u64_max (ee_addr e) (ee_size e).

(** ** The map of a PC *)

(** [entries[count] = e; count += 1] *)
Definition put (e : E820Entry) : sres (list E820Entry * Z) ServiceError unit := fun s =>
  let '(entries, count) := s in
  if count <? zlen entries then ((<[Z.to_nat count := e]> entries, count + 1), Ok tt) else (s, Panic).

Definition put_if (b : bool) (e : E820Entry) : sres (list E820Entry * Z) ServiceError unit :=
  if b then put e else slift (Ok tt).

Definition build_pc_compatible_e820 (entries : list E820Entry) (usable_low_top touud tolud : Z)
  : list E820Entry * res ServiceError Z :=
  if zlen entries <? 8 then (entries, Err HardwareError) else
  let usable_low_top := Z.max usable_low_top 0x100000 in
  let low_ram_size := saturating_sub usable_low_top 0x100000 in
  let top_reserved_size := saturating_sub tolud usable_low_top in
  let upper_ram_size := saturating_sub touud 0x100000000 in
  let out :=
    (let! _ := put (entry_new 0x0 0x1000 Reserved) in
     let! _ := put (entry_new 0x1000 0x9e000 Ram) in
     let! _ := put (entry_new 0x9f000 0x1000 Reserved) in
     let! _ := put (entry_new 0xa0000 0x50000 Reserved) in
     let! _ := put (entry_new 0xf0000 0x10000 Reserved) in
     let! _ := put_if (negb (low_ram_size =? 0)) (entry_new 0x100000 low_ram_size Ram) in
     let! _ := put_if (negb (top_reserved_size =? 0)) (entry_new usable_low_top top_reserved_size Reserved) in
     put_if (negb (upper_ram_size =? 0)) (entry_new 0x100000000 upper_ram_size Ram)) (entries, 0) in
  (fst (fst out), let? _ := snd out in Ok (snd (fst out))).

(** ** The state of the map *)

Definition MAX_E820_ENTRIES : Z := 128.

Record E820State := { es_entries : list E820Entry; es_count : Z; es_total_ram : Z }.

Definition no_entries : list E820Entry := replicate (Z.to_nat MAX_E820_ENTRIES) entry_zeroed.

Definition e820_new : E820State := {| es_entries := no_entries; es_count := 0; es_total_ram := 0 |}.

(** What is written through [entries_mut]. *)
Definition with_entries (s : E820State) (l : list E820Entry) : E820State :=
  {| es_entries := l; es_count := es_count s; es_total_ram := es_total_ram s |}.

Definition set_detected (count total_ram : Z) : sres E820State ServiceError unit := fun s =>
  if MAX_E820_ENTRIES <? count then (s, Err InvalidParam)
  else ({| es_entries := es_entries s; es_count := count; es_total_ram := total_ram |}, Ok tt).

Definition entries (s : E820State) : list E820Entry := take (Z.to_nat (es_count s)) (es_entries s).

(** [append_entry]: into the array [s.1] that holds [s.2] entries. *)
Definition append_entry (s : list E820Entry * Z) (e : E820Entry) : res ServiceError (list E820Entry * Z) :=
  let '(out, count) := s in
  if ee_size e =? 0 then Ok s else
  let append :=
    if count <? zlen out then Ok (<[Z.to_nat count := e]> out, count + 1) else Err HardwareError in
  if 0 <? count then
    let? prev := or_panic (get out (count - 1)) in
    if (ee_kind prev =? ee_kind e) && (entry_end prev =? ee_addr e) then
      Ok (<[Z.to_nat (count - 1) :=
            {| ee_addr := ee_addr prev; ee_size := saturating_add u64_max (ee_size prev) (ee_size e);
               ee_kind := ee_kind prev |}]> out, count)
    else append
  else append.

(** One round of the loop of [retype]. *)
Definition retype_entry (base end_ : Z) (kind : E820Kind) (ram_only : bool) (s : list E820Entry * Z)
    (e : E820Entry) : res ServiceError (list E820Entry * Z) :=
  if (ram_only && negb (ee_kind e =? kind_code Ram)) || (end_ <=? ee_addr e) || (entry_end e <=? base)
  then append_entry s e
  else
    let? s :=
      if ee_addr e <? base then
        append_entry s {| ee_addr := ee_addr e; ee_size := base - ee_addr e; ee_kind := ee_kind e |}
      else Ok s in
    let res_base := Z.max (ee_addr e) base in
    let res_end := Z.min (entry_end e) end_ in
    let? s :=
      if res_base <? res_end then append_entry s (entry_new res_base (res_end - res_base) kind) else Ok s in
    if end_ <? entry_end e then
      append_entry s {| ee_addr := end_; ee_size := entry_end e - end_; ee_kind := ee_kind e |}
    else Ok s.

Definition retype (base size : Z) (kind : E820Kind) (ram_only : bool) : sres E820State ServiceError unit := fun s =>
  if size =? 0 then (s, Ok tt) else
  match checked_add u64_max base size with
  | None => (s, Err InvalidParam)
  | Some end_ =>
      match fold_each (entries s) (no_entries, 0) (retype_entry base end_ kind ram_only) with
      | Ok (out, out_count) =>
          ({| es_entries := out; es_count := out_count; es_total_ram := es_total_ram s |}, Ok tt)
      | Err e => (s, Err e)
      | Panic => (s, Panic)
      end
  end.

Definition reserve_range_as (base size : Z) (kind : E820Kind) : sres E820State ServiceError unit :=
  retype base size kind true.
Definition reserve_range (base size : Z) : sres E820State ServiceError unit := reserve_range_as base size Reserved.
Definition set_range_kind (base size : Z) (kind : E820Kind) : sres E820State ServiceError unit :=
  retype base size kind false.

(** The sum of the sizes of the RAM entries, as the platforms take it for
    [set_detected]. *)
Definition sum_ram {E} (l : list E820Entry) : res E Z :=
  fold_each (filter (fun e => ee_kind e = kind_code Ram) l) 0 (fun n e => add_or_panic u64_max n (ee_size e)).

(** ** What a map says *)

Definition entry_ok (e : E820Entry) : Prop :=
  0 <= ee_addr e /\ 0 <= ee_size e /\ ee_addr e + ee_size e <= u64_max.

Definition covers (e : E820Entry) (x : Z) : Prop := ee_addr e <= x < ee_addr e + ee_size e.

(** Some entry gives address [x] the kind [k]. *)
Definition typed (l : list E820Entry) (x k : Z) : Prop := exists e, e ∈ l /\ covers e x /\ ee_kind e = k.

(** Entries that ascend from [lo] to [hi] without overlapping. *)
Fixpoint chain (lo : Z) (l : list E820Entry) (hi : Z) : Prop :=
  match l with
  | [] => lo <= hi
  | e :: l => lo <= ee_addr e /\ 0 <= ee_size e /\ chain (ee_addr e + ee_size e) l hi
  end.

(** The array has [cap] entries, and the first [count] are [l]. *)
Definition fills (cap : Z) (s : list E820Entry * Z) (l : list E820Entry) : Prop :=
  zlen s.1 = cap /\ s.2 = zlen l /\ take (length l) s.1 = l.
Notation holds := (fills MAX_E820_ENTRIES).

Definition state_ok (s : E820State) : Prop := holds (es_entries s, es_count s) (entries s).

Lemma entry_end_ok e : entry_ok e -> entry_end e = ee_addr e + ee_size e.
Proof. unfold entry_ok, entry_end, saturating_add. lia. Qed.

Lemma typed_nil x k : ~ typed [] x k.
Proof. intros (e & He & _). by apply elem_of_nil in He. Qed.

Lemma typed_cons e l x k : typed (e :: l) x k <-> (covers e x /\ ee_kind e = k) \/ typed l x k.
Proof. unfold typed. setoid_rewrite elem_of_cons. naive_solver. Qed.

Lemma typed_app l l' x k : typed (l ++ l') x k <-> typed l x k \/ typed l' x k.
Proof. unfold typed. setoid_rewrite elem_of_app. naive_solver. Qed.

Lemma typed_one e x k : typed [e] x k <-> covers e x /\ ee_kind e = k.
Proof. rewrite typed_cons. pose proof (typed_nil x k). tauto. Qed.

Lemma chain_app lo l l' hi : chain lo (l ++ l') hi <-> exists mid, chain lo l mid /\ chain mid l' hi.
Proof.
  revert lo. induction l as [|e l IH]; intros lo; cbn [app chain].
  - split; [intros H; exists lo; split; [lia|done]|]. intros (mid & H1 & H2). clear -H1 H2.
    destruct l' as [|e l']; cbn [chain] in *; [lia|]. destruct H2 as (? & ? & ?). split_and!; [lia|done..].
  - rewrite IH. split; [intros (? & ? & mid & ? & ?); exists mid; by split_and!|].
    intros (mid & (? & ? & ?) & ?). split_and!; [done..|]. by exists mid.
Qed.

Lemma chain_le lo l hi : chain lo l hi -> lo <= hi.
Proof. revert lo. induction l as [|e l IH]; intros lo; cbn [chain]; [done|]. intros (? & ? & H%IH). lia. Qed.

Lemma chain_weaken lo lo' l hi hi' : chain lo l hi -> lo' <= lo -> hi <= hi' -> chain lo' l hi'.
Proof.
  revert lo lo'. induction l as [|e l IH]; intros lo lo'; cbn [chain]; [lia|].
  intros (? & ? & H) ? ?. split_and!; [lia|done|]. apply (IH _ _ H); lia.
Qed.

Lemma chain_bounds lo l hi : 0 <= lo -> hi <= u64_max -> chain lo l hi ->
  Forall (fun e => entry_ok e /\ lo <= ee_addr e /\ ee_addr e + ee_size e <= hi) l.
Proof.
  intros Hlo Hhi. revert lo Hlo. induction l as [|e l IH]; intros lo Hlo; cbn [chain]; [constructor|].
  intros (? & ? & H). pose proof (chain_le _ _ _ H). constructor.
  - unfold entry_ok. lia.
  - eapply list.Forall_impl; [apply (IH (ee_addr e + ee_size e)); [lia|done]|]. cbn. intros e' (? & ? & ?). split_and!; [done|lia|lia].
Qed.

Lemma chain_ok lo l hi : 0 <= lo -> hi <= u64_max -> chain lo l hi -> Forall entry_ok l.
Proof. intros ? ? H. eapply list.Forall_impl; [by eapply chain_bounds|]. by intros e [? _]. Qed.

Lemma chain_typed lo l hi x k : 0 <= lo -> hi <= u64_max -> chain lo l hi -> typed l x k -> lo <= x < hi.
Proof.
  intros ? ? H (e & He & Hx & _). apply chain_bounds in H; [|done..]. rewrite list.Forall_forall in H.
  destruct (H e He) as (_ & ? & ?). unfold covers in Hx. lia.
Qed.

(** In a chain an address has one kind. *)
Lemma chain_functional lo l hi x k k' :
  0 <= lo -> hi <= u64_max -> chain lo l hi -> typed l x k -> typed l x k' -> k = k'.
Proof.
  intros Hlo Hhi. revert lo Hlo. induction l as [|e l IH]; intros lo Hlo; cbn [chain].
  { intros _ H. by apply typed_nil in H. }
  intros (? & ? & H). assert (0 <= ee_addr e + ee_size e) by lia.
  rewrite !typed_cons. unfold covers. intros [[? ?]|Hk] [[? ?]|Hk'].
  - congruence.
  - eapply chain_typed in Hk'; [|done..]. lia.
  - eapply chain_typed in Hk; [|done..]. lia.
  - eapply IH; [|done..]. done.
Qed.

(** ** Canonical maps *)

(** Two entries that one could replace. *)
Definition mergeable (p e : E820Entry) : Prop := ee_kind p = ee_kind e /\ ee_addr p + ee_size p = ee_addr e.

(** No entry is empty, and no entry continues the one before it. *)
Fixpoint canonical (l : list E820Entry) : Prop :=
  match l with
  | [] => True
  | p :: l' => 0 < ee_size p /\ match l' with e :: _ => ~ mergeable p e | [] => True end /\ canonical l'
  end.

Lemma canonical_snoc l e :
  canonical (l ++ [e]) <-> canonical l /\ 0 < ee_size e /\ forall p, list.last l = Some p -> ~ mergeable p e.
Proof.
  induction l as [|p [|q l] IH].
  - cbn. naive_solver.
  - cbn. naive_solver.
  - change (list.last (p :: q :: l)) with (list.last (q :: l)).
    change (canonical ((p :: q :: l) ++ [e])) with (0 < ee_size p /\ ~ mergeable p q /\ canonical ((q :: l) ++ [e])).
    rewrite IH. change (canonical (p :: q :: l)) with (0 < ee_size p /\ ~ mergeable p q /\ canonical (q :: l)). tauto.
Qed.

(** ** The total *)

(** The bytes of RAM in a map. *)
Fixpoint ram_bytes (l : list E820Entry) : Z :=
  match l with [] => 0 | e :: l => (if ee_kind e =? kind_code Ram then ee_size e else 0) + ram_bytes l end.

Lemma sum_ram_ok {E} l lo hi : 0 <= lo -> hi <= u64_max -> chain lo l hi -> @sum_ram E l = Ok (ram_bytes l).
Proof.
  intros Hlo Hhi Hc. unfold sum_ram.
  assert (H : forall acc, acc + (hi - lo) <= u64_max ->
    fold_each (filter (fun e => ee_kind e = kind_code Ram) l) acc (fun n e => @add_or_panic E u64_max n (ee_size e)) =
    Ok (acc + ram_bytes l)); [|by rewrite (H 0) by lia].
  clear Hlo. revert lo Hc. induction l as [|e l IH]; intros lo Hc acc Hacc; [cbn; f_equal; lia|].
  cbn [chain] in Hc. destruct Hc as (? & ? & Hc). cbn [ram_bytes]. rewrite filter_cons. pose proof (chain_le _ _ _ Hc).
  destruct (decide (ee_kind e = kind_code Ram)) as [Hk|Hk].
  - rewrite (proj2 (Z.eqb_eq _ _) Hk). cbn [fold_each]. unfold add_or_panic at 1.
    rewrite checked_add_ok by lia. cbn [or_panic rbind]. rewrite (IH _ Hc) by lia. f_equal. lia.
  - rewrite (proj2 (Z.eqb_neq _ _) Hk). rewrite (IH _ Hc) by lia. done.
Qed.

(** ** Appending *)

Lemma holds_nil : holds (no_entries, 0) [].
Proof. done. Qed.

Lemma take_insert_last {A} (l : list A) n x : (n < length l)%nat -> take (S n) (<[n:=x]> l) = take n l ++ [x].
Proof.
  intros Hn. rewrite (take_S_r _ _ x); [|by apply list_lookup_insert_eq]. f_equal. by apply take_insert_ge.
Qed.

Lemma fills_push cap out l e :
  fills cap (out, zlen l) l -> zlen l < cap ->
  fills cap (<[Z.to_nat (zlen l) := e]> out, zlen l + 1) (l ++ [e]).
Proof.
  intros (H1 & _ & H3) Hl. cbn [fst snd] in *. unfold fills, zlen in *. cbn [fst snd].
  rewrite length_insert, length_app. cbn [length]. split_and!; [done|lia|].
  rewrite Nat2Z.id, Nat.add_1_r, take_insert_last by lia. by rewrite H3.
Qed.

Lemma fills_replace_last cap out l p q :
  fills cap (out, zlen (l ++ [p])) (l ++ [p]) ->
  fills cap (<[Z.to_nat (zlen (l ++ [p]) - 1) := q]> out, zlen (l ++ [p])) (l ++ [q]).
Proof.
  intros (H1 & _ & H3). cbn [fst snd] in *. unfold fills, zlen in *. cbn [fst snd].
  rewrite length_insert. rewrite !length_app in *. cbn [length] in *. split_and!; [done|done|].
  assert (Hlen : (length l < length out)%nat).
  { apply (f_equal length) in H3. rewrite length_take, length_app in H3. cbn [length] in H3. lia. }
  replace (Z.to_nat (Z.of_nat (length l + 1) - 1)) with (length l) by lia.
  rewrite Nat.add_1_r, take_insert_last by done. f_equal.
  apply (f_equal (take (length l))) in H3. rewrite take_take, take_app_length in H3.
  by rewrite Nat.min_l in H3 by lia.
Qed.

Lemma fills_get_last cap out l p : fills cap (out, zlen (l ++ [p])) (l ++ [p]) -> get out (zlen (l ++ [p]) - 1) = Some p.
Proof.
  intros (H1 & _ & H3). cbn [fst snd] in *. unfold get, zlen in *. rewrite length_app in *. cbn [length] in *.
  test_true (0 <=? Z.of_nat (length l + 1) - 1).
  replace (Z.to_nat (Z.of_nat (length l + 1) - 1)) with (length l) by lia.
  rewrite <- (lookup_take_lt out (length l + 1)) by lia. rewrite H3. by apply list_lookup_middle.
Qed.

(** [l'] says what [l] and then [ps] say, in no more entries. *)
Record extended (l ps l' : list E820Entry) : Prop := {
  ex_ok : Forall entry_ok l';
  ex_typed : forall x k, typed l' x k <-> typed l x k \/ typed ps x k;
  ex_length : zlen l' <= zlen l + zlen ps;
  ex_chain : forall lo hi, chain lo (l ++ ps) hi -> chain lo l' hi;
  ex_canonical : canonical l -> canonical l'
}.

Lemma extended_nil l : Forall entry_ok l -> extended l [] l.
Proof.
  intros Hl. split; [done| |rewrite zlen_nil; lia| |done].
  - intros x k. pose proof (typed_nil x k). tauto.
  - intros lo hi. by rewrite app_nil_r.
Qed.

Lemma extended_push l e : Forall entry_ok l -> entry_ok e -> ee_size e <> 0 ->
  (forall p, list.last l = Some p -> ~ mergeable p e) -> extended l [e] (l ++ [e]).
Proof.
  intros Hl He Hz Hm. split; [|intros; apply typed_app|rewrite zlen_app; lia|done|].
  - apply list.Forall_app. split; [done|by apply list.Forall_singleton].
  - intros Hc. apply canonical_snoc. split_and!; [done|destruct He; lia|done].
Qed.

Lemma extended_trans l ps l1 qs l2 : extended l ps l1 -> extended l1 qs l2 -> extended l (ps ++ qs) l2.
Proof.
  intros [O1 T1 L1 C1 M1] [O2 T2 L2 C2 M2]. split; [done| | | |by intros ?%M1%M2].
  - intros x k. rewrite T2, T1, typed_app. tauto.
  - rewrite zlen_app. lia.
  - intros lo hi H. rewrite app_assoc in H. apply chain_app in H as (mid & H1 & H2). apply C2, chain_app. eauto.
Qed.

Lemma extended_empty l e : Forall entry_ok l -> ee_size e = 0 -> extended l [e] l.
Proof.
  intros Hl He. split; [done| |rewrite zlen_cons, zlen_nil; lia| |done].
  - intros x k. rewrite typed_one. unfold covers. split; [auto|]. intros [?|[? _]]; [done|lia].
  - intros lo hi (mid & H1 & H2)%chain_app. cbn [chain] in H2. eapply chain_weaken; [done|lia|lia].
Qed.

Lemma extended_merge l p e :
  Forall entry_ok (l ++ [p]) -> entry_ok e -> ee_kind p = ee_kind e -> entry_end p = ee_addr e ->
  extended (l ++ [p]) [e]
    (l ++ [{| ee_addr := ee_addr p; ee_size := saturating_add u64_max (ee_size p) (ee_size e); ee_kind := ee_kind p |}]).
Proof.
  intros Hl (E1 & E2 & E3) Hk Hp. apply list.Forall_app in Hl as [Hl Hp'%Forall_inv].
  rewrite entry_end_ok in Hp by done. destruct Hp' as (P1 & P2 & P3).
  replace (saturating_add _ _ _) with (ee_size p + ee_size e) by (unfold saturating_add; lia).
  split.
  - apply list.Forall_app. split; [done|]. apply list.Forall_singleton. unfold entry_ok. cbn. lia.
  - intros x k. rewrite !typed_app, !typed_one. unfold covers. cbn [ee_addr ee_size ee_kind].
    rewrite <- Hk, <- Hp. assert (ee_addr p <= x < ee_addr p + (ee_size p + ee_size e) <->
      (ee_addr p <= x < ee_addr p + ee_size p) \/
      (ee_addr p + ee_size p <= x < ee_addr p + ee_size p + ee_size e)) as -> by lia. tauto.
  - rewrite !zlen_app, !zlen_cons, !zlen_nil. lia.
  - intros lo hi (mid & H1 & H2)%chain_app. apply chain_app in H1 as (m1 & H1 & H1').
    apply chain_app. exists m1. cbn [chain ee_addr ee_size] in *. split; [done|lia].
  - intros (H1 & H2 & H3)%canonical_snoc. apply canonical_snoc. cbn [ee_size]. split_and!; [done|lia|exact H3].
Qed.

Lemma append_entry_spec cap s l e :
  fills cap s l -> Forall entry_ok l -> entry_ok e ->
  match append_entry s e with
  | Ok s' => exists l', fills cap s' l' /\ extended l [e] l'
  | Err _ => cap < zlen l + 1
  | Panic => False
  end.
Proof.
  intros Hh Hl He. destruct s as [out count]. pose proof Hh as (Ho & Hc & _). cbn [fst snd] in Ho, Hc. subst count.
  unfold append_entry. destruct (Z.eqb_spec (ee_size e) 0) as [Hz|Hz].
  { exists l. split; [done|by apply extended_empty]. }
  set (apart := forall p, list.last l = Some p -> ~ mergeable p e).
  set (push := if zlen l <? zlen out then _ else _).
  assert (Hpush : apart -> match push with
    | Ok s' => exists l', fills cap s' l' /\ extended l [e] l'
    | Err _ => cap < zlen l + 1
    | Panic => False end).
  { intros Hap. unfold push. rewrite Ho. destruct (Z.ltb_spec (zlen l) cap) as [Hlt|Hge]; [|lia].
    exists (l ++ [e]). split; [by apply fills_push|by apply extended_push]. }
  clearbody push. destruct (Z.ltb_spec 0 (zlen l)) as [Hn|Hn].
  2:{ apply Hpush. destruct l; [by intros p|]. rewrite zlen_cons in Hn. pose proof (zlen_nonneg l). lia. }
  destruct (list.last l) as [p|] eqn:Hp; [|apply last_None in Hp; subst l; discriminate Hn].
  apply last_Some in Hp as [l0 ->]. rewrite (fills_get_last cap) by done. cbn [or_panic rbind].
  destruct ((ee_kind p =? ee_kind e) && (entry_end p =? ee_addr e)) eqn:Hm.
  - bool_hyp. eexists. split; [by apply fills_replace_last|by apply extended_merge].
  - apply Hpush. subst apart. intros q [= <-]. apply list.Forall_app in Hl as [_ Hpok%Forall_inv].
    rewrite entry_end_ok in Hm by done. unfold mergeable. bool_cases; intros [??]; congruence.
Qed.

Lemma append_all_spec cap ps : forall s l,
  fills cap s l -> Forall entry_ok l -> Forall entry_ok ps ->
  match fold_each ps s append_entry with
  | Ok s' => exists l', fills cap s' l' /\ extended l ps l'
  | Err _ => cap < zlen l + zlen ps
  | Panic => False
  end.
Proof.
  induction ps as [|e ps IH]; intros s l Hh Hl Hps; cbn [fold_each].
  { exists l. split; [done|by apply extended_nil]. }
  apply list.Forall_cons in Hps as [He Hps]. pose proof (append_entry_spec cap s l e Hh Hl He) as H1.
  pose proof (zlen_nonneg ps). rewrite zlen_cons.
  destruct (append_entry s e) as [s1|err|]; cbn [rbind]; [|lia|done].
  destruct H1 as (l1 & Hh1 & E1). pose proof (ex_length _ _ _ E1) as Hlen. rewrite zlen_cons, zlen_nil in Hlen.
  specialize (IH s1 l1 Hh1 (ex_ok _ _ _ E1) Hps).
  destruct (fold_each ps s1 append_entry) as [s2|err|]; [|lia|done].
  destruct IH as (l2 & Hh2 & E2). exists l2. split; [done|]. exact (extended_trans _ [e] _ _ _ E1 E2).
Qed.

(** ** Cutting a range out *)

(** What [retype] makes of one entry. *)
Definition pieces (base end_ : Z) (kind : E820Kind) (ram_only : bool) (e : E820Entry) : list E820Entry :=
  if (ram_only && negb (ee_kind e =? kind_code Ram)) || (end_ <=? ee_addr e) || (entry_end e <=? base) then [e]
  else
    (if ee_addr e <? base then [{| ee_addr := ee_addr e; ee_size := base - ee_addr e; ee_kind := ee_kind e |}] else [])
    ++ (if Z.max (ee_addr e) base <? Z.min (entry_end e) end_
        then [entry_new (Z.max (ee_addr e) base) (Z.min (entry_end e) end_ - Z.max (ee_addr e) base) kind] else [])
    ++ (if end_ <? entry_end e then [{| ee_addr := end_; ee_size := entry_end e - end_; ee_kind := ee_kind e |}] else []).

Lemma fold_each_app {E A S} (l k : list A) (s : S) (f : S -> A -> res E S) :
  fold_each (l ++ k) s f = let? s := fold_each l s f in fold_each k s f.
Proof. revert s. induction l as [|x l IH]; intros s; cbn; [done|]. destruct (f s x); cbn; auto. Qed.

Lemma fold_each_one {E A S} (x : A) (s : S) (f : S -> A -> res E S) : fold_each [x] s f = f s x.
Proof. cbn. by destruct (f s x). Qed.

Lemma retype_entry_pieces base end_ kind ram_only s e :
  retype_entry base end_ kind ram_only s e = fold_each (pieces base end_ kind ram_only e) s append_entry.
Proof.
  unfold retype_entry, pieces. destruct (_ || _)%bool; [by rewrite fold_each_one|].
  rewrite !fold_each_app. destruct (ee_addr e <? base), (Z.max _ _ <? _), (end_ <? entry_end e);
    cbn [app fold_each rbind]; repeat (destruct (append_entry _ _); cbn [rbind]); done.
Qed.

Lemma retype_loop_pieces base end_ kind ram_only l s :
  fold_each l s (retype_entry base end_ kind ram_only) =
  fold_each (l ≫= pieces base end_ kind ram_only) s append_entry.
Proof.
  revert s. induction l as [|e l IH]; intros s; [done|]. rewrite bind_cons, fold_each_app. cbn [fold_each].
  rewrite retype_entry_pieces. destruct (fold_each _ _ _); cbn [rbind]; auto.
Qed.

(** The kind an address of kind [k] has afterwards. *)
Definition retyped (base end_ : Z) (kind : E820Kind) (ram_only : bool) (x k : Z) : Z :=
  if ((base <=? x) && (x <? end_) && (negb ram_only || (k =? kind_code Ram))) then kind_code kind else k.

Lemma pieces_ok base end_ kind ram_only e :
  0 <= base -> end_ <= u64_max -> entry_ok e -> Forall entry_ok (pieces base end_ kind ram_only e).
Proof.
  intros Hb He Hok. unfold pieces. rewrite entry_end_ok by done. destruct Hok as (? & ? & ?).
  destruct (_ || _)%bool eqn:Hg; [by apply list.Forall_singleton|]. bool_hyp.
  repeat (apply list.Forall_app; split); case_match; bool_hyp; try constructor; try constructor;
    unfold entry_ok, entry_new; cbn; try lia.
Qed.

Lemma typed_if (b : bool) e x k : typed (if b then [e] else []) x k <-> b = true /\ covers e x /\ ee_kind e = k.
Proof. destruct b; [rewrite typed_one; tauto|]. pose proof (typed_nil x k). naive_solver. Qed.

Lemma pieces_typed base end_ kind ram_only e x k' :
  base < end_ -> entry_ok e ->
  typed (pieces base end_ kind ram_only e) x k' <->
  covers e x /\ k' = retyped base end_ kind ram_only x (ee_kind e).
Proof.
  intros Hb Hok. unfold pieces, retyped. rewrite entry_end_ok by done. destruct Hok as (? & ? & ?).
  destruct (_ || _)%bool eqn:Hg.
  - rewrite typed_one. assert (covers e x -> (base <=? x) && (x <? end_) && (negb ram_only || (ee_kind e =? kind_code Ram)) = false) as Hf.
    { unfold covers. intros Hx. apply not_true_iff_false. intros Ht. bool_cases; try lia; by subst. }
    split; intros [Hx Hk]; (split; [done|]); rewrite (Hf Hx) in *; done.
  - bool_hyp. assert (negb ram_only || (ee_kind e =? kind_code Ram) = true) as ->.
    { destruct ram_only; [|done]. bool_cases; [done|]. cbn. by apply Z.eqb_eq. }
    rewrite andb_true_r, !typed_app, !typed_if, !Z.ltb_lt. unfold covers, entry_new. cbn [ee_addr ee_size ee_kind].
    destruct (Z.leb_spec base x), (Z.ltb_spec x end_); cbn [andb];
      (split; [intros [(? & ? & ?)|[(? & ? & ?)|(? & ? & ?)]]|intros [? ?]]);
      try (exfalso; lia); try (split; [lia|done]);
      first [left; split; [lia|split; [lia|done]] | right; left; split; [lia|split; [lia|done]]
            | right; right; split; [lia|split; [lia|done]]].
Qed.

Lemma pieces_all_ok base end_ kind ram_only l :
  0 <= base -> end_ <= u64_max -> Forall entry_ok l -> Forall entry_ok (l ≫= pieces base end_ kind ram_only).
Proof.
  intros ? ?. induction 1; [constructor|]. rewrite bind_cons. apply list.Forall_app. split; [by apply pieces_ok|done].
Qed.

Lemma pieces_all_typed base end_ kind ram_only l x k' :
  base < end_ -> Forall entry_ok l ->
  typed (l ≫= pieces base end_ kind ram_only) x k' <->
  exists k, typed l x k /\ k' = retyped base end_ kind ram_only x k.
Proof.
  intros Hb. induction 1 as [|e l He Hl IH].
  - cbn. split; [intros H; by apply typed_nil in H|]. intros (k & H & _). by apply typed_nil in H.
  - rewrite bind_cons, typed_app, pieces_typed, IH by done. setoid_rewrite typed_cons. naive_solver.
Qed.

Lemma pieces_chain base end_ kind ram_only e :
  base < end_ -> entry_ok e -> chain (ee_addr e) (pieces base end_ kind ram_only e) (ee_addr e + ee_size e).
Proof.
  intros Hb Hok. unfold pieces. rewrite entry_end_ok by done. destruct Hok as (? & ? & ?).
  destruct (_ || _)%bool eqn:Hg; [cbn [chain]; lia|]. bool_hyp.
  repeat case_match; bool_hyp; unfold entry_new; cbn [app chain ee_addr ee_size]; lia.
Qed.

Lemma pieces_all_chain base end_ kind ram_only l lo hi :
  base < end_ -> 0 <= lo -> hi <= u64_max -> chain lo l hi -> chain lo (l ≫= pieces base end_ kind ram_only) hi.
Proof.
  intros Hb. revert lo. induction l as [|e l IH]; intros lo Hlo Hhi; [done|]. cbn [chain]. intros (H1 & H2 & H3).
  rewrite bind_cons. pose proof (chain_le _ _ _ H3). apply chain_app. exists (ee_addr e + ee_size e). split.
  - eapply chain_weaken; [apply pieces_chain; [done|unfold entry_ok; lia]|lia|lia].
  - apply IH; [lia|done|done].
Qed.

(** The entries that have [p] strictly inside. *)
Definition cuts (p : Z) (l : list E820Entry) : Z :=
  zlen (filter (fun e => ee_addr e < p < ee_addr e + ee_size e) l).

Lemma cuts_cons p e l :
  cuts p (e :: l) = (if decide (ee_addr e < p < ee_addr e + ee_size e) then 1 else 0) + cuts p l.
Proof. unfold cuts. rewrite filter_cons. case_decide; [rewrite zlen_cons|]; lia. Qed.

Lemma cuts_chain p lo l hi : chain lo l hi -> 0 <= cuts p l <= 1 /\ (p <= lo -> cuts p l = 0).
Proof.
  revert lo. induction l as [|e l IH]; intros lo; cbn [chain]; [intros; by cbn|]. intros (? & ? & H%IH).
  rewrite cuts_cons. case_decide; lia.
Qed.

Lemma pieces_length base end_ kind ram_only l :
  base < end_ -> Forall entry_ok l ->
  zlen (l ≫= pieces base end_ kind ram_only) <= zlen l + cuts base l + cuts end_ l.
Proof.
  intros Hb. induction 1 as [|e l He Hl IH]; [done|]. rewrite bind_cons, zlen_app, zlen_cons, !cuts_cons.
  assert (zlen (pieces base end_ kind ram_only e) <=
    1 + (if decide (ee_addr e < base < ee_addr e + ee_size e) then 1 else 0)
      + (if decide (ee_addr e < end_ < ee_addr e + ee_size e) then 1 else 0)); [|lia].
  unfold pieces. rewrite entry_end_ok by done. destruct He as (? & ? & ?).
  destruct (_ || _)%bool eqn:Hg; bool_hyp; [rewrite zlen_cons, zlen_nil; repeat case_decide; lia|].
  rewrite !zlen_app. repeat case_decide; repeat case_match; bool_hyp; rewrite ?zlen_cons, ?@zlen_nil; lia.
Qed.

(** What a [retype] that succeeds leaves. *)
Record retype_done (base size : Z) (kind : E820Kind) (ram_only : bool) (s s' : E820State) : Prop := {
  rd_state : state_ok s';
  rd_entries : Forall entry_ok (entries s');
  rd_total : es_total_ram s' = es_total_ram s;
  rd_length : zlen (entries s') <= zlen (entries s) + cuts base (entries s) + cuts (base + size) (entries s);
  rd_typed : forall x k', typed (entries s') x k' <->
    exists k, typed (entries s) x k /\ k' = retyped base (base + size) kind ram_only x k;
  rd_chain : forall lo hi, 0 <= lo -> hi <= u64_max -> chain lo (entries s) hi -> chain lo (entries s') hi;
  rd_canonical : size <> 0 -> canonical (entries s')
}.

Lemma holds_entries out n l total : holds (out, n) l ->
  entries {| es_entries := out; es_count := n; es_total_ram := total |} = l /\
  state_ok {| es_entries := out; es_count := n; es_total_ram := total |}.
Proof.
  intros Hh. pose proof Hh as (_ & Hn & Ht). cbn in Hn, Ht. unfold state_ok, entries. cbn [es_entries es_count].
  assert (take (Z.to_nat n) out = l) as Hl by (subst n; unfold zlen; by rewrite Nat2Z.id).
  by rewrite Hl.
Qed.

Lemma retyped_empty base kind ram_only x k : retyped base (base + 0) kind ram_only x k = k.
Proof. unfold retyped. by test_false ((base <=? x) && (x <? base + 0) && (negb ram_only || (k =? kind_code Ram)))%bool. Qed.

Lemma retype_spec s base size kind ram_only :
  state_ok s -> Forall entry_ok (entries s) -> 0 <= base -> 0 <= size ->
  match retype base size kind ram_only s with
  | (s', Ok _) => retype_done base size kind ram_only s s'
  | (s', Err _) => s' = s /\ (u64_max < base + size \/
      MAX_E820_ENTRIES < zlen (entries s) + cuts base (entries s) + cuts (base + size) (entries s))
  | (_, Panic) => False
  end.
Proof.
  intros Hs He Hb Hz. unfold retype. destruct (Z.eqb_spec size 0) as [->|Hn].
  { assert (H : forall p, 0 <= cuts p (entries s)) by (intros; apply zlen_nonneg).
    split; [done|done|done|pose proof (H base); specialize (H (base + 0)); lia| |done|done].
    intros x k'. setoid_rewrite retyped_empty. naive_solver. }
  destruct (checked_add u64_max base size) as [end_|] eqn:Hend; [|apply checked_add_None in Hend; auto].
  apply checked_add_Some in Hend as [-> Hmax]. rewrite retype_loop_pieces.
  pose proof (append_all_spec MAX_E820_ENTRIES (entries s ≫= pieces base (base + size) kind ram_only) (no_entries, 0) []
    holds_nil (list.Forall_nil_2 _) (pieces_all_ok _ _ _ _ _ Hb Hmax He)) as H.
  pose proof (pieces_length base (base + size) kind ram_only (entries s) ltac:(lia) He).
  destruct (fold_each _ _ _) as [[out n]|e|]; [|rewrite zlen_nil in H; split; [done|right; lia]|done].
  destruct H as (l' & Hh & [E1 E2 E3 E4 E5]). destruct (holds_entries out n l' (es_total_ram s) Hh) as [He' Hs'].
  split; [done|by rewrite He'|done| | | |]; rewrite ?He'.
  - rewrite zlen_nil in E3. lia.
  - intros x k'. rewrite E2, pieces_all_typed by (lia || done). pose proof (typed_nil x k'). tauto.
  - intros lo hi Hlo Hhi Hc. apply E4. cbn [app]. by apply pieces_all_chain; [lia|..].
  - intros _. by apply E5.
Qed.

(** ** The map of a PC *)

Definition pc_map (low touud tolud : Z) : list E820Entry :=
  [entry_new 0x0 0x1000 Reserved; entry_new 0x1000 0x9e000 Ram; entry_new 0x9f000 0x1000 Reserved;
   entry_new 0xa0000 0x50000 Reserved; entry_new 0xf0000 0x10000 Reserved]
  ++ (if 0x100000 <? low then [entry_new 0x100000 (low - 0x100000) Ram] else [])
  ++ (if Z.max low 0x100000 <? tolud then [entry_new (Z.max low 0x100000) (tolud - Z.max low 0x100000) Reserved] else [])
  ++ (if 0x100000000 <? touud then [entry_new 0x100000000 (touud - 0x100000000) Ram] else []).

Lemma put_fills cap s l e : fills cap s l -> zlen l < cap ->
  exists s', put e s = (s', Ok tt) /\ fills cap s' (l ++ [e]).
Proof.
  destruct s as [out n]. intros Hf Hl. pose proof Hf as (Hc & Hn & _). cbn [fst snd] in Hc, Hn. subst n. unfold put.
  rewrite Hc. test_true (zlen l <? cap). eexists. split; [done|]. by apply fills_push.
Qed.

Lemma put_if_fills cap s l (b : bool) e : fills cap s l -> zlen l < cap ->
  exists s', put_if b e s = (s', Ok tt) /\ fills cap s' (l ++ if b then [e] else []).
Proof.
  intros Hf Hl. destruct b; cbn [put_if]; [by apply put_fills|]. exists s. rewrite app_nil_r. by split.
Qed.

Lemma sbind_run {S E A B} (m : sres S E A) (k : A -> sres S E B) s s' a :
  m s = (s', Ok a) -> sbind m k s = k a s'.
Proof. intros H. unfold sbind. by rewrite H. Qed.

Lemma optional_entry (b c : bool) (e f : E820Entry) :
  b = c -> (c = true -> e = f) -> (if b then [e] else []) = (if c then [f] else []).
Proof. intros -> H. destruct c; [by rewrite H|done]. Qed.

Lemma build_fills l low touud tolud : 8 <= zlen l -> 0 <= low -> 0 <= tolud -> 0 <= touud ->
  exists l', build_pc_compatible_e820 l low touud tolud = (l', Ok (zlen (pc_map low touud tolud))) /\
    fills (zlen l) (l', zlen (pc_map low touud tolud)) (pc_map low touud tolud).
Proof.
  intros H8 Hlow Htolud Htouud. unfold build_pc_compatible_e820. test_false (zlen l <? 8).
  assert (Hf : fills (zlen l) (l, 0) []) by done.
  do 5 (match type of Hf with fills _ ?s ?k =>
    match goal with |- context [sbind (put ?e) ?c s] =>
      destruct (put_fills _ _ _ e Hf) as ([? ?] & Hput & Hf'); [unfold zlen in *; cbn in *; lia|];
      rewrite (sbind_run _ c _ _ _ Hput); clear Hf Hput; rename Hf' into Hf
    end end).
  do 2 (match type of Hf with fills _ ?s ?k =>
    match goal with |- context [sbind (put_if ?b ?e) ?c s] =>
      pose proof (put_if_fills _ _ _ b e Hf) as Hput; specialize (Hput ltac:(unfold zlen in *; repeat case_match; cbn in *; lia));
      destruct Hput as ([? ?] & Hput & Hf');
      rewrite (sbind_run _ c _ _ _ Hput); clear Hf Hput; rename Hf' into Hf
    end end).
  match type of Hf with fills _ ?s ?k =>
    match goal with |- context [put_if ?b ?e s] =>
      pose proof (put_if_fills _ _ _ b e Hf) as Hput; specialize (Hput ltac:(unfold zlen in *; repeat case_match; cbn in *; lia));
      destruct Hput as ([l' n] & Hput & Hf'); rewrite Hput
    end end.
  cbn [fst snd rbind]. clear Hf Hput.
  match type of Hf' with fills _ _ ?k => assert (k = pc_map low touud tolud) as Heq end.
  { unfold pc_map, saturating_sub. cbn [app]. rewrite <- app_assoc. do 5 (apply (f_equal2 cons); [done|]).
    apply f_equal2; [|apply f_equal2]; apply optional_entry;
      (apply eq_true_iff_eq; rewrite negb_true_iff, Z.eqb_neq, Z.ltb_lt; lia) || (intros; f_equal; lia). }
  rewrite Heq in Hf'. pose proof Hf' as (_ & Hn & _). cbn [snd] in Hn. subst n. eauto.
Qed.

Lemma pc_map_chain low touud tolud :
  0 <= low <= u32_max -> 0 <= touud <= u64_max -> 0 <= tolud <= u32_max ->
  chain 0 (pc_map low touud tolud) (Z.max 0x100000000 touud).
Proof.
  unfold u32_max, u64_max. intros. unfold pc_map, entry_new. cbn [app chain ee_addr ee_size].
  repeat case_match; bool_hyp; cbn [app chain ee_addr ee_size]; lia.
Qed.

(** The RAM a PC map offers. *)
Lemma pc_map_ram low touud tolud x : 0 <= touud ->
  typed (pc_map low touud tolud) x (kind_code Ram) <->
  0x1000 <= x < 0x9f000 \/ 0x100000 <= x < low \/ 0x100000000 <= x < touud.
Proof.
  intros Ht. unfold pc_map. rewrite !typed_app, !typed_cons, !typed_if. pose proof (typed_nil x (kind_code Ram)).
  unfold covers, entry_new. cbn [ee_addr ee_size ee_kind kind_code]. rewrite !Z.ltb_lt.
  split; [intros HH|intros HH]; intuition (try lia; try discriminate).
Qed.

(** ** Reservations in a row *)

(** The map is proper up to [hi], has at most [n] entries and offers as RAM what
    [R] says. *)
Record offers (s : E820State) (hi n : Z) (R : Z -> Prop) : Prop := {
  of_state : state_ok s;
  of_chain : chain 0 (entries s) hi;
  of_length : zlen (entries s) <= n;
  of_ram : forall x, typed (entries s) x (kind_code Ram) <-> R x
}.

Lemma offers_iff s hi n n' R R' : offers s hi n R -> n <= n' -> (forall x, R x <-> R' x) -> offers s hi n' R'.
Proof. intros [O1 O2 O3 O4] Hn HR. split; [done|done|lia|]. intros x. by rewrite O4. Qed.

Lemma reserve_step s hi n R base size :
  offers s hi n R -> hi <= u64_max -> n + 2 <= MAX_E820_ENTRIES ->
  0 <= base -> 0 <= size -> base + size <= u64_max ->
  exists s', reserve_range base size s = (s', Ok tt) /\ es_total_ram s' = es_total_ram s /\
    offers s' hi (n + 2) (fun x => R x /\ ~ base <= x < base + size).
Proof.
  intros [O1 O2 O3 O4] Hhi Hn Hb Hz Hmax. unfold reserve_range, reserve_range_as.
  pose proof (chain_ok 0 (entries s) hi ltac:(lia) Hhi O2) as He.
  pose proof (retype_spec s base size Reserved true O1 He Hb Hz) as H.
  pose proof (cuts_chain base _ _ _ O2). pose proof (cuts_chain (base + size) _ _ _ O2).
  destruct (retype base size Reserved true s) as [s' [[]|e|]]; [|destruct H; lia|done].
  exists s'. split; [done|]. split; [apply (rd_total _ _ _ _ _ _ H)|]. split.
  - apply (rd_state _ _ _ _ _ _ H).
  - apply (rd_chain _ _ _ _ _ _ H); [lia|done|done].
  - pose proof (rd_length _ _ _ _ _ _ H). lia.
  - intros x. rewrite (rd_typed _ _ _ _ _ _ H). rewrite <- O4. unfold retyped. split.
    + intros (k & Hk & Heq). destruct ((base <=? x) && (x <? base + size)) eqn:Hx; cbn [andb negb orb] in Heq.
      * destruct (Z.eqb_spec k (kind_code Ram)); [discriminate Heq|congruence].
      * subst k. split; [done|]. bool_cases; lia.
    + intros [Hk Hx]. exists (kind_code Ram). split; [done|].
      by test_false ((base <=? x) && (x <? base + size) && (negb true || (kind_code Ram =? kind_code Ram)))%bool.
Qed.

(** C23: A range cut out of the map keeps its meaning everywhere else.  When
    [retype] succeeds, an address has a kind afterwards exactly when it had one
    before, and the same one, but for the addresses of the range (of its RAM
    only, for a reservation), which have the new kind; entries that ascended
    without overlapping still do, so that no address has two kinds; and the map is
    rebuilt canonical, without empty entries and without two neighbours that one
    entry could replace (for an empty range the map is left as it is).  It fails
    only when the range leaves the 64-bit addresses or the entries, with one more
    for each end of the range that falls inside an entry, exceed the array; the
    map is then unchanged.  It never panics. *)
Theorem retype_means s base size kind ram_only s' r :
  state_ok s -> Forall entry_ok (entries s) -> 0 <= base -> 0 <= size ->
  retype base size kind ram_only s = (s', r) ->
  match r with
  | Ok _ =>
      state_ok s' /\ Forall entry_ok (entries s') /\
      (forall x k', typed (entries s') x k' <-> exists k, typed (entries s) x k /\
        k' = if (base <=? x) && (x <? base + size) && (negb ram_only || (k =? kind_code Ram)) then kind_code kind else k) /\
      (forall hi, hi <= u64_max -> chain 0 (entries s) hi -> chain 0 (entries s') hi) /\
      (if size =? 0 then s' = s else canonical (entries s'))
  | Err _ => s' = s /\ (u64_max < base + size \/
      MAX_E820_ENTRIES < zlen (entries s) + cuts base (entries s) + cuts (base + size) (entries s))
  | Panic => False
  end.
Proof.
  intros Hs He Hb Hz H. pose proof (retype_spec s base size kind ram_only Hs He Hb Hz) as Hr. rewrite H in Hr.
  destruct r; [|exact Hr|done]. destruct Hr as [R1 R2 _ _ R4 R5 R6].
  split_and!; [done|done|exact R4|intros hi ?; by apply R5|].
  destruct (Z.eqb_spec size 0) as [->|Hn]; [|by apply R6]. unfold retype in H. by injection H.
Qed.

Definition map_demo : E820State :=
  {| es_entries := entry_new 0 0x100000 Ram :: entry_new 0x100000 0x1000 Nvs :: replicate 126 entry_zeroed;
     es_count := 2; es_total_ram := 0x100000 |}.

Example retype_demo :
  map (fun e => (ee_addr e, ee_size e, ee_kind e)) (entries (fst (reserve_range 0x80000 0x80800 map_demo))) =
  [(0, 0x80000, 1); (0x80000, 0x80000, 2); (0x100000, 0x1000, 4)].
Proof. vm_compute. reflexivity. Qed.

Lemma map_demo_ok : state_ok map_demo /\ Forall entry_ok (entries map_demo) /\ chain 0 (entries map_demo) u64_max.
Proof.
  split_and!; [by vm_compute| |by vm_compute]. apply (chain_ok 0 _ u64_max); by vm_compute.
Qed.

Lemma retype_means_witness : snd (retype 0x80000 0x80800 Reserved true map_demo) = Ok tt /\
  typed (entries (fst (retype 0x80000 0x80800 Reserved true map_demo))) 0x90000 (kind_code Reserved).
Proof.
  split; [vm_compute; reflexivity|]. destruct map_demo_ok as (H1 & H2 & _).
  pose proof (retype_means map_demo 0x80000 0x80800 Reserved true
    (fst (retype 0x80000 0x80800 Reserved true map_demo)) (Ok tt) H1 H2
    ltac:(lia) ltac:(lia) ltac:(vm_compute; reflexivity)) as (_ & _ & H & _).
  apply H. exists (kind_code Ram). split; [|reflexivity]. unfold typed.
  exists (entry_new 0 0x100000 Ram). split; [left|]. by vm_compute.
Defined.

(** A reservation in a proper map does not fail while two entries are free:
    the range's two ends cut at most one entry each.  Afterwards no address of
    the range is offered as RAM. *)
Theorem reserve_range_succeeds s base size kind :
  state_ok s -> 0 <= base -> 0 <= size -> base + size <= u64_max ->
  chain 0 (entries s) u64_max -> zlen (entries s) + 2 <= MAX_E820_ENTRIES ->
  snd (reserve_range_as base size kind s) = Ok tt /\
  (kind <> Ram -> forall x, base <= x < base + size ->
    ~ typed (entries (fst (reserve_range_as base size kind s))) x (kind_code Ram)).
Proof.
  intros Hs Hb Hz Hmax Hc Hroom. unfold reserve_range_as.
  pose proof (chain_ok 0 (entries s) u64_max ltac:(lia) ltac:(lia) Hc) as He.
  pose proof (retype_spec s base size kind true Hs He Hb Hz) as H.
  destruct (retype base size kind true s) as [s' [[]|e|]]; cbn [fst snd]; [|exfalso|done].
  - split; [done|]. intros Hk x Hx (k & _ & Heq)%(rd_typed _ _ _ _ _ _ H). unfold retyped in Heq.
    replace (base <=? x) with true in Heq by (symmetry; apply Z.leb_le; lia).
    replace (x <? base + size) with true in Heq by (symmetry; apply Z.ltb_lt; lia).
    cbn [andb negb orb] in Heq. destruct (Z.eqb_spec k (kind_code Ram)); [by apply kind_code_inj in Heq|congruence].
  - destruct H as [_ [H|H]]; [lia|]. pose proof (cuts_chain base _ _ _ Hc). pose proof (cuts_chain (base + size) _ _ _ Hc). lia.
Qed.

Lemma reserve_range_succeeds_witness : snd (reserve_range_as 0x80000 0x80800 Reserved map_demo) = Ok tt.
Proof.
  destruct map_demo_ok as (H1 & _ & H3).
  apply (reserve_range_succeeds map_demo 0x80000 0x80800 Reserved H1); [lia|lia|unfold u64_max; lia|exact H3|].
  vm_compute. discriminate.
Defined.
