(* ===== verification/AmdMemory.v ===== *)
(** * AmdMemory: the memory map of an AMD client SoC
    ([crates/platform-amd/src/noncar/memory.rs])

    [e820] builds the map for the operating system from the PSP's record and the
    top-of-memory register: the map of a PC from which the holes, the SMM region
    and the firmware's own memory are reserved. *)

From S2P Require Import Prelude.
From S2P Require Import Bytes.
From S2P Require Import Services.
From S2P Require Import UnstableSort.
From S2P Require Import SysMap.
From S2P Require Import E820.
From Stdlib Require Import ZArith Lia.
From stdpp Require Import base numbers list option.

#[local] Open Scope Z_scope.

(** [noncar::layout::Region]; its [end] is an unchecked sum. *)
Record FwRegion := { fr_base : Z; fr_size : Z }.
Definition fr_end {E} (r : FwRegion) : res E Z := add_or_panic u64_max (fr_base r) (fr_size r).

Inductive AmdError := Boundary | Capacity.

Definition AP_BOOTSTRAP_ADDRESS : Z := Z.shiftl 0x08 12.
Definition IOMMU_BASE : Z := 0xfd00000000.
Definition IOMMU_SIZE : Z := Z.shiftl 4 30.

Definition amd_low_top (apob : MemoryMap) (top_mem : Z) : Z := Z.min (low_top_above apob (Z.shiftl 1 30)) top_mem.

(** [tseg_size - 1] panics for 0. *)
Definition tseg_base {E} (apob : MemoryMap) (top_mem tseg_size : Z) : res E Z :=
  let? mask := or_panic (checked_sub tseg_size 1) in
  Ok (Z.land (saturating_sub (amd_low_top apob top_mem) tseg_size) (not_mask 64 mask)).

(** [firmware.iter().any(|region| tseg < region.end())] *)
Fixpoint any_above {E} (tseg : Z) (firmware : list FwRegion) : res E bool :=
  match firmware with
  | [] => Ok false
  | r :: firmware => let? e := fr_end r in if tseg <? e then Ok true else any_above tseg firmware
  end.

Definition capacity {A} (m : sres E820State ServiceError A) : sres E820State AmdError A := fun s =>
  let (s, r) := m s in (s, map_err (fun _ => Capacity) r).

Definition reserve (base size : Z) : sres E820State AmdError unit := capacity (reserve_range base size).

(** [build_pc_compatible_e820(map.entries_mut(), ..)] *)
Definition build (low touud tolud : Z) : sres E820State ServiceError Z := fun s =>
  let (l, r) := build_pc_compatible_e820 (es_entries s) low touud tolud in (with_entries s l, r).

Definition reserve_iommu_range (dram_top : Z) : sres E820State AmdError unit := fun s =>
  if IOMMU_BASE <? dram_top then reserve IOMMU_BASE IOMMU_SIZE s else
  let count := es_count s in
  if count <? MAX_E820_ENTRIES then
    capacity (set_detected (count + 1) 0)
      (with_entries s (<[Z.to_nat count := entry_new IOMMU_BASE IOMMU_SIZE Reserved]> (es_entries s)))
  else (s, Err Capacity).

(** The body after the boundary check, on the new map. *)
Definition e820_body (apob : MemoryMap) (low tseg : Z) (firmware : list FwRegion) : sres E820State AmdError unit :=
  let! count := capacity (build (low mod 2 ^ 32) (mm_top apob) (low mod 2 ^ 32)) in
  let! _ := capacity (set_detected count 0) in
  let! _ := sfor_each (mm_holes apob) (fun hole => reserve (h_base hole) (h_size hole)) in
  let! _ := reserve tseg (low - tseg) in
  let! _ := sfor_each firmware (fun region => reserve (fr_base region) (fr_size region)) in
  let! _ := reserve AP_BOOTSTRAP_ADDRESS 0x1000 in
  let! _ := reserve_iommu_range (mm_top apob) in
  fun s => sbind (slift (sum_ram (entries s))) (fun total => capacity (set_detected (es_count s) total)) s.

Definition e820 (apob : MemoryMap) (top_mem tseg_size : Z) (firmware : list FwRegion) : res AmdError E820State :=
  let low := amd_low_top apob top_mem in
  let? tseg := tseg_base apob top_mem tseg_size in
  let? above := if 2 ^ 32 <? low then Ok true else any_above tseg firmware in
  fail_if above with Boundary;
  let (s, r) := e820_body apob low tseg firmware e820_new in
  let? _ := r in Ok s.

(** ** The steps on a map that offers *)

Lemma reserve_offers s hi n R base size :
  offers s hi n R -> hi <= u64_max -> n + 2 <= MAX_E820_ENTRIES ->
  0 <= base -> 0 <= size -> base + size <= u64_max ->
  exists s', reserve base size s = (s', Ok tt) /\ offers s' hi (n + 2) (fun x => R x /\ ~ base <= x < base + size).
Proof.
  intros Ho Hhi Hn Hb Hz Hm. destruct (reserve_step _ _ _ _ base size Ho Hhi Hn Hb Hz Hm) as (s' & Hr & _ & Ho').
  exists s'. unfold reserve, capacity. by rewrite Hr.
Qed.

Definition range_ok (r : Z * Z) : Prop := 0 <= r.1 /\ 0 <= r.2 /\ r.1 + r.2 <= u64_max.

Lemma reserve_all_offers {A} (range : A -> Z * Z) (l : list A) : forall s hi n R,
  offers s hi n R -> hi <= u64_max -> n + 2 * zlen l <= MAX_E820_ENTRIES -> Forall (fun a => range_ok (range a)) l ->
  exists s', sfor_each l (fun a => reserve (range a).1 (range a).2) s = (s', Ok tt) /\
    offers s' hi (n + 2 * zlen l) (fun x => R x /\ ~ exists a, a ∈ l /\ (range a).1 <= x < (range a).1 + (range a).2).
Proof.
  induction l as [|a l IH]; intros s hi n R Ho Hhi Hn Hl; cbn [sfor_each].
  - exists s. split; [done|]. eapply offers_iff; [done|rewrite @zlen_nil; lia|]. intros x. split; [|by intros [? _]].
    intros ?. split; [done|]. by intros (a & ?%elem_of_nil & _).
  - rewrite zlen_cons in *. pose proof (zlen_nonneg l). apply list.Forall_cons in Hl as [(? & ? & ?) Hl].
    destruct (reserve_offers _ _ _ _ (range a).1 (range a).2 Ho Hhi) as (s1 & Hr & Ho1); [lia|done..|].
    rewrite (sbind_run _ _ _ _ _ Hr).
    destruct (IH s1 hi (n + 2) _ Ho1 Hhi ltac:(lia) Hl) as (s2 & Hr2 & Ho2). exists s2. split; [exact Hr2|].
    eapply offers_iff; [exact Ho2|lia|]. intros x. cbn. setoid_rewrite elem_of_cons. naive_solver.
Qed.

(** ** The result *)

Record apob_ok (m : MemoryMap) : Prop := {
  ao_top : 0 < mm_top m <= u64_max;
  ao_holes : Forall (fun h => range_ok (h_base h, h_size h)) (mm_holes m);
  ao_few : zlen (mm_holes m) <= MAX_HOLES
}.

(** What the PSP's record becomes satisfies it. *)
Lemma sorted_apob_ok `{UnstableSort} top raw m :
  0 <= top <= u64_max -> Forall hole_ok raw -> sorted top raw = Ok m -> apob_ok m.
Proof.
  intros Ht Hr Hs. pose proof (sorted_Ok _ _ _ Hs) as (Htop & Hn & Hp & Hw). split; [lia| |].
  - rewrite Hp. apply list.Forall_forall. intros h Hin. rewrite list.Forall_forall in Hr, Hw.
    destruct (Hr h Hin) as [? ?]. specialize (Hw h Hin). unfold range_ok. cbn. lia.
  - unfold zlen. rewrite Hp. unfold sorted in Hs. rust_step Hs. rust_step Hs. clear -Ha.
    assert (H : forall acc a, zlen acc <= MAX_HOLES -> fold_each raw acc sorted_hole = Ok a ->
      a = acc ++ raw /\ zlen a <= MAX_HOLES); [|by apply (H [] a) in Ha as [-> ?]].
    clear Ha a. induction raw as [|h raw IH]; intros acc a Hacc H; cbn [fold_each] in H.
    { injection H as <-. by rewrite app_nil_r. }
    rust_step H. unfold sorted_hole in Ha. rust_step Ha. apply push_Ok in Ha as [Hlt ->]. apply IH in H as [-> ?].
    + by rewrite <- app_assoc in *.
    + rewrite zlen_app, zlen_cons, @zlen_nil. lia.
Qed.

Lemma low_bounds apob top_mem : apob_ok apob -> 0 <= top_mem -> 0 <= amd_low_top apob top_mem <= 2 ^ 32.
Proof.
  intros [Ht Hh _] ?. unfold amd_low_top. pose proof (low_top_above_le apob (Z.shiftl 1 30)).
  assert (0 <= low_top_above apob (Z.shiftl 1 30)); [|lia]. unfold low_top_above.
  assert (H1 : 0 <= Z.min (mm_top apob) (2 ^ 32)) by lia. revert H1. generalize (Z.min (mm_top apob) (2 ^ 32)) as t.
  induction Hh as [|h l [Hb _] _ IH]; intros t Ht0; cbn [fold_left]; [done|]. apply IH. cbn in Hb.
  unfold lower_top. case_match; lia.
Qed.

Lemma tseg_base_ok {E} apob top_mem k : apob_ok apob -> 0 <= top_mem -> 0 <= k < 64 ->
  let low := amd_low_top apob top_mem in
  @tseg_base E apob top_mem (2 ^ k) = Ok (Z.max 0 (low - 2 ^ k) / 2 ^ k * 2 ^ k) /\
  0 <= Z.max 0 (low - 2 ^ k) / 2 ^ k * 2 ^ k <= low.
Proof.
  intros Ho Htm Hk low. pose proof (low_bounds _ _ Ho Htm) as Hl. fold low in Hl.
  assert (0 < 2 ^ k) by lia. unfold tseg_base. rewrite checked_sub_ok by lia. cbn [or_panic rbind]. fold low.
  unfold saturating_sub. rewrite land_not_mask by lia. split; [done|].
  pose proof (Z.mul_div_le (Z.max 0 (low - 2 ^ k)) (2 ^ k)). pose proof (Z.div_pos (Z.max 0 (low - 2 ^ k)) (2 ^ k)). lia.
Qed.

Lemma any_above_ok {E} tseg firmware : Forall (fun r => range_ok (fr_base r, fr_size r)) firmware ->
  exists b, @any_above E tseg firmware = Ok b /\
    (b = true <-> exists r, r ∈ firmware /\ tseg < fr_base r + fr_size r).
Proof.
  induction 1 as [|r l (H1 & H2 & H3) Hl IH]; cbn [any_above].
  - exists false. split; [done|]. split; [done|]. by intros (r & ?%elem_of_nil & _).
  - unfold fr_end, add_or_panic. cbn in H1, H2, H3. rewrite checked_add_ok by lia. cbn [or_panic rbind].
    setoid_rewrite elem_of_cons. destruct (Z.ltb_spec tseg (fr_base r + fr_size r)).
    + exists true. split; [done|]. naive_solver.
    + destruct IH as (b & -> & Hb). exists b. split; [done|]. rewrite Hb. split; [naive_solver|].
      intros (r' & [->|?] & ?); [lia|eauto].
Qed.

Lemma build_offers low top : 0 <= low <= u32_max -> 0 < top <= u64_max ->
  exists s n, capacity (build low top low) e820_new = (s, Ok n) /\
  exists s', capacity (set_detected n 0) s = (s', Ok tt) /\
  offers s' (Z.max 0x100000000 top) 8
    (fun x => 0x1000 <= x < 0x9f000 \/ 0x100000 <= x < low \/ 0x100000000 <= x < top).
Proof.
  intros Hl Ht. destruct (build_fills (es_entries e820_new) low top low) as (l & Hb & Hf); [done|lia..|].
  assert (Hlen : zlen (pc_map low top low) <= 8).
  { unfold pc_map. rewrite !zlen_app. repeat case_match; by vm_compute. }
  exists (with_entries e820_new l), (zlen (pc_map low top low)). split.
  { unfold capacity, build. by rewrite Hb. }
  destruct (holds_entries l _ _ 0 Hf) as [He Hs].
  exists {| es_entries := l; es_count := zlen (pc_map low top low); es_total_ram := 0 |}. split.
  { unfold capacity, set_detected, MAX_E820_ENTRIES. by test_false (128 <? zlen (pc_map low top low)). }
  split; [done|rewrite He; by apply pc_map_chain; lia|by rewrite He|]. intros x. rewrite He. apply pc_map_ram. lia.
Qed.

Lemma iommu_offers s top n R : 0 < top <= u64_max -> offers s (Z.max 0x100000000 top) n R -> n + 2 <= MAX_E820_ENTRIES ->
  exists s' hi, reserve_iommu_range top s = (s', Ok tt) /\ hi <= u64_max /\
    offers s' hi (n + 2) (fun x => R x /\ ~ IOMMU_BASE <= x < IOMMU_BASE + IOMMU_SIZE).
Proof.
  intros Ht Ho Hn. unfold reserve_iommu_range. destruct (Z.ltb_spec IOMMU_BASE top) as [Hlt|Hge].
  { destruct (reserve_offers _ _ _ _ IOMMU_BASE IOMMU_SIZE Ho) as (s' & ? & ?);
      [unfold u64_max in *; lia|done|by vm_compute..|].
    exists s', (Z.max 0x100000000 top). split; [done|]. split; [unfold u64_max in *; lia|done]. }
  destruct Ho as [O1 O2 O3 O4]. destruct s as [l c t]. pose proof O1 as (_ & Hc & _). cbn [fst snd es_entries es_count] in *.
  set (s := {| es_entries := l; es_count := c; es_total_ram := t |}) in *.
  pose proof (chain_le _ _ _ O2). rewrite Hc. pose proof (zlen_nonneg (entries s)).
  test_true (zlen (entries s) <? MAX_E820_ENTRIES).
  change (holds (l, c) (entries s)) in O1. rewrite Hc in O1. destruct (holds_entries _ _ _ 0 (fills_push _ _ _ (entry_new IOMMU_BASE IOMMU_SIZE Reserved) O1 ltac:(lia))) as [He Hs].
  eexists _, (IOMMU_BASE + IOMMU_SIZE). split.
  { unfold capacity, set_detected. test_false (MAX_E820_ENTRIES <? zlen (entries s) + 1). reflexivity. }
  split; [by vm_compute|]. cbn [es_entries with_entries]. split.
  - done.
  - rewrite He. apply chain_app. exists (Z.max 0x100000000 top). split; [done|].
    change IOMMU_SIZE with 0x100000000. unfold entry_new, IOMMU_BASE in *. cbn [chain ee_addr ee_size]. lia.
  - rewrite He, zlen_app, zlen_cons, @zlen_nil. lia.
  - intros x. rewrite He, typed_app, typed_one, O4. split; [|tauto]. intros [Hr|[_ Hk]]; [|done]. split; [done|].
    apply O4, (chain_typed 0 _ (Z.max 0x100000000 top)) in Hr; [unfold IOMMU_BASE in *; lia|lia|unfold u64_max in *; lia|done].
Qed.

(** What the map should offer: the DRAM below the tops, [low] below 4 GiB and the
    top of the PSP's record above it, without the page at 0, the legacy area and
    what is reserved. *)
Definition amd_ram (apob : MemoryMap) (low tseg : Z) (firmware : list FwRegion) (x : Z) : Prop :=
  (0x1000 <= x < 0x9f000 \/ 0x100000 <= x < low \/ 0x100000000 <= x < mm_top apob) /\
  (~ exists h, h ∈ mm_holes apob /\ h_base h <= x < h_base h + h_size h) /\
  ~ tseg <= x < low /\
  (~ exists r, r ∈ firmware /\ fr_base r <= x < fr_base r + fr_size r) /\
  ~ AP_BOOTSTRAP_ADDRESS <= x < AP_BOOTSTRAP_ADDRESS + 0x1000 /\
  ~ IOMMU_BASE <= x < IOMMU_BASE + IOMMU_SIZE.

(** What the conversion [low as u32] loses: with 4 GiB of low memory, all of it
    from 1 MiB up. *)
Definition lost_by_cast (low x : Z) : Prop := low = 2 ^ 32 /\ 0x100000 <= x < 2 ^ 32.

Lemma cast_low low x : 0 <= low <= 2 ^ 32 ->
  0x100000 <= x < low mod 2 ^ 32 <-> 0x100000 <= x < low /\ ~ lost_by_cast low x.
Proof.
  intros Hl. unfold lost_by_cast. destruct (decide (low = 2 ^ 32)) as [->|].
  - rewrite Z.mod_same by lia. lia.
  - rewrite Z.mod_small by lia. lia.
Qed.

Lemma e820_body_ok apob low tseg firmware :
  apob_ok apob -> 0 <= tseg <= low -> low <= 2 ^ 32 ->
  Forall (fun r => range_ok (fr_base r, fr_size r)) firmware -> zlen firmware <= 39 ->
  exists s, e820_body apob low tseg firmware e820_new = (s, Ok tt) /\
    state_ok s /\ chain 0 (entries s) u64_max /\ es_total_ram s = ram_bytes (entries s) /\
    forall x, typed (entries s) x (kind_code Ram) <-> amd_ram apob low tseg firmware x /\ ~ lost_by_cast low x.
Proof.
  intros [Htop Hholes Hfew] Ht Hlow Hfw Hfwn. unfold e820_body. unfold MAX_HOLES in Hfew.
  pose proof (Z.mod_pos_bound low (2 ^ 32) ltac:(lia)).
  destruct (build_offers (low mod 2 ^ 32) (mm_top apob)) as (s0 & n & Hb & s1 & Hd & O1); [unfold u32_max; lia|done|].
  rewrite (sbind_run _ _ _ _ _ Hb), (sbind_run _ _ _ _ _ Hd).
  assert (Hhi : Z.max 0x100000000 (mm_top apob) <= u64_max) by (unfold u64_max in *; lia).
  pose proof (zlen_nonneg (mm_holes apob)). pose proof (zlen_nonneg firmware).
  destruct (reserve_all_offers (fun h => (h_base h, h_size h)) (mm_holes apob) _ _ _ _ O1 Hhi)
    as (s2 & Hr2 & O2); [unfold MAX_E820_ENTRIES; lia|done|]. cbn [fst snd] in Hr2, O2. rewrite (sbind_run _ _ _ _ _ Hr2).
  destruct (reserve_offers _ _ _ _ tseg (low - tseg) O2 Hhi) as (s3 & Hr3 & O3);
    [unfold MAX_E820_ENTRIES; lia|lia|lia|unfold u64_max; lia|]. rewrite (sbind_run _ _ _ _ _ Hr3).
  destruct (reserve_all_offers (fun r => (fr_base r, fr_size r)) firmware _ _ _ _ O3 Hhi)
    as (s4 & Hr4 & O4); [unfold MAX_E820_ENTRIES; lia|done|]. cbn [fst snd] in Hr4, O4. rewrite (sbind_run _ _ _ _ _ Hr4).
  destruct (reserve_offers _ _ _ _ AP_BOOTSTRAP_ADDRESS 0x1000 O4 Hhi) as (s5 & Hr5 & O5);
    [unfold MAX_E820_ENTRIES; lia|by vm_compute..|]. rewrite (sbind_run _ _ _ _ _ Hr5).
  destruct (iommu_offers _ _ _ _ Htop O5) as (s6 & hi & Hr6 & Hhi6 & O6); [unfold MAX_E820_ENTRIES; lia|].
  rewrite (sbind_run _ _ _ _ _ Hr6). destruct O6 as [P1 P2 P3 P4].
  rewrite (sum_ram_ok _ 0 hi) by (done || lia). cbn [sbind slift].
  eexists {| es_entries := es_entries s6; es_count := es_count s6; es_total_ram := ram_bytes (entries s6) |}. split.
  { unfold sbind, slift, capacity, set_detected. pose proof P1 as (_ & Hc & _). cbn [snd] in Hc. rewrite Hc.
    assert (zlen (entries s6) <= 128) as Hle by lia. unfold MAX_E820_ENTRIES. by test_false (128 <? zlen (entries s6)). }
  split; [exact P1|]. split; [by eapply chain_weaken; [exact P2|lia|]|]. split; [done|].
  intros x. change (entries _) with (entries s6). rewrite P4. unfold amd_ram.
  replace (tseg + (low - tseg)) with low by lia. cbn [fst snd]. rewrite cast_low by lia.
  assert (~ 0x100000 <= x < 2 ^ 32 -> ~ lost_by_cast low x) by (unfold lost_by_cast; tauto). 
  assert (0x1000 <= x < 0x9f000 \/ 0x100000000 <= x -> ~ lost_by_cast low x) by (unfold lost_by_cast; lia). naive_solver.
Qed.

(** C13: Nothing the firmware needs is offered to the operating system.  For every
    PSP record, register value and size of the SMM region, [e820] either refuses,
    and then because some firmware memory reaches above the base of the SMM
    region, or returns a map whose entries ascend without overlapping, whose
    total is the sum of its RAM entries.  For a low top below 4 GiB the RAM of that
    map is exactly the memory below the tops of DRAM that lies outside the legacy
    area, in no hole, outside the SMM region, the firmware's regions, the
    processors' start-up page and the IOMMU's range.  A low top of 4 GiB, which
    [low_top_above] can return, becomes 0 in the conversion [low as u32]: then,
    and only then, the RAM between 1 MiB and 4 GiB is missing from the map
    ([lost_by_cast]).  It does not run out of entries and no sum overflows. *)
Theorem amd_e820_means apob top_mem k firmware :
  apob_ok apob -> 0 <= top_mem -> 0 <= k < 64 ->
  Forall (fun r => range_ok (fr_base r, fr_size r)) firmware -> zlen firmware <= 39 ->
  let low := amd_low_top apob top_mem in
  let tseg := Z.max 0 (low - 2 ^ k) / 2 ^ k * 2 ^ k in
  match e820 apob top_mem (2 ^ k) firmware with
  | Ok s =>
      state_ok s /\ chain 0 (entries s) u64_max /\ es_total_ram s = ram_bytes (entries s) /\
      (forall r, r ∈ firmware -> fr_base r + fr_size r <= tseg) /\
      (low < 2 ^ 32 -> forall x, typed (entries s) x (kind_code Ram) <-> amd_ram apob low tseg firmware x) /\
      (low = 2 ^ 32 -> forall x, typed (entries s) x (kind_code Ram) <->
                                amd_ram apob low tseg firmware x /\ ~ 0x100000 <= x < 2 ^ 32)
  | Err e => e = Boundary /\ exists r, r ∈ firmware /\ tseg < fr_base r + fr_size r
  | Panic => False
  end.
Proof.
  intros Ho Htm Hk Hfw Hn low tseg. destruct (@tseg_base_ok AmdError apob top_mem k Ho Htm Hk) as [Ht Hb].
  pose proof (low_bounds _ _ Ho Htm) as Hl. fold low in Ht, Hb, Hl. fold tseg in Ht, Hb.
  unfold e820. fold low. rewrite Ht. cbn [rbind]. test_false (2 ^ 32 <? low).
  destruct (@any_above_ok AmdError tseg firmware Hfw) as (b & Ha & Hab). rewrite Ha. cbn [rbind].
  destruct b; [split; [done|by apply Hab]|].
  destruct (e820_body_ok apob low tseg firmware) as (s & Hs & ? & ? & ? & Hram); [done|lia|lia|done|done|].
  rewrite Hs. cbn [rbind]. split_and!; [done..| | |].
  - intros r Hr. destruct (Z.le_gt_cases (fr_base r + fr_size r) tseg); [done|].
    assert (false = true) by (apply Hab; eauto). done.
  - intros Hlow x. rewrite Hram. unfold lost_by_cast. intuition lia.
  - intros Hlow x. rewrite Hram. unfold lost_by_cast. tauto.
Qed.

Definition demo_apob : MemoryMap :=
  {| mm_top := 2 ^ 34; mm_holes := [{| h_base := 0xd0000000; h_size := 0x30000000; h_kind := 1 |};
                                    {| h_base := 6 * 2 ^ 30; h_size := 0x8000000; h_kind := 2 |}] |}.
Definition demo_firmware : list FwRegion :=
  [{| fr_base := 0x76000000; fr_size := 0x1000000 |}; {| fr_base := 0x30000000; fr_size := 0x20000 |}].

Example e820_demo :
  match e820 demo_apob 0xd0000000 0x800000 demo_firmware with
  | Ok s => map (fun e => (ee_addr e, ee_addr e + ee_size e, ee_kind e)) (entries s)
  | _ => []
  end =
  [(0, 0x1000, 2); (0x1000, 0x8000, 1); (0x8000, 0x9000, 2); (0x9000, 0x9f000, 1); (0x9f000, 0x100000, 2);
   (0x100000, 0x30000000, 1); (0x30000000, 0x30020000, 2); (0x30020000, 0x76000000, 1); (0x76000000, 0x77000000, 2);
   (0x77000000, 0xcf800000, 1); (0xcf800000, 0xd0000000, 2); (0x100000000, 0x180000000, 1);
   (0x180000000, 0x188000000, 2); (0x188000000, 0x400000000, 1); (0xfd00000000, 0xfe00000000, 2)].
Proof. vm_compute. reflexivity. Qed.

Lemma demo_apob_ok : apob_ok demo_apob.
Proof. split; [by vm_compute|repeat (apply list.Forall_cons_2; [by vm_compute|]); apply list.Forall_nil_2|by vm_compute]. Qed.

Lemma demo_firmware_ok : Forall (fun r => range_ok (fr_base r, fr_size r)) demo_firmware.
Proof. repeat (apply list.Forall_cons_2; [by vm_compute|]). apply list.Forall_nil_2. Qed.

Lemma demo_firmware_taken : exists r, r ∈ demo_firmware /\ fr_base r <= 0x30000000 < fr_base r + fr_size r.
Proof. exists {| fr_base := 0x30000000; fr_size := 0x20000 |}. split; [right; by left|by vm_compute]. Qed.

Lemma amd_e820_means_witness : exists s, e820 demo_apob 0xd0000000 (2 ^ 23) demo_firmware = Ok s /\
  ~ typed (entries s) 0x30000000 (kind_code Ram).
Proof.
  pose proof (amd_e820_means demo_apob 0xd0000000 23 demo_firmware demo_apob_ok ltac:(lia) ltac:(lia)
    demo_firmware_ok ltac:(by vm_compute)) as H.
  destruct (e820 demo_apob 0xd0000000 (2 ^ 23) demo_firmware) as [s| |] eqn:E; [|vm_compute in E; discriminate..].
  exists s. split; [reflexivity|]. destruct H as (_ & _ & _ & _ & H & _).
  assert (Hlow : amd_low_top demo_apob 0xd0000000 < 2 ^ 32) by (vm_compute; reflexivity). specialize (H Hlow).
  intros (_ & _ & _ & Hf & _)%H. exact (Hf demo_firmware_taken).
Defined.

(** With 4 GiB of decoded low memory and no hole below 4 GiB, [low as u32] is 0:
    the map then offers no memory between 1 MiB and 4 GiB. *)
Lemma low_4gib_is_lost apob top_mem k firmware s x :
  apob_ok apob -> 0 <= top_mem -> 0 <= k < 64 ->
  Forall (fun r => range_ok (fr_base r, fr_size r)) firmware -> zlen firmware <= 39 ->
  amd_low_top apob top_mem = 2 ^ 32 -> e820 apob top_mem (2 ^ k) firmware = Ok s ->
  0x100000 <= x < 2 ^ 32 -> ~ typed (entries s) x (kind_code Ram).
Proof.
  intros Ho Htm Hk Hfw Hn Hlow He Hx. unfold e820 in He. rewrite Hlow in He.
  destruct (@tseg_base_ok AmdError apob top_mem k Ho Htm Hk) as [Ht Hb]. rewrite Ht in He. cbn [rbind] in He.
  rewrite Hlow in *. test_false (2 ^ 32 <? 2 ^ 32). rust_step He. rust_step He.
  destruct (e820_body_ok apob (2 ^ 32) (Z.max 0 (2 ^ 32 - 2 ^ k) / 2 ^ k * 2 ^ k) firmware) as (s' & Hs & _ & _ & _ & H);
    [done|lia|lia|done|done|].
  rewrite Hs in He. injection He as <-. rewrite H. unfold lost_by_cast. tauto.
Qed.
