(* ===== verification/BoardMemory.v ===== *)
(** * BoardMemory: the memory map of a board
    ([crates/core/src/memory.rs], [effective_stage_load_addr] of
    [crates/core/src/stage.rs])

    A board declares its ROM and RAM regions and, where the flash has more than
    firmware in it, the layout of the flash.  The layout is checked when the board
    is built; the firmware window comes from the layout or, without one, from ROM
    regions that must be contiguous. *)

From S2P Require Import Prelude.
From S2P Require Import Bytes.
From S2P Require Import Services.
From Stdlib Require Import ZArith Lia String.
From stdpp Require Import base numbers list option strings.

#[local] Open Scope Z_scope.

(** ** Data *)

Inductive RegionKind := Rom | RamRegion | ReservedRegion.

#[export] Instance RegionKind_eq_dec : EqDecision RegionKind.
Proof. solve_decision. Defined.

Record MemoryRegion := { mr_name : string; mr_base : Z; mr_size : Z; mr_kind : RegionKind }.

Inductive IntelIfdRegion := Descriptor | Bios | Me | Gbe | Pdr | ReservedIfd.

#[export] Instance IntelIfdRegion_eq_dec : EqDecision IntelIfdRegion.
Proof. solve_decision. Defined.

Definition flreg_index (k : IntelIfdRegion) : option Z :=
  match k with
  | Descriptor => Some 0 | Bios => Some 1 | Me => Some 2 | Gbe => Some 3 | Pdr => Some 4 | ReservedIfd => None
  end.

Definition as_str (k : IntelIfdRegion) : string :=
  match k with
  | Descriptor => "descriptor" | Bios => "bios" | Me => "me" | Gbe => "gbe" | Pdr => "pdr" | ReservedIfd => "reserved"
  end%string.

Record IntelIfdRegionConfig := { ic_kind : IntelIfdRegion; ic_offset : Z; ic_size : Z }.

(** The active items of the layout's [ConstVec] of eight. *)
Notation IntelIfdFlashLayout := (list IntelIfdRegionConfig).

Inductive FlashLayout := IntelIfd (layout : IntelIfdFlashLayout) | X86Legacy (size : Z).

Record CarConfig := { car_base : Z; car_size : Z }.

Record BoardMap := { bm_regions : list MemoryRegion; bm_flash_layout : option FlashLayout; bm_car : option CarConfig }.

Definition MAX_BOARD_REGIONS : Z := 16.
Definition NAME_CAPACITY : nat := 32.

Inductive MemoryMapError :=
| MissingBiosRegion
| RomRegionOverlap (expected_base expected_size actual_base actual_size : Z)
| RegionsFull.

(** ** The flash layout *)

(** [IntelIfdFlashLayout::size]: the furthest end, saturated. *)
Definition ifd_size (l : IntelIfdFlashLayout) : Z :=
  fold_left (fun max r => let end_ := saturating_add u32_max (ic_offset r) (ic_size r) in if max <? end_ then end_ else max) l 0.

Definition ifd_base (l : IntelIfdFlashLayout) : Z := 0x100000000 - ifd_size l.
Definition ifd_end (l : IntelIfdFlashLayout) : Z := ifd_base l + ifd_size l.
Definition legacy_base (size : Z) : Z := 0x100000000 - size.

Definition bios_region (l : IntelIfdFlashLayout) : option IntelIfdRegionConfig :=
  snd <$> list_find (fun r => ic_kind r = Bios) l.

Definition bios_base (l : IntelIfdFlashLayout) : option Z :=
  match bios_region l with Some r => Some (ifd_base l + ic_offset r) | None => None end.

(** The inner loop of [check]: [region] against an earlier one. *)
Definition check_pair (region : IntelIfdRegionConfig) (region_end : Z) (other : IntelIfdRegionConfig) : res string unit :=
  fail_if bool_decide (ic_kind region = ic_kind other) with "Intel IFD declares duplicate region kinds"%string;
  let? other_end := add_or_panic u32_max (ic_offset other) (ic_size other) in
  fail_if (ic_offset region <? other_end) && (ic_offset other <? region_end) with "Intel IFD regions overlap"%string;
  Ok tt.

(** One round of the outer loop; the state is the counts and the earlier regions. *)
Definition check_region (size : Z) (s : Z * Z * list IntelIfdRegionConfig) (region : IntelIfdRegionConfig)
  : res string (Z * Z * list IntelIfdRegionConfig) :=
  let '(bios_count, descriptor_count, earlier) := s in
  let bios_count := if bool_decide (ic_kind region = Bios) then bios_count + 1 else bios_count in
  let descriptor_count := if bool_decide (ic_kind region = Descriptor) then descriptor_count + 1 else descriptor_count in
  fail_if (ic_size region =? 0) || negb (is_multiple_of (ic_offset region) 4096) || negb (is_multiple_of (ic_size region) 4096)
    with "Intel IFD active regions must be nonzero and page-aligned"%string;
  match checked_add u32_max (ic_offset region) (ic_size region) with
  | None => Err "Intel IFD region exceeds declared flash size"%string
  | Some region_end =>
      fail_if size <? region_end with "Intel IFD region exceeds declared flash size"%string;
      let? _ := for_each earlier (check_pair region region_end) in
      Ok (bios_count, descriptor_count, (earlier ++ [region])%list)
  end.

Definition check (l : IntelIfdFlashLayout) : res string unit :=
  let size := ifd_size l in
  fail_if size =? 0 with "Intel IFD flash_layout declares no sized regions"%string;
  let? s := fold_each l (0, 0, []) (check_region size) in
  let '(bios_count, descriptor_count, _) := s in
  fail_if negb (bios_count =? 1) with "Intel IFD flash_layout requires exactly one BIOS region"%string;
  fail_if negb (descriptor_count =? 1) with "Intel IFD flash_layout requires exactly one descriptor region"%string;
  Ok tt.

(** [validate] panics on a violation; [new] returns what passed. *)
Definition validate {E} (l : IntelIfdFlashLayout) : res E unit := match check l with Ok _ => Ok tt | _ => Panic end.
Definition ifd_new {E} (l : IntelIfdFlashLayout) : res E IntelIfdFlashLayout := let? _ := validate l in Ok l.
Definition flash_validate {E} (f : FlashLayout) : res E unit :=
  match f with IntelIfd l => validate l | X86Legacy _ => Ok tt end.

(** ** The firmware window *)

(** The state of the loop of [contiguous_rom_window]: count, base, end, total. *)
Definition add_rom (s : Z * Z * Z * Z) (r : MemoryRegion) : option (Z * Z * Z * Z) :=
  let '(count, base, end_, total_size) := s in
  region_end ← checked_add u64_max (mr_base r) (mr_size r);
  total_size ← checked_add u64_max total_size (mr_size r);
  Some (count + 1, Z.min base (mr_base r), Z.max end_ region_end, total_size).

Fixpoint fold_opt {A S} (f : S -> A -> option S) (l : list A) (s : S) : option S :=
  match l with [] => Some s | x :: l => s ← f s x; fold_opt f l s end.

Definition roms (m : BoardMap) : list MemoryRegion := filter (fun r => mr_kind r = Rom) (bm_regions m).

Definition contiguous_rom_window (m : BoardMap) : option (Z * Z) :=
  s ← fold_opt add_rom (roms m) (0, u64_max, 0, 0);
  let '(count, base, end_, total_size) := s in
  if count =? 0 then None else
  span ← checked_sub end_ base;
  if negb (span =? total_size) then None else Some (base, total_size).

Definition firmware_window (m : BoardMap) : option (Z * Z) :=
  match bm_flash_layout m with
  | Some (IntelIfd layout) => bios ← bios_region layout; Some (ifd_base layout + ic_offset bios, ic_size bios)
  | Some (X86Legacy size) => Some (legacy_base size, size)
  | None => contiguous_rom_window m
  end.

Definition ifd_bios_window (m : BoardMap) : res MemoryMapError (option (Z * Z)) :=
  match bm_flash_layout m with
  | None => Ok None
  | Some (IntelIfd layout) =>
      let? bios := ok_or (bios_region layout) MissingBiosRegion in
      Ok (Some (ifd_base layout + ic_offset bios, ic_size bios))
  | Some (X86Legacy size) => Ok (Some (legacy_base size, size))
  end.

(** The loop of [ensure_rom_region]: [Ok true] is its early return. *)
Fixpoint find_rom (base size : Z) (l : list MemoryRegion) : res MemoryMapError bool :=
  match l with
  | [] => Ok false
  | r :: l =>
      if negb (bool_decide (mr_kind r = Rom)) then find_rom base size l else
      if (mr_base r =? base) && (mr_size r =? size) then Ok true else
      let region_end := saturating_add u64_max (mr_base r) (mr_size r) in
      fail_if (mr_base r <? saturating_add u64_max base size) && (base <? region_end)
        with RomRegionOverlap base size (mr_base r) (mr_size r);
      find_rom base size l
  end.

Definition set_regions (m : BoardMap) (l : list MemoryRegion) : BoardMap :=
  {| bm_regions := l; bm_flash_layout := bm_flash_layout m; bm_car := bm_car m |}.

Definition ensure_rom_region (base size : Z) : sres BoardMap MemoryMapError unit := fun m =>
  match find_rom base size (bm_regions m) with
  | Ok true => (m, Ok tt)
  | Ok false =>
      if (String.length "flash" <=? NAME_CAPACITY)%nat then
        match push MAX_BOARD_REGIONS RegionsFull (bm_regions m)
          {| mr_name := "flash"; mr_base := base; mr_size := size; mr_kind := Rom |} with
        | Ok l => (set_regions m l, Ok tt)
        | Err e => (m, Err e)
        | Panic => (m, Panic)
        end
      else (m, Err RegionsFull)
  | Err e => (m, Err e)
  | Panic => (m, Panic)
  end.

Definition normalize_derived_flash : sres BoardMap MemoryMapError unit := fun m =>
  match ifd_bios_window m with
  | Ok (Some (base, size)) => ensure_rom_region base size m
  | Ok None => (m, Ok tt)
  | Err e => (m, Err e)
  | Panic => (m, Panic)
  end.

(** ** The load address of a stage *)

Inductive RunsFrom := FromRom | FromRam.

#[export] Instance RunsFrom_eq_dec : EqDecision RunsFrom.
Proof. solve_decision. Defined.

(** [max_by_key(region end)]: the last of the largest. *)
Definition top_rom (l : list MemoryRegion) : option MemoryRegion :=
  fold_left (fun m r => match m with
    | Some q => if saturating_add u64_max (mr_base q) (mr_size q) <=? saturating_add u64_max (mr_base r) (mr_size r)
                then Some r else Some q
    | None => Some r end) (filter (fun r => mr_kind r = Rom /\ 0 < mr_size r) l) None.

Definition effective_stage_load_addr (is_x86 : bool) (m : BoardMap) (stage_index load_addr : Z) (runs_from : RunsFrom) : Z :=
  if negb (load_addr =? 0) then load_addr else
  if is_x86 && (stage_index =? 0) && bool_decide (runs_from = FromRom) then
    match top_rom (bm_regions m) with
    | Some r => saturating_sub (saturating_add u64_max (mr_base r) (mr_size r)) 1
    | None => 0
    end
  else load_addr.

(** ** Valid flash layouts *)

Definition u32_region (r : IntelIfdRegionConfig) : Prop := 0 <= ic_offset r <= u32_max /\ 0 <= ic_size r <= u32_max.

Definition region_good (r : IntelIfdRegionConfig) : Prop :=
  ic_size r <> 0 /\ ic_offset r mod 4096 = 0 /\ ic_size r mod 4096 = 0 /\ ic_offset r + ic_size r <= u32_max.

Definition apart (r o : IntelIfdRegionConfig) : Prop :=
  ic_kind r <> ic_kind o /\
  (ic_offset r + ic_size r <= ic_offset o \/ ic_offset o + ic_size o <= ic_offset r).

Definition count_kind (k : IntelIfdRegion) (l : IntelIfdFlashLayout) : Z := zlen (filter (fun r => ic_kind r = k) l).

(** What the constructor's documentation promises. *)
Definition valid_layout (l : IntelIfdFlashLayout) : Prop :=
  Forall region_good l /\ ForallOrdPairs apart l /\ count_kind Bios l = 1 /\ count_kind Descriptor l = 1.

Lemma count_kind_cons k r l : count_kind k (r :: l) = (if bool_decide (ic_kind r = k) then 1 else 0) + count_kind k l.
Proof. unfold count_kind. rewrite filter_cons. case_decide; [rewrite bool_decide_true, zlen_cons by done|rewrite bool_decide_false by done]; lia. Qed.

Lemma apart_sym r o : apart r o -> apart o r.
Proof. unfold apart. intros [? ?]. split; [congruence|lia]. Qed.

Lemma check_pair_Ok region other : u32_region region -> region_good other ->
  check_pair region (ic_offset region + ic_size region) other <> Panic /\
  (check_pair region (ic_offset region + ic_size region) other = Ok tt <-> apart region other).
Proof.
  intros Hr (_ & _ & _ & Ho). unfold check_pair, apart. destruct (bool_decide_reflect (ic_kind region = ic_kind other)).
  { split; [done|]. split; [done|tauto]. }
  unfold add_or_panic. rewrite checked_add_ok by done. cbn [or_panic rbind].
  destruct (Z.ltb_spec (ic_offset region) (ic_offset other + ic_size other)),
    (Z.ltb_spec (ic_offset other) (ic_offset region + ic_size region)); cbn [andb]; (split; [done|]); split; intros; try done;
    try (split; [done|lia]). lia.
Qed.

Lemma check_region_Ok size s r : u32_region r -> Forall region_good s.2 ->
  check_region size s r <> Panic /\
  forall s', check_region size s r = Ok s' <->
    s' = (s.1.1 + (if bool_decide (ic_kind r = Bios) then 1 else 0),
          s.1.2 + (if bool_decide (ic_kind r = Descriptor) then 1 else 0), (s.2 ++ [r])%list) /\
    region_good r /\ ic_offset r + ic_size r <= size /\ Forall (apart r) s.2.
Proof.
  intros Hr He. destruct s as [[b d] earlier]. cbn [fst snd] in *. unfold check_region, region_good.
  assert (Hc : forall k n, (if bool_decide (ic_kind r = k) then n + 1 else n) = n + (if bool_decide (ic_kind r = k) then 1 else 0))
    by (intros; case_match; lia). rewrite !Hc.
  destruct (_ || _)%bool eqn:Hal.
  { split; [done|]. intros s'. split; [done|]. intros (_ & (H1 & H2 & H3 & _) & _).
    apply is_multiple_of_spec in H2, H3. rewrite H2, H3 in Hal. bool_cases; done. }
  apply orb_false_iff in Hal as [[Hz Ho]%orb_false_iff Hs]. bool_hyp. apply is_multiple_of_spec in Ho, Hs.
  destruct (checked_add _ _ _) as [e|] eqn:Hend.
  2:{ split; [done|]. intros s'. split; [done|]. apply checked_add_None in Hend. intros (_ & (_ & _ & _ & ?) & _). lia. }
  apply checked_add_Some in Hend as [-> Hend]. destruct (Z.ltb_spec size (ic_offset r + ic_size r)).
  { split; [done|]. intros s'. split; [done|]. lia. }
  assert (Hp : for_each earlier (check_pair r (ic_offset r + ic_size r)) <> Panic).
  { apply for_each_no_panic. intros o Hin. rewrite list.Forall_forall in He. by apply check_pair_Ok; [|apply He]. }
  assert (Hok : for_each earlier (check_pair r (ic_offset r + ic_size r)) = Ok tt <-> Forall (apart r) earlier).
  { rewrite for_each_Ok, list.Forall_forall. rewrite list.Forall_forall in He.
    split; intros H0 o Hin; specialize (H0 o Hin); by apply check_pair_Ok; [| |]; auto. }
  destruct (for_each _ _) as [[]|e|]; cbn [rbind]; [|split; [done|]; intros; split; [done|]; intros (_ & _ & _ & Hf); apply Hok in Hf; discriminate|done].
  split; [done|]. intros s'. destruct Hok as [Hok _]. specialize (Hok eq_refl). split; [intros [= <-]; by split_and!|by intros [-> _]].
Qed.

Lemma check_regions_Ok size l : forall s, Forall u32_region l -> Forall region_good s.2 ->
  fold_each l s (check_region size) <> Panic /\
  forall s', fold_each l s (check_region size) = Ok s' <->
    s' = (s.1.1 + count_kind Bios l, s.1.2 + count_kind Descriptor l, (s.2 ++ l)%list) /\
    Forall region_good l /\ Forall (fun r => ic_offset r + ic_size r <= size) l /\
    Forall (fun r => Forall (apart r) s.2) l /\ ForallOrdPairs apart l.
Proof.
  induction l as [|r l IH]; intros s Hu Hg; cbn [fold_each].
  { split; [done|]. intros s'. destruct s as [[b d] e]. cbn. rewrite app_nil_r. change (count_kind Bios []) with 0.
    change (count_kind Descriptor []) with 0. rewrite !Z.add_0_r. split; [intros [= <-]; split_and!; constructor|by intros [-> _]]. }
  apply list.Forall_cons in Hu as [Hr Hu]. destruct (check_region_Ok size s r Hr Hg) as [Hnp Hiff].
  destruct (check_region size s r) as [s1|e|]; cbn [rbind]; [|split; [done|]; intros s'; split; [done|]|done].
  - destruct (proj1 (Hiff s1) eq_refl) as (-> & Hgr & Hsz & Hap). cbn [fst snd] in *.
    assert (Hg1 : Forall region_good (s.2 ++ [r])) by (apply list.Forall_app; split; [done|by constructor]).
    match goal with |- context [fold_each l ?s1 _] => destruct (IH s1 Hu Hg1) as [Hnp1 Hiff1] end. split; [exact Hnp1|]. intros s'. rewrite Hiff1. cbn [fst snd].
    rewrite !list.Forall_cons, !count_kind_cons.
    rewrite <- app_assoc. cbn [app]. rewrite <- !Z.add_assoc. apply and_iff_compat_l.
    assert (Forall (fun x => Forall (apart x) (s.2 ++ [r])) l <-> Forall (fun x => Forall (apart x) s.2) l /\ Forall (apart r) l) as ->.
    { rewrite !list.Forall_forall. setoid_rewrite list.Forall_app. split.
      - intros Hx. split; intros x Hin; [by apply Hx|]. apply apart_sym. apply Hx in Hin as [_ Hin%Forall_inv]. done.
      - intros [H1 H2] x Hin. split; [by apply H1|]. constructor; [by apply apart_sym, H2|constructor]. }
    split; [intros (? & ? & [? ?] & ?); split_and!; try done; by constructor|].
    intros ((? & ?) & (? & ?) & (? & ?) & Hp). inversion Hp; subst. by split_and!.
  - rewrite !list.Forall_cons. intros (_ & (H1 & _) & (H2 & _) & (H3 & _) & _).
    pose proof (proj2 (Hiff _) (conj eq_refl (conj H1 (conj H2 H3)))). discriminate.
Qed.

Lemma ifd_size_spec l : Forall u32_region l ->
  0 <= ifd_size l <= u32_max /\
  Forall (fun r => saturating_add u32_max (ic_offset r) (ic_size r) <= ifd_size l) l /\
  (ifd_size l = 0 \/ exists r, r ∈ l /\ ifd_size l = saturating_add u32_max (ic_offset r) (ic_size r)).
Proof.
  intros Hu. unfold ifd_size. set (f := fun max r => _).
  assert (H : forall l m, Forall u32_region l -> 0 <= m <= u32_max ->
    m <= fold_left f l m <= u32_max /\
    Forall (fun r => saturating_add u32_max (ic_offset r) (ic_size r) <= fold_left f l m) l /\
    (fold_left f l m = m \/ exists r, r ∈ l /\ fold_left f l m = saturating_add u32_max (ic_offset r) (ic_size r))).
  { clear l Hu. induction l as [|r l IH]; intros m Hu Hm; cbn [fold_left]; [split; [lia|split; [constructor|by left]]|].
    apply list.Forall_cons in Hu as [Hr Hu]. destruct Hr as [? ?].
    assert (Hf : f m r = m /\ saturating_add u32_max (ic_offset r) (ic_size r) <= m \/
      f m r = saturating_add u32_max (ic_offset r) (ic_size r) /\ m <= f m r).
    { unfold f. destruct (Z.ltb_spec m (saturating_add u32_max (ic_offset r) (ic_size r))); [right; split; [done|lia]|left; split; [done|lia]]. }
    destruct (IH (f m r) Hu) as (H1 & H2 & H3); [destruct Hf as [[-> _]|[-> _]]; unfold saturating_add; lia|].
    split; [lia|]. split; [constructor; [lia|done]|].
    destruct H3 as [H3|(q & Hq & H3)]; [|right; exists q; split; [by right|done]].
    destruct Hf as [[Hf _]|[Hf _]]; [left; congruence|right; exists r; split; [by left|congruence]]. }
  destruct (H l 0 Hu) as (H1 & H2 & H3); [by vm_compute|]. by split; [|split].
Qed.

(** C38: The check accepts exactly the valid layouts.  For every list of regions
    with 32-bit fields, [check] returns success exactly when every region is
    non-empty and page-aligned and ends within 32 bits, no two overlap or share a
    kind, and one is the BIOS and one the descriptor; it never panics, so that the
    unchecked sum in its inner loop cannot overflow; and [new] returns the layout
    then and panics (a compile error) otherwise.  A region of size zero, which the
    documentation of its field calls unused, is refused like any other mistake. *)
Theorem check_iff_valid l : Forall u32_region l ->
  (check l = Ok tt <-> valid_layout l) /\ check l <> Panic /\
  (valid_layout l -> @ifd_new MemoryMapError l = Ok l) /\ (~ valid_layout l -> @ifd_new MemoryMapError l = Panic).
Proof.
  intros Hu. destruct (ifd_size_spec l Hu) as (Hs & Hends & Hmax).
  destruct (check_regions_Ok (ifd_size l) l (0, 0, []) Hu ltac:(constructor)) as [Hnp Hiff]. cbn [fst snd app] in Hiff.
  assert (Hin : Forall region_good l -> Forall (fun r => ic_offset r + ic_size r <= ifd_size l) l).
  { intros Hg. rewrite list.Forall_forall in *. intros r Hr. specialize (Hends r Hr). destruct (Hg r Hr) as (_ & _ & _ & ?).
    unfold saturating_add in Hends. lia. }
  assert (H0 : count_kind Bios l = 1 -> Forall region_good l -> ifd_size l <> 0).
  { intros Hb Hg. destruct l as [|r l]; [discriminate Hb|]. apply Forall_inv in Hg as Hgr. apply Hin, Forall_inv in Hg.
    apply Forall_inv in Hu. destruct Hgr as (? & _), Hu as [? ?]. lia. }
  assert (Hc : (check l = Ok tt <-> valid_layout l) /\ check l <> Panic).
  { unfold check, valid_layout. destruct (Z.eqb_spec (ifd_size l) 0) as [Hz|Hz].
    { split; [|done]. split; [done|]. intros (Hg & _ & Hb & _). by destruct (H0 Hb Hg). }
    destruct (fold_each _ _ _) as [[[b d] e]|e|] eqn:E; cbn [rbind]; [| |done].
    - destruct (proj1 (Hiff _) eq_refl) as (Heq & Hg & _ & _ & Hp). injection Heq as -> -> ->. rewrite !Z.add_0_l.
      destruct (Z.eqb_spec (count_kind Bios l) 1); cbn [negb]; [|split; [|done]; split; [done|tauto]].
      destruct (Z.eqb_spec (count_kind Descriptor l) 1); cbn [negb]; (split; [|done]); split; try done; tauto.
    - split; [|done]. split; [done|]. intros (Hg & Hp & _).
      pose proof (proj2 (Hiff _) (conj eq_refl (conj Hg (conj (Hin Hg) (conj (proj2 (list.Forall_forall _ _) (fun _ _ => list.Forall_nil_2 _)) Hp))))).
      discriminate. }
  destruct Hc as [Hc Hnpc]. split; [exact Hc|]. split; [exact Hnpc|]. unfold ifd_new, validate.
  split; intros Hv; [by rewrite (proj2 Hc Hv)|]. destruct (check l) as [[]|e|]; [by destruct Hv; apply Hc|done..].
Qed.

Definition demo_layout : IntelIfdFlashLayout :=
  [{| ic_kind := Descriptor; ic_offset := 0; ic_size := 0x1000 |}; {| ic_kind := Bios; ic_offset := 0x280000; ic_size := 0x180000 |}].

Lemma demo_layout_u32 : Forall u32_region demo_layout.
Proof. repeat (apply list.Forall_cons_2; [by vm_compute|]). apply list.Forall_nil_2. Qed.

Lemma check_iff_valid_witness : valid_layout demo_layout /\ bios_base demo_layout = Some 0xffe80000.
Proof.
  split; [|vm_compute; reflexivity]. apply (check_iff_valid demo_layout demo_layout_u32). vm_compute. reflexivity.
Defined.

(** ** Contiguous ROM *)

Definition region_addrs (r : MemoryRegion) : list Z := seqZ (mr_base r) (mr_size r).

Definition in_region (r : MemoryRegion) (x : Z) : Prop := mr_base r <= x < mr_base r + mr_size r.

Definition rom_ok (r : MemoryRegion) : Prop := 0 <= mr_base r /\ 0 < mr_size r /\ mr_base r + mr_size r <= u64_max.

Definition separate (r q : MemoryRegion) : Prop :=
  mr_base r + mr_size r <= mr_base q \/ mr_base q + mr_size q <= mr_base r.

Definition total (l : list MemoryRegion) : Z := fold_right (fun r n => mr_size r + n) 0 l.
Definition low_end (l : list MemoryRegion) (b : Z) : Z := fold_left (fun b r => Z.min b (mr_base r)) l b.
Definition high_end (l : list MemoryRegion) (e : Z) : Z := fold_left (fun e r => Z.max e (mr_base r + mr_size r)) l e.

Lemma addrs_in l x : x ∈ (l ≫= region_addrs) <-> exists r, r ∈ l /\ in_region r x.
Proof.
  rewrite list_elem_of_bind. unfold region_addrs, in_region. setoid_rewrite elem_of_seqZ. split; intros (r & ? & ?); eauto.
Qed.

Lemma addrs_length l : Forall rom_ok l -> zlen (l ≫= region_addrs) = total l.
Proof.
  induction 1 as [|r l (? & ? & ?) Hl IH]; [done|]. rewrite bind_cons, zlen_app, IH. cbn [total fold_right].
  unfold region_addrs, zlen. rewrite length_seqZ. fold (total l). lia.
Qed.

Lemma addrs_nodup l : ForallOrdPairs separate l -> NoDup (l ≫= region_addrs).
Proof.
  induction 1 as [|r l Hr Hl IH]; [constructor|]. rewrite bind_cons. apply NoDup_app. split; [apply NoDup_seqZ|]. split; [|done].
  intros x Hx (q & Hq & Hxq)%addrs_in. apply elem_of_seqZ in Hx. rewrite list.Forall_forall in Hr.
  specialize (Hr q Hq). unfold separate, in_region in *. lia.
Qed.

Lemma hull l b e : Forall rom_ok l ->
  low_end l b <= b /\ e <= high_end l e /\ Forall (fun r => low_end l b <= mr_base r /\ mr_base r + mr_size r <= high_end l e) l.
Proof.
  intros Hl. revert b e. induction Hl as [|r l Hr Hl IH]; intros b e; cbn [low_end high_end fold_left]; [by split_and!; try lia; constructor|].
  destruct (IH (Z.min b (mr_base r)) (Z.max e (mr_base r + mr_size r))) as (H1 & H2 & H3).
  fold (low_end l (Z.min b (mr_base r))) (high_end l (Z.max e (mr_base r + mr_size r))). split; [lia|]. split; [lia|].
  constructor; [lia|done].
Qed.

Lemma sum_in_hull l lo hi : Forall rom_ok l -> ForallOrdPairs separate l -> lo <= hi ->
  Forall (fun r => lo <= mr_base r /\ mr_base r + mr_size r <= hi) l ->
  total l <= hi - lo /\ (total l = hi - lo <-> forall x, lo <= x < hi -> exists r, r ∈ l /\ in_region r x).
Proof.
  intros Hok Hsep Hle Hin. rewrite <- addrs_length by done.
  assert (Hincl : forall x, x ∈ (l ≫= region_addrs) -> x ∈ seqZ lo (hi - lo)).
  { intros x (r & Hr & Hx)%addrs_in. rewrite list.Forall_forall in Hin. specialize (Hin r Hr). apply elem_of_seqZ. unfold in_region in Hx. lia. }
  pose proof (NoDup_submseteq _ _ (addrs_nodup l Hsep) Hincl) as Hsub. pose proof (submseteq_length _ _ Hsub) as Hlen.
  assert (Hhull : zlen (seqZ lo (hi - lo)) = hi - lo) by (unfold zlen; rewrite length_seqZ; lia).
  unfold zlen in *. split; [lia|]. split.
  - intros Heq x Hx. apply addrs_in. assert (Hp : (l ≫= region_addrs) ≡ₚ seqZ lo (hi - lo)) by (apply submseteq_length_Permutation; [done|lia]).
    rewrite Hp. apply elem_of_seqZ. lia.
  - intros Hcov. assert (Hsub' : seqZ lo (hi - lo) ⊆+ (l ≫= region_addrs)).
    { apply NoDup_submseteq; [apply NoDup_seqZ|]. intros x Hx%elem_of_seqZ. apply addrs_in, Hcov. lia. }
    apply submseteq_length in Hsub'. lia.
Qed.

Lemma hull_attained l b e :
  (low_end l b = b \/ exists r, r ∈ l /\ low_end l b = mr_base r) /\
  (high_end l e = e \/ exists r, r ∈ l /\ high_end l e = mr_base r + mr_size r).
Proof.
  revert b e. induction l as [|r l IH]; intros b e; cbn [low_end high_end fold_left]; [by split; left|].
  fold (low_end l (Z.min b (mr_base r))) (high_end l (Z.max e (mr_base r + mr_size r))).
  destruct (IH (Z.min b (mr_base r)) (Z.max e (mr_base r + mr_size r))) as [H1 H2]. split.
  - destruct H1 as [->|(q & ? & ->)]; [|right; exists q; split; [by right|done]].
    destruct (Z.min_spec b (mr_base r)) as [[_ ->]|[_ ->]]; [by left|right; exists r; split; [by left|done]].
  - destruct H2 as [->|(q & ? & ->)]; [|right; exists q; split; [by right|done]].
    destruct (Z.max_spec e (mr_base r + mr_size r)) as [[_ ->]|[_ ->]]; [right; exists r; split; [by left|done]|by left].
Qed.

Lemma fold_roms l : forall c b e t, Forall rom_ok l -> 0 <= t -> t + total l <= u64_max ->
  fold_opt add_rom l (c, b, e, t) = Some (c + zlen l, low_end l b, high_end l e, t + total l).
Proof.
  induction l as [|r l IH]; intros c b e t Hok Ht Hmax; cbn [fold_opt total fold_right low_end high_end fold_left].
  { change (zlen []) with 0. by rewrite !Z.add_0_r. }
  fold (total l) in *. cbn [total fold_right] in Hmax. fold (total l) in Hmax.
  apply list.Forall_cons in Hok as [(? & ? & ?) Hok]. assert (0 <= total l).
  { rewrite <- addrs_length by done. apply zlen_nonneg. }
  unfold add_rom at 2. rewrite (checked_add_ok u64_max (mr_base r)) by lia. cbn [mbind option_bind].
  rewrite (checked_add_ok u64_max t) by lia. cbn [mbind option_bind]. rewrite IH by (done || lia).
  rewrite zlen_cons. by rewrite <- !Z.add_assoc.
Qed.

(** The ROM window is the ROM.  For ROM regions that do not overlap,
    [contiguous_rom_window] returns a window exactly when the addresses of the ROM
    regions are those of one interval, and then that interval; nothing overflows
    on the way. *)
Theorem contiguous_rom_window_iff m b n :
  Forall rom_ok (roms m) -> ForallOrdPairs separate (roms m) ->
  contiguous_rom_window m = Some (b, n) <->
  0 < n /\ forall x, b <= x < b + n <-> exists r, r ∈ roms m /\ in_region r x.
Proof.
  intros Hok Hsep. unfold contiguous_rom_window.
  assert (Hin0 : Forall (fun r => 0 <= mr_base r /\ mr_base r + mr_size r <= u64_max) (roms m)).
  { eapply list.Forall_impl; [exact Hok|]. intros r (? & ? & ?). cbn. lia. }
  destruct (sum_in_hull (roms m) 0 u64_max Hok Hsep ltac:(by vm_compute) Hin0) as [Htot _].
  rewrite fold_roms by (done || lia). cbn [mbind option_bind]. rewrite !Z.add_0_l.
  destruct (hull (roms m) u64_max 0 Hok) as (_ & _ & Hhull). destruct (hull_attained (roms m) u64_max 0) as [Hlow Hhigh].
  rewrite list.Forall_forall in Hok, Hhull.
  destruct (roms m) as [|r0 l0] eqn:El.
  { change (zlen []) with 0. cbn [Z.eqb]. split; [done|]. intros [Hn H]. destruct (proj1 (H b) ltac:(lia)) as (r & ?%elem_of_nil & _). done. }
  rewrite <- El in *. assert (Hr0 : r0 ∈ roms m) by (rewrite El; by left). clear El l0.
  pose proof (Hok r0 Hr0) as (? & ? & ?). pose proof (Hhull r0 Hr0).
  assert (zlen (roms m) <> 0).
  { destruct (roms m) as [|q k]; [by apply elem_of_nil in Hr0|]. rewrite zlen_cons. pose proof (zlen_nonneg k). lia. }
  test_false (zlen (roms m) =? 0).
  set (lo := low_end (roms m) u64_max) in *. set (hi := high_end (roms m) 0) in *.
  destruct Hlow as [?|(rl & Hrl & Hlo)]; [lia|]. destruct Hhigh as [?|(rh & Hrh & Hhi)]; [lia|].
  pose proof (Hok rl Hrl) as (? & ? & ?). pose proof (Hok rh Hrh) as (? & ? & ?).
  rewrite checked_sub_ok by lia. cbn [mbind option_bind].
  destruct (sum_in_hull (roms m) lo hi) as [_ Hcov]; [by apply list.Forall_forall|done|lia|by apply list.Forall_forall|].
  assert (Hback : forall x, (exists r, r ∈ roms m /\ in_region r x) -> lo <= x < hi).
  { intros x (r & Hr & Hx). specialize (Hhull r Hr). unfold in_region in Hx. lia. }
  assert (Hatlo : exists r, r ∈ roms m /\ in_region r lo) by (exists rl; split; [done|unfold in_region; lia]).
  assert (Hathi : exists r, r ∈ roms m /\ in_region r (hi - 1)) by (exists rh; split; [done|unfold in_region; lia]).
  destruct (Z.eqb_spec (hi - lo) (total (roms m))) as [Heq|Hne]; cbn [negb].
  - split.
    + intros [= <- <-]. split; [lia|]. intros x. rewrite <- Heq. replace (lo + (hi - lo)) with hi by lia.
      split; [apply Hcov; by symmetry|apply Hback].
    + intros [Hn Hw]. apply Hw in Hatlo, Hathi.
      pose proof (Hback b (proj1 (Hw b) ltac:(lia))). pose proof (Hback (b + n - 1) (proj1 (Hw (b + n - 1)) ltac:(lia))).
      f_equal. f_equal; lia.
  - split; [done|]. intros [Hn Hw]. destruct Hne. symmetry. apply Hcov. intros x Hx. apply Hw.
    apply Hw in Hatlo, Hathi. lia.
Qed.

Definition rom (base size : Z) : MemoryRegion := {| mr_name := "rom"; mr_base := base; mr_size := size; mr_kind := Rom |}.
Definition demo_map : BoardMap :=
  {| bm_regions := [rom 0xff000000 0x800000; {| mr_name := "ram"; mr_base := 0; mr_size := 0x1000; mr_kind := RamRegion |};
                    rom 0xff800000 0x800000]; bm_flash_layout := None; bm_car := None |}.

Lemma contiguous_rom_window_iff_witness : exists r, r ∈ roms demo_map /\ in_region r 0xff812345.
Proof.
  destruct (contiguous_rom_window_iff demo_map 0xff000000 0x1000000) as [H _].
  - change (roms demo_map) with [rom 0xff000000 0x800000; rom 0xff800000 0x800000].
    repeat (apply list.Forall_cons_2; [by vm_compute|]). apply list.Forall_nil_2.
  - change (roms demo_map) with [rom 0xff000000 0x800000; rom 0xff800000 0x800000].
    apply FOP_cons; [apply list.Forall_cons_2; [left; by vm_compute|apply list.Forall_nil_2]|].
    apply FOP_cons; [apply list.Forall_nil_2|apply FOP_nil].
  - destruct H as [_ H]; [vm_compute; reflexivity|]. apply H. lia.
Defined.

(** Without that condition the sum proves nothing: regions that overlap as much
    as they leave out pass for contiguous. *)
Example gap_is_a_window :
  let m := {| bm_regions := [rom 0 10; rom 5 10; rom 20 5]; bm_flash_layout := None; bm_car := None |} in
  contiguous_rom_window m = Some (0, 25) /\ ~ exists r, r ∈ roms m /\ in_region r 17.
Proof.
  split; [vm_compute; reflexivity|]. intros (r & Hr & Hx). cbn in Hr. unfold in_region in Hx.
  repeat (apply elem_of_cons in Hr as [->|Hr]; [cbn in Hx; lia|]). by apply elem_of_nil in Hr.
Qed.

(** ** Normalisation *)

Lemma find_rom_spec base size l :
  match find_rom base size l with
  | Ok true => exists r, r ∈ l /\ mr_kind r = Rom /\ mr_base r = base /\ mr_size r = size
  | Ok false => Forall (fun r => mr_kind r = Rom ->
      ~ (mr_base r < saturating_add u64_max base size /\ base < saturating_add u64_max (mr_base r) (mr_size r))) l
  | Err (RomRegionOverlap eb es ab as_) => eb = base /\ es = size /\ exists r, r ∈ l /\ mr_kind r = Rom /\ mr_base r = ab /\
      mr_size r = as_ /\ ab < saturating_add u64_max base size /\ base < saturating_add u64_max ab as_
  | _ => False
  end.
Proof.
  induction l as [|r l IH]; cbn [find_rom]; [constructor|].
  destruct (bool_decide_reflect (mr_kind r = Rom)) as [Hk|Hk]; cbn [negb].
  2:{ destruct (find_rom base size l) as [[|]|[]|]; try done.
      - destruct IH as (q & ? & ?). exists q. split; [by right|done].
      - by constructor.
      - destruct IH as (? & ? & q & ? & ?). split; [done|]. split; [done|]. exists q. split; [by right|done]. }
  destruct (_ && _)%bool eqn:Hm; bool_hyp; [exists r; split; [by left|done]|]. clear Hm.
  destruct (_ && _)%bool eqn:Ho; bool_hyp.
  { split; [done|]. split; [done|]. exists r. split; [by left|done]. }
  assert (Hno : ~ (mr_base r < saturating_add u64_max base size /\ base < saturating_add u64_max (mr_base r) (mr_size r)))
    by (bool_cases; lia).
  destruct (find_rom base size l) as [[|]|[]|]; try done.
  - destruct IH as (q & ? & ?). exists q. split; [by right|done].
  - by constructor.
  - destruct IH as (? & ? & q & ? & ?). split; [done|]. split; [done|]. exists q. split; [by right|done].
Qed.

Lemma find_rom_snoc base size l name : find_rom base size l = Ok false ->
  find_rom base size (l ++ [{| mr_name := name; mr_base := base; mr_size := size; mr_kind := Rom |}]) = Ok true.
Proof.
  induction l as [|r l IH]; cbn [find_rom app].
  { intros _. rewrite bool_decide_true by done. cbn [mr_base mr_size negb]. by rewrite !Z.eqb_refl. }
  destruct (bool_decide _); cbn [negb]; [|done]. destruct (_ && _)%bool; [done|]. destruct (_ && _)%bool; done.
Qed.

(** After normalisation the firmware's window is a ROM region.  For a map
    with a flash layout, a [normalize_derived_flash] that succeeds leaves a map
    whose firmware window is a declared ROM region and which only gained that
    region at most; normalising it again changes nothing.  One that fails leaves
    the map as it was, and names a ROM region that overlaps the window, a missing
    BIOS region or a full table; it never panics. *)
Theorem normalize_derived_flash_means m layout m' r :
  bm_flash_layout m = Some layout -> normalize_derived_flash m = (m', r) ->
  match r with
  | Ok _ =>
      exists base size, firmware_window m' = Some (base, size) /\ firmware_window m = Some (base, size) /\
      (exists q, q ∈ bm_regions m' /\ mr_kind q = Rom /\ mr_base q = base /\ mr_size q = size) /\
      (m' = m \/ exists q, bm_regions m' = (bm_regions m ++ [q])%list /\ zlen (bm_regions m) < MAX_BOARD_REGIONS /\
        Forall (fun p => mr_kind p = Rom -> ~ (mr_base p < saturating_add u64_max base size /\
          base < saturating_add u64_max (mr_base p) (mr_size p))) (bm_regions m)) /\
      normalize_derived_flash m' = (m', Ok tt)
  | Err MissingBiosRegion => m' = m /\ firmware_window m = None
  | Err (RomRegionOverlap base size ab as_) => m' = m /\ firmware_window m = Some (base, size) /\
      exists q, q ∈ bm_regions m /\ mr_kind q = Rom /\ mr_base q = ab /\ mr_size q = as_ /\
        ab < saturating_add u64_max base size /\ base < saturating_add u64_max ab as_
  | Err RegionsFull => m' = m /\ MAX_BOARD_REGIONS <= zlen (bm_regions m)
  | Panic => False
  end.
Proof.
  intros Hl Hn. unfold normalize_derived_flash in Hn.
  assert (Hw : forall k, bm_flash_layout k = Some layout ->
    ifd_bios_window k = match firmware_window k with Some w => Ok (Some w) | None => Err MissingBiosRegion end).
  { intros k Hk. unfold ifd_bios_window, firmware_window. rewrite Hk. destruct layout as [l|size]; [|done]. by destruct (bios_region l). }
  rewrite (Hw m Hl) in Hn. destruct (firmware_window m) as [[base size]|] eqn:Hfw; [|by injection Hn as <- <-].
  unfold ensure_rom_region in Hn. pose proof (find_rom_spec base size (bm_regions m)) as Hf.
  destruct (find_rom base size (bm_regions m)) as [[|]|e|] eqn:Ef.
  - injection Hn as <- <-. exists base, size. split; [done|]. split; [done|]. split; [done|]. split; [by left|].
    unfold normalize_derived_flash. rewrite (Hw m Hl), Hfw. unfold ensure_rom_region. by rewrite Ef.
  - change (String.length "flash" <=? NAME_CAPACITY)%nat with true in Hn. unfold push in Hn.
    destruct (Z.ltb_spec (zlen (bm_regions m)) MAX_BOARD_REGIONS) as [Hlt|Hge]; [|by injection Hn as <- <-].
    injection Hn as <- <-. exists base, size.
    set (q := {| mr_name := "flash"; mr_base := base; mr_size := size; mr_kind := Rom |}).
    set (m1 := set_regions m (bm_regions m ++ [q])).
    assert (Hl1 : bm_flash_layout m1 = Some layout) by done.
    assert (Hfw1 : firmware_window m1 = Some (base, size)).
    { unfold firmware_window in *. rewrite Hl1. rewrite Hl in Hfw. exact Hfw. }
    split; [done|]. split; [done|]. split; [exists q; split; [apply elem_of_app; right; by left|done]|].
    split; [right; by exists q|]. unfold normalize_derived_flash. rewrite (Hw m1 Hl1), Hfw1. unfold ensure_rom_region.
    change (bm_regions m1) with (bm_regions m ++ [q])%list. unfold q.
    by rewrite (find_rom_snoc base size (bm_regions m) "flash" Ef).
  - destruct e; [done| |done]. injection Hn as <- <-. destruct Hf as (-> & -> & Hf). done.
  - done.
Qed.

Definition ifd_map : BoardMap :=
  {| bm_regions := [{| mr_name := "ram"; mr_base := 0; mr_size := 0x40000000; mr_kind := RamRegion |}];
     bm_flash_layout := Some (IntelIfd demo_layout); bm_car := None |}.

Lemma normalize_derived_flash_means_witness :
  exists q, q ∈ bm_regions (fst (normalize_derived_flash ifd_map)) /\ mr_base q = 0xffe80000.
Proof.
  pose proof (normalize_derived_flash_means ifd_map (IntelIfd demo_layout) (fst (normalize_derived_flash ifd_map)) (Ok tt)
    eq_refl ltac:(vm_compute; reflexivity)) as (base & size & _ & Hw & (q & Hq & _ & Hb & _) & _).
  exists q. split; [exact Hq|]. rewrite Hb. vm_compute in Hw. injection Hw as <- _. reflexivity.
Defined.

(** ** The load address of the first stage *)

Lemma top_rom_spec l q : top_rom l = Some q ->
  q ∈ l /\ mr_kind q = Rom /\ 0 < mr_size q /\
  forall r, r ∈ l -> mr_kind r = Rom -> 0 < mr_size r ->
    saturating_add u64_max (mr_base r) (mr_size r) <= saturating_add u64_max (mr_base q) (mr_size q).
Proof.
  unfold top_rom. set (live := filter _ l). set (f := fun m r => _).
  assert (H : forall k o q, fold_left f k o = Some q -> (o = Some q \/ q ∈ k) /\
    (forall p, o = Some p \/ p ∈ k ->
      saturating_add u64_max (mr_base p) (mr_size p) <= saturating_add u64_max (mr_base q) (mr_size q))).
  { clear. induction k as [|r k IH]; intros o q; cbn [fold_left].
    { intros ->. split; [by left|]. intros p [[= ->]|?%elem_of_nil]; [lia|done]. }
    intros [Hq Hmax]%IH. setoid_rewrite elem_of_cons. destruct o as [p|]; cbn [f] in Hq, Hmax.
    - destruct (Z.leb_spec (saturating_add u64_max (mr_base p) (mr_size p)) (saturating_add u64_max (mr_base r) (mr_size r))).
      + split; [destruct Hq as [[= ->]|?]; auto|]. pose proof (Hmax r (or_introl eq_refl)).
        intros p' [[= <-]|[->|?]]; [lia|done|auto].
      + split; [destruct Hq as [[= ->]|?]; auto|]. pose proof (Hmax p (or_introl eq_refl)).
        intros p' [[= <-]|[->|?]]; [done|lia|auto].
    - split; [destruct Hq as [[= ->]|?]; auto|]. intros p' [?|[->|?]]; [done|auto|auto]. }
  intros [[?|Hq] Hmax]%H; [done|]. unfold live in *. setoid_rewrite list_elem_of_filter in Hmax.
  apply list_elem_of_filter in Hq as [[? ?] ?]. split_and!; [done..|]. intros r ? ? ?. apply Hmax. right. by split.
Qed.

(** The automatic address of an x86 reset stage is the last byte of the topmost
    ROM region. *)
Lemma automatic_load_addr_is_top m q : top_rom (bm_regions m) = Some q -> rom_ok q ->
  effective_stage_load_addr true m 0 0 FromRom = mr_base q + mr_size q - 1 /\
  in_region q (effective_stage_load_addr true m 0 0 FromRom).
Proof.
  intros Hq (? & ? & ?). unfold effective_stage_load_addr. cbn [Z.eqb negb andb]. rewrite bool_decide_true, Hq by done.
  unfold saturating_sub, saturating_add, in_region. split; lia.
Qed.
