(* ===== verification/Sp3Memory.v ===== *)
(** * Sp3Memory: the memory map of an AMD server
    ([crates/platform-sp3/src/memory.rs], [build_e820] of
    [crates/platform-sp3/src/flow/mod.rs])

    [e820] overlays the regions of [SysMap] with what the firmware keeps, by a
    sweep over the ends of all of them; at each address the strongest use wins.
    The theorems say what the resulting map offers, and compose it with
    [memory_map]. *)

From S2P Require Import Prelude.
From S2P Require Import Bytes.
From S2P Require Import Services.
From S2P Require Import UnstableSort.
From S2P Require Import SysMap.
From S2P Require Import E820.
From Stdlib Require Import ZArith Lia.
From stdpp Require Import base numbers list option sorting.

#[local] Open Scope Z_scope.

(** ** Spans; [end] is an unchecked sum *)

Record Span := { sp_base : Z; sp_size : Z }.

Definition span_end {E} (s : Span) : res E Z := add_or_panic u64_max (sp_base s) (sp_size s).

Definition contains {E} (s other : Span) : res E bool :=
  if sp_base s <=? sp_base other then
    let? other_end := span_end other in let? self_end := span_end s in Ok (other_end <=? self_end)
  else Ok false.

Definition overlaps {E} (s other : Span) : res E bool :=
  let? other_end := span_end other in
  if sp_base s <? other_end then let? self_end := span_end s in Ok (sp_base other <? self_end) else Ok false.

(** [iter().find(..)] and [iter().any(..)] with a test that can panic. *)
Fixpoint find_res {E A} (f : A -> res E bool) (l : list A) : res E (option A) :=
  match l with
  | [] => Ok None
  | x :: l => let? b := f x in if b then Ok (Some x) else find_res f l
  end.

Definition any_res {E A} (f : A -> res E bool) (l : list A) : res E bool :=
  let? found := find_res f l in Ok (bool_decide (found <> None)).

(** ** Reservations and limits *)

Inductive Generation := Naples | Rome | Milan.

(** [impl From<Generation> for Variant] *)
Definition variant_of (g : Generation) : Variant := match g with Naples => Zp | Rome => Ssp | Milan => Gn end.

Definition FOUR_GIB : Z := Z.shiftl 1 32.
Definition LEGACY_HOLE : Span := {| sp_base := 0xa0000; sp_size := 0x60000 |}.
Definition LOW_RESERVED : Span := {| sp_base := 0; sp_size := 0xf000 |}.
Definition CACHE_WINDOW : Span := {| sp_base := 0x75000000; sp_size := 0x1000000 |}.

Definition MAX_RESERVATIONS : Z := 16.
Definition MAX_POINTS : Z := 2 * (MAX_REGIONS + MAX_RESERVATIONS).

Record Reservation := { rs_span : Span; rs_kind : E820Kind }.

Record TopOfMemory := { tm_tom : Z; tm_tom2 : option Z }.

Inductive MemoryError :=
| NotDecoded (s : Span) | Limits (t : TopOfMemory) | ReservationOutsideDram (s : Span) | TooManyEntries.

Definition decodes (t : TopOfMemory) (s : Span) : res MemoryError bool :=
  let? e := span_end s in
  if e <=? tm_tom t then Ok true else
  match tm_tom2 t with
  | Some tom2 => if FOUR_GIB <=? sp_base s then let? e := span_end s in Ok (e <=? tom2) else Ok false
  | None => Ok false
  end.

(** [apob.size.next_multiple_of(0x1000)] panics when it overflows. *)
Definition standard_reservations {E} (generation : Generation) (apob : Span) (tseg : option Span)
  : res E (list Reservation) :=
  let apob_kind := match generation with Naples => Reserved | Rome | Milan => Nvs end in
  let? size := or_panic (try_from u64_max (next_multiple_of (sp_size apob) 0x1000)) in
  let apob := {| sp_base := sp_base apob; sp_size := size |} in
  let reserved span := {| rs_span := span; rs_kind := Reserved |} in
  Ok (filter (fun r => sp_size (rs_span r) <> 0)
    ([reserved LOW_RESERVED; reserved LEGACY_HOLE; {| rs_span := apob; rs_kind := apob_kind |}; reserved CACHE_WINDOW]
     ++ match tseg with Some s => [reserved s] | None => [] end)).

(** ** What covers an address: the higher wins *)

Inductive Use := URam | UNvs | UReserved.

#[export] Instance Use_eq_dec : EqDecision Use.
Proof. solve_decision. Defined.

Definition use_rank (u : Use) : Z := match u with URam => 0 | UNvs => 1 | UReserved => 2 end.
Definition use_kind (u : Use) : E820Kind := match u with URam => Ram | UNvs => Nvs | UReserved => Reserved end.
Definition of_reservation (k : E820Kind) : Use := match k with Ram => URam | Nvs => UNvs | _ => UReserved end.

Definition max_use (m : option Use) (u : Use) : option Use :=
  match m with Some v => if use_rank v <=? use_rank u then Some u else Some v | None => Some u end.

Definition region_span (r : Region) : Span := {| sp_base := r_base r; sp_size := r_size r |}.
Definition is_mmio (r : Region) : bool := bool_decide (r_kind r = RkMmio).

(** The base layer and the overlay. *)
Definition base_layers (regions : list Region) : list (Span * Use) :=
  map (fun r => (region_span r, if is_ram (r_kind r) then URam else UReserved))
    (filter (fun r => is_mmio r = false) regions).
Definition overlay_layers (reservations : list Reservation) : list (Span * Use) :=
  map (fun r => (rs_span r, of_reservation (rs_kind r))) reservations.

Definition strongest {E} (layers : list (Span * Use)) (piece : Span) : res E (option Use) :=
  fold_each layers None (fun m l => let? c := contains l.1 piece in Ok (if c : bool then max_use m l.2 else m)).

(** The points of a list two by two, as [windows(2)]. *)
Fixpoint windows2 {A} (l : list A) : list (A * A) :=
  match l with
  | x :: (y :: _) as l' => (x, y) :: windows2 l'
  | _ => []
  end.

(** The step of the last [try_fold]: [s] is the output and its count. *)
Definition merge_piece (s : list E820Entry * Z) (piece : Span) (usage : Use) : res MemoryError (list E820Entry * Z) :=
  let '(out, n) := s in
  let kind := kind_code (use_kind usage) in
  let append :=
    if n <? zlen out
    then Ok (<[Z.to_nat n := entry_new (sp_base piece) (sp_size piece) (use_kind usage)]> out, n + 1)
    else Err TooManyEntries in
  match checked_sub n 1 with
  | Some i =>
      let? last := or_panic (get out i) in
      if ee_kind last =? kind then
        let? last_end := add_or_panic u64_max (ee_addr last) (ee_size last) in
        if last_end =? sp_base piece then
          let? size := add_or_panic u64_max (ee_size last) (sp_size piece) in
          Ok (<[Z.to_nat i := {| ee_addr := ee_addr last; ee_size := size; ee_kind := ee_kind last |}]> out, n)
        else append
      else append
  | None => append
  end.

Definition sweep_window (layers : list (Span * Use)) (s : list E820Entry * Z) (w : Z * Z)
  : res MemoryError (list E820Entry * Z) :=
  if w.1 <? w.2 then
    let piece := {| sp_base := w.1; sp_size := w.2 - w.1 |} in
    let? usage := strongest layers piece in
    match usage with Some u => merge_piece s piece u | None => Ok s end
  else Ok s.

Definition layer_points (points : list Z) (l : Span * Use) : res MemoryError (list Z) :=
  let? e := span_end l.1 in
  if zlen points + 2 <=? MAX_POINTS then Ok (points ++ [sp_base l.1; e]) else Err TooManyEntries.

Section e820.
Context `{UnstableSort}.

(** The output array afterwards and the number of its entries. *)
Definition sp3_e820 (regions : list Region) (limits : TopOfMemory) (reservations : list Reservation)
    (out : list E820Entry) : res MemoryError (list E820Entry * Z) :=
  fail_if (FOUR_GIB <? tm_tom limits) || match tm_tom2 limits with Some tom2 => tom2 <=? FOUR_GIB | None => false end
    with Limits limits;
  let? bad := find_res (fun r => if is_ram (r_kind r) then let? d := decodes limits (region_span r) in Ok (negb d)
                                 else Ok false) regions in
  match bad with
  | Some r => Err (NotDecoded (region_span r))
  | None =>
      let? ends := fold_each regions [] (fun ends r => let? e := span_end (region_span r) in Ok (ends ++ [e])) in
      let top := fold_left Z.max ends 0 in
      let? bad := find_res (fun res =>
        let? e := span_end (rs_span res) in
        if top <? e then Ok true else
        any_res (fun r => if is_mmio r then overlaps (region_span r) (rs_span res) else Ok false) regions) reservations in
      match bad with
      | Some r => Err (ReservationOutsideDram (rs_span r))
      | None =>
          let? layers := collect MAX_POINTS TooManyEntries
            (filter (fun l => sp_size l.1 <> 0) (base_layers regions ++ overlay_layers reservations)) in
          let? points := fold_each layers [] layer_points in
          fold_each (windows2 (sort_unstable Z.leb points)) (out, 0) (sweep_window layers)
      end
  end.

(** [build_e820]; the platform halts on an error. *)
Definition build_e820 (generation : Generation) (regions : list Region) (tops : TopOfMemory) (apob tseg : Span)
  : res MemoryError E820State :=
  let? reservations := standard_reservations generation apob (Some tseg) in
  let? (out, count) := sp3_e820 regions tops reservations (es_entries e820_new) in
  let? ram := sum_ram (take (Z.to_nat count) out) in
  let (s, r) := set_detected count ram (with_entries e820_new out) in
  let? _ := map_err (fun _ => TooManyEntries) r in Ok s.
End e820.

(** ** Spans without overflow *)

Definition span_ok (s : Span) : Prop := 0 <= sp_base s /\ 0 <= sp_size s /\ sp_base s + sp_size s <= u64_max.
Definition in_span (s : Span) (x : Z) : Prop := sp_base s <= x < sp_base s + sp_size s.

#[local] Instance in_span_dec s x : Decision (in_span s x).
Proof. unfold in_span. apply _. Defined.

Lemma span_end_ok {E} s : span_ok s -> @span_end E s = Ok (sp_base s + sp_size s).
Proof. intros (? & ? & ?). unfold span_end, add_or_panic. by rewrite checked_add_ok by done. Qed.

Definition within (s other : Span) : bool :=
  (sp_base s <=? sp_base other) && (sp_base other + sp_size other <=? sp_base s + sp_size s).

Lemma contains_ok {E} s other : span_ok s -> span_ok other -> @contains E s other = Ok (within s other).
Proof. intros. unfold contains, within. rewrite !span_end_ok by done. by destruct (_ <=? _). Qed.

Lemma overlaps_ok {E} s other : span_ok s -> span_ok other ->
  @overlaps E s other = Ok ((sp_base s <? sp_base other + sp_size other) && (sp_base other <? sp_base s + sp_size s)).
Proof. intros. unfold overlaps. rewrite !span_end_ok by done. cbn [rbind]. by destruct (sp_base s <? _). Qed.

Lemma find_res_pure {E A} (f : A -> res E bool) (g : A -> bool) l : (forall x, x ∈ l -> f x = Ok (g x)) ->
  match find_res f l with
  | Ok None => forall x, x ∈ l -> g x = false
  | Ok (Some y) => y ∈ l /\ g y = true
  | _ => False
  end.
Proof.
  induction l as [|y l IH]; intros Hf; cbn [find_res]; [by intros x ?%elem_of_nil|].
  setoid_rewrite elem_of_cons in Hf. rewrite (Hf y) by auto. cbn [rbind].
  destruct (g y) eqn:Hg; [split; [by left|done]|]. specialize (IH ltac:(auto)).
  destruct (find_res f l) as [[z|]|e|]; [|..|done].
  - destruct IH. split; [by right|done].
  - intros x [->|?]%elem_of_cons; auto.
  - done.
Qed.

Lemma any_res_pure {E A} (f : A -> res E bool) (g : A -> bool) l : (forall x, x ∈ l -> f x = Ok (g x)) ->
  any_res f l = Ok (existsb g l).
Proof.
  intros Hf. unfold any_res. induction l as [|y l IH]; [done|]. cbn [find_res existsb].
  setoid_rewrite elem_of_cons in Hf. rewrite (Hf y) by auto. cbn [rbind]. destruct (g y); [done|]. apply IH. auto.
Qed.

(** ** The strongest use *)

Definition best (p : Span * Use -> bool) (layers : list (Span * Use)) : option Use :=
  fold_left (fun m l => if p l then max_use m l.2 else m) layers None.

Lemma best_snoc p layers l : best p (layers ++ [l]) = if p l then max_use (best p layers) l.2 else best p layers.
Proof. unfold best. by rewrite fold_left_app. Qed.

Lemma best_ext p q layers : (forall l, l ∈ layers -> p l = q l) -> best p layers = best q layers.
Proof.
  induction layers as [|l layers IH] using rev_ind; intros H; [done|]. rewrite !best_snoc.
  setoid_rewrite elem_of_app in H. setoid_rewrite list_elem_of_singleton in H. rewrite (H l) by auto. rewrite IH by auto. done.
Qed.

Lemma best_None p layers : best p layers = None <-> forall l, l ∈ layers -> p l = false.
Proof.
  induction layers as [|l layers IH] using rev_ind.
  { split; [by intros _ l ?%elem_of_nil|done]. }
  rewrite best_snoc. setoid_rewrite elem_of_app. setoid_rewrite list_elem_of_singleton.
  destruct (p l) eqn:Hp; [|naive_solver]. split; [|intros H; specialize (H l (or_intror eq_refl)); congruence].
  destruct (best p layers); cbn [max_use]; [by destruct (_ <=? _)|done].
Qed.

(** [u] is the use of some layer that [p] picks, and none is stronger. *)
Definition strongest_of (p : Span * Use -> bool) (layers : list (Span * Use)) (u : Use) : Prop :=
  (exists l, l ∈ layers /\ p l = true /\ l.2 = u) /\ (forall l, l ∈ layers -> p l = true -> use_rank l.2 <= use_rank u).

Lemma best_Some p layers u : best p layers = Some u <-> strongest_of p layers u.
Proof.
  unfold strongest_of. revert u. induction layers as [|l layers IH] using rev_ind; intros u.
  { split; [done|]. by intros [(l & ?%elem_of_nil & _) _]. }
  rewrite best_snoc. setoid_rewrite elem_of_app. setoid_rewrite list_elem_of_singleton.
  destruct (p l) eqn:Hp.
  2:{ rewrite IH. split; intros [(l' & Hl' & Hp' & Hu) Hm]; split.
      - exists l'. auto.
      - intros l2 [?| ->] ?; [auto|congruence].
      - exists l'. destruct Hl' as [?| ->]; [auto|congruence].
      - auto. }
  destruct (best p layers) as [v|] eqn:Hv; cbn [max_use].
  - specialize (IH v). destruct IH as [IH _]. destruct (IH eq_refl) as [(lv & Hin & Hpv & Hlv) Hmax]. clear IH.
    destruct (Z.leb_spec (use_rank v) (use_rank l.2)) as [Hle|Hgt]; split.
    + intros [= <-]. split; [eauto|]. intros l' [Hl'| ->] Hp'; [specialize (Hmax l' Hl' Hp'); lia|lia].
    + intros [(l' & Hl' & Hp' & <-) Hm]. f_equal. pose proof (Hm l (or_intror eq_refl) Hp).
      destruct Hl' as [Hl'| ->]; [|done]. specialize (Hmax l' Hl' Hp').
      assert (use_rank l.2 = use_rank l'.2) as Hr by lia. by destruct l.2, l'.2.
    + intros [= <-]. split; [eauto|]. intros l' [Hl'| ->] Hp'; [auto|lia].
    + intros [(l' & Hl' & Hp' & <-) Hm]. f_equal. pose proof (Hm lv (or_introl Hin) Hpv) as Hge. rewrite Hlv in Hge.
      destruct Hl' as [Hl'| ->]; [|lia]. specialize (Hmax l' Hl' Hp').
      assert (use_rank v = use_rank l'.2) as Hr by lia. by destruct v, l'.2.
  - rewrite best_None in Hv. split.
    + intros [= <-]. split; [eauto|]. intros l' [Hl'| ->] Hp'; [by rewrite Hv in Hp'|lia].
    + intros [(l' & [Hl'| ->] & Hp' & <-) _]; [by rewrite Hv in Hp'|done].
Qed.

Lemma strongest_ok {E} layers piece : Forall (fun l => span_ok l.1) layers -> span_ok piece ->
  @strongest E layers piece = Ok (best (fun l => within l.1 piece) layers).
Proof.
  intros Hl Hp. unfold strongest, best. generalize (@None Use) as m.
  induction Hl as [|l layers Hl _ IH]; intros m; cbn [fold_each fold_left]; [done|].
  rewrite contains_ok by done. cbn [rbind]. apply IH.
Qed.

(** ** The windows of the sorted points *)

Lemma windows2_cons {A} (x y : A) l : windows2 (x :: y :: l) = (x, y) :: windows2 (y :: l).
Proof. done. Qed.

Lemma windows2_in {A} (l : list A) a b : (a, b) ∈ windows2 l -> a ∈ l /\ b ∈ l.
Proof.
  induction l as [|x [|y l] IH]; [by intros ?%elem_of_nil..|]. rewrite windows2_cons.
  intros [[= -> ->]|Hin]%elem_of_cons; [split; [by left|right; by left]|]. destruct (IH Hin). split; by right.
Qed.

Lemma windows2_gap l a b p : StronglySorted (ordered Z.leb) l -> (a, b) ∈ windows2 l -> p ∈ l -> a <= b /\ (p <= a \/ b <= p).
Proof.
  revert p. induction l as [|x [|y l] IH]; intros p Hs; [by intros ?%elem_of_nil..|]. rewrite windows2_cons.
  apply StronglySorted_inv in Hs as [Hs Hx]. rewrite list.Forall_forall in Hx.
  assert (Hxy : forall q, q ∈ y :: l -> x <= q) by (intros q Hq; by apply Z.leb_le, Hx).
  apply StronglySorted_inv in Hs as Hs'. destruct Hs' as [_ Hy]. rewrite list.Forall_forall in Hy.
  intros [[= -> ->]|Hin]%elem_of_cons Hp.
  - split; [apply Hxy; by left|]. apply elem_of_cons in Hp as [->|Hp]; [left; lia|]. right.
    apply elem_of_cons in Hp as [->|Hp]; [lia|]. by apply Z.leb_le, Hy.
  - destruct (windows2_in _ _ _ Hin) as [Ha Hb]. apply elem_of_cons in Hp as [->|Hp]; [|by apply IH].
    split; [by apply (IH a)|]. left. by apply Hxy.
Qed.

Lemma windows2_cover l p q x : StronglySorted (ordered Z.leb) l -> p ∈ l -> q ∈ l -> p <= x < q ->
  exists a b, (a, b) ∈ windows2 l /\ a <= x < b.
Proof.
  revert p. induction l as [|y [|z l] IH]; intros p Hs Hp Hq Hx; [by apply elem_of_nil in Hp| |].
  { apply list_elem_of_singleton in Hp, Hq. subst. lia. }
  apply StronglySorted_inv in Hs as [Hs Hy]. rewrite list.Forall_forall in Hy. rewrite windows2_cons.
  destruct (Z.lt_ge_cases x z) as [Hz|Hz].
  - exists y, z. split; [by left|]. split; [|done]. apply elem_of_cons in Hp as [->|Hp]; [lia|].
    specialize (Hy p Hp). apply Z.leb_le in Hy. lia.
  - assert (q ∈ z :: l).
    { apply elem_of_cons in Hq as [->|?]; [|done]. specialize (Hy z ltac:(by left)). apply Z.leb_le in Hy. lia. }
    destruct (IH z Hs) as (a & b & ? & ?); [by left|done|lia|]. exists a, b. split; [by right|done].
Qed.

(** ** The sweep *)

Definition layers_ok (layers : list (Span * Use)) : Prop := Forall (fun l => span_ok l.1) layers.

Definition use_at (layers : list (Span * Use)) (x : Z) : option Use := best (fun l => bool_decide (in_span l.1 x)) layers.

(** The entry a window gives. *)
Definition window_entry (layers : list (Span * Use)) (w : Z * Z) : list E820Entry :=
  if w.1 <? w.2 then
    match best (fun l => within l.1 {| sp_base := w.1; sp_size := w.2 - w.1 |}) layers with
    | Some u => [entry_new w.1 (w.2 - w.1) (use_kind u)]
    | None => []
    end
  else [].

Lemma window_entry_one layers w : zlen (window_entry layers w) <= 1.
Proof. unfold window_entry. by repeat case_match. Qed.

Lemma merge_piece_append cap s l piece u :
  fills cap s l -> Forall entry_ok l -> span_ok piece -> 0 < sp_size piece ->
  merge_piece s piece u = map_err (fun _ => TooManyEntries)
    (append_entry s (entry_new (sp_base piece) (sp_size piece) (use_kind u))).
Proof.
  intros Hf Hl (P1 & P2 & P3) Hz. destruct s as [out n]. pose proof Hf as (Hcap & Hn & _). cbn [fst snd] in Hcap, Hn.
  subst n. unfold merge_piece, append_entry, entry_new. cbn [ee_addr ee_size ee_kind].
  test_false (sp_size piece =? 0). pose proof (zlen_nonneg l).
  destruct (list.last l) as [p|] eqn:Hp.
  - apply last_Some in Hp as [l0 ->]. assert (0 < zlen (l0 ++ [p])) by (rewrite zlen_app, zlen_cons, @zlen_nil; pose proof (zlen_nonneg l0); lia).
    rewrite checked_sub_ok by lia. test_true (0 <? zlen (l0 ++ [p])). rewrite (fills_get_last cap) by done. cbn [or_panic rbind].
    apply list.Forall_app in Hl as [_ Hok%Forall_inv]. rewrite entry_end_ok by done. destruct Hok as (? & ? & ?).
    destruct (ee_kind p =? _); cbn [andb]; [|by destruct (_ <? _)].
    unfold add_or_panic at 1. rewrite checked_add_ok by lia. cbn [or_panic rbind].
    destruct (Z.eqb_spec (ee_addr p + ee_size p) (sp_base piece)); [|by destruct (_ <? _)].
    unfold add_or_panic. rewrite checked_add_ok by lia. cbn [or_panic rbind map_err]. unfold saturating_add.
    by rewrite Z.min_r by lia.
  - apply last_None in Hp. subst l. change (zlen (@nil E820Entry)) with 0.
    replace (checked_sub 0 1) with (@None Z) by done. test_false (0 <? 0). by destruct (_ <? _).
Qed.

Lemma sweep_window_spec cap layers s l w : layers_ok layers -> 0 <= w.1 -> w.2 <= u64_max ->
  fills cap s l -> Forall entry_ok l ->
  match sweep_window layers s w with
  | Ok s' => exists l', fills cap s' l' /\ extended l (window_entry layers w) l'
  | Err e => e = TooManyEntries /\ cap < zlen l + 1
  | Panic => False
  end.
Proof.
  intros Hlay H1 H2 Hf Hl. unfold sweep_window, window_entry.
  destruct (Z.ltb_spec (w.1) (w.2)); [|exists l; split; [done|by apply extended_nil]].
  set (piece := {| sp_base := w.1; sp_size := w.2 - w.1 |}). assert (Hp : span_ok piece) by (unfold span_ok; cbn; lia).
  rewrite strongest_ok by done. cbn [rbind].
  destruct (best _ layers) as [u|]; [|exists l; split; [done|by apply extended_nil]].
  rewrite (merge_piece_append cap _ l) by (done || (cbn; lia)). cbn [sp_base sp_size piece].
  set (e := entry_new (w.1) (w.2 - w.1) (use_kind u)).
  pose proof (append_entry_spec cap s l e Hf Hl ltac:(unfold entry_ok, e; cbn; lia)) as Ha.
  by destruct (append_entry s e) as [s1|err|].
Qed.

Lemma sweep_all_spec cap layers ws : layers_ok layers ->
  Forall (fun w => 0 <= w.1 /\ w.2 <= u64_max) ws -> forall s l, fills cap s l -> Forall entry_ok l ->
  match fold_each ws s (sweep_window layers) with
  | Ok s' => exists l', fills cap s' l' /\ extended l (ws ≫= window_entry layers) l'
  | Err e => e = TooManyEntries /\ cap < zlen l + zlen ws
  | Panic => False
  end.
Proof.
  intros Hlay. induction 1 as [|w ws [H1 H2] Hws IH]; intros s l Hf Hl; cbn [fold_each].
  { exists l. split; [done|by apply extended_nil]. }
  rewrite bind_cons. pose proof (sweep_window_spec cap layers s l w Hlay H1 H2 Hf Hl) as Hstep.
  pose proof (zlen_nonneg ws). rewrite zlen_cons.
  destruct (sweep_window layers s w) as [s1|err|]; cbn [rbind]; [|split; [by destruct Hstep|destruct Hstep; lia]|done].
  destruct Hstep as (l1 & Hf1 & E1). specialize (IH s1 l1 Hf1 (ex_ok _ _ _ E1)).
  pose proof (ex_length _ _ _ E1). pose proof (window_entry_one layers w).
  destruct (fold_each ws s1 _) as [s2|err|]; [|split; [by destruct IH|destruct IH; lia]|done]. destruct IH as (l2 & Hf2 & E2). exists l2. split; [done|].
  by eapply extended_trans.
Qed.

Lemma windows_chain layers l lo hi : StronglySorted (ordered Z.leb) l ->
  Forall (fun p => lo <= p <= hi) l -> lo <= hi -> chain lo (windows2 l ≫= window_entry layers) hi.
Proof.
  revert lo. induction l as [|x [|y l] IH]; intros lo Hs Hl Hlo; [done..|]. rewrite windows2_cons, bind_cons.
  apply list.Forall_cons in Hl as [Hx Hl]. apply StronglySorted_inv in Hs as [Hs Hxs].
  pose proof (Forall_inv Hl) as Hy. cbn beta in Hy. pose proof (Forall_inv Hxs) as Hxy. apply Z.leb_le in Hxy.
  assert (Hrest : chain y (windows2 (y :: l) ≫= window_entry layers) hi).
  { apply IH; [done| |lia]. apply StronglySorted_inv in Hs as [_ Hys]. rewrite list.Forall_forall in *.
    intros p Hp. split; [|by apply Hl]. apply elem_of_cons in Hp as [->|Hp]; [lia|]. by apply Z.leb_le, Hys. }
  apply chain_app. exists y. split; [|done]. unfold window_entry. cbn [fst snd].
  repeat case_match; bool_hyp; cbn [chain ee_addr ee_size entry_new]; lia.
Qed.

(** Between two neighbouring points a layer covers all or nothing. *)
Lemma window_best layers points a b x :
  (forall l, l ∈ layers -> sp_base l.1 ∈ points /\ sp_base l.1 + sp_size l.1 ∈ points) ->
  StronglySorted (ordered Z.leb) points -> (a, b) ∈ windows2 points -> a <= x < b ->
  best (fun l => within l.1 {| sp_base := a; sp_size := b - a |}) layers = use_at layers x.
Proof.
  intros Hpts Hs Hw Hx. apply best_ext. intros l Hl. destruct (Hpts l Hl) as [H1 H2].
  destruct (windows2_gap _ _ _ _ Hs Hw H1) as [_ G1]. destruct (windows2_gap _ _ _ _ Hs Hw H2) as [_ G2].
  unfold within, in_span. cbn [sp_base sp_size]. apply eq_true_iff_eq.
  rewrite andb_true_iff, !Z.leb_le, bool_decide_eq_true. lia.
Qed.

Lemma windows_typed layers points x k :
  (forall l, l ∈ layers -> sp_base l.1 ∈ points /\ sp_base l.1 + sp_size l.1 ∈ points) ->
  StronglySorted (ordered Z.leb) points ->
  typed (windows2 points ≫= window_entry layers) x k <-> exists u, use_at layers x = Some u /\ k = kind_code (use_kind u).
Proof.
  intros Hpts Hs. split.
  - intros (e & ([a b] & He & Hw)%list_elem_of_bind & Hx & <-). unfold window_entry in He. cbn [fst snd] in He.
    destruct (Z.ltb_spec a b); [|by apply elem_of_nil in He].
    destruct (best _ layers) as [u|] eqn:Hu; [|by apply elem_of_nil in He]. apply list_elem_of_singleton in He as ->.
    unfold covers, entry_new in Hx. cbn in Hx. exists u. split; [|done]. rewrite <- Hu. symmetry.
    eapply window_best; [done..|lia].
  - intros (u & Hu & ->). pose proof (proj1 (best_Some _ _ _) Hu) as [(l & Hl & Hx & _) _]. apply bool_decide_eq_true in Hx.
    destruct (Hpts l Hl) as [H1 H2]. destruct (windows2_cover points _ _ x Hs H1 H2 Hx) as (a & b & Hw & Hab).
    exists (entry_new a (b - a) (use_kind u)). split; [|split; [unfold covers, entry_new; cbn; lia|done]].
    apply list_elem_of_bind. exists (a, b). split; [|done]. unfold window_entry. cbn [fst snd]. test_true (a <? b).
    erewrite window_best by done. rewrite Hu. by left.
Qed.

Lemma layer_points_spec layers : layers_ok layers -> forall points,
  match fold_each layers points layer_points with
  | Ok points' => points' = points ++ (layers ≫= fun l => [sp_base l.1; sp_base l.1 + sp_size l.1])
  | Err e => e = TooManyEntries /\ MAX_POINTS < zlen points + 2 * zlen layers
  | Panic => False
  end.
Proof.
  induction 1 as [|l layers Hl _ IH]; intros points; cbn [fold_each]; [by rewrite app_nil_r|].
  unfold layer_points at 1. rewrite span_end_ok by done. cbn [rbind]. rewrite zlen_cons. pose proof (zlen_nonneg layers).
  destruct (Z.leb_spec (zlen points + 2) MAX_POINTS); cbn [rbind]; [|split; [done|lia]].
  specialize (IH (points ++ [sp_base l.1; sp_base l.1 + sp_size l.1])). rewrite zlen_app, !zlen_cons, @zlen_nil in IH.
  destruct (fold_each _ _ _); [|split; [by destruct IH|destruct IH; lia]|done]. subst. by rewrite bind_cons, app_assoc.
Qed.

(** ** How many entries there can be *)

Lemma zlen_windows2 {A} (l : list A) : zlen (windows2 l) <= zlen l.
Proof.
  induction l as [|x [|y l] IH]; [done..|]. rewrite windows2_cons, !zlen_cons in *. lia.
Qed.

Lemma zlen_points (layers : list (Span * Use)) :
  zlen (layers ≫= fun l => [sp_base l.1; sp_base l.1 + sp_size l.1]) = 2 * zlen layers.
Proof. induction layers as [|l layers IH]; [done|]. rewrite bind_cons, zlen_app, IH, !zlen_cons, @zlen_nil. lia. Qed.

Lemma collect_full {A E} capacity (e : E) (l : list A) acc :
  match fold_each l acc (push capacity e) with
  | Ok l' => l' = acc ++ l
  | Err e' => e' = e /\ capacity < zlen acc + zlen l
  | Panic => False
  end.
Proof.
  revert acc. induction l as [|x l IH]; intros acc; cbn [fold_each]; [by rewrite app_nil_r|].
  rewrite zlen_cons. pose proof (zlen_nonneg l). unfold push at 1.
  destruct (Z.ltb_spec (zlen acc) capacity); cbn [rbind]; [|split; [done|lia]].
  specialize (IH (acc ++ [x])). rewrite zlen_app, zlen_cons, @zlen_nil in IH.
  destruct (fold_each l _ _); [by rewrite <- app_assoc in IH|split; [by destruct IH|destruct IH; lia]|done].
Qed.

(** ** The result *)

Definition all_layers (regions : list Region) (reservations : list Reservation) : list (Span * Use) :=
  base_layers regions ++ overlay_layers reservations.

Definition covering (x : Z) (l : Span * Use) : bool := bool_decide (in_span l.1 x).

Definition region_ok (r : Region) : Prop := span_ok (region_span r).

(** TOM and TOM2 decode the span as DRAM. *)
Definition decoded (t : TopOfMemory) (s : Span) : Prop :=
  sp_base s + sp_size s <= tm_tom t \/
  exists tom2, tm_tom2 t = Some tom2 /\ FOUR_GIB <= sp_base s /\ sp_base s + sp_size s <= tom2.

Lemma decodes_ok t s : span_ok s -> exists b, decodes t s = Ok b /\ (b = true <-> decoded t s).
Proof.
  intros Hs. unfold decodes, decoded. rewrite span_end_ok by done. cbn [rbind].
  destruct (Z.leb_spec (sp_base s + sp_size s) (tm_tom t)); [exists true; tauto|].
  destruct (tm_tom2 t) as [tom2|]; [|exists false; naive_solver lia].
  destruct (Z.leb_spec FOUR_GIB (sp_base s)); [|exists false; naive_solver lia].
  eexists. split; [done|]. rewrite Z.leb_le. naive_solver lia.
Qed.

Lemma all_layers_ok regions reservations : Forall region_ok regions -> Forall (fun r => span_ok (rs_span r)) reservations ->
  layers_ok (all_layers regions reservations).
Proof.
  intros H1 H2. rewrite list.Forall_forall in H1. rewrite list.Forall_forall in H2. unfold layers_ok. apply list.Forall_forall.
  intros l [(r & -> & [_ Hr]%list_elem_of_filter)%list_elem_of_fmap|(r & -> & Hr)%list_elem_of_fmap]%elem_of_app; cbn.
  - by apply H1.
  - by apply H2.
Qed.

Lemma use_at_live layers x : use_at (filter (fun l => sp_size l.1 <> 0) layers) x = use_at layers x.
Proof.
  unfold use_at. induction layers as [|l layers IH] using rev_ind; [done|].
  rewrite filter_app, filter_cons, filter_nil, best_snoc. case_decide as Hz.
  - by rewrite best_snoc, IH.
  - rewrite app_nil_r, IH. assert (bool_decide (in_span l.1 x) = false) as ->; [|done].
    apply bool_decide_eq_false. unfold in_span. destruct (Z.eq_dec (sp_size l.1) 0); [lia|done].
Qed.

Lemma reservation_test_ok {A} (P : A -> res MemoryError bool) (Q : A -> bool) l :
  (forall x, x ∈ l -> P x = Ok (Q x)) ->
  exists o, find_res P l = Ok o /\ match o with None => forall x, x ∈ l -> Q x = false | Some y => y ∈ l /\ Q y = true end.
Proof. intros H. pose proof (find_res_pure P Q l H). destruct (find_res P l) as [[y|]|e|]; [eauto..|done|done]. Qed.

(** A reservation above the regions or in an MMIO hole. *)
Definition misplaced (regions : list Region) (s : Span) : bool :=
  (fold_left Z.max (map r_end regions) 0 <? sp_base s + sp_size s) ||
  existsb (fun r => is_mmio r && ((r_base r <? sp_base s + sp_size s) && (sp_base s <? r_end r))) regions.

Lemma region_ends_ok regions : Forall region_ok regions -> forall acc,
  fold_each regions acc (fun ends r => let? e := @span_end MemoryError (region_span r) in Ok (ends ++ [e])) = Ok (acc ++ map r_end regions).
Proof.
  induction 1 as [|r regions Hr _ IH]; intros acc; cbn [fold_each map]; [by rewrite app_nil_r|].
  rewrite span_end_ok by done. cbn [rbind]. rewrite IH, <- app_assoc. done.
Qed.

Definition limits_ok (t : TopOfMemory) : Prop :=
  tm_tom t <= FOUR_GIB /\ forall tom2, tm_tom2 t = Some tom2 -> FOUR_GIB < tom2.

Section result.
Context `{UnstableSort}.

#[local] Instance leb_total : Total (ordered Z.leb).
Proof. intros x y. rewrite !Z.leb_le. lia. Qed.
#[local] Instance leb_trans : Transitive (ordered Z.leb).
Proof. intros x y z. rewrite !Z.leb_le. lia. Qed.

Lemma sweep_result layers out : layers_ok layers ->
  match (let? points := fold_each layers [] layer_points in
         fold_each (windows2 (sort_unstable Z.leb points)) (out, 0) (sweep_window layers)) with
  | Ok s => exists l, fills (zlen out) s l /\ chain 0 l u64_max /\ canonical l /\
      forall x k, typed l x k <-> exists u, use_at layers x = Some u /\ k = kind_code (use_kind u)
  | Err e => e = TooManyEntries /\ Z.min MAX_POINTS (zlen out) < 2 * zlen layers
  | Panic => False
  end.
Proof.
  intros Hl. pose proof (layer_points_spec layers Hl []) as Hp. destruct (fold_each layers [] layer_points) as [points|e|]; cbn [rbind];
    [|destruct Hp as [? Hp]; rewrite @zlen_nil in Hp; split; [done|lia]|done].
  cbn [app] in Hp. subst points. set (points := layers ≫= _). set (sorted := sort_unstable Z.leb points).
  assert (Hperm : sorted ≡ₚ points) by apply sort_unstable_perm.
  assert (Hsorted : StronglySorted (ordered Z.leb) sorted) by (apply sort_unstable_sorted; apply _).
  assert (Hpts : forall l, l ∈ layers -> sp_base l.1 ∈ sorted /\ sp_base l.1 + sp_size l.1 ∈ sorted).
  { intros l Hin. rewrite !Hperm. unfold points.
    split; apply list_elem_of_bind; exists l; (split; [|done]); [by left|right; by left]. }
  assert (Hbounds : Forall (fun p => 0 <= p <= u64_max) sorted).
  { rewrite Hperm. apply list.Forall_forall. intros p (l & Hin & Hlin)%list_elem_of_bind.
    unfold layers_ok in Hl. rewrite list.Forall_forall in Hl. destruct (Hl l Hlin) as (? & ? & ?).
    apply elem_of_cons in Hin as [->| ->%list_elem_of_singleton]; lia. }
  pose proof (sweep_all_spec (zlen out) layers (windows2 sorted) Hl) as Hs. specialize (Hs ltac:(
    apply list.Forall_forall; intros [a b] [Ha Hb]%windows2_in; rewrite list.Forall_forall in Hbounds; cbn; split; [by apply Hbounds|by apply Hbounds])).
  specialize (Hs (out, 0) [] ltac:(done) (list.Forall_nil_2 _)).
  pose proof (zlen_windows2 sorted) as Hw.
  assert (zlen sorted = 2 * zlen layers) as Hlen by (unfold zlen at 1; rewrite Hperm; apply zlen_points). rewrite Hlen in Hw.
  destruct (fold_each _ _ _) as [s|e|]; [|destruct Hs as [? Hs]; rewrite @zlen_nil in Hs; split; [done|lia]|done]. destruct Hs as (l & Hf & [E1 E2 E3 E4 E5]). exists l. split; [done|]. split; [|split; [by apply E5|]].
  - apply E4. cbn [app]. apply windows_chain; [done..|by vm_compute].
  - intros x k. rewrite E2, windows_typed by done. pose proof (typed_nil x k). tauto.
Qed.

Lemma live_length regions reservations :
  zlen (filter (fun l : Span * Use => sp_size l.1 <> 0) (base_layers regions ++ overlay_layers reservations)) <=
    zlen regions + zlen reservations.
Proof.
  set (live := filter _ _). assert (length live <= length (base_layers regions ++ overlay_layers reservations))%nat as Hlive
    by apply length_filter.
  rewrite length_app in Hlive. unfold base_layers, overlay_layers in Hlive. rewrite !length_map in Hlive. unfold zlen.
  pose proof (length_filter (fun r => is_mmio r = false) regions). lia.
Qed.

Lemma sp3_e820_spec regions limits reservations out :
  Forall region_ok regions -> Forall (fun r => span_ok (rs_span r)) reservations ->
  match sp3_e820 regions limits reservations out with
  | Ok s =>
      limits_ok limits /\ (forall r, r ∈ regions -> r_kind r = RkRam -> decoded limits (region_span r)) /\
      (forall r, r ∈ reservations -> misplaced regions (rs_span r) = false) /\
      exists l, fills (zlen out) s l /\ chain 0 l u64_max /\ canonical l /\
        forall x k, typed l x k <->
          exists u, strongest_of (covering x) (all_layers regions reservations) u /\ k = kind_code (use_kind u)
  | Err (Limits t) => t = limits /\ ~ limits_ok limits
  | Err (NotDecoded s) => exists r, r ∈ regions /\ s = region_span r /\ r_kind r = RkRam /\ ~ decoded limits s
  | Err (ReservationOutsideDram s) => exists r, r ∈ reservations /\ s = rs_span r /\ misplaced regions s = true
  | Err TooManyEntries => Z.min MAX_POINTS (zlen out) < 2 * (zlen regions + zlen reservations)
  | Panic => False
  end.
Proof.
  intros Hr Hs. unfold sp3_e820. pose proof Hr as Hr'. pose proof Hs as Hs'. rewrite list.Forall_forall in Hr'. rewrite list.Forall_forall in Hs'.
  destruct (_ || _)%bool eqn:Hlim.
  { split; [done|]. intros [L1 L2]. destruct (tm_tom2 limits) as [tom2|]; bool_cases; [lia| |lia|done].
    specialize (L2 tom2 eq_refl). lia. }
  assert (limits_ok limits) as Hlok.
  { apply orb_false_iff in Hlim as [H1 H2]. bool_hyp. split; [done|]. intros tom2 E. rewrite E in H2. by bool_hyp. }
  set (dec := fun r => match decodes limits (region_span r) with Ok b => negb b | _ => false end).
  destruct (reservation_test_ok (fun r => if is_ram (r_kind r) then let? d := decodes limits (region_span r) in Ok (negb d) else Ok false)
    (fun r => is_ram (r_kind r) && dec r) regions) as (o & Ho & Hres).
  { intros r Hin. destruct (decodes_ok limits (region_span r) (Hr' r Hin)) as (b & Hb & _). unfold dec. rewrite Hb.
    by destruct (is_ram _). }
  rewrite Ho. cbn [rbind]. clear Ho. destruct o as [r|].
  { destruct Hres as [Hin Hd]. bool_hyp. exists r. split; [done|]. split; [done|]. split; [by destruct (r_kind r)|].
    destruct (decodes_ok limits (region_span r) (Hr' r Hin)) as (b & Hb & Hiff). unfold dec in *.
    match goal with X : context [decodes] |- _ => rewrite Hb in X; apply negb_true_iff in X; subst b end. by intros Hx%Hiff. }
  rewrite (region_ends_ok _ Hr). cbn [rbind app].
  destruct (reservation_test_ok (fun res => let? e := span_end (rs_span res) in
      if fold_left Z.max (map r_end regions) 0 <? e then Ok true else
      any_res (fun r => if is_mmio r then overlaps (region_span r) (rs_span res) else Ok false) regions)
    (fun res => misplaced regions (rs_span res)) reservations) as (o & Ho & Hm).
  { intros q Hin. rewrite span_end_ok by auto. cbn [rbind]. unfold misplaced. destruct (fold_left Z.max _ 0 <? _); [done|]. cbn [orb].
    apply any_res_pure. intros r Hrin. destruct (is_mmio r); [|done].
    rewrite overlaps_ok; [done|by apply Hr'|by apply Hs']. }
  rewrite Ho. cbn [rbind]. clear Ho. destruct o as [r|]; [destruct Hm; eauto|].
  set (live := filter _ _). pose proof (live_length regions reservations) as Hlen. fold live in Hlen.
  pose proof (collect_full MAX_POINTS TooManyEntries live []) as Hc.
  unfold collect. destruct (fold_each live [] (push MAX_POINTS TooManyEntries)) as [layers|e|]; cbn [rbind]; [|destruct Hc as [-> Hc]; rewrite @zlen_nil in Hc; pose proof (zlen_nonneg live); lia|done].
  cbn [app] in Hc. subst layers.
  assert (Hlive : layers_ok live).
    { pose proof (all_layers_ok _ _ Hr Hs) as Ha. unfold layers_ok in *. rewrite list.Forall_forall in *.
      intros l [_ Hl]%list_elem_of_filter. by apply Ha. }
    pose proof (sweep_result live out Hlive) as Hsw. destruct (fold_each live [] layer_points) as [points|e|]; cbn [rbind] in *;
      [|destruct Hsw as [-> Hsw]; lia|done]. destruct (fold_each (windows2 _) _ _) as [s|e|]; [|destruct Hsw as [-> Hsw]; lia|done].
    split; [done|]. split.
    { intros r Hin Hk. specialize (Hres r Hin). rewrite Hk in Hres. cbn [is_ram andb] in Hres.
      destruct (decodes_ok limits (region_span r) (Hr' r Hin)) as (b & Hb & Hiff). unfold dec in Hres. rewrite Hb in Hres.
      apply Hiff. by destruct b. }
    split; [done|]. destruct Hsw as (l & Hf & Hch & Hcan & Ht). exists l. do 3 (split; [done|]). intros x k. rewrite Ht.
    unfold live. rewrite use_at_live. unfold use_at. setoid_rewrite best_Some. done.
Qed.
End result.

(** *** What the map should say, address by address *)

Definition reserved_at (regions : list Region) (reservations : list Reservation) (x : Z) : Prop :=
  (exists k, region_at regions x k /\ k <> RkRam /\ k <> RkMmio) \/
  (exists q, q ∈ reservations /\ in_span (rs_span q) x /\ rs_kind q <> Ram /\ rs_kind q <> Nvs).
Definition nvs_at (reservations : list Reservation) (x : Z) : Prop :=
  exists q, q ∈ reservations /\ in_span (rs_span q) x /\ rs_kind q = Nvs.
Definition ram_at (regions : list Region) (reservations : list Reservation) (x : Z) : Prop :=
  region_at regions x RkRam \/ exists q, q ∈ reservations /\ in_span (rs_span q) x /\ rs_kind q = Ram.

(** The kind of an address: what is reserved stays so whatever else covers it, and
    non-volatile storage beats RAM. *)
Definition kind_at (regions : list Region) (reservations : list Reservation) (x : Z) (k : E820Kind) : Prop :=
  match k with
  | Reserved => reserved_at regions reservations x
  | Nvs => nvs_at reservations x /\ ~ reserved_at regions reservations x
  | Ram => ram_at regions reservations x /\ ~ nvs_at reservations x /\ ~ reserved_at regions reservations x
  | _ => False
  end.

(** No region reaches the end of the span, or memory-mapped I/O shares an address with it
    (a span without addresses is at fault where it lies strictly inside the I/O). *)
Definition outside_dram (regions : list Region) (s : Span) : Prop :=
  (0 < sp_base s + sp_size s /\ forall r, r ∈ regions -> r_base r + r_size r < sp_base s + sp_size s) \/
  (exists r, r ∈ regions /\ r_kind r = RkMmio /\
    r_base r < sp_base s + sp_size s /\ sp_base s < r_base r + r_size r).

Lemma fold_max_lt (l : list Z) (t e : Z) : fold_left Z.max l t < e <-> t < e /\ forall z, z ∈ l -> z < e.
Proof.
  revert t. induction l as [|z l IH]; intros t; cbn [fold_left].
  - split; [intros ?; split; [done|by intros z ?%elem_of_nil]|by intros [??]].
  - rewrite IH. setoid_rewrite elem_of_cons. split; [intros [? H]; split; [lia|intros ? [->|?]; [lia|auto]]|].
    intros [? H]. split; [specialize (H z); naive_solver lia|auto].
Qed.

Lemma misplaced_iff regions s : misplaced regions s = true <-> outside_dram regions s.
Proof.
  unfold misplaced, outside_dram. rewrite orb_true_iff, Z.ltb_lt, fold_max_lt, existsb_exists.
  f_equiv.
  - apply and_iff_compat_l. setoid_rewrite list_elem_of_fmap. unfold r_end. naive_solver.
  - unfold is_mmio, r_end. split.
    + intros (r & Hr%list_elem_of_In & H). exists r. bool_hyp. naive_solver.
    + intros (r & Hr%list_elem_of_In & Hk & ? & ?). exists r. split; [done|].
      rewrite !andb_true_iff, !Z.ltb_lt. split; [by apply bool_decide_eq_true|done].
Qed.

(** Some layer that covers [x] has the use [u]. *)
Definition used (regions : list Region) (reservations : list Reservation) (x : Z) (u : Use) : Prop :=
  exists l, l ∈ all_layers regions reservations /\ covering x l = true /\ l.2 = u.

Lemma used_iff regions reservations x u : used regions reservations x u <->
  (exists r, r ∈ regions /\ r_kind r <> RkMmio /\ in_span (region_span r) x /\
     u = if is_ram (r_kind r) then URam else UReserved) \/
  (exists q, q ∈ reservations /\ in_span (rs_span q) x /\ u = of_reservation (rs_kind q)).
Proof.
  unfold used, all_layers, covering. split.
  - intros (l & [(r & -> & [Hm Hr]%list_elem_of_filter)%list_elem_of_fmap|(q & -> & Hq)%list_elem_of_fmap]%elem_of_app & Hx & <-);
      apply bool_decide_eq_true in Hx.
    + left. exists r. unfold is_mmio in Hm. by apply bool_decide_eq_false in Hm.
    + right. by exists q.
  - intros [(r & Hr & Hm & Hx & ->)|(q & Hq & Hx & ->)]; eexists (_, _);
      (split; [apply elem_of_app|split; [by apply bool_decide_eq_true|done]]).
    + left. apply list_elem_of_fmap. exists r. split; [done|]. apply list_elem_of_filter. split; [|done].
      by apply bool_decide_eq_false.
    + right. apply list_elem_of_fmap. by exists q.
Qed.

Lemma used_reserved regions reservations x : used regions reservations x UReserved <-> reserved_at regions reservations x.
Proof.
  rewrite used_iff. unfold reserved_at, region_at. f_equiv.
  - split; [intros (r & Hr & Hm & Hx & Hu)|intros (k & (r & Hr & Hx & <-) & Hn & Hm)].
    + exists (r_kind r). split; [by exists r|]. split; [|done]. by destruct (r_kind r).
    + exists r. split_and!; [done..|]. by destruct (r_kind r).
  - split; intros (q & Hq & Hx & H); exists q; (split; [done|split; [done|]]); [by destruct (rs_kind q)|].
    destruct H. by destruct (rs_kind q).
Qed.

Lemma used_nvs regions reservations x : used regions reservations x UNvs <-> nvs_at reservations x.
Proof.
  rewrite used_iff. unfold nvs_at. split.
  - intros [(r & _ & _ & _ & Hu)|(q & Hq & Hx & Hu)]; [by destruct (is_ram _)|]. exists q. by destruct (rs_kind q).
  - intros (q & Hq & Hx & Hk). right. exists q. by rewrite Hk.
Qed.

Lemma used_ram regions reservations x : used regions reservations x URam <-> ram_at regions reservations x.
Proof.
  rewrite used_iff. unfold ram_at, region_at. f_equiv.
  - split; [intros (r & Hr & Hm & Hx & Hu)|intros (r & Hr & Hx & Hk)]; exists r; (split; [done|]); [|by rewrite Hk].
    split; [exact Hx|by destruct (r_kind r)].
  - split; intros (q & Hq & Hx & Hu); exists q; [by destruct (rs_kind q)|by rewrite Hu].
Qed.

Lemma strongest_kind regions reservations x k :
  (exists u, strongest_of (covering x) (all_layers regions reservations) u /\ k = kind_code (use_kind u)) <->
  exists K, kind_at regions reservations x K /\ k = kind_code K.
Proof.
  pose proof (used_reserved regions reservations x) as HR. pose proof (used_nvs regions reservations x) as HN.
  pose proof (used_ram regions reservations x) as HM. split.
  - intros (u & [(l & Hl & Hp & Hu) Hmax] & ->). exists (use_kind u). split; [|done].
    assert (Hx : used regions reservations x u) by (by exists l).
    assert (Hle : forall v, used regions reservations x v -> use_rank v <= use_rank u).
    { intros v (l' & Hl' & Hp' & <-). by apply Hmax. }
    destruct u; cbn [use_kind kind_at]; rewrite <- ?HR, <- ?HN, <- ?HM; split_and?; try done; intros Hv%Hle; cbn in Hv; lia.
  - intros (K & HK & ->).
    assert (exists u, use_kind u = K /\ used regions reservations x u /\
      forall v, used regions reservations x v -> use_rank v <= use_rank u) as (u & <- & (l & Hl & Hp & Hu) & Hmax).
    { destruct K; cbn [kind_at] in HK; try done; [exists URam|exists UReserved|exists UNvs];
        (split; [done|]); (split; [tauto|]); intros [] Hv; cbn; try lia; tauto. }
    exists u. split; [|done]. split; [by exists l|]. intros l' Hl' Hp'. apply Hmax. by exists l'.
Qed.

(** C24: The map says of every address what its users need.  Against any regions
    and reservations, [e820] never panics.  When it succeeds the limits are
    proper, every RAM region is decoded and every reservation lies in DRAM; the
    entries ascend without overlapping, none is empty and no two neighbours could
    be one; an address is reserved exactly when a hole that is not memory-mapped
    I/O or a reservation that is neither RAM nor non-volatile storage covers it,
    it is non-volatile storage exactly when such a reservation covers it and it is
    not reserved, it is RAM exactly when a RAM region or reservation covers it and
    it is neither of the two, and no other address has a kind.  An error names a
    limit, a region or a reservation that is really at fault; it is that there are
    too many entries only when the array or the list of points has less than two
    places for each region and reservation. *)
Theorem sp3_e820_means `{UnstableSort} regions limits reservations out :
  Forall region_ok regions -> Forall (fun r => span_ok (rs_span r)) reservations ->
  match sp3_e820 regions limits reservations out with
  | Ok (out', n) =>
      limits_ok limits /\ (forall r, r ∈ regions -> r_kind r = RkRam -> decoded limits (region_span r)) /\
      (forall q, q ∈ reservations -> ~ outside_dram regions (rs_span q)) /\
      exists l, take (Z.to_nat n) out' = l /\ zlen l = n /\ zlen out' = zlen out /\ chain 0 l u64_max /\ canonical l /\
        forall x k, typed l x k <-> exists K, kind_at regions reservations x K /\ k = kind_code K
  | Err (Limits t) => t = limits /\ ~ limits_ok limits
  | Err (NotDecoded s) => exists r, r ∈ regions /\ s = region_span r /\ r_kind r = RkRam /\ ~ decoded limits s
  | Err (ReservationOutsideDram s) => exists r, r ∈ reservations /\ s = rs_span r /\ outside_dram regions s
  | Err TooManyEntries => Z.min MAX_POINTS (zlen out) < 2 * (zlen regions + zlen reservations)
  | Panic => False
  end.
Proof.
  intros Hr Hs. pose proof (sp3_e820_spec regions limits reservations out Hr Hs) as Hspec.
  destruct (sp3_e820 regions limits reservations out) as [[out' n]|[]|]; try exact Hspec.
  - destruct Hspec as (? & ? & Hm & l & (F1 & F2 & F3) & Hc & Hcan & Ht). cbn [fst snd] in *.
    split; [done|]. split; [done|]. split.
    { intros q Hq Ho%misplaced_iff. rewrite Hm in Ho; done. }
    exists l. subst n. split; [unfold zlen; by rewrite Nat2Z.id|]. split_and!; [done..|].
    intros x k. by rewrite Ht, strongest_kind.
  - destruct Hspec as (r & ? & ? & Hm%misplaced_iff). by exists r.
Qed.

Definition rome_list : list Region := match rome_regions with Ok l => l | _ => [] end.
Definition rome_tops : TopOfMemory := {| tm_tom := 0x80000000; tm_tom2 := Some (1536 * GIB) |}.
Definition rome_apob : Span := {| sp_base := 0x30000000; sp_size := 0x12345 |}.
Definition rome_tseg : Span := {| sp_base := 0x7c000000; sp_size := 0x4000000 |}.

Example rome_e820 :
  match build_e820 Rome rome_list rome_tops rome_apob rome_tseg with
  | Ok s => map (fun e => (ee_addr e, ee_addr e + ee_size e, ee_kind e)) (entries s)
  | _ => []
  end =
  [(0, 0xf000, 2); (0xf000, 0xa0000, 1); (0xa0000, 0x100000, 2); (0x100000, 0x30000000, 1);
   (0x30000000, 0x30013000, 4); (0x30013000, 0x75000000, 1); (0x75000000, 0x76000000, 2); (0x76000000, 0x7c000000, 1);
   (0x7c000000, 0x80000000, 2); (0x100000000, 0x200000000, 1); (0x200000000, 0x210000000, 2);
   (0x210000000, 0xfd00000000, 1); (0xfd00000000, 2 ^ 40, 2); (2 ^ 40, 1536 * GIB, 1)].
Proof. vm_compute. reflexivity. Qed.

Lemma rome_list_ok : Forall region_ok rome_list.
Proof.
  unfold rome_list. destruct rome_regions as [l| |] eqn:E; vm_compute in E; try discriminate E. injection E as <-.
  repeat (apply list.Forall_cons_2; [by vm_compute|]). apply list.Forall_nil_2.
Qed.

(** The APOB of the example over the RAM of the low region. *)
Definition rome_reservation : Reservation := {| rs_span := {| sp_base := 0x30000000; sp_size := 0x13000 |}; rs_kind := Nvs |}.

Lemma rome_reservation_ok : Forall (fun r => span_ok (rs_span r)) [rome_reservation].
Proof. apply list.Forall_singleton. unfold span_ok. by vm_compute. Qed.

Lemma rome_apob_nvs : kind_at rome_list [rome_reservation] 0x30012345 Nvs.
Proof.
  split.
  - exists rome_reservation. split; [by left|]. split; [unfold in_span; by vm_compute|done].
  - unfold reserved_at, region_at, rome_list. destruct rome_regions as [l| |] eqn:E; vm_compute in E; try discriminate E. injection E as <-.
    intros [(k & (r & Hin & Hx & <-) & Hk & Hm)|(q & ->%list_elem_of_singleton & _ & _ & Hq)]; [|done].
    repeat (apply elem_of_cons in Hin as [->|Hin]; [vm_compute in Hx, Hk, Hm; naive_solver|]). by apply elem_of_nil in Hin.
Qed.

Lemma sp3_e820_means_witness : exists n out', sp3_e820 rome_list rome_tops [rome_reservation] no_entries = Ok (out', n) /\
  typed (take (Z.to_nat n) out') 0x30012345 (kind_code Nvs).
Proof.
  assert (Hn : match sp3_e820 rome_list rome_tops [rome_reservation] no_entries with Ok _ => True | _ => False end)
    by (vm_compute; reflexivity).
  pose proof (sp3_e820_means rome_list rome_tops [rome_reservation] no_entries rome_list_ok rome_reservation_ok) as H.
  destruct (sp3_e820 rome_list rome_tops [rome_reservation] no_entries) as [[out' n]|e|]; [|destruct Hn..].
  exists n, out'. split; [reflexivity|]. destruct H as (_ & _ & _ & l & -> & _ & _ & _ & _ & H).
  apply H. exists Nvs. split; [exact rome_apob_nvs|reflexivity].
Defined.

(** ** From the holes of the PSP to the map of the operating system *)

(** What the firmware of a server keeps. *)
Definition firmware_keeps (apob tseg : Span) (x : Z) : Prop :=
  in_span LOW_RESERVED x \/ in_span LEGACY_HOLE x \/
  in_span {| sp_base := sp_base apob; sp_size := next_multiple_of (sp_size apob) 0x1000 |} x \/
  in_span CACHE_WINDOW x \/ in_span tseg x.

Lemma standard_reservations_ok {E} g apob tseg rs : @standard_reservations E g apob (Some tseg) = Ok rs ->
  span_ok apob -> sp_base apob + next_multiple_of (sp_size apob) 0x1000 <= u64_max -> span_ok tseg ->
  Forall (fun r => span_ok (rs_span r) /\ rs_kind r <> Ram) rs /\
  forall x, (exists r, r ∈ rs /\ in_span (rs_span r) x) <-> firmware_keeps apob tseg x.
Proof.
  intros Hr (A1 & A2 & A3) Ha Ht. unfold standard_reservations in Hr. rust_step Hr. rust_step Ha0. apply try_from_Some in Ha0 as [-> _].
  injection Hr as <-. pose proof (next_multiple_of_spec (sp_size apob) 0x1000 ltac:(lia)) as [Hn _]. split.
  - apply list.Forall_forall. intros r [_ Hin]%list_elem_of_filter. cbn [app] in Hin.
    repeat (apply elem_of_cons in Hin as [->|Hin]; [split;
      [unfold span_ok, LOW_RESERVED, LEGACY_HOLE, CACHE_WINDOW, u64_max in *; cbn [rs_span sp_base sp_size]; lia|by destruct g]|]).
    by apply elem_of_nil in Hin.
  - intros x. unfold firmware_keeps. setoid_rewrite list_elem_of_filter. cbn [app]. split.
    + intros (r & [_ Hin] & Hx). repeat (apply elem_of_cons in Hin as [->|Hin]; [cbn [rs_span] in Hx; tauto|]). by apply elem_of_nil in Hin.
    + assert (Hz : forall s, in_span s x -> sp_size s <> 0) by (unfold in_span; lia).
      intros Hx.
      destruct Hx as [Hx|[Hx|[Hx|[Hx|Hx]]]]; eexists {| rs_span := _; rs_kind := _ |};
        (split; [split; [exact (Hz _ Hx)|]|exact Hx]); repeat first [left; reflexivity | right].
Qed.

Section composition.
Context `{UnstableSort}.

Lemma ram_layers regions rs x : (exists hi, ascending 0 regions hi) -> Forall (fun r => rs_kind r <> Ram) rs ->
  strongest_of (covering x) (all_layers regions rs) URam <->
  region_at regions x RkRam /\ ~ exists r, r ∈ rs /\ in_span (rs_span r) x.
Proof.
  intros [hi Ha] Hk. rewrite list.Forall_forall in Hk. unfold strongest_of, all_layers, covering. split.
  - intros [(l & Hin & Hx & Hu) Hmax]. apply bool_decide_eq_true in Hx. split.
    + apply elem_of_app in Hin as [(r & -> & [_ Hr]%list_elem_of_filter)%list_elem_of_fmap|(r & -> & Hr)%list_elem_of_fmap]; cbn in *.
      * exists r. split; [done|]. split; [exact Hx|]. by destruct (r_kind r).
      * specialize (Hk r Hr). by destruct (rs_kind r).
    + intros (r & Hr & Hrx). specialize (Hmax (rs_span r, of_reservation (rs_kind r))).
      assert (use_rank (of_reservation (rs_kind r)) <= 0) as Hle.
      { apply Hmax; [|by apply bool_decide_eq_true]. apply elem_of_app. right. apply list_elem_of_fmap. by exists r. }
      specialize (Hk r Hr). by destruct (rs_kind r).
  - intros [(r & Hr & Hx & Hrk) Hn]. split.
    + exists (region_span r, URam). split; [|split; [by apply bool_decide_eq_true|done]]. apply elem_of_app. left.
      apply list_elem_of_fmap. exists r. rewrite Hrk. split; [done|]. apply list_elem_of_filter. split; [|done].
      unfold is_mmio. by rewrite Hrk.
    + intros l [(q & -> & [_ Hq]%list_elem_of_filter)%list_elem_of_fmap|(q & -> & Hq)%list_elem_of_fmap]%elem_of_app Hqx;
        apply bool_decide_eq_true in Hqx; cbn in *; [|destruct Hn; by exists q].
      assert (r_kind q = RkRam) as ->; [|done].
      eapply (region_at_functional 0 regions hi x); [done|by exists q|by exists r].
Qed.

(** C12: Only free, decoded memory reaches the operating system.  Through the
    whole chain, from the holes the PSP reports over [memory_map], the standard
    reservations and [e820] to the state handed on: an address is offered as RAM
    exactly when it lies below the top of DRAM, in no hole and not in the range
    below 1 TiB, and is not kept by the firmware (low memory, the legacy area, the
    PSP's block rounded up to pages, the reset image's window, the SMM region);
    every such address is decoded as DRAM by TOM or TOM2; the entries ascend
    without overlapping, and the total is the sum of the RAM entries. *)
Theorem os_ram_is_free_dram generation top holes regions tops apob tseg s :
  top <= u64_max -> Forall hole_ok holes -> span_ok apob -> span_ok tseg ->
  sp_base apob + next_multiple_of (sp_size apob) 0x1000 <= u64_max ->
  memory_map (variant_of generation) top holes = Ok regions ->
  build_e820 generation regions tops apob tseg = Ok s ->
  chain 0 (entries s) u64_max /\ es_total_ram s = ram_bytes (entries s) /\
  (forall x, typed (entries s) x (kind_code Ram) <->
    0 <= x < top /\ ~ kept (variant_of generation) top holes x /\ ~ firmware_keeps apob tseg x) /\
  (forall x, typed (entries s) x (kind_code Ram) ->
    x < tm_tom tops \/ exists tom2, tm_tom2 tops = Some tom2 /\ FOUR_GIB <= x < tom2).
Proof.
  intros Htop Hh Ha Ht Hround Hm Hb. destruct (memory_map_ascending _ _ _ _ Htop Hh Hm) as (hi & Hasc & Hhi).
  assert (Hregs : Forall region_ok regions).
  { destruct (ascending_regions _ _ _ Hasc) as [Hl _]. eapply list.Forall_impl; [exact Hl|]. cbn.
    intros r (? & ? & ?). unfold region_ok, span_ok, r_end in *. cbn. lia. }
  pose proof (fun x => memory_map_ram _ _ _ _ x Hh Hm) as Hram.
  unfold build_e820 in Hb. rust_step Hb. destruct (standard_reservations_ok _ _ _ _ Ha0 Ha Hround Ht) as [Hrs Hkeep].
  rust_step Hb. destruct a0 as [out n].
  pose proof (sp3_e820_spec regions tops a (es_entries e820_new) Hregs) as Hspec.
  specialize (Hspec ltac:(eapply list.Forall_impl; [exact Hrs|]; by intros r [? _])). rewrite Ha1 in Hspec.
  destruct Hspec as (_ & Hdec & _ & l & Hf & Hc & _ & Htyped). pose proof Hf as (Hlen' & Hn & Hl). cbn [fst snd] in *. subst n.
  assert (Hl' : take (Z.to_nat (zlen l)) out = l) by (unfold zlen; by rewrite Nat2Z.id).
  rewrite Hl' in Hb. rewrite (sum_ram_ok l 0 u64_max) in Hb by done. cbn [rbind] in Hb.
  unfold set_detected in Hb. destruct (MAX_E820_ENTRIES <? zlen l); [done|]. injection Hb as <-.
  unfold entries. cbn [es_entries es_count es_total_ram with_entries]. rewrite Hl'.
  assert (Hx : forall x, typed l x (kind_code Ram) <->
    region_at regions x RkRam /\ ~ exists r, r ∈ a /\ in_span (rs_span r) x).
  { intros x. rewrite Htyped, <- ram_layers; [|by exists hi|eapply list.Forall_impl; [exact Hrs|]; by intros r [_ ?]].
    split; [|by exists URam]. intros (u & Hu & Hk%kind_code_inj). by destruct u. }
  split; [done|]. split; [done|]. split; intros x.
  - rewrite Hx, Hram, Hkeep. tauto.
  - rewrite Hx. intros [(r & Hr & Hrx & Hrk) _]. destruct (Hdec r Hr Hrk) as [Hd|(tom2 & Htom & Hd)];
      unfold r_end in Hrx; cbn in Hd; [left; lia|right; exists tom2; split; [done|lia]].
Qed.
End composition.

Lemma rome_holes_ok : Forall hole_ok rome_holes.
Proof. repeat (apply list.Forall_cons_2; [by vm_compute|]). apply list.Forall_nil_2. Qed.

Lemma rome_built : exists s, build_e820 Rome rome_list rome_tops rome_apob rome_tseg = Ok s.
Proof. destruct (build_e820 _ _ _ _ _) as [s|e|] eqn:E; [by exists s|vm_compute in E; discriminate E..]. Qed.

Lemma os_ram_is_free_dram_witness : exists s, build_e820 Rome rome_list rome_tops rome_apob rome_tseg = Ok s /\
  ~ typed (entries s) 0x30012345 (kind_code Ram).
Proof.
  assert (Hm : memory_map (variant_of Rome) (1536 * GIB) rome_holes = Ok rome_list) by (vm_compute; reflexivity).
  assert (Ha : span_ok rome_apob) by (unfold span_ok; by vm_compute).
  assert (Ht : span_ok rome_tseg) by (unfold span_ok; by vm_compute).
  assert (Htop : 1536 * GIB <= u64_max) by (vm_compute; discriminate).
  assert (Hr : sp_base rome_apob + next_multiple_of (sp_size rome_apob) 0x1000 <= u64_max) by (vm_compute; discriminate).
  assert (Hk : firmware_keeps rome_apob rome_tseg 0x30012345).
  { right. right. left. unfold in_span. vm_compute. split; [discriminate|reflexivity]. }
  destruct rome_built as [s E]. exists s. split; [exact E|].
  destruct (os_ram_is_free_dram Rome (1536 * GIB) rome_holes rome_list rome_tops rome_apob rome_tseg s
    Htop rome_holes_ok Ha Ht Hr Hm E) as (_ & _ & H & _).
  intros Hx. apply H in Hx. destruct Hx as (_ & _ & Hn). exact (Hn Hk).
Defined.
