(* ===== verification/Reader.v ===== *)
(** * Reader: the file system in a whole image
    ([crates/ffs/src/reader.rs])

    [FfsReader] works on the bytes of a complete image: it finds the locator and
    the policy record in it, authenticates the root under that policy, checks the
    directory against the root and reads the owned tree; it also reads and checks
    single files.  The locator, the root and the directory are those of [Locator],
    [Root] and [Manifest]. *)

From S2P Require Import Prelude.
From S2P Require Import Bytes.
From S2P Require Import Wire.
From S2P Require Import Services.
From S2P Require Import Crypto.
From S2P Require Import Root.
From S2P Require Import Manifest.
From S2P Require Import Locator.
From Stdlib Require Import ZArith Lia.
From stdpp Require Import base numbers list option.

#[local] Open Scope Z_scope.

Section reader.
Context {T : Target}.

(** ** The locator *)

(** [image.get(offset..)], then its first bytes. *)
Definition read_anchor (image : list Z) (offset : Z) : res ReaderError LocatorBlock :=
  let? data := ok_or (get_range image offset (zlen image)) OutOfBounds in
  let? bytes := ok_or (get_range data 0 LOCATOR_SIZE) OutOfBounds in
  ok_or (locator_parse bytes) ReaderBadMagic.

Definition read_anchor_volatile (data : list Z) : res ReaderError LocatorBlock :=
  ok_or (locator_read_volatile data) ReaderBadMagic.

Definition anchor_header_is_plausible (image : list Z) (offset : Z) : bool :=
  match get_range image offset (offset + 40) with
  | None => false
  | Some header =>
      let version := u32_at header 8 in
      let manifest_offset := u32_at header 12 in
      let manifest_size := u32_at header 16 in
      let total_image_size := u32_at header 20 in
      if negb (version =? LOCATOR_VERSION) || (manifest_size =? 0) then false else
      match checked_add usize_max manifest_offset manifest_size with
      | None => false
      | Some manifest_end =>
          (manifest_end <=? zlen image) && ((total_image_size =? 0) || (total_image_size <=? zlen image))
      end
  end.

(** The loop of [scan_for_anchor]. *)
Fixpoint scan_from (fuel : nat) (image : list Z) (offset : Z) : res ReaderError Z :=
  match fuel with
  | O => Panic
  | S fuel =>
      if offset + LOCATOR_SIZE <=? zlen image then
        let? magic := or_panic (get_range image offset (offset + 8)) in
        if bytes_eqb magic LOCATOR_MAGIC && anchor_header_is_plausible image offset then Ok offset
        else scan_from fuel image (offset + 8)
      else Err ReaderBadMagic
  end.

Definition scan_for_anchor (image : list Z) : res ReaderError Z := scan_from (S (length image)) image 0.

Definition intel_microcode (image : list Z) (anchor : LocatorBlock) : option (list Z) :=
  let start := lb_microcode_offset anchor in
  let size := lb_microcode_size anchor in
  if (start =? 0) || (size =? 0) then None else
  end_ ← checked_add usize_max start size; get_range image start end_.

(** ** The policy record *)

(** [(0..len.saturating_sub(TRUST_SIZE - 1)).step_by(8)] *)
Definition trust_offsets (len : Z) : list Z :=
  map (fun i => 8 * i) (seqZ 0 ((saturating_sub len (TRUST_SIZE - 1) + 7) / 8)).

Fixpoint first_trust (image : list Z) (offsets : list Z) : res ReaderError TrustBlock :=
  match offsets with
  | [] => Err KeyNotFound
  | offset :: offsets =>
      let? bytes := or_panic (get_range image offset (offset + TRUST_SIZE)) in
      match trust_parse bytes with Some trust => Ok trust | None => first_trust image offsets end
  end.

Definition ffs_read_trust (image : list Z) : res ReaderError TrustBlock := first_trust image (trust_offsets (zlen image)).

(** ** The directory *)

Context {C : Crypto}.

Definition trust_policy (image : list Z) (trust : TrustBlock) (keys : list VerificationKey) : RootPolicy := {|
  rp_image_family := tb_image_family trust;
  rp_minimum_security_version := tb_minimum_security_version trust;
  rp_image_size := zlen image; rp_max_directory_size := zlen image; rp_keys := keys |}.

Definition read_verified_manifest (image : list Z) (offset size : Z) (trust : TrustBlock) : res ReaderError ImageManifest :=
  let? end_ := ok_or (checked_add usize_max offset size) OutOfBounds in
  let? data := ok_or (get_range image offset end_) OutOfBounds in
  let? keys := valid_keys trust in
  let? root := map_err (fun _ => SignatureInvalid) (authenticate_root (trust_policy image trust keys) data) in
  let reference := r_directory root in
  let? start := ok_or (try_from usize_max (dr_offset reference)) OutOfBounds in
  let? size := ok_or (try_from usize_max (dr_size reference)) OutOfBounds in
  let? end_ := ok_or (checked_add usize_max start size) OutOfBounds in
  let? directory := ok_or (get_range image start end_) OutOfBounds in
  let? _ := map_err (fun _ => DigestMismatch) (directory_verify_bytes reference directory) in
  let? view := manifest_parse directory in
  to_owned_manifest view.

(** Also [read_manifest_volatile], whose reference has the fields of the block. *)
Definition read_manifest (image : list Z) (anchor : LocatorBlock) : res ReaderError ImageManifest :=
  let? trust := ffs_read_trust image in
  read_verified_manifest image (lb_manifest_offset anchor) (lb_manifest_size anchor) trust.

(** ** Files *)

Definition find_region (m : ImageManifest) (name : list Z) : res ReaderError ImageRegion :=
  ok_or (snd <$> list_find (fun r => im_name r = name) (im_regions m)) RegionNotFound.

Definition find_entry (r : ImageRegion) (name : list Z) : res ReaderError RegionEntry :=
  match im_content r with
  | Container children => ok_or (snd <$> list_find (fun e => en_name e = name) children) FileNotFound
  | RawRegion _ => Err FileNotFound
  end.

Definition read_segment_data (image : list Z) (s : Segment) (r : ImageRegion) (e : RegionEntry) : res ReaderError (list Z) :=
  let? start := ok_or (n ← checked_add u32_max (im_offset r) (en_offset e); checked_add u32_max n (sg_offset s)) OutOfBounds in
  let? end_ := ok_or (checked_add usize_max start (sg_stored_size s)) OutOfBounds in
  ok_or (get_range image start end_) OutOfBounds.

Definition verify_entry_digests (image : list Z) (e : RegionEntry) (r : ImageRegion) : res ReaderError unit :=
  match en_content e with
  | RawEntry _ => Err CannotVerifyInPlace
  | File _ segments digests =>
      match segments with
      | [seg] =>
          if bool_decide (sg_compression seg = CompressionNone) then
            let? data := read_segment_data image seg r e in
            map_err (fun _ => DigestMismatch) (verify_digest_set data digests)
          else Err CannotVerifyInPlace
      | _ => Err CannotVerifyInPlace
      end
  end.
End reader.

(** ** Finding *)

Lemma get_range_sub {A} (l : list A) a n : 0 <= a -> 0 <= n -> a + n <= zlen l -> get_range l a (a + n) = Some (sub l a n).
Proof. intros. apply get_range_Some. replace (a + n - a) with n by lia. split_and!; [lia..|done]. Qed.

Section finding.
Context {T : Target}.

(** At [o] the image holds a locator whose root lies in the image. *)
Definition anchor_at (image : list Z) (o : Z) : Prop :=
  o + LOCATOR_SIZE <= zlen image /\ exists b, locator_parse (sub image o LOCATOR_SIZE) = Some b /\
    lb_manifest_size b <> 0 /\ lb_manifest_offset b + lb_manifest_size b <= zlen image /\
    (lb_total_image_size b = 0 \/ lb_total_image_size b <= zlen image).

Lemma anchor_test image o : 0 <= o -> zlen image <= usize_max -> o + LOCATOR_SIZE <= zlen image ->
  (bytes_eqb (sub image o 8) LOCATOR_MAGIC && anchor_header_is_plausible image o = true) <-> anchor_at image o.
Proof.
  intros Ho Hmax Hlen. unfold LOCATOR_SIZE in *. unfold anchor_header_is_plausible, anchor_at, LOCATOR_SIZE.
  rewrite (get_range_sub image o 40) by lia. set (h := sub image o 40).
  assert (Hh : zlen h = 40) by (unfold h; apply zlen_sub; lia).
  assert (Hm : sub h 0 8 = sub image o 8) by (unfold h; rewrite sub_sub by lia; f_equal; lia).
  unfold locator_parse, LOCATOR_SIZE. rewrite Hh. cbn [Z.eqb Pos.eqb]. unfold read_locator. cbn [lb_magic lb_version].
  rewrite Hm. destruct (bytes_eqb (sub image o 8) LOCATOR_MAGIC); cbn [andb]; [|split; [done|]; by intros (_ & b & ? & _)].
  destruct (Z.eqb_spec (u32_at h 8) LOCATOR_VERSION); cbn [negb orb]; [|split; [done|]; by intros (_ & b & ? & _)].
  destruct (Z.eqb_spec (u32_at h 16) 0); [split; [done|]; intros (_ & b & [= <-] & ? & _); done|].
  destruct (checked_add _ _ _) as [e_|] eqn:E.
  - apply checked_add_Some in E as [-> _]. rewrite andb_true_iff, orb_true_iff, !Z.leb_le, Z.eqb_eq. split.
    + intros [? ?]. split; [done|]. eexists. split; [done|]. by cbn.
    + intros (_ & b & [= <-] & _ & ? & ?). done.
  - apply checked_add_None in E. split; [done|]. intros (_ & b & [= <-] & _ & ? & _). cbn in *. lia.
Qed.

Lemma scan_from_S fuel image offset : scan_from (S fuel) image offset =
  if offset + LOCATOR_SIZE <=? zlen image then
    let? magic := or_panic (get_range image offset (offset + 8)) in
    if bytes_eqb magic LOCATOR_MAGIC && anchor_header_is_plausible image offset then Ok offset
    else scan_from fuel image (offset + 8)
  else Err ReaderBadMagic.
Proof. done. Qed.

Lemma scan_from_spec image fuel : zlen image <= usize_max -> forall k, 0 <= k -> zlen image < 8 * k + 8 + 8 * Z.of_nat fuel ->
  match scan_from (S fuel) image (8 * k) with
  | Ok o => exists j, k <= j /\ o = 8 * j /\ anchor_at image o /\ forall i, k <= i < j -> ~ anchor_at image (8 * i)
  | Err e => e = ReaderBadMagic /\ forall i, k <= i -> ~ anchor_at image (8 * i)
  | Panic => False
  end.
Proof.
  intros Hmax. induction fuel as [|fuel IH]; intros k Hk Hf; rewrite scan_from_S;
    (destruct (Z.leb_spec (8 * k + LOCATOR_SIZE) (zlen image)) as [Hle|Hgt];
      [|split; [done|]; intros i Hi [? _]; unfold LOCATOR_SIZE in *; lia]).
  { unfold LOCATOR_SIZE in *. lia. }
  rewrite (get_range_sub image (8 * k) 8) by (unfold LOCATOR_SIZE in *; lia). cbn [or_panic rbind].
  pose proof (anchor_test image (8 * k) ltac:(lia) Hmax Hle) as Ht.
  destruct (_ && _)%bool; [exists k; split; [lia|]; split; [done|]; split; [by apply Ht|lia]|].
  assert (Hno : ~ anchor_at image (8 * k)) by (intros Ha; apply Ht in Ha; done).
  specialize (IH (k + 1) ltac:(lia) ltac:(lia)). replace (8 * k + 8) with (8 * (k + 1)) by lia.
  destruct (scan_from (S fuel) image (8 * (k + 1))) as [o|e|]; [| |done].
  - destruct IH as (j & Hj & -> & Ha & Hbefore). exists j. split; [lia|]. split; [done|]. split; [done|]. intros i Hi.
    destruct (Z.eq_dec i k) as [->|]; [done|]. apply Hbefore. lia.
  - destruct IH as [-> Hno']. split; [done|]. intros i Hi. destruct (Z.eq_dec i k) as [->|]; [done|]. apply Hno'. lia.
Qed.

(** The scan finds the first locator.  On an image of any size the scan ends
    and returns the first 8-byte-aligned offset that holds a locator whose root
    lies in the image, or reports that there is none; it reads nothing out of
    bounds. *)
Theorem scan_for_anchor_finds image : zlen image <= usize_max ->
  match scan_for_anchor image with
  | Ok o => o mod 8 = 0 /\ anchor_at image o /\ forall i, 0 <= i < o -> i mod 8 = 0 -> ~ anchor_at image i
  | Err e => e = ReaderBadMagic /\ forall i, 0 <= i -> i mod 8 = 0 -> ~ anchor_at image i
  | Panic => False
  end.
Proof.
  intros Hmax. unfold scan_for_anchor. pose proof (scan_from_spec image (length image) Hmax 0 ltac:(lia)) as H.
  specialize (H ltac:(unfold zlen; lia)). rewrite Z.mul_0_r in H.
  assert (Hm : forall i, i mod 8 = 0 -> i = 8 * (i / 8)) by (intros i Hi; pose proof (Z.div_mod i 8); lia).
  destruct (scan_from _ _ _) as [o|e|]; [| |done].
  - destruct H as (j & Hj & -> & Ha & Hn). split; [rewrite Z.mul_comm; apply Z.mod_mul; lia|]. split; [done|].
    intros i Hi Hi8. rewrite (Hm i Hi8). apply Hn. specialize (Hm i Hi8). lia.
  - destruct H as [-> Hn]. split; [done|]. intros i Hi Hi8. rewrite (Hm i Hi8). apply Hn. specialize (Hm i Hi8). lia.
Qed.

(** ** The policy record *)

(** The first 8-byte-aligned record of the image is [t]. *)
Definition trust_in (image : list Z) (t : TrustBlock) : Prop :=
  exists k, 0 <= k /\ 8 * k + TRUST_SIZE <= zlen image /\ trust_parse (sub image (8 * k) TRUST_SIZE) = Some t /\
    forall i, 0 <= i < k -> trust_parse (sub image (8 * i) TRUST_SIZE) = None.

Lemma first_trust_spec image n : forall a, 0 <= a ->
  (forall i, a <= i < a + Z.of_nat n -> 8 * i + TRUST_SIZE <= zlen image) ->
  match first_trust image (map (fun i => 8 * i) (seqZ a (Z.of_nat n))) with
  | Ok t => exists k, a <= k < a + Z.of_nat n /\ trust_parse (sub image (8 * k) TRUST_SIZE) = Some t /\
      forall i, a <= i < k -> trust_parse (sub image (8 * i) TRUST_SIZE) = None
  | Err e => e = KeyNotFound /\ forall i, a <= i < a + Z.of_nat n -> trust_parse (sub image (8 * i) TRUST_SIZE) = None
  | Panic => False
  end.
Proof.
  induction n as [|n IH]; intros a Ha Hin; [split; [done|lia]|].
  rewrite seqZ_cons by lia. replace (Z.pred (Z.of_nat (S n))) with (Z.of_nat n) by lia. cbn [map first_trust].
  rewrite (get_range_sub image (8 * a) TRUST_SIZE) by (specialize (Hin a); unfold TRUST_SIZE in *; lia). cbn [or_panic rbind].
  destruct (trust_parse _) as [t|] eqn:Ht; [exists a; split; [lia|]; split; [done|lia]|].
  specialize (IH (Z.succ a) ltac:(lia)). destruct (first_trust _ _) as [t|e|]; (lapply IH; [clear IH|intros i Hi; apply Hin; lia]); [| |done].
  - intros (k & Hk & Hp & Hn). exists k. split; [lia|]. split; [done|]. intros i Hi.
    destruct (Z.eq_dec i a) as [->|]; [done|]. apply Hn. lia.
  - intros [-> Hn]. split; [done|]. intros i Hi. destruct (Z.eq_dec i a) as [->|]; [done|]. apply Hn. lia.
Qed.

Lemma ffs_read_trust_Ok image t : ffs_read_trust image = Ok t <-> trust_in image t.
Proof.
  unfold ffs_read_trust, trust_offsets, trust_in. set (n := (saturating_sub (zlen image) (TRUST_SIZE - 1) + 7) / 8).
  pose proof (zlen_nonneg image) as Hz. unfold saturating_sub in n. unfold TRUST_SIZE in *.
  assert (Hn : 0 <= n) by (apply Z.div_pos; lia).
  assert (Hn' : forall i, 0 <= i -> (i < n <-> 8 * i + 320 <= zlen image)).
  { intros i Hi. pose proof (Z.div_mod (Z.max 0 (zlen image - (320 - 1)) + 7) 8 ltac:(lia)).
    pose proof (Z.mod_pos_bound (Z.max 0 (zlen image - (320 - 1)) + 7) 8 ltac:(lia)). unfold n. lia. }
  pose proof (first_trust_spec image (Z.to_nat n) 0 ltac:(lia)) as H. rewrite Z2Nat.id in H by done. unfold TRUST_SIZE in H.
  specialize (H ltac:(intros i Hi; apply Hn'; lia)). destruct (first_trust _ _) as [t'|e|]; [| |done].
  - destruct H as (k & Hk & Hp & Hno). split.
    + intros [= <-]. exists k. split; [lia|]. split; [apply Hn'; lia|]. split; [done|]. intros i Hi. apply Hno. lia.
    + intros (j & Hj & _ & Hp' & Hno'). destruct (Z.lt_trichotomy j k) as [?|[->|?]].
      * rewrite Hno in Hp' by lia. done.
      * congruence.
      * rewrite Hno' in Hp by lia. done.
  - destruct H as [-> Hno]. split; [done|]. intros (j & Hj & Hl & Hp' & _). rewrite Hno in Hp'; [done|]. split; [lia|]. apply Hn'; lia.
Qed.

Lemma trust_in_keys {E} image t : bytes_ok image -> trust_in image t ->
  valid_keys (E := E) t = Ok (sub (tb_keys t) 0 (tb_key_count t)).
Proof.
  intros Hb (k & Hk & Hz & Hp & _). unfold trust_parse in Hp. destruct (Z.eqb_spec (zlen (sub image (8 * k) TRUST_SIZE)) TRUST_SIZE) as [He|]; [|done].
  cbn zeta in Hp. destruct (trust_header_ok _) eqn:Hh; [|done]. injection Hp as <-.
  destruct (trust_header_keys (E := E) _ _ eq_refl (bytes_ok_sub _ _ _ Hb) He Hh) as (keys & Hv & -> & _). done.
Qed.

(** ** What a directory that was read rests on *)

Context {C : Crypto}.

(** [m] is the tree of the directory named by a root that lies at [offset] and is
    trusted under the policy of the record [trust]. *)
Record manifest_trusted (image : list Z) (offset size : Z) (trust : TrustBlock) (root : Root) (m : ImageManifest) : Prop := {
  mt_place : offset + size <= zlen image;
  mt_root : root_trusted
    {| rp_image_family := tb_image_family trust; rp_minimum_security_version := tb_minimum_security_version trust;
       rp_image_size := zlen image; rp_max_directory_size := zlen image;
       rp_keys := sub (tb_keys trust) 0 (tb_key_count trust) |} (sub image offset size) root;
  mt_digest : feature_sha2 = true /\
    sha256 (sub image (dr_offset (r_directory root)) (dr_size (r_directory root))) = dr_digest (r_directory root);
  mt_tree : exists v, manifest_parse (sub image (dr_offset (r_directory root)) (dr_size (r_directory root))) = Ok v /\
    to_owned_manifest v = Ok m
}.

Lemma verify_bytes_Ok r bytes : directory_verify_bytes r bytes = Ok tt <->
  zlen bytes <= u64_max /\ zlen bytes = dr_size r /\ feature_sha2 = true /\ sha256 bytes = dr_digest r.
Proof.
  unfold directory_verify_bytes, verify_digest. destruct (bool_decide_reflect (try_from u64_max (zlen bytes) = Some (dr_size r))) as [H|H]; cbn [negb].
  - apply try_from_Some in H as [-> H]. rewrite map_err_Ok, verify_digest_set_Ok. cbn [ds_sha256 ds_sha3_256]. naive_solver.
  - split; [done|]. intros (? & Hz & _). destruct H. apply try_from_Some. lia.
Qed.

Lemma image_range_Ok {E} (image : list Z) offset size (e : E) data : 0 <= offset -> 0 <= size -> zlen image <= usize_max ->
  (let? end_ := ok_or (checked_add usize_max offset size) e in ok_or (get_range image offset end_) e) = Ok data <->
  offset + size <= zlen image /\ data = sub image offset size.
Proof.
  intros. rewrite rbind_Ok. setoid_rewrite ok_or_Ok. setoid_rewrite checked_add_Some. setoid_rewrite get_range_Some. split.
  - intros (? & [-> _] & _ & ? & ->). split; [done|]. f_equal. lia.
  - intros [? ->]. exists (offset + size). replace (offset + size - offset) with size by lia. split_and!; (done || lia).
Qed.

Lemma rbind_assoc {E A B D} (m : res E A) (f : A -> res E B) (g : B -> res E D) :
  (let? b := (let? a := m in f a) in g b) = (let? a := m in let? b := f a in g b).
Proof. by destruct m. Qed.

Lemma read_verified_manifest_Ok image offset size trust m :
  bytes_ok image -> zlen image <= usize_max -> 0 <= offset -> 0 <= size -> trust_in image trust ->
  read_verified_manifest image offset size trust = Ok m <-> exists root, manifest_trusted image offset size trust root m.
Proof.
  intros Hb Hmax Ho Hs Ht. pose proof usize_max_bounds as Hu. unfold read_verified_manifest.
  rewrite <- rbind_assoc, rbind_Ok. setoid_rewrite image_range_Ok; [|done..].
  setoid_rewrite (trust_in_keys image trust Hb Ht). cbn [rbind].
  unfold trust_policy. set (policy := Build_RootPolicy _ _ _ _ _). split.
  - intros (data & [Hp ->] & H). apply rbind_Ok in H as (root & Hr & H). rewrite map_err_Ok, authenticate_root_spec in Hr by by apply bytes_ok_sub.
    destruct (rwf_directory _ (rt_wf _ _ _ Hr)) as [Hdo Hds _ _]. unfold u64_ok in Hdo, Hds.
    exists root. rust_step H. rust_step Ha. apply try_from_Some in Ha as [-> _]. rust_step H. rust_step Ha. apply try_from_Some in Ha as [-> _].
    rewrite <- rbind_assoc in H. apply rbind_Ok in H as (d & Hdir & H). rewrite image_range_Ok in Hdir by (try done; lia).
    destruct Hdir as [_ ->]. rust_step H. rust_step Ha. destruct a. apply verify_bytes_Ok in Ha as (_ & _ & Hf & Hsha).
    rust_step H. constructor; eauto.
  - intros [root [Hp Hr [Hf Hsha] (v & Hv & Hm)]]. exists (sub image offset size). split; [done|].
    destruct (rwf_directory _ (rt_wf _ _ _ Hr)) as [Hdo Hds _ _]. unfold u64_ok in Hdo, Hds. pose proof (rt_directory _ _ _ Hr) as [_ Hin].
    cbn [rp_image_size] in Hin.
    rewrite (proj2 (authenticate_root_spec policy _ root (bytes_ok_sub _ _ _ Hb))) by done. cbn [map_err rbind].
    rewrite !try_from_ok by lia. cbn [ok_or rbind]. rewrite <- rbind_assoc.
    rewrite (proj2 (image_range_Ok image (dr_offset (r_directory root)) (dr_size (r_directory root)) OutOfBounds _ (proj1 Hdo) (proj1 Hds) Hmax)) by (split; [exact Hin|done]). cbn [rbind].
    rewrite (proj2 (verify_bytes_Ok _ _)) by (rewrite zlen_sub by lia; split_and!; (done || lia)). cbn [map_err rbind]. by rewrite Hv.
Qed.

(** C26: Host inspection reads a tree exactly when the image earns it.
    [read_manifest] returns [m] just when the first policy record of the image
    trusts the root the locator names - image family, security version, one Ed25519 key,
    everything inside the image - the directory has the digest of that root, and
    [m] is the tree the directory holds. *)
Theorem read_manifest_iff image anchor m :
  bytes_ok image -> zlen image <= usize_max -> 0 <= lb_manifest_offset anchor -> 0 <= lb_manifest_size anchor ->
  read_manifest image anchor = Ok m <->
    exists trust root, trust_in image trust /\
      manifest_trusted image (lb_manifest_offset anchor) (lb_manifest_size anchor) trust root m.
Proof.
  intros Hb Hmax Ho Hs. unfold read_manifest. rewrite rbind_Ok. split.
  - intros (trust & Ht & H). apply ffs_read_trust_Ok in Ht. apply read_verified_manifest_Ok in H as [root H]; [|done..]. eauto.
  - intros (trust & root & Ht & H). exists trust. split; [by apply ffs_read_trust_Ok|]. apply read_verified_manifest_Ok; [done..|]. eauto.
Qed.

(** ** One file *)

Lemma read_segment_data_Ok image s r e data :
  zlen image <= usize_max -> 0 <= im_offset r -> 0 <= en_offset e -> 0 <= sg_offset s -> 0 <= sg_stored_size s ->
  read_segment_data image s r e = Ok data <->
    im_offset r + en_offset e + sg_offset s <= u32_max /\
    im_offset r + en_offset e + sg_offset s + sg_stored_size s <= zlen image /\
    data = sub image (im_offset r + en_offset e + sg_offset s) (sg_stored_size s).
Proof.
  intros. unfold read_segment_data. rewrite rbind_Ok. setoid_rewrite ok_or_Ok at 1. setoid_rewrite bind_Some. split.
  - intros (? & (? & [-> _]%checked_add_Some & [-> ?]%checked_add_Some) & H'). apply image_range_Ok in H'; [|lia..|done]. naive_solver.
  - intros (Hu & Hz & ->). exists (im_offset r + en_offset e + sg_offset s). split.
    + exists (im_offset r + en_offset e). split; apply checked_add_Some; (split; [done|lia]).
    + apply image_range_Ok; [lia..|done|done].
Qed.

(** A file passes exactly when its bytes do.  The check of an entry succeeds
    just when the entry is a file of one uncompressed segment whose bytes lie in
    the image and match every digest the directory holds for it, one at
    least. *)
Theorem verify_entry_digests_iff image e r :
  zlen image <= usize_max -> 0 <= im_offset r -> 0 <= en_offset e ->
  (forall s, In s (match en_content e with File _ segments _ => segments | RawEntry _ => [] end) ->
    0 <= sg_offset s /\ 0 <= sg_stored_size s) ->
  verify_entry_digests image e r = Ok tt <->
    exists ty s digests, en_content e = File ty [s] digests /\ sg_compression s = CompressionNone /\
      im_offset r + en_offset e + sg_offset s <= u32_max /\
      im_offset r + en_offset e + sg_offset s + sg_stored_size s <= zlen image /\
      let data := sub image (im_offset r + en_offset e + sg_offset s) (sg_stored_size s) in
      (ds_sha256 digests <> None \/ ds_sha3_256 digests <> None) /\
      (forall d, ds_sha256 digests = Some d -> feature_sha2 = true /\ sha256 data = d) /\
      (forall d, ds_sha3_256 digests = Some d -> feature_sha3 = true /\ sha3_256 data = d).
Proof.
  intros Hmax Hr He Hsg. unfold verify_entry_digests. destruct (en_content e) as [ty segments digests|]; [|naive_solver].
  destruct segments as [|s [|]]; [naive_solver| |naive_solver]. destruct (Hsg s (or_introl eq_refl)) as [Hso Hss]. clear Hsg.
  destruct (bool_decide_reflect (sg_compression s = CompressionNone)) as [Hc|]; [|naive_solver].
  rewrite rbind_Ok. setoid_rewrite map_err_Ok. setoid_rewrite verify_digest_set_Ok.
  setoid_rewrite read_segment_data_Ok; [|done..]. split.
  - intros (? & (Hu & Hz & ->) & Hd). exists ty, s, digests. done.
  - intros (? & ? & ? & [= <- <- <-] & _ & Hu & Hz & Hd). eexists. split; [split; [exact Hu|]; by split|]. exact Hd.
Qed.
End finding.

(** ** Witnesses *)

#[local] Existing Instance demo_crypto.


Definition demo_trust : TrustBlock := {|
  tb_magic := TRUST_MAGIC; tb_version := TRUST_VERSION; tb_encoded_size := TRUST_SIZE;
  tb_minimum_security_version := 4; tb_key_count := 2; tb_reserved := 0; tb_image_family := replicate 16 3;
  tb_keys := rp_keys demo_policy ++
    replicate 2 {| vk_key_id := 0; vk_algorithm := 0; vk_key_lo := zeros 32; vk_key_hi := zeros 32 |} |}.

Definition demo_locator : LocatorBlock := {|
  lb_magic := LOCATOR_MAGIC; lb_version := LOCATOR_VERSION; lb_manifest_offset := 512; lb_manifest_size := 512;
  lb_total_image_size := 0; lb_anchor_offset := 320; lb_microcode_offset := 0; lb_microcode_size := 0; lb_image_offset := 0 |}.

(** The root of an image whose directory is [demo_directory]. *)
Definition image_root (signature : list Z) : Root := {|
  r_security_version := 5; r_image_family := replicate 16 3; r_key_id := 2; r_descriptors := (Some demo_descriptor, None);
  r_directory := {| dr_offset := 1024; dr_size := zlen demo_directory; dr_digest := sha256 demo_directory |};
  r_signature := signature |}.

Definition demo_image_root : Root := Eval vm_compute in image_root (sub (root_encode (image_root (zeros 64))) 0 64).

(** A policy record, a locator, the root and the directory. *)
Definition demo_image : list Z :=
  Eval vm_compute in upd (upd (upd (upd (zeros 5120) 0 (trust_bytes demo_trust)) 320 (locator_bytes demo_locator))
    512 (root_encode demo_image_root)) 1024 demo_directory.

Lemma demo_image_ok : bytes_ok demo_image.
Proof. apply (bool_decide_unpack _). vm_compute. exact I. Qed.

Lemma demo_image_reads : read_manifest demo_image demo_locator = Ok demo_manifest.
Proof. vm_compute. reflexivity. Qed.

Lemma read_manifest_iff_witness : exists trust root, trust_in demo_image trust /\
  manifest_trusted demo_image 512 512 trust root demo_manifest.
Proof.
  apply (read_manifest_iff demo_image demo_locator); [apply demo_image_ok|by vm_compute..|apply demo_image_reads].
Defined.

Lemma scan_for_anchor_finds_witness : scan_for_anchor demo_image = Ok 320 /\
  forall i, 0 <= i < 320 -> i mod 8 = 0 -> ~ anchor_at demo_image i.
Proof.
  assert (E : scan_for_anchor demo_image = Ok 320) by (vm_compute; reflexivity).
  split; [exact E|]. assert (Hz : zlen demo_image <= usize_max) by (by vm_compute). pose proof (scan_for_anchor_finds demo_image Hz) as H.
  rewrite E in H. apply H.
Defined.

(** A file of three bytes. *)
Definition small_segment : Segment := {|
  sg_name := [0x74]; sg_kind := Code; sg_offset := 1; sg_stored_size := 3; sg_initialized_size := 3;
  sg_stored_digest := replicate 32 6; sg_loaded_digest := replicate 32 6; sg_loaded_size := 3; sg_in_place_size := 3;
  sg_load_addr := 0; sg_compression := CompressionNone; sg_flags := {| sf_execute := false; sf_write := false; sf_read := true |} |}.
Definition small_entry : RegionEntry := {|
  en_name := [0x6d]; en_offset := 1; en_size := 4;
  en_content := File StageCode [small_segment] {| ds_sha256 := Some (replicate 32 1); ds_sha3_256 := None |} |}.
Definition small_region : ImageRegion := {|
  im_name := [0x72]; im_offset := 2; im_size := 6; im_content := Container [small_entry] |}.
Definition small_image : list Z := [9; 9; 9; 9; 1; 2; 3; 9].

Lemma verify_entry_digests_iff_witness : exists ty s digests,
  en_content small_entry = File ty [s] digests /\ sg_compression s = CompressionNone.
Proof.
  assert (E : verify_entry_digests small_image small_entry small_region = Ok tt) by (vm_compute; reflexivity).
  apply (verify_entry_digests_iff small_image small_entry small_region) in E; [|by vm_compute..|].
  - destruct E as (ty & s & digests & He & Hc & _). exists ty, s, digests. split; assumption.
  - intros s [<-|[]]. by vm_compute.
Defined.
